(* ===== verification/_CoqProject ===== *)
-Q . S2P
Prelude.v
Async.v
JsMap.v
Errors.v
Ids.v
CaseFolding.v
DocumentDomain.v
JobDomain.v
IdentityDomain.v
OrganizationDomain.v
IsoDate.v
Json.v
Text.v
JsonText.v
JsonPrint.v
JsonGrammar.v
Pagination.v
Provenance.v
Events.v
Commands.v
Aggregates.v
Writers.v
IdentityStore.v
IdentityApp.v
IdentityWorld.v
IdentityFlows.v
OrganizationStore.v
OrganizationApp.v
DocumentApp.v
AuditDomain.v
AuditApp.v
Postgres.v
Inbox.v
EventStore.v
EventPipeline.v
EventWorld.v
EventRuns.v
EventDrain.v
Nats.v
Sql.v
DocumentPostgres.v
OrganizationPostgres.v
IdentityPostgres.v
JobsStore.v
JobsApp.v
JobsWorld.v
JobsPostgres.v
RateLimit.v
Env.v
Config.v
Http.v
Replies.v
RatePostgres.v
RateGate.v
Workflow.v
ProcessingApp.v
ProcessingWorld.v
ProcessingRace.v
