(* ===== verification/Prelude.v ===== *)
(** * A verification of n2f-nest

    n2f-nest is a modular NestJS backend (TypeScript, under [src/src]): bounded
    contexts (document, jobs, identity, organization, audit) with a domain of
    immutable aggregates, application commands over injected ports, and
    in-memory and PostgreSQL adapters; shared kernels for results, identifiers,
    provenance, events, pagination and JSON; a workflow that connects documents
    with jobs through published events; and a platform that delivers events at
    least once and limits request rates.  This library models the program's own
    logic and proves what makes it correct.

    ** The files

    Shared kernels.

    - [Prelude]: results ([shared/errors/result.ts]), JavaScript values, strings
      (lists of UTF-16 code units), numbers and dates, versions
      ([shared/version]), a stable sort; the tactics [breflect] (boolean tests
      to propositions) and [ok_branches] (follow a computation known to
      succeed); the hint database [n2f]; lemmas on dates and trimming.
    - [Async]: asynchronous commands as trees of port calls ([Prog]), pools of
      commands that interleave at those calls ([pool_step]), a rely-guarantee
      rule for them ([wp], [pool_safe]), one component's commands within a
      larger program ([embed]), and runs against ports that are functions
      ([play], [tried], [schedule]).
    - [JsMap]: insertion-ordered maps, the JavaScript [Map] of every store.
    - [Errors]: failures and their public projection ([shared/errors]).
    - [Ids]: UUID text, the UUIDv7 layout and the monotonic generator
      ([shared/id]).
    - [CaseFolding]: the interface of the Unicode part of [toLowerCase] that
      email normalization relies on, with its ASCII instance.
    - [IsoDate]: [Date.prototype.toISOString] and [new Date(text)] for the texts
      it writes.
    - [Json], [Text], [JsonText], [JsonPrint]: JSON values; UTF-8; the strict
      JSON reader ([shared/http/json.ts]) beside the host's [JSON.parse]; the
      text [JSON.stringify] prints and that it is read back.
    - [JsonGrammar]: the texts of request bodies as a grammar, and that the
      reader accepts exactly these.
    - [Pagination] ([shared/pagination]): page requests, cursors, keyset order
      and windows.
    - [Provenance] ([shared/provenance]): actors, attributions, works, scopes,
      untrusted hints and the factory.
    - [Events] ([shared/events/index.ts], [provenance.ts]): envelopes, their
      validation and normalization, and the provenance guard every writer runs.
    - [Commands], [Aggregates], [Writers]: what the modules' commands share: the
      monad of fallible port calls, stores of versioned aggregates and how they
      evolve, and the writers that guard, write, publish and take back.
    - [Inbox] ([shared/events/in-memory-inbox.ts], [retry.ts]): the per-consumer
      delivery ledger and the retry schedule.
    - [Postgres] ([shared/postgres/index.ts]): the database handle: a
      transaction as a step relation and the contract its callers rely on
      ([transacts]); migrations.
    - [EventStore] ([shared/events/postgres/store.ts]): leased rows, the outbox
      and the mailbox, each statement a function on the table's rows.
    - [EventPipeline] ([platform/events], [platform/runtime/outbox-worker.ts]):
      publication, the dispatcher and the subscribers' loops as programs over
      their transactions; [EventWorld]: writers, dispatchers, subscribers,
      operators and maintenance at once; [EventRuns], [EventDrain]: what that
      guarantees, and sample runs.
    - [Nats] ([shared/events/nats/broker.ts], [platform/runtime/
      nats-event-worker.ts]): the broker between the outbox and the mailbox, over
      an interface of what JetStream documents, with a small instance.
    - [RateLimit] ([platform/ratelimit/in-memory-store.ts]): the fixed-window
      store; [RatePostgres] ([platform/ratelimit/postgres/store.ts]): the store
      several processes share; [RateGate] ([rate-limit.interceptor.ts]): the gate
      before a handler, over the interface both stores implement.
    - [Env] ([shared/env]), [Config] ([platform/runtime/config.ts]): the
      environment reader, and the runtime configuration with what production
      refuses.
    - [Http], [Replies] ([shared/http], [platform/http/
      request-problem.filter.ts]): what a thrown value is answered with,
      completions, cookies and replies.

    Bounded contexts: a domain file with the aggregates of [modules/*/domain];
    a store with the failure mapping and the in-memory adapters of
    [modules/*/infra]; the commands and queries of [modules/*/app] as programs
    over their ports; and the world in which they run together.

    - [DocumentDomain]; [DocumentApp] ([DocumentStore], [DocumentCommands],
      [DocumentWorld]).
    - [JobDomain]; [JobsStore]; [JobsApp]; [JobsWorld].
    - [IdentityDomain]; [IdentityStore]; [IdentityApp]; [IdentityWorld] (what
      holds under every interleaving); [IdentityFlows] (what one sign-in, reset
      or sweep does).
    - [OrganizationDomain]; [OrganizationStore]; [OrganizationApp].
    - [AuditDomain] (the entry and the stored form of its work); [AuditApp].

    PostgreSQL adapters ([modules/*/infra/postgres]): every statement a function
    on tables of rows with their checks, keys, references and column ranges.

    - [Sql]: statements and what fails them; the relation of rows to aggregates.
    - [JobsPostgres], [DocumentPostgres], [OrganizationPostgres],
      [IdentityPostgres].

    The workflow of documents and jobs.

    - [Workflow]: the decoder of job events ([JobEvents]) and the documents that
      follow their jobs ([Projection]).
    - [ProcessingApp]: the request for processing and the subscription that
      carries job outcomes to documents, over the ports of three modules.
    - [ProcessingWorld]: both modules, requests and deliveries at once.
    - [ProcessingRace]: concrete runs, one that goes well and one that strands a
      document.

    Each definition that translates code is preceded by a comment
    [@src file:first-last symbol] (paths under [src/]); names are the source's
    where Rocq allows.

    ** How the code is modelled

    A [Result<T, Failure>] is a [Res T]; the idiom
    [if (!x.ok) return x] is the bind of the error monad, and early returns are
    the branches of an [if], in the source's order.  Classes with private state
    are records, their methods functions; an object the code compares by
    identity is a distinguished constructor (a document's [This], the same
    object).  Brands kept in a [WeakSet] are a boolean field.  [Map] is [JsMap],
    whose iteration order is the insertion order.  Numbers are integers or
    "some other number"; every test that guards arithmetic asks for safe
    integers first, so arithmetic is on [Z].  Text that is only ever exchanged
    as JSON is kept as the value it spells, and its length in bytes is computed.

    State that several calls share is threaded explicitly.  A call that awaits
    is two operations when what other calls do meanwhile matters: [begin] and
    [settle] of a delivery ([Inbox]), [beginCommit] and [finishCommit] of a
    commit ([JobStore]).  Application commands are [Prog] trees; in the worlds
    they interleave at every port call, a commit being one step there (what
    happens when another commit runs during its publication is
    [rollback_overwrites]).  A world's ports are relations: each may answer as
    its adapter would or fail as an unreliable dependency does.

    Time, identifiers, entropy, jitter, authentication, password hashing,
    collation and the failures of a dependency are arguments or relations left
    open: theorems hold for every clock reading, every failure, every schedule.

    ** What is proved

    - End to end: whatever runs together, in any interleaving, with events
      delivered late, repeatedly and in any order, documents tell the truth
      about their jobs ([processing_consistent]) and a completion that is
      delivered reaches the document that waits for it
      ([completion_reaches_document]).  Every event a jobs command publishes
      decodes to the outcome its document must see ([job_event_contract]), and a
      document that receives its job's outcomes, duplicated and reordered, ends
      in the state of its job ([document_follows_job]).
    - Events: an event whose writer was told it is enqueued is never lost and
      none is made up, whatever crashes, fails or stays uncertain
      ([no_event_lost]); leases exclude each other ([leases_exclusive]); and when
      nothing fails, as many turns as there are rows deliver everything to every
      consumer ([pipeline_drains]).  They rest on what a transaction promises,
      which the handle keeps ([transaction_truthful]); a database is brought to
      exactly the migrations it lacks, or left alone ([migrate_exact]).
    - Consistency of each module under concurrency: versions, uniqueness, one
      event per change, legal transitions only ([jobs_history],
      [documents_consistent], [organizations_consistent],
      [sessions_prove_password]), authorization of every change, for
      the very record it touched ([changes_authorized]), convergence of racing
      submissions, the loser of a race to retry aside ([submissions_converge]),
      single acceptance, then and at every later time
      ([invitation_accepted_once]), single recording ([audit_once]).
    - What one command does on every branch: [transition_effect],
      [process_effect], [reaper_effect], [login_effect], [reset_effect],
      [commit_atomic]; that refusals of a sign-in look alike
      ([refusals_alike]); that the pruning sweep ends ([sweep_ends]).
    - The PostgreSQL adapters implement the in-memory ones: over rows that spell
      the stored aggregates, each writer answers as its in-memory counterpart
      does and leaves rows that spell its result ([jobs_postgres_refines],
      [documents_postgres_refines], [organizations_postgres_refines],
      [identities_postgres_refines]), for aggregates within the columns' ranges;
      where text has a U+0000 they differ ([nul_refused]).
    - Queries against their reference definitions: pages of a listing put
      together are the sorted table, each row once ([listing_complete],
      [jobs_listing_complete], [audit_trail_exact], over [paging_complete] and
      [cursor_roundtrip]); the access query ([access_query_exact]).
    - Persistence: what any reachable aggregate stores is accepted by its own
      [restore] and gives the same aggregate back ([reachable_restore],
      [job_reachable_restore], [identity_rows_restore],
      [organization_rows_restore], [stored_rows_restore],
      [audit_row_restores]).
    - State machines: the only transitions, their guards and what they change
      ([step_lifecycle], [job_transition_edge], [identity_step_edge],
      [session_usability], [challenge_single_use], [credential_secret_token],
      [organization_step_edge], [membership_changes],
      [invitation_decided_once]), with bounds and progress for jobs
      ([job_runs_bounded], [job_open_spec]).
    - The in-memory delivery ledger: events are accepted once ([accept_once]), handled
      exclusively and a bounded number of times ([exclusive_delivery],
      [receipt_lifecycle]), and drained in order ([drain_in_order]), under every
      interleaving; the retry schedule's bounds ([retryDelay_bounds]).
    - JSON: the strict reader ends on every text ([parsing_terminates]), accepts
      exactly the texts of a grammar and reads what they spell
      ([decodeObject_exact]), agrees with the host's parser where it accepts
      ([decodeObject_sound]) and reads back what [JSON.stringify] prints
      ([decodeObject_stringify]).
    - Provenance and events: envelopes are stable under decoding
      ([envelope_roundtrip]), say what they were created with
      ([create_faithful]), and are accepted by a writer only for its own work
      ([assertEventWork_exact]); lineage ([factory_lineage]) and the treatment
      of untrusted hints ([enter_untrusted]).
    - Rate limiting: the store with its pruning answers exactly as a count over
      the whole history of calls ([fixed_window]), and so does the table several
      processes share ([postgres_window]); the gate lets a handler run exactly
      when no policy refuses ([gate_exact]).
    - The broker: what was acknowledged is kept by the stream or is in the sink,
      and nothing is acknowledged before, unless the stream discarded it past the
      age or the size it was provisioned with ([relay_never_loses]).
    - Configuration: what loads is within its bounds, and in production holds
      none of the settings meant for development ([runtime_config_sound]).
    - Answers: a thrown value that is no problem of the program's leaves as the
      fixed problem of its body error or of its status, or as an internal error
      ([errors_opaque]); cookies are read back as they were set
      ([cookies_roundtrip]).

    Five theorems record where the code does less than it says:
    [early_completion_strands] (a job that completes before its document waits
    for it), [phantom_event] (an event of a change that was taken back),
    [rollback_overwrites] (a failed publication can undo another commit),
    [retry_race_fails] (a lost retry race is an error, not the winner's job),
    [canceled_retry_sticks] (a reordered cancellation leaves the document of a
    canceled job processing).

    ** Bounds and fuel

    Recursion is structural, or takes a fuel that is proved enough: [toHex] and
    [decimal] take sixteen digits, more than the widths they print (48-bit
    times, limits below [10 ^ 8]); [drain] takes the number of due deliveries
    ([drain_in_order]); the workers' loops as many turns as there are open rows
    ([pipeline_drains]); the JSON reader takes the length of its text
    ([parsing_terminates]); following a listing takes one page more than it has
    rows ([paging_complete]); the pruning sweep one batch more than are full
    ([sweep_ends]).

    ** What is not modelled

    The audit module's PostgreSQL statements (its rows and their codec are), row
    locks beyond what [transacts] says, controllers, middleware and the providers
    that wire the modules, logging, metrics, health, mail, keyed digests, timers
    and process lifecycle: I/O, glue, or clients of third-party services.
    PostgreSQL itself is what [transacts] says of it, and JetStream what its
    interface in [Nats] says, its limits and what it discards included; what
    PostgreSQL reads from a text as [jsonb], and the host's parsers of URLs and
    base64, are arguments. *)
From stdpp Require Export base tactics list strings sorting.
From Stdlib Require Export ZArith Lia.

#[global] Open Scope Z_scope.
#[global] Set Default Goal Selector "1".

(** ** Results: [shared/errors/result.ts]. *)

(** @src src/shared/errors/result.ts:2-4 Result
    [{ ok: true, value } | { ok: false, error }]. *)
Inductive Result (E T : Type) : Type :=
| Ok (value : T)
| Err (error : E).
Arguments Ok {E T} value.
Arguments Err {E T} error.

(** @src src/shared/errors/result.ts:15-20 mapError
    Only the failed branch is transformed. *)
Definition mapError {E F T} (result : Result E T) (fn : E -> F) : Result F T :=
  match result with
  | Ok v => Ok v
  | Err e => Err (fn e)
  end.

(** [r.ok] as the source tests it. *)
Definition isOk {E T} (r : Result E T) : bool :=
  match r with Ok _ => true | Err _ => false end.
(** The value of a result, or a default. *)
Definition resultOr {E T} (otherwise : T) (r : Result E T) : T := match r with Ok x => x | Err _ => otherwise end.

Lemma resultOr_ok {E T} (d : T) (r : Result E T) : isOk r = true -> r = Ok (resultOr d r).
Proof. by destruct r. Qed.

(** The early-return idiom [if (!x.ok) return x; ... x.value ...]. *)
#[global] Instance Result_ret E : MRet (Result E) := fun T v => Ok v.
#[global] Instance Result_bind E : MBind (Result E) := fun T U f r =>
  match r with Ok v => f v | Err e => Err e end.

(** ** JavaScript numbers.

    Every numeric test of the modelled code asks first whether a number is a
    safe integer, so a number is either an integral value or some other
    number (a fraction, [NaN] or an infinity), kept with its printed form. *)
Inductive num : Type :=
| Int (z : Z)
| NonInt (text : string).

#[global] Instance num_eq_dec : EqDecision num.
Proof. solve_decision. Defined.

Definition MAX_SAFE_INTEGER : Z := 9007199254740991.

(** [Number.isSafeInteger]. *)
Definition isSafeInteger (n : num) : bool :=
  match n with
  | Int z => Z.abs z <=? MAX_SAFE_INTEGER
  | NonInt _ => false
  end.

(** [Number.isInteger]. *)
Definition isInteger (n : num) : bool :=
  match n with Int _ => true | NonInt _ => false end.

(** [a < k] and [a > k] on a number that may not be integral: the code only
    compares numbers it has found integral, where these are the order on [Z]. *)
Definition num_lt (n : num) (k : Z) : bool :=
  match n with Int z => z <? k | NonInt _ => false end.
Definition num_gt (n : num) (k : Z) : bool :=
  match n with Int z => k <? z | NonInt _ => false end.

(** The value of a number already checked integral. *)
Definition num_val (n : num) : Z :=
  match n with Int z => z | NonInt _ => 0 end.

(** ** JavaScript strings: sequences of UTF-16 code units. *)
Abbreviation jstring := (list Z).

(** The code units of an ASCII literal. *)
Definition js (s : string) : jstring :=
  (fun a => Z.of_N (Ascii.N_of_ascii a)) <$> String.list_ascii_of_string s.
Arguments js : simpl never.

(** [s.length]. *)
Definition jlength (s : jstring) : Z := Z.of_nat (length s).

(** ECMAScript white space and line terminators: what [trim] strips and the
    class [\s] of a regular expression matches. *)
Definition isSpace (c : Z) : bool :=
  ((9 <=? c) && (c <=? 13)) || (c =? 32) || (c =? 160) || (c =? 5760)
  || ((8192 <=? c) && (c <=? 8202)) || (c =? 8232) || (c =? 8233)
  || (c =? 8239) || (c =? 8287) || (c =? 12288) || (c =? 65279).

Fixpoint trimStart (s : jstring) : jstring :=
  match s with
  | c :: s' => if isSpace c then trimStart s' else s
  | [] => []
  end.

(** [s.trim()]. *)
Definition trim (s : jstring) : jstring :=
  reverse (trimStart (reverse (trimStart s))).

(** Character classes of the regular expressions in the source. *)
Definition isLower (c : Z) : bool := (97 <=? c) && (c <=? 122).
Definition isUpper (c : Z) : bool := (65 <=? c) && (c <=? 90).
Definition isDigit (c : Z) : bool := (48 <=? c) && (c <=? 57).
(** [[a-z0-9_.-]]. *)
Definition isNameChar (c : Z) : bool :=
  isLower c || isDigit c || (c =? 95) || (c =? 46) || (c =? 45).

(** [/^[a-z][a-z0-9_.-]{0,n}$/.test(s)]. *)
Definition matchesName (n : nat) (s : jstring) : bool :=
  match s with
  | c :: rest => isLower c && forallb isNameChar rest && Nat.leb (length rest) n
  | [] => false
  end.

(** Ordinal comparison of strings by code unit, as [<] compares them. *)
Fixpoint jcompare (a b : jstring) : comparison :=
  match a, b with
  | [], [] => Eq
  | [], _ :: _ => Lt
  | _ :: _, [] => Gt
  | x :: a', y :: b' =>
      match Z.compare x y with
      | Eq => jcompare a' b'
      | c => c
      end
  end.

(** ** Values of TypeScript type [unknown]. *)
Inductive JsValue : Type :=
| VUndefined
| VNull
| VBool (b : bool)
| VNum (n : num)
| VStr (s : jstring)
| VArr (items : list JsValue)
| VObj (members : list (string * JsValue)).

(** The value of an own property of an object literal, the last one winning. *)
Fixpoint member (k : string) (ms : list (string * JsValue)) : option JsValue :=
  match ms with
  | [] => None
  | (k', v) :: ms' =>
      match member k ms' with
      | Some w => Some w
      | None => if String.eqb k k' then Some v else None
      end
  end.

(** ** Dates: a time value in milliseconds, or an invalid date. *)
Inductive Date : Type :=
| InvalidDate
| DateAt (ms : Z).

Definition MAX_TIME : Z := 8640000000000000.

(** [new Date(ms)]: TimeClip makes a date out of range invalid. *)
Definition newDate (ms : Z) : Date :=
  if Z.abs ms <=? MAX_TIME then DateAt ms else InvalidDate.

(** @src src/modules/document/domain/document.ts:93-95 validDate
    [value instanceof Date && Number.isFinite(value.getTime())]; a time value
    out of range is not the time of any date. Every aggregate repeats it. *)
Definition validDate (d : Date) : bool :=
  match d with
  | DateAt t => Z.abs t <=? MAX_TIME
  | InvalidDate => false
  end.

(** @src src/modules/document/domain/document.ts:97-99 copyDate
    [new Date(value.getTime())]. *)
Definition copyDate (d : Date) : Date :=
  match d with
  | DateAt t => newDate t
  | InvalidDate => InvalidDate
  end.

(** [a.getTime() < b.getTime()] and [<=]: false when either is [NaN]. *)
Definition date_lt (a b : Date) : bool :=
  match a, b with DateAt x, DateAt y => x <? y | _, _ => false end.
Definition date_le (a b : Date) : bool :=
  match a, b with DateAt x, DateAt y => x <=? y | _, _ => false end.

(** [getTime()] of a date known to be valid. *)
Definition getTime (d : Date) : Z :=
  match d with DateAt t => t | InvalidDate => 0 end.

(** A nullable date: [d === null ? null : copyDate(d)] and
    [d !== null && !validDate(d)]. *)
Definition copyDateOpt (d : option Date) : option Date := copyDate <$> d.
Definition badDateOpt (d : option Date) : bool :=
  match d with Some d => negb (validDate d) | None => false end.

(** [x === null]. *)
Definition isNull {A} (o : option A) : bool :=
  match o with None => true | Some _ => false end.

(** ** Optimistic-concurrency tokens: [shared/version/index.ts]. *)

(** @src src/shared/version/index.ts:9-12 UNSAVED *)
Definition UNSAVED : Z := 0.
(** @src src/shared/version/index.ts:12-12 FIRST *)
Definition FIRST : Z := 1.

(** @src src/shared/version/index.ts:14-17 isStoredVersion *)
Definition isStoredVersion (n : num) : bool :=
  isSafeInteger n && negb (num_lt n FIRST).

(** ** Stable sorting, as [Array.prototype.sort] with a comparator. *)
Section Sort.
  Context {A : Type} (cmp : A -> A -> Z).

Fixpoint insert_sorted (x : A) (l : list A) : list A :=
  match l with
  | [] => [x]
  | y :: l' => if cmp x y <=? 0 then x :: l else y :: insert_sorted x l'
  end.

Definition sort_by (l : list A) : list A := foldr insert_sorted [] l.
End Sort.

(** [array.find(p)]. *)
Definition find_first {A} (p : A -> bool) (l : list A) : option A :=
  List.find p l.

(** ** Automation. *)

Create HintDb n2f.
Create Rewrite HintDb n2f.

(** Turn boolean tests in the context and the goal into propositions. *)
Ltac breflect :=
  repeat match goal with
  | H : negb _ = true |- _ => apply negb_true_iff in H
  | H : negb _ = false |- _ => apply negb_false_iff in H
  | H : (_ && _) = true |- _ => apply andb_true_iff in H as [? ?]
  | H : (_ || _) = false |- _ => apply orb_false_iff in H as [? ?]
  | H : (_ <? _) = true |- _ => apply Z.ltb_lt in H
  | H : (_ <? _) = false |- _ => apply Z.ltb_ge in H
  | H : (_ <=? _) = true |- _ => apply Z.leb_le in H
  | H : (_ <=? _) = false |- _ => apply Z.leb_gt in H
  | H : (_ =? _) = true |- _ => apply Z.eqb_eq in H
  | H : (_ =? _) = false |- _ => apply Z.eqb_neq in H
  end.

Lemma bind_ok {E T U} (r : Result E T) (f : T -> Result E U) v :
  r ≫= f = Ok v -> exists x, r = Ok x /\ f x = Ok v.
Proof. destruct r as [x|e]; cbn; [eauto|done]. Qed.

(** Follow an error computation known to succeed: name the value of every
    bind and case on every test, closing the refused branches. *)
Ltac ok_branches H :=
  repeat (cbv beta iota zeta in H;
  match type of H with
  | Err _ = Ok _ => discriminate H
  | Ok _ = Ok _ => injection H as H; try discriminate H; subst
  | _ ≫= _ = Ok _ =>
      let x := fresh "x" in let E := fresh "E" in apply bind_ok in H as (x & E & H)
  | (if ?b then _ else _) = Ok _ =>
      let E := fresh "E" in destruct b eqn:E
  | (match ?r with Ok _ => _ | Err _ => _ end) = Ok _ =>
      let E := fresh "E" in destruct r eqn:E
  end).

(** ** Shared lemmas. *)

Lemma copyDate_valid d : validDate d = true -> copyDate d = d.
Proof. destruct d as [|t]; cbn; [done|]. unfold newDate. by intros ->. Qed.

Lemma validDate_copy d : validDate (copyDate d) = validDate d.
Proof.
  destruct d as [|t]; cbn; [done|]. unfold newDate.
  destruct (Z.abs t <=? MAX_TIME) eqn:E; [cbn; by rewrite E|done].
Qed.

Lemma copyDateOpt_valid d : badDateOpt d = false -> copyDateOpt d = d.
Proof.
  destruct d as [d|]; cbn; [|done]. intros H%negb_false_iff.
  by rewrite copyDate_valid.
Qed.

Lemma date_le_refl d : validDate d = true -> date_le d d = true.
Proof. destruct d; cbn; [done|]. intros _. apply Z.leb_refl. Qed.

Lemma not_date_lt a b :
  validDate a = true -> validDate b = true -> date_lt a b = false -> date_le b a = true.
Proof. destruct a, b; cbn; try done. intros _ _ ?%Z.ltb_ge. by apply Z.leb_le. Qed.

Lemma date_le_not_lt a b : date_le b a = true -> date_lt a b = false.
Proof. destruct a, b; cbn; try done. intros ?%Z.leb_le. by apply Z.ltb_ge. Qed.

Lemma not_date_le a b :
  validDate a = true -> validDate b = true -> date_le a b = false -> date_le b a = true.
Proof. destruct a, b; cbn; try done. rewrite Z.leb_gt, !Z.leb_le. lia. Qed.

Lemma date_le_trans a b c :
  date_le a b = true -> date_le b c = true -> date_le a c = true.
Proof. destruct a, b, c; cbn; try done. rewrite !Z.leb_le. lia. Qed.

Lemma stored_version v :
  FIRST <= v <= MAX_SAFE_INTEGER -> isStoredVersion (Int v) = true.
Proof.
  unfold FIRST. intros H. apply andb_true_iff. split; [apply Z.leb_le; lia|].
  apply negb_true_iff, Z.ltb_ge. unfold FIRST. lia.
Qed.

Lemma date_lt_le a b : date_lt a b = true -> date_le a b = true.
Proof. destruct a, b; cbn; try done. rewrite Z.ltb_lt, Z.leb_le. lia. Qed.

Lemma date_lt_le_trans a b c :
  date_lt a b = true -> date_le b c = true -> date_lt a c = true.
Proof. destruct a, b, c; cbn; try done. rewrite !Z.ltb_lt, Z.leb_le. lia. Qed.

Lemma date_le_lt_trans a b c :
  date_le a b = true -> date_lt b c = true -> date_lt a c = true.
Proof. destruct a, b, c; cbn; try done. rewrite !Z.ltb_lt, Z.leb_le. lia. Qed.

Lemma not_date_le_lt a b :
  validDate a = true -> validDate b = true -> date_le a b = false -> date_lt b a = true.
Proof. destruct a, b; cbn; try done. rewrite Z.leb_gt, Z.ltb_lt. lia. Qed.

#[export] Hint Resolve date_le_refl not_date_lt date_le_not_lt : n2f.
#[export] Hint Rewrite validDate_copy : n2f.

(** Trimming is idempotent. *)
Lemma trimStart_fixed s :
  (match s with c :: _ => isSpace c = false | [] => True end) -> trimStart s = s.
Proof. destruct s as [|c s]; cbn; [done|]. by intros ->. Qed.

Lemma trimStart_head s :
  match trimStart s with c :: _ => isSpace c = false | [] => True end.
Proof. induction s as [|c s IH]; cbn; [done|]. by destruct (isSpace c) eqn:E. Qed.

Lemma trimStart_idemp s : trimStart (trimStart s) = trimStart s.
Proof. apply trimStart_fixed, trimStart_head. Qed.

Lemma trimStart_suffix s : exists p, s = p ++ trimStart s.
Proof.
  induction s as [|c s [p IH]]; cbn; [by exists []|].
  destruct (isSpace c); [|by exists []]. exists (c :: p). cbn. by rewrite <- IH.
Qed.

(** Trimming the end keeps a head that is not white space. *)
Lemma trimEnd_head s :
  trimStart s = s ->
  trimStart (reverse (trimStart (reverse s))) = reverse (trimStart (reverse s)).
Proof.
  intros Hs. apply trimStart_fixed.
  destruct (trimStart_suffix (reverse s)) as [p Hp].
  assert (Hr : s = reverse (trimStart (reverse s)) ++ reverse p).
  { rewrite <- reverse_app, <- Hp. by rewrite reverse_involutive. }
  destruct (reverse (trimStart (reverse s))) as [|c r] eqn:E; [done|].
  pose proof (trimStart_head s) as Hh. rewrite Hs, Hr in Hh. exact Hh.
Qed.

Lemma trim_idemp s : trim (trim s) = trim s.
Proof.
  assert (H : trimStart (trim s) = trim s) by apply trimEnd_head, trimStart_idemp.
  unfold trim at 1. rewrite H. unfold trim. rewrite reverse_involutive.
  by rewrite trimStart_idemp.
Qed.
#[export] Hint Rewrite trim_idemp : n2f.

(** Sorting permutes, and sorts when the comparator is a total preorder. *)
Section SortFacts.
  Context {A : Type} (cmp : A -> A -> Z).

Lemma insert_sorted_perm x l : insert_sorted cmp x l ≡ₚ x :: l.
Proof.
  induction l as [|y l IH]; cbn; [done|].
  destruct (cmp x y <=? 0); [done|]. rewrite IH. apply Permutation_swap.
Qed.

Lemma sort_by_perm l : sort_by cmp l ≡ₚ l.
Proof.
  induction l as [|x l IH]; cbn; [done|]. by rewrite insert_sorted_perm, IH.
Qed.

  Context (Htot : forall x y, cmp x y <= 0 \/ cmp y x <= 0).
  Context (Htrans : forall x y z, cmp x y <= 0 -> cmp y z <= 0 -> cmp x z <= 0).

Lemma insert_sorted_strong x l :
  StronglySorted (fun a b => cmp a b <= 0) l ->
  StronglySorted (fun a b => cmp a b <= 0) (insert_sorted cmp x l).
Proof.
  induction 1 as [|y l Hl IH Hy]; cbn; [by repeat constructor|].
  destruct (cmp x y <=? 0) eqn:E; breflect.
  - constructor; [by constructor|]. constructor; [done|].
    eapply Forall_impl; [exact Hy|]. eauto.
  - constructor; [done|]. rewrite insert_sorted_perm. constructor; [|done].
    destruct (Htot x y); [lia|done].
Qed.

Lemma sort_by_strong l : StronglySorted (fun a b => cmp a b <= 0) (sort_by cmp l).
Proof.
  induction l as [|x l IH]; cbn; [constructor|]. by apply insert_sorted_strong.
Qed.
End SortFacts.

(** Sorting images sorts the originals, when the comparison is the same. *)
Lemma insert_sorted_fmap {A B} (f : A -> B) (cmp : A -> A -> Z) (cmp' : B -> B -> Z) x l :
  (forall y, y ∈ l -> cmp' (f x) (f y) = cmp x y) -> insert_sorted cmp' (f x) (f <$> l) = f <$> insert_sorted cmp x l.
Proof.
  induction l as [|y l IH]; intros Hc; [done|]. cbn. rewrite Hc by (by left). destruct (cmp x y <=? 0); [done|].
  cbn. f_equal. apply IH. intros z Hz. apply Hc. by right.
Qed.

Lemma sort_by_fmap {A B} (f : A -> B) (cmp : A -> A -> Z) (cmp' : B -> B -> Z) l :
  (forall x y, x ∈ l -> y ∈ l -> cmp' (f x) (f y) = cmp x y) -> sort_by cmp' (f <$> l) = f <$> sort_by cmp l.
Proof.
  induction l as [|x l IH]; intros Hc; [done|].
  change (insert_sorted cmp' (f x) (sort_by cmp' (f <$> l)) = f <$> insert_sorted cmp x (sort_by cmp l)). rewrite IH by (intros y z Hy Hz; apply Hc; by right).
  apply insert_sorted_fmap. intros y Hy. rewrite sort_by_perm in Hy. apply Hc; [by left|by right].
Qed.
