(* ===== verification/Async.v ===== *)
(** * Asynchronous commands and their interleavings.

    An application command is an [async] function over injected ports.  Its
    model is the tree of its port calls: each node is a call with one
    continuation per answer.  Commands of a running process interleave at these
    calls, so several commands are a pool of such trees over one world, and
    facts about every schedule follow from a rely-guarantee argument for each
    command alone ([pool_safe]). *)
From stdpp Require Import relations.
From S2P Require Import Prelude.

Declare Scope prog_scope.

Section Prog.
  Context {Op : Type} {Ans : Op -> Type}.

Inductive Prog (A : Type) : Type :=
| Ret (a : A)
| Call (op : Op) (k : Ans op -> Prog A).
Arguments Ret {A} a.
Arguments Call {A} op k.

Fixpoint bind {A B} (p : Prog A) (f : A -> Prog B) : Prog B :=
  match p with
  | Ret a => f a
  | Call op k => Call op (fun r => bind (k r) f)
  end.

(** [await port.op(...)]. *)
Definition perform (op : Op) : Prog (Ans op) := Call op Ret.
End Prog.
Arguments Prog {Op} Ans A.
Arguments Ret {Op Ans A} a.
Arguments Call {Op Ans A} op k.

#[global] Instance Prog_ret {Op} {Ans : Op -> Type} : MRet (Prog Ans) := fun A => Ret.
#[global] Instance Prog_bind {Op} {Ans : Op -> Type} : MBind (Prog Ans) := fun A B f p => bind p f.

Section Semantics.
  Context {Op : Type} {Ans : Op -> Type} {World : Type}.
  (** [exec op w r w']: called in world [w], the port may answer [r] and leave [w']. *)
  Context (exec : forall op, World -> Ans op -> World -> Prop).

(** One command run without interference, from [w] to its result [a] in [w']. *)
Fixpoint runs {A} (p : Prog Ans A) (w : World) (a : A) (w' : World) : Prop :=
  match p with
  | Ret x => x = a /\ w' = w
  | Call op k => exists r w1, exec op w r w1 /\ runs (k r) w1 a w'
  end.

Lemma runs_bind {A B} (p : Prog Ans A) (f : A -> Prog Ans B) w b w' :
  runs (bind p f) w b w' <-> exists a w1, runs p w a w1 /\ runs (f a) w1 b w'.
Proof.
  revert w. induction p as [x|op k IH]; intros w; cbn.
  - split; [by exists x, w|]. by intros (? & ? & [-> ->] & ?).
  - split.
    + intros (r & w1 & He & Hr). apply IH in Hr as (a & w2 & Hk & Hf). exists a, w2. split; [by exists r, w1|done].
    + intros (a & w2 & (r & w1 & He & Hk) & Hf). exists r, w1. split; [done|]. apply IH. by exists a, w2.
Qed.

(** A run and the calls it made, in order. *)
Fixpoint traced {A} (p : Prog Ans A) (w : World) (ops : list Op) (a : A) (w' : World) : Prop :=
  match p with
  | Ret x => ops = [] /\ x = a /\ w' = w
  | Call op k => exists r w1 rest, ops = op :: rest /\ exec op w r w1 /\ traced (k r) w1 rest a w'
  end.

(** A pool of commands: one of them makes its next call. *)
Inductive pool_step {A} : World * list (Prog Ans A) -> World * list (Prog Ans A) -> Prop :=
| pool_call w ps qs op k r w' :
    exec op w r w' ->
    pool_step (w, ps ++ Call op k :: qs) (w', ps ++ k r :: qs).

(** The step of the [i]-th command. *)
Lemma pool_at {A} (ps : list (Prog Ans A)) i op k r w w' :
  ps !! i = Some (Call op k) -> exec op w r w' -> pool_step (w, ps) (w', <[i := k r]> ps).
Proof.
  intros Hi He. rewrite <- (take_drop_middle ps i _ Hi) at 1.
  rewrite insert_take_drop by (by eapply lookup_lt_Some). by constructor.
Qed.

(** One command of a pool runs to its end while the others wait. *)
Lemma runs_at {A} (ps : list (Prog Ans A)) i p w a w' :
  ps !! i = Some p -> runs p w a w' -> rtc pool_step (w, ps) (w', <[i := Ret a]> ps).
Proof.
  revert ps w. induction p as [x|op k IH]; cbn; intros ps w Hi.
  - intros [-> ->]. by rewrite list_insert_id.
  - intros (r & w1 & He & Hr). eapply rtc_l; [exact (pool_at ps i op k r w w1 Hi He)|].
    replace (<[i:=Ret a]> ps) with (<[i:=Ret a]> (<[i:=k r]> ps)) by apply list_insert_insert_eq.
    apply (IH r); [|done]. apply list_lookup_insert_eq. by eapply lookup_lt_Some.
Qed.

(** A command's own run is the schedule of a pool of one. *)
Lemma runs_pool {A} (p : Prog Ans A) w a w' :
  runs p w a w' -> rtc pool_step (w, [p]) (w', [Ret a]).
Proof.
  revert w. induction p as [x|op k IH]; cbn; intros w.
  - intros [-> ->]. apply rtc_refl.
  - intros (r & w1 & He & Hr). eapply rtc_l; [exact (pool_call w [] [] op k r w1 He)|]. by apply IH.
Qed.

(** ** Running a command against ports that are functions: the [n]-th call of the
    run is answered by [port n]. *)
Section Play.
  Context (port : nat -> forall op, World -> Ans op * World).

Fixpoint play {A} (n : nat) (p : Prog Ans A) (w : World) : A * World :=
  match p with
  | Ret a => (a, w)
  | Call op k => let '(r, w1) := port n op w in play (S n) (k r) w1
  end.

Lemma play_runs {A} n (p : Prog Ans A) w :
  (forall n op w, exec op w (port n op w).1 (port n op w).2) -> runs p w (play n p w).1 (play n p w).2.
Proof.
  intros Hp. revert n w. induction p as [x|op k IH]; intros n w; cbn; [done|].
  pose proof (Hp n op w) as He. destruct (port n op w) as [r w1]. exists r, w1. split; [done|]. apply IH.
Qed.
End Play.

(** ** Running a pool against such ports: [turns] says whose call comes next, and
    a port may have no answer. *)
Section Schedule.
  Context (port : nat -> forall op, World -> option (Ans op * World)).

Fixpoint schedule {A} (n : nat) (turns : list nat) (ps : list (Prog Ans A)) (w : World)
    : option (list (Prog Ans A) * World) :=
  match turns with
  | [] => Some (ps, w)
  | i :: rest =>
      match ps !! i with
      | Some (Call op k) =>
          match port n op w with
          | Some (r, w1) => schedule (S n) rest (<[i := k r]> ps) w1
          | None => None
          end
      | _ => None
      end
  end.

Lemma schedule_runs {A} turns n (ps ps' : list (Prog Ans A)) w w' :
  (forall n op w r w1, port n op w = Some (r, w1) -> exec op w r w1) ->
  schedule n turns ps w = Some (ps', w') -> rtc pool_step (w, ps) (w', ps').
Proof.
  intros Hport. revert n ps w. induction turns as [|i turns IH]; intros n ps w; cbn; [by intros [= -> ->]|].
  destruct (ps !! i) as [[a|op k]|] eqn:Ei; [done| |done].
  destruct (port n op w) as [[r w1]|] eqn:Ep; [|done]. intros Hs.
  eapply rtc_l; [by eapply pool_at; [exact Ei|apply Hport in Ep; exact Ep]|]. by eapply IH.
Qed.

(** One command alone. *)
Fixpoint tried {A} (n : nat) (p : Prog Ans A) (w : World) : option (A * World) :=
  match p with
  | Ret a => Some (a, w)
  | Call op k => match port n op w with Some (r, w1) => tried (S n) (k r) w1 | None => None end
  end.

Lemma tried_runs {A} n (p : Prog Ans A) w a w' :
  (forall n op w r w1, port n op w = Some (r, w1) -> exec op w r w1) -> tried n p w = Some (a, w') -> runs p w a w'.
Proof.
  intros Hp. revert n w. induction p as [x|op k IH]; intros n w; cbn; [by intros [= -> ->]|].
  destruct (port n op w) as [[r w1]|] eqn:E; [|done]. intros Ht. exists r, w1. split; [by eapply Hp|by eapply IH].
Qed.

(** A command that is not scheduled stays where it is. *)
Lemma schedule_idle {A} turns n (ps ps' : list (Prog Ans A)) w w' i :
  schedule n turns ps w = Some (ps', w') -> i ∉ turns -> ps' !! i = ps !! i.
Proof.
  revert n ps w. induction turns as [|t turns IH]; intros n ps w; cbn; [by intros [= -> ->]|].
  destruct (ps !! t) as [[a|op k]|] eqn:Et; [done| |done]. destruct (port n op w) as [[r w1]|]; [|done].
  intros Hs [Hne Hi]%not_elem_of_cons. rewrite (IH _ _ _ Hs Hi). by apply list_lookup_insert_ne.
Qed.
End Schedule.

(** What the ended commands of a pool answered. *)
Definition answers_of {A} (ps : list (Prog Ans A)) : list (option A) :=
  (fun p => match p with Ret a => Some a | Call _ _ => None end) <$> ps.

Lemma answers_of_all {A} (ps : list (Prog Ans A)) xs : answers_of ps = Some <$> xs -> ps = Ret <$> xs.
Proof.
  revert xs. induction ps as [|[a|op k] ps IH]; intros [|x xs]; cbn; try done.
  intros [= -> H]. f_equal. by apply IH.
Qed.

Section RelyGuarantee.
  Context (Inv : World -> Prop) (rely : World -> World -> Prop).
  Context (rely_refl : forall w, rely w w) (rely_trans : forall a b c, rely a b -> rely b c -> rely a c).

(** From a world the command last saw, whatever the others do meanwhile, each
    of its calls keeps the invariant and does what the others rely on, and the
    result it returns satisfies [post] from then on. *)
Fixpoint wp {A} (p : Prog Ans A) (post : A -> World -> Prop) (w : World) : Prop :=
  match p with
  | Ret a => forall w', rely w w' -> Inv w' -> post a w'
  | Call op k =>
      forall w1, rely w w1 -> Inv w1 -> forall r w2, exec op w1 r w2 ->
        Inv w2 /\ rely w1 w2 /\ wp (k r) post w2
  end.

Lemma wp_rely {A} (p : Prog Ans A) post w w' : rely w w' -> wp p post w -> wp p post w'.
Proof.
  destruct p as [a|op k]; cbn; intros Hr H.
  - intros w2 Hr' HI. apply H; eauto.
  - intros w1 Hr' HI. apply H; eauto.
Qed.

Lemma wp_weaken {A} (p : Prog Ans A) (post post' : A -> World -> Prop) w :
  (forall a w', post a w' -> post' a w') -> wp p post w -> wp p post' w.
Proof.
  intros Hp. revert w. induction p as [a|op k IH]; cbn; intros w H.
  - intros w' Hr HI. by apply Hp, H.
  - intros w1 Hr HI r w2 He. destruct (H w1 Hr HI r w2 He) as (? & ? & ?). eauto.
Qed.

Lemma wp_bind {A B} (p : Prog Ans A) (f : A -> Prog Ans B) post w :
  wp p (fun a w' => wp (f a) post w') w -> Inv w -> wp (bind p f) post w.
Proof.
  revert w. induction p as [a|op k IH]; cbn; intros w H HI.
  - by apply H.
  - intros w1 Hr HI1 r w2 He. destruct (H w1 Hr HI1 r w2 He) as (? & ? & ?). eauto.
Qed.

(** Sequencing: the first program's postcondition holds where the second
    starts, in a world later than where the first started. *)
Lemma wp_seq {A B} (p : Prog Ans A) (f : A -> Prog Ans B) (post : A -> World -> Prop) post' w :
  wp p post w -> Inv w -> (forall a w', Inv w' -> rely w w' -> post a w' -> wp (f a) post' w') -> wp (bind p f) post' w.
Proof.
  intros Hp HI Hf. apply wp_bind; [|done]. clear HI. assert (Hw : rely w w) by done. revert Hw Hp.
  generalize w at 2 3 4 as w0. induction p as [a|op k IH]; cbn; intros w0 Hw Hp.
  - intros w' Hr HI. apply Hf; eauto.
  - intros w1 Hr HI r w2 He. destruct (Hp w1 Hr HI r w2 He) as (? & ? & ?). split; [done|]. split; [done|]. apply IH; eauto.
Qed.

(** A call that only reads. *)
Lemma wp_read {A} op (k : Ans op -> Prog Ans A) post w :
  (forall w1 r w2, exec op w1 r w2 -> w2 = w1) ->
  (forall r w1, rely w w1 -> Inv w1 -> exec op w1 r w1 -> wp (k r) post w1) ->
  wp (Call op k) post w.
Proof.
  intros Hro Hk. cbn. intros w1 Hr HI r w2 He. pose proof (Hro _ _ _ He) as ->. eauto.
Qed.

Lemma wp_ret {A} (a : A) (post : A -> World -> Prop) w :
  (forall w', rely w w' -> Inv w' -> post a w') -> wp (Ret a) post w.
Proof. done. Qed.

(** A command's own run is one schedule. *)
Lemma wp_runs {A} (p : Prog Ans A) post w a w' :
  wp p post w -> Inv w -> runs p w a w' -> Inv w' /\ rely w w' /\ post a w'.
Proof.
  revert w. induction p as [x|op k IH]; cbn; intros w Hwp HI.
  - intros [-> ->]. eauto.
  - intros (r & w1 & He & Hr). destruct (Hwp w (rely_refl w) HI r w1 He) as (HI1 & Hr1 & Hk).
    destruct (IH r w1 Hk HI1 Hr) as (? & ? & ?). eauto.
Qed.

Lemma pool_wp {A} (post : nat -> A -> World -> Prop) w ps w' ps' :
  pool_step (w, ps) (w', ps') -> Inv w ->
  (forall i p, ps !! i = Some p -> wp p (post i) w) ->
  Inv w' /\ rely w w' /\ (forall i p, ps' !! i = Some p -> wp p (post i) w').
Proof.
  inversion 1 as [w0 l m op k r w1 He]; subst. intros HI Hwp.
  assert (Hi := Hwp (length l) (Call op k)). rewrite list_lookup_middle in Hi by done.
  specialize (Hi eq_refl). cbn in Hi. destruct (Hi w (rely_refl w) HI r w' He) as (HI' & Hr' & Hk).
  split; [done|]. split; [done|]. intros i p Hp.
  destruct (decide (i = length l)) as [->|Hne].
  - rewrite list_lookup_middle in Hp by done. by injection Hp as <-.
  - apply (wp_rely _ _ w); [done|]. apply Hwp. rewrite <- Hp.
    destruct (decide (i < length l)%nat).
    + by rewrite !lookup_app_l.
    + rewrite !lookup_app_r by lia. destruct (i - length l)%nat eqn:E; [lia|done].
Qed.

(** However long a pool runs, what is left of each command is still safe. *)
Lemma pool_wps {A} (post : nat -> A -> World -> Prop) w ps w' ps' :
  rtc pool_step (w, ps) (w', ps') -> Inv w ->
  (forall i p, ps !! i = Some p -> wp p (post i) w) ->
  Inv w' /\ rely w w' /\ (forall i p, ps' !! i = Some p -> wp p (post i) w').
Proof.
  intros Hs. remember (w, ps) as x eqn:Ex. remember (w', ps') as y eqn:Ey.
  revert w ps Ex w' ps' Ey. induction Hs as [x|x [w1 ps1] y Hxy _ IH]; intros w ps -> w' ps'.
  - by intros [= <- <-] HI Hwp.
  - intros -> HI Hwp. destruct (pool_wp post w ps w1 ps1 Hxy HI Hwp) as (HI1 & Hr1 & Hwp1).
    destruct (IH w1 ps1 eq_refl w' ps' eq_refl HI1 Hwp1) as (? & ? & ?). eauto.
Qed.

(** Every schedule of a pool whose commands are each safe. *)
Theorem pool_safe {A} (post : nat -> A -> World -> Prop) w ps w' ps' :
  rtc pool_step (w, ps) (w', ps') -> Inv w ->
  (forall i p, ps !! i = Some p -> wp p (post i) w) ->
  Inv w' /\ rely w w' /\ (forall i a, ps' !! i = Some (Ret a) -> post i a w').
Proof.
  intros Hs HI Hwp. destruct (pool_wps post w ps w' ps' Hs HI Hwp) as (HI' & Hr & Hwp').
  split; [done|]. split; [done|]. intros i a Hi. by apply (Hwp' i (Ret a) Hi).
Qed.
End RelyGuarantee.
End Semantics.

(** ** Commands of one component within a larger program.

    A component's command calls its own ports; the process it is part of has
    the ports of every component.  [embed] renames the calls, and [wp_embed]
    carries over what was proved of the component alone. *)
Section Embed.
  Context {OpA OpB : Type} {AnsA : OpA -> Type} {AnsB : OpB -> Type}.
  Context (inj : OpA -> OpB) (back : forall op, AnsB (inj op) -> AnsA op).

Fixpoint embed {A} (p : Prog AnsA A) : Prog AnsB A :=
  match p with
  | Ret a => Ret a
  | Call op k => Call (inj op) (fun r => embed (k (back op r)))
  end.

(** Every call the program can make satisfies [allowed]. *)
Fixpoint every (allowed : OpA -> Prop) {A} (p : Prog AnsA A) : Prop :=
  match p with
  | Ret _ => True
  | Call op k => allowed op /\ forall r, every allowed (k r)
  end.

Lemma every_true {A} (p : Prog AnsA A) : every (fun _ => True) p.
Proof. induction p; cbn; auto. Qed.

Lemma every_bind allowed {A B} (p : Prog AnsA A) (f : A -> Prog AnsA B) :
  every allowed p -> (forall a, every allowed (f a)) -> every allowed (bind p f).
Proof. intros Hp Hf. induction p as [a|op k IH]; cbn in *; [done|]. destruct Hp as [? Hk]. split; [done|]. auto. Qed.

Context {WA WB : Type} (proj : WB -> WA).
Context (execA : forall op, WA -> AnsA op -> WA -> Prop) (execB : forall op, WB -> AnsB op -> WB -> Prop).

Lemma runs_embed {A} (p : Prog AnsA A) w a w' :
  (forall op w r w', execB (inj op) w r w' -> execA op (proj w) (back op r) (proj w')) ->
  runs execB (embed p) w a w' -> runs execA p (proj w) a (proj w').
Proof.
  intros Hs. revert w. induction p as [x|op k IH]; intros w; cbn; [by intros [-> ->]|].
  intros (r & w1 & He & Hr). exists (back op r), (proj w1). split; [by apply Hs|by apply IH].
Qed.

Context (InvA : WA -> Prop) (InvB : WB -> Prop) (relA : WA -> WA -> Prop) (relB : WB -> WB -> Prop) (allowed : OpA -> Prop).
Context (Hinv : forall w, InvB w -> InvA (proj w)) (Hrel : forall w w', relB w w' -> relA (proj w) (proj w')).
Context (Hstep : forall op w r w', allowed op -> InvB w -> execB (inj op) w r w' ->
  execA op (proj w) (back op r) (proj w')
  /\ (InvA (proj w') -> relA (proj w) (proj w') -> InvB w' /\ relB w w')).

Lemma wp_embed {A} (p : Prog AnsA A) post w :
  every allowed p -> wp execA InvA relA p post (proj w) ->
  wp execB InvB relB (embed p) (fun a w' => post a (proj w')) w.
Proof using Hinv Hrel Hstep.
  revert w. induction p as [a|op k IH]; intros w; cbn.
  - intros _ Hp w' Hr HI. apply Hp; auto.
  - intros [Ha He] Hp w1 Hr HI r w2 Hex. destruct (Hstep _ _ _ _ Ha HI Hex) as [HA Hk].
    destruct (Hp (proj w1) (Hrel _ _ Hr) (Hinv _ HI) _ _ HA) as (HIA & HrA & Hwp). destruct (Hk HIA HrA) as [HI2 Hr2].
    split; [done|]. split; [done|]. by apply IH.
Qed.
End Embed.
