(* ===== verification/JsMap.v ===== *)
(** * Insertion-ordered maps: the JavaScript [Map] of every in-memory store.

    A map is the list of its entries in insertion order.  [set] on a present
    key keeps the entry's position and on an absent key appends, [delete]
    removes the entry: iteration order is observable ([find], [filter],
    pruning loops), so it is part of the model. *)
From S2P Require Import Prelude.

Module JsMap.
Section Ops.
  Context {K V : Type} `{EqDecision K}.

Definition empty : list (K * V) := [].

Fixpoint get (k : K) (m : list (K * V)) : option V :=
  match m with
  | [] => None
  | (k', v) :: m' => if decide (k = k') then Some v else get k m'
  end.

Definition has (k : K) (m : list (K * V)) : bool :=
  match get k m with Some _ => true | None => false end.

Fixpoint set (k : K) (v : V) (m : list (K * V)) : list (K * V) :=
  match m with
  | [] => [(k, v)]
  | (k', v') :: m' => if decide (k = k') then (k', v) :: m' else (k', v') :: set k v m'
  end.

Fixpoint delete (k : K) (m : list (K * V)) : list (K * V) :=
  match m with
  | [] => []
  | (k', v') :: m' => if decide (k = k') then delete k m' else (k', v') :: delete k m'
  end.

Definition keys (m : list (K * V)) : list K := m.*1.
Definition values (m : list (K * V)) : list V := m.*2.

(** Keys are unique in every map the operations build. *)
Definition wf (m : list (K * V)) : Prop := NoDup (keys m).
End Ops.

(** [{ ...a, ...b }]: later members win, keeping the place of the first. *)
Definition spread {V} (a b : list (string * V)) : list (string * V) :=
  foldl (fun m '(k, v) => set k v m) a b.

Section Facts.
  Context {K V : Type} `{EqDecision K}.
  Implicit Types m : list (K * V).

Lemma get_set_eq k v m : get k (set k v m) = Some v.
Proof.
  induction m as [|[k' v'] m IH]; cbn; [by rewrite decide_True|].
  destruct (decide (k = k')) as [->|]; cbn; [by rewrite decide_True|].
  by rewrite decide_False.
Qed.

Lemma get_set_ne k k' v m : k <> k' -> get k' (set k v m) = get k' m.
Proof.
  intros Hk. induction m as [|[k0 v0] m IH]; cbn; [by rewrite decide_False|].
  destruct (decide (k = k0)) as [->|]; cbn.
  - by rewrite !decide_False.
  - destruct (decide (k' = k0)); [done|exact IH].
Qed.

Lemma get_set k k' v m :
  get k' (set k v m) = if decide (k = k') then Some v else get k' m.
Proof.
  destruct (decide (k = k')) as [->|]; [apply get_set_eq|by apply get_set_ne].
Qed.

Lemma get_delete_eq k m : get k (delete k m) = None.
Proof.
  induction m as [|[k' v'] m IH]; cbn; [done|].
  destruct (decide (k = k')); [done|cbn]. by rewrite decide_False.
Qed.

Lemma get_delete_ne k k' m : k <> k' -> get k' (delete k m) = get k' m.
Proof.
  intros Hk. induction m as [|[k0 v0] m IH]; cbn; [done|].
  destruct (decide (k = k0)) as [->|]; cbn.
  - by rewrite decide_False.
  - destruct (decide (k' = k0)); [done|exact IH].
Qed.

Lemma set_set k v v' m : set k v' (set k v m) = set k v' m.
Proof.
  induction m as [|[k0 v0] m IH]; cbn; [by rewrite decide_True|].
  destruct (decide (k = k0)) as [->|]; cbn; [by rewrite decide_True|].
  rewrite decide_False by done. by f_equal.
Qed.

(** Writing back what a key held restores the map, order included. *)
Lemma set_same k v m : get k m = Some v -> set k v m = m.
Proof.
  induction m as [|[k0 v0] m IH]; cbn; [done|].
  destruct (decide (k = k0)) as [->|]; [by intros [= ->]|].
  intros H. f_equal. by apply IH.
Qed.

Lemma set_undo k v v0 m : get k m = Some v0 -> set k v0 (set k v m) = m.
Proof. intros H. rewrite set_set. by apply set_same. Qed.

Lemma delete_absent k m : get k m = None -> delete k m = m.
Proof.
  induction m as [|[k0 v0] m IH]; cbn; [done|].
  destruct (decide (k = k0)); [done|]. intros H. f_equal. by apply IH.
Qed.

(** Deleting a key just added restores the map. *)
Lemma delete_undo k v m : get k m = None -> delete k (set k v m) = m.
Proof.
  induction m as [|[k0 v0] m IH]; cbn.
  - by rewrite decide_True.
  - destruct (decide (k = k0)) as [->|Hk]; [done|]. intros H. cbn.
    rewrite decide_False by done. f_equal. by apply IH.
Qed.

Lemma get_None m k : get k m = None <-> k ∉ keys m.
Proof.
  induction m as [|[k0 v0] m IH]; cbn.
  - split; [|done]. intros _. apply not_elem_of_nil.
  - destruct (decide (k = k0)) as [->|].
    + split; [done|]. intros H. exfalso. apply H. left.
    + rewrite not_elem_of_cons, IH. by split; [|intros [_ ?]].
Qed.

Lemma keys_set_Some k v m : get k m <> None -> keys (set k v m) = keys m.
Proof.
  induction m as [|[k0 v0] m IH]; cbn; [done|].
  destruct (decide (k = k0)); [done|]. intros H. cbn. f_equal. by apply IH.
Qed.

Lemma set_fresh k v m : get k m = None -> set k v m = m ++ [(k, v)].
Proof.
  induction m as [|[k0 v0] m IH]; cbn; [done|].
  destruct (decide (k = k0)); [done|]. intros H. f_equal. by apply IH.
Qed.

Lemma wf_empty : wf (@empty K V).
Proof. constructor. Qed.

Lemma wf_set k v m : wf m -> wf (set k v m).
Proof.
  unfold wf. intros Hm. destruct (get k m) as [v0|] eqn:E.
  - by rewrite keys_set_Some by (by rewrite E).
  - rewrite set_fresh by done. unfold keys. rewrite fmap_app. cbn.
    apply NoDup_app. split; [done|]. split; [|apply NoDup_singleton].
    intros x Hx ->%list_elem_of_singleton. by apply get_None in E.
Qed.

Lemma delete_filter k m : delete k m = filter (fun e => k <> e.1) m.
Proof.
  induction m as [|[k0 v0] m IH]; [done|]. rewrite filter_cons. cbn [delete fst].
  destruct (decide (k = k0)) as [->|Hk].
  - rewrite decide_False by naive_solver. done.
  - rewrite decide_True by done. by f_equal.
Qed.

Lemma wf_delete k m : wf m -> wf (delete k m).
Proof.
  unfold wf, keys. rewrite delete_filter. intros Hm.
  eapply sublist_NoDup; [exact Hm|]. apply fmap_sublist, sublist_filter.
Qed.

Lemma get_entry k v m : get k m = Some v -> (k, v) ∈ m.
Proof.
  induction m as [|[k0 v0] m IH]; cbn; [done|].
  destruct (decide (k = k0)) as [->|]; [intros [= ->]; left|right; by apply IH].
Qed.

Lemma entry_get k v m : wf m -> (k, v) ∈ m -> get k m = Some v.
Proof.
  induction m as [|[k0 v0] m IH]; cbn; [by intros _ ?%elem_of_nil|].
  unfold wf. cbn. intros [Hk0 Hm]%NoDup_cons [[= -> ->]|Hin]%elem_of_cons.
  - by rewrite decide_True.
  - rewrite decide_False; [by apply IH|]. intros ->. apply Hk0.
    apply (list_elem_of_fmap_2 fst) in Hin. exact Hin.
Qed.

Lemma get_keys k v m : get k m = Some v -> k ∈ keys m.
Proof. intros H%get_entry. unfold keys. by apply (list_elem_of_fmap_2 fst) in H. Qed.

Lemma keys_get k m : k ∈ keys m -> exists v, get k m = Some v.
Proof.
  intros Hk. destruct (get k m) as [v|] eqn:E; [eauto|]. by apply get_None in E.
Qed.

Lemma elem_values m v : wf m -> v ∈ values m <-> exists k, get k m = Some v.
Proof.
  intros Hm. unfold values. rewrite list_elem_of_fmap. split.
  - intros ([k v'] & -> & Hin). exists k. by apply entry_get.
  - intros [k Hk]. exists (k, v). split; [done|]. by apply get_entry.
Qed.

Lemma delete_perm k v m : wf m -> get k m = Some v -> m ≡ₚ (k, v) :: delete k m.
Proof.
  intros Hm. induction m as [|[k0 v0] m IH]; cbn; [done|].
  unfold wf in Hm. cbn in Hm. apply NoDup_cons in Hm as [Hk0 Hm].
  destruct (decide (k = k0)) as [<-|Hne].
  - intros [= ->]. by rewrite delete_absent by (by apply get_None).
  - intros Hk. rewrite (Permutation_swap (k0, v0) (k, v)). by rewrite <- IH.
Qed.

Lemma wf_filter (P : K * V -> Prop) `{forall e, Decision (P e)} m : wf m -> wf (filter P m).
Proof.
  unfold wf, keys. intros Hm. eapply sublist_NoDup; [exact Hm|]. apply fmap_sublist, sublist_filter.
Qed.

Lemma get_filter (P : K * V -> Prop) `{forall e, Decision (P e)} k m :
  wf m ->
  get k (filter P m) =
  match get k m with Some v => if decide (P (k, v)) then Some v else None | None => None end.
Proof.
  intros Hm. destruct (get k m) as [v|] eqn:E.
  - destruct (decide (P (k, v))) as [Hp|Hp].
    + apply entry_get; [by apply wf_filter|]. apply list_elem_of_filter. split; [done|by apply get_entry].
    + apply get_None. intros (v' & Hv)%keys_get. apply get_entry, list_elem_of_filter in Hv as [Hp' Hin].
      apply (entry_get _ _ _ Hm) in Hin. congruence.
  - apply get_None. intros (v' & Hv)%keys_get. apply get_entry, list_elem_of_filter in Hv as [_ Hin].
    apply (entry_get _ _ _ Hm) in Hin. congruence.
Qed.

(** Assigning to the values in place. *)
Lemma get_map (f : K -> V -> V) k m :
  get k ((fun e => (e.1, f e.1 e.2)) <$> m) = f k <$> get k m.
Proof.
  induction m as [|[k0 v0] m IH]; cbn; [done|]. by destruct (decide (k = k0)) as [->|].
Qed.

Lemma keys_map (f : K -> V -> V) m : keys ((fun e => (e.1, f e.1 e.2)) <$> m) = keys m.
Proof. unfold keys. rewrite <- list_fmap_compose. by apply list_fmap_ext. Qed.

(** Maps with the same keys in the same order and the same entries are equal. *)
Lemma map_ext m m' : wf m -> keys m = keys m' -> (forall k, get k m = get k m') -> m = m'.
Proof.
  revert m'. induction m as [|[k v] m IH]; intros [|[k' v'] m'] Hw Hk Hg; try done.
  cbn in Hk. injection Hk as <- Hk. apply NoDup_cons in Hw as [Hk0 Hw].
  assert (v = v') as <- by (specialize (Hg k); cbn in Hg; rewrite !decide_True in Hg by done; by injection Hg).
  f_equal. apply IH; [done|done|]. intros x. destruct (decide (x = k)) as [->|Hne].
  - cbn in Hk0. trans (@None V); [by apply get_None|]. symmetry. apply get_None. unfold keys. by rewrite <- Hk.
  - specialize (Hg x). cbn in Hg. by rewrite !decide_False in Hg by done.
Qed.

(** Values that name their own keys: the names of the values are the keys. *)
Lemma keys_values (key : V -> K) m :
  wf m -> (forall k v, get k m = Some v -> key v = k) -> key <$> values m = keys m.
Proof.
  intros Hm Hk. unfold values, keys. rewrite <- list_fmap_compose. apply list_fmap_ext. intros i [k v] Hi. cbn.
  apply Hk. apply entry_get; [done|]. by eapply list_elem_of_lookup_2.
Qed.

Lemma NoDup_values (key : V -> K) m :
  wf m -> (forall k v, get k m = Some v -> key v = k) -> NoDup (key <$> values m).
Proof. intros Hm Hk. by rewrite keys_values. Qed.

(** Writing an entry that fails a test removes it from the entries that pass. *)
Lemma filter_set_out (P : K * V -> Prop) `{forall e, Decision (P e)} k v m :
  wf m -> get k m <> None -> ~ P (k, v) -> filter P (set k v m) = delete k (filter P m).
Proof.
  intros Hm Hk HP. induction m as [|[k0 v0] m IH]; [done|]. cbn [get set] in Hk |- *.
  unfold wf in Hm. cbn in Hm. apply NoDup_cons in Hm as [Hk0 Hm].
  destruct (decide (k = k0)) as [<-|Hne].
  - rewrite filter_cons_False by done. rewrite filter_cons.
    assert (Hd : delete k (filter P m) = filter P m).
    { apply delete_absent, get_None. intros Hin. apply Hk0. unfold keys in Hin.
      apply list_elem_of_fmap in Hin as (e & -> & He). apply list_elem_of_filter in He as [_ He].
      by apply list_elem_of_fmap_2. }
    destruct (decide (P (k, v0))); cbn [delete]; [by rewrite decide_True|done].
  - rewrite !filter_cons. rewrite IH by done.
    destruct (decide (P (k0, v0))); cbn [delete]; [by rewrite decide_False|done].
Qed.
End Facts.

(** ** The same map with other values. *)
Section Values.
  Context {K V W : Type} `{Kdec : EqDecision K} (f : V -> W).

Definition mapValues (m : list (K * V)) : list (K * W) := (fun e => (e.1, f e.2)) <$> m.

Lemma get_mapValues k m : get k (mapValues m) = f <$> get k m.
Proof. induction m as [|[k' v] m IH]; [done|]. cbn. by destruct (decide (k = k')). Qed.

Lemma has_mapValues k m : has k (mapValues m) = has k m.
Proof. unfold has. rewrite get_mapValues. by destruct (get k m). Qed.

Lemma set_mapValues k v m : mapValues (set k v m) = set k (f v) (mapValues m).
Proof.
  induction m as [|[k' v'] m IH]; [done|]. cbn. destruct (decide (k = k')); [done|]. cbn. f_equal. exact IH.
Qed.

Lemma keys_mapValues m : keys (mapValues m) = keys m.
Proof. unfold keys, mapValues. rewrite <- list_fmap_compose. by apply list_fmap_ext. Qed.

Lemma values_mapValues m : values (mapValues m) = f <$> values m.
Proof. unfold values, mapValues. rewrite <- !list_fmap_compose. by apply list_fmap_ext. Qed.

Lemma elem_mapValues k w m : (k, w) ∈ mapValues m <-> exists v, (k, v) ∈ m /\ w = f v.
Proof.
  unfold mapValues. rewrite list_elem_of_fmap. split; [intros ([k' v] & [= -> ->] & ?); eauto|].
  intros (v & ? & ->). by exists (k, v).
Qed.
End Values.
End JsMap.

#[export] Hint Resolve JsMap.wf_empty JsMap.wf_set JsMap.wf_delete : n2f.
#[export] Hint Rewrite @JsMap.get_set_eq @JsMap.get_delete_eq : n2f.
