(* ===== verification/Errors.v ===== *)
(** * Failures: [shared/errors/kind.ts] and [shared/errors/failure.ts].

    A failure keeps its public members (kind, message, type, fields) and its
    private diagnostic frame (details, cause), which the source holds in a
    [WeakMap] keyed by the object.  A caught value is a failure the module
    built, an [AppError] carrying one, or any other value. *)
From S2P Require Import Prelude JsMap.

(** @src src/shared/errors/kind.ts:2-15 Kind *)
Inductive Kind : Type :=
| internal | invalid | not_found | conflict | unauthenticated
| forbidden | rate_limited | unavailable | timeout | canceled.

#[export] Instance Kind_eq_dec : EqDecision Kind.
Proof. solve_decision. Defined.

(** @src src/shared/errors/kind.ts:2-13 KINDS *)
Definition KINDS : list (string * Kind) :=
  [("internal", internal); ("invalid", invalid); ("not_found", not_found);
   ("conflict", conflict); ("unauthenticated", unauthenticated);
   ("forbidden", forbidden); ("rate_limited", rate_limited);
   ("unavailable", unavailable); ("timeout", timeout); ("canceled", canceled)]%string.

(** @src src/shared/errors/kind.ts:17-23 parseKind *)
Definition parseKind (value : JsValue) : option Kind :=
  match value with
  | VStr s => snd <$> find_first (fun '(n, _) => bool_decide (js n = s)) KINDS
  | _ => None
  end.

(** @src src/shared/errors/failure.ts:5-42 Failure
    A failure with its diagnostic frame, and the values a [catch] may see. *)
Inductive Failure : Type :=
| mkFailure (kind : Kind) (message : string) (type : option string)
    (fields : option (list (string * string)))
    (details : list (string * string)) (cause : Caught)
with Caught : Type :=
| CFailure (f : Failure)
| CAppError (f : Failure)
| CForeign (v : JsValue).

Definition f_kind (f : Failure) : Kind := let 'mkFailure k _ _ _ _ _ := f in k.
Definition f_message (f : Failure) : string := let 'mkFailure _ m _ _ _ _ := f in m.
Definition f_type (f : Failure) : option string := let 'mkFailure _ _ t _ _ _ := f in t.
Definition f_fields (f : Failure) : option (list (string * string)) :=
  let 'mkFailure _ _ _ fs _ _ := f in fs.
Definition f_details (f : Failure) : list (string * string) :=
  let 'mkFailure _ _ _ _ d _ := f in d.
Definition f_cause (f : Failure) : Caught := let 'mkFailure _ _ _ _ _ c := f in c.

(** @src src/shared/errors/failure.ts:22-27 FailureOptions *)
Record FailureOptions : Type := mkOptions {
  o_type : option string;
  o_fields : option (list (string * string));
  o_details : list (string * string);
  o_cause : Caught
}.

Definition noOptions : FailureOptions := mkOptions None None [] (CForeign VUndefined).

(** @src src/shared/errors/failure.ts:81-103 failure
    An empty type is dropped: [options.type ? { type } : {}]. *)
Definition failure (kind : Kind) (message : string) (options : FailureOptions) : Failure :=
  mkFailure kind message
    (match options.(o_type) with
     | Some t => if String.eqb t "" then None else Some t
     | None => None
     end)
    options.(o_fields) options.(o_details) options.(o_cause).

(** @src src/shared/errors/failure.ts:105-113 typedFailure *)
Definition typedFailure (kind : Kind) (type message : string) (options : FailureOptions)
    : Failure :=
  failure kind message
    (mkOptions (Some type) options.(o_fields) options.(o_details) options.(o_cause)).

(** [failure(kind, message, { type })]: the options most call sites pass. *)
Definition fail_with (kind : Kind) (message type : string) : Failure :=
  failure kind message (mkOptions (Some type) None [] (CForeign VUndefined)).

(** @src src/shared/errors/failure.ts:44-54 trusted *)
Definition trusted (value : Caught) : option Failure :=
  match value with
  | CFailure f | CAppError f => Some f
  | CForeign _ => None
  end.

Definition fields_of (f : Failure) : list (string * string) :=
  match f_fields f with Some l => l | None => [] end.

(** @src src/shared/errors/failure.ts:120-130 withFields *)
Definition withFields (value : Failure) (fields : list (string * string)) : Failure :=
  mkFailure (f_kind value) (f_message value) (f_type value)
    (Some (JsMap.spread (fields_of value) fields)) (f_details value) (f_cause value).

(** @src src/shared/errors/failure.ts:132-146 withDetails *)
Definition withDetails (value : Failure) (details : list (string * string)) : Failure :=
  mkFailure (f_kind value) (f_message value) (f_type value) (f_fields value)
    (JsMap.spread (f_details value) details) (f_cause value).

(** @src src/shared/errors/failure.ts:148-155 withCause *)
Definition withCause (value : Failure) (cause : Caught) : Failure :=
  mkFailure (f_kind value) (f_message value) (f_type value) (f_fields value)
    (f_details value) cause.

(** @src src/shared/errors/failure.ts:157-159 kindOf *)
Definition kindOf (value : Caught) : option Kind := f_kind <$> trusted value.

(** @src src/shared/errors/failure.ts:29-34 PublicInfo *)
Record PublicInfo : Type := mkPublicInfo {
  p_kind : Kind;
  p_message : string;
  p_type : option string;
  p_fields : option (list (string * string))
}.

(** @src src/shared/errors/failure.ts:161-174 publicInfo *)
Definition publicInfo (value : Caught) : PublicInfo :=
  let hidden := mkPublicInfo internal "internal error" None None in
  match trusted value with
  | None => hidden
  | Some known =>
      match f_kind known with
      | internal => hidden
      | k =>
          mkPublicInfo k
            (if String.eqb (f_message known) "" then "request failed" else (f_message known))
            (match f_type known with
             | Some t => if String.eqb t "" then None else Some t
             | None => None
             end)
            (f_fields known)
      end
  end.

(** @src src/shared/errors/failure.ts:176-180 detailsOf *)
Definition detailsOf (value : Caught) : list (string * string) :=
  match trusted value with Some f => f_details f | None => [] end.

(** @src src/shared/errors/failure.ts:182-185 causeOf *)
Definition causeOf (value : Caught) : Caught :=
  match trusted value with Some f => f_cause f | None => CForeign VUndefined end.

(** @src src/shared/errors/failure.ts:187-193 fromCaught *)
Definition fromCaught (value : Caught) : Failure :=
  match trusted value with
  | Some f => f
  | None => failure internal "unexpected failure" (mkOptions None None [] value)
  end.

(** [error.type ?? 'unknown']. *)
Definition typeOr (d : string) (f : Failure) : string :=
  match f_type f with Some t => t | None => d end.

(** [error.type === t]. *)
Definition hasType (f : Failure) (t : string) : bool :=
  match f_type f with Some t' => String.eqb t' t | None => false end.

(** ** The error monad of application code: results whose error is a failure. *)
Abbreviation Res := (Result Failure).

(** [if (c) return err(e)]. *)
Definition refuse (c : bool) (e : Failure) : Res unit :=
  if c then Err e else Ok tt.

(** ** Facts. *)

Lemma refuse_ok c e u : refuse c e = Ok u <-> c = false.
Proof. unfold refuse. destruct c; destruct u; naive_solver. Qed.

Lemma f_type_typed kind type message options t :
  f_type (typedFailure kind type message options) = Some t -> t = type.
Proof. cbn. destruct (String.eqb type ""); [done|]. by intros [= <-]. Qed.

(** Public projection ignores the private frame. *)
Lemma publicInfo_withDetails f d :
  publicInfo (CFailure (withDetails f d)) = publicInfo (CFailure f).
Proof. done. Qed.

Lemma publicInfo_withCause f c :
  publicInfo (CFailure (withCause f c)) = publicInfo (CFailure f).
Proof. done. Qed.
