(* ===== verification/Ids.v ===== *)
(** * Identifiers: [shared/id/value.ts], [v7.ts] and [sequence.ts].

    UUID parsing to the canonical lower-case form, the UUIDv7 encoding, the
    monotonic generator and the deterministic fixture generator. *)
From S2P Require Import Prelude JsMap Errors.

(** [ID] is a branded string: [shared/id/value.ts]. *)
Abbreviation ID := jstring.

(** ** Hexadecimal text. *)
Definition isHexLower (c : Z) : bool := isDigit c || ((97 <=? c) && (c <=? 102)).
Definition isHexAny (c : Z) : bool := isHexLower c || ((65 <=? c) && (c <=? 70)).
(** [[89ab]] under the [i] flag. *)
Definition isVariant (c : Z) : bool :=
  (c =? 56) || (c =? 57) || (c =? 97) || (c =? 98) || (c =? 65) || (c =? 66).
Definition isDash (c : Z) : bool := c =? 45.

Fixpoint matchesShape (shape : list (Z -> bool)) (s : jstring) : bool :=
  match shape, s with
  | [], [] => true
  | p :: shape', c :: s' => p c && matchesShape shape' s'
  | _, _ => false
  end.

(** @src src/shared/id/value.ts:14-15 canonical *)
Definition canonical : list (Z -> bool) :=
  repeat isHexAny 8 ++ [isDash] ++ repeat isHexAny 4 ++ [isDash]
  ++ repeat isHexAny 4 ++ [isDash] ++ [isVariant] ++ repeat isHexAny 3
  ++ [isDash] ++ repeat isHexAny 12.

(** [toLowerCase] on a string of ASCII code units. *)
Definition asciiLower (s : jstring) : jstring :=
  (fun c => if isUpper c then c + 32 else c) <$> s.

(** @src src/shared/id/value.ts:17-27 parse *)
Definition parse (input : JsValue) : Res ID :=
  match input with
  | VStr s =>
      if negb (jlength s =? 36) || negb (matchesShape canonical s)
      then Err (fail_with invalid "invalid ID" "id.invalid")
      else Ok (asciiLower s)
  | _ => Err (fail_with invalid "invalid ID" "id.invalid")
  end.

Definition hexValue (c : Z) : Z := if isDigit c then c - 48 else c - 87.
Definition hexDigit (v : Z) : Z := if v <? 10 then 48 + v else 87 + v.

(** [Number.parseInt(s, 16)] of lower-case hexadecimal digits. *)
Definition parseHex (s : jstring) : Z :=
  foldl (fun acc c => acc * 16 + hexValue c) 0 s.

(** [s.slice(a, b)]. *)
Definition slice (a b : nat) (s : jstring) : jstring := take (b - a) (drop a s).

(** @src src/shared/id/value.ts:29-32 version *)
Definition version (id : ID) : Z := parseHex (slice 14 15 id).

(** @src src/shared/id/value.ts:34-39 unixMillis *)
Definition unixMillis (id : ID) : option Z :=
  if version id =? 7 then Some (parseHex (slice 0 8 id ++ slice 9 13 id)) else None.

(** [n.toString(16)] of a natural number below [16 ^ fuel]. *)
Fixpoint toHexFuel (fuel : nat) (n : Z) : jstring :=
  match fuel with
  | O => []
  | S f => if n <? 16 then [hexDigit n]
           else toHexFuel f (n / 16) ++ [hexDigit (n mod 16)]
  end.
Definition toHex (n : Z) : jstring := toHexFuel 16 n.

(** [s.padStart(w, '0')]. *)
Definition padStart (w : nat) (s : jstring) : jstring :=
  repeat 48 (w - length s) ++ s.

(** @src src/shared/id/value.ts:41-56 encodeV7 *)
Definition encodeV7 (milliseconds counter : Z) (suffix : list Z) : ID :=
  let stamp := padStart 12 (toHex milliseconds) in
  let sequence := toHex (Z.lor 28672 counter) in
  let tail := mjoin (imap (fun index byte =>
    padStart 2 (toHex (if Nat.eqb index 0 then Z.lor (Z.land byte 63) 128 else byte))) suffix) in
  slice 0 8 stamp ++ [45] ++ drop 8 stamp ++ [45] ++ sequence ++ [45]
    ++ slice 0 4 tail ++ [45] ++ drop 4 tail.

(** ** The monotonic generator. *)

(** @src src/shared/id/v7.ts:25-27 V7 *)
Record V7 : Type := mkV7 { last : option Z; counter : Z }.

(** @src src/shared/id/v7.ts:25-32 newV7 *)
Definition newV7 : V7 := mkV7 None 0.

(** The ten bytes an entropy source writes in a [Uint8Array]. *)
Definition fill (n : nat) (src : list Z) : list Z :=
  (fun i => (List.nth i src 0) mod 256) <$> seq 0 n.

(** @src src/shared/id/v7.ts:34-80 newId
    One call: the wall clock reading, and what the entropy source wrote
    ([None] when it threw). *)
Definition newId (g : V7) (now : Date) (entropy : option (list Z)) : Res ID * V7 :=
  match now with
  | InvalidDate => (Err (fail_with invalid "ID timestamp out of range" "id.time_range"), g)
  | DateAt ms =>
    if negb (isSafeInteger (Int ms)) || (ms <? 0) || (281474976710655 <? ms) then
      (Err (fail_with invalid "ID timestamp out of range" "id.time_range"), g)
    else
      let fresh := match g.(last) with None => true | Some l => l <? ms end in
      let milliseconds := if fresh then ms else match g.(last) with Some l => l | None => ms end in
      if negb fresh && (g.(counter) =? 4095) then
        (Err (fail_with unavailable "ID counter exhausted" "id.exhausted"), g)
      else
        match entropy with
        | None => (Err (fail_with unavailable "ID entropy unavailable" "id.entropy"), g)
        | Some src =>
            let random := fill 10 src in
            let counter :=
              if fresh
              then Z.land (Z.lor (Z.shiftl (List.nth 0 random 0) 8) (List.nth 1 random 0)) 2047
              else g.(counter) + 1 in
            (Ok (encodeV7 milliseconds counter (drop 2 random)), mkV7 (Some milliseconds) counter)
        end
  end.

(** A sequence of calls on one generator. *)
Fixpoint newIds (g : V7) (calls : list (Date * option (list Z))) : list (Res ID) :=
  match calls with
  | [] => []
  | (now, e) :: rest => let '(r, g') := newId g now e in r :: newIds g' rest
  end.

(** The identifiers a sequence of calls issued. *)
Fixpoint issued (rs : list (Res ID)) : list ID :=
  match rs with
  | [] => []
  | Ok id :: rs' => id :: issued rs'
  | Err _ :: rs' => issued rs'
  end.

(** @src src/shared/id/sequence.ts:12-18 Sequence *)
Record Sequence : Type := mkSequence { s_ids : list ID; s_next : nat }.

(** @src src/shared/id/sequence.ts:20-30 newId *)
Definition seqNewId (s : Sequence) : Res ID * Sequence :=
  match s.(s_ids) !! s.(s_next) with
  | None => (Err (fail_with unavailable "ID sequence exhausted" "id.sequence_exhausted"), s)
  | Some id => (Ok id, mkSequence s.(s_ids) (S s.(s_next)))
  end.

(** ** Facts on fixed-width hexadecimal text. *)

(** The [k] low hexadecimal digits of [n]. *)
Fixpoint hexN (k : nat) (n : Z) : jstring :=
  match k with
  | O => []
  | S k' => hexN k' (n / 16) ++ [hexDigit (n mod 16)]
  end.

Lemma hexN_length k n : length (hexN k n) = k.
Proof.
  revert n; induction k as [|k IH]; intros n; cbn; [done|].
  rewrite length_app, IH. cbn. lia.
Qed.

Lemma hexN_0 k : hexN k 0 = repeat 48 k.
Proof.
  induction k as [|k IH]; [done|]. cbn [hexN]. rewrite Z.div_0_l, IH by done.
  change (hexDigit (0 mod 16)) with 48. clear IH.
  induction k as [|k IH]; [done|]. cbn. by rewrite IH.
Qed.

Lemma pow16_S k : 16 ^ Z.of_nat (S k) = 16 * 16 ^ Z.of_nat k.
Proof. rewrite Nat2Z.inj_succ, Z.pow_succ_r by lia. done. Qed.

Lemma div16_range n k : 0 <= n < 16 ^ Z.of_nat (S k) -> 0 <= n / 16 < 16 ^ Z.of_nat k.
Proof.
  rewrite pow16_S. intros Hn. split; [apply Z.div_pos; lia|].
  apply Z.div_lt_upper_bound; lia.
Qed.

(** [padStart w (toHex n)] is the fixed-width text of [n]. *)
Lemma toHexFuel_hexN f w n :
  (f <= w)%nat -> (0 < f)%nat -> 0 <= n < 16 ^ Z.of_nat f ->
  exists k, (k <= f)%nat /\ toHexFuel f n = hexN k n /\ hexN w n = repeat 48 (w - k) ++ hexN k n.
Proof.
  revert w n; induction f as [|f IH]; intros w n Hw Hf Hn; [lia|]. cbn [toHexFuel].
  destruct w as [|w]; [lia|].
  destruct (n <? 16) eqn:E; breflect.
  - exists 1%nat. split; [lia|]. cbn.
    rewrite Z.mod_small, Z.div_small, hexN_0 by lia.
    replace (w - 0)%nat with w by lia. done.
  - destruct f as [|f].
    { change (16 ^ Z.of_nat 1) with 16 in Hn. lia. }
    destruct (IH w (n / 16)) as (k & Hk & H1 & H2); [lia|lia|by apply div16_range|].
    exists (S k). split; [lia|]. cbn [hexN]. rewrite H1, H2. split; [done|].
    rewrite <- app_assoc. by replace (S w - S k)%nat with (w - k)%nat by lia.
Qed.

Lemma padStart_toHex w n :
  (w <= 16)%nat -> (0 < w)%nat -> 0 <= n < 16 ^ Z.of_nat w -> padStart w (toHex n) = hexN w n.
Proof.
  intros Hw Hw0 Hn.
  assert (Hf : forall f g, (0 < f <= g)%nat -> 0 <= n < 16 ^ Z.of_nat f ->
                 toHexFuel g n = toHexFuel f n).
  { clear Hn Hw Hw0 w. intros f. revert n.
    induction f as [|f IH]; intros n g Hg Hn; [lia|].
    destruct g as [|g]; [lia|]. cbn [toHexFuel].
    destruct (n <? 16) eqn:E; [done|]; breflect. f_equal.
    destruct f as [|f]; [change (16 ^ Z.of_nat 1) with 16 in Hn; lia|].
    apply IH; [lia|by apply div16_range]. }
  unfold toHex. rewrite (Hf w 16%nat) by (lia || done).
  destruct (toHexFuel_hexN w w n) as (k & Hk & -> & ->); [lia|lia|done|].
  unfold padStart. by rewrite hexN_length.
Qed.

(** Text of fixed width orders like the numbers. *)
Lemma jcompare_refl a : jcompare a a = Eq.
Proof. induction a as [|x a IH]; cbn; [done|]. by rewrite Z.compare_refl. Qed.

Lemma jcompare_eq a b : jcompare a b = Eq -> a = b.
Proof.
  revert b; induction a as [|x a IH]; intros [|y b]; cbn; try done.
  destruct (Z.compare_spec x y) as [->| |]; [|done..]. intros H. by rewrite (IH b H).
Qed.

Lemma jcompare_app a b x y :
  length a = length b ->
  jcompare (a ++ x) (b ++ y) =
    match jcompare a b with Eq => jcompare x y | c => c end.
Proof.
  revert b; induction a as [|p a IH]; intros [|q b]; cbn; try done.
  intros [= H]. destruct (p ?= q)%Z; [by apply IH|done..].
Qed.

Lemma hexDigit_mono u v : 0 <= u < v -> v < 16 -> (hexDigit u ?= hexDigit v)%Z = Lt.
Proof.
  intros ??. apply Z.compare_lt_iff. unfold hexDigit.
  destruct (u <? 10) eqn:E1, (v <? 10) eqn:E2; breflect; lia.
Qed.

Lemma hexN_lt k n m :
  0 <= n < m -> m < 16 ^ Z.of_nat k -> jcompare (hexN k n) (hexN k m) = Lt.
Proof.
  revert n m; induction k as [|k IH]; intros n m Hn Hm; [cbn in Hm; lia|].
  cbn [hexN]. rewrite jcompare_app by (by rewrite !hexN_length).
  assert (Hd : n / 16 <= m / 16) by (apply Z.div_le_mono; lia).
  destruct (Z.eq_dec (n / 16) (m / 16)) as [Heq|Hne].
  - rewrite Heq, jcompare_refl. cbn.
    assert (n mod 16 < m mod 16).
    { pose proof (Z.div_mod n 16). pose proof (Z.div_mod m 16). lia. }
    pose proof (Z.mod_pos_bound n 16). pose proof (Z.mod_pos_bound m 16).
    rewrite hexDigit_mono by lia. done.
  - rewrite IH; [done|split; [apply Z.div_pos|]; lia|].
    apply div16_range. lia.
Qed.

Lemma hexDigit_value v : 0 <= v < 16 -> hexValue (hexDigit v) = v /\ isHexLower (hexDigit v) = true.
Proof.
  intros Hv. assert (Hall : forallb (fun v => (hexValue (hexDigit v) =? v) && isHexLower (hexDigit v))
    (Z.of_nat <$> seq 0 16) = true) by (vm_compute; reflexivity).
  rewrite forallb_forall in Hall. specialize (Hall v).
  assert (Hin : In v (Z.of_nat <$> seq 0 16)).
  { apply list_elem_of_In, list_elem_of_fmap. exists (Z.to_nat v).
    rewrite elem_of_seq. lia. }
  apply Hall in Hin. breflect. done.
Qed.

Lemma parseHex_snoc s c : parseHex (s ++ [c]) = parseHex s * 16 + hexValue c.
Proof. unfold parseHex. by rewrite foldl_app. Qed.

Lemma parseHex_hexN k n : 0 <= n < 16 ^ Z.of_nat k -> parseHex (hexN k n) = n.
Proof.
  revert n; induction k as [|k IH]; intros n Hn; [change (16 ^ Z.of_nat 0) with 1 in Hn; cbn; lia|].
  cbn [hexN]. rewrite parseHex_snoc, IH by (by apply div16_range).
  destruct (hexDigit_value (n mod 16)) as [-> _]; [by apply Z.mod_pos_bound|].
  pose proof (Z.div_mod n 16). lia.
Qed.

Lemma hexN_hex k n : Forall (fun c => isHexLower c = true) (hexN k n).
Proof.
  revert n; induction k as [|k IH]; intros n; cbn; [constructor|].
  apply Forall_app. split; [done|]. constructor; [|done].
  apply hexDigit_value. by apply Z.mod_pos_bound.
Qed.

Lemma hexN_app a b n : hexN (a + b) n = hexN a (n / 16 ^ Z.of_nat b) ++ hexN b n.
Proof.
  revert n; induction b as [|b IH]; intros n.
  - change (16 ^ Z.of_nat 0) with 1. rewrite Z.div_1_r, Nat.add_0_r. cbn.
    by rewrite app_nil_r.
  - rewrite Nat.add_succ_r. cbn [hexN]. rewrite IH, app_assoc.
    rewrite Z.div_div by lia. by rewrite pow16_S.
Qed.

(** Finite checks over the ranges of a byte and of the 12-bit counter. *)
Lemma forall_below (n : nat) (p : Z -> bool) :
  forallb p (Z.of_nat <$> seq 0 n) = true -> forall z, 0 <= z < Z.of_nat n -> p z = true.
Proof.
  rewrite forallb_forall. intros H z Hz. apply H.
  apply list_elem_of_In, list_elem_of_fmap. exists (Z.to_nat z).
  rewrite elem_of_seq. lia.
Qed.

Lemma sequence_text c :
  0 <= c < 4096 -> toHex (Z.lor 28672 c) = [55] ++ hexN 3 c.
Proof.
  intros Hc. apply (bool_decide_eq_true_1 (toHex (Z.lor 28672 c) = [55] ++ hexN 3 c)).
  revert c Hc. apply (forall_below 4096). vm_compute. reflexivity.
Qed.

Lemma variant_byte b :
  0 <= b < 256 -> exists v d, padStart 2 (toHex (Z.lor (Z.land b 63) 128)) = [v; d]
    /\ isVariant v = true /\ isHexLower v = true /\ isHexLower d = true.
Proof.
  intros Hb.
  pose (p := fun b => match padStart 2 (toHex (Z.lor (Z.land b 63) 128)) with
                      | [v; d] => isVariant v && isHexLower v && isHexLower d
                      | _ => false end).
  assert (Hp : p b = true).
  { revert b Hb. apply (forall_below 256). vm_compute. reflexivity. }
  unfold p in Hp. destruct (padStart 2 _) as [|v [|d [|? ?]]]; try discriminate.
  breflect. eauto 10.
Qed.

(** A byte source writes bytes. *)
Definition isBytes (l : list Z) : Prop := Forall (fun b => 0 <= b < 256) l.

Lemma fill_bytes n src : isBytes (fill n src) /\ length (fill n src) = n.
Proof.
  unfold fill, isBytes. rewrite length_fmap, length_seq. split; [|done].
  apply Forall_fmap, Forall_forall. intros i _. cbn. by apply Z.mod_pos_bound.
Qed.

(** The text of an encoded identifier, field by field. *)
Lemma encodeV7_text ms c sfx :
  0 <= ms < 16 ^ 12 -> 0 <= c < 4096 -> isBytes sfx -> length sfx = 8%nat ->
  exists v r t,
    encodeV7 ms c sfx =
      hexN 8 (ms / 16 ^ 4) ++ [45] ++ hexN 4 ms ++ [45] ++ (55 :: hexN 3 c) ++ [45]
      ++ ([v] ++ r ++ [45] ++ t)
    /\ length r = 3%nat /\ length t = 12%nat
    /\ isVariant v = true
    /\ Forall (fun c => isHexLower c = true) ([v] ++ r ++ t).
Proof.
  intros Hms Hc Hb Hl.
  destruct sfx as [|b0 [|b1 [|b2 [|b3 [|b4 [|b5 [|b6 [|b7 [|? ?]]]]]]]]]; try discriminate.
  unfold isBytes in Hb. rewrite !Forall_cons in Hb.
  destruct Hb as (H0 & H1 & H2 & H3 & H4 & H5 & H6 & H7 & _).
  destruct (variant_byte b0 H0) as (v & d & Hv & ? & ? & ?).
  exists v, (d :: hexN 2 b1),
    (hexN 2 b2 ++ hexN 2 b3 ++ hexN 2 b4 ++ hexN 2 b5 ++ hexN 2 b6 ++ hexN 2 b7).
  split; [|split_and!; [by rewrite length_cons, hexN_length|by rewrite !length_app, !hexN_length|done|]].
  - unfold encodeV7. cbn [imap Nat.eqb mjoin list_join]. unfold compose. cbn [imap Nat.eqb mjoin list_join].
    rewrite Hv, sequence_text by done.
    rewrite !(padStart_toHex 2) by (lia || done).
    rewrite (padStart_toHex 12) by (lia || done).
    change (hexN 12 ms) with (hexN (8 + 4) ms).
    rewrite (hexN_app 8 4 ms). change (Z.of_nat 4) with 4.
    unfold slice. rewrite drop_0, take_app_length' by (by rewrite hexN_length).
    rewrite drop_app_length' by (by rewrite hexN_length).
    destruct (hexN 2 b1) as [|? [|? [|? ?]]] eqn:E1;
      try (pose proof (hexN_length 2 b1) as Hx; rewrite E1 in Hx; discriminate Hx).
    cbn [app take drop Nat.sub]. rewrite ?app_nil_r, <- ?app_assoc. done.
  - rewrite !Forall_app, !Forall_cons. split_and!; try done; apply hexN_hex.
Qed.

Lemma matchesShape_app p q s t :
  length p = length s ->
  matchesShape (p ++ q) (s ++ t) = matchesShape p s && matchesShape q t.
Proof.
  revert s; induction p as [|f p IH]; intros [|c s]; cbn; try done.
  intros [= H]. rewrite IH by done. by rewrite andb_assoc.
Qed.

Lemma matchesShape_hex k s :
  length s = k -> Forall (fun c => isHexLower c = true) s ->
  matchesShape (repeat isHexAny k) s = true.
Proof.
  revert s; induction k as [|k IH]; intros [|c s]; cbn; try done.
  intros [= H] [Hc Hs]%Forall_cons. unfold isHexAny. rewrite Hc. by apply IH.
Qed.

Lemma asciiLower_fixed s :
  Forall (fun c => isUpper c = false) s -> asciiLower s = s.
Proof.
  induction 1 as [|c s Hc Hs IH]; cbn; [done|]. rewrite Hc. by f_equal.
Qed.

Lemma hexLower_not_upper c : isHexLower c = true -> isUpper c = false.
Proof.
  unfold isHexLower, isUpper, isDigit. intros H%orb_true_iff.
  apply andb_false_iff. destruct H; breflect; [left|right]; lia.
Qed.

Lemma canonical_lower s : Forall (fun c => isHexLower c = true \/ c = 45) s -> asciiLower s = s.
Proof.
  intros H. apply asciiLower_fixed. eapply Forall_impl; [exact H|].
  intros c [Hc| ->]; [by apply hexLower_not_upper|done].
Qed.

(** Lower-casing a character. *)
Definition lowerChar (c : Z) : Z := if isUpper c then c + 32 else c.

(** A class of the shape that lower-casing does not leave. *)
Definition lowerClosed (p : Z -> bool) : Prop := forall c, p c = true -> p (lowerChar c) = true.

Lemma lowerChar_idemp c : isUpper (lowerChar c) = false.
Proof.
  unfold lowerChar. destruct (isUpper c) eqn:E; [|done]. unfold isUpper in *. breflect.
  apply andb_false_iff. right. lia.
Qed.

Lemma isHexAny_spec c :
  isHexAny c = true <-> 48 <= c <= 57 \/ 97 <= c <= 102 \/ 65 <= c <= 70.
Proof.
  unfold isHexAny, isHexLower, isDigit. rewrite !orb_true_iff, !andb_true_iff, !Z.leb_le. lia.
Qed.

Lemma hexAny_closed : lowerClosed isHexAny.
Proof.
  intros c. unfold lowerChar. rewrite !isHexAny_spec. unfold isUpper. destruct (_ && _) eqn:E; [|done].
  breflect. lia.
Qed.

Lemma dash_closed : lowerClosed isDash.
Proof. intros c H. apply Z.eqb_eq in H as ->. done. Qed.

Lemma variant_closed : lowerClosed isVariant.
Proof.
  intros c H. unfold isVariant in H. rewrite !orb_true_iff, !Z.eqb_eq in H.
  destruct H as [[[[[-> | ->] | ->] | ->] | ->] | ->]; done.
Qed.

Lemma canonical_closed : Forall lowerClosed canonical.
Proof.
  unfold canonical. repeat constructor;
    auto using hexAny_closed, dash_closed, variant_closed.
Qed.

Lemma matchesShape_lower shape s :
  Forall lowerClosed shape -> matchesShape shape s = true ->
  matchesShape shape (asciiLower s) = true.
Proof.
  intros H. revert s. induction H as [|p shape Hp Hs IH]; intros [|c s]; cbn; try done.
  intros [Hc Hr]%andb_true_iff. apply andb_true_iff. split; [by apply Hp|by apply IH].
Qed.

Lemma asciiLower_idemp s : asciiLower (asciiLower s) = asciiLower s.
Proof.
  apply asciiLower_fixed. unfold asciiLower. apply Forall_fmap, Forall_true.
  intros c. apply lowerChar_idemp.
Qed.

(** Parsing answers the canonical form, which parses to itself. *)
Lemma parse_idemp v id : parse v = Ok id -> parse (VStr id) = Ok id.
Proof.
  destruct v; cbn -[canonical]; try done. destruct (_ || _) eqn:E; [done|].
  intros [= <-]. breflect. assert (jlength (asciiLower s) = jlength s) as ->
    by (unfold jlength, asciiLower; by rewrite length_fmap).
  rewrite H, Z.eqb_refl, asciiLower_idemp.
  rewrite matchesShape_lower; [done|apply canonical_closed|done].
Qed.

(** Every encoded identifier is canonical. *)
Lemma encodeV7_canonical ms c sfx :
  0 <= ms < 16 ^ 12 -> 0 <= c < 4096 -> isBytes sfx -> length sfx = 8%nat ->
  parse (VStr (encodeV7 ms c sfx)) = Ok (encodeV7 ms c sfx).
Proof.
  intros Hms Hc Hb Hl.
  destruct (encodeV7_text ms c sfx) as (v & r & t & -> & Hr & Ht & Hv & Hh); [done..|].
  rewrite !Forall_app, Forall_singleton in Hh. destruct Hh as (Hv' & Hhr & Hht).
  assert (Hs : Forall (fun c => isHexLower c = true) (55 :: hexN 3 c)).
  { constructor; [done|]. apply hexN_hex. }
  unfold parse. set (s := hexN 8 (ms / 16 ^ 4) ++ _).
  assert ((jlength s =? 36) = true) as ->.
  { apply Z.eqb_eq. unfold jlength, s.
    rewrite !length_app, Hr, Ht, !length_cons, !hexN_length. done. }
  assert (matchesShape canonical s = true) as ->.
  { unfold canonical, s.
    rewrite !matchesShape_app by (rewrite ?length_cons, ?hexN_length, ?repeat_length, ?Hr; done).
    rewrite !matchesShape_hex by (rewrite ?length_cons, ?hexN_length; auto using hexN_hex).
    cbn. by rewrite Hv. }
  cbn [negb orb]. f_equal. apply canonical_lower. unfold s.
  assert (Hor : forall l, Forall (fun c => isHexLower c = true) l ->
     Forall (fun c => isHexLower c = true \/ c = 45) l).
  { intros l H. eapply Forall_impl; [exact H|]. auto. }
  rewrite !Forall_app, !Forall_singleton. split_and!; auto using hexN_hex.
Qed.

(** Its version and timestamp read back. *)
Lemma encodeV7_version ms c sfx :
  0 <= ms < 16 ^ 12 -> 0 <= c < 4096 -> isBytes sfx -> length sfx = 8%nat ->
  version (encodeV7 ms c sfx) = 7 /\ unixMillis (encodeV7 ms c sfx) = Some ms.
Proof.
  intros Hms Hc Hb Hl.
  destruct (encodeV7_text ms c sfx) as (v & r & t & -> & Hr & Ht & Hv & Hh); [done..|].
  set (A := hexN 8 (ms / 16 ^ 4)). set (B := hexN 4 ms).
  assert (HA : length A = 8%nat) by apply hexN_length.
  assert (HB : length B = 4%nat) by apply hexN_length.
  assert (Hver : version (A ++ [45] ++ B ++ [45] ++ (55 :: hexN 3 c) ++ [45] ++ [v] ++ r ++ [45] ++ t) = 7).
  { unfold version, slice.
    rewrite (app_assoc A), (app_assoc (A ++ _)), (app_assoc ((A ++ _) ++ _)).
    rewrite drop_app_length' by (rewrite !length_app, HA, HB; done). done. }
  split; [done|]. unfold unixMillis. rewrite Hver. cbn [Z.eqb].
  change (7 =? 7) with true. cbn iota. f_equal.
  unfold slice. rewrite drop_0, take_app_length' by (by rewrite HA).
  rewrite (app_assoc A [45]). rewrite drop_app_length' by (rewrite length_app, HA; done).
  rewrite take_app_length' by (by rewrite HB).
  unfold A, B. change 4 with (Z.of_nat 4) at 1. rewrite <- (hexN_app 8 4 ms).
  apply parseHex_hexN. done.
Qed.

(** Identifiers order by (milliseconds, counter). *)
Lemma encodeV7_lt ms ms' c c' sfx sfx' :
  0 <= ms < 16 ^ 12 -> 0 <= c < 4096 -> isBytes sfx -> length sfx = 8%nat ->
  0 <= ms' < 16 ^ 12 -> 0 <= c' < 4096 -> isBytes sfx' -> length sfx' = 8%nat ->
  ms < ms' \/ (ms = ms' /\ c < c') ->
  jcompare (encodeV7 ms c sfx) (encodeV7 ms' c' sfx') = Lt.
Proof.
  intros Hms Hc Hb Hl Hms' Hc' Hb' Hl' Hlt.
  destruct (encodeV7_text ms c sfx) as (v & r & t & -> & Hr & Ht & _); [done..|].
  destruct (encodeV7_text ms' c' sfx') as (v' & r' & t' & -> & Hr' & Ht' & _); [done..|].
  rewrite jcompare_app by (by rewrite !hexN_length).
  destruct Hlt as [Hlt|[<- Hlt]].
  - assert (Hall := hexN_lt 12 ms ms' ltac:(lia) ltac:(lia)).
    change 12%nat with (8 + 4)%nat in Hall. rewrite !hexN_app in Hall.
    change (Z.of_nat 4) with 4 in Hall.
    rewrite jcompare_app in Hall by (by rewrite !hexN_length).
    destruct (jcompare (hexN 8 _) _); [|done..].
    rewrite (jcompare_app [45] [45]) by done. cbn [jcompare].
    change ((45 ?= 45)%Z) with Eq. cbn iota.
    rewrite jcompare_app by (by rewrite !hexN_length). by rewrite Hall.
  - rewrite jcompare_refl, (jcompare_app [45] [45]), jcompare_refl by done.
    rewrite jcompare_app, jcompare_refl by done.
    rewrite (jcompare_app [45] [45]), jcompare_refl by done.
    rewrite jcompare_app by (by rewrite !length_cons, !hexN_length).
    cbn [jcompare]. change ((55 ?= 55)%Z) with Eq. cbn iota.
    by rewrite hexN_lt by (change (16 ^ Z.of_nat 3) with 4096; lia).
Qed.

(** ** The generator. *)

(** What a generator remembers is in range. *)
Definition genInv (g : V7) : Prop :=
  match g.(last) with
  | None => True
  | Some l => 0 <= l < 16 ^ 12 /\ 0 <= g.(counter) < 4096
  end.

(** [(ms, c)] comes after what the generator issued last. *)
Definition after_last (g : V7) (ms c : Z) : Prop :=
  match g.(last) with
  | None => True
  | Some l => l < ms \/ (l = ms /\ g.(counter) < c)
  end.

Lemma fresh_counter a b : 0 <= Z.land (Z.lor (Z.shiftl a 8) b) 2047 < 2048.
Proof.
  change 2047 with (Z.ones 11). rewrite Z.land_ones by lia.
  by apply Z.mod_pos_bound.
Qed.

Lemma newId_err g now e f g' : newId g now e = (Err f, g') -> g' = g.
Proof.
  unfold newId. destruct now as [|ms]; [by intros [= _ <-]|].
  destruct (negb _ || _ || _); [by intros [= _ <-]|].
  destruct (negb _ && _); [by intros [= _ <-]|].
  destruct e; [done|by intros [= _ <-]].
Qed.

Lemma newId_ok g now e id g' :
  genInv g -> newId g now e = (Ok id, g') ->
  exists ms c sfx,
    id = encodeV7 ms c sfx /\ g' = mkV7 (Some ms) c
    /\ 0 <= ms < 16 ^ 12 /\ 0 <= c < 4096 /\ isBytes sfx /\ length sfx = 8%nat
    /\ after_last g ms c.
Proof.
  unfold newId, genInv, after_last. intros Hg.
  destruct now as [|ms]; [done|].
  destruct (negb _ || _ || _) eqn:Er; [done|].
  destruct (negb _ && _) eqn:Ex; [done|].
  destruct e as [src|]; [|done]. destruct (fill_bytes 10 src) as [Hf Hl].
  cbv zeta. revert Hf Hl. generalize (fill 10 src) as random. intros random Hf Hl [= <- <-].
  breflect.
  assert (Hms : 0 <= ms < 16 ^ 12) by (change (16 ^ 12) with 281474976710656; lia).
  pose proof (fresh_counter (List.nth 0 random 0) (List.nth 1 random 0)) as Hc.
  do 3 eexists. split; [reflexivity|]. split; [reflexivity|].
  destruct (last g) as [l|]; [destruct (l <? ms) eqn:E; rewrite ?E in Ex|]; cbn in Ex; breflect.
  all: split; [lia|]; split; [lia|].
  all: split; [by apply Forall_drop|]; split; [by rewrite length_drop, Hl|].
  all: lia.
Qed.

Lemma newIds_after calls g :
  genInv g ->
  Forall (fun id => exists ms c sfx, id = encodeV7 ms c sfx
    /\ 0 <= ms < 16 ^ 12 /\ 0 <= c < 4096 /\ isBytes sfx /\ length sfx = 8%nat
    /\ after_last g ms c) (issued (newIds g calls)).
Proof.
  revert g; induction calls as [|[now e] calls IH]; intros g Hg; cbn; [constructor|].
  destruct (newId g now e) as [[id|f] g'] eqn:E; cbn.
  - destruct (newId_ok _ _ _ _ _ Hg E) as (ms & c & sfx & -> & -> & Hms & Hc & Hb & Hl & Ha).
    constructor; [by eauto 15|].
    eapply Forall_impl; [apply (IH (mkV7 (Some ms) c)); by cbn|].
    cbn. intros id (ms' & c' & sfx' & -> & ? & ? & ? & ? & Ha').
    exists ms', c', sfx'. split_and!; try done; try lia.
    unfold after_last in *. cbn in Ha'. destruct (last g); [lia|done].
  - rewrite (newId_err _ _ _ _ _ E). by apply IH.
Qed.

(** One generator issues strictly increasing identifiers, in the ordinal
    order the storage sorts by, whatever the wall clock does between calls
    (stalls or steps backwards included) and whatever the entropy source
    writes; a refused call changes nothing. In particular no identifier is
    issued twice, and each one is a canonical version-7 UUID that [parse]
    accepts unchanged. *)
Theorem newIds_strictly_increasing (calls : list (Date * option (list Z))) :
  StronglySorted (fun a b => jcompare a b = Lt) (issued (newIds newV7 calls))
  /\ NoDup (issued (newIds newV7 calls))
  /\ Forall (fun id => parse (VStr id) = Ok id /\ version id = 7)
       (issued (newIds newV7 calls)).
Proof.
  assert (Hs : forall g, genInv g ->
    StronglySorted (fun a b => jcompare a b = Lt) (issued (newIds g calls))).
  { induction calls as [|[now e] rest IH]; intros g Hg; cbn; [constructor|].
    destruct (newId g now e) as [[id|f] g'] eqn:E; cbn.
    - destruct (newId_ok _ _ _ _ _ Hg E) as (ms & c & sfx & -> & -> & Hms & Hc & Hb & Hl & Ha).
      constructor; [by apply IH|].
      eapply Forall_impl; [apply (newIds_after rest (mkV7 (Some ms) c)); by cbn|].
      cbn. intros id (ms' & c' & sfx' & -> & ? & ? & ? & ? & Ha').
      by apply encodeV7_lt.
    - rewrite (newId_err _ _ _ _ _ E). by apply IH. }
  specialize (Hs newV7 I). split_and!; [done|..].
  - induction Hs as [|x l Hl IH Hx]; constructor; [|done].
    intros Hin. rewrite Forall_forall in Hx. specialize (Hx x Hin).
    by rewrite jcompare_refl in Hx.
  - eapply Forall_impl; [by apply newIds_after|].
    intros id (ms & c & sfx & -> & ? & ? & ? & ? & _).
    split; [by apply encodeV7_canonical|by apply encodeV7_version].
Qed.

(** A call at a usable time, with a working entropy source. *)
Definition usable (call : Date * option (list Z)) : Prop :=
  exists t src, call = (DateAt t, Some src) /\ 0 <= t <= 281474976710655.

Lemma newId_live g t src n :
  0 <= t <= 281474976710655 -> genInv g ->
  (0 <= n <= 2048)%Z ->
  (g.(last) = None \/ g.(counter) + (n + 1) <= 4095) ->
  exists id c l, newId g (DateAt t) (Some src) = (Ok id, mkV7 (Some l) c)
    /\ c + n <= 4095.
Proof.
  intros Ht Hg Hn Hroom. unfold newId.
  assert (negb (isSafeInteger (Int t)) || (t <? 0) || (281474976710655 <? t) = false) as ->.
  { apply orb_false_iff; split; [apply orb_false_iff; split|].
    - apply negb_false_iff. cbn. apply Z.leb_le. unfold MAX_SAFE_INTEGER. lia.
    - apply Z.ltb_ge. lia.
    - apply Z.ltb_ge. lia. }
  pose proof (fresh_counter (List.nth 0 (fill 10 src) 0) (List.nth 1 (fill 10 src) 0)) as Hf.
  destruct (last g) as [l|] eqn:El; cbn [negb andb].
  - destruct Hroom as [|Hroom]; [done|].
    destruct (l <? t) eqn:Et; cbn [negb andb].
    + do 3 eexists. split; [reflexivity|lia].
    + destruct (counter g =? 4095) eqn:Ec; breflect; [lia|].
      do 3 eexists. split; [reflexivity|lia].
  - do 3 eexists. split; [reflexivity|lia].
Qed.

(** A generator never exhausts its counter within a burst: the first 2049
    calls at usable times all issue an identifier, even if every one of them
    reads the same millisecond, because a fresh counter starts at most at
    2047 of 4095. *)
Theorem newIds_burst (calls : list (Date * option (list Z)))
    (Husable : Forall usable calls) (Hlen : (length calls <= 2049)%nat) :
  forallb isOk (newIds newV7 calls) = true.
Proof.
  assert (H : forall g, genInv g -> (last g = None \/ counter g + Z.of_nat (length calls) <= 4095) ->
    forallb isOk (newIds g calls) = true); [|by apply H; [|left]].
  induction calls as [|[now e] rest IH]; intros g Hg Hroom; [done|].
  apply Forall_cons in Husable as [(t & src & [= -> ->] & Ht) Hrest].
  cbn [length] in *. cbn [newIds].
  destruct (newId_live g t src (Z.of_nat (length rest))) as (id & c & l & E & Hc); [done..|lia|destruct Hroom; [by left|right; lia]|].
  rewrite E. cbn. apply IH; [done|lia| |right; cbn; lia].
  destruct (newId_ok _ _ _ _ _ Hg E) as (? & ? & ? & _ & [= <- <-] & ? & ? & _). by cbn.
Qed.

Lemma newIds_burst_witness :
  forallb isOk (newIds newV7 [(DateAt 5, Some [7; 255]); (DateAt 3, Some [])]) = true.
Proof.
  apply newIds_burst; [|cbn; lia].
  repeat constructor; eexists _, _; (split; [reflexivity|lia]).
Defined.
