(* ===== verification/CaseFolding.v ===== *)
(** * Case folding: [String.prototype.toLowerCase] as the code relies on it. *)
From S2P Require Import Prelude JsMap Errors Ids.

(** ** The interface.

    [String.prototype.toLowerCase] applies the Unicode default case
    conversion; the code relies on the laws below, which the conversion has:
    it agrees with ASCII folding on ASCII text, applying it twice changes
    nothing more, and it neither produces nor consumes white space at the ends
    of a string. *)
Class CaseFolding : Type := {
  toLowerCase : jstring -> jstring;
  toLowerCase_idemp : forall s, toLowerCase (toLowerCase s) = toLowerCase s;
  toLowerCase_trim : forall s, trim s = s -> trim (toLowerCase s) = toLowerCase s;
  toLowerCase_ascii : forall s, Forall (fun c => 0 <= c < 128) s -> toLowerCase s = asciiLower s
}.

(** ASCII folding has the laws of case folding on the text it covers. *)
Lemma isSpace_lower c : isSpace (lowerChar c) = isSpace c.
Proof.
  unfold lowerChar. destruct (isUpper c) eqn:E; [|done]. unfold isUpper in E. breflect.
  unfold isSpace. repeat (f_equal; [|]); rewrite ?andb_false_iff; lia.
Qed.

Lemma trimStart_lower s : trimStart (asciiLower s) = asciiLower (trimStart s).
Proof.
  induction s as [|c s IH]; [done|]. cbn. fold (lowerChar c). rewrite isSpace_lower.
  by destruct (isSpace c).
Qed.

Lemma reverse_lower s : reverse (asciiLower s) = asciiLower (reverse s).
Proof. unfold asciiLower. by rewrite fmap_reverse. Qed.

Lemma trim_lower s : trim (asciiLower s) = asciiLower (trim s).
Proof. unfold trim. by rewrite trimStart_lower, reverse_lower, trimStart_lower, reverse_lower. Qed.

Definition asciiFolding : CaseFolding.
Proof.
  refine {| toLowerCase := asciiLower; toLowerCase_idemp := asciiLower_idemp |}.
  - intros s Hs. by rewrite trim_lower, Hs.
  - done.
Defined.
