(* ===== verification/DocumentDomain.v ===== *)
(** * The Document aggregate: [modules/document/domain/document.ts].

    The processing lifecycle of a document: active, processing, processed,
    processing_failed, archived.  A document waits on one processing run and
    applies the run's outcomes, which arrive at least once and in any order. *)
From S2P Require Import Prelude JsMap Errors Ids.

Module Document.

(** @src src/modules/document/domain/document.ts:15-22 DocumentStatus *)
Inductive DocumentStatus : Type :=
| active | processing | processed | processing_failed | archived.

#[export] Instance DocumentStatus_eq_dec : EqDecision DocumentStatus.
Proof. solve_decision. Defined.

Definition statusName (s : DocumentStatus) : string :=
  match s with
  | active => "active" | processing => "processing" | processed => "processed"
  | processing_failed => "processing_failed" | archived => "archived"
  end.

(** @src src/modules/document/domain/document.ts:15-21 DOCUMENT_STATUSES
    Membership in the list of a status as storage spells it. *)
Definition parseStatus (s : string) : option DocumentStatus :=
  find_first (fun x => String.eqb (statusName x) s)
    [active; processing; processed; processing_failed; archived].

(** @src src/modules/document/domain/document.ts:43-53 ProcessingOutcome *)
Inductive OutcomeResult : Type := retrying | succeeded | failed.

(** @src src/modules/document/domain/document.ts:48-53 ProcessingOutcome *)
Record ProcessingOutcome : Type := mkOutcome {
  o_run : ID;
  o_attempt : num;
  o_result : OutcomeResult;
  o_failureCode : JsValue
}.

(** @src src/modules/document/domain/document.ts:55-61 CreateDocumentInput *)
Record CreateDocumentInput : Type := mkCreate {
  c_id : ID; c_organizationId : ID; c_name : JsValue; c_storageKey : JsValue;
  c_createdAt : Date
}.

(** @src src/modules/document/domain/document.ts:63-76 RestoreDocumentInput
    A row as storage returns it: the status is a raw string. *)
Record RestoreDocumentInput : Type := mkRestore {
  r_id : ID; r_organizationId : ID; r_name : JsValue; r_storageKey : JsValue;
  r_status : string; r_processingFailureCode : JsValue;
  r_processingRun : option ID; r_processingAttempt : num;
  r_createdAt : Date; r_updatedAt : Date; r_archivedAt : option Date; r_version : num
}.

(** @src src/modules/document/domain/document.ts:78-91 DocumentState *)
Record Document : Type := mkDocument {
  d_id : ID; d_organizationId : ID; d_name : jstring; d_storageKey : option jstring;
  d_status : DocumentStatus; d_processingFailureCode : option jstring;
  d_processingRun : option ID; d_processingAttempt : Z;
  d_createdAt : Date; d_updatedAt : Date; d_archivedAt : option Date; d_version : Z
}.

(** @src src/modules/document/domain/document.ts:101-103 invalid *)
Definition invalid (message type : string) : Failure :=
  typedFailure invalid type message noOptions.

(** @src src/modules/document/domain/document.ts:105-121 name *)
Definition name (value : JsValue) : Res jstring :=
  match value with
  | VStr s =>
      let normalized := trim s in
      if (jlength normalized =? 0) || (200 <? jlength normalized)
      then Err (invalid "document name must be between 1 and 200 characters"
                  "document.invalid_name")
      else Ok normalized
  | _ => Err (invalid "document name must be a string" "document.invalid_name")
  end.

(** @src src/modules/document/domain/document.ts:123-143 storageKey *)
Definition storageKey (value : JsValue) : Res (option jstring) :=
  match value with
  | VUndefined | VNull => Ok None
  | VStr s =>
      let normalized := trim s in
      if (jlength normalized =? 0) || (512 <? jlength normalized)
      then Err (invalid "document storage key must be between 1 and 512 characters"
                  "document.invalid_storage_key")
      else Ok (Some normalized)
  | _ => Err (invalid "document storage key must be a string" "document.invalid_storage_key")
  end.

(** @src src/modules/document/domain/document.ts:145-158 processingFailureCode *)
Definition processingFailureCode (value : JsValue) : Res (option jstring) :=
  match value with
  | VUndefined | VNull => Ok None
  | VStr s =>
      if matchesName 127 s then Ok (Some s)
      else Err (invalid "document processing failure code is invalid"
                  "document.invalid_processing_failure_code")
  | _ => Err (invalid "document processing failure code is invalid"
                "document.invalid_processing_failure_code")
  end.

(** @src src/modules/document/domain/document.ts:165-196 create *)
Definition create (input : CreateDocumentInput) : Res Document :=
  documentName ← name input.(c_name);
  documentStorageKey ← storageKey input.(c_storageKey);
  if negb (validDate input.(c_createdAt)) then
    Err (invalid "document creation time is invalid" "document.invalid_created_at")
  else
    let createdAt := copyDate input.(c_createdAt) in
    Ok {| d_id := input.(c_id);
          d_organizationId := input.(c_organizationId);
          d_name := documentName;
          d_storageKey := documentStorageKey;
          d_status := active;
          d_processingFailureCode := None;
          d_processingRun := None;
          d_processingAttempt := 0;
          d_createdAt := createdAt;
          d_updatedAt := copyDate createdAt;
          d_archivedAt := None;
          d_version := UNSAVED |}.

(** @src src/modules/document/domain/document.ts:230-242 restore
    The third guard of [restore]: status against archive time and code. *)
Definition incoherent (status : DocumentStatus) (archivedAt : option Date)
    (code : option jstring) : bool :=
  match status with
  | active | processing | processed => negb (isNull archivedAt) || negb (isNull code)
  | processing_failed => negb (isNull archivedAt) || isNull code
  | archived => isNull archivedAt
  end.

(** @src src/modules/document/domain/document.ts:198-261 restore *)
Definition restore (input : RestoreDocumentInput) : Res Document :=
  documentName ← name input.(r_name);
  documentStorageKey ← storageKey input.(r_storageKey);
  code ← processingFailureCode input.(r_processingFailureCode);
  match parseStatus input.(r_status) with
  | None => Err (invalid "document state is invalid" "document.invalid_state")
  | Some status =>
    if negb (validDate input.(r_createdAt)) || negb (validDate input.(r_updatedAt))
       || badDateOpt input.(r_archivedAt) || negb (isStoredVersion input.(r_version))
       || negb (isSafeInteger input.(r_processingAttempt))
       || num_lt input.(r_processingAttempt) 0 then
      Err (invalid "document state is invalid" "document.invalid_state")
    else if date_lt input.(r_updatedAt) input.(r_createdAt) then
      Err (invalid "document update time cannot precede creation" "document.non_monotonic_time")
    else if incoherent status input.(r_archivedAt) code then
      Err (invalid "document archive state is invalid" "document.invalid_state")
    else
      Ok {| d_id := input.(r_id);
            d_organizationId := input.(r_organizationId);
            d_name := documentName;
            d_storageKey := documentStorageKey;
            d_status := status;
            d_processingFailureCode := code;
            d_processingRun := input.(r_processingRun);
            d_processingAttempt := num_val input.(r_processingAttempt);
            d_createdAt := copyDate input.(r_createdAt);
            d_updatedAt := copyDate input.(r_updatedAt);
            d_archivedAt := copyDateOpt input.(r_archivedAt);
            d_version := num_val input.(r_version) |}
  end.

(** @src src/modules/document/domain/document.ts:263-271 saved *)
Definition saved (d : Document) : Document :=
  mkDocument d.(d_id) d.(d_organizationId) d.(d_name) d.(d_storageKey) d.(d_status)
    d.(d_processingFailureCode) d.(d_processingRun) d.(d_processingAttempt)
    d.(d_createdAt) d.(d_updatedAt) d.(d_archivedAt) (d.(d_version) + 1).

(** A nullable string as the value storage keeps for it. *)
Definition nullable (o : option jstring) : JsValue :=
  match o with Some s => VStr s | None => VNull end.

(** @src src/modules/document/domain/document.ts:273-319 getters
    What the accessors of a document show, laid out as a row. *)
Definition row (d : Document) : RestoreDocumentInput :=
  {| r_id := d.(d_id); r_organizationId := d.(d_organizationId);
     r_name := VStr d.(d_name); r_storageKey := nullable d.(d_storageKey);
     r_status := statusName d.(d_status);
     r_processingFailureCode := nullable d.(d_processingFailureCode);
     r_processingRun := d.(d_processingRun);
     r_processingAttempt := Int d.(d_processingAttempt);
     r_createdAt := copyDate d.(d_createdAt); r_updatedAt := copyDate d.(d_updatedAt);
     r_archivedAt := copyDateOpt d.(d_archivedAt); r_version := Int d.(d_version) |}.

(** @src src/modules/document/domain/document.ts:321-353 archive *)
Definition archive (this : Document) (at_ : Date) : Res Document :=
  if negb (validDate at_) then
    Err (invalid "document archive time is invalid" "document.invalid_archived_at")
  else if date_lt at_ this.(d_updatedAt) then
    Err (invalid "document archive time cannot move backwards" "document.non_monotonic_time")
  else if bool_decide (this.(d_status) = archived) then
    Err (invalid "document is already archived" "document.already_archived")
  else
    let archivedAt := copyDate at_ in
    Ok (mkDocument this.(d_id) this.(d_organizationId) this.(d_name) this.(d_storageKey)
          archived this.(d_processingFailureCode) this.(d_processingRun)
          this.(d_processingAttempt) this.(d_createdAt) archivedAt (Some archivedAt)
          this.(d_version)).

(** The source returns [ok(this)] for a no-op and [ok(new Document(...))] for
    a change, and its callers compare the two by reference. *)
Inductive Next : Type := This | New (d : Document).

Definition next_document (this : Document) (n : Next) : Document :=
  match n with This => this | New d => d end.

(** [{ ...state, status, processingFailureCode, processingRun,
    processingAttempt, updatedAt }]. *)
Definition with_processing (d : Document) (status : DocumentStatus)
    (code : option jstring) (run : option ID) (attempt : Z) (updatedAt : Date) : Document :=
  mkDocument d.(d_id) d.(d_organizationId) d.(d_name) d.(d_storageKey) status code run
    attempt d.(d_createdAt) updatedAt d.(d_archivedAt) d.(d_version).

(** @src src/modules/document/domain/document.ts:355-402 beginProcessing *)
Definition beginProcessing (this : Document) (at_ : Date) (run : ID) : Res Next :=
  if negb (validDate at_) then
    Err (invalid "document processing start time is invalid"
           "document.invalid_processing_started_at")
  else if date_lt at_ this.(d_updatedAt) then
    Err (invalid "document processing start time cannot move backwards"
           "document.non_monotonic_time")
  else if bool_decide (this.(d_status) = archived) then
    Err (invalid "archived documents cannot be processed" "document.archived")
  else if bool_decide (this.(d_status) = processing)
          && bool_decide (this.(d_processingRun) = Some run) then
    Ok This
  else if bool_decide (this.(d_status) = processed) then
    Err (invalid "document has already been processed" "document.already_processed")
  else
    Ok (New (with_processing this processing None (Some run) 0 (copyDate at_))).

(** @src src/modules/document/domain/document.ts:421-433 applyProcessingOutcome
    The outcome is stale: another run, an older attempt, or a document that
    no longer waits. *)
Definition stale (current : Document) (run : ID) (attempt : Z) : bool :=
  let sameRun :=
    bool_decide (current.(d_processingRun) = Some run)
    || (isNull current.(d_processingRun) && bool_decide (current.(d_status) = processing)) in
  bool_decide (current.(d_status) = archived)
  || bool_decide (current.(d_status) = active)
  || bool_decide (current.(d_status) = processed)
  || negb sameRun
  || (attempt <? current.(d_processingAttempt)).

(** [new Date(Math.max(at.getTime(), updatedAt.getTime()))]. *)
Definition later (a b : Date) : Date :=
  match a, b with DateAt x, DateAt y => newDate (Z.max x y) | _, _ => InvalidDate end.

(** @src src/modules/document/domain/document.ts:404-459 applyProcessingOutcome *)
Definition applyProcessingOutcome (this : Document) (at_ : Date) (outcome : ProcessingOutcome)
    : Res Next :=
  if negb (validDate at_) then
    Err (invalid "document processing outcome time is invalid"
           "document.invalid_processing_outcome")
  else if negb (isSafeInteger outcome.(o_attempt)) || num_lt outcome.(o_attempt) 0 then
    Err (invalid "document processing attempt is invalid"
           "document.invalid_processing_outcome")
  else
    let attempt := num_val outcome.(o_attempt) in
    if stale this outcome.(o_run) attempt then Ok This
    else
      let updatedAt := copyDate (later at_ this.(d_updatedAt)) in
      let base status code :=
        with_processing this status code (Some outcome.(o_run)) attempt updatedAt in
      match outcome.(o_result) with
      | succeeded => Ok (New (base processed None))
      | retrying =>
          if bool_decide (this.(d_status) = processing) then
            if attempt =? this.(d_processingAttempt) then Ok This
            else Ok (New (base this.(d_status) this.(d_processingFailureCode)))
          else Ok (New (base processing None))
      | failed =>
          match processingFailureCode outcome.(o_failureCode) with
          | Ok (Some code) =>
              if bool_decide (this.(d_status) = processing_failed)
                 && (attempt =? this.(d_processingAttempt))
              then Ok This
              else Ok (New (base processing_failed (Some code)))
          | _ => Err (invalid "document processing failure code is invalid"
                        "document.invalid_processing_failure_code")
          end
      end.

(** ** Invariant. *)

(** What holds of every document the class can build; the text members are
    fixed by their own normalization. *)
Record wf (d : Document) : Prop := mkWf {
  wf_name : name (VStr d.(d_name)) = Ok d.(d_name);
  wf_key : storageKey (nullable d.(d_storageKey)) = Ok d.(d_storageKey);
  wf_code : processingFailureCode (nullable d.(d_processingFailureCode))
            = Ok d.(d_processingFailureCode);
  wf_created : validDate d.(d_createdAt) = true;
  wf_updated : validDate d.(d_updatedAt) = true;
  wf_archived : badDateOpt d.(d_archivedAt) = false;
  wf_order : date_lt d.(d_updatedAt) d.(d_createdAt) = false;
  wf_coherent : incoherent d.(d_status) d.(d_archivedAt) d.(d_processingFailureCode) = false;
  wf_attempt : 0 <= d.(d_processingAttempt) <= MAX_SAFE_INTEGER
}.

(** Documents a program can hold: built by the constructors and transitions. *)
Inductive reachable : Document -> Prop :=
| reach_create input d : create input = Ok d -> reachable d
| reach_restore input d : restore input = Ok d -> reachable d
| reach_saved d : reachable d -> reachable (saved d)
| reach_archive d t d' : reachable d -> archive d t = Ok d' -> reachable d'
| reach_begin d t run n :
    reachable d -> beginProcessing d t run = Ok n -> reachable (next_document d n)
| reach_outcome d t o n :
    reachable d -> applyProcessingOutcome d t o = Ok n -> reachable (next_document d n).

(** ** Lemmas. *)

Lemma name_ok v n : name v = Ok n -> name (VStr n) = Ok n.
Proof.
  destruct v; try done. cbn -[trim]. destruct (_ || _) eqn:E; [done|].
  intros [= <-]. by rewrite trim_idemp, E.
Qed.

Lemma storageKey_ok v k : storageKey v = Ok k -> storageKey (nullable k) = Ok k.
Proof.
  destruct v; cbn -[trim]; try done; try (intros [= <-]; done).
  destruct (_ || _) eqn:E; [done|]. intros [= <-]. cbn -[trim]. by rewrite trim_idemp, E.
Qed.

Lemma code_ok v c : processingFailureCode v = Ok c -> processingFailureCode (nullable c) = Ok c.
Proof.
  destruct v; cbn; try done; try (intros [= <-]; done).
  destruct (matchesName 127 s) eqn:E; [|done]. intros [= <-]. cbn. by rewrite E.
Qed.

Lemma parseStatus_name s : parseStatus (statusName s) = Some s.
Proof. by destruct s. Qed.

Lemma parseStatus_some s x : parseStatus s = Some x -> statusName x = s.
Proof.
  unfold parseStatus, find_first. intros [_ H]%List.find_some. by apply String.eqb_eq in H.
Qed.

#[local] Hint Resolve name_ok storageKey_ok code_ok : n2f.
#[local] Hint Constructors wf : n2f.

Lemma create_wf input d : create input = Ok d -> wf d.
Proof.
  unfold create. intros H. ok_branches H. breflect.
  constructor; cbn; rewrite ?validDate_copy; eauto with n2f.
  - apply date_le_not_lt. rewrite !copyDate_valid by (by rewrite ?validDate_copy).
    by apply date_le_refl.
  - unfold MAX_SAFE_INTEGER; lia.
Qed.

Lemma restore_wf input d : restore input = Ok d -> wf d.
Proof.
  unfold restore. intros H. ok_branches H.
  destruct (parseStatus _) as [s|] eqn:Es; [|done]. ok_branches H. breflect.
  unfold num_lt, isSafeInteger in *. destruct (r_processingAttempt input); [|done]. breflect.
  constructor; cbn; rewrite ?validDate_copy, ?copyDateOpt_valid; eauto with n2f; [|lia].
  by rewrite !copyDate_valid.
Qed.

Lemma saved_wf d : wf d -> wf (saved d).
Proof. by intros []. Qed.

Lemma archive_wf d t d' : wf d -> archive d t = Ok d' -> wf d'.
Proof.
  unfold archive. intros [] H. ok_branches H. breflect.
  constructor; cbn; rewrite ?validDate_copy; auto; [by rewrite E|].
  rewrite copyDate_valid by done. eauto using date_le_trans with n2f.
Qed.

Lemma begin_wf d t run n :
  wf d -> beginProcessing d t run = Ok n -> wf (next_document d n).
Proof.
  unfold beginProcessing. intros W H. ok_branches H; [by destruct W|]. destruct W. breflect.
  constructor; cbn; rewrite ?validDate_copy; auto; [| |unfold MAX_SAFE_INTEGER; lia].
  - rewrite copyDate_valid by done. eauto using date_le_trans with n2f.
  - rewrite bool_decide_eq_false in *. unfold incoherent in *.
    destruct (d_status d); breflect; try done; by rewrite orb_false_r; apply negb_false_iff.
Qed.

Lemma later_valid a b :
  validDate a = true -> validDate b = true ->
  validDate (later a b) = true /\ date_le b (later a b) = true.
Proof.
  destruct a as [|x], b as [|y]; cbn; try done. unfold newDate. rewrite !Z.leb_le. intros Hx Hy.
  destruct (Z.abs (Z.max x y) <=? MAX_TIME) eqn:E; breflect; [|lia].
  cbn. rewrite !Z.leb_le. lia.
Qed.

(** The states [applyProcessingOutcome] builds from a document that waits. *)
Lemma with_processing_wf d s c run a t :
  wf d -> stale d run a = false -> validDate t = true -> 0 <= a <= MAX_SAFE_INTEGER ->
  processingFailureCode (nullable c) = Ok c ->
  (s = processing_failed /\ c <> None) \/ ((s = processing \/ s = processed) /\ c = None) ->
  wf (with_processing d s c (Some run) a (copyDate (later t d.(d_updatedAt)))).
Proof.
  intros [] Hst Ht Ha Hc Hs. unfold stale in Hst. breflect. rewrite bool_decide_eq_false in *.
  destruct (later_valid t (d_updatedAt d)) as [Hv Hle]; [done..|].
  constructor; cbn; rewrite ?validDate_copy; auto.
  - rewrite copyDate_valid by done. eauto using date_le_trans with n2f.
  - assert (d_archivedAt d = None) as ->.
    { destruct (d_archivedAt d); [|done]. exfalso.
      destruct (d_status d); cbn in wf_coherent0; done. }
    destruct Hs as [[-> Hs]|[[-> | ->] ->]]; [by destruct c|done..].
Qed.

Lemma outcome_wf d t o n :
  wf d -> applyProcessingOutcome d t o = Ok n -> wf (next_document d n).
Proof.
  unfold applyProcessingOutcome. intros W.
  destruct (negb (validDate t)) eqn:Et; [done|].
  destruct (_ || _) eqn:Ea; [done|]. destruct (stale _ _ _) eqn:Es; [by intros [= <-]|].
  assert (Ha : 0 <= num_val (o_attempt o) <= MAX_SAFE_INTEGER).
  { breflect. destruct (o_attempt o); cbn in *; breflect; [lia|done]. }
  apply negb_false_iff in Et. cbv zeta.
  destruct (o_result o).
  - destruct (bool_decide _) eqn:Ed.
    + apply bool_decide_eq_true in Ed. destruct (_ =? _); intros [= <-]; [done|]. cbn.
      rewrite Ed.
      assert (Hc : d_processingFailureCode d = None).
      { pose proof (wf_coherent d W) as Hco. rewrite Ed in Hco. cbn in Hco. breflect.
        by destruct (d_processingFailureCode d). }
      rewrite Hc. apply with_processing_wf; auto.
    + intros [= <-]. cbn. apply with_processing_wf; auto.
  - intros [= <-]. cbn. apply with_processing_wf; auto.
  - destruct (processingFailureCode _) as [[c|]|] eqn:Ec; try done.
    destruct (_ && _); intros [= <-]; [done|]. cbn.
    apply with_processing_wf; eauto with n2f.
Qed.

#[local] Hint Resolve create_wf restore_wf saved_wf archive_wf begin_wf outcome_wf : n2f.

Lemma reachable_wf d : reachable d -> wf d.
Proof. induction 1; eauto with n2f. Qed.

Lemma wf_restore d :
  wf d -> FIRST <= d.(d_version) <= MAX_SAFE_INTEGER -> restore (row d) = Ok d.
Proof.
  intros [] Hv. unfold restore, row. cbn [r_name r_storageKey r_processingFailureCode r_status
    r_createdAt r_updatedAt r_archivedAt r_version r_processingAttempt r_id r_organizationId
    r_processingRun].
  rewrite wf_name0, wf_key0, wf_code0. cbn [mbind Result_bind]. rewrite parseStatus_name.
  rewrite (copyDate_valid (d_createdAt d)), (copyDate_valid (d_updatedAt d)),
    (copyDateOpt_valid (d_archivedAt d)) by done.
  rewrite wf_created0, wf_updated0, wf_archived0, wf_order0, wf_coherent0.
  rewrite stored_version by done.
  assert (isSafeInteger (Int (d_processingAttempt d)) = true) as ->.
  { cbn. apply Z.leb_le. lia. }
  assert (num_lt (Int (d_processingAttempt d)) 0 = false) as -> by (cbn; apply Z.ltb_ge; lia).
  cbn [negb orb]. rewrite !copyDate_valid, copyDateOpt_valid by done. by destruct d.
Qed.

(** ** Deliveries of outcomes. *)

(** One delivery as the workflow performs it: a refused outcome changes
    nothing. *)
Definition deliver (d : Document) (delivery : Date * ProcessingOutcome) : Document :=
  match applyProcessingOutcome d delivery.1 delivery.2 with
  | Ok n => next_document d n
  | Err _ => d
  end.

Definition deliveries (d : Document) (l : list (Date * ProcessingOutcome)) : Document :=
  foldl deliver d l.

(** A delivery at a valid time of an outcome with a safe attempt number. *)
Definition wellFormed (e : Date * ProcessingOutcome) : bool :=
  validDate e.1 && isSafeInteger e.2.(o_attempt) && negb (num_lt e.2.(o_attempt) 0).

Definition attemptOf (o : ProcessingOutcome) : Z := num_val o.(o_attempt).

(** The document waits on [run], whose applied attempts are at most [n]. *)
Definition waiting (run : ID) (n : Z) (d : Document) : Prop :=
  (d.(d_status) = processing \/ d.(d_status) = processing_failed)
  /\ d.(d_processingRun) = Some run /\ d.(d_processingAttempt) <= n.

(** What a well-formed delivery does, without its guards. *)
Lemma deliver_unfold d t o :
  wellFormed (t, o) = true ->
  deliver d (t, o) =
    if stale d o.(o_run) (attemptOf o) then d
    else
      let base s c := with_processing d s c (Some o.(o_run)) (attemptOf o)
                        (copyDate (later t d.(d_updatedAt))) in
      match o.(o_result) with
      | succeeded => base processed None
      | retrying =>
          if bool_decide (d.(d_status) = processing) then
            if attemptOf o =? d.(d_processingAttempt) then d
            else base d.(d_status) d.(d_processingFailureCode)
          else base processing None
      | failed =>
          match processingFailureCode o.(o_failureCode) with
          | Ok (Some code) =>
              if bool_decide (d.(d_status) = processing_failed)
                 && (attemptOf o =? d.(d_processingAttempt)) then d
              else base processing_failed (Some code)
          | _ => d
          end
      end.
Proof.
  unfold wellFormed. cbn [fst snd]. intros H. breflect. unfold deliver, applyProcessingOutcome.
  cbn [fst snd]. rewrite H, H0, H1. cbn [negb orb]. fold (attemptOf o).
  destruct (stale _ _ _); [done|]. cbv zeta.
  destruct (o_result o); [| |].
  - by destruct (bool_decide _); [destruct (_ =? _)|].
  - done.
  - destruct (processingFailureCode _) as [[c|]|]; try done. by destruct (_ && _).
Qed.

Lemma stale_spec d run a :
  stale d run a = false <->
  (d.(d_status) = processing \/ d.(d_status) = processing_failed)
  /\ (d.(d_processingRun) = Some run
      \/ (d.(d_processingRun) = None /\ d.(d_status) = processing))
  /\ d.(d_processingAttempt) <= a.
Proof.
  unfold stale. rewrite !orb_false_iff, negb_false_iff, orb_true_iff, andb_true_iff,
    !bool_decide_eq_false, !bool_decide_eq_true, Z.ltb_ge.
  split.
  - intros ((((? & ?) & ?) & ?) & ?). split_and!; [|by destruct (d_processingRun d); naive_solver|done].
    destruct (d_status d); naive_solver.
  - intros (Hs & Hr & Ha). split_and!; try done; try (destruct Hs as [-> | ->]; done).
    destruct Hr as [-> | [-> ->]]; auto.
Qed.

Lemma deliver_stale d t o :
  wellFormed (t, o) = true -> stale d o.(o_run) (attemptOf o) = true -> deliver d (t, o) = d.
Proof. intros H Hs. by rewrite deliver_unfold, Hs. Qed.

Lemma stale_processed d run a : d.(d_status) = processed -> stale d run a = true.
Proof.
  intros Hs. apply not_false_iff_true. intros H%stale_spec. rewrite Hs in H. naive_solver.
Qed.

Lemma stale_other d run run' a :
  d.(d_processingRun) = Some run -> run' <> run -> stale d run' a = true.
Proof.
  intros Hr Hne. apply not_false_iff_true. intros H%stale_spec. rewrite Hr in H. naive_solver.
Qed.

Lemma stale_older d run n : n < d.(d_processingAttempt) -> stale d run n = true.
Proof. intros Hr. apply not_false_iff_true. intros H%stale_spec. lia. Qed.

(** A delivery keeps a waiting document waiting, or finishes it. *)
Lemma deliver_waiting run n d t o :
  wellFormed (t, o) = true -> waiting run n d ->
  (o.(o_run) = run -> attemptOf o <= n) ->
  waiting run n (deliver d (t, o))
  \/ (o.(o_run) = run /\ o.(o_result) = succeeded /\ (deliver d (t, o)).(d_status) = processed).
Proof.
  intros Hw (Hs & Hr & Ha) Hn. rewrite deliver_unfold by done.
  destruct (stale _ _ _) eqn:E; [by left|].
  apply stale_spec in E as (_ & [Hrun|[? _]] & Hle); [|congruence].
  assert (Heq : o.(o_run) = run) by congruence. specialize (Hn Heq).
  assert (Hwait : forall s c, s = processing \/ s = processing_failed ->
    waiting run n (with_processing d s c (Some (o_run o)) (attemptOf o)
      (copyDate (later t (d_updatedAt d))))) by (intros; rewrite Heq; done).
  cbv zeta. destruct (o_result o); [left|by right|left].
  - destruct (bool_decide _) eqn:Ed; [|by apply Hwait; left].
    destruct (_ =? _); [done|]. by apply Hwait.
  - destruct (processingFailureCode _) as [[c|]|]; try done.
    destruct (_ && _); [done|]. apply Hwait. by right.
Qed.

Lemma deliveries_processed l d :
  Forall (fun e => wellFormed e = true) l -> d.(d_status) = processed -> deliveries d l = d.
Proof.
  unfold deliveries. induction 1 as [|[t o] l Hw Hl IH]; cbn; [done|]. intros Hs.
  rewrite deliver_stale by (done || by apply stale_processed). by apply IH.
Qed.

(** An outcome that changes a document was well formed and not stale. *)
Lemma outcome_new d t o d' :
  applyProcessingOutcome d t o = Ok (New d') ->
  validDate t = true /\ stale d o.(o_run) (attemptOf o) = false
  /\ exists s c, d' = with_processing d s c (Some o.(o_run)) (attemptOf o)
                  (copyDate (later t d.(d_updatedAt)))
     /\ (s = processing \/ s = processed \/ s = processing_failed).
Proof.
  unfold applyProcessingOutcome.
  destruct (negb (validDate t)) eqn:Et; [done|]. apply negb_false_iff in Et.
  destruct (_ || _); [done|]. fold (attemptOf o). destruct (stale _ _ _); [done|]. cbv zeta.
  intros H. split; [done|]. split; [done|].
  destruct (o_result o).
  - destruct (bool_decide _) eqn:Ed.
    + apply bool_decide_eq_true in Ed. destruct (_ =? _); [done|]. injection H as <-. eauto 6.
    + injection H as <-. eauto 6.
  - injection H as <-. eauto 6.
  - destruct (processingFailureCode _) as [[c|]|]; try done.
    destruct (_ && _); [done|]. injection H as <-. eauto 6.
Qed.

(** Storage round trip. Whatever sequence of creations, restorations,
    saves, archivals, processing starts and outcomes built a document, the row
    its accessors show is one [restore] accepts, and restoring it yields the
    same document: no transition produces a state the storage layer would
    reject on the next read. *)
Theorem reachable_restore (d : Document)
    (Hreach : reachable d) (Hversion : FIRST <= d.(d_version) <= MAX_SAFE_INTEGER) :
  restore (row d) = Ok d.
Proof. apply wf_restore; [by apply reachable_wf|done]. Qed.

Definition sample_input : CreateDocumentInput :=
  mkCreate (js "d1") (js "o1") (VStr (js "  Plan ")) VUndefined (DateAt 100).

Definition sample : Document :=
  mkDocument (js "d1") (js "o1") (js "Plan") None active None None 0
    (DateAt 100) (DateAt 100) None 0.

Lemma reachable_restore_witness :
  let d := with_processing (saved sample) processing None (Some (js "run")) 0 (DateAt 120) in
  restore (row d) = Ok d.
Proof.
  apply reachable_restore; [|vm_compute; split; discriminate].
  change (reachable (next_document (saved sample)
    (New (with_processing (saved sample) processing None (Some (js "run")) 0 (DateAt 120))))).
  apply (reach_begin _ (DateAt 120) (js "run")); [|vm_compute; reflexivity].
  apply reach_saved, (reach_create sample_input). vm_compute. reflexivity.
Defined.

(** One successful lifecycle call that changes a document. *)
Inductive step : Document -> Document -> Prop :=
| step_archive d t d' : archive d t = Ok d' -> step d d'
| step_begin d t run d' : beginProcessing d t run = Ok (New d') -> step d d'
| step_outcome d t o d' : applyProcessingOutcome d t o = Ok (New d') -> step d d'.

(** What no call changes. *)
Lemma step_fixed d d' : step d d' ->
  d'.(d_id) = d.(d_id) /\ d'.(d_organizationId) = d.(d_organizationId) /\ d'.(d_version) = d.(d_version).
Proof.
  intros [x t y H|x t run y H|x t o y H].
  - unfold archive in H. by ok_branches H.
  - unfold beginProcessing in H. by ok_branches H.
  - by destruct (outcome_new _ _ _ _ H) as (_ & _ & s & c & -> & _).
Qed.

Lemma step_wf d d' : step d d' -> wf d -> wf d'.
Proof.
  intros [x t y H|x t run y H|x t o y H] Hw.
  - by eapply archive_wf.
  - exact (begin_wf _ _ _ _ Hw H).
  - exact (outcome_wf _ _ _ _ Hw H).
Qed.

(** The lifecycle's edges. *)
Definition edge (a b : DocumentStatus) : bool :=
  match a, b with
  | active, (processing | archived) => true
  | processing, (processing | processed | processing_failed | archived) => true
  | processing_failed, (processing | processed | processing_failed | archived) => true
  | processed, archived => true
  | _, _ => false
  end.

(** Every change follows an edge of the lifecycle: archived documents never
    change again, processed ones can only be archived, and only a document that
    was given to a run can be processed or fail. No change touches the
    identity, the owner, the name, the storage key, the creation time or the
    version, and the update time never moves backwards. *)
Theorem step_lifecycle (d d' : Document) (Hwf : wf d) (Hstep : step d d') :
  edge d.(d_status) d'.(d_status) = true
  /\ d'.(d_id) = d.(d_id) /\ d'.(d_organizationId) = d.(d_organizationId)
  /\ d'.(d_name) = d.(d_name) /\ d'.(d_storageKey) = d.(d_storageKey)
  /\ d'.(d_createdAt) = d.(d_createdAt) /\ d'.(d_version) = d.(d_version)
  /\ date_le d.(d_updatedAt) d'.(d_updatedAt) = true.
Proof.
  destruct Hstep as [d t d' H|d t run d' H|d t o d' H].
  - unfold archive in H. ok_branches H. breflect. cbn. rewrite copyDate_valid by done.
    split_and!; auto using wf_updated with n2f.
    apply bool_decide_eq_false in E1. by destruct (d_status d).
  - unfold beginProcessing in H. ok_branches H. breflect.
    rewrite bool_decide_eq_false in *. cbn. rewrite copyDate_valid by done.
    split_and!; auto using wf_updated with n2f. by destruct (d_status d).
  - destruct (outcome_new _ _ _ _ H) as (Ht & Hst & s & c & -> & Hs).
    destruct (later_valid t (d_updatedAt d)) as [Hv Hle]; [done|by apply wf_updated|].
    apply stale_spec in Hst as (Hd & _ & _). cbn. rewrite copyDate_valid by done.
    split_and!; try done. destruct Hd as [-> | ->]; naive_solver.
Qed.

Lemma step_lifecycle_witness :
  let d := with_processing sample processing None (Some (js "run")) 0 (DateAt 120) in
  edge active d.(d_status) = true.
Proof.
  pose proof (step_lifecycle sample
    (with_processing sample processing None (Some (js "run")) 0 (DateAt 120))) as H.
  apply H.
  - constructor; vm_compute; try reflexivity; split; discriminate.
  - apply (step_begin _ (DateAt 120) (js "run")). vm_compute. reflexivity.
Defined.

(** Case on the staleness test of the goal, closing the stale branch. *)
Ltac case_stale :=
  match goal with |- context [if stale ?a ?b ?c then _ else _] =>
    destruct (stale a b c); [done|] end.

(** Redelivery is harmless: an outcome that was applied (or was already a
    no-op) is a no-op when it arrives again at any valid time, and an outcome
    of a run the document does not wait on is a no-op, so beginning another run
    makes every later report of the older one stale. *)
Theorem outcome_redelivery (d : Document) (t t' : Date) (o : ProcessingOutcome) (n : Next)
    (Happlied : applyProcessingOutcome d t o = Ok n) (Htime : validDate t' = true) :
  applyProcessingOutcome (next_document d n) t' o = Ok This
  /\ forall run at_ m, beginProcessing d at_ run = Ok m -> o.(o_run) <> run ->
       applyProcessingOutcome (next_document d m) t' o = Ok This.
Proof.
  unfold applyProcessingOutcome in *. rewrite Htime. cbn [negb].
  destruct (negb (validDate t)); [done|].
  destruct (negb (isSafeInteger _) || _) eqn:Ea; [done|].
  fold (attemptOf o) in *. cbv zeta in *. split.
  - destruct (stale d _ _) eqn:Es; [injection Happlied as <-; cbn; by rewrite Es|].
    destruct (o_result o) eqn:Eo.
    + destruct (bool_decide (d_status d = processing)) eqn:Ed.
      * destruct (_ =? _) eqn:Eq; injection Happlied as <-; cbn [next_document];
          [by rewrite Es, Ed, Eq|].
        case_stale.
        unfold with_processing. cbn [d_status d_processingAttempt]. by rewrite Ed, Z.eqb_refl.
      * injection Happlied as <-. cbn [next_document]. case_stale.
        cbn. by rewrite Z.eqb_refl.
    + injection Happlied as <-. cbn [next_document]. by rewrite stale_processed.
    + destruct (processingFailureCode _) as [[c|]|] eqn:Ec; try done.
      destruct (_ && _) eqn:Ed; injection Happlied as <-; cbn [next_document];
        [by rewrite Es, Ed|].
      case_stale. cbn. by rewrite Z.eqb_refl.
  - intros run at_ m Hb Hne. unfold beginProcessing in Hb. ok_branches Hb; cbn [next_document].
    + apply andb_true_iff in E2 as [_ E2]. apply bool_decide_eq_true in E2.
      by rewrite (stale_other _ run).
    + by rewrite (stale_other _ run).
Qed.

Definition sample_waiting : Document :=
  with_processing sample processing None (Some (js "run")) 0 (DateAt 120).

Lemma outcome_redelivery_witness :
  let o := mkOutcome (js "run") (Int 1) failed (VStr (js "job.crashed")) in
  let d' := with_processing sample processing_failed (Some (js "job.crashed"))
              (Some (js "run")) 1 (DateAt 150) in
  applyProcessingOutcome d' (DateAt 10) o = Ok This.
Proof.
  intros o d'.
  apply (proj1 (outcome_redelivery sample_waiting (DateAt 150) (DateAt 10) o (New d')
    ltac:(vm_compute; reflexivity) ltac:(vm_compute; reflexivity))).
Defined.

(** Convergence on success. Let a waiting document receive, in any order and
    with any repetition, well-formed outcomes of its run and of other runs. If
    one of them reports that an attempt succeeded which no outcome of the run
    exceeds, the document ends processed: late failures, retries and reports of
    older runs cannot mask the success. *)
Lemma deliveries_converge_success (d : Document) (run : ID) (n : Z)
    (l : list (Date * ProcessingOutcome))
    (Hwait : waiting run n d)
    (Hwf : Forall (fun e => wellFormed e = true) l)
    (Hmax : Forall (fun e => e.2.(o_run) = run -> attemptOf e.2 <= n) l)
    (Hsucc : Exists (fun e => e.2.(o_run) = run /\ e.2.(o_result) = succeeded
                              /\ attemptOf e.2 = n) l) :
  (deliveries d l).(d_status) = processed.
Proof.
  revert d Hwait. induction l as [|[t o] l IH]; intros d Hwait; [by apply Exists_nil in Hsucc|].
  apply Forall_cons in Hwf as [Hw Hwf]. apply Forall_cons in Hmax as [Hm Hmax].
  change (deliveries d ((t, o) :: l)) with (deliveries (deliver d (t, o)) l).
  apply Exists_cons in Hsucc as [(Hr & Hs & Ha)|Hsucc].
  - rewrite deliveries_processed; [|done|]; rewrite deliver_unfold by done; cbn in *.
    all: assert (stale d (o_run o) (attemptOf o) = false) as ->
      by (apply stale_spec; destruct Hwait as (? & ? & ?); rewrite Hr, Ha; auto).
    all: by rewrite Hs.
  - destruct (deliver_waiting run n d t o) as [H|(_ & _ & H)]; [done..| |].
    + by apply IH.
    + by rewrite deliveries_processed.
Qed.

Lemma deliveries_converge_success_witness :
  let out k r := (DateAt 150, mkOutcome (js "run") (Int k) r (VStr (js "job.crashed"))) in
  (deliveries sample_waiting [out 2 succeeded; out 1 failed; out 2 succeeded; out 1 retrying]).(d_status)
  = processed.
Proof.
  apply (deliveries_converge_success _ (js "run") 2).
  - vm_compute. split; [by left|]. split; [reflexivity|discriminate].
  - repeat constructor.
  - repeat constructor; vm_compute; discriminate.
  - left. vm_compute. auto.
Defined.

(** The outcome that ends a run whose last attempt failed is absorbing. *)
Definition failedAt (run : ID) (n : Z) (d : Document) : Prop :=
  d.(d_status) = processing_failed /\ d.(d_processingRun) = Some run
  /\ d.(d_processingAttempt) = n.

Lemma deliver_failedAt run n d t o :
  wellFormed (t, o) = true -> failedAt run n d ->
  (o.(o_run) = run -> attemptOf o <= n) ->
  (o.(o_run) = run -> attemptOf o = n -> o.(o_result) = failed) ->
  deliver d (t, o) = d.
Proof.
  intros Hw (Hs & Hr & Ha) Hm Hf. rewrite deliver_unfold by done.
  destruct (stale _ _ _) eqn:E; [done|].
  apply stale_spec in E as (_ & [Hrun|[? _]] & Hle); [|congruence].
  assert (Heq : o.(o_run) = run) by congruence. specialize (Hm Heq).
  assert (Hn : attemptOf o = n) by lia. cbv zeta. rewrite (Hf Heq Hn), Hn, Ha, Hs, Z.eqb_refl.
  by destruct (processingFailureCode _) as [[c|]|].
Qed.

Lemma deliveries_failedAt run n d l :
  Forall (fun e => wellFormed e = true) l -> failedAt run n d ->
  Forall (fun e => e.2.(o_run) = run -> attemptOf e.2 <= n) l ->
  Forall (fun e => e.2.(o_run) = run -> attemptOf e.2 = n -> e.2.(o_result) = failed) l ->
  deliveries d l = d.
Proof.
  intros Hw Hf. revert Hw. induction l as [|[t o] l IH]; [done|].
  intros [? ?]%Forall_cons [? ?]%Forall_cons [? ?]%Forall_cons.
  change (deliveries d ((t, o) :: l)) with (deliveries (deliver d (t, o)) l).
  rewrite (deliver_failedAt run n) by done. by apply IH.
Qed.

(** Convergence on failure. If no attempt of the run succeeded and the run's
    last attempt [n] failed for good (every outcome at [n] is a failure with a
    valid code), any order and repetition of the deliveries leaves the document
    failed at attempt [n]. *)
Lemma deliveries_converge_failure (d : Document) (run : ID) (n : Z)
    (l : list (Date * ProcessingOutcome))
    (Hwait : waiting run n d)
    (Hwf : Forall (fun e => wellFormed e = true) l)
    (Hmax : Forall (fun e => e.2.(o_run) = run -> attemptOf e.2 <= n) l)
    (Hnone : Forall (fun e => e.2.(o_run) = run -> e.2.(o_result) <> succeeded) l)
    (Hlast : Forall (fun e => e.2.(o_run) = run -> attemptOf e.2 = n ->
               e.2.(o_result) = failed /\ exists c, processingFailureCode e.2.(o_failureCode) = Ok (Some c)) l)
    (Hfail : Exists (fun e => e.2.(o_run) = run /\ attemptOf e.2 = n) l) :
  failedAt run n (deliveries d l).
Proof.
  assert (Hf : Forall (fun e => e.2.(o_run) = run -> attemptOf e.2 = n -> e.2.(o_result) = failed) l).
  { eapply Forall_impl; [exact Hlast|]. cbn. intros e H Hr Ha. by apply H. }
  revert d Hwait. induction l as [|[t o] l IH]; intros d Hwait; [by apply Exists_nil in Hfail|].
  apply Forall_cons in Hwf as [Hw Hwf]. apply Forall_cons in Hmax as [Hm Hmax].
  apply Forall_cons in Hnone as [Hn Hnone]. apply Forall_cons in Hlast as [Hl Hlast].
  apply Forall_cons in Hf as [Hf0 Hf].
  change (deliveries d ((t, o) :: l)) with (deliveries (deliver d (t, o)) l).
  apply Exists_cons in Hfail as [[Hr Ha]|Hfail].
  - cbn in Hr, Ha. destruct (Hl Hr Ha) as [Hres [c Hc]]. cbn in Hres, Hc.
    assert (Hd : failedAt run n (deliver d (t, o))).
    { rewrite deliver_unfold by done. destruct Hwait as (Hs & Hrun & Hle).
      assert (stale d (o_run o) (attemptOf o) = false) as ->
        by (apply stale_spec; rewrite Hr, Ha; auto).
      cbv zeta. rewrite Hres, Hc, Ha, Hr. destruct (_ && _) eqn:E; [|done].
      breflect. apply bool_decide_eq_true in H. done. }
    by rewrite (deliveries_failedAt run n).
  - destruct (deliver_waiting run n d t o) as [H|(Hr & Hs & _)]; [done..| |].
    + by apply IH.
    + by apply Hn in Hr.
Qed.

Lemma deliveries_converge_failure_witness :
  let out k r := (DateAt 150, mkOutcome (js "run") (Int k) r (VStr (js "job.crashed"))) in
  failedAt (js "run") 2
    (deliveries sample_waiting [out 1 retrying; out 2 failed; out 1 failed; out 2 failed; out 1 retrying]).
Proof.
  apply (deliveries_converge_failure _ (js "run") 2).
  - vm_compute. split; [by left|]. split; [reflexivity|discriminate].
  - repeat constructor.
  - repeat constructor; vm_compute; discriminate.
  - repeat constructor; vm_compute; discriminate.
  - repeat constructor; cbn; try discriminate; exists (js "job.crashed"); vm_compute; reflexivity.
  - right. left. vm_compute. auto.
Defined.

(** What the attempt number cannot order: the failure of an attempt and
    the retry that answers it carry the same number, so a failure delivered
    (again or late) after the retry is not stale and puts the document back to
    failed while its job is queued. *)
Lemma late_failure_not_stale (d : Document) (t t' : Date) (run : ID) (n : Z) (code : jstring)
    (Hstatus : d.(d_status) = processing_failed) (Hrun : d.(d_processingRun) = Some run)
    (Hattempt : d.(d_processingAttempt) = n) (Hn : 0 <= n <= MAX_SAFE_INTEGER)
    (Ht : validDate t = true) (Ht' : validDate t' = true)
    (Hcode : matchesName 127 code = true) :
  let retry := mkOutcome run (Int n) retrying VUndefined in
  let failure := mkOutcome run (Int n) failed (VStr code) in
  (deliver d (t, retry)).(d_status) = processing
  /\ (deliver (deliver d (t, retry)) (t', failure)).(d_status) = processing_failed.
Proof.
  intros retry failure.
  assert (Hs : isSafeInteger (Int n) = true) by (apply Z.leb_le; lia).
  assert (Hl : num_lt (Int n) 0 = false) by (apply Z.ltb_ge; lia).
  assert (Hw : wellFormed (t, retry) = true) by (unfold wellFormed; cbn [fst snd o_attempt retry]; by rewrite Ht, Hs, Hl).
  assert (Hw' : wellFormed (t', failure) = true) by (unfold wellFormed; cbn [fst snd o_attempt failure]; by rewrite Ht', Hs, Hl).
  assert (Hd : deliver d (t, retry)
    = with_processing d processing None (Some run) n (copyDate (later t (d_updatedAt d)))).
  { rewrite deliver_unfold by done.
    assert (stale d (o_run retry) (attemptOf retry) = false) as ->
      by (apply stale_spec; cbn; rewrite Hattempt; naive_solver lia).
    by rewrite Hstatus. }
  rewrite Hd. split; [done|]. rewrite deliver_unfold by done.
  assert (stale (with_processing d processing None (Some run) n (copyDate (later t (d_updatedAt d))))
    (o_run failure) (attemptOf failure) = false) as -> by (apply stale_spec; cbn; naive_solver lia).
  cbn [o_result o_failureCode failure processingFailureCode]. by rewrite Hcode.
Qed.

Lemma late_failure_not_stale_witness :
  let d := with_processing sample processing_failed (Some (js "job.crashed")) (Some (js "run")) 1 (DateAt 150) in
  (deliver (deliver d (DateAt 160, mkOutcome (js "run") (Int 1) retrying VUndefined))
     (DateAt 170, mkOutcome (js "run") (Int 1) failed (VStr (js "job.crashed")))).(d_status)
  = processing_failed.
Proof.
  apply (late_failure_not_stale
    (with_processing sample processing_failed (Some (js "job.crashed")) (Some (js "run")) 1 (DateAt 150))
    (DateAt 160) (DateAt 170) (js "run") 1 (js "job.crashed"));
    try (vm_compute; reflexivity); vm_compute; split; discriminate.
Defined.

End Document.
