(* ===== verification/JobDomain.v ===== *)
(** * The Job aggregate: [modules/jobs/domain/job.ts].

    A queued, running, succeeded, failed or canceled piece of work with a
    bounded number of attempts. *)
From S2P Require Import Prelude JsMap Errors Ids.

Module Job.

(** @src src/modules/jobs/domain/job.ts:15-22 JobStatus *)
Inductive JobStatus : Type := queued | running | succeeded | failed | canceled.

#[export] Instance JobStatus_eq_dec : EqDecision JobStatus.
Proof. solve_decision. Defined.

Definition statusName (s : JobStatus) : string :=
  match s with
  | queued => "queued" | running => "running" | succeeded => "succeeded"
  | failed => "failed" | canceled => "canceled"
  end.

(** @src src/modules/jobs/domain/job.ts:15-21 JOB_STATUSES *)
Definition parseStatus (s : string) : option JobStatus :=
  find_first (fun x => String.eqb (statusName x) s) [queued; running; succeeded; failed; canceled].

(** @src src/modules/jobs/domain/job.ts:41-48 JobSubject *)
Record JobSubject : Type := mkSubject { sj_type : jstring; sj_id : ID }.

#[export] Instance JobSubject_eq_dec : EqDecision JobSubject.
Proof. solve_decision. Defined.

(** @src src/modules/jobs/domain/job.ts:50-57 CreateJobInput *)
Record CreateJobInput : Type := mkCreate {
  c_id : ID; c_organizationId : ID; c_kind : JsValue; c_subject : JsValue;
  c_maxAttempts : JsValue; c_createdAt : Date
}.

(** @src src/modules/jobs/domain/job.ts:59-73 RestoreJobInput *)
Record RestoreJobInput : Type := mkRestore {
  r_id : ID; r_organizationId : ID; r_kind : jstring; r_subject : option JobSubject;
  r_status : string; r_attempts : num; r_maxAttempts : num;
  r_createdAt : Date; r_updatedAt : Date; r_startedAt : option Date;
  r_finishedAt : option Date; r_failureCode : option jstring; r_version : num
}.

(** @src src/modules/jobs/domain/job.ts:75-89 JobState *)
Record Job : Type := mkJob {
  j_id : ID; j_organizationId : ID; j_kind : jstring; j_subject : option JobSubject;
  j_status : JobStatus; j_attempts : Z; j_maxAttempts : Z;
  j_createdAt : Date; j_updatedAt : Date; j_startedAt : option Date;
  j_finishedAt : option Date; j_failureCode : option jstring; j_version : Z
}.

(** @src src/modules/jobs/domain/job.ts:99-101 invalid *)
Definition invalid (message type : string) : Failure :=
  typedFailure invalid type message noOptions.

(** @src src/modules/jobs/domain/job.ts:103-108 kind *)
Definition kind (value : JsValue) : Res jstring :=
  match value with
  | VStr s => if matchesName 119 s then Ok s else Err (invalid "job kind is invalid" "job.invalid_kind")
  | _ => Err (invalid "job kind is invalid" "job.invalid_kind")
  end.

(** @src src/modules/jobs/domain/job.ts:110-133 subject *)
Definition subject (value : JsValue) : Res (option JobSubject) :=
  let refused := Err (invalid "job subject is invalid" "job.invalid_subject") in
  match value with
  | VUndefined | VNull => Ok None
  | VObj members =>
      match member "type" members, member "id" members with
      | Some (VStr type), Some (VStr id) =>
          if matchesName 63 type then
            match parse (VStr id) with
            | Ok id => Ok (Some (mkSubject type id))
            | Err _ => refused
            end
          else refused
      | _, _ => refused
      end
  | _ => refused
  end.

(** @src src/modules/jobs/domain/job.ts:135-151 attempts *)
Definition attempts (value : JsValue) : Res Z :=
  let refused := Err (invalid "job max attempts must be between 1 and 10" "job.invalid_attempts") in
  match value with
  | VUndefined => Ok 3
  | VNum n =>
      if negb (isSafeInteger n) || num_lt n 1 || num_gt n 10 then refused else Ok (num_val n)
  | _ => refused
  end.

(** @src src/modules/jobs/domain/job.ts:153-160 failureCode *)
Definition failureCode (value : JsValue) : Res jstring :=
  match value with
  | VStr s =>
      if matchesName 127 s then Ok s
      else Err (invalid "job failure code is invalid" "job.invalid_failure_code")
  | _ => Err (invalid "job failure code is invalid" "job.invalid_failure_code")
  end.

(** @src src/modules/jobs/domain/job.ts:167-198 create *)
Definition create (input : CreateJobInput) : Res Job :=
  jobKind ← kind input.(c_kind);
  maxAttempts ← attempts input.(c_maxAttempts);
  jobSubject ← subject input.(c_subject);
  if negb (validDate input.(c_createdAt)) then
    Err (invalid "job creation time is invalid" "job.invalid_created_at")
  else
    let createdAt := copyDate input.(c_createdAt) in
    Ok {| j_id := input.(c_id); j_organizationId := input.(c_organizationId);
          j_kind := jobKind; j_subject := jobSubject; j_status := queued;
          j_attempts := 0; j_maxAttempts := maxAttempts;
          j_createdAt := createdAt; j_updatedAt := copyDate createdAt;
          j_startedAt := None; j_finishedAt := None; j_failureCode := None;
          j_version := UNSAVED |}.

(** The value of a typed subject as [subject] reads it. *)
Definition subjectValue (s : option JobSubject) : JsValue :=
  match s with
  | None => VNull
  | Some s => VObj [("type"%string, VStr s.(sj_type)); ("id"%string, VStr s.(sj_id))]
  end.

(** @src src/modules/jobs/domain/job.ts:231-254 restore
    The lifecycle guard of [restore]. *)
Definition incoherent (status : JobStatus) (attempts : Z) (startedAt finishedAt : option Date)
    (code : option jstring) : bool :=
  match status with
  | queued => negb (isNull startedAt) || negb (isNull finishedAt) || negb (isNull code)
  | running => isNull startedAt || negb (isNull finishedAt) || negb (isNull code) || (attempts <? 1)
  | succeeded => isNull startedAt || isNull finishedAt || negb (isNull code)
  | failed => isNull startedAt || isNull finishedAt || isNull code
  | canceled => isNull finishedAt
  end.

(** @src src/modules/jobs/domain/job.ts:200-274 restore *)
Definition restore (input : RestoreJobInput) : Res Job :=
  jobKind ← kind (VStr input.(r_kind));
  jobSubject ← subject (subjectValue input.(r_subject));
  match parseStatus input.(r_status) with
  | None => Err (invalid "job state is invalid" "job.invalid_state")
  | Some status =>
    if negb (isSafeInteger input.(r_attempts)) || negb (isSafeInteger input.(r_maxAttempts))
       || num_lt input.(r_attempts) 0 || num_lt input.(r_maxAttempts) 1
       || num_gt input.(r_maxAttempts) 10
       || (num_val input.(r_maxAttempts) <? num_val input.(r_attempts))
       || negb (validDate input.(r_createdAt)) || negb (validDate input.(r_updatedAt))
       || badDateOpt input.(r_startedAt) || badDateOpt input.(r_finishedAt)
       || match input.(r_failureCode) with Some c => negb (matchesName 127 c) | None => false end
       || negb (isStoredVersion input.(r_version))
    then Err (invalid "job state is invalid" "job.invalid_state")
    else if date_lt input.(r_updatedAt) input.(r_createdAt) then
      Err (invalid "job update time cannot precede creation" "job.non_monotonic_time")
    else if incoherent status (num_val input.(r_attempts)) input.(r_startedAt)
              input.(r_finishedAt) input.(r_failureCode) then
      Err (invalid "job lifecycle state is invalid" "job.invalid_state")
    else
      Ok {| j_id := input.(r_id); j_organizationId := input.(r_organizationId);
            j_kind := jobKind; j_subject := jobSubject; j_status := status;
            j_attempts := num_val input.(r_attempts);
            j_maxAttempts := num_val input.(r_maxAttempts);
            j_createdAt := copyDate input.(r_createdAt);
            j_updatedAt := copyDate input.(r_updatedAt);
            j_startedAt := copyDateOpt input.(r_startedAt);
            j_finishedAt := copyDateOpt input.(r_finishedAt);
            j_failureCode := input.(r_failureCode);
            j_version := num_val input.(r_version) |}
  end.

(** @src src/modules/jobs/domain/job.ts:276-284 saved *)
Definition saved (j : Job) : Job :=
  mkJob j.(j_id) j.(j_organizationId) j.(j_kind) j.(j_subject) j.(j_status) j.(j_attempts)
    j.(j_maxAttempts) j.(j_createdAt) j.(j_updatedAt) j.(j_startedAt) j.(j_finishedAt)
    j.(j_failureCode) (j.(j_version) + 1).

(** @src src/modules/jobs/domain/job.ts:286-326 getters
    What the accessors of a job show, laid out as a row. *)
Definition row (j : Job) : RestoreJobInput :=
  {| r_id := j.(j_id); r_organizationId := j.(j_organizationId); r_kind := j.(j_kind);
     r_subject := j.(j_subject); r_status := statusName j.(j_status);
     r_attempts := Int j.(j_attempts); r_maxAttempts := Int j.(j_maxAttempts);
     r_createdAt := copyDate j.(j_createdAt); r_updatedAt := copyDate j.(j_updatedAt);
     r_startedAt := copyDateOpt j.(j_startedAt); r_finishedAt := copyDateOpt j.(j_finishedAt);
     r_failureCode := j.(j_failureCode); r_version := Int j.(j_version) |}.

(** @src src/modules/jobs/domain/job.ts:331-337 open *)
Definition open (j : Job) : bool :=
  bool_decide (j.(j_status) = queued) || bool_decide (j.(j_status) = running)
  || (bool_decide (j.(j_status) = failed) && (j.(j_attempts) <? j.(j_maxAttempts))).

(** @src src/modules/jobs/domain/job.ts:438-450 transitionTime *)
Definition transitionTime (j : Job) (at_ : Date) : Res Date :=
  if negb (validDate at_) then
    Err (invalid "job transition time is invalid" "job.invalid_time")
  else if date_lt at_ j.(j_updatedAt) then
    Err (invalid "job transition time cannot move backwards" "job.non_monotonic_time")
  else Ok (copyDate at_).

(** @src src/modules/jobs/domain/job.ts:452-454 evolve
    The members a transition patches; identity, owner, kind, subject, limit,
    creation time and version are never patched. *)
Definition evolve (j : Job) (status : JobStatus) (attempts : Z) (updatedAt : Date)
    (startedAt finishedAt : option Date) (code : option jstring) : Job :=
  mkJob j.(j_id) j.(j_organizationId) j.(j_kind) j.(j_subject) status attempts
    j.(j_maxAttempts) j.(j_createdAt) updatedAt startedAt finishedAt code j.(j_version).

(** @src src/modules/jobs/domain/job.ts:339-360 start *)
Definition start (j : Job) (at_ : Date) : Res Job :=
  time ← transitionTime j at_;
  if negb (bool_decide (j.(j_status) = queued)) then
    Err (invalid "only queued jobs can start" "job.not_queued")
  else if j.(j_maxAttempts) <=? j.(j_attempts) then
    Err (invalid "job attempts are exhausted" "job.attempts_exhausted")
  else Ok (evolve j running (j.(j_attempts) + 1) time (Some time) None None).

(** @src src/modules/jobs/domain/job.ts:362-375 complete *)
Definition complete (j : Job) (at_ : Date) : Res Job :=
  time ← transitionTime j at_;
  if negb (bool_decide (j.(j_status) = running)) then
    Err (invalid "only running jobs can complete" "job.not_running")
  else Ok (evolve j succeeded j.(j_attempts) time j.(j_startedAt) (Some time) j.(j_failureCode)).

(** @src src/modules/jobs/domain/job.ts:377-393 fail *)
Definition fail (j : Job) (at_ : Date) (code : JsValue) : Res Job :=
  time ← transitionTime j at_;
  if negb (bool_decide (j.(j_status) = running)) then
    Err (invalid "only running jobs can fail" "job.not_running")
  else
    reason ← failureCode code;
    Ok (evolve j failed j.(j_attempts) time j.(j_startedAt) (Some time) (Some reason)).

(** @src src/modules/jobs/domain/job.ts:395-415 retry *)
Definition retry (j : Job) (at_ : Date) : Res Job :=
  time ← transitionTime j at_;
  if negb (bool_decide (j.(j_status) = failed)) then
    Err (invalid "only failed jobs can retry" "job.not_failed")
  else if j.(j_maxAttempts) <=? j.(j_attempts) then
    Err (invalid "job attempts are exhausted" "job.attempts_exhausted")
  else Ok (evolve j queued j.(j_attempts) time None None None).

(** @src src/modules/jobs/domain/job.ts:417-436 cancel *)
Definition cancel (j : Job) (at_ : Date) : Res Job :=
  time ← transitionTime j at_;
  if bool_decide (j.(j_status) = succeeded) || bool_decide (j.(j_status) = canceled) then
    Err (invalid "job cannot be canceled in its current state" "job.not_cancelable")
  else Ok (evolve j canceled j.(j_attempts) time j.(j_startedAt) (Some time) None).

(** ** Transitions as data, and their sequences. *)

Inductive Transition : Type :=
| Start (at_ : Date) | Complete (at_ : Date) | Fail (at_ : Date) (code : JsValue)
| Retry (at_ : Date) | Cancel (at_ : Date).

Definition transition (j : Job) (t : Transition) : Res Job :=
  match t with
  | Start at_ => start j at_
  | Complete at_ => complete j at_
  | Fail at_ code => fail j at_ code
  | Retry at_ => retry j at_
  | Cancel at_ => cancel j at_
  end.

(** Attempted transitions in order: a refused one leaves the job as it is.
    The count is the number of runs that started. *)
Fixpoint attempt (j : Job) (ts : list Transition) : Job * nat :=
  match ts with
  | [] => (j, O)
  | t :: ts' =>
      match transition j t with
      | Err _ => attempt j ts'
      | Ok j' =>
          let '(j'', n) := attempt j' ts' in
          (j'', match t with Start _ => S n | _ => n end)
      end
  end.

Inductive reachable : Job -> Prop :=
| reach_create input j : create input = Ok j -> reachable j
| reach_restore input j : restore input = Ok j -> reachable j
| reach_saved j : reachable j -> reachable (saved j)
| reach_transition j t j' : reachable j -> transition j t = Ok j' -> reachable j'.

(** What holds of every job the class can build. *)
Record wf (j : Job) : Prop := mkWf {
  wf_kind : kind (VStr j.(j_kind)) = Ok j.(j_kind);
  wf_subject : subject (subjectValue j.(j_subject)) = Ok j.(j_subject);
  wf_code : forall c, j.(j_failureCode) = Some c -> matchesName 127 c = true;
  wf_created : validDate j.(j_createdAt) = true;
  wf_updated : validDate j.(j_updatedAt) = true;
  wf_started : badDateOpt j.(j_startedAt) = false;
  wf_finished : badDateOpt j.(j_finishedAt) = false;
  wf_order : date_lt j.(j_updatedAt) j.(j_createdAt) = false;
  wf_coherent :
    incoherent j.(j_status) j.(j_attempts) j.(j_startedAt) j.(j_finishedAt) j.(j_failureCode)
    = false;
  wf_attempts : 0 <= j.(j_attempts) <= j.(j_maxAttempts);
  wf_maximum : 1 <= j.(j_maxAttempts) <= 10
}.

(** ** Lemmas. *)

Lemma job_parseStatus_name s : parseStatus (statusName s) = Some s.
Proof. by destruct s. Qed.

Lemma job_kind_ok v k : kind v = Ok k -> kind (VStr k) = Ok k.
Proof.
  destruct v; try done. cbn. destruct (matchesName 119 s) eqn:E; [|done].
  intros [= <-]. cbn. by rewrite E.
Qed.

Lemma job_subject_ok v s : subject v = Ok s -> subject (subjectValue s) = Ok s.
Proof.
  destruct v as [| | | | | |ms]; try done; try (intros [= <-]; done). cbn -[parse].
  destruct (member "type" ms) as [[| | | |ty| |]|]; try done.
  destruct (member "id" ms) as [[| | | |i| |]|]; try done.
  destruct (matchesName 63 ty) eqn:E; [|done].
  destruct (parse (VStr i)) as [i'|] eqn:Ei; [|done]. intros [= <-]. cbn -[parse].
  by rewrite E, (parse_idemp _ _ Ei).
Qed.

Lemma job_attempts_ok v n : attempts v = Ok n -> 1 <= n <= 10.
Proof.
  destruct v as [| | |m| | |]; cbn; try done; [intros [= <-]; lia|].
  destruct (_ || _) eqn:E; [done|]. intros [= <-]. breflect.
  destruct m; cbn in *; breflect; [lia|done].
Qed.

Lemma transitionTime_ok j t x :
  transitionTime j t = Ok x ->
  x = t /\ validDate t = true /\ date_lt t j.(j_updatedAt) = false.
Proof.
  unfold transitionTime. intros H. ok_branches H. breflect. by rewrite copyDate_valid.
Qed.

#[local] Arguments kind : simpl never.
#[local] Arguments subject : simpl never.
#[local] Arguments attempts : simpl never.

Ltac job_time :=
  repeat match goal with
  | H : transitionTime _ _ = Ok _ |- _ => apply transitionTime_ok in H as (-> & ? & ?)
  end;
  repeat match goal with
  | H : negb (bool_decide _) = false |- _ => apply negb_false_iff, bool_decide_eq_true in H
  | H : bool_decide _ || bool_decide _ = false |- _ =>
      apply orb_false_iff in H as [?%bool_decide_eq_false ?%bool_decide_eq_false]
  end.

(** Every transition rewrites the job with [evolve], at a time that does not
    precede its last update. *)
Lemma transition_evolve j t j' :
  transition j t = Ok j' ->
  exists at_ status n started finished code,
    j' = evolve j status n at_ started finished code
    /\ validDate at_ = true /\ date_lt at_ j.(j_updatedAt) = false.
Proof.
  destruct t as [at_|at_|at_ v|at_|at_]; cbn; unfold start, complete, fail, retry, cancel;
    intros H; ok_branches H; job_time; eauto 12.
Qed.

Lemma job_create_wf input j : create input = Ok j -> wf j.
Proof.
  unfold create. intros H. ok_branches H. breflect.
  apply job_attempts_ok in E0 as Hn. constructor; cbn; rewrite ?validDate_copy;
    eauto using job_kind_ok, job_subject_ok; try lia; try done.
  apply date_le_not_lt. rewrite !copyDate_valid by (by rewrite ?validDate_copy).
  by apply date_le_refl.
Qed.

Lemma job_restore_wf input j : restore input = Ok j -> wf j.
Proof.
  unfold restore. intros H. ok_branches H.
  destruct (parseStatus _) as [s|]; [|done]. ok_branches H. breflect.
  destruct (r_attempts input) as [a|], (r_maxAttempts input) as [m|]; cbn in *; breflect; try done.
  constructor; cbn; rewrite ?validDate_copy, ?copyDateOpt_valid by done;
    eauto using job_kind_ok, job_subject_ok; try lia.
  - intros c Hc. rewrite Hc in *. by breflect.
  - by rewrite !copyDate_valid.
Qed.

Lemma job_saved_wf j : wf j -> wf (saved j).
Proof. by intros []. Qed.

Lemma job_transition_wf j t j' : wf j -> transition j t = Ok j' -> wf j'.
Proof.
  intros [] H.
  destruct t as [at_|at_|at_ v|at_|at_]; cbn in H; unfold start, complete, fail, retry, cancel in H;
    ok_branches H; job_time; breflect.
  all: assert (date_lt at_ (j_createdAt j) = false)
    by eauto using date_le_trans with n2f.
  all: try (match goal with Hs : j_status _ = _ |- _ => rewrite Hs in wf_coherent0 end;
    cbn in wf_coherent0; breflect).
  all: constructor; cbn; auto; try lia; try (intros; done).
  all: repeat match goal with H : ?x = _ |- context [?x] => rewrite H end; try done.
  - intros c [= <-]. destruct v; try done. cbn in E1. by destruct (matchesName 127 s) eqn:?; naive_solver.
Qed.

Lemma job_reachable_wf j : reachable j -> wf j.
Proof.
  induction 1; eauto using job_create_wf, job_restore_wf, job_saved_wf, job_transition_wf.
Qed.

Lemma job_wf_restore j :
  wf j -> FIRST <= j.(j_version) <= MAX_SAFE_INTEGER -> restore (row j) = Ok j.
Proof.
  intros [] Hv. unfold restore, row. cbn [r_id r_organizationId r_kind r_subject r_status
    r_attempts r_maxAttempts r_createdAt r_updatedAt r_startedAt r_finishedAt r_failureCode
    r_version].
  rewrite wf_kind0, wf_subject0. cbn [mbind Result_bind]. rewrite job_parseStatus_name.
  rewrite (copyDate_valid (j_createdAt j)), (copyDate_valid (j_updatedAt j)),
    (copyDateOpt_valid (j_startedAt j)), (copyDateOpt_valid (j_finishedAt j)) by done.
  rewrite wf_created0, wf_updated0, wf_started0, wf_finished0, wf_order0.
  rewrite stored_version by done.
  cbn [num_val]. rewrite wf_coherent0.
  assert (isSafeInteger (Int (j_attempts j)) = true) as -> by (apply Z.leb_le; unfold MAX_SAFE_INTEGER; lia).
  assert (isSafeInteger (Int (j_maxAttempts j)) = true) as -> by (apply Z.leb_le; unfold MAX_SAFE_INTEGER; lia).
  cbn [num_lt num_gt negb orb].
  rewrite !(proj2 (Z.ltb_ge _ _)) by lia.
  assert (match j_failureCode j with Some c => negb (matchesName 127 c) | None => false end = false) as ->.
  { destruct (j_failureCode j) as [c|]; [|done]. by rewrite (wf_code0 c). }
  cbn [orb]. rewrite !copyDate_valid, !copyDateOpt_valid by done. by destruct j.
Qed.

(** Storage round trip. Every job the class can build, by any sequence of
    creations, restorations, saves and transitions, shows a row that [restore]
    accepts and rebuilds into the same job, so no transition produces a state
    the storage layer would reject on the next read. *)
Theorem job_reachable_restore (j : Job)
    (Hreach : reachable j) (Hversion : FIRST <= j.(j_version) <= MAX_SAFE_INTEGER) :
  restore (row j) = Ok j.
Proof. apply job_wf_restore; [by apply job_reachable_wf|done]. Qed.

Definition sample_id : ID := js "018f0000-0000-7000-8000-000000000001".

Definition sample : Job :=
  mkJob (js "j1") (js "o1") (js "document.process") (Some (mkSubject (js "document") sample_id))
    queued 0 3 (DateAt 100) (DateAt 100) None None None 0.

Definition sample_input : CreateJobInput :=
  mkCreate (js "j1") (js "o1") (VStr (js "document.process"))
    (VObj [("type"%string, VStr (js "document")); ("id"%string, VStr sample_id)])
    VUndefined (DateAt 100).

Definition sample_running : Job :=
  evolve (saved sample) running 1 (DateAt 120) (Some (DateAt 120)) None None.

Lemma job_reachable_restore_witness : restore (row sample_running) = Ok sample_running.
Proof.
  apply job_reachable_restore; [|vm_compute; split; discriminate].
  apply (reach_transition (saved sample) (Start (DateAt 120))); [|vm_compute; reflexivity].
  apply reach_saved, (reach_create sample_input). vm_compute. reflexivity.
Defined.

(** The lifecycle's edges. *)
Definition edge (a b : JobStatus) : bool :=
  match a, b with
  | queued, (running | canceled) => true
  | running, (succeeded | failed | canceled) => true
  | failed, (queued | canceled) => true
  | _, _ => false
  end.

(** A transition follows an edge of the lifecycle (succeeded and canceled
    jobs accept none), counts an attempt exactly when it starts a run, keeps
    the identity, the owner, the kind, the subject, the limit, the creation time
    and the version, and never moves the update time backwards. *)
Theorem job_transition_edge (j j' : Job) (t : Transition)
    (Hwf : wf j) (Hstep : transition j t = Ok j') :
  edge j.(j_status) j'.(j_status) = true
  /\ j'.(j_attempts)
     = j.(j_attempts) + (match j'.(j_status) with running => 1 | _ => 0 end)
  /\ row j' = row (evolve j j'.(j_status) j'.(j_attempts) j'.(j_updatedAt) j'.(j_startedAt)
                     j'.(j_finishedAt) j'.(j_failureCode))
  /\ date_le j.(j_updatedAt) j'.(j_updatedAt) = true.
Proof.
  pose proof (wf_updated j Hwf) as Hu.
  destruct t as [at_|at_|at_ v|at_|at_]; cbn in Hstep;
    unfold start, complete, fail, retry, cancel in Hstep; ok_branches Hstep; job_time; cbn;
    try match goal with Hs : j_status _ = _ |- _ => rewrite Hs end;
    split_and!; auto with n2f; try lia.
  by destruct (j_status j).
Qed.

Lemma job_transition_edge_witness :
  edge sample.(j_status) sample_running.(j_status) = true.
Proof.
  apply (job_transition_edge (saved sample) sample_running (Start (DateAt 120))).
  - constructor; try (vm_compute; reflexivity); vm_compute; try (split; discriminate).
    intros c [=].
  - vm_compute. reflexivity.
Defined.

Lemma attempt_cons j t ts :
  attempt j (t :: ts) =
    match transition j t with
    | Err _ => attempt j ts
    | Ok j' => ((attempt j' ts).1, match t with Start _ => S (attempt j' ts).2 | _ => (attempt j' ts).2 end)
    end.
Proof. cbn. destruct (transition j t) as [j'|]; [|done]. by destruct (attempt j' ts), t. Qed.

(** A start counts one attempt, any other transition none. *)
Lemma transition_attempts j t j' :
  transition j t = Ok j' ->
  j'.(j_attempts) = j.(j_attempts) + match t with Start _ => 1 | _ => 0 end
  /\ j'.(j_maxAttempts) = j.(j_maxAttempts)
  /\ j'.(j_version) = j.(j_version).
Proof.
  destruct t as [at_|at_|at_ v|at_|at_]; cbn; unfold start, complete, fail, retry, cancel;
    intros H; ok_branches H; cbn; split_and!; auto; lia.
Qed.

Lemma attempt_counts ts j :
  wf j ->
  let '(j', n) := attempt j ts in
  wf j' /\ j'.(j_attempts) = j.(j_attempts) + Z.of_nat n /\ j'.(j_maxAttempts) = j.(j_maxAttempts).
Proof.
  revert j; induction ts as [|t ts IH]; intros j Hj; [cbn; split_and!; auto; lia|].
  rewrite attempt_cons. destruct (transition j t) as [j'|] eqn:E; [|by apply IH].
  pose proof (transition_attempts _ _ _ E) as (Ha & Hm & _).
  specialize (IH j' (job_transition_wf _ _ _ Hj E)). destruct (attempt j' ts) as [j'' n]. cbn.
  destruct IH as (Hw & Hn & Hx). split_and!; [done| |lia]. destruct t; lia.
Qed.

(** Bounded execution. Whatever transitions are attempted on a job, in any
    order and at any times, refused ones included, it starts at most as many
    runs as it has attempts left, so never more than ten, and the attempts it
    shows are exactly the runs that started. *)
Theorem job_runs_bounded (j : Job) (ts : list Transition) (Hwf : wf j) :
  let '(j', n) := attempt j ts in
  Z.of_nat n <= j.(j_maxAttempts) - j.(j_attempts) <= 10
  /\ j'.(j_attempts) = j.(j_attempts) + Z.of_nat n.
Proof.
  pose proof (attempt_counts ts j Hwf) as H. destruct (attempt j ts) as [j' n].
  destruct H as (Hw & Ha & Hm). destruct (wf_attempts j' Hw), (wf_attempts j Hwf), (wf_maximum j Hwf).
  split; [lia|done].
Qed.

Lemma job_runs_bounded_witness :
  let cycle := [Start (DateAt 120); Fail (DateAt 130) (VStr (js "job.crashed")); Retry (DateAt 140);
                Start (DateAt 150); Fail (DateAt 160) (VStr (js "job.crashed")); Retry (DateAt 170)] in
  let '(j', n) := attempt sample cycle in
  Z.of_nat n <= 3 - 0 <= 10 /\ j'.(j_attempts) = 0 + Z.of_nat n.
Proof.
  apply (job_runs_bounded sample). constructor; try (vm_compute; reflexivity); vm_compute;
    try (split; discriminate). intros c [=].
Defined.

(** Jobs a workflow created and drove, never read back from storage. *)
Inductive driven : Job -> Prop :=
| driven_create input j : create input = Ok j -> driven j
| driven_saved j : driven j -> driven (saved j)
| driven_transition j t j' : driven j -> transition j t = Ok j' -> driven j'.

Lemma driven_reachable j : driven j -> reachable j.
Proof. induction 1; eauto using reachable. Qed.

(** A queued job still has a run to start. *)
Lemma driven_queued j : driven j -> j.(j_status) = queued -> j.(j_attempts) < j.(j_maxAttempts).
Proof.
  induction 1 as [input j H|j H IH|j t j' H IH Ht]; [|exact IH|].
  - unfold create in H. ok_branches H. cbn. intros _. apply job_attempts_ok in E0. lia.
  - destruct t as [at_|at_|at_ v|at_|at_]; cbn in Ht; unfold start, complete, fail, retry, cancel in Ht;
      ok_branches Ht; cbn; try done. breflect. lia.
Qed.

Lemma open_cases j :
  open j = true <->
  j.(j_status) = queued \/ j.(j_status) = running
  \/ (j.(j_status) = failed /\ j.(j_attempts) < j.(j_maxAttempts)).
Proof.
  unfold open. rewrite !orb_true_iff, andb_true_iff, !bool_decide_eq_true, Z.ltb_lt. tauto.
Qed.

Lemma closed_transition j t j' : transition j t = Ok j' -> open j' = true -> open j = true.
Proof.
  intros Ht. rewrite !open_cases.
  destruct t as [at_|at_|at_ v|at_|at_]; cbn in Ht; unfold start, complete, fail, retry, cancel in Ht;
    ok_branches Ht; job_time; cbn; try naive_solver. breflect. auto.
Qed.

Lemma closed_attempt ts j : open (attempt j ts).1 = true -> open j = true.
Proof.
  revert j; induction ts as [|t ts IH]; intros j; [done|]. rewrite attempt_cons.
  destruct (transition j t) as [j'|] eqn:E; [|by apply IH]. cbn. eauto using closed_transition.
Qed.

Lemma transitionTime_now j : wf j -> transitionTime j j.(j_updatedAt) = Ok j.(j_updatedAt).
Proof.
  intros []. unfold transitionTime. rewrite wf_updated0, (date_le_not_lt (j_updatedAt j)) by auto with n2f.
  cbn. by rewrite copyDate_valid.
Qed.

Lemma can_start j :
  wf j -> j.(j_status) = queued -> j.(j_attempts) < j.(j_maxAttempts) ->
  exists j', start j j.(j_updatedAt) = Ok j' /\ wf j' /\ j'.(j_status) = running.
Proof.
  intros Hw Hs Hlt. assert (start j (j_updatedAt j)
    = Ok (evolve j running (j_attempts j + 1) (j_updatedAt j) (Some (j_updatedAt j)) None None)) as E.
  { unfold start. rewrite transitionTime_now by done. cbn [mbind Result_bind].
    rewrite bool_decide_eq_true_2 by done. by rewrite (proj2 (Z.leb_gt _ _)) by lia. }
  eexists. split; [exact E|]. split; [|done]. by apply (job_transition_wf j (Start (j_updatedAt j))).
Qed.

Lemma can_complete j :
  wf j -> j.(j_status) = running -> exists j', complete j j.(j_updatedAt) = Ok j'.
Proof.
  intros Hw Hs. unfold complete. rewrite transitionTime_now by done. cbn [mbind Result_bind].
  rewrite bool_decide_eq_true_2 by done. eauto.
Qed.

Lemma can_retry j :
  wf j -> j.(j_status) = failed -> j.(j_attempts) < j.(j_maxAttempts) ->
  exists j', retry j j.(j_updatedAt) = Ok j' /\ wf j' /\ j'.(j_status) = queued
             /\ j'.(j_attempts) < j'.(j_maxAttempts).
Proof.
  intros Hw Hs Hlt. assert (retry j (j_updatedAt j)
    = Ok (evolve j queued (j_attempts j) (j_updatedAt j) None None None)) as E.
  { unfold retry. rewrite transitionTime_now by done. cbn [mbind Result_bind].
    rewrite bool_decide_eq_true_2 by done. by rewrite (proj2 (Z.leb_gt _ _)) by lia. }
  eexists. split; [exact E|]. split; [|done]. by apply (job_transition_wf j (Retry (j_updatedAt j))).
Qed.

(** A queued job with attempts left reaches a completion. *)
Lemma queued_completes j :
  wf j -> j.(j_status) = queued -> j.(j_attempts) < j.(j_maxAttempts) ->
  exists ts at_ j', complete (attempt j ts).1 at_ = Ok j'.
Proof.
  intros Hw Hs Hlt. destruct (can_start j) as (k & Hk & Hkw & Hks); [done..|].
  destruct (can_complete k) as [k' Hk']; [done..|].
  exists [Start (j_updatedAt j)], (j_updatedAt k), k'. rewrite attempt_cons. cbn [transition]. by rewrite Hk.
Qed.

(** What [open] means: a job that was created and driven is open exactly
    when some sequence of transitions still leads to a completion. A closed
    job never runs again, so the one-open-job-per-subject rule excludes
    concurrent work and nothing more. *)
Theorem job_open_spec (j : Job) (Hdriven : driven j) :
  open j = true <-> exists ts at_ j', complete (attempt j ts).1 at_ = Ok j'.
Proof.
  assert (Hw : wf j) by (by apply job_reachable_wf, driven_reachable). split.
  - intros [Hs|[Hs|[Hs Hlt]]]%open_cases.
    + apply queued_completes; auto using driven_queued.
    + destruct (can_complete j) as [k' Hk']; [done..|]. by exists [], (j_updatedAt j), k'.
    + destruct (can_retry j) as (q & Hq & Hqw & Hqs & Hql); [done..|].
      destruct (queued_completes q) as (ts & at_ & j' & Hc); [done..|].
      exists (Retry (j_updatedAt j) :: ts), at_, j'. rewrite attempt_cons. cbn [transition]. by rewrite Hq.
  - intros (ts & at_ & j' & Hc). apply (closed_attempt ts), open_cases.
    unfold complete in Hc. ok_branches Hc. job_time. auto.
Qed.

Lemma job_open_spec_witness :
  open sample_running = true.
Proof.
  apply job_open_spec.
  - apply (driven_transition (saved sample) (Start (DateAt 120))); [|vm_compute; reflexivity].
    apply driven_saved, (driven_create sample_input). vm_compute. reflexivity.
  - exists [], (DateAt 120), (evolve sample_running succeeded 1 (DateAt 120) (Some (DateAt 120)) (Some (DateAt 120)) None).
    vm_compute. reflexivity.
Defined.

End Job.
