(* ===== verification/IdentityDomain.v ===== *)
(** * The aggregates of the identity module: [modules/identity/domain].

    [Identity] (the account), [Session] (a login), [Challenge] (an emailed
    one-time link) and [Credential] (an email and password), each with its
    restoration guard and its transitions. *)
From S2P Require Import Prelude JsMap Errors Ids CaseFolding.

(** ** Identities: [identity.ts]. *)
Module Identity.

(** @src src/modules/identity/domain/identity.ts:15-22 IdentityStatus *)
Inductive Status : Type := pending_verification | active | suspended | disabled.

#[export] Instance Status_eq_dec : EqDecision Status.
Proof. solve_decision. Defined.

Definition statusName (s : Status) : string :=
  match s with
  | pending_verification => "pending_verification" | active => "active"
  | suspended => "suspended" | disabled => "disabled"
  end.

(** @src src/modules/identity/domain/identity.ts:15-20 IDENTITY_STATUSES *)
Definition parseStatus (s : string) : option Status :=
  find_first (fun x => String.eqb (statusName x) s) [pending_verification; active; suspended; disabled].

(** @src src/modules/identity/domain/identity.ts:41-57 RestoreIdentityInput *)
Record Row : Type := mkRow {
  r_id : ID; r_status : string; r_createdAt : Date; r_updatedAt : Date;
  r_verifiedAt : option Date; r_version : num
}.

(** @src src/modules/identity/domain/identity.ts:50-57 IdentityState *)
Record Identity : Type := mkIdentity {
  i_id : ID; i_status : Status; i_createdAt : Date; i_updatedAt : Date;
  i_verifiedAt : option Date; i_version : Z
}.

(** @src src/modules/identity/domain/identity.ts:67-72 invalid *)
Definition invalid (message type : string) : Failure :=
  typedFailure invalid type message noOptions.

(** @src src/modules/identity/domain/identity.ts:79-103 register *)
Definition register (id : ID) (createdAt : Date) : Res Identity :=
  if negb (validDate createdAt) then
    Err (invalid "identity creation time must be valid" "identity.invalid_created_at")
  else
    let createdAt := copyDate createdAt in
    Ok (mkIdentity id pending_verification createdAt (copyDate createdAt) None UNSAVED).

(** @src src/modules/identity/domain/identity.ts:129-141 restore *)
Definition incoherent (status : Status) (verifiedAt : option Date) : bool :=
  (bool_decide (status = pending_verification) && negb (isNull verifiedAt))
  || (negb (bool_decide (status = pending_verification))
      && negb (bool_decide (status = disabled)) && isNull verifiedAt).

(** @src src/modules/identity/domain/identity.ts:105-154 restore *)
Definition restore (input : Row) : Res Identity :=
  match parseStatus input.(r_status) with
  | None => Err (invalid "identity state is invalid" "identity.invalid_state")
  | Some status =>
    if negb (validDate input.(r_createdAt)) || negb (validDate input.(r_updatedAt))
       || badDateOpt input.(r_verifiedAt) || negb (isStoredVersion input.(r_version)) then
      Err (invalid "identity state is invalid" "identity.invalid_state")
    else if date_lt input.(r_updatedAt) input.(r_createdAt) then
      Err (invalid "identity update time cannot precede creation" "identity.non_monotonic_time")
    else if incoherent status input.(r_verifiedAt) then
      Err (invalid "identity verification state is invalid" "identity.invalid_state")
    else
      Ok (mkIdentity input.(r_id) status (copyDate input.(r_createdAt)) (copyDate input.(r_updatedAt))
            (copyDateOpt input.(r_verifiedAt)) (num_val input.(r_version)))
  end.

(** @src src/modules/identity/domain/identity.ts:156-181 getters *)
Definition row (i : Identity) : Row :=
  mkRow i.(i_id) (statusName i.(i_status)) (copyDate i.(i_createdAt)) (copyDate i.(i_updatedAt))
    (copyDateOpt i.(i_verifiedAt)) (Int i.(i_version)).

(** @src src/modules/identity/domain/identity.ts:184-186 saved *)
Definition saved (i : Identity) : Identity :=
  mkIdentity i.(i_id) i.(i_status) i.(i_createdAt) i.(i_updatedAt) i.(i_verifiedAt)
    (i.(i_version) + 1).

(** @src src/modules/identity/domain/identity.ts:282-302 transitionTime *)
Definition transitionTime (i : Identity) (at_ : Date) : Res Date :=
  if negb (validDate at_) then
    Err (invalid "identity transition time must be valid" "identity.invalid_transition_time")
  else if date_lt at_ i.(i_updatedAt) then
    Err (invalid "identity transition time cannot move backwards" "identity.non_monotonic_time")
  else Ok (copyDate at_).

(** @src src/modules/identity/domain/identity.ts:304-316 evolve
    [verifiedAt] is [None] when the patch leaves it out. *)
Definition evolve (i : Identity) (status : Status) (updatedAt : Date) (verifiedAt : option Date)
    : Identity :=
  let verifiedAt := match verifiedAt with Some v => Some v | None => i.(i_verifiedAt) end in
  mkIdentity i.(i_id) status (copyDate i.(i_createdAt)) (copyDate updatedAt)
    (copyDateOpt verifiedAt) i.(i_version).

(** @src src/modules/identity/domain/identity.ts:188-211 verify *)
Definition verify (i : Identity) (at_ : Date) : Res Identity :=
  time ← transitionTime i at_;
  if negb (bool_decide (i.(i_status) = pending_verification)) then
    Err (invalid "only pending identities can be verified" "identity.invalid_verification")
  else Ok (evolve i active time (Some time)).

(** @src src/modules/identity/domain/identity.ts:213-235 suspend *)
Definition suspend (i : Identity) (at_ : Date) : Res Identity :=
  time ← transitionTime i at_;
  if negb (bool_decide (i.(i_status) = active)) then
    Err (invalid "only active identities can be suspended" "identity.invalid_suspension")
  else Ok (evolve i suspended time None).

(** @src src/modules/identity/domain/identity.ts:237-256 disable *)
Definition disable (i : Identity) (at_ : Date) : Res Identity :=
  time ← transitionTime i at_;
  if bool_decide (i.(i_status) = disabled) then
    Err (invalid "identity is already disabled" "identity.already_disabled")
  else Ok (evolve i disabled time None).

(** @src src/modules/identity/domain/identity.ts:258-280 reactivate *)
Definition reactivate (i : Identity) (at_ : Date) : Res Identity :=
  time ← transitionTime i at_;
  if negb (bool_decide (i.(i_status) = suspended)) then
    Err (invalid "only suspended identities can be reactivated" "identity.invalid_reactivation")
  else Ok (evolve i active time None).

(** The four transitions. *)
Inductive step : Identity -> Identity -> Prop :=
| step_verify i t i' : verify i t = Ok i' -> step i i'
| step_suspend i t i' : suspend i t = Ok i' -> step i i'
| step_disable i t i' : disable i t = Ok i' -> step i i'
| step_reactivate i t i' : reactivate i t = Ok i' -> step i i'.

Inductive reachable : Identity -> Prop :=
| reach_register id t i : register id t = Ok i -> reachable i
| reach_restore r i : restore r = Ok i -> reachable i
| reach_saved i : reachable i -> reachable (saved i)
| reach_step i i' : reachable i -> step i i' -> reachable i'.

(** What holds of every identity the class can build. *)
Record wf (i : Identity) : Prop := mkWf {
  wf_created : validDate i.(i_createdAt) = true;
  wf_updated : validDate i.(i_updatedAt) = true;
  wf_verified : badDateOpt i.(i_verifiedAt) = false;
  wf_order : date_lt i.(i_updatedAt) i.(i_createdAt) = false;
  wf_coherent : incoherent i.(i_status) i.(i_verifiedAt) = false
}.

Lemma identity_parseStatus_name s : parseStatus (statusName s) = Some s.
Proof. by destruct s. Qed.

Lemma identity_time_ok i t x :
  transitionTime i t = Ok x -> x = t /\ validDate t = true /\ date_lt t i.(i_updatedAt) = false.
Proof. unfold transitionTime. intros H. ok_branches H. breflect. by rewrite copyDate_valid. Qed.

Lemma identity_register_wf id t i : register id t = Ok i -> wf i.
Proof.
  unfold register. intros H. ok_branches H. breflect.
  rewrite !copyDate_valid by (by rewrite ?validDate_copy).
  constructor; cbn; auto with n2f.
Qed.

Lemma identity_restore_wf r i : restore r = Ok i -> wf i.
Proof.
  unfold restore. intros H. destruct (parseStatus _) as [s|]; [|done]. ok_branches H. breflect.
  rewrite !copyDate_valid, !copyDateOpt_valid by done. by constructor.
Qed.

(** Every transition is an [evolve] to a coherent state at a later time. *)
Lemma identity_step_wf i i' : wf i -> step i i' -> wf i'.
Proof.
  intros [] Hs. destruct Hs as [i t i' H|i t i' H|i t i' H|i t i' H];
    unfold verify, suspend, disable, reactivate in H; ok_branches H;
    apply identity_time_ok in E as (-> & Ht & Hle); breflect; rewrite ?bool_decide_eq_true in *.
  all: assert (date_lt t (i_createdAt i) = false) by eauto using date_le_trans with n2f.
  all: constructor; cbn; rewrite ?validDate_copy, ?copyDate_valid, ?copyDateOpt_valid by done; auto.
  all: try (unfold incoherent in *; rewrite E0 in wf_coherent0; done).
  by rewrite Ht.
Qed.

Lemma identity_reachable_wf i : reachable i -> wf i.
Proof.
  induction 1; [by eapply identity_register_wf|by eapply identity_restore_wf| |by eapply identity_step_wf].
  by destruct IHreachable.
Qed.

Lemma identity_wf_restore i :
  wf i -> FIRST <= i.(i_version) <= MAX_SAFE_INTEGER -> restore (row i) = Ok i.
Proof.
  intros [] Hv. unfold restore, row.
  cbn [r_id r_status r_createdAt r_updatedAt r_verifiedAt r_version].
  rewrite identity_parseStatus_name.
  rewrite !copyDate_valid, !copyDateOpt_valid by (rewrite ?copyDate_valid; done).
  rewrite wf_created0, wf_updated0, wf_verified0, wf_order0, wf_coherent0, stored_version by done.
  by destruct i.
Qed.

(** The lifecycle's edges. *)
Definition edge (a b : Status) : bool :=
  match a, b with
  | pending_verification, (active | disabled) => true
  | active, (suspended | disabled) => true
  | suspended, (active | disabled) => true
  | _, _ => false
  end.

(** The account lifecycle. A transition follows an edge: a disabled account
    never changes again, an account becomes active only by verification or by
    lifting a suspension, and the verification time is set exactly once, by
    [verify], and never lost. So no account is active or suspended without
    having been verified. *)
Theorem identity_step_edge (i i' : Identity) (Hwf : wf i) (Hstep : step i i') :
  edge i.(i_status) i'.(i_status) = true
  /\ i'.(i_id) = i.(i_id) /\ i'.(i_createdAt) = i.(i_createdAt) /\ i'.(i_version) = i.(i_version)
  /\ date_le i.(i_updatedAt) i'.(i_updatedAt) = true
  /\ i'.(i_verifiedAt)
     = (match i.(i_status), i'.(i_status) with
        | pending_verification, active => Some i'.(i_updatedAt)
        | _, _ => i.(i_verifiedAt)
        end)
  /\ (i'.(i_status) = active \/ i'.(i_status) = suspended -> i'.(i_verifiedAt) <> None).
Proof.
  pose proof (identity_step_wf _ _ Hwf Hstep) as Hw'. destruct Hwf.
  assert (Hv : i'.(i_status) = active \/ i'.(i_status) = suspended -> i'.(i_verifiedAt) <> None).
  { destruct Hw' as [_ _ _ _ Hc]. intros Hs Hn. unfold incoherent in Hc. rewrite Hn in Hc.
    by destruct Hs as [Hs|Hs]; rewrite Hs in Hc. }
  destruct Hstep as [i t i' H|i t i' H|i t i' H|i t i' H];
    unfold verify, suspend, disable, reactivate in H; ok_branches H;
    apply identity_time_ok in E as (-> & Ht & Hle); breflect; rewrite ?bool_decide_eq_true in *;
    split_and!; try exact Hv; cbn; rewrite ?copyDate_valid, ?copyDateOpt_valid by done;
    try rewrite E0; auto with n2f.
  - apply bool_decide_eq_false in E0. by destruct (i_status i).
  - by destruct (i_status i).
Qed.

Lemma identity_step_edge_witness :
  let i := mkIdentity (js "i1") suspended (DateAt 1) (DateAt 5) (Some (DateAt 3)) 2 in
  edge suspended disabled = true
  /\ (mkIdentity (js "i1") disabled (DateAt 1) (DateAt 9) (Some (DateAt 3)) 2).(i_verifiedAt)
     = i.(i_verifiedAt).
Proof.
  intros i.
  pose proof (identity_step_edge i (mkIdentity (js "i1") disabled (DateAt 1) (DateAt 9) (Some (DateAt 3)) 2))
    as H.
  destruct H as (He & _ & _ & _ & _ & Hv & _).
  - constructor; vm_compute; reflexivity.
  - apply (step_disable i (DateAt 9)). vm_compute. reflexivity.
  - split; [exact He|exact Hv].
Defined.

End Identity.

(** ** Sessions: [session.ts]. *)
Module Session.

(** @src src/modules/identity/domain/session.ts:15-17 SessionStatus *)
Inductive Status : Type := active | revoked.

#[export] Instance Status_eq_dec : EqDecision Status.
Proof. solve_decision. Defined.

Definition statusName (s : Status) : string :=
  match s with active => "active" | revoked => "revoked" end.

(** @src src/modules/identity/domain/session.ts:15-15 SESSION_STATUSES *)
Definition parseStatus (s : string) : option Status :=
  find_first (fun x => String.eqb (statusName x) s) [active; revoked].

(** @src src/modules/identity/domain/session.ts:32-37 CreateSessionInput *)
Record CreateInput : Type := mkCreate {
  c_id : ID; c_identityId : ID; c_createdAt : Date; c_expiresAt : Date
}.

(** @src src/modules/identity/domain/session.ts:39-49 RestoreSessionInput *)
Record Row : Type := mkRow {
  r_id : ID; r_identityId : ID; r_status : string; r_createdAt : Date; r_expiresAt : Date;
  r_lastSeenAt : Date; r_revokedAt : option Date; r_version : num
}.

(** @src src/modules/identity/domain/session.ts:51-60 SessionState *)
Record Session : Type := mkSession {
  s_id : ID; s_identityId : ID; s_status : Status; s_createdAt : Date; s_expiresAt : Date;
  s_lastSeenAt : Date; s_revokedAt : option Date; s_version : Z
}.

(** @src src/modules/identity/domain/session.ts:70-75 invalid *)
Definition invalid (message type : string) : Failure :=
  typedFailure invalid type message noOptions.

(** @src src/modules/identity/domain/session.ts:82-109 create *)
Definition create (input : CreateInput) : Res Session :=
  if negb (validDate input.(c_createdAt)) || negb (validDate input.(c_expiresAt)) then
    Err (invalid "session times must be valid" "session.invalid_time")
  else if date_le input.(c_expiresAt) input.(c_createdAt) then
    Err (invalid "session must expire after creation" "session.invalid_expiry")
  else
    let createdAt := copyDate input.(c_createdAt) in
    Ok {| s_id := input.(c_id); s_identityId := input.(c_identityId); s_status := active;
          s_createdAt := createdAt; s_expiresAt := copyDate input.(c_expiresAt);
          s_lastSeenAt := copyDate createdAt; s_revokedAt := None; s_version := UNSAVED |}.

(** @src src/modules/identity/domain/session.ts:130-139 restore *)
Definition incoherent (status : Status) (createdAt : Date) (revokedAt : option Date) : bool :=
  (bool_decide (status = active) && negb (isNull revokedAt))
  || (bool_decide (status = revoked) && isNull revokedAt)
  || match revokedAt with Some r => date_lt r createdAt | None => false end.

(** @src src/modules/identity/domain/session.ts:111-153 restore *)
Definition restore (input : Row) : Res Session :=
  match parseStatus input.(r_status) with
  | None => Err (invalid "session state is invalid" "session.invalid_state")
  | Some status =>
    if negb (validDate input.(r_createdAt)) || negb (validDate input.(r_expiresAt))
       || negb (validDate input.(r_lastSeenAt))
       || date_lt input.(r_lastSeenAt) input.(r_createdAt)
       || badDateOpt input.(r_revokedAt) || negb (isStoredVersion input.(r_version)) then
      Err (invalid "session state is invalid" "session.invalid_state")
    else if date_le input.(r_expiresAt) input.(r_createdAt) then
      Err (invalid "session must expire after creation" "session.invalid_expiry")
    else if incoherent status input.(r_createdAt) input.(r_revokedAt) then
      Err (invalid "session revocation state is invalid" "session.invalid_state")
    else
      Ok {| s_id := input.(r_id); s_identityId := input.(r_identityId); s_status := status;
            s_createdAt := copyDate input.(r_createdAt); s_expiresAt := copyDate input.(r_expiresAt);
            s_lastSeenAt := copyDate input.(r_lastSeenAt);
            s_revokedAt := copyDateOpt input.(r_revokedAt); s_version := num_val input.(r_version) |}
  end.

(** @src src/modules/identity/domain/session.ts:155-188 getters *)
Definition row (s : Session) : Row :=
  mkRow s.(s_id) s.(s_identityId) (statusName s.(s_status)) (copyDate s.(s_createdAt))
    (copyDate s.(s_expiresAt)) (copyDate s.(s_lastSeenAt)) (copyDateOpt s.(s_revokedAt))
    (Int s.(s_version)).

(** @src src/modules/identity/domain/session.ts:190-193 saved *)
Definition saved (s : Session) : Session :=
  mkSession s.(s_id) s.(s_identityId) s.(s_status) s.(s_createdAt) s.(s_expiresAt)
    s.(s_lastSeenAt) s.(s_revokedAt) (s.(s_version) + 1).

(** @src src/modules/identity/domain/session.ts:195-244 assertUsable
    [idleTimeoutMs] is [None] when the caller leaves it out. *)
Definition assertUsable (s : Session) (at_ : Date) (idleTimeoutMs : option Z) : Res unit :=
  if negb (validDate at_) then
    Err (invalid "session check time must be valid" "session.invalid_check_time")
  else if bool_decide (s.(s_status) = revoked) then
    Err (typedFailure unauthenticated "session.revoked" "session is revoked" noOptions)
  else if date_le s.(s_expiresAt) at_ then
    Err (typedFailure unauthenticated "session.expired" "session has expired" noOptions)
  else if match idleTimeoutMs with
          | Some idle => idle <=? getTime at_ - getTime s.(s_lastSeenAt)
          | None => false
          end then
    Err (typedFailure unauthenticated "session.expired" "session expired after inactivity" noOptions)
  else Ok tt.

(** @src src/modules/identity/domain/session.ts:246-255 seen *)
Definition seen (s : Session) (at_ : Date) : Session :=
  if negb (validDate at_) || date_le at_ s.(s_lastSeenAt) then s
  else mkSession s.(s_id) s.(s_identityId) s.(s_status) s.(s_createdAt) s.(s_expiresAt)
         (copyDate at_) s.(s_revokedAt) s.(s_version).

(** @src src/modules/identity/domain/session.ts:257-291 revoke *)
Definition revoke (s : Session) (at_ : Date) : Res Session :=
  if negb (validDate at_) then
    Err (invalid "session revocation time must be valid" "session.invalid_revocation_time")
  else if date_lt at_ s.(s_createdAt) then
    Err (invalid "session revocation cannot precede creation" "session.non_monotonic_time")
  else if bool_decide (s.(s_status) = revoked) then
    Err (invalid "session is already revoked" "session.already_revoked")
  else
    let revokedAt := copyDate at_ in
    Ok (mkSession s.(s_id) s.(s_identityId) revoked s.(s_createdAt) s.(s_expiresAt)
          s.(s_lastSeenAt) (Some revokedAt) s.(s_version)).

(** What can happen to a session after it was created. *)
Inductive step : Session -> Session -> Prop :=
| step_saved s : step s (saved s)
| step_seen s t : step s (seen s t)
| step_revoke s t s' : revoke s t = Ok s' -> step s s'.

Inductive reachable : Session -> Prop :=
| reach_create c s : create c = Ok s -> reachable s
| reach_restore r s : restore r = Ok s -> reachable s
| reach_step s s' : reachable s -> step s s' -> reachable s'.

Record wf (s : Session) : Prop := mkWf {
  wf_created : validDate s.(s_createdAt) = true;
  wf_expires : validDate s.(s_expiresAt) = true;
  wf_seen : validDate s.(s_lastSeenAt) = true;
  wf_seen_order : date_lt s.(s_lastSeenAt) s.(s_createdAt) = false;
  wf_revoked : badDateOpt s.(s_revokedAt) = false;
  wf_expiry : date_le s.(s_expiresAt) s.(s_createdAt) = false;
  wf_coherent : incoherent s.(s_status) s.(s_createdAt) s.(s_revokedAt) = false
}.

Lemma session_parseStatus_name s : parseStatus (statusName s) = Some s.
Proof. by destruct s. Qed.

Lemma session_create_wf c s : create c = Ok s -> wf s.
Proof.
  unfold create. intros H. ok_branches H. breflect.
  rewrite !copyDate_valid by (by rewrite ?validDate_copy). constructor; cbn; auto with n2f.
Qed.

Lemma session_restore_wf r s : restore r = Ok s -> wf s.
Proof.
  unfold restore. intros H. destruct (parseStatus _) as [st|]; [|done]. ok_branches H. breflect.
  rewrite !copyDate_valid, !copyDateOpt_valid by done. by constructor.
Qed.

Lemma session_step_wf s s' : wf s -> step s s' -> wf s'.
Proof.
  intros [] Hs. destruct Hs as [s|s t|s t s' H]; [by constructor| |].
  - unfold seen. destruct (_ || _) eqn:E; [by constructor|]. breflect. constructor; auto; cbn;
      rewrite copyDate_valid by done; auto.
    apply date_le_not_lt. eauto using date_le_trans, not_date_le with n2f.
  - unfold revoke in H. ok_branches H. breflect. rewrite !copyDate_valid by done.
    constructor; auto; cbn. by rewrite E.
Qed.

Lemma session_reachable_wf s : reachable s -> wf s.
Proof.
  induction 1; [by eapply session_create_wf|by eapply session_restore_wf|by eapply session_step_wf].
Qed.

Lemma session_wf_restore s :
  wf s -> FIRST <= s.(s_version) <= MAX_SAFE_INTEGER -> restore (row s) = Ok s.
Proof.
  intros [] Hv. unfold restore, row.
  cbn [r_id r_identityId r_status r_createdAt r_expiresAt r_lastSeenAt r_revokedAt r_version].
  rewrite session_parseStatus_name.
  rewrite !copyDate_valid, !copyDateOpt_valid by (rewrite ?copyDate_valid; done).
  rewrite wf_created0, wf_expires0, wf_seen0, wf_seen_order0, wf_revoked0, wf_expiry0,
    wf_coherent0, stored_version by done.
  by destruct s.
Qed.

(** A session authenticates at [at_] when it is active, before its expiry and,
    under an idle timeout, used less than that long ago. *)
Definition usable (s : Session) (at_ : Z) (idle : option Z) : Prop :=
  s.(s_status) = active /\ at_ < getTime s.(s_expiresAt)
  /\ (forall w, idle = Some w -> at_ - getTime s.(s_lastSeenAt) < w).

Lemma assertUsable_usable s t idle :
  wf s -> validDate (DateAt t) = true ->
  assertUsable s (DateAt t) idle = Ok tt <-> usable s t idle.
Proof.
  intros [] Ht. unfold assertUsable, usable. rewrite Ht. cbn [negb].
  destruct (s_expiresAt s) as [|e] eqn:Ee; [done|]. cbn [getTime date_le].
  destruct (s_status s); cbn; [|naive_solver].
  destruct (e <=? t) eqn:E; breflect; [split; [done|]; naive_solver lia|].
  destruct idle as [w|]; [|naive_solver].
  destruct (w <=? _) eqn:Ew; breflect; split; try done.
  - intros (_ & _ & H). specialize (H w eq_refl). lia.
  - intros _. split_and!; auto. intros w' [= <-]. lia.
Qed.

(** What a session authenticates. [assertUsable] accepts at a time exactly
    when the session is active, the time is before its expiry and (under an
    idle timeout) the last use is recent enough. Recording a use never makes an
    accepted session fail at that same time, never extends the expiry, and
    never revives a revoked or expired session; once revoked, no sequence of
    saves, uses and revocations makes it usable again. *)
Theorem session_usability (s : Session) (t : Z) (idle : option Z)
    (Hwf : wf s) (Ht : validDate (DateAt t) = true) :
  (assertUsable s (DateAt t) idle = Ok tt <-> usable s t idle)
  /\ (usable s t idle -> (forall w, idle = Some w -> 0 < w) -> usable (seen s (DateAt t)) t idle)
  /\ (forall s', step s s' ->
        s'.(s_expiresAt) = s.(s_expiresAt)
        /\ (s.(s_status) = revoked -> s'.(s_status) = revoked)
        /\ (getTime s.(s_expiresAt) <= t -> assertUsable s' (DateAt t) idle <> Ok tt)
        /\ (s.(s_status) = revoked -> assertUsable s' (DateAt t) idle <> Ok tt)).
Proof.
  split; [by apply assertUsable_usable|]. split.
  - intros (Ha & Hx & Hi) Hw. unfold seen. rewrite Ht. cbn [negb orb].
    destruct (date_le _ _) eqn:E; [done|]. split_and!; [done..|].
    intros w Hidle. cbn [s_lastSeenAt]. rewrite copyDate_valid by done. cbn.
    specialize (Hw w Hidle). lia.
  - intros s' Hs. pose proof (session_step_wf _ _ Hwf Hs) as Hw'.
    assert (Hk : s'.(s_expiresAt) = s.(s_expiresAt)
                 /\ (s.(s_status) = revoked -> s'.(s_status) = revoked)).
    { destruct Hs as [s|s u|s u s' H]; [done| |].
      - unfold seen. by destruct (_ || _).
      - unfold revoke in H. by ok_branches H. }
    destruct Hk as [He Hr]. split_and!; auto; intros Hc;
      rewrite assertUsable_usable by done; intros (Ha & Hx & _); rewrite ?He in Hx; [lia|].
    rewrite Hr in Ha; done.
Qed.

Lemma session_usability_witness :
  let s := mkSession (js "s1") (js "i1") active (DateAt 10) (DateAt 90) (DateAt 20) None 1 in
  assertUsable s (DateAt 50) (Some 40) = Ok tt
  /\ assertUsable s (DateAt 60) (Some 40) <> Ok tt.
Proof.
  intros s. assert (Hw : wf s) by (constructor; vm_compute; reflexivity). split.
  - apply (session_usability s 50 (Some 40) Hw eq_refl). vm_compute. split_and!; try done.
    intros w [= <-]. done.
  - rewrite (proj1 (session_usability s 60 (Some 40) Hw eq_refl)). intros (_ & _ & H).
    specialize (H 40 eq_refl). vm_compute in H. discriminate H.
Defined.

End Session.

(** ** Verification challenges: [verification-challenge.ts]. *)
Module Challenge.

(** @src src/modules/identity/domain/verification-challenge.ts:15-20 VerificationPurpose *)
Inductive Purpose : Type := email_verification | password_reset.

(** @src src/modules/identity/domain/verification-challenge.ts:22-27 VerificationStatus *)
Inductive Status : Type := issued | consumed.

#[export] Instance Purpose_eq_dec : EqDecision Purpose.
Proof. solve_decision. Defined.
#[export] Instance Status_eq_dec : EqDecision Status.
Proof. solve_decision. Defined.

Definition purposeName (p : Purpose) : string :=
  match p with email_verification => "email_verification" | password_reset => "password_reset" end.
Definition statusName (s : Status) : string :=
  match s with issued => "issued" | consumed => "consumed" end.

(** @src src/modules/identity/domain/verification-challenge.ts:15-18 VERIFICATION_PURPOSES *)
Definition parsePurpose (s : string) : option Purpose :=
  find_first (fun x => String.eqb (purposeName x) s) [email_verification; password_reset].

(** @src src/modules/identity/domain/verification-challenge.ts:22-25 VERIFICATION_STATUSES *)
Definition parseStatus (s : string) : option Status :=
  find_first (fun x => String.eqb (statusName x) s) [issued; consumed].

(** @src src/modules/identity/domain/verification-challenge.ts:43-49 IssueVerificationChallengeInput *)
Record IssueInput : Type := mkIssue {
  c_id : ID; c_identityId : ID; c_purpose : Purpose; c_issuedAt : Date; c_expiresAt : Date
}.

(** @src src/modules/identity/domain/verification-challenge.ts:51-60 RestoreVerificationChallengeInput *)
Record Row : Type := mkRow {
  r_id : ID; r_identityId : ID; r_purpose : string; r_status : string; r_issuedAt : Date;
  r_expiresAt : Date; r_consumedAt : option Date; r_version : num
}.

(** @src src/modules/identity/domain/verification-challenge.ts:62-71 VerificationChallengeState *)
Record Challenge : Type := mkChallenge {
  v_id : ID; v_identityId : ID; v_purpose : Purpose; v_status : Status; v_issuedAt : Date;
  v_expiresAt : Date; v_consumedAt : option Date; v_version : Z
}.

(** @src src/modules/identity/domain/verification-challenge.ts:81-86 invalid *)
Definition invalid (message type : string) : Failure :=
  typedFailure invalid type message noOptions.

(** @src src/modules/identity/domain/verification-challenge.ts:93-129 issue *)
Definition issue (input : IssueInput) : Res Challenge :=
  if negb (validDate input.(c_issuedAt)) || negb (validDate input.(c_expiresAt)) then
    Err (invalid "verification challenge times must be valid" "verification.invalid_time")
  else if date_le input.(c_expiresAt) input.(c_issuedAt) then
    Err (invalid "verification challenge must expire after issuance" "verification.invalid_expiry")
  else
    Ok {| v_id := input.(c_id); v_identityId := input.(c_identityId);
          v_purpose := input.(c_purpose); v_status := issued;
          v_issuedAt := copyDate input.(c_issuedAt); v_expiresAt := copyDate input.(c_expiresAt);
          v_consumedAt := None; v_version := UNSAVED |}.

(** @src src/modules/identity/domain/verification-challenge.ts:159-172 restore *)
Definition incoherent (status : Status) (issuedAt expiresAt : Date) (consumedAt : option Date) : bool :=
  (bool_decide (status = issued) && negb (isNull consumedAt))
  || (bool_decide (status = consumed) && isNull consumedAt)
  || match consumedAt with
     | Some c => date_lt c issuedAt || date_le expiresAt c
     | None => false
     end.

(** @src src/modules/identity/domain/verification-challenge.ts:131-187 restore *)
Definition restore (input : Row) : Res Challenge :=
  match parsePurpose input.(r_purpose), parseStatus input.(r_status) with
  | Some purpose, Some status =>
    if negb (validDate input.(r_issuedAt)) || negb (validDate input.(r_expiresAt))
       || badDateOpt input.(r_consumedAt) || negb (isStoredVersion input.(r_version)) then
      Err (invalid "verification challenge state is invalid" "verification.invalid_state")
    else if date_le input.(r_expiresAt) input.(r_issuedAt) then
      Err (invalid "verification challenge must expire after issuance" "verification.invalid_expiry")
    else if incoherent status input.(r_issuedAt) input.(r_expiresAt) input.(r_consumedAt) then
      Err (invalid "verification challenge consumption state is invalid" "verification.invalid_state")
    else
      Ok {| v_id := input.(r_id); v_identityId := input.(r_identityId); v_purpose := purpose;
            v_status := status; v_issuedAt := copyDate input.(r_issuedAt);
            v_expiresAt := copyDate input.(r_expiresAt);
            v_consumedAt := copyDateOpt input.(r_consumedAt); v_version := num_val input.(r_version) |}
  | _, _ => Err (invalid "verification challenge state is invalid" "verification.invalid_state")
  end.

(** @src src/modules/identity/domain/verification-challenge.ts:189-222 getters *)
Definition row (v : Challenge) : Row :=
  mkRow v.(v_id) v.(v_identityId) (purposeName v.(v_purpose)) (statusName v.(v_status))
    (copyDate v.(v_issuedAt)) (copyDate v.(v_expiresAt)) (copyDateOpt v.(v_consumedAt))
    (Int v.(v_version)).

(** @src src/modules/identity/domain/verification-challenge.ts:225-227 saved *)
Definition saved (v : Challenge) : Challenge :=
  mkChallenge v.(v_id) v.(v_identityId) v.(v_purpose) v.(v_status) v.(v_issuedAt)
    v.(v_expiresAt) v.(v_consumedAt) (v.(v_version) + 1).

(** @src src/modules/identity/domain/verification-challenge.ts:229-272 consume *)
Definition consume (v : Challenge) (at_ : Date) : Res Challenge :=
  if negb (validDate at_) then
    Err (invalid "verification consumption time must be valid" "verification.invalid_consumption_time")
  else if date_lt at_ v.(v_issuedAt) then
    Err (invalid "verification consumption cannot precede issuance" "verification.non_monotonic_time")
  else if bool_decide (v.(v_status) = consumed) then
    Err (invalid "verification challenge is already consumed" "verification.already_consumed")
  else if date_le v.(v_expiresAt) at_ then
    Err (invalid "verification challenge has expired" "verification.expired")
  else
    let consumedAt := copyDate at_ in
    Ok (mkChallenge v.(v_id) v.(v_identityId) v.(v_purpose) consumed v.(v_issuedAt)
          v.(v_expiresAt) (Some consumedAt) v.(v_version)).

Inductive reachable : Challenge -> Prop :=
| reach_issue c v : issue c = Ok v -> reachable v
| reach_restore r v : restore r = Ok v -> reachable v
| reach_saved v : reachable v -> reachable (saved v)
| reach_consume v t v' : reachable v -> consume v t = Ok v' -> reachable v'.

Record wf (v : Challenge) : Prop := mkWf {
  wf_issued : validDate v.(v_issuedAt) = true;
  wf_expires : validDate v.(v_expiresAt) = true;
  wf_consumed : badDateOpt v.(v_consumedAt) = false;
  wf_expiry : date_le v.(v_expiresAt) v.(v_issuedAt) = false;
  wf_coherent : incoherent v.(v_status) v.(v_issuedAt) v.(v_expiresAt) v.(v_consumedAt) = false
}.

Lemma challenge_names p s : parsePurpose (purposeName p) = Some p /\ parseStatus (statusName s) = Some s.
Proof. by destruct p, s. Qed.

Lemma challenge_issue_wf c v : issue c = Ok v -> wf v.
Proof.
  unfold issue. intros H. ok_branches H. breflect.
  rewrite !copyDate_valid by done. by constructor.
Qed.

Lemma challenge_restore_wf r v : restore r = Ok v -> wf v.
Proof.
  unfold restore. intros H. destruct (parsePurpose _); [|done].
  destruct (parseStatus _) as [st|]; [|done]. ok_branches H. breflect.
  rewrite !copyDate_valid, !copyDateOpt_valid by done. by constructor.
Qed.

Lemma challenge_consume_wf v t v' : wf v -> consume v t = Ok v' -> wf v'.
Proof.
  intros [] H. unfold consume in H. ok_branches H. breflect. rewrite !copyDate_valid by done.
  constructor; auto; cbn; [by rewrite E|]. unfold incoherent. cbn. by rewrite E0, E2.
Qed.

Lemma challenge_reachable_wf v : reachable v -> wf v.
Proof.
  induction 1; [by eapply challenge_issue_wf|by eapply challenge_restore_wf|
    by destruct IHreachable|by eapply challenge_consume_wf].
Qed.

Lemma challenge_wf_restore v :
  wf v -> FIRST <= v.(v_version) <= MAX_SAFE_INTEGER -> restore (row v) = Ok v.
Proof.
  intros [] Hv. unfold restore, row.
  cbn [r_id r_identityId r_purpose r_status r_issuedAt r_expiresAt r_consumedAt r_version].
  destruct (challenge_names (v_purpose v) (v_status v)) as [-> ->].
  rewrite !copyDate_valid, !copyDateOpt_valid by (rewrite ?copyDate_valid; done).
  rewrite wf_issued0, wf_expires0, wf_consumed0, wf_expiry0, wf_coherent0, stored_version by done.
  by destruct v.
Qed.

(** One use, in time. A challenge is consumed exactly when it was issued
    and not consumed and the time lies in its validity window, from issuance up
    to but excluding expiry; consuming it records that time and makes every
    later consumption fail, whatever its time. Nothing but the status and the
    consumption time changes. *)
Theorem challenge_single_use (v : Challenge) (t : Z)
    (Hwf : wf v) (Ht : validDate (DateAt t) = true) :
  (isOk (consume v (DateAt t)) = true
     <-> v.(v_status) = issued /\ getTime v.(v_issuedAt) <= t < getTime v.(v_expiresAt))
  /\ (forall v', consume v (DateAt t) = Ok v' ->
        v'.(v_status) = consumed /\ v'.(v_consumedAt) = Some (DateAt t)
        /\ row v' = row (mkChallenge v.(v_id) v.(v_identityId) v.(v_purpose) v'.(v_status)
                           v.(v_issuedAt) v.(v_expiresAt) v'.(v_consumedAt) v.(v_version))
        /\ forall t', isOk (consume v' t') = false).
Proof.
  destruct Hwf. split.
  - unfold consume. rewrite Ht. cbn [negb].
    destruct (v_issuedAt v) as [|a], (v_expiresAt v) as [|b]; try done. cbn [date_lt date_le getTime].
    destruct (t <? a) eqn:E1; breflect; [cbn; split; [done|lia]|].
    destruct (v_status v); cbn; [|naive_solver].
    destruct (b <=? t) eqn:E2; breflect; cbn; split; auto; try done; lia.
  - intros v' H. unfold consume in H. ok_branches H.
    change (newDate t) with (copyDate (DateAt t)). rewrite copyDate_valid by done.
    split_and!; try done. intros t'. unfold consume. cbn [v_status v_issuedAt].
    rewrite bool_decide_eq_true_2 by done. destruct (negb (validDate t')); [done|].
    by destruct (date_lt t' _).
Qed.

Lemma challenge_single_use_witness :
  let v := mkChallenge (js "v1") (js "i1") email_verification issued (DateAt 10) (DateAt 20) None 1 in
  isOk (consume v (DateAt 19)) = true /\ isOk (consume v (DateAt 20)) = false.
Proof.
  intros v. assert (Hw : wf v) by (constructor; vm_compute; reflexivity). split.
  - apply (challenge_single_use v 19 Hw eq_refl). vm_compute. done.
  - apply not_true_iff_false. rewrite (proj1 (challenge_single_use v 20 Hw eq_refl)).
    intros [_ [_ H]]. vm_compute in H. discriminate H.
Defined.

End Challenge.

(** ** Credentials: [credential.ts]. *)
Module Credential.

(** @src src/modules/identity/domain/credential.ts:10-12 CredentialMethod *)
Inductive Method : Type := email_password.

(** @src src/modules/identity/domain/credential.ts:14-19 CredentialStatus *)
Inductive Status : Type := active | revoked.

#[export] Instance Status_eq_dec : EqDecision Status.
Proof. solve_decision. Defined.

Definition methodName (m : Method) : string := match m with email_password => "email_password" end.
Definition statusName (s : Status) : string :=
  match s with active => "active" | revoked => "revoked" end.

(** @src src/modules/identity/domain/credential.ts:10-10 CREDENTIAL_METHODS *)
Definition parseMethod (s : string) : option Method :=
  find_first (fun x => String.eqb (methodName x) s) [email_password].

(** @src src/modules/identity/domain/credential.ts:14-17 CREDENTIAL_STATUSES *)
Definition parseStatus (s : string) : option Status :=
  find_first (fun x => String.eqb (statusName x) s) [active; revoked].

(** @src src/modules/identity/domain/credential.ts:39-44 CreateEmailPasswordCredentialInput *)
Record CreateInput : Type := mkCreate {
  i_id : ID; i_identityId : ID; i_email : JsValue; i_createdAt : Date
}.

(** @src src/modules/identity/domain/credential.ts:46-55 RestoreCredentialInput *)
Record Row : Type := mkRow {
  r_id : ID; r_identityId : ID; r_method : string; r_email : JsValue; r_status : string;
  r_createdAt : Date; r_updatedAt : Date; r_revokedAt : option Date
}.

(** @src src/modules/identity/domain/credential.ts:57-66 CredentialState *)
Record Credential : Type := mkCredential {
  c_id : ID; c_identityId : ID; c_method : Method; c_email : jstring; c_status : Status;
  c_createdAt : Date; c_updatedAt : Date; c_revokedAt : option Date
}.

(** [[^\s@]]. *)
Definition isAddressChar (c : Z) : bool := negb (isSpace c) && negb (c =? 64).

(** The text up to the first unit [p] accepts, and the text after it. *)
Fixpoint splitAt (p : Z -> bool) (s : jstring) : option (jstring * jstring) :=
  match s with
  | [] => None
  | c :: s' =>
      if p c then Some ([], s')
      else match splitAt p s' with Some (a, b) => Some (c :: a, b) | None => None end
  end.

(** A dot with at least one character on each side: for a text without white
    space and [@], the match of [[^\s@]+\.[^\s@]+]. *)
Definition dotted (s : jstring) : bool :=
  match s with
  | [] => false
  | _ :: s' => match splitAt (fun c => c =? 46) s' with Some (_, _ :: _) => true | _ => false end
  end.

(** @src src/modules/identity/domain/credential.ts:68-68 emailPattern
    The pattern admits one [@]: the text before it is not empty, the text after
    it is dotted, and no character of either is white space or another [@]. *)
Definition emailPattern (s : jstring) : bool :=
  match splitAt (fun c => c =? 64) s with
  | Some (local, domain) =>
      negb (jlength local =? 0) && forallb isAddressChar local
      && forallb isAddressChar domain && dotted domain
  | None => false
  end.

(** @src src/modules/identity/domain/credential.ts:78-83 invalid *)
Definition invalid (message type : string) : Failure :=
  typedFailure invalid type message noOptions.

Section Email.
  Context `{CaseFolding}.

(** @src src/modules/identity/domain/credential.ts:85-105 normalizeEmail *)
Definition normalizeEmail (input : JsValue) : Res jstring :=
  match input with
  | VStr s =>
      let normalized := toLowerCase (trim s) in
      if (jlength normalized =? 0) || (254 <? jlength normalized) || negb (emailPattern normalized)
      then Err (invalid "email must be a valid address" "credential.invalid_email")
      else Ok normalized
  | _ => Err (invalid "email must be a string" "credential.invalid_email")
  end.

(** @src src/modules/identity/domain/credential.ts:112-144 createEmailPassword *)
Definition createEmailPassword (input : CreateInput) : Res Credential :=
  if negb (validDate input.(i_createdAt)) then
    Err (invalid "credential creation time must be valid" "credential.invalid_created_at")
  else
    email ← normalizeEmail input.(i_email);
    let createdAt := copyDate input.(i_createdAt) in
    Ok {| c_id := input.(i_id); c_identityId := input.(i_identityId); c_method := email_password;
          c_email := email; c_status := active; c_createdAt := createdAt;
          c_updatedAt := copyDate createdAt; c_revokedAt := None |}.

(** @src src/modules/identity/domain/credential.ts:146-197 restore *)
Definition restore (input : Row) : Res Credential :=
  match parseMethod input.(r_method), parseStatus input.(r_status) with
  | Some method, Some status =>
    if negb (validDate input.(r_createdAt)) || negb (validDate input.(r_updatedAt))
       || badDateOpt input.(r_revokedAt) then
      Err (invalid "credential state is invalid" "credential.invalid_state")
    else
      email ← normalizeEmail input.(r_email);
      if date_lt input.(r_updatedAt) input.(r_createdAt) then
        Err (invalid "credential update time cannot precede creation" "credential.non_monotonic_time")
      else if (bool_decide (status = active) && negb (isNull input.(r_revokedAt)))
              || (bool_decide (status = revoked) && isNull input.(r_revokedAt)) then
        Err (invalid "credential revocation state is invalid" "credential.invalid_state")
      else
        Ok {| c_id := input.(r_id); c_identityId := input.(r_identityId); c_method := method;
              c_email := email; c_status := status; c_createdAt := copyDate input.(r_createdAt);
              c_updatedAt := copyDate input.(r_updatedAt);
              c_revokedAt := copyDateOpt input.(r_revokedAt) |}
  | _, _ => Err (invalid "credential state is invalid" "credential.invalid_state")
  end.
End Email.

(** @src src/modules/identity/domain/credential.ts:199-231 getters *)
Definition row (c : Credential) : Row :=
  mkRow c.(c_id) c.(c_identityId) (methodName c.(c_method)) (VStr c.(c_email))
    (statusName c.(c_status)) (copyDate c.(c_createdAt)) (copyDate c.(c_updatedAt))
    (copyDateOpt c.(c_revokedAt)).

(** @src src/modules/identity/domain/credential.ts:233-268 revoke *)
Definition revoke (c : Credential) (at_ : Date) : Res Credential :=
  if negb (validDate at_) then
    Err (invalid "credential revocation time must be valid" "credential.invalid_revocation_time")
  else if date_lt at_ c.(c_updatedAt) then
    Err (invalid "credential transition time cannot move backwards" "credential.non_monotonic_time")
  else if bool_decide (c.(c_status) = revoked) then
    Err (invalid "credential is already revoked" "credential.already_revoked")
  else
    let revokedAt := copyDate at_ in
    Ok (mkCredential c.(c_id) c.(c_identityId) c.(c_method) c.(c_email) revoked c.(c_createdAt)
          (copyDate revokedAt) (Some (copyDate revokedAt))).

(** @src src/modules/identity/domain/credential.ts:276-297 changeSecret *)
Definition changeSecret (c : Credential) (at_ : Date) : Res Credential :=
  if negb (validDate at_) then
    Err (invalid "credential change time must be valid" "credential.invalid_change_time")
  else if date_le at_ c.(c_updatedAt) then
    Err (invalid "credential transition time cannot move backwards" "credential.non_monotonic_time")
  else if bool_decide (c.(c_status) = revoked) then
    Err (invalid "credential is revoked" "credential.revoked")
  else
    Ok (mkCredential c.(c_id) c.(c_identityId) c.(c_method) c.(c_email) c.(c_status)
          c.(c_createdAt) (copyDate at_) c.(c_revokedAt)).

Section Facts.
  Context `{CaseFolding}.

Inductive reachable : Credential -> Prop :=
| reach_create i c : createEmailPassword i = Ok c -> reachable c
| reach_restore r c : restore r = Ok c -> reachable c
| reach_revoke c t c' : reachable c -> revoke c t = Ok c' -> reachable c'
| reach_change c t c' : reachable c -> changeSecret c t = Ok c' -> reachable c'.

Record wf (c : Credential) : Prop := mkWf {
  wf_email : normalizeEmail (VStr c.(c_email)) = Ok c.(c_email);
  wf_created : validDate c.(c_createdAt) = true;
  wf_updated : validDate c.(c_updatedAt) = true;
  wf_revoked : badDateOpt c.(c_revokedAt) = false;
  wf_order : date_lt c.(c_updatedAt) c.(c_createdAt) = false;
  wf_coherent : isNull c.(c_revokedAt) = bool_decide (c.(c_status) = active)
}.

Lemma credential_names m s : parseMethod (methodName m) = Some m /\ parseStatus (statusName s) = Some s.
Proof. by destruct m, s. Qed.

(** Normalizing a normalized address changes nothing. *)
Lemma normalizeEmail_idemp v e : normalizeEmail v = Ok e -> normalizeEmail (VStr e) = Ok e.
Proof.
  destruct v; try done. unfold normalizeEmail. destruct (_ || _) eqn:E; [done|]. intros [= <-].
  rewrite toLowerCase_trim, toLowerCase_idemp by apply trim_idemp. by rewrite E.
Qed.

Lemma credential_create_wf i c : createEmailPassword i = Ok c -> wf c.
Proof.
  unfold createEmailPassword. intros Hc. ok_branches Hc. breflect.
  rewrite !copyDate_valid by (by rewrite ?validDate_copy).
  constructor; cbn [c_email c_createdAt c_updatedAt c_revokedAt c_status]; eauto using normalizeEmail_idemp with n2f.
Qed.

Lemma credential_restore_wf r c : restore r = Ok c -> wf c.
Proof.
  unfold restore. intros Hc. destruct (parseMethod _); [|done]. destruct (parseStatus _) as [st|]; [|done].
  ok_branches Hc. breflect. rewrite !copyDate_valid, !copyDateOpt_valid by done.
  constructor; cbn [c_email c_createdAt c_updatedAt c_revokedAt c_status]; eauto using normalizeEmail_idemp.
  destruct st, (r_revokedAt r); done.
Qed.

Lemma credential_revoke_wf c t c' : wf c -> revoke c t = Ok c' -> wf c'.
Proof.
  intros [] Hc. unfold revoke in Hc. ok_branches Hc. breflect.
  rewrite !copyDate_valid by (by rewrite ?validDate_copy).
  constructor; cbn [c_email c_createdAt c_updatedAt c_revokedAt c_status]; auto;
    [cbn; by rewrite E|eauto using date_le_trans with n2f].
Qed.

Lemma credential_change_wf c t c' : wf c -> changeSecret c t = Ok c' -> wf c'.
Proof.
  intros [] Hc. unfold changeSecret in Hc. ok_branches Hc. breflect. rewrite !copyDate_valid by done.
  constructor; cbn [c_email c_createdAt c_updatedAt c_revokedAt c_status]; auto.
  eauto using date_le_trans, not_date_le with n2f.
Qed.

Lemma credential_reachable_wf c : reachable c -> wf c.
Proof.
  induction 1; [by eapply credential_create_wf|by eapply credential_restore_wf|
    by eapply credential_revoke_wf|by eapply credential_change_wf].
Qed.

Lemma credential_wf_restore c : wf c -> restore (row c) = Ok c.
Proof.
  intros []. unfold restore, row.
  cbn [r_id r_identityId r_method r_email r_status r_createdAt r_updatedAt r_revokedAt].
  destruct (credential_names (c_method c) (c_status c)) as [-> ->].
  rewrite !copyDate_valid, !copyDateOpt_valid by (rewrite ?copyDate_valid; done).
  rewrite wf_email0. cbn [mbind Result_bind].
  rewrite wf_created0, wf_updated0, wf_revoked0, wf_order0.
  destruct c as [? ? ? ? st ? ? rv]; cbn in *. by destruct st, rv.
Qed.

(** The addresses the pattern describes. *)
Definition address (s : jstring) : Prop :=
  exists local a b,
    s = local ++ [64] ++ a ++ [46] ++ b
    /\ local <> [] /\ a <> [] /\ b <> []
    /\ Forall (fun c => isSpace c = false /\ c <> 64) (local ++ a ++ b).

Lemma splitAt_some p s a b :
  splitAt p s = Some (a, b) ->
  exists c, s = a ++ c :: b /\ p c = true /\ Forall (fun x => p x = false) a.
Proof.
  revert a b; induction s as [|x s IH]; intros a b; cbn; [done|].
  destruct (p x) eqn:Ep; [intros [= <- <-]; by exists x|].
  destruct (splitAt p s) as [[a' b']|]; [|done]. intros [= <- <-].
  destruct (IH _ _ eq_refl) as (c & -> & Hc & Ha). exists c. split_and!; [done..|by constructor].
Qed.

Lemma splitAt_first p a c b :
  p c = true -> Forall (fun x => p x = false) a -> splitAt p (a ++ c :: b) = Some (a, b).
Proof.
  intros Hc. induction 1 as [|x a Hx Ha IH]; cbn; [by rewrite Hc|]. by rewrite Hx, IH.
Qed.

Lemma addressChars s :
  forallb isAddressChar s = true <-> Forall (fun c => isSpace c = false /\ c <> 64) s.
Proof.
  rewrite forallb_forall, Forall_forall. setoid_rewrite list_elem_of_In.
  unfold isAddressChar. setoid_rewrite andb_true_iff. setoid_rewrite negb_true_iff.
  setoid_rewrite Z.eqb_neq. done.
Qed.

Lemma dotted_spec s : dotted s = true <-> exists a b, s = a ++ [46] ++ b /\ a <> [] /\ b <> [].
Proof.
  split.
  - destruct s as [|x s]; [done|]. cbn.
    destruct (splitAt _ s) as [[a [|y b]]|] eqn:E; try done. intros _.
    apply splitAt_some in E as (c & -> & ->%Z.eqb_eq & _). by exists (x :: a), (y :: b).
  - intros (a & b & -> & Ha & Hb). destruct a as [|x a]; [done|]. cbn. clear Ha.
    induction a as [|y a IH]; cbn.
    + by destruct b.
    + destruct (y =? 46); [by destruct a|]. destruct (splitAt _ _) as [[u v]|]; [|done].
      by destruct v.
Qed.

Lemma emailPattern_address s : emailPattern s = true <-> address s.
Proof.
  unfold emailPattern, address. split.
  - destruct (splitAt _ s) as [[local domain]|] eqn:E; [|done].
    apply splitAt_some in E as (c & -> & ->%Z.eqb_eq & _).
    rewrite !andb_true_iff, negb_true_iff, Z.eqb_neq, dotted_spec, !addressChars.
    intros [[[Hl Hlc] Hd] (a & b & -> & Ha & Hb)]. exists local, a, b.
    rewrite !Forall_app in *. split_and!; try done; [by intros ->|naive_solver..].
  - intros (local & a & b & -> & Hl & Ha & Hb & Hc). rewrite !Forall_app in Hc.
    destruct Hc as (Hcl & Hca & Hcb).
    change (local ++ [64] ++ a ++ [46] ++ b) with (local ++ 64 :: (a ++ [46] ++ b)).
    rewrite splitAt_first; [|done|].
    + rewrite !andb_true_iff, negb_true_iff, Z.eqb_neq, dotted_spec, !addressChars. split_and!.
      * by destruct local.
      * done.
      * rewrite !Forall_app. split_and!; [done| |done]. by repeat constructor.
      * eauto.
    + eapply Forall_impl; [exact Hcl|]. cbn. intros c [_ ?]. by apply Z.eqb_neq.
Qed.

(** Which addresses a credential accepts. Normalization succeeds exactly
    when the trimmed, lower-cased text has at most 254 code units and the form
    local@domain with a dotted domain and no white space or second [@]; the
    answer is that text, and normalizing it again changes nothing, so stored
    addresses compare equal exactly when their normal forms do. *)
Lemma normalizeEmail_spec (s : jstring) :
  let e := toLowerCase (trim s) in
  (isOk (normalizeEmail (VStr s)) = true <-> (jlength e <= 254 /\ address e))
  /\ (forall e', normalizeEmail (VStr s) = Ok e' -> e' = e /\ normalizeEmail (VStr e') = Ok e').
Proof.
  intros e. split.
  - rewrite <- emailPattern_address. unfold normalizeEmail. fold e.
    destruct (emailPattern e) eqn:Ep; cbn [negb].
    + assert (jlength e <> 0) as Hz by (by destruct e).
      apply Z.eqb_neq in Hz. rewrite Hz. cbn [orb]. rewrite orb_false_r.
      destruct (254 <? jlength e) eqn:E; breflect; cbn; split; try done; lia.
    + rewrite orb_true_r. cbn. naive_solver.
  - intros e' He. split; [|by eapply normalizeEmail_idemp].
    unfold normalizeEmail in He. fold e in He. destruct (_ || _); [done|]. by injection He.
Qed.

(** Later states of a credential; the flag tells whether its secret changed. *)
Inductive path : bool -> Credential -> Credential -> Prop :=
| path_refl c : path false c c
| path_revoke b c d t e : path b c d -> revoke d t = Ok e -> path b c e
| path_change b c d t e : path b c d -> changeSecret d t = Ok e -> path true c e.

(** The update time detects secret changes. However a credential evolves,
    its update time never moves backwards, and it is strictly later once a
    secret was changed: a writer that compares the update time it loaded
    cannot mistake a changed credential for the one it read. *)
Theorem credential_secret_token (b : bool) (c d : Credential)
    (Hwf : wf c) (Hpath : path b c d) :
  date_le c.(c_updatedAt) d.(c_updatedAt) = true
  /\ (b = true -> date_lt c.(c_updatedAt) d.(c_updatedAt) = true).
Proof.
  assert (wf d /\ date_le c.(c_updatedAt) d.(c_updatedAt) = true
    /\ (b = true -> date_lt c.(c_updatedAt) d.(c_updatedAt) = true)); [|naive_solver].
  induction Hpath as [c|b c d t e Hp IH He|b c d t e Hp IH He].
  - destruct Hwf. split_and!; [by constructor|auto with n2f|done].
  - destruct IH as (Hd & Hle & Hlt); [done|]. split; [by eapply credential_revoke_wf|].
    destruct Hd. unfold revoke in He. ok_branches He. breflect.
    cbn [c_updatedAt]. rewrite !copyDate_valid by (by rewrite ?validDate_copy).
    pose proof (not_date_lt _ _ E wf_updated0 E0) as Hle'.
    split; [eauto using date_le_trans|]. intros Hb. eauto using date_lt_le_trans.
  - destruct IH as (Hd & Hle & _); [done|]. split; [by eapply credential_change_wf|].
    destruct Hd. unfold changeSecret in He. ok_branches He. breflect.
    cbn [c_updatedAt]. rewrite !copyDate_valid by done.
    assert (date_lt (c_updatedAt c) t = true) by eauto using date_le_lt_trans, not_date_le_lt.
    split; [by apply date_lt_le|done].
Qed.
End Facts.

Lemma credential_secret_token_witness :
  let c := mkCredential (js "c1") (js "i1") email_password (js "ada@example.org") active
             (DateAt 10) (DateAt 20) None in
  date_lt (DateAt 20) (DateAt 30) = true.
Proof.
  intros c.
  apply (proj2 (@credential_secret_token asciiFolding true c
    (mkCredential (js "c1") (js "i1") email_password (js "ada@example.org") revoked
       (DateAt 10) (DateAt 30) (Some (DateAt 30)))
    ltac:(constructor; vm_compute; reflexivity)
    (path_revoke _ _ (mkCredential (js "c1") (js "i1") email_password (js "ada@example.org") active
       (DateAt 10) (DateAt 25) None) (DateAt 30) _
       (path_change false c c (DateAt 25) _ (path_refl c) ltac:(vm_compute; reflexivity))
       ltac:(vm_compute; reflexivity))) eq_refl).
Defined.
End Credential.

(** ** Storage round trips of the module. *)

(** The version a stored row may carry. *)
Definition storedVersion (v : Z) : Prop := FIRST <= v <= MAX_SAFE_INTEGER.

(** Every aggregate of the module survives storage: whatever constructors
    and transitions built it, the row its accessors show is one [restore]
    accepts, and the restored aggregate is the same. *)
Theorem identity_rows_restore `{CaseFolding} :
  (forall i, Identity.reachable i -> storedVersion i.(Identity.i_version) ->
     Identity.restore (Identity.row i) = Ok i)
  /\ (forall s, Session.reachable s -> storedVersion s.(Session.s_version) ->
        Session.restore (Session.row s) = Ok s)
  /\ (forall v, Challenge.reachable v -> storedVersion v.(Challenge.v_version) ->
        Challenge.restore (Challenge.row v) = Ok v)
  /\ (forall c, Credential.reachable c -> Credential.restore (Credential.row c) = Ok c).
Proof.
  split_and!; intros.
  - apply Identity.identity_wf_restore; auto using Identity.identity_reachable_wf.
  - apply Session.session_wf_restore; auto using Session.session_reachable_wf.
  - apply Challenge.challenge_wf_restore; auto using Challenge.challenge_reachable_wf.
  - apply Credential.credential_wf_restore; auto using Credential.credential_reachable_wf.
Qed.

Lemma identity_rows_restore_witness :
  Identity.restore (Identity.row (Identity.mkIdentity (js "i1") Identity.active (DateAt 1) (DateAt 5)
    (Some (DateAt 5)) 1))
  = Ok (Identity.mkIdentity (js "i1") Identity.active (DateAt 1) (DateAt 5) (Some (DateAt 5)) 1).
Proof.
  apply (proj1 (@identity_rows_restore asciiFolding)); [|vm_compute; split; discriminate].
  apply (Identity.reach_step (Identity.mkIdentity (js "i1") Identity.pending_verification (DateAt 1)
    (DateAt 1) None 1)); [|apply (Identity.step_verify _ (DateAt 5)); vm_compute; reflexivity].
  apply (Identity.reach_saved (Identity.mkIdentity (js "i1") Identity.pending_verification (DateAt 1)
    (DateAt 1) None 0)).
  apply (Identity.reach_register (js "i1") (DateAt 1)). vm_compute. reflexivity.
Defined.
