(* ===== verification/OrganizationDomain.v ===== *)
(** * The aggregates of the organization module: [modules/organization/domain].

    [Organization] (a tenant), [Membership] (an identity's role in it) and
    [Invitation] (an offer of membership with an expiry). *)
From S2P Require Import Prelude JsMap Errors Ids CaseFolding.

(** [LIST.includes(value)] on a list of named constants. *)
Definition includes {A} (nameOf : A -> string) (all : list A) (value : JsValue) : option A :=
  match value with
  | VStr s => find_first (fun x => bool_decide (js (nameOf x) = s)) all
  | _ => None
  end.

Lemma includes_some {A} (nameOf : A -> string) all v x :
  includes nameOf all v = Some x -> v = VStr (js (nameOf x)).
Proof.
  destruct v; try done. cbn. unfold find_first. intros [_ H]%List.find_some.
  by apply bool_decide_eq_true in H as ->.
Qed.

(** ** Organizations: [organization.ts]. *)
Module Organization.

(** @src src/modules/organization/domain/organization.ts:15-21 OrganizationStatus *)
Inductive Status : Type := active | suspended | archived.

#[export] Instance Status_eq_dec : EqDecision Status.
Proof. solve_decision. Defined.

Definition statusName (s : Status) : string :=
  match s with active => "active" | suspended => "suspended" | archived => "archived" end.

(** @src src/modules/organization/domain/organization.ts:15-19 ORGANIZATION_STATUSES *)
Definition parseStatus (s : string) : option Status :=
  find_first (fun x => String.eqb (statusName x) s) [active; suspended; archived].

(** @src src/modules/organization/domain/organization.ts:40-45 CreateOrganizationInput *)
Record CreateInput : Type := mkCreate {
  c_id : ID; c_name : JsValue; c_slug : JsValue; c_createdAt : Date
}.

(** @src src/modules/organization/domain/organization.ts:47-55 RestoreOrganizationInput *)
Record Row : Type := mkRow {
  r_id : ID; r_name : JsValue; r_slug : JsValue; r_status : string; r_createdAt : Date;
  r_updatedAt : Date; r_version : num
}.

(** @src src/modules/organization/domain/organization.ts:57-65 OrganizationState *)
Record Organization : Type := mkOrganization {
  o_id : ID; o_name : jstring; o_slug : jstring; o_status : Status; o_createdAt : Date;
  o_updatedAt : Date; o_version : Z
}.

(** @src src/modules/organization/domain/organization.ts:67-69 MAX_NAME_LENGTH, MAX_SLUG_LENGTH *)
Definition MAX_NAME_LENGTH : Z := 160.
Definition MAX_SLUG_LENGTH : Z := 63.

(** [/^[a-z][a-z0-9-]{0,62}$/.test(s)]. *)
Definition slugPattern (s : jstring) : bool :=
  match s with
  | c :: rest =>
      isLower c && forallb (fun x => isLower x || isDigit x || (x =? 45)) rest
      && Nat.leb (length rest) 62
  | [] => false
  end.

(** @src src/modules/organization/domain/organization.ts:79-84 invalid *)
Definition invalid (message type : string) : Failure :=
  typedFailure invalid type message noOptions.

(** @src src/modules/organization/domain/organization.ts:86-104 nameOf *)
Definition nameOf (input : JsValue) : Res jstring :=
  match input with
  | VStr s =>
      let name := trim s in
      if (jlength name =? 0) || (MAX_NAME_LENGTH <? jlength name)
      then Err (invalid "organization name is invalid" "organization.invalid_name")
      else Ok name
  | _ => Err (invalid "organization name must be a string" "organization.invalid_name")
  end.

Section Slug.
  Context `{CaseFolding}.

(** @src src/modules/organization/domain/organization.ts:106-124 slugOf *)
Definition slugOf (input : JsValue) : Res jstring :=
  match input with
  | VStr s =>
      let slug := toLowerCase (trim s) in
      if (MAX_SLUG_LENGTH <? jlength slug) || negb (slugPattern slug)
      then Err (invalid "organization slug is invalid" "organization.invalid_slug")
      else Ok slug
  | _ => Err (invalid "organization slug must be a string" "organization.invalid_slug")
  end.

(** @src src/modules/organization/domain/organization.ts:131-161 create *)
Definition create (input : CreateInput) : Res Organization :=
  if negb (validDate input.(c_createdAt)) then
    Err (invalid "organization creation time must be valid" "organization.invalid_created_at")
  else
    name ← nameOf input.(c_name);
    slug ← slugOf input.(c_slug);
    let createdAt := copyDate input.(c_createdAt) in
    Ok (mkOrganization input.(c_id) name slug active createdAt (copyDate createdAt) UNSAVED).

(** @src src/modules/organization/domain/organization.ts:163-203 restore *)
Definition restore (input : Row) : Res Organization :=
  match parseStatus input.(r_status) with
  | None => Err (invalid "organization state is invalid" "organization.invalid_state")
  | Some status =>
    if negb (validDate input.(r_createdAt)) || negb (validDate input.(r_updatedAt))
       || negb (isStoredVersion input.(r_version)) then
      Err (invalid "organization state is invalid" "organization.invalid_state")
    else if date_lt input.(r_updatedAt) input.(r_createdAt) then
      Err (invalid "organization update time cannot precede creation" "organization.non_monotonic_time")
    else
      name ← nameOf input.(r_name);
      slug ← slugOf input.(r_slug);
      Ok (mkOrganization input.(r_id) name slug status (copyDate input.(r_createdAt))
            (copyDate input.(r_updatedAt)) (num_val input.(r_version)))
  end.
End Slug.

(** @src src/modules/organization/domain/organization.ts:205-232 getters *)
Definition row (o : Organization) : Row :=
  mkRow o.(o_id) (VStr o.(o_name)) (VStr o.(o_slug)) (statusName o.(o_status))
    (copyDate o.(o_createdAt)) (copyDate o.(o_updatedAt)) (Int o.(o_version)).

(** @src src/modules/organization/domain/organization.ts:234-237 saved *)
Definition saved (o : Organization) : Organization :=
  mkOrganization o.(o_id) o.(o_name) o.(o_slug) o.(o_status) o.(o_createdAt) o.(o_updatedAt)
    (o.(o_version) + 1).

(** @src src/modules/organization/domain/organization.ts:306-326 transitionTime *)
Definition transitionTime (o : Organization) (at_ : Date) : Res Date :=
  if negb (validDate at_) then
    Err (invalid "organization transition time must be valid" "organization.invalid_transition_time")
  else if date_lt at_ o.(o_updatedAt) then
    Err (invalid "organization transition time cannot move backwards" "organization.non_monotonic_time")
  else Ok (copyDate at_).

(** @src src/modules/organization/domain/organization.ts:328-338 evolve
    No transition patches the slug. *)
Definition evolve (o : Organization) (name : jstring) (status : Status) (updatedAt : Date)
    : Organization :=
  mkOrganization o.(o_id) name o.(o_slug) status (copyDate o.(o_createdAt)) (copyDate updatedAt)
    o.(o_version).

(** @src src/modules/organization/domain/organization.ts:239-259 rename *)
Definition rename (o : Organization) (nameInput : JsValue) (at_ : Date) : Res Organization :=
  time ← transitionTime o at_;
  if bool_decide (o.(o_status) = archived) then
    Err (invalid "archived organizations cannot be renamed" "organization.archived")
  else
    name ← nameOf nameInput;
    Ok (evolve o name o.(o_status) time).

(** @src src/modules/organization/domain/organization.ts:261-274 suspend *)
Definition suspend (o : Organization) (at_ : Date) : Res Organization :=
  time ← transitionTime o at_;
  if negb (bool_decide (o.(o_status) = active)) then
    Err (invalid "only active organizations can be suspended" "organization.invalid_suspension")
  else Ok (evolve o o.(o_name) suspended time).

(** @src src/modules/organization/domain/organization.ts:276-289 reactivate *)
Definition reactivate (o : Organization) (at_ : Date) : Res Organization :=
  time ← transitionTime o at_;
  if negb (bool_decide (o.(o_status) = suspended)) then
    Err (invalid "only suspended organizations can be reactivated" "organization.invalid_reactivation")
  else Ok (evolve o o.(o_name) active time).

(** @src src/modules/organization/domain/organization.ts:291-304 archive *)
Definition archive (o : Organization) (at_ : Date) : Res Organization :=
  time ← transitionTime o at_;
  if bool_decide (o.(o_status) = archived) then
    Err (invalid "organization is already archived" "organization.already_archived")
  else Ok (evolve o o.(o_name) archived time).

Inductive step : Organization -> Organization -> Prop :=
| step_rename o n t o' : rename o n t = Ok o' -> step o o'
| step_suspend o t o' : suspend o t = Ok o' -> step o o'
| step_reactivate o t o' : reactivate o t = Ok o' -> step o o'
| step_archive o t o' : archive o t = Ok o' -> step o o'.

Section Facts.
  Context `{CaseFolding}.

Inductive reachable : Organization -> Prop :=
| reach_create c o : create c = Ok o -> reachable o
| reach_restore r o : restore r = Ok o -> reachable o
| reach_saved o : reachable o -> reachable (saved o)
| reach_step o o' : reachable o -> step o o' -> reachable o'.

Record wf (o : Organization) : Prop := mkWf {
  wf_name : nameOf (VStr o.(o_name)) = Ok o.(o_name);
  wf_slug : slugOf (VStr o.(o_slug)) = Ok o.(o_slug);
  wf_created : validDate o.(o_createdAt) = true;
  wf_updated : validDate o.(o_updatedAt) = true;
  wf_order : date_lt o.(o_updatedAt) o.(o_createdAt) = false
}.

Lemma organization_parseStatus_name s : parseStatus (statusName s) = Some s.
Proof. by destruct s. Qed.

Lemma nameOf_idemp v n : nameOf v = Ok n -> nameOf (VStr n) = Ok n.
Proof.
  destruct v; try done. unfold nameOf. destruct (_ || _) eqn:E; [done|].
  intros [= <-]. by rewrite trim_idemp, E.
Qed.

Lemma slugOf_idemp v n : slugOf v = Ok n -> slugOf (VStr n) = Ok n.
Proof.
  destruct v; try done. unfold slugOf. destruct (_ || _) eqn:E; [done|].
  intros [= <-]. by rewrite toLowerCase_trim, toLowerCase_idemp, E by apply trim_idemp.
Qed.

Lemma organization_time_ok o t x :
  transitionTime o t = Ok x -> x = t /\ validDate t = true /\ date_lt t o.(o_updatedAt) = false.
Proof. unfold transitionTime. intros E. ok_branches E. breflect. by rewrite copyDate_valid. Qed.

(** Every transition is an [evolve] at a valid, later time. *)
Lemma organization_step_evolve o o' :
  step o o' ->
  exists n st t, o' = evolve o n st t /\ validDate t = true /\ date_lt t o.(o_updatedAt) = false
    /\ (n = o.(o_name) \/ nameOf (VStr n) = Ok n).
Proof.
  intros [o1 n t o1' E|o1 t o1' E|o1 t o1' E|o1 t o1' E];
    unfold rename, suspend, reactivate, archive in E; ok_branches E;
    match goal with T : transitionTime _ _ = Ok _ |- _ => apply organization_time_ok in T as (-> & ? & ?) end;
    do 3 eexists; split_and!; eauto using nameOf_idemp.
Qed.

Lemma organization_create_wf c o : create c = Ok o -> wf o.
Proof.
  unfold create. intros E. ok_branches E. breflect.
  rewrite !copyDate_valid by (by rewrite ?validDate_copy).
  constructor; cbn [o_name o_slug o_createdAt o_updatedAt]; eauto using nameOf_idemp, slugOf_idemp with n2f.
Qed.

Lemma organization_restore_wf r o : restore r = Ok o -> wf o.
Proof.
  unfold restore. intros E. destruct (parseStatus _) as [s|]; [|done]. ok_branches E. breflect.
  rewrite !copyDate_valid by done.
  constructor; cbn [o_name o_slug o_createdAt o_updatedAt]; eauto using nameOf_idemp, slugOf_idemp.
Qed.

Lemma organization_step_wf o o' : wf o -> step o o' -> wf o'.
Proof.
  intros [] (n & st & t & -> & Ht & Hle & Hn)%organization_step_evolve.
  constructor; cbn [evolve o_name o_slug o_createdAt o_updatedAt]; rewrite ?validDate_copy, ?copyDate_valid; auto.
  - destruct Hn as [->|]; done.
  - eauto using date_le_trans with n2f.
Qed.

Lemma organization_reachable_wf o : reachable o -> wf o.
Proof.
  induction 1; [by eapply organization_create_wf|by eapply organization_restore_wf|
    by destruct IHreachable|by eapply organization_step_wf].
Qed.

Lemma organization_wf_restore o :
  wf o -> FIRST <= o.(o_version) <= MAX_SAFE_INTEGER -> restore (row o) = Ok o.
Proof.
  intros [] Hv. unfold restore, row. cbn [r_id r_name r_slug r_status r_createdAt r_updatedAt r_version].
  rewrite organization_parseStatus_name, !copyDate_valid by (rewrite ?copyDate_valid; done).
  rewrite wf_created0, wf_updated0, wf_order0, stored_version by done. cbn [negb orb].
  rewrite wf_name0, wf_slug0. cbn [mbind Result_bind]. by destruct o.
Qed.
(** The lifecycle's edges; renaming keeps the state. *)
Definition edge (a b : Status) : bool :=
  match a, b with
  | active, (active | suspended | archived) => true
  | suspended, (suspended | active | archived) => true
  | _, _ => false
  end.

(** A tenant's lifecycle. Renaming, suspending, reactivating and archiving
    follow the lifecycle's edges, an archived organization never changes again,
    a transition never touches the slug (the unique key other tenants are
    refused on), the identity, the creation time or the version, and the name
    is always a normalized one. *)
Theorem organization_step_edge (o o' : Organization) (Hwf : wf o) (Hstep : step o o') :
  edge o.(o_status) o'.(o_status) = true
  /\ o'.(o_slug) = o.(o_slug) /\ o'.(o_id) = o.(o_id) /\ o'.(o_createdAt) = o.(o_createdAt)
  /\ o'.(o_version) = o.(o_version)
  /\ nameOf (VStr o'.(o_name)) = Ok o'.(o_name)
  /\ date_le o.(o_updatedAt) o'.(o_updatedAt) = true.
Proof.
  pose proof (organization_step_wf _ _ Hwf Hstep) as Hw'.
  pose proof (organization_step_evolve _ _ Hstep) as (n & st & t & He & Ht & Hle & _).
  assert (Hedge : edge o.(o_status) o'.(o_status) = true).
  { destruct Hstep as [o1 x u o1' E|o1 u o1' E|o1 u o1' E|o1 u o1' E];
      unfold rename, suspend, reactivate, archive in E; ok_branches E; breflect;
      rewrite ?bool_decide_eq_false, ?bool_decide_eq_true in *; cbn;
      repeat match goal with Hs : o_status _ = _ |- _ => rewrite Hs end; try done;
      by destruct (o_status o1). }
  split; [done|]. destruct Hwf, Hw'. subst o'. cbn [evolve o_slug o_id o_createdAt o_version o_updatedAt] in *.
  rewrite !copyDate_valid by done. split_and!; auto with n2f.
Qed.
End Facts.

Lemma organization_step_edge_witness :
  let o := mkOrganization (js "o1") (js "Acme") (js "acme") suspended (DateAt 1) (DateAt 2) 3 in
  edge suspended active = true.
Proof.
  intros o.
  apply (@organization_step_edge asciiFolding o
    (mkOrganization (js "o1") (js "Acme") (js "acme") active (DateAt 1) (DateAt 5) 3)).
  - constructor; vm_compute; reflexivity.
  - apply (step_reactivate o (DateAt 5)). vm_compute. reflexivity.
Defined.
End Organization.

(** ** Memberships: [membership.ts]. *)
Module Membership.

(** @src src/modules/organization/domain/membership.ts:15-21 MembershipRole *)
Inductive Role : Type := owner | admin | member.

(** @src src/modules/organization/domain/membership.ts:23-28 MembershipStatus *)
Inductive Status : Type := active | revoked.

#[export] Instance Role_eq_dec : EqDecision Role.
Proof. solve_decision. Defined.
#[export] Instance Status_eq_dec : EqDecision Status.
Proof. solve_decision. Defined.

Definition roleName (r : Role) : string :=
  match r with owner => "owner" | admin => "admin" | member => "member" end.
Definition statusName (s : Status) : string :=
  match s with active => "active" | revoked => "revoked" end.

(** @src src/modules/organization/domain/membership.ts:15-19 MEMBERSHIP_ROLES *)
Definition parseRole (v : JsValue) : option Role := includes roleName [owner; admin; member] v.

(** @src src/modules/organization/domain/membership.ts:23-26 MEMBERSHIP_STATUSES *)
Definition parseStatus (v : JsValue) : option Status := includes statusName [active; revoked] v.

(** @src src/modules/organization/domain/membership.ts:41-47 AddMembershipInput *)
Record AddInput : Type := mkAdd {
  a_id : ID; a_organizationId : ID; a_identityId : ID; a_role : JsValue; a_createdAt : Date
}.

(** @src src/modules/organization/domain/membership.ts:49-59 RestoreMembershipInput *)
Record Row : Type := mkRow {
  r_id : ID; r_organizationId : ID; r_identityId : ID; r_role : JsValue; r_status : JsValue;
  r_createdAt : Date; r_updatedAt : Date; r_revokedAt : option Date; r_version : num
}.

(** @src src/modules/organization/domain/membership.ts:61-71 MembershipState *)
Record Membership : Type := mkMembership {
  m_id : ID; m_organizationId : ID; m_identityId : ID; m_role : Role; m_status : Status;
  m_createdAt : Date; m_updatedAt : Date; m_revokedAt : option Date; m_version : Z
}.

(** @src src/modules/organization/domain/membership.ts:81-86 invalid *)
Definition invalid (message type : string) : Failure :=
  typedFailure invalid type message noOptions.

(** @src src/modules/organization/domain/membership.ts:93-123 add *)
Definition add (input : AddInput) : Res Membership :=
  match parseRole input.(a_role) with
  | None => Err (invalid "membership role is invalid" "membership.invalid_role")
  | Some role =>
    if negb (validDate input.(a_createdAt)) then
      Err (invalid "membership creation time must be valid" "membership.invalid_created_at")
    else
      let createdAt := copyDate input.(a_createdAt) in
      Ok {| m_id := input.(a_id); m_organizationId := input.(a_organizationId);
            m_identityId := input.(a_identityId); m_role := role; m_status := active;
            m_createdAt := createdAt; m_updatedAt := copyDate createdAt;
            m_revokedAt := None; m_version := UNSAVED |}
  end.

(** @src src/modules/organization/domain/membership.ts:150-160 restore *)
Definition incoherent (status : Status) (revokedAt : option Date) : bool :=
  (bool_decide (status = active) && negb (isNull revokedAt))
  || (bool_decide (status = revoked) && isNull revokedAt).

(** @src src/modules/organization/domain/membership.ts:125-175 restore *)
Definition restore (input : Row) : Res Membership :=
  match parseRole input.(r_role), parseStatus input.(r_status) with
  | Some role, Some status =>
    if negb (validDate input.(r_createdAt)) || negb (validDate input.(r_updatedAt))
       || badDateOpt input.(r_revokedAt) || negb (isStoredVersion input.(r_version)) then
      Err (invalid "membership state is invalid" "membership.invalid_state")
    else if date_lt input.(r_updatedAt) input.(r_createdAt) then
      Err (invalid "membership update time cannot precede creation" "membership.non_monotonic_time")
    else if incoherent status input.(r_revokedAt) then
      Err (invalid "membership revocation state is invalid" "membership.invalid_state")
    else
      Ok {| m_id := input.(r_id); m_organizationId := input.(r_organizationId);
            m_identityId := input.(r_identityId); m_role := role; m_status := status;
            m_createdAt := copyDate input.(r_createdAt); m_updatedAt := copyDate input.(r_updatedAt);
            m_revokedAt := copyDateOpt input.(r_revokedAt); m_version := num_val input.(r_version) |}
  | _, _ => Err (invalid "membership state is invalid" "membership.invalid_state")
  end.

(** @src src/modules/organization/domain/membership.ts:177-214 getters *)
Definition row (m : Membership) : Row :=
  mkRow m.(m_id) m.(m_organizationId) m.(m_identityId) (VStr (js (roleName m.(m_role))))
    (VStr (js (statusName m.(m_status)))) (copyDate m.(m_createdAt)) (copyDate m.(m_updatedAt))
    (copyDateOpt m.(m_revokedAt)) (Int m.(m_version)).

(** @src src/modules/organization/domain/membership.ts:217-219 saved *)
Definition saved (m : Membership) : Membership :=
  mkMembership m.(m_id) m.(m_organizationId) m.(m_identityId) m.(m_role) m.(m_status)
    m.(m_createdAt) m.(m_updatedAt) m.(m_revokedAt) (m.(m_version) + 1).

(** @src src/modules/organization/domain/membership.ts:258-276 transitionTime *)
Definition transitionTime (m : Membership) (at_ : Date) : Res Date :=
  if negb (validDate at_) then
    Err (invalid "membership transition time must be valid" "membership.invalid_transition_time")
  else if date_lt at_ m.(m_updatedAt) then
    Err (invalid "membership transition time cannot move backwards" "membership.non_monotonic_time")
  else Ok (copyDate at_).

(** @src src/modules/organization/domain/membership.ts:278-291 evolve
    [revokedAt] is [None] when the patch leaves it out. *)
Definition evolve (m : Membership) (role : Role) (status : Status) (updatedAt : Date)
    (revokedAt : option Date) : Membership :=
  mkMembership m.(m_id) m.(m_organizationId) m.(m_identityId) role status m.(m_createdAt)
    (copyDate updatedAt)
    (match revokedAt with None => m.(m_revokedAt) | Some r => Some (copyDate r) end)
    m.(m_version).

(** @src src/modules/organization/domain/membership.ts:221-238 changeRole *)
Definition changeRole (m : Membership) (role : JsValue) (at_ : Date) : Res Membership :=
  time ← transitionTime m at_;
  match parseRole role with
  | None => Err (invalid "membership role is invalid" "membership.invalid_role")
  | Some role =>
    if bool_decide (m.(m_status) = revoked) then
      Err (invalid "revoked memberships cannot change role" "membership.revoked")
    else Ok (evolve m role m.(m_status) time None)
  end.

(** @src src/modules/organization/domain/membership.ts:240-256 revoke *)
Definition revoke (m : Membership) (at_ : Date) : Res Membership :=
  time ← transitionTime m at_;
  if bool_decide (m.(m_status) = revoked) then
    Err (invalid "membership is already revoked" "membership.already_revoked")
  else Ok (evolve m m.(m_role) revoked time (Some time)).

Inductive reachable : Membership -> Prop :=
| reach_add a m : add a = Ok m -> reachable m
| reach_restore r m : restore r = Ok m -> reachable m
| reach_saved m : reachable m -> reachable (saved m)
| reach_role m v t m' : reachable m -> changeRole m v t = Ok m' -> reachable m'
| reach_revoke m t m' : reachable m -> revoke m t = Ok m' -> reachable m'.

Record wf (m : Membership) : Prop := mkWf {
  wf_created : validDate m.(m_createdAt) = true;
  wf_updated : validDate m.(m_updatedAt) = true;
  wf_revoked : badDateOpt m.(m_revokedAt) = false;
  wf_order : date_lt m.(m_updatedAt) m.(m_createdAt) = false;
  wf_coherent : incoherent m.(m_status) m.(m_revokedAt) = false
}.

Lemma membership_names r s :
  parseRole (VStr (js (roleName r))) = Some r /\ parseStatus (VStr (js (statusName s))) = Some s.
Proof. split; [destruct r|destruct s]; vm_compute; reflexivity. Qed.

Lemma membership_time_ok m t x :
  transitionTime m t = Ok x -> x = t /\ validDate t = true /\ date_lt t m.(m_updatedAt) = false.
Proof. unfold transitionTime. intros E. ok_branches E. breflect. by rewrite copyDate_valid. Qed.

Lemma membership_add_wf a m : add a = Ok m -> wf m.
Proof.
  unfold add. intros E. destruct (parseRole _); [|done]. ok_branches E. breflect.
  rewrite !copyDate_valid by (by rewrite ?validDate_copy). constructor; cbn; auto with n2f.
Qed.

Lemma membership_restore_wf r m : restore r = Ok m -> wf m.
Proof.
  unfold restore. intros E. destruct (parseRole _); [|done]. destruct (parseStatus _); [|done].
  ok_branches E. breflect. rewrite !copyDate_valid, !copyDateOpt_valid by done. by constructor.
Qed.

Lemma membership_role_wf m v t m' : wf m -> changeRole m v t = Ok m' -> wf m'.
Proof.
  intros [] E. unfold changeRole in E. ok_branches E. destruct (parseRole v); [|done]. ok_branches E.
  match goal with T : transitionTime _ _ = Ok _ |- _ => apply membership_time_ok in T as (-> & ? & ?) end.
  constructor; cbn [evolve m_createdAt m_updatedAt m_revokedAt m_status]; rewrite ?copyDate_valid by done; auto.
  eauto using date_le_trans with n2f.
Qed.

Lemma membership_revoke_wf m t m' : wf m -> revoke m t = Ok m' -> wf m'.
Proof.
  intros [] E. unfold revoke in E. ok_branches E.
  match goal with T : transitionTime _ _ = Ok _ |- _ => apply membership_time_ok in T as (-> & Ht & ?) end.
  constructor; cbn [evolve m_createdAt m_updatedAt m_revokedAt m_status]; rewrite ?copyDate_valid by done; auto.
  - cbn. by rewrite Ht.
  - eauto using date_le_trans with n2f.
Qed.

Lemma membership_reachable_wf m : reachable m -> wf m.
Proof.
  induction 1; [by eapply membership_add_wf|by eapply membership_restore_wf|by destruct IHreachable|
    by eapply membership_role_wf|by eapply membership_revoke_wf].
Qed.

Lemma membership_wf_restore m :
  wf m -> FIRST <= m.(m_version) <= MAX_SAFE_INTEGER -> restore (row m) = Ok m.
Proof.
  intros [] Hv. unfold restore, row.
  cbn [r_id r_organizationId r_identityId r_role r_status r_createdAt r_updatedAt r_revokedAt r_version].
  destruct (membership_names (m_role m) (m_status m)) as [-> ->].
  rewrite !copyDate_valid, !copyDateOpt_valid by (rewrite ?copyDate_valid; done).
  rewrite wf_created0, wf_updated0, wf_revoked0, wf_order0, wf_coherent0, stored_version by done.
  by destruct m.
Qed.
(** Who may hold a role. A role change or a revocation succeeds only on an
    active membership; the new role is one of the module's roles exactly as it
    was spelled; revocation is final; and neither moves a membership to another
    organization or identity. *)
Theorem membership_changes (m m' : Membership) (v : JsValue) (t t' : Date)
    (Hchange : changeRole m v t = Ok m') :
  m.(m_status) = active /\ m'.(m_status) = active
  /\ v = VStr (js (roleName m'.(m_role)))
  /\ m' = evolve m m'.(m_role) active m'.(m_updatedAt) None
  /\ (forall k, revoke m' t' = Ok k ->
        k.(m_status) = revoked /\ k.(m_revokedAt) = Some t'
        /\ forall u w, isOk (changeRole k u w) = false /\ isOk (revoke k w) = false).
Proof.
  unfold changeRole in Hchange. ok_branches Hchange.
  destruct (parseRole v) as [r|] eqn:Er; [|done]. ok_branches Hchange.
  apply membership_time_ok in E as (-> & Hv & _).
  apply bool_decide_eq_false in E0. assert (Hs : m_status m = active) by (by destruct (m_status m)).
  split_and!; [done..| |cbn; by rewrite Hs, !copyDate_valid by (by rewrite ?validDate_copy)|].
  - apply includes_some in Er. done.
  - intros k Hk. unfold revoke in Hk. ok_branches Hk. apply membership_time_ok in E as (-> & Hv' & _).
    split; [done|]. split; [cbn; by rewrite copyDate_valid|]. intros u w.
    unfold changeRole, revoke. destruct (transitionTime _ w); [|done]. cbn [mbind Result_bind].
    cbn [m_status evolve]. rewrite bool_decide_eq_true_2 by done. by destruct (parseRole u).
Qed.

Lemma membership_changes_witness :
  let m := mkMembership (js "m1") (js "o1") (js "i1") member active (DateAt 1) (DateAt 1) None 1 in
  let m' := evolve m owner active (DateAt 4) None in
  let k := evolve m' owner revoked (DateAt 5) (Some (DateAt 5)) in
  k.(m_status) = revoked /\ k.(m_revokedAt) = Some (DateAt 5)
  /\ forall u w, isOk (changeRole k u w) = false /\ isOk (revoke k w) = false.
Proof.
  intros m m' k.
  destruct (membership_changes m m' (VStr (js "owner")) (DateAt 4) (DateAt 5)) as (_ & _ & _ & _ & H);
    [vm_compute; reflexivity|].
  apply H. vm_compute. reflexivity.
Defined.
End Membership.

(** ** Invitations: [invitation.ts]. *)
Module Invitation.

(** @src src/modules/organization/domain/invitation.ts:15-16 InvitationRole *)
Inductive Role : Type := admin | member.

(** @src src/modules/organization/domain/invitation.ts:18-23 InvitationStatus *)
Inductive Status : Type := pending | accepted | revoked.

#[export] Instance Role_eq_dec : EqDecision Role.
Proof. solve_decision. Defined.
#[export] Instance Status_eq_dec : EqDecision Status.
Proof. solve_decision. Defined.

Definition roleName (r : Role) : string :=
  match r with admin => "admin" | member => "member" end.
Definition statusName (s : Status) : string :=
  match s with pending => "pending" | accepted => "accepted" | revoked => "revoked" end.

(** @src src/modules/organization/domain/invitation.ts:15-15 INVITATION_ROLES *)
Definition parseRole (v : JsValue) : option Role := includes roleName [admin; member] v.

(** @src src/modules/organization/domain/invitation.ts:18-22 INVITATION_STATUSES *)
Definition parseStatus (v : JsValue) : option Status :=
  includes statusName [pending; accepted; revoked] v.

(** @src src/modules/organization/domain/invitation.ts:36-43 IssueInvitationInput *)
Record IssueInput : Type := mkIssue {
  c_id : ID; c_organizationId : ID; c_identityId : ID; c_role : JsValue; c_createdAt : Date;
  c_expiresAt : Date
}.

(** @src src/modules/organization/domain/invitation.ts:45-57 RestoreInvitationInput *)
Record Row : Type := mkRow {
  r_id : ID; r_organizationId : ID; r_identityId : ID; r_role : JsValue; r_status : JsValue;
  r_createdAt : Date; r_updatedAt : Date; r_expiresAt : Date; r_acceptedAt : option Date;
  r_revokedAt : option Date; r_version : num
}.

(** @src src/modules/organization/domain/invitation.ts:59-71 InvitationState *)
Record Invitation : Type := mkInvitation {
  n_id : ID; n_organizationId : ID; n_identityId : ID; n_role : Role; n_status : Status;
  n_createdAt : Date; n_updatedAt : Date; n_expiresAt : Date; n_acceptedAt : option Date;
  n_revokedAt : option Date; n_version : Z
}.

(** @src src/modules/organization/domain/invitation.ts:81-86 invalid *)
Definition invalid (message type : string) : Failure :=
  typedFailure invalid type message noOptions.

(** @src src/modules/organization/domain/invitation.ts:93-131 issue *)
Definition issue (input : IssueInput) : Res Invitation :=
  match parseRole input.(c_role) with
  | None => Err (invalid "invitation role is invalid" "invitation.invalid_role")
  | Some role =>
    if negb (validDate input.(c_createdAt)) || negb (validDate input.(c_expiresAt)) then
      Err (invalid "invitation time is invalid" "invitation.invalid_time")
    else if date_le input.(c_expiresAt) input.(c_createdAt) then
      Err (invalid "invitation expiry must be after creation" "invitation.invalid_expiry")
    else
      let createdAt := copyDate input.(c_createdAt) in
      Ok {| n_id := input.(c_id); n_organizationId := input.(c_organizationId);
            n_identityId := input.(c_identityId); n_role := role; n_status := pending;
            n_createdAt := createdAt; n_updatedAt := copyDate createdAt;
            n_expiresAt := copyDate input.(c_expiresAt); n_acceptedAt := None;
            n_revokedAt := None; n_version := UNSAVED |}
  end.

(** @src src/modules/organization/domain/invitation.ts:158-169 restore *)
Definition incoherent (status : Status) (acceptedAt revokedAt : option Date) : bool :=
  (bool_decide (status = pending) && (negb (isNull acceptedAt) || negb (isNull revokedAt)))
  || (bool_decide (status = accepted) && (isNull acceptedAt || negb (isNull revokedAt)))
  || (bool_decide (status = revoked) && (isNull revokedAt || negb (isNull acceptedAt))).

(** @src src/modules/organization/domain/invitation.ts:133-187 restore *)
Definition restore (input : Row) : Res Invitation :=
  match parseRole input.(r_role), parseStatus input.(r_status) with
  | Some role, Some status =>
    if negb (validDate input.(r_createdAt)) || negb (validDate input.(r_updatedAt))
       || negb (validDate input.(r_expiresAt)) || badDateOpt input.(r_acceptedAt)
       || badDateOpt input.(r_revokedAt) || negb (isStoredVersion input.(r_version)) then
      Err (invalid "invitation state is invalid" "invitation.invalid_state")
    else if date_lt input.(r_updatedAt) input.(r_createdAt)
            || date_le input.(r_expiresAt) input.(r_createdAt) then
      Err (invalid "invitation time is invalid" "invitation.invalid_time")
    else if incoherent status input.(r_acceptedAt) input.(r_revokedAt) then
      Err (invalid "invitation state is invalid" "invitation.invalid_state")
    else
      Ok {| n_id := input.(r_id); n_organizationId := input.(r_organizationId);
            n_identityId := input.(r_identityId); n_role := role; n_status := status;
            n_createdAt := copyDate input.(r_createdAt); n_updatedAt := copyDate input.(r_updatedAt);
            n_expiresAt := copyDate input.(r_expiresAt);
            n_acceptedAt := copyDateOpt input.(r_acceptedAt);
            n_revokedAt := copyDateOpt input.(r_revokedAt); n_version := num_val input.(r_version) |}
  | _, _ => Err (invalid "invitation state is invalid" "invitation.invalid_state")
  end.

(** @src src/modules/organization/domain/invitation.ts:189-227 getters *)
Definition row (n : Invitation) : Row :=
  mkRow n.(n_id) n.(n_organizationId) n.(n_identityId) (VStr (js (roleName n.(n_role))))
    (VStr (js (statusName n.(n_status)))) (copyDate n.(n_createdAt)) (copyDate n.(n_updatedAt))
    (copyDate n.(n_expiresAt)) (copyDateOpt n.(n_acceptedAt)) (copyDateOpt n.(n_revokedAt))
    (Int n.(n_version)).

(** @src src/modules/organization/domain/invitation.ts:229-232 saved *)
Definition saved (n : Invitation) : Invitation :=
  mkInvitation n.(n_id) n.(n_organizationId) n.(n_identityId) n.(n_role) n.(n_status)
    n.(n_createdAt) n.(n_updatedAt) n.(n_expiresAt) n.(n_acceptedAt) n.(n_revokedAt)
    (n.(n_version) + 1).

(** @src src/modules/organization/domain/invitation.ts:234-240 isExpired *)
Definition isExpired (n : Invitation) (at_ : Date) : bool :=
  validDate at_ && bool_decide (n.(n_status) = pending) && date_le n.(n_expiresAt) at_.

(** @src src/modules/organization/domain/invitation.ts:285-302 transitionTime *)
Definition transitionTime (n : Invitation) (at_ : Date) : Res Date :=
  if negb (validDate at_) then
    Err (invalid "invitation transition time is invalid" "invitation.invalid_time")
  else if date_lt at_ n.(n_updatedAt) then
    Err (invalid "invitation transition time cannot move backwards" "invitation.non_monotonic_time")
  else Ok (copyDate at_).

(** @src src/modules/organization/domain/invitation.ts:304-322 evolve
    [acceptedAt] and [revokedAt] are [None] when the patch leaves them out. *)
Definition evolve (n : Invitation) (status : Status) (updatedAt : Date)
    (acceptedAt revokedAt : option Date) : Invitation :=
  mkInvitation n.(n_id) n.(n_organizationId) n.(n_identityId) n.(n_role) status n.(n_createdAt)
    (copyDate updatedAt) n.(n_expiresAt)
    (match acceptedAt with None => n.(n_acceptedAt) | Some t => Some (copyDate t) end)
    (match revokedAt with None => n.(n_revokedAt) | Some t => Some (copyDate t) end)
    n.(n_version).

(** @src src/modules/organization/domain/invitation.ts:242-263 accept *)
Definition accept (n : Invitation) (at_ : Date) : Res Invitation :=
  time ← transitionTime n at_;
  if negb (bool_decide (n.(n_status) = pending)) then
    Err (invalid "only pending invitations can be accepted" "invitation.not_pending")
  else if isExpired n time then
    Err (invalid "invitation has expired" "invitation.expired")
  else Ok (evolve n accepted time (Some time) None).

(** @src src/modules/organization/domain/invitation.ts:265-283 revoke *)
Definition revoke (n : Invitation) (at_ : Date) : Res Invitation :=
  time ← transitionTime n at_;
  if negb (bool_decide (n.(n_status) = pending)) then
    Err (invalid "only pending invitations can be revoked" "invitation.not_pending")
  else Ok (evolve n revoked time None (Some time)).

Inductive reachable : Invitation -> Prop :=
| reach_issue c n : issue c = Ok n -> reachable n
| reach_restore r n : restore r = Ok n -> reachable n
| reach_saved n : reachable n -> reachable (saved n)
| reach_accept n t n' : reachable n -> accept n t = Ok n' -> reachable n'
| reach_revoke n t n' : reachable n -> revoke n t = Ok n' -> reachable n'.

Record wf (n : Invitation) : Prop := mkWf {
  wf_created : validDate n.(n_createdAt) = true;
  wf_updated : validDate n.(n_updatedAt) = true;
  wf_expires : validDate n.(n_expiresAt) = true;
  wf_accepted : badDateOpt n.(n_acceptedAt) = false;
  wf_revoked : badDateOpt n.(n_revokedAt) = false;
  wf_order : date_lt n.(n_updatedAt) n.(n_createdAt) = false;
  wf_expiry : date_le n.(n_expiresAt) n.(n_createdAt) = false;
  wf_coherent : incoherent n.(n_status) n.(n_acceptedAt) n.(n_revokedAt) = false
}.

Lemma invitation_names r s :
  parseRole (VStr (js (roleName r))) = Some r /\ parseStatus (VStr (js (statusName s))) = Some s.
Proof. split; [destruct r|destruct s]; vm_compute; reflexivity. Qed.

Lemma invitation_time_ok n t x :
  transitionTime n t = Ok x -> x = t /\ validDate t = true /\ date_lt t n.(n_updatedAt) = false.
Proof. unfold transitionTime. intros E. ok_branches E. breflect. by rewrite copyDate_valid. Qed.

Lemma invitation_issue_wf c n : issue c = Ok n -> wf n.
Proof.
  unfold issue. intros E. destruct (parseRole _); [|done]. ok_branches E. breflect.
  rewrite !copyDate_valid by (by rewrite ?validDate_copy). constructor; cbn; auto with n2f.
Qed.

Lemma invitation_restore_wf r n : restore r = Ok n -> wf n.
Proof.
  unfold restore. intros E. destruct (parseRole _); [|done]. destruct (parseStatus _); [|done].
  ok_branches E. breflect. rewrite !copyDate_valid, !copyDateOpt_valid by done. by constructor.
Qed.

(** Both transitions close a pending invitation coherently. *)
Lemma invitation_evolve_wf n st t a r :
  wf n -> n.(n_status) = pending -> validDate t = true -> date_lt t n.(n_updatedAt) = false ->
  (st = accepted /\ a = Some t /\ r = None) \/ (st = revoked /\ a = None /\ r = Some t) ->
  wf (evolve n st t a r).
Proof.
  intros [] Hs Ht Hle Hc. unfold incoherent in wf_coherent0. rewrite Hs in wf_coherent0. cbn in wf_coherent0.
  assert (n_acceptedAt n = None /\ n_revokedAt n = None) as [Ha Hr].
  { rewrite !orb_false_r in wf_coherent0. breflect. by destruct (n_acceptedAt n), (n_revokedAt n). }
  assert (date_lt t (n_createdAt n) = false) by eauto using date_le_trans with n2f.
  destruct Hc as [(-> & -> & ->)|(-> & -> & ->)];
    constructor; cbn; rewrite ?copyDate_valid, ?Ha, ?Hr by done; auto; by rewrite Ht.
Qed.

Lemma invitation_accept_wf n t n' : wf n -> accept n t = Ok n' -> wf n'.
Proof.
  intros Hw E. unfold accept in E. ok_branches E.
  match goal with T : transitionTime _ _ = Ok _ |- _ => apply invitation_time_ok in T as (-> & ? & ?) end.
  breflect. apply invitation_evolve_wf; auto. by apply bool_decide_eq_true in E1.
Qed.

Lemma invitation_revoke_wf n t n' : wf n -> revoke n t = Ok n' -> wf n'.
Proof.
  intros Hw E. unfold revoke in E. ok_branches E.
  match goal with T : transitionTime _ _ = Ok _ |- _ => apply invitation_time_ok in T as (-> & ? & ?) end.
  breflect. apply invitation_evolve_wf; auto. by apply bool_decide_eq_true in E1.
Qed.

Lemma invitation_reachable_wf n : reachable n -> wf n.
Proof.
  induction 1; [by eapply invitation_issue_wf|by eapply invitation_restore_wf|by destruct IHreachable|
    by eapply invitation_accept_wf|by eapply invitation_revoke_wf].
Qed.

Lemma invitation_wf_restore n :
  wf n -> FIRST <= n.(n_version) <= MAX_SAFE_INTEGER -> restore (row n) = Ok n.
Proof.
  intros [] Hv. unfold restore, row.
  cbn [r_id r_organizationId r_identityId r_role r_status r_createdAt r_updatedAt r_expiresAt
    r_acceptedAt r_revokedAt r_version].
  destruct (invitation_names (n_role n) (n_status n)) as [-> ->].
  rewrite !copyDate_valid, !copyDateOpt_valid by (rewrite ?copyDate_valid; done).
  rewrite wf_created0, wf_updated0, wf_expires0, wf_accepted0, wf_revoked0, wf_order0, wf_expiry0,
    wf_coherent0, stored_version by done.
  by destruct n.
Qed.
(** Every acceptance or revocation names the role, the organization and the
    identity it was issued for. *)
Definition sameOffer (n n' : Invitation) : Prop :=
  n'.(n_id) = n.(n_id) /\ n'.(n_organizationId) = n.(n_organizationId)
  /\ n'.(n_identityId) = n.(n_identityId) /\ n'.(n_role) = n.(n_role)
  /\ n'.(n_expiresAt) = n.(n_expiresAt) /\ n'.(n_version) = n.(n_version).

(** A decided invitation refuses both transitions. *)
Lemma decided_refuses n t :
  n.(n_status) <> pending -> isOk (accept n t) = false /\ isOk (revoke n t) = false.
Proof.
  intros Hs. unfold accept, revoke. destruct (transitionTime n t); [|done].
  cbn [mbind Result_bind]. by rewrite bool_decide_eq_false_2.
Qed.

Lemma transitionTime_at n t :
  wf n -> validDate (DateAt t) = true ->
  transitionTime n (DateAt t) =
    if t <? getTime n.(n_updatedAt)
    then Err (invalid "invitation transition time cannot move backwards" "invitation.non_monotonic_time")
    else Ok (DateAt t).
Proof.
  intros [] Ht. unfold transitionTime. rewrite Ht. destruct (n_updatedAt n); [done|].
  cbn [date_lt getTime negb]. by rewrite copyDate_valid.
Qed.

(** An invitation is decided at most once, and accepted only in time. It can
    be accepted exactly while it is pending, at a time not before its last
    update and strictly before its expiry, and revoked exactly while it is
    pending, expired or not; after either, both fail at every later time, and
    the offer (identity, organization, role, expiry) never changes, so an
    acceptance grants the role that was issued. *)
Theorem invitation_decided_once (n : Invitation) (t : Z)
    (Hwf : wf n) (Ht : validDate (DateAt t) = true) :
  (isOk (accept n (DateAt t)) = true
     <-> n.(n_status) = pending /\ getTime n.(n_updatedAt) <= t < getTime n.(n_expiresAt))
  /\ (isOk (revoke n (DateAt t)) = true
        <-> n.(n_status) = pending /\ getTime n.(n_updatedAt) <= t)
  /\ (forall n', accept n (DateAt t) = Ok n' \/ revoke n (DateAt t) = Ok n' ->
        sameOffer n n'
        /\ forall t', isOk (accept n' t') = false /\ isOk (revoke n' t') = false).
Proof.
  pose proof (wf_expires n Hwf) as Hx.
  unfold accept, revoke. rewrite transitionTime_at by done.
  destruct (t <? getTime (n_updatedAt n)) eqn:E; breflect; cbn [mbind Result_bind];
    [split_and!; cbn; [split; [done|lia]|split; [done|lia]|naive_solver]|].
  destruct (n_status n) eqn:Es; cbn [negb].
  2, 3: rewrite (bool_decide_eq_false_2 (_ = pending)) by done; cbn; naive_solver.
  rewrite bool_decide_eq_true_2 by done. unfold isExpired. rewrite Ht, Es, bool_decide_eq_true_2 by done.
  destruct (n_expiresAt n) as [|x] eqn:Ex; [done|]. cbn [andb negb date_le getTime].
  destruct (x <=? t) eqn:El; breflect; cbn [isOk]; split_and!; try naive_solver lia.
  - intros n' [[=]|[= <-]]. split; [done|]. intros t'. by apply decided_refuses.
  - intros n' [[= <-]|[= <-]]; (split; [done|]); intros t'; by apply decided_refuses.
Qed.

Lemma invitation_decided_once_witness :
  let n := mkInvitation (js "n1") (js "o1") (js "i1") admin pending (DateAt 1) (DateAt 1) (DateAt 9)
             None None 1 in
  isOk (accept n (DateAt 8)) = true /\ isOk (accept n (DateAt 9)) = false
  /\ isOk (revoke n (DateAt 9)) = true.
Proof.
  intros n. assert (Hw : wf n) by (constructor; vm_compute; reflexivity). split_and!.
  - apply (invitation_decided_once n 8 Hw eq_refl). cbn; split_and!; done.
  - apply not_true_iff_false. rewrite (proj1 (invitation_decided_once n 9 Hw eq_refl)).
    intros (_ & _ & H). vm_compute in H. discriminate H.
  - apply (invitation_decided_once n 9 Hw eq_refl). vm_compute. split; done.
Defined.
End Invitation.

(** ** Storage round trips of the module. *)

(** Every aggregate of the organization module survives storage: the row
    the accessors of a reachable organization, membership or invitation show
    is one [restore] accepts, and it restores the same aggregate. *)
Theorem organization_rows_restore `{CaseFolding} :
  (forall o, Organization.reachable o -> FIRST <= o.(Organization.o_version) <= MAX_SAFE_INTEGER ->
     Organization.restore (Organization.row o) = Ok o)
  /\ (forall m, Membership.reachable m -> FIRST <= m.(Membership.m_version) <= MAX_SAFE_INTEGER ->
        Membership.restore (Membership.row m) = Ok m)
  /\ (forall n, Invitation.reachable n -> FIRST <= n.(Invitation.n_version) <= MAX_SAFE_INTEGER ->
        Invitation.restore (Invitation.row n) = Ok n).
Proof.
  split_and!; intros.
  - apply Organization.organization_wf_restore; auto using Organization.organization_reachable_wf.
  - apply Membership.membership_wf_restore; auto using Membership.membership_reachable_wf.
  - apply Invitation.invitation_wf_restore; auto using Invitation.invitation_reachable_wf.
Qed.

Lemma organization_rows_restore_witness :
  let n := Invitation.mkInvitation (js "n1") (js "o1") (js "i1") Invitation.member Invitation.accepted
             (DateAt 1) (DateAt 5) (DateAt 9) (Some (DateAt 5)) None 1 in
  Invitation.restore (Invitation.row n) = Ok n.
Proof.
  intros n. apply (proj2 (proj2 (@organization_rows_restore asciiFolding))); [|vm_compute; split; discriminate].
  apply (Invitation.reach_accept (Invitation.mkInvitation (js "n1") (js "o1") (js "i1") Invitation.member
    Invitation.pending (DateAt 1) (DateAt 1) (DateAt 9) None None 1) (DateAt 5)); [|vm_compute; reflexivity].
  apply (Invitation.reach_saved (Invitation.mkInvitation (js "n1") (js "o1") (js "i1") Invitation.member
    Invitation.pending (DateAt 1) (DateAt 1) (DateAt 9) None None 0)).
  apply (Invitation.reach_issue (Invitation.mkIssue (js "n1") (js "o1") (js "i1") (VStr (js "member"))
    (DateAt 1) (DateAt 9))).
  vm_compute. reflexivity.
Defined.
