(* ===== verification/IsoDate.v ===== *)
(** * Dates as text: [Date.prototype.toISOString] and its inverse.

    The code prints dates in payloads and cursors and reads them back.  The
    calendar is the proleptic Gregorian one of ECMAScript: [civil] splits a day
    number into year, month and day, and [days] joins them. *)
From S2P Require Import Prelude.

(** ** Fixed-width decimal numbers. *)

(** The [w] low decimal digits of [n]. *)
Fixpoint digits (w : nat) (n : Z) : jstring :=
  match w with
  | O => []
  | S w => digits w (n / 10) ++ [48 + n mod 10]
  end.

(** The number a string of digits spells. *)
Definition number (s : jstring) : Z := foldl (fun a c => 10 * a + (c - 48)) 0 s.

Lemma digits_length w n : length (digits w n) = w.
Proof. revert n. induction w as [|w IH]; intros n; cbn; [done|]. rewrite length_app, IH. cbn. lia. Qed.

Lemma digits_digit w n : Forall (fun c => 48 <= c <= 57) (digits w n).
Proof.
  revert n. induction w as [|w IH]; intros n; cbn; [constructor|]. apply Forall_app. split; [apply IH|].
  repeat constructor; pose proof (Z.mod_pos_bound n 10); lia.
Qed.

Lemma number_digits w n : 0 <= n < 10 ^ Z.of_nat w -> number (digits w n) = n.
Proof.
  revert n. induction w as [|w IH]; intros n Hn; cbn [digits].
  - change (10 ^ Z.of_nat 0) with 1 in Hn. cbn. lia.
  - rewrite Nat2Z.inj_succ, Z.pow_succ_r in Hn by lia. unfold number. rewrite foldl_app. cbn. fold (number (digits w (n / 10))).
    rewrite IH by (split; [apply Z.div_pos; lia|apply Z.div_lt_upper_bound; lia]).
    pose proof (Z.div_mod n 10). lia.
Qed.

(** ** The calendar. *)

(** Years start in March here, so that a leap day ends its year, and are
    counted in eras of 400. *)
Record Civil : Type := mkCivil { year : Z; month : Z; day : Z }.

Definition dayOfEra (yoe doy : Z) : Z := 365 * yoe + yoe / 4 - yoe / 100 + doy.
Definition yearOfEra (doe : Z) : Z := (doe - doe / 1460 + doe / 36524 - doe / 146096) / 365.

(** The date of a day counted from 1970-01-01. *)
Definition civil (z : Z) : Civil :=
  let z := z + 719468 in
  let era := z / 146097 in
  let doe := z mod 146097 in
  let yoe := yearOfEra doe in
  let doy := doe - dayOfEra yoe 0 in
  let mp := (5 * doy + 2) / 153 in
  let m := if mp <? 10 then mp + 3 else mp - 9 in
  mkCivil (yoe + 400 * era + (if m <=? 2 then 1 else 0)) m (doy - (153 * mp + 2) / 5 + 1).

Definition days (c : Civil) : Z :=
  let y := c.(year) - (if c.(month) <=? 2 then 1 else 0) in
  let mp := if 2 <? c.(month) then c.(month) - 3 else c.(month) + 9 in
  146097 * (y / 400) + dayOfEra (y mod 400) ((153 * mp + 2) / 5 + c.(day) - 1) - 719468.

Lemma yearOfEra_bounds doe :
  0 <= doe <= 146096 ->
  0 <= yearOfEra doe <= 399 /\ 0 <= doe - dayOfEra (yearOfEra doe) 0 <= 365.
Proof.
  intros H. unfold yearOfEra, dayOfEra.
  set (y := (doe - doe / 1460 + doe / 36524 - doe / 146096) / 365). subst y.
  Z.div_mod_to_equations. lia.
Qed.

Lemma civil_bounds z :
  let doe := (z + 719468) mod 146097 in
  let doy := doe - dayOfEra (yearOfEra doe) 0 in
  let mp := (5 * doy + 2) / 153 in
  0 <= mp <= 11 /\ 1 <= month (civil z) <= 12 /\ 1 <= day (civil z) <= 31.
Proof.
  intros doe doy mp. assert (Hdoe : 0 <= doe <= 146096) by (unfold doe; pose proof (Z.mod_pos_bound (z + 719468) 146097); lia).
  destruct (yearOfEra_bounds doe Hdoe) as [_ Hdoy]. fold doy in Hdoy.
  assert (Hmp : 0 <= mp <= 11) by (unfold mp; Z.div_mod_to_equations; lia).
  split; [done|]. unfold civil. cbn [month day]. fold doe. fold doy. fold mp. split.
  - destruct (mp <? 10) eqn:E; breflect; lia.
  - unfold mp. Z.div_mod_to_equations. lia.
Qed.

Lemma days_civil z : days (civil z) = z.
Proof.
  destruct (civil_bounds z) as (Hmp & _ & _). cbv zeta in Hmp.
  unfold civil, days. cbn [year month day].
  set (doe := (z + 719468) mod 146097) in *. set (era := (z + 719468) / 146097).
  assert (Hdoe : 0 <= doe <= 146096) by (unfold doe; pose proof (Z.mod_pos_bound (z + 719468) 146097); lia).
  assert (Hz : z + 719468 = 146097 * era + doe) by (apply Z.div_mod; lia).
  destruct (yearOfEra_bounds doe Hdoe) as [Hyoe _]. set (yoe := yearOfEra doe) in *.
  set (doy := doe - dayOfEra yoe 0) in *. set (mp := (5 * doy + 2) / 153) in *.
  set (m := if mp <? 10 then mp + 3 else mp - 9).
  replace (yoe + 400 * era + (if m <=? 2 then 1 else 0) - (if m <=? 2 then 1 else 0)) with (yoe + era * 400) by lia.
  rewrite Z.div_add, Z.mod_add, Z.div_small, Z.mod_small by lia.
  replace (if 2 <? m then m - 3 else m + 9) with mp.
  2: { unfold m. destruct (mp <? 10) eqn:E1; breflect.
       - rewrite (proj2 (Z.ltb_lt 2 (mp + 3))) by lia. lia.
       - rewrite (proj2 (Z.ltb_ge 2 (mp - 9))) by lia. lia. }
  unfold doy, dayOfEra. lia.
Qed.

(** ** Text. *)

(** The year field: four digits from 0 to 9999, otherwise a sign and six. *)
Definition yearText (y : Z) : jstring :=
  if (0 <=? y) && (y <=? 9999) then digits 4 y
  else (if y <? 0 then [45] else [43]) ++ digits 6 (Z.abs y).

(** [new Date(t).toISOString()] of a time value in range. *)
Definition isoText (t : Z) : jstring :=
  let d := t / 86400000 in
  let ms := t mod 86400000 in
  let c := civil d in
  yearText c.(year) ++ [45] ++ digits 2 c.(month) ++ [45] ++ digits 2 c.(day) ++ [84]
  ++ digits 2 (ms / 3600000) ++ [58] ++ digits 2 (ms / 60000 mod 60) ++ [58]
  ++ digits 2 (ms / 1000 mod 60) ++ [46] ++ digits 3 (ms mod 1000) ++ [90].

(** [d.toISOString()]; it throws on an invalid date, which no caller holds. *)
Definition toISOString (d : Date) : jstring :=
  match d with DateAt t => isoText t | InvalidDate => [] end.

(** The fields after the year, at fixed offsets. *)
Definition restAt (y : Z) (s : jstring) : Z :=
  let field i w := number (take w (drop i s)) in
  86400000 * days (mkCivil y (field 1%nat 2%nat) (field 4%nat 2%nat))
  + 3600000 * field 7%nat 2%nat + 60000 * field 10%nat 2%nat + 1000 * field 13%nat 2%nat + field 16%nat 3%nat.

Definition readIso (s : jstring) : Z :=
  match s with
  | c :: rest =>
      if c =? 45 then restAt (- number (take 6 rest)) (drop 6 rest)
      else if c =? 43 then restAt (number (take 6 rest)) (drop 6 rest)
      else restAt (number (take 4 s)) (drop 4 s)
  | [] => 0
  end.

(** [new Date(text)] of a text that is exactly what [toISOString] prints:
    ECMAScript fixes the result there only. *)
Definition parseIso (s : jstring) : option Date :=
  let t := readIso s in
  if (Z.abs t <=? MAX_TIME) && bool_decide (isoText t = s) then Some (DateAt t) else None.

Lemma year_bound t :
  Z.abs t <= MAX_TIME -> Z.abs (year (civil (t / 86400000))) < 10 ^ Z.of_nat 6.
Proof.
  unfold MAX_TIME. intros Ht. change (10 ^ Z.of_nat 6) with 1000000. unfold civil. cbn [year].
  set (d := t / 86400000). assert (Hd : -100000001 <= d <= 100000001) by (unfold d; Z.div_mod_to_equations; lia).
  set (doe := (d + 719468) mod 146097).
  assert (Hdoe : 0 <= doe <= 146096) by (unfold doe; pose proof (Z.mod_pos_bound (d + 719468) 146097); lia).
  destruct (yearOfEra_bounds doe Hdoe) as [Hyoe _]. set (yoe := yearOfEra doe) in *. clearbody yoe.
  assert (He : -680 <= (d + 719468) / 146097 <= 690) by (clearbody d; clear - Hd; Z.div_mod_to_equations; lia).
  destruct (_ <=? 2); lia.
Qed.

(** Reading the text of the fields. *)
Lemma restAt_text t :
  let c := civil (t / 86400000) in
  let ms := t mod 86400000 in
  restAt c.(year) ([45] ++ digits 2 c.(month) ++ [45] ++ digits 2 c.(day) ++ [84]
    ++ digits 2 (ms / 3600000) ++ [58] ++ digits 2 (ms / 60000 mod 60) ++ [58]
    ++ digits 2 (ms / 1000 mod 60) ++ [46] ++ digits 3 (ms mod 1000) ++ [90]) = t.
Proof.
  intros c ms. destruct (civil_bounds (t / 86400000)) as (_ & Hm & Hd). fold c in Hm, Hd.
  assert (Hms : 0 <= ms < 86400000) by (apply Z.mod_pos_bound; lia).
  assert (Ht : t = 86400000 * (t / 86400000) + ms) by (apply Z.div_mod; lia).
  assert (Hh : 0 <= ms / 3600000 < 24) by (Z.div_mod_to_equations; lia).
  assert (Hmi : 0 <= ms / 60000 mod 60 < 60) by (apply Z.mod_pos_bound; lia).
  assert (Hs : 0 <= ms / 1000 mod 60 < 60) by (apply Z.mod_pos_bound; lia).
  assert (Hml : 0 <= ms mod 1000 < 1000) by (apply Z.mod_pos_bound; lia).
  assert (Hsum : 3600000 * (ms / 3600000) + 60000 * (ms / 60000 mod 60) + 1000 * (ms / 1000 mod 60) + ms mod 1000 = ms)
    by (clear; Z.div_mod_to_equations; lia).
  generalize dependent (ms / 3600000). intros h Hh. generalize dependent (ms / 60000 mod 60). intros mi Hmi.
  generalize dependent (ms / 1000 mod 60). intros sc Hs. generalize dependent (ms mod 1000). intros ml Hml Hsum.
  transitivity (86400000 * days (mkCivil c.(year) (number (digits 2 c.(month))) (number (digits 2 c.(day))))
    + 3600000 * number (digits 2 h) + 60000 * number (digits 2 mi) + 1000 * number (digits 2 sc) + number (digits 3 ml)).
  { reflexivity. }
  rewrite !number_digits by (split; lia).
  replace (mkCivil _ _ _) with c by (by destruct c). unfold c. rewrite days_civil. lia.
Qed.

Lemma digits_head w n c : head (digits w n) = Some c -> 48 <= c <= 57.
Proof. pose proof (digits_digit w n) as H. destruct (digits w n) as [|x l]; [done|]. intros [= <-]. by inversion H. Qed.

Lemma readIso_text t : Z.abs t <= MAX_TIME -> readIso (isoText t) = t.
Proof.
  intros Ht. pose proof (year_bound t Ht) as Hy. unfold isoText. cbv zeta.
  pose proof (restAt_text t) as Hr. cbv zeta in Hr. set (rest := [45] ++ _) in *. clearbody rest.
  set (y := year _) in *. clearbody y. unfold yearText. destruct ((0 <=? y) && (y <=? 9999)) eqn:E.
  - apply andb_true_iff in E as [? ?]. breflect.
    destruct (digits 4 y ++ rest) as [|c l] eqn:El; [pose proof (digits_length 4 y); by destruct (digits 4 y)|].
    assert (Hc : 48 <= c <= 57).
    { apply (digits_head 4 y). pose proof (digits_length 4 y). destruct (digits 4 y); [done|]. by injection El as -> _. }
    cbn [readIso]. rewrite (proj2 (Z.eqb_neq c 45)), (proj2 (Z.eqb_neq c 43)) by lia. rewrite <- El.
    rewrite take_app_length', drop_app_length' by (by rewrite digits_length).
    rewrite number_digits by (change (10 ^ Z.of_nat 4) with 10000; lia). exact Hr.
  - destruct (y <? 0) eqn:E0; breflect; cbn [app readIso]; cbn [Z.eqb Pos.eqb];
      rewrite take_app_length', drop_app_length' by (by rewrite digits_length);
      rewrite number_digits by (split; [lia|done]).
    + by replace (- Z.abs y) with y by lia.
    + by replace (Z.abs y) with y by lia.
Qed.

(** Every date survives being printed and read. *)
Lemma parseIso_text d : validDate d = true -> parseIso (toISOString d) = Some d.
Proof.
  destruct d as [|t]; [done|]. cbn. intros Ht. unfold parseIso. rewrite readIso_text by (by apply Z.leb_le).
  by rewrite Ht, bool_decide_eq_true_2.
Qed.

Lemma parseIso_some s d : parseIso s = Some d -> validDate d = true /\ toISOString d = s.
Proof.
  unfold parseIso. destruct (_ && _) eqn:E; [|done]. apply andb_true_iff in E as [E1 E2].
  apply bool_decide_eq_true in E2. intros [= <-]. by split.
Qed.

Example epoch_text : toISOString (DateAt 1709210096789) = js "2024-02-29T12:34:56.789Z".
Proof. vm_compute. reflexivity. Qed.
Example far_text : toISOString (DateAt (-MAX_TIME)) = js "-271821-04-20T00:00:00.000Z".
Proof. vm_compute. reflexivity. Qed.
