(* ===== verification/Json.v ===== *)
(** * JSON values: what [JSON.stringify] keeps of a value and what
    [JSON.parse] gives back.

    A document is the value the parser returns for the text the serializer
    wrote: members whose value is [undefined] are left out, [undefined] in an
    array and numbers that are not finite become [null].  Keys are unique and
    keep their order; [jsonSize] is the byte length of the UTF-8 text. *)
From S2P Require Import Prelude JsMap Errors Ids.

(** Induction on values, through arrays and objects. *)
Section Induction.
  Context (P : JsValue -> Prop).
  Context (Hundef : P VUndefined) (Hnull : P VNull) (Hbool : forall b, P (VBool b))
    (Hnum : forall n, P (VNum n)) (Hstr : forall s, P (VStr s))
    (Harr : forall l, Forall P l -> P (VArr l))
    (Hobj : forall ms, Forall (fun e => P e.2) ms -> P (VObj ms)).

Fixpoint JsValue_induction (v : JsValue) : P v :=
  match v with
  | VUndefined => Hundef
  | VNull => Hnull
  | VBool b => Hbool b
  | VNum n => Hnum n
  | VStr s => Hstr s
  | VArr l =>
      Harr l ((fix go l := match l return Forall P l with
                           | [] => List.Forall_nil _
                           | x :: l' => List.Forall_cons _ _ _ (JsValue_induction x) (go l')
                           end) l)
  | VObj ms =>
      Hobj ms ((fix go ms := match ms return Forall (fun e => P e.2) ms with
                             | [] => List.Forall_nil _
                             | e :: ms' => List.Forall_cons _ _ _ (JsValue_induction e.2) (go ms')
                             end) ms)
  end.
End Induction.

#[global] Instance JsValue_eq_dec : EqDecision JsValue.
Proof.
  refine (fix go x y : Decision (x = y) :=
    match x, y with
    | VUndefined, VUndefined => left eq_refl
    | VNull, VNull => left eq_refl
    | VBool b, VBool c => cast_if (decide (b = c))
    | VNum n, VNum m => cast_if (decide (n = m))
    | VStr s, VStr t => cast_if (decide (s = t))
    | VArr l, VArr k => cast_if (@list_eq_dec _ go l k)
    | VObj l, VObj k => cast_if (@list_eq_dec _ (@prod_eq_dec string _ JsValue go) l k)
    | _, _ => right _
    end); clear go; abstract congruence.
Defined.

(** [input.k]: [undefined] when the object has no such member. *)
Definition field (k : string) (ms : list (string * JsValue)) : JsValue :=
  match JsMap.get k ms with Some v => v | None => VUndefined end.

(** [x == null]. *)
Definition nullish (v : JsValue) : bool :=
  match v with VUndefined | VNull => true | _ => false end.

(** [JSON.stringify] writes [null] for numbers that are not finite. *)
Definition finite (n : num) : bool :=
  match n with
  | Int _ => true
  | NonInt t =>
      negb (String.eqb t "NaN" || String.eqb t "Infinity" || String.eqb t "-Infinity")
  end.

(** The value [JSON.parse] returns for the text [JSON.stringify] writes. *)
Fixpoint jsonValue (v : JsValue) : JsValue :=
  match v with
  | VUndefined => VNull
  | VNum n => if finite n then VNum n else VNull
  | VArr l => VArr (List.map jsonValue l)
  | VObj ms =>
      VObj (List.flat_map (fun e => match e.2 with
                                    | VUndefined => []
                                    | _ => [(e.1, jsonValue e.2)]
                                    end) ms)
  | _ => v
  end.

(** The members of an object literal as the parser returns them. *)
Definition jsonMembers (ms : list (string * JsValue)) : list (string * JsValue) :=
  List.flat_map (fun e => match e.2 with VUndefined => [] | _ => [(e.1, jsonValue e.2)] end) ms.

(** A value [JSON.parse] may return. *)
Definition isJson (v : JsValue) : Prop := jsonValue v = v.

(** ** Size of the text. *)

Definition isHigh (c : Z) : bool := (55296 <=? c) && (c <=? 56319).
Definition isLow (c : Z) : bool := (56320 <=? c) && (c <=? 57343).

(** UTF-8 bytes of a string's content as [JSON.stringify] escapes it. *)
Fixpoint contentSize (s : jstring) : Z :=
  match s with
  | [] => 0
  | c :: s' =>
      if (c =? 34) || (c =? 92) || (c =? 8) || (c =? 9) || (c =? 10) || (c =? 12) || (c =? 13)
      then 2 + contentSize s'
      else if c <? 32 then 6 + contentSize s'
      else if c <? 128 then 1 + contentSize s'
      else if c <? 2048 then 2 + contentSize s'
      else if isHigh c then
        match s' with
        | d :: s'' => if isLow d then 4 + contentSize s'' else 6 + contentSize s'
        | [] => 6
        end
      else if isLow c then 6 + contentSize s'
      else 3 + contentSize s'
  end.

(** Decimal digits of a natural number, at most [fuel] of them. *)
Fixpoint digits (fuel : nat) (n : Z) : Z :=
  match fuel with
  | O => 0
  | S f => if n <? 10 then 1 else 1 + digits f (n / 10)
  end.

Definition numSize (n : num) : Z :=
  match n with
  | Int z => (if z <? 0 then 1 else 0) + digits 21 (Z.abs z)
  | NonInt t => if finite n then Z.of_nat (String.length t) else 4
  end.

(** Bytes of [JSON.stringify v] in UTF-8. *)
Fixpoint jsonSize (v : JsValue) : Z :=
  match v with
  | VUndefined | VNull => 4
  | VBool true => 4
  | VBool false => 5
  | VNum n => numSize n
  | VStr s => 2 + contentSize s
  | VArr l => 2 + fold_right Z.add 0 (List.map jsonSize l) + Z.max 0 (Z.of_nat (length l) - 1)
  | VObj ms =>
      let sizes := List.flat_map (fun e => match e.2 with
        | VUndefined => []
        | _ => [2 + contentSize (js e.1) + 1 + jsonSize e.2]
        end) ms in
      2 + fold_right Z.add 0 sizes + Z.max 0 (Z.of_nat (length sizes) - 1)
  end.

(** ** Facts. *)

Lemma jsonValue_defined v : jsonValue v <> VUndefined.
Proof. destruct v; cbn; try done. by destruct (finite n). Qed.

Lemma jsonValue_idemp v : jsonValue (jsonValue v) = jsonValue v.
Proof.
  induction v as [| | | | |l IH|ms IH] using JsValue_induction; try done.
  - cbn. destruct (finite n) eqn:E; cbn; [by rewrite E|done].
  - cbn. f_equal. rewrite List.map_map. induction IH as [|x l Hx Hl IH]; [done|].
    cbn. by rewrite Hx, IH.
  - cbn. f_equal. induction IH as [|[k x] ms Hx Hms IH]; [done|]. cbn [List.flat_map].
    cbn [snd fst]. destruct (decide (x = VUndefined)) as [->|Hne]; [exact IH|].
    assert (Heq : match x with VUndefined => [] | _ => [(k, jsonValue x)] end = [(k, jsonValue x)])
      by (by destruct x).
    rewrite Heq. cbn [app List.flat_map snd fst]. rewrite IH. cbn [snd] in Hx. rewrite Hx.
    pose proof (jsonValue_defined x). by destruct (jsonValue x).
Qed.

Lemma jsonMembers_app a b : jsonMembers (a ++ b) = jsonMembers a ++ jsonMembers b.
Proof. apply List.flat_map_app. Qed.

Lemma jsonMembers_defined k v ms :
  v <> VUndefined -> jsonMembers ((k, v) :: ms) = (k, jsonValue v) :: jsonMembers ms.
Proof. by destruct v. Qed.

(** Looking a member up before or after the trip. *)
Lemma jsonMembers_keys ms : sublist (JsMap.keys (jsonMembers ms)) (JsMap.keys ms).
Proof.
  induction ms as [|[k v] ms IH]; [done|].
  destruct (decide (v = VUndefined)) as [->|Hv]; cbn; [by constructor|].
  fold (jsonMembers ms). destruct v; try done; by constructor.
Qed.

Lemma get_jsonMembers k ms :
  NoDup (JsMap.keys ms) ->
  JsMap.get k (jsonMembers ms) =
    match JsMap.get k ms with
    | None | Some VUndefined => None
    | Some v => Some (jsonValue v)
    end.
Proof.
  induction ms as [|[k' v] ms IH]; [done|]. unfold JsMap.keys in *. cbn [fmap list_fmap fst].
  intros [Hn Hd]%NoDup_cons. cbn [JsMap.get].
  destruct (decide (v = VUndefined)) as [->|Hv].
  - change (jsonMembers ((k', VUndefined) :: ms)) with (jsonMembers ms).
    destruct (decide (k = k')) as [->|Hk]; [|by apply IH].
    apply JsMap.get_None. intros Hin. apply Hn. eapply elem_of_sublist; [exact Hin|].
    apply jsonMembers_keys.
  - rewrite jsonMembers_defined by done. cbn [JsMap.get].
    destruct (decide (k = k')); [by destruct v|by apply IH].
Qed.

Lemma jsonMembers_fixed ms : isJson (VObj ms) <-> jsonMembers ms = ms.
Proof. unfold isJson. cbn. fold (jsonMembers ms). split; [by intros [= ->]|by intros ->]. Qed.

Lemma jsonMembers_idemp ms : jsonMembers (jsonMembers ms) = jsonMembers ms.
Proof. apply jsonMembers_fixed. apply (jsonValue_idemp (VObj ms)). Qed.

(** Overwriting a member commutes with the trip. *)
Lemma jsonMembers_set k v v0 ms :
  JsMap.get k ms = Some v0 -> v0 <> VUndefined -> v <> VUndefined ->
  jsonMembers (JsMap.set k v ms) = JsMap.set k (jsonValue v) (jsonMembers ms).
Proof.
  intros Hg H0 Hv. induction ms as [|[k' x] ms IH]; [done|]. cbn [JsMap.get] in Hg. cbn [JsMap.set].
  destruct (decide (k = k')) as [->|Hk].
  - injection Hg as ->. rewrite !jsonMembers_defined by done. cbn [JsMap.set]. by rewrite decide_True.
  - destruct (decide (x = VUndefined)) as [->|Hx].
    + change (jsonMembers (JsMap.set k v ms) = JsMap.set k (jsonValue v) (jsonMembers ms)). by apply IH.
    + rewrite !jsonMembers_defined by done. cbn [JsMap.set]. rewrite decide_False by done. by rewrite IH.
Qed.

(** No member of a parsed document is [undefined]. *)
Lemma isJson_defined k ms : jsonMembers ms = ms -> JsMap.get k ms <> Some VUndefined.
Proof.
  intros Hf. rewrite <- Hf. clear Hf. induction ms as [|[k' v] ms IH]; [done|].
  destruct (decide (v = VUndefined)) as [->|Hv]; [exact IH|].
  rewrite jsonMembers_defined by done. cbn [JsMap.get].
  destruct (decide (k = k')); [|exact IH]. intros [= H]. by apply jsonValue_defined in H.
Qed.

(** The text has the same size after the trip. *)
Lemma jsonSize_json v : jsonSize (jsonValue v) = jsonSize v.
Proof.
  induction v as [| | | | |l IH|ms IH] using JsValue_induction; try done.
  - cbn. destruct n as [z|t]; [done|]. cbn. by destruct (negb _) eqn:E; cbn; rewrite ?E.
  - cbn. rewrite List.length_map, List.map_map. do 2 f_equal. f_equal.
    induction IH as [|x l Hx Hl IH]; [done|]. cbn. by rewrite Hx, IH.
  - cbn. fold (jsonMembers ms).
    assert (List.flat_map (fun e => match e.2 with VUndefined => []
        | _ => [2 + contentSize (js e.1) + 1 + jsonSize e.2] end) (jsonMembers ms)
      = List.flat_map (fun e => match e.2 with VUndefined => []
        | _ => [2 + contentSize (js e.1) + 1 + jsonSize e.2] end) ms) as ->; [|done].
    induction IH as [|[k x] ms Hx Hms IH]; [done|].
    destruct (decide (x = VUndefined)) as [->|Hne]; [exact IH|].
    rewrite jsonMembers_defined by done. cbn [List.flat_map snd fst]. rewrite IH. cbn [snd] in Hx. rewrite Hx.
    pose proof (jsonValue_defined x). by destruct x, (jsonValue _).
Qed.

Lemma jsonSize_members ms : jsonSize (VObj (jsonMembers ms)) = jsonSize (VObj ms).
Proof. apply (jsonSize_json (VObj ms)). Qed.

#[global] Arguments jsonSize : simpl never.
#[global] Arguments jsonMembers : simpl never.
