(* ===== verification/Text.v ===== *)
(** * Text on the wire: UTF-8 and base64url.

    [Buffer.from(s)] writes a string (UTF-16 code units) as UTF-8 bytes and
    [new TextDecoder('utf-8', { fatal: true })] reads them back; cursors travel
    as base64url.  Both directions are defined and proved inverse. *)
From S2P Require Import Prelude Json.

(** ** UTF-8. *)

(** A lone surrogate is written as the replacement character U+FFFD. *)
Definition REPLACEMENT : list Z := [239; 191; 189].

Fixpoint utf8 (s : jstring) : list Z :=
  match s with
  | [] => []
  | c :: r =>
      if c <? 128 then c :: utf8 r
      else if c <? 2048 then 192 + c / 64 :: 128 + c mod 64 :: utf8 r
      else if isHigh c then
        match r with
        | d :: r' =>
            if isLow d then
              let p := 65536 + 1024 * (c - 55296) + (d - 56320) in
              240 + p / 262144 :: 128 + p / 4096 mod 64 :: 128 + p / 64 mod 64 :: 128 + p mod 64 :: utf8 r'
            else REPLACEMENT ++ utf8 r
        | [] => REPLACEMENT
        end
      else if isLow c then REPLACEMENT ++ utf8 r
      else 224 + c / 4096 :: 128 + c / 64 mod 64 :: 128 + c mod 64 :: utf8 r
  end.

Definition isContinuation (b : Z) : bool := (128 <=? b) && (b <=? 191).

(** The fatal decoder: overlong forms, encoded surrogates and values past
    U+10FFFF are refused. *)
Fixpoint fromUtf8 (b : list Z) : option jstring :=
  match b with
  | [] => Some []
  | a :: r =>
      if a <? 128 then cons a <$> fromUtf8 r
      else if a <? 194 then None
      else if a <? 224 then
        match r with
        | x :: r => if isContinuation x then cons (64 * (a - 192) + (x - 128)) <$> fromUtf8 r else None
        | _ => None
        end
      else if a <? 240 then
        match r with
        | x :: y :: r =>
            let c := 4096 * (a - 224) + 64 * (x - 128) + (y - 128) in
            if isContinuation x && isContinuation y && (2048 <=? c) && negb (isHigh c) && negb (isLow c)
            then cons c <$> fromUtf8 r else None
        | _ => None
        end
      else if a <? 245 then
        match r with
        | x :: y :: z :: r =>
            let p := 262144 * (a - 240) + 4096 * (x - 128) + 64 * (y - 128) + (z - 128) in
            if isContinuation x && isContinuation y && isContinuation z && (65536 <=? p) && (p <=? 1114111)
            then (fun s => 55296 + (p - 65536) / 1024 :: 56320 + (p - 65536) mod 1024 :: s) <$> fromUtf8 r
            else None
        | _ => None
        end
      else None
  end.

(** [new TextDecoder('utf-8', { fatal: true }).decode(bytes)] drops a leading
    byte-order mark. *)
Definition decodeText (b : list Z) : option jstring :=
  match b with
  | x :: y :: z :: r => if (x =? 239) && (y =? 187) && (z =? 191) then fromUtf8 r else fromUtf8 b
  | _ => fromUtf8 b
  end.

(** [!/[\uD800-\uDFFF]/u.test(s)]: no lone surrogate. *)
Fixpoint wellFormed (s : jstring) : bool :=
  match s with
  | [] => true
  | c :: r =>
      if isHigh c then match r with d :: r' => isLow d && wellFormed r' | [] => false end
      else negb (isLow c) && wellFormed r
  end.

Definition units (s : jstring) : Prop := Forall (fun c => 0 <= c < 65536) s.

(** Induction along a string, a surrogate pair at a time. *)
Lemma units_ind (P : jstring -> Prop) :
  P [] ->
  (forall c r, isHigh c = false -> P r -> P (c :: r)) ->
  (forall c, isHigh c = true -> P [c]) ->
  (forall c d r, isHigh c = true -> P r -> P (d :: r) -> P (c :: d :: r)) ->
  forall s, P s.
Proof.
  intros H0 H1 H2 H3 s. enough (P s /\ forall c, P (c :: s)) by tauto.
  induction s as [|d s [IH IHc]].
  - split; [done|]. intros c. destruct (isHigh c) eqn:E; [by apply H2|by apply H1].
  - split; [apply IHc|]. intros c. destruct (isHigh c) eqn:E; [by apply H3|apply H1; [done|apply IHc]].
Qed.

Lemma isHigh_range c : isHigh c = true <-> 55296 <= c <= 56319.
Proof. unfold isHigh. rewrite andb_true_iff, !Z.leb_le. done. Qed.
Lemma isLow_range c : isLow c = true <-> 56320 <= c <= 57343.
Proof. unfold isLow. rewrite andb_true_iff, !Z.leb_le. done. Qed.
Lemma isHigh_false c : isHigh c = false <-> c < 55296 \/ 56319 < c.
Proof. rewrite <- not_true_iff_false, isHigh_range. lia. Qed.
Lemma isLow_false c : isLow c = false <-> c < 56320 \/ 57343 < c.
Proof. rewrite <- not_true_iff_false, isLow_range. lia. Qed.

Lemma continuation_mod n : isContinuation (128 + n mod 64) = true.
Proof. unfold isContinuation. pose proof (Z.mod_pos_bound n 64). rewrite andb_true_iff, !Z.leb_le. lia. Qed.

Lemma fromUtf8_utf8 s : units s -> wellFormed s = true -> fromUtf8 (utf8 s) = Some s.
Proof.
  intros Hu. induction s as [|c r Hc IH|c Hc|c d r Hc IH _] using units_ind; intros Hw; [done| | |].
  - apply Forall_cons in Hu as [Hr Hu]. cbn [wellFormed] in Hw. rewrite Hc in Hw. apply andb_true_iff in Hw as [Hl Hw].
    apply negb_true_iff in Hl. specialize (IH Hu Hw). cbn [utf8].
    destruct (c <? 128) eqn:E1; breflect.
    { cbn [fromUtf8]. rewrite (proj2 (Z.ltb_lt c 128)) by lia. by rewrite IH. }
    destruct (c <? 2048) eqn:E2; breflect.
    { cbn [fromUtf8]. assert (2 <= c / 64 < 32) by (Z.div_mod_to_equations; lia).
      rewrite (proj2 (Z.ltb_ge _ 128)), (proj2 (Z.ltb_ge _ 194)), (proj2 (Z.ltb_lt _ 224)), continuation_mod, IH by lia.
      cbn. do 2 f_equal. Z.div_mod_to_equations; lia. }
    rewrite Hc, Hl. cbn [fromUtf8]. assert (0 <= c / 4096 < 16) by (Z.div_mod_to_equations; lia).
    rewrite (proj2 (Z.ltb_ge _ 128)), (proj2 (Z.ltb_ge _ 194)), (proj2 (Z.ltb_ge _ 224)), (proj2 (Z.ltb_lt _ 240)) by lia.
    replace (4096 * (224 + c / 4096 - 224) + 64 * (128 + c / 64 mod 64 - 128) + (128 + c mod 64 - 128)) with c
      by (Z.div_mod_to_equations; lia).
    rewrite !continuation_mod, Hc, Hl, (proj2 (Z.leb_le 2048 c)) by lia. by rewrite IH.
  - cbn in Hw. by rewrite Hc in Hw.
  - apply Forall_cons in Hu as [Hrc Hu]. apply Forall_cons in Hu as [Hrd Hu]. cbn [wellFormed] in Hw. rewrite Hc in Hw.
    apply andb_true_iff in Hw as [Hl Hw]. specialize (IH Hu Hw). cbn [utf8]. apply isHigh_range in Hc as Hcr.
    rewrite (proj2 (Z.ltb_ge c 128)), (proj2 (Z.ltb_ge c 2048)), Hc, Hl by lia. cbv zeta. apply isLow_range in Hl.
    set (p := 65536 + 1024 * (c - 55296) + (d - 56320)). assert (Hp : 65536 <= p <= 1114111) by lia.
    assert (0 <= p / 262144 < 5) by (Z.div_mod_to_equations; lia). cbn [fromUtf8].
    rewrite (proj2 (Z.ltb_ge _ 128)), (proj2 (Z.ltb_ge _ 194)), (proj2 (Z.ltb_ge _ 224)), (proj2 (Z.ltb_ge _ 240)), (proj2 (Z.ltb_lt _ 245)) by lia.
    replace (262144 * (240 + p / 262144 - 240) + 4096 * (128 + p / 4096 mod 64 - 128) + 64 * (128 + p / 64 mod 64 - 128)
      + (128 + p mod 64 - 128)) with p by (clearbody p; Z.div_mod_to_equations; lia).
    rewrite !continuation_mod, (proj2 (Z.leb_le 65536 p)), (proj2 (Z.leb_le p 1114111)) by lia. rewrite IH. cbn.
    do 2 f_equal; [unfold p; Z.div_mod_to_equations; lia|]. f_equal. unfold p. Z.div_mod_to_equations; lia.
Qed.

(** What the decoder returns is well formed. *)
Lemma fromUtf8_wellFormed_le n b s :
  (length b <= n)%nat -> Forall (fun x => 0 <= x < 256) b -> fromUtf8 b = Some s -> wellFormed s = true /\ units s.
Proof.
  revert b s. induction n as [|n IH]; intros b s Hn Hb; (destruct b as [|a r]; [intros [= <-]; split; [done|constructor]|]);
    [cbn in Hn; lia|]. apply Forall_cons in Hb as [Ha Hb]. cbn [length] in Hn. cbn [fromUtf8].
  assert (Hplain : forall c rest t, isHigh c = false -> isLow c = false -> 0 <= c < 65536 -> (length rest <= n)%nat ->
    Forall (fun x => 0 <= x < 256) rest -> cons c <$> fromUtf8 rest = Some t -> wellFormed t = true /\ units t).
  { intros c rest t Hh Hl Hc Hlen Hrest Ht. destruct (fromUtf8 rest) as [t'|] eqn:E; [|done]. injection Ht as <-.
    destruct (IH rest t' Hlen Hrest E) as [Hw Hu]. split; [cbn; by rewrite Hh, Hl|by constructor]. }
  destruct (a <? 128) eqn:E1; breflect.
  { apply Hplain; [apply isHigh_false; lia|apply isLow_false; lia|lia|lia|done]. }
  destruct (a <? 194) eqn:E2; [done|]. breflect. destruct (a <? 224) eqn:E3; breflect.
  { destruct r as [|x r]; [done|]. destruct (isContinuation x) eqn:Ex; [|done]. apply andb_true_iff in Ex as [? ?]. breflect.
    apply Forall_cons in Hb as [_ Hb]. cbn in Hn. apply Hplain; [apply isHigh_false; lia|apply isLow_false; lia|lia|lia|done]. }
  destruct (a <? 240) eqn:E4; breflect.
  { destruct r as [|x [|y r]]; [done..|]. cbv zeta. destruct (_ && _) eqn:Ex; [|done]. unfold isContinuation in Ex. breflect.
    apply Forall_cons in Hb as [_ Hb]. apply Forall_cons in Hb as [_ Hb]. cbn in Hn. apply Hplain; [done|done|lia|lia|done]. }
  destruct (a <? 245) eqn:E5; [|done]. breflect. destruct r as [|x [|y [|z r]]]; [done..|]. cbv zeta.
  destruct (_ && _) eqn:Ex; [|done]. unfold isContinuation in Ex. breflect. set (p := _ + (z - 128)) in *. clearbody p.
  do 3 (apply Forall_cons in Hb as [_ Hb]). cbn in Hn. destruct (fromUtf8 r) as [t|] eqn:E; [|done]. intros [= <-].
  destruct (IH r t ltac:(lia) Hb E) as [Hw Hu].
  assert (Hhi : 55296 <= 55296 + (p - 65536) / 1024 <= 56319) by (Z.div_mod_to_equations; lia).
  assert (Hlo : 56320 <= 56320 + (p - 65536) mod 1024 <= 57343) by (pose proof (Z.mod_pos_bound (p - 65536) 1024); lia).
  split; [|repeat constructor; try done; lia]. cbn [wellFormed].
  by rewrite (proj2 (isHigh_range _) Hhi), (proj2 (isLow_range _) Hlo).
Qed.

Definition bytesOf (b : list Z) : Prop := Forall (fun x => 0 <= x < 256) b.

Lemma decodeText_wellFormed b s : bytesOf b -> decodeText b = Some s -> wellFormed s = true /\ units s.
Proof.
  intros Hb. unfold decodeText. pose proof (fun r => fromUtf8_wellFormed_le (length r) r) as H.
  destruct b as [|x [|y [|z r]]]; try (intros Hs; by eapply H). destruct (_ && _); intros Hs; eapply H; try exact Hs; try done.
  by do 3 (apply Forall_cons in Hb as [_ Hb]).
Qed.

Lemma utf8_lone c d r : isHigh c = true -> isLow d = false -> utf8 (c :: d :: r) = REPLACEMENT ++ utf8 (d :: r).
Proof.
  intros Hc Hd. apply isHigh_range in Hc as Hr. generalize (eq_refl (utf8 (d :: r))). generalize (utf8 (d :: r)) at 1 3.
  intros l ->. cbn [utf8]. by rewrite (proj2 (Z.ltb_ge c 128)), (proj2 (Z.ltb_ge c 2048)), Hc, Hd by lia.
Qed.

Lemma utf8_bytes s : units s -> bytesOf (utf8 s).
Proof.
  induction s as [|c r Hc IH|c Hc|c d r Hc IH IHd] using units_ind; intros Hu; [constructor| | |].
  - apply Forall_cons in Hu as [Hr Hu]. specialize (IH Hu). cbn [utf8]. rewrite Hc.
    assert (HM : forall n, 0 <= 128 + n mod 64 < 256) by (intros n; pose proof (Z.mod_pos_bound n 64); lia).
    destruct (c <? 128) eqn:E1; breflect; [constructor; [lia|done]|].
    destruct (c <? 2048) eqn:E2; breflect; [repeat (constructor; [first [apply HM|Z.div_mod_to_equations; lia]|]); done|].
    destruct (isLow c); [repeat (constructor; [lia|]); done|].
    repeat (constructor; [first [apply HM|Z.div_mod_to_equations; lia]|]); done.
  - apply isHigh_range in Hc as Hr. cbn. rewrite (proj2 (Z.ltb_ge c 128)), (proj2 (Z.ltb_ge c 2048)), Hc by lia.
    repeat (constructor; [lia|]); constructor.
  - apply Forall_cons in Hu as [Hrc Hu]. pose proof Hu as Hu'. apply Forall_cons in Hu as [Hrd Hu]. specialize (IH Hu). specialize (IHd Hu').
    destruct (isLow d) eqn:El; [|rewrite utf8_lone by done; repeat (constructor; [lia|]); exact IHd].
    apply isHigh_range in Hc as Hr. cbn [utf8]. rewrite (proj2 (Z.ltb_ge c 128)), (proj2 (Z.ltb_ge c 2048)), Hc, El by lia.
    cbv zeta. apply isLow_range in El.
    assert (HM : forall n, 0 <= 128 + n mod 64 < 256) by (intros n; pose proof (Z.mod_pos_bound n 64); lia).
    repeat (constructor; [first [apply HM|Z.div_mod_to_equations; lia]|]); done.
Qed.

(** Printable ASCII text is its own encoding. *)
Lemma utf8_ascii s : Forall (fun c => 0 <= c < 128) s -> utf8 s = s.
Proof. induction 1 as [|c s Hc Hs IH]; [done|]. cbn. rewrite (proj2 (Z.ltb_lt c 128)) by lia. by rewrite IH. Qed.

Lemma wellFormed_ascii s : Forall (fun c => 0 <= c < 128) s -> wellFormed s = true.
Proof.
  induction 1 as [|c s Hc Hs IH]; [done|]. cbn. rewrite (proj2 (isHigh_false c)), (proj2 (isLow_false c)) by lia. done.
Qed.

(** ** Base64url. *)
Module Base64url.

Definition char (n : Z) : Z :=
  if n <? 26 then 65 + n else if n <? 52 then 71 + n else if n <? 62 then n - 4 else if n =? 62 then 45 else 95.

Definition value (c : Z) : Z :=
  if isUpper c then c - 65 else if isLower c then c - 71 else if isDigit c then c + 4 else if c =? 45 then 62 else 63.

(** [/^[A-Za-z0-9_-]+$/], one character. *)
Definition isChar (c : Z) : bool := isUpper c || isLower c || isDigit c || (c =? 95) || (c =? 45).

(** [buffer.toString('base64url')]: no padding. *)
Fixpoint encode (b : list Z) : jstring :=
  match b with
  | x :: y :: z :: r =>
      char (x / 4) :: char (16 * (x mod 4) + y / 16) :: char (4 * (y mod 16) + z / 64) :: char (z mod 64) :: encode r
  | [x; y] => [char (x / 4); char (16 * (x mod 4) + y / 16); char (4 * (y mod 16))]
  | [x] => [char (x / 4); char (16 * (x mod 4))]
  | [] => []
  end.

(** [Buffer.from(text, 'base64url')] of a text of the alphabet: leftover bits
    are dropped. *)
Fixpoint decode (s : jstring) : list Z :=
  match s with
  | a :: b :: c :: d :: r =>
      4 * value a + value b / 16 :: 16 * (value b mod 16) + value c / 4 :: 64 * (value c mod 4) + value d :: decode r
  | [a; b; c] => [4 * value a + value b / 16; 16 * (value b mod 16) + value c / 4]
  | [a; b] => [4 * value a + value b / 16]
  | _ => []
  end.

Lemma value_char n : 0 <= n < 64 -> value (char n) = n.
Proof.
  intros H. unfold char. repeat (destruct (_ <? _) eqn:?; breflect); unfold value, isUpper, isLower, isDigit.
  - rewrite (proj2 (Z.leb_le 65 _)), (proj2 (Z.leb_le _ 90)) by lia. cbn. lia.
  - rewrite (proj2 (Z.leb_gt _ 90)), (proj2 (Z.leb_le 97 _)), (proj2 (Z.leb_le _ 122)), andb_false_r by lia. cbn. lia.
  - rewrite (proj2 (Z.leb_gt 65 _)), (proj2 (Z.leb_gt 97 _)), (proj2 (Z.leb_le 48 _)), (proj2 (Z.leb_le _ 57)) by lia. cbn. lia.
  - destruct (n =? 62) eqn:E; breflect; cbn; lia.
Qed.

Lemma isChar_char n : 0 <= n < 64 -> isChar (char n) = true.
Proof.
  intros H. unfold isChar, char, isUpper, isLower, isDigit. rewrite !orb_true_iff, !andb_true_iff, !Z.leb_le, !Z.eqb_eq.
  repeat (destruct (_ <? _) eqn:?; breflect); [lia..|]. destruct (n =? 62); lia.
Qed.

(** Induction three bytes at a time. *)
Lemma triples_ind (P : list Z -> Prop) :
  P [] -> (forall x, P [x]) -> (forall x y, P [x; y]) -> (forall x y z r, P r -> P (x :: y :: z :: r)) -> forall b, P b.
Proof.
  intros H0 H1 H2 H3 b. enough (P b /\ (forall x, P (x :: b)) /\ forall x y, P (x :: y :: b)) by tauto.
  induction b as [|z b (IH & IHx & IHy)]; [auto|]. split; [apply IHx|]. split; [intros; apply IHy|intros; by apply H3].
Qed.

(** A digit's high and low parts. *)
Lemma high_part k a b : 0 < k -> 0 <= b < k -> (k * a + b) / k = a.
Proof. intros Hk Hb. rewrite Z.add_comm, Z.mul_comm, Z.div_add, Z.div_small by lia. lia. Qed.
Lemma low_part k a b : 0 <= b < k -> (k * a + b) mod k = b.
Proof. intros Hb. rewrite Z.add_comm, Z.mul_comm, Z_mod_plus_full, Z.mod_small by lia. lia. Qed.

Lemma byte_parts x : 0 <= x < 256 ->
  (0 <= x / 4 < 64 /\ 0 <= x mod 4 < 4) /\ (0 <= x / 16 < 16 /\ 0 <= x mod 16 < 16) /\ (0 <= x / 64 < 4 /\ 0 <= x mod 64 < 64).
Proof. intros H. Z.div_mod_to_equations. lia. Qed.

Lemma decode_encode b : bytesOf b -> decode (encode b) = b.
Proof.
  assert (E4 : forall n, 4 * (n / 4) + n mod 4 = n) by (intros n; symmetry; by apply Z.div_mod).
  assert (E16 : forall n, 16 * (n / 16) + n mod 16 = n) by (intros n; symmetry; by apply Z.div_mod).
  assert (E64 : forall n, 64 * (n / 64) + n mod 64 = n) by (intros n; symmetry; by apply Z.div_mod).
  assert (P0 : forall k a, 0 < k -> k * a / k = a) by (intros k a Hk; rewrite Z.mul_comm; by apply Z.div_mul; lia).
  induction b as [|x|x y|x y z r IH] using triples_ind; intros Hb; [done| | |]; unfold bytesOf in *;
    repeat match goal with
    | H : Forall _ (_ :: _) |- _ => let K := fresh in apply Forall_cons in H as [K H]; apply byte_parts in K
    end; cbn [encode decode]; repeat (rewrite value_char by lia).
  - rewrite (P0 16) by lia. by rewrite E4.
  - rewrite (high_part 16), !low_part, (P0 4) by lia. by rewrite E4, E16.
  - rewrite (high_part 16), (high_part 4), !low_part by lia. rewrite E4, E16, E64. by rewrite IH.
Qed.

Lemma encode_chars b : bytesOf b -> Forall (fun c => isChar c = true) (encode b).
Proof.
  induction b as [|x|x y|x y z r IH] using triples_ind; intros Hb; [constructor| | |];
    unfold bytesOf in *; repeat match goal with H : Forall _ (_ :: _) |- _ => apply Forall_cons in H as [? H] end; cbn [encode];
    repeat (constructor; [apply isChar_char; Z.div_mod_to_equations; lia|]); auto.
Qed.

(** Four characters for every three bytes, rounded up. *)
Lemma encode_length b : 3 * jlength (encode b) <= 4 * Z.of_nat (length b) + 2.
Proof. unfold jlength. induction b as [|x|x y|x y z r IH] using triples_ind; cbn [encode length] in *; lia. Qed.
End Base64url.
