(* ===== verification/JsonText.v ===== *)
(** * JSON text: the bounded parser of request bodies ([shared/http/json.ts])
    and [JSON.parse] beside it.

    A parser reads the text left to read and gives a value and the text after
    it.  [strict] selects the request-body parser; without it the same grammar
    is [JSON.parse]: any depth, any escape, repeated keys keep the last value
    and numbers past the largest double are infinite.  Every call of the parser
    on a nested value is given one less unit of fuel and every turn of a loop
    another; [fuel_enough] shows that the length of the text is enough of both. *)
From S2P Require Import Prelude JsMap Errors Ids IsoDate Json Text.

(** ** Numbers: [Number(text)] of a decimal literal. *)

(** A double: [significand * 2^exponent], the significand of a normal number
    having 53 bits. *)
Inductive double : Type :=
| Finite (negative : bool) (significand exponent : Z)
| Infinite (negative : bool).

Definition MIN_EXPONENT : Z := -1074.

(** Round [a / b] to an integer, ties to even. *)
Definition roundEven (a b : Z) : Z :=
  let q := a / b in
  let r := a mod b in
  if (2 * r <? b) || ((2 * r =? b) && Z.even q) then q else q + 1.

(** The exponent of the last bit of a double near [a / b]. *)
Definition lastBit (a b : Z) : Z :=
  let l := Z.log2 a - Z.log2 b in
  let l := if a * 2 ^ Z.max 0 (- l) <? b * 2 ^ Z.max 0 l then l - 1 else l in
  Z.max MIN_EXPONENT (l - 52).

(** The double nearest to [m * 10^e]. *)
Definition toDouble (negative : bool) (m e : Z) : double :=
  if m =? 0 then Finite negative 0 0 else
  let a := m * 10 ^ Z.max 0 e in
  let b := 10 ^ Z.max 0 (- e) in
  let q := lastBit a b in
  let n := roundEven (a * 2 ^ Z.max 0 (- q)) (b * 2 ^ Z.max 0 q) in
  let '(n, q) := if n =? 2 ^ 53 then (2 ^ 52, q + 1) else (n, q) in
  if 971 <? q then Infinite negative else Finite negative n q.

Definition isFinite (d : double) : bool := match d with Finite _ _ _ => true | Infinite _ => false end.

#[global] Instance double_eq_dec : EqDecision double.
Proof. solve_decision. Defined.

(** ** Values. *)
Inductive Value : Type :=
| TNull
| TBool (b : bool)
| TNum (d : double)
| TStr (s : jstring)
| TArr (items : list Value)
| TObj (members : list (jstring * Value)).

(** ** Parsers. *)

(** [OutOfFuel] is not an outcome of the code: [fuel_enough] excludes it. *)
Inductive parsed (A : Type) : Type :=
| Parsed (a : A) (rest : jstring)
| SyntaxError
| OutOfFuel.
Arguments Parsed {A} _ _.
Arguments SyntaxError {A}.
Arguments OutOfFuel {A}.

Definition andThen {A B} (p : parsed A) (k : A -> jstring -> parsed B) : parsed B :=
  match p with Parsed a r => k a r | SyntaxError => SyntaxError | OutOfFuel => OutOfFuel end.

Notation "'let*' ( a , r ) := p 'in' q" := (andThen p (fun a r => q))
  (at level 10, a pattern at level 0, r pattern at level 0, p at level 200, q at level 200).

Module Parser.
(** [this.text[this.#i] ?? '']; no character is negative. *)
(** @src src/shared/http/json.ts:29-31 Parser.#peek *)
Definition peek (s : jstring) : Z := match s with c :: _ => c | [] => -1 end.

(** [' \t\r\n'.includes(c)]. *)
(** @src src/shared/http/json.ts:23-24 Parser.#ws *)
Definition isBlank (c : Z) : bool := (c =? 32) || (c =? 9) || (c =? 13) || (c =? 10).

(** @src src/shared/http/json.ts:20-27 Parser.#ws *)
Fixpoint ws (s : jstring) : jstring :=
  match s with
  | c :: r => if isBlank c then ws r else s
  | [] => []
  end.

(** @src src/shared/http/json.ts:33-38 Parser.#expect *)
Definition expect (character : Z) (s : jstring) : parsed unit :=
  match s with
  | c :: r => if c =? character then Parsed tt r else SyntaxError
  | [] => SyntaxError
  end.

(** [this.text.startsWith(word, this.#i)]. *)
Fixpoint startsWith (word s : jstring) : bool :=
  match word, s with
  | [], _ => true
  | w :: word, c :: s => (c =? w) && startsWith word s
  | _ :: _, [] => false
  end.

(** @src src/shared/http/json.ts:62-68 Parser.#literal *)
Definition literal (word : jstring) (value : Value) (s : jstring) : parsed Value :=
  if startsWith word s then Parsed value (drop (length word) s) else SyntaxError.

(** Digits: the digits at the front and the text after them. *)
Fixpoint digitsOf (s : jstring) : jstring * jstring :=
  match s with
  | c :: r => if isDigit c then let '(ds, t) := digitsOf r in (c :: ds, t) else ([], s)
  | [] => ([], [])
  end.

(** [(0|[1-9]\d* )]. *)
(** @src src/shared/http/json.ts:71-71 Parser.#number (integer part of the pattern) *)
Definition integerPart (s : jstring) : jstring * jstring :=
  if peek s =? 48 then ([48], tail s) else digitsOf s.

(** [(\.\d+)?]. *)
(** @src src/shared/http/json.ts:71-71 Parser.#number (fraction of the pattern) *)
Definition fraction (s : jstring) : jstring * jstring :=
  if peek s =? 46 then match digitsOf (tail s) with ([], _) => ([], s) | (ds, t) => (ds, t) end else ([], s).

(** [([eE][+-]?\d+)?], its value. *)
(** @src src/shared/http/json.ts:71-71 Parser.#number (exponent of the pattern) *)
Definition exponentPart (s : jstring) : Z * jstring :=
  if (peek s =? 101) || (peek s =? 69) then
    let r := tail s in
    let sign := if peek r =? 45 then -1 else 1 in
    match digitsOf (if (peek r =? 43) || (peek r =? 45) then tail r else r) with
    | ([], _) => (0, s)
    | (ds, t) => (sign * number ds, t)
    end
  else (0, s).

(** [/^-?(0|[1-9]\d* )(\.\d+)?([eE][+-]?\d+)?/] and [Number(match[0])]. *)
(** @src src/shared/http/json.ts:70-79 Parser.#number *)
Definition numberAt (strict : bool) (s : jstring) : parsed Value :=
  let negative := peek s =? 45 in
  let '(ds, r) := integerPart (if negative then tail s else s) in
  match ds with
  | [] => SyntaxError
  | _ =>
      let '(fs, r) := fraction r in
      let '(e, r) := exponentPart r in
      let d := toDouble negative (number (ds ++ fs)) (e - jlength fs) in
      if strict && negb (isFinite d) then SyntaxError else Parsed (TNum d) r
  end.

(** [/^[0-9a-fA-F]{4}$/] and [parseInt(hex, 16)]. *)
Definition hexOf (c : Z) : option Z :=
  if isDigit c then Some (c - 48)
  else if (97 <=? c) && (c <=? 102) then Some (c - 87)
  else if (65 <=? c) && (c <=? 70) then Some (c - 55)
  else None.

(** @src src/shared/http/json.ts:142-149 Parser.#unit *)
Definition unitOf (a b c d : Z) : option Z :=
  match hexOf a, hexOf b, hexOf c, hexOf d with
  | Some w, Some x, Some y, Some z => Some (4096 * w + 256 * x + 16 * y + z)
  | _, _, _, _ => None
  end.

(** The one-letter escapes. *)
(** @src src/shared/http/json.ts:96-116 Parser.#string (escapes) *)
Definition escapeOf (e : Z) : option Z :=
  if (e =? 34) || (e =? 92) || (e =? 47) then Some e
  else if e =? 98 then Some 8
  else if e =? 102 then Some 12
  else if e =? 110 then Some 10
  else if e =? 114 then Some 13
  else if e =? 116 then Some 9
  else None.

Definition prefixed (p : list Z) (r : parsed jstring) : parsed jstring :=
  match r with Parsed o t => Parsed (p ++ o) t | SyntaxError => SyntaxError | OutOfFuel => OutOfFuel end.

Section Methods.
  Context (strict : bool).

(** The text of a string after its opening quote. *)
(** @src src/shared/http/json.ts:81-140 Parser.#string *)
Fixpoint chars (s : jstring) : parsed jstring :=
  match s with
  | [] => SyntaxError
  | c :: r =>
      if c =? 34 then Parsed [] r
      else if c <? 32 then SyntaxError
      else if negb (c =? 92) then prefixed [c] (chars r)
      else match r with
           | [] => SyntaxError
           | e :: r =>
               if e =? 117 then
                 match r with
                 | a :: b :: c :: d :: r =>
                     match unitOf a b c d with
                     | None => SyntaxError
                     | Some unit =>
                         if strict && isHigh unit then
                           match r with
                           | b0 :: u0 :: a' :: b' :: c' :: d' :: r =>
                               if (b0 =? 92) && (u0 =? 117) then
                                 match unitOf a' b' c' d' with
                                 | None => SyntaxError
                                 | Some low => if isLow low then prefixed [unit; low] (chars r) else SyntaxError
                                 end
                               else SyntaxError
                           | _ => SyntaxError
                           end
                         else if strict && isLow unit then SyntaxError
                         else prefixed [unit] (chars r)
                     end
                 | _ => SyntaxError
                 end
               else match escapeOf e with Some x => prefixed [x] (chars r) | None => SyntaxError end
           end
  end.

(** @src src/shared/http/json.ts:81-82 Parser.#string (opening quote) *)
Definition string (s : jstring) : parsed jstring := let* (_, r) := expect 34 s in chars r.

(** The loop of an array, after the first [ws]. *)
(** @src src/shared/http/json.ts:159-168 Parser.#array (loop) *)
Fixpoint elements (value : jstring -> parsed Value) (fuel : nat) (s : jstring) : parsed (list Value) :=
  match fuel with
  | O => OutOfFuel
  | S fuel =>
      let* (v, r) := value s in
      let r := ws r in
      if peek r =? 44 then
        let* (vs, r) := elements value fuel (tail r) in
        Parsed (v :: vs) r
      else let* (_, r) := expect 93 r in Parsed [v] r
  end.

(** @src src/shared/http/json.ts:151-169 Parser.#array *)
Definition array (value : jstring -> parsed Value) (s : jstring) : parsed Value :=
  let* (_, r) := expect 91 s in
  let r := ws r in
  if peek r =? 93 then Parsed (TArr []) (tail r)
  else let* (vs, r) := elements value (length s) r in Parsed (TArr vs) r.

(** The loop of an object; [output] holds the members read so far. *)
(** @src src/shared/http/json.ts:180-194 Parser.#object (loop) *)
Fixpoint members (value : jstring -> parsed Value) (fuel : nat) (output : list (jstring * Value)) (s : jstring)
    : parsed (list (jstring * Value)) :=
  match fuel with
  | O => OutOfFuel
  | S fuel =>
      let* (key, r) := string (ws s) in
      if strict && JsMap.has key output then SyntaxError
      else
        let* (_, r) := expect 58 (ws r) in
        let* (v, r) := value r in
        let output := JsMap.set key v output in
        let r := ws r in
        if peek r =? 44 then members value fuel output (tail r)
        else let* (_, r) := expect 125 r in Parsed output r
  end.

(** @src src/shared/http/json.ts:13-13 MAX_DEPTH *)
Definition MAX_DEPTH : Z := 8.

(** @src src/shared/http/json.ts:171-195 Parser.#object *)
Definition object (depth : Z) (value : jstring -> parsed Value) (s : jstring) : parsed Value :=
  if strict && (MAX_DEPTH <? depth) then SyntaxError
  else
    let* (_, r) := expect 123 s in
    let r := ws r in
    if peek r =? 125 then Parsed (TObj []) (tail r)
    else let* (ms, r) := members value (length s) [] r in Parsed (TObj ms) r.

(** @src src/shared/http/json.ts:49-60 Parser.#value *)
Fixpoint value (fuel : nat) (depth : Z) (s : jstring) : parsed Value :=
  match fuel with
  | O => OutOfFuel
  | S fuel =>
      if strict && (MAX_DEPTH <? depth) then SyntaxError
      else
        let s := ws s in
        let character := peek s in
        if character =? 123 then object depth (value fuel (depth + 1)) s
        else if character =? 91 then array (value fuel (depth + 1)) s
        else if character =? 34 then let* (t, r) := string s in Parsed (TStr t) r
        else if character =? 116 then literal (js "true") (TBool true) s
        else if character =? 102 then literal (js "false") (TBool false) s
        else if character =? 110 then literal (js "null") TNull s
        else numberAt strict s
  end.
End Methods.

(** What is left after the value must be blank. *)
Definition complete (p : parsed Value) : parsed Value :=
  let* (v, r) := p in
  match ws r with [] => Parsed v [] | _ => SyntaxError end.

(** @src src/shared/http/json.ts:40-47 Parser.parseDocument *)
Definition parseDocument (text : jstring) : parsed Value :=
  let s := ws text in
  if negb (peek s =? 123) then SyntaxError
  else complete (object true 1 (value true (length text) 2) s).

End Parser.

(** [JSON.parse(text)]. *)
Definition parse (text : jstring) : parsed Value := Parser.complete (Parser.value false (S (length text)) 1 text).

(** @src src/shared/http/json.ts:10-11 invalidBody *)
Definition invalidBody : Failure := fail_with invalid "invalid request body" "http.invalid_body".

(** @src src/shared/http/json.ts:198-211 decodeObject *)
Definition decodeObject (bytes : list Z) : Res (list (jstring * Value)) :=
  if 1048576 <? Z.of_nat (length bytes) then Err invalidBody
  else
    match decodeText bytes with
    | None => Err invalidBody
    | Some text =>
        match Parser.parseDocument text with
        | Parsed (TObj ms) _ => Ok ms
        | _ => Err invalidBody
        end
    end.

(** The string members of [names], in that order. *)
(** @src src/shared/http/json.ts:221-227 stringFields (loop) *)
Fixpoint fieldValues (ms : list (jstring * Value)) (names : list jstring) : Res (list (jstring * jstring)) :=
  match names with
  | [] => Ok []
  | name :: names =>
      match JsMap.get name ms with
      | Some (TStr v) =>
          if (jlength v =? 0) || (4096 <? jlength v) then Err invalidBody
          else rest ← fieldValues ms names; Ok ((name, v) :: rest)
      | _ => Err invalidBody
      end
  end.

(** @src src/shared/http/json.ts:213-229 stringFields *)
Definition stringFields (bytes : list Z) (names : list jstring) : Res (list (jstring * jstring)) :=
  ms ← decodeObject bytes;
  if negb (Nat.eqb (length ms) (length names)) then Err invalidBody
  else fieldValues ms names.

Example parse1 : parse (js "[1,1.0,10e-1,0.99999999999999999999, 1e999,-0]") =
  let one := TNum (Finite false (2 ^ 52) (-52)) in
  Parsed (TArr [one; one; one; one; TNum (Infinite false); TNum (Finite true 0 0)]) [].
Proof. vm_compute. reflexivity. Qed.

(** ** What a parser promises.

    [delivers good p s]: [p], run on [s], does not run out of fuel, and a
    successful run consumes text; when the request-body parser runs on
    well-formed text, what is left is well formed and the value is [good]. *)
Definition clean (s : jstring) : Prop := wellFormed s = true /\ units s.

Lemma clean_tail c r : isHigh c = false -> clean (c :: r) -> clean r.
Proof.
  intros Hc [Hw Hu]. apply Forall_cons in Hu as [_ Hu]. cbn in Hw. rewrite Hc in Hw. by apply andb_true_iff in Hw as [_ Hw].
Qed.

Section Delivers.
  Context (strict : bool).

Definition delivers {A} (good : A -> Prop) (p : parsed A) (s : jstring) : Prop :=
  match p with
  | Parsed a r => (length r < length s)%nat /\ (strict = true -> clean s -> clean r /\ good a)
  | SyntaxError => True
  | OutOfFuel => False
  end.

(** [s] is left of [s0], possibly all of it. *)
Definition reach (s0 s : jstring) : Prop := (length s <= length s0)%nat /\ (strict = true -> clean s0 -> clean s).

Lemma reach_refl s : reach s s.
Proof. by split. Qed.
Lemma reach_trans a b c : reach a b -> reach b c -> reach a c.
Proof. intros [? ?] [? ?]. split; [lia|auto]. Qed.
Lemma reach_tail s c r : c < 128 -> reach s (c :: r) -> reach s r.
Proof. intros Hc H. eapply reach_trans; [exact H|]. split; [cbn; lia|]. intros _. apply clean_tail, isHigh_false. lia. Qed.
Lemma reach_ws s0 s : reach s0 s -> reach s0 (Parser.ws s).
Proof.
  intros H. induction s as [|c r IH]; [done|]. cbn. destruct (Parser.isBlank c) eqn:E; [|done].
  apply IH. apply (reach_tail _ c); [|done]. unfold Parser.isBlank in E.
  repeat (apply orb_true_iff in E as [E|E]); breflect; lia.
Qed.
Lemma ws_length s : (length (Parser.ws s) <= length s)%nat.
Proof. induction s as [|c r IH]; cbn; [lia|]. destruct (Parser.isBlank c); cbn; lia. Qed.

Lemma peek_cons s c : Parser.peek s = c -> 0 <= c -> exists r, s = c :: r.
Proof. destruct s as [|d r]; cbn; [lia|]. intros -> _. by exists r. Qed.

Lemma delivers_then {A B} (good : A -> Prop) (good' : B -> Prop) p k s s0 :
  delivers good p s -> reach s0 s ->
  (forall a r, (length r < length s)%nat -> reach s0 r -> (strict = true -> clean s0 -> good a) -> delivers good' (k a r) s0) ->
  delivers good' (andThen p k) s0.
Proof.
  destruct p as [a r| |]; [|done..]. intros [Hl Hg] [Hl0 Hc] Hk. apply Hk; [done| |].
  - split; [lia|]. intros Hs H. by apply (Hg Hs (Hc Hs H)).
  - intros Hs H. by apply (Hg Hs (Hc Hs H)).
Qed.

Lemma delivers_from {A} (good : A -> Prop) p s s0 : delivers good p s -> reach s0 s -> delivers good p s0.
Proof. destruct p as [a r| |]; [|done..]. intros [Hl Hg] [Hl0 Hc]. split; [lia|auto]. Qed.

Lemma delivers_parsed {A} (good : A -> Prop) a r s0 :
  (length r < length s0)%nat -> reach s0 r -> (strict = true -> clean s0 -> good a) -> delivers good (Parsed a r) s0.
Proof. intros Hl [_ Hc] Hg. split; [done|auto]. Qed.

Lemma expect_delivers c s : c < 128 -> delivers (fun _ => True) (Parser.expect c s) s.
Proof.
  intros Hc. destruct s as [|d r]; cbn; [done|]. destruct (d =? c) eqn:E; [|done]. breflect. subst d.
  split; [cbn; lia|]. intros _ H. split; [|done]. eapply clean_tail; [|exact H]. apply isHigh_false. lia.
Qed.

Lemma reach_ascii s0 l r : Forall (fun c => c < 128) l -> reach s0 (l ++ r) -> reach s0 r.
Proof. induction 1 as [|c l Hc _ IH]; [done|]. intros H. by apply IH, (reach_tail _ c). Qed.

Lemma startsWith_app w s : Parser.startsWith w s = true -> s = w ++ drop (length w) s.
Proof.
  revert s. induction w as [|c w IH]; intros [|d s] E; try done. cbn in E. apply andb_true_iff in E as [Hd E]. breflect. subst d.
  cbn [length drop app]. f_equal. by apply IH.
Qed.

Lemma literal_delivers (good : Value -> Prop) w v s :
  Forall (fun c => c < 128) w -> w <> [] -> good v -> delivers good (Parser.literal w v s) s.
Proof.
  intros Hw Hne Hv. unfold Parser.literal. destruct (Parser.startsWith w s) eqn:E; [|done].
  apply delivers_parsed; [| |done].
  - destruct w, s; try done. rewrite length_drop. cbn. lia.
  - eapply (reach_ascii _ w); [done|]. rewrite <- startsWith_app by done. apply reach_refl.
Qed.

(** *** Numbers. *)
Lemma digitsOf_app s : let '(ds, t) := Parser.digitsOf s in s = ds ++ t /\ Forall (fun c => isDigit c = true) ds.
Proof.
  induction s as [|c r IH]; cbn; [done|]. destruct (isDigit c) eqn:E; [|done].
  destruct (Parser.digitsOf r) as [ds t], IH as [-> H]. split; [done|by constructor].
Qed.

Lemma digit_ascii c : isDigit c = true -> c < 128.
Proof. unfold isDigit. intros H. breflect. lia. Qed.

Lemma reach_digits s0 ds t : Forall (fun c => isDigit c = true) ds -> reach s0 (ds ++ t) -> reach s0 t.
Proof. intros H. apply reach_ascii. eapply Forall_impl; [exact H|]. intros c. apply digit_ascii. Qed.

Lemma digitsOf_reach s0 s ds t : Parser.digitsOf s = (ds, t) -> reach s0 s -> reach s0 t.
Proof. intros E H. pose proof (digitsOf_app s) as Hd. rewrite E in Hd. destruct Hd as [-> Hd]. by eapply reach_digits. Qed.

Lemma reach_peek c s0 s : Parser.peek s = c -> 0 <= c < 128 -> reach s0 s -> reach s0 (tail s).
Proof. intros E Hc. destruct (peek_cons s c E ltac:(lia)) as [r ->]. apply (reach_tail _ c). lia. Qed.

Lemma fraction_reach s0 s fs t : Parser.fraction s = (fs, t) -> reach s0 s -> reach s0 t.
Proof.
  unfold Parser.fraction. destruct (_ =? 46) eqn:E; [|by intros [= <- <-]]. breflect.
  destruct (Parser.digitsOf (tail s)) as [[|d ds] t'] eqn:Ed; intros [= <- <-]; [done|].
  intros H. eapply digitsOf_reach; [exact Ed|]. by eapply reach_peek.
Qed.

Lemma exponent_reach s0 s e t : Parser.exponentPart s = (e, t) -> reach s0 s -> reach s0 t.
Proof.
  unfold Parser.exponentPart. destruct (_ || _) eqn:E; [|by intros [= <- <-]]. cbv zeta.
  set (r := if _ || _ then tail (tail s) else _). destruct (Parser.digitsOf r) as [[|d ds] t'] eqn:Ed; intros [= <- <-]; [done|].
  intros H. eapply digitsOf_reach; [exact Ed|].
  assert (Ht : reach s0 (tail s)) by (apply orb_true_iff in E as [E|E]; breflect; by eapply reach_peek).
  subst r. destruct ((_ =? 43) || _) eqn:E2; [|done]. apply orb_true_iff in E2 as [E2|E2]; breflect; by eapply reach_peek.
Qed.

Lemma digitsOf_length s ds t : Parser.digitsOf s = (ds, t) -> ds <> [] -> (length t < length s)%nat.
Proof.
  intros E Hne. pose proof (digitsOf_app s) as Hd. rewrite E in Hd. destruct Hd as [-> _]. rewrite length_app. destruct ds; [done|cbn; lia].
Qed.

Lemma integerPart_reach s0 s ds t :
  Parser.integerPart s = (ds, t) -> reach s0 s -> reach s0 t /\ (ds <> [] -> (length t < length s)%nat).
Proof.
  unfold Parser.integerPart. destruct (_ =? 48) eqn:E; breflect; intros Ed H.
  - injection Ed as <- <-. split; [by eapply reach_peek|]. destruct (peek_cons s 48 E ltac:(lia)) as [r ->]. cbn. lia.
  - split; [by eapply digitsOf_reach|]. by apply digitsOf_length.
Qed.

Lemma numberAt_delivers s :
  delivers (fun v => exists d, v = TNum d /\ isFinite d = true) (Parser.numberAt strict s) s.
Proof.
  unfold Parser.numberAt. set (u := if Parser.peek s =? 45 then tail s else s).
  assert (Hu : reach s u).
  { subst u. destruct (Parser.peek s =? 45) eqn:E; breflect; [|apply reach_refl]. by eapply reach_peek, reach_refl. }
  destruct (Parser.integerPart u) as [ds r0] eqn:Ed. destruct (integerPart_reach s u ds r0 Ed Hu) as [H0 Hl].
  destruct ds as [|d0 ds]; [done|]. specialize (Hl ltac:(done)).
  destruct (Parser.fraction r0) as [fs r1] eqn:Ef. destruct (Parser.exponentPart r1) as [e r2] eqn:Ee.
  cbv zeta. destruct (_ && _) eqn:Efin; [done|].
  assert (H2 : forall s0, reach s0 r0 -> reach s0 r2) by (intros s0 H; eapply exponent_reach; [exact Ee|]; by eapply fraction_reach).
  apply delivers_parsed; [|by apply H2|].
  - destruct (H2 r0 (reach_refl r0)) as [? _], Hu as [? _]. lia.
  - intros Hs _. rewrite Hs in Efin. eexists. split; [done|]. by apply negb_false_iff in Efin.
Qed.

(** *** Strings. *)
Lemma hexOf_range c v : Parser.hexOf c = Some v -> 0 <= v < 16 /\ c < 128.
Proof.
  unfold Parser.hexOf, isDigit. destruct (_ && _) eqn:E1; [intros [= <-]; breflect; lia|].
  destruct ((97 <=? c) && _) eqn:E2; [intros [= <-]; breflect; lia|].
  destruct ((65 <=? c) && _) eqn:E3; [intros [= <-]; breflect; lia|done].
Qed.

Lemma unitOf_range a b c d u :
  Parser.unitOf a b c d = Some u -> 0 <= u < 65536 /\ a < 128 /\ b < 128 /\ c < 128 /\ d < 128.
Proof.
  unfold Parser.unitOf. destruct (Parser.hexOf a) eqn:Ea, (Parser.hexOf b) eqn:Eb, (Parser.hexOf c) eqn:Ec, (Parser.hexOf d) eqn:Ed; try done.
  apply hexOf_range in Ea, Eb, Ec, Ed. intros [= <-]. lia.
Qed.

Lemma escapeOf_range e x : Parser.escapeOf e = Some x -> 0 <= x < 128 /\ e < 128.
Proof.
  unfold Parser.escapeOf. intros H.
  repeat match type of H with context [?a =? ?b] => destruct (Z.eqb_spec a b); cbn in H end; simplify_eq; lia.
Qed.

Lemma clean_cons c r : 0 <= c < 65536 -> isHigh c = false -> isLow c = false -> clean r -> clean (c :: r).
Proof. intros Hc Hh Hl [Hw Hu]. split; [cbn; by rewrite Hh, Hl|by constructor]. Qed.

Lemma clean_pair c d r : isHigh c = true -> isLow d = true -> clean r -> clean (c :: d :: r).
Proof.
  intros Hc Hd [Hw Hu]. split; [cbn; by rewrite Hc, Hd|]. apply isHigh_range in Hc. apply isLow_range in Hd.
  repeat (constructor; [lia|]). done.
Qed.

(** Adding what was read in front of the rest of a string. *)
Lemma prefixed_delivers p s0 s k :
  reach s0 s -> delivers clean k s -> (strict = true -> clean s0 -> forall o, clean o -> clean (p ++ o)) ->
  delivers clean (Parser.prefixed p k) s0.
Proof.
  destruct k as [o t| |]; [|done..]. intros [Hl Hc] [Hlt Hg] Hp. split; [lia|]. intros Hs H.
  destruct (Hg Hs (Hc Hs H)) as [? ?]. split; [done|auto].
Qed.

Lemma chars_raw c r : isHigh c = true \/ isLow c = true -> Parser.chars strict (c :: r) = Parser.prefixed [c] (Parser.chars strict r).
Proof.
  intros H. assert (55296 <= c) by (destruct H as [H|H]; [apply isHigh_range in H|apply isLow_range in H]; lia). cbn [Parser.chars].
  by rewrite (proj2 (Z.eqb_neq c 34)), (proj2 (Z.ltb_ge c 32)), (proj2 (Z.eqb_neq c 92)) by lia.
Qed.

Lemma chars_escape n a b c d r :
  (forall s, (length s <= n)%nat -> delivers clean (Parser.chars strict s) s) -> (length r <= n)%nat ->
  delivers clean (Parser.chars strict (92 :: 117 :: a :: b :: c :: d :: r)) (92 :: 117 :: a :: b :: c :: d :: r).
Proof.
  intros IH Hn. cbn [Parser.chars Z.eqb Pos.eqb Z.ltb Z.compare negb]. set (s := 92 :: _).
  destruct (Parser.unitOf a b c d) as [u|] eqn:EU; [|done]. apply unitOf_range in EU as (Hu & Ha & Hb & Hc & Hd).
  assert (HR : reach s r) by (apply (reach_ascii s [92; 117; a; b; c; d]); [repeat constructor; lia|apply reach_refl]).
  destruct (strict && isHigh u) eqn:Eh.
  - apply andb_true_iff in Eh as [_ Hh]. destruct r as [|b0 [|u0 [|a' [|b' [|c' [|d' r]]]]]]; try done. cbn [length] in Hn.
    destruct (_ && _) eqn:E; [|done]. breflect. subst b0 u0. destruct (Parser.unitOf a' b' c' d') as [l|] eqn:EL; [|done].
    apply unitOf_range in EL as (Hl & Ha' & Hb' & Hc' & Hd'). destruct (isLow l) eqn:Ell; [|done].
    eapply prefixed_delivers; [|apply IH; lia|].
    + apply (reach_ascii s [92; 117; a'; b'; c'; d']); [repeat constructor; lia|exact HR].
    + intros _ _ o Ho. by apply clean_pair.
  - destruct (strict && isLow u) eqn:El; [done|]. eapply prefixed_delivers; [exact HR|by apply IH|].
    intros Hs _ o Ho. rewrite Hs in Eh, El. by apply clean_cons.
Qed.

Lemma chars_delivers n s : (length s <= n)%nat -> delivers clean (Parser.chars strict s) s.
Proof.
  revert s. induction n as [|n IH]; intros s Hn; (destruct s as [|c r]; [done|]); [cbn in Hn; lia|]. cbn [length] in Hn.
  destruct (isHigh c) eqn:Eh.
  - rewrite chars_raw by auto. destruct r as [|d r]; [done|]. cbn [length] in Hn. destruct (isLow d) eqn:El.
    + rewrite chars_raw by auto. assert (H : delivers clean (Parser.chars strict r) r) by (apply IH; lia).
      destruct (Parser.chars strict r) as [o t| |]; [|done..]. destruct H as [Hl H]. split; [cbn; lia|].
      intros Hs [Hw Hu]. cbn in Hw. rewrite Eh in Hw. apply andb_true_iff in Hw as [_ Hw].
      apply Forall_cons in Hu as [_ Hu]. apply Forall_cons in Hu as [_ Hu]. destruct (H Hs) as [? ?]; [by split|].
      split; [done|]. by apply clean_pair.
    + assert (H : delivers clean (Parser.chars strict (d :: r)) (d :: r)) by (apply IH; cbn; lia).
      destruct (Parser.chars strict (d :: r)) as [o t| |]; [|done..]. destruct H as [Hl _]. split; [cbn in *; lia|].
      intros _ [Hw _]. cbn in Hw. by rewrite Eh, El in Hw.
  - destruct (Z.eq_dec c 92) as [->|E3].
    + destruct r as [|e r]; [done|]. cbn [length] in Hn. destruct (Z.eq_dec e 117) as [->|Eu].
      * destruct r as [|a [|b [|c [|d r]]]]; try done. cbn [length] in Hn. apply (chars_escape n); [exact IH|lia].
      * cbn [Parser.chars]. cbn [Z.eqb Pos.eqb Z.ltb Z.compare negb]. rewrite (proj2 (Z.eqb_neq e 117)) by done.
        destruct (Parser.escapeOf e) as [x|] eqn:Ee; [|done]. apply escapeOf_range in Ee as He.
        eapply prefixed_delivers; [|apply IH; lia|].
        -- apply (reach_ascii _ [92; e]); [repeat constructor; lia|apply reach_refl].
        -- intros _ _ o Ho. apply clean_cons; [lia|apply isHigh_false; lia|apply isLow_false; lia|done].
    + cbn [Parser.chars]. destruct (c =? 34) eqn:E1; breflect.
      { subst c. split; [cbn; lia|]. intros _ H. split; [by apply (clean_tail 34)|by split; [|constructor]]. }
      destruct (c <? 32) eqn:E2; [done|]. rewrite (proj2 (Z.eqb_neq c 92)) by done. cbn [negb].
      eapply prefixed_delivers; [|apply IH; lia|].
      * split; [cbn; lia|]. intros _. by apply clean_tail.
      * intros _ [Hw Hu] o Ho. cbn in Hw. rewrite Eh in Hw. apply andb_true_iff in Hw as [Hw _]. apply Forall_cons in Hu as [Hu _].
        apply clean_cons; [done|done|by apply negb_true_iff|done].
Qed.

Lemma string_delivers s : delivers clean (Parser.string strict s) s.
Proof.
  unfold Parser.string. eapply delivers_then; [by apply expect_delivers|apply reach_refl|]. intros _ r Hl Hr _.
  eapply delivers_from; [by apply (chars_delivers (length r))|done].
Qed.
End Delivers.

(** *** Values. *)

(** What the request-body parser may return: finite numbers, well-formed
    strings, unique keys, and at most [n] levels. *)
Fixpoint admitted (n : nat) (v : Value) : Prop :=
  match n with
  | O => False
  | S n =>
      match v with
      | TNum d => isFinite d = true
      | TStr s => clean s
      | TArr l => Forall (admitted n) l
      | TObj ms => JsMap.wf ms /\ Forall (fun e => clean e.1 /\ admitted n e.2) ms
      | _ => True
      end
  end.

Lemma Forall_set {V} (P : jstring * V -> Prop) k v m : Forall P m -> P (k, v) -> Forall P (JsMap.set k v m).
Proof.
  intros Hm Hkv. induction Hm as [|[k' v'] m Hk Hm IH]; cbn; [by constructor|].
  destruct (decide (k = k')) as [->|]; by constructor.
Qed.

Section ValueDelivers.
  Context (strict : bool) (good : Value -> Prop) (item : jstring -> parsed Value).

(** [item] keeps its promise on texts shorter than [n]. *)
Definition serves (n : nat) : Prop := forall t, (length t < n)%nat -> delivers strict good (item t) t.

Lemma elements_delivers fuel s :
  (length s < fuel)%nat -> serves (S (length s)) -> delivers strict (Forall good) (Parser.elements item fuel s) s.
Proof.
  revert s. induction fuel as [|fuel IH]; intros s Hf Hi; [lia|]. cbn [Parser.elements].
  eapply delivers_then; [apply Hi; lia|apply reach_refl|]. intros v r Hl Hr Hv. cbv zeta. pose proof (ws_length r) as Hws.
  apply reach_ws in Hr. destruct (_ =? 44) eqn:E; breflect.
  - destruct (peek_cons _ _ E ltac:(lia)) as [u Hu]. rewrite Hu in *. cbn [tail]. cbn in Hws. apply reach_tail in Hr; [|lia].
    eapply delivers_then; [apply IH; [lia|intros t Ht; apply Hi; lia]|done|]. intros vs r2 Hl2 Hr2 Hvs.
    apply delivers_parsed; [lia|done|]. intros Hs Hc. constructor; auto.
  - eapply delivers_then; [apply expect_delivers; lia|done|]. intros _ r2 Hl2 Hr2 _.
    apply delivers_parsed; [lia|done|]. intros Hs Hc. constructor; [auto|constructor].
Qed.

Lemma array_delivers (good' : Value -> Prop) s :
  serves (length s) -> (forall l, Forall good l -> good' (TArr l)) -> delivers strict good' (Parser.array item s) s.
Proof.
  intros Hi Hg. unfold Parser.array. eapply delivers_then; [apply expect_delivers; lia|apply reach_refl|].
  intros _ r Hl Hr _. cbv zeta. pose proof (ws_length r) as Hws. apply reach_ws in Hr. destruct (_ =? 93) eqn:E; breflect.
  - destruct (peek_cons _ _ E ltac:(lia)) as [u Hu]. rewrite Hu in *. cbn [tail]. cbn in Hws. apply reach_tail in Hr; [|lia].
    apply delivers_parsed; [lia|done|]. intros _ _. apply Hg. constructor.
  - eapply delivers_then; [apply elements_delivers; [lia|intros t Ht; apply Hi; lia]|done|]. intros vs r2 Hl2 Hr2 Hvs.
    apply delivers_parsed; [lia|done|]. auto.
Qed.

Definition goodMembers (ms : list (jstring * Value)) : Prop := JsMap.wf ms /\ Forall (fun e => clean e.1 /\ good e.2) ms.

Lemma members_delivers fuel s0 s output :
  (length s < fuel)%nat -> (length s < length s0)%nat -> serves (length s0) -> reach strict s0 s ->
  (strict = true -> clean s0 -> goodMembers output) ->
  delivers strict goodMembers (Parser.members strict item fuel output s) s0.
Proof.
  revert s output. induction fuel as [|fuel IH]; intros s output Hf Hl0 Hi Hr0 Ho; [lia|]. cbn [Parser.members].
  pose proof (ws_length s) as Hws. apply reach_ws in Hr0.
  eapply delivers_then; [apply string_delivers|done|]. intros key r Hl Hr Hk. destruct (_ && _) eqn:Ed; [done|].
  pose proof (ws_length r) as Hws2. apply reach_ws in Hr. eapply delivers_then; [apply expect_delivers; lia|done|].
  intros _ r2 Hl2 Hr2 _. eapply delivers_then; [apply Hi; lia|done|]. intros v r3 Hl3 Hr3 Hv. cbv zeta.
  assert (Ho' : strict = true -> clean s0 -> goodMembers (JsMap.set key v output)).
  { intros Hs Hc. destruct (Ho Hs Hc) as [Hw HF]. split; [by apply JsMap.wf_set|]. apply Forall_set; [done|]. split; [by apply Hk|by apply Hv]. }
  pose proof (ws_length r3) as Hws3. apply reach_ws in Hr3. destruct (_ =? 44) eqn:E; breflect.
  - destruct (peek_cons _ _ E ltac:(lia)) as [u Hu]. rewrite Hu in *. cbn [tail]. cbn in Hws3. apply reach_tail in Hr3; [|lia].
    apply IH; [lia|lia|done|done|done].
  - eapply delivers_then; [apply expect_delivers; lia|done|]. intros _ r4 Hl4 Hr4 _. apply delivers_parsed; [lia|done|auto].
Qed.

Lemma object_delivers (good' : Value -> Prop) depth s :
  serves (length s) -> (forall ms, (strict = true -> depth <= 8) -> goodMembers ms -> good' (TObj ms)) ->
  delivers strict good' (Parser.object strict depth item s) s.
Proof.
  intros Hi Hg. unfold Parser.object, Parser.MAX_DEPTH. destruct (_ && _) eqn:Ed; [done|].
  assert (Hd : strict = true -> depth <= 8) by (intros Hs; rewrite Hs in Ed; cbn in Ed; by breflect).
  eapply delivers_then; [apply expect_delivers; lia|apply reach_refl|].
  intros _ r Hl Hr _. cbv zeta. pose proof (ws_length r) as Hws. apply reach_ws in Hr. destruct (_ =? 125) eqn:E; breflect.
  - destruct (peek_cons _ _ E ltac:(lia)) as [u Hu]. rewrite Hu in *. cbn [tail]. cbn in Hws. apply reach_tail in Hr; [|lia].
    apply delivers_parsed; [lia|done|]. intros _ _. apply Hg; [done|]. split; [apply JsMap.wf_empty|constructor].
  - eapply delivers_then; [apply (members_delivers _ s); [lia|lia|done|done|]|apply reach_refl|].
    { intros _ _. split; [apply JsMap.wf_empty|constructor]. }
    intros ms r2 Hl2 Hr2 Hms. apply delivers_parsed; [lia|done|]. auto.
Qed.
End ValueDelivers.

(** A value at [depth] has at most the levels left. *)
Definition within (strict : bool) (depth : Z) (v : Value) : Prop := strict = true -> admitted (Z.to_nat (9 - depth)) v.

Lemma within_levels depth : depth <= 8 -> Z.to_nat (9 - depth) = S (Z.to_nat (9 - (depth + 1))).
Proof. lia. Qed.

Lemma within_object strict depth ms :
  (strict = true -> depth <= 8) -> goodMembers (within strict (depth + 1)) ms -> within strict depth (TObj ms).
Proof.
  intros Hd [Hw Hms] Hs. rewrite within_levels by auto. split; [done|]. eapply Forall_impl; [exact Hms|]. intros e [He Hv]. auto.
Qed.

Lemma within_array strict depth l :
  (strict = true -> depth <= 8) -> Forall (within strict (depth + 1)) l -> within strict depth (TArr l).
Proof. intros Hd Hl Hs. rewrite within_levels by auto. cbn. eapply Forall_impl; [exact Hl|]. intros v Hv. by apply Hv. Qed.

Lemma within_scalar strict depth v :
  (strict = true -> depth <= 8) -> (strict = true -> admitted 1 v) -> match v with TArr _ | TObj _ => False | _ => True end -> within strict depth v.
Proof. intros Hd H1 Hv Hs. rewrite within_levels by auto. specialize (H1 Hs). by destruct v. Qed.

Lemma value_delivers strict fuel depth s :
  (length s < fuel)%nat -> delivers strict (within strict depth) (Parser.value strict fuel depth s) s.
Proof.
  revert depth s. induction fuel as [|fuel IH]; intros depth s Hf; [lia|]. cbn [Parser.value].
  destruct (strict && (Parser.MAX_DEPTH <? depth)) eqn:Ed; [done|]. cbv zeta.
  assert (Hd : strict = true -> depth <= 8) by (intros Hs; rewrite Hs in Ed; cbn in Ed; by breflect).
  pose proof (ws_length s) as Hws. pose proof (reach_ws strict _ _ (reach_refl strict s)) as Hr. set (t := Parser.ws s) in *.
  assert (Hi : serves strict (within strict (depth + 1)) (Parser.value strict fuel (depth + 1)) (length t))
    by (intros u Hu; apply IH; lia).
  eapply delivers_from; [|exact Hr].
  destruct (_ =? 123). { eapply object_delivers; [exact Hi|]. intros ms H. by apply within_object. }
  destruct (_ =? 91). { eapply array_delivers; [exact Hi|]. intros l. by apply within_array. }
  destruct (_ =? 34).
  { eapply delivers_then; [apply string_delivers|apply reach_refl|]. intros o r Hl Hro Ho. apply delivers_parsed; [done|done|].
    intros Hs Hc. by apply within_scalar; [|intros _; apply Ho|]. }
  do 3 (destruct (_ =? _); [apply literal_delivers; [repeat constructor; lia|done|by apply within_scalar]|]).
  pose proof (numberAt_delivers strict t) as Hn. destruct (Parser.numberAt strict t) as [v r| |]; [|done..].
  destruct Hn as [Hl Hg]. split; [done|]. intros Hs Hc. destruct (Hg Hs Hc) as [? (d & -> & Hfin)]. split; [done|].
  by apply within_scalar.
Qed.

Lemma complete_post strict good p s :
  delivers strict good p s ->
  match Parser.complete p with
  | Parsed v r => r = [] /\ (strict = true -> clean s -> good v)
  | SyntaxError => True
  | OutOfFuel => False
  end.
Proof.
  destruct p as [v r| |]; [|done..]. intros [_ Hg]. cbn. destruct (Parser.ws r); [|done]. split; [done|]. intros Hs Hc. by apply Hg.
Qed.

Lemma document_delivers s n :
  (length s <= n)%nat -> delivers true (within true 1) (Parser.object true 1 (Parser.value true n 2) s) s.
Proof.
  intros Hn. eapply object_delivers; [|intros ms Hd; by apply (within_object true 1)]. intros t Ht. apply value_delivers. lia.
Qed.

Lemma parseDocument_post text :
  match Parser.parseDocument text with
  | Parsed v r => r = [] /\ (clean text -> admitted 8 v)
  | SyntaxError => True
  | OutOfFuel => False
  end.
Proof.
  unfold Parser.parseDocument. destruct (negb _); [done|].
  pose proof (complete_post _ _ _ _ (document_delivers (Parser.ws text) (length text) (ws_length text))) as H.
  pose proof (reach_ws true _ _ (reach_refl true text)) as [_ Hc].
  destruct (Parser.complete _) as [v r| |]; [|done..]. destruct H as [-> H]. split; [done|]. intros Ht. apply (H eq_refl); auto.
Qed.

(** ** Comparing two runs.

    [follows p q]: [q] does what [p] does, except that it may go on where [p]
    ran out of fuel and, when [lenient], where [p] refuses the text. *)
Section Follows.
  Context (lenient : bool).

Definition follows {A} (p q : parsed A) : Prop :=
  match p with
  | Parsed a r => q = Parsed a r
  | SyntaxError => lenient = true \/ q = SyntaxError
  | OutOfFuel => True
  end.

Lemma follows_refl {A} (p : parsed A) : follows p p.
Proof. destruct p; cbn; auto. Qed.

Lemma follows_then {A B} (p q : parsed A) (k k' : A -> jstring -> parsed B) :
  follows p q -> (forall a r, follows (k a r) (k' a r)) -> follows (andThen p k) (andThen q k').
Proof.
  destruct p as [a r| |]; cbn; [by intros ->|intros [H|H] _; [by left|right; by rewrite H]|done].
Qed.

(** A guard of the first run that the second may drop. *)
Definition dropped (g g' : bool) : Prop := g = g' \/ lenient = true /\ g' = false.

Lemma follows_guard {A} g g' (p q : parsed A) :
  dropped g g' -> follows p q -> follows (if g then SyntaxError else p) (if g' then SyntaxError else q).
Proof. intros [->|[Hl ->]] H; [destruct g'; [by right|done]|]. destruct g; [by left|done]. Qed.

Lemma follows_if {A} (c : bool) (p q p' q' : parsed A) :
  follows p p' -> follows q q' -> follows (if c then p else q) (if c then p' else q').
Proof. by destruct c. Qed.

Lemma follows_prefixed p k k' : follows k k' -> follows (Parser.prefixed p k) (Parser.prefixed p k').
Proof. destruct k as [a r| |]; cbn; [by intros ->|intros [H|H]; [by left|right; by rewrite H]|done]. Qed.

Section Runs.
  Context (strict strict' : bool) (Hs : dropped strict strict').

Lemma dropped_and g : dropped (strict && g) (strict' && g).
Proof. destruct Hs as [->|[Hl ->]]; [by left|by right]. Qed.

Lemma chars_follows n s : (length s <= n)%nat -> follows (Parser.chars strict s) (Parser.chars strict' s).
Proof.
  destruct Hs as [->|[Hl ->]]; [intros _; apply follows_refl|]. destruct strict; [|intros _; apply follows_refl].
  revert s. induction n as [|n IH]; intros s Hn; (destruct s as [|c r]; [by right|]); [cbn in Hn; lia|]. cbn [length] in Hn.
  cbn [Parser.chars]. apply follows_if; [apply follows_refl|]. apply follows_if; [apply follows_refl|].
  apply follows_if; [apply follows_prefixed, IH; lia|]. destruct r as [|e r]; [by right|]. cbn [length] in Hn.
  apply follows_if; [|destruct (Parser.escapeOf e); [apply follows_prefixed, IH; lia|by right]].
  destruct r as [|a [|b [|c0 [|d r]]]]; try by right. cbn [length] in Hn. destruct (Parser.unitOf a b c0 d) as [u|]; [|by right].
  cbn [andb]. destruct (isHigh u).
  - destruct r as [|b0 [|u0 [|a' [|b' [|c' [|d' r]]]]]]; try by left. destruct (_ && _) eqn:E; [|by left]. breflect. subst b0 u0.
    destruct (Parser.unitOf a' b' c' d') as [l|] eqn:EU; [|by left]. destruct (isLow l); [|by left]. cbn [length] in Hn.
    cbn [Parser.chars Z.eqb Pos.eqb Z.ltb Z.compare negb]. rewrite EU. cbn [andb].
    assert (H : follows (Parser.chars true r) (Parser.chars false r)) by (apply IH; lia).
    destruct (Parser.chars true r) as [o t| |]; [|by left|done]. cbn in H |- *. by rewrite H.
  - destruct (isLow u); [by left|]. apply follows_prefixed, IH. lia.
Qed.

Lemma string_follows s : follows (Parser.string strict s) (Parser.string strict' s).
Proof. apply follows_then; [apply follows_refl|]. intros _ r. by apply (chars_follows (length r)). Qed.

Lemma numberAt_follows s : follows (Parser.numberAt strict s) (Parser.numberAt strict' s).
Proof.
  unfold Parser.numberAt. destruct (Parser.integerPart _) as [[|d0 ds] r]; [by right|].
  destruct (Parser.fraction r) as [fs r1]. destruct (Parser.exponentPart r1) as [e r2]. cbv zeta.
  apply follows_guard; [apply dropped_and|apply follows_refl].
Qed.

Section Items.
  Context (item item' : jstring -> parsed Value) (Hi : forall t, follows (item t) (item' t)).

Lemma elements_follows fuel fuel' s :
  (fuel <= fuel')%nat -> follows (Parser.elements item fuel s) (Parser.elements item' fuel' s).
Proof.
  revert fuel' s. induction fuel as [|fuel IH]; intros fuel' s Hf; [done|]. destruct fuel' as [|fuel']; [lia|]. cbn [Parser.elements].
  apply follows_then; [apply Hi|]. intros v r. apply follows_if; [|apply follows_refl].
  apply follows_then; [apply IH; lia|]. intros vs r2. apply follows_refl.
Qed.

Lemma array_follows s : follows (Parser.array item s) (Parser.array item' s).
Proof.
  apply follows_then; [apply follows_refl|]. intros _ r. apply follows_if; [apply follows_refl|].
  apply follows_then; [by apply elements_follows|]. intros vs r2. apply follows_refl.
Qed.

Lemma members_follows fuel fuel' output s :
  (fuel <= fuel')%nat -> follows (Parser.members strict item fuel output s) (Parser.members strict' item' fuel' output s).
Proof.
  revert fuel' output s. induction fuel as [|fuel IH]; intros fuel' output s Hf; [done|]. destruct fuel' as [|fuel']; [lia|].
  cbn [Parser.members]. apply follows_then; [apply string_follows|]. intros key r. apply follows_guard; [apply dropped_and|].
  apply follows_then; [apply follows_refl|]. intros _ r2. apply follows_then; [apply Hi|]. intros v r3.
  apply follows_if; [apply IH; lia|apply follows_refl].
Qed.

Lemma object_follows depth s : follows (Parser.object strict depth item s) (Parser.object strict' depth item' s).
Proof.
  apply follows_guard; [apply dropped_and|]. apply follows_then; [apply follows_refl|]. intros _ r.
  apply follows_if; [apply follows_refl|]. apply follows_then; [by apply members_follows|]. intros ms r2. apply follows_refl.
Qed.
End Items.

Lemma value_follows fuel fuel' depth s :
  (fuel <= fuel')%nat -> follows (Parser.value strict fuel depth s) (Parser.value strict' fuel' depth s).
Proof.
  revert fuel' depth s. induction fuel as [|fuel IH]; intros fuel' depth s Hf; [done|]. destruct fuel' as [|fuel']; [lia|].
  cbn [Parser.value]. apply follows_guard; [apply dropped_and|]. cbv zeta.
  assert (Hi : forall t, follows (Parser.value strict fuel (depth + 1) t) (Parser.value strict' fuel' (depth + 1) t)) by (intros t; apply IH; lia).
  apply follows_if; [by apply object_follows|]. apply follows_if; [by apply array_follows|].
  apply follows_if; [apply follows_then; [apply string_follows|]; intros t r; apply follows_refl|].
  repeat (apply follows_if; [apply follows_refl|]). apply numberAt_follows.
Qed.
End Runs.

Lemma complete_follows p q : follows p q -> follows (Parser.complete p) (Parser.complete q).
Proof. intros H. apply follows_then; [done|]. intros v r. apply follows_refl. Qed.
End Follows.

(** What the request-body parser accepts, [JSON.parse] reads the same. *)
Lemma parseDocument_parse text v : Parser.parseDocument text = Parsed v [] -> parse text = Parsed v [].
Proof.
  unfold Parser.parseDocument, parse. destruct (negb _) eqn:E; [done|]. breflect. cbn [Parser.value andb]. cbv zeta.
  rewrite (proj2 (Z.eqb_eq _ 123)) by done. intros H.
  assert (HF : follows true (Parser.complete (Parser.object true 1 (Parser.value true (length text) 2) (Parser.ws text)))
     (Parser.complete (Parser.object false 1 (Parser.value false (length text) (1 + 1)) (Parser.ws text)))).
  { apply complete_follows, object_follows; [by right|]. intros t. apply value_follows; [by right|done]. }
  rewrite H in HF. exact HF.
Qed.

(** C30. The parsers terminate on every text with the fuel they are given: the
    request-body parser and [JSON.parse] always produce a value or a syntax
    error, and the parser of one value answers the same for every amount of
    fuel above the length of the text. *)
Theorem parsing_terminates text :
  Parser.parseDocument text <> OutOfFuel /\ parse text <> OutOfFuel
  /\ forall strict depth fuel, (length text < fuel)%nat ->
       Parser.value strict fuel depth text = Parser.value strict (S (length text)) depth text
       /\ Parser.value strict fuel depth text <> OutOfFuel.
Proof.
  assert (HV : forall strict depth fuel, (length text < fuel)%nat -> Parser.value strict fuel depth text <> OutOfFuel).
  { intros strict depth fuel Hf. pose proof (value_delivers strict fuel depth text Hf) as H. by destruct (Parser.value _ _ _ _). }
  split_and!.
  - pose proof (parseDocument_post text) as H. by destruct (Parser.parseDocument text).
  - unfold parse. pose proof (complete_post _ _ _ _ (value_delivers false (S (length text)) 1 text ltac:(lia))) as H. by destruct (Parser.complete _).
  - intros strict depth fuel Hf. split; [|by apply HV].
    pose proof (value_follows false strict strict (or_introl eq_refl) (S (length text)) fuel depth text ltac:(lia)) as H.
    pose proof (HV strict depth (S (length text)) ltac:(lia)) as Hne.
    destruct (Parser.value strict (S (length text)) depth text); cbn in H; [done|by destruct H|done].
Qed.

(** What [decodeObject] accepts, [JSON.parse] reads the same, and it is within the
    limits of the module.  [JsonGrammar] says exactly what it accepts. *)
Lemma decodeObject_sound bytes ms :
  bytesOf bytes -> decodeObject bytes = Ok ms ->
  Z.of_nat (length bytes) <= 1048576
  /\ admitted 8 (TObj ms)
  /\ exists text, decodeText bytes = Some text /\ parse text = Parsed (TObj ms) [].
Proof.
  intros Hb. unfold decodeObject. destruct (_ <? _) eqn:El; [done|]. breflect.
  destruct (decodeText bytes) as [text|] eqn:Ed; [|done]. pose proof (decodeText_wellFormed _ _ Hb Ed) as Hc.
  pose proof (parseDocument_post text) as Hp. destruct (Parser.parseDocument text) as [v r| |] eqn:Ep; [|done..].
  destruct Hp as [-> Hp]. destruct v as [| | | | |ms']; try done. intros [= ->]. split_and!; [lia|by apply Hp|].
  exists text. split; [done|]. by apply parseDocument_parse.
Qed.

(** Apostrophes for quotation marks, in samples. *)
Definition quotes (s : jstring) : jstring := List.map (fun c => if c =? 39 then 34 else c) s.
Lemma fieldValues_ok ms names fs :
  fieldValues ms names = Ok fs ->
  JsMap.keys fs = names /\ Forall (fun e => JsMap.get e.1 ms = Some (TStr e.2) /\ 1 <= jlength e.2 <= 4096) fs.
Proof.
  revert fs. induction names as [|name names IH]; intros fs; cbn [fieldValues]; [intros [= <-]; by split|].
  destruct (JsMap.get name ms) as [[| | |s| |]|] eqn:Eg; try done. destruct (_ || _) eqn:El; [done|]. breflect. cbn.
  destruct (fieldValues ms names) as [rest|]; [|done]. intros [= <-]. destruct (IH _ eq_refl) as [HK HF]. split; [cbn; by f_equal|]. constructor; [|done].
  cbn. unfold jlength in *. split; [done|lia].
Qed.

Lemma decodeObject_wf bytes ms : decodeObject bytes = Ok ms -> bytesOf bytes -> JsMap.wf ms.
Proof.
  intros H Hb. unfold decodeObject in H. destruct (_ <? _); [done|]. destruct (decodeText bytes) as [text|] eqn:Ed; [|done].
  pose proof (parseDocument_post text) as Hp. destruct (Parser.parseDocument text) as [[| | | | |ms'] r| |]; try done.
  injection H as ->. destruct Hp as [_ Hp]. by destruct (Hp (decodeText_wellFormed _ _ Hb Ed)).
Qed.

Lemma stringFields_ok bytes names fs :
  bytesOf bytes -> NoDup names -> stringFields bytes names = Ok fs ->
  exists ms, decodeObject bytes = Ok ms /\ JsMap.keys ms ≡ₚ names /\ JsMap.keys fs = names
    /\ Forall (fun e => JsMap.get e.1 ms = Some (TStr e.2) /\ 1 <= jlength e.2 <= 4096) fs.
Proof.
  intros Hb Hn. unfold stringFields. destruct (decodeObject bytes) as [ms|] eqn:Ed; [|done]. cbn [mbind].
  pose proof (decodeObject_wf _ _ Ed Hb) as Hw. cbn. destruct (Nat.eqb (length ms) (length names)) eqn:El; [|done]. cbn [negb].
  intros H. apply fieldValues_ok in H as [HK HF]. exists ms. split_and!; [done| |done|done].
  apply Nat.eqb_eq in El. symmetry. apply submseteq_length_Permutation.
  - apply NoDup_submseteq; [done|]. intros x Hx. rewrite <- HK in Hx. apply list_elem_of_fmap in Hx as ([k v] & -> & Hin).
    rewrite Forall_forall in HF. destruct (HF _ Hin) as [Hg _]. by eapply JsMap.get_keys.
  - unfold JsMap.keys. rewrite length_fmap. lia.
Qed.
