(* ===== verification/JsonPrint.v ===== *)
(** * JSON text: [JSON.stringify] and the round trip through the parsers.

    [stringify] writes a value whose numbers are integers, the values this
    program serializes; [value_stringify] shows that both parsers of [JsonText]
    read the text back, wherever it stands in a document. *)
From S2P Require Import Prelude JsMap Errors Ids IsoDate Json Text JsonText.

(** ** [JSON.stringify]. *)

(** A UTF-16 unit written as an escape. *)
Definition unitEscape (c : Z) : jstring := [92; 117] ++ hexN 4 c.

(** The content of a string: quotes, backslashes and controls are escaped, and
    lone surrogates; everything else is itself. *)
Fixpoint escaped (s : jstring) : jstring :=
  match s with
  | [] => []
  | c :: r =>
      if isHigh c then
        match r with
        | d :: r' => if isLow d then c :: d :: escaped r' else unitEscape c ++ escaped r
        | [] => unitEscape c
        end
      else if isLow c then unitEscape c ++ escaped r
      else if (c =? 34) || (c =? 92) then 92 :: c :: escaped r
      else if c =? 8 then 92 :: 98 :: escaped r
      else if c =? 12 then 92 :: 102 :: escaped r
      else if c =? 10 then 92 :: 110 :: escaped r
      else if c =? 13 then 92 :: 114 :: escaped r
      else if c =? 9 then 92 :: 116 :: escaped r
      else if c <? 32 then unitEscape c ++ escaped r
      else c :: escaped r
  end.

Definition stringText (s : jstring) : jstring := [34] ++ escaped s ++ [34].

(** A number that is an integer of at most 53 bits, and its text. *)
Definition ofInt (n : Z) : double := toDouble (n <? 0) (Z.abs n) 0.
Definition toInt (d : double) : Z :=
  match d with
  | Finite negative n q => (if negative then -1 else 1) * (if q <? 0 then n / 2 ^ (- q) else n * 2 ^ q)
  | Infinite _ => 0
  end.
Definition intText (n : Z) : jstring :=
  (if n <? 0 then [45] else []) ++ IsoDate.digits (Z.to_nat (Json.digits 21 (Z.abs n))) (Z.abs n).

Definition joined (sep : jstring) (l : list jstring) : jstring :=
  match l with
  | [] => []
  | x :: l => x ++ List.flat_map (fun y => sep ++ y) l
  end.

(** The text of a value whose numbers are integers. *)
Fixpoint stringify (v : Value) : jstring :=
  match v with
  | TNull => js "null"
  | TBool true => js "true"
  | TBool false => js "false"
  | TNum d => intText (toInt d)
  | TStr s => stringText s
  | TArr l => [91] ++ joined [44] (List.map stringify l) ++ [93]
  | TObj ms => [123] ++ joined [44] (List.map (fun e => stringText e.1 ++ [58] ++ stringify e.2) ms) ++ [125]
  end.

Lemma hexOf_digit v : 0 <= v < 16 -> Parser.hexOf (hexDigit v) = Some v.
Proof.
  intros H. unfold hexDigit. destruct (v <? 10) eqn:E; breflect; unfold Parser.hexOf, isDigit.
  - rewrite (proj2 (Z.leb_le 48 _)), (proj2 (Z.leb_le _ 57)) by lia. cbn [andb]. f_equal. lia.
  - rewrite (proj2 (Z.leb_gt _ 57)), andb_false_r by lia. rewrite (proj2 (Z.leb_le 97 _)), (proj2 (Z.leb_le _ 102)) by lia. cbn [andb]. f_equal. lia.
Qed.

Lemma chars_unitEscape strict c t :
  0 <= c < 65536 -> (strict = true -> isHigh c = false /\ isLow c = false) ->
  Parser.chars strict (unitEscape c ++ t) = Parser.prefixed [c] (Parser.chars strict t).
Proof.
  intros Hc Hs. unfold unitEscape. cbn [hexN app]. cbn [Parser.chars Z.eqb Pos.eqb Z.ltb Z.compare negb]. unfold Parser.unitOf.
  rewrite !hexOf_digit by (apply Z.mod_pos_bound; lia).
  replace (4096 * _ + _ + _ + _) with c by (Z.div_mod_to_equations; lia).
  destruct strict; [destruct (Hs eq_refl) as [-> ->]|]; done.
Qed.

Lemma chars_plain strict c t :
  32 <= c -> c <> 34 -> c <> 92 -> Parser.chars strict (c :: t) = Parser.prefixed [c] (Parser.chars strict t).
Proof.
  intros H1 H2 H3. cbn [Parser.chars]. by rewrite (proj2 (Z.eqb_neq c 34)), (proj2 (Z.ltb_ge c 32)), (proj2 (Z.eqb_neq c 92)) by done.
Qed.

(** Reading a written string gives it back. *)
Lemma chars_escaped strict s t :
  units s -> (strict = true -> wellFormed s = true) -> Parser.chars strict (escaped s ++ 34 :: t) = Parsed s t.
Proof.
  intros Hu. induction s as [|c r Hc IH|c Hc|c d r Hc IH IHd] using units_ind; intros Hw; [done| | |].
  - apply Forall_cons in Hu as [Hcr Hu].
    assert (HI : (strict = true -> isLow c = false) /\ Parser.chars strict (escaped r ++ 34 :: t) = Parsed r t).
    { split; [|apply IH; [done|]]; intros Hs; specialize (Hw Hs); cbn in Hw; rewrite Hc in Hw; apply andb_true_iff in Hw as [Hl Hw];
        [by apply negb_true_iff in Hl|done]. }
    destruct HI as [Hl HI]. cbn [escaped]. rewrite Hc.
    destruct (isLow c) eqn:El; [rewrite <- app_assoc, chars_unitEscape, HI by naive_solver; done|].
    destruct (Z.eqb_spec c 34) as [->|?]; [cbn; by rewrite HI|]. destruct (Z.eqb_spec c 92) as [->|?]; [cbn; by rewrite HI|]. cbn [orb].
    do 5 (match goal with |- context [c =? ?k] => destruct (Z.eqb_spec c k) as [->|?]; [cbn; by rewrite HI|] end).
    destruct (c <? 32) eqn:E32; breflect; [rewrite <- app_assoc, chars_unitEscape, HI by naive_solver; done|].
    cbn [app]. rewrite chars_plain by lia. by rewrite HI.
  - destruct strict; [specialize (Hw eq_refl); cbn in Hw; by rewrite Hc in Hw|]. apply Forall_cons in Hu as [Hcr _].
    cbn [escaped]. rewrite Hc. by rewrite chars_unitEscape.
  - apply Forall_cons in Hu as [Hcr Hu]. destruct (isLow d) eqn:El.
    + cbn [escaped]. rewrite Hc, El. cbn [app]. rewrite !chars_raw by auto. apply Forall_cons in Hu as [_ Hu]. rewrite IH; [done|done|].
      intros Hs. specialize (Hw Hs). cbn in Hw. rewrite Hc in Hw. by apply andb_true_iff in Hw as [_ Hw].
    + destruct strict; [specialize (Hw eq_refl); cbn in Hw; by rewrite Hc, El in Hw|].
      assert (HE : escaped (c :: d :: r) = unitEscape c ++ escaped (d :: r)) by (cbn [escaped]; by rewrite Hc, El).
      rewrite HE, <- app_assoc, chars_unitEscape by done. by rewrite IHd.
Qed.

Lemma string_stringText strict s t :
  units s -> (strict = true -> wellFormed s = true) -> Parser.string strict (stringText s ++ t) = Parsed s t.
Proof. intros Hu Hw. unfold stringText. rewrite <- !app_assoc. cbn [app]. by apply chars_escaped. Qed.

(** *** Integers. *)
Definition safe (n : Z) : Prop := Z.abs n < 2 ^ 53.

Lemma roundEven_1 a : roundEven a 1 = a.
Proof. unfold roundEven. by rewrite Z.div_1_r, Z.mod_1_r. Qed.

(** An integer of at most 53 bits is a double. *)
Lemma toDouble_int negative m : 0 < m < 2 ^ 53 ->
  toDouble negative m 0 = Finite negative (m * 2 ^ (52 - Z.log2 m)) (Z.log2 m - 52).
Proof.
  intros Hm. pose proof (Z.log2_spec m ltac:(lia)) as [Hl Hu]. pose proof (Z.log2_nonneg m) as H0.
  assert (H53 : Z.log2 m < 53) by (apply Z.log2_lt_pow2; lia).
  unfold toDouble. rewrite (proj2 (Z.eqb_neq m 0)) by lia. rewrite Z.max_id, Z.pow_0_r, Z.mul_1_r.
  change (Z.max 0 (- 0)) with 0. rewrite Z.pow_0_r. cbv zeta.
  assert (HL : lastBit m 1 = Z.log2 m - 52).
  { unfold lastBit. change (Z.log2 1) with 0. rewrite Z.sub_0_r, (Z.max_l 0 (- Z.log2 m)), (Z.max_r 0 (Z.log2 m)) by lia.
    rewrite (proj2 (Z.ltb_ge _ _)) by lia. unfold MIN_EXPONENT. lia. }
  rewrite HL, (Z.max_r 0 (- (Z.log2 m - 52))), (Z.max_l 0 (Z.log2 m - 52)), Z.pow_0_r, Z.mul_1_r, roundEven_1 by lia.
  replace (- (Z.log2 m - 52)) with (52 - Z.log2 m) by lia.
  assert (Hlt : m * 2 ^ (52 - Z.log2 m) < 2 ^ 53).
  { replace (2 ^ 53) with (2 ^ Z.succ (Z.log2 m) * 2 ^ (52 - Z.log2 m)) by (rewrite <- Z.pow_add_r by lia; f_equal; lia).
    apply Z.mul_lt_mono_pos_r; [apply Z.pow_pos_nonneg; lia|done]. }
  rewrite (proj2 (Z.eqb_neq _ _)) by lia. by rewrite (proj2 (Z.ltb_ge 971 _)) by lia.
Qed.

Lemma toInt_ofInt n : safe n -> toInt (ofInt n) = n /\ isFinite (ofInt n) = true.
Proof.
  unfold safe, ofInt. intros Hn. destruct (Z.eq_dec n 0) as [->|Hne]; [done|].
  rewrite toDouble_int by lia. split; [|done]. cbn [toInt]. pose proof (Z.log2_nonneg (Z.abs n)) as H0.
  assert (H53 : Z.log2 (Z.abs n) < 53) by (apply Z.log2_lt_pow2; lia).
  assert (HV : (if Z.log2 (Z.abs n) - 52 <? 0 then Z.abs n * 2 ^ (52 - Z.log2 (Z.abs n)) / 2 ^ (- (Z.log2 (Z.abs n) - 52))
     else Z.abs n * 2 ^ (52 - Z.log2 (Z.abs n)) * 2 ^ (Z.log2 (Z.abs n) - 52)) = Z.abs n).
  { destruct (_ <? 0) eqn:E; breflect.
    - replace (- (Z.log2 (Z.abs n) - 52)) with (52 - Z.log2 (Z.abs n)) by lia. apply Z.div_mul. apply Z.pow_nonzero; lia.
    - replace (Z.log2 (Z.abs n)) with 52 by lia. change (2 ^ (52 - 52)) with 1. lia. }
  rewrite HV. destruct (n <? 0) eqn:E; breflect; lia.
Qed.

Lemma digits_cons k n : IsoDate.digits (S k) n = 48 + n / 10 ^ Z.of_nat k mod 10 :: IsoDate.digits k n.
Proof.
  revert n. induction k as [|k IH]; intros n; [cbn; by rewrite Z.div_1_r|].
  change (IsoDate.digits (S (S k)) n) with (IsoDate.digits (S k) (n / 10) ++ [48 + n mod 10]). rewrite IH. cbn [app].
  rewrite Nat2Z.inj_succ, Z.pow_succ_r, Zdiv_Zdiv by lia. done.
Qed.

Lemma Json_digits_bounds f n : 0 < n < 10 ^ Z.of_nat f ->
  1 <= Json.digits f n /\ 10 ^ (Json.digits f n - 1) <= n < 10 ^ Json.digits f n.
Proof.
  revert n. induction f as [|f IH]; intros n Hn; [cbn in Hn; lia|]. rewrite Nat2Z.inj_succ, Z.pow_succ_r in Hn by lia. cbn [Json.digits].
  destruct (n <? 10) eqn:E; breflect; [cbn; lia|].
  destruct (IH (n / 10)) as (H1 & H2 & H3).
  { split; [apply Z.div_str_pos; lia|apply Z.div_lt_upper_bound; lia]. }
  set (k := Json.digits f (n / 10)) in *. split; [lia|]. replace (1 + k - 1) with (Z.succ (k - 1)) by lia.
  replace (1 + k) with (Z.succ k) by lia. rewrite !Z.pow_succ_r by lia. pose proof (Z.div_mod n 10). pose proof (Z.mod_pos_bound n 10). lia.
Qed.

(** Text after which a number ends. *)
Definition stops (t : jstring) : Prop :=
  isDigit (Parser.peek t) = false /\ Parser.peek t <> 46 /\ Parser.peek t <> 101 /\ Parser.peek t <> 69.

Lemma digitsOf_digits ds t : Forall (fun c => 48 <= c <= 57) ds -> isDigit (Parser.peek t) = false -> Parser.digitsOf (ds ++ t) = (ds, t).
Proof.
  intros Hd Ht. induction Hd as [|c ds Hc Hds IH]; cbn [app].
  - destruct t as [|c t]; [done|]. cbn [Parser.peek] in Ht. cbn [Parser.digitsOf]. by rewrite Ht.
  - cbn [Parser.digitsOf]. unfold isDigit. rewrite (proj2 (Z.leb_le 48 c)), (proj2 (Z.leb_le c 57)) by lia. cbn [andb]. by rewrite IH.
Qed.

(** The digits of a natural number: one integer part. *)
Lemma natural_digits m t : 0 <= m < 2 ^ 53 -> stops t ->
  let ds := IsoDate.digits (Z.to_nat (Json.digits 21 m)) m in
  Parser.integerPart (ds ++ t) = (ds, t) /\ ds <> [] /\ number ds = m /\ Parser.peek (ds ++ t) <> 45.
Proof.
  intros Hm (Ht & _). cbv zeta. destruct (Z.eq_dec m 0) as [->|Hne]; [done|].
  destruct (Json_digits_bounds 21 m) as (H1 & H2 & H3); [change (10 ^ Z.of_nat 21) with 1000000000000000000000; lia|].
  set (k := Json.digits 21 m) in *. destruct (Z.to_nat k) as [|j] eqn:Ek; [lia|].
  assert (Hj : Z.of_nat j = k - 1) by lia.
  assert (Hd : 1 <= m / 10 ^ Z.of_nat j < 10).
  { rewrite Hj. split; [apply Z.div_le_lower_bound; [apply Z.pow_pos_nonneg; lia|lia]|].
    apply Z.div_lt_upper_bound; [apply Z.pow_pos_nonneg; lia|]. replace k with (Z.succ (k - 1)) in H3 by lia.
    rewrite Z.pow_succ_r in H3 by lia. lia. }
  assert (Hp : Parser.peek (IsoDate.digits (S j) m ++ t) = 48 + m / 10 ^ Z.of_nat j)
    by (rewrite digits_cons; cbn; rewrite Z.mod_small by lia; done).
  split_and!.
  - unfold Parser.integerPart. rewrite Hp, (proj2 (Z.eqb_neq _ 48)) by lia. apply digitsOf_digits; [apply IsoDate.digits_digit|done].
  - by rewrite digits_cons.
  - apply number_digits. replace (Z.of_nat (S j)) with k by lia. lia.
  - lia.
Qed.

Lemma numberAt_int strict n t : safe n -> stops t -> Parser.numberAt strict (intText n ++ t) = Parsed (TNum (ofInt n)) t.
Proof.
  intros Hn Ht. destruct (natural_digits (Z.abs n) t) as (HI & Hne & Hv & Hp); [unfold safe in Hn; lia|done|].
  destruct (toInt_ofInt n Hn) as [_ Hfin]. unfold Parser.numberAt, intText. set (ds := IsoDate.digits _ _) in *. clearbody ds.
  destruct Ht as (_ & H46 & H101 & H69).
  assert (HF : Parser.fraction t = ([], t)) by (unfold Parser.fraction; by rewrite (proj2 (Z.eqb_neq _ _) H46)).
  assert (HE : Parser.exponentPart t = (0, t))
    by (unfold Parser.exponentPart; by rewrite (proj2 (Z.eqb_neq _ _) H101), (proj2 (Z.eqb_neq _ _) H69)).
  assert (HU : forall neg, (let '(ds', r) := Parser.integerPart (ds ++ t) in
      match ds' with [] => SyntaxError | _ => let '(fs, r) := Parser.fraction r in let '(e, r) := Parser.exponentPart r in
        let d := toDouble neg (number (ds' ++ fs)) (e - jlength fs) in
        if strict && negb (isFinite d) then SyntaxError else Parsed (TNum d) r end)
      = if strict && negb (isFinite (toDouble neg (Z.abs n) 0)) then SyntaxError else Parsed (TNum (toDouble neg (Z.abs n) 0)) t).
  { intros neg. rewrite HI. destruct ds as [|d0 ds]; [done|]. rewrite HF, HE, app_nil_r, Hv. done. }
  unfold ofInt in *. destruct (n <? 0) eqn:E; cbn [app].
  - cbn [Parser.peek tail Z.eqb Pos.eqb]. rewrite HU, Hfin, andb_false_r. done.
  - rewrite (proj2 (Z.eqb_neq _ 45) Hp), HU, Hfin, andb_false_r. done.
Qed.

(** *** Values. *)

(** A value whose text the parsers read back: at most [n] levels, integers,
    well-formed strings, unique keys. *)
Fixpoint printable (n : nat) (v : Value) : Prop :=
  match n with
  | O => False
  | S n =>
      match v with
      | TNum d => exists z, safe z /\ d = ofInt z
      | TStr s => clean s
      | TArr l => Forall (printable n) l
      | TObj ms => JsMap.wf ms /\ Forall (fun e => clean e.1 /\ printable n e.2) ms
      | _ => True
      end
  end.

Lemma joined_cons sep x y l : joined sep (x :: y :: l) = x ++ sep ++ joined sep (y :: l).
Proof. cbn. by rewrite <- app_assoc. Qed.

Lemma stops_delimiter c t : c = 44 \/ c = 93 \/ c = 125 -> stops (c :: t).
Proof. by intros [->|[->| ->]]. Qed.

Section Printed.
  Context (item : jstring -> parsed Value) (N : nat).

(** [item] reads [v] back from a text shorter than [N]. *)
Definition readsBack (v : Value) : Prop :=
  forall u, stops u -> (length (stringify v ++ u) < N)%nat -> item (stringify v ++ u) = Parsed v u.

Lemma elements_printed l fuel t :
  l <> [] -> Forall readsBack l -> (length l <= fuel)%nat ->
  (length (joined [44] (List.map stringify l) ++ 93 :: t)%Z < N)%nat ->
  Parser.elements item fuel (joined [44] (List.map stringify l) ++ 93 :: t) = Parsed l t.
Proof.
  revert fuel. induction l as [|v l IH]; [done|]. intros fuel _ Hi Hf Hn. apply Forall_cons in Hi as [Hv Hi].
  destruct fuel as [|fuel]; [cbn in Hf; lia|]. cbn [Parser.elements]. destruct l as [|w l].
  - cbn [List.map joined List.flat_map] in *. rewrite app_nil_r in *. rewrite Hv by first [exact Hn|apply stops_delimiter; by auto]. done.
  - cbn [List.map] in *. rewrite joined_cons, <- !app_assoc in *. cbn [app] in *. rewrite Hv by first [exact Hn|apply stops_delimiter; by auto].
    cbn [andThen Parser.ws Parser.isBlank Z.eqb Pos.eqb orb Parser.peek tail]. rewrite length_app in Hn. cbn [length] in Hn.
    change (stringify w :: List.map stringify l) with (List.map stringify (w :: l)). rewrite IH; [done|done|done|cbn in *; lia|].
    cbn [List.map]. lia.
Qed.

Variable strict : bool.

Definition memberText (e : jstring * Value) : jstring := stringText e.1 ++ [58] ++ stringify e.2.

Lemma memberText_value k v u : (length (memberText (k, v) ++ u) < N)%nat -> (length (stringify v ++ u) < N)%nat.
Proof. unfold memberText. cbn [fst snd]. rewrite !length_app. cbn [length]. lia. Qed.

Lemma members_printed ms fuel output t :
  ms <> [] -> Forall (fun e => clean e.1 /\ readsBack e.2) ms -> JsMap.wf (output ++ ms) -> (length ms <= fuel)%nat ->
  (length (joined [44] (List.map memberText ms) ++ 125 :: t)%Z < N)%nat ->
  Parser.members strict item fuel output (joined [44] (List.map memberText ms) ++ 125 :: t) = Parsed (output ++ ms) t.
Proof.
  revert fuel output. induction ms as [|[k v] ms IH]; [done|]. intros fuel output _ Hi Hw Hf Hn.
  apply Forall_cons in Hi as [[[Hkw Hku] Hv] Hi]. cbn [fst snd] in *. destruct fuel as [|fuel]; [cbn in Hf; lia|].
  assert (Hfresh : JsMap.get k output = None).
  { apply JsMap.get_None. intros Hin. unfold JsMap.wf, JsMap.keys in Hw. rewrite fmap_app in Hw. apply NoDup_app in Hw as (_ & Hw & _).
    apply (Hw k Hin). cbn. by left. }
  assert (HS : forall u, stops u -> (length (stringify v ++ u) < N)%nat ->
    Parser.members strict item (S fuel) output (memberText (k, v) ++ u)
    = (let r := Parser.ws u in
       if Parser.peek r =? 44 then Parser.members strict item fuel (output ++ [(k, v)]) (tail r)
       else let* (_, r) := Parser.expect 125 r in Parsed (output ++ [(k, v)]) r)).
  { intros u Hu Hl. cbn [Parser.members]. unfold memberText. cbn [fst snd]. rewrite <- !app_assoc. cbn [app].
    assert (HW : forall x, Parser.ws (stringText k ++ x) = stringText k ++ x) by done. rewrite HW, string_stringText by done.
    cbn [andThen]. unfold JsMap.has. rewrite Hfresh, andb_false_r. cbn [Parser.ws Parser.isBlank Z.eqb Pos.eqb orb Parser.expect andThen].
    rewrite Hv by done. cbn [andThen]. by rewrite JsMap.set_fresh. }
  destruct ms as [|e ms].
  - cbn [List.map joined List.flat_map] in *. rewrite app_nil_r in *. rewrite HS; [done|by apply stops_delimiter; auto|].
    exact (memberText_value k v _ Hn).
  - cbn [List.map] in *. rewrite joined_cons, <- !app_assoc in *. cbn [app] in *.
    rewrite HS; [|by apply stops_delimiter; auto|exact (memberText_value k v _ Hn)].
    cbn [Parser.ws Parser.isBlank Z.eqb Pos.eqb orb Parser.peek tail]. rewrite length_app in Hn. cbn [length] in Hn.
    change (memberText e :: List.map memberText ms) with (List.map memberText (e :: ms)). rewrite IH; [|done|done| |cbn in *; lia|cbn [List.map]; lia].
    + by rewrite <- app_assoc.
    + by rewrite <- app_assoc.
Qed.
End Printed.

Lemma intText_head n : safe n -> exists c r, intText n = c :: r /\ (c = 45 \/ 48 <= c <= 57).
Proof.
  intros Hn. destruct (natural_digits (Z.abs n) []) as (_ & Hne & _); [unfold safe in Hn; lia|done|].
  pose proof (IsoDate.digits_digit (Z.to_nat (Json.digits 21 (Z.abs n))) (Z.abs n)) as Hd. unfold intText.
  destruct (IsoDate.digits _ _) as [|d ds]; [done|]. apply Forall_cons in Hd as [Hd _].
  destruct (n <? 0); cbn [app]; eauto.
Qed.

Lemma ws_fixed c r : Parser.isBlank c = false -> Parser.ws (c :: r) = c :: r.
Proof. cbn. by intros ->. Qed.

(** No value starts with a blank or a closing bracket. *)
Lemma stringify_head n v : printable n v -> exists c r, stringify v = c :: r /\ Parser.isBlank c = false /\ c <> 93.
Proof.
  destruct n as [|n]; [done|]. destruct v as [|b|d|s|l|ms]; cbn [printable stringify]; intros Hp.
  - by do 2 eexists.
  - destruct b; by do 2 eexists.
  - destruct Hp as (z & Hz & ->). destruct (toInt_ofInt z Hz) as [-> _]. destruct (intText_head z Hz) as (c & r & -> & Hc).
    exists c, r. split; [done|]. split; [|lia]. unfold Parser.isBlank. rewrite !orb_false_iff, !Z.eqb_neq. lia.
  - by do 2 eexists.
  - by do 2 eexists.
  - by do 2 eexists.
Qed.

Lemma joined_length (l : list jstring) : (length l <= S (length (joined [44%Z] l)))%nat.
Proof.
  destruct l as [|x l]; cbn; [lia|]. rewrite length_app.
  enough (length l <= length (List.flat_map (fun y => 44%Z :: y) l))%nat by lia.
  induction l as [|y l IH]; cbn; [lia|]. rewrite length_app. lia.
Qed.

Lemma printable_item strict n N fuel depth :
  (forall v t, printable n v -> (length (stringify v ++ t) < N)%nat -> stops t -> Parser.value strict fuel depth (stringify v ++ t) = Parsed v t) ->
  forall v, printable n v -> readsBack (Parser.value strict fuel depth) N v.
Proof. intros H v Hv u Hu Hl. by apply H. Qed.

(** Reading a written value gives it back, under either parser. *)
Lemma value_stringify strict n fuel depth v t :
  printable n v -> (strict = true -> Z.of_nat n <= 9 - depth) -> (length (stringify v ++ t) < fuel)%nat -> stops t ->
  Parser.value strict fuel depth (stringify v ++ t) = Parsed v t.
Proof.
  revert fuel depth v t. induction n as [|n IH]; intros fuel depth v t Hp Hd Hf Ht; [done|].
  destruct fuel as [|fuel]; [lia|]. cbn [Parser.value].
  assert (Hg : strict && (Parser.MAX_DEPTH <? depth) = false).
  { destruct strict; [|done]. cbn. apply Z.ltb_ge. unfold Parser.MAX_DEPTH. specialize (Hd eq_refl). lia. }
  rewrite Hg. cbv zeta.
  assert (HI : forall v, printable n v -> readsBack (Parser.value strict fuel (depth + 1)) fuel v).
  { apply (printable_item strict n). intros v' t' Hv' Hl Ht'. apply IH; [done| |lia|done]. intros Hs. specialize (Hd Hs). lia. }
  clear IH. destruct v as [|b|d|s|l|ms].
  - done.
  - by destruct b.
  - cbn [printable] in Hp. destruct Hp as (z & Hz & ->). cbn [stringify]. destruct (toInt_ofInt z Hz) as [-> _].
    destruct (intText_head z Hz) as (c & r & Hc & Hcr). pose proof (numberAt_int strict z t Hz Ht) as HN. rewrite Hc in HN |- *.
    cbn [app] in *. rewrite ws_fixed by (unfold Parser.isBlank; rewrite !orb_false_iff, !Z.eqb_neq; lia).
    cbn [Parser.peek]. by rewrite !(proj2 (Z.eqb_neq c _)) by lia.
  - cbn [stringify] in *. cbn [printable] in Hp. destruct Hp as [Hw Hu].
    assert (HW : Parser.ws (stringText s ++ t) = stringText s ++ t) by done. rewrite HW.
    change (Parser.peek (stringText s ++ t)) with 34. cbn [Z.eqb Pos.eqb]. by rewrite string_stringText.
  - cbn [stringify printable] in *. set (body := joined [44] (List.map stringify l)) in *.
    assert (HW : forall x, Parser.ws (([91] ++ x) ++ t) = 91 :: x ++ t) by done. rewrite HW, <- app_assoc. cbn [Parser.peek Z.eqb Pos.eqb].
    unfold Parser.array. cbn [Parser.expect Z.eqb Pos.eqb andThen]. rewrite !length_app in Hf. cbn [length] in Hf.
    destruct l as [|v l]; [done|].
    assert (HH : Parser.ws (body ++ [93] ++ t) = body ++ [93] ++ t /\ (Parser.peek (body ++ [93] ++ t) =? 93) = false).
    { destruct (stringify_head n v) as (c & r & Hc & Hb & H93); [by apply Forall_cons in Hp as [? _]|].
      subst body. cbn [List.map joined]. rewrite Hc. cbn [app]. split; [by apply ws_fixed|]. cbn. by apply Z.eqb_neq. }
    destruct HH as [-> ->]. cbn [app]. subst body. rewrite (elements_printed _ fuel); [done|done| | |].
    + eapply Forall_impl; [exact Hp|]. exact HI.
    + pose proof (joined_length (List.map stringify (v :: l))) as HL. rewrite List.length_map in HL. cbn [length] in *. rewrite length_app. lia.
    + rewrite length_app. cbn [length]. lia.
  - cbn [stringify printable] in *. destruct Hp as [Hw Hms]. change (fun e => stringText e.1 ++ [58] ++ stringify e.2) with memberText in *.
    set (body := joined [44] (List.map memberText ms)) in *.
    assert (HW : forall x, Parser.ws (([123] ++ x) ++ t) = 123 :: x ++ t) by done. rewrite HW, <- app_assoc. cbn [Parser.peek Z.eqb Pos.eqb].
    unfold Parser.object. rewrite Hg. cbn [Parser.expect Z.eqb Pos.eqb andThen]. rewrite !length_app in Hf. cbn [length] in Hf.
    destruct ms as [|[k v] ms]; [done|].
    assert (HH : Parser.ws (body ++ [125] ++ t) = body ++ [125] ++ t /\ (Parser.peek (body ++ [125] ++ t) =? 125) = false) by done.
    destruct HH as [-> ->]. cbn [app]. subst body. rewrite (members_printed _ fuel); [done|done| |done| |].
    + eapply Forall_impl; [exact Hms|]. intros e [He Hv]. split; [done|by apply HI].
    + pose proof (joined_length (List.map memberText ((k, v) :: ms))) as HL. rewrite List.length_map in HL. cbn [length] in *. rewrite length_app. lia.
    + rewrite length_app. cbn [length]. lia.
Qed.

(** *** Through UTF-8. *)
Lemma clean_app a b : clean a -> clean b -> clean (a ++ b).
Proof.
  intros [Hw Hu] [Hwb Hub]. split; [|by apply Forall_app]. clear Hu Hub.
  induction a as [|c r Hc IH|c Hc|c d r Hc IH _] using units_ind; [done| | |]; cbn [app wellFormed] in *; rewrite Hc in *.
  - apply andb_true_iff in Hw as [-> Hw]. by apply IH.
  - done.
  - apply andb_true_iff in Hw as [-> Hw]. by apply IH.
Qed.

Lemma clean_ascii s : Forall (fun c => 0 <= c < 128) s -> clean s.
Proof. intros H. split; [by apply wellFormed_ascii|]. eapply Forall_impl; [exact H|]. cbn. lia. Qed.

Lemma clean_unitEscape c : clean (unitEscape c).
Proof.
  apply clean_ascii, Forall_app. split; [repeat constructor; lia|]. eapply Forall_impl; [apply (hexN_hex 4)|].
  intros x. unfold isHexLower, isDigit. rewrite orb_true_iff, !andb_true_iff, !Z.leb_le. lia.
Qed.

Lemma escaped_clean s : units s -> clean (escaped s).
Proof.
  assert (HA : forall c r, 0 <= c < 65536 -> isHigh c = false -> isLow c = false -> clean r -> clean (c :: r)) by (intros; by apply clean_cons).
  intros Hu. induction s as [|c r Hc IH|c Hc|c d r Hc IH IHd] using units_ind; [by split; [|constructor]| | |].
  - apply Forall_cons in Hu as [Hcr Hu]. specialize (IH Hu). cbn [escaped]. rewrite Hc.
    destruct (isLow c) eqn:El; [by apply clean_app; [apply clean_unitEscape|]|].
    destruct (_ || _); [by do 2 (apply HA; [lia|done..|])|].
    do 5 (destruct (c =? _); [by do 2 (apply HA; [lia|done..|])|]).
    destruct (c <? 32); [by apply clean_app; [apply clean_unitEscape|]|by apply HA].
  - cbn [escaped]. rewrite Hc. apply clean_unitEscape.
  - apply Forall_cons in Hu as [Hcr Hu]. specialize (IHd Hu). apply Forall_cons in Hu as [Hdr Hu]. specialize (IH Hu). destruct (isLow d) eqn:El.
    + cbn [escaped]. rewrite Hc, El. by apply clean_pair.
    + assert (HE : escaped (c :: d :: r) = unitEscape c ++ escaped (d :: r)) by (cbn [escaped]; by rewrite Hc, El).
      rewrite HE. by apply clean_app; [apply clean_unitEscape|].
Qed.

Lemma stringText_clean s : units s -> clean (stringText s).
Proof.
  intros Hu. apply clean_app; [by apply clean_ascii; repeat constructor|]. apply clean_app; [by apply escaped_clean|].
  by apply clean_ascii; repeat constructor.
Qed.

Lemma joined_clean l : Forall clean l -> clean (joined [44] l).
Proof.
  destruct 1 as [|x l Hx Hl]; [by split; [|constructor]|]. apply clean_app; [done|].
  induction Hl as [|y l Hy Hl IH]; [by split; [|constructor]|]. cbn [List.flat_map]. apply clean_app; [|done].
  apply clean_app; [by apply clean_ascii; repeat constructor|done].
Qed.

Lemma stringify_clean n v : printable n v -> clean (stringify v).
Proof.
  revert v. induction n as [|n IH]; [done|]. intros [|b|d|s|l|ms]; cbn [printable stringify]; intros Hp.
  - by apply clean_ascii; repeat constructor.
  - by destruct b; apply clean_ascii; repeat constructor.
  - unfold intText. apply clean_ascii, Forall_app. split; [destruct (_ <? _); repeat constructor; lia|].
    eapply Forall_impl; [apply IsoDate.digits_digit|]. cbn. lia.
  - destruct Hp as [_ Hu]. by apply stringText_clean.
  - apply clean_app; [by apply clean_ascii; repeat constructor|]. apply clean_app; [|by apply clean_ascii; repeat constructor].
    apply joined_clean, Forall_map. eapply Forall_impl; [exact Hp|exact IH].
  - destruct Hp as [_ Hms]. apply clean_app; [by apply clean_ascii; repeat constructor|].
    apply clean_app; [|by apply clean_ascii; repeat constructor]. apply joined_clean, Forall_map.
    eapply Forall_impl; [exact Hms|]. intros e [[Hw Hu] Hv]. apply clean_app; [by apply stringText_clean|].
    apply clean_app; [by apply clean_ascii; repeat constructor|by apply IH].
Qed.

(** [JSON.parse(JSON.stringify(v))]. *)
Lemma parse_stringify n v : printable n v -> parse (stringify v) = Parsed v [].
Proof.
  intros Hp. unfold parse. pose proof (value_stringify false n (S (length (stringify v))) 1 v [] Hp ltac:(done)) as H.
  rewrite app_nil_r in H. rewrite H; [done|lia|done].
Qed.

(** Text that starts with an ASCII character has no byte-order mark. *)
Lemma decodeText_ascii c b : c < 128 -> decodeText (c :: b) = fromUtf8 (c :: b).
Proof. intros Hc. unfold decodeText. destruct b as [|x [|y r]]; try done. by rewrite (proj2 (Z.eqb_neq c 239)) by lia. Qed.

(** A body written by [JSON.stringify] is read back: when an object of at
    most eight levels, with integers, well-formed strings and unique keys, is
    serialized as UTF-8 in at most 1 MiB, [decodeObject] returns its members. *)
Theorem decodeObject_stringify ms :
  printable 8 (TObj ms) -> Z.of_nat (length (utf8 (stringify (TObj ms)))) <= 1048576 ->
  decodeObject (utf8 (stringify (TObj ms))) = Ok ms.
Proof.
  intros Hp Hl. unfold decodeObject. rewrite (proj2 (Z.ltb_ge _ _)) by lia.
  destruct (stringify_clean 8 _ Hp) as [Hw Hu]. pose proof (fromUtf8_utf8 _ Hu Hw) as HF.
  assert (HD : decodeText (utf8 (stringify (TObj ms))) = Some (stringify (TObj ms))).
  { rewrite <- HF. apply (decodeText_ascii 123). done. }
  rewrite HD. unfold Parser.parseDocument.
  pose proof (value_stringify true 8 (S (length (stringify (TObj ms)))) 1 (TObj ms) [] Hp ltac:(done)) as HV.
  rewrite app_nil_r in HV. specialize (HV ltac:(lia) ltac:(done)).
  assert (HE : Parser.value true (S (length (stringify (TObj ms)))) 1 (stringify (TObj ms))
     = Parser.object true 1 (Parser.value true (length (stringify (TObj ms))) 2) (stringify (TObj ms))) by reflexivity.
  rewrite HE in HV. change (Parser.ws (stringify (TObj ms))) with (stringify (TObj ms)).
  change (Parser.peek (stringify (TObj ms))) with 123. cbn [Z.eqb Pos.eqb negb]. by rewrite HV.
Qed.

Definition sample_members : list (jstring * Value) :=
  [(js "name", TStr (js "a/b")); (js "page", TObj [(js "limit", TNum (ofInt 25)); (js "tags", TArr [TNull; TBool true])])].

Lemma decodeObject_stringify_witness : decodeObject (utf8 (stringify (TObj sample_members))) = Ok sample_members.
Proof.
  apply decodeObject_stringify; [|vm_compute; discriminate]. unfold sample_members. cbn [printable].
  assert (HA : forall s, forallb (fun c => (0 <=? c) && (c <? 128)) s = true -> clean s).
  { intros s Hs. apply clean_ascii, Forall_forall. intros c Hc. rewrite forallb_forall in Hs. apply list_elem_of_In in Hc. specialize (Hs c Hc). breflect. lia. }
  split; [apply (bool_decide_unpack _); vm_compute; exact I|]. constructor; [by split; apply HA|]. constructor; [|constructor].
  split; [by apply HA|]. split; [apply (bool_decide_unpack _); vm_compute; exact I|].
  constructor; [split; [by apply HA|by exists 25]|]. constructor; [|constructor]. split; [by apply HA|]. by repeat constructor.
Defined.

(** Exactly the fields asked for, each a string of 1 to 4096 units. *)
