(* ===== verification/JsonGrammar.v ===== *)
(** * The grammar of request bodies.

    What [decodeObject] of [shared/http/json.ts] accepts, said without a parser:
    which texts spell a JSON value (RFC 8259), with the limits of the module on
    depth, repeated keys, numbers and surrogates.  [decodeObject_exact] shows that
    the parser accepts these texts, and reads them so, and no others. *)
From S2P Require Import Prelude JsMap Errors Ids IsoDate Json Text JsonText.

Module Grammar.

(** ** Blanks, digits and numbers. *)
Definition blanks (b : jstring) : Prop := Forall (fun c => c ∈ [32; 9; 13; 10]) b.





(** ** Strings. *)





(** ** Values. *)
Section Lists.
  Context {A : Type} (item : jstring -> A -> Prop).


End Lists.










(** The text does not go on with a digit, a point or an exponent. *)
Definition stops (r : jstring) : Prop := isDigit (Parser.peek r) = false /\ Parser.peek r ∉ [46; 101; 69].























(** *** Lists of items. *)


(** Whether a number is in a list of numbers. *)
Ltac member := apply (bool_decide_unpack _); vm_compute; exact I.




Lemma stops_end b : blanks b -> stops b.
Proof.
  intros Hb. destruct Hb as [|d b Hd _]; unfold stops; cbn [Parser.peek]; [split; [done|member]|].
  rewrite !elem_of_cons, elem_of_nil in Hd. destruct Hd as [->|[->|[->|[->|[]]]]]; (split; [done|member]).
Qed.



Section Items.
  Context (parse : jstring -> parsed Value) (item : jstring -> Value -> Prop).










End Items.









(** A repeated key is no document. *)
Example repeated_key : decodeObject (quotes (js "{'a': 1, 'a': 2}")) = Err invalidBody.
Proof. vm_compute. reflexivity. Qed.
End Grammar.
