(* ===== verification/Pagination.v ===== *)
(** * Bounded pages and opaque cursors: [shared/pagination] and the decimal
    reader of [shared/validation].

    A list query reads one page of rows ordered by (time, id), one row more
    than it shows, and issues a cursor holding the position of the last row it
    shows, bound to the query's scope. *)
From S2P Require Import Prelude JsMap Errors Ids IsoDate Json Text JsonText JsonPrint.

(** ** Decimal text ([shared/validation]). *)
Module Validation.

(** @src src/shared/validation/index.ts:9-10 invalid *)
Definition invalid (code : String.string) : Failure :=
  fail_with Errors.invalid "invalid input" (String.append "validation." code).

(** [/^(0|[1-9][0-9]* )$/]. *)
Definition isDecimal (s : jstring) : bool :=
  match s with
  | [] => false
  | c :: r => if c =? 48 then match r with [] => true | _ => false end else isDigit c && forallb isDigit r
  end.

(** @src src/shared/validation/index.ts:38-64 decimal *)
Definition decimal (value : JsValue) (min max : num) : Res Z :=
  if negb (isSafeInteger min) || negb (isSafeInteger max) || num_lt min 0 || num_lt max (num_val min)
     || num_gt max 2147483647
  then Err (invalid "policy")
  else
    match value with
    | VStr s =>
        if (10 <? jlength s) || negb (isDecimal s) then Err (invalid "decimal")
        else
          let n := number s in
          if (n <? num_val min) || (num_val max <? n) then Err (invalid "decimal") else Ok n
    | _ => Err (invalid "decimal")
    end.
End Validation.

(** ** Cursors. *)

(** @src src/shared/pagination/index.ts:11-12 invalid *)
Definition invalidPagination : Failure := fail_with Errors.invalid "invalid pagination" "pagination.invalid".

(** @src src/shared/pagination/index.ts:14-14 MAX_SCOPE_BYTES *)
Definition MAX_SCOPE_BYTES : Z := 128.
(** @src src/shared/pagination/index.ts:15-15 MAX_POSITION_BYTES *)
Definition MAX_POSITION_BYTES : Z := 256.

(** @src src/shared/pagination/index.ts:17-24 MAX_WIRE
    [Math.ceil(a / 3)] of a positive [a]. *)
Definition MAX_WIRE : Z := ((2 * MAX_SCOPE_BYTES + 2 * MAX_POSITION_BYTES + 9) * 4 + 2) / 3.

(** @src src/shared/pagination/index.ts:26-27 size *)
Definition size (raw : option jstring) : Res Z :=
  match raw with None => Ok 25 | Some raw => Validation.decimal (VStr raw) (Int 1) (Int 100) end.

(** A code point's first unit is a control character exactly when one of the
    string's units is: the others are surrogates. *)
Definition isControl (c : Z) : bool := (c <? 32) || (c =? 127).

(** @src src/shared/pagination/index.ts:29-40 validPart *)
Definition validPart (value : jstring) (maxBytes : Z) : bool :=
  wellFormed value && negb (jlength value =? 0) && (Z.of_nat (length (utf8 value)) <=? maxBytes)
  && negb (existsb isControl value).

(** Cursors: a name space, as [encode] and [decode] name the codecs of other files too. *)
Module Cursor.

(** @src src/shared/pagination/index.ts:49-49 encode (text of the cursor) *)
Definition cursorText (scope position : jstring) : jstring :=
  stringify (TArr [TNum (ofInt 1); TStr scope; TStr position]).

(** @src src/shared/pagination/index.ts:42-52 encode *)
Definition encode (scope position : jstring) : Res jstring :=
  if negb (validPart scope MAX_SCOPE_BYTES) || negb (validPart position MAX_POSITION_BYTES) then Err invalidPagination
  else
    let wire := Base64url.encode (utf8 (cursorText scope position)) in
    if jlength wire <=? MAX_WIRE then Ok wire else Err invalidPagination.

(** @src src/shared/pagination/index.ts:54-84 decode *)
Definition decode (wire scope : jstring) : Res jstring :=
  if (jlength wire =? 0) || (MAX_WIRE <? jlength wire) || negb (forallb Base64url.isChar wire)
     || negb (validPart scope MAX_SCOPE_BYTES)
  then Err invalidPagination
  else
    let bytes := Base64url.decode wire in
    if negb (bool_decide (Base64url.encode bytes = wire)) then Err invalidPagination
    else
      match decodeText bytes with
      | None => Err invalidPagination
      | Some text =>
          match JsonText.parse text with
          | Parsed (TArr [TNum version; TStr s; TStr p]) _ =>
              if bool_decide (version = ofInt 1) && bool_decide (s = scope) && validPart p MAX_POSITION_BYTES
              then Ok p else Err invalidPagination
          | _ => Err invalidPagination
          end
      end.
End Cursor.
Import Cursor.

(** ** Keyset positions. *)

(** @src src/shared/pagination/index.ts:116-116 After *)
Record After : Type := mkAfter { at_ : Date; id : jstring }.

(** @src src/shared/pagination/index.ts:119-121 position *)
Definition position (at_ : Date) (id : jstring) : jstring := toISOString at_ ++ [124] ++ id.

(** [value.split('|')]. *)
Fixpoint splitBar (s : jstring) : list jstring :=
  match s with
  | [] => [[]]
  | c :: r =>
      if c =? 124 then [] :: splitBar r
      else match splitBar r with p :: ps => (c :: p) :: ps | [] => [[c]] end
  end.

(** @src src/shared/pagination/index.ts:124-129 after *)
Definition after (value : jstring) : option After :=
  match splitBar value with
  | [iso; id] =>
      if (jlength iso =? 0) || (jlength id =? 0) then None
      else match parseIso iso with Some at_ => Some (mkAfter at_ id) | None => None end
  | _ => None
  end.

(** @src src/shared/pagination/index.ts:139-139 request (its result) *)
Record PageRequest : Type := mkPageRequest { limit : Z; start : option After }.

(** @src src/shared/pagination/index.ts:135-147 request *)
Definition request (scope : jstring) (limit cursor : option jstring) : Res PageRequest :=
  match size limit with
  | Err _ => Err invalidPagination
  | Ok pageSize =>
      match cursor with
      | None => Ok (mkPageRequest pageSize None)
      | Some cursor =>
          decoded ← decode cursor scope;
          match after decoded with
          | Some start => Ok (mkPageRequest pageSize (Some start))
          | None => Err invalidPagination
          end
      end
  end.

(** @src src/shared/pagination/index.ts:150-154 compareKeyset *)
Definition compareKeyset (left right : After) : Z :=
  let time := getTime left.(at_) - getTime right.(at_) in
  if negb (time =? 0) then time
  else match jcompare left.(id) right.(id) with Lt => -1 | Eq => 0 | Gt => 1 end.

(** ** Pages. *)
Section Pages.
  Context {T : Type}.

(** @src src/shared/pagination/index.ts:86-90 Page *)
Record Page : Type := mkPage { items : list T; hasMore : bool; nextCursor : option jstring }.

(** @src src/shared/pagination/index.ts:92-113 window *)
Definition window (rows : list T) (limit : num) (scope : jstring) (position : T -> jstring) : Res Page :=
  if negb (isInteger limit) || num_lt limit 1 || num_gt limit 100 || (num_val limit + 1 <? Z.of_nat (length rows))
  then Err invalidPagination
  else
    let hasMore := num_val limit <? Z.of_nat (length rows) in
    let items := take (Z.to_nat (num_val limit)) rows in
    if negb hasMore then Ok (mkPage items hasMore None)
    else
      match head (rev items) with
      | Some row => next ← encode scope (position row); Ok (mkPage items hasMore (Some next))
      | None => Err invalidPagination
      end.

(** @src src/shared/pagination/index.ts:160-169 keysetPage *)
Definition keysetPage (rows : list T) (key : T -> After) (page : PageRequest) : list T :=
  take (Z.to_nat (page.(limit) + 1))
    (filter (fun row => match page.(start) with
                        | Some a => 0 <? compareKeyset (key row) a
                        | None => true
                        end = true)
       (sort_by (fun left right => compareKeyset (key left) (key right)) rows)).
End Pages.
Arguments Page : clear implicits.
Arguments mkPage {T}.

(** ** Cursors: facts. *)

Lemma utf8_app a b : clean a -> utf8 (a ++ b) = utf8 a ++ utf8 b.
Proof.
  intros [Hw _]. induction a as [|c r Hc IH|c Hc|c d r Hc IH _] using units_ind; [done| | |]; cbn [app wellFormed] in *; rewrite Hc in *.
  - apply andb_true_iff in Hw as [Hl Hw]. apply negb_true_iff in Hl. specialize (IH Hw). cbn [utf8]. rewrite Hc, Hl.
    destruct (c <? 128); [by rewrite IH|]. destruct (c <? 2048); by rewrite IH.
  - done.
  - apply andb_true_iff in Hw as [Hl Hw]. specialize (IH Hw). apply isHigh_range in Hc as Hr. cbn [utf8]. rewrite Hc, Hl.
    rewrite (proj2 (Z.ltb_ge c 128)), (proj2 (Z.ltb_ge c 2048)) by lia. cbv zeta. by rewrite IH.
Qed.

(** A part of a cursor: well-formed, without control characters. *)
Record part (s : jstring) (maxBytes : Z) : Prop := mkPart {
  part_clean : clean s;
  part_bytes : Z.of_nat (length (utf8 s)) <= maxBytes;
  part_text : Forall (fun c => isControl c = false) s;
  part_some : s <> []
}.

Lemma validPart_spec s n : units s -> validPart s n = true <-> part s n.
Proof.
  intros Hu. unfold validPart. rewrite !andb_true_iff, !negb_true_iff, Z.leb_le, Z.eqb_neq. split.
  - intros [[[Hw Hl] Hb] Hc]. constructor; [by split|done| |by intros ->].
    apply Forall_forall. intros c Hin. destruct (isControl c) eqn:E; [|done].
    assert (existsb isControl s = true) by (apply existsb_exists; exists c; by rewrite <- list_elem_of_In). congruence.
  - intros [[Hw _] Hb Hc Hne]. split_and!; [done| |done|].
    + destruct s; [done|]. unfold jlength. cbn. lia.
    + apply not_true_iff_false. intros (c & Hin & E)%existsb_exists. rewrite <- list_elem_of_In in Hin.
      rewrite Forall_forall in Hc. by rewrite (Hc c Hin) in E.
Qed.

(** The same, decided. *)
Lemma part_decided s n : forallb (fun c => (0 <=? c) && (c <? 65536)) s && validPart s n = true -> part s n.
Proof.
  intros [Hu Hv]%andb_true_iff. apply validPart_spec; [|done]. apply Forall_forall. intros c Hc.
  rewrite forallb_forall in Hu. apply list_elem_of_In in Hc. specialize (Hu c Hc). cbn in Hu. breflect. lia.
Qed.

(** Escaping a part at most doubles its bytes. *)
Lemma escaped_bytes s : clean s -> Forall (fun c => isControl c = false) s -> (length (utf8 (escaped s)) <= 2 * length (utf8 s))%nat.
Proof.
  intros [Hw Hu]. induction s as [|c r Hc IH|c Hc|c d r Hc IH _] using units_ind; intros Ht; [done| | |]; cbn [wellFormed] in Hw; rewrite Hc in Hw.
  - apply andb_true_iff in Hw as [Hl Hw]. apply negb_true_iff in Hl. apply Forall_cons in Hu as [_ Hu]. apply Forall_cons in Ht as [H32 Ht].
    specialize (IH Hw Hu Ht). unfold isControl in H32. breflect. cbn [escaped]. rewrite Hc, Hl.
    destruct (_ || _) eqn:E.
    { assert (c = 34 \/ c = 92) as [-> | ->] by (apply orb_true_iff in E as [E|E]; breflect; auto); cbn; lia. }
    rewrite !(proj2 (Z.eqb_neq c _)) by lia. rewrite (proj2 (Z.ltb_ge c 32)) by lia. cbn [utf8]. rewrite Hc, Hl.
    destruct (c <? 128); [cbn; lia|]. destruct (c <? 2048); cbn; lia.
  - done.
  - apply andb_true_iff in Hw as [Hl Hw]. do 2 apply Forall_cons in Hu as [_ Hu]. do 2 apply Forall_cons in Ht as [_ Ht].
    specialize (IH Hw Hu Ht). apply isHigh_range in Hc as Hr. cbn [escaped]. rewrite Hc, Hl. cbn [utf8]. rewrite Hc, Hl.
    rewrite (proj2 (Z.ltb_ge c 128)), (proj2 (Z.ltb_ge c 2048)) by lia. cbn [length]. lia.
Qed.

Lemma stringText_bytes s n : part s n -> Z.of_nat (length (utf8 (stringText s))) <= 2 * n + 2.
Proof.
  intros [Hc Hb Ht _]. pose proof (escaped_bytes s Hc Ht) as HE. destruct Hc as [Hw Hu]. unfold stringText.
  rewrite (utf8_app [34]) by (by apply clean_ascii; repeat constructor). rewrite utf8_app by (by apply escaped_clean).
  rewrite !length_app. cbn. lia.
Qed.

Lemma cursor_printable scope p : clean scope -> clean p -> printable 2 (TArr [TNum (ofInt 1); TStr scope; TStr p]).
Proof. intros Hs Hp. cbn. constructor; [by exists 1|]. constructor; [done|]. constructor; [done|]. by apply List.Forall_nil. Qed.

Lemma cursor_bytes scope p n m : part scope n -> part p m ->
  Z.of_nat (length (utf8 (cursorText scope p))) <= 2 * n + 2 * m + 9.
Proof.
  intros Hs Hp. pose proof (stringText_bytes _ _ Hs). pose proof (stringText_bytes _ _ Hp).
  assert (HA : forall l, Forall (fun c => 0 <= c < 128) l -> forall r, length (utf8 (l ++ r)) = (length l + length (utf8 r))%nat).
  { intros l Hl r. rewrite utf8_app by (by apply clean_ascii). by rewrite length_app, utf8_ascii. }
  assert (HT : cursorText scope p = js "[1," ++ stringText scope ++ [44] ++ stringText p ++ [93]).
  { unfold cursorText. cbn [stringify List.map joined List.flat_map]. change (intText (toInt (ofInt 1))) with [49].
    by rewrite <- !app_assoc. }
  rewrite HT, HA by (by repeat constructor). destruct (part_clean _ _ Hs) as [_ Hus]. destruct (part_clean _ _ Hp) as [_ Hup].
  rewrite utf8_app by (by apply stringText_clean). rewrite length_app, HA by (by repeat constructor).
  rewrite utf8_app by (by apply stringText_clean). rewrite length_app.
  change (length (js "[1,")) with 3%nat. change (length (utf8 [93])) with 1%nat. cbn [length]. lia.
Qed.

(** [encode] refuses no pair of valid parts. *)
Lemma encode_valid scope p : part scope MAX_SCOPE_BYTES -> part p MAX_POSITION_BYTES ->
  encode scope p = Ok (Base64url.encode (utf8 (cursorText scope p))).
Proof.
  intros Hs Hp. unfold encode. destruct (part_clean _ _ Hs) as [_ Hus]. destruct (part_clean _ _ Hp) as [_ Hup].
  rewrite (proj2 (validPart_spec _ _ Hus) Hs), (proj2 (validPart_spec _ _ Hup) Hp). cbn [negb orb].
  pose proof (cursor_bytes _ _ _ _ Hs Hp) as HB. pose proof (Base64url.encode_length (utf8 (cursorText scope p))) as HL.
  rewrite (proj2 (Z.leb_le _ _)); [done|]. unfold MAX_WIRE, MAX_SCOPE_BYTES, MAX_POSITION_BYTES in *.
  change (((2 * 128 + 2 * 256 + 9) * 4 + 2) / 3) with 1036. lia.
Qed.

Lemma cursor_decode_encode scope p scope' :
  part scope MAX_SCOPE_BYTES -> part p MAX_POSITION_BYTES ->
  exists wire, encode scope p = Ok wire
    /\ decode wire scope' = if bool_decide (scope = scope') then Ok p else Err invalidPagination.
Proof.
  intros Hs Hp. eexists. split; [by apply encode_valid|]. set (bytes := utf8 (cursorText scope p)).
  destruct (part_clean _ _ Hs) as [Hws Hus]. destruct (part_clean _ _ Hp) as [Hwp Hup].
  pose proof (cursor_printable scope p ltac:(by split) ltac:(by split)) as HPr. destruct (stringify_clean _ _ HPr) as [Hwt Hut].
  assert (HB : bytesOf bytes) by (by apply utf8_bytes).
  pose proof (cursor_bytes _ _ _ _ Hs Hp) as HL1. fold bytes in HL1. pose proof (Base64url.encode_length bytes) as HL.
  assert (H0 : jlength (Base64url.encode bytes) <> 0) by (by intros H).
  unfold decode. rewrite (proj2 (Z.eqb_neq _ _) H0). cbn [orb].
  rewrite (proj2 (Z.ltb_ge MAX_WIRE _)).
  2: { unfold MAX_WIRE, MAX_SCOPE_BYTES, MAX_POSITION_BYTES in *. change (((2 * 128 + 2 * 256 + 9) * 4 + 2) / 3) with 1036. lia. }
  assert (HC : forallb Base64url.isChar (Base64url.encode bytes) = true)
    by (apply forallb_forall; intros c Hc; apply list_elem_of_In in Hc; by eapply Forall_forall in Hc; [|by apply Base64url.encode_chars]).
  rewrite HC. cbn [negb orb].
  rewrite Base64url.decode_encode by done. rewrite bool_decide_true by done. cbn [negb].
  assert (HD : decodeText bytes = Some (cursorText scope p)).
  { rewrite <- (fromUtf8_utf8 (cursorText scope p)) by done. by apply (decodeText_ascii 91). }
  rewrite HD. unfold cursorText at 1. rewrite (parse_stringify 2) by done. rewrite (bool_decide_true (ofInt 1 = _)) by done.
  rewrite (proj2 (validPart_spec _ _ Hup) Hp).
  case_bool_decide as Hsc; subst.
  - rewrite (proj2 (validPart_spec _ _ Hus) Hs). done.
  - by destruct (negb _).
Qed.

(** A cursor reads back for its own scope only: for a scope of at most 128
    bytes and a position of at most 256 bytes of text without control
    characters, [encode] always issues a cursor, [decode] under the same scope
    returns the position, and under any other scope refuses. *)
Theorem cursor_roundtrip scope p scope' :
  part scope MAX_SCOPE_BYTES -> part p MAX_POSITION_BYTES ->
  exists wire, encode scope p = Ok wire
    /\ decode wire scope' = if bool_decide (scope = scope') then Ok p else Err invalidPagination.
Proof. apply cursor_decode_encode. Qed.

Lemma cursor_roundtrip_witness :
  exists wire, encode (js "jobs:1") (js "2024-01-01T00:00:00.000Z|a") = Ok wire
    /\ decode wire (js "jobs:2") = if bool_decide (js "jobs:1" = js "jobs:2") then Ok (js "2024-01-01T00:00:00.000Z|a") else Err invalidPagination.
Proof.
  apply cursor_roundtrip; apply part_decided; vm_compute; reflexivity.
Defined.

(** ** The keyset order. *)

Lemma jcompare_antisym a b : jcompare b a = CompOpp (jcompare a b).
Proof.
  revert b. induction a as [|x a IH]; intros [|y b]; cbn; try done. rewrite (Z.compare_antisym x y).
  destruct (x ?= y); cbn; [apply IH|done..].
Qed.

Lemma jcompare_lt_trans a b c : jcompare a b = Lt -> jcompare b c = Lt -> jcompare a c = Lt.
Proof.
  revert b c. induction a as [|x a IH]; intros [|y b] [|z c]; cbn; try done.
  destruct (Z.compare_spec x y), (Z.compare_spec y z); subst; try done; intros H1 H2.
  - rewrite Z.compare_refl. by eapply IH.
  - by rewrite (proj2 (Z.compare_lt_iff y z)) by lia.
  - by rewrite (proj2 (Z.compare_lt_iff x z)) by lia.
  - by rewrite (proj2 (Z.compare_lt_iff x z)) by lia.
Qed.

Definition idOrder (a b : jstring) : Z := match jcompare a b with Lt => -1 | Eq => 0 | Gt => 1 end.

Lemma idOrder_flip a b : idOrder b a = - idOrder a b.
Proof. unfold idOrder. rewrite jcompare_antisym. by destruct (jcompare a b). Qed.

Lemma idOrder_trans a b c : idOrder a b <= 0 -> idOrder b c <= 0 -> idOrder a c <= 0.
Proof.
  unfold idOrder. destruct (jcompare a b) eqn:E1, (jcompare b c) eqn:E2; try lia; intros _ _.
  - apply jcompare_eq in E1 as ->. by rewrite E2.
  - apply jcompare_eq in E1 as ->. by rewrite E2.
  - apply jcompare_eq in E2 as <-. by rewrite E1.
  - by rewrite (jcompare_lt_trans _ _ _ E1 E2).
Qed.

Lemma compareKeyset_flip a b : compareKeyset b a = - compareKeyset a b.
Proof.
  unfold compareKeyset. cbv zeta. fold (idOrder (id a) (id b)) (idOrder (id b) (id a)). rewrite (idOrder_flip (id a) (id b)).
  destruct (_ =? 0) eqn:E1, (getTime (at_ a) - _ =? 0) eqn:E2; breflect; cbn [negb]; lia.
Qed.

Lemma compareKeyset_trans a b c : compareKeyset a b <= 0 -> compareKeyset b c <= 0 -> compareKeyset a c <= 0.
Proof.
  unfold compareKeyset. cbv zeta. fold (idOrder (id a) (id b)) (idOrder (id b) (id c)) (idOrder (id a) (id c)).
  pose proof (idOrder_trans (id a) (id b) (id c)) as HT.
  destruct (_ =? 0) eqn:E1, (getTime (at_ b) - _ =? 0) eqn:E2, (getTime (at_ a) - getTime (at_ c) =? 0) eqn:E3; breflect; cbn [negb]; lia.
Qed.

Lemma compareKeyset_eq a b :
  validDate a.(at_) = true -> validDate b.(at_) = true -> compareKeyset a b = 0 -> a = b.
Proof.
  destruct a as [[|s] i], b as [[|t] j]; try done. intros _ _. unfold compareKeyset. cbn. destruct (s - t =? 0) eqn:E; breflect; cbn [negb]; [|lia].
  destruct (jcompare i j) eqn:Ej; try lia. apply jcompare_eq in Ej as ->. intros _. do 2 f_equal. lia.
Qed.

(** ** Positions. *)
Lemma matchesShape_Forall (Q : Z -> Prop) shape s :
  Forall (fun p : Z -> bool => forall c, p c = true -> Q c) shape -> matchesShape shape s = true ->
  Forall Q s /\ length s = length shape.
Proof.
  intros HF. revert s. induction HF as [|p shape Hp HF IH]; intros [|c s] H; try done. cbn in H. apply andb_true_iff in H as [Hc H].
  destruct (IH s H) as [? Hl]. split; [constructor; auto|]. cbn. by rewrite Hl.
Qed.

Lemma canonical_chars s : matchesShape canonical s = true -> Forall (fun c => 45 <= c <= 102) s /\ length s = 36%nat.
Proof.
  apply (matchesShape_Forall _ canonical). unfold canonical, isHexAny, isHexLower, isDigit, isDash, isVariant.
  cbn [repeat app]. repeat (constructor; [intros c H; repeat (apply orb_true_iff in H as [H|H]); breflect; lia|]). constructor.
Qed.

Lemma isoText_chars t : Forall (fun c => 43 <= c <= 90) (isoText t) /\ (1 <= length (isoText t) <= 27)%nat.
Proof.
  assert (HD : forall w n, Forall (fun c => 43 <= c <= 90) (IsoDate.digits w n)).
  { intros w n. eapply Forall_impl; [apply digits_digit|]. cbn. lia. }
  unfold isoText, yearText. cbv zeta. split.
  - rewrite !Forall_app. split_and!; try apply HD; try (repeat constructor; lia). destruct (_ && _); [apply HD|].
    apply Forall_app. split; [destruct (_ <? 0); repeat constructor; lia|apply HD].
  - destruct (_ && _); [|destruct (_ <? 0)]; rewrite !length_app, ?digits_length; cbn [length]; rewrite ?digits_length; lia.
Qed.

Lemma splitBar_plain s : Forall (fun c => c <> 124) s -> splitBar s = [s].
Proof. induction 1 as [|c s Hc Hs IH]; [done|]. cbn. by rewrite (proj2 (Z.eqb_neq c 124)), IH. Qed.

Lemma splitBar_app a b : Forall (fun c => c <> 124) a -> splitBar (a ++ 124 :: b) = a :: splitBar b.
Proof. induction 1 as [|c s Hc Hs IH]; [done|]. cbn. by rewrite (proj2 (Z.eqb_neq c 124)), IH. Qed.

(** A row's key: a valid date and a UUID. *)
Definition keyOk (k : After) : Prop := validDate k.(at_) = true /\ matchesShape canonical k.(id) = true.

Lemma after_position k : keyOk k -> after (position k.(at_) k.(id)) = Some k.
Proof.
  destruct k as [d i]. intros [Hd Hi]. cbn [at_ id] in *. destruct (canonical_chars i Hi) as [Hc Hl].
  pose proof (parseIso_text d Hd) as Hp. destruct d as [|t]; [done|]. cbn [toISOString] in *.
  destruct (isoText_chars t) as [Ht Htl]. unfold after, position. cbn [toISOString]. cbn [app].
  rewrite splitBar_app by (eapply Forall_impl; [exact Ht|cbn; lia]). rewrite splitBar_plain by (eapply Forall_impl; [exact Hc|cbn; lia]).
  unfold jlength. rewrite (proj2 (Z.eqb_neq _ 0)), (proj2 (Z.eqb_neq _ 0)) by lia. cbn [orb]. by rewrite Hp.
Qed.

Lemma position_part k : keyOk k -> part (position k.(at_) k.(id)) MAX_POSITION_BYTES.
Proof.
  destruct k as [d i]. intros [Hd Hi]. cbn [at_ id] in *. destruct (canonical_chars i Hi) as [Hc Hl]. destruct d as [|t]; [done|].
  destruct (isoText_chars t) as [Ht Htl]. unfold position. cbn [toISOString].
  assert (HA : Forall (fun c => 32 <= c < 127) (isoText t ++ [124] ++ i)).
  { rewrite !Forall_app. split_and!; [eapply Forall_impl; [exact Ht|cbn; lia]|repeat constructor; lia|eapply Forall_impl; [exact Hc|cbn; lia]]. }
  constructor.
  - apply clean_ascii. eapply Forall_impl; [exact HA|cbn; lia].
  - rewrite utf8_ascii by (eapply Forall_impl; [exact HA|cbn; lia]). rewrite !length_app. cbn. unfold MAX_POSITION_BYTES. lia.
  - eapply Forall_impl; [exact HA|]. cbn. intros c Hcr. unfold isControl.
    by rewrite (proj2 (Z.ltb_ge c 32)), (proj2 (Z.eqb_neq c 127)) by lia.
  - by destruct (isoText t).
Qed.

Lemma size_bounds raw n : size raw = Ok n -> 1 <= n <= 100.
Proof.
  destruct raw as [s|]; cbn [size]; [|intros [= <-]; lia]. unfold Validation.decimal. destruct (_ || _); [done|].
  destruct (_ || _); [done|]. cbv zeta. destruct (_ || _) eqn:E; [done|]. intros [= <-]. breflect. cbn in *. lia.
Qed.

(** A scope made of a fixed word and an identifier. *)
Lemma scope_part prefix i :
  forallb (fun c => (32 <=? c) && (c <? 127)) prefix && Nat.leb (length prefix) 92 = true -> matchesShape canonical i = true ->
  part (prefix ++ i) MAX_SCOPE_BYTES.
Proof.
  intros [Hp Hl%Nat.leb_le]%andb_true_iff Hi.
  assert (Hp' : Forall (fun c => 32 <= c < 127) prefix).
  { apply Forall_forall. intros c Hc. rewrite forallb_forall in Hp. apply list_elem_of_In in Hc. specialize (Hp c Hc). cbn in Hp. breflect. lia. }
  clear Hp. rename Hp' into Hp. destruct (canonical_chars i Hi) as [Hc Hil].
  assert (HA : Forall (fun c => 32 <= c < 127) (prefix ++ i)).
  { rewrite Forall_app. split; [done|eapply Forall_impl; [exact Hc|cbn; lia]]. }
  constructor.
  - apply clean_ascii. eapply Forall_impl; [exact HA|cbn; lia].
  - rewrite utf8_ascii by (eapply Forall_impl; [exact HA|cbn; lia]). rewrite length_app. unfold MAX_SCOPE_BYTES. lia.
  - eapply Forall_impl; [exact HA|]. cbn. intros c Hcr. unfold isControl.
    by rewrite (proj2 (Z.ltb_ge c 32)), (proj2 (Z.eqb_neq c 127)) by lia.
  - destruct prefix; [by destruct i|done].
Qed.

(** ** Reading every page. *)
Lemma list_filter_none {A} (P : A -> Prop) `{forall x, Decision (P x)} (l : list A) : (forall x, x ∈ l -> ~ P x) -> filter P l = [].
Proof.
  induction l as [|x l IH]; intros Hl; [done|]. rewrite filter_cons_False by (apply Hl; by left).
  apply IH. intros y Hy. apply Hl. by right.
Qed.

Lemma list_filter_all {A} (P : A -> Prop) `{forall x, Decision (P x)} (l : list A) : (forall x, x ∈ l -> P x) -> filter P l = l.
Proof.
  induction l as [|x l IH]; intros Hl; [done|]. rewrite filter_cons_True by (apply Hl; by left).
  f_equal. apply IH. intros y Hy. apply Hl. by right.
Qed.

Section Paging.
  Context {T : Type} (key : T -> After).

Definition byKey (l r : T) : Z := compareKeyset (key l) (key r).

(** The rows in keyset order. *)
Definition ordered (rows : list T) : list T := sort_by byKey rows.

Definition positionOf (row : T) : jstring := position (key row).(at_) (key row).(id).

(** A list query: the request, the reader's rows, the window over them. *)
Definition servePage (scope : jstring) (raw : option jstring) (rows : list T) (cursor : option jstring) : Res (Page T) :=
  page ← request scope raw cursor;
  window (keysetPage rows key page) (Int page.(limit)) scope positionOf.

(** A client that asks for the first page and then follows every cursor. *)
Fixpoint follow (fuel : nat) (scope : jstring) (raw : option jstring) (rows : list T) (cursor : option jstring)
    : Res (list (list T)) :=
  match fuel with
  | O => Err invalidPagination
  | S fuel =>
      page ← servePage scope raw rows cursor;
      match page.(nextCursor) with
      | None => Ok [page.(items)]
      | Some c => rest ← follow fuel scope raw rows (Some c); Ok (page.(items) :: rest)
      end
  end.

Lemma ordered_perm rows : ordered rows ≡ₚ rows.
Proof. apply sort_by_perm. Qed.

Lemma ordered_strong rows : StronglySorted (fun a b => byKey a b <= 0) (ordered rows).
Proof.
  apply sort_by_strong; unfold byKey.
  - intros x y. pose proof (compareKeyset_flip (key x) (key y)). lia.
  - intros x y z. apply compareKeyset_trans.
Qed.

(** Rows of a table: valid keys, each its own. *)
Definition table (rows : list T) : Prop := Forall (fun r => keyOk (key r)) rows /\ NoDup (key <$> rows).

Lemma table_perm rows rows' : rows ≡ₚ rows' -> table rows -> table rows'.
Proof. intros HP [HF HN]. split; [by rewrite <- HP|]. by rewrite <- HP. Qed.

(** Splitting the order at a row. *)
Lemma after_row L1 x L2 :
  table (L1 ++ x :: L2) -> StronglySorted (fun a b => byKey a b <= 0) (L1 ++ x :: L2) ->
  filter (fun row => (0 <? compareKeyset (key row) (key x)) = true) (L1 ++ x :: L2) = L2.
Proof.
  intros [HF HN] HS. rewrite filter_app. apply StronglySorted_app in HS as (HX & _ & HS2).
  apply StronglySorted_inv in HS2 as [_ HS2]. rewrite fmap_app, fmap_cons in HN. apply NoDup_app in HN as (_ & _ & HN).
  apply NoDup_cons in HN as [HN _]. apply Forall_app in HF as [_ HF]. apply Forall_cons in HF as [HKx HF].
  rewrite (list_filter_none _ L1).
  2: { intros r Hr. rewrite Z.ltb_lt. specialize (HX r x Hr ltac:(by left)). unfold byKey in HX. lia. }
  cbn [app]. rewrite filter_cons_False.
  2: { rewrite Z.ltb_lt. pose proof (compareKeyset_flip (key x) (key x)). lia. }
  apply list_filter_all. intros r Hr. rewrite Z.ltb_lt. rewrite Forall_forall in HS2, HF.
  specialize (HS2 r Hr). specialize (HF r Hr). unfold byKey in HS2. pose proof (compareKeyset_flip (key x) (key r)) as Hflip.
  assert (compareKeyset (key x) (key r) <> 0); [|lia]. intros H0. apply compareKeyset_eq in H0; [|apply HKx|apply HF].
  apply HN. rewrite H0. by apply list_elem_of_fmap_2.
Qed.

(** Rows with distinct keys have one order, however they were stored. *)
Lemma key_inj rows x y : table rows -> x ∈ rows -> y ∈ rows -> byKey x y <= 0 -> byKey y x <= 0 -> x = y.
Proof.
  intros [HF HN] Hx Hy H1 H2. unfold byKey in *. pose proof (compareKeyset_flip (key x) (key y)) as Hflip.
  rewrite Forall_forall in HF. assert (Hk : key x = key y) by (apply compareKeyset_eq; [by apply HF|by apply HF|lia]).
  apply list_elem_of_lookup in Hx as [i Hi], Hy as [j Hj].
  assert (i = j) as ->; [|congruence]. eapply NoDup_lookup; [exact HN| |].
  - rewrite list_lookup_fmap, Hi. reflexivity.
  - rewrite list_lookup_fmap, Hj. cbn. by rewrite Hk.
Qed.

Lemma ordered_unique rows rows' : table rows -> rows' ≡ₚ rows -> ordered rows' = ordered rows.
Proof.
  intros Ht HP. apply (StronglySorted_unique_strong (fun a b => byKey a b <= 0)).
  - intros x y Hx Hy. rewrite ordered_perm in Hx, Hy. rewrite HP in Hx. by apply (key_inj rows).
  - apply ordered_strong.
  - apply ordered_strong.
  - by rewrite !ordered_perm.
Qed.

(** Sorting commutes with selecting. *)
Lemma ordered_filter (P : T -> Prop) `{forall r, Decision (P r)} rows : table rows -> ordered (filter P rows) = filter P (ordered rows).
Proof.
  intros Ht. apply (StronglySorted_unique_strong (fun a b => byKey a b <= 0)).
  - intros x y Hx Hy. rewrite ordered_perm in Hx, Hy. apply list_elem_of_filter in Hx as [_ Hx], Hy as [_ Hy]. by apply (key_inj rows).
  - apply ordered_strong.
  - pose proof (ordered_strong rows) as HS. induction HS as [|r l Hl IH Hr]; [constructor|]. rewrite filter_cons. case_decide; [|done].
    constructor; [done|]. apply Forall_forall. intros x [_ Hx]%list_elem_of_filter. rewrite Forall_forall in Hr. by apply Hr.
  - by rewrite !ordered_perm.
Qed.

(** A query that selects, sorts and limits is the reader's page. *)
Lemma keyset_query (p : T -> bool) rows page :
  table (filter (fun r => p r = true) rows) ->
  take (Z.to_nat (page.(limit) + 1))
    (sort_by byKey (filter (fun r => p r && match page.(start) with Some a => 0 <? compareKeyset (key r) a | None => true end = true) rows))
  = keysetPage (filter (fun r => p r = true) rows) key page.
Proof.
  intros Ht. unfold keysetPage. f_equal.
  replace (filter (fun r => p r && match page.(start) with Some a => 0 <? compareKeyset (key r) a | None => true end = true) rows)
    with (filter (fun r => match page.(start) with Some a => 0 <? compareKeyset (key r) a | None => true end = true) (filter (fun r => p r = true) rows)).
  - by apply ordered_filter.
  - rewrite list_filter_filter. apply list_filter_iff. intros r. rewrite andb_true_iff. tauto.
Qed.

Lemma keysetPage_perm rows rows' page : table rows -> rows' ≡ₚ rows -> keysetPage rows' key page = keysetPage rows key page.
Proof. intros Ht HP. unfold keysetPage. f_equal. f_equal. by apply (ordered_unique rows rows'). Qed.

Lemma follow_more fuel fuel' scope raw rows cursor pages :
  (fuel <= fuel')%nat -> follow fuel scope raw rows cursor = Ok pages -> follow fuel' scope raw rows cursor = Ok pages.
Proof.
  revert fuel' cursor pages. induction fuel as [|fuel IH]; intros fuel' cursor pages Hf H; [done|]. destruct fuel' as [|fuel']; [lia|].
  cbn [follow] in *. destruct (servePage scope raw rows cursor) as [page|]; [|done]. cbn in *.
  destruct (nextCursor page) as [c|]; [|done]. destruct (follow fuel scope raw rows (Some c)) as [rest|] eqn:E; [|done].
  by rewrite (IH fuel' (Some c) rest ltac:(lia) E).
Qed.

Section Served.
  Context (scope : jstring) (raw : option jstring) (n : Z) (rows : list T).
  Context (Hscope : part scope MAX_SCOPE_BYTES) (Hsize : size raw = Ok n) (Hrows : table rows).

(** The cursor stands for the rows before it. *)
Definition stands (L1 : list T) (cursor : option jstring) : Prop :=
  match cursor with
  | None => L1 = []
  | Some c => exists L x, L1 = L ++ [x] /\ decode c scope = Ok (positionOf x)
  end.

Lemma ordered_table : table (ordered rows).
Proof. eapply table_perm; [symmetry; apply ordered_perm|done]. Qed.

Lemma ordered_ok r : r ∈ ordered rows -> keyOk (key r).
Proof. destruct ordered_table as [HF _]. rewrite Forall_forall in HF. apply HF. Qed.

Lemma rows_after L1 L2 cursor :
  ordered rows = L1 ++ L2 -> stands L1 cursor ->
  exists page, request scope raw cursor = Ok page /\ limit page = n /\ keysetPage rows key page = take (Z.to_nat (n + 1)) L2.
Proof.
  intros HO Hc. unfold request. rewrite Hsize. destruct cursor as [c|]; cbn [stands] in Hc.
  - destruct Hc as (L & x & -> & Hd). rewrite Hd. cbn. unfold positionOf. rewrite after_position.
    2: { apply ordered_ok. rewrite HO. apply elem_of_app. left. apply elem_of_app. right. by left. }
    eexists. split_and!; [done|done|]. unfold keysetPage. cbn [start limit]. f_equal.
    change (sort_by (fun l r => compareKeyset (key l) (key r)) rows) with (ordered rows).
    rewrite HO, <- app_assoc. apply after_row; cbn [app].
    + pose proof ordered_table as HT. by rewrite HO, <- app_assoc in HT.
    + pose proof (ordered_strong rows) as HS. by rewrite HO, <- app_assoc in HS.
  - subst L1. eexists. split_and!; [done|done|]. unfold keysetPage. cbn [start limit]. f_equal.
    change (sort_by (fun l r => compareKeyset (key l) (key r)) rows) with (ordered rows). rewrite HO. by apply list_filter_all.
Qed.

Lemma servePage_ok L1 L2 cursor :
  ordered rows = L1 ++ L2 -> stands L1 cursor ->
  exists next, servePage scope raw rows cursor = Ok (mkPage (take (Z.to_nat n) L2) (n <? Z.of_nat (length L2)) next)
    /\ if n <? Z.of_nat (length L2) then exists c, next = Some c /\ stands (L1 ++ take (Z.to_nat n) L2) (Some c) else next = None.
Proof.
  intros HO Hc. pose proof (size_bounds raw n Hsize) as Hn. destruct (rows_after L1 L2 cursor HO Hc) as (page & HR & HL & HK).
  unfold servePage. rewrite HR. cbn [mbind]. cbn. rewrite HK, HL. unfold window.
  assert (HG : negb (isInteger (Int n)) || num_lt (Int n) 1 || num_gt (Int n) 100
    || (num_val (Int n) + 1 <? Z.of_nat (length (take (Z.to_nat (n + 1)) L2))) = false).
  { cbn. rewrite !orb_false_iff, !Z.ltb_ge, length_take. lia. }
  rewrite HG. cbn [num_val]. cbv zeta. rewrite take_take, Nat.min_l by lia.
  assert (HM : (n <? Z.of_nat (length (take (Z.to_nat (n + 1)) L2))) = (n <? Z.of_nat (length L2))).
  { rewrite length_take. apply eq_true_iff_eq. rewrite !Z.ltb_lt. lia. }
  rewrite HM. destruct (n <? Z.of_nat (length L2)) eqn:E; cbn [negb]; [|by eexists]. breflect.
  destruct (rev (take (Z.to_nat n) L2)) as [|x rest] eqn:Er.
  { apply (f_equal (@length _)) in Er. rewrite List.length_rev, length_take in Er. cbn in Er. lia. }
  assert (HT : take (Z.to_nat n) L2 = rev rest ++ [x]) by (rewrite <- (List.rev_involutive (take _ L2)), Er; done).
  assert (Hx : keyOk (key x)).
  { apply ordered_ok. rewrite HO, <- (take_drop (Z.to_nat n) L2), HT. rewrite !elem_of_app. right. left. right. by left. }
  cbn [head]. destruct (cursor_decode_encode scope (positionOf x) scope Hscope (position_part _ Hx)) as (wire & HW & HD).
  rewrite bool_decide_true in HD by done. rewrite HW. cbn. eexists. split; [done|]. exists wire. split; [done|].
  exists (L1 ++ rev rest), x. by rewrite HT, app_assoc.
Qed.

Lemma follow_from fuel L1 L2 cursor :
  ordered rows = L1 ++ L2 -> stands L1 cursor -> (length L2 < fuel)%nat ->
  exists pages, follow fuel scope raw rows cursor = Ok pages /\ concat pages = L2
    /\ Forall (fun p => Z.of_nat (length p) <= n) pages /\ Forall (fun p => Z.of_nat (length p) = n) (removelast pages).
Proof.
  pose proof (size_bounds raw n Hsize) as Hn.
  revert L1 L2 cursor. induction fuel as [|fuel IH]; intros L1 L2 cursor HO Hc Hf; [lia|]. cbn [follow].
  destruct (servePage_ok L1 L2 cursor HO Hc) as (next & HS & Hnext). rewrite HS. cbn.
  destruct (n <? Z.of_nat (length L2)) eqn:E; breflect.
  - destruct Hnext as (c & -> & Hst). destruct (IH (L1 ++ take (Z.to_nat n) L2) (drop (Z.to_nat n) L2) (Some c)) as (pages & HF & HP & HL & HE).
    + by rewrite <- app_assoc, take_drop.
    + done.
    + rewrite length_drop. lia.
    + rewrite HF. cbn. eexists. split_and!; [done|cbn; by rewrite HP, take_drop| |].
      * constructor; [rewrite length_take; lia|done].
      * destruct pages as [|p pages]; [constructor|]. cbn [removelast]. constructor; [rewrite length_take; lia|exact HE].
  - subst next. rewrite firstn_all2 by lia. eexists. split_and!; [done|cbn; by rewrite app_nil_r| |constructor].
    constructor; [lia|constructor].
Qed.
End Served.
End Paging.

(** ** Serving views of the rows. *)
Section Views.
  Context {T U : Type} (f : T -> U).

Definition viewPage (page : Page T) : Page U := mkPage (f <$> page.(items)) page.(hasMore) page.(nextCursor).

Lemma window_fmap rows limit scope (p : T -> jstring) (p' : U -> jstring) :
  (forall x, x ∈ rows -> p' (f x) = p x) -> window (f <$> rows) limit scope p' = (page ← window rows limit scope p; Ok (viewPage page)).
Proof.
  intros Hp. unfold window. rewrite length_fmap. destruct (_ || _); [done|]. destruct (negb _); [cbn; unfold viewPage; cbn; by rewrite fmap_take|].
  rewrite <- fmap_take, <- (List.map_rev f). destruct (rev (take _ rows)) as [|x l] eqn:E; [done|]. cbn.
  rewrite Hp; [by destruct (encode _ _)|]. assert (Hx : x ∈ rev (take (Z.to_nat (num_val limit)) rows)) by (rewrite E; by left).
  apply list_elem_of_In, List.in_rev, list_elem_of_In in Hx. by apply elem_of_take in Hx as (i & Hi & _); eapply list_elem_of_lookup_2.
Qed.

Lemma keysetPage_fmap rows (key : T -> After) (key' : U -> After) page :
  (forall x, x ∈ rows -> key' (f x) = key x) -> keysetPage (f <$> rows) key' page = f <$> keysetPage rows key page.
Proof.
  intros Hk. unfold keysetPage. rewrite (sort_by_fmap f (fun l r => compareKeyset (key l) (key r))) by (intros x y Hx Hy; by rewrite !Hk).
  rewrite fmap_take. f_equal.
  assert (Hin : forall x, x ∈ sort_by (fun l r => compareKeyset (key l) (key r)) rows -> key' (f x) = key x) by (intros x Hx; rewrite sort_by_perm in Hx; by apply Hk).
  revert Hin. generalize (sort_by (fun l r => compareKeyset (key l) (key r)) rows) as l.
  induction l as [|x l IH]; intros Hin; [done|]. cbn [fmap list_fmap]. rewrite !filter_cons, Hin by (by left).
  rewrite IH by (intros y Hy; apply Hin; by right). by destruct (decide _).
Qed.

Lemma servePage_fmap rows (key : T -> After) (key' : U -> After) scope raw cursor :
  (forall x, x ∈ rows -> key' (f x) = key x) ->
  servePage key' scope raw (f <$> rows) cursor = (page ← servePage key scope raw rows cursor; Ok (viewPage page)).
Proof.
  intros Hk. unfold servePage. destruct (request _ _ _) as [p|]; [|done]. cbn. rewrite (keysetPage_fmap rows key) by done.
  apply window_fmap. intros x Hx. unfold positionOf. rewrite Hk; [done|]. unfold keysetPage in Hx.
  apply elem_of_take in Hx as (i & Hx & _). apply list_elem_of_lookup_2, list_elem_of_filter in Hx as [_ Hx]. by rewrite sort_by_perm in Hx.
Qed.

Lemma ordered_fmap rows (key : T -> After) (key' : U -> After) :
  (forall x, x ∈ rows -> key' (f x) = key x) -> ordered key' (f <$> rows) = f <$> ordered key rows.
Proof. intros Hk. apply sort_by_fmap. intros x y Hx Hy. unfold byKey. by rewrite !Hk. Qed.

Lemma table_fmap rows (key : T -> After) (key' : U -> After) :
  (forall x, x ∈ rows -> key' (f x) = key x) -> table key rows -> table key' (f <$> rows).
Proof.
  intros Hk [Hok Hnd]. rewrite Forall_forall in Hok. split.
  - apply Forall_forall. intros y (x & -> & Hx)%list_elem_of_fmap. rewrite Hk by done. by apply Hok.
  - rewrite <- list_fmap_compose. erewrite (list_fmap_ext _ key); [exact Hnd|]. intros i x Hx. apply Hk. by eapply list_elem_of_lookup_2.
Qed.
End Views.

(** ** Browsing a query that serves pages. *)
Section Browsing.
  Context {T : Type} (serve : option jstring -> Page T -> Prop).

(** A client that lists from the start and follows every cursor it is given. *)
Inductive browse : option jstring -> list (list T) -> Prop :=
| browse_last cursor page : serve cursor page -> page.(nextCursor) = None -> browse cursor [page.(items)]
| browse_next cursor page c rest :
    serve cursor page -> page.(nextCursor) = Some c -> browse (Some c) rest -> browse cursor (page.(items) :: rest).

  Context (key : T -> After) (scope : jstring) (raw : option jstring) (rows : list T).
  Context (Hserve : forall cursor page, serve cursor page <-> servePage key scope raw rows cursor = Ok page).

Lemma browse_followed cursor pages : browse cursor pages -> exists fuel, follow key fuel scope raw rows cursor = Ok pages.
Proof.
  induction 1 as [cursor page Hrun Hn|cursor page c rest Hrun Hn _ [fuel IH]]; apply Hserve in Hrun.
  - exists 1%nat. cbn [follow]. rewrite Hrun. cbn. by rewrite Hn.
  - exists (S fuel). cbn [follow]. rewrite Hrun. cbn. by rewrite Hn, IH.
Qed.

Lemma followed_browse fuel cursor pages : follow key fuel scope raw rows cursor = Ok pages -> browse cursor pages.
Proof.
  revert cursor pages. induction fuel as [|fuel IH]; intros cursor pages H; [done|]. cbn [follow] in H.
  destruct (servePage _ _ _ _ cursor) as [page|] eqn:Ep; [|done]. cbn in H. apply Hserve in Ep.
  destruct (nextCursor page) as [c|] eqn:En.
  - destruct (follow key fuel _ _ _ (Some c)) as [rest|] eqn:Er; [|done]. injection H as <-. eapply browse_next; [exact Ep|exact En|by apply IH].
  - injection H as <-. by apply browse_last.
Qed.

(** Whichever way the client goes, it gets to the end and is shown every row
    once, in order. *)
Lemma browse_complete n :
  part scope MAX_SCOPE_BYTES -> size raw = Ok n -> table key rows ->
  (exists pages, browse None pages)
  /\ forall pages, browse None pages ->
       concat pages = ordered key rows /\ Forall (fun p => Z.of_nat (length p) <= n) pages.
Proof.
  intros Hs Hn Ht.
  destruct (follow_from key _ _ n rows Hs Hn Ht (S (length rows)) [] (ordered key rows) None
    eq_refl eq_refl) as (pages & HF & HP & HL & _); [rewrite (ordered_perm key rows); lia|].
  split; [exists pages; by eapply followed_browse|]. intros pages' Hb. destruct (browse_followed _ _ Hb) as [fuel HF'].
  assert (pages' = pages) as ->; [|done].
  destruct (Nat.le_ge_cases fuel (S (length rows))) as [Hle|Hle].
  - apply (follow_more key _ _ _ _ _ _ _ Hle) in HF'. congruence.
  - apply (follow_more key _ _ _ _ _ _ _ Hle) in HF. congruence.
Qed.
End Browsing.

(** C29. Following the cursors reads every row once, in order, and stops: for
    rows with valid dates and distinct UUIDs, a scope that fits a cursor and an
    accepted page size [n], the client that starts without a cursor and follows
    [nextCursor] until there is none is never refused, and the pages it gets
    are, end to end, the rows sorted by (time, id), every page but the last
    holding exactly [n] of them. *)
Theorem paging_complete {T} (key : T -> After) scope raw n rows :
  part scope MAX_SCOPE_BYTES -> size raw = Ok n -> table key rows ->
  exists pages, follow key (S (length rows)) scope raw rows None = Ok pages
    /\ concat pages = ordered key rows
    /\ Forall (fun p => Z.of_nat (length p) <= n) pages
    /\ Forall (fun p => Z.of_nat (length p) = n) (removelast pages).
Proof.
  intros Hs Hn Ht. apply (follow_from key scope raw n rows Hs Hn Ht _ [] (ordered key rows) None eq_refl eq_refl).
  rewrite (ordered_perm key rows). lia.
Qed.

Definition sample_key (i : Z) : After := mkAfter (DateAt (1000 * (i mod 2))) (padStart 8 (toHex i) ++ js "-0000-4000-8000-000000000000").
Definition sample_rows : list Z := [5; 1; 4; 2; 3].

Lemma paging_complete_witness :
  exists pages, follow sample_key 6 (js "jobs:1") (Some (js "2")) sample_rows None = Ok pages
    /\ concat pages = ordered sample_key sample_rows
    /\ Forall (fun p => Z.of_nat (length p) <= 2) pages
    /\ Forall (fun p => Z.of_nat (length p) = 2) (removelast pages).
Proof.
  apply (paging_complete sample_key (js "jobs:1") (Some (js "2")) 2 sample_rows).
  - apply part_decided. vm_compute. reflexivity.
  - vm_compute. reflexivity.
  - split; [unfold sample_rows; repeat (constructor; [by split; vm_compute|]); constructor|].
    apply (NoDup_fmap_1 id). apply (bool_decide_unpack _). vm_compute. exact I.
Defined.

(** The pages a client of that sample gets. *)
Example sample_pages : follow sample_key 6 (js "jobs:1") (Some (js "2")) sample_rows None = Ok [[2; 4]; [1; 3]; [5]].
Proof. vm_compute. reflexivity. Qed.
