(* ===== verification/Provenance.v ===== *)
(** * Provenance: [shared/provenance].

    Actors, attributions and references are frozen objects the module brands
    (a [WeakSet] per kind), so an object of the same shape built elsewhere is
    refused: each carries its brand here.  Work contexts and scopes are
    instances of classes only the module can construct. *)
From S2P Require Import Prelude JsMap Errors Ids.

Module Provenance.

(** @src src/shared/provenance/actor.ts:9-10 invalid *)
Definition invalid (code : string) : Failure :=
  fail_with invalid "invalid provenance" ("provenance." ++ code)%string.

(** @src src/shared/provenance/actor.ts:14-19 Actor *)
Record Actor : Type := mkActor { a_known : bool; a_kind : jstring; a_identity : option jstring }.

#[export] Instance Actor_eq_dec : EqDecision Actor.
Proof. solve_decision. Defined.

(** [[A-Za-z0-9._:/-]]. *)
Definition isIdentityChar (c : Z) : bool :=
  isUpper c || isLower c || isDigit c || (c =? 46) || (c =? 95) || (c =? 58) || (c =? 47) || (c =? 45).

(** @src src/shared/provenance/actor.ts:21-22 identityValid *)
Definition identityValid (s : jstring) : bool :=
  forallb isIdentityChar s && (1 <=? jlength s) && (jlength s <=? 128).

(** [x === 'literal']. *)
Definition isLit (s : jstring) (literal : string) : bool := bool_decide (s = js literal).

(** @src src/shared/provenance/actor.ts:24-42 actor *)
Definition actor (kind identity : jstring) : Res Actor :=
  if (isLit kind "anonymous" && negb (bool_decide (identity = [])))
     || (negb (isLit kind "anonymous")
         && (negb (isLit kind "user" || isLit kind "service" || isLit kind "system")
             || negb (identityValid identity)))
  then Err (invalid "invalid_actor")
  else Ok (if isLit kind "anonymous" then mkActor true kind None else mkActor true kind (Some identity)).

(** @src src/shared/provenance/actor.ts:44-48 anonymous *)
Definition anonymous : Actor := mkActor true (js "anonymous") None.

(** @src src/shared/provenance/actor.ts:50-51 validActor *)
Definition validActor (a : Actor) : bool := a.(a_known).

(** @src src/shared/provenance/actor.ts:53-54 namedActor *)
Definition namedActor (a : Actor) : bool := validActor a && negb (isLit a.(a_kind) "anonymous").

(** @src src/shared/provenance/attribution.ts:10-14 AttributionSpec *)
Record AttributionSpec : Type := mkSpec {
  s_initiator : option Actor; s_onBehalfOf : option Actor; s_tenant : option jstring
}.

(** @src src/shared/provenance/attribution.ts:16-18 Attribution *)
Record Attribution : Type := mkAttribution {
  t_known : bool;
  t_initiator : option Actor; t_onBehalfOf : option Actor; t_tenant : option jstring
}.

#[export] Instance Attribution_eq_dec : EqDecision Attribution.
Proof. solve_decision. Defined.

(** @src src/shared/provenance/attribution.ts:20-48 attribution *)
Definition attribution (spec : AttributionSpec) : Res Attribution :=
  if match spec.(s_initiator) with Some a => negb (validActor a) | None => false end then
    Err (invalid "invalid_attribution")
  else if
    match spec.(s_onBehalfOf) with
    | None => false
    | Some b =>
        match spec.(s_initiator) with
        | None => true
        | Some a =>
            negb (namedActor a) || negb (namedActor b)
            || (bool_decide (a.(a_kind) = b.(a_kind)) && bool_decide (a.(a_identity) = b.(a_identity)))
        end
    end
  then Err (invalid "invalid_attribution")
  else if match spec.(s_tenant) with Some t => negb (identityValid t) | None => false end then
    Err (invalid "invalid_attribution")
  else Ok (mkAttribution true spec.(s_initiator) spec.(s_onBehalfOf) spec.(s_tenant)).

(** @src src/shared/provenance/attribution.ts:50-51 validAttribution *)
Definition validAttribution (t : Attribution) : bool := t.(t_known).

(** @src src/shared/provenance/reference.ts:7-12 Reference *)
Record Reference : Type := mkReference { f_known : bool; f_kind : jstring; f_id : ID }.

#[export] Instance Reference_eq_dec : EqDecision Reference.
Proof. solve_decision. Defined.

(** @src src/shared/provenance/reference.ts:14-17 validID *)
Definition validID (value : ID) : bool :=
  match parse (VStr value) with Ok id => bool_decide (id = value) | Err _ => false end.

(** @src src/shared/provenance/reference.ts:19-20 validReferenceKind *)
Definition validReferenceKind (kind : jstring) : bool :=
  isLit kind "scope" || isLit kind "work" || isLit kind "event".

(** @src src/shared/provenance/reference.ts:22-33 reference *)
Definition reference (kind : jstring) (id : ID) : Res Reference :=
  if negb (validReferenceKind kind) || negb (validID id) then Err (invalid "invalid_reference")
  else Ok (mkReference true kind id).

(** @src src/shared/provenance/reference.ts:35-36 validReference *)
Definition validReference (r : Reference) : bool := r.(f_known).

(** @src src/shared/provenance/operation.ts:10-11 validOperation *)
Definition validOperation (s : jstring) : bool :=
  match s with
  | c :: rest =>
      isLower c && forallb (fun x => isNameChar x || (x =? 58)) rest && Nat.leb (length rest) 127
  | [] => false
  end.

(** @src src/shared/provenance/operation.ts:13-17 operation *)
Definition operation (value : jstring) : Res jstring :=
  if validOperation value then Ok value else Err (invalid "invalid_operation").

(** ** Links: [links.ts]. *)

(** @src src/shared/provenance/links.ts:7-10 Link *)
Record Link : Type := mkLink { l_relation : jstring; l_target : Reference }.

#[export] Instance Link_eq_dec : EqDecision Link.
Proof. solve_decision. Defined.

(** The key the source joins with colons: no part of it holds one. *)
Definition linkKey (l : Link) : jstring * jstring * jstring :=
  (l.(l_relation), l.(l_target).(f_kind), l.(l_target).(f_id)).

(** @src src/shared/provenance/links.ts:37-45 linkSet *)
Definition linkInvalid (l : Link) : bool :=
  negb (validReference l.(l_target))
  || negb (isLit l.(l_relation) "input" || isLit l.(l_relation) "replay_of" || isLit l.(l_relation) "previous_attempt")
  || (isLit l.(l_relation) "previous_attempt" && negb (isLit l.(l_target).(f_kind) "scope")).

Fixpoint linkValues (seen : list (jstring * jstring * jstring)) (input : list Link) : Res (list Link) :=
  match input with
  | [] => Ok []
  | l :: rest =>
      if linkInvalid l then Err (invalid "invalid_reference")
      else if bool_decide (linkKey l ∈ seen) then linkValues seen rest
      else values ← linkValues (linkKey l :: seen) rest; Ok (l :: values)
  end.

(** @src src/shared/provenance/links.ts:30-55 linkSet *)
Definition linkSet (input : list Link) : Res (list Link) :=
  if Nat.ltb 32 (length input) then Err (invalid "too_many_links") else linkValues [] input.

(** ** Work: [work.ts]. *)

(** @src src/shared/provenance/work.ts:29-32 ReplayInfo
    The run is absent in a draft; the source is [undefined] when a decoder
    finds none. *)
Record ReplayInfo : Type := mkReplay { p_runId : option ID; p_source : option Reference }.

#[export] Instance ReplayInfo_eq_dec : EqDecision ReplayInfo.
Proof. solve_decision. Defined.

(** @src src/shared/provenance/work.ts:34-53 WorkSnapshot, DraftWork
    One record for both: a snapshot is a draft whose identifiers are present. *)
Record Work : Type := mkWork {
  w_workId : option ID; w_correlationId : option ID; w_correlationSource : jstring;
  w_causation : option Reference; w_origin : option jstring; w_operation : jstring;
  w_attribution : Attribution; w_depth : option num; w_replay : option ReplayInfo
}.

#[export] Instance Work_eq_dec : EqDecision Work.
Proof. solve_decision. Defined.

(** @src src/shared/provenance/work.ts:55-63 validOrigin *)
Definition validOrigin (o : jstring) : bool :=
  isLit o "request" || isLit o "message" || isLit o "schedule" || isLit o "replay" || isLit o "backfill"
  || isLit o "startup".

(** An identifier a draft may leave out when the factory fills it. *)
Definition badId (defaults : bool) (id : option ID) : bool :=
  match id with None => negb defaults | Some id => negb (validID id) end.

(** @src src/shared/provenance/work.ts:100-112 validateWork
    The guard on depth. *)
Definition badDepth (w : Work) (depth : num) : bool :=
  negb (isInteger depth) || num_lt depth 0 || num_gt depth 4294967295
  || (isLit w.(w_correlationSource) "local" && (num_val depth =? 0) && negb (isNull w.(w_causation)))
  || (num_gt depth 0 && isNull w.(w_causation)).

(** [r.kind === 'work' && r.id === work.workId]. *)
Definition namesWork (r : Reference) (workId : option ID) : bool :=
  isLit r.(f_kind) "work" && bool_decide (workId = Some r.(f_id)).

(** @src src/shared/provenance/work.ts:65-131 validateWork *)
Definition validateWork (w : Work) (defaults : bool) : option Failure :=
  if badId defaults w.(w_workId) || badId defaults w.(w_correlationId)
     || negb (isLit w.(w_correlationSource) "local" || isLit w.(w_correlationSource) "external") then
    Some (invalid "invalid_work")
  else if negb (validOperation w.(w_operation)) then Some (invalid "invalid_operation")
  else if negb (validAttribution w.(w_attribution)) then Some (invalid "invalid_attribution")
  else if match w.(w_origin) with Some o => negb (validOrigin o) | None => false end then
    Some (invalid "invalid_origin")
  else if negb (eqb (negb (isNull w.(w_replay)))
                  (match w.(w_origin) with Some o => isLit o "replay" | None => false end)) then
    Some (invalid "invalid_origin")
  else if match w.(w_causation) with Some r => negb (validReference r) | None => false end then
    Some (invalid "invalid_reference")
  else if match w.(w_causation) with Some r => namesWork r w.(w_workId) | None => false end then
    Some (invalid "invalid_work")
  else if match w.(w_depth) with Some d => badDepth w d | None => false end then
    Some (invalid "invalid_depth")
  else
    match w.(w_replay) with
    | None => None
    | Some p =>
        match p.(p_source) with
        | None => Some (invalid "invalid_reference")
        | Some source =>
            if negb (validReference source) || badId defaults p.(p_runId) then
              Some (invalid "invalid_reference")
            else if namesWork source w.(w_workId) then Some (invalid "invalid_work")
            else None
        end
    end.

(** @src src/shared/provenance/work.ts:143-165 WorkContext
    An instance holds a frozen copy of the snapshot it was built from. *)
Record WorkContext : Type := mkContext { snapshot : Work }.

#[export] Instance WorkContext_eq_dec : EqDecision WorkContext.
Proof. solve_decision. Defined.

(** @src src/shared/provenance/work.ts:170-175 restoreWork *)
Definition restoreWork (w : Work) : Res WorkContext :=
  match validateWork w false with
  | Some error => Err error
  | None => Ok (mkContext w)
  end.

(** ** Scopes: [scope.ts]. *)

(** @src src/shared/provenance/scope.ts:24-35 normalizedTime *)
Definition normalizedTime (time : Date) : option Z :=
  match time with
  | DateAt ms =>
      if isSafeInteger (Int ms) && (0 <=? ms) && (ms <=? 281474976710655) then Some ms else None
  | InvalidDate => None
  end.

(** @src src/shared/provenance/scope.ts:15-22 ScopeSnapshot *)
Record ScopeSnapshot : Type := mkScopeSnapshot {
  q_work : Work; q_scopeId : ID; q_startedAt : Date; q_executor : Actor; q_attempt : num;
  q_previousAttempt : option ID
}.

(** @src src/shared/provenance/scope.ts:40-62 Scope *)
Record Scope : Type := mkScope {
  c_work : WorkContext; c_scopeId : ID; c_executor : Actor; c_attempt : num;
  c_previousAttempt : option ID; c_started : Z
}.

(** @src src/shared/provenance/scope.ts:64-70 snapshot *)
Definition scopeSnapshot (s : Scope) : ScopeSnapshot :=
  mkScopeSnapshot (snapshot s.(c_work)) s.(c_scopeId) (newDate s.(c_started)) s.(c_executor)
    s.(c_attempt) s.(c_previousAttempt).

(** [!Number.isInteger(attempt) || attempt < 1 || attempt > 4294967295]. *)
Definition badAttempt (attempt : num) : bool :=
  negb (isInteger attempt) || num_lt attempt 1 || num_gt attempt 4294967295.

(** @src src/shared/provenance/scope.ts:80-117 restoreScope *)
Definition restoreScope (q : ScopeSnapshot) : Res Scope :=
  if negb (validID q.(q_scopeId)) then Err (invalid "invalid_scope")
  else
    work ← restoreWork q.(q_work);
    if negb (namedActor q.(q_executor)) then Err (invalid "invalid_actor")
    else if badAttempt q.(q_attempt) then Err (invalid "invalid_attempt")
    else if
      match q.(q_previousAttempt) with
      | Some p =>
          negb (validID p) || bool_decide (p = q.(q_scopeId)) || (num_val q.(q_attempt) =? 1)
      | None => false
      end
    then Err (invalid "invalid_scope")
    else if
      match (q.(q_work)).(w_causation) with
      | Some r => isLit r.(f_kind) "scope" && bool_decide (r.(f_id) = q.(q_scopeId))
      | None => false
      end
    then Err (invalid "invalid_scope")
    else
      match normalizedTime q.(q_startedAt) with
      | None => Err (invalid "invalid_time")
      | Some ms =>
          Ok (mkScope work q.(q_scopeId) q.(q_executor) q.(q_attempt) q.(q_previousAttempt) ms)
      end.

(** ** Incoming hints: [incoming.ts]. *)

(** @src src/shared/provenance/incoming.ts:13-13 Disposition *)
Inductive Disposition : Type := fresh | continued | restarted.

(** @src src/shared/provenance/incoming.ts:15-18 Issue *)
Inductive Issue : Type :=
| correlation_invalid_id | causation_invalid_kind | causation_invalid_id
| causation_missing_correlation.

(** @src src/shared/provenance/incoming.ts:23-44 IncomingResult *)
Record IncomingResult : Type := mkIncoming {
  h_decision : Disposition; h_correlation : option ID; h_cause : option Reference;
  h_issues : list Issue
}.

(** @src src/shared/provenance/incoming.ts:70-85 inspectIncoming *)
Definition inspectCausation (candidate : option (jstring * jstring)) (correlation : option ID)
    : option Reference * list Issue :=
  match candidate with
  | None => (None, [])
  | Some (kind, id) =>
      if negb (validReferenceKind kind) then (None, [causation_invalid_kind])
      else
        match parse (VStr id) with
        | Err _ => (None, [causation_invalid_id])
        | Ok id =>
            match correlation with
            | None => (None, [causation_missing_correlation])
            | Some _ => match reference kind id with Ok r => (Some r, []) | Err _ => (None, []) end
            end
        end
  end.

(** @src src/shared/provenance/incoming.ts:49-88 inspectIncoming *)
Definition inspectIncoming (correlation : option jstring) (causation : option (jstring * jstring))
    : IncomingResult :=
  match correlation, causation with
  | None, None => mkIncoming fresh None None []
  | _, _ =>
      let '(decision, id, issues) :=
        match correlation with
        | None => (restarted, None, [])
        | Some c =>
            match parse (VStr c) with
            | Ok id => (continued, Some id, [])
            | Err _ => (restarted, None, [correlation_invalid_id])
            end
        end in
      let '(cause, more) := inspectCausation causation id in
      mkIncoming decision id cause (issues ++ more)
  end.

(** ** The factory: [factory.ts].

    A factory reads its clock and its identifier generator once per scope: both
    readings are arguments. *)

(** @src src/shared/provenance/factory.ts:44-50 RootSpec *)
Record RootSpec : Type := mkRoot {
  r_workId : option ID; r_origin : jstring; r_operation : jstring; r_attribution : Attribution;
  r_executor : Actor
}.

(** @src src/shared/provenance/factory.ts:52-57 StepSpec *)
Record StepSpec : Type := mkStep {
  u_workId : option ID; u_operation : jstring; u_executor : Actor; u_cause : option Reference
}.

(** @src src/shared/provenance/factory.ts:70-77 ReplaySpec *)
Record ReplaySpec : Type := mkReplaySpec {
  y_source : Reference; y_runId : option ID; y_workId : option ID; y_operation : jstring;
  y_attribution : Attribution; y_executor : Actor
}.

(** @src src/shared/provenance/factory.ts:79-82 generatedError *)
Definition generatedError : Failure :=
  fail_with internal "invalid generated provenance ID" "provenance.invalid_generated_id".

(** @src src/shared/provenance/factory.ts:84-100 rootWork *)
Definition rootWork (spec : RootSpec) : Res Work :=
  if negb (validOrigin spec.(r_origin)) || isLit spec.(r_origin) "replay" then
    Err (invalid "invalid_origin")
  else if match spec.(r_workId) with Some id => negb (validID id) | None => false end then
    Err (invalid "invalid_work")
  else
    Ok {| w_workId := spec.(r_workId); w_correlationId := None; w_correlationSource := js "local";
          w_causation := None; w_origin := Some spec.(r_origin); w_operation := spec.(r_operation);
          w_attribution := spec.(r_attribution); w_depth := Some (Int 0); w_replay := None |}.

(** @src src/shared/provenance/factory.ts:124-129 childWork *)
Definition nextDepth (depth : option num) : Res (option num) :=
  match depth with
  | None => Ok None
  | Some d =>
      if bool_decide (d = Int 4294967295) then Err (invalid "depth_exhausted")
      else Ok (Some (match d with Int z => Int (z + 1) | NonInt t => NonInt t end))
  end.

(** @src src/shared/provenance/factory.ts:102-141 childWork *)
Definition childWork (parent : Scope) (workId : option ID) (operation : jstring)
    (cause : option Reference) : Res Work :=
  let parentWork := snapshot parent.(c_work) in
  if match workId with
     | Some id => negb (validID id) || bool_decide (parentWork.(w_workId) = Some id)
     | None => false
     end then Err (invalid "invalid_work")
  else
    depth ← nextDepth parentWork.(w_depth);
    causation ← match cause with
                | None => reference (js "scope") parent.(c_scopeId)
                | Some c => Ok c
                end;
    let work :=
      mkWork workId parentWork.(w_correlationId) parentWork.(w_correlationSource) (Some causation)
        parentWork.(w_origin) operation parentWork.(w_attribution) depth parentWork.(w_replay) in
    match validateWork work true with Some error => Err error | None => Ok work end.

(** @src src/shared/provenance/factory.ts:143-152 prepare *)
Definition prepare (parent : Scope) (workId : ID) (operation : jstring) (cause : option Reference)
    : Res WorkContext :=
  if negb (validID workId) then Err (invalid "invalid_work")
  else
    work ← childWork parent (Some workId) operation cause;
    restoreWork work.

(** The draft with its absent identifiers filled by the new scope's. *)
Definition fillWork (w : Work) (scopeId : ID) : Work :=
  let fill (o : option ID) := match o with Some id => Some id | None => Some scopeId end in
  mkWork (fill w.(w_workId)) (fill w.(w_correlationId)) w.(w_correlationSource) w.(w_causation)
    w.(w_origin) w.(w_operation) w.(w_attribution) w.(w_depth)
    (match w.(w_replay) with
     | None => None
     | Some p => Some (mkReplay (fill p.(p_runId)) p.(p_source))
     end).

(** @src src/shared/provenance/factory.ts:160-208 #emit *)
Definition emit (now : Date) (next : Res ID) (work : Work) (executor : Actor) (attempt : num)
    (previousAttempt : option ID) (forbidden : list ID) : Res Scope :=
  if negb (namedActor executor) then Err (invalid "invalid_actor")
  else if badAttempt attempt then Err (invalid "invalid_attempt")
  else
    match validateWork work true with
    | Some error => Err error
    | None =>
      match normalizedTime now with
      | None => Err (invalid "invalid_time")
      | Some ms =>
          scopeId ← next;
          if negb (validID scopeId) || bool_decide (scopeId ∈ forbidden) then Err generatedError
          else
            match restoreScope
                    (mkScopeSnapshot (fillWork work scopeId) scopeId (newDate ms) executor attempt
                       previousAttempt) with
            | Ok s => Ok s
            | Err _ => Err generatedError
            end
      end
    end.

Section Factory.
  Context (now : Date) (next : Res ID).

(** @src src/shared/provenance/factory.ts:210-213 open *)
Definition open (spec : RootSpec) : Res Scope :=
  work ← rootWork spec;
  emit now next work spec.(r_executor) (Int 1) None [].

(** @src src/shared/provenance/factory.ts:215-225 child *)
Definition child (parent : Scope) (spec : StepSpec) : Res Scope :=
  work ← childWork parent spec.(u_workId) spec.(u_operation) spec.(u_cause);
  let parentWork := match (snapshot parent.(c_work)).(w_workId) with Some id => [id] | None => [] end in
  emit now next work spec.(u_executor) (Int 1) None
    (parent.(c_scopeId) :: (if isNull spec.(u_workId) then parentWork else [])).

(** @src src/shared/provenance/factory.ts:227-234 execute *)
Definition execute (work : WorkContext) (executor : Actor) (attempt : num) : Res Scope :=
  emit now next (snapshot work) executor attempt None [].

(** @src src/shared/provenance/factory.ts:236-249 retry *)
Definition retry (previous : Scope) (executor : Actor) : Res Scope :=
  if bool_decide (previous.(c_attempt) = Int 4294967295) then Err (invalid "attempt_exhausted")
  else
    emit now next (snapshot previous.(c_work)) executor
      (match previous.(c_attempt) with Int a => Int (a + 1) | NonInt t => NonInt t end)
      (Some previous.(c_scopeId)) [previous.(c_scopeId)].

(** @src src/shared/provenance/factory.ts:251-281 replay *)
Definition replay (spec : ReplaySpec) : Res Scope :=
  if negb (validReference spec.(y_source))
     || match spec.(y_runId) with Some id => negb (validID id) | None => false end then
    Err (invalid "invalid_reference")
  else if match spec.(y_workId) with
          | Some id =>
              negb (validID id)
              || (isLit spec.(y_source).(f_kind) "work" && bool_decide (spec.(y_source).(f_id) = id))
          | None => false
          end then Err (invalid "invalid_work")
  else
    emit now next
      {| w_workId := spec.(y_workId); w_correlationId := None; w_correlationSource := js "local";
         w_causation := None; w_origin := Some (js "replay"); w_operation := spec.(y_operation);
         w_attribution := spec.(y_attribution); w_depth := Some (Int 0);
         w_replay := Some (mkReplay spec.(y_runId) (Some spec.(y_source))) |}
      spec.(y_executor) (Int 1) None
      (if isLit spec.(y_source).(f_kind) "scope" then [spec.(y_source).(f_id)] else []).

(** @src src/shared/provenance/factory.ts:283-303 enter *)
Definition enter (spec : RootSpec) (incoming : IncomingResult) : Res Scope :=
  work ← rootWork spec;
  let work :=
    match incoming.(h_decision) with
    | continued =>
        mkWork work.(w_workId) incoming.(h_correlation) (js "external") incoming.(h_cause) None
          work.(w_operation) work.(w_attribution) None work.(w_replay)
    | _ => work
    end in
  emit now next work spec.(r_executor) (Int 1) None [].
End Factory.

(** ** Lemmas. *)

(** A scope the module built: its snapshot restores to itself. *)
Definition wfScope (s : Scope) : Prop := restoreScope (scopeSnapshot s) = Ok s.

Lemma normalizedTime_some t ms :
  normalizedTime t = Some ms -> t = DateAt ms /\ newDate ms = DateAt ms /\ normalizedTime (DateAt ms) = Some ms.
Proof.
  destruct t as [|x]; [done|]. cbn. destruct (_ && _) eqn:E; [|done]. intros [= <-].
  split; [done|]. split; [|by rewrite E]. breflect.
  unfold newDate, MAX_TIME. by rewrite (proj2 (Z.leb_le _ _)) by lia.
Qed.

Lemma restoreWork_ok w c : restoreWork w = Ok c -> c = mkContext w /\ validateWork w false = None.
Proof. unfold restoreWork. destruct (validateWork w false); [done|]. by intros [= <-]. Qed.

Lemma restoreScope_ok q s :
  restoreScope q = Ok s ->
  exists ms, s = mkScope (mkContext q.(q_work)) q.(q_scopeId) q.(q_executor) q.(q_attempt)
                   q.(q_previousAttempt) ms
    /\ q.(q_startedAt) = DateAt ms /\ newDate ms = DateAt ms
    /\ validateWork q.(q_work) false = None.
Proof.
  unfold restoreScope. intros E. ok_branches E. apply restoreWork_ok in E1 as [-> Hv].
  destruct (normalizedTime _) as [ms|] eqn:Et; [|done]. ok_branches E.
  apply normalizedTime_some in Et as (Hq & Hn & _). eauto.
Qed.

Lemma restoreScope_snapshot q s : restoreScope q = Ok s -> scopeSnapshot s = q.
Proof.
  intros (ms & -> & Hq & Hn & _)%restoreScope_ok. unfold scopeSnapshot. cbn. rewrite Hn.
  destruct q; cbn in *. by subst.
Qed.

(** What a successful emission built. *)
Lemma emit_ok now next w ex a prev forb s :
  emit now next w ex a prev forb = Ok s ->
  exists id ms, next = Ok id /\ (id ∉ forb)
    /\ s = mkScope (mkContext (fillWork w id)) id ex a prev ms
    /\ wfScope s.
Proof.
  unfold emit. intros E. ok_branches E. destruct (validateWork w true); [done|].
  destruct (normalizedTime now) as [ms|] eqn:Et; [|done]. ok_branches E.
  apply orb_false_iff in E3 as [_ Hf%bool_decide_eq_false].
  pose proof (restoreScope_snapshot _ _ E4) as Hsnap.
  pose proof (restoreScope_ok _ _ E4) as (ms' & -> & _). eexists _, _. split_and!; eauto.
  unfold wfScope. by rewrite Hsnap.
Qed.

Lemma wfScope_ids s :
  wfScope s -> (snapshot s.(c_work)).(w_workId) <> None /\ (snapshot s.(c_work)).(w_correlationId) <> None.
Proof.
  intros (ms & _ & _ & _ & Hv)%restoreScope_ok. unfold validateWork in Hv. cbn in Hv.
  destruct (badId false _ || _ || _) eqn:E; [done|]. breflect. unfold badId in *.
  by destruct (w_workId _), (w_correlationId _).
Qed.

(** A restored replay run is named, so filling a draft keeps it. *)
Lemma wfScope_replay s p :
  wfScope s -> (snapshot s.(c_work)).(w_replay) = Some p -> p.(p_runId) <> None.
Proof.
  intros (ms & _ & _ & _ & Hv)%restoreScope_ok Hp. unfold validateWork in Hv. cbn in Hv.
  repeat (match type of Hv with (if ?b then _ else _) = None => destruct b; [done|] end).
  rewrite Hp in Hv. destruct (p_source p); [|done].
  destruct (_ || _) eqn:E; [done|]. breflect. unfold badId in *. by destruct (p_runId p).
Qed.

Lemma wfScope_attempt s : wfScope s -> isInteger s.(c_attempt) = true.
Proof.
  unfold wfScope, restoreScope. intros E. ok_branches E. cbn [scopeSnapshot q_attempt] in *.
  unfold badAttempt in *.
  repeat match goal with H : _ || _ = false |- _ => apply orb_false_iff in H as [? ?] end.
  by apply negb_false_iff.
Qed.

(** Filling changes nothing in the work of a scope the module built. *)
Lemma fillWork_fixed s id : wfScope s -> fillWork (snapshot s.(c_work)) id = snapshot s.(c_work).
Proof.
  intros Hs. destruct (wfScope_ids s Hs) as [Hw Hc]. pose proof (wfScope_replay s) as Hr.
  unfold fillWork. destruct (snapshot (c_work s)) as [w c cs ca o op at_ d r]; cbn in *.
  destruct w, c; try done. destruct r as [[rid src]|]; [|done].
  specialize (Hr _ Hs eq_refl). cbn in *. by destruct rid.
Qed.

Lemma childWork_ok parent wid op cause w :
  childWork parent wid op cause = Ok w ->
  let p := snapshot parent.(c_work) in
  (forall id, wid = Some id -> p.(w_workId) <> Some id)
  /\ exists d r, nextDepth p.(w_depth) = Ok d
     /\ (match cause with None => reference (js "scope") parent.(c_scopeId) | Some c => Ok c end) = Ok r
     /\ w = mkWork wid p.(w_correlationId) p.(w_correlationSource) (Some r) p.(w_origin) op
              p.(w_attribution) d p.(w_replay).
Proof.
  intros E p. unfold childWork in E. ok_branches E.
  match type of E with (match ?x with Some _ => _ | None => _ end) = _ => destruct x; [done|] end.
  ok_branches E. split.
  - intros id ->. apply orb_false_iff in E0 as [_ H%bool_decide_eq_false]. done.
  - eauto 10.
Qed.

(** Lineage. A child scope does new work inside its parent's lineage: it
    keeps the correlation, its source, the origin, the attribution (initiator,
    delegation and tenant) and the replay, counts one step deeper, is caused by
    the parent scope unless the caller named a cause, and never reuses the
    parent's work or scope identifier. A retry repeats the same work under a
    fresh scope that names the previous attempt and counts one more. Both are
    scopes whose snapshots restore to themselves. *)
Theorem factory_lineage (now : Date) (next : Res ID) (parent : Scope) (Hparent : wfScope parent) :
  let p := snapshot parent.(c_work) in
  (forall spec s, child now next parent spec = Ok s ->
     let w := snapshot s.(c_work) in
     w.(w_correlationId) = p.(w_correlationId) /\ w.(w_correlationSource) = p.(w_correlationSource)
     /\ w.(w_origin) = p.(w_origin) /\ w.(w_attribution) = p.(w_attribution)
     /\ w.(w_replay) = p.(w_replay) /\ w.(w_operation) = spec.(u_operation)
     /\ nextDepth p.(w_depth) = Ok w.(w_depth)
     /\ w.(w_causation) = (match spec.(u_cause) with
                           | None => Some (mkReference true (js "scope") parent.(c_scopeId))
                           | Some c => Some c end)
     /\ w.(w_workId) <> p.(w_workId) /\ s.(c_scopeId) <> parent.(c_scopeId)
     /\ s.(c_attempt) = Int 1 /\ s.(c_previousAttempt) = None /\ wfScope s)
  /\ (forall executor s, retry now next parent executor = Ok s ->
        snapshot s.(c_work) = p /\ s.(c_scopeId) <> parent.(c_scopeId)
        /\ s.(c_previousAttempt) = Some parent.(c_scopeId)
        /\ num_val s.(c_attempt) = num_val parent.(c_attempt) + 1 /\ wfScope s).
Proof.
  intros p. destruct (wfScope_ids parent Hparent) as [Hw Hc]. split.
  - intros spec s E w. unfold child in E. ok_branches E.
    apply childWork_ok in E0 as (Hwid & d & r & Hd & Hr & ->).
    apply emit_ok in E as (id & ms & _ & Hf & -> & Hwf). fold p in Hwid, Hw, Hc, Hd, Hf.
    assert (Hr' : Some r = match u_cause spec with
      | None => Some (mkReference true (js "scope") (c_scopeId parent)) | Some c => Some c end).
    { destruct (u_cause spec); [by injection Hr as ->|]. unfold reference in Hr. by ok_branches Hr. }
    assert (Hrep : w_replay w = w_replay p).
    { subst w. cbn. pose proof (wfScope_replay parent) as Hx. fold p in Hx |- *.
      destruct (w_replay p) as [[rid src]|]; [|done]. specialize (Hx _ Hparent eq_refl).
      cbn in Hx |- *. by destruct rid. }
    subst w. cbn in Hrep |- *. fold p in Hrep |- *. split_and!; try done.
    + destruct (w_correlationId p) eqn:?; [done|congruence].
    + destruct (u_workId spec) as [u|] eqn:Eu; [intros E; by apply (Hwid u)|].
      destruct (w_workId p) as [pw|]; [|done]. intros [= ->]. apply Hf. cbn. right. by left.
    + intros ->. apply Hf. by left.
  - intros ex s E. unfold retry in E. ok_branches E.
    apply emit_ok in E as (id & ms & _ & Hf & -> & Hwf).
    rewrite fillWork_fixed in Hwf |- * by done. split_and!; try done.
    + cbn. intros ->. apply Hf. by left.
    + cbn. pose proof (wfScope_attempt parent Hparent). by destruct (c_attempt parent).
Qed.

Definition sample_uuid (last : string) : ID := js ("018f0000-0000-7000-8000-00000000000" ++ last)%string.

Definition digit (n : nat) : string := String.substring n 1 "0123456789".
(** The identifier a run's [n]-th call draws. *)
Definition idFor (n : nat) : ID :=
  js ("018f0000-0000-7000-8000-0000000010" ++ digit ((n mod 100) `div` 10) ++ digit (n mod 10))%string.

Lemma idFor_valid n : validID (idFor n) = true.
Proof.
  assert (H : forallb (fun k => validID (js ("018f0000-0000-7000-8000-0000000010" ++ digit (k `div` 10) ++ digit (k mod 10))%string))
    (seq 0 100) = true) by (vm_compute; reflexivity).
  rewrite forallb_forall in H. specialize (H (n mod 100)%nat). unfold idFor.
  replace (n mod 10)%nat with ((n mod 100) mod 10)%nat; [apply H, in_seq; pose proof (Nat.mod_upper_bound n 100); lia|].
  rewrite (Nat.Div0.div_mod n 100) at 2. rewrite Nat.Div0.add_mod, <- (Nat.mul_assoc 10 10), Nat.mul_comm, Nat.Div0.mod_mul by done.
  by rewrite Nat.add_0_l, Nat.Div0.mod_mod.
Qed.

Definition sample_system : Actor := mkActor true (js "system") (Some (js "n2f")).
Definition sample_work : Work :=
  mkWork (Some (sample_uuid "1")) (Some (sample_uuid "1")) (js "local") None (Some (js "request"))
    (js "job.submit") (mkAttribution true (Some sample_system) None (Some (sample_uuid "9")))
    (Some (Int 0)) None.
Definition sample_scope : Scope :=
  mkScope (mkContext sample_work) (sample_uuid "1") sample_system (Int 1) None 1000.

Lemma factory_lineage_witness :
  exists s, child (DateAt 2000) (Ok (sample_uuid "2")) sample_scope
              (mkStep None (js "document.process") sample_system None) = Ok s
    /\ (snapshot s.(c_work)).(w_correlationId) = Some (sample_uuid "1").
Proof.
  eexists. split; [vm_compute; reflexivity|].
  apply (proj1 (factory_lineage (DateAt 2000) (Ok (sample_uuid "2")) sample_scope
    ltac:(vm_compute; reflexivity)) (mkStep None (js "document.process") sample_system None)).
  vm_compute. reflexivity.
Defined.

(** The correlation an incoming hint carries, when it is an identifier. *)
Definition hinted (correlation : option jstring) : option ID :=
  match correlation with
  | Some c => match parse (VStr c) with Ok id => Some id | Err _ => None end
  | None => None
  end.

Lemma inspectIncoming_spec correlation causation :
  let r := inspectIncoming correlation causation in
  r.(h_correlation) = hinted correlation
  /\ (r.(h_decision) = continued <-> hinted correlation <> None)
  /\ (forall c, r.(h_cause) = Some c -> hinted correlation <> None /\ exists kind id,
        causation = Some (kind, id) /\ validReferenceKind kind = true
        /\ c.(f_known) = true /\ c.(f_kind) = kind /\ parse (VStr id) = Ok c.(f_id)).
Proof.
  assert (Hc : forall k, fst (inspectCausation causation k) = None \/
    (k <> None /\ exists kind id c, causation = Some (kind, id) /\ validReferenceKind kind = true
      /\ fst (inspectCausation causation k) = Some c
      /\ c.(f_known) = true /\ c.(f_kind) = kind /\ parse (VStr id) = Ok c.(f_id))).
  { intros k. unfold inspectCausation. destruct causation as [[kind id]|]; [|by left].
    destruct (validReferenceKind kind) eqn:Ek; cbn [negb]; [|by left].
    destruct (parse (VStr id)) as [i|] eqn:Ei; [|by left]. destruct k; [|by left].
    unfold reference. rewrite Ek. cbn [negb orb].
    destruct (negb (validID i)); [by left|]. right. split; [done|]. by exists kind, id, (mkReference true kind i). }
  unfold inspectIncoming, hinted. destruct correlation as [c|].
  - destruct (parse (VStr c)) as [id|]; cbn.
    + specialize (Hc (Some id)). destruct (inspectCausation causation (Some id)); cbn in *. split_and!; try done.
      intros r ->. naive_solver.
    + specialize (Hc None). destruct (inspectCausation causation None); cbn in *. split_and!; try done.
      intros r ->. naive_solver.
  - destruct causation as [k|]; [|cbn; split_and!; done].
    specialize (Hc None). destruct (inspectCausation (Some k) None); cbn in *. split_and!; try done.
    intros r ->. naive_solver.
Qed.

(** Untrusted hints. Entering from outside never takes more from the hints
    than a correlation and a cause: the scope's correlation is the hinted one
    exactly when it is an identifier, in which case it is marked external and
    its depth and origin unknown; otherwise the scope starts a fresh local
    lineage named by its own identifier. A cause is taken only together with a
    correlation. The operation, the attribution and the executor are always the
    caller's. *)
Theorem enter_untrusted (now : Date) (next : Res ID) (spec : RootSpec) (s : Scope)
    (correlation : option jstring) (causation : option (jstring * jstring))
    (Henter : enter now next spec (inspectIncoming correlation causation) = Ok s) :
  let w := snapshot s.(c_work) in
  w.(w_attribution) = spec.(r_attribution) /\ w.(w_operation) = spec.(r_operation)
  /\ s.(c_executor) = spec.(r_executor)
  /\ (match hinted correlation with
      | Some id => w.(w_correlationId) = Some id /\ w.(w_correlationSource) = js "external"
                   /\ w.(w_origin) = None /\ w.(w_depth) = None
      | None => w.(w_correlationId) = Some s.(c_scopeId) /\ w.(w_correlationSource) = js "local"
                /\ w.(w_origin) = Some spec.(r_origin) /\ w.(w_depth) = Some (Int 0)
                /\ w.(w_causation) = None
      end).
Proof.
  intros w. destruct (inspectIncoming_spec correlation causation) as (Hcor & Hdec & Hcause).
  set (inc := inspectIncoming correlation causation) in *.
  unfold enter in Henter. ok_branches Henter.
  apply emit_ok in Henter as (id & ms & _ & _ & -> & _).
  unfold rootWork in E. ok_branches E. subst w.
  destruct (hinted correlation) as [c|] eqn:Eh.
  - destruct Hdec as [_ Hdec]. rewrite Hdec by done. cbn. by rewrite Hcor.
  - destruct (h_decision inc) eqn:Ed; cbn; split_and!; try done.
    all: exfalso; by apply (proj1 Hdec).
Qed.

Lemma enter_untrusted_witness :
  let spec := mkRoot None (js "request") (js "job.submit") (mkAttribution true None None None) sample_system in
  exists s, enter (DateAt 2000) (Ok (sample_uuid "2")) spec
              (inspectIncoming (Some (js "forged")) (Some (js "scope", sample_uuid "7"))) = Ok s
    /\ (snapshot s.(c_work)).(w_causation) = None.
Proof.
  intros spec. eexists. split; [vm_compute; reflexivity|].
  refine (proj2 (proj2 (proj2 (proj2 (proj2 (proj2 (proj2 (enter_untrusted (DateAt 2000) (Ok (sample_uuid "2"))
    spec _ (Some (js "forged")) (Some (js "scope", sample_uuid "7")) _)))))))).
  vm_compute. reflexivity.
Defined.

End Provenance.
