(* ===== verification/Events.v ===== *)
(** * Event envelopes: [shared/events/index.ts] and [provenance.ts].

    The wire form of an event is a JSON document of at most 64 KiB.  [decode]
    validates a document, restores the work that caused the event and keeps the
    normalized document; [create] goes through [decode], so every envelope in
    the program has passed it. *)
From S2P Require Import Prelude JsMap Errors Ids Json Provenance.
Export Provenance.

Module Events.

(** @src src/shared/events/index.ts:16-17 invalid *)
Definition invalid : Failure := fail_with Errors.invalid "invalid event envelope" "events.invalid".

(** @src src/shared/events/index.ts:24-29 object *)
Definition object (value : JsValue) : Res (list (string * JsValue)) :=
  match value with VObj ms => Ok ms | _ => Err invalid end.

(** @src src/shared/events/index.ts:31-34 string *)
Definition string_ (value : JsValue) : Res jstring :=
  match value with VStr s => Ok s | _ => Err invalid end.

(** @src src/shared/events/index.ts:36-40 keys *)
Definition keys (value : list (string * JsValue)) (allowed : list string) : Res unit :=
  if forallb (fun e => existsb (String.eqb e.1) allowed) value then Ok tt else Err invalid.

(** @src src/shared/events/index.ts:42-52 actorIn *)
Definition actorIn (value : JsValue) : Res (option Actor) :=
  if nullish value then Ok None
  else
    input ← object value;
    _ ← keys input ["kind"; "identity"]%string;
    kind ← string_ (field "kind" input);
    identity ← (if nullish (field "identity" input) then Ok [] else string_ (field "identity" input));
    a ← actor kind identity;
    Ok (Some a).

(** @src src/shared/events/index.ts:58-68 referenceIn *)
Definition referenceIn (value : JsValue) : Res (option Reference) :=
  if nullish value then Ok None
  else
    input ← object value;
    _ ← keys input ["kind"; "id"]%string;
    kind ← string_ (field "kind" input);
    raw ← string_ (field "id" input);
    id ← parse (VStr raw);
    r ← reference kind id;
    Ok (Some r).

(** A member that is [undefined] when null. *)
Definition optional {A} (value : JsValue) (read : JsValue -> Res A) : Res (option A) :=
  if nullish value then Ok None else x ← read value; Ok (Some x).

(** [input.depth as number]: a value of another type is no integer. *)
Definition asNumber (value : JsValue) : num :=
  match value with VNum n => n | _ => NonInt "NaN" end.

Definition idIn (value : JsValue) : Res ID := s ← string_ value; parse (VStr s).

(** @src src/shared/events/index.ts:70-120 workIn *)
Definition workIn (value : JsValue) : Res WorkContext :=
  input ← object value;
  attributionIn ← object (field "attribution" input);
  replay ← optional (field "replay" input) object;
  _ ← keys input ["work_id"; "correlation_id"; "correlation_source"; "operation"; "attribution";
                  "causation"; "origin"; "depth"; "replay"]%string;
  _ ← keys attributionIn ["initiator"; "on_behalf_of"; "tenant"]%string;
  _ ← match replay with Some r => keys r ["run_id"; "source"]%string | None => Ok tt end;
  workId ← idIn (field "work_id" input);
  correlationId ← idIn (field "correlation_id" input);
  correlationSource ← string_ (field "correlation_source" input);
  op ← string_ (field "operation" input);
  op ← operation op;
  initiator ← actorIn (field "initiator" attributionIn);
  onBehalfOf ← actorIn (field "on_behalf_of" attributionIn);
  tenant ← optional (field "tenant" attributionIn) string_;
  att ← attribution (mkSpec initiator onBehalfOf tenant);
  causation ← referenceIn (field "causation" input);
  origin ← optional (field "origin" input) string_;
  replay ← match replay with
           | Some r =>
               runId ← idIn (field "run_id" r);
               source ← referenceIn (field "source" r);
               Ok (Some (mkReplay (Some runId) source))
           | None => Ok None
           end;
  restoreWork
    {| w_workId := Some workId; w_correlationId := Some correlationId;
       w_correlationSource := correlationSource; w_causation := causation; w_origin := origin;
       w_operation := op; w_attribution := att;
       w_depth := if nullish (field "depth" input) then None else Some (asNumber (field "depth" input));
       w_replay := replay |}.

(** [undefined] for an absent member. *)
Definition orUndefined {A} (f : A -> JsValue) (o : option A) : JsValue :=
  match o with Some x => f x | None => VUndefined end.

(** The frozen object of an actor, and of a reference. *)
Definition actorOut (a : Actor) : JsValue :=
  VObj [("kind"%string, VStr a.(a_kind)); ("identity"%string, orUndefined VStr a.(a_identity))].
Definition referenceOut (r : Reference) : JsValue :=
  VObj [("kind"%string, VStr r.(f_kind)); ("id"%string, VStr r.(f_id))].

Definition replayOut (p : ReplayInfo) : JsValue :=
  VObj [("run_id"%string, orUndefined VStr p.(p_runId));
        ("source"%string, orUndefined referenceOut p.(p_source))].

(** @src src/shared/events/index.ts:129-133 workOut *)
Definition attributionOut (t : Attribution) : JsValue :=
  VObj [("initiator"%string, orUndefined actorOut t.(t_initiator));
        ("on_behalf_of"%string, orUndefined actorOut t.(t_onBehalfOf));
        ("tenant"%string, orUndefined VStr t.(t_tenant))].

(** @src src/shared/events/index.ts:122-144 workOut *)
Definition workOut (work : WorkContext) : JsValue :=
  let w := snapshot work in
  VObj [("work_id"%string, orUndefined VStr w.(w_workId));
        ("correlation_id"%string, orUndefined VStr w.(w_correlationId));
        ("correlation_source"%string, VStr w.(w_correlationSource));
        ("operation"%string, VStr w.(w_operation));
        ("attribution"%string, attributionOut w.(w_attribution));
        ("causation"%string, orUndefined referenceOut w.(w_causation));
        ("origin"%string, orUndefined VStr w.(w_origin));
        ("depth"%string, orUndefined VNum w.(w_depth));
        ("replay"%string, orUndefined replayOut w.(w_replay))].

(** @src src/shared/events/index.ts:146-151 EventSubject *)
Record EventSubject : Type := mkEventSubject { b_kind : jstring; b_id : ID }.

#[export] Instance EventSubject_eq_dec : EqDecision EventSubject.
Proof. solve_decision. Defined.

(** @src src/shared/events/index.ts:153-162 subjectIn *)
Definition subjectIn (value : JsValue) : Res (option EventSubject) :=
  match value with
  | VUndefined => Ok None
  | _ =>
      input ← object value;
      _ ← keys input ["kind"; "id"]%string;
      kind ← string_ (field "kind" input);
      if negb (matchesName 63 kind) then Err invalid
      else
        id ← idIn (field "id" input);
        Ok (Some (mkEventSubject kind id))
  end.

Definition subjectOut (s : EventSubject) : JsValue :=
  VObj [("kind"%string, VStr s.(b_kind)); ("id"%string, VStr s.(b_id))].

(** @src src/shared/events/index.ts:164-178 Envelope
    The bytes are kept as the document they spell. *)
Record Envelope : Type := mkEnvelope {
  e_id : ID; e_doc : list (string * JsValue); e_work : WorkContext; e_type : jstring;
  e_occurredAtMs : Z; e_subject : option EventSubject; e_tenant : option ID
}.

#[export] Instance Envelope_eq_dec : EqDecision Envelope.
Proof. solve_decision. Defined.

(** A [Uint8Array] as [decode] reads it: its length, and the value its text
    parses to, if it is valid UTF-8 and valid JSON. *)
Record Raw : Type := mkRaw { byteLength : Z; json : option JsValue }.

(** [Buffer.from(JSON.stringify(value))]. *)
Definition stringify (value : JsValue) : Raw := mkRaw (jsonSize value) (Some (jsonValue value)).

(** [[1-9][0-9]{0,5}]. *)
Definition isVersionText (s : jstring) : bool :=
  match s with
  | c :: rest => isDigit c && negb (c =? 48) && forallb isDigit rest && Nat.leb (length rest) 5
  | [] => false
  end.

(** [/^[a-z0-9_.-]{1,120}\.v[1-9][0-9]{0,5}$/.test(s)]: some split of the text
    at a [.v] matches both sides. *)
Definition isEventType (s : jstring) : bool :=
  existsb (fun i =>
    let a := take i s in
    forallb isNameChar a && Nat.leb 1 (length a) && Nat.leb (length a) 120
    && bool_decide (slice i (i + 2) s = js ".v")
    && isVersionText (drop (i + 2) s)) (seq 0 (length s)).

(** [Object.hasOwn(input, k)]. *)
Definition hasOwn (input : list (string * JsValue)) (k : string) : bool := JsMap.has k input.

(** @src src/shared/events/index.ts:235-254 decode
    The guard on the members of the document. *)
Definition malformed (input : list (string * JsValue)) : bool :=
  let expectedKeys :=
    (6 + (if hasOwn input "subject" then 1 else 0) + (if hasOwn input "tenant" then 1 else 0))%nat in
  negb (Nat.eqb (length input) expectedKeys)
  || negb (forallb (hasOwn input) ["v"; "id"; "type"; "occurred_at_ms"; "work"; "payload"]%string)
  || negb (bool_decide (field "v" input = VNum (Int 1)))
  || match field "type" input with
     | VStr t => (128 <? jlength t) || negb (isEventType t)
     | _ => true
     end
  || match field "occurred_at_ms" input with
     | VNum n => negb (isSafeInteger n) || num_lt n 0 || num_gt n 253402300799999
     | _ => true
     end.

(** @src src/shared/events/index.ts:261-269 decode
    The normalized document: the identifiers and the work in canonical form. *)
Definition normalize (input : list (string * JsValue)) (id : ID) (work : WorkContext)
    (subject : option EventSubject) (tenant : option ID) : list (string * JsValue) :=
  JsMap.spread input
    ([("id"%string, VStr id); ("work"%string, workOut work)]
     ++ match subject with Some s => [("subject"%string, subjectOut s)] | None => [] end
     ++ match tenant with Some t => [("tenant"%string, VStr t)] | None => [] end).

(** @src src/shared/events/index.ts:260-260 decode
    The tenant, when the document has one. *)
Definition tenantIn (value : JsValue) : Res (option ID) :=
  match value with
  | VUndefined => Ok None
  | t => t ← idIn t; Ok (Some t)
  end.

(** The body of [decode]; every exception it throws becomes one failure. *)
Definition decodeBody (raw : Raw) : Res Envelope :=
  parsed ← match raw.(json) with Some v => Ok v | None => Err invalid end;
  input ← object parsed;
  if malformed input then Err invalid
  else
    _ ← object (field "payload" input);
    id ← idIn (field "id" input);
    work ← workIn (field "work" input);
    subject ← subjectIn (field "subject" input);
    tenant ← tenantIn (field "tenant" input);
    type ← string_ (field "type" input);
    let doc := normalize input id work subject tenant in
    if 65536 <? jsonSize (VObj doc) then Err invalid
    else
      Ok {| e_id := id; e_doc := jsonMembers doc; e_work := work; e_type := type;
            e_occurredAtMs := num_val (asNumber (field "occurred_at_ms" input));
            e_subject := subject; e_tenant := tenant |}.

(** @src src/shared/events/index.ts:226-287 decode *)
Definition decode (raw : Raw) : Res Envelope :=
  if 65536 <? raw.(byteLength) then Err invalid
  else mapError (decodeBody raw) (fun _ => invalid).

(** @src src/shared/events/index.ts:192-224 create *)
Definition create (id : ID) (type : jstring) (occurredAtMs : num) (work : WorkContext)
    (payload : list (string * JsValue)) (subject : option EventSubject) (tenant : option ID)
    : Res Envelope :=
  decode (stringify (VObj
    ([("v"%string, VNum (Int 1)); ("id"%string, VStr id); ("type"%string, VStr type);
      ("occurred_at_ms"%string, VNum occurredAtMs); ("work"%string, workOut work);
      ("payload"%string, VObj payload)]
     ++ match subject with Some s => [("subject"%string, subjectOut s)] | None => [] end
     ++ match tenant with Some t => [("tenant"%string, VStr t)] | None => [] end))).

(** @src src/shared/events/index.ts:180-182 bytes *)
Definition bytes (e : Envelope) : Raw := stringify (VObj e.(e_doc)).

(** @src src/shared/events/index.ts:184-190 payload *)
Definition payload (e : Envelope) : Res (list (string * JsValue)) :=
  object (field "payload" e.(e_doc)).

(** [value ?? null]. *)
Definition orNull {A} (f : A -> JsValue) (o : option A) : JsValue :=
  match o with Some x => f x | None => VNull end.

(** [snapshot.replay] as it is. *)
Definition replayComparable (p : ReplayInfo) : JsValue :=
  VObj [("runId"%string, orUndefined VStr p.(p_runId));
        ("source"%string, orUndefined referenceOut p.(p_source))].

(** @src src/shared/events/provenance.ts:11-28 comparable *)
Definition comparable (work : WorkContext) : JsValue :=
  let w := snapshot work in
  jsonValue (VObj
    [("workId"%string, orUndefined VStr w.(w_workId));
     ("correlationId"%string, orUndefined VStr w.(w_correlationId));
     ("correlationSource"%string, VStr w.(w_correlationSource));
     ("operation"%string, VStr w.(w_operation));
     ("attribution"%string, VObj
        [("initiator"%string, orNull actorOut w.(w_attribution).(t_initiator));
         ("onBehalfOf"%string, orNull actorOut w.(w_attribution).(t_onBehalfOf));
         ("tenant"%string, orNull VStr w.(w_attribution).(t_tenant))]);
     ("causation"%string, orNull referenceOut w.(w_causation));
     ("origin"%string, orNull VStr w.(w_origin));
     ("depth"%string, orNull VNum w.(w_depth));
     ("replay"%string, orNull replayComparable w.(w_replay))]).

(** @src src/shared/events/provenance.ts:30-42 assertEventWork *)
Definition assertEventWork (event : Envelope) (work : WorkContext) : Res unit :=
  if bool_decide (comparable event.(e_work) = comparable work) then Ok tt
  else Err (fail_with Errors.invalid "event provenance does not match the write"
              "events.provenance_mismatch").

(** ** The wire. *)

(** A member after [JSON.parse (JSON.stringify _)]. *)
Definition onWire (v : JsValue) : JsValue :=
  match v with VUndefined => VUndefined | _ => jsonValue v end.

Lemma field_json k ms :
  NoDup (JsMap.keys ms) -> field k (jsonMembers ms) = onWire (field k ms).
Proof.
  intros Hd. unfold field. rewrite get_jsonMembers by done.
  destruct (JsMap.get k ms) as [v|]; [|done]. by destruct v.
Qed.

Lemma keys_json ms allowed : keys ms allowed = Ok tt -> keys (jsonMembers ms) allowed = Ok tt.
Proof.
  unfold keys. destruct (forallb _ ms) eqn:E; [|done]. intros _.
  assert (forallb (fun e => existsb (String.eqb e.1) allowed) (jsonMembers ms) = true) as ->; [|done].
  apply forallb_forall. intros e He. unfold jsonMembers in He. apply List.in_flat_map in He as (x & Hx & He).
  rewrite forallb_forall in E. specialize (E x Hx).
  by destruct (x.2); cbn in He; try destruct He as [<-|[]].
Qed.

Lemma onWire_orUndefined {A} (f : A -> JsValue) o :
  (forall x, f x <> VUndefined) ->
  onWire (orUndefined f o) = match o with Some x => jsonValue (f x) | None => VUndefined end.
Proof. intros Hf. destruct o as [x|]; [|done]. cbn. specialize (Hf x). by destruct (f x). Qed.

(** Values only the constructors of the provenance module build. *)
Definition genuineActor (a : Actor) : Prop := exists k i, actor k i = Ok a.
Definition genuineReference (r : Reference) : Prop := reference r.(f_kind) r.(f_id) = Ok r.
Definition genuineAttribution (t : Attribution) : Prop :=
  attribution (mkSpec t.(t_initiator) t.(t_onBehalfOf) t.(t_tenant)) = Ok t
  /\ (forall a, t.(t_initiator) = Some a -> genuineActor a)
  /\ (forall a, t.(t_onBehalfOf) = Some a -> genuineActor a).
Record genuineWork (w : Work) : Prop := mkGenuine {
  g_attribution : genuineAttribution w.(w_attribution);
  g_causation : forall r, w.(w_causation) = Some r -> genuineReference r;
  g_source : forall p r, w.(w_replay) = Some p -> p.(p_source) = Some r -> genuineReference r;
  g_depth : forall d, w.(w_depth) = Some d -> finite d = true
}.

Lemma actorIn_out a : genuineActor a -> actorIn (jsonValue (actorOut a)) = Ok (Some a).
Proof.
  intros (k & i & Ha). assert (Ha' := Ha). unfold actor in Ha. destruct (_ || _) eqn:E; [done|].
  destruct (isLit k "anonymous") eqn:Ek; injection Ha as <-.
  - apply orb_false_iff in E as [E _]. cbn in E. apply negb_false_iff, bool_decide_eq_true in E. subst i.
    change (actorIn _) with (kind ← Ok k; a ← actor kind []; Ok (Some a)). cbn [mbind Result_bind].
    by rewrite Ha'.
  - change (actorIn _) with (kind ← Ok k; a ← actor kind i; Ok (Some a)). cbn [mbind Result_bind].
    by rewrite Ha'.
Qed.

Lemma actorIn_genuine v a : actorIn v = Ok (Some a) -> genuineActor a.
Proof.
  unfold actorIn. destruct (nullish v); [done|]. intros E. ok_branches E.
  repeat match goal with H : Ok _ = Ok _ |- _ => injection H as H end. subst. by eexists _, _.
Qed.

Lemma reference_genuine k i r : reference k i = Ok r -> genuineReference r.
Proof. intros E. assert (E' := E). unfold reference in E. ok_branches E. done. Qed.

Lemma referenceIn_genuine v r : referenceIn v = Ok (Some r) -> genuineReference r.
Proof.
  unfold referenceIn. destruct (nullish v); [done|]. intros E. ok_branches E. eauto using reference_genuine.
Qed.

Lemma validID_parse id : validID id = true -> parse (VStr id) = Ok id.
Proof.
  unfold validID. destruct (parse (VStr id)) as [x|]; [|done].
  by intros ->%bool_decide_eq_true.
Qed.

Lemma validID_shape id : validID id = true -> matchesShape canonical id = true.
Proof.
  intros Hid%validID_parse. unfold parse in Hid. destruct (matchesShape canonical id); [done|]. by rewrite orb_true_r in Hid.
Qed.

Lemma parse_validID v id : parse v = Ok id -> validID id = true.
Proof. intros E%parse_idemp. unfold validID. rewrite E. by apply bool_decide_eq_true. Qed.

Lemma referenceIn_out r : genuineReference r -> referenceIn (jsonValue (referenceOut r)) = Ok (Some r).
Proof.
  intros Hr. assert (Hr' := Hr). unfold genuineReference, reference in Hr. ok_branches Hr.
  apply orb_false_iff in E as [_ Hid%negb_false_iff].
  change (referenceIn _) with
    (id ← parse (VStr (f_id r)); r' ← reference (f_kind r) id; Ok (Some r')).
  rewrite validID_parse by done. cbn [mbind Result_bind]. by rewrite Hr'.
Qed.

(** What [validateWork] guarantees of a complete work. *)
Lemma validateWork_none w :
  validateWork w false = None ->
  (exists a b, w.(w_workId) = Some a /\ w.(w_correlationId) = Some b /\ validID a = true /\ validID b = true)
  /\ validOperation w.(w_operation) = true
  /\ (forall p, w.(w_replay) = Some p ->
        exists rid src, p.(p_runId) = Some rid /\ p.(p_source) = Some src /\ validID rid = true)
  /\ (forall d, w.(w_depth) = Some d -> finite d = true).
Proof.
  unfold validateWork. destruct (_ || _ || _) eqn:E; [done|]. intros H.
  apply orb_false_iff in E as [[Ea Eb]%orb_false_iff _].
  destruct (negb (validOperation _)) eqn:Eo; [done|]. apply negb_false_iff in Eo.
  repeat (match type of H with (if ?b then _ else _) = None =>
    match b with context [badDepth] => fail 1 | _ => destruct b; [done|] end end).
  destruct (match w_depth w with Some d => badDepth w d | None => false end) eqn:Ed; [done|].
  split_and!; try done.
  - destruct (w_workId w), (w_correlationId w); try done. cbn in *. eexists _, _.
    split_and!; try done; by apply negb_false_iff.
  - intros p Hp. rewrite Hp in H. destruct (p_source p) as [src|] eqn:Es; [|done].
    destruct (_ || _) eqn:E; [done|]. apply orb_false_iff in E as [_ E].
    destruct (p_runId p) as [rid|] eqn:Er; [|done]. cbn in E. exists rid, src.
    split_and!; try done. by apply negb_false_iff.
  - intros d Hd. rewrite Hd in Ed. unfold badDepth in Ed.
    repeat (apply orb_false_iff in Ed as [Ed _]). by destruct d.
Qed.

(** The fields of a work on the wire. *)
Definition workMembers (w : Work) : list (string * JsValue) :=
  [("work_id"%string, orUndefined VStr w.(w_workId));
   ("correlation_id"%string, orUndefined VStr w.(w_correlationId));
   ("correlation_source"%string, VStr w.(w_correlationSource));
   ("operation"%string, VStr w.(w_operation));
   ("attribution"%string, attributionOut w.(w_attribution));
   ("causation"%string, orUndefined referenceOut w.(w_causation));
   ("origin"%string, orUndefined VStr w.(w_origin));
   ("depth"%string, orUndefined VNum w.(w_depth));
   ("replay"%string, orUndefined replayOut w.(w_replay))].

(** An optional actor, reference or text comes back as it was. *)
Lemma actorIn_wire o :
  (forall a, o = Some a -> genuineActor a) -> actorIn (onWire (orUndefined actorOut o)) = Ok o.
Proof.
  intros Ho. destruct o as [a|]; [|done]. rewrite onWire_orUndefined by done. by apply actorIn_out, Ho.
Qed.

Lemma referenceIn_wire o :
  (forall r, o = Some r -> genuineReference r) ->
  referenceIn (onWire (orUndefined referenceOut o)) = Ok o.
Proof.
  intros Ho. destruct o as [a|]; [|done]. rewrite onWire_orUndefined by done. by apply referenceIn_out, Ho.
Qed.

Lemma string_wire o : optional (onWire (orUndefined VStr o)) string_ = Ok o.
Proof. by destruct o. Qed.

Definition attributionMembers (t : Attribution) : list (string * JsValue) :=
  [("initiator"%string, orUndefined actorOut t.(t_initiator));
   ("on_behalf_of"%string, orUndefined actorOut t.(t_onBehalfOf));
   ("tenant"%string, orUndefined VStr t.(t_tenant))].

Definition replayMembers (p : ReplayInfo) : list (string * JsValue) :=
  [("run_id"%string, orUndefined VStr p.(p_runId));
   ("source"%string, orUndefined referenceOut p.(p_source))].

Ltac nodup_keys := apply (bool_decide_unpack _); vm_compute; exact I.

Lemma field_work w :
  (field "work_id" (jsonMembers (workMembers w)) = onWire (orUndefined VStr w.(w_workId)))
  /\ (field "correlation_id" (jsonMembers (workMembers w)) = onWire (orUndefined VStr w.(w_correlationId)))
  /\ (field "correlation_source" (jsonMembers (workMembers w)) = VStr w.(w_correlationSource))
  /\ (field "operation" (jsonMembers (workMembers w)) = VStr w.(w_operation))
  /\ (field "attribution" (jsonMembers (workMembers w))
      = VObj (jsonMembers (attributionMembers w.(w_attribution))))
  /\ (field "causation" (jsonMembers (workMembers w)) = onWire (orUndefined referenceOut w.(w_causation)))
  /\ (field "origin" (jsonMembers (workMembers w)) = onWire (orUndefined VStr w.(w_origin)))
  /\ (field "depth" (jsonMembers (workMembers w)) = onWire (orUndefined VNum w.(w_depth)))
  /\ (field "replay" (jsonMembers (workMembers w)) = onWire (orUndefined replayOut w.(w_replay))).
Proof. split_and!; (rewrite field_json; [reflexivity|nodup_keys]). Qed.

Lemma field_attribution t :
  (field "initiator" (jsonMembers (attributionMembers t)) = onWire (orUndefined actorOut t.(t_initiator)))
  /\ (field "on_behalf_of" (jsonMembers (attributionMembers t))
      = onWire (orUndefined actorOut t.(t_onBehalfOf)))
  /\ (field "tenant" (jsonMembers (attributionMembers t)) = onWire (orUndefined VStr t.(t_tenant))).
Proof. split_and!; (rewrite field_json; [reflexivity|nodup_keys]). Qed.

Lemma field_replay p :
  (field "run_id" (jsonMembers (replayMembers p)) = onWire (orUndefined VStr p.(p_runId)))
  /\ (field "source" (jsonMembers (replayMembers p)) = onWire (orUndefined referenceOut p.(p_source))).
Proof. split_and!; (rewrite field_json; [reflexivity|nodup_keys]). Qed.

Lemma idIn_valid id : validID id = true -> idIn (onWire (orUndefined VStr (Some id))) = Ok id.
Proof. intros H. unfold idIn. cbn -[parse]. by apply validID_parse. Qed.

(** A work survives the wire. *)
Lemma workIn_out w :
  genuineWork w -> validateWork w false = None ->
  workIn (jsonValue (workOut (mkContext w))) = Ok (mkContext w).
Proof.
  intros [[Hatt [Hini Hbeh]] Hca Hso _] Hv.
  destruct (validateWork_none w Hv) as ((a & b & Ha & Hb & Hva & Hvb) & Hop & Hrep & Hde).
  destruct (field_work w) as (F1 & F2 & F3 & F4 & F5 & F6 & F7 & F8 & F9).
  destruct (field_attribution (w_attribution w)) as (A1 & A2 & A3).
  unfold workIn. change (jsonValue (workOut (mkContext w))) with (VObj (jsonMembers (workMembers w))).
  cbn [object mbind Result_bind]. rewrite F1, F2, F3, F4, F5, F6, F7, F8, F9.
  cbn [object mbind Result_bind]. rewrite A1, A2, A3, Ha, Hb.
  assert (Hr : optional (onWire (orUndefined replayOut w.(w_replay))) object
    = Ok ((fun p => jsonMembers (replayMembers p)) <$> w.(w_replay))) by (by destruct (w_replay w)).
  rewrite Hr. cbn [mbind Result_bind].
  rewrite !keys_json by reflexivity. cbn [mbind Result_bind].
  assert (Hk : match (fun p => jsonMembers (replayMembers p)) <$> w_replay w with
    | Some r => keys r ["run_id"; "source"]%string | None => Ok tt end = Ok tt).
  { destruct (w_replay w); [|done]. cbn [fmap option_fmap option_map]. by apply keys_json. }
  rewrite Hk. cbn [mbind Result_bind].
  rewrite !idIn_valid by done. cbn [mbind Result_bind string_]. unfold operation. rewrite Hop.
  cbn [mbind Result_bind]. rewrite !actorIn_wire by done. cbn [mbind Result_bind].
  rewrite !string_wire. cbn [mbind Result_bind]. rewrite Hatt. cbn [mbind Result_bind].
  rewrite referenceIn_wire by done. cbn [mbind Result_bind].
  assert (Hp : match (fun p => jsonMembers (replayMembers p)) <$> w_replay w with
    | Some r => runId ← idIn (field "run_id" r); source ← referenceIn (field "source" r);
                Ok (Some (mkReplay (Some runId) source))
    | None => Ok None end = Ok (w_replay w)).
  { destruct (w_replay w) as [p|] eqn:Ep; [|done]. cbn [fmap option_fmap option_map].
    destruct (field_replay p) as [-> ->]. destruct (Hrep p eq_refl) as (rid & src & Hrid & Hsrc & Hid).
    rewrite Hrid, idIn_valid by done. cbn [mbind Result_bind].
    rewrite referenceIn_wire by eauto. cbn [mbind Result_bind]. rewrite <- Hrid. by destruct p. }
  rewrite Hp. cbn [mbind Result_bind].
  assert (Hd : (if nullish (onWire (orUndefined VNum (w_depth w))) then None
    else Some (asNumber (onWire (orUndefined VNum (w_depth w))))) = w_depth w).
  { destruct (w_depth w) as [d|]; [|done]. cbn. rewrite (Hde d eq_refl). done. }
  rewrite Hd, <- Ha, <- Hb.
  assert (mkWork (w_workId w) (w_correlationId w) (w_correlationSource w) (w_causation w) (w_origin w)
    (w_operation w) (w_attribution w) (w_depth w) (w_replay w) = w) as -> by (by destruct w).
  unfold restoreWork. by rewrite Hv.
Qed.

(** A work the module built. *)
Definition wfContext (c : WorkContext) : Prop :=
  genuineWork (snapshot c) /\ validateWork (snapshot c) false = None.

Lemma optional_genuine {A} v (read : JsValue -> Res A) o x :
  optional v read = Ok o -> o = Some x -> exists y, read v = Ok y /\ x = y.
Proof.
  unfold optional. destruct (nullish v); [by intros [= <-]|]. intros E ->. ok_branches E. eauto.
Qed.

Lemma attribution_genuine i b t a v w :
  actorIn v = Ok i -> actorIn w = Ok b -> attribution (mkSpec i b t) = Ok a -> genuineAttribution a.
Proof.
  intros Hi Hb Ha. assert (Ha' := Ha). unfold attribution in Ha. ok_branches Ha.
  split; [done|]. cbn. split; intros x ->; eauto using actorIn_genuine.
Qed.

(** Whatever the wire held, a decoded work is one the module could have built. *)
Lemma workIn_genuine v c : workIn v = Ok c -> wfContext c.
Proof.
  unfold workIn. intros E. ok_branches E. apply restoreWork_ok in E as [-> Hv].
  split; [|exact Hv]. destruct (validateWork_none _ Hv) as (_ & _ & _ & Hd).
  constructor; cbn in *; [|intros r ->; eauto using referenceIn_genuine| |exact Hd].
  - eapply attribution_genuine; [exact E11|exact E12|exact E14].
  - intros p r Hp Hs. rewrite Hp in *.
    match goal with H : match ?x with Some _ => _ | None => _ end = Ok (Some p) |- _ =>
      destruct x; [|done]; ok_branches H end.
    cbn in Hs. subst. eauto using referenceIn_genuine.
Qed.

(** ** Normal documents. *)

(** Members overwritten in place. *)
Definition present (k : string) (ms : list (string * JsValue)) : Prop :=
  exists v, JsMap.get k ms = Some v.

Lemma present_set k k' v ms : present k ms -> present k (JsMap.set k' v ms).
Proof. intros [x Hx]. unfold present. rewrite JsMap.get_set. destruct (decide _); eauto. Qed.

Lemma set_present k v ms :
  jsonMembers ms = ms -> NoDup (JsMap.keys ms) -> present k ms -> v <> VUndefined ->
  let ms' := JsMap.set k (jsonValue v) ms in
  jsonMembers (JsMap.set k v ms) = ms' /\ jsonMembers ms' = ms' /\ JsMap.keys ms' = JsMap.keys ms.
Proof.
  intros Hj Hd [x Hx] Hv.
  assert (x <> VUndefined) by (intros ->; by apply (isJson_defined k) in Hj).
  assert (E : forall u, u <> VUndefined -> jsonMembers (JsMap.set k u ms) = JsMap.set k (jsonValue u) ms)
    by (intros; erewrite jsonMembers_set by eauto; by rewrite Hj).
  split_and!; [by apply E| |apply JsMap.keys_set_Some; by rewrite Hx].
  rewrite E by apply jsonValue_defined. by rewrite jsonValue_idemp.
Qed.

(** The members [normalize] overwrites, with their values on the wire. *)
Definition overrides (id : ID) (work : WorkContext) (subject : option EventSubject) (tenant : option ID)
    : list (string * JsValue) :=
  [("id"%string, VStr id); ("work"%string, workOut work)]
  ++ match subject with Some s => [("subject"%string, subjectOut s)] | None => [] end
  ++ match tenant with Some t => [("tenant"%string, VStr t)] | None => [] end.

Lemma spread_present os ms :
  jsonMembers ms = ms -> NoDup (JsMap.keys ms) ->
  Forall (fun e => present e.1 ms /\ e.2 <> VUndefined) os ->
  let ms' := JsMap.spread ms (jsonMembers os) in
  jsonMembers (JsMap.spread ms os) = ms' /\ jsonMembers ms' = ms'
  /\ JsMap.keys ms' = JsMap.keys ms /\ JsMap.keys (JsMap.spread ms os) = JsMap.keys ms.
Proof.
  intros Hj Hd. induction os as [|[k v] os IH] using rev_ind; intros Hos; [done|].
  apply Forall_app in Hos as [Hos Hlast]. apply Forall_singleton in Hlast as [[x Hp] Hv].
  cbn [fst snd] in Hp, Hv. apply JsMap.get_keys in Hp.
  destruct (IH Hos) as (E1 & E2 & E3 & E4).
  unfold JsMap.spread in *. rewrite jsonMembers_app, !foldl_app, jsonMembers_defined by done.
  change (jsonMembers []) with (@nil (string * JsValue)). cbn [foldl] in *.
  set (m := foldl _ ms (jsonMembers os)) in *. set (m0 := foldl _ ms os) in *.
  rewrite <- E3 in Hp. pose proof (JsMap.keys_get _ _ Hp) as [y Hy].
  destruct (set_present k v m E2 ltac:(by rewrite E3) (ex_intro _ y Hy) Hv) as (F1 & F2 & F3).
  rewrite E3, <- E4 in Hp. apply JsMap.keys_get in Hp as [z Hz].
  assert (z <> VUndefined).
  { intros ->. rewrite <- E1, get_jsonMembers, Hz in Hy by (by rewrite E4). done. }
  split_and!; [|done|by rewrite F3|].
  - erewrite jsonMembers_set by eauto. by rewrite E1.
  - rewrite JsMap.keys_set_Some, E4 by (by rewrite Hz). done.
Qed.

(** What [JSON.parse] returns: JSON values, and objects with unique keys. *)
Definition parsed (ms : list (string * JsValue)) : Prop :=
  jsonMembers ms = ms /\ NoDup (JsMap.keys ms).

(** The reading of a document behind a decoded envelope. *)
Record reads (input : list (string * JsValue)) (e : Envelope) : Prop := mkReads {
  rd_shape : malformed input = false;
  rd_payload : exists p, field "payload" input = VObj p;
  rd_id : idIn (field "id" input) = Ok e.(e_id);
  rd_work : workIn (field "work" input) = Ok e.(e_work);
  rd_subject : subjectIn (field "subject" input) = Ok e.(e_subject);
  rd_tenant : tenantIn (field "tenant" input) = Ok e.(e_tenant);
  rd_type : field "type" input = VStr e.(e_type);
  rd_at : num_val (asNumber (field "occurred_at_ms" input)) = e.(e_occurredAtMs);
  rd_size : jsonSize (VObj e.(e_doc)) <= 65536;
  rd_doc : e.(e_doc) = jsonMembers (normalize input e.(e_id) e.(e_work) e.(e_subject) e.(e_tenant))
}.

Lemma decode_reads raw e :
  decode raw = Ok e -> exists input, raw.(json) = Some (VObj input) /\ reads input e.
Proof.
  unfold decode. destruct (65536 <? byteLength raw); [done|]. unfold mapError.
  destruct (decodeBody raw) as [e'|] eqn:E; [|done]. intros [= ->]. unfold decodeBody in E.
  destruct (json raw) as [v|]; [|done]. ok_branches E. breflect.
  injection E0 as <-. destruct v; try done. injection E1 as ->. exists x0. split; [done|].
  constructor; cbn; auto.
  - destruct (field "payload" x0); try done. eauto.
  - destruct (field "type" x0); try done. by injection E8 as ->.
  - by rewrite jsonSize_members.
Qed.

Lemma reads_decode input e n :
  n <= 65536 -> jsonSize (VObj (normalize input e.(e_id) e.(e_work) e.(e_subject) e.(e_tenant))) <= 65536 ->
  reads input e -> decode (mkRaw n (Some (VObj input))) = Ok e.
Proof.
  intros Hn Hs []. unfold decode. cbn [byteLength]. rewrite (proj2 (Z.ltb_ge _ _)) by lia.
  unfold decodeBody. cbn [json mbind Result_bind object]. rewrite rd_shape0.
  destruct rd_payload0 as [p ->]. cbn [object mbind Result_bind].
  rewrite rd_id0, rd_work0, rd_subject0, rd_tenant0, rd_type0. cbn [string_ mbind Result_bind].
  rewrite (proj2 (Z.ltb_ge _ _)) by lia. cbn [mapError]. rewrite <- rd_doc0, rd_at0. by destruct e.
Qed.

(** A parsed document has a member exactly when reading it is not [undefined]. *)
Lemma field_present k ms : jsonMembers ms = ms -> field k ms <> VUndefined <-> present k ms.
Proof.
  intros Hj. pose proof (isJson_defined k ms Hj). unfold field, present.
  destruct (JsMap.get k ms) as [v|]; split; naive_solver.
Qed.

Lemma overrides_present input e :
  jsonMembers input = input -> reads input e ->
  Forall (fun o => present o.1 input /\ o.2 <> VUndefined)
    (overrides e.(e_id) e.(e_work) e.(e_subject) e.(e_tenant)).
Proof.
  intros Hj []. unfold overrides. rewrite !Forall_app. split_and!.
  - repeat constructor; cbn; try done; apply field_present; try done.
    + intros H. by rewrite H in rd_id0.
    + intros H. by rewrite H in rd_work0.
  - destruct (e_subject e); repeat constructor; cbn; try done. apply field_present; [done|].
    intros H. by rewrite H in rd_subject0.
  - destruct (e_tenant e); repeat constructor; cbn; try done. apply field_present; [done|].
    intros H. by rewrite H in rd_tenant0.
Qed.

(** Reading back what was overwritten. *)
Lemma field_spread_other k os ms :
  Forall (fun o => o.1 <> k) os -> field k (JsMap.spread ms os) = field k ms.
Proof.
  unfold field, JsMap.spread. revert ms. induction os as [|[k' v] os IH]; intros ms; [done|].
  intros [Hk Hos]%Forall_cons. cbn [foldl]. rewrite IH, JsMap.get_set_ne by done. done.
Qed.

Lemma field_spread_last k v os os' ms :
  Forall (fun o => o.1 <> k) os' -> field k (JsMap.spread ms (os ++ (k, v) :: os')) = v.
Proof.
  intros H. unfold JsMap.spread. rewrite foldl_app. cbn [foldl].
  change (field k (JsMap.spread (JsMap.set k v (JsMap.spread ms os)) os') = v).
  rewrite field_spread_other by done. unfold field. by rewrite JsMap.get_set_eq.
Qed.

Ltac decide_keys := repeat (rewrite decide_True by done || rewrite decide_False by done).

(** The members of a normalized document. *)
Lemma field_doc input i w s t :
  let D := JsMap.spread input (jsonMembers (overrides i w s t)) in
  field "id" D = VStr i /\ field "work" D = jsonValue (workOut w)
  /\ field "subject" D = match s with Some s => subjectOut s | None => field "subject" input end
  /\ field "tenant" D = match t with Some t => VStr t | None => field "tenant" input end
  /\ (forall k, k ∉ ["id"; "work"; "subject"; "tenant"]%string -> field k D = field k input).
Proof.
  intros D. subst D.
  assert (Hos : jsonMembers (overrides i w s t)
    = [("id"%string, VStr i); ("work"%string, jsonValue (workOut w))]
      ++ match s with Some s => [("subject"%string, subjectOut s)] | None => [] end
      ++ match t with Some t => [("tenant"%string, VStr t)] | None => [] end)
    by (by destruct s, t).
  rewrite Hos. unfold field, JsMap.spread. clear Hos.
  split_and!; try (destruct s, t; cbn [app foldl]; rewrite !JsMap.get_set; decide_keys; done).
  intros k Hk. rewrite !not_elem_of_cons in Hk.
  destruct s, t; cbn [app foldl]; rewrite !JsMap.get_set; rewrite !decide_False by naive_solver; done.
Qed.

(** Overwriting the same members twice is overwriting them once. *)
Lemma spread_same (os ms : list (string * JsValue)) :
  NoDup (JsMap.keys os) -> (forall k v, (k, v) ∈ os -> JsMap.get k ms = Some v) -> JsMap.spread ms os = ms.
Proof.
  unfold JsMap.spread. induction os as [|[k v] os IH]; [done|]. intros [_ Hd]%NoDup_cons Hg. cbn [foldl].
  rewrite JsMap.set_same by (apply Hg; left). apply IH; [exact Hd|]. intros k' v' H. apply Hg. by right.
Qed.

Lemma get_spread (os ms : list (string * JsValue)) k v :
  NoDup (JsMap.keys os) -> (k, v) ∈ os -> JsMap.get k (JsMap.spread ms os) = Some v.
Proof.
  unfold JsMap.spread. revert ms. induction os as [|[k' v'] os IH]; intros ms; [by intros _ ?%elem_of_nil|].
  unfold JsMap.keys. cbn [fmap list_fmap fst foldl]. intros [Hn Hd]%NoDup_cons [[= <- <-]|Hin]%elem_of_cons.
  - assert (forall m, JsMap.get k m = Some v ->
      JsMap.get k (foldl (fun m '(k, v) => JsMap.set k v m) m os) = Some v) as Hkeep.
    { clear IH Hd. induction os as [|[k2 v2] os IH2]; [done|]. intros m Hm. cbn [foldl].
      cbn in Hn. apply not_elem_of_cons in Hn as [Hk Hn]. apply IH2; [exact Hn|].
      by rewrite JsMap.get_set_ne. }
    apply Hkeep, JsMap.get_set_eq.
  - by apply IH.
Qed.

Lemma spread_twice (os ms : list (string * JsValue)) : NoDup (JsMap.keys os) -> JsMap.spread (JsMap.spread ms os) os = JsMap.spread ms os.
Proof. intros Hd. apply spread_same; [done|]. intros k v H. by apply get_spread. Qed.

Lemma overrides_keys i w s t : NoDup (JsMap.keys (jsonMembers (overrides i w s t))).
Proof. destruct s, t; nodup_keys. Qed.

Lemma hasOwn_keys a b k : JsMap.keys a = JsMap.keys b -> hasOwn a k = hasOwn b k.
Proof.
  intros H. unfold hasOwn, JsMap.has.
  destruct (JsMap.get k a) eqn:Ea, (JsMap.get k b) eqn:Eb; try done.
  - apply JsMap.get_keys in Ea. rewrite H in Ea. by apply JsMap.get_None in Eb.
  - apply JsMap.get_keys in Eb. rewrite <- H in Eb. by apply JsMap.get_None in Ea.
Qed.

Lemma malformed_same a b :
  JsMap.keys a = JsMap.keys b ->
  field "v" a = field "v" b -> field "type" a = field "type" b ->
  field "occurred_at_ms" a = field "occurred_at_ms" b -> malformed a = malformed b.
Proof.
  intros Hk Hv Ht Ho. unfold malformed. rewrite Hv, Ht, Ho, !(hasOwn_keys a b) by done.
  assert (length a = length b) as ->
    by (apply (f_equal length) in Hk; unfold JsMap.keys in Hk; by rewrite !length_fmap in Hk).
  assert (forallb (hasOwn a) ["v"; "id"; "type"; "occurred_at_ms"; "work"; "payload"]%string
    = forallb (hasOwn b) ["v"; "id"; "type"; "occurred_at_ms"; "work"; "payload"]%string) as ->; [|done].
  cbn [forallb]. by rewrite !(hasOwn_keys a b).
Qed.

Lemma idIn_idemp v id : idIn v = Ok id -> idIn (VStr id) = Ok id.
Proof. unfold idIn. intros E. ok_branches E. cbn -[parse]. by eapply parse_idemp. Qed.

Lemma subjectIn_out v s : subjectIn v = Ok (Some s) -> subjectIn (subjectOut s) = Ok (Some s).
Proof.
  intros E. destruct v; try done. unfold subjectIn in E. ok_branches E.
  match goal with H : idIn _ = Ok _ |- _ => apply idIn_idemp in H as Hid end.
  change (subjectIn (subjectOut ?s)) with
    (if negb (matchesName 63 (b_kind s)) then Err invalid
     else id ← idIn (VStr (b_id s)); Ok (Some (mkEventSubject (b_kind s) id))).
  cbn [b_kind b_id]. by rewrite E3, Hid.
Qed.

Lemma tenantIn_out v t : tenantIn v = Ok (Some t) -> tenantIn (VStr t) = Ok (Some t).
Proof.
  unfold tenantIn. destruct v; try done; intros E; ok_branches E;
    match goal with H : idIn _ = Ok _ |- _ => apply idIn_idemp in H as ->; done end.
Qed.

(** The kept document reads as the same envelope and is a fixed point of
    normalization. *)
Lemma reads_doc input e :
  parsed input -> reads input e ->
  reads e.(e_doc) e /\ parsed e.(e_doc)
  /\ jsonMembers (normalize e.(e_doc) e.(e_id) e.(e_work) e.(e_subject) e.(e_tenant)) = e.(e_doc).
Proof.
  intros [Hj Hd] Hr. pose proof (overrides_present input e Hj Hr) as Hos.
  destruct (spread_present _ input Hj Hd Hos) as (E1 & E2 & E3 & _).
  change (JsMap.spread input (overrides (e_id e) (e_work e) (e_subject e) (e_tenant e)))
    with (normalize input (e_id e) (e_work e) (e_subject e) (e_tenant e)) in E1.
  destruct Hr as [Hshape [p Hp] Hid Hwork Hsub Hten Hty Hat Hsize Hdoc]. rewrite E1 in Hdoc.
  destruct (field_doc input (e_id e) (e_work e) (e_subject e) (e_tenant e)) as (F1 & F2 & F3 & F4 & F5).
  rewrite <- Hdoc in *.
  assert (Hpar : parsed (e_doc e)) by (split; [done|by rewrite E3]).
  assert (Hsub' : subjectIn (field "subject" (e_doc e)) = Ok (e_subject e)).
  { rewrite F3. destruct (e_subject e) eqn:Es; [by eapply subjectIn_out|done]. }
  assert (Hten' : tenantIn (field "tenant" (e_doc e)) = Ok (e_tenant e)).
  { rewrite F4. destruct (e_tenant e) eqn:Es; [by eapply tenantIn_out|done]. }
  assert (Hw' : workIn (field "work" (e_doc e)) = Ok (e_work e)).
  { rewrite F2. destruct (workIn_genuine _ _ Hwork) as [Hg Hv]. destruct (e_work e) as [w]. by apply workIn_out. }
  assert (Hid' : idIn (field "id" (e_doc e)) = Ok (e_id e)) by (rewrite F1; by eapply idIn_idemp).
  assert (Hfix : jsonMembers (normalize (e_doc e) (e_id e) (e_work e) (e_subject e) (e_tenant e)) = e_doc e).
  { assert (Hos' : Forall (fun o => present o.1 (e_doc e) /\ o.2 <> VUndefined)
      (overrides (e_id e) (e_work e) (e_subject e) (e_tenant e))).
    { eapply Forall_impl; [exact Hos|]. cbn. intros o [[v Hv] ?]. split; [|done].
      apply JsMap.get_keys in Hv. rewrite <- E3 in Hv. by apply JsMap.keys_get in Hv. }
    destruct (spread_present _ (e_doc e) E2 (proj2 Hpar) Hos') as (G1 & _).
    unfold normalize. fold (overrides (e_id e) (e_work e) (e_subject e) (e_tenant e)).
    rewrite G1, Hdoc. by apply spread_twice, overrides_keys. }
  assert (Hk : forall k, k ∉ ["id"; "work"; "subject"; "tenant"]%string ->
    field k (e_doc e) = field k input) by exact F5.
  split_and!; [|done|done].
  assert (Hn : forall k : string, bool_decide (k ∉ ["id"; "work"; "subject"; "tenant"]%string) = true ->
    field k (e_doc e) = field k input) by (intros k ?%bool_decide_eq_true; auto).
  constructor; auto.
  - rewrite <- Hshape. by apply malformed_same; [|apply Hn..].
  - exists p. by rewrite Hn.
  - by rewrite Hn.
  - by rewrite Hn.
Qed.

(** An envelope the program made: [create] and [decode] are the only ways, and
    both read a document. *)
Definition built (e : Envelope) : Prop :=
  exists raw, (forall ms, raw.(json) = Some (VObj ms) -> parsed ms) /\ decode raw = Ok e.

Lemma built_again e : built e -> decode (bytes e) = Ok e /\ (bytes e).(byteLength) <= 65536.
Proof.
  intros (raw & Hparse & Hdecode). apply decode_reads in Hdecode as (input & Hj & Hr).
  destruct (reads_doc input e (Hparse _ Hj) Hr) as (Hd & [Hp _] & Hfix).
  pose proof (rd_size _ _ Hd) as Hs. split; [|exact Hs]. unfold bytes, stringify.
  change (jsonValue (VObj (e_doc e))) with (VObj (jsonMembers (e_doc e))). rewrite Hp.
  apply reads_decode; [exact Hs| |exact Hd]. by rewrite <- jsonSize_members, Hfix.
Qed.

(** C35. Envelopes are stable. Decoding any bytes that decode at all (whatever
    UTF-8 JSON document they spell) gives an envelope whose own bytes are at
    most 64 KiB and decode to exactly the same envelope: the identifier, the
    work, the subject and the tenant are in canonical form, so storing,
    forwarding and comparing envelopes by bytes is sound. *)
Theorem envelope_roundtrip (raw : Raw) (e : Envelope)
    (Hparse : forall ms, raw.(json) = Some (VObj ms) -> parsed ms)
    (Hdecode : decode raw = Ok e) :
  decode (bytes e) = Ok e /\ (bytes e).(byteLength) <= 65536.
Proof. apply built_again. by exists raw. Qed.

(** The document [create] serializes. *)
Definition created (id : ID) (type : jstring) (at_ : num) (work : WorkContext)
    (pl : list (string * JsValue)) (subject : option EventSubject) (tenant : option ID)
    : list (string * JsValue) :=
  [("v"%string, VNum (Int 1)); ("id"%string, VStr id); ("type"%string, VStr type);
   ("occurred_at_ms"%string, VNum at_); ("work"%string, workOut work); ("payload"%string, VObj pl)]
  ++ match subject with Some s => [("subject"%string, subjectOut s)] | None => [] end
  ++ match tenant with Some t => [("tenant"%string, VStr t)] | None => [] end.

Lemma created_parsed id type at_ work pl subject tenant :
  NoDup (JsMap.keys (created id type at_ work pl subject tenant))
  /\ parsed (jsonMembers (created id type at_ work pl subject tenant)).
Proof.
  assert (H : NoDup (JsMap.keys (created id type at_ work pl subject tenant)))
    by (destruct subject, tenant; nodup_keys).
  split; [done|]. split; [apply jsonMembers_idemp|].
  eapply sublist_NoDup; [exact H|apply jsonMembers_keys].
Qed.

Lemma created_fields id type at_ work pl subject tenant :
  let m := jsonMembers (created id type at_ work pl subject tenant) in
  field "id" m = VStr id /\ field "type" m = VStr type
  /\ field "occurred_at_ms" m = jsonValue (VNum at_) /\ field "work" m = jsonValue (workOut work)
  /\ field "payload" m = VObj (jsonMembers pl)
  /\ field "subject" m = match subject with Some s => subjectOut s | None => VUndefined end
  /\ field "tenant" m = match tenant with Some t => VStr t | None => VUndefined end.
Proof.
  intros m. unfold m. destruct (created_parsed id type at_ work pl subject tenant) as [Hd _].
  rewrite !field_json by done. clear. split_and!; destruct subject, tenant; try reflexivity;
    cbn; by destruct (finite at_).
Qed.

Lemma idIn_VStr id : validID id = true -> idIn (VStr id) = Ok id.
Proof. apply validID_parse. Qed.

Lemma subjectIn_valid s o : validID s.(b_id) = true -> subjectIn (subjectOut s) = Ok o -> Some s = o.
Proof.
  intros Hid. change (subjectIn (subjectOut s)) with
    (if negb (matchesName 63 (b_kind s)) then Err invalid
     else id ← idIn (VStr (b_id s)); Ok (Some (mkEventSubject (b_kind s) id))).
  rewrite idIn_VStr by done. destruct (negb _); [done|]. intros [= <-]. by destruct s.
Qed.

(** The type and the work of a created envelope are the given ones. *)
Lemma create_type id type at_ work pl subject tenant e :
  create id type at_ work pl subject tenant = Ok e ->
  e.(e_type) = type /\ (wfContext work -> e.(e_work) = work).
Proof.
  intros Hcreate. apply decode_reads in Hcreate as (input & Hj & Hr).
  change (Some (VObj (jsonMembers (created id type at_ work pl subject tenant))) = Some (VObj input)) in Hj.
  injection Hj as <-. destruct (created_fields id type at_ work pl subject tenant) as (_ & F2 & _ & F4 & _).
  split; [pose proof (rd_type _ _ Hr) as R; rewrite F2 in R; by injection R|].
  intros [Hg Hv]. destruct work as [w]. pose proof (rd_work _ _ Hr) as R.
  rewrite F4, workIn_out in R by done. by injection R.
Qed.

(** Its payload is the given one, as JSON. *)
Lemma create_payload id type at_ work pl subject tenant e :
  create id type at_ work pl subject tenant = Ok e -> payload e = Ok (jsonMembers pl).
Proof.
  intros Hcreate. apply decode_reads in Hcreate as (input & Hj & Hr).
  change (Some (VObj (jsonMembers (created id type at_ work pl subject tenant))) = Some (VObj input)) in Hj.
  injection Hj as <-.
  destruct (created_fields id type at_ work pl subject tenant) as (_ & _ & _ & _ & F5 & _).
  pose proof (overrides_present _ e (jsonMembers_idemp _) Hr) as Hos.
  pose proof (spread_present _ _ (jsonMembers_idemp _)
    (proj2 (proj2 (created_parsed id type at_ work pl subject tenant))) Hos) as (E1 & _).
  unfold payload. rewrite (rd_doc _ _ Hr).
  change (normalize (jsonMembers (created id type at_ work pl subject tenant)) (e_id e) (e_work e)
    (e_subject e) (e_tenant e)) with (JsMap.spread (jsonMembers (created id type at_ work pl subject tenant))
    (overrides (e_id e) (e_work e) (e_subject e) (e_tenant e))).
  rewrite E1.
  destruct (field_doc (jsonMembers (created id type at_ work pl subject tenant)) (e_id e) (e_work e)
    (e_subject e) (e_tenant e)) as (_ & _ & _ & _ & Hother).
  rewrite Hother, F5; [done|]. apply (bool_decide_unpack _). vm_compute. exact I.
Qed.

(** What an envelope says. An envelope the program creates carries exactly
    what it was created with: the identifier, the type, the time, the work, the
    subject, the tenant and the payload as JSON; and the writers' provenance
    guard accepts it for that work. *)
Theorem create_faithful (id : ID) (type : jstring) (at_ : num) (work : WorkContext)
    (pl : list (string * JsValue)) (subject : option EventSubject) (tenant : option ID) (e : Envelope)
    (Hwork : wfContext work) (Hid : validID id = true)
    (Hsubject : forall s, subject = Some s -> validID s.(b_id) = true)
    (Htenant : forall t, tenant = Some t -> validID t = true)
    (Hcreate : create id type at_ work pl subject tenant = Ok e) :
  e.(e_id) = id /\ e.(e_type) = type /\ Int e.(e_occurredAtMs) = at_ /\ e.(e_work) = work
  /\ e.(e_subject) = subject /\ e.(e_tenant) = tenant /\ payload e = Ok (jsonMembers pl)
  /\ assertEventWork e work = Ok tt.
Proof.
  destruct (create_type _ _ _ _ _ _ _ _ Hcreate) as [Hty Hw]. pose proof (create_payload _ _ _ _ _ _ _ _ Hcreate) as Hpl.
  apply decode_reads in Hcreate as (input & Hj & Hr).
  change (Some (VObj (jsonMembers (created id type at_ work pl subject tenant))) = Some (VObj input)) in Hj.
  injection Hj as <-.
  destruct (created_fields id type at_ work pl subject tenant) as (F1 & F2 & F3 & F4 & F5 & F6 & F7).
  destruct Hr as [Hshape _ Rid Rwork Rsub Rten _ Rat _ _]. specialize (Hw Hwork).
  split_and!.
  - rewrite F1, idIn_VStr in Rid by done. by injection Rid.
  - done.
  - unfold malformed in Hshape. apply orb_false_iff in Hshape as [_ Hat]. rewrite F3 in Hat, Rat.
    cbn in Hat, Rat. destruct (finite at_); [|done]. destruct at_ as [z|]; [|done]. cbn in Rat. by subst.
  - done.
  - rewrite F6 in Rsub. destruct subject as [s|]; [|by injection Rsub].
    symmetry. eapply subjectIn_valid; [by apply Hsubject|exact Rsub].
  - rewrite F7 in Rten. destruct tenant as [t|]; [|by injection Rten].
    cbn -[parse idIn] in Rten. rewrite idIn_VStr in Rten by auto. cbn in Rten. by injection Rten.
  - done.
  - unfold assertEventWork. by rewrite Hw, bool_decide_eq_true_2.
Qed.

(** ** Comparing works. *)

Lemma actorOut_inj a b :
  genuineActor a -> genuineActor b -> jsonValue (actorOut a) = jsonValue (actorOut b) -> a = b.
Proof.
  assert (Hk : forall a, genuineActor a -> a_known a = true).
  { intros x (k & i & E). unfold actor in E. destruct (_ || _); [done|]. injection E as <-.
    by destruct (isLit k "anonymous"). }
  intros Ha%Hk Hb%Hk H. destruct a as [ka na ia], b as [kb nb ib]. cbn in *. subst.
  destruct ia, ib; cbn in H; naive_solver.
Qed.

Lemma referenceOut_inj a b :
  genuineReference a -> genuineReference b -> jsonValue (referenceOut a) = jsonValue (referenceOut b) -> a = b.
Proof.
  assert (Hk : forall r, genuineReference r -> f_known r = true).
  { intros r E. unfold genuineReference, reference in E. destruct (_ || _); [done|]. injection E as E. by rewrite <- E. }
  intros Ha%Hk Hb%Hk H. destruct a, b. cbn in *. naive_solver.
Qed.

(** An optional member determines what it was written from. *)
Lemma orNull_inj {A} (f : A -> JsValue) (P : A -> Prop) o o' :
  (forall x, P x -> jsonValue (f x) <> VNull) ->
  (forall x y, P x -> P y -> jsonValue (f x) = jsonValue (f y) -> x = y) ->
  (forall x, o = Some x -> P x) -> (forall x, o' = Some x -> P x) ->
  jsonValue (orNull f o) = jsonValue (orNull f o') -> o = o'.
Proof.
  intros Hn Hf Ho Ho' H. destruct o as [x|], o' as [y|]; cbn in H; auto.
  - f_equal. auto.
  - by apply Hn in H; auto.
  - symmetry in H. by apply Hn in H; auto.
Qed.

Lemma text_inj o o' : jsonValue (orNull VStr o) = jsonValue (orNull VStr o') -> o = o'.
Proof. apply (orNull_inj VStr (fun _ => True)); try done. by intros x y _ _ [= ->]. Qed.

Lemma textUndefined_inj o o' : onWire (orUndefined VStr o) = onWire (orUndefined VStr o') -> o = o'.
Proof. destruct o, o'; cbn; naive_solver. Qed.

Lemma replayOut_inj p q :
  (forall r, p.(p_source) = Some r -> genuineReference r) ->
  (forall r, q.(p_source) = Some r -> genuineReference r) ->
  jsonValue (replayComparable p) = jsonValue (replayComparable q) -> p = q.
Proof.
  intros Hp Hq H. destruct p as [rp sp], q as [rq sq]. cbn [p_runId p_source] in *.
  assert (Hs : forall a b : Reference, Some a = sp -> Some b = sq ->
    jsonValue (referenceOut a) = jsonValue (referenceOut b) -> a = b)
    by (intros; apply referenceOut_inj; auto).
  destruct rp, rq, sp, sq; cbn in H; try done; injection H; intros; subst; f_equal; try done;
    f_equal; apply Hs; try done; cbn; congruence.
Qed.

Definition comparableMembers (w : Work) : list (string * JsValue) :=
  [("workId"%string, orUndefined VStr w.(w_workId));
   ("correlationId"%string, orUndefined VStr w.(w_correlationId));
   ("correlationSource"%string, VStr w.(w_correlationSource));
   ("operation"%string, VStr w.(w_operation));
   ("attribution"%string, VObj
      [("initiator"%string, orNull actorOut w.(w_attribution).(t_initiator));
       ("onBehalfOf"%string, orNull actorOut w.(w_attribution).(t_onBehalfOf));
       ("tenant"%string, orNull VStr w.(w_attribution).(t_tenant))]);
   ("causation"%string, orNull referenceOut w.(w_causation));
   ("origin"%string, orNull VStr w.(w_origin));
   ("depth"%string, orNull VNum w.(w_depth));
   ("replay"%string, orNull replayComparable w.(w_replay))].

Lemma comparable_field w w' k :
  comparable (mkContext w) = comparable (mkContext w') ->
  onWire (field k (comparableMembers w)) = onWire (field k (comparableMembers w')).
Proof.
  intros H. change (VObj (jsonMembers (comparableMembers w)) = VObj (jsonMembers (comparableMembers w'))) in H.
  injection H as H. apply (f_equal (field k)) in H.
  rewrite !field_json in H by nodup_keys. exact H.
Qed.

Lemma attributionOut_inj t u :
  genuineAttribution t -> genuineAttribution u ->
  jsonValue (VObj [("initiator"%string, orNull actorOut t.(t_initiator));
       ("onBehalfOf"%string, orNull actorOut t.(t_onBehalfOf)); ("tenant"%string, orNull VStr t.(t_tenant))])
  = jsonValue (VObj [("initiator"%string, orNull actorOut u.(t_initiator));
       ("onBehalfOf"%string, orNull actorOut u.(t_onBehalfOf)); ("tenant"%string, orNull VStr u.(t_tenant))]) ->
  t = u.
Proof.
  intros (Ht & Hi & Hb) (Hu & Hi' & Hb') H.
  assert (Hm : forall i b t', jsonMembers [("initiator"%string, orNull actorOut i);
      ("onBehalfOf"%string, orNull actorOut b); ("tenant"%string, orNull VStr t')]
    = [("initiator"%string, jsonValue (orNull actorOut i)); ("onBehalfOf"%string, jsonValue (orNull actorOut b));
       ("tenant"%string, jsonValue (orNull VStr t'))]) by (intros i b t'; by destruct i, b, t').
  apply (f_equal (fun v => match v with VObj ms => ms | _ => [] end)) in H.
  change (jsonMembers [("initiator"%string, orNull actorOut t.(t_initiator));
       ("onBehalfOf"%string, orNull actorOut t.(t_onBehalfOf)); ("tenant"%string, orNull VStr t.(t_tenant))]
    = jsonMembers [("initiator"%string, orNull actorOut u.(t_initiator));
       ("onBehalfOf"%string, orNull actorOut u.(t_onBehalfOf)); ("tenant"%string, orNull VStr u.(t_tenant))]) in H.
  rewrite !Hm in H. injection H as H1 H2 H3.
  apply (orNull_inj actorOut genuineActor) in H1; [|done|apply actorOut_inj|done|done].
  apply (orNull_inj actorOut genuineActor) in H2; [|done|apply actorOut_inj|done|done].
  apply text_inj in H3. rewrite H1, H2, H3 in Ht. rewrite Hu in Ht. by injection Ht.
Qed.

Lemma comparable_inj w w' :
  genuineWork w -> genuineWork w' -> comparable (mkContext w) = comparable (mkContext w') -> w = w'.
Proof.
  intros [Hat Hca Hso Hde] [Hat' Hca' Hso' Hde'] H. pose proof (fun k => comparable_field w w' k H) as HF.
  pose proof (HF "workId"%string) as F1. pose proof (HF "correlationId"%string) as F2.
  pose proof (HF "correlationSource"%string) as F3. pose proof (HF "operation"%string) as F4.
  pose proof (HF "attribution"%string) as F5. pose proof (HF "causation"%string) as F6.
  pose proof (HF "origin"%string) as F7. pose proof (HF "depth"%string) as F8.
  pose proof (HF "replay"%string) as F9. clear H HF.
  apply textUndefined_inj in F1, F2. injection F3 as F3. injection F4 as F4.
  apply attributionOut_inj in F5; [|done..].
  assert (Ho : forall A (f : A -> JsValue) o, (forall x, f x <> VUndefined) ->
    onWire (orNull f o) = jsonValue (orNull f o)).
  { intros A f o Hf. destruct o as [x|]; [|done]. cbn. specialize (Hf x). by destruct (f x). }
  change (onWire (orNull referenceOut (w_causation w)) = onWire (orNull referenceOut (w_causation w'))) in F6.
  change (onWire (orNull VStr (w_origin w)) = onWire (orNull VStr (w_origin w'))) in F7.
  change (onWire (orNull VNum (w_depth w)) = onWire (orNull VNum (w_depth w'))) in F8.
  rewrite !Ho in F6, F7, F8 by done.
  apply (orNull_inj referenceOut genuineReference) in F6; [|done|apply referenceOut_inj|done|done].
  apply text_inj in F7.
  apply (orNull_inj VNum (fun d => finite d = true)) in F8; [| | |done|done].
  2: { intros x Hx. cbn. by rewrite Hx. }
  2: { intros x y Hx Hy. cbn. rewrite Hx, Hy. by intros [= ->]. }
  change (onWire (orNull replayComparable (w_replay w)) = onWire (orNull replayComparable (w_replay w'))) in F9.
  rewrite !Ho in F9 by done.
  apply (orNull_inj replayComparable (fun p => forall r, p.(p_source) = Some r -> genuineReference r)) in F9;
    [|done|intros; by apply replayOut_inj|eauto..].
  destruct w, w'; cbn in *; by subst.
Qed.

(** C33. The provenance guard. A writer's guard accepts an event exactly when
    the event was created for the writer's own work: any difference in the
    work, the correlation, the operation, the attribution (actor, delegation or
    tenant), the cause, the origin, the depth or the replay is refused. *)
Theorem assertEventWork_exact (e : Envelope) (work : WorkContext)
    (Hevent : wfContext e.(e_work)) (Hwork : wfContext work) :
  (assertEventWork e work = Ok tt <-> e.(e_work) = work)
  /\ (e.(e_work) <> work -> exists f, assertEventWork e work = Err f
        /\ f_type f = Some "events.provenance_mismatch"%string).
Proof.
  destruct Hevent as [Hg _], Hwork as [Hg' _]. unfold assertEventWork.
  assert (Hiff : comparable (e_work e) = comparable work <-> e_work e = work).
  { split; [|by intros ->]. intros H. destruct (e_work e) as [w], work as [w'].
    f_equal. by apply comparable_inj. }
  split.
  - rewrite <- Hiff. destruct (bool_decide _) eqn:E; rewrite ?bool_decide_eq_true, ?bool_decide_eq_false in E;
      naive_solver.
  - intros Hne. rewrite bool_decide_eq_false_2 by naive_solver. eauto.
Qed.

(** ** A concrete event. *)

Definition sample_context : WorkContext := mkContext sample_work.

Lemma sample_genuine : wfContext sample_context.
Proof.
  split; [|vm_compute; reflexivity]. constructor; cbn; try naive_solver.
  split; [vm_compute; reflexivity|]. cbn. split; [|done].
  intros a [= <-]. exists (js "system"), (js "n2f"). vm_compute. reflexivity.
Defined.

Definition sample_payload : list (string * JsValue) :=
  [("status"%string, VStr (js "queued")); ("note"%string, VUndefined); ("attempts"%string, VNum (Int 0))].

Definition sample_subject : option EventSubject := Some (mkEventSubject (js "job") (sample_uuid "3")).

Definition sample_envelope : Envelope :=
  match create (sample_uuid "4") (js "job.submitted.v1") (Int 1000) sample_context sample_payload
          sample_subject (Some (sample_uuid "9")) with
  | Ok e => e
  | Err _ => mkEnvelope [] [] sample_context [] 0 None None
  end.

Lemma envelope_roundtrip_witness :
  decode (bytes sample_envelope) = Ok sample_envelope /\ (bytes sample_envelope).(byteLength) <= 65536.
Proof.
  apply (envelope_roundtrip (stringify (VObj (created (sample_uuid "4") (js "job.submitted.v1") (Int 1000)
    sample_context sample_payload sample_subject (Some (sample_uuid "9")))))).
  - intros ms [= <-]. apply (created_parsed (sample_uuid "4") (js "job.submitted.v1") (Int 1000)
    sample_context sample_payload sample_subject (Some (sample_uuid "9"))).
  - vm_compute. reflexivity.
Defined.

Lemma create_faithful_witness :
  sample_envelope.(e_type) = js "job.submitted.v1"
  /\ payload sample_envelope
     = Ok [("status"%string, VStr (js "queued")); ("attempts"%string, VNum (Int 0))].
Proof.
  pose proof (create_faithful (sample_uuid "4") (js "job.submitted.v1") (Int 1000) sample_context
    sample_payload sample_subject (Some (sample_uuid "9")) sample_envelope sample_genuine
    ltac:(vm_compute; reflexivity)
    ltac:(intros s Hs; injection Hs as <-; vm_compute; reflexivity)
    ltac:(intros t Ht; injection Ht as <-; vm_compute; reflexivity)
    ltac:(vm_compute; reflexivity)) as (_ & Ht & _ & _ & _ & _ & Hp & _).
  split; [exact Ht|exact Hp].
Defined.

Lemma assertEventWork_exact_witness :
  assertEventWork sample_envelope sample_context = Ok tt.
Proof.
  apply (assertEventWork_exact sample_envelope sample_context).
  - replace (e_work sample_envelope) with sample_context by (vm_compute; reflexivity). exact sample_genuine.
  - exact sample_genuine.
  - vm_compute. reflexivity.
Defined.

End Events.
