(* ===== verification/Commands.v ===== *)
(** * What the application commands of every module share.

    A command is an asynchronous program ([Async]) that answers a [Result].
    This file holds the idioms its steps are written with, and the failure
    vocabulary: each module keeps the failures it knows ([app/failures.ts]) and
    maps those of its dependencies to kinds and messages of its own. *)
From S2P Require Import Prelude Async Errors Ids Json Provenance Events.

(** [const x = await p; if (!x.ok) return x;] *)
Notation "x ⟵ p ; q" := (bind p (fun r => match r with Ok x => q | Err e => Ret (Err e) end))
  (at level 100, p at next level, q at level 200, right associativity) : prog_scope.

Module Vocabulary.

(** A [switch] on the failure's type that keeps its message and its fields. *)
Definition knownIn (table : list (string * Kind)) (error : Failure) : option Failure :=
  match f_type error with
  | None => None
  | Some t =>
      match find_first (fun '(k, _) => String.eqb k t) table with
      | Some (_, kind) =>
          Some (typedFailure kind t (f_message error) (mkOptions None (f_fields error) [] (CFailure error)))
      | None => None
      end
  end.

(** The module's words for a dependency's failure of each kind: the prefix of
    its types and the noun of its messages. *)
Definition dependencyKind (prefix noun : string) (k : Kind) : Kind * string * string :=
  let words type message := ((prefix ++ ".dependency_" ++ type)%string, (noun ++ " dependency " ++ message)%string) in
  let kept kind type message := (kind, (words type message).1, (words type message).2) in
  match k with
  | Errors.invalid => kept internal "invalid" "returned an invalid outcome"
  | not_found => kept not_found "not_found" "could not find the required record"
  | conflict => kept conflict "conflict" "rejected the operation as a conflict"
  | unauthenticated => kept unauthenticated "unauthenticated" "rejected authentication"
  | forbidden => kept forbidden "forbidden" "rejected authorization"
  | rate_limited => kept rate_limited "rate_limited" "is rate limited"
  | unavailable => kept unavailable "unavailable" "is unavailable"
  | timeout => kept timeout "timeout" "timed out"
  | canceled => kept canceled "canceled" "operation was canceled"
  | internal => kept internal "internal" "failed internally"
  end%string.

Definition dependencyIn (prefix noun : string) (table : list (string * Kind)) (error : Failure)
    (operation : string) : Failure :=
  match knownIn table error with
  | Some known => known
  | None =>
      let '(kind, type, message) := dependencyKind prefix noun (Errors.f_kind error) in
      typedFailure kind type message
        (mkOptions None None [("operation"%string, operation); ("cause"%string, typeOr "unknown" error)] (CFailure error))
  end.

Definition idGenerationIn (type message : string) (error : Failure) : Failure :=
  typedFailure unavailable type message
    (mkOptions None None [("cause"%string, typeOr "unknown" error)] (CFailure error)).

(** A known failure keeps its type; every other gets one of the module's. *)
Lemma dependencyIn_type prefix noun table error operation t :
  f_type (dependencyIn prefix noun table error operation) = Some t ->
  (f_type error = Some t /\ exists kind, (t, kind) ∈ table) \/ (exists k, t = (dependencyKind prefix noun k).1.2).
Proof.
  unfold dependencyIn, knownIn. set (other := (let '(_, _, _) := _ in _)).
  assert (Hother : f_type other = Some t -> exists k, t = (dependencyKind prefix noun k).1.2).
  { subst other. intros H. exists (Errors.f_kind error). destruct (dependencyKind _ _ _) as [[kd ty] m]. by apply f_type_typed in H. }
  destruct (f_type error) as [t0|] eqn:Et; [|by intros H; right; apply Hother].
  destruct (find_first _ table) as [[k kind]|] eqn:Ef; [|by intros H; right; apply Hother].
  apply List.find_some in Ef as [Hin Hk%String.eqb_eq]. subst k. intros ->%f_type_typed. left. split; [done|].
  exists kind. by apply list_elem_of_In.
Qed.
End Vocabulary.

Section Steps.
  Context {Op : Type} {Ans : Op -> Type}.

(** [if (!r.ok) return err(toFailure(r.error))]. *)
Definition orElse {A} (toFailure : Failure -> Failure) (p : Prog Ans (Res A)) : Prog Ans (Res A) :=
  bind p (fun r => Ret (mapError r toFailure)).

(** [if (!b) return err(e)]. *)
Definition require (b : bool) (e : Failure) : Prog Ans (Res unit) := Ret (if b then Ok tt else Err e).

(** A synchronous step. *)
Definition pure_ {A} (r : Res A) : Prog Ans (Res A) := Ret r.
End Steps.

(** [date.getTime()] as a number: [NaN] for an invalid date. *)
Definition timeNumber (d : Date) : num :=
  match d with DateAt t => Int t | InvalidDate => NonInt "NaN" end.

Definition operationIs (work : WorkContext) (operation : string) : bool :=
  bool_decide ((snapshot work).(w_operation) = js operation).

Definition orNullText (o : option jstring) : JsValue :=
  match o with Some s => VStr s | None => VNull end.

(** [array.find(p) ?? null], [record === null || record.organizationId !== id]. *)
Definition foundOr {A} (missing : Failure) (belongs : A -> bool) (found : option A) : Res A :=
  match found with
  | Some x => if belongs x then Ok x else Err missing
  | None => Err missing
  end.

(** A sample work of the given operation. *)
Definition sample_operation (operation : string) : WorkContext :=
  let w := sample_work in
  mkContext (mkWork w.(w_workId) w.(w_correlationId) w.(w_correlationSource) w.(w_causation) w.(w_origin)
    (js operation) w.(w_attribution) w.(w_depth) w.(w_replay)).
