(* ===== verification/Aggregates.v ===== *)
(** * Versioned aggregates and the stores that keep them.

    Every module persists its aggregates the same way: a new aggregate is
    [UNSAVED], a write stores its [saved] version, and a write prepared from a
    read is accepted only while the store still holds the version it read.
    This file states that interface once ([Aggregate]) and derives what it gives
    to the stores of all modules: an accepted write extends the stored
    aggregate by one change, and whatever a command once read is still there,
    maybe changed since. *)
From stdpp Require Import relations.
From S2P Require Import Prelude JsMap Ids.

(** What an aggregate of the domain promises to its store. *)
Class Aggregate (A : Type) : Type := {
  agg_id : A -> ID;
  agg_version : A -> Z;
  agg_saved : A -> A;
  (** [agg_new a]: a creation of the domain returns [a]. *)
  agg_new : A -> Prop;
  (** [agg_change a b]: an operation of the domain on [a] returns [b]. *)
  agg_change : A -> A -> Prop;
  agg_saved_id a : agg_id (agg_saved a) = agg_id a;
  agg_saved_version a : agg_version (agg_saved a) = agg_version a + 1;
  agg_new_version a : agg_new a -> agg_version a = UNSAVED;
  agg_change_id a b : agg_change a b -> agg_id b = agg_id a;
  agg_change_version a b : agg_change a b -> agg_version b = agg_version a
}.

Section Aggregates.
  Context {A : Type} `{Aggregate A}.

(** A [Map] from identifiers to aggregates. *)
Definition Store : Type := list (ID * A).

Definition holds (s : Store) (id : ID) (a : A) : Prop := JsMap.get id s = Some a.

(** Writing what the domain returned. *)
Definition write (a : A) (s : Store) : Store := JsMap.set (agg_id a) (agg_saved a) s.

(** Aggregates are stored under their own identifiers. *)
Definition keyed (s : Store) : Prop := JsMap.wf s /\ forall id a, holds s id a -> agg_id a = id.

(** One committed change, and the aggregates that start with a creation. *)
Definition evo (a b : A) : Prop := exists c, agg_change a c /\ b = agg_saved c.
Definition born (b : A) : Prop := exists a, agg_new a /\ rtc evo (agg_saved a) b.

(** No aggregate is lost, each goes through a chain of changes, and what is new
    was created. *)
Record evolves (s s' : Store) : Prop := mkEvolves {
  ev_chain : forall id a, holds s id a -> exists b, holds s' id b /\ rtc evo a b;
  ev_born : forall id b, holds s' id b -> (exists a, holds s id a) \/ born b
}.

(** An aggregate that was read from the store: it is still there, maybe
    changed since. *)
Definition seen (s : Store) (a : A) : Prop := exists b, holds s (agg_id a) b /\ rtc evo a b.

(** The number of committed writes the store records. *)
Definition writes (s : Store) : Z := foldr (fun e n => agg_version e.2 + n) 0 s.

Lemma evo_stable a b :
  rtc evo a b ->
  agg_id b = agg_id a /\ agg_version a <= agg_version b /\ (agg_version b = agg_version a -> b = a).
Proof.
  induction 1 as [a|a b c (b' & Hb & ->) _ IH]; [done|].
  rewrite agg_saved_id, agg_saved_version in IH. pose proof (agg_change_id _ _ Hb). pose proof (agg_change_version _ _ Hb).
  destruct IH as (? & ? & ?). split_and!; [congruence|lia|lia].
Qed.

Lemma born_version b : born b -> 1 <= agg_version b.
Proof.
  intros (a & Ha & (_ & Hv & _)%evo_stable). rewrite agg_saved_version, (agg_new_version _ Ha) in Hv. unfold UNSAVED in Hv. lia.
Qed.

Lemma evolves_refl s : evolves s s.
Proof. split; eauto using rtc_refl. Qed.

Lemma evolves_trans s1 s2 s3 : evolves s1 s2 -> evolves s2 s3 -> evolves s1 s3.
Proof.
  intros [C1 B1] [C2 B2]. split.
  - intros id a Ha. destruct (C1 _ _ Ha) as (b & Hb & Hab). destruct (C2 _ _ Hb) as (c & Hc & Hbc).
    exists c. split; [done|]. by transitivity b.
  - intros id c Hc. destruct (B2 _ _ Hc) as [[b Hb]|?]; [|by right].
    destruct (B1 _ _ Hb) as [?|(a & Ha & Hab)]; [by left|right].
    destruct (C2 _ _ Hb) as (c' & Hc' & Hbc). unfold holds in *. rewrite Hc in Hc'. injection Hc' as <-.
    exists a. split; [done|]. by transitivity b.
Qed.

Lemma seen_evolves s s' a : evolves s s' -> seen s a -> seen s' a.
Proof.
  intros Hev (b & Hb & Hab). destruct (ev_chain _ _ Hev _ _ Hb) as (c & Hc & Hbc). exists c. split; [done|]. by transitivity b.
Qed.

Lemma holds_seen s id a : keyed s -> holds s id a -> seen s a.
Proof. intros [_ Hk] Ha. exists a. rewrite (Hk _ _ Ha). split; [done|apply rtc_refl]. Qed.

Lemma holds_id s id a : keyed s -> holds s id a -> agg_id a = id.
Proof. intros [_ Hk]. apply Hk. Qed.

Lemma keyed_values s a : keyed s -> a ∈ JsMap.values s <-> holds s (agg_id a) a.
Proof.
  intros [Hw Hk]. rewrite JsMap.elem_values by done. split; [|eauto].
  intros [id Hid]. by rewrite (Hk _ _ Hid).
Qed.

Lemma keyed_nil : keyed [].
Proof. split; [apply NoDup_nil_2|done]. Qed.

Lemma holds_write a s id b :
  holds (write a s) id b <-> (id = agg_id a /\ b = agg_saved a) \/ (id <> agg_id a /\ holds s id b).
Proof. unfold holds, write. rewrite JsMap.get_set. destruct (decide _); naive_solver. Qed.

Lemma keyed_write a s : keyed s -> keyed (write a s).
Proof.
  intros [Hw Hk]. split; [by apply JsMap.wf_set|].
  intros id b [[-> ->]|[_ Hb]]%holds_write; [apply agg_saved_id|by apply Hk].
Qed.

Lemma writes_write a s :
  writes (write a s) = writes s + agg_version a + 1 - from_option agg_version 0 (JsMap.get (agg_id a) s).
Proof.
  unfold writes, write. rewrite <- Z.add_assoc, <- (agg_saved_version a).
  generalize (agg_saved a) as b, (agg_id a) as id. intros b id.
  induction s as [|[id' b'] s IH]; cbn; [lia|]. destruct (decide (id = id')); cbn; [lia|]. rewrite IH. lia.
Qed.

(** An accepted creation. *)
Lemma write_new a s :
  agg_new a -> JsMap.get (agg_id a) s = None ->
  evolves s (write a s) /\ writes (write a s) = writes s + 1.
Proof.
  intros Ha Hnone. split.
  - split.
    + intros id b Hb. exists b. split; [|apply rtc_refl]. apply holds_write. right. split; [|done].
      intros ->. unfold holds in Hb. congruence.
    + intros id b [[-> ->]|[_ Hb]]%holds_write; [right; exists a; split; [done|apply rtc_refl]|left; eauto].
  - rewrite writes_write, Hnone, (agg_new_version _ Ha). unfold UNSAVED. cbn. lia.
Qed.

(** An accepted update: the version check makes it a change of exactly what is
    stored. *)
Lemma write_change a c p s :
  seen s a -> agg_change a c -> holds s (agg_id c) p -> agg_version p = agg_version c ->
  p = a /\ evolves s (write c s) /\ writes (write c s) = writes s + 1.
Proof.
  intros (b & Hb & Hab) Hc Hp Hv. pose proof (agg_change_id _ _ Hc) as Hid. pose proof (agg_change_version _ _ Hc) as Hvc.
  unfold holds in *. rewrite Hid, Hb in Hp. injection Hp as ->.
  assert (p = a) as -> by (apply evo_stable in Hab as (_ & _ & Heq); apply Heq; congruence).
  split; [done|]. split.
  - split.
    + intros id x Hx. destruct (decide (id = agg_id c)) as [->|Hne].
      * exists (agg_saved c). split; [apply holds_write; by left|]. unfold holds in Hx. rewrite Hid, Hb in Hx.
        injection Hx as <-. apply rtc_once. by exists c.
      * exists x. split; [apply holds_write; by right|apply rtc_refl].
    + intros id x [[-> ->]|[_ Hx]]%holds_write; left; [rewrite Hid; eauto|eauto].
  - rewrite writes_write, Hid, Hb, Hvc. cbn. lia.
Qed.
End Aggregates.
Arguments Store A : clear implicits.
#[global] Hint Resolve evolves_refl keyed_nil : n2f.
