(* ===== verification/Writers.v ===== *)
(** * Writers: guard, write, publish, and take the write back.

    Every in-memory writer commits the same way: it checks that the events of
    the change belong to the work that makes it, guards the write against the
    store, writes, publishes the events one by one, and takes the write back
    when a publication fails.  [commitWith] is that scheme over any store, and
    [commits] a call of it from a command: the world is the store and the events
    published so far. *)
From S2P Require Import Prelude Errors Provenance Events.

(** [for (const event of events) assertEventWork(event, work)]. *)
Fixpoint assertAll (events : list Events.Envelope) (work : WorkContext) : Res unit :=
  match events with
  | [] => Ok tt
  | event :: rest => _ ← Events.assertEventWork event work; assertAll rest work
  end.

(** The loop that publishes, stopping at the first failure; [bus] is what the
    event bus answers to each event. *)
Fixpoint publishAll (bus : Events.Envelope -> Res unit) (events : list Events.Envelope)
    : list Events.Envelope * Res unit :=
  match events with
  | [] => ([], Ok tt)
  | event :: rest =>
      match bus event with
      | Err f => ([], Err f)
      | Ok _ => let '(sent, r) := publishAll bus rest in (event :: sent, r)
      end
  end.

Lemma publishAll_ok bus events sent : publishAll bus events = (sent, Ok tt) -> sent = events.
Proof.
  revert sent. induction events as [|e es IH]; intros sent; cbn; [by intros [= <-]|].
  destruct (bus e); [|done]. destruct (publishAll bus es) as [sent' r]. intros [= <- ->]. f_equal. by apply IH.
Qed.

(** The stored data and the events published. *)
Record World (S : Type) : Type := mkWorld { stores : S; published : list Events.Envelope }.
Arguments mkWorld {S}.
Arguments stores {S}.
Arguments published {S}.

Section Writers.
  Context {S : Type}.

(** What a commit leaves, the events it published, and its result. *)
Definition Outcome : Type := S * list Events.Envelope * Res unit.

(** Write, publish, and take the write back when a publication fails: a commit
    during whose publications nothing else runs. *)
Definition commitWith {P} (guarded : Res P) (written : P -> S) (undo : P -> S -> S)
    (events : list Events.Envelope) (bus : Events.Envelope -> Res unit) (s : S) : Outcome :=
  match guarded with
  | Err f => (s, [], Err f)
  | Ok previous =>
      match publishAll bus events with
      | (sent, Ok _) => (written previous, sent, Ok tt)
      | (sent, Err f) => (undo previous (written previous), sent, Err f)
      end
  end.

(** A commit whose undo really undoes its write either makes the write with all
    its events, or leaves the store as it was, iteration order included. *)
Lemma commitWith_cases {P} (guarded : Res P) written undo events bus s :
  (forall previous, guarded = Ok previous -> undo previous (written previous) = s) ->
  match commitWith guarded written undo events bus s with
  | (s', sent, Ok _) => exists previous, guarded = Ok previous /\ s' = written previous /\ sent = events
  | (s', _, Err f) => s' = s /\ (guarded = Err f \/ exists sent, publishAll bus events = (sent, Err f))
  end.
Proof.
  intros Hundo. unfold commitWith. destruct guarded as [previous|f]; [|by auto].
  destruct (publishAll bus events) as [sent [[]|f]] eqn:Ep; [|split; [by apply Hundo|eauto]].
  exists previous. split_and!; try done. by eapply publishAll_ok.
Qed.

(** The failures an unreliable dependency (a reader, an id generator, the event
    bus) may report. *)
Context (outage : Failure -> Prop).

(** A read that may fail. *)
Definition answers {A} (v : A) (r : Res A) : Prop :=
  match r with Ok x => x = v | Err f => outage f end.

(** A commit under some behaviour of the event bus. *)
Definition commits (commit : (Events.Envelope -> Res unit) -> S -> Outcome) (w : World S) (r : Res unit) (w' : World S) : Prop :=
  exists bus sent, (forall e f, bus e = Err f -> outage f)
    /\ commit bus w.(stores) = (w'.(stores), sent, r) /\ w'.(published) = w.(published) ++ sent.

(** A commit writes everything and publishes everything, or writes nothing. *)
Definition done_or_nothing (w : World S) (r : Res unit) (w' : World S) (ok : World S -> Prop) : Prop :=
  (r = Ok tt /\ ok w') \/ (exists f sent, r = Err f /\ w' = mkWorld w.(stores) (w.(published) ++ sent)).

Lemma commits_cases {P} (guarded : Res P) written undo events w r w' :
  (forall previous, guarded = Ok previous -> undo previous (written previous) = w.(stores)) ->
  commits (commitWith guarded written undo events) w r w' ->
  done_or_nothing w r w' (fun w' => exists previous, guarded = Ok previous
    /\ w' = mkWorld (written previous) (w.(published) ++ events)).
Proof.
  intros Hundo (bus & sent & _ & Hc & Hp). pose proof (commitWith_cases guarded written undo events bus _ Hundo) as Hcase.
  rewrite Hc in Hcase. destruct w' as [s' p']. cbn in *. subst p'. destruct r as [[]|f].
  - destruct Hcase as (previous & Hg & -> & ->). left. eauto.
  - destruct Hcase as [-> _]. right. eauto.
Qed.
End Writers.
Arguments Outcome : clear implicits.
