(* ===== verification/IdentityStore.v ===== *)
(** * The stores of the identity module: [modules/identity/infra/in-memory].

    One object keeps identities, credentials with their password hashes,
    verification challenges and sessions.  [IdentityFailures] is the module's
    failure vocabulary, [IdentityStore] the store, its readers, its six writers
    and the pruner.  Each writer guards its write, writes, publishes the events
    of the change, and restores every entry it wrote when a publication fails. *)
From stdpp Require Import relations.
From S2P Require Import Prelude JsMap Errors Ids CaseFolding Provenance Events Commands Aggregates Writers IdentityDomain.

Module IdentityFailures.

(** @src src/modules/identity/app/failures.ts:74-144 knownFailure *)
Definition knownTypes : list (string * Kind) :=
  [("identity.already_exists", conflict); ("identity.email_taken", conflict);
   ("identity.session_already_exists", conflict); ("identity.challenge_already_exists", conflict);
   ("identity.stale_write", conflict);
   ("identity.password_too_short", Errors.invalid); ("identity.password_too_long", Errors.invalid);
   ("identity.invalid_session_expiry", Errors.invalid); ("identity.invalid_verification_expiry", Errors.invalid);
   ("identity.not_found", not_found); ("identity.verification_not_found", not_found);
   ("identity.session_not_found", not_found);
   ("identity.incomplete_state", unavailable)]%string.

(** @src src/modules/identity/app/failures.ts:146-233 dependencyFailure *)
Definition dependencyFailure (error : Failure) (operation : string) : Failure :=
  Vocabulary.dependencyIn "identity" "Identity" knownTypes error operation.

(** @src src/modules/identity/app/failures.ts:235-247 idGenerationFailure *)
Definition idGenerationFailure (error : Failure) : Failure :=
  Vocabulary.idGenerationIn "identity.id_generation" "Identity ID generation failed" error.

(** @src src/modules/identity/infra/failures.ts:4-7 staleWrite *)
Definition staleWrite : Failure :=
  fail_with conflict "record was changed by a concurrent operation" "identity.stale_write".
(** @src src/modules/identity/infra/failures.ts:9-12 emailTaken *)
Definition emailTaken : Failure := fail_with conflict "email is already registered" "identity.email_taken".
(** @src src/modules/identity/infra/failures.ts:14-17 alreadyExists *)
Definition alreadyExists : Failure := fail_with conflict "identity already exists" "identity.already_exists".
(** @src src/modules/identity/infra/failures.ts:19-22 challengeExists *)
Definition challengeExists : Failure :=
  fail_with conflict "verification challenge already exists" "identity.challenge_already_exists".
(** @src src/modules/identity/infra/failures.ts:24-27 sessionExists *)
Definition sessionExists : Failure := fail_with conflict "session already exists" "identity.session_already_exists".
(** @src src/modules/identity/infra/in-memory/adapters.ts:48-49 sessionNotFound *)
Definition sessionNotFound : Failure := fail_with not_found "session was not found" "identity.session_not_found".
(** @src src/modules/identity/infra/in-memory/adapters.ts:248-252 commit *)
Definition identityNotFound : Failure := fail_with not_found "identity was not found" "identity.not_found".
(** @src src/modules/identity/infra/in-memory/adapters.ts:253-258 commit *)
Definition verificationNotFound : Failure :=
  fail_with not_found "verification challenge was not found" "identity.verification_not_found".
(** @src src/modules/identity/infra/in-memory/adapters.ts:166-172 findByEmail *)
Definition incompleteState : Failure :=
  fail_with unavailable "identity credential state is incomplete" "identity.incomplete_state".
End IdentityFailures.

Module IdentityStore.
Import IdentityFailures.
Import (hints) Identity Session Challenge Credential.
Import Identity(Identity, i_id, i_status, i_verifiedAt, i_version).
Import Session(Session, s_id, s_identityId, s_createdAt, s_expiresAt, s_lastSeenAt, s_revokedAt, s_version).
Import Challenge(Challenge, v_id, v_identityId, v_purpose, v_version).
Import Credential(Credential, c_id, c_identityId, c_email, c_status, c_updatedAt).

(** ** The store. *)

(** @src src/modules/identity/infra/in-memory/store.ts:12-15 StoredSession *)
Record StoredSession : Type := mkStoredSession { ss_session : Session; ss_tokenDigest : jstring }.

(** @src src/modules/identity/infra/in-memory/store.ts:17-20 StoredVerificationChallenge *)
Record StoredChallenge : Type := mkStoredChallenge { sc_challenge : Challenge; sc_tokenDigest : jstring }.

(** @src src/modules/identity/infra/in-memory/store.ts:22-39 InMemoryIdentityStore
    The array [events] holds the events whose dispatch succeeded: a commit
    removes the one it pushed when the dispatch fails.  It is the [published]
    of the world ([Writers]). *)
Record Stores : Type := mkStores {
  identities : list (ID * Identity);
  credentials : list (ID * Credential);
  passwordHashes : list (ID * jstring);
  challenges : list (ID * StoredChallenge);
  sessions : list (ID * StoredSession)
}.

Definition emptyStores : Stores := mkStores [] [] [] [] [].

(** ** The readers. *)

(** [a.getTime() === b.getTime()]: false when either is [NaN]. *)
Definition sameTime (a b : Date) : bool :=
  match a, b with DateAt x, DateAt y => x =? y | _, _ => false end.

(** @src src/modules/identity/app/ports/credential-authenticator-reader.ts:7-11 CredentialAuthenticationRecord *)
Record AuthenticationRecord : Type := mkRecord {
  ar_identity : Identity; ar_credential : Credential; ar_passwordHash : jstring
}.

(** @src src/modules/identity/infra/in-memory/adapters.ts:156-176 InMemoryCredentialAuthenticatorReader.findByEmail *)
Definition findByEmail (email : jstring) (s : Stores) : Res (option AuthenticationRecord) :=
  match find_first (fun candidate => bool_decide (candidate.(c_email) = email)) (JsMap.values s.(credentials)) with
  | None => Ok None
  | Some credential =>
      match JsMap.get credential.(c_identityId) s.(identities), JsMap.get credential.(c_id) s.(passwordHashes) with
      | Some ident, Some passwordHash => Ok (Some (mkRecord ident credential passwordHash))
      | _, _ => Err incompleteState
      end
  end.

(** @src src/modules/identity/infra/in-memory/adapters.ts:178-183 InMemoryCredentialAuthenticatorReader.findByIdentity *)
Definition findByIdentity (identityId : ID) (s : Stores) : Res (option AuthenticationRecord) :=
  match find_first (fun candidate => bool_decide (candidate.(c_identityId) = identityId)
                      && bool_decide (candidate.(c_status) = Credential.active)) (JsMap.values s.(credentials)) with
  | Some credential => findByEmail credential.(c_email) s
  | None => Ok None
  end.

(** @src src/modules/identity/infra/in-memory/adapters.ts:146-148 InMemoryIdentityReader.find *)
Definition findIdentity (identityId : ID) (s : Stores) : option Identity := JsMap.get identityId s.(identities).

(** @src src/modules/identity/app/ports/identity-view-reader.ts:5-9 IdentityView *)
Record IdentityView : Type := mkView { iv_identityId : ID; iv_status : Identity.Status; iv_verifiedAt : option Date }.

(** @src src/modules/identity/infra/in-memory/adapters.ts:189-197 InMemoryIdentityViewReader.findById *)
Definition findView (identityId : ID) (s : Stores) : option IdentityView :=
  match JsMap.get identityId s.(identities) with
  | Some ident => Some (mkView ident.(i_id) ident.(i_status) (copyDateOpt ident.(i_verifiedAt)))
  | None => None
  end.

(** @src src/modules/identity/infra/in-memory/adapters.ts:231-235 InMemoryVerificationChallengeReader.find *)
Definition findChallenge (challengeId : ID) (s : Stores) : option StoredChallenge := JsMap.get challengeId s.(challenges).

(** @src src/modules/identity/infra/in-memory/adapters.ts:332-338 InMemoryCurrentSessionReader.findByToken
    [digestToken] is SHA-256, a library's. *)
Definition findByToken (digestToken : jstring -> jstring) (token : jstring) (s : Stores) : option Session :=
  ss_session <$> find_first (fun candidate => bool_decide (candidate.(ss_tokenDigest) = digestToken token))
                   (JsMap.values s.(sessions)).

(** Newest first, the greater identifier first. *)
Definition newerFirst (a b : Session) : Z :=
  let time := getTime b.(s_createdAt) - getTime a.(s_createdAt) in
  if time =? 0 then match jcompare a.(s_id) b.(s_id) with Lt => 1 | Gt => -1 | Eq => 0 end else time.

Definition activeOf (identityId : ID) (session : Session) : bool :=
  bool_decide (session.(s_identityId) = identityId) && bool_decide (session.(Session.s_status) = Session.active).

(** @src src/modules/identity/infra/in-memory/adapters.ts:385-395 InMemoryActiveSessionReader.listActive *)
Definition listActive (identityId : ID) (s : Stores) : list Session :=
  sort_by newerFirst (filter (fun session => activeOf identityId session = true) (ss_session <$> JsMap.values s.(sessions))).

(** ** The writers. *)

Section Restore.
  Context {V : Type}.

(** @src src/modules/identity/infra/in-memory/adapters.ts:97-105 restorer
    [before] is the map when the restorer was made. *)
Definition restorer (key : ID) (before m : list (ID * V)) : list (ID * V) :=
  match JsMap.get key before with
  | Some previous => JsMap.set key previous m
  | None => JsMap.delete key m
  end.

(** [undo.forEach((step) => step())], for the keys of one map. *)
Definition restoring (ks : list ID) (before m : list (ID * V)) : list (ID * V) :=
  foldl (fun m key => restorer key before m) m ks.
End Restore.

(** @src src/modules/identity/infra/in-memory/adapters.ts:80-83 commitAll
    What both forms of commit check before they write; the writes, publications
    and the undo are [commitWith]. *)
Definition checkEvents (guarded : Res unit) (events : list Events.Envelope) (work : WorkContext) : Res unit :=
  _ ← guarded; assertAll events work.

(** @src src/modules/identity/app/ports/registration-writer.ts:12-19 RegistrationWriter.commit *)
Record RegistrationCommit : Type := mkRegistration {
  rg_identity : Identity; rg_credential : Credential; rg_passwordHash : jstring;
  rg_event : Events.Envelope; rg_work : WorkContext
}.

(** @src src/modules/identity/infra/in-memory/adapters.ts:117-126 InMemoryRegistrationWriter.commit *)
Definition registrationGuard (input : RegistrationCommit) (s : Stores) : Res unit :=
  if JsMap.has input.(rg_identity).(i_id) s.(identities) then Err alreadyExists
  else if existsb (fun credential => bool_decide (credential.(c_email) = input.(rg_credential).(c_email)))
            (JsMap.values s.(credentials)) then Err emailTaken
  else Ok tt.

Definition withRegistration (input : RegistrationCommit) (s : Stores) : Stores :=
  mkStores (JsMap.set input.(rg_identity).(i_id) (Identity.saved input.(rg_identity)) s.(identities))
    (JsMap.set input.(rg_credential).(c_id) input.(rg_credential) s.(credentials))
    (JsMap.set input.(rg_credential).(c_id) input.(rg_passwordHash) s.(passwordHashes))
    s.(challenges) s.(sessions).

(** @src src/modules/identity/infra/in-memory/adapters.ts:130-138 InMemoryRegistrationWriter.commit (undo) *)
Definition undoRegistration (input : RegistrationCommit) (s now : Stores) : Stores :=
  mkStores (restorer input.(rg_identity).(i_id) s.(identities) now.(identities))
    (restorer input.(rg_credential).(c_id) s.(credentials) now.(credentials))
    (restorer input.(rg_credential).(c_id) s.(passwordHashes) now.(passwordHashes))
    now.(challenges) now.(sessions).

(** @src src/modules/identity/infra/in-memory/adapters.ts:110-140 InMemoryRegistrationWriter.commit *)
Definition commitRegistration (input : RegistrationCommit) (bus : Events.Envelope -> Res unit) (s : Stores) : Outcome Stores :=
  commitWith (checkEvents (registrationGuard input s) [input.(rg_event)] input.(rg_work))
    (fun _ => withRegistration input s)
    (fun _ => undoRegistration input s) [input.(rg_event)] bus s.

(** @src src/modules/identity/app/ports/verification-challenge-writer.ts:7-14 VerificationChallengeWriter.commit *)
Record ChallengeCommit : Type := mkChallengeCommit {
  vc_challenge : Challenge; vc_tokenDigest : jstring; vc_event : Events.Envelope; vc_work : WorkContext
}.

Definition withChallenge (c : StoredChallenge) (s : Stores) : Stores :=
  mkStores s.(identities) s.(credentials) s.(passwordHashes)
    (JsMap.set c.(sc_challenge).(v_id) c s.(challenges)) s.(sessions).

Definition undoChallenge (id : ID) (s now : Stores) : Stores :=
  mkStores now.(identities) now.(credentials) now.(passwordHashes) (restorer id s.(challenges) now.(challenges)) now.(sessions).

(** @src src/modules/identity/infra/in-memory/adapters.ts:205-223 InMemoryVerificationChallengeWriter.commit *)
Definition commitChallenge (input : ChallengeCommit) (bus : Events.Envelope -> Res unit) (s : Stores) : Outcome Stores :=
  let id := input.(vc_challenge).(v_id) in
  commitWith
    (checkEvents (if JsMap.has id s.(challenges) then Err challengeExists else Ok tt) [input.(vc_event)] input.(vc_work))
    (fun _ => withChallenge (mkStoredChallenge (Challenge.saved input.(vc_challenge)) input.(vc_tokenDigest)) s)
    (fun _ => undoChallenge id s) [input.(vc_event)] bus s.

(** @src src/modules/identity/app/ports/verification-writer.ts:6-13 VerificationWriter.commit *)
Record VerificationCommit : Type := mkVerification {
  vf_identity : Identity; vf_challenge : Challenge; vf_event : Events.Envelope; vf_work : WorkContext
}.

(** @src src/modules/identity/infra/in-memory/adapters.ts:247-264 InMemoryVerificationWriter.commit
    The value is the stored challenge. *)
Definition verificationGuard (input : VerificationCommit) (s : Stores) : Res StoredChallenge :=
  match JsMap.get input.(vf_identity).(i_id) s.(identities) with
  | None => Err identityNotFound
  | Some ident =>
      match JsMap.get input.(vf_challenge).(v_id) s.(challenges) with
      | None => Err verificationNotFound
      | Some stored =>
          if negb (bool_decide (stored.(sc_challenge).(v_identityId) = input.(vf_identity).(i_id)))
          then Err verificationNotFound
          else if negb (ident.(i_version) =? input.(vf_identity).(i_version))
                  || negb (stored.(sc_challenge).(v_version) =? input.(vf_challenge).(v_version))
          then Err staleWrite
          else Ok stored
      end
  end.

Definition withVerification (ident : Identity) (c : StoredChallenge) (s : Stores) : Stores :=
  mkStores (JsMap.set ident.(i_id) ident s.(identities)) s.(credentials) s.(passwordHashes)
    (JsMap.set c.(sc_challenge).(v_id) c s.(challenges)) s.(sessions).

(** @src src/modules/identity/infra/in-memory/adapters.ts:268-277 InMemoryVerificationWriter.commit (undo) *)
Definition undoVerification (input : VerificationCommit) (s now : Stores) : Stores :=
  mkStores (restorer input.(vf_identity).(i_id) s.(identities) now.(identities)) now.(credentials) now.(passwordHashes)
    (restorer input.(vf_challenge).(v_id) s.(challenges) now.(challenges)) now.(sessions).

(** @src src/modules/identity/infra/in-memory/adapters.ts:241-279 InMemoryVerificationWriter.commit *)
Definition commitVerification (input : VerificationCommit) (bus : Events.Envelope -> Res unit) (s : Stores) : Outcome Stores :=
  commitWith (stored ← verificationGuard input s; _ ← assertAll [input.(vf_event)] input.(vf_work); Ok stored)
    (fun stored => withVerification (Identity.saved input.(vf_identity))
       (mkStoredChallenge (Challenge.saved input.(vf_challenge)) stored.(sc_tokenDigest)) s)
    (fun _ => undoVerification input s) [input.(vf_event)] bus s.

(** @src src/modules/identity/app/ports/session-writer.ts:8-8 SessionEviction *)
Record SessionEviction : Type := mkEviction { ev_session : Session; ev_event : Events.Envelope }.

(** @src src/modules/identity/app/ports/session-writer.ts:18-28 SessionWriter.commit *)
Record SessionCommit : Type := mkSessionCommit {
  sn_session : Session; sn_credential : Credential; sn_tokenDigest : jstring;
  sn_event : Events.Envelope; sn_evicted : list SessionEviction; sn_work : WorkContext
}.

Abbreviation endedIds := (fmap (fun e => e.(ev_session).(s_id))).

(** [!current || current.status !== 'active' || current.updatedAt !== updatedAt]. *)
Definition changedCredential (id : ID) (updatedAt : Date) (s : Stores) : bool :=
  match JsMap.get id s.(credentials) with
  | Some current => negb (bool_decide (current.(c_status) = Credential.active))
                    || negb (sameTime current.(c_updatedAt) updatedAt)
  | None => true
  end.

(** @src src/modules/identity/infra/in-memory/adapters.ts:305-309 InMemorySessionWriter.commit (loop) *)
Fixpoint evictedGuard (evicted : list SessionEviction) (s : Stores) : Res unit :=
  match evicted with
  | [] => Ok tt
  | e :: rest =>
      match JsMap.get e.(ev_session).(s_id) s.(sessions) with
      | None => Err sessionNotFound
      | Some stored =>
          if negb (stored.(ss_session).(s_version) =? e.(ev_session).(s_version)) then Err staleWrite
          else evictedGuard rest s
      end
  end.

(** @src src/modules/identity/infra/in-memory/adapters.ts:293-309 InMemorySessionWriter.commit *)
Definition sessionGuard (input : SessionCommit) (s : Stores) : Res unit :=
  if JsMap.has input.(sn_session).(s_id) s.(sessions) then Err sessionExists
  else if changedCredential input.(sn_credential).(c_id) input.(sn_credential).(c_updatedAt) s then Err staleWrite
  else evictedGuard input.(sn_evicted) s.

(** @src src/modules/identity/infra/in-memory/adapters.ts:316-319 InMemorySessionWriter.commit (loop)
    Store each ended session, with the digest it has; the guards found it stored. *)
Definition endAll (ended : list SessionEviction) (m : list (ID * StoredSession)) : list (ID * StoredSession) :=
  foldl (fun m e =>
    match JsMap.get e.(ev_session).(s_id) m with
    | Some stored => JsMap.set e.(ev_session).(s_id)
                       (mkStoredSession (Session.saved e.(ev_session)) stored.(ss_tokenDigest)) m
    | None => m
    end) m ended.

Definition withSessions (m : list (ID * StoredSession)) (s : Stores) : Stores :=
  mkStores s.(identities) s.(credentials) s.(passwordHashes) s.(challenges) m.

Definition withSession (input : SessionCommit) (s : Stores) : Stores :=
  withSessions
    (JsMap.set input.(sn_session).(s_id) (mkStoredSession (Session.saved input.(sn_session)) input.(sn_tokenDigest))
       (endAll input.(sn_evicted) s.(sessions))) s.

(** [undo.forEach((step) => step())], of sessions. *)
Definition undoSessions (ids : list ID) (s now : Stores) : Stores :=
  withSessions (restoring ids s.(sessions) now.(sessions)) now.

(** @src src/modules/identity/infra/in-memory/adapters.ts:285-326 InMemorySessionWriter.commit *)
Definition commitSession (input : SessionCommit) (bus : Events.Envelope -> Res unit) (s : Stores) : Outcome Stores :=
  let events := (ev_event <$> input.(sn_evicted)) ++ [input.(sn_event)] in
  commitWith (checkEvents (sessionGuard input s) events input.(sn_work))
    (fun _ => withSession input s) (fun _ => undoSessions (input.(sn_session).(s_id) :: endedIds input.(sn_evicted)) s)
    events bus s.

(** @src src/modules/identity/app/ports/session-revocation-writer.ts:6-12 SessionRevocationWriter.commit *)
Record RevocationCommit : Type := mkRevocation {
  rv_session : Session; rv_event : Events.Envelope; rv_work : WorkContext
}.

(** @src src/modules/identity/infra/in-memory/adapters.ts:351-357 InMemorySessionRevocationWriter.commit
    The value is the stored session. *)
Definition revocationGuard (input : RevocationCommit) (s : Stores) : Res StoredSession :=
  match JsMap.get input.(rv_session).(s_id) s.(sessions) with
  | None => Err sessionNotFound
  | Some stored =>
      if negb (stored.(ss_session).(s_version) =? input.(rv_session).(s_version)) then Err staleWrite else Ok stored
  end.

Definition withRevocation (input : RevocationCommit) (stored : StoredSession) (s : Stores) : Stores :=
  withSessions (JsMap.set input.(rv_session).(s_id)
    (mkStoredSession (Session.saved input.(rv_session)) stored.(ss_tokenDigest)) s.(sessions)) s.

(** @src src/modules/identity/infra/in-memory/adapters.ts:346-367 InMemorySessionRevocationWriter.commit *)
Definition commitRevocation (input : RevocationCommit) (bus : Events.Envelope -> Res unit) (s : Stores) : Outcome Stores :=
  let id := input.(rv_session).(s_id) in
  commitWith (stored ← revocationGuard input s; _ ← assertAll [input.(rv_event)] input.(rv_work); Ok stored)
    (fun stored => withRevocation input stored s)
    (fun _ => undoSessions [id] s) [input.(rv_event)] bus s.

(** @src src/modules/identity/infra/in-memory/adapters.ts:373-379 InMemorySessionActivityWriter.record *)
Definition record (sessionId : ID) (at_ : Date) (s : Stores) : Stores :=
  match JsMap.get sessionId s.(sessions) with
  | Some stored =>
      withSessions (JsMap.set sessionId (mkStoredSession (Session.seen stored.(ss_session) at_) stored.(ss_tokenDigest))
                      s.(sessions)) s
  | None => s
  end.

(** [a !== null && a.getTime() < t.getTime()]. *)
Definition before (a : option Date) (t : Date) : bool :=
  match a with Some d => date_lt d t | None => false end.

(** @src src/modules/identity/infra/in-memory/adapters.ts:408-412 InMemorySessionPruner.prune *)
Definition prunable (endedBefore idleBefore : Date) (session : Session) : bool :=
  before session.(s_revokedAt) endedBefore || date_lt session.(s_expiresAt) endedBefore
  || date_lt session.(s_lastSeenAt) idleBefore.

(** @src src/modules/identity/infra/in-memory/adapters.ts:406-416 InMemorySessionPruner.prune (loop)
    The loop over the entries; deleting the current entry of a [Map] does not
    disturb its iteration. *)
Fixpoint pruneLoop (endedBefore idleBefore : Date) (limit : Z) (entries : list (ID * StoredSession)) (pruned : Z)
    (m : list (ID * StoredSession)) : Z * list (ID * StoredSession) :=
  match entries with
  | [] => (pruned, m)
  | (id, stored) :: rest =>
      if limit <=? pruned then (pruned, m)
      else if prunable endedBefore idleBefore stored.(ss_session)
      then pruneLoop endedBefore idleBefore limit rest (pruned + 1) (JsMap.delete id m)
      else pruneLoop endedBefore idleBefore limit rest pruned m
  end.

(** @src src/modules/identity/infra/in-memory/adapters.ts:401-418 InMemorySessionPruner.prune *)
Definition prune (endedBefore idleBefore : Date) (limit : Z) (s : Stores) : Z * Stores :=
  let '(pruned, m) := pruneLoop endedBefore idleBefore limit s.(sessions) 0 s.(sessions) in
  (pruned, withSessions m s).

(** @src src/modules/identity/app/ports/password-reset-writer.ts:16-28 PasswordResetWriter.commit *)
Record ResetCommit : Type := mkReset {
  rs_challenge : Challenge; rs_credential : Credential; rs_previousUpdatedAt : Date; rs_passwordHash : jstring;
  rs_identity : option Identity; rs_revoked : list SessionEviction; rs_events : list Events.Envelope;
  rs_work : WorkContext
}.

(** [sessions.get(session.id)?.session.version !== session.version]. *)
Definition staleSession (session : Session) (s : Stores) : bool :=
  match JsMap.get session.(s_id) s.(sessions) with
  | Some stored => negb (stored.(ss_session).(s_version) =? session.(s_version))
  | None => true
  end.

(** @src src/modules/identity/infra/in-memory/adapters.ts:458-463 InMemoryPasswordResetWriter.commit (loop)
    An active session of the identity that is not listed. *)
Definition unlisted (input : ResetCommit) (s : Stores) : bool :=
  existsb (fun stored =>
    activeOf input.(rs_credential).(c_identityId) stored.(ss_session)
    && negb (bool_decide (stored.(ss_session).(s_id) ∈ endedIds input.(rs_revoked))))
    (JsMap.values s.(sessions)).

(** @src src/modules/identity/infra/in-memory/adapters.ts:434-463 InMemoryPasswordResetWriter.commit
    The value is the stored challenge. *)
Definition resetGuard (input : ResetCommit) (s : Stores) : Res StoredChallenge :=
  if changedCredential input.(rs_credential).(c_id) input.(rs_previousUpdatedAt) s then Err staleWrite
  else
    match JsMap.get input.(rs_challenge).(v_id) s.(challenges) with
    | None => Err verificationNotFound
    | Some stored =>
        if negb (bool_decide (stored.(sc_challenge).(v_purpose) = Challenge.password_reset)) then Err verificationNotFound
        else if negb (stored.(sc_challenge).(v_version) =? input.(rs_challenge).(v_version)) then Err staleWrite
        else
          _ ← match input.(rs_identity) with
              | None => Ok tt
              | Some ident =>
                  match JsMap.get ident.(i_id) s.(identities) with
                  | None => Err identityNotFound
                  | Some current => if negb (current.(i_version) =? ident.(i_version)) then Err staleWrite else Ok tt
                  end
              end;
          if existsb (fun e => staleSession e.(ev_session) s) input.(rs_revoked) || unlisted input s then Err staleWrite
          else Ok stored
    end.

Definition withReset (input : ResetCommit) (stored : StoredChallenge) (s : Stores) : Stores :=
  mkStores
    (match input.(rs_identity) with
     | Some ident => JsMap.set ident.(i_id) (Identity.saved ident) s.(identities)
     | None => s.(identities)
     end)
    (JsMap.set input.(rs_credential).(c_id) input.(rs_credential) s.(credentials))
    (JsMap.set input.(rs_credential).(c_id) input.(rs_passwordHash) s.(passwordHashes))
    (JsMap.set input.(rs_challenge).(v_id)
       (mkStoredChallenge (Challenge.saved input.(rs_challenge)) stored.(sc_tokenDigest)) s.(challenges))
    (endAll input.(rs_revoked) s.(sessions)).

(** @src src/modules/identity/infra/in-memory/adapters.ts:466-481 InMemoryPasswordResetWriter.commit (undo) *)
Definition undoReset (input : ResetCommit) (s now : Stores) : Stores :=
  mkStores
    (match input.(rs_identity) with
     | Some ident => restorer ident.(i_id) s.(identities) now.(identities)
     | None => now.(identities)
     end)
    (restorer input.(rs_credential).(c_id) s.(credentials) now.(credentials))
    (restorer input.(rs_credential).(c_id) s.(passwordHashes) now.(passwordHashes))
    (restorer input.(rs_challenge).(v_id) s.(challenges) now.(challenges))
    (restoring (endedIds input.(rs_revoked)) s.(sessions) now.(sessions)).

(** @src src/modules/identity/infra/in-memory/adapters.ts:424-483 InMemoryPasswordResetWriter.commit *)
Definition commitReset (input : ResetCommit) (bus : Events.Envelope -> Res unit) (s : Stores) : Outcome Stores :=
  commitWith (stored ← resetGuard input s; _ ← assertAll input.(rs_events) input.(rs_work); Ok stored)
    (fun stored => withReset input stored s)
    (fun _ => undoReset input s) input.(rs_events) bus s.

(** ** The store's maps. *)

(** Records are stored under their own identifiers. *)
Definition keyedBy {V} (key : V -> ID) (m : list (ID * V)) : Prop :=
  JsMap.wf m /\ forall id v, JsMap.get id m = Some v -> key v = id.

Lemma keyedBy_nil {V} (key : V -> ID) : keyedBy key [].
Proof. split; [apply NoDup_nil_2|done]. Qed.

Lemma keyedBy_set {V} (key : V -> ID) m v : keyedBy key m -> keyedBy key (JsMap.set (key v) v m).
Proof.
  intros [Hw Hk]. split; [by apply JsMap.wf_set|]. intros id u. rewrite JsMap.get_set.
  destruct (decide (key v = id)) as [<-|]; [by intros [= <-]|apply Hk].
Qed.

Lemma keyedBy_values {V} (key : V -> ID) m v : keyedBy key m -> v ∈ JsMap.values m <-> JsMap.get (key v) m = Some v.
Proof.
  intros [Hw Hk]. rewrite JsMap.elem_values by done. split; [|eauto]. intros [id Hid]. by rewrite (Hk _ _ Hid).
Qed.

(** Restoring what a write changed. *)
Lemma restorer_set {V} k (v : V) m : restorer k m (JsMap.set k v m) = m.
Proof.
  unfold restorer. destruct (JsMap.get k m) as [p|] eqn:E; [by apply JsMap.set_undo|by apply JsMap.delete_undo].
Qed.

Lemma restorer_get {V} k (before m : list (ID * V)) k' :
  JsMap.get k' (restorer k before m) = if decide (k = k') then JsMap.get k before else JsMap.get k' m.
Proof.
  unfold restorer. destruct (JsMap.get k before) as [p|] eqn:E; [rewrite JsMap.get_set; by destruct (decide _)|].
  destruct (decide (k = k')) as [->|Hne]; [apply JsMap.get_delete_eq|by apply JsMap.get_delete_ne].
Qed.

(** When the writes kept the keys and changed listed entries only, restoring
    the listed keys restores the map. *)
Lemma restoring_all {V} ks (before m : list (ID * V)) :
  JsMap.wf before -> JsMap.keys m = JsMap.keys before -> Forall (fun k => JsMap.get k before <> None) ks ->
  (forall k, k ∉ ks -> JsMap.get k m = JsMap.get k before) -> restoring ks before m = before.
Proof.
  intros Hw. revert m. induction ks as [|k ks IH]; cbn; intros m Hk Hin Heq.
  - symmetry. apply JsMap.map_ext; [done..|]. intros k. symmetry. apply Heq. apply not_elem_of_nil.
  - apply Forall_cons in Hin as [Hk0 Hin]. apply IH; [|done|].
    + unfold restorer. destruct (JsMap.get k before) as [p|] eqn:E; [|done].
      rewrite JsMap.keys_set_Some; [done|]. intros Hn%JsMap.get_None. rewrite Hk in Hn. apply Hn. by apply JsMap.get_keys in E.
    + intros k' Hk'. rewrite restorer_get. destruct (decide (k = k')) as [->|Hne]; [done|].
      apply Heq. by apply not_elem_of_cons.
Qed.

Lemma endAll_cons e ended m :
  endAll (e :: ended) m = endAll ended
    match JsMap.get e.(ev_session).(s_id) m with
    | Some stored => JsMap.set e.(ev_session).(s_id) (mkStoredSession (Session.saved e.(ev_session)) stored.(ss_tokenDigest)) m
    | None => m
    end.
Proof. reflexivity. Qed.

Lemma endAll_get ended m id :
  id ∉ endedIds ended -> JsMap.get id (endAll ended m) = JsMap.get id m.
Proof.
  revert m. induction ended as [|e ended IH]; intros m Hid; [done|].
  cbn in Hid. apply not_elem_of_cons in Hid as [Hne Hid]. rewrite endAll_cons, IH by done.
  destruct (JsMap.get _ m); [|done]. by apply JsMap.get_set_ne.
Qed.

Lemma endAll_keys ended m : JsMap.keys (endAll ended m) = JsMap.keys m.
Proof.
  revert m. induction ended as [|e ended IH]; intros m; [done|]. rewrite endAll_cons, IH.
  destruct (JsMap.get _ m) eqn:E; [|done]. by rewrite JsMap.keys_set_Some by (by rewrite E).
Qed.

(** What is stored after ending sessions: an ended session, or what was there. *)
Lemma endAll_cases ended m id stored :
  JsMap.get id (endAll ended m) = Some stored ->
  (JsMap.get id m = Some stored /\ id ∉ endedIds ended)
  \/ (exists e old, e ∈ ended /\ e.(ev_session).(s_id) = id /\ JsMap.get id m = Some old
        /\ stored = mkStoredSession (Session.saved e.(ev_session)) old.(ss_tokenDigest)).
Proof.
  revert m. induction ended as [|e ended IH]; intros m; [by left; split; [|apply not_elem_of_nil]|].
  rewrite endAll_cons. intros H. apply IH in H. clear IH.
  destruct (JsMap.get (s_id (ev_session e)) m) as [st|] eqn:E.
  - destruct (decide (s_id (ev_session e) = id)) as [<-|Hne].
    + destruct H as [[Hm Hn]|(e' & old & He & Hid & Hm & ->)]; rewrite JsMap.get_set_eq in Hm; injection Hm as <-; right.
      * exists e, st. split_and!; try done. by left.
      * exists e', st. split_and!; try done. by right.
    + destruct H as [[Hm Hn]|(e' & old & He & Hid & Hm & ->)]; rewrite JsMap.get_set_ne in Hm by done.
      * left. split; [done|]. apply not_elem_of_cons. by split.
      * right. exists e', old. split_and!; try done. by right.
  - destruct H as [[Hm Hn]|(e' & old & He & Hid & Hm & ->)].
    + left. split; [done|]. apply not_elem_of_cons. split; [|done]. intros ->. by rewrite E in Hm.
    + right. exists e', old. split_and!; try done. by right.
Qed.

(** ** What the guards leave. *)

Lemma checkEvents_ok r events work : checkEvents r events work = Ok tt -> r = Ok tt /\ assertAll events work = Ok tt.
Proof. unfold checkEvents. destruct r as [[]|]; [done|done]. Qed.

Lemma evictedGuard_ok evicted s :
  evictedGuard evicted s = Ok tt ->
  forall e, e ∈ evicted -> exists stored, JsMap.get e.(ev_session).(s_id) s.(sessions) = Some stored
    /\ stored.(ss_session).(s_version) = e.(ev_session).(s_version).
Proof.
  induction evicted as [|e0 evicted IH]; cbn; [by intros _ e ?%elem_of_nil|].
  destruct (JsMap.get _ _) as [stored|] eqn:E; [|done]. destruct (_ =? _) eqn:Ev; cbn; [|done]. breflect.
  intros H e [->|He]%elem_of_cons; [eauto|by apply IH].
Qed.

Lemma changedCredential_false id updatedAt s :
  changedCredential id updatedAt s = false ->
  exists c, JsMap.get id s.(credentials) = Some c /\ c.(c_status) = Credential.active
    /\ exists t, c.(c_updatedAt) = DateAt t /\ updatedAt = DateAt t.
Proof.
  unfold changedCredential. destruct (JsMap.get id _) as [c|]; [|done]. intros H. breflect.
  exists c. split; [done|]. split; [by apply bool_decide_eq_true in H|].
  unfold sameTime in H0. destruct (c_updatedAt c), updatedAt; try done. breflect. subst. eauto.
Qed.

Lemma registrationGuard_ok input s :
  registrationGuard input s = Ok tt ->
  JsMap.get input.(rg_identity).(i_id) s.(identities) = None
  /\ (forall c, c ∈ JsMap.values s.(credentials) -> c.(c_email) <> input.(rg_credential).(c_email)).
Proof.
  unfold registrationGuard, JsMap.has. destruct (JsMap.get _ _); [done|]. destruct (existsb _ _) eqn:E; [done|].
  intros _. split; [done|]. intros c Hc Heq. apply not_true_iff_false in E. apply E, existsb_exists. exists c.
  split; [by apply list_elem_of_In|by apply bool_decide_eq_true].
Qed.

Lemma resetGuard_ok input s stored :
  resetGuard input s = Ok stored ->
  (exists c t, JsMap.get input.(rs_credential).(c_id) s.(credentials) = Some c /\ c.(c_status) = Credential.active
     /\ c.(c_updatedAt) = DateAt t /\ input.(rs_previousUpdatedAt) = DateAt t)
  /\ JsMap.get input.(rs_challenge).(v_id) s.(challenges) = Some stored
  /\ stored.(sc_challenge).(v_purpose) = Challenge.password_reset
  /\ stored.(sc_challenge).(v_version) = input.(rs_challenge).(v_version)
  /\ (forall ident, input.(rs_identity) = Some ident -> exists current,
        JsMap.get ident.(i_id) s.(identities) = Some current /\ current.(i_version) = ident.(i_version))
  /\ (forall e, e ∈ input.(rs_revoked) -> exists st, JsMap.get e.(ev_session).(s_id) s.(sessions) = Some st
        /\ st.(ss_session).(s_version) = e.(ev_session).(s_version))
  /\ (forall st, st ∈ JsMap.values s.(sessions) -> activeOf input.(rs_credential).(c_identityId) st.(ss_session) = true ->
        st.(ss_session).(s_id) ∈ endedIds input.(rs_revoked)).
Proof.
  unfold resetGuard. destruct (changedCredential _ _ _) eqn:Ec; [done|].
  destruct (JsMap.get (v_id _) _) as [c|] eqn:Es; [|done].
  destruct (bool_decide_reflect (v_purpose (sc_challenge c) = Challenge.password_reset)) as [Hp|]; cbn [negb]; [|done].
  destruct (_ =? _) eqn:Ev; cbn [negb]; [|done]. intros (u & Hi & H)%bind_ok.
  destruct (_ || _) eqn:Eo; [done|]. injection H as ->. apply orb_false_iff in Eo as [Er Eu]. breflect.
  apply changedCredential_false in Ec as (cr & Hcr & Hact & t & Ht & Hpt).
  split_and!; [by exists cr, t|done|done|done| | |].
  - intros ident Hid. rewrite Hid in Hi. destruct (JsMap.get (i_id ident) _) as [cur|]; [|done].
    destruct (_ =? _) eqn:E; [|done]. breflect. eauto.
  - intros e He. destruct (staleSession (ev_session e) s) eqn:E.
    + exfalso. apply not_true_iff_false in Er. apply Er, existsb_exists. exists e. split; [by apply list_elem_of_In|done].
    + unfold staleSession in E. destruct (JsMap.get (s_id _) _) as [st|]; [|done]. breflect. eauto.
  - intros st Hst Hact'. apply not_true_iff_false in Eu. destruct (decide (s_id (ss_session st) ∈ endedIds (rs_revoked input))); [done|].
    exfalso. apply Eu, existsb_exists. exists st. split; [by apply list_elem_of_In|]. rewrite Hact'. cbn. by rewrite bool_decide_false.
Qed.

Lemma verificationGuard_ok input s stored :
  verificationGuard input s = Ok stored ->
  (exists current, JsMap.get input.(vf_identity).(i_id) s.(identities) = Some current
     /\ current.(i_version) = input.(vf_identity).(i_version))
  /\ JsMap.get input.(vf_challenge).(v_id) s.(challenges) = Some stored
  /\ stored.(sc_challenge).(v_identityId) = input.(vf_identity).(i_id)
  /\ stored.(sc_challenge).(v_version) = input.(vf_challenge).(v_version).
Proof.
  unfold verificationGuard. destruct (JsMap.get (i_id _) _) as [cur|]; [|done].
  destruct (JsMap.get (v_id _) _) as [c|]; [|done]. destruct (bool_decide_reflect (v_identityId (sc_challenge c) = i_id (vf_identity input))) as [Hi|]; cbn [negb]; [|done].
  destruct (_ || _) eqn:E; [done|]. intros [= ->]. breflect. split_and!; eauto.
Qed.

Lemma revocationGuard_ok input s stored :
  revocationGuard input s = Ok stored ->
  JsMap.get input.(rv_session).(s_id) s.(sessions) = Some stored
  /\ stored.(ss_session).(s_version) = input.(rv_session).(s_version).
Proof.
  unfold revocationGuard. destruct (JsMap.get _ _) as [st|]; [|done]. destruct (_ =? _) eqn:E; cbn; [|done].
  intros [= ->]. by breflect.
Qed.

(** ** A commit writes everything or leaves the store as it was. *)

Definition wfSessions (s : Stores) : Prop := JsMap.wf s.(sessions).

Lemma undo_sessions ended s :
  wfSessions s -> (forall e, e ∈ ended -> exists st, JsMap.get e.(ev_session).(s_id) s.(sessions) = Some st) ->
  restoring (endedIds ended) s.(sessions) (endAll ended s.(sessions)) = s.(sessions).
Proof.
  intros Hw Hin. apply restoring_all; [done|apply endAll_keys| |by apply endAll_get].
  apply Forall_forall. intros k (e & -> & He)%list_elem_of_fmap. destruct (Hin e He) as [st ->]. done.
Qed.

Lemma undoRegistration_set input s : undoRegistration input s (withRegistration input s) = s.
Proof. destruct s. unfold undoRegistration, withRegistration. cbn. by rewrite !restorer_set. Qed.

Lemma undoChallenge_set c s : undoChallenge c.(sc_challenge).(v_id) s (withChallenge c s) = s.
Proof. destruct s. unfold undoChallenge, withChallenge. cbn. by rewrite restorer_set. Qed.

Lemma undoVerification_set input digest s :
  undoVerification input s (withVerification (Identity.saved input.(vf_identity))
    (mkStoredChallenge (Challenge.saved input.(vf_challenge)) digest) s) = s.
Proof. destruct s. unfold undoVerification, withVerification. cbn. by rewrite !restorer_set. Qed.

Lemma undoRevocation_set input stored s : undoSessions [input.(rv_session).(s_id)] s (withRevocation input stored s) = s.
Proof. destruct s. unfold undoSessions, withRevocation, withSessions. cbn. by rewrite restorer_set. Qed.

Lemma undoSession_set input s :
  wfSessions s -> sessionGuard input s = Ok tt ->
  undoSessions (input.(sn_session).(s_id) :: endedIds input.(sn_evicted)) s (withSession input s) = s.
Proof.
  unfold sessionGuard, JsMap.has. intros Hw. destruct (JsMap.get (s_id _) _) eqn:En; [done|].
  destruct (changedCredential _ _ _); [done|]. intros He.
  assert (Hin : forall e, e ∈ sn_evicted input -> exists st, JsMap.get e.(ev_session).(s_id) s.(sessions) = Some st).
  { intros e Hin. destruct (evictedGuard_ok _ _ He e Hin) as (st & Hst & _). eauto. }
  pose proof (undo_sessions _ s Hw Hin) as Hu. destruct s as [ids cs hs vs ss]. unfold undoSessions, withSession, withSessions. cbn in *.
  f_equal. unfold restorer. rewrite En. rewrite JsMap.delete_undo; [exact Hu|].
  apply JsMap.get_None. rewrite endAll_keys. by apply JsMap.get_None.
Qed.

Lemma undoReset_set input stored s :
  wfSessions s -> resetGuard input s = Ok stored -> undoReset input s (withReset input stored s) = s.
Proof.
  intros Hw (_ & _ & _ & _ & _ & Hr & _)%resetGuard_ok.
  assert (Hin : forall e, e ∈ rs_revoked input -> exists st, JsMap.get e.(ev_session).(s_id) s.(sessions) = Some st).
  { intros e Hin. destruct (Hr e Hin) as (st & Hst & _). eauto. }
  pose proof (undo_sessions _ s Hw Hin) as Hu. destruct s as [ids cs hs vs ss]. unfold undoReset, withReset. cbn in *.
  rewrite !restorer_set, Hu. destruct (rs_identity input); cbn; by rewrite ?restorer_set.
Qed.

(** ** The cases of every commit. *)
Section Commits.
  Context (outage : Failure -> Prop).

(** A commit under some behaviour of the event bus: it writes and publishes
    everything, or leaves the store as it was. *)
Abbreviation committed w sent s := (mkWorld s (w.(published) ++ sent)).

Lemma save_registration input w r w' :
  commits outage (commitRegistration input) w r w' ->
  done_or_nothing w r w' (fun w' => registrationGuard input w.(stores) = Ok tt
    /\ w' = committed w [input.(rg_event)] (withRegistration input w.(stores))).
Proof.
  intros H. destruct (commits_cases outage _ _ (fun _ => undoRegistration input (stores w)) _ w r w'
    (fun u _ => undoRegistration_set _ _) H) as [(-> & u & Hg & ->)|?]; [left|by right].
  destruct u. by apply checkEvents_ok in Hg as [Hg _].
Qed.

Lemma save_challenge input w r w' :
  commits outage (commitChallenge input) w r w' ->
  done_or_nothing w r w' (fun w' => JsMap.get input.(vc_challenge).(v_id) w.(stores).(challenges) = None
    /\ w' = committed w [input.(vc_event)]
              (withChallenge (mkStoredChallenge (Challenge.saved input.(vc_challenge)) input.(vc_tokenDigest)) w.(stores))).
Proof.
  intros H. destruct (commits_cases outage _ _ (fun _ => undoChallenge (v_id (vc_challenge input)) (stores w)) _ w r w'
    (fun u _ => undoChallenge_set (mkStoredChallenge (Challenge.saved (vc_challenge input)) _) _) H) as [(-> & u & Hg & ->)|?]; [left|by right].
  destruct u. apply checkEvents_ok in Hg as [Hg _]. unfold JsMap.has in Hg. by destruct (JsMap.get _ _).
Qed.

Lemma save_verification input w r w' :
  commits outage (commitVerification input) w r w' ->
  done_or_nothing w r w' (fun w' => exists stored, verificationGuard input w.(stores) = Ok stored
    /\ w' = committed w [input.(vf_event)] (withVerification (Identity.saved input.(vf_identity))
              (mkStoredChallenge (Challenge.saved input.(vf_challenge)) stored.(sc_tokenDigest)) w.(stores))).
Proof.
  intros H. destruct (commits_cases outage _ _ (fun _ => undoVerification input (stores w)) _ w r w'
    (fun u _ => undoVerification_set _ _ _) H) as [(-> & u & Hg & ->)|?]; [left|by right].
  apply bind_ok in Hg as (stored & Hg & Hu). apply bind_ok in Hu as (? & _ & [= ->]). eauto.
Qed.

Lemma save_session input w r w' :
  wfSessions w.(stores) -> commits outage (commitSession input) w r w' ->
  done_or_nothing w r w' (fun w' => sessionGuard input w.(stores) = Ok tt
    /\ w' = committed w ((ev_event <$> input.(sn_evicted)) ++ [input.(sn_event)]) (withSession input w.(stores))).
Proof.
  intros Hw H. destruct (commits_cases outage _ _ (fun _ => undoSessions _ (stores w)) _ w r w'
    (fun u Hu => undoSession_set _ _ Hw (proj1 (checkEvents_ok _ _ _ (match u with tt => fun H => H end Hu)))) H)
    as [(-> & u & Hg & ->)|?]; [left|by right].
  destruct u. by apply checkEvents_ok in Hg as [Hg _].
Qed.

Lemma save_revocation input w r w' :
  commits outage (commitRevocation input) w r w' ->
  done_or_nothing w r w' (fun w' => exists stored, revocationGuard input w.(stores) = Ok stored
    /\ w' = committed w [input.(rv_event)] (withRevocation input stored w.(stores))).
Proof.
  intros H. destruct (commits_cases outage _ _ (fun _ => undoSessions _ (stores w)) _ w r w'
    (fun u _ => undoRevocation_set _ _ _) H) as [(-> & u & Hg & ->)|?]; [left|by right].
  apply bind_ok in Hg as (stored & Hg & Hu). apply bind_ok in Hu as (? & _ & [= ->]). eauto.
Qed.

Lemma save_reset input w r w' :
  wfSessions w.(stores) -> commits outage (commitReset input) w r w' ->
  done_or_nothing w r w' (fun w' => exists stored, resetGuard input w.(stores) = Ok stored
    /\ w' = committed w input.(rs_events) (withReset input stored w.(stores))).
Proof.
  intros Hw H.
  assert (Hg : forall stored, (st ← resetGuard input w.(stores); _ ← assertAll input.(rs_events) input.(rs_work); Ok st) = Ok stored ->
    resetGuard input w.(stores) = Ok stored).
  { intros stored (st & Hst & Hu)%bind_ok. by apply bind_ok in Hu as (? & _ & [= ->]). }
  destruct (commits_cases outage _ _ (fun _ => undoReset input (stores w)) _ w r w'
    (fun u Hu => undoReset_set _ _ _ Hw (Hg u Hu)) H) as [(-> & u & Hu & ->)|?]; [left|by right]. eauto.
Qed.
End Commits.
End IdentityStore.
