(* ===== verification/IdentityApp.v ===== *)
(** * The identity commands and queries: [modules/identity/app].

    [IdentityPolicy] is the interface of the session, verification and password
    policies with its default instance ([infra/in-memory/policy.ts]),
    [IdentityPorts] the calls a command makes, [IdentityCommands] the commands,
    queries and the pruning sweep. *)
From S2P Require Import Prelude Async JsMap Errors Ids CaseFolding Provenance Events Commands Writers IdentityDomain IdentityStore.

(** ** Policies. *)
Module IdentityPolicy.

(** @src src/modules/identity/app/ports/session-policy.ts:3-12 SessionPolicy
    What the commands ask of the policies: of passwords, of sessions, of
    verification challenges and of reset links. *)
Class Policies : Type := {
  validatePassword : jstring -> Res unit;
  sessionExpiresAt : Date -> Res Date;
  idleTimeoutMs : Z;
  activityIntervalMs : Z;
  maxActivePerIdentity : Z;
  verificationExpiresAt : Date -> Res Date;
  resetExpiresAt : Date -> Res Date
}.

(** @src src/modules/identity/app/ports/password-policy.ts:8-9 PASSWORD_MIN_LENGTH, PASSWORD_MAX_LENGTH *)
Definition PASSWORD_MIN_LENGTH : Z := 8.
(** @src src/modules/identity/app/ports/password-policy.ts:9-9 PASSWORD_MAX_LENGTH *)
Definition PASSWORD_MAX_LENGTH : Z := 1024.

(** @src src/modules/identity/infra/in-memory/policy.ts:12-28 DefaultPasswordPolicy.validate *)
Definition defaultPassword (password : jstring) : Res unit :=
  if jlength password <? PASSWORD_MIN_LENGTH then
    Err (fail_with Errors.invalid "password must be at least 8 characters" "identity.password_too_short")
  else if PASSWORD_MAX_LENGTH <? jlength password then
    Err (fail_with Errors.invalid "password must be at most 1024 characters" "identity.password_too_long")
  else Ok tt.

(** @src src/modules/identity/infra/in-memory/policy.ts:31-48 FixedDurationPolicy.expiresAt *)
Definition fixedDuration (durationMs : Z) (type label : string) (start : Date) : Res Date :=
  match start with
  | DateAt t =>
      if isSafeInteger (Int (t + durationMs)) then Ok (newDate (t + durationMs))
      else Err (fail_with Errors.invalid (label ++ " start time is invalid") type)
  | InvalidDate => Err (fail_with Errors.invalid (label ++ " start time is invalid") type)
  end.

Record SessionLimits : Type := mkLimits { l_lifetimeMs : Z; l_idleTimeoutMs : Z; l_maxActive : Z }.

(** @src src/modules/identity/infra/in-memory/policy.ts:50-54 DEFAULT_SESSION_LIMITS *)
Definition DEFAULT_SESSION_LIMITS : SessionLimits := mkLimits (24 * 60 * 60 * 1000) (60 * 60 * 1000) 10.

(** @src src/modules/identity/infra/in-memory/policy.ts:56-93 DefaultSessionPolicy, DefaultVerificationPolicy, DefaultPasswordResetPolicy *)
#[export] Instance defaultPolicies (limits : SessionLimits) : Policies := {
  validatePassword := defaultPassword;
  sessionExpiresAt := fixedDuration limits.(l_lifetimeMs) "identity.invalid_session_expiry" "session";
  idleTimeoutMs := limits.(l_idleTimeoutMs);
  activityIntervalMs := Z.min (60 * 1000) (limits.(l_idleTimeoutMs) / 4);
  maxActivePerIdentity := limits.(l_maxActive);
  verificationExpiresAt := fixedDuration (24 * 60 * 60 * 1000) "identity.invalid_verification_expiry" "verification";
  resetExpiresAt := fixedDuration (60 * 60 * 1000) "identity.invalid_verification_expiry" "password reset"
}.
End IdentityPolicy.

(** ** Ports. *)
Module IdentityPorts.
Import IdentityStore.
Import Identity(Identity).
Import Session(Session).

(** @src src/modules/identity/app/ports/session-token-issuer.ts:4-7 SessionTokenMaterial *)
Record TokenMaterial : Type := mkToken { tm_token : jstring; tm_digest : jstring }.

(** @src src/modules/identity/app/ports/identity-mailer.ts:11-22 IdentityMailer *)
Record Link : Type := mkLink { k_to : jstring; k_challengeId : ID; k_token : jstring; k_expiresAt : Date }.

(** The calls a command or a query can make. *)
Inductive Op : Type :=
| now
| newId
| aborted
| readIdentity (identityId : ID)
| readView (identityId : ID)
| readByEmail (email : jstring)
| readByIdentity (identityId : ID)
| readChallenge (challengeId : ID)
| readByToken (token : jstring)
| readActive (identityId : ID)
| verifyPassword (password passwordHash : jstring)
| verifyDecoy (password : jstring)
| hashPassword (password : jstring)
| issueToken
| verifyToken (token digest : jstring)
| recordActivity (sessionId : ID) (at_ : Date)
| pruneSessions (endedBefore idleBefore : Date) (limit : Z)
| sendVerification (link : Link)
| sendPasswordReset (link : Link)
| sendAccountExists (to : jstring)
| saveRegistration (input : RegistrationCommit)
| saveChallenge (input : ChallengeCommit)
| saveVerification (input : VerificationCommit)
| saveSession (input : SessionCommit)
| saveRevocation (input : RevocationCommit)
| saveReset (input : ResetCommit).

Definition Ans (op : Op) : Type :=
  match op with
  | now => Date
  | newId => Res ID
  | aborted => bool
  | readIdentity _ => Res (option Identity)
  | readView _ => Res (option IdentityView)
  | readByEmail _ | readByIdentity _ => Res (option AuthenticationRecord)
  | readChallenge _ => Res (option StoredChallenge)
  | readByToken _ => Res (option Session)
  | readActive _ => Res (list Session)
  | verifyPassword _ _ | verifyToken _ _ => Res bool
  | verifyDecoy _ => Res unit
  | hashPassword _ => Res jstring
  | issueToken => Res TokenMaterial
  | pruneSessions _ _ _ => Res Z
  | recordActivity _ _ | sendVerification _ | sendPasswordReset _ | sendAccountExists _
  | saveRegistration _ | saveChallenge _ | saveVerification _ | saveSession _ | saveRevocation _ | saveReset _ => Res unit
  end.
End IdentityPorts.

Module IdentityCommands.
Import IdentityFailures IdentityStore IdentityPolicy IdentityPorts.
Import (hints) Identity Session Challenge Credential.
Import Identity(Identity, i_id, i_status, i_verifiedAt).
Import Session(Session, s_id, s_identityId, s_status, s_createdAt, s_expiresAt, s_lastSeenAt, s_revokedAt).
Import Challenge(Challenge, v_id, v_identityId, v_purpose, v_expiresAt).
Import Credential(Credential, c_id, c_method, c_status, c_updatedAt).
#[local] Open Scope prog_scope.

Section Commands.
  Context `{CaseFolding} `{Policies}.

Definition Command (A : Type) : Type := Prog Ans (Res A).

(** [const id = ids.newId(); if (!id.ok) return err(idGenerationFailure(id.error))]. *)
Definition nextId : Command ID := orElse idGenerationFailure (perform newId).

(** [if (!r.ok) return err(dependencyFailure(r.error, operation))]. *)
Definition depends {A} (operation : string) (p : Command A) : Command A :=
  orElse (fun e => dependencyFailure e operation) p.

(** @src src/modules/identity/domain/events.ts:2-9 IDENTITY_EVENT_TYPES *)
Inductive EventType : Type :=
| e_registered | e_sessionCreated | e_sessionRevoked | e_challengeIssued | e_verified | e_passwordReset.
(** @src src/modules/identity/domain/events.ts:2-9 IDENTITY_EVENT_TYPES *)
Definition IDENTITY_EVENT_TYPES (t : EventType) : jstring :=
  js match t with
     | e_registered => "identity.registered.v1"
     | e_sessionCreated => "identity.session.created.v1"
     | e_sessionRevoked => "identity.session.revoked.v1"
     | e_challengeIssued => "identity.verification.challenge.issued.v1"
     | e_verified => "identity.verified.v1"
     | e_passwordReset => "identity.password.reset.v1"
     end.

(** An event about an identity. *)
Definition identityEvent (operation : string) (eventId : ID) (type : EventType) (at_ : Date) (work : WorkContext)
    (identityId : ID) (payload : list (string * JsValue)) : Command Events.Envelope :=
  depends operation
    (Ret (Events.create eventId (IDENTITY_EVENT_TYPES type) (timeNumber at_) work payload
            (Some (Events.mkEventSubject (js "identity") identityId)) None)).

Definition purposeText (c : Challenge) : JsValue := VStr (js (Challenge.purposeName c.(v_purpose))).
Definition statusText (i : Identity) : JsValue := VStr (js (Identity.statusName i.(i_status))).

(** ** [RegisterIdentity]. *)

(** @src src/modules/identity/app/commands/register-identity.ts:29-34 RegisterIdentityCommand *)
Record PasswordCommand : Type := mkPasswordCommand { pc_email : JsValue; pc_password : jstring; pc_work : WorkContext }.

(** @src src/modules/identity/app/commands/register-identity.ts:36-40 RegisterIdentityResult *)
Record Registered : Type := mkRegistered { rd_identityId : ID; rd_credentialId : ID; rd_status : Identity.Status }.

(** @src src/modules/identity/app/commands/register-identity.ts:50-56 invalidPassword *)
Definition invalidPassword : Failure :=
  typedFailure Errors.invalid "identity.empty_password" "password cannot be empty" noOptions.

(** @src src/modules/identity/app/commands/register-identity.ts:61-160 execute *)
Definition registerIdentity (command : PasswordCommand) : Command Registered :=
  _ ⟵ require (negb (jlength command.(pc_password) =? 0)) invalidPassword;
  _ ⟵ depends "password_policy" (pure_ (validatePassword command.(pc_password)));
  bind (perform now) (fun createdAt =>
  identityId ⟵ nextId;
  self ⟵ pure_ (Identity.register identityId createdAt);
  credentialId ⟵ nextId;
  credential ⟵ pure_ (Credential.createEmailPassword
    (Credential.mkCreate credentialId self.(i_id) command.(pc_email) createdAt));
  passwordHash ⟵ depends "password_hasher" (perform (hashPassword command.(pc_password)));
  eventId ⟵ nextId;
  event ⟵ identityEvent "registration_event" eventId e_registered createdAt command.(pc_work) self.(i_id)
    [("identity_id", VStr self.(i_id)); ("credential_id", VStr credential.(c_id));
     ("credential_method", VStr (js (Credential.methodName credential.(c_method)))); ("status", statusText self)]%string;
  _ ⟵ depends "registration_writer"
    (perform (saveRegistration (mkRegistration self credential passwordHash event command.(pc_work))));
  Ret (Ok (mkRegistered self.(i_id) credential.(c_id) self.(i_status)))).

(** ** [IssueVerificationChallenge]. *)

(** @src src/modules/identity/app/commands/issue-verification-challenge.ts:36-41 IssueVerificationChallengeResult *)
Record Issued : Type := mkIssued { is_identityId : ID; is_challengeId : ID; is_token : jstring; is_expiresAt : Date }.

(** @src src/modules/identity/app/commands/issue-verification-challenge.ts:52-58 notFound *)
Definition identityMissing : Failure := typedFailure not_found "identity.not_found" "identity was not found" noOptions.

(** @src src/modules/identity/app/commands/issue-verification-challenge.ts:60-66 unavailableStatus *)
Definition unavailableStatus (status : Identity.Status) : Failure :=
  typedFailure conflict "identity.verification_unavailable" ("identity is " ++ Identity.statusName status)%string noOptions.

(** The challenge of [purpose] for an identity, its token, and its commit: the
    second half of this command and of [RequestPasswordReset]. *)
Definition issueChallenge (purpose : Challenge.Purpose) (identityId : ID) (issuedAt expiresAt : Date)
    (work : WorkContext) : Command Issued :=
  challengeId ⟵ nextId;
  challenge ⟵ pure_ (Challenge.issue (Challenge.mkIssue challengeId identityId purpose issuedAt expiresAt));
  token ⟵ depends "verification_token_issuer" (perform issueToken);
  eventId ⟵ nextId;
  event ⟵ identityEvent "verification_challenge_event" eventId e_challengeIssued issuedAt work challenge.(v_identityId)
    [("identity_id", VStr challenge.(v_identityId)); ("challenge_id", VStr challenge.(v_id));
     ("purpose", purposeText challenge); ("expires_at_ms", VNum (timeNumber challenge.(v_expiresAt)))]%string;
  _ ⟵ depends "verification_challenge_writer"
    (perform (saveChallenge (mkChallengeCommit challenge token.(tm_digest) event work)));
  Ret (Ok (mkIssued challenge.(v_identityId) challenge.(v_id) token.(tm_token) challenge.(v_expiresAt))).

(** @src src/modules/identity/app/commands/issue-verification-challenge.ts:73-157 execute *)
Definition issueVerificationChallenge (identityId : ID) (work : WorkContext) : Command Issued :=
  found ⟵ depends "identity_reader" (perform (readIdentity identityId));
  self ⟵ pure_ (foundOr identityMissing (fun _ => true) found);
  _ ⟵ require (bool_decide (self.(i_status) = Identity.pending_verification)) (unavailableStatus self.(i_status));
  bind (perform now) (fun issuedAt =>
  expiresAt ⟵ depends "verification_policy" (pure_ (verificationExpiresAt issuedAt));
  issueChallenge Challenge.email_verification self.(i_id) issuedAt expiresAt work).

(** ** [RequestPasswordReset], [ResendVerification], [SignUp]: the answers of
    each are [{ accepted: true, mailed }]; the model keeps [mailed]. *)

Definition linkTo (to : jstring) (i : Issued) : Link := mkLink to i.(is_challengeId) i.(is_token) i.(is_expiresAt).

(** [status === 'active' || status === 'pending_verification']. *)
Definition reachableStatus (status : Identity.Status) : bool :=
  bool_decide (status = Identity.active) || bool_decide (status = Identity.pending_verification).

(** @src src/modules/identity/app/commands/request-password-reset.ts:44-103 execute *)
Definition requestPasswordReset (email : JsValue) (work : WorkContext) : Command bool :=
  to ⟵ pure_ (Credential.normalizeEmail email);
  found ⟵ depends "credential_reader" (perform (readByEmail to));
  match found with
  | None => Ret (Ok false)
  | Some account =>
      if negb (reachableStatus account.(ar_identity).(i_status)) then Ret (Ok false)
      else
        bind (perform now) (fun issuedAt =>
        expiresAt ⟵ depends "password_reset_policy" (pure_ (resetExpiresAt issuedAt));
        issued ⟵ issueChallenge Challenge.password_reset account.(ar_identity).(i_id) issuedAt expiresAt work;
        bind (perform (sendPasswordReset (linkTo to issued))) (fun sent => Ret (Ok (isOk sent))))
  end.

(** @src src/modules/identity/app/commands/resend-verification.ts:31-57 execute *)
Definition resendVerification (email : JsValue) (work : WorkContext) : Command bool :=
  to ⟵ pure_ (Credential.normalizeEmail email);
  found ⟵ depends "credential_reader" (perform (readByEmail to));
  match found with
  | None => Ret (Ok false)
  | Some account =>
      if negb (bool_decide (account.(ar_identity).(i_status) = Identity.pending_verification)) then Ret (Ok false)
      else
        issued ⟵ issueVerificationChallenge account.(ar_identity).(i_id) work;
        bind (perform (sendVerification (linkTo to issued))) (fun sent => Ret (Ok (isOk sent)))
  end.

(** @src src/modules/identity/app/commands/sign-up.ts:41-68 execute *)
Definition signUp (command : PasswordCommand) : Command bool :=
  bind (registerIdentity command) (fun registered =>
  match registered with
  | Err error =>
      if negb (bool_decide (f_type error = Some "identity.email_taken"%string)) then Ret (Err error)
      else
        match Credential.normalizeEmail command.(pc_email) with
        | Err _ => Ret (Ok false)
        | Ok to => bind (perform (sendAccountExists to)) (fun sent => Ret (Ok (isOk sent)))
        end
  | Ok account =>
      bind (issueVerificationChallenge account.(rd_identityId) command.(pc_work)) (fun challenge =>
      match challenge, Credential.normalizeEmail command.(pc_email) with
      | Ok issued, Ok to => bind (perform (sendVerification (linkTo to issued))) (fun sent => Ret (Ok (isOk sent)))
      | _, _ => Ret (Ok false)
      end)
  end).

(** ** [VerifyIdentity]. *)

(** @src src/modules/identity/app/commands/verify-identity.ts:30-35 VerifyIdentityCommand *)
Record VerifyCommand : Type := mkVerify { vi_challengeId : ID; vi_token : jstring; vi_work : WorkContext }.

(** @src src/modules/identity/app/commands/verify-identity.ts:51-57 notFound *)
Definition challengeMissing : Failure :=
  typedFailure not_found "identity.verification_not_found" "verification challenge was not found" noOptions.
(** @src src/modules/identity/app/commands/verify-identity.ts:59-65 invalidToken *)
Definition invalidToken : Failure :=
  typedFailure unauthenticated "identity.invalid_verification_token" "verification token is invalid" noOptions.

Definition forPurpose (purpose : Challenge.Purpose) (record : StoredChallenge) : bool :=
  bool_decide (record.(sc_challenge).(v_purpose) = purpose).

(** The payload of the event that an identity was verified. *)
Definition verifiedPayload (verified : Identity) (consumed : Challenge) : list (string * JsValue) :=
  [("identity_id", VStr verified.(i_id)); ("challenge_id", VStr consumed.(v_id));
   ("purpose", purposeText consumed); ("status", statusText verified)]%string.

(** @src src/modules/identity/app/commands/verify-identity.ts:70-178 execute *)
Definition verifyIdentity (command : VerifyCommand) : Command (ID * Identity.Status) :=
  found ⟵ depends "verification_challenge_reader" (perform (readChallenge command.(vi_challengeId)));
  record ⟵ pure_ (foundOr challengeMissing (forPurpose Challenge.email_verification) found);
  valid ⟵ depends "verification_token_verifier" (perform (verifyToken command.(vi_token) record.(sc_tokenDigest)));
  _ ⟵ require valid invalidToken;
  owner ⟵ depends "identity_reader" (perform (readIdentity record.(sc_challenge).(v_identityId)));
  self ⟵ pure_ (foundOr identityMissing (fun _ => true) owner);
  bind (perform now) (fun at_ =>
  consumed ⟵ pure_ (Challenge.consume record.(sc_challenge) at_);
  verified ⟵ pure_ (Identity.verify self at_);
  eventId ⟵ nextId;
  event ⟵ identityEvent "identity_verified_event" eventId e_verified at_ command.(vi_work) verified.(i_id)
    (verifiedPayload verified consumed);
  _ ⟵ depends "verification_writer" (perform (saveVerification (mkVerification verified consumed event command.(vi_work))));
  Ret (Ok (verified.(i_id), verified.(i_status)))).

(** ** Ending sessions. *)

(** Revoke the sessions one after the other, each with its event; [owner] is
    the identity the event names. *)
Fixpoint endSessions (operation reason : string) (at_ : Date) (work : WorkContext) (owner : Session -> ID)
    (sessions : list Session) : Command (list SessionEviction) :=
  match sessions with
  | [] => Ret (Ok [])
  | session :: rest =>
      revoked ⟵ pure_ (Session.revoke session at_);
      eventId ⟵ nextId;
      event ⟵ identityEvent operation eventId e_sessionRevoked at_ work (owner session)
        [("identity_id", VStr (owner session)); ("session_id", VStr revoked.(s_id));
         ("status", VStr (js (Session.statusName revoked.(s_status)))); ("reason", VStr (js reason))]%string;
      more ⟵ endSessions operation reason at_ work owner rest;
      Ret (Ok (mkEviction revoked event :: more))
  end.

(** ** [ConfirmPasswordReset]. *)

(** @src src/modules/identity/app/commands/confirm-password-reset.ts:20-26 ConfirmPasswordResetCommand *)
Record ResetCommand : Type := mkResetCommand {
  rp_challengeId : ID; rp_token : jstring; rp_password : jstring; rp_work : WorkContext
}.

(** @src src/modules/identity/app/commands/confirm-password-reset.ts:28-33 ConfirmPasswordResetResult *)
Record ResetDone : Type := mkResetDone { rr_identityId : ID; rr_verified : bool; rr_sessionsRevoked : Z }.

(** @src src/modules/identity/app/commands/confirm-password-reset.ts:47-50 invalidLink *)
Definition invalidLink : Failure :=
  typedFailure unauthenticated "identity.invalid_verification_token" "reset link is invalid" noOptions.

(** @src src/modules/identity/app/commands/confirm-password-reset.ts:76-77 execute *)
Definition consumeLink (challenge : Challenge) (at_ : Date) : Res Challenge :=
  mapError (Challenge.consume challenge at_) (fun _ => invalidLink).

(** @src src/modules/identity/app/commands/confirm-password-reset.ts:87-92 execute *)
Definition verifyPending (self : Identity) (at_ : Date) : Res (option Identity) :=
  if bool_decide (self.(i_status) = Identity.pending_verification)
  then verified ← Identity.verify self at_; Ok (Some verified)
  else Ok None.

(** @src src/modules/identity/app/commands/confirm-password-reset.ts:100-108 event *)
Definition resetEvent (type : EventType) (at_ : Date) (work : WorkContext) (identityId : ID)
    (payload : list (string * JsValue)) : Command Events.Envelope :=
  eventId ⟵ nextId;
  identityEvent "password_reset_event" eventId type at_ work identityId payload.

(** @src src/modules/identity/app/commands/confirm-password-reset.ts:132-141 execute *)
Definition verifiedEvents (verified : option Identity) (consumed : Challenge) (at_ : Date) (work : WorkContext)
    (identityId : ID) : Command (list Events.Envelope) :=
  match verified with
  | None => Ret (Ok [])
  | Some v =>
      event ⟵ resetEvent e_verified at_ work identityId
        [("identity_id", VStr identityId); ("challenge_id", VStr consumed.(v_id));
         ("purpose", purposeText consumed); ("status", statusText v)]%string;
      Ret (Ok [event])
  end.

(** @src src/modules/identity/app/commands/confirm-password-reset.ts:61-159 execute *)
Definition confirmPasswordReset (command : ResetCommand) : Command ResetDone :=
  _ ⟵ depends "password_policy" (pure_ (validatePassword command.(rp_password)));
  found ⟵ depends "verification_challenge_reader" (perform (readChallenge command.(rp_challengeId)));
  record ⟵ pure_ (foundOr invalidLink (forPurpose Challenge.password_reset) found);
  valid ⟵ depends "verification_token_verifier" (perform (verifyToken command.(rp_token) record.(sc_tokenDigest)));
  _ ⟵ require valid invalidLink;
  bind (perform now) (fun at_ =>
  consumed ⟵ pure_ (consumeLink record.(sc_challenge) at_);
  owner ⟵ depends "credential_reader" (perform (readByIdentity consumed.(v_identityId)));
  account ⟵ pure_ (foundOr invalidLink (fun a => reachableStatus a.(ar_identity).(i_status)) owner);
  changed ⟵ pure_ (Credential.changeSecret account.(ar_credential) at_);
  verified ⟵ pure_ (verifyPending account.(ar_identity) at_);
  passwordHash ⟵ depends "password_hasher" (perform (hashPassword command.(rp_password)));
  active ⟵ depends "active_session_reader" (perform (readActive account.(ar_identity).(i_id)));
  revoked ⟵ endSessions "password_reset_event" "password_reset" at_ command.(rp_work)
    (fun _ => account.(ar_identity).(i_id)) active;
  reset ⟵ resetEvent e_passwordReset at_ command.(rp_work) account.(ar_identity).(i_id)
    [("identity_id", VStr account.(ar_identity).(i_id)); ("credential_id", VStr account.(ar_credential).(c_id));
     ("challenge_id", VStr consumed.(v_id)); ("sessions_revoked", VNum (Int (Z.of_nat (length revoked))))]%string;
  verification ⟵ verifiedEvents verified consumed at_ command.(rp_work) account.(ar_identity).(i_id);
  _ ⟵ depends "password_reset_writer" (perform (saveReset
    (mkReset consumed changed account.(ar_credential).(c_updatedAt) passwordHash verified revoked
       ((reset :: verification) ++ (ev_event <$> revoked)) command.(rp_work))));
  Ret (Ok (mkResetDone account.(ar_identity).(i_id) (negb (isNull verified)) (Z.of_nat (length revoked))))).

(** ** [AuthenticateIdentity]. *)

(** @src src/modules/identity/app/commands/authenticate-identity.ts:37-42 AuthenticateIdentityResult *)
Record Authenticated : Type := mkAuthenticated {
  au_identityId : ID; au_sessionId : ID; au_token : jstring; au_expiresAt : Date
}.

(** @src src/modules/identity/app/commands/authenticate-identity.ts:55-61 invalidCredentials *)
Definition invalidCredentials : Failure :=
  typedFailure unauthenticated "identity.invalid_credentials" "credentials are invalid" noOptions.

(** @src src/modules/identity/app/commands/authenticate-identity.ts:96-103 execute
    The password is checked against the credential's hash, or against a decoy. *)
Definition checkPassword (password : jstring) (record : option AuthenticationRecord) : Command bool :=
  match record with
  | None => bind (perform (verifyDecoy password)) (fun r => Ret (_ ← r; Ok false))
  | Some account => perform (verifyPassword password account.(ar_passwordHash))
  end.

(** @src src/modules/identity/app/commands/authenticate-identity.ts:109-116 execute *)
Definition admits (valid : bool) (account : AuthenticationRecord) : bool :=
  valid && bool_decide (account.(ar_identity).(i_status) = Identity.active)
  && bool_decide (account.(ar_credential).(c_status) = Credential.active).

(** @src src/modules/identity/app/commands/authenticate-identity.ts:221-224 evictions *)
Definition surplus (at_ : Date) (active : list Session) : list Session :=
  drop (Z.to_nat (Z.max 0 (maxActivePerIdentity - 1)))
    (sort_by (fun a b => getTime b.(s_createdAt) - getTime a.(s_createdAt))
       (filter (fun candidate => isOk (Session.assertUsable candidate at_ (Some idleTimeoutMs)) = true) active)).

(** @src src/modules/identity/app/commands/authenticate-identity.ts:209-249 evictions *)
Definition evictions (created : Session) (work : WorkContext) : Command (list SessionEviction) :=
  active ⟵ depends "active_session_reader" (perform (readActive created.(s_identityId)));
  endSessions "session_revoked_event" "session_limit" created.(s_createdAt) work s_identityId
    (surplus created.(s_createdAt) active).

(** @src src/modules/identity/app/commands/authenticate-identity.ts:68-200 execute *)
Definition authenticateIdentity (command : PasswordCommand) : Command Authenticated :=
  _ ⟵ require (negb (PASSWORD_MAX_LENGTH <? jlength command.(pc_password))) invalidCredentials;
  email ⟵ pure_ (mapError (Credential.normalizeEmail command.(pc_email)) (fun _ => invalidCredentials));
  record ⟵ depends "credential_reader" (perform (readByEmail email));
  valid ⟵ depends "password_verifier" (checkPassword command.(pc_password) record);
  account ⟵ pure_ (foundOr invalidCredentials (admits valid) record);
  bind (perform now) (fun createdAt =>
  expiresAt ⟵ depends "session_policy" (pure_ (sessionExpiresAt createdAt));
  sessionId ⟵ nextId;
  session ⟵ pure_ (Session.create
    (Session.mkCreate sessionId account.(ar_identity).(i_id) createdAt expiresAt));
  token ⟵ depends "session_token_issuer" (perform issueToken);
  eventId ⟵ nextId;
  event ⟵ identityEvent "session_created_event" eventId e_sessionCreated createdAt command.(pc_work)
    account.(ar_identity).(i_id)
    [("identity_id", VStr account.(ar_identity).(i_id)); ("credential_id", VStr account.(ar_credential).(c_id));
     ("session_id", VStr session.(s_id)); ("expires_at_ms", VNum (timeNumber session.(s_expiresAt)))]%string;
  evicted ⟵ evictions session command.(pc_work);
  _ ⟵ depends "session_writer" (perform (saveSession
    (mkSessionCommit session account.(ar_credential) token.(tm_digest) event evicted command.(pc_work))));
  Ret (Ok (mkAuthenticated account.(ar_identity).(i_id) session.(s_id) token.(tm_token) session.(s_expiresAt)))).

(** ** [RevokeSession]. *)

(** @src src/modules/identity/app/commands/revoke-session.ts:25-28 RevokeSessionResult *)
Record Revoked : Type := mkRevoked { rk_sessionId : option ID; rk_revoked : bool }.

(** @src src/modules/identity/app/commands/revoke-session.ts:40-107 execute *)
Definition revokeSession (sessionToken : jstring) (work : WorkContext) : Command Revoked :=
  found ⟵ depends "current_session_reader" (perform (readByToken sessionToken));
  match found with
  | None => Ret (Ok (mkRevoked None false))
  | Some session =>
      if bool_decide (session.(s_status) = Session.revoked) then Ret (Ok (mkRevoked (Some session.(s_id)) false))
      else
        bind (perform now) (fun at_ =>
        revoked ⟵ pure_ (Session.revoke session at_);
        eventId ⟵ nextId;
        event ⟵ identityEvent "session_revoked_event" eventId e_sessionRevoked
          (default InvalidDate revoked.(s_revokedAt)) work revoked.(s_identityId)
          [("identity_id", VStr revoked.(s_identityId)); ("session_id", VStr revoked.(s_id));
           ("status", VStr (js (Session.statusName revoked.(s_status))))]%string;
        _ ⟵ depends "session_revocation_writer" (perform (saveRevocation (mkRevocation revoked event work)));
        Ret (Ok (mkRevoked (Some revoked.(s_id)) true)))
  end.

(** ** Queries. *)

(** @src src/modules/identity/app/queries/get-current-identity.ts:46-55 unauthenticated *)
Definition currentUnavailable : Failure :=
  typedFailure unauthenticated "identity.current_unavailable" "current Identity is unavailable" noOptions.

(** A failure of the query, caused by [error]. *)
Definition causedBy (kind : Kind) (type message : string) (error : Failure) : Failure :=
  typedFailure kind type message (mkOptions None None [] (CFailure error)).

(** @src src/modules/identity/app/queries/get-current-identity.ts:57-66 sessionReaderUnavailable *)
Definition sessionReaderUnavailable : Failure -> Failure :=
  causedBy unavailable "identity.session_reader_unavailable" "current Identity session storage is unavailable".
(** @src src/modules/identity/app/queries/get-current-identity.ts:68-77 identityReaderUnavailable *)
Definition identityReaderUnavailable : Failure -> Failure :=
  causedBy unavailable "identity.identity_reader_unavailable" "current Identity storage is unavailable".
(** @src src/modules/identity/app/queries/get-current-identity.ts:79-88 sessionActivityUnavailable *)
Definition sessionActivityUnavailable : Failure -> Failure :=
  causedBy unavailable "identity.session_activity_unavailable" "current Identity session activity could not be recorded".

(** @src src/modules/identity/app/queries/get-current-identity.ts:90-107 invalidSessionState, sessionFailure *)
Definition sessionFailure (error : Failure) : Failure :=
  if bool_decide (f_type error = Some "session.revoked"%string) || bool_decide (f_type error = Some "session.expired"%string)
  then error
  else causedBy internal "identity.invalid_session_state" "current Identity session state is invalid" error.

(** @src src/modules/identity/app/queries/get-current-identity.ts:109-116 copyView *)
Definition copyView (view : IdentityView) : IdentityView :=
  mkView view.(iv_identityId) view.(iv_status) (copyDateOpt view.(iv_verifiedAt)).

(** @src src/modules/identity/app/queries/get-current-identity.ts:158-166 execute *)
Definition noteActivity (session : Session) (at_ : Date) : Command unit :=
  if activityIntervalMs <=? getTime at_ - getTime session.(s_lastSeenAt)
  then orElse sessionActivityUnavailable (perform (recordActivity session.(s_id) at_))
  else Ret (Ok tt).

(** @src src/modules/identity/app/queries/get-current-identity.ts:121-172 execute *)
Definition getCurrentIdentity (sessionToken : jstring) : Command IdentityView :=
  found ⟵ orElse sessionReaderUnavailable (perform (readByToken sessionToken));
  session ⟵ pure_ (foundOr currentUnavailable (fun _ => true) found);
  bind (perform now) (fun at_ =>
  _ ⟵ pure_ (mapError (Session.assertUsable session at_ (Some idleTimeoutMs)) sessionFailure);
  owner ⟵ orElse identityReaderUnavailable (perform (readView session.(s_identityId)));
  view ⟵ pure_ (foundOr currentUnavailable (fun v => bool_decide (v.(iv_status) = Identity.active)) owner);
  _ ⟵ noteActivity session at_;
  Ret (Ok (copyView view))).

(** @src src/modules/identity/app/queries/get-identity.ts:46-57 execute *)
Definition getIdentity (identityId : ID) : Command (option IdentityView) :=
  view ⟵ orElse (causedBy unavailable "identity.identity_reader_unavailable" "Identity storage is unavailable")
    (perform (readView identityId));
  Ret (Ok (copyView <$> view)).

(** ** Pruning. *)

(** @src src/modules/identity/app/commands/prune-sessions.ts:6-11 PruneSessionsCommand *)
Record PruneCommand : Type := mkPrune { pr_retentionMs : num; pr_limit : num }.

(** @src src/modules/identity/app/commands/prune-sessions.ts:38-40 execute *)
Definition invalidPruneBounds : Failure :=
  fail_with Errors.invalid "session pruning bounds are invalid" "identity.invalid_prune_bounds".

(** [new Date(date.getTime() - ms)]. *)
Definition minus (d : Date) (ms : Z) : Date :=
  match d with DateAt t => newDate (t - ms) | InvalidDate => InvalidDate end.

(** @src src/modules/identity/app/commands/prune-sessions.ts:30-44 execute *)
Definition validBounds (command : PruneCommand) : Res unit :=
  if negb (isSafeInteger command.(pr_retentionMs)) || num_lt command.(pr_retentionMs) 0
     || negb (isSafeInteger command.(pr_limit)) || num_lt command.(pr_limit) 1
  then Err (dependencyFailure invalidPruneBounds "session_pruner") else Ok tt.

(** @src src/modules/identity/app/commands/prune-sessions.ts:27-58 execute *)
Definition prune (command : PruneCommand) : Command Z :=
  _ ⟵ pure_ (validBounds command);
  bind (perform now) (fun at_ =>
  depends "session_pruner" (perform (pruneSessions (minus at_ (num_val command.(pr_retentionMs)))
    (minus at_ (num_val command.(pr_retentionMs) + idleTimeoutMs)) (num_val command.(pr_limit))))).

(** @src src/modules/identity/infra/session-pruning.ts:12-12 BATCH *)
Definition BATCH : Z := 1000.

(** @src src/modules/identity/infra/session-pruning.ts:46-64 SessionPruning.sweep
    One iteration per unit of fuel; [total] is what was deleted so far. *)
Fixpoint sweep (fuel : nat) (retentionMs total : Z) : Prog Ans (option Z) :=
  match fuel with
  | O => Ret None
  | S fuel =>
      bind (perform aborted) (fun stopped : bool =>
      if stopped then Ret (Some total)
      else
        bind (prune (mkPrune (Int retentionMs) (Int BATCH))) (fun result =>
        match result with
        | Err _ => Ret (Some total)
        | Ok pruned => if pruned <? BATCH then Ret (Some (total + pruned)) else sweep fuel retentionMs (total + pruned)
        end))
  end.
End Commands.
End IdentityCommands.
