(* ===== verification/IdentityWorld.v ===== *)
(** * The identity commands running together.

    The world is the identity store with the events dispatched; the commands of
    a pool interleave at their port calls.  The central invariant relates the
    sessions of the store to the passwords that were presented: whatever logins,
    password resets, verifications, logouts and prunings interleave, an active
    session belongs to a verified identity whose current password some login
    presented. *)
From stdpp Require Import relations pretty.
From S2P Require Import Prelude Async JsMap Errors Ids CaseFolding Provenance Events Commands Aggregates Writers.
From S2P Require Import IdentityDomain IdentityStore IdentityApp.

Module IdentityWorld.
Import IdentityFailures IdentityStore IdentityPolicy IdentityPorts IdentityCommands.
Import (hints) Identity Session Challenge Credential.
Import Identity(Identity, i_id, i_status, i_version).
Import Session(Session, s_id, s_identityId, s_status, s_createdAt, s_version).
Import Challenge(Challenge, v_id, v_identityId, v_purpose, v_version).
Import Credential(Credential, c_id, c_identityId, c_email, c_status, c_updatedAt).

(** ** Identities and challenges are versioned aggregates. *)

#[export, refine] Instance Identity_aggregate : Aggregate Identity := {
  agg_id := i_id; agg_version := i_version; agg_saved := Identity.saved;
  agg_new i := exists id t, Identity.register id t = Ok i;
  agg_change := Identity.step
}.
Proof.
  - done.
  - done.
  - intros i (id & t & H). unfold Identity.register in H. by ok_branches H.
  - intros i i' [j t j' H|j t j' H|j t j' H|j t j' H];
      [unfold Identity.verify in H|unfold Identity.suspend in H|unfold Identity.disable in H|unfold Identity.reactivate in H]; by ok_branches H.
  - intros i i' [j t j' H|j t j' H|j t j' H|j t j' H];
      [unfold Identity.verify in H|unfold Identity.suspend in H|unfold Identity.disable in H|unfold Identity.reactivate in H]; by ok_branches H.
Defined.

(** A consumption keeps everything but the status and its time. *)
Lemma consume_fixed c t c' :
  Challenge.consume c t = Ok c' ->
  c'.(v_id) = c.(v_id) /\ c'.(v_identityId) = c.(v_identityId) /\ c'.(v_purpose) = c.(v_purpose)
  /\ c'.(v_version) = c.(v_version) /\ c.(Challenge.v_status) = Challenge.issued /\ c'.(Challenge.v_status) = Challenge.consumed.
Proof.
  intros H. unfold Challenge.consume in H. ok_branches H. split_and!; try done.
  apply bool_decide_eq_false in E1. by destruct (Challenge.v_status c).
Qed.

#[export, refine] Instance StoredChallenge_aggregate : Aggregate StoredChallenge := {
  agg_id c := c.(sc_challenge).(v_id);
  agg_version c := c.(sc_challenge).(v_version);
  agg_saved c := mkStoredChallenge (Challenge.saved c.(sc_challenge)) c.(sc_tokenDigest);
  agg_new c := exists input, Challenge.issue input = Ok c.(sc_challenge);
  agg_change c c' := c'.(sc_tokenDigest) = c.(sc_tokenDigest) /\ exists t, Challenge.consume c.(sc_challenge) t = Ok c'.(sc_challenge)
}.
Proof.
  - done.
  - done.
  - intros [v d] (input & H). cbn in H |- *. unfold Challenge.issue in H. by ok_branches H.
  - by intros c c' (_ & t & (? & _)%consume_fixed).
  - by intros c c' (_ & t & (_ & _ & _ & ? & _)%consume_fixed).
Defined.

Lemma register_new id t i : Identity.register id t = Ok i -> i.(i_id) = id /\ i.(i_status) = Identity.pending_verification.
Proof. unfold Identity.register. intros H. by ok_branches H. Qed.

Lemma verify_active i t v : Identity.verify i t = Ok v -> v.(i_status) = Identity.active /\ i.(i_status) = Identity.pending_verification.
Proof.
  unfold Identity.verify. intros H. ok_branches H. split; [done|]. breflect.
  by apply bool_decide_eq_true in E0.
Qed.

(** No operation returns an identity to its first state. *)
Lemma step_leaves i i' : Identity.step i i' -> i'.(i_status) <> Identity.pending_verification.
Proof.
  intros [j t j' H|j t j' H|j t j' H|j t j' H];
    [unfold Identity.verify in H|unfold Identity.suspend in H|unfold Identity.disable in H|unfold Identity.reactivate in H]; by ok_branches H.
Qed.

Lemma evo_opened i i' :
  rtc evo i i' -> i.(i_status) <> Identity.pending_verification -> i'.(i_status) <> Identity.pending_verification.
Proof. induction 1 as [i|i x i' (c & Hc & ->) _ IH]; [done|]. intros _. apply IH. by apply step_leaves in Hc. Qed.

Lemma revoke_fixed s t s' :
  Session.revoke s t = Ok s' -> s'.(s_id) = s.(s_id) /\ s'.(s_identityId) = s.(s_identityId) /\ s'.(s_status) = Session.revoked
    /\ s'.(s_version) = s.(s_version) /\ s.(s_status) = Session.active.
Proof.
  unfold Session.revoke. intros H. ok_branches H. split_and!; try done.
  apply bool_decide_eq_false in E1. by destruct (s_status s).
Qed.

(** Changes of a credential compose, and keep its identity and address. *)
Lemma path_trans b b' c d e : Credential.path b c d -> Credential.path b' d e -> Credential.path (b || b') c e.
Proof.
  intros H1 H2. revert b c H1. induction H2 as [d|b' d x t e Hp IH He|b' d x t e Hp IH He]; intros b c H1.
  - by rewrite orb_false_r.
  - eapply Credential.path_revoke; [by apply IH|exact He].
  - rewrite orb_true_r. eapply Credential.path_change; [by apply IH|exact He].
Qed.

Lemma path_fixed b c d : Credential.path b c d -> d.(c_id) = c.(c_id) /\ d.(c_identityId) = c.(c_identityId) /\ d.(c_email) = c.(c_email).
Proof.
  induction 1 as [c|b c d t e _ IH He|b c d t e _ IH He]; [done| |].
  - unfold Credential.revoke in He. by ok_branches He.
  - unfold Credential.changeSecret in He. by ok_branches He.
Qed.

(** ** The world. *)

(** The stores and [store.events]. *)
Abbreviation World := (Writers.World Stores).

Definition identityAt (w : World) (id : ID) (i : Identity) : Prop := JsMap.get id w.(stores).(identities) = Some i.
Definition credentialAt (w : World) (id : ID) (c : Credential) : Prop := JsMap.get id w.(stores).(credentials) = Some c.
Definition hashAt (w : World) (id : ID) (h : jstring) : Prop := JsMap.get id w.(stores).(passwordHashes) = Some h.
Definition challengeAt (w : World) (id : ID) (c : StoredChallenge) : Prop := JsMap.get id w.(stores).(challenges) = Some c.
Definition sessionAt (w : World) (id : ID) (s : StoredSession) : Prop := JsMap.get id w.(stores).(sessions) = Some s.

(** The identity is stored and was verified once. *)
Definition opened (w : World) (identityId : ID) : Prop :=
  exists i, identityAt w identityId i /\ i.(i_status) <> Identity.pending_verification.

Section Exec.
  Context `{CaseFolding}.
  (** SHA-256 of a token, the check of a password against a hash, and the
      failures a dependency may report. *)
  Context (digestToken : jstring -> jstring) (matches : jstring -> jstring -> bool) (outage : Failure -> Prop).

(** What a fallible synchronous reader answers, or an outage. *)
Definition reports {A} (v r : Res A) : Prop := r = v \/ exists f, r = Err f /\ outage f.

(** The ports: the readers and writers over the store, any clock, any
    identifiers, a hasher whose hash the password matches, any mailer.
    Identifiers are unique ([Ids.newIds_strictly_increasing]): a registration is
    not committed under the identifier of a stored credential, which its writer
    does not check. *)
Definition exec (op : Op) : World -> Ans op -> World -> Prop :=
  match op with
  | now => fun w r w' => w' = w
  | newId => fun w r w' => w' = w
  | aborted => fun w r w' => w' = w
  | readIdentity id => fun w r w' => answers outage (findIdentity id w.(stores)) r /\ w' = w
  | readView id => fun w r w' => answers outage (findView id w.(stores)) r /\ w' = w
  | readByEmail email => fun w r w' => reports (findByEmail email w.(stores)) r /\ w' = w
  | readByIdentity id => fun w r w' => reports (findByIdentity id w.(stores)) r /\ w' = w
  | readChallenge id => fun w r w' => answers outage (findChallenge id w.(stores)) r /\ w' = w
  | readByToken token => fun w r w' => answers outage (findByToken digestToken token w.(stores)) r /\ w' = w
  | readActive id => fun w r w' => answers outage (listActive id w.(stores)) r /\ w' = w
  | verifyPassword password hash => fun w r w' => answers outage (matches password hash) r /\ w' = w
  | verifyDecoy password => fun w r w' => answers outage tt r /\ w' = w
  | hashPassword password => fun w r w' =>
      match r with Ok hash => matches password hash = true | Err f => outage f end /\ w' = w
  | issueToken => fun w r w' =>
      match r with Ok t => t.(tm_digest) = digestToken t.(tm_token) | Err f => outage f end /\ w' = w
  | verifyToken token digest => fun w r w' => answers outage (bool_decide (digestToken token = digest)) r /\ w' = w
  | recordActivity id at_ => fun w r w' =>
      (r = Ok tt /\ w' = mkWorld (record id at_ w.(stores)) w.(published)) \/ (exists f, r = Err f /\ outage f /\ w' = w)
  | pruneSessions endedBefore idleBefore limit => fun w r w' =>
      (exists n s, IdentityStore.prune endedBefore idleBefore limit w.(stores) = (n, s) /\ r = Ok n /\ w' = mkWorld s w.(published))
      \/ (exists f, r = Err f /\ outage f /\ w' = w)
  | sendVerification _ => fun w r w' => w' = w
  | sendPasswordReset _ => fun w r w' => w' = w
  | sendAccountExists _ => fun w r w' => w' = w
  | saveRegistration input => fun w r w' =>
      (JsMap.get input.(rg_credential).(c_id) w.(stores).(credentials) = None /\ commits outage (commitRegistration input) w r w')
      \/ (exists f, r = Err f /\ outage f /\ w' = w)
  | saveChallenge input => commits outage (commitChallenge input)
  | saveVerification input => commits outage (commitVerification input)
  | saveSession input => commits outage (commitSession input)
  | saveRevocation input => commits outage (commitRevocation input)
  | saveReset input => commits outage (commitReset input)
  end.

(** ** What the commands keep, and what they promise each other. *)
  Context (presented : jstring -> Prop).

(** The identity's password is one that was presented. *)
Definition proven (w : World) (identityId : ID) : Prop :=
  exists id c h p, credentialAt w id c /\ c.(c_identityId) = identityId /\ hashAt w id h
    /\ presented p /\ matches p h = true.

Record Inv (w : World) : Prop := mkInv {
  inv_identities : keyed w.(stores).(identities);
  inv_credentials : keyedBy c_id w.(stores).(credentials);
  inv_challenges : keyed w.(stores).(challenges);
  inv_sessions : keyedBy (fun st => st.(ss_session).(s_id)) w.(stores).(sessions);
  (** Every record is one its class reads back. *)
  inv_wf_identity : forall id i, identityAt w id i -> Identity.wf i;
  inv_wf_credential : forall id c, credentialAt w id c -> Credential.wf c;
  inv_wf_challenge : forall id c, challengeAt w id c -> Challenge.wf c.(sc_challenge);
  inv_wf_session : forall id st, sessionAt w id st -> Session.wf st.(ss_session);
  inv_version_identity : forall id i, identityAt w id i -> FIRST <= i.(i_version);
  inv_version_challenge : forall id c, challengeAt w id c -> FIRST <= c.(sc_challenge).(v_version);
  inv_version_session : forall id st, sessionAt w id st -> FIRST <= st.(ss_session).(s_version);
  (** One credential per address and per identity, with its identity and hash. *)
  inv_email : forall a b c c', credentialAt w a c -> credentialAt w b c' -> c.(c_email) = c'.(c_email) -> a = b;
  inv_single : forall a b c c', credentialAt w a c -> credentialAt w b c' -> c.(c_identityId) = c'.(c_identityId) -> a = b;
  inv_account : forall id c, credentialAt w id c ->
    (exists i, identityAt w c.(c_identityId) i) /\ (exists h, hashAt w id h);
  (** Sessions belong to verified identities; active ones to identities whose
      current password was presented. *)
  inv_opened : forall id st, sessionAt w id st -> opened w st.(ss_session).(s_identityId);
  inv_proven : forall id st, sessionAt w id st -> st.(ss_session).(s_status) = Session.active ->
    proven w st.(ss_session).(s_identityId)
}.

(** Identities and challenges evolve by their classes' operations; credentials
    stay, and their hashes change only together with their secrets. *)
Record Rel (w w' : World) : Prop := mkRel {
  rel_identities : evolves w.(stores).(identities) w'.(stores).(identities);
  rel_challenges : evolves w.(stores).(challenges) w'.(stores).(challenges);
  rel_credentials : forall id c h, credentialAt w id c -> hashAt w id h ->
    exists b c' h', credentialAt w' id c' /\ hashAt w' id h' /\ Credential.path b c c' /\ (b = false -> c' = c /\ h' = h)
}.

Lemma identity_rel_refl w : Rel w w.
Proof.
  constructor; [apply evolves_refl..|]. intros id c h Hc Hh. exists false, c, h. split_and!; try done. constructor.
Qed.

Lemma identity_rel_trans a b c : Rel a b -> Rel b c -> Rel a c.
Proof.
  intros [I1 C1 K1] [I2 C2 K2]. constructor; [by eapply evolves_trans..|].
  intros id x h Hx Hh. destruct (K1 id x h Hx Hh) as (f1 & x1 & h1 & Hx1 & Hh1 & P1 & E1).
  destruct (K2 id x1 h1 Hx1 Hh1) as (f2 & x2 & h2 & Hx2 & Hh2 & P2 & E2).
  exists (f1 || f2), x2, h2. split_and!; [done|done|by eapply path_trans|].
  intros [-> ->]%orb_false_iff. destruct (E2 eq_refl) as [-> ->]. by apply E1.
Qed.

Lemma opened_rel w w' id : Rel w w' -> opened w id -> opened w' id.
Proof.
  intros Hr (i & Hi & Hs). destruct (ev_chain _ _ (rel_identities _ _ Hr) _ _ Hi) as (i' & Hi' & Hev).
  exists i'. split; [exact Hi'|by eapply evo_opened].
Qed.

Lemma identity_stays w w' id i : Rel w w' -> identityAt w id i -> exists i', identityAt w' id i'.
Proof. intros Hr Hi. destruct (ev_chain _ _ (rel_identities _ _ Hr) _ _ Hi) as (i' & Hi' & _). eauto. Qed.

(** Publishing more changes nothing else. *)
Lemma identity_refused w sent : Inv w -> let w' := mkWorld w.(stores) (w.(published) ++ sent) in Inv w' /\ Rel w w'.
Proof.
  intros [] w'. split; [by constructor|]. destruct (identity_rel_refl w). by constructor.
Qed.

(** What was read of a credential: while its update time is unchanged, so are
    it and its hash. *)
Lemma unchanged_credential w w' id c h c' :
  Inv w -> Rel w w' -> credentialAt w id c -> hashAt w id h -> credentialAt w' id c' ->
  c'.(c_updatedAt) = c.(c_updatedAt) -> c' = c /\ hashAt w' id h.
Proof.
  intros HI Hr Hc Hh Hc' Ht. destruct (rel_credentials _ _ Hr id c h Hc Hh) as (b & c2 & h2 & Hc2 & Hh2 & Hp & He).
  unfold credentialAt in Hc', Hc2. rewrite Hc2 in Hc'. injection Hc' as ->.
  destruct b; [|by destruct (He eq_refl) as [-> <-]].
  destruct (Credential.credential_secret_token _ _ _ (inv_wf_credential _ HI _ _ Hc) Hp) as [_ Hlt].
  specialize (Hlt eq_refl). rewrite Ht in Hlt. exfalso. destruct (c_updatedAt c); cbn in Hlt; breflect; [done|lia].
Qed.

(** ** What each write does to the world. *)

(** A session that a command read or made, and one the store keeps. *)
Definition standing (w : World) (s : Session) : Prop := Session.wf s /\ UNSAVED <= s.(s_version) /\ opened w s.(s_identityId).
Definition filed (w : World) (s : Session) : Prop := Session.wf s /\ FIRST <= s.(s_version) /\ opened w s.(s_identityId).

Lemma standing_rel w w' s : Rel w w' -> standing w s -> standing w' s.
Proof. intros Hr (? & ? & ?). split_and!; [done|done|by eapply opened_rel]. Qed.

Lemma filed_standing w s : filed w s -> standing w s.
Proof. unfold FIRST, UNSAVED. intros (? & ? & ?). split_and!; [done|unfold FIRST, UNSAVED in *; lia|done]. Qed.

Lemma standing_saved w s : standing w s -> filed w (Session.saved s).
Proof.
  intros (Hw & Hv & Ho). split_and!; [eapply Session.session_step_wf; [exact Hw|constructor]| |done].
  cbn. unfold FIRST, UNSAVED in *. lia.
Qed.

(** New sessions over the same records. *)
Lemma sessions_world w m sent :
  Inv w -> keyedBy (fun st => st.(ss_session).(s_id)) m ->
  (forall id st, JsMap.get id m = Some st ->
     filed w st.(ss_session)
     /\ (st.(ss_session).(s_status) = Session.active -> proven w st.(ss_session).(s_identityId))) ->
  let w' := mkWorld (withSessions m w.(stores)) sent in Inv w' /\ Rel w w'.
Proof.
  intros [] Hm Hok w'. split; [|destruct (identity_rel_refl w); by constructor].
  constructor; try done; intros id st Hst; by apply (Hok id st).
Qed.

(** A session a command ended: revoked, and of a verified identity. *)
Definition ended (w : World) (e : SessionEviction) : Prop :=
  standing w e.(ev_session) /\ e.(ev_session).(s_status) = Session.revoked.

Lemma ended_rel w w' e : Rel w w' -> ended w e -> ended w' e.
Proof. intros Hr [? ?]. split; [by eapply standing_rel|done]. Qed.

Lemma stored_filed w id st : Inv w -> sessionAt w id st -> filed w st.(ss_session).
Proof. intros [] Hst. split_and!; eauto. Qed.

(** Ending sessions keeps the map keyed. *)
Lemma endAll_keyed l m : keyedBy (fun st => st.(ss_session).(s_id)) m -> keyedBy (fun st => st.(ss_session).(s_id)) (endAll l m).
Proof.
  revert m. induction l as [|e l IH]; intros m Hm; [done|]. rewrite endAll_cons. apply IH.
  destruct (JsMap.get _ m) as [st|]; [|done].
  exact (keyedBy_set (fun st => st.(ss_session).(s_id)) m (mkStoredSession (Session.saved (ev_session e)) _) Hm).
Qed.

(** What a session of the store is after some were ended. *)
Lemma endAll_stored w l id st :
  Inv w -> Forall (ended w) l -> JsMap.get id (endAll l w.(stores).(sessions)) = Some st ->
  filed w st.(ss_session)
  /\ (st.(ss_session).(s_status) = Session.active -> sessionAt w id st /\ id ∉ endedIds l).
Proof.
  intros HI Hl [[Hst Hid]|(e & old & He & _ & _ & ->)]%endAll_cases.
  - split; [by eapply stored_filed|done].
  - rewrite Forall_forall in Hl. destruct (Hl e He) as [Hs Hr]. split; [by apply standing_saved|].
    cbn. rewrite Hr. done.
Qed.

(** Passwords stay proven while credentials and hashes stay. *)
Lemma proven_kept w w' x :
  (forall id c h, credentialAt w id c -> hashAt w id h -> c.(c_identityId) = x -> credentialAt w' id c /\ hashAt w' id h) ->
  proven w x -> proven w' x.
Proof.
  intros Hk (id & c & h & p & Hc & Hx & Hh & Hp & Hm). destruct (Hk id c h Hc Hh Hx) as [Hc' Hh'].
  by exists id, c, h, p.
Qed.

(** The stores with one kind of record replaced. *)
Definition setIdentities (m : list (ID * Identity)) (s : Stores) : Stores :=
  mkStores m s.(credentials) s.(passwordHashes) s.(challenges) s.(sessions).
Definition setCredentials (m : list (ID * Credential)) (hs : list (ID * jstring)) (s : Stores) : Stores :=
  mkStores s.(identities) m hs s.(challenges) s.(sessions).
Definition setChallenges (m : list (ID * StoredChallenge)) (s : Stores) : Stores :=
  mkStores s.(identities) s.(credentials) s.(passwordHashes) m s.(sessions).

(** More identities, or identities later in their lives. *)
Lemma identities_world w m sent :
  Inv w -> keyed m -> evolves w.(stores).(identities) m -> (forall id i, JsMap.get id m = Some i -> Identity.wf i /\ FIRST <= i.(i_version)) ->
  let w' := mkWorld (setIdentities m w.(stores)) sent in Inv w' /\ Rel w w'.
Proof.
  intros HI Hm He Hwf w'. assert (Hr : Rel w w') by (destruct (identity_rel_refl w); by constructor).
  split; [|done]. destruct HI. constructor; try done; try by intros id i Hi; apply (Hwf id i).
  - intros id c Hc. destruct (inv_account0 id c Hc) as [[i Hi] Hh]. split; [by eapply identity_stays|done].
  - intros id st Hst. by eapply opened_rel, inv_opened0.
Qed.

Lemma verified_world w i t v p sent :
  Inv w -> seen w.(stores).(identities) i -> Identity.verify i t = Ok v -> identityAt w v.(i_id) p -> p.(i_version) = v.(i_version) ->
  let w' := mkWorld (setIdentities (write v w.(stores).(identities)) w.(stores)) sent in Inv w' /\ Rel w w'.
Proof.
  intros HI Hs Hv Hp Hver. assert (Hstep : Identity.step i v) by (by eapply Identity.step_verify).
  destruct (write_change i v p _ Hs Hstep Hp Hver) as (-> & He & _).
  apply identities_world; [done|by apply keyed_write, HI|done|].
  intros id x [[-> ->]|[_ Hx]]%holds_write; [|split; [by eapply inv_wf_identity|by eapply inv_version_identity]].
  assert (Hw : Identity.wf v) by (eapply Identity.identity_step_wf; [by eapply inv_wf_identity|exact Hstep]).
  pose proof (inv_version_identity _ HI _ _ Hp). split; [destruct Hw; by constructor|]. cbn. lia.
Qed.

(** More challenges, or consumed ones. *)
Lemma challenges_world w c sent :
  Inv w -> Challenge.wf c.(sc_challenge) -> UNSAVED <= c.(sc_challenge).(v_version) -> evolves w.(stores).(challenges) (write c w.(stores).(challenges)) ->
  let w' := mkWorld (setChallenges (write c w.(stores).(challenges)) w.(stores)) sent in Inv w' /\ Rel w w'.
Proof.
  intros HI Hw Hv He w'. split; [|destruct (identity_rel_refl w); by constructor].
  destruct HI. constructor; try done; [by apply keyed_write| |].
  - intros id x [[-> ->]|[_ Hx]]%holds_write; [|by eapply inv_wf_challenge0]. destruct Hw. by constructor.
  - intros id x [[-> ->]|[_ Hx]]%holds_write; [|by eapply inv_version_challenge0]. cbn. unfold FIRST, UNSAVED in *. lia.
Qed.

Lemma consumed_world w c t c' p sent :
  Inv w -> seen w.(stores).(challenges) c -> Challenge.consume c.(sc_challenge) t = Ok c' ->
  challengeAt w c'.(v_id) p -> p.(sc_challenge).(v_version) = c'.(v_version) ->
  let w' := mkWorld (setChallenges (write (mkStoredChallenge c' p.(sc_tokenDigest)) w.(stores).(challenges)) w.(stores)) sent in
  Inv w' /\ Rel w w'.
Proof.
  intros HI Hs Hc Hp Hv.
  assert (Hp' : p = c /\ p.(sc_tokenDigest) = c.(sc_tokenDigest)).
  { destruct (write_change c (mkStoredChallenge c' c.(sc_tokenDigest)) p _ Hs) as (-> & _); try done. split; [done|]. by exists t. }
  destruct Hp' as [-> _].
  destruct (write_change c (mkStoredChallenge c' c.(sc_tokenDigest)) c _ Hs) as (_ & He & _); try done; [split; [done|by exists t]|].
  pose proof (inv_version_challenge _ HI _ _ Hp). apply challenges_world; [done| |unfold FIRST, UNSAVED in *; cbn; lia|done].
  cbn. eapply Challenge.challenge_consume_wf; [|exact Hc]. by eapply inv_wf_challenge.
Qed.

(** A new secret for a credential none of whose sessions is active. *)
Lemma changed_world w c t c' h sent :
  Inv w -> credentialAt w c.(c_id) c -> Credential.changeSecret c t = Ok c' ->
  (forall id st, sessionAt w id st -> st.(ss_session).(s_identityId) = c.(c_identityId) ->
     st.(ss_session).(s_status) <> Session.active) ->
  let w' := mkWorld (setCredentials (JsMap.set c'.(c_id) c' w.(stores).(credentials))
                       (JsMap.set c'.(c_id) h w.(stores).(passwordHashes)) w.(stores)) sent in
  Inv w' /\ Rel w w'.
Proof.
  intros HI Hp Hc Hno w'.
  assert (Hpath : Credential.path true c c') by (eapply Credential.path_change; [constructor|exact Hc]).
  destruct (path_fixed _ _ _ Hpath) as (Hid & Hii & Hem).
  assert (Hcred : forall id x, credentialAt w' id x -> (id = c.(c_id) /\ x = c') \/ (id <> c.(c_id) /\ credentialAt w id x)).
  { intros id x. unfold credentialAt. cbn. rewrite Hid, JsMap.get_set. destruct (decide (c_id c = id)); naive_solver. }
  assert (Hold : forall id x, credentialAt w' id x -> exists y, credentialAt w id y
    /\ y.(c_identityId) = x.(c_identityId) /\ y.(c_email) = x.(c_email)).
  { intros id x [[-> ->]|[_ Hx]]%Hcred; [|eauto]. exists c. split_and!; congruence. }
  split; [|constructor; [apply evolves_refl..|]].
  - destruct HI. constructor; try done.
    + by apply keyedBy_set.
    + intros id x [[-> ->]|[_ Hx]]%Hcred; [|by eapply inv_wf_credential0].
      eapply Credential.credential_change_wf; [by eapply inv_wf_credential0|exact Hc].
    + intros a b x y Hx Hy Heq. destruct (Hold a x Hx) as (x0 & Hx0 & _ & Ex). destruct (Hold b y Hy) as (y0 & Hy0 & _ & Ey).
      apply (inv_email0 a b x0 y0); congruence.
    + intros a b x y Hx Hy Heq. destruct (Hold a x Hx) as (x0 & Hx0 & Ex & _). destruct (Hold b y Hy) as (y0 & Hy0 & Ey & _).
      apply (inv_single0 a b x0 y0); congruence.
    + intros id x Hx. destruct (Hold id x Hx) as (x0 & Hx0 & Ex & _). destruct (inv_account0 id x0 Hx0) as [Hi [h0 Hh]].
      split; [by rewrite <- Ex|]. unfold hashAt. cbn. rewrite JsMap.get_set. destruct (decide _); [by eexists|]. by exists h0.
    + intros id st Hst Hact. apply (proven_kept w); [|by eapply inv_proven0].
      intros x y hy Hy Hhy Hxy. assert (x <> c.(c_id)).
      { intros ->. assert (y = c) as -> by (unfold credentialAt in Hy, Hp; congruence). by apply (Hno id st). }
      unfold credentialAt, hashAt. cbn. rewrite Hid, !JsMap.get_set_ne by done. done.
  - intros id x hx Hx Hhx. destruct (decide (id = c.(c_id))) as [->|Hne].
    + assert (x = c) as -> by (unfold credentialAt in Hx, Hp; congruence). exists true, c', h.
      unfold credentialAt, hashAt. cbn. rewrite Hid, !JsMap.get_set_eq. done.
    + exists false, x, hx. unfold credentialAt, hashAt. cbn. rewrite Hid, !JsMap.get_set_ne by done.
      split_and!; try done. constructor.
Qed.

Lemma registered_world w i id t c h sent :
  Inv w -> Identity.register id t = Ok i -> Credential.wf c -> c.(c_identityId) = i.(i_id) ->
  JsMap.get i.(i_id) w.(stores).(identities) = None -> JsMap.get c.(c_id) w.(stores).(credentials) = None ->
  (forall x, x ∈ JsMap.values w.(stores).(credentials) -> x.(c_email) <> c.(c_email)) ->
  let s := w.(stores) in
  let w' := mkWorld (mkStores (write i s.(identities)) (JsMap.set c.(c_id) c s.(credentials))
                       (JsMap.set c.(c_id) h s.(passwordHashes)) s.(challenges) s.(sessions)) sent in
  Inv w' /\ Rel w w'.
Proof.
  intros HI Hi Hc Hci Hni Hnc Hmail s w'.
  assert (Hcred : forall a x, credentialAt w' a x <-> (a = c.(c_id) /\ x = c) \/ (a <> c.(c_id) /\ credentialAt w a x)).
  { intros a x. unfold credentialAt. cbn. rewrite JsMap.get_set. destruct (decide (c_id c = a)); naive_solver. }
  assert (Hfresh : forall a x, credentialAt w a x -> a <> c.(c_id)).
  { intros a x Hx ->. unfold credentialAt in Hx. by rewrite Hnc in Hx. }
  assert (Hother : forall a x, credentialAt w a x -> x.(c_identityId) <> c.(c_identityId) /\ x.(c_email) <> c.(c_email)).
  { intros a x Hx. split.
    - rewrite Hci. destruct (inv_account _ HI a x Hx) as [[j Hj] _]. intros He. unfold identityAt in Hj. rewrite He, Hni in Hj. done.
    - apply Hmail, JsMap.elem_values; [apply HI|]. by exists a. }
  assert (Hr : Rel w w').
  { constructor; [|apply evolves_refl|].
    - apply write_new; [by exists id, t|done].
    - intros a x hx Hx Hhx. exists false, x, hx. split_and!; [apply Hcred; right; split; [by eapply Hfresh|done]| |constructor|done].
      unfold hashAt. cbn. rewrite JsMap.get_set_ne by (symmetry; by eapply Hfresh). exact Hhx. }
  split; [|done]. destruct HI. constructor; try done.
  - by apply keyed_write.
  - by apply keyedBy_set.
  - intros a x [[-> ->]|[_ Hx]]%holds_write; [|by eapply inv_wf_identity0].
    assert (Hw : Identity.wf i) by (by eapply Identity.identity_register_wf). destruct Hw. by constructor.
  - intros a x [[-> ->]|[_ Hx]]%Hcred; [done|by eapply inv_wf_credential0].
  - intros a x [[-> ->]|[_ Hx]]%holds_write; [|by eapply inv_version_identity0].
    assert (Hv : i.(i_version) = UNSAVED) by (clear -Hi; unfold Identity.register in Hi; by ok_branches Hi). cbn. unfold FIRST, UNSAVED in *. lia.
  - intros a b x y [[-> ->]|[_ Hx]]%Hcred [[-> ->]|[_ Hy]]%Hcred He; [done| | |by eapply inv_email0].
    + destruct (Hother b y Hy) as [_ Hn]. by rewrite He in Hn.
    + by destruct (Hother a x Hx) as [_ Hn].
  - intros a b x y [[-> ->]|[_ Hx]]%Hcred [[-> ->]|[_ Hy]]%Hcred He; [done| | |by eapply inv_single0].
    + destruct (Hother b y Hy) as [Hn _]. by rewrite He in Hn.
    + by destruct (Hother a x Hx) as [Hn _].
  - intros a x [[-> ->]|[Hne Hx]]%Hcred.
    + split; [exists (Identity.saved i); apply holds_write; by left|]. exists h. unfold hashAt. cbn. by rewrite JsMap.get_set_eq.
    + destruct (inv_account0 a x Hx) as [[j Hj] [hx Hh]]. split; [by eapply identity_stays|]. exists hx.
      unfold hashAt. cbn. by rewrite JsMap.get_set_ne by done.
  - intros a st Hst. by eapply opened_rel, inv_opened0.
  - intros a st Hst Hact. apply (proven_kept w); [|by eapply inv_proven0].
    intros x y hy Hy Hhy _. split; [apply Hcred; right; split; [by eapply Hfresh|done]|].
    unfold hashAt. cbn. rewrite JsMap.get_set_ne by (symmetry; by eapply Hfresh). exact Hhy.
Qed.

(** Pruning only removes. *)
Lemma pruneLoop_keeps endedBefore idleBefore limit entries n m :
  keyedBy (fun st => st.(ss_session).(s_id)) m ->
  let m' := (pruneLoop endedBefore idleBefore limit entries n m).2 in
  keyedBy (fun st => st.(ss_session).(s_id)) m' /\ forall id st, JsMap.get id m' = Some st -> JsMap.get id m = Some st.
Proof.
  revert n m. induction entries as [|[id st] entries IH]; intros n m Hm; cbn; [done|].
  destruct (limit <=? n); [done|]. destruct (prunable _ _ _); [|by apply IH].
  assert (Hd : forall a x, JsMap.get a (JsMap.delete id m) = Some x -> JsMap.get a m = Some x).
  { intros a x Ha. destruct (decide (id = a)) as [->|Hne]; [by rewrite JsMap.get_delete_eq in Ha|by rewrite JsMap.get_delete_ne in Ha]. }
  assert (Hk : keyedBy (fun st => st.(ss_session).(s_id)) (JsMap.delete id m)).
  { destruct Hm as [Hw Hk]. split; [by apply JsMap.wf_delete|]. intros a x Ha. by apply Hk, Hd. }
  destruct (IH (n + 1) _ Hk) as [H1 H2]. split; [done|]. intros a x Ha. by apply Hd, H2.
Qed.

(** A session of the store, with what the invariant says of it. *)
Lemma session_facts w id st : Inv w -> sessionAt w id st ->
  filed w st.(ss_session)
  /\ (st.(ss_session).(s_status) = Session.active -> proven w st.(ss_session).(s_identityId)).
Proof. intros HI Hst. split; [by eapply stored_filed|by eapply inv_proven]. Qed.

Lemma pruned_world w endedBefore idleBefore limit n s :
  Inv w -> IdentityStore.prune endedBefore idleBefore limit w.(stores) = (n, s) ->
  Inv (mkWorld s w.(published)) /\ Rel w (mkWorld s w.(published)).
Proof.
  intros HI. unfold IdentityStore.prune.
  pose proof (pruneLoop_keeps endedBefore idleBefore limit w.(stores).(sessions) 0 _ (inv_sessions _ HI)) as [Hk Hg].
  destruct (pruneLoop _ _ _ _ _ _) as [n' m]. cbn in Hk, Hg. intros [= <- <-].
  apply sessions_world; [done|done|]. intros id st Hst. by apply (session_facts _ id), Hg.
Qed.

Lemma seen_fixed s t : (Session.seen s t).(s_id) = s.(s_id) /\ (Session.seen s t).(s_identityId) = s.(s_identityId)
  /\ (Session.seen s t).(s_status) = s.(s_status) /\ (Session.seen s t).(s_version) = s.(s_version).
Proof. unfold Session.seen. by destruct (_ || _). Qed.

Lemma recorded_world w id at_ :
  Inv w -> Inv (mkWorld (record id at_ w.(stores)) w.(published)) /\ Rel w (mkWorld (record id at_ w.(stores)) w.(published)).
Proof.
  intros HI. unfold record. destruct (JsMap.get id _) as [st|] eqn:Est; [|destruct w; split; [done|apply identity_rel_refl]].
  pose proof (inv_sessions _ HI) as [_ Hkey]. pose proof (Hkey _ _ Est) as Hid. destruct (seen_fixed st.(ss_session) at_) as (H1 & H2 & H3 & H4).
  apply sessions_world; [done| |].
  - rewrite <- Hid, <- H1. exact (keyedBy_set (fun x => x.(ss_session).(s_id)) _ (mkStoredSession (Session.seen st.(ss_session) at_) _) (inv_sessions _ HI)).
  - intros a x. rewrite JsMap.get_set. destruct (decide (id = a)) as [<-|Hne]; [|by apply session_facts].
    intros [= <-]. cbn. rewrite H2, H3. destruct (session_facts _ _ _ HI Est) as [(Hw & Hv & Ho) Hp]. split; [|done].
    split_and!; [eapply Session.session_step_wf; [exact Hw|constructor]|by rewrite H4|by rewrite H2].
Qed.

(** ** The rules for the calls that write. *)
Abbreviation safe := (wp exec Inv Rel).
Abbreviation refuses k post w := (forall f w2, Rel w w2 -> Inv w2 -> safe (k (Err f)) post w2).

#[local] Hint Resolve identity_rel_refl identity_rel_trans ended_rel opened_rel : core.

Lemma identity_read_only op :
  match op with
  | saveRegistration _ | saveChallenge _ | saveVerification _ | saveSession _ | saveRevocation _ | saveReset _
  | recordActivity _ _ | pruneSessions _ _ _ => False
  | _ => True
  end -> forall w1 r w2, exec op w1 r w2 -> w2 = w1.
Proof. by destruct op; cbn; intros ? w1 r w2; intuition. Qed.

Lemma safe_record {A} id at_ (k : Res unit -> Prog Ans A) post w :
  (forall r w2, Rel w w2 -> Inv w2 -> safe (k r) post w2) -> safe (Call (recordActivity id at_) k) post w.
Proof.
  intros Hk. cbn. intros w1 Hr HI r w2 [[-> ->]|(f & -> & _ & ->)]; [|eauto].
  destruct (recorded_world w1 id at_ HI) as [HI2 Hr2]. eauto.
Qed.

Lemma safe_prune {A} endedBefore idleBefore limit (k : Res Z -> Prog Ans A) post w :
  (forall r w2, Rel w w2 -> Inv w2 -> safe (k r) post w2) -> safe (Call (pruneSessions endedBefore idleBefore limit) k) post w.
Proof.
  intros Hk. cbn. intros w1 Hr HI r w2 [(n & s & Hp & -> & ->)|(f & -> & _ & ->)]; [|eauto].
  destruct (pruned_world w1 _ _ _ _ _ HI Hp) as [HI2 Hr2]. eauto.
Qed.

(** A commit that failed. *)
Ltac refused_case HI Herr :=
  match goal with |- Inv (mkWorld (stores ?w1) (published ?w1 ++ ?sent)) /\ _ =>
    let HI2 := fresh in let Hr2 := fresh in
    destruct (identity_refused w1 sent HI) as [HI2 Hr2]; split; [done|]; split; [done|]; apply Herr; [eauto|done] end.

Lemma safe_registration {A} i id t c h e work (k : Res unit -> Prog Ans A) post w :
  Identity.register id t = Ok i -> Credential.wf c -> c.(c_identityId) = i.(i_id) ->
  (forall w2, Rel w w2 -> Inv w2 -> identityAt w2 i.(i_id) (Identity.saved i) -> safe (k (Ok tt)) post w2) ->
  refuses k post w -> safe (Call (saveRegistration (mkRegistration i c h e work)) k) post w.
Proof.
  intros Hi Hc Hci Hok Herr. cbn. intros w1 Hr HI r w2 [[Hfresh He]|(f & -> & _ & ->)];
    [|split; [done|]; split; [apply identity_rel_refl|by apply Herr]].
  destruct (save_registration outage _ _ _ _ He) as [[-> [Hg ->]]|(f & sent & -> & ->)]; [|refused_case HI Herr].
  apply registrationGuard_ok in Hg as [Hni Hmail]. cbn in Hni, Hmail, Hfresh |- *.
  destruct (registered_world w1 i id t c h (published w1 ++ [e]) HI Hi Hc Hci Hni Hfresh Hmail) as [HI2 Hr2].
  split; [exact HI2|]. split; [exact Hr2|]. apply Hok; [eauto|exact HI2|]. apply JsMap.get_set_eq.
Qed.

Lemma safe_challenge {A} input c d e work (k : Res unit -> Prog Ans A) post w :
  Challenge.issue input = Ok c ->
  (forall w2, Rel w w2 -> Inv w2 -> safe (k (Ok tt)) post w2) ->
  refuses k post w -> safe (Call (saveChallenge (mkChallengeCommit c d e work)) k) post w.
Proof.
  intros Hc Hok Herr. cbn. intros w1 Hr HI r w2 He.
  destruct (save_challenge outage _ _ _ _ He) as [[-> [Hg ->]]|(f & sent & -> & ->)]; [|refused_case HI Herr].
  cbn in Hg |- *. destruct (write_new (mkStoredChallenge c d) w1.(stores).(challenges)) as [Hev _]; [by exists input|done|].
  destruct (challenges_world w1 (mkStoredChallenge c d) (published w1 ++ [e]) HI) as [HI2 Hr2]; [by eapply Challenge.challenge_issue_wf|unfold Challenge.issue in Hc; by ok_branches Hc|done|].
  split; [exact HI2|]. split; [exact Hr2|]. apply Hok; [eauto|exact HI2].
Qed.

Lemma safe_verification {A} i v c c' t e work (k : Res unit -> Prog Ans A) post w :
  seen w.(stores).(identities) i -> Identity.verify i t = Ok v ->
  seen w.(stores).(challenges) c -> Challenge.consume c.(sc_challenge) t = Ok c' ->
  (forall w2, Rel w w2 -> Inv w2 -> safe (k (Ok tt)) post w2) ->
  refuses k post w -> safe (Call (saveVerification (mkVerification v c' e work)) k) post w.
Proof.
  intros Hsi Hv Hsc Hc Hok Herr. cbn. intros w1 Hr HI r w2 He.
  destruct (save_verification outage _ _ _ _ He) as [[-> (st & Hg & ->)]|(f & sent & -> & ->)]; [|refused_case HI Herr].
  apply verificationGuard_ok in Hg as ((p & Hp & Hpv) & Hst & _ & Hcv). cbn in Hp, Hpv, Hst, Hcv |- *.
  assert (Hsi1 : seen w1.(stores).(identities) i) by (eapply seen_evolves; [apply Hr|done]).
  assert (Hsc1 : seen w1.(stores).(challenges) c) by (eapply seen_evolves; [apply Hr|done]).
  destruct (verified_world w1 i t v p (published w1) HI Hsi1 Hv Hp Hpv) as [HI2 Hr2].
  destruct (consumed_world _ c t c' st (published w1 ++ [e]) HI2 Hsc1 Hc Hst Hcv) as [HI3 Hr3].
  split; [exact HI3|]. split; [exact (identity_rel_trans _ _ _ Hr2 Hr3)|]. apply Hok; [|exact HI3].
  exact (identity_rel_trans _ _ _ Hr (identity_rel_trans _ _ _ Hr2 Hr3)).
Qed.

(** What a login found: an account and its hash, as they were in an earlier
    world. *)
Definition read (w : World) (account : AuthenticationRecord) : Prop :=
  exists w0, Inv w0 /\ Rel w0 w
    /\ credentialAt w0 account.(ar_credential).(c_id) account.(ar_credential)
    /\ hashAt w0 account.(ar_credential).(c_id) account.(ar_passwordHash)
    /\ identityAt w0 account.(ar_credential).(c_identityId) account.(ar_identity)
    /\ account.(ar_identity).(i_id) = account.(ar_credential).(c_identityId).

Lemma read_rel w w' account : Rel w w' -> read w account -> read w' account.
Proof. intros Hr (w0 & HI & Hr0 & Hrest). exists w0. split; [done|]. split; [eauto|done]. Qed.

(** Nothing about the account's secret changed while its update time did not. *)
Lemma read_current w account updatedAt :
  read w account -> changedCredential account.(ar_credential).(c_id) updatedAt w.(stores) = false ->
  updatedAt = account.(ar_credential).(c_updatedAt) ->
  credentialAt w account.(ar_credential).(c_id) account.(ar_credential)
  /\ hashAt w account.(ar_credential).(c_id) account.(ar_passwordHash).
Proof.
  intros (w0 & HI & Hr & Hc & Hh & _) (cur & Hcur & _ & t & Ht & Hut)%changedCredential_false ->.
  destruct (unchanged_credential w0 w _ _ _ cur HI Hr Hc Hh Hcur) as [-> Hh2]; [congruence|done].
Qed.

Lemma sessionGuard_ok input s :
  sessionGuard input s = Ok tt ->
  JsMap.get input.(sn_session).(s_id) s.(sessions) = None
  /\ changedCredential input.(sn_credential).(c_id) input.(sn_credential).(c_updatedAt) s = false.
Proof.
  unfold sessionGuard, JsMap.has. destruct (JsMap.get _ _); [done|]. by destruct (changedCredential _ _ _).
Qed.

Lemma safe_session {A} s account p d e l work (k : Res unit -> Prog Ans A) post w :
  read w account -> presented p -> matches p account.(ar_passwordHash) = true ->
  account.(ar_identity).(i_status) <> Identity.pending_verification ->
  Session.wf s -> UNSAVED <= s.(s_version) -> s.(s_identityId) = account.(ar_identity).(i_id) -> Forall (ended w) l ->
  (forall w2, Rel w w2 -> Inv w2 -> safe (k (Ok tt)) post w2) ->
  refuses k post w -> safe (Call (saveSession (mkSessionCommit s account.(ar_credential) d e l work)) k) post w.
Proof.
  intros Hread Hp Hm Hst Hs Hsv Hsi Hl Hok Herr. cbn. intros w1 Hr HI r w2 He.
  destruct (save_session outage _ _ _ _ (proj1 (inv_sessions _ HI)) He) as [[-> [Hg ->]]|(f & sent & -> & ->)]; [|refused_case HI Herr].
  apply sessionGuard_ok in Hg as [Hnew Hcur]. cbn in Hnew, Hcur.
  destruct (read_current _ _ _ (read_rel _ _ _ Hr Hread) Hcur eq_refl) as [Hc Hh].
  destruct Hread as (w0 & HI0 & Hr0 & _ & _ & Hi & Hii).
  assert (Hl1 : Forall (ended w1) l) by (eapply Forall_impl; [exact Hl|eauto]).
  assert (Hopen : opened w1 s.(s_identityId)).
  { rewrite Hsi, Hii. apply (opened_rel w0); [eauto|]. by exists account.(ar_identity). }
  assert (Hproof : proven w1 s.(s_identityId)).
  { exists account.(ar_credential).(c_id), account.(ar_credential), account.(ar_passwordHash), p. split_and!; try done. congruence. }
  destruct (sessions_world w1 (sessions (withSession (mkSessionCommit s account.(ar_credential) d e l work) w1.(stores)))
    (published w1 ++ ((ev_event <$> l) ++ [e])) HI) as [HI2 Hr2].
  - exact (keyedBy_set (fun st => st.(ss_session).(s_id)) _ (mkStoredSession (Session.saved s) d) (endAll_keyed l _ (inv_sessions _ HI))).
  - intros id st. cbn. rewrite JsMap.get_set. destruct (decide (s_id s = id)) as [<-|Hne].
    + intros [= <-]. cbn. split; [by apply standing_saved|done].
    + intros Hst2. destruct (endAll_stored w1 l id st HI Hl1 Hst2) as [Hf Ha]. split; [done|].
      intros Hact. destruct (Ha Hact) as [Hat _]. by eapply inv_proven.
  - split; [exact HI2|]. split; [exact Hr2|]. apply Hok; [exact (identity_rel_trans _ _ _ Hr Hr2)|exact HI2].
Qed.

Lemma safe_revocation {A} s e work (k : Res unit -> Prog Ans A) post w :
  ended w (mkEviction s e) ->
  (forall w2, Rel w w2 -> Inv w2 -> safe (k (Ok tt)) post w2) ->
  refuses k post w -> safe (Call (saveRevocation (mkRevocation s e work)) k) post w.
Proof.
  intros Hs Hok Herr. cbn. intros w1 Hr HI r w2 He.
  destruct (save_revocation outage _ _ _ _ He) as [[-> (st & Hg & ->)]|(f & sent & -> & ->)]; [|refused_case HI Herr].
  destruct (ended_rel w w1 _ Hr Hs) as [Hst Hrev]. cbn in Hst, Hrev |- *.
  destruct (sessions_world w1 (JsMap.set s.(s_id) (mkStoredSession (Session.saved s) st.(ss_tokenDigest)) w1.(stores).(sessions))
    (published w1 ++ [e]) HI) as [HI2 Hr2].
  - exact (keyedBy_set (fun st => st.(ss_session).(s_id)) _ (mkStoredSession (Session.saved s) _) (inv_sessions _ HI)).
  - intros id x. rewrite JsMap.get_set. destruct (decide (s_id s = id)) as [<-|Hne]; [|by apply session_facts].
    intros [= <-]. cbn. rewrite Hrev. split; [by apply standing_saved|done].
  - split; [exact HI2|]. split; [exact Hr2|]. apply Hok; [exact (identity_rel_trans _ _ _ Hr Hr2)|exact HI2].
Qed.

(** The world after a reset, one kind of record at a time: the sessions end,
    the secret changes, the identity is verified, the link is consumed. *)
Lemma reset_world w account c' h c t c2 verified l st events work sent :
  Inv w -> credentialAt w account.(ar_credential).(c_id) account.(ar_credential) ->
  account.(ar_identity).(i_id) = account.(ar_credential).(c_identityId) ->
  Credential.changeSecret account.(ar_credential) t = Ok c' ->
  Forall (ended w) l ->
  seen w.(stores).(challenges) c -> Challenge.consume c.(sc_challenge) t = Ok c2 ->
  (forall v, verified = Some v -> seen w.(stores).(identities) account.(ar_identity) /\ Identity.verify account.(ar_identity) t = Ok v) ->
  let input := mkReset c2 c' account.(ar_credential).(c_updatedAt) h verified l events work in
  resetGuard input w.(stores) = Ok st ->
  let w' := mkWorld (withReset input st w.(stores)) sent in
  Inv w' /\ Rel w w'
  /\ (forall id x, sessionAt w' id x -> x.(ss_session).(s_identityId) = account.(ar_identity).(i_id) ->
        x.(ss_session).(s_status) = Session.revoked).
Proof.
  intros HI Hc Hii Hch Hl Hsc Hcons Hver input (_ & Hst & _ & Hcv & Hid & _ & Hall)%resetGuard_ok w'. cbn in Hst, Hcv, Hid, Hall.
  assert (Hci : c'.(c_identityId) = account.(ar_credential).(c_identityId)).
  { assert (Hpath : Credential.path true account.(ar_credential) c') by (eapply Credential.path_change; [constructor|exact Hch]).
    by apply path_fixed in Hpath as (_ & ? & _). }
  destruct (sessions_world w (endAll l w.(stores).(sessions)) sent HI (endAll_keyed l _ (inv_sessions _ HI))) as [HI1 Hr1].
  { intros id x Hx. destruct (endAll_stored w l id x HI Hl Hx) as [Hf Ha]. split; [done|].
    intros Hact. destruct (Ha Hact) as [Hat _]. by eapply inv_proven. }
  set (w1 := mkWorld _ _) in HI1, Hr1.
  assert (Hnone : forall id x, sessionAt w1 id x -> x.(ss_session).(s_identityId) = account.(ar_credential).(c_identityId) ->
    x.(ss_session).(s_status) <> Session.active).
  { intros id x Hx Hxi Hact. destruct (endAll_stored w l id x HI Hl Hx) as [_ Ha]. destruct (Ha Hact) as [Hat Hnot].
    pose proof (inv_sessions _ HI) as Hk. assert (Hkey : s_id (ss_session x) = id) by (by eapply Hk).
    apply Hnot. rewrite <- Hkey. apply Hall.
    - apply (keyedBy_values (fun st => st.(ss_session).(s_id))); [done|]. by rewrite Hkey.
    - unfold activeOf. by rewrite Hci, Hxi, Hact, !bool_decide_eq_true_2. }
  destruct (changed_world w1 account.(ar_credential) t c' h sent HI1 Hc Hch Hnone) as [HI2 Hr2].
  set (w2 := mkWorld _ _) in HI2, Hr2.
  assert (Hids : exists w3, w3 = mkWorld (setIdentities (identities (withReset input st w.(stores))) w2.(stores)) sent /\ Inv w3 /\ Rel w2 w3).
  { eexists. split; [done|]. cbn [withReset input rs_identity identities]. destruct verified as [v|]; [|destruct w; split; [exact HI2|apply identity_rel_refl]].
    destruct (Hver v eq_refl) as [Hs Hv]. destruct (Hid v eq_refl) as (p & Hp & Hpv).
    by apply (verified_world w2 account.(ar_identity) t v p sent). }
  destruct Hids as (w3 & -> & HI3 & Hr3). set (w3 := mkWorld _ _) in HI3, Hr3.
  destruct (consumed_world w3 c t c2 st sent HI3 Hsc Hcons Hst Hcv) as [HI4 Hr4].
  split; [exact HI4|]. split; [exact (identity_rel_trans _ _ _ Hr1 (identity_rel_trans _ _ _ Hr2 (identity_rel_trans _ _ _ Hr3 Hr4)))|].
  intros id x Hx Hxi. assert (Hx1 : sessionAt w1 id x) by exact Hx. rewrite Hii in Hxi. pose proof (Hnone id x Hx1 Hxi).
  by destruct (s_status (ss_session x)).
Qed.

Lemma safe_reset {A} account c' h c t c2 verified l events work (k : Res unit -> Prog Ans A) post w :
  read w account -> Credential.changeSecret account.(ar_credential) t = Ok c' ->
  Forall (ended w) l ->
  seen w.(stores).(challenges) c -> Challenge.consume c.(sc_challenge) t = Ok c2 ->
  (forall v, verified = Some v -> Identity.verify account.(ar_identity) t = Ok v) ->
  (forall w2, Rel w w2 -> Inv w2 -> safe (k (Ok tt)) post w2) ->
  refuses k post w ->
  safe (Call (saveReset (mkReset c2 c' account.(ar_credential).(c_updatedAt) h verified l events work)) k) post w.
Proof.
  intros Hread Hch Hl Hsc Hcons Hver Hok Herr. cbn. intros w1 Hr HI r w2 He.
  destruct (save_reset outage _ _ _ _ (proj1 (inv_sessions _ HI)) He) as [[-> (st & Hg & ->)]|(f & sent & -> & ->)]; [|refused_case HI Herr].
  assert (Hcid : c'.(c_id) = account.(ar_credential).(c_id)).
  { assert (Hpath : Credential.path true account.(ar_credential) c') by (eapply Credential.path_change; [constructor|exact Hch]).
    by apply path_fixed in Hpath as (? & _). }
  pose proof (read_rel _ _ _ Hr Hread) as Hread1.
  assert (Hcur : changedCredential account.(ar_credential).(c_id) account.(ar_credential).(c_updatedAt) w1.(stores) = false).
  { rewrite <- Hcid. unfold resetGuard in Hg. cbn in Hg. by destruct (changedCredential _ _ _). }
  destruct (read_current _ _ _ Hread1 Hcur eq_refl) as [Hc _].
  destruct Hread1 as (w0 & HI0 & Hr0 & _ & _ & Hi & Hii).
  assert (Hl1 : Forall (ended w1) l) by (eapply Forall_impl; [exact Hl|eauto]).
  destruct (reset_world w1 account c' h c t c2 verified l st events work (published w1 ++ events) HI Hc Hii Hch Hl1) as (HI2 & Hr2 & _); try done.
  - eapply seen_evolves; [apply Hr|done].
  - intros v Hv. split; [|by apply Hver]. eapply seen_evolves; [apply Hr0|].
    eapply holds_seen; [apply HI0|exact Hi].
  - split; [exact HI2|]. split; [exact Hr2|]. apply Hok; [exact (identity_rel_trans _ _ _ Hr Hr2)|exact HI2].
Qed.

(** ** What the reads tell. *)

Lemma found_account w email account :
  Inv w -> findByEmail email w.(stores) = Ok (Some account) ->
  read w account /\ account.(ar_credential).(c_email) = email
  /\ credentialAt w account.(ar_credential).(c_id) account.(ar_credential)
  /\ hashAt w account.(ar_credential).(c_id) account.(ar_passwordHash)
  /\ identityAt w account.(ar_credential).(c_identityId) account.(ar_identity).
Proof.
  intros HI. unfold findByEmail, find_first. destruct (List.find _ _) as [c|] eqn:Ef; [|done].
  apply List.find_some in Ef as [Hin He]. apply bool_decide_eq_true in He.
  apply list_elem_of_In, (keyedBy_values c_id) in Hin; [|apply HI].
  destruct (JsMap.get (c_identityId c) _) as [i|] eqn:Ei; [|done]. destruct (JsMap.get (c_id c) (passwordHashes _)) as [h|] eqn:Eh; [|done].
  intros [= <-]. cbn. split_and!; try done. exists w. split_and!; try done.
  exact (holds_id _ _ _ (inv_identities _ HI) Ei).
Qed.

Lemma found_by_identity w id account :
  Inv w -> findByIdentity id w.(stores) = Ok (Some account) ->
  read w account /\ account.(ar_identity).(i_id) = id
  /\ credentialAt w account.(ar_credential).(c_id) account.(ar_credential)
  /\ hashAt w account.(ar_credential).(c_id) account.(ar_passwordHash)
  /\ identityAt w account.(ar_credential).(c_identityId) account.(ar_identity).
Proof.
  intros HI. unfold findByIdentity, find_first. destruct (List.find _ _) as [c|] eqn:Ef; [|done].
  apply List.find_some in Ef as [Hin He]. apply andb_true_iff in He as [He%bool_decide_eq_true _].
  apply list_elem_of_In, (keyedBy_values c_id) in Hin; [|apply HI].
  intros Hf. destruct (found_account w _ account HI Hf) as (Hread & Hmail & Hc & Hh & Hi). split_and!; try done.
  pose proof (inv_email _ HI _ _ _ _ Hc Hin Hmail) as Heq. unfold credentialAt in Hc. rewrite Heq, Hin in Hc. injection Hc as Hc.
  pose proof (holds_id _ _ _ (inv_identities _ HI) Hi : i_id _ = _) as Hid. congruence.
Qed.

Lemma active_listed w id s :
  Inv w -> s ∈ listActive id w.(stores) <-> (exists st, sessionAt w s.(s_id) st /\ st.(ss_session) = s) /\ activeOf id s = true.
Proof.
  intros HI. unfold listActive. rewrite sort_by_perm, list_elem_of_filter, list_elem_of_fmap.
  split.
  - intros [Ha (st & -> & Hst)]. apply (keyedBy_values (fun st => st.(ss_session).(s_id))) in Hst; [|apply HI].
    split; [|done]. by exists st.
  - intros [(st & Hst & <-) Ha]. split; [done|]. exists st. split; [done|].
    by apply (keyedBy_values (fun st => st.(ss_session).(s_id))); [apply HI|].
Qed.

Lemma found_session w token s :
  Inv w -> findByToken digestToken token w.(stores) = Some s ->
  exists st, sessionAt w s.(s_id) st /\ st.(ss_session) = s /\ st.(ss_tokenDigest) = digestToken token.
Proof.
  intros HI. unfold findByToken, find_first. destruct (List.find _ _) as [st|] eqn:Ef; [|done]. intros [= <-].
  apply List.find_some in Ef as [Hin He]. apply bool_decide_eq_true in He. exists st. split_and!; try done.
  apply list_elem_of_In in Hin. by apply (keyedBy_values (fun st => st.(ss_session).(s_id))); [apply HI|].
Qed.

Lemma standing_stored w id st : Inv w -> sessionAt w id st -> standing w st.(ss_session).
Proof. intros HI Hst. apply filed_standing. by eapply stored_filed. Qed.

Lemma listed_standing w id l : Inv w -> l = listActive id w.(stores) -> Forall (standing w) l.
Proof.
  intros HI ->. apply Forall_forall. intros s Hs%active_listed; [|done]. destruct Hs as [(st & Hst & <-) _]. by eapply standing_stored.
Qed.

Lemma revoked_ended w s t s' e : standing w s -> Session.revoke s t = Ok s' -> ended w (mkEviction s' e).
Proof.
  intros (Hw & Hv & Ho) Hr. destruct (revoke_fixed _ _ _ Hr) as (_ & Hi & Hs & Hver & _). split; [|done].
  split_and!; cbn; [|by rewrite Hver|by rewrite Hi]. eapply Session.session_step_wf; [exact Hw|by eapply Session.step_revoke].
Qed.
End Exec.

(** Run the synchronous steps; case on what the next read answers. *)
Ltac advance := cbn [bind perform orElse depends require pure_ nextId identityEvent resetEvent mapError].
Ltac call :=
  advance;
  lazymatch goal with
  | |- wp _ _ _ (Call (saveRegistration _) _) _ _ => idtac
  | |- wp _ _ _ (Call (saveChallenge _) _) _ _ => idtac
  | |- wp _ _ _ (Call (saveVerification _) _) _ _ => idtac
  | |- wp _ _ _ (Call (saveSession _) _) _ _ => idtac
  | |- wp _ _ _ (Call (saveRevocation _) _) _ _ => idtac
  | |- wp _ _ _ (Call (saveReset _) _) _ _ => idtac
  | |- wp _ _ _ (Call (recordActivity _ _) _) _ _ => idtac
  | |- wp _ _ _ (Call (pruneSessions _ _ _) _) _ _ => idtac
  | |- wp _ _ _ (Call _ _) _ _ =>
      apply (wp_read _ _ _ identity_rel_refl); [by apply identity_read_only|intros ?r ?w ?Hrel ?HI ?He]
  end; cbn [mapError bind].

(** An answer that may have failed; the event of a command. *)
Tactic Notation "got" hyp(r) "as" ident(x) := destruct r as [x|]; [cbn [mapError bind require pure_]|done].
Tactic Notation "event" ident(e) := destruct (Events.create _ _ _ _ _ _ _) as [e|]; [cbn [mapError bind]|done].

Section Safety.
  Context `{CaseFolding} `{Policies}.
  Context (digestToken : jstring -> jstring) (matches : jstring -> jstring -> bool) (outage : Failure -> Prop).
  Context (presented : jstring -> Prop).
  Abbreviation Inv := (Inv matches presented).
  Abbreviation exec := (exec digestToken matches outage).
  Abbreviation safe := (wp exec Inv Rel).
  Abbreviation anything := (fun _ _ => True).

#[local] Hint Resolve identity_rel_refl identity_rel_trans ended_rel opened_rel read_rel standing_rel : core.

Lemma registerIdentity_safe cmd w :
  safe (registerIdentity cmd) (fun r w => match r with Ok x => exists i, identityAt w x.(rd_identityId) i | Err _ => True end) w.
Proof.
  unfold registerIdentity. advance. destruct (negb _); [|done].
  advance. destruct (validatePassword _); [|done]. call. call. got r0 as id.
  destruct (Identity.register id r) as [i|] eqn:Ei; [|done]. call. got r0 as cid.
  destruct (Credential.createEmailPassword _) as [c|] eqn:Ec; [|done]. call. got r0 as h.
  call. got r0 as eid. event e.
  assert (Hci : c.(c_identityId) = i.(i_id)) by (unfold Credential.createEmailPassword in Ec; by ok_branches Ec).
  eapply (safe_registration _ _ _ _ _ _ _ _ _ _ _ _ _ _ Ei); [by eapply Credential.credential_create_wf|exact Hci| |done].
  intros w6 Hr6 _ Hat. apply wp_ret. intros w7 Hr7 _. by eapply identity_stays.
Qed.

Lemma issueChallenge_safe purpose id t u work w : safe (issueChallenge purpose id t u work) anything w.
Proof.
  unfold issueChallenge. call. got r as cid. destruct (Challenge.issue _) as [c|] eqn:Ec; [|done].
  call. got r as tok. call. got r as eid. event e.
  by eapply (safe_challenge _ _ _ _ _ _ _ _ _ _ _ _ Ec).
Qed.

Lemma issueVerificationChallenge_safe id work w : safe (issueVerificationChallenge id work) anything w.
Proof.
  unfold issueVerificationChallenge. call. got r as found. destruct (foundOr _ _ _) as [i|]; [|done]. advance.
  destruct (bool_decide _); [|done]. call. destruct (verificationExpiresAt _) as [u|]; [|done]. advance.
  apply issueChallenge_safe.
Qed.

(** A command with another inside. *)
Lemma safe_then {A B} (p : Prog Ans A) (f : A -> Prog Ans B) post w :
  safe p anything w -> Inv w -> (forall a w', Inv w' -> safe (f a) post w') -> safe (bind p f) post w.
Proof. intros Hp HI Hf. apply (wp_seq _ _ _ identity_rel_refl identity_rel_trans _ _ _ _ _ Hp HI). eauto. Qed.

Lemma requestPasswordReset_safe email work w : safe (requestPasswordReset email work) anything w.
Proof.
  unfold requestPasswordReset. advance. destruct (Credential.normalizeEmail email) as [to|]; [|done].
  call. got r as found. destruct found as [account|]; [|done]. destruct (negb _); [done|].
  call. destruct (resetExpiresAt _) as [u|]; [|done]. advance.
  apply safe_then; [apply issueChallenge_safe|done|]. intros [x|] w2 HI2; [|done]. by call.
Qed.

Lemma resendVerification_safe email work w : safe (resendVerification email work) anything w.
Proof.
  unfold resendVerification. advance. destruct (Credential.normalizeEmail email) as [to|]; [|done].
  call. got r as found. destruct found as [account|]; [|done]. destruct (negb _); [done|].
  apply safe_then; [apply issueVerificationChallenge_safe|done|]. intros [x|] w2 HI2; [|done]. by call.
Qed.

Lemma signUp_safe cmd w : Inv w -> safe (signUp cmd) anything w.
Proof.
  intros HI. unfold signUp. apply safe_then; [eapply wp_weaken; [|apply registerIdentity_safe]; done|done|].
  intros [x|f] w2 HI2.
  - apply safe_then; [apply issueVerificationChallenge_safe|done|]. intros [y|] w3 HI3; [|done].
    destruct (Credential.normalizeEmail _) as [to|]; [|done]. by call.
  - destruct (negb _); [done|]. destruct (Credential.normalizeEmail _) as [to|]; [|done]. by call.
Qed.

(** The challenge and the identity a verification found. *)
Lemma challenge_read w id found missing belongs record :
  Inv w -> exec (readChallenge id) w (Ok found) w -> foundOr missing belongs found = Ok record ->
  seen w.(stores).(challenges) record /\ belongs record = true.
Proof.
  intros HI [Hf _] Ho. cbn in Hf. destruct found as [x|]; [|done]. cbn in Ho. destruct (belongs x) eqn:Eb; [|done].
  injection Ho as ->. split; [|done]. eapply holds_seen; [apply HI|]. symmetry in Hf. exact Hf.
Qed.

Lemma identity_read w id found missing belongs i :
  Inv w -> exec (readIdentity id) w (Ok found) w -> foundOr missing belongs found = Ok i ->
  seen w.(stores).(identities) i.
Proof.
  intros HI [Hf _] Ho. cbn in Hf. destruct found as [x|]; [|done]. cbn in Ho. destruct (belongs x); [|done].
  injection Ho as ->. eapply holds_seen; [apply HI|]. symmetry in Hf. exact Hf.
Qed.

Lemma seen_identity_rel w w' i : Rel w w' -> seen w.(stores).(identities) i -> seen w'.(stores).(identities) i.
Proof. intros Hr. apply seen_evolves, Hr. Qed.
Lemma seen_challenge_rel w w' c : Rel w w' -> seen w.(stores).(challenges) c -> seen w'.(stores).(challenges) c.
Proof. intros Hr. apply seen_evolves, Hr. Qed.
#[local] Hint Resolve seen_identity_rel seen_challenge_rel : core.

Lemma verifyIdentity_safe cmd w : safe (verifyIdentity cmd) anything w.
Proof.
  unfold verifyIdentity. call. got r as found. destruct (foundOr challengeMissing _ found) as [record|] eqn:Er; [|done].
  destruct (challenge_read _ _ _ _ _ _ HI He Er) as [Hsc _]. call. got r as valid. destruct valid; [|done].
  call. got r as owner. destruct (foundOr identityMissing _ owner) as [i|] eqn:Ei; [|done]. pose proof (identity_read _ _ _ _ _ _ HI1 He1 Ei) as Hsi.
  call. destruct (Challenge.consume _ _) as [c|] eqn:Ec; [|done]. advance.
  destruct (Identity.verify _ _) as [v|] eqn:Ev; [|done]. call. got r0 as eid. event e.
  eapply (safe_verification _ _ _ _ i v record c _ _ _ _ _ _ _ Ev _ Ec); done.
  Unshelve. all: eauto 6.
Qed.

(** Ending sessions that were read. *)
Lemma endSessions_safe operation reason t work owner l w :
  Inv w -> Forall (standing w) l ->
  safe (endSessions operation reason t work owner l)
    (fun r w' => match r with Ok done_ => Forall (ended w') done_ | Err _ => True end) w.
Proof.
  revert w. induction l as [|s l IH]; intros w HI Hl; cbn [endSessions].
  - apply wp_ret. constructor.
  - apply Forall_cons in Hl as [Hs Hl]. advance. destruct (Session.revoke s t) as [s'|] eqn:Es; [|done].
    call. got r as eid. event e.
    assert (Hl0 : Forall (standing w0) l) by (eapply Forall_impl; [exact Hl|eauto]).
    apply (wp_seq _ _ _ identity_rel_refl identity_rel_trans _ _ _ _ _ (IH w0 HI0 Hl0) HI0).
    intros [more|] w2 HI2 Hr2 Hmore; [|done]. apply wp_ret. intros w3 Hr3 _. constructor.
    + apply (ended_rel w2); [done|]. apply (ended_rel w0); [done|]. apply (revoked_ended w0 s t); eauto.
    + eapply Forall_impl; [exact Hmore|eauto].
Qed.

Lemma verifyPending_some i t verified v :
  verifyPending i t = Ok verified -> verified = Some v -> Identity.verify i t = Ok v.
Proof.
  unfold verifyPending. destruct (bool_decide _); [|by intros [= <-]]. intros (x & Hx & [= <-])%bind_ok. by intros [= ->].
Qed.

Lemma verifiedEvents_safe verified c t work id w : safe (verifiedEvents verified c t work id) anything w.
Proof. destruct verified as [v|]; [|done]. unfold verifiedEvents. call. got r as eid. by event e. Qed.

Lemma confirmPasswordReset_safe cmd w : safe (confirmPasswordReset cmd) anything w.
Proof.
  unfold confirmPasswordReset. advance. destruct (validatePassword _); [|done].
  call. got r as found. destruct (foundOr invalidLink (forPurpose _) found) as [record|] eqn:Er; [|done].
  destruct (challenge_read _ _ _ _ _ _ HI He Er) as [Hsc _]. call. got r as valid. destruct valid; [|done].
  call. unfold consumeLink. destruct (Challenge.consume _ _) as [c|] eqn:Ec; [|done]. advance.
  call. got r0 as owner. destruct owner as [account|]; [|done]. cbn [foundOr]. destruct (reachableStatus _); [|done].
  destruct He2 as [Hf _]. assert (Hread : read matches presented w3 account).
  { destruct Hf as [Hf|(f & Hf & _)]; [|done]. symmetry in Hf. by destruct (found_by_identity _ _ _ _ _ HI2 Hf) as [? _]. }
  clear Hf. advance. destruct (Credential.changeSecret _ _) as [changed|] eqn:Eh; [|done]. advance.
  destruct (verifyPending _ _) as [verified|] eqn:Ev; [|done].
  call. got r0 as h. call. got r0 as active. destruct He3 as [Hl _].
  apply (wp_seq _ _ _ identity_rel_refl identity_rel_trans _ _ _ _ _
    (endSessions_safe _ _ _ _ _ active w5 HI4 (listed_standing _ _ _ _ _ HI4 Hl)) HI4).
  intros [l|] w6 HI6 Hr6 Hended; [|done]. call. got r0 as eid. event e.
  apply (wp_seq _ _ _ identity_rel_refl identity_rel_trans _ _ _ _ _ (verifiedEvents_safe _ _ _ _ _ w7) HI5).
  intros [vs|] w8 HI8 Hr8 _; [|done]. advance.
  eapply (safe_reset _ _ _ _ account changed h record r c verified l); try done; eauto 10 using verifyPending_some.
  eapply Forall_impl; [exact Hended|eauto].
Qed.

Lemma authenticateIdentity_safe cmd w : presented cmd.(pc_password) -> safe (authenticateIdentity cmd) anything w.
Proof.
  intros Hp. unfold authenticateIdentity. advance. destruct (negb _); [|done]. advance.
  destruct (Credential.normalizeEmail _) as [email|]; [|done]. call. got r as record. destruct record as [account|].
  2: { cbn [checkPassword]. call. by got r as u. }
  destruct He as [Hf _]. assert (Hread : read matches presented w0 account).
  { destruct Hf as [Hf|(f & Hf & _)]; [|done]. symmetry in Hf. by destruct (found_account _ _ _ _ _ HI Hf) as [? _]. }
  clear Hf. cbn [checkPassword]. call. got r as valid. destruct He as [Hm _]. cbn in Hm. cbn [foundOr]. unfold admits.
  destruct valid; [|done]. destruct (bool_decide_reflect (i_status (ar_identity account) = Identity.active)) as [Hact|]; [|done].
  destruct (bool_decide (c_status _ = _)); [|done]. cbn [andb]. call.
  destruct (sessionExpiresAt r) as [u|]; [|done]. call. got r0 as sid.
  destruct (Session.create _) as [s|] eqn:Es; [|done]. call. got r0 as tok. call. got r0 as eid. event e.
  pose proof (Session.session_create_wf _ _ Es) as Hsw.
  assert (Hs : s.(s_identityId) = account.(ar_identity).(i_id) /\ UNSAVED <= s.(s_version))
    by (unfold Session.create in Es; by ok_branches Es).
  destruct Hs as [Hsi Hsv]. unfold evictions. call. got r0 as active. destruct He3 as [Hl _]. cbn in Hl.
  assert (Hst : Forall (standing w6) (surplus (s_createdAt s) active)).
  { apply Forall_drop. unfold surplus. apply Forall_forall. intros x Hx. rewrite sort_by_perm, list_elem_of_filter in Hx.
    destruct Hx as [_ Hx]. revert x Hx. apply Forall_forall. by eapply listed_standing. }
  apply (wp_seq _ _ _ identity_rel_refl identity_rel_trans _ _ _ _ _ (endSessions_safe _ _ _ _ _ _ w6 HI5 Hst) HI5).
  intros [l|] w7 HI7 Hr7 Hended; [|done]. advance.
  eapply (safe_session _ _ _ _ s account (pc_password cmd)); try done; eauto 10; try congruence.
Qed.

Lemma revokeSession_safe token work w : safe (revokeSession token work) anything w.
Proof.
  unfold revokeSession. call. got r as found. destruct found as [s|]; [|done]. destruct (bool_decide _); [done|].
  destruct He as [Hf _]. cbn in Hf. symmetry in Hf. destruct (found_session _ _ _ _ _ _ HI Hf) as (st & Hst & <- & _).
  pose proof (standing_stored _ _ _ _ _ HI Hst) as Hs. call. destruct (Session.revoke _ _) as [s'|] eqn:Es; [|done].
  call. got r0 as eid. event e. apply safe_revocation; [|done..]. eapply ended_rel; [|by eapply revoked_ended]. eauto.
Qed.

Lemma getCurrentIdentity_safe token w : safe (getCurrentIdentity token) anything w.
Proof.
  unfold getCurrentIdentity. call. got r as found. destruct found as [s|]; [|done]. cbn [foundOr]. call.
  destruct (Session.assertUsable _ _ _) as [u|]; [|done]. call. got r0 as owner. destruct (foundOr _ _ _) as [v|]; [|done].
  advance. unfold noteActivity. destruct (_ <=? _); [|done]. advance. apply safe_record. by intros [|] w3 _ _.
Qed.

Lemma prune_safe cmd w : safe (prune cmd) anything w.
Proof.
  unfold prune. advance. destruct (validBounds cmd); [|done]. call. apply safe_prune. by intros [|] w3 _ _.
Qed.

(** ** Every schedule of every set of commands. *)

Inductive IdentityCommand : Type :=
| cSignUp (c : PasswordCommand) | cLogin (c : PasswordCommand) | cIssue (identityId : ID) (work : WorkContext)
| cResend (email : JsValue) (work : WorkContext) | cRequestReset (email : JsValue) (work : WorkContext)
| cVerify (c : VerifyCommand) | cReset (c : ResetCommand) | cRevoke (token : jstring) (work : WorkContext)
| cCurrent (token : jstring) | cPrune (c : PruneCommand).

Definition replies {A} (p : Command A) : Command unit :=
  bind p (fun r => Ret (match r with Ok _ => Ok tt | Err e => Err e end)).

Definition program (c : IdentityCommand) : Command unit :=
  match c with
  | cSignUp c => replies (signUp c) | cLogin c => replies (authenticateIdentity c)
  | cIssue id work => replies (issueVerificationChallenge id work)
  | cResend email work => replies (resendVerification email work)
  | cRequestReset email work => replies (requestPasswordReset email work)
  | cVerify c => replies (verifyIdentity c) | cReset c => replies (confirmPasswordReset c)
  | cRevoke token work => replies (revokeSession token work)
  | cCurrent token => replies (getCurrentIdentity token) | cPrune c => replies (prune c)
  end.

Lemma identity_program_safe c w :
  Inv w -> (forall cmd, c = cLogin cmd -> presented cmd.(pc_password)) -> safe (program c) anything w.
Proof.
  intros HI Hp. assert (Hr : forall A (p : Command A), safe p anything w -> safe (replies p) anything w).
  { intros A p Hs. apply safe_then; [done|done|]. by intros [|] w' _. }
  destruct c; cbn [program]; apply Hr; eauto using signUp_safe, issueVerificationChallenge_safe, resendVerification_safe,
    requestPasswordReset_safe, verifyIdentity_safe, confirmPasswordReset_safe, revokeSession_safe, getCurrentIdentity_safe,
    prune_safe, authenticateIdentity_safe.
Qed.
End Safety.

Section Schedules.
  Context `{CaseFolding} `{Policies}.
  Context (digestToken : jstring -> jstring) (matches : jstring -> jstring -> bool) (outage : Failure -> Prop).
  Context (earlier : jstring -> Prop).

(** The passwords presented before, and those the logins of a pool present. *)
Definition presentedBy (commands : list IdentityCommand) (p : jstring) : Prop :=
  earlier p \/ exists cmd, cLogin cmd ∈ commands /\ cmd.(pc_password) = p.

Lemma identity_schedule commands w w' ps' :
  Inv matches (presentedBy commands) w ->
  rtc (pool_step (exec digestToken matches outage)) (w, program <$> commands) (w', ps') ->
  Inv matches (presentedBy commands) w' /\ Rel w w'.
Proof.
  intros Hstart Hrun.
  destruct (pool_safe (exec digestToken matches outage) (Inv matches (presentedBy commands)) Rel identity_rel_refl identity_rel_trans
    (fun _ _ _ => True) w (program <$> commands) w' ps' Hrun Hstart) as (HI & Hr & _); [|done].
  intros i p Hp. apply list_lookup_fmap_Some in Hp as (c & -> & Hc). apply identity_program_safe; [done|].
  intros cmd ->. right. exists cmd. split; [by eapply list_elem_of_lookup_2|done].
Qed.

(** C7. An active session proves the current password. Sign-ups, logins,
    verifications, password resets, logouts, reads and prunings run together in
    any interleaving of their port calls, with any clock, identifiers, mailer
    and dependency failures. From a consistent store they reach a consistent
    store, in which every active session belongs to an identity that was
    verified and whose credential's current hash matches a password that some
    login presented: a session opened with an old password never outlives a
    reset, even when the login and the reset race. Addresses and credentials
    stay unique, no identity, credential or challenge is lost, identities and
    challenges change by their classes' operations only, and a hash changes only
    together with its credential's update time. *)
Theorem sessions_prove_password (commands : list IdentityCommand) (w w' : World) (ps' : list (Command unit))
    (Hstart : Inv matches (presentedBy commands) w)
    (Hrun : rtc (pool_step (exec digestToken matches outage)) (w, program <$> commands) (w', ps')) :
  Inv matches (presentedBy commands) w' /\ Rel w w'
  /\ (forall id st, sessionAt w' id st -> st.(ss_session).(s_status) = Session.active ->
        opened w' st.(ss_session).(s_identityId)
        /\ exists credentialId c hash password, credentialAt w' credentialId c
             /\ c.(c_identityId) = st.(ss_session).(s_identityId) /\ hashAt w' credentialId hash
             /\ presentedBy commands password /\ matches password hash = true).
Proof.
  destruct (identity_schedule _ _ _ _ Hstart Hrun) as [HI Hr]. split; [done|]. split; [done|].
  intros id st Hst Hact. split; [by eapply inv_opened|by apply (inv_proven _ _ _ HI id st)].
Qed.

(** C36. What the commands store is what the storage layer reads back. In every
    schedule, each identity, challenge and session in the store has a row that
    its class's [restore] accepts and turns back into the same value, as long as
    its version is a safe integer; each credential likewise. *)
Theorem stored_rows_restore (commands : list IdentityCommand) (w w' : World) (ps' : list (Command unit))
    (Hstart : Inv matches (presentedBy commands) w)
    (Hrun : rtc (pool_step (exec digestToken matches outage)) (w, program <$> commands) (w', ps')) :
  (forall id i, identityAt w' id i -> i.(i_version) <= MAX_SAFE_INTEGER ->
     i.(i_id) = id /\ Identity.restore (Identity.row i) = Ok i)
  /\ (forall id c, credentialAt w' id c -> c.(c_id) = id /\ Credential.restore (Credential.row c) = Ok c)
  /\ (forall id c, challengeAt w' id c -> c.(sc_challenge).(v_version) <= MAX_SAFE_INTEGER ->
     c.(sc_challenge).(v_id) = id /\ Challenge.restore (Challenge.row c.(sc_challenge)) = Ok c.(sc_challenge))
  /\ (forall id st, sessionAt w' id st -> st.(ss_session).(s_version) <= MAX_SAFE_INTEGER ->
     st.(ss_session).(s_id) = id /\ Session.restore (Session.row st.(ss_session)) = Ok st.(ss_session)).
Proof.
  destruct (identity_schedule _ _ _ _ Hstart Hrun) as [HI _]. split_and!.
  - intros id i Hi Hv. split; [exact (holds_id _ _ _ (inv_identities _ _ _ HI) Hi)|].
    apply Identity.identity_wf_restore; [by eapply inv_wf_identity|]. split; [by eapply inv_version_identity|done].
  - intros id c Hc. split; [by apply (proj2 (inv_credentials _ _ _ HI) id c)|]. apply Credential.credential_wf_restore. by eapply inv_wf_credential.
  - intros id c Hc Hv. split; [exact (holds_id _ _ _ (inv_challenges _ _ _ HI) Hc)|].
    apply Challenge.challenge_wf_restore; [by eapply inv_wf_challenge|]. split; [by eapply inv_version_challenge|done].
  - intros id st Hst Hv. split; [by apply (proj2 (inv_sessions _ _ _ HI) id st)|].
    apply Session.session_wf_restore; [by eapply inv_wf_session|]. split; [by eapply inv_version_session|done].
Qed.
End Schedules.

(** ** A run to check the model with: Ada signs up, verifies her address and logs in. *)

#[local] Existing Instance asciiFolding.
#[local] Instance sample_policies : Policies := defaultPolicies DEFAULT_SESSION_LIMITS.

Definition sample_matches (password hash : jstring) : bool := bool_decide (hash = js "hashed " ++ password).
Definition sample_digest (token : jstring) : jstring := js "digest " ++ token.
Definition sample_down : Failure := fail_with unavailable "down" "db.down".
Definition sample_outage (f : Failure) : Prop := f = sample_down.

(** The identifier and the token of the [n]-th call of a run. *)
Definition sample_id (n : nat) : ID :=
  js ("018f0000-0000-7000-8000-0000000000" ++ (if (n <? 10)%nat then "0" else "") ++ pretty n)%string.
Definition sample_token (n : nat) : jstring := js ("token " ++ pretty n)%string.

Definition sample_commit (commit : (Events.Envelope -> Res unit) -> Stores -> Outcome Stores) (w : World) : Res unit * World :=
  let '(s, sent, r) := commit (fun _ => Ok tt) w.(stores) in (r, mkWorld s (w.(published) ++ sent)).

(** Ports that work: the clock tells the number of the call in seconds. *)
Definition sample_port (n : nat) (op : Op) (w : World) : Ans op * World :=
  match op with
  | now => (DateAt (Z.of_nat n * 1000), w)
  | newId => (Ok (sample_id n), w)
  | aborted => (false, w)
  | readIdentity id => (Ok (findIdentity id w.(stores)), w)
  | readView id => (Ok (findView id w.(stores)), w)
  | readByEmail email => (findByEmail email w.(stores), w)
  | readByIdentity id => (findByIdentity id w.(stores), w)
  | readChallenge id => (Ok (findChallenge id w.(stores)), w)
  | readByToken token => (Ok (findByToken sample_digest token w.(stores)), w)
  | readActive id => (Ok (listActive id w.(stores)), w)
  | verifyPassword password hash => (Ok (sample_matches password hash), w)
  | verifyDecoy _ => (Ok tt, w)
  | hashPassword password => (Ok (js "hashed " ++ password), w)
  | issueToken => (Ok (mkToken (sample_token n) (sample_digest (sample_token n))), w)
  | verifyToken token digest => (Ok (bool_decide (sample_digest token = digest)), w)
  | recordActivity id at_ => (Ok tt, mkWorld (record id at_ w.(stores)) w.(published))
  | pruneSessions e i l => let '(n, s) := IdentityStore.prune e i l w.(stores) in (Ok n, mkWorld s w.(published))
  | sendVerification _ | sendPasswordReset _ | sendAccountExists _ => (Ok tt, w)
  | saveRegistration input =>
      if JsMap.has input.(rg_credential).(c_id) w.(stores).(credentials) then (Err sample_down, w)
      else sample_commit (commitRegistration input) w
  | saveChallenge input => sample_commit (commitChallenge input) w
  | saveVerification input => sample_commit (commitVerification input) w
  | saveSession input => sample_commit (commitSession input) w
  | saveRevocation input => sample_commit (commitRevocation input) w
  | saveReset input => sample_commit (commitReset input) w
  end.

Lemma sample_commits commit w :
  commits sample_outage commit w (sample_commit commit w).1 (sample_commit commit w).2.
Proof.
  exists (fun _ => Ok tt), (commit (fun _ => Ok tt) w.(stores)).1.2. unfold sample_commit.
  destruct (commit _ _) as [[s sent] r]. cbn. by split_and!.
Qed.

Lemma sample_port_exec n op w : exec sample_digest sample_matches sample_outage op w (sample_port n op w).1 (sample_port n op w).2.
Proof.
  destruct op; cbn -[sample_commit]; try apply sample_commits; try done; try (by split; [left|]); try by left.
  - split; [|done]. by apply bool_decide_eq_true.
  - left. destruct (IdentityStore.prune _ _ _ _) as [m s] eqn:E. by exists m, s.
  - unfold JsMap.has. destruct (JsMap.get _ _); cbn -[sample_commit]; [right; by eexists|left; split; [done|apply sample_commits]].
Qed.

Definition sample_email : JsValue := VStr (js "Ada@Example.org ").
Definition sample_password : jstring := js "correct horse".
Definition sample_account : PasswordCommand :=
  mkPasswordCommand sample_email sample_password (sample_operation "identity.register").

(** Signing up, then verifying with the link mailed, then logging in. *)
Definition sample_verify : VerifyCommand := mkVerify (sample_id 8) (sample_token 9) (sample_operation "identity.verify").
Definition sample_commands : list IdentityCommand := [cSignUp sample_account; cVerify sample_verify; cLogin sample_account].
Definition sample_empty : World := mkWorld emptyStores [].
Definition sample_up : Res unit * World := play sample_port 0 (program (cSignUp sample_account)) sample_empty.
Definition sample_verified : Res unit * World := play sample_port 20 (program (cVerify sample_verify)) sample_up.2.
Definition sample_login : Res unit * World := play sample_port 40 (program (cLogin sample_account)) sample_verified.2.

Lemma sample_run :
  rtc (pool_step (exec sample_digest sample_matches sample_outage)) (sample_empty, program <$> sample_commands)
    (sample_login.2, Ret <$> [sample_up.1; sample_verified.1; sample_login.1]).
Proof.
  pose proof (runs_at (exec sample_digest sample_matches sample_outage) (A := Res unit)) as step.
  pose proof (fun n (p : Command unit) w => play_runs _ sample_port n p w sample_port_exec) as ran.
  etrans; [exact (step (program <$> sample_commands) 0%nat _ _ _ _ eq_refl (ran 0%nat _ _))|].
  etrans; [exact (step [_; _; _] 1%nat _ _ _ _ eq_refl (ran 20%nat _ _))|].
  exact (step [_; _; _] 2%nat _ _ _ _ eq_refl (ran 40%nat _ _)).
Qed.

Lemma identity_empty_inv presented : Inv sample_matches presented sample_empty.
Proof. by constructor; try (constructor; [constructor|]); try done. Qed.

Lemma sessions_prove_password_witness :
  Inv sample_matches (presentedBy (fun _ => False) sample_commands) sample_login.2
  /\ exists id st, sessionAt sample_login.2 id st /\ opened sample_login.2 st.(ss_session).(s_identityId).
Proof.
  destruct (sessions_prove_password sample_digest sample_matches sample_outage (fun _ => False) sample_commands sample_empty
    sample_login.2 _ (identity_empty_inv _) sample_run) as (HI & _ & Hall).
  split; [exact HI|]. destruct (JsMap.get (sample_id 43) sample_login.2.(stores).(sessions)) as [st|] eqn:E; [|by vm_compute in E].
  exists (sample_id 43), st. split; [exact E|]. apply (Hall (sample_id 43) st E). vm_compute in E. injection E as <-. reflexivity.
Defined.

Lemma stored_rows_restore_witness :
  exists id c, credentialAt sample_login.2 id c /\ c.(c_id) = id /\ Credential.restore (Credential.row c) = Ok c.
Proof.
  destruct (stored_rows_restore sample_digest sample_matches sample_outage (fun _ => False) sample_commands sample_empty
    sample_login.2 _ (identity_empty_inv _) sample_run) as (_ & Hall & _).
  destruct (JsMap.get (sample_id 2) sample_login.2.(stores).(credentials)) as [c|] eqn:E; [|by vm_compute in E].
  exists (sample_id 2), c. split; [exact E|]. by apply Hall.
Defined.
End IdentityWorld.
