(* ===== verification/IdentityFlows.v ===== *)
(** * What the identity commands do when they run on their own.

    The effect of a login, of a password reset and of a pruning sweep on the
    store, and what a refused login reveals. *)
From stdpp Require Import relations sorting.
From S2P Require Import Prelude Async JsMap Errors Ids CaseFolding Provenance Events Commands Aggregates Writers.
From S2P Require Import IdentityDomain IdentityStore IdentityApp IdentityWorld.

Module IdentityFlows.
Import IdentityFailures IdentityStore IdentityPolicy IdentityPorts IdentityCommands IdentityWorld.
Import (hints) Identity Session Challenge Credential.
Import Identity(Identity, i_id, i_status, i_version).
Import Session(Session, s_id, s_identityId, s_status, s_createdAt, s_expiresAt, s_version).
Import Challenge(Challenge, v_id, v_identityId, v_purpose, v_version).
Import Credential(Credential, c_id, c_identityId, c_email, c_status, c_updatedAt).

Section Flows.
  Context `{CaseFolding} `{Policies}.
  Context (digestToken : jstring -> jstring) (matches : jstring -> jstring -> bool) (outage : Failure -> Prop).
  Context (presented : jstring -> Prop).
  Abbreviation Inv := (Inv matches presented).
  Abbreviation exec := (exec digestToken matches outage).

(** Step over the synchronous steps of a run and its next call, which reads; an
    answer that may have failed; the event of a command.  A failing run ends
    here, with the world it found. *)
Ltac go H :=
  cbn [bind perform orElse depends require pure_ nextId identityEvent resetEvent mapError runs] in H.
Ltac ask H r He :=
  go H; let w1 := fresh "w" in
  destruct H as (r & w1 & He & H); unshelve epose proof (identity_read_only _ _ _ presented _ _ _ _ _ He) as ->; [exact I|].
Ltac over := match goal with H : runs _ _ _ _ _ |- _ => by destruct H as [<- ->] | H : _ = _ /\ _ = _ |- _ => by destruct H as [<- ->] end.

(** ** Logging in. *)

(** A session that authenticates at a time, under the policy's idle timeout. *)
Definition live (at_ : Date) (s : Session) : Prop := isOk (Session.assertUsable s at_ (Some idleTimeoutMs)) = true.

(** The identity's sessions that authenticate at [at_]. *)
Definition liveOf (at_ : Date) (identityId : ID) (w : World) : list Session :=
  filter (fun s => isOk (Session.assertUsable s at_ (Some idleTimeoutMs)) = true) (listActive identityId w.(stores)).

(** How many sessions a login leaves beside its own. *)
Definition room : nat := Z.to_nat (Z.max 0 (maxActivePerIdentity - 1)).

(** The sessions a login ends are the oldest ones beyond the room. *)
Lemma surplus_split at_ active :
  exists kept, kept ++ surplus at_ active ≡ₚ filter (fun s => isOk (Session.assertUsable s at_ (Some idleTimeoutMs)) = true) active
    /\ (length kept <= room)%nat
    /\ (forall x, x ∈ surplus at_ active -> length kept = room)
    /\ (forall k x, k ∈ kept -> x ∈ surplus at_ active -> getTime x.(s_createdAt) <= getTime k.(s_createdAt)).
Proof.
  unfold surplus. set (l := sort_by _ _).
  assert (Hs : StronglySorted (fun a b => getTime b.(s_createdAt) - getTime a.(s_createdAt) <= 0) l).
  { apply (sort_by_strong (fun a b => getTime (s_createdAt b) - getTime (s_createdAt a))); intros; lia. }
  exists (take room l). rewrite take_drop. split; [apply sort_by_perm|]. split; [rewrite length_take; lia|].
  split; [intros x Hx; change (x ∈ drop room l) in Hx; rewrite length_take; apply list_elem_of_lookup in Hx as (i & Hi%lookup_lt_Some);
    rewrite length_drop in Hi; lia|].
  intros k x Hk Hx. rewrite <- (take_drop room l) in Hs.
  pose proof (StronglySorted_app_1_elem_of _ _ _ _ _ Hs Hk Hx) as Hle. cbn in Hle. lia.
Qed.

(** Ending sessions only reads, and ends them in order. *)
Lemma endSessions_runs operation reason t work owner l w r w' :
  runs exec (endSessions operation reason t work owner l) w r w' ->
  w' = w /\ match r with Ok es => Forall2 (fun s e => Session.revoke s t = Ok e.(ev_session)) l es | Err _ => True end.
Proof.
  revert r w'. induction l as [|s l IH]; intros r w' Hrun; cbn [endSessions] in Hrun; [by destruct Hrun as [<- ->]|].
  go Hrun. destruct (Session.revoke s t) as [s'|] eqn:Es; [|over]. ask Hrun eid He.
  destruct eid as [eid|]; [|over]. go Hrun. destruct (Events.create _ _ _ _ _ _ _) as [e|]; [|over]. go Hrun.
  apply runs_bind in Hrun as (more & w1 & Hmore & Hrun). apply IH in Hmore as [-> Hmore].
  destruct more as [more|]; [|over]. destruct Hrun as [<- ->]. split; [done|]. by constructor.
Qed.

Lemma liveOf_nodup at_ id w : Inv w -> NoDup (s_id <$> liveOf at_ id w).
Proof.
  intros HI. unfold liveOf, listActive. eapply sublist_NoDup; [|apply fmap_sublist, sublist_filter]. rewrite sort_by_perm.
  eapply sublist_NoDup; [|apply fmap_sublist, sublist_filter]. rewrite <- list_fmap_compose.
  destruct (inv_sessions _ _ _ HI) as [Hw Hk]. by apply JsMap.NoDup_values.
Qed.

(** What a login's write does to the other sessions. *)
Lemma withSession_other input w id st :
  Inv w -> sessionAt (mkWorld (withSession input w.(stores)) []) id st -> id <> input.(sn_session).(s_id) ->
  (sessionAt w id st /\ id ∉ endedIds input.(sn_evicted))
  \/ (exists e, e ∈ input.(sn_evicted) /\ e.(ev_session).(s_id) = id /\ st.(ss_session) = Session.saved e.(ev_session)).
Proof.
  intros HI. unfold sessionAt. cbn. intros Hst Hne. rewrite JsMap.get_set_ne in Hst by done.
  apply endAll_cases in Hst as [?|(e & old & He & Hid & _ & ->)]; [by left|right]. by exists e.
Qed.

Lemma surplus_ids (l : list SessionEviction) xs t :
  Forall2 (fun s e => Session.revoke s t = Ok e.(ev_session)) xs l -> endedIds l = s_id <$> xs.
Proof. induction 1 as [|s e xs l Hr _ IH]; [done|]. cbn. rewrite IH. f_equal. by destruct (revoke_fixed _ _ _ Hr). Qed.

(** At most the room and the new session authenticate afterwards, and what
    remains is at least as recent as what was ended. *)
Lemma login_limit input at_ w w' :
  let s := input.(sn_session) in
  Inv w -> Inv w' -> w'.(stores) = withSession input w.(stores) ->
  Forall2 (fun s e => Session.revoke s at_ = Ok e.(ev_session)) (surplus at_ (listActive s.(s_identityId) w.(stores))) input.(sn_evicted) ->
  (length (liveOf at_ s.(s_identityId) w') <= S room)%nat
  /\ (forall x y, x ∈ surplus at_ (listActive s.(s_identityId) w.(stores)) -> y ∈ liveOf at_ s.(s_identityId) w' ->
        y.(s_id) <> s.(s_id) -> getTime x.(s_createdAt) <= getTime y.(s_createdAt)).
Proof.
  intros s HI HI' Hw' Hl. set (active := listActive _ _) in Hl.
  destruct (surplus_split at_ active) as (kept & Hperm & Hlen & _ & Hold).
  assert (Hin : forall y, y ∈ liveOf at_ s.(s_identityId) w' -> y.(s_id) <> s.(s_id) -> y ∈ kept).
  { intros y [Hlive Hy]%list_elem_of_filter Hne. apply active_listed with (1 := HI') in Hy as [(st & Hst & <-) Hact].
    unfold sessionAt in Hst. rewrite Hw' in Hst.
    destruct (withSession_other input w _ st HI Hst Hne) as [[Hst0 Hn]|(e & He & _ & Hes)].
    - assert (Hy : ss_session st ∈ kept ++ surplus at_ active).
      { rewrite Hperm. apply list_elem_of_filter. split; [done|]. apply (active_listed _ _ _ _ _ HI). split; [by exists st|done]. }
      apply elem_of_app in Hy as [Hy|Hy]; [done|]. exfalso. apply Hn. rewrite (surplus_ids _ _ _ Hl). by apply list_elem_of_fmap_2.
    - exfalso. apply list_elem_of_lookup in He as (i & Hi). destruct (Forall2_lookup_r _ _ _ _ _ Hl Hi) as (x & _ & Hx).
      destruct (revoke_fixed _ _ _ Hx) as (_ & _ & Hrev & _). unfold activeOf in Hact. rewrite Hes in Hact. cbn in Hact.
      rewrite Hrev in Hact. by rewrite andb_false_r in Hact. }
  split; [|intros x y Hx Hy Hne; apply Hold; [by apply Hin|done]].
  assert (Hsub : s_id <$> liveOf at_ s.(s_identityId) w' ⊆ s.(s_id) :: (s_id <$> kept)).
  { intros id (y & -> & Hy)%list_elem_of_fmap. apply elem_of_cons. destruct (decide (y.(s_id) = s.(s_id))); [by left|right].
    apply list_elem_of_fmap_2. by apply Hin. }
  apply NoDup_submseteq in Hsub; [|by apply liveOf_nodup]. apply submseteq_length in Hsub.
  cbn in Hsub. rewrite !length_fmap in Hsub. lia.
Qed.

Lemma surplus_listed at_ active x : x ∈ surplus at_ active -> x ∈ active.
Proof.
  destruct (surplus_split at_ active) as (kept & Hperm & _). intros Hx.
  assert (Hin : x ∈ kept ++ surplus at_ active) by (apply elem_of_app; by right).
  rewrite Hperm in Hin. by apply list_elem_of_filter in Hin as [_ ?].
Qed.

Lemma listed_inj w id x y : Inv w -> x ∈ listActive id w.(stores) -> y ∈ listActive id w.(stores) -> x.(s_id) = y.(s_id) -> x = y.
Proof.
  intros HI Hx Hy Heq. apply active_listed with (1 := HI) in Hx as [(st & Hst & <-) _].
  apply active_listed with (1 := HI) in Hy as [(st' & Hst' & <-) _]. unfold sessionAt in Hst, Hst'. congruence.
Qed.

(** The other sessions: as they were, or ended. *)
Lemma login_others input w id at_ :
  Inv w ->
  Forall2 (fun s e => Session.revoke s at_ = Ok e.(ev_session)) (surplus at_ (listActive input.(sn_session).(s_identityId) w.(stores))) input.(sn_evicted) ->
  id <> input.(sn_session).(s_id) ->
  match JsMap.get id w.(stores).(sessions), JsMap.get id (withSession input w.(stores)).(sessions) with
  | Some st, Some st' => st' = st \/ (id ∈ endedIds input.(sn_evicted) /\ st'.(ss_session).(s_status) = Session.revoked)
  | None, None => True
  | _, _ => False
  end.
Proof.
  intros HI Hl Hne. cbn. rewrite JsMap.get_set_ne by done.
  pose proof (endAll_keys input.(sn_evicted) w.(stores).(sessions)) as Hk.
  destruct (JsMap.get id (endAll _ _)) as [st'|] eqn:E'.
  - destruct (endAll_cases _ _ _ _ E') as [[-> _]|(e & old & He & <- & -> & ->)]; [by left|right].
    split; [exact (list_elem_of_fmap_2 (fun e => s_id (ev_session e)) _ _ He)|]. apply list_elem_of_lookup in He as (i & Hi).
    destruct (Forall2_lookup_r _ _ _ _ _ Hl Hi) as (x & _ & Hx). by destruct (revoke_fixed _ _ _ Hx) as (_ & _ & ? & _).
  - apply JsMap.get_None in E'. rewrite Hk in E'. apply JsMap.get_None in E'. by rewrite E'.
Qed.

(** A login ends a session only when the other ones that remain fill the room. *)
Lemma login_spares input at_ w w' x :
  let s := input.(sn_session) in
  Inv w -> Inv w' -> w'.(stores) = withSession input w.(stores) ->
  Forall2 (fun s e => Session.revoke s at_ = Ok e.(ev_session)) (surplus at_ (listActive s.(s_identityId) w.(stores))) input.(sn_evicted) ->
  JsMap.get s.(s_id) w.(stores).(sessions) = None ->
  x ∈ endedIds input.(sn_evicted) ->
  (room <= length (filter (fun y => y.(s_id) <> s.(s_id)) (liveOf at_ s.(s_identityId) w')))%nat.
Proof.
  intros s HI HI' Hw' Hl Hnew Hx. rewrite (surplus_ids _ _ _ Hl) in Hx. apply list_elem_of_fmap in Hx as (x0 & _ & Hx0).
  set (active := listActive _ _) in *. destruct (surplus_split at_ active) as (kept & Hperm & _ & Hroom & _).
  rewrite <- (Hroom _ Hx0), <- (length_fmap s_id kept), <- (length_fmap s_id (filter _ _)).
  assert (Hnd : NoDup (s_id <$> (kept ++ surplus at_ active))).
  { rewrite Hperm. exact (liveOf_nodup at_ _ _ HI). }
  rewrite fmap_app in Hnd. apply NoDup_app in Hnd as (Hndk & Hdis & _).
  apply submseteq_length, NoDup_submseteq; [done|]. intros id (k & -> & Hk)%list_elem_of_fmap.
  apply list_elem_of_fmap_2. assert (Hkl : k ∈ kept ++ surplus at_ active) by (apply elem_of_app; by left).
  rewrite Hperm in Hkl. apply list_elem_of_filter in Hkl as [Hlive Hka].
  pose proof (proj1 (active_listed _ _ _ _ _ HI) Hka) as [(st & Hst & Hks) Hact].
  assert (Hne : k.(s_id) <> s.(s_id)) by (intros Heq; unfold sessionAt in Hst; rewrite Heq in Hst; congruence).
  apply list_elem_of_filter. split; [done|]. apply list_elem_of_filter. split; [done|].
  apply (active_listed _ _ _ _ _ HI'). split; [|done]. exists st. split; [|done].
  unfold sessionAt. rewrite Hw'. cbn. rewrite JsMap.get_set_ne by done. rewrite endAll_get; [done|].
  rewrite (surplus_ids _ _ _ Hl). apply Hdis. by apply list_elem_of_fmap_2.
Qed.

(** The account that a login found, and admitted. *)
Definition admitted (cmd : PasswordCommand) (w : World) (account : AuthenticationRecord) : Prop :=
  Credential.normalizeEmail cmd.(pc_email) = Ok account.(ar_credential).(c_email)
  /\ credentialAt w account.(ar_credential).(c_id) account.(ar_credential)
  /\ account.(ar_credential).(c_status) = Credential.active
  /\ hashAt w account.(ar_credential).(c_id) account.(ar_passwordHash)
  /\ matches cmd.(pc_password) account.(ar_passwordHash) = true
  /\ identityAt w account.(ar_credential).(c_identityId) account.(ar_identity)
  /\ account.(ar_identity).(i_id) = account.(ar_credential).(c_identityId)
  /\ account.(ar_identity).(i_status) = Identity.active.

(** A new session, as it was asked for. *)
Lemma created_session input s :
  Session.create input = Ok s ->
  s.(s_id) = input.(Session.c_id) /\ s.(s_identityId) = input.(Session.c_identityId) /\ s.(s_status) = Session.active
  /\ s.(s_createdAt) = input.(Session.c_createdAt) /\ s.(s_expiresAt) = input.(Session.c_expiresAt).
Proof.
  unfold Session.create. destruct (validDate (Session.c_createdAt input)) eqn:Ec; [|done].
  destruct (validDate (Session.c_expiresAt input)) eqn:Ee; [|done]. cbn. destruct (date_le _ _); [done|]. intros [= <-]. cbn.
  by rewrite !copyDate_valid.
Qed.

(** The run of a login that succeeds: what it read, and what it wrote. *)
Lemma login_run (cmd : PasswordCommand) (w w' : World) (r : Res Authenticated) :
  Inv w -> runs exec (authenticateIdentity cmd) w r w' ->
  match r with
  | Err _ => w'.(stores) = w.(stores)
  | Ok a =>
      exists account input token,
        admitted cmd w account
        /\ input.(sn_session).(s_identityId) = account.(ar_identity).(i_id)
        /\ input.(sn_session).(s_status) = Session.active
        /\ sessionExpiresAt input.(sn_session).(s_createdAt) = Ok input.(sn_session).(s_expiresAt)
        /\ input.(sn_tokenDigest) = digestToken token
        /\ Forall2 (fun s e => Session.revoke s input.(sn_session).(s_createdAt) = Ok e.(ev_session))
             (surplus input.(sn_session).(s_createdAt) (listActive input.(sn_session).(s_identityId) w.(stores))) input.(sn_evicted)
        /\ JsMap.get input.(sn_session).(s_id) w.(stores).(sessions) = None
        /\ w'.(stores) = withSession input w.(stores)
        /\ a = mkAuthenticated account.(ar_identity).(i_id) input.(sn_session).(s_id) token input.(sn_session).(s_expiresAt)
  end.
Proof.
  intros HI Hrun.
  unfold authenticateIdentity in Hrun. go Hrun. destruct (negb _); [|over]. go Hrun.
  destruct (Credential.normalizeEmail _) as [email|] eqn:Em; [|over]. ask Hrun found Hf. destruct found as [found|]; [|over].
  destruct found as [account|]; cbn [checkPassword] in Hrun; [|ask Hrun u Hu; by destruct u as [u|]; over].
  destruct Hf as [[Hf|(? & Hf & _)] _]; [|done]. symmetry in Hf.
  destruct (found_account _ _ _ _ _ HI Hf) as (_ & Hmail & Hc & Hh & Hi).
  pose proof (holds_id _ _ _ (inv_identities _ _ _ HI) Hi : i_id _ = _) as Hid.
  ask Hrun valid Hm. destruct valid as [valid|]; [|over]. go Hrun. cbn [foundOr] in Hrun.
  destruct Hm as [Hm _]. unfold admits in Hrun. destruct valid; [|over]. cbn [andb] in Hrun.
  destruct (bool_decide_reflect (i_status (ar_identity account) = Identity.active)) as [Hact|]; [|over].
  destruct (bool_decide_reflect (c_status (ar_credential account) = Credential.active)) as [Hcact|]; [|over]. cbn [andb] in Hrun.
  ask Hrun at0 Hat. destruct (sessionExpiresAt at0) as [u|] eqn:Eu; [|over]. ask Hrun sid Hsid. destruct sid as [sid|]; [|over]. go Hrun.
  destruct (Session.create _) as [s|] eqn:Es; [|over]. ask Hrun tok Ht. destruct tok as [tok|]; [|over].
  ask Hrun eid He. destruct eid as [eid|]; [|over]. go Hrun. destruct (Events.create _ _ _ _ _ _ _) as [e|]; [|over]. go Hrun.
  destruct (created_session _ _ Es) as (Hsid' & Hsi & Hsa & Hsc & Hse). cbn [Session.c_id Session.c_identityId Session.c_createdAt Session.c_expiresAt] in *.
  rewrite <- Hsc, <- Hse in Eu. unfold evictions in Hrun. apply runs_bind in Hrun as (evs & w1 & Hev & Hrun).
  ask Hev active Ha. destruct active as [active|]; [|destruct Hev as [<- ->]; over]. go Hev. destruct Ha as [Ha _]. cbn in Ha. subst active.
  apply endSessions_runs in Hev as [-> Hev]. destruct evs as [evs|]; [|over]. go Hrun.
  destruct Hrun as (res & w1 & Hsave & Hrun).
  destruct (save_session outage _ _ _ _ (proj1 (inv_sessions _ _ _ HI)) Hsave) as [[-> [Hg ->]]|(f & sent & -> & ->)]; [|over].
  go Hrun. destruct Hrun as [<- ->]. apply sessionGuard_ok in Hg as [Hnew _].
  exists account, (mkSessionCommit s account.(ar_credential) tok.(tm_digest) e evs cmd.(pc_work)), tok.(tm_token).
  subst email. split_and!; try done. apply Ht.
Qed.

(** C19. What a login does. A login that ran on its own and succeeded found the
    account of the normalized address; the password presented matches its hash,
    the identity and the credential are active; a new active session of the
    identity is stored under the digest of the token that is answered; it expires
    when the session policy says for the time it was created at. At most
    [max 1 maxActivePerIdentity] sessions of the identity authenticate at that time
    afterwards; the other sessions are as they were, or were ended by this login,
    which ends the oldest ones only, and none while there is room. A login that
    fails changes nothing in the stores. *)
Theorem login_effect (cmd : PasswordCommand) (w w' : World) (r : Res Authenticated)
    (HI : Inv w) (Hp : presented cmd.(pc_password)) (Hrun : runs exec (authenticateIdentity cmd) w r w') :
  match r with
  | Err _ => w'.(stores) = w.(stores)
  | Ok a =>
      exists account session (evicted : list ID),
        admitted cmd w account /\ a.(au_identityId) = account.(ar_identity).(i_id)
        /\ sessionAt w' a.(au_sessionId) (mkStoredSession session (digestToken a.(au_token)))
        /\ session.(s_identityId) = a.(au_identityId) /\ session.(s_status) = Session.active
        /\ session.(s_expiresAt) = a.(au_expiresAt)
        /\ sessionExpiresAt session.(s_createdAt) = Ok session.(s_expiresAt)
        /\ JsMap.get a.(au_sessionId) w.(stores).(sessions) = None
        /\ Z.of_nat (length (liveOf session.(s_createdAt) a.(au_identityId) w')) <= Z.max 1 maxActivePerIdentity
        /\ (forall id, id <> a.(au_sessionId) ->
              match JsMap.get id w.(stores).(sessions), JsMap.get id w'.(stores).(sessions) with
              | Some st, Some st' => st' = st \/ (id ∈ evicted /\ st'.(ss_session).(s_status) = Session.revoked)
              | None, None => True
              | _, _ => False
              end)
        /\ (forall x y, x ∈ listActive a.(au_identityId) w.(stores) -> x.(s_id) ∈ evicted ->
              y ∈ liveOf session.(s_createdAt) a.(au_identityId) w' -> y.(s_id) <> a.(au_sessionId) ->
              getTime x.(s_createdAt) <= getTime y.(s_createdAt))
        /\ (forall id, id ∈ evicted ->
              maxActivePerIdentity - 1
                <= Z.of_nat (length (filter (fun y => y.(s_id) <> a.(au_sessionId)) (liveOf session.(s_createdAt) a.(au_identityId) w'))))
  end.
Proof.
  assert (HI' : Inv w').
  { by destruct (wp_runs exec Inv Rel identity_rel_refl identity_rel_trans _ _ _ _ _
      (authenticateIdentity_safe digestToken matches outage presented cmd w Hp) HI Hrun). }
  pose proof (login_run _ _ _ _ HI Hrun) as Hl. destruct r as [a|]; [|done].
  destruct Hl as (account & input & token & (Hm & Hc & Hcs & Hh & Hpw & Hi & Hid & His) & Hsi & Hsa & Hpol & Hd & Hev & Hnew & Hw' & ->).
  destruct (login_limit input _ w w' HI HI' Hw' Hev) as [Hlim Hold].
  exists account, (Session.saved input.(sn_session)), (endedIds input.(sn_evicted)). cbn. rewrite <- !Hsi.
  split_and!; try done.
  - unfold sessionAt. rewrite Hw'. cbn. by rewrite JsMap.get_set_eq, Hd.
  - revert Hlim. unfold room. lia.
  - intros id Hne. rewrite Hw'. by apply (login_others input w id _ HI Hev).
  - intros x y Hx Hxe Hy Hne. rewrite (surplus_ids _ _ _ Hev) in Hxe. apply list_elem_of_fmap in Hxe as (x' & Hxx & Hx').
    rewrite (listed_inj _ _ x x' HI Hx (surplus_listed _ _ _ Hx') Hxx). by apply Hold.
  - intros id Hid'. pose proof (login_spares input _ w w' id HI HI' Hw' Hev Hnew Hid') as Hr. revert Hr. unfold room. lia.
Qed.

(** ** Resetting a password. *)

Lemma verifiedEvents_runs verified c t work id w r w' :
  runs exec (verifiedEvents verified c t work id) w r w' -> w' = w.
Proof.
  intros Hrun. destruct verified as [v|]; [|by destruct Hrun]. unfold verifiedEvents in Hrun. ask Hrun eid He.
  destruct eid as [eid|]; [|over]. go Hrun. destruct (Events.create _ _ _ _ _ _ _); over.
Qed.

(** What a reset that succeeds read and wrote. *)
Record ResetRun (cmd : ResetCommand) (w : World) (d : ResetDone) (c : StoredChallenge) (account : AuthenticationRecord)
    (at_ : Date) (input : ResetCommit) : Prop := mkResetRun {
  rr_link : challengeAt w cmd.(rp_challengeId) c;
  rr_purpose : c.(sc_challenge).(v_purpose) = Challenge.password_reset;
  rr_token : digestToken cmd.(rp_token) = c.(sc_tokenDigest);
  rr_consumed : Challenge.consume c.(sc_challenge) at_ = Ok input.(rs_challenge);
  rr_account : read matches presented w account;
  rr_credential : credentialAt w account.(ar_credential).(c_id) account.(ar_credential);
  rr_identity : identityAt w account.(ar_credential).(c_identityId) account.(ar_identity);
  rr_owner : account.(ar_identity).(i_id) = c.(sc_challenge).(v_identityId);
  rr_reachable : reachableStatus account.(ar_identity).(i_status) = true;
  rr_changed : Credential.changeSecret account.(ar_credential) at_ = Ok input.(rs_credential);
  rr_previous : input.(rs_previousUpdatedAt) = account.(ar_credential).(c_updatedAt);
  rr_verify : verifyPending account.(ar_identity) at_ = Ok input.(rs_identity);
  rr_hash : matches cmd.(rp_password) input.(rs_passwordHash) = true;
  rr_revoked : Forall2 (fun s e => Session.revoke s at_ = Ok e.(ev_session)) (listActive account.(ar_identity).(i_id) w.(stores)) input.(rs_revoked);
  rr_answer : d = mkResetDone account.(ar_identity).(i_id) (negb (isNull input.(rs_identity))) (Z.of_nat (length input.(rs_revoked)))
}.

Lemma reset_run (cmd : ResetCommand) (w w' : World) (r : Res ResetDone) :
  Inv w -> runs exec (confirmPasswordReset cmd) w r w' ->
  match r with
  | Err _ => w'.(stores) = w.(stores)
  | Ok d => exists c account at_ input st, ResetRun cmd w d c account at_ input
      /\ resetGuard input w.(stores) = Ok st /\ w'.(stores) = withReset input st w.(stores)
  end.
Proof.
  intros HI Hrun. unfold confirmPasswordReset in Hrun. go Hrun. destruct (validatePassword _); [|over].
  ask Hrun found Hf. destruct found as [found|]; [|over]. go Hrun.
  destruct (foundOr invalidLink (forPurpose _) found) as [c|] eqn:Er; [|over].
  destruct Hf as [Hf _]. cbn in Hf. destruct found as [c0|]; [|done]. cbn in Er.
  destruct (forPurpose _ c0) eqn:Ep; [|done]. injection Er as ->. apply bool_decide_eq_true in Ep.
  ask Hrun valid Hv. destruct valid as [valid|]; [|over]. destruct Hv as [Hv _]. cbn in Hv. subst valid. go Hrun.
  destruct (bool_decide_reflect (digestToken (rp_token cmd) = sc_tokenDigest c)) as [Htok|]; [|over].
  ask Hrun at_ Hat. unfold consumeLink in Hrun. destruct (Challenge.consume _ _) as [cc|] eqn:Ec; [|over].
  ask Hrun owner Ho. destruct owner as [owner|]; [|over]. go Hrun. destruct owner as [account|]; [|over]. cbn [foundOr] in Hrun.
  destruct (reachableStatus _) eqn:Ea; [|over]. destruct Ho as [[Ho|(? & Ho & _)] _]; [|done]. symmetry in Ho.
  destruct (found_by_identity _ _ _ _ _ HI Ho) as (Hread & Hid & Hcr & _ & Hi).
  go Hrun. destruct (Credential.changeSecret _ _) as [changed|] eqn:Eh; [|over]. go Hrun.
  destruct (verifyPending _ _) as [verified|] eqn:Ev; [|over]. ask Hrun h Hh. destruct h as [h|]; [|over].
  ask Hrun active Hact. destruct active as [active|]; [|over]. destruct Hact as [Hact _]. cbn in Hact. subst active. go Hrun.
  apply runs_bind in Hrun as (evs & w1 & Hev & Hrun). apply endSessions_runs in Hev as [-> Hev]. destruct evs as [evs|]; [|over].
  ask Hrun eid He. destruct eid as [eid|]; [|over]. go Hrun. destruct (Events.create _ _ _ _ _ _ _) as [e|]; [|over]. go Hrun.
  apply runs_bind in Hrun as (vs & w1 & Hvs & Hrun). apply verifiedEvents_runs in Hvs as ->. destruct vs as [vs|]; [|over]. go Hrun.
  destruct Hrun as (res & w1 & Hsave & Hrun).
  destruct (save_reset outage _ _ _ _ (proj1 (inv_sessions _ _ _ HI)) Hsave) as [[-> (st & Hg & ->)]|(f & sent & -> & ->)]; [|over].
  go Hrun. destruct Hrun as [<- ->]. exists c, account, at_. do 2 eexists. split; [|by split].
  destruct (consume_fixed _ _ _ Ec) as (_ & Hvi & _). constructor; try done; [congruence|apply Hh].
Qed.

Lemma verify_id i t v : Identity.verify i t = Ok v -> v.(i_id) = i.(i_id).
Proof. unfold Identity.verify. intros Hv. by ok_branches Hv. Qed.

(** The world a reset leaves: consistent, and without active sessions of its identity. *)
Lemma reset_ends cmd w w' d c account at_ input st :
  Inv w -> ResetRun cmd w d c account at_ input -> resetGuard input w.(stores) = Ok st ->
  w'.(stores) = withReset input st w.(stores) ->
  Inv w' /\ listActive account.(ar_identity).(i_id) w'.(stores) = [].
Proof.
  intros HI [] Hg Hw'. pose proof (holds_id _ _ _ (inv_identities _ _ _ HI) rr_identity0 : i_id _ = _) as Hid.
  assert (Hended : Forall (ended w) (rs_revoked input)).
  { apply Forall_forall. intros e (i & Hi)%list_elem_of_lookup. destruct (Forall2_lookup_r _ _ _ _ _ rr_revoked0 Hi) as (x & Hx & Hr).
    pose proof (listed_standing _ _ w account.(ar_identity).(i_id) _ HI eq_refl) as Hl. rewrite Forall_forall in Hl.
    destruct e as [s e]. eapply revoked_ended; [|exact Hr]. apply (Hl x). by eapply list_elem_of_lookup_2. }
  destruct input as [rc cr prev h verified l events work]. cbn in *. subst prev.
  destruct (reset_world digestToken matches presented w account cr h c at_ rc verified l st events work w'.(published) HI rr_credential0 Hid rr_changed0 Hended) as (HI' & _ & Hno); [..|exact Hg|].
  - eapply holds_seen; [apply HI|exact rr_link0].
  - done.
  - intros v ->. split; [eapply holds_seen; [apply HI|exact rr_identity0]|by eapply verifyPending_some].
  - rewrite <- Hw' in HI', Hno. destruct w' as [s' p']. split; [exact HI'|].
    apply elem_of_nil_inv. intros x Hx.
    apply active_listed with (1 := HI') in Hx as [(sx & Hsx & <-) Ha]. unfold activeOf in Ha. apply andb_true_iff in Ha as [Hai Haa].
    apply bool_decide_eq_true in Hai, Haa. pose proof (Hno _ _ Hsx Hai). congruence.
Qed.

(** The sessions after a reset: ended when they were listed, as they were otherwise. *)
Lemma reset_sessions w id at_ (revoked : list SessionEviction) :
  Inv w -> Forall2 (fun s e => Session.revoke s at_ = Ok e.(ev_session)) (listActive id w.(stores)) revoked ->
  forall k, match JsMap.get k w.(stores).(sessions), JsMap.get k (endAll revoked w.(stores).(sessions)) with
  | Some st, Some st' =>
      (st.(ss_session) ∈ listActive id w.(stores) -> st'.(ss_session).(s_id) = k /\ st'.(ss_session).(s_status) = Session.revoked)
      /\ (st.(ss_session) ∉ listActive id w.(stores) -> st' = st)
  | None, None => True
  | _, _ => False
  end.
Proof.
  intros HI Hl k. pose proof (endAll_keys revoked w.(stores).(sessions)) as Hk.
  destruct (JsMap.get k (endAll _ _)) as [st'|] eqn:E'.
  2: { apply JsMap.get_None in E'. rewrite Hk in E'. apply JsMap.get_None in E'. by rewrite E'. }
  destruct (endAll_cases _ _ _ _ E') as [[E Hn]|(e & old & He & <- & E & ->)]; rewrite E.
  - split; [|done]. intros Hin. exfalso. apply Hn. rewrite (surplus_ids _ _ _ Hl).
    rewrite <- (proj2 (inv_sessions _ _ _ HI) _ _ E). by apply list_elem_of_fmap_2.
  - apply list_elem_of_lookup in He as (i & Hi). destruct (Forall2_lookup_r _ _ _ _ _ Hl Hi) as (x & Hx & Hxr).
    destruct (revoke_fixed _ _ _ Hxr) as (Hxid & _ & Hst & _). apply list_elem_of_lookup_2 in Hx.
    pose proof (proj1 (active_listed _ _ _ _ _ HI) Hx) as [(sx & Hsx & Hsxx) _]. unfold sessionAt in Hsx.
    rewrite <- Hxid in Hsx. rewrite Hsx in E. injection E as ->. by rewrite Hsxx.
Qed.

(** The identity after a reset. *)
Lemma verified_identity account at_ verified id (ids : list (ID * Identity)) :
  verifyPending account at_ = Ok verified -> account.(i_id) = id ->
  exists i, (JsMap.get id ids = Some account ->
             JsMap.get id (match verified with Some v => JsMap.set v.(i_id) (Identity.saved v) ids | None => ids end) = Some i)
    /\ (negb (isNull verified) = true <-> account.(i_status) = Identity.pending_verification)
    /\ (if negb (isNull verified) then i.(i_status) = Identity.active else i = account).
Proof.
  unfold verifyPending. intros Hv Hid. destruct (bool_decide_reflect (i_status account = Identity.pending_verification)).
  - apply bind_ok in Hv as (v & Hv & [= <-]). exists (Identity.saved v). cbn. split_and!; [|done|by apply verify_active in Hv as [? _]].
    intros _. by rewrite <- Hid, <- (verify_id _ _ _ Hv), JsMap.get_set_eq.
  - injection Hv as <-. by exists account.
Qed.

(** C20. What a password reset does. A reset that ran on its own and succeeded
    was made with the token of an issued reset link of the identity; the link is
    consumed and cannot be used again; the credential's hash is one of the new
    password, and its update time moved; every session the identity had active is
    stored as revoked, they are as many as answered, every other session is as it
    was, and none of the identity is active afterwards; the identity stored is now
    active when it was waiting for its verification, and is as it was otherwise,
    and the answer says which. A reset that fails changes nothing in the stores. *)
Theorem reset_effect (cmd : ResetCommand) (w w' : World) (r : Res ResetDone)
    (HI : Inv w) (Hrun : runs exec (confirmPasswordReset cmd) w r w') :
  match r with
  | Err _ => w'.(stores) = w.(stores)
  | Ok d =>
      exists c c' account credential hash i,
        challengeAt w cmd.(rp_challengeId) c /\ c.(sc_challenge).(v_purpose) = Challenge.password_reset
        /\ c.(sc_challenge).(v_identityId) = d.(rr_identityId) /\ digestToken cmd.(rp_token) = c.(sc_tokenDigest)
        /\ c.(sc_challenge).(Challenge.v_status) = Challenge.issued
        /\ challengeAt w' cmd.(rp_challengeId) c' /\ (forall t, isOk (Challenge.consume c'.(sc_challenge) t) = false)
        /\ credentialAt w account.(ar_credential).(c_id) account.(ar_credential)
        /\ account.(ar_credential).(c_identityId) = d.(rr_identityId)
        /\ credentialAt w' account.(ar_credential).(c_id) credential
        /\ date_lt account.(ar_credential).(c_updatedAt) credential.(c_updatedAt) = true
        /\ hashAt w' account.(ar_credential).(c_id) hash /\ matches cmd.(rp_password) hash = true
        /\ d.(rr_sessionsRevoked) = Z.of_nat (length (listActive d.(rr_identityId) w.(stores)))
        /\ listActive d.(rr_identityId) w'.(stores) = []
        /\ (forall id,
              match JsMap.get id w.(stores).(sessions), JsMap.get id w'.(stores).(sessions) with
              | Some st, Some st' =>
                  (st.(ss_session) ∈ listActive d.(rr_identityId) w.(stores) -> st'.(ss_session).(s_id) = id /\ st'.(ss_session).(s_status) = Session.revoked)
                  /\ (st.(ss_session) ∉ listActive d.(rr_identityId) w.(stores) -> st' = st)
              | None, None => True
              | _, _ => False
              end)
        /\ identityAt w d.(rr_identityId) account.(ar_identity) /\ identityAt w' d.(rr_identityId) i
        /\ (d.(rr_verified) = true <-> account.(ar_identity).(i_status) = Identity.pending_verification)
        /\ (if d.(rr_verified) then i.(i_status) = Identity.active else i = account.(ar_identity))
  end.
Proof.
  pose proof (reset_run _ _ _ _ HI Hrun) as Hr. destruct r as [d|]; [|done].
  destruct Hr as (c & account & at_ & input & st & HR & Hg & Hw'). destruct (reset_ends _ _ _ _ _ _ _ _ _ HI HR Hg Hw') as [HI' Hnone].
  destruct HR. subst d. cbn [rr_identityId rr_verified rr_sessionsRevoked].
  pose proof (holds_id _ _ _ (inv_identities _ _ _ HI) rr_identity0 : i_id _ = _) as Hid.
  pose proof (holds_id _ _ _ (inv_challenges _ _ _ HI) rr_link0 : v_id _ = _) as Hcid.
  destruct (consume_fixed _ _ _ rr_consumed0) as (Hvid & _ & _ & _ & His & Hcs).
  assert (Hrev := reset_sessions _ _ _ _ HI rr_revoked0).
  destruct (verified_identity _ _ _ _ w.(stores).(identities) rr_verify0 Hid) as (i & Hi & Hiff & Hact).
  assert (Hp : Credential.path true account.(ar_credential) input.(rs_credential)) by (eapply Credential.path_change; [constructor|exact rr_changed0]).
  destruct (path_fixed _ _ _ Hp) as (Hkid & _ & _).
  exists c, (mkStoredChallenge (Challenge.saved input.(rs_challenge)) st.(sc_tokenDigest)), account, input.(rs_credential), input.(rs_passwordHash), i.
  unfold challengeAt, credentialAt, hashAt, identityAt. rewrite Hw'. cbn [challenges credentials passwordHashes identities withReset].
  rewrite Hvid, Hcid, Hkid, !JsMap.get_set_eq.
  split_and!; try done.
  - intros t. destruct (Challenge.consume _ t) as [x|] eqn:Ex; [|done]. apply consume_fixed in Ex as (_ & _ & _ & _ & Hs & _).
    cbn in Hs. congruence.
  - by apply (Credential.credential_secret_token true _ _ (inv_wf_credential _ _ _ HI _ _ rr_credential0) Hp).
  - by rewrite (Forall2_length _ _ _ rr_revoked0).
  - by rewrite <- Hw'.
  - by rewrite Hid.
  - rewrite Hid. by apply Hi.
Qed.

(** ** What a refused login reveals. *)

(** A consistent store never finds half an account. *)
Lemma findByEmail_ok w email : Inv w -> exists found, findByEmail email w.(stores) = Ok found.
Proof.
  intros HI. unfold findByEmail, find_first. destruct (List.find _ _) as [c|] eqn:Ef; [|eauto].
  apply List.find_some in Ef as [Hin _]. apply list_elem_of_In, (keyedBy_values c_id) in Hin; [|apply HI].
  destruct (inv_account _ _ _ HI _ _ Hin) as [[i Hi] [h Hh]]. unfold identityAt, hashAt in Hi, Hh. rewrite Hi, Hh. eauto.
Qed.

(** C21. A refused login tells nothing about the account. With working ports, a
    login that its account does not admit answers the same failure and changes
    nothing, whether the address is unknown, the password is wrong, or the identity
    or the credential is not active; and it makes two calls in each case: one
    lookup of the address, then one check of the password presented, which is
    against the account's hash when the address is known and against the decoy
    exactly when it is not. *)
Theorem refusals_alike (cmd : PasswordCommand) (email : jstring) (w w' : World) (r : Res Authenticated) (ops : list Op)
    (HI : Inv w) (Hlen : jlength cmd.(pc_password) <= PASSWORD_MAX_LENGTH) (Hemail : Credential.normalizeEmail cmd.(pc_email) = Ok email)
    (Hno : forall account, findByEmail email w.(stores) = Ok (Some account) ->
       admits (matches cmd.(pc_password) account.(ar_passwordHash)) account = false)
    (Hrun : traced (IdentityWorld.exec digestToken matches (fun _ => False)) (authenticateIdentity cmd) w ops r w') :
  r = Err invalidCredentials /\ w' = w
  /\ ops = [readByEmail email;
            match findByEmail email w.(stores) with
            | Ok (Some account) => verifyPassword cmd.(pc_password) account.(ar_passwordHash)
            | _ => verifyDecoy cmd.(pc_password)
            end].
Proof.
  destruct (findByEmail_ok w email HI) as [found Hf]. unfold authenticateIdentity in Hrun.
  rewrite (proj2 (Z.ltb_ge _ _) Hlen) in Hrun. cbn [negb bind require pure_ mapError] in Hrun. rewrite Hemail in Hrun.
  cbn [bind perform orElse depends pure_ mapError traced] in Hrun.
  destruct Hrun as (a & w1 & rest & -> & [[->|(? & _ & [])] ->] & Hrun). rewrite Hf in Hrun. cbn [mapError] in Hrun.
  destruct found as [account|]; cbn [checkPassword bind perform orElse depends traced] in Hrun;
    destruct Hrun as (b & w1 & rest' & -> & [Hb ->] & Hrun).
  - destruct b as [b|]; [|done]. cbn in Hb. subst b. cbn [mapError foundOr] in Hrun. rewrite (Hno account Hf) in Hrun.
    destruct Hrun as (-> & <- & ->). split_and!; try done. by rewrite Hf.
  - destruct b as [[]|]; [|done]. destruct Hrun as (-> & <- & ->). split_and!; try done. by rewrite Hf.
Qed.

(** ** Pruning. *)








End Flows.

(** ** Runs to check the theorems with. *)

#[local] Existing Instance asciiFolding.
#[local] Existing Instance sample_policies.

Abbreviation sample_presented := (fun _ : jstring => True).

Lemma sample_inv n c w : Inv sample_matches sample_presented w -> Inv sample_matches sample_presented (play sample_port n (program c) w).2.
Proof.
  intros HI. by destruct (wp_runs _ _ _ identity_rel_refl identity_rel_trans _ _ _ _ _
    (identity_program_safe sample_digest sample_matches sample_outage sample_presented c w HI (fun _ _ => I)) HI
    (play_runs _ sample_port n _ w sample_port_exec)).
Qed.

Lemma sample_verified_inv : Inv sample_matches sample_presented sample_verified.2.
Proof. apply sample_inv, sample_inv, identity_empty_inv. Qed.

Definition sample_answer := play sample_port 40 (authenticateIdentity sample_account) sample_verified.2.

Lemma sample_answer_runs :
  runs (IdentityWorld.exec sample_digest sample_matches sample_outage) (authenticateIdentity sample_account) sample_verified.2
    sample_answer.1 sample_answer.2.
Proof. exact (play_runs _ sample_port 40 (authenticateIdentity sample_account) sample_verified.2 sample_port_exec). Qed.

Lemma sample_answer_ok : exists a, sample_answer.1 = Ok a.
Proof. eexists. vm_compute. reflexivity. Qed.

Lemma login_effect_witness :
  exists a account session, sample_answer.1 = Ok a /\ admitted sample_matches sample_account sample_verified.2 account
    /\ sessionAt sample_answer.2 a.(au_sessionId) (mkStoredSession session (sample_digest a.(au_token)))
    /\ session.(s_status) = Session.active /\ sessionExpiresAt session.(s_createdAt) = Ok session.(s_expiresAt).
Proof.
  pose proof (login_effect sample_digest sample_matches sample_outage sample_presented sample_account sample_verified.2
    sample_answer.2 sample_answer.1 sample_verified_inv I sample_answer_runs) as Hlogin.
  destruct sample_answer_ok as [a E]. rewrite E in Hlogin.
  destruct Hlogin as (account & session & evicted & Ha & _ & Hs & _ & Hact & _ & Hpol & _). exists a, account, session. exact (conj E (conj Ha (conj Hs (conj Hact Hpol)))).
Defined.

(** Somebody the store does not know, and somebody it knows with another password. *)
Definition sample_guess : PasswordCommand := mkPasswordCommand sample_email (js "not the password") (sample_operation "identity.authenticate").
Definition sample_hash : jstring := js "hashed " ++ sample_password.

Abbreviation tells := (fun cmd w ops =>
  exists r w', traced (IdentityWorld.exec sample_digest sample_matches (fun _ => False)) (authenticateIdentity cmd) w ops r w'
    /\ r = Err invalidCredentials /\ w' = w).

Lemma sample_unknown :
  traced (IdentityWorld.exec sample_digest sample_matches (fun _ => False)) (authenticateIdentity sample_account) sample_empty
    [readByEmail (js "ada@example.org"); verifyDecoy sample_password] (Err invalidCredentials) sample_empty.
Proof.
  exists (Ok None), sample_empty, [verifyDecoy sample_password]. split; [reflexivity|]. split; [by split; [left|]|].
  exists (Ok tt), sample_empty, []. by repeat split.
Qed.

Lemma sample_wrong :
  traced (IdentityWorld.exec sample_digest sample_matches (fun _ => False)) (authenticateIdentity sample_guess) sample_verified.2
    [readByEmail (js "ada@example.org"); verifyPassword (js "not the password") sample_hash] (Err invalidCredentials) sample_verified.2.
Proof.
  exists (findByEmail (js "ada@example.org") sample_verified.2.(stores)), sample_verified.2, [verifyPassword (js "not the password") sample_hash].
  split; [reflexivity|]. split; [by split; [left|]|].
  assert (E : exists a, findByEmail (js "ada@example.org") sample_verified.2.(stores) = Ok (Some a) /\ a.(ar_passwordHash) = sample_hash)
    by (eexists; vm_compute; split; reflexivity).
  destruct E as (a & -> & Ha). rewrite <- Ha.
  exists (Ok false), sample_verified.2, []. split; [reflexivity|]. split; [|by repeat split]. split; [|reflexivity].
  cbn. rewrite Ha. vm_compute. reflexivity.
Qed.

Lemma refusals_alike_witness :
  tells sample_account sample_empty [readByEmail (js "ada@example.org"); verifyDecoy sample_password]
  /\ tells sample_guess sample_verified.2 [readByEmail (js "ada@example.org"); verifyPassword (js "not the password") sample_hash].
Proof.
  split.
  - destruct (refusals_alike sample_digest sample_matches sample_presented sample_account (js "ada@example.org") sample_empty sample_empty
      (Err invalidCredentials) [readByEmail (js "ada@example.org"); verifyDecoy sample_password] (identity_empty_inv _)) as (Hr & Hw & _);
      [vm_compute; discriminate|vm_compute; reflexivity|discriminate|exact sample_unknown|].
    exact (ex_intro _ _ (ex_intro _ _ (conj sample_unknown (conj Hr Hw)))).
  - destruct (refusals_alike sample_digest sample_matches sample_presented sample_guess (js "ada@example.org") sample_verified.2 sample_verified.2
      (Err invalidCredentials) [readByEmail (js "ada@example.org"); verifyPassword (js "not the password") sample_hash] sample_verified_inv) as (Hr & Hw & _);
      [vm_compute; discriminate|vm_compute; reflexivity| |exact sample_wrong|].
    + intros account Ha. assert (E : (account.(ar_passwordHash)) = sample_hash) by (revert Ha; vm_compute; by intros [= <-]).
      rewrite E. vm_compute. reflexivity.
    + exact (ex_intro _ _ (ex_intro _ _ (conj sample_wrong (conj Hr Hw)))).
Defined.


Definition sample_reset : ResetCommand := mkResetCommand (sample_id 62) (sample_token 63) (js "new password") (sample_operation "identity.reset").
Definition sample_linked := play sample_port 60 (program (cRequestReset sample_email (sample_operation "identity.reset"))) sample_login.2.
Definition sample_changed := play sample_port 80 (confirmPasswordReset sample_reset) sample_linked.2.

Lemma sample_changed_runs :
  runs (IdentityWorld.exec sample_digest sample_matches sample_outage) (confirmPasswordReset sample_reset) sample_linked.2
    sample_changed.1 sample_changed.2.
Proof. exact (play_runs _ sample_port 80 (confirmPasswordReset sample_reset) sample_linked.2 sample_port_exec). Qed.

Lemma sample_changed_ok : exists d, sample_changed.1 = Ok d /\ d.(rr_sessionsRevoked) = 1.
Proof. eexists. vm_compute. split; reflexivity. Qed.

Lemma reset_effect_witness :
  exists d, sample_changed.1 = Ok d /\ d.(rr_sessionsRevoked) = 1
    /\ listActive d.(rr_identityId) sample_changed.2.(stores) = [].
Proof.
  pose proof (reset_effect sample_digest sample_matches sample_outage sample_presented sample_reset sample_linked.2
    sample_changed.2 sample_changed.1
    (sample_inv 60 (cRequestReset sample_email (sample_operation "identity.reset")) _ (sample_inv 40 (cLogin sample_account) _ sample_verified_inv))
    sample_changed_runs) as Hreset.
  destruct sample_changed_ok as (d & E & Hd). rewrite E in Hreset.
  destruct Hreset as (c & c' & account & cr & h & i & _ & _ & _ & _ & _ & _ & _ & _ & _ & _ & _ & _ & _ & _ & Hnone & _).
  exists d. exact (conj E (conj Hd Hnone)).
Defined.
End IdentityFlows.
