(* ===== verification/OrganizationStore.v ===== *)
(** * The stores of the organization module: [modules/organization/infra/in-memory].

    One object keeps the organizations, the memberships and the invitations;
    four writers commit to it.  Each guards its write, writes, publishes the
    events of the change, and takes the write back when a publication fails. *)
From stdpp Require Import relations.
From S2P Require Import Prelude JsMap Errors Ids CaseFolding Provenance Events Commands Aggregates Writers OrganizationDomain.

Module OrgFailures.

(** @src src/modules/organization/app/failures.ts:66-106 knownFailure *)
Definition knownTypes : list (string * Kind) :=
  [("organization.already_exists", conflict);
   ("organization.invitation.acceptance_conflict", conflict);
   ("organization.invitation.already_exists", conflict);
   ("organization.invitation.membership_exists", conflict);
   ("organization.invitation_exists", conflict);
   ("organization.membership.already_exists", conflict);
   ("organization.membership_exists", conflict);
   ("organization.slug_taken", conflict);
   ("organization.stale_write", conflict);
   ("organization.id_generation", unavailable);
   ("organization.invitation.id_generation", unavailable);
   ("organization.membership.id_generation", unavailable);
   ("organization.invalid_operation", Errors.invalid);
   ("organization.invitation.invalid_operation", Errors.invalid);
   ("organization.membership.invalid_operation", Errors.invalid);
   ("organization.invitation.accept_forbidden", forbidden);
   ("organization.invitation.forbidden", forbidden);
   ("organization.invitation.revoke_forbidden", forbidden);
   ("organization.membership.add_forbidden", forbidden);
   ("organization.membership.owner_locked", forbidden);
   ("organization.membership.revoke_forbidden", forbidden);
   ("organization.membership.role_forbidden", forbidden);
   ("organization.invitation.identity_not_found", not_found);
   ("organization.invitation.not_found", not_found);
   ("organization.membership.identity_not_found", not_found);
   ("organization.membership.not_found", not_found);
   ("organization.missing_token", unauthenticated);
   ("organization.persistence_invalid", internal)]%string.

(** @src src/modules/organization/app/failures.ts:108-125 dependencyFailure *)
Definition dependencyFailure (error : Failure) (operation : string) : Failure :=
  Vocabulary.dependencyIn "organization" "Organization" knownTypes error operation.

(** @src src/modules/organization/app/failures.ts:127-132 idGenerationFailure *)
Definition idGenerationFailure (type : string) (error : Failure) : Failure :=
  Vocabulary.idGenerationIn type "Organization ID generation failed" error.

(** @src src/modules/organization/infra/failures.ts:7-8 staleWrite *)
Definition staleWrite : Failure :=
  fail_with conflict "record was changed by a concurrent operation" "organization.stale_write".
(** @src src/modules/organization/infra/failures.ts:10-11 organizationExists *)
Definition organizationExists : Failure :=
  fail_with conflict "organization already exists" "organization.already_exists".
(** @src src/modules/organization/infra/failures.ts:13-14 slugTaken *)
Definition slugTaken : Failure :=
  fail_with conflict "organization slug is already in use" "organization.slug_taken".
(** @src src/modules/organization/infra/failures.ts:16-17 ownerMembershipExists *)
Definition ownerMembershipExists : Failure :=
  fail_with conflict "membership already exists" "organization.membership_exists".
(** @src src/modules/organization/infra/failures.ts:19-20 membershipExists *)
Definition membershipExists : Failure :=
  fail_with conflict "identity is already a member" "organization.membership.already_exists".
(** @src src/modules/organization/infra/failures.ts:22-23 invitationExists *)
Definition invitationExists : Failure :=
  fail_with conflict "invitation already exists" "organization.invitation_exists".
(** @src src/modules/organization/infra/failures.ts:25-26 pendingInvitationExists *)
Definition pendingInvitationExists : Failure :=
  fail_with conflict "identity already has a pending invitation" "organization.invitation.already_exists".
(** @src src/modules/organization/infra/failures.ts:28-29 acceptanceConflict *)
Definition acceptanceConflict : Failure :=
  fail_with conflict "invitation is no longer pending" "organization.invitation.acceptance_conflict".
(** @src src/modules/organization/infra/failures.ts:31-32 acceptedMembershipExists *)
Definition acceptedMembershipExists : Failure :=
  fail_with conflict "identity is already a member" "organization.invitation.membership_exists".
(** @src src/modules/organization/infra/failures.ts:34-37 membershipNotFound *)
Definition membershipNotFound : Failure :=
  fail_with not_found "membership was not found" "organization.membership.not_found".
(** @src src/modules/organization/infra/failures.ts:39-42 invitationNotFound *)
Definition invitationNotFound : Failure :=
  fail_with not_found "invitation was not found" "organization.invitation.not_found".
End OrgFailures.

Module OrgStore.
Import OrgFailures.
Import (hints) Organization Membership Invitation.
Import Organization(Organization, o_id, o_slug, o_status, o_version).
Import Membership(Membership, m_id, m_organizationId, m_identityId, m_role, m_version).
Import Invitation(Invitation, n_id, n_organizationId, n_identityId, n_status, n_version).

(** ** The aggregates, as versioned aggregates. *)

#[export, refine] Instance Organization_aggregate : Aggregate Organization := {
  agg_id := o_id; agg_version := o_version; agg_saved := Organization.saved;
  agg_new o := exists (cf : CaseFolding) input, Organization.create input = Ok o;
  agg_change := Organization.step
}.
Proof.
  - done.
  - done.
  - intros o (cf & input & H). unfold Organization.create in H. by ok_branches H.
  - intros o o' (s & n & t & -> & _)%Organization.organization_step_evolve. done.
  - intros o o' (s & n & t & -> & _)%Organization.organization_step_evolve. done.
Defined.

(** A membership's operations. *)
Inductive memberStep (m m' : Membership) : Prop :=
| step_role role at_ : Membership.changeRole m role at_ = Ok m' -> memberStep m m'
| step_revoke at_ : Membership.revoke m at_ = Ok m' -> memberStep m m'.

Lemma memberStep_evolve m m' :
  memberStep m m' ->
  m.(Membership.m_status) = Membership.active
  /\ exists role status at_ r, m' = Membership.evolve m role status at_ r.
Proof.
  intros [role at_ H|at_ H]; [unfold Membership.changeRole in H|unfold Membership.revoke in H]; ok_branches H.
  - destruct (Membership.parseRole role); [|done]. ok_branches H. apply bool_decide_eq_false in E0.
    split; [by destruct (Membership.m_status m)|eauto].
  - apply bool_decide_eq_false in E0. split; [by destruct (Membership.m_status m)|eauto].
Qed.

#[export, refine] Instance Membership_aggregate : Aggregate Membership := {
  agg_id := m_id; agg_version := m_version; agg_saved := Membership.saved;
  agg_new m := exists input, Membership.add input = Ok m;
  agg_change := memberStep
}.
Proof.
  - done.
  - done.
  - intros m (input & H). unfold Membership.add in H. destruct (Membership.parseRole _); [|done]. by ok_branches H.
  - intros m m' (_ & role & st & t & r & ->)%memberStep_evolve. done.
  - intros m m' (_ & role & st & t & r & ->)%memberStep_evolve. done.
Defined.

(** An invitation's operations. *)
Inductive inviteStep (n n' : Invitation) : Prop :=
| step_accept at_ : Invitation.accept n at_ = Ok n' -> inviteStep n n'
| step_withdraw at_ : Invitation.revoke n at_ = Ok n' -> inviteStep n n'.

Lemma inviteStep_evolve n n' :
  inviteStep n n' ->
  n.(n_status) = Invitation.pending
  /\ exists status at_ a r, status <> Invitation.pending /\ n' = Invitation.evolve n status at_ a r.
Proof.
  intros [at_ H|at_ H]; [unfold Invitation.accept in H|unfold Invitation.revoke in H]; ok_branches H;
    match goal with T : negb (bool_decide (_ = Invitation.pending)) = false |- _ =>
      apply negb_false_iff, bool_decide_eq_true in T end;
    (split; [done|]; do 4 eexists; (split; [|done]); done).
Qed.

#[export, refine] Instance Invitation_aggregate : Aggregate Invitation := {
  agg_id := n_id; agg_version := n_version; agg_saved := Invitation.saved;
  agg_new n := exists input, Invitation.issue input = Ok n;
  agg_change := inviteStep
}.
Proof.
  - done.
  - done.
  - intros m (input & H). unfold Invitation.issue in H. destruct (Invitation.parseRole _); [|done]. by ok_branches H.
  - intros n n' (_ & st & t & a & r & _ & ->)%inviteStep_evolve. done.
  - intros n n' (_ & st & t & a & r & _ & ->)%inviteStep_evolve. done.
Defined.

(** ** The store. *)

(** @src src/modules/organization/infra/in-memory/store.ts:3-6 InMemoryOrganizationStore *)
Record Stores : Type := mkStores {
  organizations : Store Organization; memberships : Store Membership; invitations : Store Invitation
}.

(** @src src/modules/organization/infra/in-memory/store.ts:8-10 organizationById *)
Definition organizationById (id : ID) (s : Stores) : option Organization := JsMap.get id s.(organizations).
(** @src src/modules/organization/infra/in-memory/store.ts:12-16 organizationBySlug *)
Definition organizationBySlug (slug : jstring) (s : Stores) : option Organization :=
  find_first (fun o => bool_decide (o.(o_slug) = slug)) (JsMap.values s.(organizations)).
(** @src src/modules/organization/infra/in-memory/store.ts:18-20 membershipById *)
Definition membershipById (id : ID) (s : Stores) : option Membership := JsMap.get id s.(memberships).
(** @src src/modules/organization/infra/in-memory/store.ts:22-27 membershipsForIdentity *)
Definition membershipsForIdentity (identityId : ID) (s : Stores) : list Membership :=
  filter (fun m => m.(m_identityId) = identityId /\ m.(Membership.m_status) = Membership.active)
    (JsMap.values s.(memberships)).
(** @src src/modules/organization/infra/in-memory/store.ts:29-33 membershipsForAnyStatusForIdentity *)
Definition membershipsForAnyStatusForIdentity (identityId : ID) (s : Stores) : list Membership :=
  filter (fun m => m.(m_identityId) = identityId) (JsMap.values s.(memberships)).
(** @src src/modules/organization/infra/in-memory/store.ts:35-37 invitationById *)
Definition invitationById (id : ID) (s : Stores) : option Invitation := JsMap.get id s.(invitations).
(** @src src/modules/organization/infra/in-memory/store.ts:39-48 invitationsForIdentity *)
Definition invitationsForIdentity (organizationId identityId : ID) (s : Stores) : list Invitation :=
  filter (fun n => n.(Invitation.n_organizationId) = organizationId /\ n.(Invitation.n_identityId) = identityId)
    (JsMap.values s.(invitations)).

(** @src src/modules/organization/infra/in-memory/store.ts:50-52 addOrganization *)
Definition addOrganization (o : Organization) (s : Stores) : Stores :=
  mkStores (JsMap.set o.(o_id) o s.(organizations)) s.(memberships) s.(invitations).
(** @src src/modules/organization/infra/in-memory/store.ts:54-60 addMembership, replaceMembership *)
Definition replaceMembership (m : Membership) (s : Stores) : Stores :=
  mkStores s.(organizations) (JsMap.set m.(m_id) m s.(memberships)) s.(invitations).
(** @src src/modules/organization/infra/in-memory/store.ts:62-64 removeOrganization *)
Definition removeOrganization (id : ID) (s : Stores) : Stores :=
  mkStores (JsMap.delete id s.(organizations)) s.(memberships) s.(invitations).
(** @src src/modules/organization/infra/in-memory/store.ts:66-68 removeMembership *)
Definition removeMembership (id : ID) (s : Stores) : Stores :=
  mkStores s.(organizations) (JsMap.delete id s.(memberships)) s.(invitations).
(** @src src/modules/organization/infra/in-memory/store.ts:70-76 addInvitation, replaceInvitation *)
Definition replaceInvitation (n : Invitation) (s : Stores) : Stores :=
  mkStores s.(organizations) s.(memberships) (JsMap.set n.(n_id) n s.(invitations)).
(** @src src/modules/organization/infra/in-memory/store.ts:78-80 removeInvitation *)
Definition removeInvitation (id : ID) (s : Stores) : Stores :=
  mkStores s.(organizations) s.(memberships) (JsMap.delete id s.(invitations)).

(** ** The writers. *)

(** @src src/modules/organization/app/ports/organization-writer.ts:6-12 CreateOrganizationCommit *)
Record OrganizationCommit : Type := mkOrganizationCommit {
  oc_organization : Organization; oc_ownerMembership : Membership;
  oc_events : list Events.Envelope; oc_work : WorkContext
}.
(** @src src/modules/organization/app/ports/membership-writer.ts:6-11 MembershipCommit *)
Record MembershipCommit : Type := mkMembershipCommit {
  mc_membership : Membership; mc_event : Events.Envelope; mc_work : WorkContext
}.
(** @src src/modules/organization/app/ports/invitation-writer.ts:6-11 InvitationCommit *)
Record InvitationCommit : Type := mkInvitationCommit {
  ic_invitation : Invitation; ic_event : Events.Envelope; ic_work : WorkContext
}.
(** @src src/modules/organization/app/ports/invitation-writer.ts:17-23 InvitationAcceptanceCommit *)
Record AcceptanceCommit : Type := mkAcceptanceCommit {
  ac_invitation : Invitation; ac_membership : Membership;
  ac_events : list Events.Envelope; ac_work : WorkContext
}.

(** @src src/modules/organization/infra/in-memory/writer.ts:31-44 commit *)
Definition organizationGuard (input : OrganizationCommit) (s : Stores) : Res unit :=
  _ ← assertAll input.(oc_events) input.(oc_work);
  match organizationById input.(oc_organization).(o_id) s with
  | Some _ => Err organizationExists
  | None =>
      match organizationBySlug input.(oc_organization).(o_slug) s with
      | Some _ => Err slugTaken
      | None =>
          match membershipById input.(oc_ownerMembership).(m_id) s with
          | Some _ => Err ownerMembershipExists
          | None => Ok tt
          end
      end
  end.

(** @src src/modules/organization/infra/in-memory/writer.ts:28-59 commit *)
Definition commitOrganization (input : OrganizationCommit) (bus : Events.Envelope -> Res unit) (s : Stores) : Outcome Stores :=
  let organization := input.(oc_organization) in
  let owner := input.(oc_ownerMembership) in
  commitWith (organizationGuard input s)
    (fun _ => replaceMembership (Membership.saved owner) (addOrganization (Organization.saved organization) s))
    (fun _ s => removeOrganization organization.(o_id) (removeMembership owner.(m_id) s))
    input.(oc_events) bus s.

(** [store.membershipsForAnyStatusForIdentity(identity).some(same organization)]. *)
Definition hasMembership (organizationId identityId : ID) (s : Stores) : bool :=
  existsb (fun m => bool_decide (m.(m_organizationId) = organizationId))
    (membershipsForAnyStatusForIdentity identityId s).

(** @src src/modules/organization/infra/in-memory/membership-writer.ts:27-41 commit
    The guards; the value is the membership they found stored. *)
Definition membershipGuard (input : MembershipCommit) (s : Stores) : Res (option Membership) :=
  _ ← Events.assertEventWork input.(mc_event) input.(mc_work);
  let membership := input.(mc_membership) in
  let existing := membershipById membership.(m_id) s in
  if membership.(m_version) =? UNSAVED then
    if negb (isNull existing) || hasMembership membership.(m_organizationId) membership.(m_identityId) s
    then Err membershipExists else Ok existing
  else
    match existing with
    | None => Err membershipNotFound
    | Some e => if negb (e.(m_version) =? membership.(m_version)) then Err staleWrite else Ok existing
    end.

(** @src src/modules/organization/infra/in-memory/membership-writer.ts:26-52 commit *)
Definition commitMembership (input : MembershipCommit) (bus : Events.Envelope -> Res unit) (s : Stores) : Outcome Stores :=
  let membership := input.(mc_membership) in
  commitWith (membershipGuard input s)
    (fun _ => replaceMembership (Membership.saved membership) s)
    (fun existing s =>
       match existing with
       | Some e => replaceMembership e s
       | None => removeMembership membership.(m_id) s
       end)
    [input.(mc_event)] bus s.

(** [store.invitationsForIdentity(...).some(pending)]. *)
Definition hasPending (organizationId identityId : ID) (s : Stores) : bool :=
  existsb (fun n => bool_decide (n.(n_status) = Invitation.pending)) (invitationsForIdentity organizationId identityId s).

(** @src src/modules/organization/infra/in-memory/invitation-writer.ts:24-42 commit *)
Definition invitationGuard (input : InvitationCommit) (s : Stores) : Res (option Invitation) :=
  _ ← Events.assertEventWork input.(ic_event) input.(ic_work);
  let invitation := input.(ic_invitation) in
  let existing := invitationById invitation.(n_id) s in
  if invitation.(n_version) =? UNSAVED then
    if negb (isNull existing) then Err invitationExists
    else if hasPending invitation.(Invitation.n_organizationId) invitation.(Invitation.n_identityId) s
            && bool_decide (invitation.(n_status) = Invitation.pending)
    then Err pendingInvitationExists else Ok existing
  else
    match existing with
    | None => Err invitationNotFound
    | Some e => if negb (e.(n_version) =? invitation.(n_version)) then Err staleWrite else Ok existing
    end.

(** @src src/modules/organization/infra/in-memory/invitation-writer.ts:23-51 commit *)
Definition commitInvitation (input : InvitationCommit) (bus : Events.Envelope -> Res unit) (s : Stores) : Outcome Stores :=
  let invitation := input.(ic_invitation) in
  commitWith (invitationGuard input s)
    (fun _ => replaceInvitation (Invitation.saved invitation) s)
    (fun existing s =>
       match existing with
       | Some e => replaceInvitation e s
       | None => removeInvitation invitation.(n_id) s
       end)
    [input.(ic_event)] bus s.

(** @src src/modules/organization/infra/in-memory/invitation-acceptance-writer.ts:26-45 commit
    The guards; the value is the pending invitation. *)
Definition acceptanceGuard (input : AcceptanceCommit) (s : Stores) : Res Invitation :=
  _ ← assertAll input.(ac_events) input.(ac_work);
  let membership := input.(ac_membership) in
  match invitationById input.(ac_invitation).(n_id) s with
  | None => Err acceptanceConflict
  | Some previous =>
      if negb (bool_decide (previous.(n_status) = Invitation.pending))
         || negb (previous.(n_version) =? input.(ac_invitation).(n_version))
      then Err acceptanceConflict
      else if negb (isNull (membershipById membership.(m_id) s))
              || hasMembership membership.(m_organizationId) membership.(m_identityId) s
      then Err acceptedMembershipExists
      else Ok previous
  end.

(** @src src/modules/organization/infra/in-memory/invitation-acceptance-writer.ts:23-58 commit *)
Definition commitAcceptance (input : AcceptanceCommit) (bus : Events.Envelope -> Res unit) (s : Stores) : Outcome Stores :=
  let membership := input.(ac_membership) in
  commitWith (acceptanceGuard input s)
    (fun _ => replaceMembership (Membership.saved membership) (replaceInvitation (Invitation.saved input.(ac_invitation)) s))
    (fun previous s => removeMembership membership.(m_id) (replaceInvitation previous s))
    input.(ac_events) bus s.

(** ** Facts about the store and its writers. *)

Record wf (s : Stores) : Prop := mkWf {
  wf_organizations : keyed s.(organizations);
  wf_memberships : keyed s.(memberships);
  wf_invitations : keyed s.(invitations)
}.

Lemma hasMembership_false o i s id m :
  keyed s.(memberships) -> hasMembership o i s = false -> membershipById id s = Some m ->
  m.(m_organizationId) = o -> m.(m_identityId) = i -> False.
Proof.
  intros Hk Hn Hm Ho Hi. unfold hasMembership, membershipsForAnyStatusForIdentity in Hn.
  assert (H : existsb (fun m => bool_decide (m_organizationId m = o))
    (filter (fun m => m_identityId m = i) (JsMap.values s.(memberships))) = true); [|congruence].
  apply List.existsb_exists. exists m. split; [|by apply bool_decide_eq_true].
  apply list_elem_of_In, list_elem_of_filter. split; [done|]. apply keyed_values; [done|].
  unfold holds. by rewrite (proj2 Hk _ _ Hm).
Qed.

Lemma hasMembership_true o i s :
  keyed s.(memberships) -> hasMembership o i s = true ->
  exists id m, membershipById id s = Some m /\ m.(m_organizationId) = o /\ m.(m_identityId) = i.
Proof.
  intros Hk (m & Hin & Ho)%List.existsb_exists. apply bool_decide_eq_true in Ho.
  apply list_elem_of_In, list_elem_of_filter in Hin as [Hi Hin]. apply keyed_values in Hin; [|done]. eauto.
Qed.

Lemma hasPending_false o i s id n :
  keyed s.(invitations) -> hasPending o i s = false -> invitationById id s = Some n ->
  n.(Invitation.n_organizationId) = o -> n.(Invitation.n_identityId) = i -> n.(n_status) <> Invitation.pending.
Proof.
  intros Hk Hn Hm Ho Hi Hp. unfold hasPending, invitationsForIdentity in Hn.
  enough (H : existsb (fun n => bool_decide (n_status n = Invitation.pending))
    (filter (fun n => Invitation.n_organizationId n = o /\ Invitation.n_identityId n = i) (JsMap.values s.(invitations))) = true)
    by congruence.
  apply List.existsb_exists. exists n. split; [|by apply bool_decide_eq_true].
  apply list_elem_of_In, list_elem_of_filter. split; [done|]. apply keyed_values; [done|].
  unfold holds. by rewrite (proj2 Hk _ _ Hm).
Qed.

Lemma organizationGuard_ok input s u :
  organizationGuard input s = Ok u ->
  organizationById input.(oc_organization).(o_id) s = None
  /\ organizationBySlug input.(oc_organization).(o_slug) s = None
  /\ membershipById input.(oc_ownerMembership).(m_id) s = None.
Proof.
  unfold organizationGuard. destruct (assertAll _ _); cbn [mbind Result_bind]; [|done].
  destruct (organizationById _ s); [done|]. destruct (organizationBySlug _ s); [done|].
  by destruct (membershipById _ s).
Qed.

Lemma membershipGuard_ok input s existing :
  membershipGuard input s = Ok existing ->
  existing = membershipById input.(mc_membership).(m_id) s
  /\ ((input.(mc_membership).(m_version) = UNSAVED /\ existing = None
       /\ hasMembership input.(mc_membership).(m_organizationId) input.(mc_membership).(m_identityId) s = false)
      \/ (input.(mc_membership).(m_version) <> UNSAVED
          /\ exists e, existing = Some e /\ e.(m_version) = input.(mc_membership).(m_version))).
Proof.
  unfold membershipGuard. destruct (Events.assertEventWork _ _); cbn [mbind Result_bind]; [|done]. cbv zeta.
  destruct (_ =? UNSAVED) eqn:Ev; breflect.
  - destruct (membershipById _ s); cbn; [done|]. destruct (hasMembership _ _ s) eqn:Eh; [done|]. intros [= <-]. auto.
  - destruct (membershipById _ s) as [e|]; [|done]. destruct (_ =? _) eqn:E; cbn; [|done]. intros [= <-]. breflect. split; [done|right; eauto].
Qed.

Lemma invitationGuard_ok input s existing :
  invitationGuard input s = Ok existing ->
  existing = invitationById input.(ic_invitation).(n_id) s
  /\ ((input.(ic_invitation).(n_version) = UNSAVED /\ existing = None
       /\ (input.(ic_invitation).(n_status) = Invitation.pending ->
           hasPending input.(ic_invitation).(Invitation.n_organizationId) input.(ic_invitation).(Invitation.n_identityId) s = false))
      \/ (input.(ic_invitation).(n_version) <> UNSAVED
          /\ exists e, existing = Some e /\ e.(n_version) = input.(ic_invitation).(n_version))).
Proof.
  unfold invitationGuard. destruct (Events.assertEventWork _ _); cbn [mbind Result_bind]; [|done]. cbv zeta.
  destruct (_ =? UNSAVED) eqn:Ev; breflect.
  - destruct (invitationById _ s); cbn; [done|].
    destruct (hasPending _ _ s) eqn:Eh; cbn; [destruct (bool_decide_reflect (n_status (ic_invitation input) = Invitation.pending)); cbn; [done|]|];
      intros [= <-]; (split; [done|left; split_and!; try done; intros ?; congruence]).
  - destruct (invitationById _ s) as [e|]; [|done]. destruct (_ =? _) eqn:E; cbn; [|done]. intros [= <-]. breflect. split; [done|right; eauto].
Qed.

Lemma acceptanceGuard_ok input s previous :
  acceptanceGuard input s = Ok previous ->
  invitationById input.(ac_invitation).(n_id) s = Some previous /\ previous.(n_status) = Invitation.pending
  /\ previous.(n_version) = input.(ac_invitation).(n_version)
  /\ membershipById input.(ac_membership).(m_id) s = None
  /\ hasMembership input.(ac_membership).(m_organizationId) input.(ac_membership).(m_identityId) s = false.
Proof.
  unfold acceptanceGuard. destruct (assertAll _ _); cbn [mbind Result_bind]; [|done]. cbv zeta.
  destruct (invitationById _ s) as [p|]; [|done]. destruct (bool_decide_reflect (n_status p = Invitation.pending)); cbn; [|done].
  destruct (_ =? _) eqn:E; cbn; [|done]. destruct (membershipById _ s); cbn; [done|].
  destruct (hasMembership _ _ s); [done|]. intros [= <-]. breflect. auto.
Qed.

(** Every writer's undo undoes its write. *)
Lemma undo_membership s m existing :
  wf s -> existing = membershipById m.(m_id) s ->
  match existing with
  | Some e => replaceMembership e (replaceMembership (Membership.saved m) s)
  | None => removeMembership m.(m_id) (replaceMembership (Membership.saved m) s)
  end = s.
Proof.
  intros Hwf ->. destruct s as [os ms ns]. unfold membershipById, replaceMembership, removeMembership. cbn.
  destruct (JsMap.get (m_id m) ms) as [e|] eqn:E.
  - rewrite (holds_id _ _ _ (wf_memberships _ Hwf) E : m_id e = m_id m). by rewrite JsMap.set_undo.
  - by rewrite JsMap.delete_undo.
Qed.

Lemma undo_invitation s n existing :
  wf s -> existing = invitationById n.(n_id) s ->
  match existing with
  | Some e => replaceInvitation e (replaceInvitation (Invitation.saved n) s)
  | None => removeInvitation n.(n_id) (replaceInvitation (Invitation.saved n) s)
  end = s.
Proof.
  intros Hwf ->. destruct s as [os ms ns]. unfold invitationById, replaceInvitation, removeInvitation. cbn.
  destruct (JsMap.get (n_id n) ns) as [e|] eqn:E.
  - rewrite (holds_id _ _ _ (wf_invitations _ Hwf) E : n_id e = n_id n). by rewrite JsMap.set_undo.
  - by rewrite JsMap.delete_undo.
Qed.

Lemma membershipById_replace m s id :
  membershipById id (replaceMembership m s) = if decide (m.(m_id) = id) then Some m else membershipById id s.
Proof. apply JsMap.get_set. Qed.

Lemma invitationById_replace n s id :
  invitationById id (replaceInvitation n s) = if decide (n.(n_id) = id) then Some n else invitationById id s.
Proof. apply JsMap.get_set. Qed.

Lemma hasMembership_member s id m :
  keyed s.(memberships) -> membershipById id s = Some m -> hasMembership m.(m_organizationId) m.(m_identityId) s = true.
Proof.
  intros Hk Hm. destruct (hasMembership _ _ s) eqn:E; [done|]. exfalso. by eapply hasMembership_false.
Qed.

(** An acceptance is stored with its membership, or not at all: a failed one
    leaves the stores as they were, iteration order included. *)
Lemma acceptance_atomic (input : AcceptanceCommit) (bus : Events.Envelope -> Res unit)
    (s s' : Stores) (sent : list Events.Envelope) (r : Res unit) :
  wf s -> commitAcceptance input bus s = (s', sent, r) ->
  match r with
  | Ok _ =>
      sent = input.(ac_events)
      /\ (exists previous, invitationById input.(ac_invitation).(n_id) s = Some previous
            /\ previous.(n_status) = Invitation.pending /\ previous.(n_version) = input.(ac_invitation).(n_version))
      /\ invitationById input.(ac_invitation).(n_id) s' = Some (Invitation.saved input.(ac_invitation))
      /\ membershipById input.(ac_membership).(m_id) s = None
      /\ membershipById input.(ac_membership).(m_id) s' = Some (Membership.saved input.(ac_membership))
  | Err _ => s' = s
  end.
Proof.
  intros Hwf Hcommit. set (m := ac_membership input) in *. set (n := ac_invitation input) in *.
  pose proof (commitWith_cases (acceptanceGuard input s)
    (fun _ => replaceMembership (Membership.saved m) (replaceInvitation (Invitation.saved n) s))
    (fun previous s => removeMembership m.(m_id) (replaceInvitation previous s)) input.(ac_events) bus s) as Hcase.
  change (commitWith _ _ _ _ _ _) with (commitAcceptance input bus s) in Hcase. rewrite Hcommit in Hcase.
  assert (Hundo : forall previous, acceptanceGuard input s = Ok previous ->
    removeMembership m.(m_id) (replaceInvitation previous (replaceMembership (Membership.saved m) (replaceInvitation (Invitation.saved n) s))) = s).
  { intros previous (Hn & _ & _ & Hm & _)%acceptanceGuard_ok. pose proof (holds_id _ _ _ (wf_invitations _ Hwf) Hn) as Hid.
    destruct s as [os ms ns]. fold m n in Hn, Hm, Hid. unfold removeMembership, replaceMembership, replaceInvitation, membershipById, invitationById in *.
    cbn in *. rewrite JsMap.delete_undo by done. by rewrite Hid, JsMap.set_undo. }
  specialize (Hcase Hundo). destruct r as [[]|f]; [|by destruct Hcase as [-> _]].
  destruct Hcase as (previous & Hg & -> & ->). apply acceptanceGuard_ok in Hg as (Hn & Hp & Hv & Hm & _).
  split; [done|]. split; [by exists previous|]. split; [|split; [done|]].
  - etransitivity; [apply (invitationById_replace (Invitation.saved n) s)|]. by rewrite decide_True.
  - rewrite membershipById_replace. by rewrite decide_True.
Qed.

(** What an invitation that is accepted, and a membership that exists, refuse. *)
Definition stillPending (input : AcceptanceCommit) (s : Stores) : bool :=
  match invitationById input.(ac_invitation).(n_id) s with
  | Some stored => bool_decide (stored.(n_status) = Invitation.pending) && (stored.(n_version) =? input.(ac_invitation).(n_version))
  | None => false
  end.

Lemma acceptance_refused (input : AcceptanceCommit) (bus : Events.Envelope -> Res unit) (s : Stores) (id : ID) (m : Membership) :
  keyed s.(memberships) -> membershipById id s = Some m ->
  input.(ac_membership).(m_organizationId) = m.(m_organizationId) -> input.(ac_membership).(m_identityId) = m.(m_identityId) ->
  assertAll input.(ac_events) input.(ac_work) = Ok tt ->
  commitAcceptance input bus s = (s, [], Err (if stillPending input s then acceptedMembershipExists else acceptanceConflict)).
Proof.
  intros Hk Hm Ho Hi Hwork. unfold commitAcceptance, acceptanceGuard, commitWith, stillPending. rewrite Hwork. cbn [mbind Result_bind].
  destruct (invitationById _ s) as [p|]; [|done]. rewrite <- negb_andb. destruct (bool_decide _ && _); [|done]. cbn [negb].
  rewrite Ho, Hi, (hasMembership_member _ _ _ Hk Hm), orb_true_r. done.
Qed.

Lemma membership_refused (input : MembershipCommit) (bus : Events.Envelope -> Res unit) (s : Stores) (id : ID) (m : Membership) :
  keyed s.(memberships) -> membershipById id s = Some m ->
  input.(mc_membership).(m_organizationId) = m.(m_organizationId) -> input.(mc_membership).(m_identityId) = m.(m_identityId) ->
  input.(mc_membership).(m_version) = UNSAVED -> Events.assertEventWork input.(mc_event) input.(mc_work) = Ok tt ->
  commitMembership input bus s = (s, [], Err membershipExists).
Proof.
  intros Hk Hm Ho Hi Hv Hwork. unfold commitMembership, membershipGuard, commitWith. rewrite Hwork. cbn [mbind Result_bind].
  rewrite Hv. cbn [Z.eqb UNSAVED]. by rewrite Ho, Hi, (hasMembership_member _ _ _ Hk Hm), orb_true_r.
Qed.

(** A commit that publishes two events can announce what it takes back. When
    the first event is published and the second is refused, the writer undoes
    its writes and fails, but the first event is out: subscribers are told of an
    organization that does not exist, or of an acceptance of an invitation that
    is still pending. *)
Theorem phantom_event (organization : OrganizationCommit) (acceptance : AcceptanceCommit)
    (bus : Events.Envelope -> Res unit) (e1 e2 : Events.Envelope) (f : Failure) (s : Stores) (previous : Invitation)
    (Hwf : wf s) (Hfirst : bus e1 = Ok tt) (Hsecond : bus e2 = Err f)
    (Hcreate : organizationGuard organization s = Ok tt) (Hcreated : organization.(oc_events) = [e1; e2])
    (Haccept : acceptanceGuard acceptance s = Ok previous) (Haccepted : acceptance.(ac_events) = [e1; e2]) :
  commitOrganization organization bus s = (s, [e1], Err f)
  /\ organizationById organization.(oc_organization).(o_id) s = None
  /\ commitAcceptance acceptance bus s = (s, [e1], Err f)
  /\ (exists n, invitationById acceptance.(ac_invitation).(n_id) s = Some n /\ n.(n_status) = Invitation.pending)
  /\ membershipById acceptance.(ac_membership).(m_id) s = None.
Proof.
  pose proof (organizationGuard_ok _ _ _ Hcreate) as (H1 & _ & H2). pose proof (acceptanceGuard_ok _ _ _ Haccept) as (A1 & A2 & _ & A3 & _).
  split_and!; [|done| |by exists previous|done].
  - unfold commitOrganization, commitWith. rewrite Hcreate, Hcreated. cbn. rewrite Hfirst, Hsecond. f_equal. f_equal.
    destruct s as [os ms ns]. unfold removeOrganization, removeMembership, replaceMembership, addOrganization. cbn.
    by rewrite !JsMap.delete_undo.
  - unfold commitAcceptance, commitWith. rewrite Haccept, Haccepted. cbn. rewrite Hfirst, Hsecond. f_equal. f_equal.
    pose proof (holds_id _ _ _ (wf_invitations _ Hwf) A1) as Hid. destruct s as [os ms ns].
    unfold removeMembership, replaceMembership, replaceInvitation, membershipById, invitationById in *. cbn in *.
    rewrite JsMap.delete_undo by done. by rewrite Hid, JsMap.set_undo.
Qed.

(** A pending invitation of one identity, its acceptance, and a new organization. *)
Definition sample_issued : Invitation :=
  Invitation.mkInvitation (sample_uuid "a") (sample_uuid "5") (sample_uuid "7") Invitation.member Invitation.pending
    (DateAt 1000) (DateAt 1000) (DateAt 9000) None None 0.
Definition sample_pending : Invitation := Invitation.saved sample_issued.
Definition sample_joining : Membership :=
  Membership.mkMembership (sample_uuid "b") (sample_uuid "5") (sample_uuid "7") Membership.member Membership.active
    (DateAt 2000) (DateAt 2000) None 0.
Definition sample_accepted : Invitation :=
  Invitation.evolve sample_pending Invitation.accepted (DateAt 2000) (Some (DateAt 2000)) None.
Definition sample_other_event : Events.Envelope :=
  let e := Events.sample_envelope in
  Events.mkEnvelope (sample_uuid "d") e.(Events.e_doc) e.(Events.e_work) e.(Events.e_type) e.(Events.e_occurredAtMs)
    e.(Events.e_subject) e.(Events.e_tenant).
Definition sample_events : list Events.Envelope := [Events.sample_envelope; sample_other_event].
Definition sample_acceptance : AcceptanceCommit :=
  mkAcceptanceCommit sample_accepted sample_joining sample_events Events.sample_context.
Definition sample_founding : OrganizationCommit :=
  mkOrganizationCommit
    (Organization.mkOrganization (sample_uuid "5") (js "Acme") (js "acme") Organization.active (DateAt 1000) (DateAt 1000) 0)
    (Membership.mkMembership (sample_uuid "6") (sample_uuid "5") (sample_uuid "8") Membership.owner Membership.active
       (DateAt 1000) (DateAt 1000) None 0) sample_events Events.sample_context.
Definition sample_offered : Stores := mkStores [] [] [(sample_uuid "a", sample_pending)].
(** An event bus that refuses the second event. *)
Definition sample_bus (e : Events.Envelope) : Res unit :=
  if bool_decide (e.(Events.e_id) = sample_uuid "d") then Err (fail_with unavailable "down" "bus.down") else Ok tt.

Lemma sample_offered_wf : wf sample_offered.
Proof. constructor; [apply keyed_nil|apply keyed_nil|]. exact (keyed_write sample_issued [] keyed_nil). Qed.

Lemma phantom_event_witness :
  commitOrganization sample_founding sample_bus sample_offered
  = (sample_offered, [Events.sample_envelope], Err (fail_with unavailable "down" "bus.down")).
Proof.
  refine (proj1 (phantom_event sample_founding sample_acceptance sample_bus Events.sample_envelope sample_other_event
    (fail_with unavailable "down" "bus.down") sample_offered sample_pending sample_offered_wf _ _ _ _ _ _)); vm_compute; reflexivity.
Defined.
End OrgStore.
