(* ===== verification/OrganizationApp.v ===== *)
(** * The organization commands and queries: [modules/organization/app].

    [OrgPorts] lists the calls a command makes, [OrgCommands] the commands and
    queries, [AccessBridge] the query the other modules ask
    ([integration/organization-access.ts]), and [OrgWorld] what holds when they
    run together over the in-memory stores. *)
From stdpp Require Import relations pretty.
From S2P Require Import Prelude Async JsMap Errors Ids CaseFolding IsoDate Provenance Events Commands Aggregates Writers.
From S2P Require Import OrganizationDomain OrganizationStore.

Module OrgPorts.
Import OrgStore.

(** @src src/modules/organization/app/ports/organization-reader.ts:5-8 OrganizationMembershipView *)
Record View : Type := mkView { v_organization : Organization.Organization; v_membership : Membership.Membership }.

(** The calls a command or a query can make.  An actor is its identity. *)
Inductive Op : Type :=
| now
| newId
| findCurrent (sessionToken : jstring)
| findActive (identityId : ID)
| findMembership (id : ID)
| findActiveForIdentity (organizationId identityId : ID)
| findForIdentity (organizationId identityId : ID)
| findInvitation (id : ID)
| findPendingForIdentity (organizationId identityId : ID)
| listForIdentity (identityId : ID)
| saveOrganization (input : OrganizationCommit)
| saveMembership (input : MembershipCommit)
| saveInvitation (input : InvitationCommit)
| saveAcceptance (input : AcceptanceCommit).

(** @src src/modules/organization/app/ports/membership-reader.ts:5-22 MembershipReader *)
Definition Ans (op : Op) : Type :=
  match op with
  | now => Date
  | newId => Res ID
  | findCurrent _ => Res ID
  | findActive _ => Res (option ID)
  | findMembership _ | findActiveForIdentity _ _ | findForIdentity _ _ => Res (option Membership.Membership)
  | findInvitation _ | findPendingForIdentity _ _ => Res (option Invitation.Invitation)
  | listForIdentity _ => Res (list View)
  | saveOrganization _ | saveMembership _ | saveInvitation _ | saveAcceptance _ => Res unit
  end.
End OrgPorts.

Module OrgCommands.
Import OrgFailures OrgStore OrgPorts.
Import (hints) Organization Membership Invitation.
Import Organization(o_id, o_name, o_slug, o_status).
Import Membership(m_id, m_organizationId, m_identityId, m_role).
Import Invitation(n_id, n_organizationId, n_identityId, n_role, n_expiresAt).
#[local] Open Scope prog_scope.

Section Commands.
  Context `{CaseFolding}.

Definition Command (A : Type) : Type := Prog Ans (Res A).

(** @src src/modules/organization/app/commands/add-membership.ts:53-58 nextId
    Every command repeats it with its own failure type. *)
Definition nextId (type : string) : Command ID := orElse (idGenerationFailure type) (perform newId).

Definition depends {A} (operation : string) (p : Command A) : Command A :=
  orElse (fun e => dependencyFailure e operation) p.

(** @src src/modules/organization/domain/events.ts:2-29 ORGANIZATION_EVENT_TYPES, MEMBERSHIP_EVENT_TYPES, INVITATION_EVENT_TYPES
    The event types the commands publish. *)
Inductive EventType : Type :=
| e_created | e_added | e_roleChanged | e_revoked | e_invited | e_accepted | e_withdrawn.
(** @src src/modules/organization/domain/events.ts:2-29 ORGANIZATION_EVENT_TYPES, MEMBERSHIP_EVENT_TYPES, INVITATION_EVENT_TYPES *)
Definition eventName (t : EventType) : jstring :=
  js match t with
     | e_created => "organization.created.v1"
     | e_added => "organization.membership.added.v1"
     | e_roleChanged => "organization.membership.role.changed.v1"
     | e_revoked => "organization.membership.revoked.v1"
     | e_invited => "organization.invitation.created.v1"
     | e_accepted => "organization.invitation.accepted.v1"
     | e_withdrawn => "organization.invitation.revoked.v1"
     end.

(** An event of [organizationId] about the subject [kind], [id]. *)
Definition orgEvent (eventId : ID) (type : EventType) (at_ : Date) (work : WorkContext) (kind : string)
    (id organizationId : ID) (payload : list (string * JsValue)) : Command Events.Envelope :=
  depends "event.create"
    (Ret (Events.create eventId (eventName type) (timeNumber at_) work payload
            (Some (Events.mkEventSubject (js kind) id)) (Some organizationId))).

(** Payloads about a membership and about an invitation. *)
Definition membershipPayload (m : Membership.Membership) : list (string * JsValue) :=
  [("organization_id", VStr m.(m_organizationId)); ("identity_id", VStr m.(m_identityId));
   ("membership_id", VStr m.(m_id)); ("role", VStr (js (Membership.roleName m.(m_role))))]%string.
Definition invitationPayload (n : Invitation.Invitation) : list (string * JsValue) :=
  [("organization_id", VStr n.(n_organizationId)); ("identity_id", VStr n.(n_identityId));
   ("invitation_id", VStr n.(n_id)); ("role", VStr (js (Invitation.roleName n.(n_role))))]%string.

Definition isOwner (membership : option Membership.Membership) : bool :=
  match membership with Some m => bool_decide (m.(m_role) = Membership.owner) | None => false end.

Definition notFound (noun type : string) : Failure := fail_with not_found (noun ++ " was not found")%string type.

(** The first steps of every command: who calls, and with what membership. *)
(** @src src/modules/organization/app/commands/change-membership-role.ts:87-91 execute (actor) *)
Definition actor (sessionToken : jstring) : Command ID :=
  depends "identity.current.find" (perform (findCurrent sessionToken)).

(** @src src/modules/organization/app/commands/change-membership-role.ts:93-107 execute (authorization) *)
Definition ownerOf (organizationId identityId : ID) (refused : Failure) : Command unit :=
  membership ⟵ depends "membership.findActiveForIdentity" (perform (findActiveForIdentity organizationId identityId));
  require (isOwner membership) refused.

(** ** [CreateOrganization]. *)

(** @src src/modules/organization/app/commands/create-organization.ts:25-31 CreateOrganizationCommand *)
Record CreateOrganizationCommand : Type := mkCreateOrganization {
  co_sessionToken : jstring; co_name : JsValue; co_slug : JsValue; co_work : WorkContext
}.

(** @src src/modules/organization/app/commands/create-organization.ts:63-150 execute
    The result is the identifiers of the organization and of its owner's
    membership. *)
Definition createOrganization (command : CreateOrganizationCommand) : Command (ID * ID) :=
  _ ⟵ require (operationIs command.(co_work) "organization.create")
        (fail_with Errors.invalid "organization work operation is invalid" "organization.invalid_operation");
  identityId ⟵ actor command.(co_sessionToken);
  bind (perform now) (fun createdAt =>
  organizationId ⟵ nextId "organization.id_generation";
  organization ⟵ pure_ (Organization.create
    (Organization.mkCreate organizationId command.(co_name) command.(co_slug) createdAt));
  membershipId ⟵ nextId "organization.id_generation";
  membership ⟵ pure_ (Membership.add
    (Membership.mkAdd membershipId organization.(o_id) identityId (VStr (js "owner")) createdAt));
  organizationEventId ⟵ nextId "organization.id_generation";
  organizationEvent ⟵ orgEvent organizationEventId e_created createdAt command.(co_work) "organization"
    organization.(o_id) organization.(o_id)
    [("organization_id", VStr organization.(o_id)); ("identity_id", VStr identityId);
     ("name", VStr organization.(o_name)); ("slug", VStr organization.(o_slug))]%string;
  membershipEventId ⟵ nextId "organization.id_generation";
  membershipEvent ⟵ orgEvent membershipEventId e_added createdAt command.(co_work) "membership"
    membership.(m_id) organization.(o_id)
    [("organization_id", VStr organization.(o_id)); ("identity_id", VStr identityId);
     ("membership_id", VStr membership.(m_id)); ("role", VStr (js (Membership.roleName membership.(m_role))))]%string;
  _ ⟵ depends "organization.commit"
    (perform (saveOrganization (mkOrganizationCommit organization membership
                                  [organizationEvent; membershipEvent] command.(co_work))));
  Ret (Ok (organization.(o_id), membership.(m_id)))).

(** ** Memberships. *)

(** @src src/modules/organization/app/commands/add-membership.ts:29-36 AddMembershipCommand *)
Record AddMembershipCommand : Type := mkAddMembership {
  am_sessionToken : jstring; am_organizationId : ID; am_identityId : ID; am_role : JsValue; am_work : WorkContext
}.

(** [writer.commit({ membership, event, work })] and its failure. *)
Definition commitMembershipStep (m : Membership.Membership) (event : Events.Envelope) (work : WorkContext) : Command unit :=
  depends "membership.commit" (perform (saveMembership (mkMembershipCommit m event work))).

(** @src src/modules/organization/app/commands/add-membership.ts:77-177 execute *)
Definition addMembership (command : AddMembershipCommand) : Command Membership.Membership :=
  _ ⟵ require (operationIs command.(am_work) "organization.membership.add")
        (fail_with Errors.invalid "membership add operation is invalid" "organization.membership.invalid_operation");
  identityId ⟵ actor command.(am_sessionToken);
  _ ⟵ ownerOf command.(am_organizationId) identityId
        (fail_with forbidden "only an organization owner can add members" "organization.membership.add_forbidden");
  identity ⟵ depends "identity.findActive" (perform (findActive command.(am_identityId)));
  _ ⟵ require (negb (isNull identity))
        (fail_with not_found "active identity was not found" "organization.membership.identity_not_found");
  existing ⟵ depends "membership.findForIdentity"
    (perform (findForIdentity command.(am_organizationId) command.(am_identityId)));
  _ ⟵ require (isNull existing)
        (fail_with conflict "identity is already associated with organization" "organization.membership.already_exists");
  membershipId ⟵ nextId "organization.membership.id_generation";
  bind (perform now) (fun createdAt =>
  membership ⟵ pure_ (Membership.add (Membership.mkAdd membershipId command.(am_organizationId)
    command.(am_identityId) command.(am_role) createdAt));
  eventId ⟵ nextId "organization.membership.id_generation";
  event ⟵ orgEvent eventId e_added createdAt command.(am_work) "membership" membership.(m_id)
    membership.(m_organizationId) (membershipPayload membership);
  _ ⟵ commitMembershipStep membership event command.(am_work);
  Ret (Ok membership)).

(** @src src/modules/organization/app/commands/change-membership-role.ts:27-34 ChangeMembershipRoleCommand *)
Record ChangeMembershipRoleCommand : Type := mkChangeRole {
  cr_sessionToken : jstring; cr_organizationId : ID; cr_membershipId : ID; cr_role : JsValue; cr_work : WorkContext
}.

(** The membership a command changes: of the organization, and not an owner's. *)
(** @src src/modules/organization/app/commands/change-membership-role.ts:109-131 execute (target) *)
Definition changeable (organizationId membershipId : ID) (locked : Failure) : Command Membership.Membership :=
  found ⟵ depends "membership.findById" (perform (findMembership membershipId));
  membership ⟵ pure_ (foundOr (notFound "membership" "organization.membership.not_found")
    (fun m => bool_decide (m.(m_organizationId) = organizationId)) found);
  _ ⟵ require (negb (bool_decide (membership.(m_role) = Membership.owner))) locked;
  Ret (Ok membership).

(** @src src/modules/organization/app/commands/change-membership-role.ts:81-169 execute *)
Definition changeMembershipRole (command : ChangeMembershipRoleCommand) : Command Membership.Membership :=
  _ ⟵ require (operationIs command.(cr_work) "organization.membership.role.change")
        (fail_with Errors.invalid "membership role change operation is invalid" "organization.membership.invalid_operation");
  identityId ⟵ actor command.(cr_sessionToken);
  _ ⟵ ownerOf command.(cr_organizationId) identityId
        (fail_with forbidden "only an organization owner can change roles" "organization.membership.role_forbidden");
  membership ⟵ changeable command.(cr_organizationId) command.(cr_membershipId)
    (fail_with forbidden "the owner membership cannot be changed by this command" "organization.membership.owner_locked");
  bind (perform now) (fun changedAt =>
  changed ⟵ pure_ (Membership.changeRole membership command.(cr_role) changedAt);
  eventId ⟵ nextId "organization.membership.id_generation";
  event ⟵ orgEvent eventId e_roleChanged changedAt command.(cr_work) "membership" changed.(m_id) changed.(m_organizationId)
    [("organization_id", VStr changed.(m_organizationId)); ("identity_id", VStr changed.(m_identityId));
     ("membership_id", VStr changed.(m_id)); ("previous_role", VStr (js (Membership.roleName membership.(m_role))));
     ("role", VStr (js (Membership.roleName changed.(m_role))))]%string;
  _ ⟵ commitMembershipStep changed event command.(cr_work);
  Ret (Ok changed)).

(** @src src/modules/organization/app/commands/revoke-membership.ts:24-30 RevokeMembershipCommand *)
Record RevokeMembershipCommand : Type := mkRevokeMembership {
  rm_sessionToken : jstring; rm_organizationId : ID; rm_membershipId : ID; rm_work : WorkContext
}.

(** @src src/modules/organization/app/commands/revoke-membership.ts:79-166 execute *)
Definition revokeMembership (command : RevokeMembershipCommand) : Command Membership.Membership :=
  _ ⟵ require (operationIs command.(rm_work) "organization.membership.revoke")
        (fail_with Errors.invalid "membership revocation operation is invalid" "organization.membership.invalid_operation");
  identityId ⟵ actor command.(rm_sessionToken);
  _ ⟵ ownerOf command.(rm_organizationId) identityId
        (fail_with forbidden "only an organization owner can revoke memberships" "organization.membership.revoke_forbidden");
  membership ⟵ changeable command.(rm_organizationId) command.(rm_membershipId)
    (fail_with forbidden "the owner membership cannot be revoked by this command" "organization.membership.owner_locked");
  bind (perform now) (fun revokedAt =>
  revoked ⟵ pure_ (Membership.revoke membership revokedAt);
  eventId ⟵ nextId "organization.membership.id_generation";
  event ⟵ orgEvent eventId e_revoked revokedAt command.(rm_work) "membership" revoked.(m_id)
    revoked.(m_organizationId) (membershipPayload revoked);
  _ ⟵ commitMembershipStep revoked event command.(rm_work);
  Ret (Ok revoked)).

(** ** Invitations. *)

(** @src src/modules/organization/app/commands/invite-identity.ts:31-31 INVITATION_TTL_MS *)
Definition INVITATION_TTL_MS : Z := 7 * 24 * 60 * 60 * 1000.

(** [new Date(date.getTime() + ms)]. *)
Definition plusMs (d : Date) (ms : Z) : Date :=
  match d with DateAt t => newDate (t + ms) | InvalidDate => InvalidDate end.

Definition nextInvitationId : Command ID := nextId "organization.invitation.id_generation".

Definition commitInvitationStep (n : Invitation.Invitation) (event : Events.Envelope) (work : WorkContext) : Command unit :=
  depends "invitation.commit" (perform (saveInvitation (mkInvitationCommit n event work))).

(** @src src/modules/organization/app/commands/invite-identity.ts:33-40 InviteIdentityCommand *)
Record InviteIdentityCommand : Type := mkInvite {
  ii_sessionToken : jstring; ii_organizationId : ID; ii_identityId : ID; ii_role : JsValue; ii_work : WorkContext
}.

(** @src src/modules/organization/app/commands/invite-identity.ts:75-198 execute *)
Definition inviteIdentity (command : InviteIdentityCommand) : Command Invitation.Invitation :=
  _ ⟵ require (operationIs command.(ii_work) "organization.invitation.create")
        (fail_with Errors.invalid "invitation operation is invalid" "organization.invitation.invalid_operation");
  identityId ⟵ actor command.(ii_sessionToken);
  _ ⟵ ownerOf command.(ii_organizationId) identityId
        (fail_with forbidden "only an organization owner can create invitations" "organization.invitation.forbidden");
  identity ⟵ depends "identity.findActive" (perform (findActive command.(ii_identityId)));
  _ ⟵ require (negb (isNull identity))
        (fail_with not_found "identity was not found" "organization.invitation.identity_not_found");
  membership ⟵ depends "membership.findForIdentity"
    (perform (findForIdentity command.(ii_organizationId) command.(ii_identityId)));
  _ ⟵ require (isNull membership)
        (fail_with conflict "identity already has an organization membership" "organization.invitation.membership_exists");
  existing ⟵ depends "invitation.findPendingForIdentity"
    (perform (findPendingForIdentity command.(ii_organizationId) command.(ii_identityId)));
  _ ⟵ require (isNull existing)
        (fail_with conflict "an invitation is already pending" "organization.invitation.already_exists");
  bind (perform now) (fun createdAt =>
  id ⟵ nextInvitationId;
  invitation ⟵ pure_ (Invitation.issue (Invitation.mkIssue id command.(ii_organizationId) command.(ii_identityId)
    command.(ii_role) createdAt (plusMs createdAt INVITATION_TTL_MS)));
  eventId ⟵ nextInvitationId;
  event ⟵ orgEvent eventId e_invited createdAt command.(ii_work) "invitation" invitation.(n_id)
    invitation.(n_organizationId)
    (invitationPayload invitation ++ [("expires_at"%string, VStr (toISOString invitation.(n_expiresAt)))]);
  _ ⟵ commitInvitationStep invitation event command.(ii_work);
  Ret (Ok invitation)).

(** [record === null || record.organizationId !== command.organizationId]. *)
Definition invitationOf (organizationId invitationId : ID) : Command Invitation.Invitation :=
  found ⟵ depends "invitation.findById" (perform (findInvitation invitationId));
  pure_ (foundOr (notFound "invitation" "organization.invitation.not_found")
    (fun n => bool_decide (n.(n_organizationId) = organizationId)) found).

(** @src src/modules/organization/app/commands/accept-invitation.ts:30-36 AcceptInvitationCommand *)
Record AcceptInvitationCommand : Type := mkAccept {
  ai_sessionToken : jstring; ai_organizationId : ID; ai_invitationId : ID; ai_work : WorkContext
}.

(** @src src/modules/organization/app/commands/accept-invitation.ts:70-192 execute *)
Definition acceptInvitation (command : AcceptInvitationCommand)
    : Command (Invitation.Invitation * Membership.Membership) :=
  _ ⟵ require (operationIs command.(ai_work) "organization.invitation.accept")
        (fail_with Errors.invalid "invitation acceptance operation is invalid" "organization.invitation.invalid_operation");
  identityId ⟵ actor command.(ai_sessionToken);
  invitation ⟵ invitationOf command.(ai_organizationId) command.(ai_invitationId);
  _ ⟵ require (bool_decide (invitation.(n_identityId) = identityId))
        (fail_with forbidden "only the invited identity can accept this invitation" "organization.invitation.accept_forbidden");
  existingMembership ⟵ depends "membership.findForIdentity"
    (perform (findForIdentity command.(ai_organizationId) identityId));
  _ ⟵ require (isNull existingMembership)
        (fail_with conflict "identity already has an organization membership" "organization.invitation.membership_exists");
  bind (perform now) (fun acceptedAt =>
  accepted ⟵ pure_ (Invitation.accept invitation acceptedAt);
  membershipId ⟵ nextInvitationId;
  membership ⟵ pure_ (Membership.add (Membership.mkAdd membershipId accepted.(n_organizationId)
    accepted.(n_identityId) (VStr (js (Invitation.roleName accepted.(n_role)))) acceptedAt));
  invitationEventId ⟵ nextInvitationId;
  invitationEvent ⟵ orgEvent invitationEventId e_accepted acceptedAt command.(ai_work) "invitation" accepted.(n_id)
    accepted.(n_organizationId) (invitationPayload accepted);
  membershipEventId ⟵ nextInvitationId;
  membershipEvent ⟵ orgEvent membershipEventId e_added acceptedAt command.(ai_work) "membership" membership.(m_id)
    membership.(m_organizationId)
    (membershipPayload membership ++ [("invitation_id"%string, VStr accepted.(n_id))]);
  _ ⟵ depends "invitation.accept" (perform (saveAcceptance (mkAcceptanceCommit accepted membership
    [invitationEvent; membershipEvent] command.(ai_work))));
  Ret (Ok (accepted, membership))).

(** @src src/modules/organization/app/commands/revoke-invitation.ts:26-32 RevokeInvitationCommand *)
Record RevokeInvitationCommand : Type := mkRevokeInvitation {
  ri_sessionToken : jstring; ri_organizationId : ID; ri_invitationId : ID; ri_work : WorkContext
}.

(** @src src/modules/organization/app/commands/revoke-invitation.ts:55-145 execute *)
Definition revokeInvitation (command : RevokeInvitationCommand) : Command Invitation.Invitation :=
  _ ⟵ require (operationIs command.(ri_work) "organization.invitation.revoke")
        (fail_with Errors.invalid "invitation revocation operation is invalid" "organization.invitation.invalid_operation");
  identityId ⟵ actor command.(ri_sessionToken);
  _ ⟵ ownerOf command.(ri_organizationId) identityId
        (fail_with forbidden "only an organization owner can revoke invitations" "organization.invitation.revoke_forbidden");
  invitation ⟵ invitationOf command.(ri_organizationId) command.(ri_invitationId);
  bind (perform now) (fun revokedAt =>
  revoked ⟵ pure_ (Invitation.revoke invitation revokedAt);
  eventId ⟵ nextInvitationId;
  event ⟵ orgEvent eventId e_withdrawn revokedAt command.(ri_work) "invitation" revoked.(n_id)
    revoked.(n_organizationId) (invitationPayload revoked);
  _ ⟵ commitInvitationStep revoked event command.(ri_work);
  Ret (Ok revoked)).

(** ** Queries. *)

(** @src src/modules/organization/app/queries/list-current-organizations.ts:25-41 execute *)
Definition listCurrentOrganizations (sessionToken : jstring) : Command (list View) :=
  identityId ⟵ actor sessionToken;
  depends "organization.listForIdentity" (perform (listForIdentity identityId)).

(** @src src/modules/organization/app/queries/get-organization-membership.ts:27-51 execute *)
Definition getOrganizationMembership (sessionToken : jstring) (organizationId : ID) : Command (option View) :=
  identityId ⟵ actor sessionToken;
  views ⟵ depends "organization.listForIdentity" (perform (listForIdentity identityId));
  Ret (Ok (find_first (fun v => bool_decide (v.(v_organization).(o_id) = organizationId)) views)).

(** @src src/integration/organization-access.ts:9-13 OrganizationAccessView *)
Record AccessView : Type := mkAccessView {
  av_organizationId : ID; av_identityId : ID; av_role : Membership.Role
}.

(** @src src/integration/organization-access.ts:26-49 find *)
Definition findAccess (sessionToken : jstring) (organizationId : ID) : Command (option AccessView) :=
  view ⟵ getOrganizationMembership sessionToken organizationId;
  Ret (Ok (match view with
           | Some v =>
               if bool_decide (v.(v_organization).(o_status) = Organization.active)
                  && bool_decide (v.(v_membership).(Membership.m_status) = Membership.active)
               then Some (mkAccessView v.(v_organization).(o_id) v.(v_membership).(m_identityId) v.(v_membership).(m_role))
               else None
           | None => None
           end)).
End Commands.
End OrgCommands.

(** ** The world the commands act on. *)
Module OrgWorld.
Import OrgFailures OrgStore OrgPorts OrgCommands.
Import (hints) Organization Membership Invitation OrgStore.
Import Organization(Organization, o_id, o_name, o_slug, o_status).
Import Membership(Membership, m_id, m_organizationId, m_identityId, m_role, m_status, m_version).
Import Invitation(Invitation, n_id, n_status, n_role).

(** The stores and the events published. *)
Abbreviation World := (Writers.World Stores).

(** @src src/modules/organization/infra/in-memory/reader.ts:14-30 listForIdentity *)
Definition viewsFor (identityId : ID) (s : Stores) : list View :=
  omap (fun m =>
    match organizationById m.(m_organizationId) s with
    | Some o => if bool_decide (o.(o_status) = Organization.archived) then None else Some (mkView o m)
    | None => None
    end) (membershipsForIdentity identityId s).

Definition ofOrganization (organizationId : ID) (m : Membership) : bool :=
  bool_decide (m.(m_organizationId) = organizationId).

Section Exec.
  Context `{CaseFolding}.
  (** What the identity module answers about a session and about an identity,
      and the failures an unreliable dependency (a reader, an id generator, the
      event bus) may report. *)
  Context (actorOf : jstring -> Res ID -> Prop) (activeOf : ID -> Res (option ID) -> Prop) (outage : Failure -> Prop).

(** @src src/modules/organization/infra/in-memory/membership-reader.ts:9-37 InMemoryMembershipReader
    The ports' behaviour: the readers over the store, the writers, any clock and
    any id generator. *)
Definition exec (op : Op) : World -> Ans op -> World -> Prop :=
  match op with
  | now => fun w r w' => w' = w
  | newId => fun w r w' => w' = w
  | findCurrent token => fun w r w' => actorOf token r /\ w' = w
  | findActive id => fun w r w' => activeOf id r /\ w' = w
  | findMembership id => fun w r w' => answers outage (membershipById id w.(stores)) r /\ w' = w
  | findActiveForIdentity o i => fun w r w' =>
      answers outage (find_first (ofOrganization o) (membershipsForIdentity i w.(stores))) r /\ w' = w
  | findForIdentity o i => fun w r w' =>
      answers outage (find_first (ofOrganization o) (membershipsForAnyStatusForIdentity i w.(stores))) r /\ w' = w
  | findInvitation id => fun w r w' => answers outage (invitationById id w.(stores)) r /\ w' = w
  | findPendingForIdentity o i => fun w r w' =>
      answers outage (find_first (fun n => bool_decide (n.(n_status) = Invitation.pending)) (invitationsForIdentity o i w.(stores))) r
      /\ w' = w
  | listForIdentity i => fun w r w' => answers outage (viewsFor i w.(stores)) r /\ w' = w
  | saveOrganization input => commits outage (commitOrganization input)
  | saveMembership input => commits outage (commitMembership input)
  | saveInvitation input => commits outage (commitInvitation input)
  | saveAcceptance input => commits outage (commitAcceptance input)
  end.

(** ** What the commands keep, and what they promise each other. *)

Definition organizationAt (w : World) (id : ID) (o : Organization) : Prop := organizationById id w.(stores) = Some o.
Definition memberAt (w : World) (id : ID) (m : Membership) : Prop := membershipById id w.(stores) = Some m.
Definition inviteAt (w : World) (id : ID) (n : Invitation) : Prop := invitationById id w.(stores) = Some n.

(** A membership of the identity in the organization, and an owner's. *)
Definition belongs (w : World) (organizationId identityId : ID) : Prop :=
  exists id m, memberAt w id m /\ m.(m_organizationId) = organizationId /\ m.(m_identityId) = identityId.
Definition owns (w : World) (organizationId identityId : ID) : Prop :=
  exists id m, memberAt w id m /\ m.(m_organizationId) = organizationId /\ m.(m_identityId) = identityId
    /\ m.(m_role) = Membership.owner /\ m.(m_status) = Membership.active.

Definition changes (s : Stores) : Z := writes s.(organizations) + writes s.(memberships) + writes s.(invitations).

Record Inv (w : World) : Prop := mkInv {
  inv_wf : OrgStore.wf w.(stores);
  (** One membership per identity, one pending invitation per identity, one
      organization per slug. *)
  inv_member : forall a b m m', memberAt w a m -> memberAt w b m' ->
    m.(m_organizationId) = m'.(m_organizationId) -> m.(m_identityId) = m'.(m_identityId) -> a = b;
  inv_pending : forall a b n n', inviteAt w a n -> inviteAt w b n' ->
    n.(Invitation.n_organizationId) = n'.(Invitation.n_organizationId) ->
    n.(Invitation.n_identityId) = n'.(Invitation.n_identityId) ->
    n.(n_status) = Invitation.pending -> n'.(n_status) = Invitation.pending -> a = b;
  inv_slug : forall a b o o', organizationAt w a o -> organizationAt w b o' -> o.(o_slug) = o'.(o_slug) -> a = b;
  (** Memberships and invitations belong to stored organizations. *)
  inv_home : forall id m, memberAt w id m -> exists o, organizationAt w m.(m_organizationId) o;
  inv_invite_home : forall id n, inviteAt w id n -> exists o, organizationAt w n.(Invitation.n_organizationId) o;
  (** Every organization has an owner, and owners are active. *)
  inv_owned : forall id o, organizationAt w id o -> exists i, owns w id i;
  inv_owner_active : forall id m, memberAt w id m -> m.(m_role) = Membership.owner -> m.(m_status) = Membership.active;
  (** Whoever accepted an invitation has a membership. *)
  inv_accepted : forall id n, inviteAt w id n -> n.(n_status) = Invitation.accepted ->
    belongs w n.(Invitation.n_organizationId) n.(Invitation.n_identityId);
  (** Every change was announced. *)
  inv_events : changes w.(stores) <= Z.of_nat (length w.(published))
}.

(** Nothing is lost, everything changes by the domain's operations only, and an
    owner's membership never changes. *)
Record Rel (w w' : World) : Prop := mkRel {
  rel_organizations : evolves w.(stores).(organizations) w'.(stores).(organizations);
  rel_memberships : evolves w.(stores).(memberships) w'.(stores).(memberships);
  rel_invitations : evolves w.(stores).(invitations) w'.(stores).(invitations);
  rel_owners : forall id m, memberAt w id m -> m.(m_role) = Membership.owner -> memberAt w' id m
}.

Lemma org_rel_refl w : Rel w w.
Proof. constructor; auto using evolves_refl. Qed.

Lemma org_rel_trans a b c : Rel a b -> Rel b c -> Rel a c.
Proof. intros [] []. constructor; eauto using evolves_trans. Qed.

Lemma owns_rel w w' o i : Rel w w' -> owns w o i -> owns w' o i.
Proof. intros Hr (id & m & Hm & Ho & Hi & Hro & Hst). exists id, m. split_and!; try done. by eapply rel_owners. Qed.

Lemma memberStep_fixed m c :
  memberStep m c -> c.(m_id) = m.(m_id) /\ c.(m_organizationId) = m.(m_organizationId)
  /\ c.(m_identityId) = m.(m_identityId) /\ c.(m_version) = m.(m_version).
Proof. by intros (_ & role & st & t & r & ->)%memberStep_evolve. Qed.

Lemma memberStep_owner m c :
  memberStep m c -> m.(m_role) <> Membership.owner -> c.(m_role) = Membership.owner -> c.(m_status) = Membership.active.
Proof.
  intros Hs. destruct (memberStep_evolve _ _ Hs) as [Hact _]. destruct Hs as [role at_ H0|at_ H0];
    [unfold Membership.changeRole in H0|unfold Membership.revoke in H0]; ok_branches H0.
  - destruct (Membership.parseRole role); [|done]. ok_branches H0. cbn. intros _ _. exact Hact.
  - cbn. congruence.
Qed.

Lemma evo_member m m' :
  rtc evo m m' -> m'.(m_organizationId) = m.(m_organizationId) /\ m'.(m_identityId) = m.(m_identityId).
Proof.
  induction 1 as [m|a b c (b' & (_ & Ho & Hi & _)%memberStep_fixed & ->) _ IH]; [done|].
  cbn in IH. destruct IH as [-> ->]. by split.
Qed.

Lemma belongs_rel w w' o i : Rel w w' -> belongs w o i -> belongs w' o i.
Proof.
  intros Hr (id & m & Hm & <- & <-). destruct (ev_chain _ _ (rel_memberships _ _ Hr) _ _ Hm) as (m' & Hm' & (Ho & Hi)%evo_member).
  exists id, m'. by split_and!.
Qed.

Lemma organization_rel w w' id o : Rel w w' -> organizationAt w id o -> exists o', organizationAt w' id o'.
Proof. intros Hr Ho. destruct (ev_chain _ _ (rel_organizations _ _ Hr) _ _ Ho) as (o' & Ho' & _). eauto. Qed.

(** Publishing more keeps the invariant. *)
Lemma inv_publish w sent : Inv w -> Inv (mkWorld w.(stores) (w.(published) ++ sent)).
Proof. intros []. constructor; try done. cbn. rewrite length_app. lia. Qed.

(** ** What each write does to the world. *)

(** The memberships after writing [c]. *)
Definition withMember (c : Membership) (w : World) (sent : list Events.Envelope) : World :=
  mkWorld (replaceMembership (Membership.saved c) w.(stores)) (w.(published) ++ sent).

Lemma memberAt_write c w sent id m :
  memberAt (withMember c w sent) id m <->
  (id = c.(m_id) /\ m = Membership.saved c) \/ (id <> c.(m_id) /\ memberAt w id m).
Proof. exact (holds_write c w.(stores).(memberships) id m). Qed.

(** Writing a membership in place of none or of one that is not an owner's. *)
Lemma member_write c w sent :
  Inv w -> (1 <= length sent)%nat ->
  (forall b m, memberAt w b m -> m.(m_organizationId) = c.(m_organizationId) ->
     m.(m_identityId) = c.(m_identityId) -> b = c.(m_id)) ->
  (exists o, organizationAt w c.(m_organizationId) o) ->
  (c.(m_role) = Membership.owner -> c.(m_status) = Membership.active) ->
  (forall old, memberAt w c.(m_id) old -> old.(m_role) <> Membership.owner
     /\ old.(m_organizationId) = c.(m_organizationId) /\ old.(m_identityId) = c.(m_identityId)) ->
  evolves w.(stores).(memberships) (write c w.(stores).(memberships)) ->
  writes (write c w.(stores).(memberships)) = writes w.(stores).(memberships) + 1 ->
  Inv (withMember c w sent) /\ Rel w (withMember c w sent).
Proof.
  intros HI Hsent Huniq Hhome Hactive Hold Hev Hwr.
  assert (Hrel : Rel w (withMember c w sent)).
  { constructor; try apply evolves_refl; [exact Hev|]. intros id m Hm Hr. apply memberAt_write. right. split; [|done].
    intros ->. by destruct (Hold _ Hm). }
  split; [|done]. destruct HI as [[W1 W2 W3] I1 I2 I3 I4 I5 I6 I7 I8 I9]. constructor.
  - constructor; [done| |done]. exact (keyed_write c _ W2).
  - intros a b m m' [[-> ->]|[Ha Hm]]%memberAt_write [[-> ->]|[Hb Hm']]%memberAt_write; cbn; intros Ho Hi.
    + done.
    + symmetry. by apply (Huniq _ m').
    + by apply (Huniq _ m).
    + by apply (I1 a b m m').
  - exact I2.
  - exact I3.
  - intros id m [[-> ->]|[_ Hm]]%memberAt_write; [exact Hhome|exact (I4 _ _ Hm)].
  - exact I5.
  - intros id o Ho. destruct (I6 id o Ho) as (i & Hi). exists i. by eapply owns_rel.
  - intros id m [[-> ->]|[_ Hm]]%memberAt_write; [exact Hactive|exact (I7 _ _ Hm)].
  - intros id n Hn Ha. eapply belongs_rel; [exact Hrel|]. by apply (I8 id n).
  - unfold changes in *. change (memberships (stores (withMember c w sent))) with (write c w.(stores).(memberships)).
    rewrite Hwr. cbn -[writes]. rewrite length_app. lia.
Qed.

Lemma member_new input c w sent :
  Inv w -> (1 <= length sent)%nat -> Membership.add input = Ok c ->
  membershipById c.(m_id) w.(stores) = None ->
  hasMembership c.(m_organizationId) c.(m_identityId) w.(stores) = false ->
  (exists o, organizationAt w c.(m_organizationId) o) ->
  Inv (withMember c w sent) /\ Rel w (withMember c w sent).
Proof.
  intros HI Hsent Hadd Hnone Hhas Hhome. destruct (write_new c w.(stores).(memberships)) as [Hev Hwr]; [by exists input|exact Hnone|].
  apply member_write; try done.
  - intros b m Hm Ho Hi. exfalso. by eapply hasMembership_false; [apply HI|exact Hhas|exact Hm|..].
  - intros _. unfold Membership.add in Hadd. destruct (Membership.parseRole _); [|done]. by ok_branches Hadd.
  - intros old Hm. unfold memberAt in Hm. congruence.
Qed.

Lemma member_change m c p w sent :
  Inv w -> (1 <= length sent)%nat -> seen w.(stores).(memberships) m -> memberStep m c -> m.(m_role) <> Membership.owner ->
  memberAt w c.(m_id) p -> p.(m_version) = c.(m_version) ->
  Inv (withMember c w sent) /\ Rel w (withMember c w sent).
Proof.
  intros HI Hsent Hseen Hstep Hrole Hp Hv. destruct (memberStep_fixed _ _ Hstep) as (Hid & Ho & Hi & _).
  destruct (write_change m c p _ Hseen Hstep Hp Hv) as (-> & Hev & Hwr). apply member_write; try done.
  - intros b x Hx Hxo Hxi. apply (inv_member _ HI b c.(m_id) x m); congruence.
  - destruct (inv_home _ HI _ _ Hp) as [o Hout]. exists o. congruence.
  - intros Hown. by eapply memberStep_owner.
  - intros old Hold. unfold memberAt in *. rewrite Hp in Hold. injection Hold as <-. by rewrite Ho, Hi.
Qed.

(** The invitations after writing [n]. *)
Definition withInvite (n : Invitation) (w : World) (sent : list Events.Envelope) : World :=
  mkWorld (replaceInvitation (Invitation.saved n) w.(stores)) (w.(published) ++ sent).

Lemma inviteAt_write c w sent id n :
  inviteAt (withInvite c w sent) id n <->
  (id = c.(n_id) /\ n = Invitation.saved c) \/ (id <> c.(n_id) /\ inviteAt w id n).
Proof. exact (holds_write c w.(stores).(invitations) id n). Qed.

Lemma invite_write c w sent :
  Inv w -> (1 <= length sent)%nat ->
  (c.(n_status) = Invitation.pending -> forall b n, inviteAt w b n ->
     n.(Invitation.n_organizationId) = c.(Invitation.n_organizationId) ->
     n.(Invitation.n_identityId) = c.(Invitation.n_identityId) -> n.(n_status) = Invitation.pending -> b = c.(n_id)) ->
  (exists o, organizationAt w c.(Invitation.n_organizationId) o) ->
  (c.(n_status) = Invitation.accepted -> belongs w c.(Invitation.n_organizationId) c.(Invitation.n_identityId)) ->
  evolves w.(stores).(invitations) (write c w.(stores).(invitations)) ->
  writes (write c w.(stores).(invitations)) = writes w.(stores).(invitations) + 1 ->
  Inv (withInvite c w sent) /\ Rel w (withInvite c w sent).
Proof.
  intros HI Hsent Huniq Hhome Hacc Hev Hwr.
  assert (Hrel : Rel w (withInvite c w sent)) by (constructor; try apply evolves_refl; [exact Hev|done]).
  split; [|done]. destruct HI as [[W1 W2 W3] I1 I2 I3 I4 I5 I6 I7 I8 I9]. constructor.
  - constructor; [done|done|]. exact (keyed_write c _ W3).
  - exact I1.
  - intros a b n n' [[-> ->]|[Ha Hn]]%inviteAt_write [[-> ->]|[Hb Hn']]%inviteAt_write; cbn; intros Ho Hi Hs Hs'.
    + done.
    + symmetry. by apply (Huniq Hs _ n').
    + by apply (Huniq Hs' _ n).
    + by apply (I2 a b n n').
  - exact I3.
  - exact I4.
  - intros id n [[-> ->]|[_ Hn]]%inviteAt_write; [exact Hhome|exact (I5 _ _ Hn)].
  - exact I6.
  - exact I7.
  - intros id n [[-> ->]|[_ Hn]]%inviteAt_write Hs; [exact (Hacc Hs)|exact (I8 _ _ Hn Hs)].
  - unfold changes in *. change (invitations (stores (withInvite c w sent))) with (write c w.(stores).(invitations)).
    rewrite Hwr. cbn -[writes]. rewrite length_app. lia.
Qed.

Lemma invite_new input c w sent :
  Inv w -> (1 <= length sent)%nat -> Invitation.issue input = Ok c ->
  invitationById c.(n_id) w.(stores) = None ->
  hasPending c.(Invitation.n_organizationId) c.(Invitation.n_identityId) w.(stores) = false ->
  (exists o, organizationAt w c.(Invitation.n_organizationId) o) ->
  Inv (withInvite c w sent) /\ Rel w (withInvite c w sent).
Proof.
  intros HI Hsent Hissue Hnone Hhas Hhome. destruct (write_new c w.(stores).(invitations)) as [Hev Hwr]; [by exists input|exact Hnone|].
  apply invite_write; try done.
  - intros _ b n Hn Ho Hi Hs. exfalso. by eapply hasPending_false; [apply HI|exact Hhas|exact Hn|..].
  - unfold Invitation.issue in Hissue. destruct (Invitation.parseRole _); [|done]. by ok_branches Hissue.
Qed.

Lemma inviteStep_fixed n c :
  inviteStep n c -> c.(n_id) = n.(n_id) /\ c.(Invitation.n_organizationId) = n.(Invitation.n_organizationId)
  /\ c.(Invitation.n_identityId) = n.(Invitation.n_identityId) /\ c.(n_role) = n.(n_role)
  /\ c.(Invitation.n_version) = n.(Invitation.n_version) /\ c.(n_status) <> Invitation.pending.
Proof. by intros (_ & st & t & a & r & Hst & ->)%inviteStep_evolve. Qed.

Lemma invite_change n c p w sent :
  Inv w -> (1 <= length sent)%nat -> seen w.(stores).(invitations) n -> inviteStep n c ->
  inviteAt w c.(n_id) p -> p.(Invitation.n_version) = c.(Invitation.n_version) ->
  (c.(n_status) = Invitation.accepted -> belongs w c.(Invitation.n_organizationId) c.(Invitation.n_identityId)) ->
  p = n /\ Inv (withInvite c w sent) /\ Rel w (withInvite c w sent).
Proof.
  intros HI Hsent Hseen Hstep Hp Hv Hacc. destruct (inviteStep_fixed _ _ Hstep) as (Hid & Ho & Hi & _ & _ & Hst).
  destruct (write_change n c p _ Hseen Hstep Hp Hv) as (-> & Hev & Hwr). split; [done|]. apply invite_write; try done.
  destruct (inv_invite_home _ HI _ _ Hp) as [o Hout]. exists o. congruence.
Qed.

(** A new organization with its owner. *)
Definition withOrganization (o : Organization) (m : Membership) (w : World) (sent : list Events.Envelope) : World :=
  mkWorld (replaceMembership (Membership.saved m) (addOrganization (Organization.saved o) w.(stores))) (w.(published) ++ sent).

Lemma organization_new oin min o m w sent :
  Inv w -> (2 <= length sent)%nat -> Organization.create oin = Ok o -> Membership.add min = Ok m ->
  m.(m_organizationId) = o.(o_id) -> m.(m_role) = Membership.owner ->
  organizationById o.(o_id) w.(stores) = None -> organizationBySlug o.(o_slug) w.(stores) = None ->
  membershipById m.(m_id) w.(stores) = None ->
  let w' := withOrganization o m w sent in
  Inv w' /\ Rel w w' /\ owns w' o.(o_id) m.(m_identityId) /\ organizationAt w' o.(o_id) (Organization.saved o).
Proof.
  intros HI Hsent Ho Hm Hmo Hrole Hno Hslug Hnm w'.
  assert (Hactive : m.(m_status) = Membership.active).
  { unfold Membership.add in Hm. destruct (Membership.parseRole _); [|done]. by ok_branches Hm. }
  destruct (write_new o w.(stores).(organizations)) as [Hevo Hwo]; [by exists _, oin|exact Hno|].
  destruct (write_new m w.(stores).(memberships)) as [Hevm Hwm]; [by exists min|exact Hnm|].
  assert (Morg : forall id x, organizationAt w' id x <-> (id = o.(o_id) /\ x = Organization.saved o) \/ (id <> o.(o_id) /\ organizationAt w id x))
    by (intros id x; exact (holds_write o w.(stores).(organizations) id x)).
  assert (Mmem : forall id x, memberAt w' id x <-> (id = m.(m_id) /\ x = Membership.saved m) \/ (id <> m.(m_id) /\ memberAt w id x))
    by (intros id x; exact (holds_write m w.(stores).(memberships) id x)).
  assert (Hnone : forall id x, memberAt w id x -> x.(m_organizationId) <> o.(o_id)).
  { intros id x Hx Heq. destruct (inv_home _ HI _ _ Hx) as [y Hy]. unfold organizationAt in Hy. congruence. }
  assert (Hrel : Rel w w').
  { constructor; [exact Hevo|exact Hevm|apply evolves_refl|]. intros id x Hx _. apply Mmem. right. split; [|done].
    intros ->. unfold memberAt in Hx. congruence. }
  assert (Hown : owns w' o.(o_id) m.(m_identityId)).
  { exists m.(m_id), (Membership.saved m). split_and!; try done. apply Mmem. by left. }
  split; [|split; [done|split; [done|apply Morg; by left]]].
  pose proof (fun id x => owns_rel w w' id x Hrel) as Hkeep. pose proof (fun id x => organization_rel w w' id x Hrel) as Hkeepo.
  destruct HI as [[W1 W2 W3] I1 I2 I3 I4 I5 I6 I7 I8 I9]. constructor.
  - constructor; [exact (keyed_write o _ W1)|exact (keyed_write m _ W2)|done].
  - intros a b x y [[-> ->]|[Ha Hx]]%Mmem [[-> ->]|[Hb Hy]]%Mmem; cbn; rewrite ?Hmo; intros Heo Hei.
    + done.
    + by destruct (Hnone _ _ Hy).
    + by destruct (Hnone _ _ Hx).
    + by apply (I1 a b x y).
  - exact I2.
  - intros a b x y [[-> ->]|[Ha Hx]]%Morg [[-> ->]|[Hb Hy]]%Morg; cbn; intros Hs; [done| | |by apply (I3 a b x y)];
      exfalso; unfold organizationBySlug in Hslug.
    + pose proof (List.find_none _ _ Hslug y) as Hf. cbn in Hf. rewrite bool_decide_eq_true_2 in Hf by done.
      enough (true = false) by done. apply Hf, list_elem_of_In, keyed_values; [done|]. by rewrite (holds_id _ _ _ W1 Hy).
    + pose proof (List.find_none _ _ Hslug x) as Hf. cbn in Hf. rewrite bool_decide_eq_true_2 in Hf by done.
      enough (true = false) by done. apply Hf, list_elem_of_In, keyed_values; [done|]. by rewrite (holds_id _ _ _ W1 Hx).
  - intros id x [[-> ->]|[_ Hx]]%Mmem; [exists (Organization.saved o); apply Morg; by left|].
    destruct (I4 _ _ Hx) as [y Hy]. by eapply Hkeepo.
  - intros id x Hx. destruct (I5 _ _ Hx) as [y Hy]. by eapply Hkeepo.
  - intros id x [[-> ->]|[_ Hx]]%Morg; [by exists m.(m_identityId)|]. destruct (I6 _ _ Hx) as [i Hi]. exists i. by apply Hkeep.
  - intros id x [[-> ->]|[_ Hx]]%Mmem; [done|by eapply I7].
  - intros id n Hn Ha. eapply belongs_rel; [exact Hrel|]. by apply (I8 id n).
  - unfold changes in *. change (memberships (stores w')) with (write m w.(stores).(memberships)).
    change (organizations (stores w')) with (write o w.(stores).(organizations)).
    rewrite Hwm, Hwo. cbn -[writes]. rewrite length_app. lia.
Qed.

(** ** The commits, as calls. *)

Lemma exec_membership input w r w' :
  Inv w -> exec (saveMembership input) w r w' ->
  done_or_nothing w r w' (fun w' => exists existing, membershipGuard input w.(stores) = Ok existing
    /\ w' = withMember input.(mc_membership) w [input.(mc_event)]).
Proof.
  intros HI He. apply (commits_cases outage (membershipGuard input w.(stores))
    (fun _ => replaceMembership (Membership.saved (mc_membership input)) w.(stores)) (fun existing s =>
       match existing with
       | Some e => replaceMembership e s
       | None => removeMembership input.(mc_membership).(m_id) s
       end) [input.(mc_event)] w r w'); [|exact He].
  intros existing [Hex _]%membershipGuard_ok. by apply undo_membership; [apply HI|].
Qed.

Lemma exec_invitation input w r w' :
  Inv w -> exec (saveInvitation input) w r w' ->
  done_or_nothing w r w' (fun w' => exists existing, invitationGuard input w.(stores) = Ok existing
    /\ w' = withInvite input.(ic_invitation) w [input.(ic_event)]).
Proof.
  intros HI He. apply (commits_cases outage (invitationGuard input w.(stores))
    (fun _ => replaceInvitation (Invitation.saved (ic_invitation input)) w.(stores)) (fun existing s =>
       match existing with
       | Some e => replaceInvitation e s
       | None => removeInvitation input.(ic_invitation).(n_id) s
       end) [input.(ic_event)] w r w'); [|exact He].
  intros existing [Hex _]%invitationGuard_ok. by apply undo_invitation; [apply HI|].
Qed.

Lemma exec_organization input w r w' :
  exec (saveOrganization input) w r w' ->
  done_or_nothing w r w' (fun w' => exists u, organizationGuard input w.(stores) = Ok u
    /\ w' = withOrganization input.(oc_organization) input.(oc_ownerMembership) w input.(oc_events)).
Proof.
  intros He. apply (commits_cases outage (organizationGuard input w.(stores)) (fun _ => replaceMembership
      (Membership.saved (oc_ownerMembership input)) (addOrganization (Organization.saved (oc_organization input)) w.(stores)))
    (fun _ s => removeOrganization input.(oc_organization).(o_id) (removeMembership input.(oc_ownerMembership).(m_id) s))
    input.(oc_events) w r w'); [|exact He].
  intros u (Ho & _ & Hm)%organizationGuard_ok. destruct (stores w) as [os ms ns].
  unfold removeOrganization, removeMembership, replaceMembership, addOrganization. cbn.
  rewrite !JsMap.delete_undo by done. done.
Qed.

Lemma exec_acceptance input w r w' :
  Inv w -> exec (saveAcceptance input) w r w' ->
  done_or_nothing w r w' (fun w' => exists previous, acceptanceGuard input w.(stores) = Ok previous
    /\ w' = mkWorld (replaceMembership (Membership.saved input.(ac_membership))
              (replaceInvitation (Invitation.saved input.(ac_invitation)) w.(stores))) (w.(published) ++ input.(ac_events))).
Proof.
  intros HI He. apply (commits_cases outage (acceptanceGuard input w.(stores)) (fun _ => replaceMembership
      (Membership.saved (ac_membership input)) (replaceInvitation (Invitation.saved (ac_invitation input)) w.(stores)))
    (fun previous s => removeMembership input.(ac_membership).(m_id) (replaceInvitation previous s))
    input.(ac_events) w r w'); [|exact He].
  intros previous (Hn & _ & _ & Hm & _)%acceptanceGuard_ok. destruct HI as [[_ _ W3] _ _ _ _ _ _ _ _ _].
  pose proof (holds_id _ _ _ W3 Hn) as Hid. destruct (stores w) as [os ms ns].
  unfold removeMembership, replaceMembership, replaceInvitation, membershipById, invitationById in *. cbn in *.
  rewrite JsMap.delete_undo by done. by rewrite Hid, JsMap.set_undo.
Qed.

Lemma acceptance_world n t a min m p e1 e2 w :
  Inv w -> seen w.(stores).(invitations) n -> Invitation.accept n t = Ok a -> Membership.add min = Ok m ->
  m.(m_organizationId) = a.(Invitation.n_organizationId) -> m.(m_identityId) = a.(Invitation.n_identityId) ->
  inviteAt w a.(n_id) p -> p.(Invitation.n_version) = a.(Invitation.n_version) ->
  membershipById m.(m_id) w.(stores) = None ->
  hasMembership m.(m_organizationId) m.(m_identityId) w.(stores) = false ->
  let w' := mkWorld (replaceMembership (Membership.saved m) (replaceInvitation (Invitation.saved a) w.(stores)))
              (w.(published) ++ [e1; e2]) in
  Inv w' /\ Rel w w' /\ belongs w' m.(m_organizationId) m.(m_identityId).
Proof.
  intros HI Hseen Ha Hm Ho Hi Hp Hv Hnone Hhas w'.
  assert (Hstep : inviteStep n a) by (by apply (step_accept _ _ t)).
  destruct (inviteStep_fixed _ _ Hstep) as (Hid & Hno & _).
  assert (Hhome : exists o, organizationAt w m.(m_organizationId) o).
  { destruct (write_change n a p _ Hseen Hstep Hp Hv) as (-> & _). destruct (inv_invite_home _ HI _ _ Hp) as [o Hout]. exists o. congruence. }
  destruct (member_new min m w [e1] HI ltac:(cbn; lia) Hm Hnone Hhas Hhome) as [HI1 Hr1].
  assert (Hb1 : belongs (withMember m w [e1]) m.(m_organizationId) m.(m_identityId)).
  { exists m.(m_id), (Membership.saved m). split_and!; try done. apply memberAt_write. by left. }
  destruct (invite_change n a p (withMember m w [e1]) [e2] HI1 ltac:(cbn; lia) Hseen Hstep Hp Hv) as (_ & HI2 & Hr2).
  { intros _. by rewrite <- Ho, <- Hi. }
  replace w' with (withInvite a (withMember m w [e1]) [e2]) by (unfold w', withInvite; cbn; by rewrite <- app_assoc).
  split; [done|]. split; [by eapply org_rel_trans|]. by eapply belongs_rel.
Qed.

(** ** Each command is safe among the others. *)

Abbreviation safe := (wp exec Inv Rel).

Lemma refused_commit w sent : Inv w -> let w' := mkWorld w.(stores) (w.(published) ++ sent) in Inv w' /\ Rel w w'.
Proof. intros HI w'. split; [by apply inv_publish|]. constructor; auto using evolves_refl. Qed.

(** What the reads tell. *)
Lemma owner_found w o i m :
  Inv w -> find_first (ofOrganization o) (membershipsForIdentity i w.(stores)) = Some m ->
  m.(m_role) = Membership.owner -> owns w o i.
Proof.
  intros HI Hf Hr. apply List.find_some in Hf as [Hin Ho]. apply bool_decide_eq_true in Ho.
  apply list_elem_of_In, list_elem_of_filter in Hin as [[Hi Hs] Hin].
  apply keyed_values in Hin; [|apply HI]. exists m.(m_id), m. by split_and!.
Qed.

Lemma member_seen w id m : Inv w -> memberAt w id m -> seen w.(stores).(memberships) m.
Proof. intros HI. apply holds_seen, HI. Qed.

Lemma invite_seen w id n : Inv w -> inviteAt w id n -> seen w.(stores).(invitations) n.
Proof. intros HI. apply holds_seen, HI. Qed.

(** The caller owns the organization. *)
Definition ownedBy (token : jstring) (organizationId : ID) (w : World) : Prop :=
  exists i, actorOf token (Ok i) /\ owns w organizationId i.

Lemma ownedBy_rel token o w w' : Rel w w' -> ownedBy token o w -> ownedBy token o w'.
Proof. intros Hr (i & Hi & Ho). exists i. split; [done|by eapply owns_rel]. Qed.

Lemma owned_home token o w : Inv w -> ownedBy token o w -> exists org, organizationAt w o org.
Proof. intros HI (i & _ & id & m & Hm & <- & _). by apply (inv_home _ HI id m). Qed.

(** The rules for the commits. *)
Lemma safe_member_new {A} input m e work (k : Res unit -> Prog Ans A) post w :
  Membership.add input = Ok m -> (exists o, organizationAt w m.(m_organizationId) o) ->
  (forall w2, Rel w w2 -> Inv w2 -> memberAt w2 m.(m_id) (Membership.saved m) -> safe (k (Ok tt)) post w2) ->
  (forall f w2, Rel w w2 -> Inv w2 -> safe (k (Err f)) post w2) ->
  safe (Call (saveMembership (mkMembershipCommit m e work)) k) post w.
Proof.
  intros Hadd [o Ho] Hok Herr. cbn. intros w1 Hr HI r w2 He.
  assert (Hv : m.(m_version) = UNSAVED) by (unfold Membership.add in Hadd; destruct (Membership.parseRole _); [by ok_branches Hadd|done]).
  destruct (exec_membership _ _ _ _ HI He) as [[-> (ex & Hg & ->)]|(f & sent & -> & ->)].
  2: { destruct (refused_commit w1 sent HI) as [HI2 Hr2]. split; [done|]. split; [done|]. apply Herr; [by eapply org_rel_trans|done]. }
  apply membershipGuard_ok in Hg as [Hex [(_ & -> & Hhas)|[? _]]]; [|done]. symmetry in Hex. cbn in Hex, Hhas.
  destruct (member_new _ m w1 [e] HI ltac:(cbn; lia) Hadd Hex Hhas (organization_rel _ _ _ _ Hr Ho)) as [HI2 Hr2].
  split; [done|]. split; [done|]. apply Hok; [by eapply org_rel_trans|done|]. apply memberAt_write. by left.
Qed.

Lemma safe_member_change {A} m c e work (k : Res unit -> Prog Ans A) post w :
  seen w.(stores).(memberships) m -> memberStep m c -> m.(m_role) <> Membership.owner ->
  (forall w2, Rel w w2 -> Inv w2 -> memberAt w2 c.(m_id) (Membership.saved c) -> safe (k (Ok tt)) post w2) ->
  (forall f w2, Rel w w2 -> Inv w2 -> safe (k (Err f)) post w2) ->
  safe (Call (saveMembership (mkMembershipCommit c e work)) k) post w.
Proof.
  intros Hseen Hstep Hrole Hok Herr. cbn. intros w1 Hr HI r w2 He.
  destruct (exec_membership _ _ _ _ HI He) as [[-> (ex & Hg & ->)]|(f & sent & -> & ->)].
  2: { destruct (refused_commit w1 sent HI) as [HI2 Hr2]. split; [done|]. split; [done|]. apply Herr; [by eapply org_rel_trans|done]. }
  assert (Hseen1 : seen w1.(stores).(memberships) m) by (eapply seen_evolves; [apply Hr|done]).
  apply membershipGuard_ok in Hg as [Hex [(_ & -> & _)|(_ & p & -> & Hpv)]]; symmetry in Hex; cbn in Hex.
  { destruct Hseen1 as (p & Hp & _). destruct (memberStep_fixed _ _ Hstep) as (Hid & _). unfold holds in Hp. cbn in Hp.
    unfold membershipById in Hex. congruence. }
  cbn in Hpv.
  destruct (member_change m c p w1 [e] HI ltac:(cbn; lia) Hseen1 Hstep Hrole Hex Hpv) as [HI2 Hr2].
  split; [done|]. split; [done|]. apply Hok; [by eapply org_rel_trans|done|]. apply memberAt_write. by left.
Qed.

Lemma safe_invite_new {A} input n e work (k : Res unit -> Prog Ans A) post w :
  Invitation.issue input = Ok n -> (exists o, organizationAt w n.(Invitation.n_organizationId) o) ->
  (forall w2, Rel w w2 -> Inv w2 -> inviteAt w2 n.(n_id) (Invitation.saved n) -> safe (k (Ok tt)) post w2) ->
  (forall f w2, Rel w w2 -> Inv w2 -> safe (k (Err f)) post w2) ->
  safe (Call (saveInvitation (mkInvitationCommit n e work)) k) post w.
Proof.
  intros Hissue [o Ho] Hok Herr. cbn. intros w1 Hr HI r w2 He.
  assert (Hv : n.(Invitation.n_version) = UNSAVED /\ n.(n_status) = Invitation.pending)
    by (unfold Invitation.issue in Hissue; destruct (Invitation.parseRole _); [by ok_branches Hissue|done]).
  destruct Hv as [Hv Hst]. destruct (exec_invitation _ _ _ _ HI He) as [[-> (ex & Hg & ->)]|(f & sent & -> & ->)].
  2: { destruct (refused_commit w1 sent HI) as [HI2 Hr2]. split; [done|]. split; [done|]. apply Herr; [by eapply org_rel_trans|done]. }
  apply invitationGuard_ok in Hg as [Hex [(_ & -> & Hhas)|[? _]]]; [|done]. symmetry in Hex. cbn in Hex, Hhas.
  destruct (invite_new _ n w1 [e] HI ltac:(cbn; lia) Hissue Hex (Hhas Hst) (organization_rel _ _ _ _ Hr Ho)) as [HI2 Hr2].
  split; [done|]. split; [done|]. apply Hok; [by eapply org_rel_trans|done|]. apply inviteAt_write. by left.
Qed.

Lemma safe_invite_revoke {A} n t c e work (k : Res unit -> Prog Ans A) post w :
  seen w.(stores).(invitations) n -> Invitation.revoke n t = Ok c ->
  (forall w2, Rel w w2 -> Inv w2 -> inviteAt w2 c.(n_id) (Invitation.saved c) -> safe (k (Ok tt)) post w2) ->
  (forall f w2, Rel w w2 -> Inv w2 -> safe (k (Err f)) post w2) ->
  safe (Call (saveInvitation (mkInvitationCommit c e work)) k) post w.
Proof.
  intros Hseen Hrevoke Hok Herr. cbn. intros w1 Hr HI r w2 He.
  assert (Hst : c.(n_status) = Invitation.revoked) by (unfold Invitation.revoke in Hrevoke; by ok_branches Hrevoke).
  destruct (exec_invitation _ _ _ _ HI He) as [[-> (ex & Hg & ->)]|(f & sent & -> & ->)].
  2: { destruct (refused_commit w1 sent HI) as [HI2 Hr2]. split; [done|]. split; [done|]. apply Herr; [by eapply org_rel_trans|done]. }
  assert (Hseen1 : seen w1.(stores).(invitations) n) by (eapply seen_evolves; [apply Hr|done]).
  apply invitationGuard_ok in Hg as [Hex [(_ & -> & _)|(_ & p & -> & Hpv)]]; symmetry in Hex; cbn in Hex.
  { destruct Hseen1 as (p & Hp & _). destruct (inviteStep_fixed _ _ (step_withdraw _ _ _ Hrevoke)) as (Hid & _).
    unfold holds in Hp. cbn in Hp. unfold invitationById in Hex. congruence. }
  cbn in Hpv.
  destruct (invite_change n c p w1 [e] HI ltac:(cbn; lia) Hseen1 (step_withdraw _ _ _ Hrevoke) Hex Hpv ltac:(congruence)) as (_ & HI2 & Hr2).
  split; [done|]. split; [done|]. apply Hok; [by eapply org_rel_trans|done|]. apply inviteAt_write. by left.
Qed.

Lemma safe_organization {A} oin min o m e1 e2 work (k : Res unit -> Prog Ans A) post w :
  Organization.create oin = Ok o -> Membership.add min = Ok m ->
  m.(m_organizationId) = o.(o_id) -> m.(m_role) = Membership.owner ->
  (forall w2, Rel w w2 -> Inv w2 -> owns w2 o.(o_id) m.(m_identityId) -> safe (k (Ok tt)) post w2) ->
  (forall f w2, Rel w w2 -> Inv w2 -> safe (k (Err f)) post w2) ->
  safe (Call (saveOrganization (mkOrganizationCommit o m [e1; e2] work)) k) post w.
Proof.
  intros Ho Hm Hmo Hrole Hok Herr. cbn. intros w1 Hr HI r w2 He.
  destruct (exec_organization _ _ _ _ He) as [[-> (u & Hg & ->)]|(f & sent & -> & ->)].
  2: { destruct (refused_commit w1 sent HI) as [HI2 Hr2]. split; [done|]. split; [done|]. apply Herr; [by eapply org_rel_trans|done]. }
  apply organizationGuard_ok in Hg as (H1 & H2 & H3).
  destruct (organization_new oin min o m w1 [e1; e2] HI ltac:(cbn; lia) Ho Hm Hmo Hrole H1 H2 H3) as (HI2 & Hr2 & Hown & _).
  split; [done|]. split; [done|]. apply Hok; [by eapply org_rel_trans|done|done].
Qed.

Lemma safe_acceptance {A} n t a min m e1 e2 work (k : Res unit -> Prog Ans A) post w :
  seen w.(stores).(invitations) n -> Invitation.accept n t = Ok a -> Membership.add min = Ok m ->
  m.(m_organizationId) = a.(Invitation.n_organizationId) -> m.(m_identityId) = a.(Invitation.n_identityId) ->
  (forall w2, Rel w w2 -> Inv w2 -> memberAt w2 m.(m_id) (Membership.saved m) -> inviteAt w2 a.(n_id) (Invitation.saved a) ->
     safe (k (Ok tt)) post w2) ->
  (forall f w2, Rel w w2 -> Inv w2 -> safe (k (Err f)) post w2) ->
  safe (Call (saveAcceptance (mkAcceptanceCommit a m [e1; e2] work)) k) post w.
Proof.
  intros Hseen Ha Hm Hmo Hmi Hok Herr. cbn. intros w1 Hr HI r w2 He.
  destruct (exec_acceptance _ _ _ _ HI He) as [[-> (p & Hg & ->)]|(f & sent & -> & ->)].
  2: { destruct (refused_commit w1 sent HI) as [HI2 Hr2]. split; [done|]. split; [done|]. apply Herr; [by eapply org_rel_trans|done]. }
  apply acceptanceGuard_ok in Hg as (Hp & _ & Hv & Hnone & Hhas). cbn in Hp, Hv, Hnone, Hhas.
  assert (Hseen1 : seen w1.(stores).(invitations) n) by (eapply seen_evolves; [apply Hr|done]).
  destruct (acceptance_world n t a min m p e1 e2 w1 HI Hseen1 Ha Hm Hmo Hmi Hp Hv Hnone Hhas) as (HI2 & Hr2 & _).
  split; [done|]. split; [done|]. apply Hok; [by eapply org_rel_trans|done|apply JsMap.get_set_eq|apply JsMap.get_set_eq].
Qed.

Lemma org_read_only op :
  match op with saveOrganization _ | saveMembership _ | saveInvitation _ | saveAcceptance _ => False | _ => True end ->
  forall w1 r w2, exec op w1 r w2 -> w2 = w1.
Proof. by destruct op; cbn; intros ? w1 r w2; intuition. Qed.
End Exec.

(** Case on what the next read answers. *)
Ltac call :=
  cbn [bind perform orElse depends require pure_ nextId nextInvitationId orgEvent actor ownerOf changeable invitationOf
       commitMembershipStep commitInvitationStep];
  lazymatch goal with
  | |- wp _ _ _ (Call (saveOrganization _) _) _ _ => idtac
  | |- wp _ _ _ (Call (saveMembership _) _) _ _ => idtac
  | |- wp _ _ _ (Call (saveInvitation _) _) _ _ => idtac
  | |- wp _ _ _ (Call (saveAcceptance _) _) _ _ => idtac
  | |- wp _ _ _ (Call _ _) _ _ => apply (wp_read _ _ _ org_rel_refl); [by apply org_read_only|intros ?r ?w ?Hrel ?HI ?He]
  end; cbn [mapError bind].

(** An answer that may have failed, and a synchronous step. *)
Tactic Notation "got" hyp(r) "as" ident(x) := destruct r as [x|]; [cbn [mapError bind require pure_]|done].
Tactic Notation "passes" constr(b) "as" ident(E) := destruct b eqn:E; [|done].

Section Safety.
  Context `{CaseFolding}.
  Context (actorOf : jstring -> Res ID -> Prop) (activeOf : ID -> Res (option ID) -> Prop) (outage : Failure -> Prop).
  Abbreviation safe := (wp (exec actorOf activeOf outage) Inv Rel).
  Abbreviation ownedBy := (ownedBy actorOf).

(** What an addition makes. *)
Lemma added input m : Membership.add input = Ok m ->
  m.(m_organizationId) = input.(Membership.a_organizationId) /\ m.(m_identityId) = input.(Membership.a_identityId)
  /\ Membership.parseRole input.(Membership.a_role) = Some m.(m_role).
Proof. unfold Membership.add. destruct (Membership.parseRole _) eqn:E; [|done]. intros Hm. by ok_branches Hm. Qed.

(** After the first two reads of an owner's command. *)
Lemma owner_read w1 w2 token o i (m : option Membership) :
  Inv w2 -> exec actorOf activeOf outage (findCurrent token) w1 (Ok i) w1 ->
  exec actorOf activeOf outage (findActiveForIdentity o i) w2 (Ok m) w2 -> isOwner m = true -> ownedBy token o w2.
Proof.
  intros HI [Hi _] [Hm _] Ho. exists i. split; [done|]. destruct m as [m|]; [|done]. cbn in Hm.
  apply bool_decide_eq_true in Ho. by apply (owner_found _ _ _ m).
Qed.

#[local] Hint Resolve org_rel_refl org_rel_trans ownedBy_rel : core.

(** What was answered was stored, and has since changed by the domain's
    operations only. *)
Definition kept (m : Membership) (w : World) : Prop := seen w.(stores).(memberships) (Membership.saved m).
Definition keptInvite (n : Invitation) (w : World) : Prop := seen w.(stores).(invitations) (Invitation.saved n).

Lemma kept_rel m w w' : Rel w w' -> kept m w -> kept m w'.
Proof. intros Hr. apply seen_evolves, Hr. Qed.
Lemma keptInvite_rel n w w' : Rel w w' -> keptInvite n w -> keptInvite n w'.
Proof. intros Hr. apply seen_evolves, Hr. Qed.
#[local] Hint Resolve kept_rel keptInvite_rel : core.

Lemma member_kept w m : memberAt w m.(m_id) (Membership.saved m) -> kept m w.
Proof. intros Hm. by exists (Membership.saved m). Qed.
Lemma invite_kept w n : inviteAt w n.(n_id) (Invitation.saved n) -> keptInvite n w.
Proof. intros Hn. by exists (Invitation.saved n). Qed.
#[local] Hint Resolve member_kept invite_kept : core.

(** What each success means. *)
Definition memberAdded (c : AddMembershipCommand) (m : Membership) (w : World) : Prop :=
  ownedBy c.(am_sessionToken) c.(am_organizationId) w
  /\ m.(m_organizationId) = c.(am_organizationId) /\ m.(m_identityId) = c.(am_identityId)
  /\ Membership.parseRole c.(am_role) = Some m.(m_role) /\ kept m w.
Definition roleChanged (c : ChangeMembershipRoleCommand) (m : Membership) (w : World) : Prop :=
  ownedBy c.(cr_sessionToken) c.(cr_organizationId) w
  /\ m.(m_id) = c.(cr_membershipId) /\ m.(m_organizationId) = c.(cr_organizationId)
  /\ Membership.parseRole c.(cr_role) = Some m.(m_role) /\ kept m w.
Definition memberRevoked (c : RevokeMembershipCommand) (m : Membership) (w : World) : Prop :=
  ownedBy c.(rm_sessionToken) c.(rm_organizationId) w
  /\ m.(m_id) = c.(rm_membershipId) /\ m.(m_organizationId) = c.(rm_organizationId)
  /\ m.(m_status) = Membership.revoked /\ kept m w.
Definition invited (c : InviteIdentityCommand) (n : Invitation) (w : World) : Prop :=
  ownedBy c.(ii_sessionToken) c.(ii_organizationId) w
  /\ n.(Invitation.n_organizationId) = c.(ii_organizationId) /\ n.(Invitation.n_identityId) = c.(ii_identityId)
  /\ n.(n_status) = Invitation.pending /\ keptInvite n w.
Definition withdrawn (c : RevokeInvitationCommand) (n : Invitation) (w : World) : Prop :=
  ownedBy c.(ri_sessionToken) c.(ri_organizationId) w
  /\ n.(n_id) = c.(ri_invitationId) /\ n.(Invitation.n_organizationId) = c.(ri_organizationId)
  /\ n.(n_status) = Invitation.revoked /\ keptInvite n w.
Definition joined (c : AcceptInvitationCommand) (n : Invitation) (m : Membership) (w : World) : Prop :=
  exists i, actorOf c.(ai_sessionToken) (Ok i)
  /\ n.(n_id) = c.(ai_invitationId) /\ n.(Invitation.n_organizationId) = c.(ai_organizationId) /\ n.(Invitation.n_identityId) = i
  /\ n.(n_status) = Invitation.accepted /\ keptInvite n w
  /\ m.(m_organizationId) = c.(ai_organizationId) /\ m.(m_identityId) = i /\ kept m w.

(** After a success. *)
Definition onSuccess {A} (P : A -> World -> Prop) (r : Res A) (w : World) : Prop := match r with Ok x => P x w | Err _ => True end.

Lemma addMembership_safe cmd w : safe (addMembership cmd) (onSuccess (memberAdded cmd)) w.
Proof.
  unfold addMembership. cbn [bind require]. destruct (operationIs _ _); [|done].
  call. got r as i. call. got r as m0. passes (isOwner m0) as Eo.
  pose proof (owner_read _ _ _ _ _ _ HI0 He He0 Eo) as Hown.
  call. got r as x. destruct (negb (isNull x)); [|done].
  call. got r as y. destruct (isNull y); [|done].
  call. got r as id. call. destruct (Membership.add _) as [m|] eqn:Em; [|done]. destruct (added _ _ Em) as (Hmo & Hmi & Hro).
  call. got r0 as eid. destruct (Events.create _ _ _ _ _ _ _) as [e|]; [|done]. cbn [mapError bind].
  assert (Hown6 : ownedBy cmd.(am_sessionToken) cmd.(am_organizationId) w6) by eauto 9.
  apply (safe_member_new _ _ _ _ _ _ _ _ _ _ Em); [rewrite Hmo; by eapply owned_home| |done].
  intros w7 Hr7 _ Hm. apply wp_ret. intros w8 Hr8 _. split_and!; eauto.
Qed.

(** The membership a command may change: seen in the store, not an owner's. *)
Lemma changeable_read w1 id (found : option Membership) missing o m :
  Inv w1 -> exec actorOf activeOf outage (findMembership id) w1 (Ok found) w1 ->
  foundOr missing (fun m => bool_decide (m.(m_organizationId) = o)) found = Ok m ->
  seen w1.(stores).(memberships) m /\ m.(m_id) = id /\ m.(m_organizationId) = o.
Proof.
  intros HI [Hf _] Hm. cbn in Hf. destruct found as [x|]; [|done]. cbn in Hm.
  destruct (bool_decide_reflect (m_organizationId x = o)); [|done]. injection Hm as ->.
  split; [by eapply member_seen|]. split; [|done]. exact (holds_id _ _ _ (wf_memberships _ (inv_wf _ HI)) (eq_sym Hf)).
Qed.

Lemma invitation_read w1 id (found : option Invitation) missing o n :
  Inv w1 -> exec actorOf activeOf outage (findInvitation id) w1 (Ok found) w1 ->
  foundOr missing (fun n => bool_decide (n.(Invitation.n_organizationId) = o)) found = Ok n ->
  seen w1.(stores).(invitations) n /\ n.(n_id) = id /\ n.(Invitation.n_organizationId) = o.
Proof.
  intros HI [Hf _] Hn. cbn in Hf. destruct found as [x|]; [|done]. cbn in Hn.
  destruct (bool_decide_reflect (Invitation.n_organizationId x = o)); [|done]. injection Hn as ->.
  split; [by eapply invite_seen|]. split; [|done]. exact (holds_id _ _ _ (wf_invitations _ (inv_wf _ HI)) (eq_sym Hf)).
Qed.

Lemma seen_members_rel w w' m : Rel w w' -> seen w.(stores).(memberships) m -> seen w'.(stores).(memberships) m.
Proof. intros Hr. apply seen_evolves, Hr. Qed.
Lemma seen_invites_rel w w' n : Rel w w' -> seen w.(stores).(invitations) n -> seen w'.(stores).(invitations) n.
Proof. intros Hr. apply seen_evolves, Hr. Qed.
#[local] Hint Resolve seen_members_rel seen_invites_rel : core.

(** What the domain's operations set. *)
Lemma role_set m role t c : Membership.changeRole m role t = Ok c -> Membership.parseRole role = Some c.(m_role).
Proof. unfold Membership.changeRole. intros Hc. ok_branches Hc. destruct (Membership.parseRole role); [|done]. by ok_branches Hc. Qed.
Lemma revocation_set m t c : Membership.revoke m t = Ok c -> c.(m_status) = Membership.revoked.
Proof. unfold Membership.revoke. intros Hc. by ok_branches Hc. Qed.
Lemma withdrawal_set n t c : Invitation.revoke n t = Ok c -> c.(n_status) = Invitation.revoked.
Proof. unfold Invitation.revoke. intros Hc. by ok_branches Hc. Qed.
Lemma acceptance_set n t c : Invitation.accept n t = Ok c -> c.(n_status) = Invitation.accepted.
Proof. unfold Invitation.accept. intros Hc. by ok_branches Hc. Qed.

Lemma changeMembershipRole_safe cmd w :
  safe (changeMembershipRole cmd) (onSuccess (roleChanged cmd)) w.
Proof.
  unfold changeMembershipRole. cbn [bind require]. destruct (operationIs _ _); [|done].
  call. got r as i. call. got r as m0. passes (isOwner m0) as Eo.
  pose proof (owner_read _ _ _ _ _ _ HI0 He He0 Eo) as Hown.
  call. got r as found. destruct (foundOr _ _ _) as [m|] eqn:Ef; [|done]. cbn [bind].
  destruct (changeable_read _ _ _ _ _ _ HI1 He1 Ef) as (Hseen & Hid & Ho).
  destruct (bool_decide_reflect (m_role m = Membership.owner)) as [|Hrole]; cbn [negb]; [done|]. cbn [bind].
  call. destruct (Membership.changeRole m _ _) as [c|] eqn:Ec; [|done].
  call. got r0 as eid. destruct (Events.create _ _ _ _ _ _ _) as [e|]; [|done]. cbn [mapError bind].
  assert (Hs : memberStep m c) by (by eapply step_role). destruct (memberStep_fixed _ _ Hs) as (Hci & Hco & _).
  apply (safe_member_change _ _ _ m c); [eauto|done|done| |done].
  intros w6 Hr6 _ Hm. apply wp_ret. intros w7 Hr7 _. split_and!; eauto 9 using role_set; congruence.
Qed.

Lemma revokeMembership_safe cmd w :
  safe (revokeMembership cmd) (onSuccess (memberRevoked cmd)) w.
Proof.
  unfold revokeMembership. cbn [bind require]. destruct (operationIs _ _); [|done].
  call. got r as i. call. got r as m0. passes (isOwner m0) as Eo.
  pose proof (owner_read _ _ _ _ _ _ HI0 He He0 Eo) as Hown.
  call. got r as found. destruct (foundOr _ _ _) as [m|] eqn:Ef; [|done]. cbn [bind].
  destruct (changeable_read _ _ _ _ _ _ HI1 He1 Ef) as (Hseen & Hid & Ho).
  destruct (bool_decide_reflect (m_role m = Membership.owner)) as [|Hrole]; cbn [negb]; [done|]. cbn [bind].
  call. destruct (Membership.revoke m _) as [c|] eqn:Ec; [|done].
  call. got r0 as eid. destruct (Events.create _ _ _ _ _ _ _) as [e|]; [|done]. cbn [mapError bind].
  assert (Hs : memberStep m c) by (by eapply step_revoke). destruct (memberStep_fixed _ _ Hs) as (Hci & Hco & _).
  apply (safe_member_change _ _ _ m c); [eauto|done|done| |done].
  intros w6 Hr6 _ Hm. apply wp_ret. intros w7 Hr7 _. split_and!; eauto 9 using revocation_set; congruence.
Qed.

Lemma issued input n : Invitation.issue input = Ok n ->
  n.(Invitation.n_organizationId) = input.(Invitation.c_organizationId)
  /\ n.(Invitation.n_identityId) = input.(Invitation.c_identityId) /\ n.(n_status) = Invitation.pending.
Proof. unfold Invitation.issue. destruct (Invitation.parseRole _); [|done]. intros Hn. by ok_branches Hn. Qed.

Lemma inviteIdentity_safe cmd w :
  safe (inviteIdentity cmd) (onSuccess (invited cmd)) w.
Proof.
  unfold inviteIdentity. cbn [bind require]. destruct (operationIs _ _); [|done].
  call. got r as i. call. got r as m0. passes (isOwner m0) as Eo.
  pose proof (owner_read _ _ _ _ _ _ HI0 He He0 Eo) as Hown.
  call. got r as x. destruct (negb (isNull x)); [|done].
  call. got r as y. destruct (isNull y); [|done].
  call. got r as z. destruct (isNull z); [|done].
  call. call. got r0 as id. destruct (Invitation.issue _) as [n|] eqn:En; [|done]. destruct (issued _ _ En) as (Hno & Hni & Hns).
  call. got r0 as eid. destruct (Events.create _ _ _ _ _ _ _) as [e|]; [|done]. cbn [mapError bind].
  assert (Hown7 : ownedBy cmd.(ii_sessionToken) cmd.(ii_organizationId) w7) by eauto 9.
  apply (safe_invite_new _ _ _ _ _ _ _ _ _ _ En); [rewrite Hno; by eapply owned_home| |done].
  intros w8 Hr8 _ Hn. apply wp_ret. intros w9 Hr9 _. split_and!; eauto.
Qed.

Lemma revokeInvitation_safe cmd w :
  safe (revokeInvitation cmd) (onSuccess (withdrawn cmd)) w.
Proof.
  unfold revokeInvitation. cbn [bind require]. destruct (operationIs _ _); [|done].
  call. got r as i. call. got r as m0. passes (isOwner m0) as Eo.
  pose proof (owner_read _ _ _ _ _ _ HI0 He He0 Eo) as Hown.
  call. got r as found. destruct (foundOr _ _ _) as [n|] eqn:Ef; [|done]. cbn [bind].
  destruct (invitation_read _ _ _ _ _ _ HI1 He1 Ef) as (Hseen & Hid & Ho).
  call. destruct (Invitation.revoke n _) as [c|] eqn:Ec; [|done].
  call. got r0 as eid. destruct (Events.create _ _ _ _ _ _ _) as [e|]; [|done]. cbn [mapError bind].
  destruct (inviteStep_fixed _ _ (step_withdraw _ _ _ Ec)) as (Hci & Hco & _).
  eapply (safe_invite_revoke _ _ _ n); [eauto|exact Ec| |done].
  intros w6 Hr6 _ Hn. apply wp_ret. intros w7 Hr7 _. split_and!; eauto 9 using withdrawal_set; congruence.
Qed.

Lemma acceptInvitation_safe cmd w :
  safe (acceptInvitation cmd) (onSuccess (fun '(n, m) => joined cmd n m)) w.
Proof.
  unfold acceptInvitation. cbn [bind require]. destruct (operationIs _ _); [|done].
  call. got r as i. call. got r as found. destruct (foundOr _ _ _) as [n|] eqn:Ef; [|done]. cbn [bind].
  destruct (invitation_read _ _ _ _ _ _ HI0 He0 Ef) as (Hseen & Hnid & Hno).
  destruct (bool_decide_reflect (Invitation.n_identityId n = i)) as [Hni|]; [|done].
  call. got r as y. destruct (isNull y); [|done].
  call. destruct (Invitation.accept n _) as [a|] eqn:Ea; [|done].
  destruct (inviteStep_fixed _ _ (step_accept _ _ _ Ea)) as (Han & Hao & Hai & _).
  call. got r0 as mid. destruct (Membership.add _) as [m|] eqn:Em; [|done]. destruct (added _ _ Em) as (Hmo & Hmi & _). cbn in Hmo, Hmi.
  call. got r0 as eid. destruct (Events.create _ _ _ _ _ _ _) as [e1|]; [|done]. cbn [mapError bind].
  call. got r0 as eid2. destruct (Events.create _ _ _ _ _ _ _) as [e2|]; [|done]. cbn [mapError bind].
  eapply (safe_acceptance _ _ _ n); [eauto 9|exact Ea|exact Em|exact Hmo|exact Hmi| |done].
  intros w8 Hr8 _ Hm Hn. apply wp_ret. intros w9 Hr9 _. exists i. destruct He as [Hact _].
  split_and!; eauto using acceptance_set; congruence.
Qed.

Lemma createOrganization_safe cmd w :
  safe (createOrganization cmd) (fun r w => match r with
    | Ok (o, _) => ownedBy cmd.(co_sessionToken) o w
    | Err _ => True end) w.
Proof.
  unfold createOrganization. cbn [bind require]. destruct (operationIs _ _); [|done].
  call. got r as i. call. call. got r0 as oid. destruct (Organization.create _) as [o|] eqn:Eo; [|done].
  call. got r0 as mid. destruct (Membership.add _) as [m|] eqn:Em; [|done]. destruct (added _ _ Em) as (Hmo & Hmi & Hro). cbn in Hmo, Hmi, Hro.
  call. got r0 as eid. destruct (Events.create _ _ _ _ _ _ _) as [e1|]; [|done]. cbn [mapError bind].
  call. got r0 as eid2. destruct (Events.create _ _ _ _ _ _ _) as [e2|]; [|done]. cbn [mapError bind].
  assert (Hrole : m.(m_role) = Membership.owner) by (vm_compute in Hro; by injection Hro).
  apply (safe_organization _ _ _ _ _ o m e1 e2 _ _ _ _ Eo Em Hmo Hrole); [|done].
  intros w7 Hr7 _ Hown. apply wp_ret. intros w8 Hr8 _. exists i. destruct He as [Hact _].
  split; [done|]. eapply owns_rel; [exact Hr8|]. congruence.
Qed.

(** ** Every schedule of every set of commands. *)

Inductive OrgCommand : Type :=
| cCreate (c : CreateOrganizationCommand) | cAdd (c : AddMembershipCommand) | cRole (c : ChangeMembershipRoleCommand)
| cRevoke (c : RevokeMembershipCommand) | cInvite (c : InviteIdentityCommand) | cAccept (c : AcceptInvitationCommand)
| cWithdraw (c : RevokeInvitationCommand).

(** What a command answers: the organization it made, or the membership or the
    invitation as it left them. *)
Inductive Reply : Type :=
| rOrganization (organizationId membershipId : ID) | rMember (m : Membership) | rInvite (n : Invitation)
| rJoined (n : Invitation) (m : Membership).

Definition replies {A} (p : Command A) (f : A -> Reply) : Command Reply :=
  bind p (fun r => Ret (match r with Ok x => Ok (f x) | Err e => Err e end)).

Definition program (c : OrgCommand) : Command Reply :=
  match c with
  | cCreate c => replies (createOrganization c) (fun '(o, m) => rOrganization o m)
  | cAdd c => replies (addMembership c) rMember
  | cRole c => replies (changeMembershipRole c) rMember
  | cRevoke c => replies (revokeMembership c) rMember
  | cInvite c => replies (inviteIdentity c) rInvite
  | cAccept c => replies (acceptInvitation c) (fun '(n, m) => rJoined n m)
  | cWithdraw c => replies (revokeInvitation c) rInvite
  end.

(** Who must be what for a command to have succeeded, and what it changed. *)
Definition authorized (c : OrgCommand) (r : Res Reply) (w : World) : Prop :=
  match r with
  | Err _ => True
  | Ok reply =>
      match c, reply with
      | cCreate c, rOrganization o _ => ownedBy c.(co_sessionToken) o w
      | cAdd c, rMember m => memberAdded c m w
      | cRole c, rMember m => roleChanged c m w
      | cRevoke c, rMember m => memberRevoked c m w
      | cInvite c, rInvite n => invited c n w
      | cWithdraw c, rInvite n => withdrawn c n w
      | cAccept c, rJoined n m => joined c n m w
      | _, _ => False
      end
  end.

Lemma authorized_rel c r w w' : Rel w w' -> authorized c r w -> authorized c r w'.
Proof.
  intros Hr. destruct r as [reply|]; [|done]. destruct c, reply; cbn; try done; [by eauto|..];
    unfold memberAdded, roleChanged, memberRevoked, invited, withdrawn, joined; naive_solver eauto.
Qed.

Lemma replies_safe {A} c (p : Command A) f (post : Res A -> World -> Prop) w :
  safe p post w -> Inv w -> (forall r w', post r w' -> authorized c (match r with Ok x => Ok (f x) | Err e => Err e end) w') ->
  safe (replies p f) (authorized c) w.
Proof.
  intros Hp HI Hpost. apply (wp_bind _ _ _ org_rel_refl); [|done]. eapply wp_weaken; [|exact Hp].
  intros r w1 Hr. apply wp_ret. intros w2 Hr2 _. by eapply authorized_rel, Hpost.
Qed.

Lemma org_program_safe c w : Inv w -> safe (program c) (authorized c) w.
Proof.
  intros HI. destruct c as [c|c|c|c|c|c|c]; cbn [program]; (eapply replies_safe;
    [first [apply createOrganization_safe|apply addMembership_safe|apply changeMembershipRole_safe|apply revokeMembership_safe
           |apply inviteIdentity_safe|apply acceptInvitation_safe|apply revokeInvitation_safe]|exact HI|]);
    intros [x|f]; try done; by destruct x.
Qed.

(** C8. The organization module keeps its records consistent under concurrency.
    Any number of commands run together in any interleaving of their port calls,
    with any clock and identifiers and with dependencies failing at any point.
    From a consistent world they reach a consistent world: one membership per
    organization and identity, one pending invitation per organization and
    identity, unique slugs, no membership or invitation without its
    organization, an active owner in every organization, a membership for
    whoever accepted an invitation, and an event for every change. And between
    the two worlds nothing is lost, everything changes by the domain's
    operations only, and no owner's membership changes, so a founder is never
    locked out. *)
Theorem organizations_consistent (commands : list OrgCommand) (w w' : World) (ps' : list (Command Reply))
    (Hstart : Inv w)
    (Hrun : rtc (pool_step (exec actorOf activeOf outage)) (w, program <$> commands) (w', ps')) :
  Inv w' /\ Rel w w'.
Proof.
  destruct (pool_safe (exec actorOf activeOf outage) Inv Rel org_rel_refl org_rel_trans (fun _ _ _ => True) w (program <$> commands) w' ps' Hrun Hstart)
    as (HI & Hr & _); [|done].
  intros i p Hp. apply list_lookup_fmap_Some in Hp as (c & -> & _). eapply wp_weaken; [|by apply org_program_safe]. done.
Qed.


(** ** Invitations are accepted once. *)

(** An accepted invitation does not change again. *)
Lemma accepted_final n n' : rtc evo n n' -> n.(n_status) = Invitation.accepted -> n' = n.
Proof.
  intros Hst Ha. destruct Hst as [n|n m n' (c & (Hp & _)%inviteStep_evolve & _) _]; [done|congruence].
Qed.

(** A commit that the writer of acceptances took, in a world: what it found and
    what it stored, both or neither. *)
Definition acceptance (input : AcceptanceCommit) (bus : Events.Envelope -> Res unit) (w : World) : Prop :=
  let '(s', sent, r) := commitAcceptance input bus w.(stores) in
  match r with
  | Ok _ =>
      sent = input.(ac_events)
      /\ (exists previous, inviteAt w input.(ac_invitation).(n_id) previous /\ previous.(n_status) = Invitation.pending
            /\ previous.(Invitation.n_version) = input.(ac_invitation).(Invitation.n_version))
      /\ ~ belongs w input.(ac_membership).(m_organizationId) input.(ac_membership).(m_identityId)
      /\ invitationById input.(ac_invitation).(n_id) s' = Some (Invitation.saved input.(ac_invitation))
      /\ membershipById input.(ac_membership).(m_id) w.(stores) = None
      /\ membershipById input.(ac_membership).(m_id) s' = Some (Membership.saved input.(ac_membership))
  | Err _ => s' = w.(stores)
  end.

(** What the writers refuse, once an invitation is accepted. *)
Record closed (n : Invitation) (w : World) : Prop := mkClosed {
  closed_kept : inviteAt w n.(n_id) n;
  closed_member : belongs w n.(Invitation.n_organizationId) n.(Invitation.n_identityId);
  (** The invitation itself, for whatever membership. *)
  closed_again : forall input bus, assertAll input.(ac_events) input.(ac_work) = Ok tt ->
    input.(ac_invitation).(n_id) = n.(n_id) ->
    commitAcceptance input bus w.(stores) = (w.(stores), [], Err acceptanceConflict);
  (** Another invitation, for a membership of the identity in the organization. *)
  closed_other : forall input bus, assertAll input.(ac_events) input.(ac_work) = Ok tt ->
    input.(ac_membership).(m_organizationId) = n.(Invitation.n_organizationId) ->
    input.(ac_membership).(m_identityId) = n.(Invitation.n_identityId) ->
    commitAcceptance input bus w.(stores)
    = (w.(stores), [], Err (if stillPending input w.(stores) then acceptedMembershipExists else acceptanceConflict));
  (** A membership added without an invitation. *)
  closed_add : forall input bus, Events.assertEventWork input.(mc_event) input.(mc_work) = Ok tt ->
    input.(mc_membership).(m_version) = UNSAVED ->
    input.(mc_membership).(m_organizationId) = n.(Invitation.n_organizationId) ->
    input.(mc_membership).(m_identityId) = n.(Invitation.n_identityId) ->
    commitMembership input bus w.(stores) = (w.(stores), [], Err membershipExists)
}.

Lemma accepted_closed n w : Inv w -> inviteAt w n.(n_id) n -> n.(n_status) = Invitation.accepted -> closed n w.
Proof.
  intros HI Hn Ha. pose proof (inv_accepted _ HI _ _ Hn Ha) as Hb. destruct (id Hb) as (mid & m & Hm & Ho & Hi).
  pose proof (wf_memberships _ (inv_wf _ HI)) as Hk. constructor; [done|done|..].
  - intros input bus Hwork Hid. unfold commitAcceptance, acceptanceGuard, commitWith. rewrite Hwork. cbn [mbind Result_bind].
    unfold inviteAt in Hn. rewrite Hid, Hn. rewrite bool_decide_eq_false_2; [done|]. by rewrite Ha.
  - intros input bus Hwork Hio Hii. by apply (acceptance_refused input bus _ mid m Hk Hm); [rewrite Hio, Ho|rewrite Hii, Hi|].
  - intros input bus Hwork Hv Hio Hii. by apply (membership_refused input bus _ mid m Hk Hm); [rewrite Hio, Ho|rewrite Hii, Hi|..].
Qed.

Lemma acceptance_taken input bus w : Inv w -> acceptance input bus w.
Proof.
  intros HI. unfold acceptance. destruct (commitAcceptance input bus (stores w)) as [[s' sent] r] eqn:E.
  pose proof (acceptance_atomic input bus _ _ _ _ (inv_wf _ HI) E) as Hat. destruct r as [u|f]; [|done].
  destruct Hat as (Hsent & Hprev & Hinv & Hnone & Hmem). split_and!; try done. intros (id & m & Hm & Ho & Hi).
  unfold commitAcceptance, commitWith in E. destruct (acceptanceGuard input (stores w)) as [p|] eqn:Eg; [|by injection E].
  apply acceptanceGuard_ok in Eg as (_ & _ & _ & _ & Hno).
  by rewrite <- Ho, <- Hi, (hasMembership_member _ _ _ (wf_memberships _ (inv_wf _ HI)) Hm) in Hno.
Qed.

(** C31. An invitation is accepted at most once, with its membership or not at all.
    Run the module's commands in any interleaving, and look at the world when an
    invitation has been accepted and at any later one. In both the invitation is
    stored as it was accepted, its identity has a membership of its organization,
    a second acceptance of it is refused as no longer pending, an acceptance of
    another pending invitation for a membership of that identity there is refused
    as a duplicate membership, and so is adding one without an invitation; none of
    them changes or publishes anything. And any acceptance made in any of these
    worlds either finds its invitation pending and no membership, and stores the
    accepted invitation and the new membership together, or fails and leaves the
    stores as they were. *)
Theorem invitation_accepted_once (commands : list OrgCommand) (w w1 w2 : World) (mid rest : list (Command Reply)) (n : Invitation)
    (Hstart : Inv w)
    (Hrun : rtc (pool_step (exec actorOf activeOf outage)) (w, program <$> commands) (w1, mid))
    (Haccepted : inviteAt w1 n.(n_id) n) (Hstatus : n.(n_status) = Invitation.accepted)
    (Hlater : rtc (pool_step (exec actorOf activeOf outage)) (w1, mid) (w2, rest)) :
  closed n w1 /\ closed n w2 /\ forall input bus, acceptance input bus w1 /\ acceptance input bus w2.
Proof.
  destruct (pool_wps (exec actorOf activeOf outage) Inv Rel org_rel_refl org_rel_trans (fun _ _ _ => True) w (program <$> commands) w1 mid
    Hrun Hstart) as (HI1 & _ & Hmid).
  { intros i p Hp. apply list_lookup_fmap_Some in Hp as (c & -> & _). eapply wp_weaken; [|by apply org_program_safe]. done. }
  destruct (pool_safe (exec actorOf activeOf outage) Inv Rel org_rel_refl org_rel_trans (fun _ _ _ => True) w1 mid w2 rest
    Hlater HI1 Hmid) as (HI2 & Hr & _).
  destruct (ev_chain _ _ (rel_invitations _ _ Hr) _ _ Haccepted) as (n' & Hn' & Hev). apply accepted_final in Hev as ->; [|done].
  split; [by apply accepted_closed|]. split; [by apply accepted_closed|]. intros input bus. split; by apply acceptance_taken.
Qed.

(** ** The access query. *)

(** The access an identity has: its active membership in an active
    organization. *)
Definition grants (w : World) (identityId organizationId : ID) (v : AccessView) : Prop :=
  exists o id m, organizationAt w organizationId o /\ o.(o_status) = Organization.active
    /\ memberAt w id m /\ m.(m_organizationId) = organizationId /\ m.(m_identityId) = identityId
    /\ m.(m_status) = Membership.active
    /\ v = mkAccessView organizationId identityId m.(m_role).

Lemma views_spec w i v :
  Inv w -> v ∈ viewsFor i w.(stores) <->
  exists id, memberAt w id v.(v_membership) /\ v.(v_membership).(m_identityId) = i
    /\ v.(v_membership).(m_status) = Membership.active
    /\ organizationAt w v.(v_membership).(m_organizationId) v.(v_organization)
    /\ v.(v_organization).(o_status) <> Organization.archived.
Proof.
  intros HI. unfold viewsFor, membershipsForIdentity. rewrite list_elem_of_omap. split.
  - intros (m & Hin & Hv). apply list_elem_of_filter in Hin as [[Hi Hs] Hin]. apply keyed_values in Hin; [|apply HI].
    destruct (organizationById _ _) as [o|] eqn:Eo; [|done]. destruct (bool_decide_reflect (o_status o = Organization.archived)); [done|].
    injection Hv as <-. exists m.(m_id). by split_and!.
  - intros (id & Hm & Hi & Hs & Ho & Hst). exists v.(v_membership). split.
    + apply list_elem_of_filter. split; [done|]. apply keyed_values; [apply HI|]. by rewrite (holds_id _ _ _ (wf_memberships _ (inv_wf _ HI)) Hm).
    + unfold organizationAt in Ho. rewrite Ho, bool_decide_eq_false_2 by done. by destruct v.
Qed.

(** The access query answers exactly the caller's access. In a consistent
    world, what other modules are told when they ask for a session's access to an
    organization is the role of the caller's active membership in that active
    organization when there is one, and that there is no access when the caller
    is no active member or the organization is suspended or archived; the query
    changes nothing. *)
Theorem access_query_exact (token : jstring) (organizationId : ID) (w w' : World) (r : Res (option AccessView))
    (Hstart : Inv w) (Hrun : runs (exec actorOf activeOf outage) (findAccess token organizationId) w r w') :
  w' = w /\ match r with
            | Err f => True
            | Ok view => exists i, actorOf token (Ok i) /\ forall v, view = Some v <-> grants w i organizationId v
            end.
Proof.
  unfold findAccess, getOrganizationMembership in Hrun. cbn [bind perform orElse depends actor runs] in Hrun.
  destruct Hrun as (a & w1 & [Ha ->] & Hrun). destruct a as [i|]; cbn [mapError bind runs] in Hrun; [|by destruct Hrun as [<- ->]].
  destruct Hrun as (vs & w1 & [Hvs ->] & Hrun). destruct vs as [vs|]; cbn [mapError bind runs] in Hrun; [|by destruct Hrun as [<- ->]].
  destruct Hrun as [<- ->]. split; [done|]. exists i. split; [done|]. cbn in Hvs. subst vs. intros v.
  destruct (find_first _ (viewsFor i w.(stores))) as [x|] eqn:Ef.
  - apply List.find_some in Ef as [Hin Hid]. apply bool_decide_eq_true in Hid.
    apply list_elem_of_In, views_spec in Hin as (id & Hm & Hmi & Hms & Ho & Hst); [|done].
    pose proof (holds_id _ _ _ (wf_organizations _ (inv_wf _ Hstart)) Ho) as Hoid. cbn in Hoid.
    split.
    + destruct (bool_decide_reflect (o_status (v_organization x) = Organization.active)); [|done]. rewrite bool_decide_eq_true_2 by done.
      cbn. intros [= <-]. exists x.(v_organization), id, x.(v_membership). rewrite Hid, Hmi. split_and!; congruence.
    + intros (o & id' & m & Ho' & Hos & Hm' & Hmo & Hmi' & Hms' & ->).
      assert (id' = id) as -> by (apply (inv_member _ Hstart id' id m (v_membership x)); congruence).
      unfold memberAt in *. rewrite Hm in Hm'. injection Hm' as <-.
      assert (o = v_organization x) as -> by (unfold organizationAt in *; congruence).
      rewrite !bool_decide_eq_true_2 by done. cbn. by rewrite Hid, Hmi.
  - split; [done|]. intros (o & id & m & Ho & Hos & Hm & Hmo & Hmi & Hms & ->). exfalso.
    pose proof (List.find_none _ _ Ef (mkView o m)) as Hf. cbn in Hf.
    assert (Hoid : o.(o_id) = organizationId) by exact (holds_id _ _ _ (wf_organizations _ (inv_wf _ Hstart)) Ho).
    rewrite bool_decide_eq_true_2 in Hf by done. enough (true = false) by done. apply Hf, list_elem_of_In, views_spec; [done|].
    exists id. cbn. rewrite Hmo, Hos. by split_and!.
Qed.
End Safety.

(** ** A world with one organization, made by the command. *)
#[local] Existing Instance asciiFolding.

Definition sample_actor (token : jstring) (r : Res ID) : Prop := r = Ok (sample_uuid "8").
Definition sample_active (id : ID) (r : Res (option ID)) : Prop := r = Ok (Some id).
Definition sample_outage (f : Failure) : Prop := f = fail_with unavailable "down" "db.down".
Definition sample_creation : CreateOrganizationCommand :=
  mkCreateOrganization (js "token") (VStr (js " Acme ")) (VStr (js "acme")) (sample_operation "organization.create").
Definition empty_world : World := mkWorld (mkStores [] [] []) [].

Definition sample_organization : Organization :=
  Organization.mkOrganization (sample_uuid "5") (js "Acme") (js "acme") Organization.active (DateAt 1000) (DateAt 1000) 1.
Definition sample_owner : Membership :=
  Membership.mkMembership (sample_uuid "6") (sample_uuid "5") (sample_uuid "8") Membership.owner Membership.active
    (DateAt 1000) (DateAt 1000) None 1.
Definition sample_stores : Stores :=
  mkStores [(sample_uuid "5", sample_organization)] [(sample_uuid "6", sample_owner)] [].

Lemma org_empty_inv : Inv empty_world.
Proof. constructor; try done. constructor; apply keyed_nil. Qed.

(** The two events of the creation. *)
Definition sample_event (id : ID) (type : EventType) (kind : string) (subject : ID) (pl : list (string * JsValue)) : Res Events.Envelope :=
  Events.create id (eventName type) (Int 1000) sample_creation.(co_work) pl
    (Some (Events.mkEventSubject (js kind) subject)) (Some (sample_uuid "5")).
Definition sample_event1 : Res Events.Envelope :=
  sample_event (sample_uuid "a") e_created "organization" (sample_uuid "5")
    [("organization_id", VStr (sample_uuid "5")); ("identity_id", VStr (sample_uuid "8"));
     ("name", VStr (js "Acme")); ("slug", VStr (js "acme"))]%string.
Definition sample_event2 : Res Events.Envelope :=
  sample_event (sample_uuid "b") e_added "membership" (sample_uuid "6")
    [("organization_id", VStr (sample_uuid "5")); ("identity_id", VStr (sample_uuid "8"));
     ("membership_id", VStr (sample_uuid "6")); ("role", VStr (js "owner"))]%string.

Lemma org_sample_created :
  exists sent, runs (exec sample_actor sample_active sample_outage) (program (cCreate sample_creation)) empty_world
    (Ok (rOrganization (sample_uuid "5") (sample_uuid "6"))) (mkWorld sample_stores sent).
Proof.
  destruct sample_event1 as [e1|] eqn:E1; [|by vm_compute in E1].
  destruct sample_event2 as [e2|] eqn:E2; [|by vm_compute in E2].
  exists [e1; e2]. unfold program, replies, createOrganization. cbn [bind require].
  replace (operationIs _ _) with true by (vm_compute; reflexivity).
  cbn [bind perform orElse depends require pure_ nextId actor orgEvent runs].
  exists (Ok (sample_uuid "8")), empty_world. split; [by split|]. cbn [mapError bind runs].
  exists (DateAt 1000), empty_world. split; [done|].
  exists (Ok (sample_uuid "5")), empty_world. split; [done|]. cbn [mapError bind runs].
  replace (Organization.create _) with (@Ok Failure _ (Organization.mkOrganization (sample_uuid "5") (js "Acme") (js "acme")
    Organization.active (DateAt 1000) (DateAt 1000) 0)) by (vm_compute; reflexivity).
  cbn [bind runs]. exists (Ok (sample_uuid "6")), empty_world. split; [done|]. cbn [mapError bind runs].
  replace (Membership.add _) with (@Ok Failure _ (Membership.mkMembership (sample_uuid "6") (sample_uuid "5") (sample_uuid "8")
    Membership.owner Membership.active (DateAt 1000) (DateAt 1000) None 0)) by (vm_compute; reflexivity).
  cbn [bind runs]. exists (Ok (sample_uuid "a")), empty_world. split; [done|]. cbn [mapError bind runs].
  change (Events.create (sample_uuid "a") _ _ _ _ _ _) with sample_event1. rewrite E1. cbn [mapError bind runs].
  exists (Ok (sample_uuid "b")), empty_world. split; [done|]. cbn [mapError bind runs].
  change (Events.create (sample_uuid "b") _ _ _ _ _ _) with sample_event2. rewrite E2. cbn [mapError bind runs].
  exists (Ok tt), (mkWorld sample_stores [e1; e2]). split; [|split; reflexivity].
  exists (fun _ => Ok tt), [e1; e2]. split; [done|]. split; [|done].
  vm_compute in E1, E2. injection E1 as <-. injection E2 as <-. vm_compute. reflexivity.
Qed.

Lemma org_sample_inv sent :
  runs (exec sample_actor sample_active sample_outage) (program (cCreate sample_creation)) empty_world
    (Ok (rOrganization (sample_uuid "5") (sample_uuid "6"))) (mkWorld sample_stores sent) ->
  Inv (mkWorld sample_stores sent).
Proof.
  intros Hrun. by destruct (wp_runs _ _ _ org_rel_refl org_rel_trans _ _ _ _ _
    (org_program_safe sample_actor sample_active sample_outage _ _ org_empty_inv) org_empty_inv Hrun).
Qed.

Lemma organizations_consistent_witness : exists sent, Inv (mkWorld sample_stores sent) /\ Rel empty_world (mkWorld sample_stores sent).
Proof.
  destruct org_sample_created as [sent Hrun]. exists sent.
  exact (organizations_consistent sample_actor sample_active sample_outage [cCreate sample_creation] empty_world
    (mkWorld sample_stores sent) _ org_empty_inv (runs_pool _ _ _ _ _ Hrun)).
Defined.


Lemma access_query_exact_witness :
  exists sent, forall v, Some (mkAccessView (sample_uuid "5") (sample_uuid "8") Membership.owner) = Some v
    <-> grants (mkWorld sample_stores sent) (sample_uuid "8") (sample_uuid "5") v.
Proof.
  destruct org_sample_created as [sent Hrun]. exists sent.
  destruct (access_query_exact sample_actor sample_active sample_outage (js "token") (sample_uuid "5")
    (mkWorld sample_stores sent) (mkWorld sample_stores sent)
    (Ok (Some (mkAccessView (sample_uuid "5") (sample_uuid "8") Membership.owner))) (org_sample_inv sent Hrun)) as (_ & i & Hi & Hv).
  - exists (Ok (sample_uuid "8")), (mkWorld sample_stores sent). split; [by split|].
    exists (Ok [mkView sample_organization sample_owner]), (mkWorld sample_stores sent).
    split; [split; [vm_compute; reflexivity|reflexivity]|]. split; [vm_compute; reflexivity|reflexivity].
  - injection Hi as ->. exact Hv.
Defined.

(** ** An invitation issued, and accepted. *)

(** Two people: the token "guest" is the invited one's. *)
Definition sample_people (token : jstring) (r : Res ID) : Prop :=
  r = Ok (if bool_decide (token = js "guest") then sample_uuid "7" else sample_uuid "8").

(** Ports that work: the clock tells the number of the call in seconds. *)
Definition port_id (n : nat) : ID :=
  js ("018f0000-0000-7000-8000-0000000000" ++ (if (n <? 10)%nat then "0" else "") ++ pretty n)%string.
Definition port_commit (commit : (Events.Envelope -> Res unit) -> Stores -> Outcome Stores) (w : World) : Res unit * World :=
  let '(s, sent, r) := commit (fun _ => Ok tt) w.(stores) in (r, mkWorld s (w.(published) ++ sent)).

Definition sample_port (n : nat) (op : Op) (w : World) : Ans op * World :=
  match op with
  | now => (DateAt (Z.of_nat n * 1000), w)
  | newId => (Ok (port_id n), w)
  | findCurrent token => (Ok (if bool_decide (token = js "guest") then sample_uuid "7" else sample_uuid "8"), w)
  | findActive id => (Ok (Some id), w)
  | findMembership id => (Ok (membershipById id w.(stores)), w)
  | findActiveForIdentity o i => (Ok (find_first (ofOrganization o) (membershipsForIdentity i w.(stores))), w)
  | findForIdentity o i => (Ok (find_first (ofOrganization o) (membershipsForAnyStatusForIdentity i w.(stores))), w)
  | findInvitation id => (Ok (invitationById id w.(stores)), w)
  | findPendingForIdentity o i =>
      (Ok (find_first (fun n => bool_decide (n.(n_status) = Invitation.pending)) (invitationsForIdentity o i w.(stores))), w)
  | listForIdentity i => (Ok (viewsFor i w.(stores)), w)
  | saveOrganization input => port_commit (commitOrganization input) w
  | saveMembership input => port_commit (commitMembership input) w
  | saveInvitation input => port_commit (commitInvitation input) w
  | saveAcceptance input => port_commit (commitAcceptance input) w
  end.

Lemma port_commits commit w : commits sample_outage commit w (port_commit commit w).1 (port_commit commit w).2.
Proof.
  exists (fun _ => Ok tt), (commit (fun _ => Ok tt) w.(stores)).1.2. unfold port_commit.
  destruct (commit _ _) as [[s sent] r]. cbn. by split_and!.
Qed.

Lemma org_port_exec n op w : exec sample_people sample_active sample_outage op w (sample_port n op w).1 (sample_port n op w).2.
Proof. destruct op; cbn -[port_commit]; try apply port_commits; try done. Qed.

Definition sample_invite : InviteIdentityCommand :=
  mkInvite (js "token") (port_id 2) (sample_uuid "7") (VStr (js "member")) (sample_operation "organization.invitation.create").
Definition sample_accept : AcceptInvitationCommand :=
  mkAccept (js "guest") (port_id 2) (port_id 26) (sample_operation "organization.invitation.accept").
Definition sample_commands : list OrgCommand := [cCreate sample_creation; cInvite sample_invite; cAccept sample_accept; cAccept sample_accept].

Definition sample_founded := play sample_port 0 (program (cCreate sample_creation)) empty_world.
Definition sample_invited := play sample_port 20 (program (cInvite sample_invite)) sample_founded.2.
Definition sample_joined := play sample_port 40 (program (cAccept sample_accept)) sample_invited.2.
Definition sample_again := play sample_port 60 (program (cAccept sample_accept)) sample_joined.2.

Definition sample_taken : Invitation :=
  match invitationById (port_id 26) sample_joined.2.(stores) with Some n => n | None => sample_pending end.

(** The second acceptance waits while the first runs, then runs. *)
Lemma sample_first :
  rtc (pool_step (exec sample_people sample_active sample_outage)) (empty_world, program <$> sample_commands)
    (sample_joined.2, [Ret sample_founded.1; Ret sample_invited.1; Ret sample_joined.1; program (cAccept sample_accept)]).
Proof.
  pose proof (runs_at (exec sample_people sample_active sample_outage) (A := Res Reply)) as step.
  pose proof (fun n (p : Command Reply) w => play_runs _ sample_port n p w org_port_exec) as ran.
  etrans; [exact (step (program <$> sample_commands) 0%nat _ _ _ _ eq_refl (ran 0%nat _ _))|].
  etrans; [exact (step [_; _; _; _] 1%nat _ _ _ _ eq_refl (ran 20%nat _ _))|].
  exact (step [_; _; _; _] 2%nat _ _ _ _ eq_refl (ran 40%nat _ _)).
Qed.

Lemma sample_second :
  rtc (pool_step (exec sample_people sample_active sample_outage))
    (sample_joined.2, [Ret sample_founded.1; Ret sample_invited.1; Ret sample_joined.1; program (cAccept sample_accept)])
    (sample_again.2, [Ret sample_founded.1; Ret sample_invited.1; Ret sample_joined.1; Ret sample_again.1]).
Proof.
  exact (runs_at (exec sample_people sample_active sample_outage) [_; _; _; _] 3%nat _ _ _ _ eq_refl
    (play_runs _ sample_port 60 _ _ org_port_exec)).
Qed.

Lemma invitation_accepted_once_witness :
  sample_taken.(n_status) = Invitation.accepted /\ closed sample_taken sample_again.2
  /\ sample_again.1 = Err (fail_with conflict "identity already has an organization membership" "organization.invitation.membership_exists").
Proof.
  assert (Hs : sample_taken.(n_status) = Invitation.accepted) by (vm_compute; reflexivity).
  split; [exact Hs|]. split; [|vm_compute; reflexivity].
  apply (invitation_accepted_once sample_people sample_active sample_outage sample_commands empty_world sample_joined.2 sample_again.2
    _ [Ret sample_founded.1; Ret sample_invited.1; Ret sample_joined.1; Ret sample_again.1] sample_taken org_empty_inv sample_first); [vm_compute; reflexivity|exact Hs|exact sample_second].
Defined.
End OrgWorld.
