(* ===== verification/DocumentApp.v ===== *)
(** * The document module: [modules/document/app] and its in-memory store.

    [DocumentStore] is the store, its reader and its writer; [DocumentCommands]
    the commands and queries over the ports of [DocumentPorts]; [DocumentWorld]
    what holds when they run together. *)
From stdpp Require Import relations.
From S2P Require Import Prelude Async JsMap Errors Ids IsoDate Json Text JsonText JsonPrint Pagination Provenance Events.
From S2P Require Import Commands Aggregates Writers DocumentDomain.

Module DocumentFailures.

(** @src src/modules/document/app/failures.ts:35-58 knownFailure *)
Definition knownTypes : list (string * Kind) :=
  [("document.access_forbidden", forbidden); ("document.archive_forbidden", forbidden);
   ("document.already_exists", conflict); ("document.stale_write", conflict);
   ("document.organization_mismatch", conflict);
   ("document.id_generation", unavailable);
   ("document.invalid_operation", Errors.invalid); ("document.invalid_page", Errors.invalid);
   ("document.not_found", not_found);
   ("document.persistence_invalid", internal);
   ("document.missing_token", unauthenticated)]%string.

(** @src src/modules/document/app/failures.ts:60-77 dependencyFailure *)
Definition dependencyFailure (error : Failure) (operation : string) : Failure :=
  Vocabulary.dependencyIn "document" "Document" knownTypes error operation.

(** @src src/modules/document/app/failures.ts:79-84 idGenerationFailure *)
Definition idGenerationFailure (error : Failure) : Failure :=
  Vocabulary.idGenerationIn "document.id_generation" "Document ID generation failed" error.

(** @src src/modules/document/app/failures.ts:87-89 invalidPage *)
Definition invalidPage : Failure :=
  typedFailure Errors.invalid "document.invalid_page" "page size or cursor is invalid" noOptions.

(** @src src/modules/document/infra/failures.ts:4-7 staleWrite *)
Definition staleWrite : Failure :=
  fail_with conflict "document was changed by a concurrent operation" "document.stale_write".
(** @src src/modules/document/infra/failures.ts:9-10 documentExists *)
Definition documentExists : Failure := fail_with conflict "document already exists" "document.already_exists".
(** @src src/modules/document/infra/failures.ts:12-13 documentNotFound *)
Definition documentNotFound : Failure := fail_with not_found "document was not found" "document.not_found".
(** @src src/modules/document/infra/in-memory/writer.ts:35-39 commit *)
Definition organizationMismatch : Failure :=
  fail_with conflict "document organization cannot change" "document.organization_mismatch".
End DocumentFailures.

Module DocumentStore.
Import DocumentFailures.
Import Document(Document, d_id, d_organizationId, d_createdAt, d_version).

(** A document as a versioned aggregate. *)
#[export, refine] Instance Document_aggregate : Aggregate Document := {
  agg_id := d_id; agg_version := d_version; agg_saved := Document.saved;
  agg_new d := exists input, Document.create input = Ok d;
  agg_change := Document.step
}.
Proof.
  - done.
  - done.
  - intros d (input & H). unfold Document.create in H. by ok_branches H.
  - intros d d' Hs. destruct (Document.step_fixed _ _ Hs) as (? & _). done.
  - intros d d' Hs. destruct (Document.step_fixed _ _ Hs) as (_ & _ & ?). done.
Defined.

(** @src src/modules/document/infra/in-memory/store.ts:3-4 InMemoryDocumentStore *)
Definition Documents : Type := Store Document.

(** @src src/modules/document/infra/in-memory/store.ts:6-8 documentById *)
Definition documentById (id : ID) (s : Documents) : option Document := JsMap.get id s.

(** @src src/modules/document/infra/in-memory/store.ts:10-17 documentsForOrganization
    [localeCompare] is the host's collation. *)
Definition documentsForOrganization (localeCompare : ID -> ID -> Z) (organizationId : ID) (s : Documents) : list Document :=
  sort_by (fun left right =>
      let time := getTime left.(d_createdAt) - getTime right.(d_createdAt) in
      if time =? 0 then localeCompare left.(d_id) right.(d_id) else time)
    (filter (fun d => d.(d_organizationId) = organizationId) (JsMap.values s)).

(** @src src/modules/document/infra/in-memory/store.ts:19-25 add, replace *)
Definition replace (document : Document) (s : Documents) : Documents := JsMap.set document.(d_id) document s.
(** @src src/modules/document/infra/in-memory/store.ts:27-29 remove *)
Definition remove (id : ID) (s : Documents) : Documents := JsMap.delete id s.

(** @src src/modules/document/infra/in-memory/reader.ts:24-24 listForOrganization *)
Definition documentKey (document : Document) : After := mkAfter document.(d_createdAt) document.(d_id).

(** @src src/modules/document/infra/in-memory/reader.ts:17-28 listForOrganization *)
Definition listPage (localeCompare : ID -> ID -> Z) (organizationId : ID) (page : PageRequest) (s : Documents) : list Document :=
  keysetPage (documentsForOrganization localeCompare organizationId s) documentKey page.

Inductive Mode : Type := create | update.

(** @src src/modules/document/app/ports/document-writer.ts:6-12 DocumentCommit *)
Record DocumentCommit : Type := mkCommit {
  m_mode : Mode; m_document : Document; m_event : Events.Envelope; m_work : WorkContext
}.

(** @src src/modules/document/infra/in-memory/writer.ts:27-42 commit
    The guards; the value is the document they found stored. *)
Definition guard (input : DocumentCommit) (s : Documents) : Res (option Document) :=
  _ ← Events.assertEventWork input.(m_event) input.(m_work);
  let document := input.(m_document) in
  let previous := documentById document.(d_id) s in
  match input.(m_mode), previous with
  | create, Some _ => Err documentExists
  | create, None => Ok None
  | update, None => Err documentNotFound
  | update, Some p =>
      if negb (bool_decide (p.(d_organizationId) = document.(d_organizationId))) then Err organizationMismatch
      else if negb (p.(d_version) =? document.(d_version)) then Err staleWrite
      else Ok previous
  end.

(** @src src/modules/document/infra/in-memory/writer.ts:26-54 commit *)
Definition commit (input : DocumentCommit) (bus : Events.Envelope -> Res unit) (s : Documents) : Outcome Documents :=
  commitWith (guard input s)
    (fun _ => replace (Document.saved input.(m_document)) s)
    (fun previous s => match previous with
                       | Some p => replace p s
                       | None => remove input.(m_document).(d_id) s
                       end)
    [input.(m_event)] bus s.

Lemma guard_ok input s previous :
  guard input s = Ok previous ->
  previous = documentById input.(m_document).(d_id) s
  /\ match input.(m_mode) with
     | create => previous = None
     | update => exists p, previous = Some p /\ p.(d_organizationId) = input.(m_document).(d_organizationId)
         /\ p.(d_version) = input.(m_document).(d_version)
     end.
Proof.
  unfold guard. destruct (Events.assertEventWork _ _); cbn; [|done].
  destruct (m_mode input), (documentById _ s) as [p|]; try done; [by intros [= <-]|].
  destruct (bool_decide_reflect (d_organizationId p = d_organizationId (m_document input))); cbn; [|done].
  destruct (_ =? _) eqn:Ev; cbn; [|done]. intros [= <-]. breflect. eauto.
Qed.
End DocumentStore.

Module DocumentPorts.
Import Document(Document).

(** @src src/modules/document/app/ports/organization-access-reader.ts:5-5 OrganizationAccessRole *)
Inductive Role : Type := owner | admin | member.
(** @src src/modules/document/app/ports/organization-access-reader.ts:7-11 OrganizationAccess *)
Record Access : Type := mkAccess { ac_organizationId : ID; ac_identityId : ID; ac_role : Role }.

(** The calls a command or a query can make. *)
Inductive Op : Type :=
| now
| newId
| findAccess (sessionToken : jstring) (organizationId : ID)
| findById (id : ID)
| listForOrganization (organizationId : ID) (page : PageRequest)
| commit (input : DocumentStore.DocumentCommit).

(** @src src/modules/document/app/ports/document-reader.ts:6-14 DocumentReader *)
Definition Ans (op : Op) : Type :=
  match op with
  | now => Date
  | newId => Res ID
  | findAccess _ _ => Res (option Access)
  | findById _ => Res (option Document)
  | listForOrganization _ _ => Res (list Document)
  | commit _ => Res unit
  end.
End DocumentPorts.

Module DocumentCommands.
Import (hints) Document.
Import DocumentFailures DocumentStore DocumentPorts.
Import Document(Document, d_id, d_organizationId, d_name, d_storageKey, d_status, d_processingFailureCode, d_processingRun,
  d_processingAttempt, d_createdAt, d_archivedAt).
#[local] Open Scope prog_scope.

Definition Command (A : Type) : Type := Prog Ans (Res A).

(** @src src/modules/document/app/commands/create-document.ts:47-52 nextId *)
Definition nextId : Command ID := orElse idGenerationFailure (perform newId).

(** [if (!r.ok) return err(dependencyFailure(r.error, operation))]. *)
Definition depends {A} (operation : string) (p : Command A) : Command A :=
  orElse (fun e => dependencyFailure e operation) p.

(** @src src/modules/document/domain/events.ts:7-13 DOCUMENT_EVENT_TYPES *)
Inductive EventType : Type := e_created | e_processingStarted | e_processingCompleted | e_processingFailed | e_archived.
(** @src src/modules/document/domain/events.ts:7-13 DOCUMENT_EVENT_TYPES *)
Definition DOCUMENT_EVENT_TYPES (t : EventType) : jstring :=
  js match t with
     | e_created => "document.created.v1" | e_processingStarted => "document.processing.started.v1"
     | e_processingCompleted => "document.processing.completed.v1"
     | e_processingFailed => "document.processing.failed.v1" | e_archived => "document.archived.v1"
     end.

(** The envelope of a document event. *)
Definition documentEvent (eventId : ID) (type : EventType) (at_ : Date) (work : WorkContext) (document : Document)
    (payload : list (string * JsValue)) : Command Events.Envelope :=
  depends "event.create"
    (Ret (Events.create eventId (DOCUMENT_EVENT_TYPES type) (timeNumber at_) work payload
            (Some (Events.mkEventSubject (js "document") document.(d_id))) (Some document.(d_organizationId)))).

(** [current.value === null || current.value.organizationId !== organizationId]. *)
Definition ownedBy (organizationId : ID) (found : option Document) : Res Document :=
  foundOr documentNotFound (fun d => bool_decide (d.(d_organizationId) = organizationId)) found.

Definition accessRequired : Failure := fail_with forbidden "organization access is required" "document.access_forbidden".

Definition identityOf (access : option Access) : ID := match access with Some a => a.(ac_identityId) | None => [] end.

(** ** [CreateDocument]. *)

(** @src src/modules/document/app/commands/create-document.ts:23-30 CreateDocumentCommand *)
Record CreateDocumentCommand : Type := mkCreateDocument {
  cd_sessionToken : jstring; cd_organizationId : ID; cd_name : JsValue; cd_storageKey : JsValue; cd_work : WorkContext
}.

(** @src src/modules/document/app/commands/create-document.ts:102-109 execute *)
Definition createdPayload (identityId : ID) (d : Document) : list (string * JsValue) :=
  [("organization_id", VStr d.(d_organizationId)); ("document_id", VStr d.(d_id)); ("identity_id", VStr identityId);
   ("name", VStr d.(d_name)); ("storage_key", orNullText d.(d_storageKey));
   ("status", VStr (js (Document.statusName d.(d_status))))]%string.

(** @src src/modules/document/app/commands/create-document.ts:57-131 execute
    The result shows the members of the document. *)
Definition createDocument (command : CreateDocumentCommand) : Command Document :=
  _ ⟵ require (operationIs command.(cd_work) "document.create")
        (fail_with Errors.invalid "document creation operation is invalid" "document.invalid_operation");
  access ⟵ depends "organization.access.find"
        (perform (findAccess command.(cd_sessionToken) command.(cd_organizationId)));
  _ ⟵ require (negb (isNull access)) accessRequired;
  bind (perform now) (fun createdAt =>
  documentId ⟵ nextId;
  document ⟵ pure_ (Document.create (Document.mkCreate documentId command.(cd_organizationId) command.(cd_name)
                      command.(cd_storageKey) createdAt));
  eventId ⟵ nextId;
  event ⟵ documentEvent eventId e_created createdAt command.(cd_work) document (createdPayload (identityOf access) document);
  _ ⟵ depends "document.commit" (perform (commit (mkCommit create document event command.(cd_work))));
  Ret (Ok document)).

(** ** [ArchiveDocument]. *)

(** @src src/modules/document/app/commands/archive-document.ts:24-30 ArchiveDocumentCommand *)
Record ArchiveDocumentCommand : Type := mkArchiveDocument {
  ad_sessionToken : jstring; ad_organizationId : ID; ad_documentId : ID; ad_work : WorkContext
}.

(** [role === 'owner' || role === 'admin'], of an access that is not null. *)
Definition administers (access : option Access) : bool :=
  match access with
  | Some a => match a.(ac_role) with owner | admin => true | member => false end
  | None => false
  end.

(** @src src/modules/document/app/commands/archive-document.ts:115-121 execute *)
Definition archivedPayload (identityId : ID) (d : Document) : list (string * JsValue) :=
  [("organization_id", VStr d.(d_organizationId)); ("document_id", VStr d.(d_id)); ("identity_id", VStr identityId);
   ("status", VStr (js (Document.statusName d.(d_status))));
   ("archived_at", match d.(d_archivedAt) with Some t => VStr (toISOString t) | None => VUndefined end)]%string.

(** @src src/modules/document/app/commands/archive-document.ts:56-141 execute *)
Definition archiveDocument (command : ArchiveDocumentCommand) : Command Document :=
  _ ⟵ require (operationIs command.(ad_work) "document.archive")
        (fail_with Errors.invalid "document archive operation is invalid" "document.invalid_operation");
  access ⟵ depends "organization.access.find"
        (perform (findAccess command.(ad_sessionToken) command.(ad_organizationId)));
  _ ⟵ require (administers access)
        (fail_with forbidden "only organization owners and admins can archive documents" "document.archive_forbidden");
  found ⟵ depends "document.findById" (perform (findById command.(ad_documentId)));
  current ⟵ pure_ (ownedBy command.(ad_organizationId) found);
  bind (perform now) (fun archivedAt =>
  archived ⟵ pure_ (Document.archive current archivedAt);
  eventId ⟵ nextId;
  event ⟵ documentEvent eventId e_archived archivedAt command.(ad_work) archived (archivedPayload (identityOf access) archived);
  _ ⟵ depends "document.commit" (perform (commit (mkCommit update archived event command.(ad_work))));
  Ret (Ok archived)).

(** ** [ProcessDocument] and its subclasses. *)

(** @src src/modules/document/app/commands/process-document.ts:24-34 ProcessDocumentCommand *)
Record ProcessDocumentCommand : Type := mkProcess {
  pd_organizationId : ID; pd_documentId : ID; pd_processingRun : ID; pd_attempt : option num;
  pd_failureCode : JsValue; pd_work : WorkContext
}.
(** @src src/modules/document/app/commands/process-document.ts:50-50 Action *)
Inductive Action : Type := a_begin | a_retry | a_complete | a_fail.

(** @src src/modules/document/app/commands/process-document.ts:66-71 transition *)
Definition outcomeOf (action : Action) (command : ProcessDocumentCommand) : Document.ProcessingOutcome :=
  Document.mkOutcome command.(pd_processingRun) (default (Int 0) command.(pd_attempt))
    (match action with a_retry => Document.retrying | a_complete => Document.succeeded | _ => Document.failed end)
    command.(pd_failureCode).

(** @src src/modules/document/app/commands/process-document.ts:59-72 transition *)
Definition transition (document : Document) (action : Action) (at_ : Date) (command : ProcessDocumentCommand) : Res Document.Next :=
  match action with
  | a_begin => Document.beginProcessing document at_ command.(pd_processingRun)
  | _ => Document.applyProcessingOutcome document at_ (outcomeOf action command)
  end.

(** @src src/modules/document/app/commands/process-document.ts:161-204 BeginDocumentProcessing, RetryDocumentProcessing, CompleteDocumentProcessing, FailDocumentProcessing *)
Definition actionOperation (a : Action) : string :=
  match a with
  | a_begin => "document.processing.start" | a_retry => "document.processing.retry"
  | a_complete => "document.processing.complete" | a_fail => "document.processing.fail"
  end.
(** @src src/modules/document/app/commands/process-document.ts:161-204 BeginDocumentProcessing, RetryDocumentProcessing, CompleteDocumentProcessing, FailDocumentProcessing *)
Definition actionEvent (a : Action) : EventType :=
  match a with
  | a_begin | a_retry => e_processingStarted | a_complete => e_processingCompleted | a_fail => e_processingFailed
  end.

(** @src src/modules/document/app/commands/process-document.ts:126-133 execute *)
Definition changedPayload (d : Document) : list (string * JsValue) :=
  [("organization_id", VStr d.(d_organizationId)); ("document_id", VStr d.(d_id));
   ("status", VStr (js (Document.statusName d.(d_status))));
   ("processing_failure_code", orNullText d.(d_processingFailureCode));
   ("processing_run", orNullText d.(d_processingRun));
   ("processing_attempt", VNum (Int d.(d_processingAttempt)))]%string.

(** @src src/modules/document/app/commands/process-document.ts:82-149 ProcessDocument.execute
    Its result shows members of the document. *)
Definition processDocument (action : Action) (command : ProcessDocumentCommand) : Command Document :=
  _ ⟵ require (operationIs command.(pd_work) (actionOperation action))
        (fail_with Errors.invalid "document processing operation is invalid" "document.invalid_operation");
  found ⟵ depends "document.findById" (perform (findById command.(pd_documentId)));
  current ⟵ pure_ (ownedBy command.(pd_organizationId) found);
  bind (perform now) (fun at_ =>
  next ⟵ pure_ (transition current action at_ command);
  match next with
  | Document.This => Ret (Ok current)
  | Document.New changed =>
      eventId ⟵ nextId;
      event ⟵ documentEvent eventId (actionEvent action) at_ command.(pd_work) changed (changedPayload changed);
      _ ⟵ depends "document.commit" (perform (commit (mkCommit update changed event command.(pd_work))));
      Ret (Ok changed)
  end).

(** ** Queries. *)

(** @src src/modules/document/app/queries/get-document.ts:27-60 execute *)
Definition getDocument (sessionToken : jstring) (organizationId documentId : ID) : Command Document :=
  access ⟵ depends "organization.access.find" (perform (findAccess sessionToken organizationId));
  _ ⟵ require (negb (isNull access)) accessRequired;
  found ⟵ depends "document.findById" (perform (findById documentId));
  pure_ (ownedBy organizationId found).

(** @src src/modules/document/app/queries/check-document-processable.ts:24-46 execute *)
Definition checkDocumentProcessable (organizationId documentId : ID) : Command unit :=
  found ⟵ depends "document.findById" (perform (findById documentId));
  document ⟵ pure_ (ownedBy organizationId found);
  _ ⟵ require (negb (bool_decide (document.(d_status) = Document.archived)))
        (fail_with Errors.invalid "archived documents cannot be processed" "document.archived");
  _ ⟵ require (negb (bool_decide (document.(d_status) = Document.processed)))
        (fail_with Errors.invalid "document has already been processed" "document.already_processed");
  Ret (Ok tt).

(** @src src/modules/document/app/queries/list-documents.ts:14-23 ListDocumentsQuery *)
Record ListDocumentsQuery : Type := mkListDocuments {
  ld_sessionToken : jstring; ld_organizationId : ID; ld_limit : option jstring; ld_cursor : option jstring
}.

(** @src src/modules/document/app/queries/list-documents.ts:36-36 execute *)
Definition listScope (organizationId : ID) : jstring := js "documents:" ++ organizationId.

(** @src src/modules/document/app/queries/list-documents.ts:33-64 execute *)
Definition listDocuments (query : ListDocumentsQuery) : Command (Page Document) :=
  let scope := listScope query.(ld_organizationId) in
  page ⟵ orElse (fun _ => invalidPage) (pure_ (request scope query.(ld_limit) query.(ld_cursor)));
  access ⟵ depends "organization.access.find"
        (perform (findAccess query.(ld_sessionToken) query.(ld_organizationId)));
  _ ⟵ require (negb (isNull access)) accessRequired;
  documents ⟵ depends "document.listForOrganization"
        (perform (listForOrganization query.(ld_organizationId) page));
  depends "pagination.window"
    (Ret (window documents (Int page.(limit)) scope (fun d => position d.(d_createdAt) d.(d_id)))).
End DocumentCommands.

Module DocumentWorld.
Import DocumentFailures DocumentStore DocumentPorts DocumentCommands.
Import (hints) Document DocumentStore.
Import Document(Document, d_id, d_organizationId, d_status, d_createdAt, d_version).

Abbreviation World := (Writers.World Documents).

Section Exec.
  (** The host's collation, what the organization module answers about a
      session, and the failures of unreliable dependencies. *)
  Context (localeCompare : ID -> ID -> Z) (accessOf : jstring -> ID -> Res (option Access) -> Prop) (outage : Failure -> Prop).

(** @src src/modules/document/infra/in-memory/reader.ts:10-29 InMemoryDocumentReader
    The ports' behaviour: the reader over the store, the writer, any clock, and
    a generator of well-formed identifiers. *)
Definition exec (op : Op) : World -> Ans op -> World -> Prop :=
  match op with
  | now => fun w r w' => w' = w
  | newId => fun w r w' => (forall id, r = Ok id -> matchesShape canonical id = true) /\ w' = w
  | findAccess token organizationId => fun w r w' => accessOf token organizationId r /\ w' = w
  | findById id => fun w r w' => answers outage (documentById id w.(stores)) r /\ w' = w
  | listForOrganization organizationId page => fun w r w' =>
      answers outage (listPage localeCompare organizationId page w.(stores)) r /\ w' = w
  | commit input => commits outage (DocumentStore.commit input)
  end.

Definition documentAt (w : World) (id : ID) (d : Document) : Prop := documentById id w.(stores) = Some d.

Record Inv (w : World) : Prop := mkInv {
  inv_keyed : keyed w.(stores);
  (** Every document is one the storage layer reads back. *)
  inv_wf : forall id d, documentAt w id d -> Document.wf d /\ matchesShape canonical id = true;
  (** Every change was announced, once. *)
  inv_events : writes w.(stores) = Z.of_nat (length w.(published))
}.

(** Nothing is lost, documents change by lifecycle calls only and stay in their
    organization, and what was announced stays announced. *)
Record Rel (w w' : World) : Prop := mkRel {
  rel_documents : evolves w.(stores) w'.(stores);
  rel_published : exists sent, w'.(published) = w.(published) ++ sent
}.

Lemma document_rel_refl w : Rel w w.
Proof. split; [apply evolves_refl|]. exists []. by rewrite app_nil_r. Qed.
Lemma document_rel_trans a b c : Rel a b -> Rel b c -> Rel a c.
Proof.
  intros [H1 [s1 E1]] [H2 [s2 E2]]. split; [by eapply evolves_trans|]. exists (s1 ++ s2). by rewrite E2, E1, app_assoc.
Qed.

Lemma evo_fixed d d' : rtc evo d d' -> d'.(d_organizationId) = d.(d_organizationId).
Proof.
  induction 1 as [d|d x d' (c & Hc & ->) _ IH]; [done|]. rewrite IH. by apply Document.step_fixed in Hc as (_ & ? & _).
Qed.

(** The world after writing [d] and announcing it. *)
Definition withDocument (d : Document) (e : Events.Envelope) (w : World) : World :=
  mkWorld (write d w.(stores)) (w.(published) ++ [e]).

Lemma documentAt_write d e w id x :
  documentAt (withDocument d e w) id x <-> (id = d.(d_id) /\ x = Document.saved d) \/ (id <> d.(d_id) /\ documentAt w id x).
Proof. exact (holds_write d w.(stores) id x). Qed.

Lemma published_write d e w : Z.of_nat (length (withDocument d e w).(published)) = Z.of_nat (length w.(published)) + 1.
Proof. cbn. rewrite length_app. cbn. lia. Qed.

Lemma document_new input d e w :
  Inv w -> Document.create input = Ok d -> matchesShape canonical d.(d_id) = true -> documentById d.(d_id) w.(stores) = None ->
  Inv (withDocument d e w) /\ Rel w (withDocument d e w).
Proof.
  intros [Hk Hw Hev] Hd Hid Hnone. destruct (write_new d w.(stores)) as [He Hn]; [by exists input|done|].
  split; [split|split].
  - by apply keyed_write.
  - intros id x [[-> ->]|[_ Hx]]%documentAt_write; [|by apply Hw]. split; [|done].
    apply Document.saved_wf. by eapply Document.create_wf.
  - rewrite published_write. cbn [stores withDocument]. lia.
  - exact He.
  - by exists [e].
Qed.

Lemma document_change d c p e w :
  Inv w -> seen w.(stores) d -> Document.step d c -> documentAt w c.(d_id) p -> p.(d_version) = c.(d_version) ->
  p = d /\ Inv (withDocument c e w) /\ Rel w (withDocument c e w).
Proof.
  intros [Hk Hw Hev] Hseen Hstep Hp Hv. destruct (write_change d c p w.(stores) Hseen Hstep Hp Hv) as (-> & He & Hn).
  destruct (Hw _ _ Hp) as [Hwf Hid]. split; [done|]. split; [split|split].
  - by apply keyed_write.
  - intros id x [[-> ->]|[_ Hx]]%documentAt_write; [|by apply Hw]. split; [|done].
    apply Document.saved_wf. by eapply Document.step_wf.
  - rewrite published_write. cbn [stores withDocument]. lia.
  - exact He.
  - by exists [e].
Qed.

(** A commit, as a call: everything or nothing. *)
Lemma document_exec_commit input w r w' :
  Inv w -> exec (commit input) w r w' ->
  (exists previous, r = Ok tt /\ guard input w.(stores) = Ok previous /\ w' = withDocument input.(m_document) input.(m_event) w)
  \/ (exists f, r = Err f /\ w' = w).
Proof.
  intros HI (bus & sent & _ & Hc & Hp).
  assert (Hundo : forall previous, guard input w.(stores) = Ok previous ->
    match previous with Some p => replace p | None => remove input.(m_document).(d_id) end
      (replace (Document.saved input.(m_document)) w.(stores)) = w.(stores)).
  { intros previous [Hprev Hm]%guard_ok. unfold replace, remove. destruct previous as [p|].
    - symmetry in Hprev. pose proof (holds_id _ _ _ (inv_keyed _ HI) Hprev) as Hid. cbn in Hid. cbn. rewrite Hid. by apply JsMap.set_undo.
    - cbn. by apply JsMap.delete_undo. }
  unfold DocumentStore.commit, commitWith in Hc. destruct w as [s p], w' as [s' p']. cbn in *.
  destruct (guard input s) as [previous|f] eqn:Eg.
  2: { injection Hc as <- <- <-. right. exists f. by rewrite Hp, app_nil_r. }
  destruct (bus (m_event input)) as [u|f].
  - injection Hc as <- <- <-. left. exists previous. by rewrite Hp.
  - injection Hc as <- <- <-. right. exists f. rewrite Hp, app_nil_r. split; [done|]. f_equal.
    specialize (Hundo _ eq_refl). by destruct previous.
Qed.

Abbreviation safe := (wp exec Inv Rel).

Lemma document_read_only op :
  match op with commit _ => False | _ => True end -> forall w1 r w2, exec op w1 r w2 -> w2 = w1.
Proof. by destruct op; cbn; intros ? w1 r w2; intuition. Qed.

Lemma document_safe_create {A} input d e work (k : Res unit -> Prog Ans A) post w :
  Document.create input = Ok d -> matchesShape canonical d.(d_id) = true ->
  (forall w1 w2, Rel w w1 -> w2 = withDocument d e w1 -> Rel w w2 -> Inv w2 -> safe (k (Ok tt)) post w2) ->
  (forall f w2, Rel w w2 -> Inv w2 -> safe (k (Err f)) post w2) ->
  safe (Call (commit (mkCommit create d e work)) k) post w.
Proof.
  intros Hd Hid Hok Herr. cbn. intros w1 Hr HI r w2 He.
  destruct (document_exec_commit _ _ _ _ HI He) as [(previous & -> & Hg & ->)|(f & -> & ->)]; [|eauto using document_rel_refl].
  apply guard_ok in Hg as [Hprev Hm]. cbn in Hprev, Hm. subst previous. symmetry in Hm.
  destruct (document_new input d e w1 HI Hd Hid ltac:(done)) as [HI2 Hr2]. split; [done|]. split; [done|].
  apply (Hok w1); [done|done|by eapply document_rel_trans|done].
Qed.

Lemma document_safe_update {A} d c e work (k : Res unit -> Prog Ans A) post w :
  seen w.(stores) d -> Document.step d c ->
  (forall w1 w2, Rel w w1 -> documentAt w1 d.(d_id) d -> w2 = withDocument c e w1 -> Rel w w2 -> Inv w2 -> safe (k (Ok tt)) post w2) ->
  (forall f w2, Rel w w2 -> Inv w2 -> safe (k (Err f)) post w2) ->
  safe (Call (commit (mkCommit update c e work)) k) post w.
Proof.
  intros Hseen Hstep Hok Herr. cbn. intros w1 Hr HI r w2 He.
  destruct (document_exec_commit _ _ _ _ HI He) as [(previous & -> & Hg & ->)|(f & -> & ->)]; [|eauto using document_rel_refl].
  apply guard_ok in Hg as [Hprev (p & -> & _ & Hv)]. cbn in Hprev, Hv. symmetry in Hprev.
  assert (Hseen1 : seen w1.(stores) d) by (eapply seen_evolves; [apply Hr|done]).
  destruct (document_change d c p e w1 HI Hseen1 Hstep Hprev Hv) as (-> & HI2 & Hr2). split; [done|]. split; [done|].
  destruct (Document.step_fixed _ _ Hstep) as (Hid & _). apply (Hok w1); [done|by rewrite <- Hid|done|by eapply document_rel_trans|done].
Qed.
End Exec.

(** Case on what the next read answers. *)
Ltac call :=
  cbn [bind perform orElse depends require pure_ nextId documentEvent];
  lazymatch goal with
  | |- wp _ _ _ (Call (commit _) _) _ _ => idtac
  | |- wp _ _ _ (Call _ _) _ _ => apply (wp_read _ _ _ document_rel_refl); [by apply document_read_only|intros ?r ?w ?Hrel ?HI ?He]
  end; cbn [mapError bind].

Tactic Notation "got" hyp(r) "as" ident(x) := destruct r as [x|]; [cbn [mapError bind require pure_]|done].

Section Safety.
  Context (localeCompare : ID -> ID -> Z) (accessOf : jstring -> ID -> Res (option Access) -> Prop) (outage : Failure -> Prop).
  Abbreviation safe := (wp (exec localeCompare accessOf outage) Inv Rel).
  Abbreviation exec := (exec localeCompare accessOf outage).

#[local] Hint Resolve document_rel_refl document_rel_trans : core.

Lemma seen_rel w w' d : Rel w w' -> seen w.(stores) d -> seen w'.(stores) d.
Proof. intros Hr. apply seen_evolves, Hr. Qed.

Lemma written_seen d e w : Inv (withDocument d e w) -> seen (withDocument d e w).(stores) (Document.saved d).
Proof. intros HI. apply (holds_seen _ d.(d_id)); [apply HI|]. apply holds_write. by left. Qed.

(** Nothing happens to an archived document. *)
Lemma archived_final d d' : d.(d_status) = Document.archived -> rtc evo d d' -> d' = d.
Proof.
  intros Ha. destruct 1 as [|d x d' (c & Hc & ->) _]; [done|exfalso].
  destruct Hc as [d t y H|d t run y H|d t o y H].
  - unfold Document.archive in H. ok_branches H. by rewrite Ha in *.
  - unfold Document.beginProcessing in H. ok_branches H. by rewrite Ha in *.
  - destruct (Document.outcome_new _ _ _ _ H) as (_ & Hs & _). unfold Document.stale in Hs. by rewrite Ha in Hs.
Qed.

(** The document a command found is in the store. *)
Lemma found_seen w id organizationId found d :
  Inv w -> exec (findById id) w (Ok found) w -> ownedBy organizationId found = Ok d ->
  seen w.(stores) d /\ documentAt w id d /\ d.(d_organizationId) = organizationId.
Proof.
  intros HI [Hf _] Ho. cbn in Hf. destruct found as [x|]; [|done]. unfold ownedBy, foundOr in Ho.
  destruct (bool_decide_reflect (d_organizationId x = organizationId)); [|done]. injection Ho as ->. split_and!; [|done|done].
  eapply holds_seen; [apply HI|]. symmetry in Hf. exact Hf.
Qed.

(** The caller has access to the organization, as an administrator or at all. *)
Definition mayAccess (token : jstring) (organizationId : ID) : Prop := exists a, accessOf token organizationId (Ok (Some a)).
Definition mayAdminister (token : jstring) (organizationId : ID) : Prop :=
  exists a, accessOf token organizationId (Ok (Some a)) /\ administers (Some a) = true.

Lemma createDocument_safe cmd w :
  safe (createDocument cmd) (fun r w => match r with
    | Ok d => mayAccess cmd.(cd_sessionToken) cmd.(cd_organizationId) /\ d.(d_organizationId) = cmd.(cd_organizationId)
              /\ seen w.(stores) (Document.saved d)
    | Err _ => True end) w.
Proof.
  unfold createDocument. cbn [bind require]. destruct (operationIs _ _); [|done].
  call. got r as a. destruct a as [a|]; [|done]. cbn [isNull negb bind].
  call. call. got r0 as id. destruct (Document.create _) as [d|] eqn:Ed; [|done].
  call. got r0 as eid. destruct (Events.create _ _ _ _ _ _ _) as [e|]; [|done]. cbn [mapError bind].
  assert (Hd : d.(d_id) = id /\ d.(d_organizationId) = cmd.(cd_organizationId))
    by (unfold Document.create in Ed; by ok_branches Ed).
  destruct Hd as [Hid Ho]. destruct He1 as [Hcanon _].
  apply (document_safe_create _ _ _ _ _ _ _ _ _ _ Ed); [rewrite Hid; by apply Hcanon| |done].
  intros w4 w5 _ -> Hr5 HI5. apply wp_ret. intros w6 Hr6 _. split_and!; [by exists a; destruct He|done|].
  eapply seen_rel; [exact Hr6|by apply written_seen].
Qed.

Lemma archiveDocument_safe cmd w :
  safe (archiveDocument cmd) (fun r w => match r with
    | Ok d => mayAdminister cmd.(ad_sessionToken) cmd.(ad_organizationId) /\ d.(d_organizationId) = cmd.(ad_organizationId)
              /\ documentAt w cmd.(ad_documentId) (Document.saved d) /\ d.(d_status) = Document.archived
    | Err _ => True end) w.
Proof.
  unfold archiveDocument. cbn [bind require]. destruct (operationIs _ _); [|done].
  call. got r as a. destruct (administers a) eqn:Ea; [|done]. destruct a as [a|]; [|done]. cbn [bind].
  call. got r as found. destruct (ownedBy _ _) as [d|] eqn:Ed; [|done]. cbn [bind].
  destruct (found_seen _ _ _ _ _ HI0 He0 Ed) as (Hseen & Hat & Ho).
  call. destruct (Document.archive d _) as [c|] eqn:Ec; [|done].
  call. got r0 as eid. destruct (Events.create _ _ _ _ _ _ _) as [e|]; [|done]. cbn [mapError bind].
  apply (document_safe_update _ _ _ d c); [eauto using seen_rel|by eapply Document.step_archive| |done].
  intros w4 w5 _ _ -> Hr5 HI5. apply wp_ret. intros w6 Hr6 HI6.
  destruct (Document.step_fixed _ _ (Document.step_archive _ _ _ Ec)) as (Hcid & Hco & _).
  assert (Hst : c.(d_status) = Document.archived) by (unfold Document.archive in Ec; by ok_branches Ec).
  destruct (seen_rel _ _ _ Hr6 (written_seen _ _ _ HI5)) as (x & Hx & Hchain). apply archived_final in Hchain as ->; [|done].
  pose proof (holds_id _ _ _ (inv_keyed _ HI0) Hat) as Hid. cbn in Hid.
  split_and!; [by exists a; destruct He|congruence| |done]. rewrite <- Hid, <- Hcid. exact Hx.
Qed.

Lemma processDocument_safe action cmd w :
  safe (processDocument action cmd) (fun r w => match r with
    | Ok d => d.(d_organizationId) = cmd.(pd_organizationId) /\ (seen w.(stores) d \/ seen w.(stores) (Document.saved d))
    | Err _ => True end) w.
Proof.
  unfold processDocument. cbn [bind require]. destruct (operationIs _ _); [|done].
  call. got r as found. destruct (ownedBy _ _) as [d|] eqn:Ed; [|done]. cbn [bind].
  destruct (found_seen _ _ _ _ _ HI He Ed) as (Hseen & Hat & Ho).
  call. destruct (transition d _ _ _) as [[|c]|] eqn:Ec; [| |done]; cbn [bind].
  { apply wp_ret. intros w2 Hr2 _. split; [done|]. left. eauto using seen_rel. }
  assert (Hstep : Document.step d c) by (destruct action; [by eapply Document.step_begin|by eapply Document.step_outcome..]).
  call. got r0 as eid. destruct (Events.create _ _ _ _ _ _ _) as [e|]; [|done]. cbn [mapError bind].
  apply (document_safe_update _ _ _ d c); [eauto using seen_rel|done| |done].
  intros w3 w4 _ _ -> Hr4 HI4. apply wp_ret. intros w5 Hr5 HI5. destruct (Document.step_fixed _ _ Hstep) as (_ & Hco & _).
  split; [congruence|]. right. eapply seen_rel; [exact Hr5|by apply written_seen].
Qed.

(** ** Every schedule of every set of commands. *)
Inductive DocumentCommand : Type :=
| cCreate (c : CreateDocumentCommand) | cArchive (c : ArchiveDocumentCommand) | cProcess (a : Action) (c : ProcessDocumentCommand).

Definition program (c : DocumentCommand) : Command Document :=
  match c with
  | cCreate c => createDocument c | cArchive c => archiveDocument c | cProcess a c => processDocument a c
  end.

(** What a command that succeeded may be relied on for. *)
Definition achieved (c : DocumentCommand) (r : Res Document) (w : World) : Prop :=
  match r with
  | Err _ => True
  | Ok d =>
      match c with
      | cCreate c => mayAccess c.(cd_sessionToken) c.(cd_organizationId) /\ d.(d_organizationId) = c.(cd_organizationId)
          /\ seen w.(stores) (Document.saved d)
      | cArchive c => mayAdminister c.(ad_sessionToken) c.(ad_organizationId) /\ d.(d_organizationId) = c.(ad_organizationId)
          /\ documentAt w c.(ad_documentId) (Document.saved d) /\ d.(d_status) = Document.archived
      | cProcess _ c => d.(d_organizationId) = c.(pd_organizationId)
          /\ (seen w.(stores) d \/ seen w.(stores) (Document.saved d))
      end
  end.

Lemma document_program_safe c w : safe (program c) (achieved c) w.
Proof. destruct c as [c|c|a c]; [exact (createDocument_safe c w)|exact (archiveDocument_safe c w)|exact (processDocument_safe a c w)]. Qed.

(** C10. The document module is consistent under concurrency. Any number of
    creations, archivals and processing steps run together in any interleaving
    of their port calls, with any clock, identifiers and dependency failures.
    From a consistent world they reach a consistent world: documents stored
    under their own identifiers, each one a document the storage layer reads
    back, one event for every committed change; no document is lost, each
    changes by lifecycle calls only, and no published event is withdrawn. And a
    command that succeeded had the access it needs, stored what it answers, and
    what it archived stays archived. *)
Theorem documents_consistent (commands : list DocumentCommand) (w w' : World) (ps' : list (Command Document))
    (Hstart : Inv w) (Hrun : rtc (pool_step exec) (w, program <$> commands) (w', ps')) :
  Inv w' /\ Rel w w'
  /\ forall i c r, commands !! i = Some c -> ps' !! i = Some (Ret r) -> achieved c r w'.
Proof.
  destruct (pool_safe exec Inv Rel document_rel_refl document_rel_trans (fun i r w => forall c, commands !! i = Some c -> achieved c r w)
    w (program <$> commands) w' ps' Hrun Hstart) as (HI & Hr & Hpost).
  - intros i p Hp. apply list_lookup_fmap_Some in Hp as (c & -> & Hc).
    eapply wp_weaken; [|apply (document_program_safe c)]. intros r w1 Hr1 c' Hc'. rewrite Hc in Hc'. by injection Hc' as <-.
  - split_and!; [done|done|]. intros i c r Hc Hp. by apply (Hpost i r Hp).
Qed.

(** ** What one processing step does. *)

(** A processing step does what the lifecycle says to exactly one document,
    or nothing. When a step that ran on its own succeeds, its work had the
    step's operation, it found a document of the organization stored under the
    identifier, the lifecycle accepted the step at some time, the answer is the
    lifecycle's document, and either the lifecycle changed nothing and neither
    did the step, or its next version is stored and one event of the step's type
    is published. When it fails, for any reason at any point, the store and the
    published events are as they were. *)
Theorem process_effect (action : Action) (cmd : ProcessDocumentCommand) (w w' : World) (r : Res Document)
    (Hstart : Inv w) (Hrun : runs exec (processDocument action cmd) w r w') :
  match r with
  | Ok d =>
      operationIs cmd.(pd_work) (actionOperation action) = true
      /\ exists before at_ next,
        documentAt w cmd.(pd_documentId) before /\ before.(d_organizationId) = cmd.(pd_organizationId)
        /\ transition before action at_ cmd = Ok next /\ d = Document.next_document before next
        /\ match next with
           | Document.This => w' = w
           | Document.New c => exists e, w' = withDocument c e w /\ e.(Events.e_type) = DOCUMENT_EVENT_TYPES (actionEvent action)
           end
  | Err _ => w' = w
  end.
Proof.
  unfold processDocument in Hrun. cbn [bind require] in Hrun.
  destruct (operationIs _ _) eqn:Eop; [|by destruct Hrun as [<- ->]].
  cbn [bind perform orElse depends require pure_ nextId documentEvent runs] in Hrun.
  destruct Hrun as (found & w1 & [Hfound ->] & Hrun). destruct found as [found|]; [|by destruct Hrun as [<- ->]].
  cbn [mapError] in Hrun. destruct (ownedBy _ found) as [before|] eqn:Eo; [|by destruct Hrun as [<- ->]].
  destruct (found_seen _ _ _ _ _ Hstart (conj Hfound eq_refl) Eo) as (_ & Hat & Ho).
  cbn [runs] in Hrun. destruct Hrun as (at_ & w1 & -> & Hrun).
  destruct (transition before _ _ _) as [next|] eqn:Et; [|by destruct Hrun as [<- ->]]. destruct next as [|c]; cbn [runs] in Hrun.
  { destruct Hrun as [<- ->]. split; [done|]. by exists before, at_, Document.This. }
  destruct Hrun as (eid & w1 & [_ ->] & Hrun). destruct eid as [eid|]; [|by destruct Hrun as [<- ->]].
  cbn [mapError] in Hrun. destruct (Events.create _ _ _ _ _ _ _) as [e|] eqn:Ee; [|by destruct Hrun as [<- ->]].
  cbn [mapError runs] in Hrun. destruct Hrun as (res & w1 & He & Hrun).
  destruct (document_exec_commit _ _ _ _ _ _ _ Hstart He) as [(pr & -> & _ & ->)|(f & -> & ->)]; destruct Hrun as [<- ->]; [|done].
  destruct (Events.create_type _ _ _ _ _ _ _ _ Ee) as [Hty _]. split; [done|]. exists before, at_, (Document.New c).
  split_and!; try done. by exists e.
Qed.

(** ** Listing an organization's documents. *)

(** The organization's documents, as stored. *)
Definition documentsOf (organizationId : ID) (w : World) : list Document :=
  filter (fun d => d.(d_organizationId) = organizationId) (JsMap.values w.(stores)).

Lemma documents_table w o : Inv w -> table documentKey (documentsOf o w).
Proof.
  intros [Hk Hw _]. split.
  - apply Forall_forall. intros d [_ Hd]%list_elem_of_filter. apply keyed_values in Hd; [|done].
    destruct (Hw _ _ Hd) as [Hwf Hid]. split; [by apply Document.wf_created|done].
  - apply (NoDup_fmap_1 id). rewrite <- list_fmap_compose. unfold documentsOf. eapply sublist_NoDup; [|apply fmap_sublist, sublist_filter]. by apply (JsMap.NoDup_values d_id); apply Hk.
Qed.

Lemma listPage_documents w o page : Inv w -> listPage localeCompare o page w.(stores) = keysetPage (documentsOf o w) documentKey page.
Proof. intros HI. apply keysetPage_perm; [by apply documents_table|]. apply sort_by_perm. Qed.

Definition pageOf (q : ListDocumentsQuery) (cursor : option jstring) (w : World) : Res (Page Document) :=
  servePage documentKey (listScope q.(ld_organizationId)) q.(ld_limit) (documentsOf q.(ld_organizationId) w) cursor.

(** What one list query answers: a page of the paging algorithm, to whoever has
    access. *)
Lemma listDocuments_ok q w page w' :
  Inv w -> runs exec (listDocuments q) w (Ok page) w' ->
  w' = w /\ mayAccess q.(ld_sessionToken) q.(ld_organizationId) /\ pageOf q q.(ld_cursor) w = Ok page.
Proof.
  intros HI Hrun. unfold listDocuments in Hrun. cbn [bind orElse pure_] in Hrun.
  destruct (request _ _ _) as [p|] eqn:Er; [|by destruct Hrun]. cbn [bind orElse pure_ mapError depends perform require runs] in Hrun.
  destruct Hrun as (access & w1 & [Hacc ->] & Hrun). destruct access as [[a|]|]; [|by destruct Hrun..]. cbn [mapError isNull negb runs] in Hrun.
  destruct Hrun as (docs & w1 & [Hdocs ->] & Hrun). destruct docs as [docs|]; [|by destruct Hrun]. cbn [mapError runs] in Hrun.
  destruct Hrun as [Hw ->]. split; [done|]. split; [by exists a|]. cbn in Hdocs. rewrite listPage_documents in Hdocs by done. subst docs.
  unfold pageOf, servePage. rewrite Er. cbn. destruct (window _ _ _ _) as [pg|] eqn:Ew; [|done]. cbn in Hw. by injection Hw as <-.
Qed.

Lemma listDocuments_runs q w page a :
  Inv w -> accessOf q.(ld_sessionToken) q.(ld_organizationId) (Ok (Some a)) -> pageOf q q.(ld_cursor) w = Ok page ->
  runs exec (listDocuments q) w (Ok page) w.
Proof.
  intros HI Ha Hp. unfold pageOf, servePage in Hp. unfold listDocuments. cbn [bind orElse pure_].
  destruct (request _ _ _) as [p|] eqn:Er; [|done]. cbn in Hp. cbn [bind orElse pure_ mapError depends perform require runs].
  exists (Ok (Some a)), w. split; [done|]. cbn [mapError isNull negb runs].
  exists (Ok (keysetPage (documentsOf (ld_organizationId q) w) documentKey p)), w.
  split; [split; [cbn; by rewrite listPage_documents|done]|]. cbn [mapError runs]. split; [|done].
  change (fun d => position (d_createdAt d) (Document.d_id d)) with (positionOf documentKey).
  rewrite Hp. done.
Qed.

(** The list query as a server of pages. *)
Definition served (q : ListDocumentsQuery) (w : World) (cursor : option jstring) (page : Page Document) : Prop :=
  runs exec (listDocuments (mkListDocuments q.(ld_sessionToken) q.(ld_organizationId) q.(ld_limit) cursor)) w (Ok page) w.

(** Listing an organization's documents shows each of them once, in order.
    While the store stays as it is, a client with access to the organization
    that lists its documents with an accepted page size and follows every
    cursor gets to the end, and whichever way it does, the pages it was shown
    are, end to end, exactly the organization's documents sorted by creation
    time and identifier. *)
Theorem listing_complete (q : ListDocumentsQuery) (n : Z) (a : Access) (w : World) :
  Inv w -> matchesShape canonical q.(ld_organizationId) = true -> size q.(ld_limit) = Ok n ->
  accessOf q.(ld_sessionToken) q.(ld_organizationId) (Ok (Some a)) ->
  (exists pages, browse (served q w) None pages)
  /\ forall pages, browse (served q w) None pages ->
       concat pages = ordered documentKey (documentsOf q.(ld_organizationId) w)
       /\ concat pages ≡ₚ documentsOf q.(ld_organizationId) w
       /\ Forall (fun p => Z.of_nat (length p) <= n) pages.
Proof.
  intros HI Ho Hn Ha.
  assert (Hserve : forall cursor page, served q w cursor page
    <-> servePage documentKey (listScope q.(ld_organizationId)) q.(ld_limit) (documentsOf q.(ld_organizationId) w) cursor = Ok page).
  { intros cursor page. split; [intros Hp; by apply listDocuments_ok in Hp as (_ & _ & Hp)|by apply (listDocuments_runs (mkListDocuments _ _ _ cursor) _ _ a)]. }
  destruct (browse_complete _ _ _ _ _ Hserve n (scope_part (js "documents:") _ eq_refl Ho) Hn (documents_table w _ HI)) as [Hex Hall].
  split; [done|]. intros pages Hb. destruct (Hall pages Hb) as [HP HL]. split_and!; [done| |done]. rewrite HP. apply ordered_perm.
Qed.
End Safety.

(** ** A world with one document, made by the command. *)
Definition sample_access (token : jstring) (organizationId : ID) (r : Res (option Access)) : Prop :=
  r = Ok (Some (mkAccess organizationId (sample_uuid "8") owner)).
Definition sample_outage (f : Failure) : Prop := f = fail_with unavailable "down" "db.down".
Definition sample_exec := exec (fun _ _ => 0) sample_access sample_outage.
Definition sample_creation : CreateDocumentCommand :=
  mkCreateDocument (js "token") (sample_uuid "9") (VStr (js " Plan ")) VUndefined (sample_operation "document.create").
Definition sample_new : Document :=
  Document.mkDocument (sample_uuid "5") (sample_uuid "9") (js "Plan") None Document.active None None 0
    (DateAt 1000) (DateAt 1000) None 0.
Definition empty_world : World := mkWorld [] [].
Definition sample_event : Res Events.Envelope :=
  Events.create (sample_uuid "a") (DOCUMENT_EVENT_TYPES e_created) (Int 1000) sample_creation.(cd_work)
    (createdPayload (sample_uuid "8") sample_new) (Some (Events.mkEventSubject (js "document") (sample_uuid "5")))
    (Some (sample_uuid "9")).

Lemma document_empty_inv : Inv empty_world.
Proof. constructor; [apply keyed_nil|done|done]. Qed.

Lemma document_sample_created :
  exists e, runs sample_exec (createDocument sample_creation) empty_world (Ok sample_new) (withDocument sample_new e empty_world).
Proof.
  destruct sample_event as [e|] eqn:E; [|by vm_compute in E]. exists e. unfold createDocument. cbn [bind require].
  replace (operationIs _ _) with true by (vm_compute; reflexivity).
  cbn [bind perform orElse depends require pure_ nextId documentEvent runs].
  exists (Ok (Some (mkAccess (sample_uuid "9") (sample_uuid "8") owner))), empty_world. split; [by split|]. cbn [mapError isNull negb runs].
  exists (DateAt 1000), empty_world. split; [done|].
  exists (Ok (sample_uuid "5")), empty_world. split; [split; [intros id [= <-]; vm_compute; reflexivity|done]|]. cbn [mapError runs].
  replace (Document.create _) with (@Ok Failure _ sample_new) by (vm_compute; reflexivity). cbn [runs].
  exists (Ok (sample_uuid "a")), empty_world. split; [split; [intros id [= <-]; vm_compute; reflexivity|done]|]. cbn [mapError runs].
  change (Events.create (sample_uuid "a") _ _ _ _ _ _) with sample_event. rewrite E. cbn [mapError runs].
  exists (Ok tt), (withDocument sample_new e empty_world). split; [|by split].
  exists (fun _ => Ok tt), [e]. split; [done|]. split; [|done]. vm_compute in E. injection E as <-. vm_compute. reflexivity.
Qed.

Lemma documents_consistent_witness :
  exists e, Inv (withDocument sample_new e empty_world)
    /\ achieved sample_access (cCreate sample_creation) (Ok sample_new) (withDocument sample_new e empty_world).
Proof.
  destruct document_sample_created as [e Hrun]. exists e.
  destruct (documents_consistent (fun _ _ => 0) sample_access sample_outage [cCreate sample_creation] empty_world
    (withDocument sample_new e empty_world) _ document_empty_inv (runs_pool _ _ _ _ _ Hrun)) as (HI & _ & Hdone).
  split; [exact HI|exact (Hdone 0%nat _ _ eq_refl eq_refl)].
Defined.

Lemma document_sample_inv e :
  runs sample_exec (createDocument sample_creation) empty_world (Ok sample_new) (withDocument sample_new e empty_world) ->
  Inv (withDocument sample_new e empty_world).
Proof.
  intros Hrun. by destruct (wp_runs _ _ _ document_rel_refl document_rel_trans _ _ _ _ _
    (createDocument_safe (fun _ _ => 0) sample_access sample_outage sample_creation empty_world) document_empty_inv Hrun).
Qed.

Definition sample_begin : ProcessDocumentCommand :=
  mkProcess (sample_uuid "9") (sample_uuid "5") (sample_uuid "7") None VUndefined (sample_operation "document.processing.start").

Definition sample_begun : Document :=
  Document.mkDocument (sample_uuid "5") (sample_uuid "9") (js "Plan") None Document.processing None (Some (sample_uuid "7")) 0
    (DateAt 1000) (DateAt 2000) None 1.
Definition sample_event2 : Res Events.Envelope :=
  Events.create (sample_uuid "b") (DOCUMENT_EVENT_TYPES e_processingStarted) (Int 2000) sample_begin.(pd_work)
    (changedPayload sample_begun) (Some (Events.mkEventSubject (js "document") (sample_uuid "5"))) (Some (sample_uuid "9")).

Lemma sample_started e :
  exists e2, runs sample_exec (processDocument a_begin sample_begin) (withDocument sample_new e empty_world) (Ok sample_begun)
    (withDocument sample_begun e2 (withDocument sample_new e empty_world)).
Proof.
  set (w := withDocument sample_new e empty_world). destruct sample_event2 as [e2|] eqn:E; [|by vm_compute in E].
  exists e2. unfold processDocument. cbn [bind require]. replace (operationIs _ _) with true by (vm_compute; reflexivity).
  cbn [bind perform orElse depends require pure_ nextId documentEvent runs].
  exists (Ok (Some (Document.saved sample_new))), w. split; [split; [vm_compute; reflexivity|done]|]. cbn [mapError runs].
  replace (ownedBy _ _) with (@Ok Failure _ (Document.saved sample_new)) by (vm_compute; reflexivity). cbn [runs].
  exists (DateAt 2000), w. split; [done|].
  replace (transition _ _ _ _) with (@Ok Failure _ (Document.New sample_begun)) by (vm_compute; reflexivity). cbn [runs].
  exists (Ok (sample_uuid "b")), w. split; [split; [intros id [= <-]; vm_compute; reflexivity|done]|]. cbn [mapError runs].
  change (Events.create (sample_uuid "b") _ _ _ _ _ _) with sample_event2. rewrite E. cbn [mapError runs].
  exists (Ok tt), (withDocument sample_begun e2 w). split; [|by split].
  exists (fun _ => Ok tt), [e2]. split; [done|]. split; [|done]. vm_compute in E. injection E as <-. vm_compute. reflexivity.
Qed.

Lemma process_effect_witness :
  exists e before, documentAt (withDocument sample_new e empty_world) (sample_uuid "5") before
    /\ before.(d_organizationId) = sample_uuid "9".
Proof.
  destruct document_sample_created as [e Hrun]. destruct (sample_started e) as [e2 Hstep]. exists e.
  destruct (process_effect (fun _ _ => 0) sample_access sample_outage a_begin sample_begin _ _ _ (document_sample_inv e Hrun) Hstep)
    as (_ & before & _ & _ & Hat & Ho & _). exists before. split; [exact Hat|exact Ho].
Defined.

Definition sample_query : ListDocumentsQuery := mkListDocuments (js "token") (sample_uuid "9") (Some (js "10")) None.

Lemma listing_complete_witness :
  exists e pages, browse (served (fun _ _ => 0) sample_access sample_outage sample_query (withDocument sample_new e empty_world)) None pages
    /\ concat pages = ordered documentKey (documentsOf (sample_uuid "9") (withDocument sample_new e empty_world)).
Proof.
  destruct document_sample_created as [e Hrun]. exists e.
  destruct (listing_complete (fun _ _ => 0) sample_access sample_outage sample_query 10 (mkAccess (sample_uuid "9") (sample_uuid "8") owner)
    (withDocument sample_new e empty_world) (document_sample_inv e Hrun)) as [[pages Hb] Hall];
    [vm_compute; reflexivity|vm_compute; reflexivity|reflexivity|].
  exists pages. split; [exact Hb|]. exact (proj1 (Hall pages Hb)).
Defined.
End DocumentWorld.
