(* ===== verification/AuditDomain.v ===== *)
(** * Audit entries: [modules/audit/domain] and the stored form of their
    provenance ([infra/postgres/codec.ts], [infra/postgres/adapters.ts]).

    An entry copies the provenance of the event it records.  The copies are not
    the objects the provenance module built, so its checks refuse them; what the
    codec writes and reads back is built anew, and passes. *)
From S2P Require Import Prelude JsMap Errors Ids Json Provenance Events.

(** ** Entries. *)
Module Audit.

(** @src src/modules/audit/domain/audit-entry.ts:16-19 AuditSubject *)
Record AuditSubject : Type := mkSubject { su_kind : jstring; su_id : ID }.

#[export] Instance AuditSubject_eq_dec : EqDecision AuditSubject.
Proof. solve_decision. Defined.

(** @src src/modules/audit/domain/audit-entry.ts:21-31 RecordAuditEntryInput *)
Record RecordInput : Type := mkRecordInput {
  ri_id : ID; ri_eventId : ID; ri_eventType : jstring; ri_occurredAt : Date; ri_recordedAt : Date;
  ri_work : WorkContext; ri_subject : option AuditSubject; ri_tenant : option ID
}.

(** @src src/modules/audit/domain/audit-entry.ts:33-43 RestoreAuditEntryInput *)
Record RestoreInput : Type := mkRestoreInput {
  re_id : ID; re_eventId : ID; re_eventType : jstring; re_occurredAt : Date; re_recordedAt : Date;
  re_work : Work; re_subject : option AuditSubject; re_tenant : option ID
}.

(** @src src/modules/audit/domain/audit-entry.ts:53-63 AuditEntryState *)
Record AuditEntry : Type := mkEntry {
  ae_id : ID; ae_eventId : ID; ae_eventType : jstring; ae_occurredAt : Date; ae_recordedAt : Date;
  ae_work : Work; ae_subject : option AuditSubject; ae_tenant : option ID
}.

(** @src src/modules/audit/domain/audit-entry.ts:73-75 copyActor
    A copy is a new object: the provenance module does not know it. *)
Definition copyActor (a : Actor) : Actor := mkActor false a.(a_kind) a.(a_identity).

Definition copyReference (r : Reference) : Reference := mkReference false r.(f_kind) r.(f_id).

(** @src src/modules/audit/domain/audit-entry.ts:77-97 copyWork
    The references are copied as [{ ...work.causation }] and
    [{ ...work.replay.source }]. *)
Definition copyWork (w : Work) : Work :=
  mkWork w.(w_workId) w.(w_correlationId) w.(w_correlationSource) (copyReference <$> w.(w_causation)) w.(w_origin) w.(w_operation)
    (mkAttribution false (copyActor <$> w.(w_attribution).(t_initiator)) (copyActor <$> w.(w_attribution).(t_onBehalfOf))
       w.(w_attribution).(t_tenant))
    w.(w_depth)
    ((fun p => mkReplay p.(p_runId) (copyReference <$> p.(p_source))) <$> w.(w_replay)).

(** @src src/modules/audit/domain/audit-entry.ts:99-104 invalid *)
Definition invalid (message type : string) : Failure := typedFailure Errors.invalid type message noOptions.

(** @src src/modules/audit/domain/audit-entry.ts:111-149 record *)
Definition record (input : RecordInput) : Res AuditEntry :=
  if negb (validDate input.(ri_occurredAt)) || negb (validDate input.(ri_recordedAt)) then
    Err (invalid "audit times must be valid" "audit.invalid_time")
  else if negb (Events.isEventType input.(ri_eventType)) then
    Err (invalid "audit event type is invalid" "audit.invalid_event_type")
  else if match input.(ri_subject) with Some s => negb (matchesName 63 s.(su_kind)) | None => false end then
    Err (invalid "audit subject is invalid" "audit.invalid_subject")
  else
    Ok (mkEntry input.(ri_id) input.(ri_eventId) input.(ri_eventType) (copyDate input.(ri_occurredAt))
          (copyDate input.(ri_recordedAt)) (copyWork (snapshot input.(ri_work))) input.(ri_subject) input.(ri_tenant)).

(** @src src/modules/audit/domain/audit-entry.ts:151-166 restore *)
Definition restore (input : RestoreInput) : Res AuditEntry :=
  match restoreWork input.(re_work) with
  | Err error =>
      Err (typedFailure Errors.invalid "audit.invalid_provenance" "audit provenance is invalid"
             (mkOptions None None [] (CFailure error)))
  | Ok work =>
      record (mkRecordInput input.(re_id) input.(re_eventId) input.(re_eventType) input.(re_occurredAt)
        input.(re_recordedAt) work input.(re_subject) input.(re_tenant))
  end.

(** @src src/modules/audit/domain/audit-entry.ts:188-190 provenance *)
Definition provenance (e : AuditEntry) : Work := copyWork e.(ae_work).

(** What every entry satisfies. *)
Record wf (e : AuditEntry) : Prop := mkWf {
  wf_occurredAt : validDate e.(ae_occurredAt) = true;
  wf_recordedAt : validDate e.(ae_recordedAt) = true;
  wf_type : Events.isEventType e.(ae_eventType) = true;
  wf_subject : forall s, e.(ae_subject) = Some s -> matchesName 63 s.(su_kind) = true;
  wf_work : exists w, e.(ae_work) = copyWork w /\ Events.wfContext (mkContext w)
}.

Lemma copyWork_idemp w : copyWork (copyWork w) = copyWork w.
Proof.
  destruct w as [wi ci cs ca o op [k i b t] d p]. unfold copyWork. cbn. f_equal; [by destruct ca|f_equal; [by destruct i|by destruct b]|].
  destruct p as [[rid [src|]]|]; done.
Qed.

(** What [record] accepts, and what it makes of it. *)
Lemma record_ok input e :
  record input = Ok e <->
  validDate input.(ri_occurredAt) = true /\ validDate input.(ri_recordedAt) = true
  /\ Events.isEventType input.(ri_eventType) = true
  /\ (forall s, input.(ri_subject) = Some s -> matchesName 63 s.(su_kind) = true)
  /\ e = mkEntry input.(ri_id) input.(ri_eventId) input.(ri_eventType) input.(ri_occurredAt) input.(ri_recordedAt)
           (copyWork (snapshot input.(ri_work))) input.(ri_subject) input.(ri_tenant).
Proof.
  unfold record. destruct (validDate (ri_occurredAt input)) eqn:E1; [|naive_solver].
  destruct (validDate (ri_recordedAt input)) eqn:E2; [|naive_solver]. cbn [negb orb].
  destruct (Events.isEventType _) eqn:E3; [|naive_solver]. cbn [negb].
  rewrite !copyDate_valid by done.
  destruct (ri_subject input) as [s|] eqn:Es; [destruct (matchesName 63 (su_kind s)) eqn:E4|]; cbn [negb]; split;
    try (intros [= <-]; split_and!; try done; by intros ? [= <-]); try (by intros (_ & _ & _ & _ & ->)); try done.
  intros (_ & _ & _ & Hs & _). by rewrite Hs in E4.
Qed.

(** The provenance module does not take an entry's copy for a work of its own:
    [restore] refuses what [provenance] returns. *)
Lemma own_provenance_refused e input :
  input.(re_work) = provenance e ->
  exists f, restore input = Err f /\ f_type f = Some "audit.invalid_provenance"%string.
Proof.
  intros Hw. unfold restore. destruct (restoreWork (re_work input)) as [c|f] eqn:E; [|by eexists].
  apply restoreWork_ok in E as [_ Hv]. exfalso. rewrite Hw in Hv. unfold validateWork in Hv.
  repeat (match type of Hv with (if ?b then _ else _) = None =>
    match b with context [validAttribution] => fail 1 | _ => destruct b; [done|] end end). done.
Qed.

(** What was recorded is well formed; restoring gives back the same entry from a
    work the provenance module built. *)
Lemma record_wf input e : Events.wfContext input.(ri_work) -> record input = Ok e -> wf e.
Proof.
  intros Hw (H1 & H2 & H3 & H4 & ->)%record_ok. constructor; cbn; try done.
  exists (snapshot input.(ri_work)). split; [done|by destruct (ri_work input)].
Qed.

Lemma audit_wf_restore e w :
  wf e -> e.(ae_work) = copyWork w -> Events.wfContext (mkContext w) ->
  restore (mkRestoreInput e.(ae_id) e.(ae_eventId) e.(ae_eventType) e.(ae_occurredAt) e.(ae_recordedAt) w e.(ae_subject) e.(ae_tenant)) = Ok e.
Proof.
  intros [] Hw [_ Hv]. unfold restore. cbn [re_work]. unfold restoreWork. cbn in Hv. rewrite Hv.
  apply record_ok. cbn. split_and!; try done. rewrite <- Hw. by destruct e.
Qed.
End Audit.

(** ** The stored provenance: [infra/postgres/codec.ts]. *)
Module AuditCodec.
Import Audit.

(** @src src/modules/audit/infra/postgres/codec.ts:25-28 invalid *)
Definition invalid : Failure := fail_with internal "stored audit provenance is invalid" "audit.persistence_invalid".

(** @src src/modules/audit/infra/postgres/codec.ts:36-38 text *)
Definition text (value : JsValue) : option jstring := match value with VStr s => Some s | _ => None end.

(** @src src/modules/audit/infra/postgres/codec.ts:30-34 object *)
Definition object (value : JsValue) : option (list (string * JsValue)) :=
  match value with VObj ms => Some ms | _ => None end.

(** [if (x === undefined) return err(invalid())]. *)
Definition some_or {A} (o : option A) : Res A := match o with Some x => Ok x | None => Err invalid end.

(** [if (!r.ok) return err(invalid())]. *)
Definition orInvalid {A} (r : Res A) : Res A := mapError r (fun _ => invalid).

(** [!s]: absent, or empty. *)
Definition nonEmpty (s : option jstring) : option jstring :=
  match s with Some (_ :: _) => s | _ => None end.

(** @src src/modules/audit/infra/postgres/codec.ts:40-43 storedId *)
Definition storedId (value : JsValue) : Res ID := candidate ← some_or (text value); parse (VStr candidate).

(** @src src/modules/audit/infra/postgres/codec.ts:45-54 actorFrom *)
Definition actorFrom (value : JsValue) : Res (option Actor) :=
  if nullish value then Ok None
  else
    input ← some_or (object value);
    if bool_decide (text (field "kind" input) = Some (js "anonymous")) then Ok (Some anonymous)
    else
      kind ← some_or (nonEmpty (text (field "kind" input)));
      identity ← some_or (text (field "identity" input));
      a ← actor kind identity;
      Ok (Some a).

(** @src src/modules/audit/infra/postgres/codec.ts:56-64 referenceFrom *)
Definition referenceFrom (value : JsValue) : Res (option Reference) :=
  if nullish value then Ok None
  else
    input ← some_or (object value);
    kind ← some_or (nonEmpty (text (field "kind" input)));
    id ← orInvalid (storedId (field "id" input));
    r ← reference kind id;
    Ok (Some r).

(** @src src/modules/audit/infra/postgres/codec.ts:66-87 encodeWork *)
Definition encodeWork (w : Work) : JsValue :=
  VObj [("work_id"%string, Events.orUndefined VStr w.(w_workId));
        ("correlation_id"%string, Events.orUndefined VStr w.(w_correlationId));
        ("correlation_source"%string, VStr w.(w_correlationSource));
        ("operation"%string, VStr w.(w_operation));
        ("attribution"%string, VObj
           [("initiator"%string, Events.orUndefined Events.actorOut w.(w_attribution).(t_initiator));
            ("on_behalf_of"%string, Events.orUndefined Events.actorOut w.(w_attribution).(t_onBehalfOf));
            ("tenant"%string, Events.orUndefined VStr w.(w_attribution).(t_tenant))]);
        ("causation"%string, Events.orUndefined Events.referenceOut w.(w_causation));
        ("origin"%string, Events.orUndefined VStr w.(w_origin));
        ("depth"%string, Events.orUndefined VNum w.(w_depth));
        ("replay"%string, Events.orUndefined (fun p =>
           VObj [("run_id"%string, Events.orUndefined VStr p.(p_runId));
                 ("source"%string, Events.orUndefined Events.referenceOut p.(p_source))]) w.(w_replay))].

(** @src src/modules/audit/infra/postgres/codec.ts:124-133 decodeWork (replay) *)
Definition replayFrom (value : JsValue) : Res (option ReplayInfo) :=
  if nullish value then Ok None
  else
    raw ← some_or (object value);
    runId ← orInvalid (storedId (field "run_id" raw));
    found ← orInvalid (referenceFrom (field "source" raw));
    source ← some_or found;
    Ok (Some (mkReplay (Some runId) (Some source))).

(** [input.origin as Origin]: a value of another type is no origin. *)
Definition originFrom (value : JsValue) : option jstring :=
  match value with VUndefined => None | VStr s => Some s | _ => Some [] end.

(** @src src/modules/audit/infra/postgres/codec.ts:89-146 decodeWork *)
Definition decodeWork (value : JsValue) : Res WorkContext :=
  input ← some_or (object value);
  rawAttribution ← some_or (object (field "attribution" input));
  workId ← orInvalid (storedId (field "work_id" input));
  correlationId ← orInvalid (storedId (field "correlation_id" input));
  operationValue ← some_or (nonEmpty (text (field "operation" input)));
  source ← some_or (nonEmpty (text (field "correlation_source" input)));
  initiator ← orInvalid (actorFrom (field "initiator" rawAttribution));
  onBehalfOf ← orInvalid (actorFrom (field "on_behalf_of" rawAttribution));
  causation ← orInvalid (referenceFrom (field "causation" input));
  op ← orInvalid (operation operationValue);
  att ← orInvalid (attribution (mkSpec initiator onBehalfOf (text (field "tenant" rawAttribution))));
  replay ← replayFrom (field "replay" input);
  restoreWork
    {| w_workId := Some workId; w_correlationId := Some correlationId; w_correlationSource := source;
       w_causation := causation; w_origin := originFrom (field "origin" input); w_operation := op;
       w_attribution := att;
       w_depth := match field "depth" input with VUndefined => None | v => Some (Events.asNumber v) end;
       w_replay := replay |}.

(** Copies spell the same text. *)
Lemma actorOut_copy o : Events.orUndefined Events.actorOut (copyActor <$> o) = Events.orUndefined Events.actorOut o.
Proof. by destruct o. Qed.

Lemma referenceOut_copy o : Events.orUndefined Events.referenceOut (copyReference <$> o) = Events.orUndefined Events.referenceOut o.
Proof. by destruct o. Qed.

Lemma encodeWork_copy w : encodeWork (copyWork w) = encodeWork w.
Proof.
  unfold encodeWork, copyWork. cbn. rewrite !actorOut_copy, referenceOut_copy. destruct (w_replay w) as [p|]; [|done]. cbn.
  by rewrite referenceOut_copy.
Qed.

Lemma storedId_wire id : validID id = true -> orInvalid (storedId (Events.onWire (Events.orUndefined VStr (Some id)))) = Ok id.
Proof. intros Hid. unfold storedId. cbn -[parse]. by rewrite Events.validID_parse. Qed.

Lemma nonEmpty_some s : s <> [] -> nonEmpty (Some s) = Some s.
Proof. by destruct s. Qed.

Lemma actorFrom_wire o :
  (forall a, o = Some a -> Events.genuineActor a) -> orInvalid (actorFrom (Events.onWire (Events.orUndefined Events.actorOut o))) = Ok o.
Proof.
  intros Ho. destruct o as [a|]; [|done]. rewrite Events.onWire_orUndefined by done. destruct (Ho a eq_refl) as (k & i & Ha).
  assert (Ha' := Ha). unfold actor in Ha. destruct (_ || _) eqn:E; [done|].
  destruct (isLit k "anonymous") eqn:Ek; injection Ha as <-.
  - apply bool_decide_eq_true in Ek as ->. reflexivity.
  - assert (Hk : k <> []) by (intros ->; by cbn in E).
    change (actorFrom _) with
      (if bool_decide (Some k = Some (js "anonymous")) then Ok (Some anonymous)
       else kind ← some_or (nonEmpty (Some k)); identity ← some_or (Some i); a ← actor kind identity; Ok (Some a)).
    rewrite bool_decide_false by (intros [= ->]; by apply bool_decide_eq_false in Ek).
    rewrite nonEmpty_some by done. cbn [some_or mbind Result_bind]. by rewrite Ha'.
Qed.

Lemma referenceFrom_wire o :
  (forall r, o = Some r -> Events.genuineReference r) ->
  orInvalid (referenceFrom (Events.onWire (Events.orUndefined Events.referenceOut o))) = Ok o.
Proof.
  intros Ho. destruct o as [r|]; [|done]. rewrite Events.onWire_orUndefined by done. pose proof (Ho r eq_refl) as Hr.
  assert (Hr' := Hr). unfold Events.genuineReference, reference in Hr. destruct (_ || _) eqn:E; [done|].
  apply orb_false_iff in E as [Ek Hid%negb_false_iff].
  change (referenceFrom _) with
    (kind ← some_or (nonEmpty (Some (f_kind r))); id ← orInvalid (parse (VStr (f_id r))); x ← reference kind id; Ok (Some x)).
  rewrite nonEmpty_some by (intros Hk; rewrite Hk in Ek; by cbn in Ek). cbn [some_or mbind Result_bind].
  rewrite Events.validID_parse by done. cbn [orInvalid mapError mbind Result_bind]. by rewrite Hr'.
Qed.

Lemma origin_wire o : originFrom (Events.onWire (Events.orUndefined VStr o)) = o.
Proof. by destruct o. Qed.

Lemma text_wire o : text (Events.onWire (Events.orUndefined VStr o)) = o.
Proof. by destruct o. Qed.

Lemma replay_wire o :
  (forall p, o = Some p -> exists rid src, p.(p_runId) = Some rid /\ p.(p_source) = Some src /\ validID rid = true /\ Events.genuineReference src) ->
  replayFrom (Events.onWire (Events.orUndefined Events.replayOut o)) = Ok o.
Proof.
  intros Ho. destruct o as [p|]; [|done]. destruct (Ho p eq_refl) as (rid & src & Hr & Hs & Hid & Hg).
  change (replayFrom _) with
    (runId ← orInvalid (storedId (field "run_id" (jsonMembers (Events.replayMembers p))));
     found ← orInvalid (referenceFrom (field "source" (jsonMembers (Events.replayMembers p))));
     source ← some_or found; Ok (Some (mkReplay (Some runId) (Some source)))).
  destruct (Events.field_replay p) as [-> ->]. rewrite Hr, Hs, storedId_wire by done. cbn [mbind Result_bind].
  rewrite referenceFrom_wire by (by intros r [= <-]). cbn. destruct p; cbn in *; by subst.
Qed.

Lemma source_nonempty w : validateWork w false = None -> w.(w_correlationSource) <> [].
Proof.
  unfold validateWork. intros Hv Hs. rewrite Hs in Hv.
  change (isLit [] "local" || isLit [] "external") with false in Hv. by rewrite orb_true_r in Hv.
Qed.

(** The stored provenance of an entry is read back as the work it copied. *)
Lemma decodeWork_encodeWork w :
  Events.wfContext (mkContext w) -> decodeWork (jsonValue (encodeWork (copyWork w))) = Ok (mkContext w).
Proof.
  intros [[[Hatt [Hini Hbeh]] Hca Hso _] Hv]. cbn in Hatt, Hini, Hbeh, Hca, Hso, Hv. rewrite encodeWork_copy.
  destruct (Events.validateWork_none w Hv) as ((a & b & Ha & Hb & Hva & Hvb) & Hop & Hrep & Hde).
  destruct (Events.field_work w) as (F1 & F2 & F3 & F4 & F5 & F6 & F7 & F8 & F9).
  destruct (Events.field_attribution (w_attribution w)) as (A1 & A2 & A3).
  unfold decodeWork. change (jsonValue (encodeWork w)) with (VObj (jsonMembers (Events.workMembers w))).
  cbn [object some_or mbind Result_bind]. rewrite F1, F2, F3, F4, F5, F6, F7, F8, F9.
  cbn [object some_or mbind Result_bind]. rewrite A1, A2, A3, Ha, Hb, !storedId_wire by done. cbn [mbind Result_bind text].
  rewrite (nonEmpty_some (w_operation w)) by (intros Hn; rewrite Hn in Hop; by cbn in Hop).
  rewrite (nonEmpty_some (w_correlationSource w)) by (by apply source_nonempty). cbn [some_or mbind Result_bind].
  rewrite !actorFrom_wire by done. cbn [mbind Result_bind]. rewrite referenceFrom_wire by done. cbn [mbind Result_bind].
  unfold operation. rewrite Hop. cbn [orInvalid mapError mbind Result_bind]. rewrite text_wire, Hatt.
  cbn [orInvalid mapError mbind Result_bind]. rewrite replay_wire.
  2: { intros p Hp. destruct (Hrep p Hp) as (rid & src & Hrid & Hsrc & Hid). exists rid, src. split_and!; eauto. }
  cbn [mbind Result_bind]. rewrite origin_wire.
  assert (Hd : match Events.onWire (Events.orUndefined VNum (w_depth w)) with VUndefined => None | v => Some (Events.asNumber v) end = w_depth w).
  { destruct (w_depth w) as [d|]; [|done]. cbn. by rewrite (Hde d eq_refl). }
  rewrite Hd, <- Ha, <- Hb.
  assert (mkWork (w_workId w) (w_correlationId w) (w_correlationSource w) (w_causation w) (w_origin w)
    (w_operation w) (w_attribution w) (w_depth w) (w_replay w) = w) as -> by (by destruct w).
  unfold restoreWork. by rewrite Hv.
Qed.

(** ** Rows: [infra/postgres/adapters.ts]. *)

(** @src src/modules/audit/infra/postgres/adapters.ts:19-29 AuditRow *)
Record AuditRow : Type := mkRow {
  ar_id : jstring; ar_event_id : jstring; ar_event_type : jstring; ar_occurred_at : Date; ar_recorded_at : Date;
  ar_work_context : JsValue; ar_subject_kind : option jstring; ar_subject_id : option jstring; ar_tenant_id : option jstring
}.

Definition persistence (message : string) : Failure := fail_with internal message "audit.persistence_invalid".

(** @src src/modules/audit/infra/postgres/adapters.ts:31-40 id
    A value that is no string is [None]. *)
Definition idFrom (value : option jstring) : Res ID :=
  match value with
  | Some s => parse (VStr s)
  | None => Err (persistence "stored audit ID is invalid")
  end.

(** @src src/modules/audit/infra/postgres/adapters.ts:54-65 entryFrom (subject) *)
Definition subjectFrom (kind id : option jstring) : Res (option AuditSubject) :=
  match kind, id with
  | None, None => Ok None
  | _, _ =>
      match kind, idFrom id with
      | Some kind, Ok id => Ok (Some (mkSubject kind id))
      | _, _ => Err (persistence "stored audit subject is invalid")
      end
  end.

(** @src src/modules/audit/infra/postgres/adapters.ts:67-74 entryFrom (tenant) *)
Definition tenantFrom (tenant : option jstring) : Res (option ID) :=
  match tenant with
  | None => Ok None
  | Some t => id ← mapError (idFrom (Some t)) (fun _ => persistence "stored audit tenant is invalid"); Ok (Some id)
  end.

(** @src src/modules/audit/infra/postgres/adapters.ts:42-86 entryFrom *)
Definition entryFrom (row : AuditRow) : Res AuditEntry :=
  match idFrom (Some row.(ar_id)), idFrom (Some row.(ar_event_id)), decodeWork row.(ar_work_context) with
  | Ok entryId, Ok eventId, Ok work =>
      subject ← subjectFrom row.(ar_subject_kind) row.(ar_subject_id);
      tenant ← tenantFrom row.(ar_tenant_id);
      restore (mkRestoreInput entryId eventId row.(ar_event_type) row.(ar_occurred_at) row.(ar_recorded_at)
        (snapshot work) subject tenant)
  | _, _, _ => Err (persistence "stored audit entry is invalid")
  end.

(** @src src/modules/audit/infra/postgres/adapters.ts:111-121 record (the values inserted)
    The work context as the text stored in the column parses. *)
Definition columns (e : AuditEntry) : AuditRow :=
  mkRow e.(ae_id) e.(ae_eventId) e.(ae_eventType) e.(ae_occurredAt) e.(ae_recordedAt)
    (jsonValue (encodeWork (provenance e))) (su_kind <$> e.(ae_subject)) (su_id <$> e.(ae_subject)) e.(ae_tenant).

(** The identifiers of an entry are canonical. *)
Definition identified (e : AuditEntry) : Prop :=
  validID e.(ae_id) = true /\ validID e.(ae_eventId) = true
  /\ (forall s, e.(ae_subject) = Some s -> validID s.(su_id) = true)
  /\ (forall t, e.(ae_tenant) = Some t -> validID t = true).

(** A stored audit entry is read back as it was recorded. For every entry
    the module can hold, reading the row it inserts succeeds and gives the same
    entry: its identifiers, times, type, subject, tenant, and every part of its
    provenance, replays and causes included. This is so although the snapshot
    an entry shows is itself refused by [restore], because its parts are copies:
    the codec builds them anew. *)
Theorem audit_row_restores (e : AuditEntry) (Hwf : wf e) (Hids : identified e) :
  entryFrom (columns e) = Ok e
  /\ exists f, restore (mkRestoreInput e.(ae_id) e.(ae_eventId) e.(ae_eventType) e.(ae_occurredAt) e.(ae_recordedAt)
       (provenance e) e.(ae_subject) e.(ae_tenant)) = Err f /\ f_type f = Some "audit.invalid_provenance"%string.
Proof.
  split; [|by apply (own_provenance_refused e)]. destruct Hids as (Hi & He & Hs & Ht). pose proof Hwf as [_ _ _ _ (w & Hw & Hg)].
  unfold entryFrom, columns.
  cbn [ar_id ar_event_id ar_event_type ar_occurred_at ar_recorded_at ar_work_context ar_subject_kind ar_subject_id ar_tenant_id idFrom].
  rewrite !Events.validID_parse by done.
  unfold provenance. rewrite Hw, copyWork_idemp, decodeWork_encodeWork by done.
  assert (Hsub : subjectFrom (su_kind <$> e.(ae_subject)) (su_id <$> e.(ae_subject)) = Ok e.(ae_subject)).
  { destruct (ae_subject e) as [[k i]|]; [|done]. unfold subjectFrom. cbn -[parse]. by rewrite Events.validID_parse by by apply (Hs _ eq_refl). }
  assert (Hten : tenantFrom e.(ae_tenant) = Ok e.(ae_tenant)).
  { destruct (ae_tenant e) as [t|]; [|done]. unfold tenantFrom. cbn -[parse]. by rewrite Events.validID_parse by by apply Ht. }
  rewrite Hsub, Hten. cbn [mbind Result_bind snapshot]. by apply audit_wf_restore.
Qed.

Definition sample_entry : AuditEntry :=
  mkEntry (sample_uuid "a") (sample_uuid "4") (js "job.submitted.v1") (DateAt 1000) (DateAt 2000) (copyWork sample_work)
    (Some (mkSubject (js "job") (sample_uuid "3"))) (Some (sample_uuid "9")).

Lemma audit_row_restores_witness : entryFrom (columns sample_entry) = Ok sample_entry.
Proof.
  apply (audit_row_restores sample_entry).
  - constructor; [reflexivity|reflexivity|vm_compute; reflexivity|intros s [= <-]; vm_compute; reflexivity|].
    exists sample_work. split; [reflexivity|exact Events.sample_genuine].
  - split; [vm_compute; reflexivity|]. split; [vm_compute; reflexivity|].
    split; [intros s [= <-]; vm_compute; reflexivity|intros t [= <-]; vm_compute; reflexivity].
Defined.
End AuditCodec.
