(* ===== verification/AuditApp.v ===== *)
(** * The audit application: [modules/audit/app] over [infra/in-memory].

    The audit trail is an append-only list indexed by the event it records.  The
    command that records an event runs for every event of the application, at
    least once, and together with others; the queries page through the trail of
    one organization. *)
From stdpp Require Import relations pretty.
From S2P Require Import Prelude Async JsMap Errors Ids IsoDate Json Pagination Provenance Events Commands Writers AuditDomain.

Module AuditFailures.

(** @src src/modules/audit/app/failures.ts:32-57 knownFailure *)
Definition knownTypes : list (string * Kind) :=
  [("audit.event_id_reused", conflict); ("audit.invalid_subject", Errors.invalid);
   ("audit.id_generation", unavailable); ("audit.persistence_invalid", internal)]%string.

(** @src src/modules/audit/app/failures.ts:59-91 dependencyFailure *)
Definition dependencyFailure (error : Failure) (operation : string) : Failure :=
  Vocabulary.dependencyIn "audit" "Audit" knownTypes error operation.

(** @src src/modules/audit/app/failures.ts:93-98 idGenerationFailure *)
Definition idGenerationFailure (error : Failure) : Failure :=
  Vocabulary.idGenerationIn "audit.id_generation" "Audit ID generation failed" error.
End AuditFailures.

(** ** The store. *)
Module AuditStore.
Import Audit.

(** @src src/modules/audit/infra/in-memory/store.ts:4-6 InMemoryAuditStore *)
Record Trail : Type := mkTrail { byEventId : list (ID * AuditEntry); entries : list AuditEntry }.

Definition emptyTrail : Trail := mkTrail [] [].

(** @src src/modules/audit/infra/in-memory/store.ts:8-10 findByEventId *)
Definition findByEventId (eventId : ID) (s : Trail) : option AuditEntry := JsMap.get eventId s.(byEventId).

(** @src src/modules/audit/infra/in-memory/store.ts:12-15 add *)
Definition add (e : AuditEntry) (s : Trail) : Trail :=
  mkTrail (JsMap.set e.(ae_eventId) e s.(byEventId)) (s.(entries) ++ [e]).

(** @src src/modules/audit/app/ports/audit-entry-writer.ts:4-7 AuditWriteResult *)
Record WriteResult : Type := mkWritten { wr_entry : AuditEntry; wr_created : bool }.

(** @src src/modules/audit/infra/in-memory/adapters.ts:11-16 InMemoryAuditEntryWriter.record *)
Definition recordEntry (e : AuditEntry) (s : Trail) : WriteResult * Trail :=
  match findByEventId e.(ae_eventId) s with
  | Some existing => (mkWritten existing false, s)
  | None => (mkWritten e true, add e s)
  end.

(** @src src/modules/audit/infra/in-memory/adapters.ts:22-24 InMemoryAuditEntryReader.list
    [slice(-1000)]: the last thousand. *)
Definition list_ (s : Trail) : list AuditEntry := drop (length s.(entries) - 1000) s.(entries).

(** @src src/modules/audit/infra/in-memory/adapters.ts:33-33 listForTenant (key) *)
Definition entryKey (e : AuditEntry) : After := mkAfter e.(ae_recordedAt) e.(ae_id).

(** @src src/modules/audit/infra/in-memory/adapters.ts:26-37 InMemoryAuditEntryReader.listForTenant *)
Definition listForTenant (tenant : ID) (page : PageRequest) (s : Trail) : list AuditEntry :=
  keysetPage (filter (fun e => e.(ae_tenant) = Some tenant) s.(entries)) entryKey page.
End AuditStore.

(** ** Ports, commands and queries. *)
Module AuditPorts.
Import Audit AuditStore.

(** @src src/modules/audit/app/ports/organization-access-reader.ts:5-5 AuditOrganizationRole *)
Inductive Role : Type := owner | admin | member.
(** @src src/modules/audit/app/ports/organization-access-reader.ts:7-11 AuditOrganizationAccess *)
Record Access : Type := mkAccess { ac_organizationId : ID; ac_identityId : ID; ac_role : Role }.

Inductive Op : Type :=
| now
| newId
| record (entry : AuditEntry)
| listAll
| listTenant (tenant : ID) (page : PageRequest)
| findAccess (sessionToken : jstring) (organizationId : ID).

Definition Ans (op : Op) : Type :=
  match op with
  | now => Date
  | newId => Res ID
  | record _ => Res WriteResult
  | listAll | listTenant _ _ => Res (list AuditEntry)
  | findAccess _ _ => Res (option Access)
  end.
End AuditPorts.

Module AuditCommands.
Import Audit AuditStore AuditPorts AuditFailures.
#[local] Open Scope prog_scope.

Definition Command (A : Type) : Type := Prog Ans (Res A).

Definition depends {A} (operation : string) (p : Command A) : Command A :=
  orElse (fun e => dependencyFailure e operation) p.

(** @src src/modules/audit/app/commands/record-audit-event.ts:23-27 RecordAuditEventResult *)
Record Recorded : Type := mkRecorded { rc_auditEntryId : ID; rc_eventId : ID; rc_created : bool }.

(** @src src/modules/audit/app/commands/record-audit-event.ts:45-47 execute (subject) *)
Definition subjectOf (event : Events.Envelope) : option AuditSubject :=
  (fun s => mkSubject s.(Events.b_kind) s.(Events.b_id)) <$> event.(Events.e_subject).

(** @src src/modules/audit/app/commands/record-audit-event.ts:40-77 execute *)
Definition recordAuditEvent (event : Events.Envelope) : Command Recorded :=
  id ⟵ orElse idGenerationFailure (perform newId);
  bind (perform now) (fun recordedAt =>
  entry ⟵ pure_ (Audit.record (mkRecordInput id event.(Events.e_id) event.(Events.e_type)
    (newDate event.(Events.e_occurredAtMs)) recordedAt event.(Events.e_work) (subjectOf event) event.(Events.e_tenant)));
  recorded ⟵ depends "audit.record" (perform (record entry));
  Ret (Ok (mkRecorded recorded.(wr_entry).(ae_id) recorded.(wr_entry).(ae_eventId) recorded.(wr_created)))).

(** @src src/modules/audit/app/queries/list-audit-entries.ts:10-21 AuditEntryView *)
Record View : Type := mkView {
  av_auditEntryId : ID; av_eventId : ID; av_eventType : jstring; av_occurredAt : Date; av_recordedAt : Date;
  av_workId : option ID; av_correlationId : option ID; av_operation : jstring; av_initiator : option Actor;
  av_subject : option AuditSubject
}.

(** @src src/modules/audit/app/queries/list-audit-entries.ts:27-41 view *)
Definition view (e : AuditEntry) : View :=
  let work := provenance e in
  mkView e.(ae_id) e.(ae_eventId) e.(ae_eventType) (copyDate e.(ae_occurredAt)) (copyDate e.(ae_recordedAt))
    work.(w_workId) work.(w_correlationId) work.(w_operation) work.(w_attribution).(t_initiator) e.(ae_subject).

(** @src src/modules/audit/app/queries/list-audit-entries.ts:48-53 execute *)
Definition listAuditEntries : Command (list View) :=
  found ⟵ depends "audit.list" (perform listAll);
  Ret (Ok (view <$> found)).

(** @src src/modules/audit/app/queries/list-organization-audit-entries.ts:9-17 ListOrganizationAuditEntriesQuery *)
Record ListQuery : Type := mkListQuery {
  lq_sessionToken : jstring; lq_organizationId : ID; lq_limit : option jstring; lq_cursor : option jstring
}.

(** @src src/modules/audit/app/queries/list-organization-audit-entries.ts:40-48 execute *)
Definition accessForbidden : Failure :=
  typedFailure forbidden "audit.access_forbidden" "only organization owners and admins can read the audit trail" noOptions.

(** @src src/modules/audit/app/queries/list-organization-audit-entries.ts:52-54 execute *)
Definition invalidPage : Failure := typedFailure Errors.invalid "audit.invalid_page" "page size or cursor is invalid" noOptions.

(** @src src/modules/audit/app/queries/list-organization-audit-entries.ts:40-40 execute (the test, negated) *)
Definition mayRead (access : option Access) : bool :=
  match access with
  | Some a => match a.(ac_role) with owner | admin => true | member => false end
  | None => false
  end.

(** @src src/modules/audit/app/queries/list-organization-audit-entries.ts:50-50 execute *)
Definition auditScope (organizationId : ID) : jstring := js "audit:" ++ organizationId.

(** @src src/modules/audit/app/queries/list-organization-audit-entries.ts:31-66 execute *)
Definition listOrganizationAuditEntries (query : ListQuery) : Command (Page View) :=
  access ⟵ depends "organization.access.find" (perform (findAccess query.(lq_sessionToken) query.(lq_organizationId)));
  _ ⟵ require (mayRead access) accessForbidden;
  let scope := auditScope query.(lq_organizationId) in
  page ⟵ orElse (fun _ => invalidPage) (pure_ (request scope query.(lq_limit) query.(lq_cursor)));
  found ⟵ depends "audit.listForTenant" (perform (listTenant query.(lq_organizationId) page));
  windowed ⟵ depends "pagination.window"
    (Ret (window found (Int page.(limit)) scope (fun e => position e.(ae_recordedAt) e.(ae_id))));
  Ret (Ok (mkPage (view <$> windowed.(items)) windowed.(hasMore) windowed.(nextCursor))).
End AuditCommands.

(** ** The world. *)
Module AuditWorld.
Import Audit AuditStore AuditPorts AuditCommands AuditFailures.

Section Exec.
  (** What the organization module answers about a session, and the failures of
      unreliable dependencies. *)
  Context (accessOf : jstring -> ID -> Res (option Access) -> Prop) (outage : Failure -> Prop).

(** The ports: the reader and the writer over the trail, any clock, and
    identifiers in canonical form.  Identifiers are unique
    ([Ids.newIds_strictly_increasing]): an entry is not recorded under the
    identifier of another, which the writer does not check. *)
Definition exec (op : Op) : Trail -> Ans op -> Trail -> Prop :=
  match op with
  | now => fun w r w' => w' = w
  | newId => fun w r w' => (forall id, r = Ok id -> matchesShape canonical id = true) /\ w' = w
  | record e => fun w r w' =>
      ((e.(ae_id) ∉ (ae_id <$> w.(entries))) /\ r = Ok (recordEntry e w).1 /\ w' = (recordEntry e w).2)
      \/ (exists f, r = Err f /\ outage f /\ w' = w)
  | listAll => fun w r w' => answers outage (list_ w) r /\ w' = w
  | listTenant tenant page => fun w r w' => answers outage (listForTenant tenant page w) r /\ w' = w
  | findAccess token organizationId => fun w r w' => accessOf token organizationId r /\ w' = w
  end.

(** The index finds the entries, one for each event; every entry is well formed. *)
Record Inv (w : Trail) : Prop := mkInv {
  inv_index : forall id e, findByEventId id w = Some e <-> e ∈ w.(entries) /\ e.(ae_eventId) = id;
  inv_once : NoDup (ae_eventId <$> w.(entries));
  inv_ids : NoDup (ae_id <$> w.(entries));
  inv_wf : forall e, e ∈ w.(entries) -> wf e /\ matchesShape canonical e.(ae_id) = true
}.

(** An event the application can publish: [decode] accepted it. *)
Definition genuine (event : Events.Envelope) : Prop := exists raw, Events.decode raw = Ok event.

(** The entry says what the event says. *)
Definition describes (event : Events.Envelope) (e : AuditEntry) : Prop :=
  e.(ae_eventId) = event.(Events.e_id) /\ e.(ae_eventType) = event.(Events.e_type)
  /\ e.(ae_occurredAt) = DateAt event.(Events.e_occurredAtMs)
  /\ e.(ae_work) = copyWork (snapshot event.(Events.e_work))
  /\ e.(ae_subject) = subjectOf event /\ e.(ae_tenant) = event.(Events.e_tenant).

Context (published : list Events.Envelope).

(** The trail only grows at its end, by entries of published events. *)
Definition Rel (w w' : Trail) : Prop :=
  exists added, w'.(entries) = w.(entries) ++ added
    /\ Forall (fun e => exists event, event ∈ published /\ describes event e) added.

Lemma audit_rel_refl w : Rel w w.
Proof. exists []. split; [by rewrite app_nil_r|constructor]. Qed.

Lemma audit_rel_trans a b c : Rel a b -> Rel b c -> Rel a c.
Proof.
  intros (x & Ex & Hx) (y & Ey & Hy). exists (x ++ y). split; [by rewrite Ey, Ex, app_assoc|]. by apply Forall_app.
Qed.

(** What [decode] checked of an event is what [record] asks of it. *)
Lemma genuine_facts event : genuine event ->
  validDate (newDate event.(Events.e_occurredAtMs)) = true /\ newDate event.(Events.e_occurredAtMs) = DateAt event.(Events.e_occurredAtMs)
  /\ Events.isEventType event.(Events.e_type) = true
  /\ (forall s, subjectOf event = Some s -> matchesName 63 s.(su_kind) = true)
  /\ Events.wfContext event.(Events.e_work).
Proof.
  intros (raw & Hraw). apply Events.decode_reads in Hraw as (input & _ & Hr). pose proof (Events.rd_shape _ _ Hr) as Hs.
  unfold Events.malformed in Hs. rewrite (Events.rd_type _ _ Hr) in Hs. apply orb_false_iff in Hs as [Hs Hat].
  apply orb_false_iff in Hs as [_ Ht]. apply orb_false_iff in Ht as [_ Ht%negb_false_iff].
  assert (Hms : 0 <= event.(Events.e_occurredAtMs) <= 253402300799999).
  { rewrite <- (Events.rd_at _ _ Hr). destruct (field "occurred_at_ms" input) as [| | |n| | |]; try done.
    destruct n as [z|]; [|done]. cbn in Hat |- *. apply orb_false_iff in Hat as [Hat Hgt]. apply orb_false_iff in Hat as [_ Hlt]. breflect. lia. }
  assert (Hd : newDate event.(Events.e_occurredAtMs) = DateAt event.(Events.e_occurredAtMs)).
  { unfold newDate, MAX_TIME. by rewrite (proj2 (Z.leb_le _ _)) by lia. }
  rewrite Hd. split_and!; [cbn; unfold MAX_TIME; lia|done|done| |by eapply Events.workIn_genuine, Events.rd_work].
  intros s Hs. unfold subjectOf in Hs. pose proof (Events.rd_subject _ _ Hr) as Hsub.
  destruct (Events.e_subject event) as [b|]; [|done]. injection Hs as <-. cbn.
  unfold Events.subjectIn in Hsub. destruct (field "subject" input); try done. ok_branches Hsub. subst. cbn. by breflect.
Qed.

(** Recording an entry of a published event. *)
Lemma audit_recorded w e event :
  Inv w -> event ∈ published -> describes event e -> wf e -> matchesShape canonical e.(ae_id) = true ->
  (e.(ae_id) ∉ (ae_id <$> w.(entries))) ->
  let w' := (recordEntry e w).2 in
  Inv w' /\ Rel w w' /\ (recordEntry e w).1.(wr_entry) ∈ w'.(entries)
  /\ (recordEntry e w).1.(wr_entry).(ae_eventId) = e.(ae_eventId)
  /\ ((recordEntry e w).1.(wr_created) = true -> (recordEntry e w).1.(wr_entry) = e).
Proof.
  intros HI Hev Hd Hwf Hid Hfresh. unfold recordEntry. destruct (findByEventId _ w) as [x|] eqn:E.
  - apply (inv_index _ HI) in E as [Hx Hxe]. cbn. split_and!; try done. apply audit_rel_refl.
  - assert (Hnew : e.(ae_eventId) ∉ (ae_eventId <$> w.(entries))).
    { intros (x & Hxe & Hx)%list_elem_of_fmap. assert (Hf : findByEventId e.(ae_eventId) w = Some x) by (by apply (inv_index _ HI)). congruence. }
    cbn. split_and!; [|exists [e]; split; [done|]; repeat constructor; by exists event|apply elem_of_app; right; by left|done|done].
    destruct HI as [Hi Ho Hn Hw]. constructor; cbn.
    + intros id x. unfold findByEventId. cbn. rewrite JsMap.get_set, elem_of_app, list_elem_of_singleton.
      destruct (decide (ae_eventId e = id)) as [<-|Hne].
      * split; [intros [= <-]; by auto|]. intros [[Hx| ->] Hxe]; [|done]. exfalso. apply Hnew. rewrite <- Hxe. by apply list_elem_of_fmap_2.
      * rewrite (Hi id x). naive_solver.
    + rewrite fmap_app. apply NoDup_app. split_and!; [done| |apply NoDup_singleton]. intros x Hx Hs. apply list_elem_of_singleton in Hs. by subst.
    + rewrite fmap_app. apply NoDup_app. split_and!; [done| |apply NoDup_singleton]. intros x Hx Hs. apply list_elem_of_singleton in Hs. by subst.
    + intros x [Hx|Hx%list_elem_of_singleton]%elem_of_app; [by apply Hw|by subst].
Qed.

(** What a finished command answers. *)
Definition answered (event : Events.Envelope) (r : Res Recorded) (w : Trail) : Prop :=
  match r with
  | Ok x =>
      exists e, e ∈ w.(entries) /\ e.(ae_eventId) = event.(Events.e_id) /\ x.(rc_eventId) = event.(Events.e_id)
        /\ x.(rc_auditEntryId) = e.(ae_id) /\ (x.(rc_created) = true -> describes event e)
  | Err f =>
      (exists g, f = idGenerationFailure g) \/ f_type f = Some "audit.invalid_time"%string
      \/ exists g, outage g /\ f = dependencyFailure g "audit.record"
  end.

Abbreviation safe := (wp exec Inv Rel).
Abbreviation safe_read := (wp_read exec Inv Rel audit_rel_refl).

Lemma recordAuditEvent_safe event w :
  genuine event -> event ∈ published -> safe (recordAuditEvent event) (answered event) w.
Proof.
  intros Hg Hev. destruct (genuine_facts event Hg) as (Hv & Hd & Ht & Hs & Hw). unfold recordAuditEvent.
  cbn [bind orElse perform]. apply safe_read; [by intros ? r ? []|]. intros r w1 Hr1 HI1 [Hid _].
  destruct r as [id|g]; cbn [bind mapError perform]; [|apply wp_ret; left; by eexists].
  apply safe_read; [by intros ? ? ? ?|]. intros at_ w2 Hr2 HI2 _. cbn [bind pure_].
  destruct (Audit.record _) as [e|f] eqn:Ee.
  - pose proof (proj1 (record_ok _ _) Ee) as (_ & Hat & _ & _ & He). apply record_wf in Ee; [|done]. cbn in He, Hat. rewrite Hd in He.
    assert (Hdesc : describes event e) by (by subst e). cbn [bind perform orElse depends].
    intros w3 Hr3 HI3 r w4 [(Hfresh & -> & ->)|(g & -> & Hout & ->)]; cbn [bind mapError].
    + assert (Heid : e.(ae_id) = id) by (by subst e).
      destruct (audit_recorded w3 e event HI3 Hev Hdesc Ee (eq_trans (f_equal _ Heid) (Hid id eq_refl)) Hfresh) as (HI4 & Hr4 & Hin & Heq & Hcr).
      split; [done|]. split; [done|]. intros w5 (added & Hadd & _) HI5. cbn.
      exists (wr_entry (recordEntry e w3).1). split_and!; [rewrite Hadd; apply elem_of_app; by left| | |done|].
      * rewrite Heq. by subst e.
      * rewrite Heq. by subst e.
      * intros Hc. by rewrite Hcr.
    + split; [done|]. split; [apply audit_rel_refl|]. intros w5 _ _. right. right. by exists g.
  - apply wp_ret. intros w3 _ _. right. left. unfold Audit.record in Ee. cbn [ri_occurredAt ri_recordedAt ri_eventType ri_subject] in Ee. rewrite Hv, Ht in Ee. cbn [negb orb] in Ee.
    destruct (validDate at_); [|by injection Ee as <-]. cbn [negb] in Ee.
    destruct (subjectOf event) as [s|] eqn:Es; [|done]. by rewrite (Hs s eq_refl) in Ee.
Qed.

(** Every event is recorded once. The recording of any events, each
    delivered any number of times, runs together in any interleaving of its port
    calls. The trail keeps one entry for each event it knows, found by the event,
    well formed, and it only grows at its end, by entries that say what a
    published event says. A recording that succeeds answers the entry of its
    event; it is refused only when no identifier could be generated, the clock is
    not a time, or the writer was down: never because of what the event is. *)
Theorem audit_once (w w' : Trail) (ps' : list (Command Recorded))
    (Hgenuine : Forall genuine published) (Hstart : Inv w)
    (Hrun : rtc (pool_step exec) (w, recordAuditEvent <$> published) (w', ps')) :
  Inv w' /\ Rel w w'
  /\ (forall i event r, published !! i = Some event -> ps' !! i = Some (Ret r) -> answered event r w').
Proof.
  destruct (pool_safe exec Inv Rel audit_rel_refl audit_rel_trans
    (fun i r w => forall event, published !! i = Some event -> answered event r w) w _ w' ps' Hrun Hstart) as (HI & Hr & Hall).
  - intros i p Hp. apply list_lookup_fmap_Some in Hp as (event & -> & Hi). apply list_elem_of_lookup_2 in Hi as Hin.
    eapply wp_weaken; [|by apply recordAuditEvent_safe; [eapply (proj1 (Forall_forall _ _) Hgenuine)|]].
    intros r w1 Ha event' Hi'. rewrite Hi in Hi'. by injection Hi' as <-.
  - split_and!; [done|done|]. intros i event r Hi Hp. by apply (Hall i r Hp).
Qed.
End Exec.

(** ** The trail of an organization. *)
Section Trail.
  Context (accessOf : jstring -> ID -> Res (option Access) -> Prop) (outage : Failure -> Prop).

(** The tenant's entries, as stored. *)
Definition entriesOf (tenant : ID) (w : Trail) : list AuditEntry := filter (fun e => e.(ae_tenant) = Some tenant) w.(entries).

Definition viewKey (v : View) : After := mkAfter v.(av_recordedAt) v.(av_auditEntryId).

Lemma entries_table tenant w : Inv w -> table entryKey (entriesOf tenant w).
Proof.
  intros HI. split.
  - apply Forall_forall. intros e [_ He]%list_elem_of_filter. destruct (inv_wf _ HI e He) as [Hw Hid]. split; [apply Hw|done].
  - apply (NoDup_fmap_1 id). rewrite <- list_fmap_compose. unfold entriesOf. eapply sublist_NoDup; [|apply fmap_sublist, sublist_filter]. apply HI.
Qed.

Lemma viewKey_view tenant w e : Inv w -> e ∈ entriesOf tenant w -> viewKey (view e) = entryKey e.
Proof.
  intros HI [_ He]%list_elem_of_filter. destruct (inv_wf _ HI e He) as [Hw _]. unfold viewKey, view. cbn.
  by rewrite copyDate_valid by apply Hw.
Qed.

(** The query as a server of pages. *)
Definition served (q : ListQuery) (w : Trail) (cursor : option jstring) (page : Page View) : Prop :=
  runs (exec accessOf outage)
    (listOrganizationAuditEntries (mkListQuery q.(lq_sessionToken) q.(lq_organizationId) q.(lq_limit) cursor)) w (Ok page) w.

(** Somebody who may read the trail. *)
Definition reader (token : jstring) (organizationId : ID) : Prop :=
  exists a, accessOf token organizationId (Ok (Some a)) /\ (a.(ac_role) = owner \/ a.(ac_role) = admin).

Lemma mayRead_role a : mayRead (Some a) = true <-> a.(ac_role) = owner \/ a.(ac_role) = admin.
Proof. destruct a as [o i []]; cbn; naive_solver. Qed.

Lemma served_exact q w cursor page : Inv w ->
  served q w cursor page <->
  reader q.(lq_sessionToken) q.(lq_organizationId)
  /\ servePage viewKey (auditScope q.(lq_organizationId)) q.(lq_limit) (view <$> entriesOf q.(lq_organizationId) w) cursor = Ok page.
Proof.
  intros HI. rewrite (servePage_fmap view _ entryKey) by (intros e He; by eapply viewKey_view).
  unfold served, listOrganizationAuditEntries, servePage, positionOf. cbn [bind orElse depends perform require pure_ runs lq_sessionToken lq_organizationId lq_limit lq_cursor].
  split.
  - intros (access & w1 & [Hacc ->] & H). destruct access as [access|]; [|by destruct H]. cbn [mapError bind] in H.
    destruct (mayRead access) eqn:Em; [|by destruct H]. destruct access as [a|]; [|done]. apply mayRead_role in Em.
    split; [by exists a|]. cbn [bind] in H. destruct (request _ _ _) as [p|]; [|by destruct H]. cbn [bind mapError perform runs] in H.
    destruct H as (found & w1 & [Hf ->] & H). destruct found as [found|]; [|by destruct H]. cbn in Hf. subst found. cbn [bind mapError] in H.
    cbn [mbind Result_bind]. change (fun row => position (at_ (entryKey row)) (id (entryKey row))) with (fun e => position (ae_recordedAt e) (ae_id e)).
    unfold listForTenant in H. fold (entriesOf q.(lq_organizationId) w) in H.
    destruct (window _ _ _ _) as [pg|]; [|by destruct H]. cbn [bind mapError runs] in H. destruct H as [[= <-] _]. done.
  - intros [(a & Ha & Hrole) Hp]. exists (Ok (Some a)), w. split; [done|]. apply mayRead_role in Hrole. cbn [mapError bind]. rewrite Hrole.
    cbn [bind]. destruct (request _ _ _) as [p|]; [|done]. cbn [mbind Result_bind] in Hp. cbn [bind mapError perform runs].
    exists (Ok (keysetPage (entriesOf q.(lq_organizationId) w) entryKey p)), w. split; [done|]. cbn [bind mapError].
    change (fun row => position (at_ (entryKey row)) (id (entryKey row))) with (fun e => position (ae_recordedAt e) (ae_id e)) in Hp.
    destruct (window _ _ _ _) as [pg|]; [|done]. cbn [bind mapError runs]. split; [|done]. by injection Hp as <-.
Qed.

(** C38. The trail an organization reads is its trail. A page is served only to
    an active owner or admin of the organization. While the trail stays as it
    is, whoever may read it and follows every cursor gets to the end, and
    whichever way it does, the pages it was shown are, end to end, the views of
    exactly the entries of that organization, sorted by the time they were
    recorded and their identifier; other organizations' entries never appear. *)
Theorem audit_trail_exact (q : ListQuery) (n : Z) (w : Trail)
    (HI : Inv w) (Ho : matchesShape canonical q.(lq_organizationId) = true) (Hn : size q.(lq_limit) = Ok n) :
  (forall cursor page, served q w cursor page -> reader q.(lq_sessionToken) q.(lq_organizationId))
  /\ (reader q.(lq_sessionToken) q.(lq_organizationId) -> exists pages, browse (served q w) None pages)
  /\ (forall pages, browse (served q w) None pages ->
        concat pages = view <$> ordered entryKey (entriesOf q.(lq_organizationId) w)
        /\ Forall (fun p => Z.of_nat (length p) <= n) pages).
Proof.
  pose proof (served_exact q w) as Hs. split; [intros cursor page H; by apply Hs in H as [? _]|].
  assert (Hall : reader q.(lq_sessionToken) q.(lq_organizationId) ->
    (exists pages, browse (served q w) None pages)
    /\ (forall pages, browse (served q w) None pages ->
          concat pages = ordered viewKey (view <$> entriesOf q.(lq_organizationId) w) /\ Forall (fun p => Z.of_nat (length p) <= n) pages)).
  { intros Hr. apply (browse_complete _ viewKey (auditScope q.(lq_organizationId)) q.(lq_limit)); [|by apply (scope_part (js "audit:"))|done|].
    - intros cursor page. rewrite Hs by done. naive_solver.
    - apply (table_fmap view _ entryKey); [intros e He; by eapply viewKey_view|by apply entries_table]. }
  split; [apply Hall|]. intros pages Hb. rewrite <- (ordered_fmap view _ entryKey viewKey) by (intros e He; by eapply viewKey_view).
  apply Hall; [|done]. destruct Hb as [cursor page Hp _|cursor page c rest Hp _ _]; by apply Hs in Hp as [? _].
Qed.
End Trail.

(** ** One event, delivered twice. *)
Definition sample_access (token : jstring) (organizationId : ID) (r : Res (option Access)) : Prop :=
  r = Ok (Some (mkAccess organizationId (sample_uuid "8") admin)).
Definition sample_down : Failure := fail_with unavailable "down" "db.down".
Definition sample_outage (f : Failure) : Prop := f = sample_down.

Definition sample_port (n : nat) (op : Op) (w : Trail) : Ans op * Trail :=
  match op with
  | now => (DateAt (Z.of_nat n * 1000), w)
  | newId => (Ok (sample_uuid (pretty (n mod 10)%nat)), w)
  | record e => if decide (e.(ae_id) ∈ (ae_id <$> w.(entries))) then (Err sample_down, w)
                else (Ok (recordEntry e w).1, (recordEntry e w).2)
  | listAll => (Ok (list_ w), w)
  | listTenant tenant page => (Ok (listForTenant tenant page w), w)
  | findAccess _ organizationId => (Ok (Some (mkAccess organizationId (sample_uuid "8") admin)), w)
  end.

Lemma sample_port_id n : matchesShape canonical (sample_uuid (pretty (n mod 10)%nat)) = true.
Proof.
  assert (H : forall m, (m < 10)%nat -> matchesShape canonical (sample_uuid (pretty m)) = true).
  { intros m Hm. do 10 (destruct m as [|m]; [vm_compute; reflexivity|]). lia. }
  apply H. apply Nat.mod_upper_bound. lia.
Qed.

Lemma audit_port_exec n op w : exec sample_access sample_outage op w (sample_port n op w).1 (sample_port n op w).2.
Proof.
  destruct op; cbn -[sample_uuid]; try done.
  - split; [|done]. intros id [= <-]. apply sample_port_id.
  - destruct (decide _); [right; by exists sample_down|by left].
Qed.

Definition sample_events : list Events.Envelope := [Events.sample_envelope; Events.sample_envelope].
Definition sample_first := play sample_port 1 (recordAuditEvent Events.sample_envelope) emptyTrail.
Definition sample_second := play sample_port 5 (recordAuditEvent Events.sample_envelope) sample_first.2.

Lemma audit_sample_run :
  rtc (pool_step (exec sample_access sample_outage)) (emptyTrail, recordAuditEvent <$> sample_events)
    (sample_second.2, Ret <$> [sample_first.1; sample_second.1]).
Proof.
  pose proof (runs_at (exec sample_access sample_outage) (A := Res Recorded)) as step.
  pose proof (fun n (p : Command Recorded) w => play_runs _ sample_port n p w audit_port_exec) as ran.
  etrans; [exact (step (recordAuditEvent <$> sample_events) 0%nat _ _ _ _ eq_refl (ran 1%nat _ _))|].
  exact (step [_; _] 1%nat _ _ _ _ eq_refl (ran 5%nat _ _)).
Qed.

Lemma sample_event_genuine : genuine Events.sample_envelope.
Proof. exists (Events.bytes Events.sample_envelope). vm_compute. reflexivity. Qed.

Lemma trail_empty_inv : Inv emptyTrail.
Proof.
  constructor; cbn; [intros id e; split; [done|by intros [?%elem_of_nil _]]|constructor|constructor|by intros e ?%elem_of_nil].
Qed.

Lemma sample_trail_inv : Inv sample_second.2.
Proof.
  destruct (pool_safe (exec sample_access sample_outage) Inv (Rel sample_events) (audit_rel_refl _) (audit_rel_trans _)
    (fun _ _ _ => True) emptyTrail _ sample_second.2 _ audit_sample_run trail_empty_inv) as [HI _]; [|exact HI].
  intros i p Hp. apply list_lookup_fmap_Some in Hp as (event & -> & Hi). apply list_elem_of_lookup_2 in Hi.
  eapply wp_weaken; [|apply recordAuditEvent_safe; [|exact Hi]]; [done|].
  unfold sample_events in Hi. apply elem_of_cons in Hi as [->|Hi]; [apply sample_event_genuine|].
  apply list_elem_of_singleton in Hi as ->. apply sample_event_genuine.
Qed.

Lemma audit_once_witness :
  exists x, sample_second.1 = Ok x /\ x.(rc_created) = false
    /\ exists e, e ∈ sample_second.2.(entries) /\ e.(ae_eventId) = sample_uuid "4" /\ x.(rc_auditEntryId) = e.(ae_id).
Proof.
  destruct (audit_once sample_access sample_outage sample_events emptyTrail sample_second.2 _
    (Forall_cons_2 _ _ _ sample_event_genuine (Forall_cons_2 _ _ _ sample_event_genuine (Forall_nil_2 _)))
    trail_empty_inv audit_sample_run) as (_ & _ & Hall).
  pose proof (Hall 1%nat Events.sample_envelope sample_second.1 eq_refl eq_refl) as Ha.
  assert (Hok : exists x, sample_second.1 = Ok x /\ x.(rc_created) = false) by (eexists; vm_compute; split; reflexivity).
  destruct Hok as (x & E & Hc). rewrite E in Ha. destruct Ha as (e & He & Hid & _ & Haid & _).
  exists x. split; [exact E|]. split; [exact Hc|]. exists e. exact (conj He (conj Hid Haid)).
Defined.

Definition sample_query : ListQuery := mkListQuery (js "token") (sample_uuid "9") (Some (js "10")) None.

Lemma audit_trail_exact_witness :
  exists pages, browse (served sample_access sample_outage sample_query sample_second.2) None pages
    /\ concat pages = view <$> ordered entryKey (entriesOf (sample_uuid "9") sample_second.2).
Proof.
  destruct (audit_trail_exact sample_access sample_outage sample_query 10 sample_second.2 sample_trail_inv
    ltac:(vm_compute; reflexivity) ltac:(vm_compute; reflexivity)) as (_ & Hex & Hall).
  destruct Hex as [pages Hb].
  - exists (mkAccess (sample_uuid "9") (sample_uuid "8") admin). split; [reflexivity|right; reflexivity].
  - exists pages. split; [exact Hb|exact (proj1 (Hall pages Hb))].
Defined.
End AuditWorld.
