(* ===== verification/Postgres.v ===== *)
(** * The database handle: [shared/postgres/index.ts].

    A transaction answers its caller while a timer and a cancellation may stop
    it at any moment.  Its model is a state machine over what the connection,
    the callback, the timer and the caller can do; [transacts] is the contract
    the adapters rely on, and [transaction_truthful] that the machine keeps it.
    [migrate] brings a database to a list of migrations.  PostgreSQL itself
    executes what it is sent: a transaction's effect is the callback's, all of
    it when the server commits and none of it otherwise. *)
From stdpp Require Import relations.
From S2P Require Import Prelude JsMap Errors.

Module Database.

(** What a [catch] may see: an error the server reported, with its SQLSTATE and
    the constraint it names, or anything else. *)
Inductive Thrown : Type :=
| DatabaseError (code : string) (constraint : option string)
| Other (value : Caught).

(** @src src/shared/postgres/index.ts:37-40 invalid *)
Definition invalid : Failure := fail_with Errors.invalid "invalid database configuration" "database.config".
(** @src src/shared/postgres/index.ts:41-44 timedOut *)
Definition timedOut : Failure := fail_with timeout "database operation timed out" "database.timeout".
(** @src src/shared/postgres/index.ts:45-48 uncertain *)
Definition uncertain : Failure := fail_with unavailable "database commit outcome uncertain" "database.commit_uncertain".
(** @src src/shared/postgres/index.ts:49-52 drift *)
Definition drift : Failure := fail_with conflict "migration history differs" "database.migration_drift".
Definition closed : Failure := fail_with unavailable "database closed" "database.closed".
(** @src src/shared/postgres/index.ts:177-181 transaction *)
Definition canceled_ : Failure := fail_with canceled "database operation canceled" "database.canceled".
(** @src src/shared/postgres/index.ts:246-250 transaction *)
Definition aborted_ : Failure := fail_with internal "database transaction aborted" "database.failed".

(** @src src/shared/postgres/index.ts:58-62 violatedUnique *)
Definition violatedUnique (error : Thrown) : option string :=
  match error with
  | DatabaseError code constraint => if bool_decide (code = "23505"%string) then constraint else None
  | Other _ => None
  end.

(** @src src/shared/postgres/index.ts:84-106 map *)
Definition map (error : Thrown) : Failure :=
  match error with
  | Other value =>
      match kindOf value with
      | Some _ => fromCaught value
      | None => fail_with unavailable "database operation failed" "database.unavailable"
      end
  | DatabaseError code _ =>
      if bool_decide (code = "23505"%string) then fail_with conflict "database operation failed" "database.conflict"
      else if bool_decide (code = "40001"%string) || bool_decide (code = "40P01"%string) then
        fail_with unavailable "database operation was not serializable" "database.serialization"
      else if bool_decide (code = "57014"%string) then timedOut
      else fail_with internal "database operation failed" "database.failed"
  end.

(** @src src/shared/postgres/index.ts:108-110 commitFailure *)
Definition commitFailure (error : Thrown) : Failure :=
  match error with DatabaseError _ _ => map error | Other _ => uncertain end.

(** ** [transaction]. *)
Section Transaction.
  (** The data, and what the callback makes of it. *)
  Context {S T : Type} (fn : S -> S * Res T).

(** Where the operation waits. *)
Inductive Phase : Type :=
| connecting | beginning | running
| rollingBack (value : Failure)
| committing (value : T) (s' : S)
| ended.

(** The server's side of the transaction. *)
Inductive Server : Type := idle | open | committed | rolledBack.

#[export] Instance Server_eq_dec : EqDecision Server.
Proof. solve_decision. Defined.

(** The answer is the first of the operation's and the stop's. *)
Record Tx : Type := mkTx {
  phase : Phase;
  aborted : bool;
  releases : list bool;
  answer : option (Res T);
  server : Server;
  data : S
}.

(** @src src/shared/postgres/index.ts:165-192 transaction
    Up to the connection: a closed handle and a canceled caller are refused. *)
Definition enter (closing callerAborted : bool) (s : S) : Tx :=
  mkTx (if closing || callerAborted then ended else connecting) false []
    (if closing then Some (Err closed) else if callerAborted then Some (Err canceled_) else None) idle s.

(** @src src/shared/postgres/index.ts:194-202 release
    Only the first call releases the client. *)
Definition release (destroy : bool) (releases : list bool) : list bool :=
  match releases with [] => [destroy] | _ => releases end.

(** The race: the first answer stays. *)
Definition answering (r : Res T) (answer : option (Res T)) : option (Res T) :=
  match answer with Some a => Some a | None => Some r end.

(** The operation ends with [r], releasing the client. *)
Definition finish (t : Tx) (destroy : bool) (r : Res T) (server : Server) (s : S) : Tx :=
  mkTx ended t.(aborted) (release false (if destroy then release true t.(releases) else t.(releases)))
    (answering r t.(answer)) server s.

Definition isCommitting (p : Phase) : bool := match p with committing _ _ => true | _ => false end.

(** @src src/shared/postgres/index.ts:207-222 stop *)
Definition stop (t : Tx) (byCaller : bool) : Tx :=
  mkTx t.(phase) true (release true t.(releases))
    (answering (Err (if isCommitting t.(phase) then uncertain else if byCaller then canceled_ else timedOut)) t.(answer))
    t.(server) t.(data).

(** @src src/shared/postgres/index.ts:188-272 transaction
    What can happen next. A statement sent on a destroyed connection fails; a
    COMMIT that was sent may take effect whether or not its answer arrives, but
    an error the server reports means it did not. *)
Inductive step : Tx -> Tx -> Prop :=
| step_connect_failed t e :
    t.(phase) = connecting ->
    step t (mkTx ended t.(aborted) t.(releases) (answering (Err (map e)) t.(answer)) t.(server) t.(data))
| step_connect t :
    t.(phase) = connecting -> step t (mkTx beginning t.(aborted) t.(releases) t.(answer) t.(server) t.(data))
| step_begin t :
    t.(phase) = beginning -> t.(aborted) = false ->
    step t (mkTx running t.(aborted) t.(releases) t.(answer) open t.(data))
| step_thrown t e :
    t.(phase) = beginning \/ t.(phase) = running \/ (exists f, t.(phase) = rollingBack f) ->
    step t (finish t true (Err (map e)) rolledBack t.(data))
| step_aborted t :
    t.(phase) = beginning \/ t.(phase) = running -> t.(aborted) = true ->
    step t (finish t false (default (Err canceled_) t.(answer)) rolledBack t.(data))
| step_refused t f :
    t.(phase) = running -> t.(aborted) = false -> (fn t.(data)).2 = Err f ->
    step t (mkTx (rollingBack f) t.(aborted) t.(releases) t.(answer) t.(server) t.(data))
| step_accepted t v :
    t.(phase) = running -> t.(aborted) = false -> (fn t.(data)).2 = Ok v ->
    step t (mkTx (committing v (fn t.(data)).1) t.(aborted) t.(releases) t.(answer) t.(server) t.(data))
| step_rolledBack t f :
    t.(phase) = rollingBack f -> step t (finish t false (Err f) rolledBack t.(data))
| step_committed t v s' :
    t.(phase) = committing v s' -> step t (finish t false (Ok v) committed s')
| step_commit_refused t v s' :
    t.(phase) = committing v s' -> step t (finish t false (Err aborted_) rolledBack t.(data))
| step_commit_error t v s' code constraint :
    t.(phase) = committing v s' ->
    step t (finish t true (Err (commitFailure (DatabaseError code constraint))) rolledBack t.(data))
| step_commit_lost t v s' value (applied : bool) :
    t.(phase) = committing v s' ->
    step t (finish t true (Err (commitFailure (Other value)))
              (if applied then committed else rolledBack) (if applied then s' else t.(data)))
| step_stop t byCaller :
    t.(answer) = None -> t.(phase) <> connecting -> t.(phase) <> ended -> step t (stop t byCaller).
End Transaction.

(** ** The contract. *)

(** Failures of the handle itself, not of the callback. *)
Definition fault (f : Failure) : Prop :=
  f ∈ [closed; canceled_; timedOut; aborted_; uncertain] \/ exists e, f = map e.

(** What a transaction does, as its callers may rely on: all of the callback's
    effect and its value, or nothing and a failure; a failure that says the
    outcome is uncertain may come with either. *)
Inductive transacts {S T} (fn : S -> S * Res T) (s : S) : Res T -> S -> Prop :=
| tx_done v s' : fn s = (s', Ok v) -> transacts fn s (Ok v) s'
| tx_refused f : (fn s).2 = Err f -> transacts fn s (Err f) s
| tx_failed f : fault f -> transacts fn s (Err f) s
| tx_uncertain v s' : fn s = (s', Ok v) -> transacts fn s (Err uncertain) s'.

Section Truthful.
  Context {S T : Type} (fn : S -> S * Res T) (s : S).

Lemma fault_map e : fault (map e).
Proof. right. by exists e. Qed.
Lemma fault_stop b : fault (if b : bool then canceled_ else timedOut).
Proof. left. destruct b; set_solver. Qed.

Lemma fault_commit e : fault (commitFailure e).
Proof. destruct e; [apply fault_map|]. left. cbn. set_solver. Qed.

(** What the operation, the stop and the server know of each other. *)
Definition untouched (t : @Tx S T) : Prop :=
  t.(data) = s
  /\ if t.(aborted) then t.(releases) = [true] /\ exists b : bool, t.(answer) = Some (Err (if b then canceled_ else timedOut))
     else t.(releases) = [] /\ t.(answer) = None.

Definition consistent (t : Tx) : Prop :=
  match t.(phase) with
  | connecting => t.(aborted) = false /\ t.(server) = idle /\ untouched t
  | beginning | running => untouched t
  | rollingBack f => untouched t /\ (fn s).2 = Err f
  | committing v s' =>
      fn s = (s', Ok v) /\ t.(data) = s
      /\ if t.(aborted) then t.(releases) = [true] /\ t.(answer) = Some (Err uncertain)
         else t.(releases) = [] /\ t.(answer) = None
  | ended =>
      (exists r, t.(answer) = Some r /\ transacts fn s r t.(data)
         /\ (isOk r = true -> t.(server) = committed)
         /\ (t.(server) = committed -> isOk r = true \/ r = Err uncertain))
      /\ length t.(releases) = (if bool_decide (t.(server) = idle) then 0 else 1)%nat
  end.

Lemma consistent_enter closing callerAborted : consistent (enter closing callerAborted s).
Proof.
  unfold enter, consistent. destruct closing; cbn; [|destruct callerAborted; cbn; [|done]].
  all: split; [|done]; eexists; split; [done|]; split; [apply tx_failed; left; set_solver|by split].
Qed.

(** The operation ends while nothing was committed. *)
Lemma consistent_failed t destroy f :
  untouched t -> transacts fn s (Err f) s -> consistent (finish t destroy (Err f) rolledBack s).
Proof.
  intros [Hd Ht] Hf. unfold consistent, finish. cbn. destruct (aborted t).
  - destruct Ht as [Hr [b Ha]]. rewrite Ha, Hr. cbn. split; [|by destruct destroy].
    exists (Err (if b then canceled_ else timedOut)). split; [done|]. split; [apply tx_failed, fault_stop|by split].
  - destruct Ht as [Hr Ha]. rewrite Ha, Hr. cbn. split; [|by destruct destroy]. exists (Err f). by split_and!.
Qed.

(** The operation ends after COMMIT was sent. *)
Lemma consistent_finished t destroy v s' r server' data' :
  consistent t -> t.(phase) = committing v s' -> transacts fn s r data' ->
  server' <> idle -> (isOk r = true -> server' = committed) -> (server' = committed -> isOk r = true \/ r = Err uncertain) ->
  (data' = s \/ server' = committed /\ data' = s') ->
  consistent (finish t destroy r server' data').
Proof.
  intros Hc Hp Hr Hi Hok Hcom Hd. unfold consistent in Hc. rewrite Hp in Hc. destruct Hc as (Hfn & _ & Ht).
  unfold consistent, finish. cbn. rewrite (bool_decide_eq_false_2 (server' = idle)) by done. destruct (aborted t).
  - destruct Ht as [-> ->]. split; [|by destruct destroy]. exists (Err uncertain). split; [done|]. split; [|split; [done|by right]].
    destruct Hd as [-> | [_ ->]]; [apply tx_failed; left; set_solver|by eapply tx_uncertain].
  - destruct Ht as [-> ->]. split; [|by destruct destroy]. by exists r.
Qed.

Lemma consistent_stop t b :
  consistent t -> t.(answer) = None -> t.(phase) <> connecting -> t.(phase) <> ended -> consistent (stop t b).
Proof.
  unfold consistent, stop, untouched. destruct t as [p ab rs an sv d]. cbn. intros Hc -> Hcn He.
  destruct p; try done; cbn; destruct ab; naive_solver.
Qed.

Lemma consistent_step t t' : consistent t -> step fn t t' -> consistent t'.
Proof.
  intros Hc Hs. assert (Hcopy := Hc). unfold consistent in Hc.
  destruct Hs as [t e Hp|t Hp|t Hp Ha|t e Hp|t Hp Ha|t f Hp Ha Hf|t v Hp Ha Hf|t f Hp|t v s' Hp|t v s' Hp|t v s' code k Hp|t v s' value applied Hp|t b Ha Hp Hp'].
  - rewrite Hp in Hc. unfold untouched in Hc. destruct t as [p ab rs an sv d]. cbn in *. destruct Hc as (-> & -> & -> & -> & ->).
    cbn. split; [|done]. eexists. split; [done|]. split; [apply tx_failed, fault_map|by split].
  - rewrite Hp in Hc. by destruct Hc as (_ & _ & Hc).
  - by rewrite Hp in Hc.
  - assert (Hu : untouched t) by (destruct Hp as [Hp|[Hp|[f Hp]]]; rewrite Hp in Hc; [done|done|apply Hc]).
    pose proof (proj1 Hu) as Hd. rewrite Hd. apply consistent_failed; [done|apply tx_failed, fault_map].
  - assert (Hu : untouched t) by (destruct Hp as [Hp|Hp]; by rewrite Hp in Hc).
    pose proof (proj1 Hu) as Hd. destruct Hu as [_ Hu]. rewrite Ha in Hu. destruct Hu as [Hr [b Hb]]. rewrite Hd, Hb.
    apply (consistent_failed t false (if b then canceled_ else timedOut)); [|apply tx_failed, fault_stop]. split; [done|]. rewrite Ha. eauto.
  - rewrite Hp in Hc. split; [done|]. destruct Hc as [Hd _]. by rewrite <- Hd.
  - rewrite Hp in Hc. destruct Hc as [Hd Hc]. unfold consistent. cbn. rewrite Hd in Hf |- *. rewrite Ha in Hc. rewrite Ha.
    split; [|done]. rewrite <- Hf. by destruct (fn s).
  - rewrite Hp in Hc. destruct Hc as [Hu Hf]. pose proof (proj1 Hu) as Hd. rewrite Hd. apply consistent_failed; [done|by apply tx_refused].
  - rewrite Hp in Hc. destruct Hc as (Hfn & _). eapply consistent_finished; [done|done|by apply tx_done|done|done|by left|by right].
  - rewrite Hp in Hc. destruct Hc as (Hfn & Hd & _). rewrite Hd. eapply consistent_finished; [done|done|apply tx_failed; left; set_solver|done|done|done|by left].
  - rewrite Hp in Hc. destruct Hc as (Hfn & Hd & _). rewrite Hd. eapply consistent_finished; [done|done|apply tx_failed, fault_commit|done|done|done|by left].
  - rewrite Hp in Hc. destruct Hc as (Hfn & Hd & _). rewrite Hd. destruct applied.
    + eapply consistent_finished; [done|done|by eapply tx_uncertain|done|done|by right|by right].
    + eapply consistent_finished; [done|done|apply tx_failed, fault_commit|done|done|done|by left].
  - by apply consistent_stop.
Qed.

Lemma consistent_ok t v : consistent t -> t.(answer) = Some (Ok v) -> t.(server) = committed.
Proof.
  intros Hc Ha. unfold consistent, untouched in Hc. destruct (phase t); rewrite ?Ha in Hc; try (destruct (aborted t); naive_solver).
Qed.

Lemma answer_stays t t' r : rtc (step fn) t t' -> t.(answer) = Some r -> t'.(answer) = Some r.
Proof.
  induction 1 as [|a b c Hab _ IH]; [done|]. intros Ha. apply IH. destruct Hab; cbn; rewrite ?Ha; done.
Qed.

Lemma ended_stops t t' : step fn t t' -> t.(phase) <> ended.
Proof. destruct 1; try congruence; naive_solver congruence. Qed.

Lemma consistent_run t t' : consistent t -> rtc (step fn) t t' -> consistent t'.
Proof. intros Hc. induction 1 as [|a b c Hab _ IH]; [done|]. apply IH. by eapply consistent_step. Qed.
End Truthful.

(** C12. Transactions answer truthfully. Whatever the connection, the callback, the
    timer and the caller's cancellation do, in any order, the answer the caller
    first gets is final, and when the operation has ended: [ok] means that the
    server committed the callback's effect; the callback's own failure means
    that nothing was changed; a failure that says the commit is uncertain may
    come with the whole effect or none; and any other failure means that nothing
    was changed. The client is given back to the pool exactly once if it was
    taken at all. *)
Theorem transaction_truthful {S T} (fn : S -> S * Res T) (s : S) (closing callerAborted : bool) (t t' : Tx)
    (Hrun : rtc (step fn) (enter closing callerAborted s) t) (Hlater : rtc (step fn) t t') :
  (forall r, t.(answer) = Some r -> t'.(answer) = Some r)
  /\ (isOk <$> t.(answer) = Some true -> t.(server) = committed)
  /\ (t.(phase) = ended -> t' = t
        /\ (exists r, t.(answer) = Some r /\ transacts fn s r t.(data)
             /\ (t.(server) = committed -> isOk r = true \/ r = Err uncertain))
        /\ length t.(releases) = (if bool_decide (t.(server) = idle) then 0 else 1)%nat).
Proof.
  pose proof (consistent_run fn s _ _ (consistent_enter fn s closing callerAborted) Hrun) as Hc. split; [|split].
  - intros r Ha. by eapply answer_stays.
  - intros Ha. destruct (answer t) as [r|] eqn:Er; [|done]. injection Ha as Ha. destruct r as [v|f]; [|done].
    by apply (consistent_ok fn s t v).
  - intros Hp. split; [|].
    + inversion Hlater as [|x y z Hxy _]; [done|subst]. by apply ended_stops in Hxy.
    + unfold consistent in Hc. rewrite Hp in Hc. destruct Hc as [(r & Hr & Ht & _ & Hcom) Hl]. split; [|done]. by exists r.
Qed.

(** ** Migrations. *)

(** @src src/shared/postgres/index.ts:20-20 Migration *)
Record Migration : Type := mkMigration { version : num; sql : jstring }.
(** @src src/shared/postgres/index.ts:29-34 LegacyHistory *)
Record LegacyHistory : Type := mkLegacy { ledger_ : string; versions : Z; finalChecksum : jstring; baselineThrough : Z }.

(** What the migrations see of a database: the ledger, in the order of its
    versions; the tables an old history may have left; and the migrations run. *)
Record Schema : Type := mkSchema {
  ledger : list (Z * jstring); tables : list (string * list (Z * jstring)); ran : list jstring
}.

(** [/^[a-z_][a-z0-9_]*$/]. *)
Definition isTableName (name : jstring) : bool :=
  match name with
  | c :: rest => (isLower c || (c =? 95)) && forallb (fun c => isLower c || isDigit c || (c =? 95)) rest
  | [] => false
  end.

(** @src src/shared/postgres/index.ts:68-82 missingOrStale
    Of the rows of the table, by identifier. *)
Definition missingOrStale {R} (id : jstring) (rows : list (jstring * R)) : string :=
  if isNull (JsMap.get id rows) then "missing" else "stale".

Section Migrate.
  (** [createHash('sha256').update(sql).digest('hex')]. *)
  Context (sha256 : jstring -> jstring).

(** @src src/shared/postgres/index.ts:310-313 migrate *)
Definition checksum (m : Migration) : jstring := sha256 m.(sql).

(** A migration as the ledger records it. *)
Definition entry (m : Migration) : Z * jstring := (num_val m.(version), checksum m).

(** @src src/shared/postgres/index.ts:314-324 migrate
    Versions increase from above [previous], and no migration is empty. *)
Fixpoint increasing (previous : Z) (migrations : list Migration) : bool :=
  match migrations with
  | [] => true
  | m :: rest =>
      isSafeInteger m.(version) && negb (num_val m.(version) <=? previous) && negb (bool_decide (m.(sql) = []))
      && increasing (num_val m.(version)) rest
  end.

(** [INSERT INTO n2f_migrations], read back in the order of the versions. *)
Definition insertRow (row : Z * jstring) (rows : list (Z * jstring)) : list (Z * jstring) :=
  insert_sorted (fun a b => a.1 - b.1) row rows.
Definition insertRows (rows more : list (Z * jstring)) : list (Z * jstring) :=
  fold_left (fun rows row => insertRow row rows) more rows.

Definition legacyFailure (ledger : string) : Failure :=
  failure conflict "database predates the migration baseline"
    (mkOptions (Some "database.legacy_history"%string) (Some [("ledger", ledger)]%string) [] (CForeign VUndefined)).

(** [max(version)], where [Number(null)] is 0. *)
Definition lastVersion (history : list (Z * jstring)) : Z := foldr (fun r n => Z.max r.1 n) 0 history.
(** The checksum of the row with the greatest version. *)
Definition lastChecksum (history : list (Z * jstring)) : option jstring :=
  snd <$> last (sort_by (fun a b => a.1 - b.1) history).

(** @src src/shared/postgres/index.ts:379-417 adopt *)
Definition adopt (legacy : LegacyHistory) (migrations : list Migration) (db : Schema) : Schema * Res (list (Z * jstring)) :=
  match JsMap.get legacy.(ledger_) db.(tables) with
  | None => (db, Ok [])
  | Some history =>
      if negb (Z.of_nat (length history) =? legacy.(versions)) || negb (lastVersion history =? legacy.(versions))
         || negb (bool_decide (lastChecksum history = Some legacy.(finalChecksum)))
      then (db, Err (legacyFailure legacy.(ledger_)))
      else
        let baselines := entry <$> filter (fun m => num_val m.(version) <= legacy.(baselineThrough)) migrations in
        (mkSchema (insertRows db.(ledger) baselines) (JsMap.delete legacy.(ledger_) db.(tables)) db.(ran), Ok baselines)
  end.

(** @src src/shared/postgres/index.ts:356-372 migrate
    The loop: what the ledger has must agree, what it lacks is run and recorded. *)
Fixpoint apply (rows : list (Z * jstring)) (migrations : list Migration) (db : Schema) : Schema * Res unit :=
  match migrations, rows with
  | [], _ => (db, Ok tt)
  | m :: migrations, row :: rows =>
      if negb (bool_decide (row = entry m)) then (db, Err drift) else apply rows migrations db
  | m :: migrations, [] =>
      apply [] migrations (mkSchema (insertRow (entry m) db.(ledger)) db.(tables) (db.(ran) ++ [m.(sql)]))
  end.

(** @src src/shared/postgres/index.ts:329-374 migrate
    The callback of the transaction, under the advisory lock. *)
Definition migrateBody (migrations : list Migration) (legacy : option LegacyHistory) (db : Schema) : Schema * Res unit :=
  let proceed rows db :=
    if (length migrations <? length rows)%nat then (db, Err drift) else apply rows migrations db in
  match db.(ledger), legacy with
  | [], Some l =>
      match adopt l migrations db with
      | (db, Ok rows) => proceed rows db
      | (db, Err f) => (db, Err f)
      end
  | rows, _ => proceed rows db
  end.

(** @src src/shared/postgres/index.ts:303-374 migrate *)
Definition migrate (migrations : list Migration) (budgetMs : num) (legacy : option LegacyHistory) (db : Schema)
    (r : Res unit) (db' : Schema) : Prop :=
  if negb (isInteger budgetMs) || num_lt budgetMs 1 then r = Err invalid /\ db' = db
  else if match legacy with Some l => negb (isTableName (js l.(ledger_))) | None => false end then r = Err invalid /\ db' = db
  else if negb (increasing 0 migrations) then r = Err invalid /\ db' = db
  else transacts (migrateBody migrations legacy) db r db'.

(** ** Lemmas. *)

Lemma insertRow_last row rows : Forall (fun r => r.1 < row.1) rows -> insertRow row rows = rows ++ [row].
Proof.
  unfold insertRow. induction 1 as [|r rows Hr _ IH]; [done|]. cbn. rewrite (proj2 (Z.leb_gt _ _)) by lia. by rewrite IH.
Qed.

Lemma increasing_cons p m ms :
  increasing p (m :: ms) = true -> p < (entry m).1 /\ increasing (entry m).1 ms = true.
Proof. cbn. rewrite !andb_true_iff, !negb_true_iff, !Z.leb_gt. by intros [[[_ Hm] _] Hms]. Qed.

Lemma increasing_above p ms : increasing p ms = true -> Forall (fun m => p < (entry m).1) ms.
Proof.
  revert p. induction ms as [|m ms IH]; intros p; [done|]. intros [Hm Hms]%increasing_cons.
  constructor; [done|]. eapply Forall_impl; [by apply IH|]. intros x Hx; cbn in Hx, Hm |- *; lia.
Qed.

(** The loop records exactly what was missing, or finds a difference and changes
    nothing. *)
Lemma apply_spec rows ms db p before :
  increasing p ms = true -> db.(ledger) = before ++ rows -> Forall (fun r => r.1 <= p) before -> (length rows <= length ms)%nat ->
  apply rows ms db =
  if decide (rows `prefix_of` (entry <$> ms))
  then (mkSchema (before ++ (entry <$> ms)) db.(tables) (db.(ran) ++ (sql <$> drop (length rows) ms)), Ok tt)
  else (db, Err drift).
Proof.
  revert rows db p before. induction ms as [|m ms IH]; intros rows db p before Hinc Hl Hp Hlen.
  - destruct rows; [|cbn in Hlen; lia]. cbn [apply]. rewrite decide_True by apply prefix_nil. cbn. rewrite app_nil_r in Hl |- *.
    rewrite app_nil_r. rewrite <- Hl. by destruct db.
  - apply increasing_cons in Hinc as [Hm Hms]. destruct rows as [|row rows]; cbn [apply].
    + rewrite decide_True by apply prefix_nil. rewrite app_nil_r in Hl.
      rewrite (IH [] _ (entry m).1 (before ++ [entry m])); [|done| | |cbn; lia].
      * rewrite decide_True by apply prefix_nil. cbn. by rewrite <- !app_assoc.
      * cbn. rewrite app_nil_r, Hl. apply insertRow_last. eapply Forall_impl; [exact Hp|]. intros x Hx; cbn in Hx, Hm |- *; lia.
      * apply Forall_app. split; [|by constructor]. eapply Forall_impl; [exact Hp|]. intros x Hx; cbn in Hx, Hm |- *; lia.
    + destruct (bool_decide_reflect (row = entry m)) as [->|Hne]; cbn [negb].
      * rewrite (IH rows db (entry m).1 (before ++ [entry m])); [|done|by rewrite Hl, <- app_assoc| |cbn in Hlen; lia].
        { destruct (decide (rows `prefix_of` (entry <$> ms))) as [Hpre|Hn].
          - rewrite decide_True by (cbn; by apply prefix_cons). cbn. by rewrite <- app_assoc.
          - rewrite decide_False; [done|]. cbn. by intros ?%prefix_cons_inv_2. }
        apply Forall_app. split; [|by constructor]. eapply Forall_impl; [exact Hp|]. intros x Hx; cbn in Hx, Hm |- *; lia.
      * rewrite decide_False; [done|]. cbn. by intros ?%prefix_cons_inv_1.
Qed.

(** The baselines come first. *)
Lemma baselines_prefix p bound ms :
  increasing p ms = true ->
  exists k, filter (fun m => num_val m.(version) <= bound) ms = take k ms /\ (k <= length ms)%nat.
Proof.
  revert p. induction ms as [|m ms IH]; intros p Hinc; [by exists 0%nat|]. apply increasing_cons in Hinc as [Hm Hms].
  destruct (decide (num_val (version m) <= bound)) as [Hb|Hb].
  - destruct (IH _ Hms) as (k & Hk & Hle). exists (S k). rewrite filter_cons_True by done. cbn. split; [by rewrite Hk|lia].
  - exists 0%nat. split; [|lia]. rewrite filter_cons_False by done. cbn.
    assert (Hall : Forall (fun m' => ~ num_val m'.(version) <= bound) ms).
    { eapply Forall_impl; [by apply increasing_above|]. intros x Hx; cbn in Hx, Hm |- *; lia. }
    clear -Hall. induction Hall as [|x l Hx _ IH]; [done|]. by rewrite filter_cons_False.
Qed.

Lemma insertRows_increasing p ms before :
  increasing p ms = true -> Forall (fun r => r.1 <= p) before -> insertRows before (entry <$> ms) = before ++ (entry <$> ms).
Proof.
  unfold insertRows. revert p before. induction ms as [|m ms IH]; intros p before Hinc Hp; cbn; [by rewrite app_nil_r|].
  apply increasing_cons in Hinc as [Hm Hms]. rewrite insertRow_last by (eapply Forall_impl; [exact Hp|]; intros x Hx; cbn in Hx, Hm |- *; lia).
  rewrite (IH _ _ Hms); [by rewrite <- app_assoc|]. apply Forall_app. split; [|by constructor].
  eapply Forall_impl; [exact Hp|]. intros x Hx; cbn in Hx, Hm |- *; lia.
Qed.

Lemma increasing_take p k ms : increasing p ms = true -> increasing p (take k ms) = true.
Proof.
  revert p k. induction ms as [|m ms IH]; intros p [|k]; try done. cbn. rewrite !andb_true_iff. naive_solver.
Qed.

(** The old history of [db] is complete, and its baselines are the first [k]
    migrations. *)
Definition adopts (migrations : list Migration) (legacy : option LegacyHistory) (db : Schema) (k : nat) : Prop :=
  exists l history, legacy = Some l /\ db.(ledger) = [] /\ JsMap.get l.(ledger_) db.(tables) = Some history
    /\ Z.of_nat (length history) = l.(versions) /\ lastVersion history = l.(versions)
    /\ lastChecksum history = Some l.(finalChecksum)
    /\ filter (fun m => num_val m.(version) <= l.(baselineThrough)) migrations = take k migrations.

(** The database [db'] has the migrations: [db] had the first of them, or adopted
    them, and the others were run, in their order. *)
Definition migrated (migrations : list Migration) (legacy : option LegacyHistory) (db db' : Schema) : Prop :=
  db.(ledger) `prefix_of` (entry <$> migrations)
  /\ db'.(ledger) = entry <$> migrations
  /\ (exists k, (k = length db.(ledger) \/ adopts migrations legacy db k) /\ db'.(ran) = db.(ran) ++ (sql <$> drop k migrations))
  /\ (forall l, legacy = Some l -> db.(ledger) = [] -> JsMap.get l.(ledger_) db'.(tables) = None).

Lemma apply_ok rows ms db u db' :
  increasing 0 ms = true -> db.(ledger) = rows -> (length rows <= length ms)%nat -> apply rows ms db = (db', Ok u) ->
  rows `prefix_of` (entry <$> ms)
  /\ db' = mkSchema (entry <$> ms) db.(tables) (db.(ran) ++ (sql <$> drop (length rows) ms)).
Proof.
  intros Hinc Hl Hlen. rewrite (apply_spec rows ms db 0 [] Hinc Hl (Forall_nil_2 _) Hlen).
  destruct (decide _); [|done]. by intros [= <- _].
Qed.

Lemma adopt_ok l ms db rows db' :
  increasing 0 ms = true -> db.(ledger) = [] -> adopt l ms db = (db', Ok rows) ->
  JsMap.get l.(ledger_) db'.(tables) = None /\ db'.(ran) = db.(ran) /\ db'.(ledger) = rows
  /\ exists k, rows = entry <$> take k ms /\ (k <= length ms)%nat /\ (k = 0%nat \/ adopts ms (Some l) db k).
Proof.
  intros Hinc Hl. unfold adopt. destruct (JsMap.get (ledger_ l) (tables db)) as [history|] eqn:Eh.
  - destruct (_ || _) eqn:E; [done|]. intros [= <- <-]. breflect. apply bool_decide_eq_true in H0 as Hc.
    destruct (baselines_prefix 0 (baselineThrough l) ms Hinc) as (k & Hk & Hle). cbn [tables ran ledger].
    rewrite JsMap.get_delete_eq, Hl, Hk. split_and!; [done|done|by apply (insertRows_increasing 0); [apply increasing_take|]|].
    exists k. split; [done|]. split; [done|]. right. exists l, history. by split_and!.
  - intros [= <- <-]. split_and!; [done..|]. exists 0%nat. split_and!; [done|lia|by left].
Qed.

Lemma migrateBody_ok ms legacy db u db' :
  increasing 0 ms = true -> migrateBody ms legacy db = (db', Ok u) -> migrated ms legacy db db'.
Proof.
  intros Hinc. unfold migrateBody.
  assert (Hplain : forall rows db1, db1.(ledger) = rows ->
    (if (length ms <? length rows)%nat then (db1, Err drift) else apply rows ms db1) = (db', Ok u) ->
    rows `prefix_of` (entry <$> ms) /\ db' = mkSchema (entry <$> ms) db1.(tables) (db1.(ran) ++ (sql <$> drop (length rows) ms))).
  { intros rows db1 Hl. destruct (Nat.ltb_spec (length ms) (length rows)); [done|]. by apply apply_ok. }
  destruct (ledger db) as [|row rows] eqn:El; [destruct legacy as [l|]|].
  - destruct (adopt l ms db) as [db1 [rows|f]] eqn:Ea; [|done].
    destruct (adopt_ok l ms db rows db1 Hinc El Ea) as (Hg & Hran & Hrows & k & -> & Hle & Hk).
    intros H. apply Hplain in H as [_ ->]; [|done]. rewrite length_fmap, length_take, Nat.min_l by done. unfold migrated. rewrite El, Hran.
    split_and!; [apply prefix_nil|done| |by intros ? [= <-]]. exists k. split; [|done]. destruct Hk as [-> |Hk]; [by left|by right].
  - intros H. apply Hplain in H as [Hp ->]; [|done]. unfold migrated. rewrite El. split_and!; [done|done| |done]. exists 0%nat. split; [by left|done].
  - intros H. apply Hplain in H as [Hp ->]; [|done]. unfold migrated. rewrite El. split_and!; [done|done| |done].
    exists (length (row :: rows)). split; [by left|done].
Qed.

Lemma migrateBody_again ms legacy db db1 :
  increasing 0 ms = true -> migrated ms legacy db db1 -> migrateBody ms legacy db1 = (db1, Ok tt).
Proof.
  intros Hinc (Hpre & Hl & _ & Hg). unfold migrateBody.
  assert (Hsame : (if (length ms <? length (ledger db1))%nat then (db1, Err drift) else apply (ledger db1) ms db1) = (db1, Ok tt)).
  { rewrite (proj2 (Nat.ltb_ge _ _)) by (rewrite Hl, length_fmap; lia).
    rewrite (apply_spec (ledger db1) ms db1 0 [] Hinc eq_refl (Forall_nil_2 _)) by (rewrite Hl, length_fmap; lia).
    rewrite decide_True by (by rewrite Hl). rewrite Hl, length_fmap, drop_all. cbn. rewrite app_nil_r, <- Hl. by destruct db1. }
  destruct (ledger db1) as [|row rows] eqn:E1; [|done]. destruct legacy as [l|]; [|done].
  unfold adopt. rewrite Hg; [done|done|].
  symmetry in Hl. apply fmap_nil_inv in Hl as ->. by apply prefix_nil_inv in Hpre.
Qed.
End Migrate.

(** Migrations are applied once, in order. A run that answers [ok] found in
    the ledger a prefix of the migrations, or adopted the baselines of a complete
    old history into an empty ledger; it ran exactly the remaining ones, in their
    order; and it left the ledger equal to the list of migrations, so that
    running the same migrations again, at any later time, runs nothing and
    changes nothing. A run that fails changed nothing, unless it says that the
    commit is uncertain, and then it did either all of that or nothing. *)
Theorem migrate_exact (sha256 : jstring -> jstring) (migrations : list Migration) (budgetMs : num) (legacy : option LegacyHistory)
    (db db' : Schema) (r : Res unit) (Hrun : migrate sha256 migrations budgetMs legacy db r db') :
  match r with
  | Ok _ =>
      migrated sha256 migrations legacy db db'
      /\ forall r2 db2, migrate sha256 migrations budgetMs legacy db' r2 db2 -> db2 = db'
  | Err f => db' = db \/ f = uncertain /\ migrated sha256 migrations legacy db db'
  end.
Proof.
  unfold migrate in *. destruct (negb _ || _); [destruct Hrun as [-> ->]; by left|].
  destruct (match legacy with Some l => _ | None => false end); [destruct Hrun as [-> ->]; by left|].
  destruct (increasing 0 migrations) eqn:Hinc; cbn [negb] in *; [|destruct Hrun as [-> ->]; by left].
  destruct Hrun as [[] db' Hb|f Hf|f Hf|[] db' Hb]; [|by left|by left|right; split; [done|by eapply migrateBody_ok]].
  pose proof (migrateBody_ok _ _ _ _ _ _ Hinc Hb) as Hm. split; [done|]. intros r2 db2 H2.
  pose proof (migrateBody_again _ _ _ _ _ Hinc Hm) as Hagain.
  destruct H2 as [v db2 H2|f H2|f H2|v db2 H2]; [congruence|done|done|congruence].
Qed.

(** A transaction whose caller cancels while COMMIT is on its way. *)
Definition sample_fn (n : Z) : Z * Res Z := (n + 1, Ok n).
Definition sample_end : @Tx Z Z := mkTx ended true [true] (Some (Err uncertain)) committed 8.

Lemma sample_canceled : rtc (step sample_fn) (enter false false 7) sample_end.
Proof.
  eapply rtc_l; [by apply step_connect|]. eapply rtc_l; [by apply step_begin|]. eapply rtc_l; [by apply (step_accepted _ _ 7)|].
  eapply rtc_l; [by apply (step_stop _ _ true)|]. eapply rtc_l; [by apply (step_commit_lost _ _ 7 8 (CForeign VUndefined) true)|]. apply rtc_refl.
Qed.

Lemma transaction_truthful_witness :
  rtc (step sample_fn) (enter false false 7) sample_end
  /\ exists r, sample_end.(answer) = Some r /\ transacts sample_fn 7 r sample_end.(data).
Proof.
  split; [exact sample_canceled|].
  destruct (transaction_truthful sample_fn 7 false false sample_end sample_end sample_canceled (rtc_refl _ _)) as (_ & _ & Hend).
  destruct (Hend eq_refl) as (_ & (r & Hr & Ht & _) & _). exists r. split; [exact Hr|exact Ht].
Defined.

Definition sample_migrations : list Migration := [mkMigration (Int 1) (js "create a"); mkMigration (Int 2) (js "create b")].
Definition sample_schema : Schema := mkSchema [(1, js "create a")] [] [js "create a"].
Definition sample_migrated : Schema := mkSchema [(1, js "create a"); (2, js "create b")] [] [js "create a"; js "create b"].

Lemma migrate_exact_witness :
  migrate (fun t => t) sample_migrations (Int 120000) None sample_schema (Ok tt) sample_migrated
  /\ migrated (fun t => t) sample_migrations None sample_schema sample_migrated.
Proof.
  assert (Hrun : migrate (fun t => t) sample_migrations (Int 120000) None sample_schema (Ok tt) sample_migrated)
    by (apply tx_done; vm_compute; reflexivity).
  split; [exact Hrun|]. exact (proj1 (migrate_exact (fun t => t) sample_migrations (Int 120000) None sample_schema sample_migrated (Ok tt) Hrun)).
Defined.
End Database.
