(* ===== verification/Inbox.v ===== *)
(** * The delivery ledger: [shared/events/in-memory-inbox.ts], [inbox.ts] and
    [retry.ts].

    An event is accepted once and opens one delivery (a receipt) per named
    consumer.  [deliver] leases the next due receipt of one consumer, awaits the
    handler, and settles the receipt: both halves are operations here, so that
    other calls can run while a handler does. *)
From stdpp Require Import relations.
From S2P Require Import Prelude JsMap Errors Ids Json Provenance Events.

Module Retry.

(** @src src/shared/events/retry.ts:8-12 RetryPolicy *)
Record RetryPolicy : Type := mkPolicy { maxAttempts : Z; baseMs : Z; maxMs : Z }.

(** @src src/shared/events/retry.ts:14-19 DEFAULT_RETRY *)
Definition DEFAULT_RETRY : RetryPolicy := mkPolicy 12 500 (5 * 60 * 1000).

(** @src src/shared/events/retry.ts:26-28 retryDelay
    The ceiling of the delay after a failed attempt. *)
Definition ceiling (policy : RetryPolicy) (attempt : Z) : Z :=
  let exponent := Z.max 0 (Z.min (attempt - 1) 30) in
  Z.min policy.(maxMs) (policy.(baseMs) * 2 ^ exponent).

(** @src src/shared/events/retry.ts:21-30 retryDelay
    [random()] is the fraction [n/d], with [0 <= n < d]; the sum is taken
    exactly, where the source rounds to a double before the floor. *)
Definition retryDelay (policy : RetryPolicy) (attempt : Z) (random : Z * Z) : Z :=
  let '(n, d) := random in
  (ceiling policy attempt * (d + n)) / (2 * d).

(** @src src/shared/events/retry.ts:32-35 exhausted *)
Definition exhausted (policy : RetryPolicy) (attempt : Z) : bool := policy.(maxAttempts) <=? attempt.

(** A value [Math.random] may return. *)
Definition fraction (random : Z * Z) : Prop := 0 <= random.1 < random.2.

Lemma ceiling_mono policy a b :
  0 <= policy.(baseMs) -> a <= b -> ceiling policy a <= ceiling policy b.
Proof.
  intros Hb Hab. unfold ceiling. apply Z.min_le_compat_l, Z.mul_le_mono_nonneg_l; [done|].
  apply Z.pow_le_mono_r; lia.
Qed.

(** C40. The retry schedule. The delay after a failed attempt lies between half
    its ceiling (rounded down) and the ceiling; the ceiling starts at the base
    delay, doubles with each attempt, never shrinks and never exceeds the
    maximum; and under the default policy a delivery that fails all twelve
    attempts waits between 405.75 and 811.5 seconds in all. *)
Theorem retryDelay_bounds (policy : RetryPolicy) (attempt : Z) (random : Z * Z)
    (Hbase : 1 <= policy.(baseMs) <= policy.(maxMs)) (Hattempt : 1 <= attempt)
    (Hrandom : fraction random) :
  let c := ceiling policy attempt in
  c / 2 <= retryDelay policy attempt random <= c
  /\ ceiling policy 1 = policy.(baseMs) /\ c <= policy.(maxMs)
  /\ (attempt <= 30 -> ceiling policy (attempt + 1) = Z.min policy.(maxMs) (2 * c))
  /\ c <= ceiling policy (attempt + 1)
  /\ (forall rs : list (Z * Z), length rs = 11%nat -> Forall fraction rs ->
        let waits := imap (fun i r => retryDelay DEFAULT_RETRY (Z.of_nat i + 1) r) rs in
        405750 <= foldr Z.add 0 waits <= 811500).
Proof.
  assert (Hdelay : forall p a r, 0 <= ceiling p a -> fraction r ->
    ceiling p a / 2 <= retryDelay p a r <= ceiling p a).
  { intros p a [n d] Hc [Hn Hd]. cbn [fst snd] in *. unfold retryDelay. split.
    - rewrite Z.mul_comm. replace (ceiling p a / 2) with ((ceiling p a * d) / (2 * d))
        by (rewrite Z.div_mul_cancel_r by lia; done).
      apply Z.div_le_mono; nia.
    - apply Z.div_le_upper_bound; nia. }
  assert (Hc1 : ceiling policy 1 = policy.(baseMs)) by (unfold ceiling; change (2 ^ Z.max 0 (Z.min (1 - 1) 30)) with 1; lia).
  assert (Hpos : 1 <= ceiling policy attempt) by (pose proof (ceiling_mono policy 1 attempt ltac:(lia) Hattempt); rewrite Hc1 in *; lia).
  split; [by apply Hdelay; [lia|]|]. split; [done|]. split; [unfold ceiling; lia|].
  split; [|split; [apply ceiling_mono; lia|]].
  - intros Ha. unfold ceiling.
    replace (Z.max 0 (Z.min (attempt + 1 - 1) 30)) with (Z.succ (attempt - 1)) by lia.
    replace (Z.max 0 (Z.min (attempt - 1) 30)) with (attempt - 1) by lia.
    rewrite Z.pow_succ_r by lia. lia.
  - intros rs Hlen Hrs.
    destruct rs as [|r1 [|r2 [|r3 [|r4 [|r5 [|r6 [|r7 [|r8 [|r9 [|r10 [|r11 [|]]]]]]]]]]]]; try done.
    rewrite !Forall_cons in Hrs. destruct Hrs as (F1 & F2 & F3 & F4 & F5 & F6 & F7 & F8 & F9 & F10 & F11 & _).
    cbn -[retryDelay DEFAULT_RETRY Z.add Z.le]. cbn [Z.add Pos.add Pos.succ].
    pose proof (fun a r => Hdelay DEFAULT_RETRY a r) as HD. clear Hdelay.
    repeat match goal with H : fraction ?r |- context [retryDelay DEFAULT_RETRY ?a ?r] =>
      let X := fresh "X" in
      pose proof (HD a r ltac:(vm_compute; discriminate) H) as X;
      let c := eval vm_compute in (ceiling DEFAULT_RETRY a) in
      change (ceiling DEFAULT_RETRY a) with c in X;
      let h := eval vm_compute in (c / 2) in change (c / 2) with h in X;
      generalize dependent (retryDelay DEFAULT_RETRY a r); clear H; intros end.
    lia.
Qed.

Lemma retryDelay_bounds_witness :
  let c := ceiling (mkPolicy 4 250 1000) 2 in
  250 <= retryDelay (mkPolicy 4 250 1000) 2 (1, 3) <= c.
Proof.
  apply (retryDelay_bounds (mkPolicy 4 250 1000) 2 (1, 3)); [cbn; lia..|].
  split; cbn; lia.
Defined.
End Retry.


Module Inbox.
Import Retry.
Import Events.Events.

(** @src src/shared/events/inbox.ts:60-60 CONSUMER_NAME
    [/^[a-z0-9_.-]{1,64}$/.test(consumer)]. *)
Definition CONSUMER_NAME (consumer : jstring) : bool :=
  forallb isNameChar consumer && Nat.leb 1 (length consumer) && Nat.leb (length consumer) 64.

Inductive ReceiptState : Type := pending | processed | dead_.
#[export] Instance ReceiptState_eq_dec : EqDecision ReceiptState.
Proof. solve_decision. Defined.

(** @src src/shared/events/in-memory-inbox.ts:12-18 Receipt *)
Record Receipt : Type := mkReceipt {
  r_state : ReceiptState;
  r_attempts : Z;
  r_availableAt : Z;
  r_leased : bool;
  r_sequence : Z
}.
#[export] Instance Receipt_eq_dec : EqDecision Receipt.
Proof. solve_decision. Defined.

(** @src src/shared/events/in-memory-inbox.ts:24-30 InMemoryInbox
    [#events] and, per consumer, [#receipts] by event id. *)
Record InMemoryInbox : Type := mkInbox {
  i_events : list (jstring * Envelope);
  i_receipts : list (jstring * list (jstring * Receipt));
  i_sequence : Z
}.
Definition empty : InMemoryInbox := mkInbox [] [] 0.

(** @src src/shared/events/in-memory-inbox.ts:159-161 sameBytes *)
Definition sameBytes (left right : Envelope) : bool :=
  bool_decide (json (bytes left) = json (bytes right)).

(** @src src/shared/events/in-memory-inbox.ts:163-165 invalidConsumer *)
Definition invalidConsumer : Failure :=
  fail_with Errors.invalid "invalid event consumer" "events.invalid_consumer".
Definition idReused : Failure :=
  fail_with Errors.conflict "event delivery conflict" "events.id_reused".

(** The receipts a consumer has: none before it is first named. *)
Definition receiptsOf (consumer : jstring) (s : InMemoryInbox) : list (jstring * Receipt) :=
  default [] (JsMap.get consumer s.(i_receipts)).

Definition withReceipts (consumer : jstring) (rs : list (jstring * Receipt)) (s : InMemoryInbox)
    : InMemoryInbox :=
  mkInbox s.(i_events) (JsMap.set consumer rs s.(i_receipts)) s.(i_sequence).

(** @src src/shared/events/in-memory-inbox.ts:149-156 receiptsFor
    Reading a consumer's receipts registers the consumer. *)
Definition receiptsFor (consumer : jstring) (s : InMemoryInbox) : InMemoryInbox :=
  match JsMap.get consumer s.(i_receipts) with
  | Some _ => s
  | None => withReceipts consumer [] s
  end.

(** @src src/shared/events/in-memory-inbox.ts:47-53 accept *)
Definition opened (now sequence : Z) : Receipt := mkReceipt pending 0 now false sequence.

(** @src src/shared/events/in-memory-inbox.ts:43-57 accept
    One receipt per consumer; [now c] is the clock reading taken for [c]. An
    invalid name stops the loop and keeps what was opened before it. *)
Fixpoint openAll (id : jstring) (consumers : list jstring) (now : jstring -> Z) (s : InMemoryInbox)
    : InMemoryInbox * Res unit :=
  match consumers with
  | [] => (s, Ok tt)
  | c :: cs =>
      if negb (CONSUMER_NAME c) then (s, Err invalidConsumer) else
      let s := receiptsFor c s in
      let rs := receiptsOf c s in
      if JsMap.has id rs then openAll id cs now s else
      let s' := withReceipts c (JsMap.set id (opened (now c) s.(i_sequence)) rs) s in
      openAll id cs now (mkInbox s'.(i_events) s'.(i_receipts) (s.(i_sequence) + 1))
  end.

(** @src src/shared/events/in-memory-inbox.ts:32-57 accept *)
Definition accept (event : Envelope) (consumers : list jstring) (now : jstring -> Z)
    (s : InMemoryInbox) : InMemoryInbox * Res unit :=
  let reused :=
    match JsMap.get event.(e_id) s.(i_events) with
    | Some existing => negb (sameBytes existing event)
    | None => false
    end in
  if reused then (s, Err idReused)
  else openAll event.(e_id) consumers now
         (mkInbox (JsMap.set event.(e_id) event s.(i_events)) s.(i_receipts) s.(i_sequence)).

(** @src src/shared/events/in-memory-inbox.ts:70-70 deliver
    Whether [deliver] considers a receipt. *)
Definition due (now : Z) (r : Receipt) : bool :=
  bool_decide (r.(r_state) = pending) && negb r.(r_leased) && (r.(r_availableAt) <=? now).

(** @src src/shared/events/in-memory-inbox.ts:73-74 deliver *)
Definition before (a b : Receipt) : bool :=
  (a.(r_availableAt) <? b.(r_availableAt))
  || ((a.(r_availableAt) =? b.(r_availableAt)) && (a.(r_sequence) <? b.(r_sequence))).

(** @src src/shared/events/in-memory-inbox.ts:66-78 deliver
    The loop that looks for the next due receipt. *)
Fixpoint select (now : Z) (next : option (jstring * Receipt)) (entries : list (jstring * Receipt))
    : option (jstring * Receipt) :=
  match entries with
  | [] => next
  | entry :: rest =>
      if negb (due now entry.2) then select now next rest else
      match next with
      | None => select now (Some entry) rest
      | Some chosen => select now (if before entry.2 chosen.2 then Some entry else next) rest
      end
  end.

(** What one call of [deliver] holds while it awaits the handler. *)
Record Flight : Type := mkFlight {
  fl_consumer : jstring; fl_id : jstring; fl_event : option Envelope; fl_attempt : Z
}.
#[export] Instance Flight_eq_dec : EqDecision Flight.
Proof. solve_decision. Defined.

(** Assign to the members of a receipt (the object itself stays in the map). *)
Definition update (consumer id : jstring) (f : Receipt -> Receipt) (s : InMemoryInbox) : InMemoryInbox :=
  match JsMap.get id (receiptsOf consumer s) with
  | Some r => withReceipts consumer (JsMap.set id (f r) (receiptsOf consumer s)) s
  | None => s
  end.

Definition lease (r : Receipt) : Receipt :=
  mkReceipt r.(r_state) (r.(r_attempts) + 1) r.(r_availableAt) true r.(r_sequence).

(** @src src/shared/events/in-memory-inbox.ts:65-88 deliver
    Up to the call of the handler, which gets the stored event. *)
Definition begin (consumer : jstring) (now : Z) (s : InMemoryInbox)
    : InMemoryInbox * Res (option Flight) :=
  if negb (CONSUMER_NAME consumer) then (s, Err invalidConsumer) else
  let s := receiptsFor consumer s in
  match select now None (receiptsOf consumer s) with
  | None => (s, Ok None)
  | Some (eventId, receipt) =>
      (update consumer eventId lease s,
       Ok (Some (mkFlight consumer eventId (JsMap.get eventId s.(i_events)) (receipt.(r_attempts) + 1))))
  end.

(** @src src/shared/events/inbox.ts:16-16 Delivery *)
Inductive Outcome : Type := o_processed | o_retrying | o_dead.
(** @src src/shared/events/inbox.ts:11-19 Delivery *)
Record Delivery : Type := mkDelivery {
  d_eventId : jstring; d_eventType : option jstring; d_attempt : Z;
  d_outcome : Outcome; d_error : option string
}.

(** The handler's settlement: its result, or a value it threw. *)
Inductive Handled : Type := Returned (r : Res unit) | Threw (cause : Caught).

(** @src src/shared/events/in-memory-inbox.ts:87-91 deliver *)
Definition handled (h : Handled) : Res unit :=
  match h with
  | Returned r => r
  | Threw cause =>
      Err (failure Errors.internal "event handler threw"
             (mkOptions (Some "events.handler_threw"%string) None [] cause))
  end.

Definition kindName (k : Kind) : string :=
  match find_first (fun '(_, k') => bool_decide (k = k')) KINDS with
  | Some (n, _) => n
  | None => ""
  end.

(** @src src/shared/events/in-memory-inbox.ts:95-96 deliver *)
Definition succeeded (r : Receipt) : Receipt :=
  mkReceipt processed r.(r_attempts) r.(r_availableAt) false r.(r_sequence).
(** @src src/shared/events/in-memory-inbox.ts:99-101 deliver *)
Definition failed (gone : bool) (at_ : Z) (r : Receipt) : Receipt :=
  mkReceipt (if gone then dead_ else pending) r.(r_attempts) at_ false r.(r_sequence).

(** @src src/shared/events/in-memory-inbox.ts:86-109 deliver
    From the handler's settlement on, in one synchronous run. *)
Definition settle (fl : Flight) (policy : RetryPolicy) (h : Handled) (now : Z) (random : Z * Z)
    (s : InMemoryInbox) : InMemoryInbox * Delivery :=
  let '(mkFlight consumer eventId event attempt) := fl in
  let eventType : option jstring := e_type <$> event in
  match handled h with
  | Ok _ =>
      (update consumer eventId succeeded s, mkDelivery eventId eventType attempt o_processed None)
  | Err error =>
      let gone := exhausted policy attempt in
      (update consumer eventId (failed gone (now + retryDelay policy attempt random)) s,
       mkDelivery eventId eventType attempt (if gone then o_dead else o_retrying)
         (Some (typeOr (kindName (Errors.f_kind error)) error)))
  end.

(** @src src/shared/events/in-memory-inbox.ts:115-115 requeue *)
Definition requeueable (eventId : option jstring) (id : jstring) (r : Receipt) : bool :=
  bool_decide (r.(r_state) = dead_)
  && match eventId with Some e => bool_decide (id = e) | None => true end.
(** @src src/shared/events/in-memory-inbox.ts:116-118 requeue *)
Definition revived (now : Z) (r : Receipt) : Receipt :=
  mkReceipt pending 0 now r.(r_leased) r.(r_sequence).

(** @src src/shared/events/in-memory-inbox.ts:111-122 requeue *)
Definition requeue (consumer : jstring) (eventId : option jstring) (now : jstring -> Z)
    (s : InMemoryInbox) : InMemoryInbox * Res Z :=
  if negb (CONSUMER_NAME consumer) then (s, Err invalidConsumer) else
  let s := receiptsFor consumer s in
  let rs := receiptsOf consumer s in
  let chosen := filter (fun e => requeueable eventId e.1 e.2) rs in
  (withReceipts consumer
     ((fun e => (e.1, if requeueable eventId e.1 e.2 then revived (now e.1) e.2 else e.2)) <$> rs) s,
   Ok (Z.of_nat (length chosen))).

(** @src src/shared/events/in-memory-inbox.ts:128-128 backlog *)
Definition countState (st : ReceiptState) (rs : list (jstring * Receipt)) : Z :=
  Z.of_nat (length (filter (fun r => r.(r_state) = st) (JsMap.values rs))).
(** @src src/shared/events/in-memory-inbox.ts:124-133 backlog *)
Definition backlog (s : InMemoryInbox) : Res (list (jstring * ReceiptState * Z)) :=
  Ok (flat_map (fun '(consumer, rs) =>
        (fun st => (consumer, st, countState st rs)) <$> [pending; dead_]) s.(i_receipts)).

(** @src src/shared/events/in-memory-inbox.ts:135-140 unsettled *)
Definition unsettled (consumer : jstring) (s : InMemoryInbox) : InMemoryInbox * Z :=
  let s := receiptsFor consumer s in
  (s, Z.of_nat (length (filter (fun r => r.(r_state) <> processed) (JsMap.values (receiptsOf consumer s))))).

(** @src src/shared/events/in-memory-inbox.ts:142-147 dead *)
Definition dead (consumer : jstring) (s : InMemoryInbox) : InMemoryInbox * list jstring :=
  let s := receiptsFor consumer s in
  (s, JsMap.keys (filter (fun e => e.2.(r_state) = dead_) (receiptsOf consumer s))).

(** @src src/shared/events/in-memory-inbox.ts:59-109 deliver
    A call of [deliver] that nothing interleaves with. *)
Definition deliver (consumer : jstring) (policy : RetryPolicy) (handler : Flight -> Handled)
    (now later : Z) (random : Z * Z) (s : InMemoryInbox) : InMemoryInbox * Res (option Delivery) :=
  match begin consumer now s with
  | (s, Ok (Some fl)) => let '(s, d) := settle fl policy (handler fl) later random s in (s, Ok (Some d))
  | (s, Ok None) => (s, Ok None)
  | (s, Err e) => (s, Err e)
  end.

(** ** What the operations do to one receipt. *)

Definition receipt (consumer id : jstring) (s : InMemoryInbox) : option Receipt :=
  JsMap.get id (receiptsOf consumer s).

Lemma receiptsOf_with c c' rs s :
  receiptsOf c' (withReceipts c rs s) = if decide (c = c') then rs else receiptsOf c' s.
Proof. unfold receiptsOf, withReceipts. cbn. rewrite JsMap.get_set. by destruct (decide _). Qed.

Lemma receiptsOf_for c c' s : receiptsOf c' (receiptsFor c s) = receiptsOf c' s.
Proof.
  unfold receiptsFor. destruct (JsMap.get c s.(i_receipts)) as [rs|] eqn:E; [done|].
  rewrite receiptsOf_with. destruct (decide (c = c')) as [<-|]; [|done].
  unfold receiptsOf. by rewrite E.
Qed.

Lemma events_for c s : (receiptsFor c s).(i_events) = s.(i_events).
Proof. unfold receiptsFor. by destruct (JsMap.get _ _). Qed.
Lemma sequence_for c s : (receiptsFor c s).(i_sequence) = s.(i_sequence).
Proof. unfold receiptsFor. by destruct (JsMap.get _ _). Qed.
Lemma events_update c id f s : (update c id f s).(i_events) = s.(i_events).
Proof. unfold update. by destruct (JsMap.get _ _). Qed.
Lemma sequence_update c id f s : (update c id f s).(i_sequence) = s.(i_sequence).
Proof. unfold update. by destruct (JsMap.get _ _). Qed.

Lemma receipt_for c c' id s : receipt c' id (receiptsFor c s) = receipt c' id s.
Proof. unfold receipt. by rewrite receiptsOf_for. Qed.

Lemma receipt_update c id f s c' id' :
  receipt c' id' (update c id f s) =
  if decide (c = c' /\ id = id') then f <$> receipt c' id' s else receipt c' id' s.
Proof.
  unfold receipt, update. destruct (JsMap.get id (receiptsOf c s)) as [r|] eqn:E.
  - rewrite receiptsOf_with. destruct (decide (c = c')) as [<-|Hc].
    + rewrite JsMap.get_set. destruct (decide (id = id')) as [<-|Hid].
      * rewrite decide_True by done. by rewrite E.
      * by rewrite decide_False by naive_solver.
    + by rewrite decide_False by naive_solver.
  - destruct (decide _) as [[<- <-]|]; [by rewrite E|done].
Qed.

(** *** [accept]. *)

(** The receipt [accept] leaves for a consumer it names. *)
Definition registered (s : InMemoryInbox) (consumer : jstring) : Prop :=
  JsMap.get consumer s.(i_receipts) <> None.

Lemma openAll_events id cs now s : (openAll id cs now s).1.(i_events) = s.(i_events).
Proof.
  revert s. induction cs as [|c cs IH]; intros s; cbn; [done|].
  destruct (negb _); [done|]. destruct (JsMap.has _ _); rewrite IH; cbn; by rewrite events_for.
Qed.

(** A loop over consumers changes only receipts that were absent, and only
    those of the event for the consumers named. *)
Lemma openAll_receipt id cs now s c id' :
  match receipt c id' s with
  | Some r => receipt c id' (openAll id cs now s).1 = Some r
  | None =>
      receipt c id' (openAll id cs now s).1 = None
      \/ (c ∈ cs /\ id' = id /\ exists q, s.(i_sequence) <= q < (openAll id cs now s).1.(i_sequence)
          /\ receipt c id' (openAll id cs now s).1 = Some (opened (now c) q))
  end
  /\ s.(i_sequence) <= (openAll id cs now s).1.(i_sequence).
Proof.
  revert s. induction cs as [|c0 cs IH]; intros s; cbn; [split; [destruct (receipt _ _ _); eauto|lia]|].
  destruct (negb (CONSUMER_NAME c0)); [split; [cbn; destruct (receipt _ _ _); eauto|cbn; lia]|].
  destruct (JsMap.has id (receiptsOf c0 (receiptsFor c0 s))) eqn:Eh.
  { specialize (IH (receiptsFor c0 s)). rewrite receipt_for, sequence_for in IH.
    destruct IH as [IH Hq]. split; [|done]. destruct (receipt c id' s); [done|].
    destruct IH as [IH|(Hin & -> & q & Hq' & Hr)]; [by left|right].
    split; [by right|]. split; [done|]. exists q. done. }
  rewrite sequence_for. unfold JsMap.has in Eh. rewrite receiptsOf_for in Eh.
  set (s1 := mkInbox _ _ _).
  assert (Hs1 : forall c' i, receipt c' i s1 =
    if decide (c0 = c' /\ id = i) then Some (opened (now c0) s.(i_sequence)) else receipt c' i s).
  { intros c' i. unfold receipt. transitivity (JsMap.get i (receiptsOf c' (withReceipts c0
      (JsMap.set id (opened (now c0) s.(i_sequence)) (receiptsOf c0 (receiptsFor c0 s))) (receiptsFor c0 s)))).
    { done. }
    rewrite receiptsOf_with, !receiptsOf_for. destruct (decide (c0 = c')) as [<-|Hc].
    - rewrite JsMap.get_set. destruct (decide (id = i)); [by rewrite decide_True|by rewrite decide_False by naive_solver].
    - by rewrite decide_False by naive_solver. }
  specialize (IH s1). rewrite Hs1 in IH. cbn [i_sequence s1] in IH. destruct IH as [IH Hq]. split; [|lia].
  destruct (decide (c0 = c /\ id = id')) as [[<- <-]|Hne].
  - unfold receipt at 1. destruct (JsMap.get id (receiptsOf c0 s)); [done|]. right.
    split; [left|]. split; [done|]. exists s.(i_sequence). split; [lia|done].
  - destruct (receipt c id' s); [done|]. destruct IH as [IH|(Hin & -> & q & Hq' & Hr)]; [by left|right].
    split; [by right|]. split; [done|]. exists q. split; [lia|done].
Qed.

Definition settledFor (id : jstring) (s : InMemoryInbox) (consumer : jstring) : Prop :=
  CONSUMER_NAME consumer = true /\ receipt consumer id s <> None.

Lemma openAll_keeps id cs now s c i :
  receipt c i s <> None -> receipt c i (openAll id cs now s).1 <> None.
Proof.
  intros H. destruct (openAll_receipt id cs now s c i) as [Hr _].
  destruct (receipt c i s); [by rewrite Hr|done].
Qed.

Lemma openAll_ok id cs now s :
  (openAll id cs now s).2 = Ok tt -> Forall (settledFor id (openAll id cs now s).1) cs.
Proof.
  revert s. induction cs as [|c cs IH]; intros s H; [constructor|].
  cbn in H |- *. destruct (CONSUMER_NAME c) eqn:Ec; [cbn [negb] in *|done].
  destruct (JsMap.has id _) eqn:Eh.
  - constructor; [|by apply IH]. split; [done|]. apply openAll_keeps. rewrite receipt_for.
    unfold JsMap.has in Eh. rewrite receiptsOf_for in Eh. unfold receipt. by destruct (JsMap.get _ _).
  - constructor; [|by apply IH]. split; [done|]. apply openAll_keeps.
    unfold receipt, receiptsOf at 1. cbn. rewrite !JsMap.get_set_eq. cbn. by rewrite JsMap.get_set_eq.
Qed.

Lemma registered_for c s : registered s c -> receiptsFor c s = s.
Proof. unfold registered, receiptsFor. by destruct (JsMap.get _ _). Qed.

Lemma receipt_registered c id s : receipt c id s <> None -> registered s c.
Proof. unfold receipt, receiptsOf, registered. by destruct (JsMap.get c _). Qed.

Lemma openAll_same id cs now s : Forall (settledFor id s) cs -> openAll id cs now s = (s, Ok tt).
Proof.
  induction 1 as [|c cs [Hc Hr] _ IH]; cbn; [done|]. rewrite Hc. cbn [negb].
  rewrite registered_for by (by eapply receipt_registered).
  unfold JsMap.has. unfold receipt in Hr. destruct (JsMap.get id _); [exact IH|done].
Qed.

Lemma sameBytes_refl e : sameBytes e e = true.
Proof. by apply bool_decide_eq_true_2. Qed.

(** Accepting is once per event and consumer. A successful [accept]
    stores the event, gives every consumer it names a receipt (a new one
    pending, due at once, with no attempts), changes no receipt that existed
    (a redelivered event never resets a delivery) and no receipt of any other
    event or consumer; accepting the event again for those consumers changes
    nothing, and another event under the same id is a conflict that changes
    nothing. *)
Theorem accept_once (event : Envelope) (consumers : list jstring) (now : jstring -> Z)
    (s s' : InMemoryInbox) (Haccept : accept event consumers now s = (s', Ok tt)) :
  JsMap.get event.(e_id) s'.(i_events) = Some event
  /\ (forall c id r, receipt c id s = Some r -> receipt c id s' = Some r)
  /\ (forall c, c ∈ consumers -> receipt c event.(e_id) s = None ->
        exists q, s.(i_sequence) <= q < s'.(i_sequence)
          /\ receipt c event.(e_id) s' = Some (opened (now c) q))
  /\ (forall c id, receipt c id s = None -> id <> event.(e_id) \/ (c ∉ consumers) -> receipt c id s' = None)
  /\ (forall later, accept event consumers later s' = (s', Ok tt))
  /\ (forall other cs later, other.(e_id) = event.(e_id) -> sameBytes event other = false ->
        accept other cs later s' = (s', Err idReused)).
Proof.
  unfold accept in Haccept. destruct (match JsMap.get event.(e_id) s.(i_events) with Some x => negb (sameBytes x event) | None => false end); [done|].
  set (s0 := mkInbox _ _ _) in Haccept. change (s.(i_sequence)) with (s0.(i_sequence)).
  assert (Hev : JsMap.get event.(e_id) s'.(i_events) = Some event).
  { change s' with (fst (s', @Ok Failure unit tt)). rewrite <- Haccept, openAll_events. apply JsMap.get_set_eq. }
  pose proof (openAll_receipt event.(e_id) consumers now s0) as Hspec.
  pose proof (openAll_ok event.(e_id) consumers now s0) as Hall.
  rewrite Haccept in Hspec, Hall. cbn [fst snd] in *. specialize (Hall eq_refl).
  split; [done|]. split; [|split; [|split; [|split]]].
  - intros c id r Hr. destruct (Hspec c id) as [H _]. by rewrite (Hr : receipt c id s0 = Some r) in H.
  - intros c Hc Hn. destruct (Hspec c event.(e_id)) as [H _].
    rewrite (Hn : receipt c _ s0 = None) in H. destruct H as [H|(_ & _ & H)]; [|exact H].
    by apply (proj1 (Forall_forall _ _) Hall c) in Hc as [_ ?].
  - intros c id Hn Hne. destruct (Hspec c id) as [H _].
    rewrite (Hn : receipt c _ s0 = None) in H. destruct H as [H|(Hc & -> & _)]; [done|].
    by destruct Hne.
  - intros later. unfold accept. rewrite Hev, sameBytes_refl. cbn [negb].
    rewrite JsMap.set_same by done. destruct s' as [evs rs q]. by apply openAll_same.
  - intros other cs later Hid Hb. unfold accept. rewrite Hid, Hev, Hb. done.
Qed.

Definition sample_now (_ : jstring) : Z := 1000.
Definition sample_inbox : InMemoryInbox :=
  (accept sample_envelope [js "billing"; js "audit.trail"] sample_now empty).1.

Lemma accept_once_witness :
  JsMap.get sample_envelope.(e_id) sample_inbox.(i_events) = Some sample_envelope
  /\ accept sample_envelope [js "billing"; js "audit.trail"] (fun _ => 7000) sample_inbox = (sample_inbox, Ok tt).
Proof.
  assert (H : accept sample_envelope [js "billing"; js "audit.trail"] sample_now empty = (sample_inbox, Ok tt))
    by (vm_compute; reflexivity).
  destruct (accept_once sample_envelope [js "billing"; js "audit.trail"] sample_now empty sample_inbox H)
    as (He & _ & _ & _ & Hagain & _).
  split; [exact He|exact (Hagain (fun _ => 7000))].
Defined.

(** *** [deliver] and [requeue]. *)

Lemma before_trans a b c : before b a = false -> before c b = false -> before c a = false.
Proof. unfold before. intros. rewrite !orb_false_iff, !andb_false_iff, ?Z.ltb_ge, ?Z.eqb_neq in *. lia. Qed.
Lemma before_asym a b : before a b = true -> before b a = false.
Proof. unfold before. rewrite orb_true_iff, andb_true_iff, orb_false_iff, andb_false_iff, ?Z.ltb_lt, ?Z.eqb_eq, ?Z.ltb_ge, ?Z.eqb_neq. lia. Qed.
Lemma before_irrefl a : before a a = false.
Proof. unfold before. by rewrite !Z.ltb_irrefl, andb_false_r. Qed.

(** The order of the queue: by availability, then by acceptance. *)
Definition queued (a b : Receipt) : Prop :=
  a.(r_availableAt) < b.(r_availableAt)
  \/ (a.(r_availableAt) = b.(r_availableAt) /\ a.(r_sequence) <= b.(r_sequence)).

Lemma before_queued a b : before b a = false -> queued a b.
Proof. unfold before, queued. rewrite orb_false_iff, andb_false_iff, Z.ltb_ge, Z.eqb_neq, Z.ltb_ge. lia. Qed.

(** The loop keeps the first minimal due entry, in (availableAt, sequence) order. *)
Lemma select_spec now next entries :
  match select now next entries with
  | None => next = None /\ Forall (fun e => due now e.2 = false) entries
  | Some e =>
      (next = Some e \/ (e ∈ entries /\ due now e.2 = true))
      /\ (forall e', next = Some e' \/ (e' ∈ entries /\ due now e'.2 = true) -> before e'.2 e.2 = false)
  end.
Proof.
  revert next. induction entries as [|x l IH]; intros next; cbn.
  { destruct next as [e|]; [|done]. split; [by left|]. intros e' [[= ->]|[?%elem_of_nil _]]; [apply before_irrefl|done]. }
  destruct (due now x.2) eqn:Ex; cbn [negb].
  - destruct next as [n|].
    + destruct (before x.2 n.2) eqn:Eb.
      * specialize (IH (Some x)). destruct (select now (Some x) l) as [e|]; [|by destruct IH].
        destruct IH as [Hin Hmin]. split.
        { destruct Hin as [[= <-]|[Hin Hd]]; right; (split; [|done]); [left|by right]. }
        intros e' [[= <-]|[[->|Hin']%elem_of_cons Hd']].
        -- eapply before_trans; [apply Hmin; by left|by apply before_asym].
        -- apply Hmin. by left.
        -- apply Hmin. by right.
      * specialize (IH (Some n)). destruct (select now (Some n) l) as [e|]; [|by destruct IH].
        destruct IH as [Hin Hmin]. split.
        { destruct Hin as [[= <-]|[Hin Hd]]; [by left|right; split; [by right|done]]. }
        intros e' [[= <-]|[[->|Hin']%elem_of_cons Hd']].
        -- apply Hmin. by left.
        -- eapply before_trans; [apply Hmin; by left|done].
        -- apply Hmin. by right.
    + specialize (IH (Some x)). destruct (select now (Some x) l) as [e|]; [|by destruct IH].
      destruct IH as [Hin Hmin]. split.
      { destruct Hin as [[= <-]|[Hin Hd]]; right; (split; [|done]); [left|by right]. }
      intros e' [?|[[->|Hin']%elem_of_cons Hd']]; [done| |]; apply Hmin; [by left|by right].
  - specialize (IH next). destruct (select now next l) as [e|].
    + destruct IH as [Hin Hmin]. split.
      { destruct Hin as [->|[Hin Hd]]; [by left|right; split; [by right|done]]. }
      intros e' [He'|[[->|Hin']%elem_of_cons Hd']]; [apply Hmin; by left|congruence|apply Hmin; by right].
    + destruct IH as [-> Hl]. split; [done|]. by constructor.
Qed.

(** What a call of [deliver] does before its handler runs. *)
Lemma begin_spec c now s :
  match begin c now s with
  | (s', Ok (Some fl)) =>
      exists id r, (id, r) ∈ receiptsOf c s /\ due now r = true
        /\ (forall e, e ∈ receiptsOf c s -> due now e.2 = true -> before e.2 r = false)
        /\ fl = mkFlight c id (JsMap.get id s.(i_events)) (r.(r_attempts) + 1)
        /\ s' = update c id lease (receiptsFor c s)
  | (s', Ok None) =>
      s' = receiptsFor c s /\ Forall (fun e => due now e.2 = false) (receiptsOf c s)
  | (s', Err e) => s' = s /\ e = invalidConsumer /\ CONSUMER_NAME c = false
  end.
Proof.
  unfold begin. destruct (CONSUMER_NAME c); cbn [negb]; [|done].
  rewrite receiptsOf_for. pose proof (select_spec now None (receiptsOf c s)) as H.
  destruct (select now None (receiptsOf c s)) as [[id r]|]; [|by destruct H].
  destruct H as [[?|[Hin Hd]] Hmin]; [done|]. exists id, r. rewrite events_for.
  repeat split; [done..|]. intros e He Hde. apply Hmin. by right.
Qed.

Lemma receipt_requeue c o now s c' id' :
  receipt c' id' (requeue c o now s).1 =
  if decide (CONSUMER_NAME c = true /\ c = c')
  then (fun r => if requeueable o id' r then revived (now id') r else r) <$> receipt c' id' s
  else receipt c' id' s.
Proof.
  unfold requeue. destruct (CONSUMER_NAME c) eqn:Ec; cbn [negb fst]; [|by rewrite decide_False by naive_solver].
  unfold receipt. rewrite receiptsOf_with, !receiptsOf_for.
  destruct (decide (c = c')) as [<-|Hne].
  - rewrite decide_True by done.
    exact (JsMap.get_map (fun id r => if requeueable o id r then revived (now id) r else r) id' (receiptsOf c s)).
  - by rewrite decide_False by naive_solver.
Qed.

(** ** Interleavings.

    The ledger with the calls of [deliver] that await a handler.  Any call may
    run while handlers do, several of them for the same consumer, and handlers
    settle in any order. *)
Section Interleaving.
  Context (policy : RetryPolicy).

Definition System : Type := InMemoryInbox * list Flight.

Inductive step : System -> System -> Prop :=
| step_accept event consumers now s fls :
    step (s, fls) ((accept event consumers now s).1, fls)
| step_begin consumer now s fls :
    step (s, fls) ((begin consumer now s).1,
      match (begin consumer now s).2 with Ok (Some fl) => fl :: fls | _ => fls end)
| step_settle fl before after h now random s :
    step (s, before ++ fl :: after) ((settle fl policy h now random s).1, before ++ after)
| step_requeue consumer eventId now s fls :
    step (s, fls) ((requeue consumer eventId now s).1, fls)
| step_read consumer s fls : step (s, fls) (receiptsFor consumer s, fls).

Definition reachable : System -> Prop := rtc step (empty, []).

(** The only ways a receipt changes. *)
Inductive edge : Receipt -> Receipt -> Prop :=
| edge_same r : edge r r
| edge_lease r : r.(r_state) = pending -> r.(r_leased) = false ->
    r.(r_attempts) < policy.(maxAttempts) -> edge r (lease r)
| edge_success r : r.(r_leased) = true -> edge r (succeeded r)
| edge_failure r at_ : r.(r_leased) = true ->
    edge r (failed (exhausted policy r.(r_attempts)) at_ r)
| edge_revive r at_ : r.(r_state) = dead_ -> edge r (revived at_ r).

(** A receipt in good order: leased only while pending, never past the
    attempts of the policy, and dead only once they are spent. *)
Record good (r : Receipt) : Prop := mkGood {
  g_attempts : 0 <= r.(r_attempts) <= policy.(maxAttempts);
  g_leased : r.(r_leased) = true -> r.(r_state) = pending /\ 1 <= r.(r_attempts);
  g_pending : r.(r_state) = pending -> r.(r_leased) = false -> r.(r_attempts) < policy.(maxAttempts);
  g_dead : r.(r_state) = dead_ -> r.(r_attempts) = policy.(maxAttempts)
}.

(** A handler in flight holds the lease of its receipt and the event. *)
Definition holds (s : InMemoryInbox) (fl : Flight) : Prop :=
  (exists r, receipt fl.(fl_consumer) fl.(fl_id) s = Some r
     /\ r.(r_leased) = true /\ r.(r_attempts) = fl.(fl_attempt))
  /\ (exists e e', fl.(fl_event) = Some e /\ e.(e_id) = fl.(fl_id)
        /\ JsMap.get fl.(fl_id) s.(i_events) = Some e' /\ sameBytes e' e = true).

Definition slot (fl : Flight) : jstring * jstring := (fl.(fl_consumer), fl.(fl_id)).

Record Inv (sys : System) : Prop := mkInv {
  inv_good : forall c id r, receipt c id sys.1 = Some r -> good r;
  inv_event : forall c id r, receipt c id sys.1 = Some r ->
    exists e, JsMap.get id sys.1.(i_events) = Some e /\ e.(e_id) = id;
  inv_holds : Forall (holds sys.1) sys.2;
  inv_slots : NoDup (slot <$> sys.2);
  inv_leased : forall c id r, receipt c id sys.1 = Some r -> r.(r_leased) = true -> (c, id) ∈ slot <$> sys.2;
  inv_wf : forall c, JsMap.wf (receiptsOf c sys.1)
}.
Lemma wf_with c rs s :
  JsMap.wf rs -> (forall c', JsMap.wf (receiptsOf c' s)) -> forall c', JsMap.wf (receiptsOf c' (withReceipts c rs s)).
Proof. intros Hrs Hs c'. rewrite receiptsOf_with. by destruct (decide _). Qed.

Lemma wf_for c s :
  (forall c', JsMap.wf (receiptsOf c' s)) -> forall c', JsMap.wf (receiptsOf c' (receiptsFor c s)).
Proof. intros Hs c'. by rewrite receiptsOf_for. Qed.

Lemma wf_update c id f s :
  (forall c', JsMap.wf (receiptsOf c' s)) -> forall c', JsMap.wf (receiptsOf c' (update c id f s)).
Proof.
  intros Hs. unfold update. destruct (JsMap.get _ _); [|done]. apply wf_with; [|done]. apply JsMap.wf_set, Hs.
Qed.

Lemma wf_openAll id cs now s :
  (forall c', JsMap.wf (receiptsOf c' s)) -> forall c', JsMap.wf (receiptsOf c' (openAll id cs now s).1).
Proof.
  revert s. induction cs as [|c cs IH]; intros s Hs; cbn; [done|]. destruct (negb _); [done|].
  destruct (JsMap.has _ _); apply IH; [by apply wf_for|].
  change (forall c', JsMap.wf (receiptsOf c' (withReceipts c
    (JsMap.set id (opened (now c) (receiptsFor c s).(i_sequence)) (receiptsOf c (receiptsFor c s))) (receiptsFor c s)))).
  apply wf_with; [|by apply wf_for]. apply JsMap.wf_set, wf_for, Hs.
Qed.

Lemma wf_requeue c o now s :
  (forall c', JsMap.wf (receiptsOf c' s)) -> forall c', JsMap.wf (receiptsOf c' (requeue c o now s).1).
Proof.
  intros Hs. unfold requeue. destruct (negb _); [done|]. apply wf_with; [|by apply wf_for].
  unfold JsMap.wf. rewrite (JsMap.keys_map (fun id r => if requeueable o id r then revived (now id) r else r)).
  apply wf_for, Hs.
Qed.

(** *** [accept] on a reachable ledger. *)
Lemma accept_cases e cs now s :
  (accept e cs now s).1 = s
  \/ ((forall old, JsMap.get e.(e_id) s.(i_events) = Some old -> sameBytes old e = true)
     /\ (accept e cs now s).1 = (openAll e.(e_id) cs now
           (mkInbox (JsMap.set e.(e_id) e s.(i_events)) s.(i_receipts) s.(i_sequence))).1).
Proof.
  unfold accept. destruct (JsMap.get e.(e_id) s.(i_events)) as [old|] eqn:E.
  - destruct (sameBytes old e) eqn:Eb; cbn; [right|by left]. split; [|done]. by intros ? [= <-].
  - right. by split.
Qed.

Lemma accept_receipt e cs now s c id :
  match receipt c id s with
  | Some r => receipt c id (accept e cs now s).1 = Some r
  | None => receipt c id (accept e cs now s).1 = None
      \/ (id = e.(e_id) /\ JsMap.get id (accept e cs now s).1.(i_events) = Some e
         /\ exists q, receipt c id (accept e cs now s).1 = Some (opened (now c) q))
  end.
Proof.
  destruct (accept_cases e cs now s) as [->|[_ ->]]; [destruct (receipt c id s); auto|].
  set (s0 := mkInbox _ _ _). destruct (openAll_receipt e.(e_id) cs now s0 c id) as [H _].
  change (receipt c id s) with (receipt c id s0). destruct (receipt c id s0); [done|].
  destruct H as [H|(_ & -> & q & _ & H)]; [by left|right]. split; [done|]. split; [|eauto].
  rewrite openAll_events. apply JsMap.get_set_eq.
Qed.

Lemma accept_event e cs now s id old :
  JsMap.get id s.(i_events) = Some old ->
  exists e', JsMap.get id (accept e cs now s).1.(i_events) = Some e'
    /\ sameBytes old e' = true /\ (old.(e_id) = id -> e'.(e_id) = id).
Proof.
  intros Hold. destruct (accept_cases e cs now s) as [->|[Hb ->]].
  { exists old. by rewrite sameBytes_refl. }
  rewrite openAll_events. cbn. rewrite JsMap.get_set. destruct (decide (e.(e_id) = id)) as [<-|]; [|eauto using sameBytes_refl].
  exists e. split; [done|]. split; [by apply Hb|done].
Qed.

Lemma sameBytes_trans a b c : sameBytes a b = true -> sameBytes a c = true -> sameBytes b c = true.
Proof.
  unfold sameBytes. intros H%bool_decide_eq_true H'%bool_decide_eq_true.
  apply bool_decide_eq_true_2. congruence.
Qed.

Context (Hpolicy : 1 <= policy.(maxAttempts)).

Lemma good_opened at_ q : good (opened at_ q).
Proof. constructor; cbn; intros; try done; lia. Qed.

Lemma inv_accept e cs now s fls : Inv (s, fls) -> Inv ((accept e cs now s).1, fls).
Proof.
  intros [Hg He Hh Hn Hl Hw]. cbn [fst snd] in *. pose proof (accept_receipt e cs now s) as Hr.
  constructor; cbn [fst snd].
  - intros c id r H. specialize (Hr c id). destruct (receipt c id s) as [r0|] eqn:E.
    + rewrite Hr in H. injection H as <-. by eapply Hg.
    + destruct Hr as [?|(_ & _ & q & Hq)]; [congruence|]. rewrite Hq in H. injection H as <-. apply good_opened.
  - intros c id r H. specialize (Hr c id). destruct (receipt c id s) as [r0|] eqn:E.
    + destruct (He c id r0 E) as (old & Hold & Hid).
      destruct (accept_event e cs now s id old Hold) as (e' & ? & _ & Hid'). eauto.
    + destruct Hr as [?|(-> & Hev & _)]; [congruence|]. eauto.
  - eapply Forall_impl; [exact Hh|]. intros fl [(r & Hfl & Hlr & Ha) (x & x' & Hx & Hid & Hx' & Hb)]. split.
    + specialize (Hr fl.(fl_consumer) fl.(fl_id)). rewrite Hfl in Hr. eauto.
    + destruct (accept_event e cs now s _ _ Hx') as (y & Hy & Hby & _).
      exists x, y. repeat split; [done..|]. eapply sameBytes_trans; [|exact Hb]. done.
  - done.
  - intros c id r H Hlr. specialize (Hr c id). destruct (receipt c id s) as [r0|] eqn:E.
    + rewrite Hr in H. injection H as <-. by eapply Hl.
    + destruct Hr as [?|(_ & _ & q & Hq)]; [congruence|]. rewrite Hq in H. by injection H as <-.
  - destruct (accept_cases e cs now s) as [->|[_ ->]]; [done|]. by apply wf_openAll.
Qed.

Lemma inv_for c s fls : Inv (s, fls) -> Inv (receiptsFor c s, fls).
Proof.
  intros [Hg He Hh Hn Hl Hw]. cbn [fst snd] in *. constructor; cbn [fst snd]; [..|by apply wf_for].
  - intros c' id r. rewrite receipt_for. apply Hg.
  - intros c' id r. rewrite receipt_for, events_for. apply He.
  - eapply Forall_impl; [exact Hh|]. intros fl. unfold holds. by rewrite receipt_for, events_for.
  - done.
  - intros c' id r. rewrite receipt_for. apply Hl.
Qed.
Lemma due_spec now r : due now r = true <-> r.(r_state) = pending /\ r.(r_leased) = false /\ r.(r_availableAt) <= now.
Proof. unfold due. rewrite !andb_true_iff, bool_decide_eq_true, negb_true_iff, Z.leb_le. tauto. Qed.

Lemma good_lease r : good r -> r.(r_state) = pending -> r.(r_leased) = false -> good (lease r).
Proof.
  intros [Ha _ Hp _] Hs Hl. specialize (Hp Hs Hl). constructor; cbn; rewrite ?Hs; intros; try done; [lia|].
  split; [done|lia].
Qed.

Lemma slot_holds s fls c id :
  Forall (holds s) fls -> (c, id) ∈ slot <$> fls ->
  exists fl r, fl ∈ fls /\ slot fl = (c, id) /\ receipt c id s = Some r
    /\ r.(r_leased) = true /\ r.(r_attempts) = fl.(fl_attempt).
Proof.
  intros Hh (fl & Hfl & Hin)%list_elem_of_fmap.
  destruct (proj1 (Forall_forall _ _) Hh fl Hin) as [(r & Hr & Hl & Ha) _].
  injection Hfl as -> ->. by exists fl, r.
Qed.

Lemma inv_begin c now s fls :
  Inv (s, fls) ->
  Inv ((begin c now s).1, match (begin c now s).2 with Ok (Some fl) => fl :: fls | _ => fls end).
Proof.
  intros Hinv. pose proof (begin_spec c now s) as Hb.
  destruct (begin c now s) as [s' [[fl|]|e]]; cbn [fst snd].
  2: { destruct Hb as [-> _]. by apply inv_for. }
  2: { by destruct Hb as [-> _]. }
  destruct Hb as (id & r & Hin & Hd & _ & -> & ->). apply due_spec in Hd as (Hs & Hnl & _).
  assert (Hr : receipt c id s = Some r) by (apply JsMap.entry_get; [apply (inv_wf _ Hinv)|done]).
  assert (Hnot : (c, id) ∉ slot <$> fls).
  { intros Hslot. destruct (slot_holds _ _ _ _ (inv_holds _ Hinv) Hslot) as (fl & r' & _ & _ & Hr' & Hl' & _).
    cbn [fst] in Hr'. rewrite Hr in Hr'. injection Hr' as <-. congruence. }
  apply (inv_for c) in Hinv. destruct Hinv as [Hg He Hh Hn Hl Hw]. cbn [fst snd] in *.
  set (s1 := receiptsFor c s) in *. assert (Hr1 : receipt c id s1 = Some r) by (by unfold s1; rewrite receipt_for).
  assert (Hev : s1.(i_events) = s.(i_events)) by apply events_for. rewrite <- Hev.
  assert (Hup : forall c' id' r', receipt c' id' (update c id lease s1) = Some r' ->
    (c = c' /\ id = id' /\ r' = lease r) \/ ((c, id) <> (c', id') /\ receipt c' id' s1 = Some r')).
  { intros c' id' r'. rewrite receipt_update. destruct (decide _) as [[<- <-]|Hne]; [|right; naive_solver].
    rewrite Hr1. intros [= <-]. by left. }
  constructor; cbn [fst snd].
  - intros c' id' r' [(_ & _ & ->)|[_ H]]%Hup; [apply good_lease; [by eapply Hg|done..]|by eapply Hg].
  - rewrite events_update. intros c' id' r' [(<- & <- & _)|[_ H]]%Hup; by eapply He.
  - constructor.
    + destruct (He _ _ _ Hr1) as (e & Hge & Hid). split; cbn.
      * exists (lease r). rewrite receipt_update, decide_True, Hr1 by done. done.
      * exists e, e. rewrite events_update, Hge, sameBytes_refl. done.
    + apply Forall_forall. intros fl Hfl. apply (proj1 (Forall_forall _ _) Hh) in Hfl as Hhf.
      destruct Hhf as [(r' & Hr' & Hl' & Ha') Hev']. split; [|by rewrite events_update].
      exists r'. rewrite receipt_update, decide_False; [done|]. intros [-> ->].
      apply Hnot. by apply (list_elem_of_fmap_2 slot) in Hfl.
  - cbn. apply NoDup_cons. done.
  - cbn. intros c' id' r' [(<- & <- & _)|[_ H]]%Hup Hlr; [left|right; by eapply Hl].
  - by apply wf_update.
Qed.

Lemma good_settled r at_ :
  good r -> r.(r_leased) = true ->
  good (succeeded r) /\ good (failed (exhausted policy r.(r_attempts)) at_ r).
Proof.
  intros [Ha Hl _ _] Hlr. destruct (Hl Hlr) as [_ H1]. unfold exhausted. split; constructor; cbn; try done.
  - destruct (_ <=? _) eqn:E; breflect; [done|]. intros _ _. lia.
  - destruct (_ <=? _) eqn:E; breflect; [|done]. intros _. lia.
Qed.

(** Settling assigns to the flight's receipt only. *)
Lemma settle_update fl h now random s r :
  r.(r_leased) = true -> r.(r_attempts) = fl.(fl_attempt) ->
  exists f, (settle fl policy h now random s).1 = update fl.(fl_consumer) fl.(fl_id) f s
    /\ (f r = succeeded r \/ exists at_, f r = failed (exhausted policy r.(r_attempts)) at_ r).
Proof.
  intros Hl Ha. destruct fl as [c id ev n]. cbn in *. subst n. unfold settle. destruct (handled h).
  - exists succeeded. eauto.
  - eexists. split; [done|]. right. eauto.
Qed.

Lemma inv_settle fl l k h now random s :
  Inv (s, l ++ fl :: k) -> Inv ((settle fl policy h now random s).1, l ++ k).
Proof.
  intros [Hg He Hh Hn Hl Hw]. cbn [fst snd] in *.
  rewrite Forall_app, Forall_cons in Hh. destruct Hh as (Hhl & Hhf & Hhk).
  destruct Hhf as [(r & Hr & Hlr & Ha) _].
  destruct (settle_update fl h now random s r Hlr Ha) as (f & -> & Hf).
  assert (Hgf : good (f r) /\ (f r).(r_leased) = false).
  { destruct Hf as [->|[at_ ->]]; (split; [|done]); destruct (good_settled r 0 (Hg _ _ _ Hr) Hlr) as [H _]; [done|].
    by destruct (good_settled r at_ (Hg _ _ _ Hr) Hlr). }
  destruct Hgf as [Hgf Hlf].
  rewrite fmap_app, fmap_cons in Hn.
  assert (Hnot : slot fl ∉ slot <$> (l ++ k)).
  { rewrite fmap_app. rewrite <- Permutation_middle, NoDup_cons in Hn. tauto. }
  assert (Hup : forall c' id' r', receipt c' id' (update (fl_consumer fl) (fl_id fl) f s) = Some r' ->
    (slot fl = (c', id') /\ r' = f r) \/ (slot fl <> (c', id') /\ receipt c' id' s = Some r')).
  { intros c' id' r'. rewrite receipt_update. unfold slot. destruct (decide _) as [[<- <-]|Hne]; [|right; naive_solver].
    rewrite Hr. intros [= <-]. by left. }
  constructor; cbn [fst snd].
  - intros c' id' r' [[_ ->]|[_ H]]%Hup; [done|by eapply Hg].
  - rewrite events_update. intros c' id' r' [[[= <- <-] _]|[_ H]]%Hup; by eapply He.
  - apply Forall_forall. intros fl' Hfl'.
    assert (Hh' : holds s fl') by (apply elem_of_app in Hfl' as [?|?]; [by apply (proj1 (Forall_forall _ _) Hhl)|by apply (proj1 (Forall_forall _ _) Hhk)]).
    destruct Hh' as [(r' & Hr' & Hl' & Ha') Hev']. split; [|by rewrite events_update].
    exists r'. rewrite receipt_update, decide_False; [done|]. intros [E1 E2].
    apply Hnot. replace (slot fl) with (slot fl') by (unfold slot; congruence). by apply list_elem_of_fmap_2.
  - rewrite fmap_app. rewrite <- Permutation_middle, NoDup_cons in Hn. tauto.
  - intros c' id' r' [[_ ->]|[Hne H]]%Hup Hlr'; [congruence|].
    specialize (Hl _ _ _ H Hlr'). rewrite fmap_app, fmap_cons, elem_of_app, elem_of_cons in Hl.
    rewrite fmap_app, elem_of_app. naive_solver.
  - by apply wf_update.
Qed.

Lemma good_revived r at_ : good r -> r.(r_state) = dead_ -> good (revived at_ r).
Proof.
  intros [Ha Hl Hp Hd] Hs. constructor; cbn; intros; try done; [lia| |lia].
  destruct (Hl ltac:(done)) as [? _]. congruence.
Qed.

Lemma inv_requeue c o now s fls : Inv (s, fls) -> Inv ((requeue c o now s).1, fls).
Proof.
  intros [Hg He Hh Hn Hl Hw]. cbn [fst snd] in *.
  assert (Hup : forall c' id r', receipt c' id (requeue c o now s).1 = Some r' ->
    exists r, receipt c' id s = Some r /\ (r' = r \/ (r.(r_state) = dead_ /\ exists at_, r' = revived at_ r))).
  { intros c' id r'. rewrite receipt_requeue. destruct (decide _); [|eauto].
    destruct (receipt c' id s) as [r|]; [|done]. intros [= <-]. exists r. split; [done|].
    unfold requeueable. destruct (bool_decide_reflect (r.(r_state) = dead_)); [|by left]. cbn [andb].
    destruct o as [x|]; [destruct (bool_decide (id = x)); [right|left]|right]; eauto. }
  assert (Hev : (requeue c o now s).1.(i_events) = s.(i_events)).
  { unfold requeue. destruct (negb _); [done|]. cbn. apply events_for. }
  constructor; cbn [fst snd].
  - intros c' id r' (r & Hr & [->|[Hd [at_ ->]]])%Hup; [by eapply Hg|]. apply good_revived; [by eapply Hg|done].
  - rewrite Hev. intros c' id r' (r & Hr & _)%Hup. by eapply He.
  - eapply Forall_impl; [exact Hh|]. intros fl [(r & Hr & Hlr & Ha) Hfe]. split; [|by rewrite Hev].
    exists r. rewrite receipt_requeue. destruct (decide _); [|done]. rewrite Hr. cbn.
    destruct (g_leased _ (Hg _ _ _ Hr) Hlr) as [Hp _]. unfold requeueable. rewrite Hp. done.
  - done.
  - intros c' id r' (r & Hr & [->|[Hd [at_ ->]]])%Hup Hlr; by eapply Hl.
  - by apply wf_requeue.
Qed.

Lemma inv_reachable sys : reachable sys -> Inv sys.
Proof.
  assert (H0 : Inv (empty, [])) by (constructor; cbn; try done; [constructor|intros; constructor]).
  intros Hr. unfold reachable in Hr. revert H0. induction Hr as [|a b c Hab _ IH]; [done|].
  intros Ha. apply IH. destruct Hab; [apply inv_accept|apply inv_begin|eapply inv_settle|apply inv_requeue|apply inv_for]; eauto.
Qed.
(** Every step moves each receipt along an edge. *)
Lemma step_edge sys sys' c id r :
  Inv sys -> step sys sys' -> receipt c id sys.1 = Some r ->
  exists r', receipt c id sys'.1 = Some r' /\ edge r r'.
Proof.
  intros Hinv Hstep Hr. destruct Hstep as [e cs now s fls|c0 now s fls|fl l k h now rnd s|c0 o now s fls|c0 s fls]; cbn [fst] in *.
  - pose proof (accept_receipt e cs now s c id) as H. rewrite Hr in H. eauto using edge.
  - pose proof (begin_spec c0 now s) as H. destruct (begin c0 now s) as [s' [[fl|]|e]]; cbn [fst].
    + destruct H as (i & r0 & Hin & Hd & _ & _ & ->). rewrite receipt_update, receipt_for.
      destruct (decide _) as [[-> ->]|]; [|eauto using edge].
      assert (Hr0 : receipt c id s = Some r0) by (apply JsMap.entry_get; [apply (inv_wf _ Hinv)|done]).
      rewrite Hr in Hr0. injection Hr0 as <-. apply due_spec in Hd as (Hs & Hl & _).
      rewrite Hr. exists (lease r). split; [done|]. constructor; [done..|].
      by apply (g_pending _ (inv_good _ Hinv _ _ _ Hr)).
    + destruct H as [-> _]. rewrite receipt_for. eauto using edge.
    + destruct H as [-> _]. eauto using edge.
  - pose proof (inv_holds _ Hinv) as Hh. cbn in Hh. rewrite Forall_app, Forall_cons in Hh.
    destruct Hh as (_ & [(r0 & Hr0 & Hl & Ha) _] & _).
    destruct (settle_update fl h now rnd s r0 Hl Ha) as (f & -> & Hf). rewrite receipt_update.
    destruct (decide _) as [[<- <-]|]; [|eauto using edge]. rewrite Hr in Hr0 |- *. injection Hr0 as <-.
    exists (f r). split; [done|]. destruct Hf as [->|[at_ ->]]; by constructor.
  - rewrite receipt_requeue. destruct (decide _); [|eauto using edge]. rewrite Hr. cbn. eexists. split; [done|].
    unfold requeueable. destruct (bool_decide_reflect (r.(r_state) = dead_)); [|constructor]. cbn [andb].
    destruct (match o with Some x => bool_decide (id = x) | None => true end); [by constructor|constructor].
  - rewrite receipt_for. eauto using edge.
Qed.

(** Exclusive, bounded delivery. However calls interleave, no two running
    handlers have the same consumer and event; each running handler was given
    the stored event of its receipt, holds that receipt's lease, and is an
    attempt between the first and the last the policy allows; every lease has a
    running handler; every receipt has a stored event, a pending one has
    attempts left and a dead one has spent them. *)
Theorem exclusive_delivery (sys : System) (Hreach : reachable sys) :
  NoDup (slot <$> sys.2)
  /\ Forall (fun fl => holds sys.1 fl /\ 1 <= fl.(fl_attempt) <= policy.(maxAttempts)) sys.2
  /\ (forall c id r, receipt c id sys.1 = Some r ->
        good r /\ (r.(r_leased) = true -> (c, id) ∈ slot <$> sys.2)
        /\ exists e, JsMap.get id sys.1.(i_events) = Some e /\ e.(e_id) = id).
Proof.
  apply inv_reachable in Hreach as [Hg He Hh Hn Hl Hw]. split; [done|]. split.
  - eapply Forall_impl; [exact Hh|]. intros fl Hfl. split; [done|].
    destruct Hfl as [(r & Hr & Hlr & <-) _]. specialize (Hg _ _ _ Hr).
    destruct (g_leased _ Hg Hlr). pose proof (g_attempts _ Hg). lia.
  - intros c id r Hr. split; [by eapply Hg|]. split; [by apply Hl|by eapply He].
Qed.

(** C28. The life of a delivery. A receipt is never lost and keeps its sequence
    number. It changes only by being leased with an attempt left, by its handler's
    success, by its handler's failure (dead exactly when the attempts are spent),
    or by an operator reviving a dead one; the time it is due at, which orders the
    queue before the sequence number does, moves only by a failure or a revival.
    Once processed a receipt never changes again, whatever calls follow. *)
Theorem receipt_lifecycle (sys sys' : System) (c id : jstring) (r : Receipt)
    (Hreach : reachable sys) (Hr : receipt c id sys.1 = Some r) :
  (step sys sys' -> exists r', receipt c id sys'.1 = Some r' /\ edge r r' /\ r'.(r_sequence) = r.(r_sequence)
     /\ (r'.(r_availableAt) <> r.(r_availableAt) ->
           (r.(r_leased) = true /\ r'.(r_leased) = false /\ r'.(r_state) <> processed)
           \/ (r.(r_state) = dead_ /\ r'.(r_state) = pending /\ r'.(r_attempts) = 0)))
  /\ (r.(r_state) = processed -> rtc step sys sys' -> receipt c id sys'.1 = Some r).
Proof.
  split.
  - intros Hs. destruct (step_edge _ _ _ _ _ (inv_reachable _ Hreach) Hs Hr) as (r' & ? & He).
    exists r'. split; [done|]. split; [done|]. split; [by destruct He|]. destruct He; try done; intros _; [left|by right].
    split; [done|]. split; [done|]. cbn. by destruct (exhausted _ _).
  - intros Hp Hs. induction Hs as [sys|a b d Hab _ IH]; [done|]. apply IH.
    + by eapply rtc_r.
    + destruct (step_edge _ _ _ _ _ (inv_reachable _ Hreach) Hab Hr) as (r' & Hr' & He). rewrite Hr'. f_equal.
      destruct He; try done; try congruence.
      * destruct (g_leased _ (inv_good _ (inv_reachable _ Hreach) _ _ _ Hr) ltac:(done)). congruence.
      * destruct (g_leased _ (inv_good _ (inv_reachable _ Hreach) _ _ _ Hr) ltac:(done)). congruence.
Qed.
End Interleaving.

Definition sample_policy : RetryPolicy := mkPolicy 2 500 1000.
Definition sample_flight : Flight :=
  mkFlight (js "billing") sample_envelope.(e_id) (Some sample_envelope) 1.
Definition sample_running : System := ((begin (js "billing") 1000 sample_inbox).1, [sample_flight]).

Lemma sample_reachable : reachable sample_policy sample_running.
Proof.
  unfold reachable, sample_running. eapply rtc_l; [apply (step_accept _ sample_envelope [js "billing"; js "audit.trail"] sample_now)|].
  eapply rtc_l; [apply (step_begin _ (js "billing") 1000)|].
  change (match (begin (js "billing") 1000 _).2 with Ok (Some fl) => fl :: [] | _ => [] end)
    with [sample_flight]. apply rtc_refl.
Qed.

Lemma exclusive_delivery_witness :
  reachable sample_policy sample_running /\ NoDup (slot <$> [sample_flight]).
Proof.
  assert (H : reachable sample_policy sample_running) by exact sample_reachable.
  split; [exact H|]. apply (exclusive_delivery sample_policy ltac:(cbn; lia) sample_running H).
Defined.

Lemma receipt_lifecycle_witness :
  exists r', receipt (js "billing") sample_envelope.(e_id)
      (settle sample_flight sample_policy (Returned (Err idReused)) 2000 (0, 1) sample_running.1).1 = Some r'
    /\ edge sample_policy (mkReceipt pending 1 1000 true 0) r' /\ r'.(r_sequence) = 0
    /\ (r'.(r_availableAt) <> 1000 ->
          (true = true /\ r'.(r_leased) = false /\ r'.(r_state) <> processed)
          \/ (pending = dead_ /\ r'.(r_state) = pending /\ r'.(r_attempts) = 0)).
Proof.
  assert (Hr : receipt (js "billing") sample_envelope.(e_id) sample_running.1 = Some (mkReceipt pending 1 1000 true 0))
    by (vm_compute; reflexivity).
  apply (receipt_lifecycle sample_policy ltac:(cbn; lia) sample_running
    ((settle sample_flight sample_policy (Returned (Err idReused)) 2000 (0, 1) sample_running.1).1, [])
    (js "billing") sample_envelope.(e_id) (mkReceipt pending 1 1000 true 0) sample_reachable Hr).
  exact (step_settle sample_policy sample_flight [] [] (Returned (Err idReused)) 2000 (0, 1) sample_running.1).
Defined.

(** ** Draining a consumer's queue. *)

(** What one consumer could be handed at [now], in no particular order. *)
Definition ready (consumer : jstring) (now : Z) (s : InMemoryInbox) : list (jstring * Receipt) :=
  filter (fun e => due now e.2 = true) (receiptsOf consumer s).

(** [n] calls of [deliver] in a row, and the deliveries they made. *)
Fixpoint drain (n : nat) (consumer : jstring) (policy : RetryPolicy) (handler : Flight -> Handled)
    (now : Z) (random : Z * Z) (s : InMemoryInbox) : InMemoryInbox * list Delivery :=
  match n with
  | O => (s, [])
  | S n =>
      match deliver consumer policy handler now now random s with
      | (s, Ok (Some d)) =>
          let '(s, ds) := drain n consumer policy handler now random s in (s, d :: ds)
      | (s, _) => (s, [])
      end
  end.

Lemma receiptsOf_update c id f s r :
  receipt c id s = Some r -> receiptsOf c (update c id f s) = JsMap.set id (f r) (receiptsOf c s).
Proof. unfold receipt, update. intros ->. by rewrite receiptsOf_with, decide_True. Qed.

Lemma update_update c id f g s : update c id g (update c id f s) = update c id (fun r => g (f r)) s.
Proof.
  unfold update at 2 3. destruct (JsMap.get id (receiptsOf c s)) as [r|] eqn:E.
  - unfold update. rewrite receiptsOf_with, decide_True by done. rewrite JsMap.get_set_eq.
    unfold withReceipts. cbn. by rewrite JsMap.set_set, JsMap.set_set.
  - unfold update. by rewrite E.
Qed.

(** A call whose handler succeeds settles the first ready receipt. *)
Lemma deliver_success c policy handler now random s :
  CONSUMER_NAME c = true -> (forall fl, handler fl = Returned (Ok tt)) -> JsMap.wf (receiptsOf c s) ->
  match deliver c policy handler now now random s with
  | (s', Ok (Some d)) =>
      exists r, (d.(d_eventId), r) ∈ ready c now s
        /\ (forall e, e ∈ ready c now s -> before e.2 r = false)
        /\ d.(d_outcome) = o_processed
        /\ s' = update c d.(d_eventId) (fun r => succeeded (lease r)) (receiptsFor c s)
  | (s', Ok None) => s' = receiptsFor c s /\ ready c now s = []
  | (s', Err _) => False
  end.
Proof.
  intros Hc Hh Hw. unfold deliver. pose proof (begin_spec c now s) as Hb.
  destruct (begin c now s) as [s' [[fl|]|e]].
  - destruct Hb as (id & r & Hin & Hd & Hmin & -> & ->). rewrite Hh. cbn. exists r. split.
    { apply list_elem_of_filter. done. }
    split; [|split; [done|apply update_update]].
    intros e [Hde Hine]%list_elem_of_filter. by apply Hmin.
  - destruct Hb as [-> Hall]. split; [done|]. unfold ready. clear Hw. induction Hall as [|e l He _ IH]; [done|].
    rewrite filter_cons_False by (by rewrite He). exact IH.
  - destruct Hb as (_ & _ & H). congruence.
Qed.

Lemma ready_settled c now id f s r :
  JsMap.wf (receiptsOf c s) -> receipt c id s = Some r -> due now (f r) = false ->
  ready c now (update c id f s) = JsMap.delete id (ready c now s).
Proof.
  intros Hw Hr Hd. unfold ready. rewrite (receiptsOf_update _ _ _ _ _ Hr).
  apply JsMap.filter_set_out; [done| |].
  - unfold receipt in Hr. by rewrite Hr.
  - cbn. by rewrite Hd.
Qed.

Lemma ready_get c now id r s :
  JsMap.wf (receiptsOf c s) -> (id, r) ∈ ready c now s -> receipt c id s = Some r /\ due now r = true.
Proof. intros Hw [Hd Hin]%list_elem_of_filter. split; [by apply JsMap.entry_get|done]. Qed.

Lemma drain_spec n c policy handler now random s :
  CONSUMER_NAME c = true -> (forall fl, handler fl = Returned (Ok tt)) ->
  (forall c', JsMap.wf (receiptsOf c' s)) -> length (ready c now s) = n ->
  let '(s', ds) := drain n c policy handler now random s in
  ready c now s' = []
  /\ Forall (fun d => d.(d_outcome) = o_processed) ds
  /\ (exists es, es ≡ₚ ready c now s /\ d_eventId <$> ds = es.*1
        /\ StronglySorted (fun a b => queued a.2 b.2) es)
  /\ (forall c' id, receipt c' id s' =
        if decide (c' = c /\ id ∈ JsMap.keys (ready c now s))
        then (fun r => succeeded (lease r)) <$> receipt c' id s else receipt c' id s).
Proof.
  intros Hc Hh. revert s. induction n as [|n IH]; intros s Hw Hn; cbn [drain].
  { apply nil_length_inv in Hn. rewrite Hn. split; [done|]. split; [constructor|]. split.
    - exists []. repeat constructor.
    - intros c' id. rewrite decide_False; [done|]. intros [_ []%elem_of_nil]. }
  pose proof (deliver_success c policy handler now random s Hc Hh (Hw c)) as Hd.
  destruct (deliver c policy handler now now random s) as [s1 [[d|]|]]; [| |done].
  2: { destruct Hd as [_ Hd]. by rewrite Hd in Hn. }
  destruct Hd as (r & Hin & Hmin & Ho & ->).
  set (id := d.(d_eventId)) in *. set (f := fun r => succeeded (lease r)).
  destruct (ready_get _ _ _ _ _ (Hw c) Hin) as [Hr _].
  assert (Hr' : receipt c id (receiptsFor c s) = Some r) by (by rewrite receipt_for).
  assert (Hrd : ready c now (update c id f (receiptsFor c s)) = JsMap.delete id (ready c now s)).
  { erewrite ready_settled; [|by apply wf_for|exact Hr'|done]. unfold ready. by rewrite receiptsOf_for. }
  assert (Hwr : JsMap.wf (ready c now s)) by (apply JsMap.wf_filter, Hw).
  pose proof (JsMap.delete_perm id r _ Hwr (JsMap.entry_get _ _ _ Hwr Hin)) as Hp.
  specialize (IH (update c id f (receiptsFor c s)) (wf_update _ _ _ _ (wf_for _ _ Hw))).
  rewrite Hrd in IH. specialize (IH ltac:(apply Permutation_length in Hp; cbn in Hp; lia)).
  destruct (drain n c policy handler now random _) as [s' ds]. destruct IH as (H0 & Hout & (es & Hes & Hids & Hsort) & Hall).
  split; [done|]. split; [by constructor|]. split.
  - exists ((id, r) :: es). split; [by rewrite Hes, <- Hp|]. split; [by cbn; rewrite Hids|].
    constructor; [done|]. apply Forall_forall. intros e He. apply before_queued, Hmin. rewrite Hp, <- Hes. by right.
  - intros c' i. rewrite Hall, receipt_update, receipt_for.
    assert (Hkeys : i ∈ JsMap.keys (ready c now s) <-> i = id \/ i ∈ JsMap.keys (JsMap.delete id (ready c now s))).
    { unfold JsMap.keys. rewrite Hp at 1. cbn. by rewrite elem_of_cons. }
    assert (Hgone : id ∉ JsMap.keys (JsMap.delete id (ready c now s))) by apply JsMap.get_None, JsMap.get_delete_eq.
    destruct (decide (c = c' /\ id = i)) as [[<- <-]|Hne].
    + rewrite decide_False by naive_solver. by rewrite decide_True by naive_solver.
    + destruct (decide (c' = c /\ i ∈ JsMap.keys (JsMap.delete id (ready c now s)))).
      * by rewrite decide_True by naive_solver.
      * rewrite decide_False; [done|]. rewrite Hkeys. naive_solver.
Qed.

(** A consumer with a working handler drains its queue. From any reachable
    ledger, with other handlers still running, as many calls of [deliver] as
    there are due deliveries process each of them exactly once, in order of
    availability and then of acceptance; after them nothing is due, and no
    other delivery, of this consumer or of another, has changed. *)
Theorem drain_in_order (policy : RetryPolicy) (s : InMemoryInbox) (fls : list Flight)
    (c : jstring) (handler : Flight -> Handled) (now : Z) (random : Z * Z)
    (Hpolicy : 1 <= policy.(maxAttempts)) (Hreach : reachable policy (s, fls))
    (Hname : CONSUMER_NAME c = true) (Hhandler : forall fl, handler fl = Returned (Ok tt)) :
  let due_now := ready c now s in
  let '(s', ds) := drain (length due_now) c policy handler now random s in
  (exists es, es ≡ₚ due_now /\ d_eventId <$> ds = es.*1
     /\ StronglySorted (fun a b => queued a.2 b.2) es)
  /\ (forall c' id, receipt c' id s' =
        if decide (c' = c /\ id ∈ JsMap.keys due_now)
        then (fun r => succeeded (lease r)) <$> receipt c' id s else receipt c' id s)
  /\ (deliver c policy handler now now random s').2 = Ok None.
Proof.
  apply inv_reachable in Hreach; [|done]. intros due_now.
  pose proof (drain_spec (length due_now) c policy handler now random s Hname Hhandler (inv_wf _ _ Hreach) eq_refl) as H.
  destruct (drain _ c policy handler now random s) as [s' ds]. destruct H as (H0 & _ & Hes & Hall).
  split; [done|]. split; [done|]. unfold deliver.
  pose proof (begin_spec c now s') as Hb. destruct (begin c now s') as [s1 [[fl|]|e]]; cbn; [|done|].
  - destruct Hb as (id & r & Hin & Hd & _). exfalso.
    assert (Hx : (id, r) ∈ ready c now s') by (by apply list_elem_of_filter). rewrite H0 in Hx. by apply elem_of_nil in Hx.
  - destruct Hb as (_ & _ & Hb). congruence.
Qed.

Lemma drain_in_order_witness :
  length (ready (js "audit.trail") 2000 sample_running.1) = 1%nat
  /\ let '(s', ds) := drain (length (ready (js "audit.trail") 2000 sample_running.1)) (js "audit.trail")
        sample_policy (fun _ => Returned (Ok tt)) 2000 (0, 1) sample_running.1 in
      (deliver (js "audit.trail") sample_policy (fun _ => Returned (Ok tt)) 2000 2000 (0, 1) s').2 = Ok None.
Proof.
  split; [vm_compute; reflexivity|].
  pose proof (drain_in_order sample_policy sample_running.1 sample_running.2 (js "audit.trail")
    (fun _ => Returned (Ok tt)) 2000 (0, 1) ltac:(cbn; lia) sample_reachable
    ltac:(vm_compute; reflexivity) (fun _ => eq_refl)) as H.
  cbv zeta in H. destruct (drain _ _ _ _ _ _ _) as [s' ds]. exact (proj2 (proj2 H)).
Defined.
End Inbox.
