(* ===== verification/EventStore.v ===== *)
(** * The PostgreSQL outbox and mailbox: [shared/events/postgres/store.ts].

    Both tables hold rows that are leased: a row is claimed under a token for
    thirty seconds, and whoever claimed it settles it or returns it to the
    queue.  Each method's statements are functions on the table's rows; what one
    transaction does is one function of this file.  The server's clock and the
    rows other transactions hold locked ([FOR UPDATE SKIP LOCKED]) are
    arguments, and so is the [jsonb] the server reads from an envelope's text.
    Times are in microseconds. *)
From S2P Require Import Prelude JsMap Errors Ids Json Provenance Events Postgres Inbox.

(** ** Leased rows. *)
Module LeasedRows.

Inductive RowState : Type := pending | settled | dead.
#[export] Instance RowState_eq_dec : EqDecision RowState.
Proof. solve_decision. Defined.

(** The columns both tables have; [content] is what is particular to one:
    the outbox row's envelope.  [settled] is [sent] there and [processed] for a
    receipt. *)
Record Row (C : Type) : Type := mkRow {
  state : RowState; attempts : Z; available_at : Z; lease : option ID; lease_until : option Z;
  last_error : option string; finished_at : option Z; content : C
}.
Arguments mkRow {C}.
Arguments state {C}.
Arguments attempts {C}.
Arguments available_at {C}.
Arguments lease {C}.
Arguments lease_until {C}.
Arguments last_error {C}.
Arguments finished_at {C}.
Arguments content {C}.

(** @src src/shared/events/postgres/store.ts:29-29 LEASE *)
Definition LEASE : Z := 30 * 1000000.
(** @src src/shared/events/postgres/store.ts:30-30 UNDECODABLE *)
Definition UNDECODABLE : string := "events.undecodable".
(** [error?.slice(0, 200)]. *)
Definition clipped (error : string) : string := String.substring 0 200 error.

(** [($5::integer*interval '1 millisecond')]. *)
Definition milliseconds (ms : Z) : Z := ms * 1000.

Section Rows.
  Context {C : Type}.
  Implicit Types r : Row C.

(** The defaults of a new row. *)
Definition inserted (t : Z) (c : C) : Row C := mkRow pending 0 t None None None None c.

(** [lease_until IS NULL OR lease_until<=clock_timestamp()]. *)
Definition unleased (t : Z) r : bool :=
  match r.(lease_until) with None => true | Some until => until <=? t end.

(** @src src/shared/events/postgres/store.ts:92-93 claim *)
Definition abandoned (max t : Z) r : bool :=
  bool_decide (r.(state) = pending) && (max <=? r.(attempts)) && unleased t r.
(** @src src/shared/events/postgres/store.ts:89-91 claim *)
Definition abandon (t : Z) r : Row C :=
  mkRow dead r.(attempts) r.(available_at) None None
    (Some (default "events.lease_expired"%string r.(last_error))) (Some t) r.(content).

(** @src src/shared/events/postgres/store.ts:100-101 claim *)
Definition claimable (max t : Z) r : bool :=
  bool_decide (r.(state) = pending) && (r.(attempts) <? max) && (r.(available_at) <=? t) && unleased t r.
(** @src src/shared/events/postgres/store.ts:104-105 claim *)
Definition leased (token : ID) (t : Z) r : Row C :=
  mkRow r.(state) (r.(attempts) + 1) r.(available_at) (Some token) (Some (t + LEASE))
    r.(last_error) r.(finished_at) r.(content).

(** @src src/shared/events/postgres/store.ts:114-119 claim *)
Definition quarantine (t : Z) r : Row C :=
  mkRow dead r.(attempts) r.(available_at) None None (Some UNDECODABLE) (Some t) r.(content).

(** @src src/shared/events/postgres/store.ts:140-143 finish *)
Definition finished (to : RowState) (error : option string) (delayMs t : Z) r : Row C :=
  mkRow to r.(attempts) (t + milliseconds delayMs) None None (clipped <$> error)
    (if bool_decide (to = pending) then None else Some t) r.(content).

(** @src src/shared/events/postgres/store.ts:215-217 requeue *)
Definition revived (t : Z) r : Row C :=
  mkRow pending 0 t r.(lease) r.(lease_until) None None r.(content).

(** ** What holds of every row. *)

(** The constraints of the schema (with at most [max] attempts), and that only
    pending rows are leased and only settled and dead ones finished. *)
Record sound (max : Z) r : Prop := mkSound {
  so_lease : isNull r.(lease) = isNull r.(lease_until);
  so_attempts : 0 <= r.(attempts) <= max;
  so_error : forall e, r.(last_error) = Some e -> (String.length e <= 200)%nat;
  so_pending : r.(state) = pending -> r.(finished_at) = None;
  so_finished : r.(state) <> pending -> r.(lease) = None /\ r.(finished_at) <> None
}.

Lemma clipped_length e : (String.length (clipped e) <= 200)%nat.
Proof.
  unfold clipped. generalize 200%nat as n. induction e as [|c e IH]; intros [|n]; cbn; try lia. specialize (IH n). lia.
Qed.

Lemma sound_inserted max t c : 0 <= max -> sound max (inserted t c).
Proof. intros Hm. split; cbn; try done. Qed.

Lemma sound_abandon max t r : sound max r -> sound max (abandon t r).
Proof.
  intros [Hl Ha He Hp Hf]. split; cbn; try done. intros e [= <-]. destruct (last_error r) as [e|]; [by apply He|cbn; lia].
Qed.

Lemma sound_leased max token t r : sound max r -> claimable max t r = true -> forall t', sound max (leased token t' r).
Proof.
  intros [Hl Ha He Hp Hf] Hc t'. unfold claimable in Hc. breflect. apply bool_decide_eq_true in H.
  split; cbn; try done. lia.
Qed.

Lemma sound_quarantine max t r : sound max r -> sound max (quarantine t r).
Proof. intros [Hl Ha He Hp Hf]. split; cbn; try done. intros e [= <-]. cbn. lia. Qed.

Lemma sound_finished max to error ms t r : sound max r -> sound max (finished to error ms t r).
Proof.
  intros [Hl Ha He Hp Hf]. split; cbn; try done.
  - intros e. destruct error; [|done]. intros [= <-]. apply clipped_length.
  - intros ->. done.
  - intros Hto. by rewrite bool_decide_eq_false_2.
Qed.

Lemma sound_revived max t r : sound max r -> r.(state) = dead -> sound max (revived t r).
Proof.
  intros [Hl Ha He Hp Hf] Hd. destruct Hf as [Hln _]; [congruence|]. split; cbn; try done. lia.
Qed.
End Rows.

(** ** Statements on a table. *)
Section Table.
  Context {K C : Type} `{Kdec : EqDecision K}.
  (** The identifier a key orders by. *)
  Context (idOf : K -> ID).
  Abbreviation Table := (list (K * Row C)).

(** [UPDATE ... WHERE]: the rows that match are changed. *)
Definition updateWhere (p : K -> Row C -> bool) (f : Row C -> Row C) (t : Table) : Table :=
  (fun e => (e.1, if p e.1 e.2 then f e.2 else e.2)) <$> t.
(** [result.rowCount]. *)
Definition rowCount (p : K -> Row C -> bool) (t : Table) : Z := Z.of_nat (length (filter (fun e => p e.1 e.2 = true) t)).

(** [ORDER BY available_at,event_id]; identifiers compare as their text. *)
Definition before (a b : K * Row C) : bool :=
  (a.2.(available_at) <? b.2.(available_at))
  || ((a.2.(available_at) =? b.2.(available_at)) && bool_decide (jcompare (idOf a.1) (idOf b.1) = Lt)).

(** [LIMIT 1]. *)
Fixpoint first (rows : Table) : option (K * Row C) :=
  match rows with
  | [] => None
  | e :: rest => match first rest with
                 | None => Some e
                 | Some e' => Some (if before e' e then e' else e)
                 end
  end.

(** The candidate of a claim among the rows [mine], skipping the rows [locked]
    by other transactions. *)
Definition candidate (mine locked : K -> bool) (max t : Z) (rows : Table) : option (K * Row C) :=
  first (filter (fun e => mine e.1 && negb (locked e.1) && claimable max t e.2 = true) rows).

(** @src src/shared/events/postgres/store.ts:88-111 claim
    The rows abandoned on their last attempt die, then the next due row is
    leased. The three statements read the clock at [t1], [t2] and [t3]. *)
Definition claimNext (mine locked : K -> bool) (max : Z) (token : ID) (t1 t2 t3 : Z) (rows : Table)
    : Table * option (K * Row C) :=
  let rows := updateWhere (fun k r => mine k && abandoned max t1 r) (abandon t1) rows in
  match candidate mine locked max t2 rows with
  | None => (rows, None)
  | Some (k, r) => (JsMap.set k (leased token t3 r) rows, Some (k, leased token t3 r))
  end.
(** ** Lemmas. *)

Lemma get_updateWhere p f k rows :
  JsMap.get k (updateWhere p f rows) = (fun r => if p k r then f r else r) <$> JsMap.get k rows.
Proof. exact (JsMap.get_map (fun k r => if p k r then f r else r) k rows). Qed.

Lemma wf_updateWhere p f rows : JsMap.wf rows -> JsMap.wf (updateWhere p f rows).
Proof.
  unfold JsMap.wf. intros Hw. replace (JsMap.keys (updateWhere p f rows)) with (JsMap.keys rows); [done|].
  symmetry. exact (JsMap.keys_map (fun k r => if p k r then f r else r) rows).
Qed.

Lemma rowCount_key p k rows :
  JsMap.wf rows -> (forall k' r, p k' r = true -> k' = k) ->
  rowCount p rows = match JsMap.get k rows with Some r => if p k r then 1 else 0 | None => 0 end.
Proof.
  intros Hw Hp. unfold rowCount. induction rows as [|[k0 r0] rows IH]; [done|].
  unfold JsMap.wf in Hw. cbn in Hw. apply NoDup_cons in Hw as [Hk0 Hw]. rewrite filter_cons. cbn [fst snd JsMap.get].
  destruct (decide (k = k0)) as [<-|Hne].
  - specialize (IH Hw). rewrite (proj2 (JsMap.get_None rows k)) in IH by done.
    case_decide as Hd; [rewrite Hd; cbn [length]; lia|]. apply not_true_is_false in Hd. by rewrite Hd.
  - rewrite decide_False; [by apply IH|]. intros H. apply Hne. symmetry. by eapply Hp.
Qed.

(** A statement no row matches. *)
Lemma updateWhere_none p f rows :
  JsMap.wf rows -> (forall k r, JsMap.get k rows = Some r -> p k r = false) -> updateWhere p f rows = rows.
Proof.
  intros Hw Hp. unfold updateWhere. rewrite <- (list_fmap_id rows) at 2. apply list_fmap_ext. intros i [k r] Hi. cbn.
  rewrite (Hp k r); [done|]. apply JsMap.entry_get; [done|]. by eapply list_elem_of_lookup_2.
Qed.

Lemma rowCount_none p rows :
  JsMap.wf rows -> (forall k r, JsMap.get k rows = Some r -> p k r = false) -> rowCount p rows = 0.
Proof.
  intros Hw Hp. unfold rowCount. destruct (filter _ rows) as [|[k r] rest] eqn:E; [done|].
  assert (Hin : (k, r) ∈ filter (fun e => p e.1 e.2 = true) rows) by (rewrite E; left).
  apply list_elem_of_filter in Hin as [Hpk Hin]. cbn in Hpk. rewrite (Hp k r) in Hpk; [done|]. by apply JsMap.entry_get.
Qed.

(** The keys of the rows that are not settled. *)
Definition open_ (rows : Table) : list K := (filter (fun e => e.2.(state) <> settled) rows).*1.

Lemma elem_of_open rows k : JsMap.wf rows -> k ∈ open_ rows <-> exists r, JsMap.get k rows = Some r /\ r.(state) <> settled.
Proof.
  intros Hw. unfold open_. split.
  - intros ([k' r] & -> & [Hs Hin]%list_elem_of_filter)%list_elem_of_fmap. exists r. split; [by apply JsMap.entry_get|done].
  - intros (r & Hg & Hs). apply list_elem_of_fmap. exists (k, r). split; [done|]. apply list_elem_of_filter. split; [done|by apply JsMap.get_entry].
Qed.

Lemma NoDup_open rows : JsMap.wf rows -> NoDup (open_ rows).
Proof. intros Hw. exact (JsMap.wf_filter (fun e => e.2.(state) <> settled) rows Hw). Qed.

(** One row is settled and the others keep their state. *)
Lemma open_settled rows rows' k r :
  JsMap.wf rows -> JsMap.wf rows' -> JsMap.get k rows = Some r -> r.(state) <> settled ->
  (state <$> JsMap.get k rows') = Some settled -> (forall k', k' <> k -> JsMap.get k' rows' = JsMap.get k' rows) ->
  open_ rows ≡ₚ k :: open_ rows'.
Proof.
  clear idOf.
  intros Hw Hw' Hg Hs Hk Hother. apply NoDup_Permutation; [by apply NoDup_open| |].
  - constructor; [|by apply NoDup_open]. rewrite elem_of_open by done. intros (r' & Hg' & Hs'). rewrite Hg' in Hk. cbn in Hk. congruence.
  - intros k'. rewrite elem_of_cons, !elem_of_open by done. destruct (decide (k' = k)) as [->|Hne]; [|rewrite Hother by done; naive_solver].
    split; [by left|]. intros _. by exists r.
Qed.

Lemma first_in rows e : first rows = Some e -> e ∈ rows.
Proof.
  revert e. induction rows as [|e0 rows IH]; intros e; [done|]. cbn. destruct (first rows) as [e1|].
  - destruct (before e1 e0); intros [= <-]; [right; by apply IH|left].
  - intros [= <-]. left.
Qed.

Lemma first_None rows : first rows = None -> rows = [].
Proof. destruct rows as [|e rows]; [done|]. cbn. by destruct (first rows). Qed.

Lemma candidate_some mine locked max t rows k r :
  JsMap.wf rows -> candidate mine locked max t rows = Some (k, r) ->
  JsMap.get k rows = Some r /\ mine k = true /\ locked k = false /\ claimable max t r = true.
Proof.
  intros Hw [Hc Hin]%first_in%list_elem_of_filter. cbn in Hc. rewrite !andb_true_iff, negb_true_iff in Hc.
  destruct Hc as [[? ?] ?]. split; [by apply JsMap.entry_get|done].
Qed.

Lemma candidate_none mine locked max t rows k r :
  candidate mine locked max t rows = None -> JsMap.get k rows = Some r -> mine k = true -> locked k = false ->
  claimable max t r = false.
Proof.
  intros Hn%first_None Hk Hm Hl. destruct (claimable max t r) eqn:E; [|done]. exfalso.
  apply (not_elem_of_nil (k, r)). rewrite <- Hn. apply list_elem_of_filter. cbn. rewrite Hm, Hl, E. split; [done|]. by apply JsMap.get_entry.
Qed.
End Table.
End LeasedRows.

(** ** Leases over time.

    Every claim is logged with its token, its row and the end of its lease.
    A lease that has not ended (its holder has not settled the row) and has not
    run out is the one the row carries. *)
Module Leases.
Import LeasedRows.

Record Log (K : Type) : Type := mkLog { l_token : ID; l_key : K; l_until : Z }.
Arguments mkLog {K}.
Arguments l_token {K}.
Arguments l_key {K}.
Arguments l_until {K}.

Section Leases.
  Context {K C : Type} `{Kdec : EqDecision K} (idOf : K -> ID) (max : Z).
  Abbreviation Table := (list (K * Row C)).

(** [ended] holds the tokens of the claims that were settled by their holders. *)
Record leases (clock : Z) (rows : Table) (log : list (Log K)) (ended : list ID) : Prop := mkLeases {
  le_wf : JsMap.wf rows;
  le_sound : forall k r, JsMap.get k rows = Some r -> sound max r;
  le_unique : NoDup (l_token <$> log);
  le_logged : forall k r token, JsMap.get k rows = Some r -> r.(lease) = Some token ->
    exists l, l ∈ log /\ l.(l_token) = token /\ l.(l_key) = k /\ r.(lease_until) = Some l.(l_until);
  le_live : forall l, l ∈ log ->
    l.(l_token) ∈ ended \/ l.(l_until) <= clock
    \/ exists r, JsMap.get l.(l_key) rows = Some r /\ r.(lease) = Some l.(l_token) /\ r.(lease_until) = Some l.(l_until)
}.

Lemma leases_later clock clock' rows log ended ended' :
  clock <= clock' -> (forall x, x ∈ ended -> x ∈ ended') -> leases clock rows log ended -> leases clock' rows log ended'.
Proof.
  intros Hc He [Hw Hs Hu Hl Hv]. split; try done. intros l Hin. destruct (Hv l Hin) as [?|[?|?]]; [by auto|right; left; lia|by auto].
Qed.

Lemma leases_update clock rows log ended p f :
  leases clock rows log ended ->
  (forall k r, JsMap.get k rows = Some r -> p k r = true ->
     sound max (f r)
     /\ ((f r).(lease) = r.(lease) /\ (f r).(lease_until) = r.(lease_until)
         \/ (f r).(lease) = None
            /\ forall token until, r.(lease) = Some token -> r.(lease_until) = Some until -> token ∈ ended \/ until <= clock)) ->
  leases clock (updateWhere p f rows) log ended.
Proof.
  intros [Hw Hs Hu Hl Hv] Hf. split; [by apply wf_updateWhere| |done| |].
  - intros k r. rewrite get_updateWhere. intros (r0 & Hg & ->)%fmap_Some. destruct (p k r0) eqn:Ep; [by apply (Hf k)|by eapply Hs].
  - intros k r token. rewrite get_updateWhere. intros (r0 & Hg & ->)%fmap_Some Ht.
    destruct (p k r0) eqn:Ep; [|by eapply Hl]. destruct (Hf k r0 Hg Ep) as [_ [[H1 H2]|[H1 _]]]; [|congruence].
    rewrite H1 in Ht. rewrite H2. by apply Hl.
  - intros l Hin. destruct (Hv l Hin) as [?|[?|(r & Hg & Ht & Hun)]]; [by auto..|]. destruct (p (l_key l) r) eqn:Ep.
    + destruct (Hf _ r Hg Ep) as [_ [[H1 H2]|[_ Hout]]].
      * right. right. exists (f r). rewrite get_updateWhere, Hg. cbn. rewrite Ep, H1, H2. done.
      * destruct (Hout _ _ Ht Hun); auto.
    + right. right. exists r. rewrite get_updateWhere, Hg. cbn. by rewrite Ep.
Qed.

Lemma leases_set clock rows log ended k r0 token t2 t3 :
  leases clock rows log ended -> JsMap.get k rows = Some r0 -> claimable max t2 r0 = true -> t2 <= clock ->
  token ∉ l_token <$> log ->
  leases clock (JsMap.set k (leased token t3 r0) rows) (mkLog token k (t3 + LEASE) :: log) ended.
Proof.
  intros [Hw Hs Hu Hl Hv] Hk Hc Ht Hfresh. split.
  - by apply JsMap.wf_set.
  - intros k' r. rewrite JsMap.get_set. destruct (decide (k = k')) as [<-|]; [|by apply Hs].
    intros [= <-]. eapply sound_leased; [by eapply Hs|exact Hc].
  - cbn. by apply NoDup_cons.
  - intros k' r tok. rewrite JsMap.get_set. destruct (decide (k = k')) as [<-|].
    + intros [= <-] [= <-]. eexists. split; [left|done].
    + intros Hg Hlt. destruct (Hl _ _ _ Hg Hlt) as (l & Hin & ?). exists l. split; [by right|done].
  - intros l [-> |Hin]%elem_of_cons.
    + right. right. exists (leased token t3 r0). cbn. by rewrite JsMap.get_set_eq.
    + destruct (Hv l Hin) as [?|[?|(r & Hg & Htk & Hun)]]; [by auto..|].
      destruct (decide (k = l_key l)) as [->|Hne].
      * rewrite Hk in Hg. injection Hg as <-. right. left. unfold claimable, unleased in Hc. breflect.
        rewrite Hun in H0. apply Z.leb_le in H0. lia.
      * right. right. exists r. by rewrite JsMap.get_set_ne by done.
Qed.

Lemma leases_insert clock rows log ended k t c :
  0 <= max -> leases clock rows log ended -> JsMap.get k rows = None ->
  leases clock (JsMap.set k (inserted t c) rows) log ended.
Proof.
  intros Hm [Hw Hs Hu Hl Hv] Hk. split; [by apply JsMap.wf_set| |done| |].
  - intros k' r. rewrite JsMap.get_set. destruct (decide (k = k')) as [<-|]; [intros [= <-]; by apply sound_inserted|apply Hs].
  - intros k' r tok. rewrite JsMap.get_set. destruct (decide (k = k')) as [<-|]; [by intros [= <-]|apply Hl].
  - intros l Hin. destruct (Hv l Hin) as [?|[?|(r & Hg & H)]]; [by auto..|]. right. right. exists r.
    rewrite JsMap.get_set_ne; [done|]. intros ->. congruence.
Qed.

Lemma leases_filter clock rows log ended (P : K * Row C -> Prop) `{forall e, Decision (P e)} :
  leases clock rows log ended ->
  (forall k r, JsMap.get k rows = Some r -> ~ P (k, r) -> r.(lease) = None) ->
  leases clock (filter P rows) log ended.
Proof.
  intros [Hw Hs Hu Hl Hv] Hout.
  assert (Hsub : forall k r, JsMap.get k (filter P rows) = Some r -> JsMap.get k rows = Some r).
  { intros k r. rewrite JsMap.get_filter by done. destruct (JsMap.get k rows) as [r0|]; [|done]. by case_decide. }
  split; [by apply JsMap.wf_filter|eauto|done|eauto|].
  intros l Hin. destruct (Hv l Hin) as [?|[?|(r & Hg & Htk & Hun)]]; [by auto..|]. right. right. exists r.
  rewrite JsMap.get_filter, Hg by done. case_decide as HP; [done|]. apply Hout in HP; [congruence|done].
Qed.

(** A claim: abandoned rows die, and the row claimed was free. *)
Lemma leases_claim clock rows log ended mine locked token t1 t2 t3 rows' found :
  leases clock rows log ended -> t1 <= clock -> t2 <= clock -> token ∉ l_token <$> log ->
  claimNext idOf mine locked max token t1 t2 t3 rows = (rows', found) ->
  let dead_ := updateWhere (fun k r => mine k && abandoned max t1 r) (abandon t1) rows in
  leases clock dead_ log ended
  /\ match found with
     | None => rows' = dead_
     | Some (k, r) => exists r0, JsMap.get k dead_ = Some r0 /\ r = leased token t3 r0 /\ mine k = true /\ claimable max t2 r0 = true
         /\ rows' = JsMap.set k r dead_ /\ leases clock rows' (mkLog token k (t3 + LEASE) :: log) ended
     end.
Proof.
  intros HL H1 H2 Hfresh Hc. cbv zeta.
  assert (HD : leases clock (updateWhere (fun k r => mine k && abandoned max t1 r) (abandon t1) rows) log ended).
  { apply leases_update; [done|]. intros k r Hg [_ Hab]%andb_true_iff. split; [by eapply sound_abandon, le_sound|]. right. split; [done|].
    intros tok until _ Hun. right. unfold abandoned, unleased in Hab. rewrite Hun in Hab. breflect. lia. }
  split; [done|]. unfold claimNext in Hc. cbv zeta in Hc. destruct (candidate _ _ _ _ _ _) as [[k r0]|] eqn:Ec; injection Hc as <- <-; [|done].
  apply candidate_some in Ec as (Hg & Hm & _ & Hcl); [|by eapply le_wf]. exists r0. split_and!; try done. by eapply leases_set.
Qed.
End Leases.
End Leases.

(** ** The outbox. *)
Module Outbox.
Import LeasedRows Inbox.Retry.

Abbreviation Outbox := (list (ID * Row Events.Raw)).

(** @src src/shared/events/postgres/store.ts:32-33 conflict *)
Definition conflict_ (code : string) : Failure :=
  fail_with conflict "event delivery conflict" ("events." ++ code)%string.

(** What the server rejects: a violated CHECK or a cast. *)
Definition rejected : Failure := Database.map (Database.DatabaseError "23514" None).

Section Insert.
  (** [envelope::jsonb]: nothing if the cast fails. *)
  Context {J : Type} `{Jdec : EqDecision J} (jsonb : Events.Raw -> option J).

(** @src src/shared/events/postgres/store.ts:35-51 insert
    The stored text of the identifier [id], if it may stand: a new row, or one
    whose envelope is the same JSON. [stored] is the row's text. *)
Definition insertable (event : Events.Envelope) (stored : option Events.Raw) : Res unit :=
  match jsonb (Events.bytes event) with
  | None => Err rejected
  | Some j =>
      if 65536 <? (Events.bytes event).(Events.byteLength) then Err rejected
      else match stored with
           | None => Ok tt
           | Some text => if bool_decide (jsonb text = Some j) then Ok tt else Err (conflict_ "id_reused")
           end
  end.

(** @src src/shared/events/postgres/store.ts:53-54 enqueue *)
Definition enqueue (event : Events.Envelope) (t : Z) (outbox : Outbox) : Outbox * Res unit :=
  let found := JsMap.get event.(Events.e_id) outbox in
  match insertable event (content <$> found) with
  | Err f => (outbox, Err f)
  | Ok _ =>
      (match found with
       | Some _ => outbox
       | None => JsMap.set event.(Events.e_id) (inserted t (Events.bytes event)) outbox
       end, Ok tt)
  end.
End Insert.

(** @src src/shared/events/postgres/store.ts:56-61 Lease, Quarantined *)
Inductive Claim : Type :=
| Lease (event : Events.Envelope) (token : ID) (attempt : Z)
| Quarantined (eventId : ID).

(** @src src/shared/events/postgres/store.ts:83-124 claim
    The callback of the transaction; the token is checked before it. *)
Definition claim (policy : RetryPolicy) (token : ID) (locked : ID -> bool) (t1 t2 t3 : Z) (outbox : Outbox)
    : Outbox * Res (option Claim) :=
  match claimNext (fun id => id) (fun _ => true) locked policy.(maxAttempts) token t1 t2 t3 outbox with
  | (outbox, None) => (outbox, Ok None)
  | (outbox, Some (id, r)) =>
      match Events.decode r.(content) with
      | Err _ => (updateWhere (fun k _ => bool_decide (k = id)) (quarantine t3) outbox, Ok (Some (Quarantined id)))
      | Ok event => (outbox, Ok (Some (Lease event token r.(attempts))))
      end
  end.

(** @src src/shared/events/postgres/store.ts:135-137 finish
    The state, the error and the delay a lease ends with. *)
Definition verdict (policy : RetryPolicy) (attempt : Z) (error : option string) (random : Z * Z) : RowState * Z :=
  match error with
  | None => (settled, 0)
  | Some _ => (if exhausted policy attempt then dead else pending, retryDelay policy attempt random)
  end.

(** @src src/shared/events/postgres/store.ts:144-145 finish *)
Definition holds (id token : ID) (t : Z) (k : ID) (r : Row Events.Raw) : bool :=
  bool_decide (k = id) && bool_decide (r.(lease) = Some token) && bool_decide (r.(state) = pending)
  && match r.(lease_until) with Some until => t <? until | None => false end.

(** @src src/shared/events/postgres/store.ts:126-150 finish
    [ack] has no error, [release] has one. *)
Definition finish (policy : RetryPolicy) (id token : ID) (attempt : Z) (error : option string) (random : Z * Z) (t : Z)
    (outbox : Outbox) : Outbox * Res unit :=
  let '(to, delayMs) := verdict policy attempt error random in
  (updateWhere (holds id token t) (finished to error delayMs t) outbox,
   if rowCount (holds id token t) outbox =? 1 then Ok tt else Err (conflict_ "lease_lost")).

(** @src src/shared/events/postgres/store.ts:58-58 OutboxStats *)
Record OutboxStats : Type := mkStats { st_pending : Z; st_dead : Z; st_oldest : Z }.
Definition inState (s : RowState) (_ : ID) (r : Row Events.Raw) : bool := bool_decide (r.(state) = s).
(** @src src/shared/events/postgres/store.ts:192-209 stats
    The oldest wait is in microseconds here. *)
Definition stats (t : Z) (outbox : Outbox) : OutboxStats :=
  mkStats (rowCount (inState pending) outbox) (rowCount (inState dead) outbox)
    (foldr (fun e m => if inState pending e.1 e.2 then Z.max (t - e.2.(available_at)) m else m) 0 outbox).

(** @src src/shared/events/postgres/store.ts:218-218 requeue *)
Definition requeueable (eventId : option ID) (id : ID) (r : Row Events.Raw) : bool :=
  bool_decide (r.(state) = dead) && match eventId with Some e => bool_decide (id = e) | None => true end.
(** @src src/shared/events/postgres/store.ts:211-223 requeue *)
Definition requeue (eventId : option ID) (t : Z) (outbox : Outbox) : Outbox * Res Z :=
  (updateWhere (requeueable eventId) (revived t) outbox, Ok (rowCount (requeueable eventId) outbox)).

(** @src src/shared/events/postgres/store.ts:231-232 prune *)
Definition prunable (retentionMs t : Z) (r : Row Events.Raw) : bool :=
  bool_decide (r.(state) = settled)
  && match r.(finished_at) with Some at_ => at_ <? t - milliseconds retentionMs | None => false end.
(** @src src/shared/events/postgres/store.ts:225-238 prune
    At most [limit] rows; [scan] is the order in which the server meets them. *)
Definition prune (retentionMs : Z) (limit : nat) (scan : list ID) (t : Z) (outbox : Outbox) : Outbox * Res Z :=
  let chosen := take limit (filter (fun id => match JsMap.get id outbox with Some r => prunable retentionMs t r | None => false end = true) scan) in
  (filter (fun e => e.1 ∉ chosen) outbox, Ok (Z.of_nat (length (filter (fun e => e.1 ∈ chosen) outbox)))).
End Outbox.

(** ** The mailbox. *)
Module Mailbox.
Import LeasedRows Inbox.Retry.

(** @src src/shared/events/postgres/store.ts:434-436 invalidConsumer *)
Definition invalidConsumer : Failure := fail_with Errors.invalid "invalid event consumer" "events.invalid_consumer".

(** The two tables: the envelopes accepted, and a receipt per event and consumer. *)
Record Mailbox : Type := mkMailbox {
  events : list (ID * Events.Raw);
  receipts : list ((ID * jstring) * Row unit)
}.

Section Accept.
  Context {J : Type} `{Jdec : EqDecision J} (jsonb : Events.Raw -> option J).

(** [INSERT INTO n2f_mailbox_receipts ... ON CONFLICT DO NOTHING]. *)
Definition openReceipts (id : ID) (consumers : list jstring) (t : Z) (rows : list ((ID * jstring) * Row unit)) :=
  fold_left (fun rows c => if JsMap.has (id, c) rows then rows else JsMap.set (id, c) (inserted t tt) rows) consumers rows.

(** @src src/shared/events/postgres/store.ts:273-287 accept
    The callback of the transaction. *)
Definition accept (event : Events.Envelope) (consumers : list jstring) (t : Z) (m : Mailbox) : Mailbox * Res unit :=
  let id := event.(Events.e_id) in
  match Outbox.insertable jsonb event (JsMap.get id m.(events)) with
  | Err f => (m, Err f)
  | Ok _ =>
      (mkMailbox (if JsMap.has id m.(events) then m.(events) else JsMap.set id (Events.bytes event) m.(events))
         (openReceipts id consumers t m.(receipts)), Ok tt)
  end.
End Accept.

(** @src src/shared/events/postgres/store.ts:63-66 Claimed *)
Inductive Claimed : Type :=
| ClaimedEvent (event : Events.Envelope) (attempt : Z)
| ClaimedUndecodable (eventId : ID) (attempt : Z).

Definition withReceipts (m : Mailbox) (rows : list ((ID * jstring) * Row unit)) : Mailbox := mkMailbox m.(events) rows.

(** The consumer's receipts once the abandoned ones are dead, and the next due
    one of them. *)
Definition mine (consumer : jstring) (k : ID * jstring) : bool := bool_decide (k.2 = consumer).
(** @src src/shared/events/postgres/store.ts:300-307 deliver *)
Definition buried (consumer : jstring) (policy : RetryPolicy) (t1 : Z) (rows : list ((ID * jstring) * Row unit)) :=
  updateWhere (fun k r => mine consumer k && abandoned policy.(maxAttempts) t1 r) (abandon t1) rows.
(** @src src/shared/events/postgres/store.ts:308-324 deliver *)
Definition nextFor (consumer : jstring) (policy : RetryPolicy) (locked : ID * jstring -> bool) (t1 t2 : Z) (m : Mailbox) :=
  candidate fst (mine consumer) locked policy.(maxAttempts) t2 (buried consumer policy t1 m.(receipts)).

(** @src src/shared/events/postgres/store.ts:299-337 deliver
    The claim of a consumer's next receipt: the callback of the first
    transaction. A receipt whose envelope is gone is not returned. *)
Definition claim (consumer : jstring) (policy : RetryPolicy) (token : ID) (locked : ID * jstring -> bool) (t1 t2 t3 : Z) (m : Mailbox)
    : Mailbox * Res (option Claimed) :=
  let dead_ := buried consumer policy t1 m.(receipts) in
  match nextFor consumer policy locked t1 t2 m with
  | None => (withReceipts m dead_, Ok None)
  | Some (k, r) =>
      match JsMap.get k.1 m.(events) with
      | None => (withReceipts m dead_, Ok None)
      | Some text =>
          let rows := JsMap.set k (leased token t3 r) dead_ in
          match Events.decode text with
          | Err _ =>
              (withReceipts m (updateWhere (fun k' _ => bool_decide (k' = k)) (quarantine t3) rows),
               Ok (Some (ClaimedUndecodable k.1 (r.(attempts) + 1))))
          | Ok event => (withReceipts m rows, Ok (Some (ClaimedEvent event (r.(attempts) + 1))))
          end
      end
  end.

(** @src src/shared/events/postgres/store.ts:368-368 deliver *)
Definition holds (id : ID) (consumer : jstring) (token : ID) (k : ID * jstring) (r : Row unit) : bool :=
  bool_decide (k = (id, consumer)) && bool_decide (r.(lease) = Some token) && bool_decide (r.(state) = pending).

(** @src src/shared/events/postgres/store.ts:357-372 deliver
    The outcome of the handler: the callback of the second transaction. *)
Definition finish (policy : RetryPolicy) (id : ID) (consumer : jstring) (token : ID) (attempt : Z) (error : option string)
    (random : Z * Z) (t : Z) (m : Mailbox) : Mailbox * Res unit :=
  let '(to, delayMs) := Outbox.verdict policy attempt error random in
  (withReceipts m (updateWhere (holds id consumer token) (finished to error delayMs t) m.(receipts)),
   if rowCount (holds id consumer token) m.(receipts) =? 1 then Ok tt else Err (Outbox.conflict_ "lease_lost")).

(** @src src/shared/events/postgres/store.ts:391-391 requeue *)
Definition requeueable (consumer : jstring) (eventId : option ID) (k : ID * jstring) (r : Row unit) : bool :=
  bool_decide (k.2 = consumer) && bool_decide (r.(state) = dead)
  && match eventId with Some e => bool_decide (k.1 = e) | None => true end.
(** @src src/shared/events/postgres/store.ts:386-394 requeue *)
Definition requeue (consumer : jstring) (eventId : option ID) (t : Z) (m : Mailbox) : Mailbox * Res Z :=
  (withReceipts m (updateWhere (requeueable consumer eventId) (revived t) m.(receipts)),
   Ok (rowCount (requeueable consumer eventId) m.(receipts))).

(** @src src/shared/events/postgres/store.ts:398-410 backlog
    The count of a group; groups without rows are not returned. *)
Definition backlog (consumer : jstring) (s : RowState) (m : Mailbox) : Z :=
  rowCount (fun k r => bool_decide (k.2 = consumer) && bool_decide (r.(state) = s)) m.(receipts).

(** @src src/shared/events/postgres/store.ts:424-425 prune *)
Definition settledLongAgo (retentionMs t : Z) (r : Row unit) : bool :=
  bool_decide (r.(state) = settled)
  && match r.(finished_at) with Some at_ => at_ <? t - milliseconds retentionMs | None => true end.
(** @src src/shared/events/postgres/store.ts:421-425 prune *)
Definition prunable (retentionMs t : Z) (m : Mailbox) (id : ID) : bool :=
  forallb (fun e => negb (bool_decide (e.1.1 = id)) || settledLongAgo retentionMs t e.2) m.(receipts).
(** @src src/shared/events/postgres/store.ts:412-431 prune
    Deleting an event deletes its receipts ([ON DELETE CASCADE]). *)
Definition prune (retentionMs : Z) (limit : nat) (scan : list ID) (t : Z) (m : Mailbox) : Mailbox * Res Z :=
  let chosen := take limit (filter (fun id => JsMap.has id m.(events) && prunable retentionMs t m id = true) scan) in
  (mkMailbox (filter (fun e => e.1 ∉ chosen) m.(events)) (filter (fun e => e.1.1 ∉ chosen) m.(receipts)),
   Ok (Z.of_nat (length (filter (fun e => e.1 ∈ chosen) m.(events))))).
End Mailbox.
