(* ===== verification/EventPipeline.v ===== *)
(** * Event delivery: dispatching the outbox, filling the mailbox, running
    subscribers.

    [shared/events/postgres/store.ts] ([Store.dispatch], [Mailbox.accept],
    [Mailbox.deliver]), [platform/events/outbox-dispatcher.ts],
    [platform/events/event-delivery.ts] and [platform/runtime/outbox-worker.ts]
    as programs over their ports: each transaction is one call, and so are the
    handler, the abort signal and the identifier generator.  The loops of the
    workers are run for any number of turns; how long they sleep between turns
    is scheduling only, and so is the log. *)
From S2P Require Import Prelude Async JsMap Errors Ids Json Provenance Events Commands Postgres Inbox EventStore.

Module EventPorts.
Import Inbox.Retry.

(** How an awaited call may end. *)
Inductive Settled (A : Type) : Type := Returned (r : Res A) | Threw (e : Database.Thrown).
Arguments Returned {A}.
Arguments Threw {A}.

Inductive Op : Type :=
| aborted
| newId
| subscribers
| claimOutbox (token : ID)
| finishOutbox (id token : ID) (attempt : Z) (error : option string)
| acceptEvent (event : Events.Envelope) (consumers : list jstring)
| claimReceipt (consumer : jstring) (token : ID)
| runHandler (consumer : jstring) (event : Events.Envelope)
| finishReceipt (id : ID) (consumer : jstring) (token : ID) (attempt : Z) (error : option string)
| enqueueEvent (event : Events.Envelope)
| requeueOutbox (eventId : option ID)
| requeueMailbox (consumer : jstring) (eventId : option ID)
| pruneOutbox (retentionMs : Z) (limit : nat)
| pruneMailbox (retentionMs : Z) (limit : nat).

Definition Ans (op : Op) : Type :=
  match op with
  | aborted => bool
  | newId => Res ID
  | subscribers => list jstring
  | claimOutbox _ => Res (option Outbox.Claim)
  | finishOutbox _ _ _ _ => Res unit
  | acceptEvent _ _ => Res unit
  | claimReceipt _ _ => Res (option Mailbox.Claimed)
  | runHandler _ _ => Settled unit
  | finishReceipt _ _ _ _ _ => Res unit
  | enqueueEvent _ => Res unit
  | requeueOutbox _ => Res Z
  | requeueMailbox _ _ => Res Z
  | pruneOutbox _ _ => Res Z
  | pruneMailbox _ _ => Res Z
  end.

Definition Command (A : Type) : Type := Prog Ans (Res A).
End EventPorts.

Module EventCommands.
Import EventPorts Inbox.Retry.
#[local] Open Scope prog_scope.
#[local] Abbreviation ask op := (perform (Ans := Ans) op).

(** @src src/shared/events/index.ts:306-309 Receipt *)
Record Receipt : Type := mkReceipt { rc_eventId : ID; rc_durable : bool }.

(** [result.error.type ?? result.error.kind]. *)
Definition errorOf (f : Failure) : string := typeOr (Inbox.Inbox.kindName (Errors.f_kind f)) f.
(** [try { x = await ... } catch (error) { x = err(map(error)) }]. *)
Definition caught {A} (s : Settled A) : Res A := match s with Returned r => r | Threw e => Err (Database.map e) end.

(** ** The mailbox. *)

(** @src src/shared/events/postgres/store.ts:265-288 accept *)
Definition accept (event : Events.Envelope) (consumers : list jstring) : Command unit :=
  if negb (forallb Inbox.Inbox.CONSUMER_NAME consumers) then Ret (Err Mailbox.invalidConsumer)
  else ask (acceptEvent event consumers).

(** @src src/shared/events/postgres/store.ts:383-396 requeue *)
Definition requeueFor (consumer : jstring) (eventId : option ID) : Command Z :=
  if negb (Inbox.Inbox.CONSUMER_NAME consumer) then Ret (Err Mailbox.invalidConsumer)
  else ask (requeueMailbox consumer eventId).

(** @src src/platform/events/event-delivery.ts:75-81 publish
    The mailbox is durable. *)
Definition publish (event : Events.Envelope) : Command Receipt :=
  bind (ask aborted) (fun stopped =>
  if stopped then Ret (Err (failure canceled "event publication canceled" noOptions)) else
  bind (ask subscribers) (fun consumers =>
  _ ⟵ accept event consumers;
  Ret (Ok (mkReceipt event.(Events.e_id) true)))).

(** @src src/shared/events/postgres/store.ts:290-381 deliver
    [randomUUID] does not fail. *)
Definition deliver (policy : RetryPolicy) (consumer : jstring) : Command (option Inbox.Inbox.Delivery) :=
  if negb (Inbox.Inbox.CONSUMER_NAME consumer) then Ret (Err Mailbox.invalidConsumer) else
  token ⟵ ask newId;
  claimed ⟵ ask (claimReceipt consumer token);
  match claimed with
  | None => Ret (Ok None)
  | Some (Mailbox.ClaimedUndecodable eventId attempt) =>
      Ret (Ok (Some (Inbox.Inbox.mkDelivery eventId None attempt Inbox.Inbox.o_dead (Some LeasedRows.UNDECODABLE))))
  | Some (Mailbox.ClaimedEvent event attempt) =>
      bind (ask (runHandler consumer event)) (fun settled =>
      let error := match caught settled with Ok _ => None | Err f => Some (errorOf f) end in
      _ ⟵ ask (finishReceipt event.(Events.e_id) consumer token attempt error);
      Ret (Ok (Some (Inbox.Inbox.mkDelivery event.(Events.e_id) (Some event.(Events.e_type)) attempt
                       (match error with
                        | None => Inbox.Inbox.o_processed
                        | Some _ => if exhausted policy attempt then Inbox.Inbox.o_dead else Inbox.Inbox.o_retrying
                        end) error))))
  end.

(** @src src/platform/events/event-delivery.ts:100-133 #run
    The first [turns] turns of a consumer's loop. *)
Fixpoint run (turns : nat) (policy : RetryPolicy) (consumer : jstring) : Prog Ans unit :=
  match turns with
  | O => Ret tt
  | S turns =>
      bind (ask aborted) (fun stopped => if stopped then Ret tt else
      bind (ask subscribers) (fun consumers => if negb (bool_decide (consumer ∈ consumers)) then Ret tt else
      bind (deliver policy consumer) (fun _ =>
      bind (ask aborted) (fun stopped => if stopped then Ret tt else run turns policy consumer))))
  end.

(** ** The outbox. *)

(** @src src/shared/events/postgres/store.ts:152-190 dispatch *)
Definition dispatch (publisher : Events.Envelope -> Prog Ans (Settled Receipt)) (token : ID) : Command bool :=
  bind (ask aborted) (fun stopped =>
  if stopped then Ret (Err (failure canceled "dispatch canceled" noOptions)) else
  _ ⟵ pure_ (parse (VStr token));
  claimed ⟵ ask (claimOutbox token);
  match claimed with
  | None => Ret (Ok false)
  | Some (Outbox.Quarantined _) => Ret (Ok true)
  | Some (Outbox.Lease event token attempt) =>
      let id := event.(Events.e_id) in
      bind (publisher event) (fun settled =>
      match caught settled with
      | Ok receipt =>
          if receipt.(rc_durable) && bool_decide (receipt.(rc_eventId) = id) then
            _ ⟵ ask (finishOutbox id token attempt None);
            Ret (Ok true)
          else
            _ ⟵ ask (finishOutbox id token attempt (Some "events.invalid_receipt"%string));
            Ret (Err (fail_with unavailable "publisher receipt invalid" "events.invalid_receipt"))
      | Err f =>
          _ ⟵ ask (finishOutbox id token attempt (Some (errorOf f)));
          Ret (Err f)
      end)
  end).

(** The application's event bus as the publisher. *)
Definition bus (event : Events.Envelope) : Prog Ans (Settled Receipt) := bind (publish event) (fun r => Ret (Returned r)).

(** @src src/platform/events/outbox-dispatcher.ts:33-37 dispatchOnce *)
Definition dispatchOnce : Command bool :=
  token ⟵ ask newId;
  dispatch bus token.

(** @src src/platform/runtime/outbox-worker.ts:54-69 poll
    The first [turns] turns. [active] goes false where the signal is aborted. *)
Fixpoint poll (turns : nat) : Prog Ans unit :=
  match turns with
  | O => Ret tt
  | S turns =>
      bind (ask aborted) (fun stopped => if stopped then Ret tt else
      bind dispatchOnce (fun _ =>
      bind (ask aborted) (fun stopped => if stopped then Ret tt else poll turns)))
  end.
End EventCommands.
