(* ===== verification/EventWorld.v ===== *)
(** * Event delivery at work: from a writer's transaction to every subscriber.

    Writers enqueue events, dispatchers move them to the mailbox, the loops of
    the subscribers handle them, operators requeue dead rows and maintenance
    prunes old ones, all at once and in any interleaving; any transaction may
    fail, or say that its commit is uncertain, and any command may stop for
    good between two calls, as a crashed process does. *)
From stdpp Require Import relations.
From S2P Require Import Prelude Async JsMap Errors Ids Json Provenance Events Commands Postgres Inbox EventStore EventPipeline.

Module EventWorld.
Import LeasedRows Leases EventPorts EventCommands Inbox.Retry.
Import Events(Envelope, e_id, bytes).

(** A table with the log of its leases. *)
Record Ledger (K T : Type) : Type := mkLedger { l_data : T; l_log : list (Log K); l_ended : list ID }.
Arguments mkLedger {K T}.
Arguments l_data {K T}.
Arguments l_log {K T}.
Arguments l_ended {K T}.

(** The server's clock, the identifiers drawn, the two tables, the text each
    claim found, and what happened: the events enqueued, the events the mailbox
    accepted, and the events a subscriber's handler completed. *)
Record World : Type := mkWorld {
  clock : Z; issued : list ID;
  outbox : Ledger ID Outbox.Outbox; mailbox : Ledger (ID * jstring) Mailbox.Mailbox;
  texts : list (ID * Events.Raw);
  enqueued : list Envelope; accepted : list Envelope; handled : list (jstring * Envelope)
}.

Definition withClock (t : Z) (w : World) : World :=
  mkWorld t w.(issued) w.(outbox) w.(mailbox) w.(texts) w.(enqueued) w.(accepted) w.(handled).
Definition withIssued (id : ID) (w : World) : World :=
  mkWorld w.(clock) (id :: w.(issued)) w.(outbox) w.(mailbox) w.(texts) w.(enqueued) w.(accepted) w.(handled).
Definition withOutbox (o : Ledger ID Outbox.Outbox) (w : World) : World :=
  mkWorld w.(clock) w.(issued) o w.(mailbox) w.(texts) w.(enqueued) w.(accepted) w.(handled).
Definition withMailbox (m : Ledger (ID * jstring) Mailbox.Mailbox) (w : World) : World :=
  mkWorld w.(clock) w.(issued) w.(outbox) m w.(texts) w.(enqueued) w.(accepted) w.(handled).
Definition withText (token : ID) (text : Events.Raw) (w : World) : World :=
  mkWorld w.(clock) w.(issued) w.(outbox) w.(mailbox) ((token, text) :: w.(texts)) w.(enqueued) w.(accepted) w.(handled).
Definition withEnqueued (e : Envelope) (w : World) : World :=
  mkWorld w.(clock) w.(issued) w.(outbox) w.(mailbox) w.(texts) (e :: w.(enqueued)) w.(accepted) w.(handled).
Definition withAccepted (e : Envelope) (w : World) : World :=
  mkWorld w.(clock) w.(issued) w.(outbox) w.(mailbox) w.(texts) w.(enqueued) (e :: w.(accepted)) w.(handled).
Definition withHandled (c : jstring) (e : Envelope) (w : World) : World :=
  mkWorld w.(clock) w.(issued) w.(outbox) w.(mailbox) w.(texts) w.(enqueued) w.(accepted) ((c, e) :: w.(handled)).

(** The rows change, the log of the leases stays. *)
Definition withData {K T} (data : T) (l : Ledger K T) : Ledger K T := mkLedger data l.(l_log) l.(l_ended).
Definition withLease {K T} (entry : Log K) (l : Ledger K T) : Ledger K T := mkLedger l.(l_data) (entry :: l.(l_log)) l.(l_ended).
Definition withEnded {K T} (token : ID) (l : Ledger K T) : Ledger K T := mkLedger l.(l_data) l.(l_log) (token :: l.(l_ended)).

Section Exec.
  Context {J : Type} `{Jdec : EqDecision J} (jsonb : Events.Raw -> option J) (policy : RetryPolicy) (consumers : list jstring)
    (writers : list Envelope).

(** ** What the transactions do to the world. *)

(** The log notes what a claim took: its row, its text, the end of its lease;
    a quarantined row is settled by its claim. *)
Definition outboxClaim (token : ID) (locked : ID -> bool) (t1 t2 t3 : Z) (w : World) : World * Res (option Outbox.Claim) :=
  let '(rows, r) := Outbox.claim policy token locked t1 t2 t3 w.(outbox).(l_data) in
  let noted :=
    match (claimNext (fun id => id) (fun _ => true) locked policy.(maxAttempts) token t1 t2 t3 w.(outbox).(l_data)).2 with
    | None => w
    | Some (id, row) =>
        let l := withLease (mkLog token id (t3 + LEASE)) w.(outbox) in
        withText token row.(content)
          (withOutbox (match r with Ok (Some (Outbox.Quarantined _)) => withEnded token l | _ => l end) w)
    end in
  (withOutbox (withData rows noted.(outbox)) noted, r).

Definition outboxFinish (id token : ID) (attempt : Z) (error : option string) (random : Z * Z) (t : Z) (w : World) : World * Res unit :=
  let '(rows, r) := Outbox.finish policy id token attempt error random t w.(outbox).(l_data) in
  (withOutbox (withEnded token (withData rows w.(outbox))) w, r).

Definition outboxInsert (e : Envelope) (t : Z) (w : World) : World * Res unit :=
  let '(rows, r) := Outbox.enqueue jsonb e t w.(outbox).(l_data) in
  (withEnqueued e (withOutbox (withData rows w.(outbox)) w), r).

Definition mailboxAccept (e : Envelope) (cs : list jstring) (t : Z) (w : World) : World * Res unit :=
  let '(m, r) := Mailbox.accept jsonb e cs t w.(mailbox).(l_data) in
  (withAccepted e (withMailbox (withData m w.(mailbox)) w), r).

Definition mailboxClaim (consumer : jstring) (token : ID) (locked : ID * jstring -> bool) (t1 t2 t3 : Z) (w : World)
    : World * Res (option Mailbox.Claimed) :=
  let '(m, r) := Mailbox.claim consumer policy token locked t1 t2 t3 w.(mailbox).(l_data) in
  let noted :=
    match Mailbox.nextFor consumer policy locked t1 t2 w.(mailbox).(l_data) with
    | None => w
    | Some (k, _) =>
        match JsMap.get k.1 w.(mailbox).(l_data).(Mailbox.events) with
        | None => w
        | Some text =>
            let l := withLease (mkLog token k (t3 + LEASE)) w.(mailbox) in
            withText token text
              (withMailbox (match r with Ok (Some (Mailbox.ClaimedUndecodable _ _)) => withEnded token l | _ => l end) w)
        end
    end in
  (withMailbox (withData m noted.(mailbox)) noted, r).

Definition mailboxFinish (id : ID) (consumer : jstring) (token : ID) (attempt : Z) (error : option string) (random : Z * Z)
    (t : Z) (w : World) : World * Res unit :=
  let '(m, r) := Mailbox.finish policy id consumer token attempt error random t w.(mailbox).(l_data) in
  (withMailbox (withEnded token (withData m w.(mailbox))) w, r).

Definition onOutbox {A} (f : Z -> Outbox.Outbox -> Outbox.Outbox * Res A) (t : Z) (w : World) : World * Res A :=
  let '(rows, r) := f t w.(outbox).(l_data) in (withOutbox (withData rows w.(outbox)) w, r).
Definition onMailbox {A} (f : Z -> Mailbox.Mailbox -> Mailbox.Mailbox * Res A) (t : Z) (w : World) : World * Res A :=
  let '(m, r) := f t w.(mailbox).(l_data) in (withMailbox (withData m w.(mailbox)) w, r).

(** A transaction: its statements read a clock that does not go back. *)
Definition during {A} (fn : Z -> Z -> Z -> World -> World * Res A) (w : World) (r : Res A) (w' : World) : Prop :=
  exists t1 t2 t3, w.(clock) <= t1 /\ t1 <= t2 /\ t2 <= t3 /\ Database.transacts (fn t1 t2 t3) (withClock t3 w) r w'.
Definition at_ {A} (fn : Z -> World -> World * Res A) : World -> Res A -> World -> Prop := during (fun _ _ t => fn t).

(** The calls. Identifiers are unique, so every claim comes under a token of its
    own. *)
Definition exec (op : Op) : World -> Ans op -> World -> Prop :=
  match op with
  | aborted => fun w _ w' => w' = w
  | newId => fun w r w' =>
      match r with Ok id => id ∉ w.(issued) /\ validID id = true /\ w' = withIssued id w | Err _ => w' = w end
  | subscribers => fun w r w' => r = consumers /\ w' = w
  | claimOutbox token => fun w r w' =>
      token ∉ w.(texts).*1 /\ exists locked, during (outboxClaim token locked) w r w'
  | finishOutbox id token attempt error => fun w r w' =>
      exists random, fraction random /\ at_ (outboxFinish id token attempt error random) w r w'
  | acceptEvent event cs => at_ (mailboxAccept event cs)
  | claimReceipt consumer token => fun w r w' =>
      token ∉ w.(texts).*1 /\ exists locked, during (mailboxClaim consumer token locked) w r w'
  | runHandler consumer event => fun w r w' =>
      w' = match r with Returned (Ok _) => withHandled consumer event w | _ => w end
  | finishReceipt id consumer token attempt error => fun w r w' =>
      exists random, fraction random /\ at_ (mailboxFinish id consumer token attempt error random) w r w'
  | enqueueEvent event => at_ (outboxInsert event)
  | requeueOutbox eventId => at_ (onOutbox (Outbox.requeue eventId))
  | requeueMailbox consumer eventId => at_ (onMailbox (Mailbox.requeue consumer eventId))
  | pruneOutbox retentionMs limit => fun w r w' => exists scan, at_ (onOutbox (Outbox.prune retentionMs limit scan)) w r w'
  | pruneMailbox retentionMs limit => fun w r w' => exists scan, at_ (onMailbox (Mailbox.prune retentionMs limit scan)) w r w'
  end.
(** ** What holds, whatever happens. *)

(** Texts that spell the same JSON. *)
Definition same (a b : Events.Raw) : Prop := jsonb a = jsonb b.

(** The text is that of an event a writer enqueued under [id]. *)
Definition from (enqueued : list Envelope) (id : ID) (text : Events.Raw) : Prop :=
  exists e, e ∈ enqueued /\ e_id e = id /\ bytes e = text.

(** Reading an envelope's text back, if it can be read, gives the same text and
    identifier; every envelope the program builds has this
    ([Events.envelope_roundtrip]). *)
Definition tidy (e : Envelope) : Prop :=
  forall e', Events.decode (bytes e) = Ok e' -> bytes e' = bytes e /\ e_id e' = e_id e.

(** An event a writer of the program wrote. *)
Definition vouched (e : Envelope) : Prop := tidy e /\ e ∈ writers.

(** The event waits in the outbox; the mailbox accepted it. *)
Definition waiting (rows : Outbox.Outbox) (e : Envelope) : Prop :=
  exists r, JsMap.get (e_id e) rows = Some r /\ r.(state) <> settled /\ same r.(content) (bytes e).
Definition passed (accepted : list Envelope) (id : ID) (text : Events.Raw) : Prop :=
  exists a, a ∈ accepted /\ e_id a = id /\ same (bytes a) text.

(** The consumer has the event before it; its handler completed it. *)
Definition openFor (m : Mailbox.Mailbox) (c : jstring) (a : Envelope) : Prop :=
  exists r text, JsMap.get (e_id a, c) m.(Mailbox.receipts) = Some r /\ r.(state) <> settled
    /\ JsMap.get (e_id a) m.(Mailbox.events) = Some text /\ same text (bytes a).
Definition completed (handled : list (jstring * Envelope)) (c : jstring) (id : ID) (text : Events.Raw) : Prop :=
  exists e, (c, e) ∈ handled /\ e_id e = id /\ same (bytes e) text.

Record OutInv (clock : Z) (texts : list (ID * Events.Raw)) (enqueued accepted : list Envelope) (o : Ledger ID Outbox.Outbox) : Prop := mkOut {
  oi_leases : leases policy.(maxAttempts) clock o.(l_data) o.(l_log) o.(l_ended);
  oi_used : forall l, l ∈ o.(l_log) -> l.(l_token) ∈ texts.*1;
  oi_text : forall id r token, JsMap.get id o.(l_data) = Some r -> r.(lease) = Some token -> (token, r.(content)) ∈ texts;
  oi_from : forall id r, JsMap.get id o.(l_data) = Some r -> from enqueued id r.(content);
  oi_sent : forall id r, JsMap.get id o.(l_data) = Some r -> r.(state) = settled -> passed accepted id r.(content);
  oi_kept : forall e, e ∈ enqueued -> waiting o.(l_data) e \/ passed accepted (e_id e) (bytes e)
}.

Record MailInv (clock : Z) (texts : list (ID * Events.Raw)) (enqueued accepted : list Envelope) (handled : list (jstring * Envelope))
    (m : Ledger (ID * jstring) Mailbox.Mailbox) : Prop := mkMail {
  mi_leases : leases policy.(maxAttempts) clock m.(l_data).(Mailbox.receipts) m.(l_log) m.(l_ended);
  mi_events : JsMap.wf m.(l_data).(Mailbox.events);
  mi_used : forall l, l ∈ m.(l_log) -> l.(l_token) ∈ texts.*1;
  mi_text : forall k r token, JsMap.get k m.(l_data).(Mailbox.receipts) = Some r -> r.(lease) = Some token ->
    exists text, JsMap.get k.1 m.(l_data).(Mailbox.events) = Some text /\ (token, text) ∈ texts;
  mi_from : forall id text, JsMap.get id m.(l_data).(Mailbox.events) = Some text -> from enqueued id text;
  mi_accepted : forall a, a ∈ accepted -> from enqueued (e_id a) (bytes a);
  mi_handled : forall c e, (c, e) ∈ handled -> from enqueued (e_id e) (bytes e) /\ c ∈ consumers;
  mi_receipt : forall k r, JsMap.get k m.(l_data).(Mailbox.receipts) = Some r ->
    k.2 ∈ consumers /\ JsMap.get k.1 m.(l_data).(Mailbox.events) <> None;
  mi_done : forall id c r text, JsMap.get (id, c) m.(l_data).(Mailbox.receipts) = Some r -> r.(state) = settled ->
    JsMap.get id m.(l_data).(Mailbox.events) = Some text -> completed handled c id text;
  mi_kept : forall a c, a ∈ accepted -> c ∈ consumers -> openFor m.(l_data) c a \/ completed handled c (e_id a) (bytes a)
}.

Record Inv (w : World) : Prop := mkInv {
  inv_outbox : OutInv w.(clock) w.(texts) w.(enqueued) w.(accepted) w.(outbox);
  inv_mailbox : MailInv w.(clock) w.(texts) w.(enqueued) w.(accepted) w.(handled) w.(mailbox);
  inv_tokens : NoDup w.(texts).*1;
  inv_vouched : Forall vouched w.(enqueued)
}.

(** What was drawn, claimed, enqueued, accepted or handled stays so. *)
Record Rel (w w' : World) : Prop := mkRel {
  rel_clock : w.(clock) <= w'.(clock);
  rel_issued : forall x, x ∈ w.(issued) -> x ∈ w'.(issued);
  rel_texts : forall x, x ∈ w.(texts) -> x ∈ w'.(texts);
  rel_enqueued : forall x, x ∈ w.(enqueued) -> x ∈ w'.(enqueued);
  rel_accepted : forall x, x ∈ w.(accepted) -> x ∈ w'.(accepted);
  rel_handled : forall x, x ∈ w.(handled) -> x ∈ w'.(handled)
}.

Lemma event_rel_refl w : Rel w w.
Proof. by split. Qed.
Lemma event_rel_trans a b c : Rel a b -> Rel b c -> Rel a c.
Proof. intros [H1 ? ? ? ? ?] [H2 ? ? ? ? ?]. split; eauto. lia. Qed.

Lemma same_trans a b c : same a b -> same b c -> same a c.
Proof. unfold same. congruence. Qed.

Lemma from_more enqueued enqueued' id text : (forall x, x ∈ enqueued -> x ∈ enqueued') -> from enqueued id text -> from enqueued' id text.
Proof. intros H (e & ? & ?). exists e. auto. Qed.
Lemma passed_more accepted accepted' id text :
  (forall x, x ∈ accepted -> x ∈ accepted') -> passed accepted id text -> passed accepted' id text.
Proof. intros H (a & ? & ?). exists a. auto. Qed.
Lemma passed_same accepted id a b : passed accepted id a -> same a b -> passed accepted id b.
Proof. intros (x & ? & ? & ?) Hab. exists x. split_and!; [done..|by eapply same_trans]. Qed.
Lemma completed_same handled c id a b : completed handled c id a -> same a b -> completed handled c id b.
Proof. intros (x & ? & ? & ?) Hab. exists x. split_and!; [done..|by eapply same_trans]. Qed.

Lemma used_more (texts texts' : list (ID * Events.Raw)) x :
  (forall y, y ∈ texts -> y ∈ texts') -> x ∈ texts.*1 -> x ∈ texts'.*1.
Proof. intros H (y & -> & Hy)%list_elem_of_fmap. apply list_elem_of_fmap_2. by apply H. Qed.

Lemma outInv_more clock clock' texts texts' enqueued accepted accepted' o :
  clock <= clock' -> (forall x, x ∈ texts -> x ∈ texts') -> (forall x, x ∈ accepted -> x ∈ accepted') ->
  OutInv clock texts enqueued accepted o -> OutInv clock' texts' enqueued accepted' o.
Proof.
  intros Hc Ht Ha [H1 H2 H3 H4 H5 H6]. split.
  - by eapply leases_later.
  - intros l Hl. by eapply used_more, H2.
  - intros id r tok Hg Hl. by eapply Ht, H3.
  - done.
  - intros id r Hg Hs. by eapply passed_more, H5.
  - intros e He. destruct (H6 e He); [by left|right; by eapply passed_more].
Qed.

Lemma mailInv_more clock clock' texts texts' enqueued enqueued' accepted handled m :
  clock <= clock' -> (forall x, x ∈ texts -> x ∈ texts') -> (forall x, x ∈ enqueued -> x ∈ enqueued') ->
  MailInv clock texts enqueued accepted handled m -> MailInv clock' texts' enqueued' accepted handled m.
Proof.
  intros Hc Ht He [H1 H2 H3 H4 H5 H6 H7 H8 H9 H10]. split; try done.
  - by eapply leases_later.
  - intros l Hl. by eapply used_more, H3.
  - intros k r tok Hg Hl. destruct (H4 _ _ _ Hg Hl) as (text & ? & ?). eauto.
  - intros id text Hg. by eapply from_more, H5.
  - intros a Ha. by eapply from_more, H6.
  - intros c e Hh. destruct (H7 c e Hh). split; [by eapply from_more|done].
Qed.

(** ** The outbox's transactions. *)

(** A statement that keeps the texts, ends no lease but its own, and settles only
    rows whose event the mailbox accepted. *)
Lemma out_update clock texts enqueued accepted o p f ended :
  OutInv clock texts enqueued accepted o ->
  (forall x, x ∈ o.(l_ended) -> x ∈ ended) ->
  (forall id r, JsMap.get id o.(l_data) = Some r -> p id r = true ->
     sound policy.(maxAttempts) (f r) /\ (f r).(content) = r.(content)
     /\ ((f r).(lease) = r.(lease) /\ (f r).(lease_until) = r.(lease_until)
         \/ (f r).(lease) = None
            /\ forall token until, r.(lease) = Some token -> r.(lease_until) = Some until -> token ∈ ended \/ until <= clock)
     /\ ((f r).(state) = settled -> passed accepted id r.(content))) ->
  OutInv clock texts enqueued accepted (mkLedger (updateWhere p f o.(l_data)) o.(l_log) ended).
Proof.
  intros [H1 H2 H3 H4 H5 H6] Hend Hf.
  assert (Hget : forall id r, JsMap.get id (updateWhere p f o.(l_data)) = Some r ->
    exists r0, JsMap.get id o.(l_data) = Some r0 /\ r = if p id r0 then f r0 else r0).
  { intros id r. rewrite get_updateWhere. intros (r0 & Hg & ->)%fmap_Some. by exists r0. }
  split; cbn [l_data l_log l_ended].
  - apply leases_update; [eapply leases_later; [done|exact Hend|done]|]. intros id r Hg Hp. by destruct (Hf id r Hg Hp) as (? & _ & ? & _).
  - done.
  - intros id r tok (r0 & Hg & ->)%Hget Ht. destruct (p id r0) eqn:Ep; [|by eapply H3].
    destruct (Hf id r0 Hg Ep) as (_ & Hc & [[Hl _]|[Hl _]] & _); [|congruence]. rewrite Hc. rewrite Hl in Ht. by eapply H3.
  - intros id r (r0 & Hg & ->)%Hget. destruct (p id r0) eqn:Ep; [|by eapply H4].
    destruct (Hf id r0 Hg Ep) as (_ & Hc & _). rewrite Hc. by eapply H4.
  - intros id r (r0 & Hg & ->)%Hget Hs. destruct (p id r0) eqn:Ep; [|by eapply H5].
    destruct (Hf id r0 Hg Ep) as (_ & Hc & _ & Hp). rewrite Hc. by apply Hp.
  - intros e He. destruct (H6 e He) as [(r & Hg & Hs & Hsame)|?]; [|by right]. unfold waiting. rewrite get_updateWhere, Hg. cbn.
    destruct (p (e_id e) r) eqn:Ep; [|left; eauto]. destruct (Hf _ r Hg Ep) as (_ & Hc & _ & Hp).
    destruct (decide ((f r).(state) = settled)) as [Hd|Hd]; [right; by eapply passed_same; [apply Hp|]|].
    left. exists (f r). split_and!; [done|done|by rewrite Hc].
Qed.
Lemma out_lease clock texts enqueued accepted rows log ended k r0 token t2 t3 :
  OutInv clock texts enqueued accepted (mkLedger rows log ended) -> JsMap.get k rows = Some r0 ->
  claimable policy.(maxAttempts) t2 r0 = true -> t2 <= clock -> token ∉ texts.*1 ->
  OutInv clock ((token, r0.(content)) :: texts) enqueued accepted
    (mkLedger (JsMap.set k (leased token t3 r0) rows) (mkLog token k (t3 + LEASE) :: log) ended).
Proof.
  intros [H1 H2 H3 H4 H5 H6] Hk Hc Ht Hfresh. cbn [l_data l_log l_ended] in *.
  assert (Hst : (leased token t3 r0).(state) = r0.(state)) by done.
  split; cbn [l_data l_log l_ended].
  - eapply leases_set; try done. intros (l & -> & Hl)%list_elem_of_fmap. by apply Hfresh, H2.
  - intros l [-> |Hl]%elem_of_cons; cbn; [left|right; by apply H2].
  - intros id r tok. rewrite JsMap.get_set. destruct (decide (k = id)) as [<-|]; [intros [= <-] [= <-]; left|].
    intros Hg Hl. right. by eapply H3.
  - intros id r. rewrite JsMap.get_set. destruct (decide (k = id)) as [<-|]; [intros [= <-]; by apply (H4 k r0)|apply H4].
  - intros id r. rewrite JsMap.get_set. destruct (decide (k = id)) as [<-|]; [intros [= <-]; by apply (H5 k r0)|apply H5].
  - intros e He. destruct (H6 e He) as [(r & Hg & Hs & Hsame)|?]; [left|by right]. unfold waiting. rewrite JsMap.get_set.
    destruct (decide (k = e_id e)) as [->|]; [|eauto]. rewrite Hk in Hg. injection Hg as <-. eauto.
Qed.

Lemma out_insert clock texts enqueued accepted o e t :
  0 <= policy.(maxAttempts) -> OutInv clock texts enqueued accepted o -> JsMap.get (e_id e) o.(l_data) = None ->
  OutInv clock texts (e :: enqueued) accepted (mkLedger (JsMap.set (e_id e) (inserted t (bytes e)) o.(l_data)) o.(l_log) o.(l_ended)).
Proof.
  intros Hm [H1 H2 H3 H4 H5 H6] Hn.
  assert (Hget : forall id r, JsMap.get id (JsMap.set (e_id e) (inserted t (bytes e)) o.(l_data)) = Some r ->
    id = e_id e /\ r = inserted t (bytes e) \/ JsMap.get id o.(l_data) = Some r).
  { intros id r. rewrite JsMap.get_set. destruct (decide _) as [<-|]; [intros [= <-]; by left|by right]. }
  split; cbn [l_data l_log l_ended].
  - by apply leases_insert.
  - done.
  - intros id r tok [[-> ->]|Hg]%Hget; [done|by eapply H3].
  - intros id r [[-> ->]|Hg]%Hget; [exists e; split; [left|done]|eapply from_more; [|by eapply H4]; by right].
  - intros id r [[-> ->]|Hg]%Hget; [done|by eapply H5].
  - intros x [-> |Hx]%elem_of_cons.
    + left. exists (inserted t (bytes e)). rewrite JsMap.get_set_eq. done.
    + destruct (H6 x Hx) as [(r & Hg & Hs & Hsame)|?]; [left|by right]. exists r. rewrite JsMap.get_set_ne; [done|]. intros Heq. congruence.
Qed.

Lemma out_again clock texts enqueued accepted o e r :
  OutInv clock texts enqueued accepted o -> JsMap.get (e_id e) o.(l_data) = Some r -> same r.(content) (bytes e) ->
  OutInv clock texts (e :: enqueued) accepted o.
Proof.
  intros [H1 H2 H3 H4 H5 H6] Hg Hs. split; try done.
  - intros id r' Hg'. eapply from_more; [|by eapply H4]. by right.
  - intros x [-> |Hx]%elem_of_cons; [|by apply H6].
    destruct (decide (r.(state) = settled)) as [Hd|Hd]; [right; eapply passed_same; [by eapply H5|done]|left; by exists r].
Qed.

Lemma out_prune clock texts enqueued accepted o (chosen : list ID) :
  OutInv clock texts enqueued accepted o ->
  (forall id, id ∈ chosen -> exists r, JsMap.get id o.(l_data) = Some r /\ r.(state) = settled) ->
  OutInv clock texts enqueued accepted (mkLedger (filter (fun e => e.1 ∉ chosen) o.(l_data)) o.(l_log) o.(l_ended)).
Proof.
  intros [H1 H2 H3 H4 H5 H6] Hch. pose proof (le_wf _ _ _ _ _ H1) as Hw.
  assert (Hget : forall id r, JsMap.get id (filter (fun e => e.1 ∉ chosen) o.(l_data)) = Some r -> JsMap.get id o.(l_data) = Some r).
  { intros id r. rewrite JsMap.get_filter by done. destruct (JsMap.get id o.(l_data)); [|done]. by case_decide. }
  split; cbn [l_data l_log l_ended].
  - apply leases_filter; [done|]. cbn. intros k r Hg Hin. apply dec_stable in Hin. destruct (Hch k Hin) as (r' & Hg' & Hs).
    rewrite Hg in Hg'. injection Hg' as <-. eapply so_finished; [by eapply le_sound|]. congruence.
  - done.
  - intros id r tok Hg%Hget. by eapply H3.
  - intros id r Hg%Hget. by eapply H4.
  - intros id r Hg%Hget. by eapply H5.
  - intros e He. destruct (H6 e He) as [(r & Hg & Hs & Hsame)|?]; [left|by right]. exists r.
    rewrite JsMap.get_filter, Hg by done. cbn. rewrite decide_True; [done|].
    intros Hin. destruct (Hch _ Hin) as (r' & Hg' & Hs'). congruence.
Qed.

(** ** Each of them, on the world. *)

Lemma out_row_text w id r : Inv w -> JsMap.get id w.(outbox).(l_data) = Some r ->
  forall e, Events.decode r.(content) = Ok e -> bytes e = r.(content) /\ e_id e = id.
Proof.
  intros HI Hg e He. destruct (oi_from _ _ _ _ _ (inv_outbox _ HI) _ _ Hg) as (e0 & Hin & Hid & Hb).
  rewrite <- Hb in He |- *. rewrite <- Hid. exact (proj1 (proj1 (Forall_forall _ _) (inv_vouched _ HI) e0 Hin) e He).
Qed.

(** A claim that found an event knows it: its text is noted under the token. *)
Definition known (w : World) (token : ID) (e : Envelope) : Prop :=
  (token, bytes e) ∈ w.(texts) /\ from w.(enqueued) (e_id e) (bytes e).

Lemma outboxClaim_safe token locked t1 t2 t3 w w' r :
  Inv w -> w.(clock) = t3 -> t1 <= t2 -> t2 <= t3 -> token ∉ w.(texts).*1 ->
  outboxClaim token locked t1 t2 t3 w = (w', r) ->
  Inv w' /\ Rel w w' /\ match r with Ok (Some (Outbox.Lease e tok _)) => tok = token /\ known w' token e | _ => True end.
Proof.
  intros HI Hclock H12 H23 Hfresh. unfold outboxClaim, Outbox.claim. pose proof (inv_outbox _ HI) as HO. rewrite Hclock in HO.
  set (o := w.(outbox)) in *. destruct (claimNext _ _ _ _ _ _ _ _ (l_data o)) as [rows found] eqn:Ec. cbn [snd].
  assert (Hlog : token ∉ l_token <$> l_log o).
  { intros (l & -> & Hl)%list_elem_of_fmap. apply Hfresh. by apply (oi_used _ _ _ _ _ HO). }
  destruct (leases_claim _ _ _ _ _ _ _ _ _ _ _ _ _ _ (oi_leases _ _ _ _ _ HO) (Z.le_trans _ _ _ H12 H23) H23 Hlog Ec) as [_ Hfound].
  set (dead_ := updateWhere _ _ _) in Hfound.
  assert (HD : OutInv t3 w.(texts) w.(enqueued) w.(accepted) (mkLedger dead_ o.(l_log) o.(l_ended))).
  { apply out_update; [done|done|]. intros id x Hg [_ Hab]%andb_true_iff. split; [eapply sound_abandon, le_sound; [apply HO|exact Hg]|].
    split; [done|]. split; [|done]. right. split; [done|]. intros tok until _ Hun. right. unfold abandoned, unleased in Hab. rewrite Hun in Hab. breflect. lia. }
  destruct found as [[k x]|].
  2: { subst rows. intros [= <- <-]. split; [|by split]. destruct HI as [_ HM HT HY]. split; cbn; try done. rewrite Hclock. exact HD. }
  destruct Hfound as (r0 & Hg & -> & _ & Hcl & -> & _). cbn [content leased].
  pose proof (out_lease _ _ _ _ _ _ _ k r0 token t2 t3 HD Hg Hcl H23 Hfresh) as HL.
  assert (Hk : from w.(enqueued) k r0.(content)) by (exact (oi_from _ _ _ _ _ HD k r0 Hg)).
  assert (HM' : MailInv w.(clock) ((token, content r0) :: w.(texts)) w.(enqueued) w.(accepted) w.(handled) w.(mailbox)).
  { eapply mailInv_more; [| |done|apply (inv_mailbox _ HI)]; [done|by right]. }
  assert (HN : NoDup ((token, content r0) :: w.(texts)).*1) by (cbn; constructor; [done|apply HI]).
  assert (Hrel : forall o1 o2, Rel w (withOutbox o2 (withText token (content r0) (withOutbox o1 w)))) by (intros o1 o2; split; cbn; try done; intros x Hx; by right).
  destruct (Events.decode (content r0)) as [e|f] eqn:Ed; intros [= <- <-].
  - split; [|split; [apply Hrel|]].
    + split; cbn; [rewrite Hclock; exact HL|exact HM'|exact HN|apply HI].
    + split; [done|]. destruct Hk as (e0 & Hin & Hid & Hb).
      destruct (proj1 (proj1 (Forall_forall _ _) (inv_vouched _ HI) e0 Hin) e) as [Hbe Hie]; [by rewrite Hb|].
      split; cbn; [rewrite Hbe, Hb; left|exists e0; by rewrite Hie, Hbe].
  - split; [|split; [apply Hrel|done]]. split; cbn; [|exact HM'|exact HN|apply HI]. rewrite Hclock.
    apply (out_update _ _ _ _ _ _ _ (token :: o.(l_ended)) HL); [by right|]. cbn [l_data]. intros id y Hy Hp. apply bool_decide_eq_true in Hp as ->.
    rewrite JsMap.get_set_eq in Hy. injection Hy as <-. split; [|split; [done|split; [|done]]].
    + eapply sound_quarantine, le_sound; [apply HL|]. cbn. by rewrite JsMap.get_set_eq.
    + right. split; [done|]. intros tok until [= <-] _. left. left.
Qed.
(** Only the outbox changes. *)
Lemma inv_withOutbox w o : Inv w -> OutInv w.(clock) w.(texts) w.(enqueued) w.(accepted) o -> Inv (withOutbox o w) /\ Rel w (withOutbox o w).
Proof. intros [HO HM HT HY] Ho. split; [by split|by split]. Qed.

Lemma NoDup_texts w token a b : Inv w -> (token, a) ∈ w.(texts) -> (token, b) ∈ w.(texts) -> a = b.
Proof.
  intros HI Ha Hb. pose proof (inv_tokens _ HI) as HN. apply (JsMap.entry_get _ _ _ HN) in Ha. apply (JsMap.entry_get _ _ _ HN) in Hb. congruence.
Qed.

Lemma outboxFinish_safe id token attempt error random t w w' r :
  Inv w -> w.(clock) = t ->
  (error = None -> exists a, a ∈ w.(accepted) /\ e_id a = id /\ (token, bytes a) ∈ w.(texts)) ->
  outboxFinish id token attempt error random t w = (w', r) -> Inv w' /\ Rel w w'.
Proof.
  intros HI Hclock Hack. unfold outboxFinish, Outbox.finish. destruct (Outbox.verdict policy attempt error random) as [to ms] eqn:Ev.
  intros [= <- <-]. apply inv_withOutbox; [done|]. pose proof (inv_outbox _ HI) as HO.
  apply (out_update _ _ _ _ _ _ _ (token :: l_ended (outbox w)) HO); [by right|].
  intros id' x Hg Hp. unfold Outbox.holds in Hp. breflect. apply bool_decide_eq_true in H as ->, H2 as Hl, H1 as Hs.
  split; [by eapply sound_finished, le_sound; [apply HO|]|]. split; [done|]. split.
  - right. split; [done|]. rewrite Hl. intros tok until [= <-] _. left. left.
  - cbn. intros ->. destruct error as [error|]; [cbn in Ev; by destruct (exhausted policy attempt)|].
    destruct (Hack eq_refl) as (a & Ha & Hid & Ht). exists a. split; [done|]. split; [done|].
    unfold same. by rewrite (NoDup_texts w token _ _ HI Ht (oi_text _ _ _ _ _ HO _ _ _ Hg Hl)).
Qed.

Lemma insertable_ok e stored u : Outbox.insertable jsonb e stored = Ok u ->
  match stored with Some text => same text (bytes e) | None => True end.
Proof.
  unfold Outbox.insertable, same. destruct (jsonb (bytes e)) as [j|]; [|done]. destruct (_ <? _); [done|]. destruct stored; [|done].
  by destruct (bool_decide_reflect (jsonb r = Some j)).
Qed.

Lemma outboxInsert_safe e t w w' :
  0 <= policy.(maxAttempts) -> Inv w -> vouched e -> outboxInsert e t w = (w', Ok tt) -> Inv w' /\ Rel w w' /\ e ∈ w'.(enqueued).
Proof.
  intros Hm HI He. unfold outboxInsert, Outbox.enqueue.
  destruct (Outbox.insertable _ _ _) as [u|f] eqn:Ei; [|done]. intros [= <-]. apply insertable_ok in Ei.
  split; [|split; [split; cbn; try done; by right|left]]. destruct HI as [HO HM HT HY]. split; cbn; [|eapply mailInv_more; [..|exact HM]; try done; by right|done|by constructor].
  destruct (JsMap.get (e_id e) (l_data (outbox w))) as [x|] eqn:Eg; cbn in Ei.
  - by eapply (out_again _ _ _ _ (withData (l_data (outbox w)) (outbox w))); [destruct (outbox w)|exact Eg|].
  - by apply out_insert.
Qed.

Lemma outboxRequeue_safe eventId t w w' r :
  Inv w -> onOutbox (Outbox.requeue eventId) t w = (w', Ok r) -> Inv w' /\ Rel w w'.
Proof.
  intros HI. unfold onOutbox, Outbox.requeue. intros [= <- _]. apply inv_withOutbox; [done|]. pose proof (inv_outbox _ HI) as HO.
  apply (out_update _ _ _ _ _ _ _ _ HO); [done|]. intros id x Hg Hp. unfold Outbox.requeueable in Hp. breflect.
  apply bool_decide_eq_true in H. split; [by eapply sound_revived; [by eapply le_sound; [apply HO|]|]|].
  split; [done|]. split; [by left|done].
Qed.

Lemma outboxPrune_safe retentionMs limit scan t w w' r :
  Inv w -> onOutbox (Outbox.prune retentionMs limit scan) t w = (w', Ok r) -> Inv w' /\ Rel w w'.
Proof.
  intros HI. unfold onOutbox, Outbox.prune. intros [= <- _]. apply inv_withOutbox; [done|]. apply out_prune; [apply HI|].
  intros id Hin. apply elem_of_take in Hin as (i & Hi & _). apply list_elem_of_lookup_2, list_elem_of_filter in Hi as [Hp _].
  destruct (JsMap.get id (l_data (outbox w))) as [x|]; [|done]. exists x. split; [done|]. unfold Outbox.prunable in Hp. breflect.
  by apply bool_decide_eq_true in H.
Qed.
(** ** The mailbox's transactions. *)

Lemma mail_update clock texts enqueued accepted handled m p f ended :
  MailInv clock texts enqueued accepted handled m ->
  (forall x, x ∈ m.(l_ended) -> x ∈ ended) ->
  (forall k r, JsMap.get k m.(l_data).(Mailbox.receipts) = Some r -> p k r = true ->
     sound policy.(maxAttempts) (f r)
     /\ ((f r).(lease) = r.(lease) /\ (f r).(lease_until) = r.(lease_until)
         \/ (f r).(lease) = None
            /\ forall token until, r.(lease) = Some token -> r.(lease_until) = Some until -> token ∈ ended \/ until <= clock)
     /\ ((f r).(state) = settled -> forall text, JsMap.get k.1 m.(l_data).(Mailbox.events) = Some text -> completed handled k.2 k.1 text)) ->
  MailInv clock texts enqueued accepted handled
    (mkLedger (Mailbox.withReceipts m.(l_data) (updateWhere p f m.(l_data).(Mailbox.receipts))) m.(l_log) ended).
Proof.
  intros [H1 H2 H3 H4 H5 H6 H7 H8 H9 H10] Hend Hf.
  assert (Hget : forall k r, JsMap.get k (updateWhere p f m.(l_data).(Mailbox.receipts)) = Some r ->
    exists r0, JsMap.get k m.(l_data).(Mailbox.receipts) = Some r0 /\ r = if p k r0 then f r0 else r0).
  { intros k r. rewrite get_updateWhere. intros (r0 & Hg & ->)%fmap_Some. by exists r0. }
  split; cbn [l_data l_log l_ended Mailbox.withReceipts Mailbox.receipts Mailbox.events]; try done.
  - apply leases_update; [eapply leases_later; [done|exact Hend|done]|]. intros k r Hg Hp. by destruct (Hf k r Hg Hp) as (? & ? & _).
  - intros k r tok (r0 & Hg & ->)%Hget Ht. destruct (p k r0) eqn:Ep; [|by eapply H4].
    destruct (Hf k r0 Hg Ep) as (_ & [[Hl _]|[Hl _]] & _); [|congruence]. rewrite Hl in Ht. by eapply H4.
  - intros k r (r0 & Hg & _)%Hget. by eapply H8.
  - intros id c r text (r0 & Hg & ->)%Hget Hs Ht. destruct (p (id, c) r0) eqn:Ep; [|by eapply H9].
    destruct (Hf _ r0 Hg Ep) as (_ & _ & Hp). by eapply Hp.
  - intros a c Ha Hc. destruct (H10 a c Ha Hc) as [(r & text & Hg & Hs & Ht & Hsame)|?]; [|by right].
    unfold openFor. cbn [l_data Mailbox.withReceipts Mailbox.receipts Mailbox.events]. rewrite get_updateWhere, Hg. cbn. destruct (p (e_id a, c) r) eqn:Ep; [|left; eauto 6].
    destruct (Hf _ r Hg Ep) as (_ & _ & Hp). destruct (decide ((f r).(state) = settled)) as [Hd|Hd]; [|left; eauto 6].
    right. eapply completed_same; [by apply Hp|done].
Qed.

Lemma mail_lease clock texts enqueued accepted handled ms log ended k r0 text token t2 t3 :
  MailInv clock texts enqueued accepted handled (mkLedger ms log ended) ->
  JsMap.get k ms.(Mailbox.receipts) = Some r0 -> JsMap.get k.1 ms.(Mailbox.events) = Some text ->
  claimable policy.(maxAttempts) t2 r0 = true -> t2 <= clock -> token ∉ texts.*1 ->
  MailInv clock ((token, text) :: texts) enqueued accepted handled
    (mkLedger (Mailbox.withReceipts ms (JsMap.set k (leased token t3 r0) ms.(Mailbox.receipts))) (mkLog token k (t3 + LEASE) :: log) ended).
Proof.
  intros [H1 H2 H3 H4 H5 H6 H7 H8 H9 H10] Hk Htext Hc Ht Hfresh. cbn [l_data l_log l_ended] in *.
  split; cbn [l_data l_log l_ended Mailbox.withReceipts Mailbox.receipts Mailbox.events]; try done.
  - eapply leases_set; try done. intros (l & -> & Hl)%list_elem_of_fmap. by apply Hfresh, H3.
  - intros l [-> |Hl]%elem_of_cons; cbn; [left|right; by apply H3].
  - intros k' r tok. rewrite JsMap.get_set. destruct (decide (k = k')) as [<-|].
    + intros [= <-] [= <-]. exists text. split; [done|left].
    + intros Hg Hl. destruct (H4 _ _ _ Hg Hl) as (text' & ? & ?). exists text'. split; [done|by right].
  - intros k' r. rewrite JsMap.get_set. destruct (decide (k = k')) as [<-|]; [intros _; by eapply H8|apply H8].
  - intros id c r text'. rewrite JsMap.get_set. destruct (decide (k = (id, c))) as [->|]; [|by apply H9].
    intros [= <-]. by apply (H9 id c r0).
  - intros a c Ha Hcons. destruct (H10 a c Ha Hcons) as [(r & text' & Hg & Hs & Ht' & Hsame)|?]; [left|by right].
    unfold openFor. cbn [l_data Mailbox.withReceipts Mailbox.receipts Mailbox.events]. rewrite JsMap.get_set. destruct (decide (k = (e_id a, c))) as [->|]; [|eauto 6].
    rewrite Hk in Hg. injection Hg as <-. exists (leased token t3 r0), text'. by split_and!.
Qed.

(** Receipts are opened for the consumers named that had none. *)
Lemma openReceipts_get id cs t rows k :
  JsMap.get k (Mailbox.openReceipts id cs t rows) =
  match JsMap.get k rows with
  | Some r => Some r
  | None => if decide (k.1 = id /\ k.2 ∈ cs) then Some (inserted t tt) else None
  end.
Proof.
  unfold Mailbox.openReceipts. revert rows. induction cs as [|c cs IH]; intros rows; cbn [fold_left].
  - destruct (JsMap.get k rows); [done|]. rewrite decide_False; [done|]. by intros [_ ?%elem_of_nil].
  - rewrite IH. unfold JsMap.has. destruct (JsMap.get (id, c) rows) as [r|] eqn:Ec; cbn.
    + destruct (JsMap.get k rows) as [r'|] eqn:Ek; [done|]. apply decide_ext. split; [naive_solver set_solver|].
      intros [Hid Hin]. split; [done|]. apply elem_of_cons in Hin as [Hcc|Hin]; [|done]. exfalso. destruct k. cbn in *. congruence.
    + rewrite JsMap.get_set. destruct (decide ((id, c) = k)) as [<-|Hne].
      * rewrite Ec. rewrite decide_True; [done|]. cbn. split; [done|left].
      * destruct (JsMap.get k rows); [done|]. apply decide_ext. destruct k as [i c']. cbn. split; [intros [? ?]; split; [done|by right]|].
        intros [Hid [-> |Hin]%elem_of_cons]; [congruence|done].
Qed.
Lemma openReceipts_leases clock id cs t rows log ended :
  0 <= policy.(maxAttempts) -> leases policy.(maxAttempts) clock rows log ended ->
  leases policy.(maxAttempts) clock (Mailbox.openReceipts id cs t rows) log ended.
Proof.
  intros Hm. unfold Mailbox.openReceipts. revert rows. induction cs as [|c cs IH]; intros rows HL; cbn [fold_left]; [done|].
  apply IH. unfold JsMap.has. destruct (JsMap.get (id, c) rows) eqn:E; cbn; [done|]. by apply leases_insert.
Qed.

Lemma mail_accept clock texts enqueued accepted handled m e t :
  0 <= policy.(maxAttempts) -> MailInv clock texts enqueued accepted handled m -> from enqueued (e_id e) (bytes e) ->
  (forall text, JsMap.get (e_id e) m.(l_data).(Mailbox.events) = Some text -> same text (bytes e)) ->
  MailInv clock texts enqueued (e :: accepted) handled
    (mkLedger (Mailbox.mkMailbox
        (if JsMap.has (e_id e) m.(l_data).(Mailbox.events) then m.(l_data).(Mailbox.events)
         else JsMap.set (e_id e) (bytes e) m.(l_data).(Mailbox.events))
        (Mailbox.openReceipts (e_id e) consumers t m.(l_data).(Mailbox.receipts))) m.(l_log) m.(l_ended)).
Proof.
  intros Hm [H1 H2 H3 H4 H5 H6 H7 H8 H9 H10] Hfrom Hsame. destruct m as [[evs rcs] log ended].
  cbn [l_data l_log l_ended Mailbox.receipts Mailbox.events] in *.
  set (evs' := if JsMap.has (e_id e) evs then evs else JsMap.set (e_id e) (bytes e) evs).
  assert (Hevs : forall id, JsMap.get id evs' = match JsMap.get id evs with Some x => Some x | None => if decide (id = e_id e) then Some (bytes e) else None end).
  { intros id. unfold evs', JsMap.has. destruct (JsMap.get (e_id e) evs) eqn:E; cbn.
    - destruct (JsMap.get id evs) eqn:E'; [done|]. rewrite decide_False; [done|]. intros ->. congruence.
    - rewrite JsMap.get_set. destruct (decide (e_id e = id)) as [<-|Hne]; [by rewrite E, decide_True|].
      destruct (JsMap.get id evs); [done|]. by rewrite decide_False by congruence. }
  assert (Hold : forall k r, JsMap.get k (Mailbox.openReceipts (e_id e) consumers t rcs) = Some r ->
    JsMap.get k rcs = Some r \/ JsMap.get k rcs = None /\ k.1 = e_id e /\ k.2 ∈ consumers /\ r = inserted t tt).
  { intros k r. rewrite openReceipts_get. destruct (JsMap.get k rcs); [by left|]. case_decide as Hd; [|done]. intros [= <-]. right. naive_solver. }
  assert (Htext : forall k r text, JsMap.get k rcs = Some r -> JsMap.get k.1 evs' = Some text -> JsMap.get k.1 evs = Some text).
  { intros k r text Hg. rewrite Hevs. destruct (H8 _ _ Hg) as [_ Hn]. by destruct (JsMap.get k.1 evs). }
  split; cbn [l_data l_log l_ended Mailbox.receipts Mailbox.events]; try done.
  - by apply openReceipts_leases.
  - unfold evs'. destruct (JsMap.has _ _); [done|]. by apply JsMap.wf_set.
  - intros k r tok [Hg|(_ & _ & _ & ->)]%Hold Hl; [|done]. destruct (H4 _ _ _ Hg Hl) as (text & Ht & ?). exists text. split; [by rewrite Hevs, Ht|done].
  - intros id text. rewrite Hevs. destruct (JsMap.get id evs) as [x|] eqn:E; [intros [= <-]; by apply H5|].
    case_decide as Hd; [|done]. intros [= <-]. by rewrite Hd.
  - intros a [-> |Ha]%elem_of_cons; [done|by apply H6].
  - intros k r [Hg|(_ & Hk & Hc & _)]%Hold.
    + destruct (H8 _ _ Hg) as [Hc Hn]. split; [done|]. rewrite Hevs. by destruct (JsMap.get k.1 evs).
    + split; [done|]. rewrite Hevs, Hk, decide_True by done. by destruct (JsMap.get (e_id e) evs).
  - intros id c r text [Hg|(_ & _ & _ & ->)]%Hold Hs Ht; [|done]. eapply H9; [exact Hg|done|]. exact (Htext (id, c) r text Hg Ht).
  - intros a c [-> |Ha]%elem_of_cons Hc.
    + destruct (JsMap.get (e_id e, c) rcs) as [r|] eqn:Er.
      * destruct (H8 _ _ Er) as [_ Hn]. cbn [fst] in Hn. destruct (JsMap.get (e_id e) evs) as [text|] eqn:Et; [|done].
        specialize (Hsame text eq_refl). destruct (decide (r.(state) = settled)) as [Hd|Hd].
        -- right. eapply completed_same; [by eapply H9|done].
        -- left. exists r, text. cbn. rewrite openReceipts_get, Er, Hevs, Et. done.
      * left. exists (inserted t tt), (default (bytes e) (JsMap.get (e_id e) evs)).
        cbn [Mailbox.receipts Mailbox.events]. rewrite openReceipts_get, Er, decide_True, Hevs by done.
        destruct (JsMap.get (e_id e) evs) as [text|] eqn:Et; cbn.
        -- split_and!; try done. by apply Hsame.
        -- by rewrite decide_True.
    + destruct (H10 a c Ha Hc) as [(r & text & Hg & Hs & Ht & Hsm)|?]; [left|by right]. cbn [Mailbox.receipts Mailbox.events] in Hg, Ht.
      exists r, text. cbn [Mailbox.receipts Mailbox.events]. by rewrite openReceipts_get, Hg, Hevs, Ht.
Qed.

Lemma mail_prune clock texts enqueued accepted handled m (chosen : list ID) :
  MailInv clock texts enqueued accepted handled m ->
  (forall id c r, id ∈ chosen -> JsMap.get (id, c) m.(l_data).(Mailbox.receipts) = Some r -> r.(state) = settled) ->
  MailInv clock texts enqueued accepted handled
    (mkLedger (Mailbox.mkMailbox (filter (fun e => e.1 ∉ chosen) m.(l_data).(Mailbox.events))
                 (filter (fun e => e.1.1 ∉ chosen) m.(l_data).(Mailbox.receipts))) m.(l_log) m.(l_ended)).
Proof.
  intros [H1 H2 H3 H4 H5 H6 H7 H8 H9 H10] Hch. destruct m as [[evs rcs] log ended].
  cbn [l_data l_log l_ended Mailbox.receipts Mailbox.events] in *. pose proof (le_wf _ _ _ _ _ H1) as Hw.
  assert (Hrow : forall k r, JsMap.get k (filter (fun e => e.1.1 ∉ chosen) rcs) = Some r -> JsMap.get k rcs = Some r /\ k.1 ∉ chosen).
  { intros k r. rewrite JsMap.get_filter by done. destruct (JsMap.get k rcs); [|done]. case_decide; [|done]. by intros [= <-]. }
  assert (Hev : forall id, id ∉ chosen -> JsMap.get id (filter (fun e => e.1 ∉ chosen) evs) = JsMap.get id evs).
  { intros id Hid. rewrite JsMap.get_filter by done. destruct (JsMap.get id evs); [|done]. by rewrite decide_True. }
  assert (Hev' : forall id x, JsMap.get id (filter (fun e => e.1 ∉ chosen) evs) = Some x -> JsMap.get id evs = Some x).
  { intros id x. rewrite JsMap.get_filter by done. destruct (JsMap.get id evs); [|done]. by case_decide. }
  split; cbn [l_data l_log l_ended Mailbox.receipts Mailbox.events]; try done.
  - apply leases_filter; [done|]. cbn. intros [id c] r Hg Hin. apply dec_stable in Hin. cbn in Hin.
    eapply so_finished; [by eapply le_sound|]. by rewrite (Hch id c r Hin Hg).
  - by apply JsMap.wf_filter.
  - intros k r tok [Hg Hid]%Hrow Hl. rewrite Hev by done. by eapply H4.
  - intros id text Hg%Hev'. by eapply H5.
  - intros k r [Hg Hid]%Hrow. rewrite Hev by done. by eapply H8.
  - intros id c r text [Hg Hid]%Hrow Hs Ht%Hev'. by eapply H9.
  - intros a c Ha Hc. destruct (H10 a c Ha Hc) as [(r & text & Hg & Hs & Ht & Hsm)|?]; [left|by right]. cbn [Mailbox.receipts Mailbox.events] in Hg, Ht.
    assert (Hout : e_id a ∉ chosen) by (intros Hin; by apply Hs, (Hch _ c r Hin)).
    exists r, text. cbn [Mailbox.receipts Mailbox.events]. rewrite JsMap.get_filter, Hg, decide_True, Hev by done. done.
Qed.
(** Only the mailbox changes. *)
Lemma inv_withMailbox w m :
  Inv w -> MailInv w.(clock) w.(texts) w.(enqueued) w.(accepted) w.(handled) m -> Inv (withMailbox m w) /\ Rel w (withMailbox m w).
Proof. intros [HO HM HT HY] Hm. split; [by split|by split]. Qed.

Lemma mailboxAccept_safe e t w w' :
  0 <= policy.(maxAttempts) -> Inv w -> from w.(enqueued) (e_id e) (bytes e) ->
  mailboxAccept e consumers t w = (w', Ok tt) -> Inv w' /\ Rel w w' /\ e ∈ w'.(accepted).
Proof.
  intros Hm HI Hfrom. unfold mailboxAccept, Mailbox.accept. destruct (Outbox.insertable _ _ _) as [u|f] eqn:Ei; [|done].
  intros [= <-]. apply insertable_ok in Ei. split; [|split; [split; cbn; try done; by right|left]].
  destruct HI as [HO HM HT HY]. split; cbn; [eapply outInv_more; [| | |exact HO]; try done; by right| |done|done].
  apply mail_accept; [done|done|done|]. intros text Ht. by rewrite Ht in Ei.
Qed.

Lemma mailboxClaim_safe consumer token locked t1 t2 t3 w w' r :
  Inv w -> w.(clock) = t3 -> t1 <= t2 -> t2 <= t3 -> token ∉ w.(texts).*1 ->
  mailboxClaim consumer token locked t1 t2 t3 w = (w', r) ->
  Inv w' /\ Rel w w'
  /\ match r with Ok (Some (Mailbox.ClaimedEvent e _)) => known w' token e /\ consumer ∈ consumers | _ => True end.
Proof.
  intros HI Hclock H12 H23 Hfresh. unfold mailboxClaim, Mailbox.claim. pose proof (inv_mailbox _ HI) as HM. rewrite Hclock in HM.
  set (m := w.(mailbox)) in *.
  assert (HD : MailInv t3 w.(texts) w.(enqueued) w.(accepted) w.(handled)
    (mkLedger (Mailbox.withReceipts m.(l_data) (Mailbox.buried consumer policy t1 m.(l_data).(Mailbox.receipts))) m.(l_log) m.(l_ended))).
  { apply mail_update; [done|done|]. intros k x Hg [_ Hab]%andb_true_iff. split; [eapply sound_abandon, le_sound; [apply HM|exact Hg]|].
    split; [|done]. right. split; [done|]. intros tok until _ Hun. right. unfold abandoned, unleased in Hab. rewrite Hun in Hab. breflect. lia. }
  assert (Hstay : forall r', (withMailbox (withData (Mailbox.withReceipts (l_data m) (Mailbox.buried consumer policy t1 (Mailbox.receipts (l_data m)))) m) w,
      @Ok Failure _ None) = (w', r') -> Inv w' /\ Rel w w'
      /\ match r' with Ok (Some (Mailbox.ClaimedEvent e _)) => known w' token e /\ consumer ∈ consumers | _ => True end).
  { intros r' [= <- <-]. destruct (inv_withMailbox w _ HI ltac:(rewrite Hclock; exact HD)) as [? ?]. by split_and!. }
  destruct (Mailbox.nextFor consumer policy locked t1 t2 (l_data m)) as [[k r0]|] eqn:Ec; [|apply Hstay].
  destruct (JsMap.get k.1 (Mailbox.events (l_data m))) as [text|] eqn:Et; [|apply Hstay]. clear Hstay.
  apply candidate_some in Ec as (Hg & Hmine & _ & Hcl); [|by eapply (le_wf _ _ _ _ _ (mi_leases _ _ _ _ _ _ HD))].
  unfold Mailbox.mine in Hmine. apply bool_decide_eq_true in Hmine.
  pose proof (mail_lease _ _ _ _ _ _ _ _ k r0 text token t2 t3 HD Hg Et Hcl H23 Hfresh) as HL.
  destruct (mi_from _ _ _ _ _ _ HD k.1 text Et) as (e0 & Hin & Hid & Hb).
  assert (HO' : OutInv w.(clock) ((token, text) :: w.(texts)) w.(enqueued) w.(accepted) w.(outbox)).
  { eapply outInv_more; [| |done|apply (inv_outbox _ HI)]; [done|by right]. }
  assert (HN : NoDup ((token, text) :: w.(texts)).*1) by (cbn; constructor; [done|apply HI]).
  assert (Hrel : forall m1 m2, Rel w (withMailbox m2 (withText token text (withMailbox m1 w)))) by (intros m1 m2; split; cbn; try done; intros x Hx; by right).
  destruct (Events.decode text) as [e|f] eqn:Ed; intros [= <- <-].
  - split; [|split; [apply Hrel|]].
    + split; cbn; [exact HO'|rewrite Hclock; exact HL|exact HN|apply HI].
    + split; [|rewrite <- Hmine; by eapply (mi_receipt _ _ _ _ _ _ HD)].
      destruct (proj1 (proj1 (Forall_forall _ _) (inv_vouched _ HI) e0 Hin) e) as [Hbe Hie]; [by rewrite Hb|].
      split; cbn; [rewrite Hbe, Hb; left|exists e0; by rewrite Hie, Hbe].
  - split; [|split; [apply Hrel|done]]. split; cbn; [exact HO'| |exact HN|apply HI]. rewrite Hclock.
    apply (mail_update _ _ _ _ _ _ (fun k' _ => bool_decide (k' = k)) (quarantine t3) (token :: m.(l_ended)) HL); [by right|].
    cbn [l_data Mailbox.receipts Mailbox.withReceipts]. intros k' y Hy Hp. apply bool_decide_eq_true in Hp as ->.
    rewrite JsMap.get_set_eq in Hy. injection Hy as <-. split; [|split; [|done]].
    + eapply sound_quarantine, le_sound; [apply HL|]. cbn. by rewrite JsMap.get_set_eq.
    + right. split; [done|]. intros tok until [= <-] _. left. left.
Qed.

Lemma mailboxFinish_safe id consumer token attempt error random t w w' r :
  Inv w ->
  (error = None -> exists e, (consumer, e) ∈ w.(handled) /\ e_id e = id /\ (token, bytes e) ∈ w.(texts)) ->
  mailboxFinish id consumer token attempt error random t w = (w', r) -> Inv w' /\ Rel w w'.
Proof.
  intros HI Hdone. unfold mailboxFinish, Mailbox.finish. destruct (Outbox.verdict policy attempt error random) as [to ms] eqn:Ev.
  intros [= <- <-]. apply inv_withMailbox; [done|]. pose proof (inv_mailbox _ HI) as HM.
  apply (mail_update _ _ _ _ _ _ _ _ (token :: l_ended (mailbox w)) HM); [by right|].
  intros k x Hg Hp. unfold Mailbox.holds in Hp. breflect. apply bool_decide_eq_true in H as ->, H1 as Hl, H0 as Hs.
  split; [by eapply sound_finished, le_sound; [apply HM|]|]. split.
  - right. split; [done|]. rewrite Hl. intros tok until [= <-] _. left. left.
  - cbn. intros -> text Ht. destruct error as [error|]; [cbn in Ev; by destruct (exhausted policy attempt)|].
    destruct (Hdone eq_refl) as (e & He & Hid & Htx). exists e. split; [done|]. split; [done|].
    destruct (mi_text _ _ _ _ _ _ HM _ _ _ Hg Hl) as (text' & Ht' & Hin). cbn in Ht'. rewrite Ht in Ht'. injection Ht' as <-.
    unfold same. by rewrite (NoDup_texts w token _ _ HI Htx Hin).
Qed.

Lemma mailboxRequeue_safe consumer eventId t w w' r :
  Inv w -> onMailbox (Mailbox.requeue consumer eventId) t w = (w', Ok r) -> Inv w' /\ Rel w w'.
Proof.
  intros HI. unfold onMailbox, Mailbox.requeue. intros [= <- _]. apply inv_withMailbox; [done|]. pose proof (inv_mailbox _ HI) as HM.
  apply (mail_update _ _ _ _ _ _ _ _ _ HM); [done|]. intros k x Hg Hp. unfold Mailbox.requeueable in Hp. breflect.
  apply bool_decide_eq_true in H1. split; [by eapply sound_revived; [by eapply le_sound; [apply HM|]|]|]. split; [by left|done].
Qed.

Lemma mailboxPrune_safe retentionMs limit scan t w w' r :
  Inv w -> onMailbox (Mailbox.prune retentionMs limit scan) t w = (w', Ok r) -> Inv w' /\ Rel w w'.
Proof.
  intros HI. unfold onMailbox, Mailbox.prune. intros [= <- _]. apply inv_withMailbox; [done|]. apply mail_prune; [apply HI|].
  intros id c x Hin Hg. apply elem_of_take in Hin as (i & Hi & _). apply list_elem_of_lookup_2, list_elem_of_filter in Hi as [Hp _].
  apply andb_true_iff in Hp as [_ Hp]. unfold Mailbox.prunable in Hp. rewrite forallb_forall in Hp.
  specialize (Hp ((id, c), x) (proj1 (list_elem_of_In _ _) (JsMap.get_entry _ _ _ Hg))). cbn in Hp.
  rewrite bool_decide_eq_true_2 in Hp by done. cbn in Hp. unfold Mailbox.settledLongAgo in Hp.
  apply andb_true_iff in Hp as [Hp _]. by apply bool_decide_eq_true in Hp.
Qed.


(** ** Any transaction, in any world. *)

Lemma inv_later t w : Inv w -> w.(clock) <= t -> Inv (withClock t w) /\ Rel w (withClock t w).
Proof.
  intros [HO HM HT HY] Ht. split; [|by split]. split; cbn; [by eapply outInv_more|by eapply mailInv_more|done|done].
Qed.

Lemma during_safe {A} (fn : Z -> Z -> Z -> World -> World * Res A) (post : A -> World -> Prop) w r w' :
  Inv w -> during fn w r w' ->
  (forall t1 t2 t3 v w1, w.(clock) <= t1 -> t1 <= t2 -> t2 <= t3 -> Inv (withClock t3 w) ->
     fn t1 t2 t3 (withClock t3 w) = (w1, Ok v) -> Inv w1 /\ Rel (withClock t3 w) w1 /\ post v w1) ->
  Inv w' /\ Rel w w' /\ match r with Ok v => post v w' | Err _ => True end.
Proof.
  intros HI (t1 & t2 & t3 & H1 & H2 & H3 & Htx) Hfn.
  destruct (inv_later t3 w HI ltac:(lia)) as [HI' HR].
  destruct Htx as [v s' Hs|f _|f _|v s' Hs]; [|by split_and!..|].
  all: destruct (Hfn t1 t2 t3 v s' H1 H2 H3 HI' Hs) as (? & ? & ?); split_and!; try done; by eapply event_rel_trans.
Qed.

Lemma during_quiet {A} (fn : Z -> Z -> Z -> World -> World * Res A) w r w' :
  Inv w -> during fn w r w' ->
  (forall t1 t2 t3 v w1, Inv (withClock t3 w) -> fn t1 t2 t3 (withClock t3 w) = (w1, Ok v) -> Inv w1 /\ Rel (withClock t3 w) w1) ->
  Inv w' /\ Rel w w' /\ True.
Proof.
  intros HI Hd Hfn. destruct (during_safe fn (fun _ _ => True) w r w' HI Hd) as (? & ? & _); [|done].
  intros t1 t2 t3 v w1 _ _ _ HI' Hs. by destruct (Hfn t1 t2 t3 v w1 HI' Hs).
Qed.

(** What the commands must know before a call, and what they know after it. *)
Definition allowed (op : Op) (w : World) : Prop :=
  match op with
  | finishOutbox id token _ None => exists a, a ∈ w.(accepted) /\ e_id a = id /\ (token, bytes a) ∈ w.(texts)
  | acceptEvent e cs => cs = consumers /\ from w.(enqueued) (e_id e) (bytes e)
  | runHandler c e => from w.(enqueued) (e_id e) (bytes e) /\ c ∈ consumers
  | finishReceipt id c token _ None => exists e, (c, e) ∈ w.(handled) /\ e_id e = id /\ (token, bytes e) ∈ w.(texts)
  | enqueueEvent e => vouched e
  | _ => True
  end.

Definition told (op : Op) : Ans op -> World -> Prop :=
  match op with
  | subscribers => fun r _ => r = consumers
  | claimOutbox token => fun r w => match r with Ok (Some (Outbox.Lease e tok _)) => tok = token /\ known w token e | _ => True end
  | acceptEvent e _ => fun r w => match r with Ok _ => e ∈ w.(accepted) | Err _ => True end
  | claimReceipt c token => fun r w => match r with Ok (Some (Mailbox.ClaimedEvent e _)) => known w token e /\ c ∈ consumers | _ => True end
  | runHandler c e => fun r w => match r with Returned (Ok _) => (c, e) ∈ w.(handled) | _ => True end
  | enqueueEvent e => fun r w => match r with Ok _ => e ∈ w.(enqueued) | Err _ => True end
  | _ => fun _ _ => True
  end.

Lemma handler_safe c e w :
  Inv w -> from w.(enqueued) (e_id e) (bytes e) -> c ∈ consumers -> Inv (withHandled c e w) /\ Rel w (withHandled c e w).
Proof.
  intros [HO HM HT HY] Hf Hc. split; [|split; cbn; try done; by right]. split; cbn; try done.
  destruct HM as [H1 H2 H3 H4 H5 H6 H7 H8 H9 H10].
  assert (Hmore : forall c' id text, completed w.(handled) c' id text -> completed ((c, e) :: w.(handled)) c' id text)
    by (intros c' id text (x & ? & ?); exists x; split; [by right|done]).
  split; try done.
  - intros c' e' [[= -> ->]|Hin]%elem_of_cons; [done|by apply H7].
  - intros id c' r text Hg Hs Ht. by eapply Hmore, H9.
  - intros a c' Ha Hin. destruct (H10 a c' Ha Hin); [by left|right; by apply Hmore].
Qed.

Lemma exec_safe op w r w' :
  0 <= policy.(maxAttempts) -> Inv w -> allowed op w -> exec op w r w' -> Inv w' /\ Rel w w' /\ told op r w'.
Proof.
  intros Hm HI Ha He. destruct op as [| | |token|id token attempt error|e cs|c token|c e|id c token attempt error|e|eventId|c eventId|ms n|ms n]; cbn in Ha, He |- *.
  - subst w'. by split_and!.
  - destruct r as [id|f]; [|subst w'; by split_and!]. destruct He as (_ & _ & ->). destruct HI as [HO HM HT HY].
    split_and!; [by split|split; cbn; try done; by right|done].
  - destruct He as [-> ->]. by split_and!.
  - destruct He as (Hfresh & locked & Hd).
    pose proof (during_safe _ (fun v w1 => match v with Some (Outbox.Lease e tok _) => tok = token /\ known w1 token e | _ => True end) _ _ _ HI Hd) as H.
    destruct H as (? & ? & Hpost); [|split_and!; [done..|]; by destruct r as [[[]|]|]].
    intros t1 t2 t3 v w1 H1 H2 H3 HI' Hfn. eapply outboxClaim_safe in Hfn as (? & ? & ?); [|done|done|exact H2|exact H3|done]. by split_and!.
  - destruct He as (random & _ & Hd). apply (during_quiet _ _ _ _ HI Hd). intros t1 t2 t3 v w1 HI' Hfn.
    eapply outboxFinish_safe; [done|done| |done]. by intros ->.
  - destruct Ha as [-> Ha]. pose proof (during_safe _ (fun _ w1 => e ∈ w1.(accepted)) _ _ _ HI He) as H.
    destruct H as (? & ? & Hpost); [|split_and!; [done..|]; by destruct r].
    intros t1 t2 t3 [] w1 H1 H2 H3 HI' Hfn. by eapply mailboxAccept_safe in Hfn.
  - destruct He as (Hfresh & locked & Hd).
    pose proof (during_safe _ (fun v w1 => match v with Some (Mailbox.ClaimedEvent e _) => known w1 token e /\ c ∈ consumers | _ => True end) _ _ _ HI Hd) as H.
    destruct H as (? & ? & Hpost); [|split_and!; [done..|]; by destruct r as [[[]|]|]].
    intros t1 t2 t3 v w1 H1 H2 H3 HI' Hfn. eapply mailboxClaim_safe in Hfn as (? & ? & ?); [|done|done|exact H2|exact H3|done]. by split_and!.
  - destruct r as [[[]|f]|f]; subst w'; [|by split_and!..]. destruct Ha as [Hf Hc]. destruct (handler_safe c e w HI Hf Hc). split_and!; [done..|left].
  - destruct He as (random & _ & Hd). apply (during_quiet _ _ _ _ HI Hd). intros t1 t2 t3 v w1 HI' Hfn.
    eapply mailboxFinish_safe; [done| |done]. by intros ->.
  - pose proof (during_safe _ (fun _ w1 => e ∈ w1.(enqueued)) _ _ _ HI He) as H.
    destruct H as (? & ? & Hpost); [|split_and!; [done..|]; by destruct r].
    intros t1 t2 t3 [] w1 H1 H2 H3 HI' Hfn. by eapply outboxInsert_safe in Hfn.
  - apply (during_quiet _ _ _ _ HI He). intros t1 t2 t3 v w1 HI' Hfn. by eapply outboxRequeue_safe.
  - apply (during_quiet _ _ _ _ HI He). intros t1 t2 t3 v w1 HI' Hfn. by eapply mailboxRequeue_safe.
  - destruct He as (scan & Hd). apply (during_quiet _ _ _ _ HI Hd). intros t1 t2 t3 v w1 HI' Hfn. by eapply outboxPrune_safe.
  - destruct He as (scan & Hd). apply (during_quiet _ _ _ _ HI Hd). intros t1 t2 t3 v w1 HI' Hfn. by eapply mailboxPrune_safe.
Qed.

(** ** The commands. *)
Section Commands.
Context (Hmax : 0 <= policy.(maxAttempts)).
Abbreviation wp := (wp exec Inv Rel).

Lemma from_rel w w' id text : Rel w w' -> from w.(enqueued) id text -> from w'.(enqueued) id text.
Proof. intros HR. apply from_more, HR. Qed.

Lemma known_rel w w' token e : Rel w w' -> known w token e -> known w' token e.
Proof. intros HR [Ht Hf]. split; [by apply HR|by eapply from_rel]. Qed.

(** A call whose precondition holds from here on. *)
Lemma wp_ask {A} op (k : Ans op -> Prog Ans A) (post : A -> World -> Prop) w :
  (forall w1, Rel w w1 -> Inv w1 -> allowed op w1) ->
  (forall r w2, Rel w w2 -> Inv w2 -> told op r w2 -> wp (k r) post w2) -> wp (Call op k) post w.
Proof using Hmax.
  intros Ha Hk w1 HR HI r w2 He. destruct (exec_safe op w1 r w2 Hmax HI (Ha w1 HR HI) He) as (HI2 & HR2 & Ht).
  split_and!; [done..|]. apply Hk; [by eapply event_rel_trans|done..].
Qed.

Lemma wp_answer {A} (a : A) (post : A -> World -> Prop) w : (forall w', Rel w w' -> Inv w' -> post a w') -> wp (Ret a) post w.
Proof. done. Qed.

Lemma accept_wp e w :
  from w.(enqueued) (e_id e) (bytes e) ->
  wp (accept e consumers) (fun r w' => match r with Ok _ => e ∈ w'.(accepted) | Err _ => True end) w.
Proof using Hmax.
  intros Hf. unfold accept. destruct (negb _); [by apply wp_answer|]. apply wp_ask.
  - intros w1 HR _. split; [done|]. by eapply from_rel.
  - intros r w2 _ _ Ht w' HR' _. cbn in Ht. destruct r; [|done]. by apply HR'.
Qed.

(** A publisher whose durable receipts are true: a broker's worker, or the bus. *)
Definition honest (publisher : Envelope -> Prog Ans (Settled Receipt)) : Prop :=
  forall e w, Inv w -> from w.(enqueued) (e_id e) (bytes e) ->
    wp (publisher e) (fun s w' => forall rc, caught s = Ok rc -> rc.(rc_durable) = true -> rc.(rc_eventId) = e_id e -> e ∈ w'.(accepted)) w.

Lemma bus_honest : honest bus.
Proof using Hmax.
  intros e w HI Hf. unfold bus, publish. apply wp_ask; [done|]. intros [] w1 HR1 HI1 _; [by apply wp_answer|].
  apply wp_ask; [done|]. intros cs w2 HR2 HI2 ->. cbn [bind].
  assert (HR : Rel w w2) by (by eapply event_rel_trans).
  eapply (wp_seq exec Inv Rel event_rel_refl event_rel_trans);
    [eapply (wp_seq exec Inv Rel event_rel_refl event_rel_trans);
       [apply accept_wp; by eapply from_rel|done|]|done|].
  - intros r w3 HI3 HR3 Hr. cbn in Hr.
    instantiate (1 := fun r w' => match r with Ok _ => e ∈ w'.(accepted) | Err _ => True end).
    destruct r as [u|f]; apply wp_answer; [|done]. intros w' HR' _. by apply HR'.
  - intros r w3 HI3 HR3 Hr. apply wp_answer. intros w' HR' _ rc. cbn. intros -> _ _. by apply HR'.
Qed.

Lemma dispatch_wp publisher token w :
  honest publisher -> Inv w -> wp (dispatch publisher token) (fun _ _ => True) w.
Proof using Hmax.
  intros Hp HI. unfold dispatch. apply wp_ask; [done|]. intros [] w1 HR1 HI1 _; [by apply wp_answer|].
  cbn [bind perform pure_]. destruct (parse (VStr token)) as [tok|f]; cbn [bind]; [|by apply wp_answer].
  apply (wp_ask (claimOutbox token)); [done|]. intros r w2 HR2 HI2 Ht. cbn in Ht.
  destruct r as [[[e tok' attempt|id]|]|f]; try by apply wp_answer. destruct Ht as [-> Hk].
  eapply (wp_seq exec Inv Rel event_rel_refl event_rel_trans); [apply Hp; [done|apply Hk]|done|].
  intros s w3 HI3 HR3 Hs. cbn in Hs.
  assert (Hend : forall error (v : Res bool) w4, Rel w3 w4 ->
    (error = None -> e ∈ w3.(accepted)) ->
    wp (bind (perform (finishOutbox (e_id e) token attempt error))
          (fun r => match r with Ok _ => Ret v | Err f => Ret (Err f) end)) (fun _ _ => True) w4).
  { intros error v w4 HR4 Hnone. apply wp_ask; [|intros [] w5 _ _ _; by apply wp_answer].
    intros w5 HR5 _. destruct error as [error|]; [done|]. exists e. split; [by apply HR5, HR4, Hnone|]. split; [done|].
    apply HR5, HR4, HR3. apply Hk. }
  destruct (caught s) as [rc|f]; [destruct (rc_durable rc && _) eqn:E|]; apply Hend; try apply event_rel_refl; try done.
  intros _. apply andb_true_iff in E as [Hd Hid]. apply bool_decide_eq_true in Hid. by apply (Hs rc).
Qed.

Lemma deliver_wp p consumer w : Inv w -> wp (deliver p consumer) (fun _ _ => True) w.
Proof using Hmax.
  intros HI. unfold deliver. destruct (negb _); [by apply wp_answer|].
  apply (wp_ask newId); [done|]. intros [token|f] w1 HR1 HI1 _; [|by apply wp_answer].
  apply (wp_ask (claimReceipt consumer token)); [done|]. intros r w2 HR2 HI2 Ht. cbn in Ht.
  destruct r as [[[e attempt|id attempt]|]|f]; try by apply wp_answer. destruct Ht as [Hk Hc].
  apply (wp_ask (runHandler consumer e)).
  { intros w3 HR3 _. split; [|done]. eapply from_rel; [done|apply Hk]. }
  intros s w3 HR3 HI3 Hs. apply (wp_ask (finishReceipt _ _ _ _ _)); [|intros [] w4 _ _ _; by apply wp_answer].
  intros w4 HR4 _. destruct s as [[[]|f]|f]; try done. cbn in Hs |- *.
  exists e. split; [by apply HR4|]. split; [done|]. apply HR4, HR3, Hk.
Qed.

(** ** The processes of the program.

    A writer enqueues an event in its transaction; a dispatcher and a
    subscriber's loop take some turns; operators requeue and maintenance prunes. *)
Inductive Process : Type :=
| writing (event : Envelope)
| dispatching (turns : nat)
| subscriber (turns : nat) (p : RetryPolicy) (consumer : jstring)
| requeueingOutbox (eventId : option ID)
| requeueingMailbox (consumer : jstring) (eventId : option ID)
| pruningOutbox (retentionMs : Z) (limit : nat)
| pruningMailbox (retentionMs : Z) (limit : nat).

Definition quietly {A} (p : Prog Ans A) : Prog Ans (Res unit) := bind p (fun _ => Ret (Ok tt)).

Definition program (p : Process) : Prog Ans (Res unit) :=
  match p with
  | writing event => perform (enqueueEvent event)
  | dispatching turns => quietly (poll turns)
  | subscriber turns p consumer => quietly (run turns p consumer)
  | requeueingOutbox eventId => quietly (perform (Ans := Ans) (requeueOutbox eventId))
  | requeueingMailbox consumer eventId => quietly (requeueFor consumer eventId)
  | pruningOutbox ms limit => quietly (perform (Ans := Ans) (pruneOutbox ms limit))
  | pruningMailbox ms limit => quietly (perform (Ans := Ans) (pruneMailbox ms limit))
  end.

Lemma wp_quietly {A} (p : Prog Ans A) w : Inv w -> wp p (fun _ _ => True) w -> wp (quietly p) (fun _ _ => True) w.
Proof. intros HI Hp. by eapply (wp_seq exec Inv Rel event_rel_refl event_rel_trans); [exact Hp|..]. Qed.

Lemma poll_wp turns w : Inv w -> wp (poll turns) (fun _ _ => True) w.
Proof using Hmax.
  revert w. induction turns as [|turns IH]; intros w HI; [by apply wp_answer|].
  apply wp_ask; [done|]. intros [] w1 HR1 HI1 _; [by apply wp_answer|].
  eapply (wp_seq exec Inv Rel event_rel_refl event_rel_trans _ _ (fun _ _ => True)); [|done|].
  - apply (wp_ask newId); [done|]. intros [token|f] w2 _ HI2 _; [|by apply wp_answer]. apply dispatch_wp; [apply bus_honest|done].
  - intros r w2 HI2 _ _. apply wp_ask; [done|]. intros [] w3 _ HI3 _; [by apply wp_answer|by apply IH].
Qed.

Lemma run_wp turns p consumer w : Inv w -> wp (run turns p consumer) (fun _ _ => True) w.
Proof using Hmax.
  revert w. induction turns as [|turns IH]; intros w HI; [by apply wp_answer|].
  apply wp_ask; [done|]. intros [] w1 _ HI1 _; [by apply wp_answer|].
  apply wp_ask; [done|]. intros cs w2 _ HI2 _. cbn [bind]. destruct (negb _); [by apply wp_answer|].
  eapply (wp_seq exec Inv Rel event_rel_refl event_rel_trans _ _ (fun _ _ => True)); [by apply deliver_wp|done|].
  intros r w3 HI3 _ _. apply wp_ask; [done|]. intros [] w4 _ HI4 _; [by apply wp_answer|by apply IH].
Qed.

(** What a process's answer says. *)
Definition outcome (p : Process) (r : Res unit) (w : World) : Prop :=
  match p, r with writing e, Ok _ => e ∈ w.(enqueued) | _, _ => True end.

Lemma program_wp p w :
  Inv w -> (forall e, p = writing e -> vouched e) -> wp (program p) (outcome p) w.
Proof using Hmax.
  intros HI Hv. destruct p as [e|turns|turns p c|id|c id|ms n|ms n]; cbn [program];
    try (eapply wp_weaken; [|apply wp_quietly]; [by intros []|done|]).
  - apply (wp_ask (enqueueEvent e)); [by intros; apply Hv|]. intros r w1 HR HI1 Ht. apply wp_answer. intros w2 HR2 _.
    destruct r; [|done]. by apply HR2.
  - by apply poll_wp.
  - by apply run_wp.
  - apply (wp_ask (requeueOutbox id)); [done|by intros; apply wp_answer].
  - unfold requeueFor. destruct (negb _); [by apply wp_answer|]. apply (wp_ask (requeueMailbox c id)); [done|by intros; apply wp_answer].
  - apply (wp_ask (pruneOutbox ms n)); [done|by intros; apply wp_answer].
  - apply (wp_ask (pruneMailbox ms n)); [done|by intros; apply wp_answer].
Qed.
End Commands.

(** An empty database. *)
Definition start (t : Z) : World := mkWorld t [] (mkLedger [] [] []) (mkLedger (Mailbox.mkMailbox [] []) [] []) [] [] [] [].

Lemma inv_start t : Inv (start t).
Proof.
  assert (Hnil : forall X (x : X), x ∉ []) by (intros; apply not_elem_of_nil).
  split; [split|split|constructor|constructor]; cbn; try done; try (by intros; exfalso; eapply Hnil); try by intros ? ?%Hnil.
  all: first [apply NoDup_nil_2|split; cbn; first [done|apply NoDup_nil_2|by intros ? ?%Hnil]].
Qed.
End Exec.

(** The writers among some processes. *)
Definition writtenBy (ps : list Process) : list Envelope :=
  omap (fun p => match p with writing e => Some e | _ => None end) ps.

Section Pool.
  Context {J : Type} `{Jdec : EqDecision J} (jsonb : Events.Raw -> option J) (policy : RetryPolicy) (consumers : list jstring).
  Context (ps : list Process) (t : Z).
  Context (Hmax : 0 <= policy.(maxAttempts)) (Hwriters : Forall tidy (writtenBy ps)).

Lemma reachable_inv w progs :
  rtc (pool_step (exec jsonb policy consumers)) (start t, program <$> ps) (w, progs) ->
  Inv jsonb policy consumers (writtenBy ps) w
  /\ forall i e, ps !! i = Some (writing e) -> progs !! i = Some (Ret (Ok tt)) -> e ∈ w.(enqueued).
Proof using Hmax Hwriters.
  intros Hrun.
  destruct (pool_safe (exec jsonb policy consumers) (Inv jsonb policy consumers (writtenBy ps)) Rel event_rel_refl event_rel_trans
    (fun i r w => forall p, ps !! i = Some p -> outcome p r w) _ _ _ _ Hrun) as (HI & _ & Hpost).
  - apply inv_start.
  - intros i p Hp. rewrite list_lookup_fmap in Hp. apply fmap_Some in Hp as (q & Hq & ->).
    eapply wp_weaken; [|apply (program_wp jsonb policy consumers (writtenBy ps) Hmax q)].
    + cbn. intros r w' Ho q' Hq'. rewrite Hq in Hq'. by injection Hq' as <-.
    + apply inv_start.
    + intros e ->. assert (Hin : e ∈ writtenBy ps) by (apply list_elem_of_omap; exists (writing e); split; [by eapply list_elem_of_lookup_2|done]).
      split; [|done]. exact (proj1 (Forall_forall _ _) Hwriters e Hin).
  - split; [done|]. intros i e Hi Hr. exact (Hpost i _ Hr _ Hi).
Qed.
End Pool.
End EventWorld.
