(* ===== verification/EventRuns.v ===== *)
(** * Event delivery: what it guarantees.

    In every interleaving of writers, dispatchers, subscribers, operators and
    maintenance, crashes and failed transactions included, no event is lost and
    leases exclude each other; and when nothing fails, enough turns deliver
    everything. *)
From stdpp Require Import relations.
From S2P Require Import Prelude Async JsMap Errors Ids Json Provenance Events Commands Postgres Inbox EventStore EventPipeline EventWorld.

Module EventRuns.
Import LeasedRows Leases EventPorts EventCommands EventWorld Inbox.Retry.
Import Events(Envelope, e_id, bytes, built, built_again).

(** ** Safety. *)

Lemma built_tidy e : built e -> tidy e.
Proof. intros [He _]%built_again e' He'. rewrite He in He'. by injection He' as <-. Qed.

Section Safety.
  (** The [jsonb] the server reads from a text. *)
  Context {J : Type} `{Jdec : EqDecision J} (jsonb : Events.Raw -> option J) (policy : RetryPolicy) (consumers : list jstring).
  Context (ps : list Process) (t : Z).

(** The worlds the processes can reach, and where each of them then is. *)
Definition reaches (w : World) (progs : list (Prog Ans (Res unit))) : Prop :=
  rtc (pool_step (exec jsonb policy consumers)) (start t, program <$> ps) (w, progs).

(** The event is on its way to the consumer, or has arrived. *)
Definition onItsWay (w : World) (e : Envelope) (c : jstring) : Prop :=
  waiting jsonb w.(outbox).(l_data) e
  \/ openFor jsonb w.(mailbox).(l_data) c e
  \/ completed jsonb w.(handled) c (e_id e) (bytes e).

(** A claim whose holder has not settled it and whose lease has not run out. *)
Definition live {K T} (w : World) (ledger : Ledger K T) (l : Log K) : Prop :=
  l ∈ ledger.(l_log) /\ l.(l_token) ∉ ledger.(l_ended) /\ w.(clock) < l.(l_until).

Lemma reaches_inv w progs :
  0 <= policy.(maxAttempts) -> Forall built (writtenBy ps) -> reaches w progs ->
  Inv jsonb policy consumers (writtenBy ps) w
  /\ forall i e, ps !! i = Some (writing e) -> progs !! i = Some (Ret (Ok tt)) -> e ∈ w.(enqueued).
Proof.
  intros Hm Hb Hr. eapply reachable_inv; [done| |exact Hr]. eapply Forall_impl; [exact Hb|]. apply built_tidy.
Qed.

Lemma enqueued_way w writers e c :
  Inv jsonb policy consumers writers w -> e ∈ w.(enqueued) -> c ∈ consumers -> onItsWay w e c.
Proof.
  intros [HO HM _ _] He Hc. destruct (oi_kept _ _ _ _ _ _ _ HO e He) as [?|(a & Ha & Hid & Hs)]; [by left|right].
  destruct (mi_kept _ _ _ _ _ _ _ _ _ HM a c Ha Hc) as [(r & text & Hg & Hn & Ht & Hsame)|(x & Hx & Hxid & Hsame)].
  - left. rewrite Hid in Hg, Ht. exists r, text. split_and!; [done..|]. by eapply same_trans.
  - right. exists x. split_and!; [done|congruence|]. by eapply same_trans.
Qed.

(** C1. No event is lost, and none is made up. Start from an empty database any
    processes: writers, dispatchers, subscribers' loops, operators and
    maintenance. In whatever order their calls come, wherever any of them stops
    for good, whichever transactions fail or leave their outcome uncertain, and
    whatever the handlers answer or throw: an event whose writer was told it is
    enqueued is, for every consumer, still unsent in the outbox, or unsettled in
    the mailbox for that consumer, or was completed by that consumer's handler.
    Handlers only ever complete, for consumers that exist, events that were
    written. And every row satisfies the tables' constraints: a row is marked
    sent only if the mailbox accepted its event, and a receipt is marked
    processed only if its consumer's handler completed the event. *)
Theorem no_event_lost (w : World) (progs : list (Prog Ans (Res unit)))
    (Hmax : 0 <= policy.(maxAttempts)) (Hbuilt : Forall built (writtenBy ps)) (Hrun : reaches w progs) :
  (forall i e c, ps !! i = Some (writing e) -> progs !! i = Some (Ret (Ok tt)) -> c ∈ consumers -> onItsWay w e c)
  /\ (forall c e, (c, e) ∈ w.(handled) -> c ∈ consumers /\ from (writtenBy ps) (e_id e) (bytes e))
  /\ (forall id r, JsMap.get id w.(outbox).(l_data) = Some r ->
        sound policy.(maxAttempts) r /\ (r.(state) = settled -> passed jsonb w.(accepted) id r.(content)))
  /\ (forall id c r, JsMap.get (id, c) w.(mailbox).(l_data).(Mailbox.receipts) = Some r ->
        sound policy.(maxAttempts) r
        /\ exists text, JsMap.get id w.(mailbox).(l_data).(Mailbox.events) = Some text
             /\ (r.(state) = settled -> completed jsonb w.(handled) c id text)).
Proof.
  destruct (reaches_inv w progs Hmax Hbuilt Hrun) as [HI Hwritten]. pose proof (inv_outbox _ _ _ _ _ HI) as HO.
  pose proof (inv_mailbox _ _ _ _ _ HI) as HM. split_and!.
  - intros i e c Hi Hr Hc. eapply enqueued_way; [done| |done]. by eapply Hwritten.
  - intros c e Hin. destruct (mi_handled _ _ _ _ _ _ _ _ _ HM c e Hin) as [(e' & He' & ?) Hc]. split; [done|].
    exists e'. split; [|done]. by destruct (proj1 (Forall_forall _ _) (inv_vouched _ _ _ _ _ HI) e' He').
  - intros id r Hg. split; [by eapply le_sound; [apply HO|]|by eapply oi_sent].
  - intros id c r Hg. split; [by eapply le_sound; [apply HM|]|]. destruct (mi_receipt _ _ _ _ _ _ _ _ _ HM _ _ Hg) as [_ Hn].
    cbn in Hn. destruct (JsMap.get id _) as [text|] eqn:Et; [|done]. exists text. split; [done|]. intros Hs. by eapply mi_done.
Qed.

Section Exclusive.
  Context {K C : Type} `{Kdec : EqDecision K} (max clock : Z) (rows : list (K * Row C)) (log : list (Log K)) (ended : list ID).
  Context (HL : leases max clock rows log ended).

Lemma log_token l l' : l ∈ log -> l' ∈ log -> l.(l_token) = l'.(l_token) -> l = l'.
Proof using HL.
  intros Hl Hl' Ht. pose proof (le_unique _ _ _ _ _ HL) as HN.
  apply list_elem_of_lookup in Hl as [i Hi], Hl' as [j Hj].
  assert (i = j) as <-; [|congruence].
  eapply NoDup_lookup; [exact HN| |]; rewrite list_lookup_fmap; [by rewrite Hi|by rewrite Hj, Ht].
Qed.

Lemma live_row l : l ∈ log -> l.(l_token) ∉ ended -> clock < l.(l_until) ->
  exists r, JsMap.get l.(l_key) rows = Some r /\ r.(lease) = Some l.(l_token).
Proof using HL.
  intros Hl He Hc. destruct (le_live _ _ _ _ _ HL l Hl) as [?|[?|(r & Hg & Ht & _)]]; [done|lia|by exists r].
Qed.

Lemma live_same l l' : l ∈ log -> l' ∈ log -> l.(l_token) ∉ ended -> l'.(l_token) ∉ ended ->
  clock < l.(l_until) -> clock < l'.(l_until) -> l.(l_key) = l'.(l_key) -> l = l'.
Proof using HL.
  intros Hl Hl' He He' Hc Hc' Hk. destruct (live_row l Hl He Hc) as (r & Hg & Ht). destruct (live_row l' Hl' He' Hc') as (r' & Hg' & Ht').
  rewrite Hk, Hg' in Hg. injection Hg as <-. rewrite Ht in Ht'. injection Ht' as Ht'. by apply log_token.
Qed.
End Exclusive.

(** C17. Leases exclude each other. In every world the processes can reach, a row
    of the outbox and a receipt of the mailbox have at most one live claim
    each. Once the lease on an outbox row has run out, its holder's
    acknowledgement or release is refused and changes nothing; and while
    somebody else holds a receipt, the outcome an earlier holder reports is
    refused and changes nothing. *)
Theorem leases_exclusive (w : World) (progs : list (Prog Ans (Res unit)))
    (Hmax : 0 <= policy.(maxAttempts)) (Hbuilt : Forall built (writtenBy ps)) (Hrun : reaches w progs) :
  (forall l l', live w w.(outbox) l -> live w w.(outbox) l' -> l.(l_key) = l'.(l_key) -> l = l')
  /\ (forall l l', live w w.(mailbox) l -> live w w.(mailbox) l' -> l.(l_key) = l'.(l_key) -> l = l')
  /\ (forall l attempt error random now, l ∈ w.(outbox).(l_log) -> l.(l_until) <= now ->
        Outbox.finish policy l.(l_key) l.(l_token) attempt error random now w.(outbox).(l_data)
        = (w.(outbox).(l_data), Err (Outbox.conflict_ "lease_lost")))
  /\ (forall l l' p attempt error random now, l ∈ w.(mailbox).(l_log) -> live w w.(mailbox) l' -> l.(l_key) = l'.(l_key) -> l <> l' ->
        Mailbox.finish p l.(l_key).1 l.(l_key).2 l.(l_token) attempt error random now w.(mailbox).(l_data)
        = (w.(mailbox).(l_data), Err (Outbox.conflict_ "lease_lost"))).
Proof.
  destruct (reaches_inv w progs Hmax Hbuilt Hrun) as [HI _]. pose proof (oi_leases _ _ _ _ _ _ _ (inv_outbox _ _ _ _ _ HI)) as HO.
  pose proof (mi_leases _ _ _ _ _ _ _ _ _ (inv_mailbox _ _ _ _ _ HI)) as HM. split_and!.
  - intros l l' (? & ? & ?) (? & ? & ?). by apply (live_same _ _ _ _ _ HO).
  - intros l l' (? & ? & ?) (? & ? & ?). by apply (live_same _ _ _ _ _ HM).
  - intros l attempt error random now Hl Hnow. unfold Outbox.finish. destruct (Outbox.verdict _ _ _ _) as [to ms].
    assert (Hnone : forall k r, JsMap.get k w.(outbox).(l_data) = Some r -> Outbox.holds l.(l_key) l.(l_token) now k r = false).
    { intros k r Hg. unfold Outbox.holds. destruct (bool_decide_reflect (k = l.(l_key))) as [->|]; [|done].
      destruct (bool_decide_reflect (r.(lease) = Some l.(l_token))) as [Ht|]; [|done].
      destruct (le_logged _ _ _ _ _ HO _ _ _ Hg Ht) as (l' & Hl' & Heq & _ & Hu). rewrite (log_token _ _ _ _ _ HO l' l Hl' Hl Heq) in Hu.
      rewrite Hu. rewrite (proj2 (Z.ltb_ge _ _)) by done. apply andb_false_r. }
    by rewrite (updateWhere_none _ _ _ (le_wf _ _ _ _ _ HO) Hnone), (rowCount_none _ _ (le_wf _ _ _ _ _ HO) Hnone).
  - intros l l' p attempt error random now Hl (Hl' & He & Hc) Hk Hne. unfold Mailbox.finish. destruct (Outbox.verdict _ _ _ _) as [to ms].
    assert (Hnone : forall k r, JsMap.get k w.(mailbox).(l_data).(Mailbox.receipts) = Some r ->
      Mailbox.holds l.(l_key).1 l.(l_key).2 l.(l_token) k r = false).
    { intros k r Hg. unfold Mailbox.holds. rewrite <- surjective_pairing. destruct (bool_decide_reflect (k = l.(l_key))) as [->|]; [|done].
      destruct (bool_decide_reflect (r.(lease) = Some l.(l_token))) as [Ht|]; [|done].
      destruct (live_row _ _ _ _ _ HM l' Hl' He Hc) as (r' & Hg' & Ht'). rewrite <- Hk, Hg in Hg'. injection Hg' as <-.
      exfalso. apply Hne. apply (log_token _ _ _ _ _ HM); [done..|congruence]. }
    rewrite (updateWhere_none _ _ _ (le_wf _ _ _ _ _ HM) Hnone), (rowCount_none _ _ (le_wf _ _ _ _ _ HM) Hnone). by destruct (l_data (mailbox w)).
Qed.
End Safety.

(** ** When nothing fails. *)

(** A transaction that is not disturbed. *)
Definition commit {A} (fn : World -> World * Res A) (w : World) : Res A * World :=
  match fn w with
  | (w', Ok v) => (Ok v, w')
  | (_, Err f) => (Err f, w)
  end.

Lemma commit_transacts {A} (fn : World -> World * Res A) w r w' : commit fn w = (r, w') -> Database.transacts fn w r w'.
Proof.
  unfold commit. destruct (fn w) as [w1 [v|f]] eqn:E; intros [= <- <-]; [by apply Database.tx_done|].
  apply Database.tx_refused. by rewrite E.
Qed.

Section Calm.
  Context {J : Type} `{Jdec : EqDecision J} (jsonb : Events.Raw -> option J) (policy : RetryPolicy) (consumers : list jstring).

(** It takes less than half a lease. *)
Definition briefly {A} (fn : Z -> Z -> Z -> World -> World * Res A) (w : World) (r : Res A) (w' : World) : Prop :=
  exists t1 t2 t3, w.(clock) <= t1 /\ t1 <= t2 /\ t2 <= t3 /\ 2 * (t3 - w.(clock)) < LEASE
    /\ commit (fn t1 t2 t3) (withClock t3 w) = (r, w').

Definition unlocked {K} (_ : K) : bool := false.

(** Every call is answered, no transaction fails, nobody holds a lock, the
    handlers succeed and the process is not stopped. *)
Definition calm (op : Op) : World -> Ans op -> World -> Prop :=
  match op with
  | aborted => fun w r w' => r = false /\ w' = w
  | newId => fun w r w' => exists id, r = Ok id /\ id ∉ w.(issued) /\ validID id = true /\ w' = withIssued id w
  | subscribers => fun w r w' => r = consumers /\ w' = w
  | claimOutbox token => fun w r w' => token ∉ w.(texts).*1 /\ briefly (outboxClaim policy token unlocked) w r w'
  | finishOutbox id token attempt error => fun w r w' =>
      exists random, fraction random /\ briefly (fun _ _ => outboxFinish policy id token attempt error random) w r w'
  | acceptEvent event cs => briefly (fun _ _ => mailboxAccept jsonb event cs)
  | claimReceipt consumer token => fun w r w' =>
      token ∉ w.(texts).*1 /\ briefly (mailboxClaim policy consumer token unlocked) w r w'
  | runHandler consumer event => fun w r w' => r = Returned (Ok tt) /\ w' = withHandled consumer event w
  | finishReceipt id consumer token attempt error => fun w r w' =>
      exists random, fraction random /\ briefly (fun _ _ => mailboxFinish policy id consumer token attempt error random) w r w'
  | enqueueEvent event => briefly (fun _ _ => outboxInsert jsonb event)
  | _ => fun _ _ _ => False
  end.

Lemma briefly_during {A} (fn : Z -> Z -> Z -> World -> World * Res A) w r w' : briefly fn w r w' -> during fn w r w'.
Proof. intros (t1 & t2 & t3 & ? & ? & ? & _ & Hc). exists t1, t2, t3. split_and!; [done..|]. by apply commit_transacts. Qed.

Lemma calm_exec op w r w' : calm op w r w' -> exec jsonb policy consumers op w r w'.
Proof.
  destruct op; cbn; try done; try apply briefly_during.
  - by intros [-> ->].
  - intros (id & -> & ? & ? & ->). done.
  - intros [? ?%briefly_during]. eauto.
  - intros (random & ? & ?%briefly_during). eauto.
  - intros [? ?%briefly_during]. eauto.
  - by intros [-> ->].
  - intros (random & ? & ?%briefly_during). eauto.
Qed.

(** Ports that are functions: the [n]-th call takes a millisecond. *)
Definition settle {A} (fn : Z -> World -> World * Res A) (w : World) : Res A * World :=
  commit (fn (w.(clock) + 1000)) (withClock (w.(clock) + 1000) w).

Definition port (n : nat) (op : Op) (w : World) : option (Ans op * World) :=
  match op with
  | aborted => Some (false, w)
  | newId => if decide (idFor n ∈ w.(issued)) then None else Some (Ok (idFor n), withIssued (idFor n) w)
  | subscribers => Some (consumers, w)
  | claimOutbox token =>
      if decide (token ∈ w.(texts).*1) then None else Some (settle (fun t => outboxClaim policy token unlocked t t t) w)
  | finishOutbox id token attempt error => Some (settle (outboxFinish policy id token attempt error (0, 1)) w)
  | acceptEvent event cs => Some (settle (mailboxAccept jsonb event cs) w)
  | claimReceipt consumer token =>
      if decide (token ∈ w.(texts).*1) then None else Some (settle (fun t => mailboxClaim policy consumer token unlocked t t t) w)
  | runHandler consumer event => Some (Returned (Ok tt), withHandled consumer event w)
  | finishReceipt id consumer token attempt error => Some (settle (mailboxFinish policy id consumer token attempt error (0, 1)) w)
  | enqueueEvent event => Some (settle (outboxInsert jsonb event) w)
  | _ => None
  end.

Lemma settle_briefly {A} (fn : Z -> Z -> Z -> World -> World * Res A) w r w' :
  settle (fun t => fn t t t) w = (r, w') -> briefly fn w r w'.
Proof. intros Hs. exists (w.(clock) + 1000), (w.(clock) + 1000), (w.(clock) + 1000). split_and!; try lia; [unfold LEASE; lia|done]. Qed.

Lemma port_calm n op w r w' : port n op w = Some (r, w') -> calm op w r w'.
Proof.
  assert (Hf : fraction (0, 1)) by (unfold fraction; cbn; lia).
  destruct op; cbn; try done; try (intros [= <- <-]; done).
  - destruct (decide _); [done|]. intros [= <- <-]. exists (idFor n). split_and!; [done..| |done]. apply idFor_valid.
  - destruct (decide _); [done|]. intros [= Hs]. split; [done|]. by apply settle_briefly.
  - intros [= Hs]. exists (0, 1). split; [done|]. by apply (settle_briefly (fun _ _ => _)).
  - intros [= Hs]. by apply (settle_briefly (fun _ _ => _)).
  - destruct (decide _); [done|]. intros [= Hs]. split; [done|]. by apply settle_briefly.
  - intros [= Hs]. exists (0, 1). split; [done|]. by apply (settle_briefly (fun _ _ => _)).
  - intros [= Hs]. by apply (settle_briefly (fun _ _ => _)).
Qed.
End Calm.

(** ** A run: an event is written, dispatched and handled, while a second
    dispatcher stops between two calls. *)

Definition audit : jstring := js "audit.log".
Definition sample_processes : list Process :=
  [writing Events.sample_envelope; dispatching 1; subscriber 1 DEFAULT_RETRY audit; dispatching 1].
Definition sample_turns : list nat := [0; 3; 1; 1; 3; 1; 1; 1; 1; 1; 1; 1; 2; 2; 2; 2; 2; 2; 2]%nat.
Definition sample_port := port Events.json DEFAULT_RETRY [audit].
Definition ran (turns : list nat) : option (list (Prog Ans (Res unit)) * World) :=
  schedule sample_port 0 turns (program <$> sample_processes) (start 0).
Definition progsOf (turns : list nat) : list (Prog Ans (Res unit)) := default [] (fst <$> ran turns).
Definition worldOf (turns : list nat) : World := default (start 0) (snd <$> ran turns).

Lemma ran_reaches turns :
  isNull (ran turns) = false -> reaches Events.json DEFAULT_RETRY [audit] sample_processes 0 (worldOf turns) (progsOf turns).
Proof.
  intros Hn. unfold worldOf, progsOf. destruct (ran turns) as [[progs w]|] eqn:E; [|done].
  eapply (schedule_runs _ sample_port); [|exact E]. intros n op w0 r w1 Hp. eapply calm_exec, port_calm. exact Hp.
Qed.

Lemma sample_built : built Events.sample_envelope.
Proof.
  exists (Events.stringify (VObj (Events.created (sample_uuid "4") (js "job.submitted.v1") (Int 1000)
    Events.sample_context Events.sample_payload Events.sample_subject (Some (sample_uuid "9"))))). split.
  - intros ms [= <-]. apply (Events.created_parsed (sample_uuid "4") (js "job.submitted.v1") (Int 1000)
      Events.sample_context Events.sample_payload Events.sample_subject (Some (sample_uuid "9"))).
  - vm_compute. reflexivity.
Qed.

Lemma no_event_lost_witness :
  reaches Events.json DEFAULT_RETRY [audit] sample_processes 0 (worldOf sample_turns) (progsOf sample_turns)
  /\ onItsWay Events.json (worldOf sample_turns) Events.sample_envelope audit.
Proof.
  assert (Hr : reaches Events.json DEFAULT_RETRY [audit] sample_processes 0 (worldOf sample_turns) (progsOf sample_turns))
    by (apply ran_reaches; vm_compute; reflexivity).
  split; [exact Hr|].
  destruct (no_event_lost Events.json DEFAULT_RETRY [audit] sample_processes 0 _ _ ltac:(cbn; lia)
    ltac:(repeat constructor; exact sample_built) Hr) as [Hway _].
  apply (Hway 0%nat); [reflexivity|vm_compute; reflexivity|left].
Defined.

Lemma leases_exclusive_witness :
  reaches Events.json DEFAULT_RETRY [audit] sample_processes 0 (worldOf (take 8 sample_turns)) (progsOf (take 8 sample_turns))
  /\ length (l_log (outbox (worldOf (take 8 sample_turns)))) = 1%nat
  /\ forall l l', live (worldOf (take 8 sample_turns)) (outbox (worldOf (take 8 sample_turns))) l ->
       live (worldOf (take 8 sample_turns)) (outbox (worldOf (take 8 sample_turns))) l' -> l.(l_key) = l'.(l_key) -> l = l'.
Proof.
  assert (Hr : reaches Events.json DEFAULT_RETRY [audit] sample_processes 0 (worldOf (take 8 sample_turns)) (progsOf (take 8 sample_turns)))
    by (apply ran_reaches; vm_compute; reflexivity).
  split; [exact Hr|]. split; [vm_compute; reflexivity|].
  exact (proj1 (leases_exclusive Events.json DEFAULT_RETRY [audit] sample_processes 0 _ _ ltac:(cbn; lia)
    ltac:(repeat constructor; exact sample_built) Hr)).
Defined.
End EventRuns.
