(* ===== verification/EventDrain.v ===== *)
(** * Event delivery: everything arrives.

    When nothing fails, a dispatcher and the subscribers' loops that take enough
    turns deliver every event to every consumer. *)
From stdpp Require Import relations.
From S2P Require Import Prelude Async JsMap Errors Ids Json Provenance Events Commands Postgres Inbox EventStore EventPipeline EventWorld EventRuns.

Module EventDrain.
Import LeasedRows Leases EventPorts EventCommands EventWorld EventRuns Inbox.Retry.
Import Events(Envelope, e_id, bytes, built, built_again).

(** Rows stay claimable. *)
Lemma claimable_later {C} max t t' (r : Row C) : t <= t' -> claimable max t r = true -> claimable max t' r = true.
Proof.
  intros Ht. unfold claimable, unleased. rewrite !andb_true_iff, !Z.leb_le. intros [[[-> ->] ?] Hu]. split_and!; [done..|lia|].
  destruct (lease_until r) as [u|]; [|done]. rewrite Z.leb_le in *. lia.
Qed.

Lemma claimable_pending {C} max t (r : Row C) : claimable max t r = true -> r.(state) = pending /\ r.(attempts) < max.
Proof. unfold claimable. rewrite !andb_true_iff, Z.ltb_lt. intros [[[H%bool_decide_eq_true ?] _] _]. done. Qed.

Lemma claimable_abandoned {C} max t t' (r : Row C) : claimable max t r = true -> abandoned max t' r = false.
Proof.
  intros [_ Ha]%claimable_pending. unfold abandoned. rewrite (proj2 (Z.leb_gt _ _)) by done. by rewrite andb_false_r.
Qed.

Lemma settled_abandoned {C} max t (r : Row C) : r.(state) = settled -> abandoned max t r = false.
Proof. unfold abandoned. by intros ->. Qed.

Section Table.
  Context {K C : Type} `{Kdec : EqDecision K} (idOf : K -> ID) (max : Z).
  Abbreviation Table := (list (K * Row C)).

(** Every row that is not settled can be claimed. *)
Definition allDue (t : Z) (rows : Table) : Prop :=
  forall k r, JsMap.get k rows = Some r -> r.(state) <> settled -> claimable max t r = true.

Lemma allDue_later t t' rows : t <= t' -> allDue t rows -> allDue t' rows.
Proof. intros Ht Hd k r Hg Hs. by eapply claimable_later, Hd. Qed.

Lemma allDue_buried t t' p rows : JsMap.wf rows -> allDue t rows -> updateWhere (fun k r => p k && abandoned max t' r) (abandon t') rows = rows.
Proof.
  intros Hw Hd. apply updateWhere_none; [done|]. intros k r Hg. destruct (decide (r.(state) = settled)) as [Hs|Hs].
  - by rewrite settled_abandoned, andb_false_r.
  - by rewrite (claimable_abandoned _ _ _ _ (Hd k r Hg Hs)), andb_false_r.
Qed.

(** The candidate of a claim: there is none only if all of them are settled. *)
Lemma candidate_open t p rows :
  JsMap.wf rows -> allDue t rows ->
  match candidate idOf p unlocked max t rows with
  | None => forall k, k ∈ open_ rows -> p k = false
  | Some (k, r) => JsMap.get k rows = Some r /\ p k = true /\ r.(state) = pending
  end.
Proof.
  intros Hw Hd. destruct (candidate idOf p unlocked max t rows) as [[k r]|] eqn:E.
  - apply candidate_some in E as (Hg & Hp & _ & Hc); [|done]. split_and!; [done..|]. by apply claimable_pending in Hc as [? _].
  - intros k (r & Hg & Hs)%elem_of_open; [|done]. destruct (p k) eqn:Ep; [|done].
    pose proof (candidate_none _ _ _ _ _ _ _ _ E Hg Ep eq_refl) as Hc. rewrite (Hd k r Hg Hs) in Hc. done.
Qed.

(** A row is leased and then settled by its holder. *)
Definition settledAs (k : K) (rows rows' : Table) : Prop :=
  JsMap.wf rows' /\ (state <$> JsMap.get k rows') = Some settled
  /\ forall k', k' <> k -> JsMap.get k' rows' = JsMap.get k' rows.

Lemma settledAs_intro k r token t p f rows :
  JsMap.wf rows -> JsMap.get k rows = Some r -> (forall k' r', p k' r' = true -> k' = k) ->
  p k (leased token t r) = true -> (f (leased token t r)).(state) = settled ->
  settledAs k rows (updateWhere p f (JsMap.set k (leased token t r) rows))
  /\ rowCount p (JsMap.set k (leased token t r) rows) = 1.
Proof.
  intros Hw Hg Hk Hp Hf. assert (Hw' : JsMap.wf (JsMap.set k (leased token t r) rows)) by (by apply JsMap.wf_set). split; [split_and!|].
  - by apply wf_updateWhere.
  - rewrite get_updateWhere, JsMap.get_set_eq. cbn. by rewrite Hp, Hf.
  - intros k' Hne. rewrite get_updateWhere, JsMap.get_set_ne by done. destruct (JsMap.get k' rows) as [r'|]; [|done]. cbn.
    destruct (p k' r') eqn:E; [|done]. by apply Hk in E.
  - rewrite (rowCount_key p k) by done. by rewrite JsMap.get_set_eq, Hp.
Qed.

Lemma settledAs_due t k rows rows' : settledAs k rows rows' -> allDue t rows -> allDue t rows'.
Proof.
  intros (_ & Hs & Ho) Hd k' r Hg Hn. destruct (decide (k' = k)) as [->|Hne].
  - rewrite Hg in Hs. cbn in Hs. congruence.
  - rewrite Ho in Hg by done. by eapply Hd.
Qed.

Lemma settledAs_open k r rows rows' :
  JsMap.wf rows -> JsMap.get k rows = Some r -> r.(state) <> settled -> settledAs k rows rows' -> open_ rows ≡ₚ k :: open_ rows'.
Proof. intros Hw Hg Hs (Hw' & Hk & Ho). by eapply open_settled. Qed.
End Table.

Section Turns.
  Context {J : Type} `{Jdec : EqDecision J} (jsonb : Events.Raw -> option J) (policy : RetryPolicy) (consumers : list jstring).
  Context (writers : list Envelope).
  Context (Hmax : 0 < policy.(maxAttempts)) (Hnames : forallb Inbox.Inbox.CONSUMER_NAME consumers = true) (Hbuilt : Forall built writers).
  Abbreviation Inv := (Inv jsonb policy consumers writers).
  Abbreviation calm := (calm jsonb policy consumers).
  Abbreviation rows w := (l_data (outbox w)).
  Abbreviation receipts w := (Mailbox.receipts (l_data (mailbox w))).
  Abbreviation events w := (Mailbox.events (l_data (mailbox w))).
  Abbreviation max := policy.(maxAttempts).

(** Nothing is dead, leased or waiting for its retry, and the mailbox would
    accept what the outbox holds. *)
Record due (w : World) : Prop := mkDue {
  due_rows : allDue max w.(clock) (rows w);
  due_receipts : allDue max w.(clock) (receipts w);
  due_insertable : forall id r e, JsMap.get id (rows w) = Some r -> r.(state) <> settled -> Events.decode r.(content) = Ok e ->
    Outbox.insertable jsonb e (JsMap.get id (events w)) = Ok tt
}.

Lemma reads_back w id text : Inv w -> from w.(enqueued) id text -> exists e, Events.decode text = Ok e /\ e_id e = id /\ bytes e = text.
Proof using Hbuilt.
  intros HI (e & He & Hid & Hb). exists e. split; [|done]. rewrite <- Hb. apply built_again.
  destruct (proj1 (Forall_forall _ _) (inv_vouched _ _ _ _ _ HI) e He) as [_ Hw]. exact (proj1 (Forall_forall _ _) Hbuilt e Hw).
Qed.

Lemma wf_rows w : Inv w -> JsMap.wf (rows w).
Proof. intros HI. eapply le_wf, oi_leases, HI. Qed.
Lemma wf_receipts w : Inv w -> JsMap.wf (receipts w).
Proof. intros HI. eapply le_wf, mi_leases, HI. Qed.

Lemma outboxClaim_calm token w r w' :
  Inv w -> due w -> briefly (outboxClaim policy token unlocked) w r w' ->
  w'.(mailbox) = w.(mailbox) /\ 2 * (w'.(clock) - w.(clock)) < LEASE /\ w.(clock) <= w'.(clock)
  /\ (open_ (rows w) = [] /\ r = Ok None /\ rows w' = rows w
      \/ exists id row e attempt, JsMap.get id (rows w) = Some row /\ row.(state) = pending
            /\ Events.decode row.(content) = Ok e /\ e_id e = id
            /\ r = Ok (Some (Outbox.Lease e token attempt))
            /\ rows w' = JsMap.set id (leased token w'.(clock) row) (rows w)).
Proof using Hbuilt.
  intros HI Hd (t1 & t2 & t3 & H1 & H2 & H3 & Hq & Hc). unfold commit, outboxClaim, Outbox.claim, claimNext in Hc.
  cbn [withClock outbox] in Hc. pose proof (wf_rows w HI) as Hw.
  pose proof (allDue_buried policy.(maxAttempts) _ t1 (fun _ => true) _ Hw (due_rows _ Hd)) as Hb. cbn in Hb.
  cbn [andb] in Hc. rewrite Hb in Hc. clear Hb.
  pose proof (candidate_open (fun id => id) max t2 (fun _ => true) (rows w) Hw ltac:(eapply allDue_later, due_rows, Hd; lia)) as Hcand.
  destruct (candidate _ _ _ _ _ _) as [[id row]|]; cbn [snd fst content leased] in Hc.
  - destruct Hcand as (Hg & _ & Hs). destruct (reads_back w id row.(content) HI (oi_from _ _ _ _ _ _ _ (inv_outbox _ _ _ _ _ HI) _ _ Hg)) as (e & He & Hid & _).
    rewrite He in Hc. injection Hc as <- <-. cbn. split_and!; [done|lia|lia|]. right. by eexists id, row, e, _.
  - injection Hc as <- <-. cbn. split_and!; [done|lia|lia|]. left. split; [|done].
    destruct (open_ (rows w)) as [|id rest]; [done|]. exfalso. discriminate (Hcand id). left.
Qed.

(** The receipts of a consumer that are not settled. *)
Definition openOf (c : jstring) (rcs : list ((ID * jstring) * Row unit)) : list (ID * jstring) := filter (fun k => k.2 = c) (open_ rcs).

Lemma openReceipts_due t id rcs : allDue max t rcs -> allDue max t (Mailbox.openReceipts id consumers t rcs).
Proof using Hmax.
  intros Hd k r. rewrite openReceipts_get. destruct (JsMap.get k rcs) as [r'|] eqn:E; [intros [= <-]; exact (Hd k r' E)|].
  case_decide; [|done]. intros [= <-] _. unfold claimable. cbn. rewrite (proj2 (Z.ltb_lt _ _)) by done. by rewrite Z.leb_refl.
Qed.

Lemma openReceipts_open c t id rcs :
  JsMap.wf rcs -> JsMap.wf (Mailbox.openReceipts id consumers t rcs) ->
  (length (openOf c (Mailbox.openReceipts id consumers t rcs)) <= S (length (openOf c rcs)))%nat.
Proof.
  intros Hw Hw'. change (S (length (openOf c rcs))) with (length ((id, c) :: openOf c rcs)). apply submseteq_length, NoDup_submseteq.
  { apply NoDup_filter. by apply NoDup_open. }
  intros k [<- (r & Hg & Hs)%elem_of_open]%list_elem_of_filter; [|done]. rewrite openReceipts_get in Hg. apply elem_of_cons.
  destruct (JsMap.get k rcs) as [r'|] eqn:E.
  - injection Hg as ->. right. apply list_elem_of_filter. split; [done|]. apply elem_of_open; [done|]. by exists r.
  - case_decide as Hk; [|done]. left. destruct Hk as [<- _]. by destruct k.
Qed.

(** The bus records the event. *)
Lemma bus_calm e w s w' :
  Inv w -> allDue max w.(clock) (receipts w) -> from w.(enqueued) (e_id e) (bytes e) ->
  Outbox.insertable jsonb e (JsMap.get (e_id e) (events w)) = Ok tt -> runs calm (bus e) w s w' ->
  Inv w' /\ Rel w w' /\ e ∈ w'.(accepted) /\ s = Returned (Ok (mkReceipt (e_id e) true))
  /\ w'.(outbox) = w.(outbox) /\ 2 * (w'.(clock) - w.(clock)) < LEASE /\ w.(clock) <= w'.(clock)
  /\ (forall id, id <> e_id e -> JsMap.get id (events w') = JsMap.get id (events w))
  /\ allDue max w'.(clock) (receipts w') /\ (forall c, (length (openOf c (receipts w')) <= S (length (openOf c (receipts w))))%nat).
Proof using Hmax Hnames.
  intros HI Hd Hf Hi (r0 & w0 & [-> ->] & r1 & w1 & [-> ->] & Hrun). cbn [bind perform] in Hrun.
  unfold accept in Hrun. rewrite Hnames in Hrun. cbn [negb bind perform runs] in Hrun.
  destruct Hrun as (r & w2 & Hb & Hrun). pose proof (briefly_during _ _ _ _ Hb) as Hdur.
  destruct (exec_safe jsonb policy consumers writers (acceptEvent e consumers) w r w2 ltac:(lia) HI (conj eq_refl Hf) Hdur) as (HI2 & HR & Hacc).
  destruct Hb as (t1 & t2 & t & H1 & H2 & H3 & Hq & Hc). unfold commit, mailboxAccept, Mailbox.accept in Hc.
  cbn [withClock mailbox] in Hc. rewrite Hi in Hc. injection Hc as <- <-. destruct Hrun as [<- ->].
  split; [done|]. split; [done|]. split; [exact Hacc|]. split; [done|]. cbn [outbox clock mailbox l_data withData withMailbox withAccepted withClock Mailbox.events Mailbox.receipts] in *.
  split; [done|]. split; [lia|]. split; [lia|]. split; [|split].
  - intros id Hne. destruct (JsMap.has _ _); [done|]. by rewrite JsMap.get_set_ne.
  - apply openReceipts_due. eapply allDue_later; [|exact Hd]. lia.
  - intros c. apply openReceipts_open; [by apply wf_receipts|]. exact (wf_receipts _ HI2).
Qed.

(** The holder settles the row it claimed. *)
Lemma outboxFinish_calm id row token attempt t3 w rows0 r w' :
  JsMap.wf rows0 -> JsMap.get id rows0 = Some row -> row.(state) = pending ->
  rows w = JsMap.set id (leased token t3 row) rows0 -> t3 <= w.(clock) -> 2 * (w.(clock) - t3) < LEASE ->
  (exists random, fraction random /\ briefly (fun _ _ => outboxFinish policy id token attempt None random) w r w') ->
  r = Ok tt /\ settledAs id rows0 (rows w') /\ w'.(mailbox) = w.(mailbox) /\ w.(clock) <= w'.(clock).
Proof.
  intros Hw Hg Hs Hrows Ht Hq (random & _ & t1 & t2 & t & H1 & H2 & H3 & Hb & Hc).
  unfold commit, outboxFinish, Outbox.finish in Hc. cbn [Outbox.verdict withClock outbox] in Hc. rewrite Hrows in Hc.
  destruct (settledAs_intro id row token t3 (Outbox.holds id token t) (finished settled None 0 t) rows0 Hw Hg) as [HS Hcount].
  - intros k' r'. unfold Outbox.holds. intros Hh. breflect. by apply bool_decide_eq_true in H.
  - unfold Outbox.holds. cbn. rewrite !bool_decide_eq_true_2 by done. cbn. apply Z.ltb_lt. unfold LEASE in *. lia.
  - done.
  - rewrite Hcount in Hc. cbn [Z.eqb Pos.eqb] in Hc. injection Hc as <- <-. cbn. split_and!; [done..|lia].
Qed.

(** Some turns of the dispatcher. *)
Record dispatched (turns : nat) (w w' : World) : Prop := mkDispatched {
  dp_inv : Inv w';
  dp_rel : Rel w w';
  dp_due : due w';
  dp_rows : length (open_ (rows w')) = (length (open_ (rows w)) - turns)%nat;
  dp_receipts : forall c, (length (openOf c (receipts w')) + length (open_ (rows w')) <= length (openOf c (receipts w)) + length (open_ (rows w)))%nat
}.

Lemma due_issued id w : due w -> due (withIssued id w).
Proof. by intros [? ? ?]. Qed.

Lemma dispatched_idle w w' :
  Inv w' -> Rel w w' -> due w -> open_ (rows w) = [] -> rows w' = rows w -> w'.(mailbox) = w.(mailbox) -> dispatched 1 w w'.
Proof.
  intros HI HR [D1 D2 D3] Ho Hr Hm. pose proof (rel_clock _ _ HR) as Hc. split; [done|done| |by rewrite Hr, Ho|by intros c; rewrite Hr, Hm].
  split; rewrite ?Hr, ?Hm; [by eapply allDue_later..|done].
Qed.

Lemma calm_safe op a r b :
  Inv a -> allowed consumers writers op a -> calm op a r b -> Inv b /\ Rel a b /\ told consumers op r b.
Proof using Hmax.
  intros HI Ha Hc. eapply exec_safe; [by apply Z.lt_le_incl|exact HI|exact Ha|]. by apply calm_exec.
Qed.

(** What follows a claim: the event is recorded and its row settled. *)
Lemma leased_calm w w3 token id row e attempt r w' :
  Inv w -> due w -> Inv w3 -> Rel w w3 -> w3.(mailbox) = w.(mailbox) ->
  JsMap.get id (rows w) = Some row -> row.(state) = pending -> Events.decode row.(content) = Ok e -> e_id e = id -> known w3 token e ->
  rows w3 = JsMap.set id (leased token w3.(clock) row) (rows w) ->
  runs calm (bind (bus e) (fun settled =>
    match caught settled with
    | Ok receipt =>
        if receipt.(rc_durable) && bool_decide (receipt.(rc_eventId) = e_id e) then
          bind (perform (finishOutbox (e_id e) token attempt None)) (fun r => match r with Ok _ => Ret (Ok true) | Err f => Ret (Err f) end)
        else
          bind (perform (finishOutbox (e_id e) token attempt (Some "events.invalid_receipt"%string)))
            (fun r => match r with Ok _ => Ret (Err (fail_with unavailable "publisher receipt invalid" "events.invalid_receipt")) | Err f => Ret (Err f) end)
    | Err f =>
        bind (perform (finishOutbox (e_id e) token attempt (Some (errorOf f)))) (fun r => match r with Ok _ => Ret (Err f) | Err f => Ret (Err f) end)
    end)) w3 r w' ->
  dispatched 1 w w'.
Proof using Hmax Hnames Hbuilt.
  intros HI Hd HI3 HR3 Hmail Hg Hs Hdec Hid [Htext Hfrom] Hrows Hrun.
  apply runs_bind in Hrun as (s & w4 & Hbus & Hrun).
  assert (Hins : Outbox.insertable jsonb e (JsMap.get (e_id e) (events w3)) = Ok tt).
  { rewrite Hmail, Hid. eapply (due_insertable _ Hd); [exact Hg|congruence|exact Hdec]. }
  assert (Hrec : allDue max w3.(clock) (receipts w3)).
  { rewrite Hmail. eapply allDue_later; [apply (rel_clock _ _ HR3)|apply (due_receipts _ Hd)]. }
  destruct (bus_calm e w3 s w4 HI3 Hrec Hfrom Hins Hbus) as (HI4 & HR4 & Hacc & -> & Hout & Hq4 & Hle4 & Hev & Hrec4 & Hopen4).
  cbn [caught rc_durable rc_eventId andb] in Hrun. rewrite bool_decide_eq_true_2 in Hrun by done.
  destruct Hrun as (r5 & w5 & Hfin & Hrun).
  destruct (calm_safe (finishOutbox (e_id e) token attempt None) _ _ _ HI4 ltac:(exists e; split_and!; [done..|by apply (rel_texts _ _ HR4)]) Hfin) as (HI5 & HR5 & _).
  rewrite Hid in Hfin. rewrite <- Hout in Hrows.
  destruct (outboxFinish_calm _ _ _ _ _ _ _ _ _ (wf_rows _ HI) Hg Hs Hrows Hle4 Hq4 Hfin) as (-> & Hset & Hmail5 & Hle5).
  destruct Hrun as [_ ->]. pose proof (settledAs_open id row _ _ (wf_rows _ HI) Hg ltac:(congruence) Hset) as Hperm.
  assert (HR : Rel w w5) by (eapply event_rel_trans; [exact HR3|by eapply event_rel_trans]).
  split; [done|done| |rewrite Hperm; cbn; lia|].
  - split; rewrite ?Hmail5.
    + eapply settledAs_due; [exact Hset|]. eapply allDue_later; [apply (rel_clock _ _ HR)|apply (due_rows _ Hd)].
    + by eapply allDue_later.
    + intros id' r' e' Hg' Hs' Hdec'. destruct (decide (id' = id)) as [->|Hne].
      { destruct Hset as (_ & Hst & _). rewrite Hg' in Hst. cbn in Hst. congruence. }
      rewrite Hev by congruence. rewrite Hmail. eapply (due_insertable _ Hd); [|exact Hs'|exact Hdec']. destruct Hset as (_ & _ & Ho). by rewrite <- Ho.
  - intros c. rewrite Hperm, Hmail5, <- Hmail. specialize (Hopen4 c). cbn [length]. lia.
Qed.

Lemma dispatch_calm w r w' : Inv w -> due w -> runs calm dispatchOnce w r w' -> dispatched 1 w w'.
Proof using Hmax Hnames Hbuilt.
  intros HI0 Hd0 (r0 & w1 & Hnew & Hrun). destruct (calm_safe newId _ _ _ HI0 I Hnew) as (HI1 & HR1 & _).
  destruct Hnew as (token & -> & _ & Hvalid & ->). destruct Hrun as (r1 & w2 & [-> ->] & Hrun). cbn [bind perform pure_] in Hrun.
  rewrite (Events.validID_parse _ Hvalid) in Hrun. destruct Hrun as (r2 & w3 & Hclaim & Hrun).
  destruct (calm_safe (claimOutbox token) _ _ _ HI1 I Hclaim) as (HI3 & HR3 & Ht). destruct Hclaim as [_ Hclaim].
  assert (HR : Rel w w3) by by eapply event_rel_trans.
  destruct (outboxClaim_calm _ _ _ _ HI1 (due_issued _ _ Hd0) Hclaim) as (Hmail & Hq & Hle & [(Hopen & -> & Hrows)|(id & row & e & attempt & Hg & Hs & Hdec & Hid & -> & Hrows)]).
  - destruct Hrun as [_ ->]. by apply dispatched_idle.
  - destruct Ht as [_ Hk]. by eapply (leased_calm w w3 token id row e attempt).
Qed.

Lemma dispatched_more a b w1 w2 w3 : dispatched a w1 w2 -> dispatched b w2 w3 -> dispatched (a + b) w1 w3.
Proof.
  intros [I1 R1 D1 L1 C1] [I2 R2 D2 L2 C2]. split; [done|by eapply event_rel_trans|done|lia|].
  intros c. specialize (C1 c). specialize (C2 c). lia.
Qed.

Lemma poll_calm n w u w' : Inv w -> due w -> runs calm (poll n) w u w' -> dispatched n w w'.
Proof using Hmax Hnames Hbuilt.
  revert w. induction n as [|n IH]; intros w HI Hd.
  - intros [_ ->]. split; [done|apply event_rel_refl|done|lia|lia].
  - intros (r0 & w0 & [-> ->] & Hrun). cbn [bind] in Hrun. apply runs_bind in Hrun as (r & w1 & Hturn & Hrun).
    pose proof (dispatch_calm _ _ _ HI Hd Hturn) as H1. destruct Hrun as (r1 & w2 & [-> ->] & Hrun).
    apply (dispatched_more 1 n _ w1); [done|]. apply IH; [apply H1|apply H1|done].
Qed.

(** ** The subscribers. *)

Lemma mailboxClaim_calm c token w r w' :
  Inv w -> due w -> briefly (mailboxClaim policy c token unlocked) w r w' ->
  w'.(outbox) = w.(outbox) /\ events w' = events w /\ w.(clock) <= w'.(clock)
  /\ (openOf c (receipts w) = [] /\ r = Ok None /\ receipts w' = receipts w
      \/ exists id row e attempt t, JsMap.get (id, c) (receipts w) = Some row /\ row.(state) = pending /\ e_id e = id
            /\ r = Ok (Some (Mailbox.ClaimedEvent e attempt))
            /\ receipts w' = JsMap.set (id, c) (leased token t row) (receipts w)).
Proof using Hbuilt.
  intros HI Hd (t1 & t2 & t3 & H1 & H2 & H3 & _ & Hc). unfold commit, mailboxClaim, Mailbox.claim, Mailbox.nextFor, Mailbox.buried in Hc.
  cbn [withClock mailbox] in Hc. pose proof (wf_receipts w HI) as Hw.
  rewrite (allDue_buried max _ t1 (Mailbox.mine c) _ Hw (due_receipts _ Hd)) in Hc.
  pose proof (candidate_open fst max t2 (Mailbox.mine c) (receipts w) Hw ltac:(eapply allDue_later, due_receipts, Hd; lia)) as Hcand.
  destruct (candidate _ _ _ _ _ _) as [[[id c'] row]|]; cbn [fst] in Hc.
  - destruct Hcand as (Hg & Hm & Hs). unfold Mailbox.mine in Hm. apply bool_decide_eq_true in Hm. cbn in Hm. subst c'.
    destruct (mi_receipt _ _ _ _ _ _ _ _ _ (inv_mailbox _ _ _ _ _ HI) _ _ Hg) as [_ Hn]. cbn in Hn.
    destruct (JsMap.get id (events w)) as [text|] eqn:Et; [|done].
    destruct (reads_back w id text HI (mi_from _ _ _ _ _ _ _ _ _ (inv_mailbox _ _ _ _ _ HI) _ _ Et)) as (e & He & Hid & _).
    rewrite He in Hc. injection Hc as <- <-. cbn. split_and!; [done|done|lia|]. right. by eexists id, row, e, _, _.
  - injection Hc as <- <-. cbn. split_and!; [done|done|lia|]. left. split; [|done].
    unfold openOf. destruct (filter (fun k => k.2 = c) (open_ (receipts w))) as [|k rest] eqn:E; [done|]. exfalso.
    assert (Hin : k ∈ filter (fun k => k.2 = c) (open_ (receipts w))) by (rewrite E; left).
    apply list_elem_of_filter in Hin as [Hk Hin]. specialize (Hcand k Hin). unfold Mailbox.mine in Hcand. by rewrite Hk, bool_decide_eq_true_2 in Hcand.
Qed.

Lemma mailboxFinish_calm id c row token attempt t3 w rcs r w' :
  JsMap.wf rcs -> JsMap.get (id, c) rcs = Some row -> row.(state) = pending ->
  receipts w = JsMap.set (id, c) (leased token t3 row) rcs ->
  (exists random, fraction random /\ briefly (fun _ _ => mailboxFinish policy id c token attempt None random) w r w') ->
  settledAs (id, c) rcs (receipts w') /\ w'.(outbox) = w.(outbox) /\ events w' = events w /\ w.(clock) <= w'.(clock).
Proof.
  intros Hw Hg Hs Hrows (random & _ & t1 & t2 & t & H1 & H2 & H3 & Hb & Hc).
  unfold commit, mailboxFinish, Mailbox.finish in Hc. cbn [Outbox.verdict withClock mailbox] in Hc. rewrite Hrows in Hc.
  destruct (settledAs_intro (id, c) row token t3 (Mailbox.holds id c token) (finished settled None 0 t) rcs Hw Hg) as [HS Hcount].
  - intros k' r'. unfold Mailbox.holds. intros Hh. breflect. by apply bool_decide_eq_true in H.
  - unfold Mailbox.holds. cbn. by rewrite !bool_decide_eq_true_2.
  - done.
  - rewrite Hcount in Hc. cbn [Z.eqb Pos.eqb] in Hc. injection Hc as <- <-. cbn. split_and!; [done..|lia].
Qed.

(** Some turns of a subscriber's loop. *)
Record served (c : jstring) (turns : nat) (w w' : World) : Prop := mkServed {
  sv_inv : Inv w';
  sv_rel : Rel w w';
  sv_due : due w';
  sv_rows : rows w' = rows w;
  sv_mine : length (openOf c (receipts w')) = (length (openOf c (receipts w)) - turns)%nat;
  sv_others : forall c', c' <> c -> length (openOf c' (receipts w')) = length (openOf c' (receipts w))
}.

Lemma openOf_settled id c row rcs rcs' c' :
  JsMap.wf rcs -> JsMap.get (id, c) rcs = Some row -> row.(state) <> settled -> settledAs (id, c) rcs rcs' ->
  length (openOf c' rcs) = ((if decide (c = c') then 1 else 0) + length (openOf c' rcs'))%nat.
Proof.
  intros Hw Hg Hs HS. unfold openOf. rewrite (settledAs_open _ _ _ _ Hw Hg Hs HS), filter_cons. cbn [snd].
  by destruct (decide (c = c')).
Qed.

Lemma served_more c a b w1 w2 w3 : served c a w1 w2 -> served c b w2 w3 -> served c (a + b) w1 w3.
Proof.
  intros [I1 R1 D1 O1 L1 C1] [I2 R2 D2 O2 L2 C2]. split; [done|by eapply event_rel_trans|done|congruence|lia|].
  intros c' Hne. rewrite C2 by done. by apply C1.
Qed.

Lemma due_same w w' : w.(clock) <= w'.(clock) -> rows w' = rows w -> events w' = events w -> allDue max w'.(clock) (receipts w') -> due w -> due w'.
Proof. intros Hc Hr He Hd [D1 D2 D3]. split; rewrite ?Hr, ?He; [by eapply allDue_later|done|done]. Qed.

Lemma deliver_calm p c w r w' : c ∈ consumers -> Inv w -> due w -> runs calm (deliver p c) w r w' -> served c 1 w w'.
Proof using Hmax Hnames Hbuilt.
  intros Hc HI0 Hd0. unfold deliver. rewrite forallb_forall in Hnames. rewrite (Hnames c) by by apply list_elem_of_In.
  intros (r0 & w1 & Hnew & Hrun). destruct (calm_safe newId _ _ _ HI0 I Hnew) as (HI1 & HR1 & _).
  destruct Hnew as (token & -> & _ & _ & ->). destruct Hrun as (r2 & w2 & Hclaim & Hrun).
  destruct (calm_safe (claimReceipt c token) _ _ _ HI1 I Hclaim) as (HI2 & HR2 & Ht). destruct Hclaim as [_ Hclaim].
  assert (HR : Rel w w2) by by eapply event_rel_trans.
  destruct (mailboxClaim_calm _ _ _ _ _ HI1 (due_issued _ _ Hd0) Hclaim) as (Hout & Hev & Hle & [(Hopen & -> & Hrec)|(id & row & e & attempt & t & Hg & Hs & Hid & -> & Hrec)]).
  - destruct Hrun as [_ ->]. cbn in Hout, Hev, Hrec, Hopen, Hle. split; rewrite ?Hrec, ?Hopen; try done; [|by rewrite Hout].
    eapply due_same; [done|by rewrite Hout|done| |exact Hd0]. rewrite Hrec. eapply allDue_later; [exact Hle|apply (due_receipts _ Hd0)].
  - destruct Ht as [[Htext Hfrom] _]. destruct Hrun as (r3 & w3 & Hh & Hrun).
    destruct (calm_safe (runHandler c e) _ _ _ HI2 (conj Hfrom Hc) Hh) as (HI3 & HR3 & Hhandled). destruct Hh as [-> ->]. cbn [bind] in Hrun.
    destruct Hrun as (r4 & w4 & Hfin & Hrun).
    destruct (calm_safe (finishReceipt (e_id e) c token attempt None) _ _ _ HI3 ltac:(exists e; split_and!; [left|done|exact Htext]) Hfin) as (HI4 & HR4 & _).
    cbn [caught] in Hfin. rewrite Hid in Hfin.
    destruct (mailboxFinish_calm id c row token attempt t (withHandled c e w2) _ _ _ (wf_receipts _ HI0) Hg Hs Hrec Hfin) as (Hset & Hout4 & Hev4 & Hle4).
    assert (w' = w4) as -> by (destruct r4; by destruct Hrun).
    assert (HR' : Rel w w4) by (eapply event_rel_trans; [exact HR|by eapply event_rel_trans]).
    assert (Hopen : forall c', length (openOf c' (receipts w)) = ((if decide (c = c') then 1 else 0) + length (openOf c' (receipts w4)))%nat)
      by (intros c'; apply (openOf_settled id c row); [by apply wf_receipts|exact Hg|congruence|exact Hset]).
    cbn in Hout4, Hev4, Hout, Hev. split; [done|done| | | |].
    + eapply due_same; [apply (rel_clock _ _ HR')|by rewrite Hout4, Hout|congruence| |exact Hd0].
      eapply settledAs_due; [exact Hset|]. eapply allDue_later; [apply (rel_clock _ _ HR')|apply (due_receipts _ Hd0)].
    + by rewrite Hout4, Hout.
    + rewrite (Hopen c). rewrite decide_True by done. lia.
    + intros c' Hne. rewrite (Hopen c'). by rewrite decide_False by done.
Qed.

Lemma run_calm n p c w u w' : c ∈ consumers -> Inv w -> due w -> runs calm (run n p c) w u w' -> served c n w w'.
Proof using Hmax Hnames Hbuilt.
  intros Hc. revert w. induction n as [|n IH]; intros w HI Hd.
  - intros [_ ->]. split; [done|apply event_rel_refl|done|done|lia|done].
  - intros (r0 & w0 & [-> ->] & r1 & w1 & [-> ->] & Hrun). cbn [bind] in Hrun.
    rewrite bool_decide_eq_true_2 in Hrun by done. cbn [negb] in Hrun. apply runs_bind in Hrun as (r & w2 & Hturn & Hrun).
    pose proof (deliver_calm _ _ _ _ _ Hc HI Hd Hturn) as H1. destruct Hrun as (r3 & w3 & [-> ->] & Hrun).
    apply (served_more c 1 n _ w2); [done|]. apply IH; [apply H1|apply H1|done].
Qed.

(** The dispatcher, then each subscriber. *)
Fixpoint serveAll (m : nat) (cs : list jstring) : Prog Ans unit :=
  match cs with
  | [] => Ret tt
  | c :: cs => bind (run m policy c) (fun _ => serveAll m cs)
  end.
Definition drain (n m : nat) : Prog Ans unit := bind (poll n) (fun _ => serveAll m consumers).

Lemma serveAll_calm m cs w u w' :
  (forall c, c ∈ cs -> c ∈ consumers) -> Inv w -> due w -> (forall c, (length (openOf c (receipts w)) <= m)%nat) ->
  runs calm (serveAll m cs) w u w' ->
  Inv w' /\ Rel w w' /\ rows w' = rows w
  /\ (forall c, (length (openOf c (receipts w')) <= length (openOf c (receipts w)))%nat)
  /\ (forall c, c ∈ cs -> openOf c (receipts w') = []).
Proof using Hmax Hnames Hbuilt.
  revert w. induction cs as [|c cs IH]; intros w Hcs HI Hd Hm.
  - intros [_ ->]. split_and!; [done|apply event_rel_refl|done|done|]. by intros c ?%elem_of_nil.
  - intros (u1 & w1 & Hone & Hrest)%runs_bind. destruct (run_calm _ _ _ _ _ _ (Hcs c ltac:(left)) HI Hd Hone) as [HI1 HR1 Hd1 Hr1 Hmine Hother].
    assert (Hle : forall c', (length (openOf c' (receipts w1)) <= length (openOf c' (receipts w)))%nat).
    { intros c'. destruct (decide (c' = c)) as [->|Hne]; [lia|by rewrite Hother]. }
    destruct (IH w1 ltac:(intros; apply Hcs; by right) HI1 Hd1 ltac:(intros c'; specialize (Hle c'); specialize (Hm c'); lia) Hrest) as (HI2 & HR2 & Hr2 & Hle2 & Hnil).
    split_and!; [done|by eapply event_rel_trans|congruence|intros c'; specialize (Hle c'); specialize (Hle2 c'); lia|].
    intros c' [-> |Hin]%elem_of_cons; [|by apply Hnil]. apply nil_length_inv. specialize (Hle2 c). specialize (Hm c). lia.
Qed.

(** When nothing is open, every event written was completed by everybody. *)
Lemma drained_completed w e c :
  Inv w -> open_ (rows w) = [] -> openOf c (receipts w) = [] -> c ∈ consumers -> e ∈ w.(enqueued) ->
  completed jsonb w.(handled) c (e_id e) (bytes e).
Proof.
  intros HI Ho Hc Hin He. destruct (enqueued_way _ _ _ _ _ _ _ HI He Hin) as [(r & Hg & Hs & _)|[(r & text & Hg & Hs & _)|?]]; [exfalso..|done].
  - apply (not_elem_of_nil (e_id e)). rewrite <- Ho. apply elem_of_open; [by apply wf_rows|]. by exists r.
  - apply (not_elem_of_nil (e_id e, c)). rewrite <- Hc. apply list_elem_of_filter. split; [done|]. apply elem_of_open; [by apply wf_receipts|]. by exists r.
Qed.
End Turns.

(** C5. Everything written is delivered. From any world the processes can reach
    in which no row is dead, leased or waiting for its retry, and the mailbox
    does not already hold another event under an identifier the outbox holds: a
    dispatcher that takes as many turns as there are unsent rows, followed by
    each subscriber's loop for as many turns as it has unsettled receipts and
    there were unsent rows, leaves nothing unsent and nothing unsettled, if no
    transaction fails or takes half a lease and the handlers succeed; and then
    every event ever enqueued was completed by every consumer's handler. *)
Theorem pipeline_drains {J} `{Jdec : EqDecision J} (jsonb : Events.Raw -> option J) (policy : RetryPolicy) (consumers : list jstring)
    (ps : list Process) (t : Z) (n m : nat) (w : World) (progs : list (Prog Ans (Res unit))) (u : unit) (w' : World)
    (Hmax : 0 < policy.(maxAttempts)) (Hnames : forallb Inbox.Inbox.CONSUMER_NAME consumers = true)
    (Hbuilt : Forall built (writtenBy ps)) (Hreach : reaches jsonb policy consumers ps t w progs)
    (Hdue : due jsonb policy w) (Hn : (length (open_ (l_data (outbox w))) <= n)%nat)
    (Hm : forall c, (length (openOf c (Mailbox.receipts (l_data (mailbox w)))) + length (open_ (l_data (outbox w))) <= m)%nat)
    (Hrun : runs (calm jsonb policy consumers) (drain policy consumers n m) w u w') :
  open_ (l_data (outbox w')) = []
  /\ (forall c, c ∈ consumers -> openOf c (Mailbox.receipts (l_data (mailbox w'))) = [])
  /\ (forall e c, e ∈ w.(enqueued) -> c ∈ consumers -> completed jsonb w'.(handled) c (e_id e) (bytes e)).
Proof.
  destruct (reaches_inv jsonb policy consumers ps t w progs ltac:(lia) Hbuilt Hreach) as [HI _].
  apply runs_bind in Hrun as (u1 & w1 & Hpoll & Hserve).
  destruct (poll_calm jsonb policy consumers _ Hmax Hnames Hbuilt _ _ _ _ HI Hdue Hpoll) as [HI1 HR1 Hd1 Hrows Hrec].
  destruct (serveAll_calm jsonb policy consumers _ Hmax Hnames Hbuilt m consumers w1 u w' ltac:(done) HI1 Hd1
    ltac:(intros c; specialize (Hrec c); specialize (Hm c); lia) Hserve) as (HI2 & HR2 & Hr2 & _ & Hnil).
  assert (Ho : open_ (l_data (outbox w')) = []) by (rewrite Hr2; apply nil_length_inv; lia).
  split; [done|]. split; [exact Hnil|]. intros e c He Hc. eapply drained_completed; [done|done|by apply Hnil|done|].
  by apply HR2, HR1.
Qed.

Definition drained : World :=
  default (start 0) (snd <$> tried sample_port 0 (drain DEFAULT_RETRY [audit] 1 1) (worldOf [0%nat])).

Lemma sample_due : due Events.json DEFAULT_RETRY (worldOf [0%nat]).
Proof.
  assert (Ho : l_data (outbox (worldOf [0%nat])) = [(e_id Events.sample_envelope, inserted 1000 (bytes Events.sample_envelope))])
    by (vm_compute; reflexivity).
  assert (Hr : Mailbox.receipts (l_data (mailbox (worldOf [0%nat]))) = []) by (vm_compute; reflexivity).
  split; rewrite ?Ho, ?Hr; [|done|].
  - intros k r. cbn [JsMap.get]. case_decide; [|done]. intros [= <-] _. vm_compute. reflexivity.
  - intros id r e. cbn [JsMap.get]. case_decide as Hid; [|done]. intros [= <-] _. cbn [content inserted].
    rewrite (proj1 (built_again _ sample_built)). intros [= <-]. rewrite Hid. vm_compute. reflexivity.
Qed.

Lemma pipeline_drains_witness :
  runs (calm Events.json DEFAULT_RETRY [audit]) (drain DEFAULT_RETRY [audit] 1 1) (worldOf [0%nat]) tt drained
  /\ completed Events.json drained.(handled) audit (e_id Events.sample_envelope) (bytes Events.sample_envelope).
Proof.
  assert (Hr : runs (calm Events.json DEFAULT_RETRY [audit]) (drain DEFAULT_RETRY [audit] 1 1) (worldOf [0%nat]) tt drained).
  { eapply (tried_runs _ sample_port 0); [intros n op w r w1; apply port_calm|]. vm_compute. reflexivity. }
  split; [exact Hr|].
  apply (pipeline_drains Events.json DEFAULT_RETRY [audit] sample_processes 0 1 1 (worldOf [0%nat]) (progsOf [0%nat]) tt drained); try exact Hr.
  - reflexivity.
  - vm_compute. reflexivity.
  - repeat constructor. exact sample_built.
  - apply ran_reaches. vm_compute. reflexivity.
  - exact sample_due.
  - vm_compute. lia.
  - intros c. replace (Mailbox.receipts _) with (@nil ((ID * jstring) * Row unit)) by (vm_compute; reflexivity). vm_compute. lia.
  - vm_compute. left.
  - left.
Defined.
End EventDrain.
