(* ===== verification/Nats.v ===== *)
(** * The broker between the outbox and the inbox: [shared/events/nats/broker.ts]
    and [platform/runtime/nats-event-worker.ts].

    Every operation is a program of requests to JetStream and publications to
    the sink; a request may fail at any of them.  JetStream itself is an
    interface of its documented behaviour ([JetStream]), the limits of the stream
    and what it discards past them included, with a small instance. *)
From stdpp Require Import relations.
From S2P Require Import Prelude Async JsMap Errors Ids Json JsonPrint Provenance Events Commands Postgres Inbox EventStore EventPipeline EventWorld EventRuns.

Module Broker.
Import EventPipeline.EventPorts(Settled, Returned, Threw).
Import EventPipeline.EventCommands(Receipt, mkReceipt, rc_eventId, rc_durable).
#[local] Open Scope prog_scope.

(** @src src/shared/events/nats/broker.ts:21-35 Config *)
Record Config : Type := mkConfig {
  url : jstring; timeoutMs : num; stream : jstring; consumer : jstring; subjectPrefix : option jstring; consumerDeliverPolicy : option jstring;
  maxAgeMs : option Z; maxBytes : option Z; nakDelayMs : option Z
}.

(** @src src/shared/events/nats/broker.ts:37-47 DEFAULT_MAX_AGE_MS, DEFAULT_MAX_BYTES, DEFAULT_NAK_DELAY_MS, NANOS_PER_MS, DEFAULT_SUBJECT_PREFIX *)
Definition DEFAULT_MAX_AGE_MS : Z := 7 * 24 * 60 * 60 * 1000.
Definition DEFAULT_MAX_BYTES : Z := 64 * 1024 * 1024.
Definition DEFAULT_NAK_DELAY_MS : Z := 5000.
Definition NANOS_PER_MS : Z := 1000000.
Definition DEFAULT_SUBJECT_PREFIX : jstring := js "n2f.events.".

(** @src src/shared/events/nats/broker.ts:50-53 unavailable *)
Definition unavailable_ : Failure := fail_with unavailable "JetStream operation incomplete" "events.jetstream_unavailable".
(** @src src/shared/events/nats/broker.ts:54-57 invalid *)
Definition invalid_ : Failure := fail_with Errors.invalid "invalid JetStream configuration" "events.jetstream_config".

(** [isDeepStrictEqual] of parsed JSON. *)
Fixpoint deepEqual (a b : JsValue) : bool :=
  match a, b with
  | VArr l, VArr k =>
      (fix items l k := match l, k with
                        | [], [] => true
                        | x :: l, y :: k => deepEqual x y && items l k
                        | _, _ => false
                        end) l k
  | VObj ms, VObj ns =>
      Nat.eqb (length ms) (length ns)
      && List.forallb (fun e => match JsMap.get e.1 ns with Some w => deepEqual e.2 w | None => false end) ms
  | _, _ => bool_decide (a = b)
  end.

(** [!!v]. *)
Definition truthy (v : JsValue) : bool :=
  match v with
  | VUndefined | VNull => false
  | VBool b => b
  | VNum (Int z) => negb (z =? 0)
  | VNum (NonInt t) => negb (String.eqb t "NaN")
  | VStr s => negb (bool_decide (s = []))
  | VArr _ | VObj _ => true
  end.

(** [v?.k], of a value that is not text. *)
Definition prop (k : string) (v : JsValue) : JsValue := match v with VObj ms => field k ms | _ => VUndefined end.

(** What [open] reads of a [URL]. *)
Record Url : Type := mkUrl {
  protocol : jstring; hostname : jstring; username : jstring; password : jstring; search : jstring; hash : jstring; pathname : jstring
}.

(** [/^[A-Za-z0-9_]{1,40}$/]. *)
Definition isWord (c : Z) : bool := isUpper c || isLower c || isDigit c || (c =? 95).
Definition isName (s : jstring) : bool := (1 <=? jlength s) && (jlength s <=? 40) && forallb isWord s.

(** @src src/shared/events/nats/broker.ts:48-48 SUBJECT_PREFIX_PATTERN
    [/^[A-Za-z0-9_]{1,40}\.[A-Za-z0-9_]{1,40}\.$/]: a name, a period, a name and
    a period, at some place of the text. *)
Definition isPrefix (s : jstring) : bool :=
  existsb (fun i =>
    isName (take i s) && bool_decide (head (drop i s) = Some 46)
    && match reverse (drop (S i) s) with 46 :: r => isName (reverse r) | _ => false end) (seq 0 (length s)).

(** @src src/shared/events/nats/broker.ts:82-119 Broker.open
    [new URL] is an argument, and so is whether the connection opens. *)
Definition open_ (URL : jstring -> option Url) (connects : bool) (config : Config) : Res unit :=
  match URL config.(url) with
  | None => Err invalid_
  | Some u =>
      if negb (bool_decide (u.(protocol) ∈ js <$> ["nats:"; "tls:"]%string)) || bool_decide (u.(hostname) = [])
         || negb (bool_decide (u.(username) = [])) || negb (bool_decide (u.(password) = []))
         || negb (bool_decide (u.(search) = [])) || negb (bool_decide (u.(hash) = [])) || negb (bool_decide (u.(pathname) = []))
         || negb (isName config.(stream)) || negb (isName config.(consumer))
         || match config.(subjectPrefix) with Some p => negb (isPrefix p) | None => false end
         || negb (isInteger config.(timeoutMs)) || num_lt config.(timeoutMs) 1 || num_gt config.(timeoutMs) 5000
      then Err invalid_
      else if connects then Ok tt else Err unavailable_
  end.

(** @src src/shared/events/nats/broker.ts:59-69 compatible *)
Definition compatible (got : JsValue) (want : list (string * JsValue)) : bool :=
  truthy got && forallb (fun e => deepEqual (prop e.1 got) e.2) want.

(** ** Requests. *)

(** What is sent: a value as JSON, a text, or the bytes of an event. *)
Inductive Data : Type := DJson (v : JsValue) | DText (s : jstring) | DEvent (raw : Events.Raw).

(** A message received: its bytes, the value they spell when invalid UTF-8 is
    replaced, the status of its headers, 0 where it has none, and its reply
    subject, empty where it has none. *)
Record Msg : Type := mkMsg { data : Events.Raw; lenient : option JsValue; code : Z; reply : jstring }.

Inductive Op : Type :=
| askServer (subject : jstring) (d : Data) (headers : list (string * jstring))
| askSink (event : Events.Envelope)
| askAborted.

(** [None]: the request throws, for any reason but a message that is too long. *)
Definition Ans (op : Op) : Type :=
  match op with
  | askServer _ _ _ => option Msg
  | askSink _ => Settled Receipt
  | askAborted => bool
  end.

(** What a body throws: an [AppError] with its failure, or anything else. *)
Definition Body (A : Type) : Type := Prog Ans (Result (option Failure) A).
Definition throw {A} (f : Failure) : Body A := Ret (Err (Some f)).
Definition andThen {A B} (m : Body A) (k : A -> Body B) : Body B :=
  bind m (fun r => match r with Ok a => k a | Err e => Ret (Err e) end).

(** @src src/shared/events/nats/broker.ts:148-170 Broker.operation
    The signal fires when the caller aborts or the time is up: a request that is
    waiting throws then. *)
Definition operation {A} (fn : Body A) : Prog Ans (Res A) :=
  bind fn (fun r =>
  match r with
  | Ok value => Ret (Ok value)
  | Err error =>
      bind (perform (Ans := Ans) askAborted) (fun aborted =>
      Ret (Err (if aborted : bool then failure canceled "JetStream operation canceled" noOptions
                else default unavailable_ error)))
  end).

(** @src src/shared/events/nats/broker.ts:172-197 Broker.request *)
Definition request (subject : jstring) (d : Data) (headers : list (string * jstring)) : Body Msg :=
  bind (perform (Ans := Ans) (askServer subject d headers)) (fun answer =>
  match answer with
  | None => Ret (Err None)
  | Some message => if 131072 <? message.(data).(Events.byteLength) then throw unavailable_ else Ret (Ok message)
  end).

(** @src src/shared/events/nats/broker.ts:199-216 Broker.api *)
Definition api (subject : jstring) (input : JsValue) : Body (list (string * JsValue)) :=
  andThen (request subject (DJson input) []) (fun message =>
  match message.(data).(Events.json) with
  | None => Ret (Err None)
  | Some (VObj output) => Ret (Ok output)
  | Some _ => throw unavailable_
  end).

Section Operations.
  Context (config : Config).
  (** What [JSON.parse(Buffer.from(text, 'base64').toString('utf8'))] gives. *)
  Context (parseBase64 : jstring -> option JsValue).

(** @src src/shared/events/nats/broker.ts:74-80 Broker.constructor *)
Definition subject : jstring := default DEFAULT_SUBJECT_PREFIX config.(subjectPrefix) ++ config.(stream).

(** @src src/shared/events/nats/broker.ts:141-146 Broker.ping *)
Definition ping : Prog Ans (Res unit) :=
  operation (andThen (api (js "$JS.API.INFO") (VObj [])) (fun info =>
  if truthy (field "error" info) then throw unavailable_ else Ret (Ok tt))).

(** @src src/shared/events/nats/broker.ts:129-139 Broker.removeConsumer *)
Definition removeConsumer : Prog Ans (Res unit) :=
  operation (andThen (api (js "$JS.API.CONSUMER.DELETE." ++ config.(stream) ++ js "." ++ config.(consumer)) (VObj [])) (fun deleted =>
  let error := field "error" deleted in
  if truthy error && negb (bool_decide (prop "code" error = VNum (Int 404))) then throw unavailable_ else Ret (Ok tt))).

(** @src src/shared/events/nats/broker.ts:220-234 Broker.provision *)
Definition streamSettings : list (string * JsValue) :=
  [("name", VStr config.(stream)); ("subjects", VArr [VStr subject]); ("storage", VStr (js "file")); ("num_replicas", VNum (Int 1));
   ("retention", VStr (js "limits")); ("discard", VStr (js "old"));
   ("max_age", VNum (Int (default DEFAULT_MAX_AGE_MS config.(maxAgeMs) * NANOS_PER_MS)));
   ("max_bytes", VNum (Int (default DEFAULT_MAX_BYTES config.(maxBytes)))); ("max_msg_size", VNum (Int 131072));
   ("duplicate_window", VNum (Int 120000000000))]%string.

(** @src src/shared/events/nats/broker.ts:258-271 Broker.provision *)
Definition consumerSettings : list (string * JsValue) :=
  [("durable_name", VStr config.(consumer)); ("ack_policy", VStr (js "explicit")); ("ack_wait", VNum (Int (30000 * NANOS_PER_MS)));
   ("max_deliver", VNum (Int (-1))); ("max_ack_pending", VNum (Int 256)); ("filter_subject", VStr subject);
   ("deliver_policy", VStr (default (js "all") config.(consumerDeliverPolicy))); ("replay_policy", VStr (js "instant"))]%string.

(** [info.error && info.error.code === 404]. *)
Definition notFound (info : list (string * JsValue)) : bool :=
  truthy (field "error" info) && bool_decide (prop "code" (field "error" info) = VNum (Int 404)).

(** @src src/shared/events/nats/broker.ts:255-257 Broker.provision *)
Definition settled (info want : list (string * JsValue)) : Body unit :=
  if truthy (field "error" info) || negb (compatible (field "config" info) want)
  then throw (if truthy (field "error" info) then unavailable_ else invalid_)
  else Ret (Ok tt).

(** [{ ...(info.config), ...stream }]: the server sends its settings as an object. *)
Definition merged (config_ : JsValue) (want : list (string * JsValue)) : JsValue :=
  VObj (JsMap.spread (match config_ with VObj ms => ms | _ => [] end) want).

(** @src src/shared/events/nats/broker.ts:235-257 Broker.provision *)
Definition provisionStream : Body unit :=
  andThen (api (js "$JS.API.STREAM.INFO." ++ config.(stream)) (VObj [])) (fun info =>
  andThen
    (if notFound info then api (js "$JS.API.STREAM.CREATE." ++ config.(stream)) (VObj streamSettings)
     else if negb (truthy (field "error" info)) && negb (compatible (field "config" info) streamSettings)
     then api (js "$JS.API.STREAM.UPDATE." ++ config.(stream)) (merged (field "config" info) streamSettings)
     else Ret (Ok info)) (fun info =>
  settled info streamSettings)).

(** @src src/shared/events/nats/broker.ts:272-296 Broker.provision *)
Definition provisionConsumer : Body unit :=
  andThen (api (js "$JS.API.CONSUMER.INFO." ++ config.(stream) ++ js "." ++ config.(consumer)) (VObj [])) (fun info =>
  andThen
    (if notFound info || (negb (truthy (field "error" info)) && negb (compatible (field "config" info) consumerSettings))
     then api (js "$JS.API.CONSUMER.DURABLE.CREATE." ++ config.(stream) ++ js "." ++ config.(consumer))
            (VObj [("stream_name"%string, VStr config.(stream)); ("config"%string, VObj consumerSettings)])
     else Ret (Ok info)) (fun info =>
  settled info consumerSettings)).

(** @src src/shared/events/nats/broker.ts:218-298 Broker.provision *)
Definition provision : Prog Ans (Res unit) := operation (andThen provisionStream (fun _ => provisionConsumer)).

(** @src src/shared/events/nats/broker.ts:314-326 Broker.publish
    The sequence an acknowledgement names, and whether it is a duplicate's. *)
Definition acknowledged (ack : JsValue) : option (Z * bool) :=
  match ack with
  | VObj receipt =>
      if truthy (field "error" receipt) || negb (bool_decide (field "stream" receipt = VStr config.(stream))) then None
      else match field "seq" receipt with
           | VNum (Int seq) => if isSafeInteger (Int seq) && (0 <? seq) then Some (seq, truthy (field "duplicate" receipt)) else None
           | _ => None
           end
  | _ => None
  end.

(** @src src/shared/events/nats/broker.ts:305-307 Broker.publish *)
Definition publishHeaders (event : Events.Envelope) : list (string * jstring) :=
  [("Nats-Msg-Id"%string, event.(Events.e_id)); ("Nats-Expected-Stream"%string, config.(stream))].

(** @src src/shared/events/nats/broker.ts:345-349 Broker.publish *)
Definition idReused : Failure := fail_with conflict "event delivery conflict" "events.id_reused".

(** @src src/shared/events/nats/broker.ts:300-354 Broker.publish *)
Definition publish (event : Events.Envelope) : Prog Ans (Res Receipt) :=
  operation (andThen (request subject (DEvent (Events.bytes event)) (publishHeaders event)) (fun message =>
  match message.(lenient) with
  | None => Ret (Err None)
  | Some ack =>
      match acknowledged ack with
      | None => throw unavailable_
      | Some (seq, duplicate) =>
          andThen
            (if duplicate then
               andThen (api (js "$JS.API.STREAM.MSG.GET." ++ config.(stream)) (VObj [("seq"%string, VNum (Int seq))])) (fun stored =>
               match prop "data" (field "message" stored) with
               | VStr messageData =>
                   match parseBase64 messageData, (Events.bytes event).(Events.json) with
                   | Some original, Some sent => if negb (deepEqual original sent) then throw idReused else Ret (Ok tt)
                   | _, _ => Ret (Err None)
                   end
               | _ => throw unavailable_
               end)
             else Ret (Ok tt))
            (fun _ => Ret (Ok (mkReceipt event.(Events.e_id) true)))
      end
  end)).

Definition ACK : Data := DText (js "+ACK").
Definition TERM : Data := DText (js "+TERM").

(** @src src/shared/events/nats/broker.ts:384-392 Broker.transfer
    [`-NAK ${JSON.stringify({ delay })}`]. *)
Definition NAK : Data :=
  DText (js "-NAK {" ++ [34] ++ js "delay" ++ [34; 58] ++ intText (default DEFAULT_NAK_DELAY_MS config.(nakDelayMs) * NANOS_PER_MS) ++ [125]).

(** @src src/shared/events/nats/broker.ts:361-368 Broker.transfer *)
Definition nextSubject : jstring := js "$JS.API.CONSUMER.MSG.NEXT." ++ config.(stream) ++ js "." ++ config.(consumer).
Definition nextInput : Data := DJson (VObj [("batch"%string, VNum (Int 1)); ("no_wait"%string, VBool true)]).

(** @src src/shared/events/nats/broker.ts:382-397 Broker.transfer
    The event is offered to the sink, and the message settled by its answer. *)
Definition offer (message : Msg) (event : Events.Envelope) : Body bool :=
  bind (perform (Ans := Ans) (askSink event)) (fun receipt =>
  let nak (f : Failure) := andThen (request message.(reply) NAK []) (fun _ => throw f) in
  match receipt with
  | Threw (Database.Other (CAppError f)) => throw f
  | Threw _ => Ret (Err None)
  | Returned (Ok r) =>
      if negb r.(rc_durable) || negb (bool_decide (r.(rc_eventId) = event.(Events.e_id))) then nak unavailable_
      else andThen (request message.(reply) ACK []) (fun _ => Ret (Ok true))
  | Returned (Err f) => nak f
  end).

(** @src src/shared/events/nats/broker.ts:356-398 Broker.transfer *)
Definition transfer : Prog Ans (Res bool) :=
  operation (andThen (request nextSubject nextInput []) (fun message =>
  if (message.(code) =? 404) || (message.(code) =? 408) then Ret (Ok false)
  else if bool_decide (message.(reply) = []) then throw unavailable_
  else
    match Events.decode message.(data) with
    | Err _ =>
        andThen (request message.(reply) TERM []) (fun _ =>
        throw (fail_with Errors.invalid "undecodable JetStream message terminated" "events.undecodable"))
    | Ok event => offer message event
    end)).

(** @src src/platform/runtime/nats-event-worker.ts:65-83 NatsEventWorker.poll
    The first [turns] turns; how long the worker waits between them is
    scheduling, and the log is left out. [askAborted] stands for the worker
    having been stopped. *)
Fixpoint poll (turns : nat) : Prog Ans unit :=
  match turns with
  | O => Ret tt
  | S turns => bind transfer (fun _ => bind (perform (Ans := Ans) askAborted) (fun stopped => if stopped : bool then Ret tt else poll turns))
  end.
End Operations.
End Broker.

(** ** Subjects.

    A broker that opens uses one subject, without wildcards or white space. *)
Module Subjects.
Import Broker.

Definition plainUnit (c : Z) : bool := isWord c || (c =? 46).

Lemma name_plain s : isName s = true -> forallb plainUnit s = true.
Proof.
  intros [_ H]%andb_true_iff. rewrite forallb_forall in *. intros c Hc. unfold plainUnit. by rewrite H.
Qed.

Lemma prefix_plain s : isPrefix s = true -> forallb plainUnit s = true.
Proof.
  unfold isPrefix. intros H. apply existsb_exists in H as (i & _ & H). apply andb_true_iff in H as [H Hr]. apply andb_true_iff in H as [Hn Hh].
  apply bool_decide_eq_true in Hh. rewrite <- (take_drop i s), forallb_app, name_plain by done. destruct (drop i s) as [|c r] eqn:E; [done|].
  injection Hh as ->. assert (drop (S i) s = r) as Hd by (rewrite <- Nat.add_1_r, <- drop_drop, E; done). rewrite Hd in Hr. cbn [forallb andb].
  destruct (reverse r) as [|d q] eqn:Er; [done|]. assert (Hdq : d = 46 /\ isName (reverse q) = true) by (repeat (case_match; try done)).
  destruct Hdq as [-> Hq]. assert (r = reverse q ++ [46]) as -> by (by rewrite <- (reverse_involutive r), Er, reverse_cons).
  by rewrite forallb_app, name_plain.
Qed.

Lemma subject_plain URL connects config : open_ URL connects config = Ok tt -> forallb plainUnit (subject config) = true.
Proof.
  unfold open_. destruct (URL _) as [u|]; [|done]. destruct (_ || _) eqn:E; [done|]. intros _.
  repeat (apply orb_false_iff in E as [E ?]). breflect. unfold subject. rewrite forallb_app, (name_plain (stream config)), andb_true_r by done.
  destruct (subjectPrefix config) as [p|]; [|done]. apply prefix_plain. by apply negb_false_iff.
Qed.
End Subjects.

(** ** The relay: publishers, the server and the workers at once. *)
Module Relay.
Import Broker.
Import EventPipeline.EventPorts(Settled, Returned, Threw).
Import EventPipeline.EventCommands(Receipt, mkReceipt, rc_eventId, rc_durable).

Section Server.
  Context (config : Config) (parseBase64 : jstring -> option JsValue).

(** The limits of the stream, as it is provisioned. *)
Definition maxAgeNanos : Z := default DEFAULT_MAX_AGE_MS config.(maxAgeMs) * NANOS_PER_MS.
Definition maxStreamBytes : Z := default DEFAULT_MAX_BYTES config.(maxBytes).

(** The bytes of the messages from a sequence on. *)
Definition bytesFrom (size : Events.Raw -> Z) (messages : list (Z * Events.Raw)) (seq : Z) : Z :=
  foldr (fun m n => if seq <=? m.1 then size m.2 + n else n) 0 messages.

(** What JetStream documents of a stream with one durable consumer that
    acknowledges explicitly: a message stored has a sequence of its own for good;
    one that is stored is kept for the consumer until it is acknowledged or
    terminated at a reply subject that names its sequence, or until the stream
    discards it.  With [discard: old] a message is discarded for being older than
    [max_age], or for being among the oldest when the messages from it on are more
    than [max_bytes].  An acknowledged publication was stored, or names the
    message with the same identifier that was. *)
Class JetStream : Type := {
  State : Type;
  empty_ : State;
  (** Every message that was ever stored, with its sequence; those the stream still
      holds for the consumer; those it discarded. *)
  stored : State -> list (Z * Events.Raw);
  kept : State -> list (Z * Events.Raw);
  discarded : State -> list (Z * Events.Raw);
  (** How long ago, in nanoseconds, the message of a sequence was stored, and what
      the server counts for a message. *)
  age : State -> Z -> Z;
  size : Events.Raw -> Z;
  (** The sequence a reply subject names. *)
  ackOf : jstring -> option Z;
  (** A request and its answer, or its failure, before or after it took effect. *)
  serves : State -> jstring -> Data -> list (string * jstring) -> option Msg -> State -> Prop;
  stored_empty : stored empty_ = [];
  kept_stored s m : m ∈ kept s -> m ∈ stored s;
  stored_once s seq a b : (seq, a) ∈ stored s -> (seq, b) ∈ stored s -> a = b;
  stored_stays s subj d h r s' m : serves s subj d h r s' -> m ∈ stored s -> m ∈ stored s';
  stored_new s subj d h r s' m : serves s subj d h r s' -> m ∈ stored s' -> m ∈ stored s \/ (d = DEvent m.2 /\ m ∈ kept s');
  kept_until s subj d h r s' m : serves s subj d h r s' -> m ∈ kept s ->
    m ∈ kept s' \/ (ackOf subj = Some m.1 /\ (d = ACK \/ d = TERM)) \/ m ∈ discarded s';
  discarded_stays s subj d h r s' m : serves s subj d h r s' -> m ∈ discarded s -> m ∈ discarded s';
  discarded_over s m : m ∈ discarded s -> maxAgeNanos < age s m.1 \/ maxStreamBytes < bytesFrom size (stored s) m.1;
  publish_stores s raw h m ack seq duplicate s' : serves s (subject config) (DEvent raw) h (Some m) s' -> m.(lenient) = Some ack ->
    acknowledged config ack = Some (seq, duplicate) ->
    if duplicate : bool then exists original, (seq, original) ∈ stored s' else (seq, raw) ∈ stored s';
  next_kept s m s' : serves s (nextSubject config) nextInput [] (Some m) s' -> m.(reply) <> [] -> (m.(code) =? 404) || (m.(code) =? 408) = false ->
    exists seq, (seq, m.(data)) ∈ kept s /\ ackOf m.(reply) = Some seq;
  get_stored s seq m s' output text v :
    serves s (js "$JS.API.STREAM.MSG.GET." ++ config.(stream)) (DJson (VObj [("seq"%string, VNum (Int seq))])) [] (Some m) s' ->
    m.(data).(Events.json) = Some (VObj output) -> prop "data" (field "message" output) = VStr text -> parseBase64 text = Some v ->
    forall raw, (seq, raw) ∈ stored s -> raw.(Events.json) = Some v
}.

  Context `{JetStream}.

(** The server, what the sink accepted, and what was sent to the stream. *)
Record World : Type := mkWorld { server : State; delivered : list Events.Envelope; requested : list Events.Raw }.
Definition start : World := mkWorld empty_ [] [].

(** The receipt of an event that is durable in the sink. *)
Definition durably (r : Settled Receipt) : bool := match r with Returned (Ok receipt) => receipt.(rc_durable) | _ => false end.

(** The server serves what it may; the sink answers anything, and keeps what it
    says is durable; the caller may abort at any time. *)
Definition exec (op : Op) : World -> Ans op -> World -> Prop :=
  match op with
  | askServer subj d h => fun w r w' =>
      serves w.(server) subj d h r w'.(server) /\ w'.(delivered) = w.(delivered)
      /\ w'.(requested) = match d with DEvent raw => raw :: w.(requested) | _ => w.(requested) end
  | askSink event => fun w r w' =>
      w' = mkWorld w.(server) (if durably r then event :: w.(delivered) else w.(delivered)) w.(requested)
  | askAborted => fun w _ w' => w' = w
  end.

  (** The events that are published. *)
  Context (published : list Events.Envelope) (Hbuilt : Forall Events.built published).

(** The bytes of a published event. *)
Definition spells (raw : Events.Raw) (e : Events.Envelope) : Prop := e ∈ published /\ raw = Events.bytes e.

(** Every message is an event's that was published; each is still kept for the
    consumer, or was discarded, or its event is in the sink, and the sink holds
    published events. *)
Record Inv (w : World) : Prop := mkInv {
  inv_stored : forall seq raw, (seq, raw) ∈ stored w.(server) -> raw ∈ w.(requested);
  inv_requested : forall raw, raw ∈ w.(requested) -> exists e, spells raw e;
  inv_kept : forall seq raw, (seq, raw) ∈ stored w.(server) ->
    (seq, raw) ∈ kept w.(server) \/ (seq, raw) ∈ discarded w.(server) \/ exists e, spells raw e /\ e ∈ w.(delivered);
  inv_delivered : forall e, e ∈ w.(delivered) -> e ∈ published
}.

(** Nothing stored, delivered or sent is forgotten. *)
Record later (w w' : World) : Prop := mkLater {
  later_stored : forall m, m ∈ stored w.(server) -> m ∈ stored w'.(server);
  later_delivered : forall e, e ∈ w.(delivered) -> e ∈ w'.(delivered);
  later_requested : forall raw, raw ∈ w.(requested) -> raw ∈ w'.(requested)
}.

Lemma later_refl w : later w w.
Proof. by constructor. Qed.
Lemma later_trans a b c : later a b -> later b c -> later a c.
Proof. intros [] []. constructor; auto. Qed.

Lemma Inv_start : Inv start.
Proof.
  constructor; cbn; rewrite ?stored_empty; try (intros * Hn; by apply elem_of_nil in Hn).
Qed.

Lemma spells_decode raw e : spells raw e -> Events.decode raw = Ok e.
Proof. intros [He ->]. rewrite Forall_forall in Hbuilt. by apply Events.built_again, Hbuilt. Qed.

(** A request that settles nothing keeps the invariant. *)
Lemma served_inv w subj d h r w' :
  Inv w -> exec (askServer subj d h) w r w' ->
  (forall raw, d = DEvent raw -> exists e, spells raw e) ->
  (forall seq raw, ackOf subj = Some seq -> d = ACK \/ d = TERM -> (seq, raw) ∈ stored w.(server) ->
     exists e, spells raw e /\ e ∈ w.(delivered)) ->
  Inv w' /\ later w w'.
Proof.
  intros [Hs Hq Hk Hd] (Hserve & Edel & Ereq) Hd' Hack. split; constructor; rewrite ?Edel, ?Ereq.
  - intros seq raw Hm. destruct (stored_new _ _ _ _ _ _ _ Hserve Hm) as [Hold|[-> _]]; [|by left].
    apply Hs in Hold. destruct d; [done|done|by right].
  - intros raw Hr. destruct d as [v|t|raw']; [by apply Hq|by apply Hq|]. apply elem_of_cons in Hr as [->|Hr]; [by apply Hd'|by apply Hq].
  - intros seq raw Hm. destruct (stored_new _ _ _ _ _ _ _ Hserve Hm) as [Hold|[_ Hkept]]; [|by left].
    destruct (Hk _ _ Hold) as [Hkept|[Hdis|Hdel]]; [|right; left; by eapply discarded_stays|by right; right].
    destruct (kept_until _ _ _ _ _ _ _ Hserve Hkept) as [?|[[Ha Hset]|?]]; [by left| |by right; left]. right. right. by apply (Hack seq).
  - exact Hd.
  - intros m Hm. by eapply stored_stays.
  - done.
  - intros raw Hr. destruct d; [done|done|by right].
Qed.

(** What an acknowledged publication promises from then on: an event with its
    identifier was stored, so it is kept for the consumer, or discarded, or in the
    sink. *)
Definition secured (e : Events.Envelope) (w : World) : Prop :=
  exists seq raw e', (seq, raw) ∈ stored w.(server) /\ spells raw e' /\ e'.(Events.e_id) = e.(Events.e_id).

Lemma secured_later e w w' : later w w' -> secured e w -> secured e w'.
Proof. intros [Hs _ _] (seq & raw & e' & Hm & ?). exists seq, raw, e'. split; [by apply Hs|done]. Qed.

(** ** Rules for the broker's bodies. *)

(** A body that returns [a] leaves a world where [Q a]. *)
Definition ensures {A} (m : Body A) (Q : A -> World -> Prop) (w : World) : Prop :=
  wp exec Inv later m (fun r w' => match r with Ok a => Q a w' | Err _ => True end) w.

Lemma ensures_ok {A} (a : A) (Q : A -> World -> Prop) w : (forall w', later w w' -> Inv w' -> Q a w') -> ensures (Ret (Ok a)) Q w.
Proof. intros HQ w' Hl HI. by apply HQ. Qed.

Lemma ensures_err {A} e (Q : A -> World -> Prop) w : ensures (Ret (Err e)) Q w.
Proof. by intros w' _ _. Qed.

Lemma ensures_andThen {A B} (m : Body A) (k : A -> Body B) P Q w :
  ensures m P w -> Inv w -> (forall a w', Inv w' -> later w w' -> P a w' -> ensures (k a) Q w') -> ensures (andThen m k) Q w.
Proof.
  intros Hm HI Hk. eapply (wp_seq exec Inv later later_refl later_trans); [exact Hm|done|]. cbn. intros [a|e] w' HI' Hl HP; [by apply Hk|].
  by apply ensures_err.
Qed.

(** What [request] makes of an answer. *)
Definition received (answer : option Msg) (message : Msg) : Prop := answer = Some message.

Lemma ensures_request subj d h w :
  (forall raw, d = DEvent raw -> exists e, spells raw e) ->
  (forall w1 seq raw, later w w1 -> Inv w1 -> ackOf subj = Some seq -> d = ACK \/ d = TERM -> (seq, raw) ∈ stored w1.(server) ->
     exists e, spells raw e /\ e ∈ w1.(delivered)) ->
  ensures (request subj d h)
    (fun message w' => exists w1 w2, later w w1 /\ Inv w1 /\ serves w1.(server) subj d h (Some message) w2.(server) /\ Inv w2 /\ later w1 w2 /\ later w2 w') w.
Proof.
  intros Hd Hack. unfold ensures, request, perform. cbn [bind wp]. intros w1 Hl HI r w2 He.
  destruct (served_inv w1 subj d h r w2 HI He Hd) as [HI2 Hl2]; [intros seq raw; by apply Hack|]. split; [done|]. split; [done|].
  destruct r as [message|]; [|by apply ensures_err]. destruct (131072 <? _); [by apply ensures_err|].
  apply ensures_ok. intros w' Hl' _. exists w1, w2. destruct He as [Hs _]. done.
Qed.

(** A request of the API settles no message. *)
Lemma ensures_api subj v w :
  Inv w ->
  ensures (api subj v)
    (fun output w' => exists w1 w2 message, later w w1 /\ Inv w1 /\ serves w1.(server) subj (DJson v) [] (Some message) w2.(server)
       /\ message.(data).(Events.json) = Some (VObj output) /\ later w1 w') w.
Proof.
  intros HI. eapply ensures_andThen; [apply ensures_request; [done|by intros * _ _ _ [?|?]]|done|].
  intros message w' HI' Hl (w1 & w2 & Hl1 & HI1 & Hs & HI2 & Hl2 & Hl3).
  destruct (Events.json (data message)) as [[| | | | | |output]|] eqn:Ej; try by apply ensures_err.
  apply ensures_ok. intros w'' Hl' _. exists w1, w2, message. split_and!; try done. eauto using later_trans.
Qed.

Lemma ensures_operation {A} (fn : Body A) (Q : A -> World -> Prop) w :
  ensures fn Q w -> Inv w -> (forall a w w', later w w' -> Q a w -> Q a w') ->
  wp exec Inv later (operation fn) (fun r w' => match r with Ok a => Q a w' | Err _ => True end) w.
Proof.
  intros Hf HI HQ. eapply (wp_seq exec Inv later later_refl later_trans); [exact Hf|done|]. cbn. intros [a|e] w' HI' Hl HP.
  - intros w'' Hl' _. eauto.
  - cbn. intros w1 Hl1 HI1 r w2 ->. by split; [|split; [apply later_refl|]].
Qed.

(** ** Publications. *)

(** Deeply equal objects have the same text members. *)
Lemma deepEqual_text a b k t : deepEqual (VObj a) (VObj b) = true -> field k a = VStr t -> field k b = VStr t.
Proof.
  cbn [deepEqual]. intros [_ Hall]%andb_true_iff Hk. unfold field in *. destruct (JsMap.get k a) as [v|] eqn:Ea; [|done]. subst v.
  rewrite forallb_forall in Hall. apply JsMap.get_entry in Ea. specialize (Hall _ (proj1 (list_elem_of_In _ _) Ea)). cbn [fst snd] in Hall.
  destruct (JsMap.get k b) as [w|]; [|done]. destruct w; cbn [deepEqual] in Hall; by apply bool_decide_eq_true in Hall.
Qed.

(** The identifier of an event is in its bytes. *)
Lemma bytes_id e : Events.built e -> exists ms, (Events.bytes e).(Events.json) = Some (VObj ms) /\ Events.idIn (field "id" ms) = Ok e.(Events.e_id).
Proof.
  intros Hb. destruct (Events.built_again e Hb) as [Hd _]. apply Events.decode_reads in Hd as (input & Hj & Hr). exists input. split; [done|].
  by apply Events.rd_id.
Qed.

Lemma deepEqual_id e e' v w :
  Events.built e -> Events.built e' -> (Events.bytes e').(Events.json) = Some v -> (Events.bytes e).(Events.json) = Some w ->
  deepEqual v w = true -> e'.(Events.e_id) = e.(Events.e_id).
Proof.
  intros Hb Hb' Hv Hw Hd. destruct (bytes_id e Hb) as (ms & Hj & Hi). destruct (bytes_id e' Hb') as (ns & Hj' & Hi').
  rewrite Hv in Hj'. rewrite Hw in Hj. injection Hj' as ->. injection Hj as ->. unfold Events.idIn in Hi, Hi'.
  destruct (field "id" ns) as [| | | |t| |] eqn:En; try done. rewrite (deepEqual_text _ _ _ _ Hd En) in Hi. congruence.
Qed.

Lemma publish_secures e w : e ∈ published -> Inv w ->
  wp exec Inv later (publish config parseBase64 e) (fun r w' => match r with Ok _ => secured e w' | Err _ => True end) w.
Proof.
  intros He HI. assert (Hb : Events.built e) by (rewrite Forall_forall in Hbuilt; by apply Hbuilt).
  apply (ensures_operation _ (fun _ => secured e)); [|done|intros _ ? ?; apply secured_later].
  eapply ensures_andThen; [apply ensures_request|done|].
  { intros raw [= <-]. by exists e. }
  { by intros * _ _ _ [?|?]. }
  intros message w' HI' Hl (w1 & w2 & Hl1 & HI1 & Hs & HI2 & Hl2 & Hl3).
  destruct (lenient message) as [ack|] eqn:Ea; [|by apply ensures_err].
  destruct (acknowledged config ack) as [[seq duplicate]|] eqn:Eack; [|by apply ensures_err].
  pose proof (publish_stores _ _ _ _ _ _ _ _ Hs Ea Eack) as Hst.
  eapply (ensures_andThen _ _ (fun _ => secured e)); [|done|intros [] w'' _ _ Hsec; apply ensures_ok; intros ? ? _; by eapply secured_later].
  destruct duplicate.
  - destruct Hst as (original & Hst). eapply ensures_andThen; [by apply ensures_api|done|].
    intros output w3 HI3 Hl4 (w4 & w5 & msg & Hl5 & HI4 & Hs' & Hj & Hl6).
    destruct (prop "data" (field "message" output)) as [| | | |text| |] eqn:Ep; try by apply ensures_err.
    destruct (parseBase64 text) as [v|] eqn:Ev; [|by apply ensures_err].
    destruct (Events.json (Events.bytes e)) as [sent|] eqn:Es; [|by apply ensures_err].
    destruct (deepEqual v sent) eqn:Edeep; [|by apply ensures_err]. cbn [negb].
    assert (Hst4 : (seq, original) ∈ stored (server w4)) by (apply (later_stored w' w4 Hl5), (later_stored w2 w' Hl3), Hst).
    pose proof (get_stored _ _ _ _ _ _ _ Hs' Hj Ep Ev _ Hst4) as Hjson.
    destruct (inv_requested _ HI4 _ (inv_stored _ HI4 _ _ Hst4)) as (e' & Hin & ->).
    apply ensures_ok. intros w6 Hl7 _. exists seq, (Events.bytes e'), e'.
    split; [apply (later_stored w3 w6 Hl7), (later_stored w4 w3 Hl6), Hst4|]. split; [done|].
    eapply deepEqual_id; [exact Hb| |exact Hjson|exact Es|exact Edeep]. rewrite Forall_forall in Hbuilt. by apply Hbuilt.
  - apply ensures_ok. intros w3 Hl4 _. exists seq, (Events.bytes e), e.
    split; [apply (later_stored w' w3 Hl4), (later_stored w2 w' Hl3), Hst|]. done.
Qed.

(** ** Transfers. *)

Lemma NAK_settles_nothing : NAK config = ACK \/ NAK config = TERM -> False.
Proof. intros [Hn|Hn]; apply (f_equal (fun d => match d with DText s => head s | _ => None end)) in Hn; vm_compute in Hn; discriminate Hn. Qed.

Lemma transfer_keeps w : Inv w -> wp exec Inv later (transfer config) (fun _ _ => True) w.
Proof.
  intros HI. eapply wp_weaken; [|apply (ensures_operation _ (fun _ _ => True)); [|done|done]]; [done|].
  eapply ensures_andThen; [apply ensures_request; [done|by intros * _ _ _ [?|?]]|done|].
  intros message w' HI' Hl (w1 & w2 & Hl1 & HI1 & Hs & HI2 & Hl2 & Hl3).
  destruct (_ || _) eqn:Ecode; [by apply ensures_ok|]. destruct (bool_decide_reflect (reply message = [])) as [|Hreply]; [by apply ensures_err|].
  destruct (next_kept _ _ _ Hs Hreply Ecode) as (seq & Hkept & Hseq). pose proof (kept_stored _ _ Hkept) as Hst.
  destruct (inv_requested _ HI1 _ (inv_stored _ HI1 _ _ Hst)) as (event & Hspells). rewrite (spells_decode _ _ Hspells).
  assert (Hst' : (seq, data message) ∈ stored (server w')) by (apply (later_stored w2 w' Hl3), (later_stored w1 w2 Hl2), Hst).
  unfold offer, perform. unfold ensures. cbn [bind wp]. intros w3 Hlw3 HI3 r w4 ->.
  assert (HI4 : Inv (mkWorld (server w3) (if durably r then event :: delivered w3 else delivered w3) (requested w3))).
  { destruct HI3 as [Ha Hb Hc Hd]. destruct (durably r); constructor; cbn [server delivered requested]; try done.
    - intros s raw Hm. destruct (Hc s raw Hm) as [?|[?|(e & ? & ?)]]; [by left|by right; left|right; right]. exists e. split; [done|by right].
    - intros e [->|He]%elem_of_cons; [apply Hspells|by apply Hd]. }
  assert (Hl4 : later w3 (mkWorld (server w3) (if durably r then event :: delivered w3 else delivered w3) (requested w3))).
  { constructor; cbn [server delivered requested]; try done. intros e He. destruct (durably r); [by right|done]. }
  split; [done|]. split; [done|].
  set (w5 := mkWorld _ _ _) in *.
  assert (Hnak : forall f, ensures (andThen (request (reply message) (NAK config) []) (fun _ => throw f)) (fun (_ : bool) _ => True) w5).
  { intros f. eapply ensures_andThen; [apply ensures_request; [done|by intros * _ _ _ ?%NAK_settles_nothing]|done|]. intros. apply ensures_err. }
  destruct r as [[rc|f]|t]; [|apply Hnak|destruct t as [|[]]; apply ensures_err].
  destruct (negb (rc_durable rc)) eqn:Edur; [apply Hnak|]. apply negb_false_iff in Edur. cbn [orb].
  destruct (negb (bool_decide _)); [apply Hnak|].
  eapply ensures_andThen; [apply ensures_request; [done|]|done|intros; by apply ensures_ok].
  intros w6 seq' raw Hl6 HI6 Hack _ Hraw. assert (seq' = seq) as -> by congruence.
  exists event. assert (raw = data message) as ->.
  { eapply stored_once; [exact Hraw|]. apply (later_stored w5 w6 Hl6). cbn [server w5]. by apply (later_stored w' w3 Hlw3). }
  split; [done|]. apply (later_delivered w5 w6 Hl6). unfold w5. cbn [delivered durably]. rewrite Edur. by left.
Qed.

Lemma poll_keeps n w : Inv w -> wp exec Inv later (poll config n) (fun _ _ => True) w.
Proof.
  revert w. induction n as [|n IH]; intros w HI; [done|]. cbn [poll].
  eapply (wp_seq exec Inv later later_refl later_trans); [by apply transfer_keeps|done|]. intros _ w' HI' _ _. unfold perform. cbn [bind wp].
  intros w1 Hl HI1 r w2 ->. split; [done|]. split; [apply later_refl|]. destruct r; [done|by apply IH].
Qed.
End Server.

Arguments server {config parseBase64 H}.
Arguments delivered {config parseBase64 H}.
Arguments requested {config parseBase64 H}.
Arguments State {config parseBase64}.
Arguments stored {config parseBase64 _}.
Arguments kept {config parseBase64 _}.
Arguments discarded {config parseBase64 _}.
Arguments age {config parseBase64 _}.
Arguments size {config parseBase64 _}.

(** ** Everything at once. *)
Section Together.
  Context (config : Config) (parseBase64 : jstring -> option JsValue) (server_ : JetStream config parseBase64).

(** The dispatcher's publications, and the workers that poll the stream. *)
Inductive Job : Type := Publishes (event : Events.Envelope) | Polls (turns : nat).

Definition program (job : Job) : Prog Ans (option (Res Receipt)) :=
  match job with
  | Publishes event => bind (publish config parseBase64 event) (fun r => Ret (Some r))
  | Polls turns => bind (poll config turns) (fun _ => Ret None)
  end.

Definition eventsOf (jobs : list Job) : list Events.Envelope :=
  List.flat_map (fun job => match job with Publishes e => [e] | Polls _ => [] end) jobs.

Lemma job_published jobs i e : jobs !! i = Some (Publishes e) -> e ∈ eventsOf jobs.
Proof.
  intros Hi. apply list_elem_of_In, List.in_flat_map. exists (Publishes e). split; [|by left].
  apply list_elem_of_In. by eapply list_elem_of_lookup_2.
Qed.

(** A message that is still to be delivered, or whose event is in the sink; or
    that the stream has discarded, past one of its limits. *)
Definition accounted (seq : Z) (e : Events.Envelope) (w : World config parseBase64) : Prop :=
  (seq, Events.bytes e) ∈ kept (server w)
  \/ e ∈ delivered w
  \/ ((seq, Events.bytes e) ∈ discarded (server w)
      /\ (maxAgeNanos config < age (server w) seq
          \/ maxStreamBytes config < bytesFrom size (stored (server w)) seq)).

(** C18. Within the limits of its stream, the broker loses no event and makes none
    up. However publications, workers, the server and the sink interleave, whichever
    requests fail before or after they took effect, and whenever commands stop: an
    event whose publication was acknowledged, or one with its identifier, was stored
    by the stream. Every message stored is the bytes of a published event and is
    kept for the consumer until the sink holds that event, never acknowledged or
    terminated before; unless the stream discards it, which it does only once the
    message is older than the [max_age] provisioned, or once the messages from it on
    are more than the [max_bytes] provisioned. Only published events reach the
    sink. *)
Theorem relay_never_loses (jobs : list Job) (w : World config parseBase64) (ps : list (Prog Ans (option (Res Receipt))))
    (Hbuilt : Forall Events.built (eventsOf jobs))
    (Hrun : rtc (pool_step (exec config parseBase64)) (start config parseBase64, program <$> jobs) (w, ps)) :
  (forall i e receipt, jobs !! i = Some (Publishes e) -> ps !! i = Some (Ret (Some (Ok receipt))) ->
     exists seq e', e' ∈ eventsOf jobs /\ e'.(Events.e_id) = e.(Events.e_id)
       /\ (seq, Events.bytes e') ∈ stored (server w) /\ accounted seq e' w)
  /\ (forall seq raw, (seq, raw) ∈ stored (server w) ->
        exists e, e ∈ eventsOf jobs /\ raw = Events.bytes e /\ accounted seq e w)
  /\ (forall e, e ∈ delivered w -> e ∈ eventsOf jobs).
Proof.
  set (post := fun (i : nat) (r : option (Res Receipt)) w' =>
    match jobs !! i, r with Some (Publishes e), Some (Ok _) => secured config parseBase64 (eventsOf jobs) e w' | _, _ => True end).
  destruct (pool_safe (exec config parseBase64) (Inv config parseBase64 (eventsOf jobs)) (later config parseBase64)
    (later_refl config parseBase64) (later_trans config parseBase64) post _ _ _ _ Hrun) as (HI & _ & Hends).
  - apply Inv_start.
  - intros i p Hp. apply list_lookup_fmap_Some in Hp as (job & -> & Hi). unfold post. rewrite Hi. destruct job as [e|n]; cbn [program].
    + eapply wp_seq; [apply later_refl|apply later_trans|apply publish_secures; [done|by eapply job_published|apply Inv_start]|apply Inv_start|].
      cbn. intros [r|f] w1 _ _ Hsec; intros w2 Hl _; [by eapply secured_later|done].
    + eapply wp_seq; [apply later_refl|apply later_trans|apply poll_keeps; [done|apply Inv_start]|apply Inv_start|]. done.
  - assert (Hkept : forall seq e, (seq, Events.bytes e) ∈ stored (server w) -> e ∈ eventsOf jobs -> accounted seq e w).
    { intros seq e Hst He. destruct (inv_kept _ _ _ _ HI _ _ Hst) as [Hk|[Hk|(e2 & Hsp2 & Hdel)]]; [by left| |].
      - right. right. split; [done|]. exact (discarded_over _ _ _ _ Hk).
      - right. left. assert (Hsp : spells (eventsOf jobs) (Events.bytes e) e) by done.
        apply (spells_decode _ Hbuilt) in Hsp, Hsp2. rewrite Hsp in Hsp2. by injection Hsp2 as <-. }
    split_and!.
    + intros i e receipt Hi Hr. specialize (Hends i _ Hr). unfold post in Hends. rewrite Hi in Hends.
      destruct Hends as (seq & raw & e' & Hst & [Hin ->] & Hid). exists seq, e'. split_and!; [done..|]. by apply Hkept.
    + intros seq raw Hst. destruct (inv_requested _ _ _ _ HI _ (inv_stored _ _ _ _ HI _ _ Hst)) as (e & He & ->). exists e.
      split; [done|]. split; [done|]. by apply Hkept.
    + apply (inv_delivered _ _ _ _ HI).
Qed.
End Together.

(** ** A small server.

    Messages are numbered from 1 in the order they were stored; the subject of a
    message's reply is one unit, its number. The oldest messages go when those from
    them on are more than the limit; they do not age. *)
Section Small.
  Context (config : Config).

(** A message, the identifier it was sent under, and whether it was settled. *)
Record Entry : Type := mkEntry { en_raw : Events.Raw; en_id : jstring; en_settled : bool }.
Abbreviation Small := (list Entry).

Definition numbered (keep : Z -> Entry -> bool) (s : Small) : list (Z * Events.Raw) :=
  (fun p => (p.1, p.2.(en_raw))) <$> filter (fun p => keep p.1 p.2 = true) (imap (fun i e => (Z.of_nat i + 1, e)) s).
Definition all_ : Small -> list (Z * Events.Raw) := numbered (fun _ _ => true).
Definition weight (raw : Events.Raw) : Z := Z.max 0 raw.(Events.byteLength).
Definition over (s : Small) (seq : Z) : bool := maxStreamBytes config <? bytesFrom weight (all_ s) seq.
Definition open_ (s : Small) : list (Z * Events.Raw) := numbered (fun seq e => negb e.(en_settled) && negb (over s seq)) s.
Definition gone (s : Small) : list (Z * Events.Raw) := numbered (fun seq _ => over s seq) s.
Definition namedBy (subj : jstring) : option Z := match subj with [c] => Some c | _ => None end.

(** An acknowledgement, and an answer without content. *)
Definition ackOf_ (seq : Z) (duplicate : bool) : Msg :=
  let v := VObj ([("stream"%string, VStr config.(stream)); ("seq"%string, VNum (Int seq))]
                 ++ if duplicate then [("duplicate"%string, VBool true)] else []) in
  mkMsg (Events.mkRaw 64 (Some v)) (Some v) 0 [].
Definition refusal : Msg := let v := VObj [("error"%string, VObj [])] in mkMsg (Events.mkRaw 16 (Some v)) (Some v) 0 [].
Definition nothing (code : Z) : Msg := mkMsg (Events.mkRaw 0 None) None code [].

(** The number of the message stored under an identifier. *)
Definition numberOf (id : jstring) (s : Small) : option Z :=
  (fun p => Z.of_nat p.1 + 1) <$> list_find (fun e => e.(en_id) = id) s.

Definition settle (seq : Z) (s : Small) : Small :=
  imap (fun i e => if Z.of_nat i + 1 =? seq then mkEntry e.(en_raw) e.(en_id) true else e) s.

Definition serve (s : Small) (subj : jstring) (d : Data) (h : list (string * jstring)) : option Msg * Small :=
  match d with
  | DEvent raw =>
      let id := default [] (JsMap.get "Nats-Msg-Id"%string h) in
      match numberOf id s with
      | Some seq => (Some (ackOf_ seq true), s)
      | None =>
          if maxStreamBytes config <? weight raw then (Some refusal, s)
          else (Some (ackOf_ (Z.of_nat (length s) + 1) false), s ++ [mkEntry raw id false])
      end
  | DText t =>
      match namedBy subj with
      | Some seq => (Some (nothing 0), if bool_decide (t = js "+ACK") || bool_decide (t = js "+TERM") then settle seq s else s)
      | None => (None, s)
      end
  | DJson _ =>
      if bool_decide (subj = nextSubject config) then
        (Some (match open_ s with (seq, raw) :: _ => mkMsg raw raw.(Events.json) 0 [seq] | [] => nothing 404 end), s)
      else (None, s)
  end.

(** Any request may also fail, before or after it took effect. *)
Definition mayServe (s : Small) (subj : jstring) (d : Data) (h : list (string * jstring)) (r : option Msg) (s' : Small) : Prop :=
  (r, s') = serve s subj d h \/ (r = None /\ (s' = s \/ s' = (serve s subj d h).2)).

Lemma numbered_elem keep s seq raw :
  (seq, raw) ∈ numbered keep s <-> exists i e, s !! i = Some e /\ keep (Z.of_nat i + 1) e = true /\ seq = Z.of_nat i + 1 /\ raw = e.(en_raw).
Proof.
  unfold numbered. rewrite list_elem_of_fmap. split.
  - intros ([q e] & [= -> ->] & [Hk (i & Hi)%list_elem_of_lookup]%list_elem_of_filter). cbn [fst snd] in *.
    apply list_lookup_imap_Some in Hi as (x & Hx & [= -> ->]). by exists i, x.
  - intros (i & e & Hi & Hk & -> & ->). exists (Z.of_nat i + 1, e). split; [done|]. apply list_elem_of_filter. split; [done|].
    apply list_elem_of_lookup. exists i. by rewrite list_lookup_imap, Hi.
Qed.

Lemma settle_lookup seq s i e :
  s !! i = Some e -> settle seq s !! i = Some (if Z.of_nat i + 1 =? seq then mkEntry e.(en_raw) e.(en_id) true else e).
Proof. intros Hi. unfold settle. by rewrite list_lookup_imap, Hi. Qed.

(** The next state: the same messages, a new one, or one of them settled. *)
Lemma next_state s subj d h r s' : mayServe s subj d h r s' ->
  s' = s \/ (exists raw id, d = DEvent raw /\ weight raw <= maxStreamBytes config /\ s' = s ++ [mkEntry raw id false])
  \/ (exists seq, namedBy subj = Some seq /\ (d = ACK \/ d = TERM) /\ s' = settle seq s).
Proof.
  intros Hm. assert (Hs : s' = s \/ s' = (serve s subj d h).2) by (destruct Hm as [E|[_ [->| ->]]]; [right; by rewrite <- E|by left|by right]).
  destruct Hs as [->| ->]; [by left|]. clear Hm r. destruct d as [v|t|raw]; cbn [serve].
  - left. by destruct (bool_decide _).
  - destruct (namedBy subj) as [seq|] eqn:En; [|by left]. cbn [snd]. unfold ACK, TERM.
    destruct (bool_decide_reflect (t = js "+ACK")) as [->|]; [right; right; eauto|].
    destruct (bool_decide_reflect (t = js "+TERM")) as [->|]; [right; right; eauto|by left].
  - destruct (numberOf _ s); cbn [snd]; [by left|]. destruct (Z.ltb_spec (maxStreamBytes config) (weight raw)); [by left|].
    right. left. eauto.
Qed.

(** Every message stays. *)
Lemma next_lookup s subj d h r s' i e : mayServe s subj d h r s' -> s !! i = Some e ->
  exists e', s' !! i = Some e' /\ e'.(en_raw) = e.(en_raw)
    /\ (e' = e \/ (namedBy subj = Some (Z.of_nat i + 1) /\ (d = ACK \/ d = TERM))).
Proof.
  intros Hs Hi. destruct (next_state _ _ _ _ _ _ Hs) as [->|[(raw & id & -> & _ & ->)|(seq & Hn & Hd & ->)]].
  - exists e. auto.
  - exists e. split; [by apply lookup_app_l_Some|auto].
  - eexists. split; [by apply settle_lookup|]. destruct (Z.of_nat i + 1 =? seq) eqn:E; breflect; [subst seq|]; auto.
Qed.

(** The messages stored, and what they weigh, from one state to the next. *)
Lemma all_pairs s : all_ s = imap (fun i e => (Z.of_nat i + 1, e.(en_raw))) s.
Proof.
  unfold all_, numbered.
  assert (Hall : forall l : list (Z * Entry), filter (fun _ => true = true) l = l).
  { induction l as [|x l IH]; [done|]. rewrite filter_cons_True by done. by rewrite IH. }
  rewrite Hall. apply list_eq. intros i.
  rewrite list_lookup_fmap, !list_lookup_imap. by destruct (s !! i).
Qed.

Lemma all_settle seq s : all_ (settle seq s) = all_ s.
Proof.
  rewrite !all_pairs. apply list_eq. intros i. unfold settle. rewrite !list_lookup_imap. destruct (s !! i); [|done]. cbn.
  by destruct (_ =? _).
Qed.

Lemma all_app s e : all_ (s ++ [e]) = all_ s ++ [(Z.of_nat (length s) + 1, e.(en_raw))].
Proof. rewrite !all_pairs, imap_app. cbn. by rewrite Nat.add_0_r. Qed.

Lemma bytesFrom_app l m seq : bytesFrom weight (l ++ [m]) seq = bytesFrom weight l seq + (if seq <=? m.1 then weight m.2 else 0).
Proof.
  unfold bytesFrom. rewrite foldr_app. cbn. induction l as [|x l IH]; cbn; [destruct (_ <=? _); lia|]. rewrite IH. destruct (seq <=? x.1); lia.
Qed.

Lemma over_stays s subj d h r s' seq : mayServe s subj d h r s' -> over s seq = true -> over s' seq = true.
Proof.
  intros Hs. unfold over. destruct (next_state _ _ _ _ _ _ Hs) as [->|[(raw & id & _ & _ & ->)|(q & _ & _ & ->)]]; [done| |by rewrite all_settle].
  rewrite all_app, bytesFrom_app, !Z.ltb_lt. cbn. unfold weight. destruct (_ <=? _); lia.
Qed.

(** A message that was just stored is not over the limit. *)
Lemma over_last s raw id :
  weight raw <= maxStreamBytes config -> over (s ++ [mkEntry raw id false]) (Z.of_nat (length s) + 1) = false.
Proof.
  intros Hw. unfold over. rewrite all_app, bytesFrom_app, Z.ltb_ge. cbn [fst snd en_raw]. rewrite Z.leb_refl.
  enough (H : forall l, Forall (fun m => m.1 < Z.of_nat (length s) + 1) l -> bytesFrom weight l (Z.of_nat (length s) + 1) = 0).
  { rewrite H; [lia|]. apply Forall_forall. intros [q x] (i & e & Hi & _ & -> & _)%numbered_elem. cbn. apply lookup_lt_Some in Hi. lia. }
  induction 1 as [|m l Hm _ IH]; [done|]. cbn. by rewrite (proj2 (Z.leb_gt _ _) Hm).
Qed.

Lemma ack_read n flag seq duplicate :
  acknowledged config (VObj ([("stream"%string, VStr config.(stream)); ("seq"%string, VNum (Int n))]
                             ++ if flag : bool then [("duplicate"%string, VBool true)] else [])) = Some (seq, duplicate) ->
  n = seq /\ flag = duplicate.
Proof.
  intros Ha. unfold acknowledged, field in Ha. destruct flag; cbn [app JsMap.get] in Ha;
    repeat first [rewrite decide_True in Ha by done | rewrite decide_False in Ha by done];
    rewrite (bool_decide_true (VStr (stream config) = _)) in Ha by done; cbn [truthy orb negb] in Ha;
    destruct (isSafeInteger (Int n) && (0 <? n)); by simplify_eq.
Qed.

#[export] Program Instance small_server : JetStream config (fun _ => None) := {|
  State := Small; empty_ := []; stored := all_; kept := open_; discarded := gone; age := fun _ _ => 0; size := weight;
  ackOf := namedBy; serves := mayServe
|}.
Next Obligation. done. Qed.
Next Obligation. cbn. intros s [seq raw] (i & e & ? & ? & ? & ?)%numbered_elem. apply numbered_elem. eauto 10. Qed.
Next Obligation. cbn. intros s seq a b (i & m & Hi & _ & -> & ->)%numbered_elem (j & n & Hj & _ & Hij & ->)%numbered_elem. assert (i = j) as -> by lia. congruence. Qed.
Next Obligation.
  cbn. intros s subj d h r s' [seq raw] Hs (i & e & Hi & _ & -> & ->)%numbered_elem.
  destruct (next_lookup _ _ _ _ _ _ _ _ Hs Hi) as (e' & He' & <- & _). apply numbered_elem. eauto 10.
Qed.
Next Obligation.
  cbn. intros s subj d h r s' [seq raw] Hs (i & e & Hi & _ & -> & ->)%numbered_elem.
  destruct (s !! i) as [x|] eqn:Ex.
  - left. destruct (next_lookup _ _ _ _ _ _ _ _ Hs Ex) as (e' & He' & Hraw & _). apply numbered_elem. exists i, x. rewrite Hi in He'. split_and!; try done. by simplify_eq.
  - right. destruct (next_state _ _ _ _ _ _ Hs) as [->|[(raw & id & -> & Hw & ->)|(seq & _ & _ & ->)]]; [congruence| |].
    + apply lookup_app_Some in Hi as Hi'. destruct Hi' as [?|[_ Hl]]; [congruence|]. apply list_lookup_singleton_Some in Hl as [Hl <-].
      split; [done|]. apply numbered_elem. eexists i, _. split; [exact Hi|]. split; [|done]. cbn [en_settled negb andb].
      replace i with (length s) by (apply lookup_ge_None in Ex; lia). by rewrite over_last.
    + unfold settle in Hi. rewrite list_lookup_imap, Ex in Hi. done.
Qed.
Next Obligation.
  cbn. intros s subj d h r s' [seq raw] Hs (i & e & Hi & Hk & -> & ->)%numbered_elem. apply andb_true_iff in Hk as [Hk _].
  destruct (next_lookup _ _ _ _ _ _ _ _ Hs Hi) as (e' & He' & <- & [->|[Hn Hd]]); [|by right; left].
  destruct (over s' (Z.of_nat i + 1)) eqn:Eo; [right; right|left]; apply numbered_elem; exists i, e; [done|by rewrite Hk, Eo].
Qed.
Next Obligation.
  cbn. intros s subj d h r s' [seq raw] Hs (i & e & Hi & Hk & -> & ->)%numbered_elem.
  destruct (next_lookup _ _ _ _ _ _ _ _ Hs Hi) as (e' & He' & <- & _). apply numbered_elem. exists i, e'. split_and!; try done. by eapply over_stays.
Qed.
Next Obligation.
  cbn. intros s [seq raw] (i & e & Hi & Hk & -> & ->)%numbered_elem. right. by apply Z.ltb_lt.
Qed.
Next Obligation.
  cbn. intros s raw h m ack seq duplicate s' [E|[[=] _]] Hl Hack. cbn [serve] in E.
  destruct (numberOf _ s) as [n|] eqn:En; [|destruct (_ <? _)]; injection E as -> ->.
  - cbn [ackOf_ lenient] in Hl. injection Hl as <-.
    apply (ack_read _ true) in Hack as [<- <-]. unfold numberOf in En. destruct (list_find _ s) as [[i e]|] eqn:Ef; [|done]. injection En as <-. apply list_find_Some in Ef as (Hi & _).
    exists e.(en_raw). apply numbered_elem. eauto 10.
  - cbn [refusal lenient] in Hl. by injection Hl as <-.
  - cbn [ackOf_ lenient] in Hl. injection Hl as <-.
    apply (ack_read _ false) in Hack as [<- <-]. apply numbered_elem. exists (length s), (mkEntry raw (default [] (JsMap.get "Nats-Msg-Id"%string h)) false).
    split; [|done]. by rewrite lookup_app_r, Nat.sub_diag.
Qed.
Next Obligation.
  cbn. intros s m s' [E|[[=] _]] Hr Hc. cbn [serve nextInput] in E. rewrite bool_decide_true in E by done.
  destruct (open_ s) as [|[seq raw] l] eqn:Eo; injection E as -> ->; [done|]. exists seq. split; [left|done].
Qed.
Next Obligation. done. Qed.
End Small.

(** ** A run: an event is published, and a worker moves it to the sink. *)
Definition sample_config : Config := mkConfig (js "nats://localhost:4222") (Int 1000) (js "n2f_events") (js "audit") None None None None None.
Definition sample_jobs : list Job := [Publishes Events.sample_envelope; Polls 1].

Definition relay_port (n : nat) (op : Op) (w : World sample_config (fun _ => None)) : option (Ans op * World sample_config (fun _ => None)) :=
  match op with
  | askServer subj d h =>
      let '(r, s) := serve sample_config w.(server) subj d h in
      Some (r, mkWorld _ _ s w.(delivered) (match d with DEvent raw => raw :: w.(requested) | _ => w.(requested) end))
  | askSink event => Some (Returned (Ok (mkReceipt event.(Events.e_id) true)), mkWorld _ _ w.(server) (event :: w.(delivered)) w.(requested))
  | askAborted => Some (false, w)
  end.

Lemma relay_port_exec n op w r w' : relay_port n op w = Some (r, w') -> exec sample_config (fun _ => None) op w r w'.
Proof.
  destruct op; cbn.
  - destruct (serve sample_config (server w) subject0 d headers) as [r0 s] eqn:E. intros [= <- <-]. cbn. split; [|done]. left. by rewrite E.
  - by intros [= <- <-].
  - by intros [= <- <-].
Qed.

(** Three requests and the answer of the sink. *)
Definition sample_world : option (list (Prog Ans (option (Res Receipt))) * World sample_config (fun _ => None)) :=
  schedule relay_port 0 [0; 1; 1; 1]%nat (program sample_config (fun _ => None) <$> sample_jobs) (start sample_config (fun _ => None)).

Lemma sample_world_ends :
  match sample_world with
  | Some (ps, w) => ps !! 0%nat = Some (Ret (Some (Ok (mkReceipt Events.sample_envelope.(Events.e_id) true))))
      /\ kept w.(server) = [] /\ discarded w.(server) = []
  | None => False
  end.
Proof. vm_compute. exact (conj eq_refl (conj eq_refl eq_refl)). Qed.

Lemma sample_world_runs ps w : sample_world = Some (ps, w) ->
  rtc (pool_step (exec sample_config (fun _ => None)))
    (start sample_config (fun _ => None), program sample_config (fun _ => None) <$> sample_jobs) (w, ps).
Proof. intros E. eapply (schedule_runs _ relay_port); [exact relay_port_exec|exact E]. Qed.

Lemma relay_never_loses_witness :
  match sample_world with
  | Some (ps, w) => ps !! 0%nat = Some (Ret (Some (Ok (mkReceipt Events.sample_envelope.(Events.e_id) true))))
      /\ kept w.(server) = [] /\ discarded w.(server) = [] /\ Events.sample_envelope ∈ eventsOf sample_jobs
      /\ exists e', e' ∈ eventsOf sample_jobs /\ e'.(Events.e_id) = Events.sample_envelope.(Events.e_id) /\ e' ∈ w.(delivered)
  | None => False
  end.
Proof.
  pose proof sample_world_ends as Hends. destruct sample_world as [[ps w]|] eqn:E; [|done]. destruct Hends as (Hr & Hk & Hg).
  destruct (relay_never_loses sample_config (fun _ => None) (small_server sample_config) sample_jobs w ps) as (Hsec & _);
    [apply Forall_cons; split; [exact EventRuns.EventRuns.sample_built|by apply Forall_nil]|by apply sample_world_runs|].
  destruct (Hsec 0%nat Events.sample_envelope _ eq_refl Hr) as (seq & e' & He' & Hid & _ & Hkd). unfold accounted in Hkd. rewrite Hk, Hg in Hkd.
  split; [exact Hr|]. split; [exact Hk|]. split; [exact Hg|]. split; [by left|]. exists e'. split; [exact He'|]. split; [exact Hid|].
  destruct Hkd as [Hm|[Hd|[Hm _]]]; [exfalso; exact (not_elem_of_nil _ Hm)|exact Hd|exfalso; exact (not_elem_of_nil _ Hm)].
Defined.

(** The limit at work: in a stream with room for one message, the second one
    published takes the place of the first, which nobody had been given. *)
Definition other_event : Events.Envelope :=
  let e := Events.sample_envelope in
  Events.mkEnvelope (Provenance.sample_uuid "d") e.(Events.e_doc) e.(Events.e_work) e.(Events.e_type) e.(Events.e_occurredAtMs)
    e.(Events.e_subject) e.(Events.e_tenant).
Definition narrow_config : Config :=
  mkConfig (js "nats://localhost:4222") (Int 1000) (js "n2f_events") (js "audit") None None None
    (Some (weight (Events.bytes Events.sample_envelope))) None.

Example second_discards_first :
  let send e s := (serve narrow_config s (subject narrow_config) (DEvent (Events.bytes e)) (publishHeaders narrow_config e)).2 in
  let s := send other_event (send Events.sample_envelope []) in
  ((fun m => m.1) <$> gone narrow_config s) = [1] /\ ((fun m => m.1) <$> open_ narrow_config s) = [2].
Proof. vm_compute. exact (conj eq_refl eq_refl). Qed.
End Relay.
