(* ===== verification/Sql.v ===== *)
(** * Statements of a transaction.

    The PostgreSQL adapters of the modules run a few statements on a few tables
    inside [Database.transaction].  A callback's body may answer, return a
    failure early, or throw what the server reports; [catching] is its
    [try]/[catch], [callback] what [transaction] makes of it.  A table is a map
    from identifiers to rows, with the constraints of its schema: CHECKs, the
    primary key and unique indexes. *)
From S2P Require Import Prelude JsMap Errors Ids Json Text JsonText Pagination Provenance Events Writers Postgres Inbox EventStore.

Module Sql.
Import Postgres.Database(Thrown, DatabaseError, Other, violatedUnique).

Inductive Outcome (A : Type) : Type := Value (a : A) | Refused (f : Failure) | Raised (e : Thrown).
Arguments Value {A}.
Arguments Refused {A}.
Arguments Raised {A}.

(** ** Bodies of transactions. *)

Definition Body (S A : Type) : Type := S -> S * Outcome A.

Definition ret {S A} (a : A) : Body S A := fun s => (s, Value a).
Definition refuse {S A} (f : Failure) : Body S A := fun s => (s, Refused f).
#[global] Instance Body_bind {S} : MBind (Body S) := fun A B k b s =>
  match b s with
  | (s', Value a) => k a s'
  | (s', Refused f) => (s', Refused f)
  | (s', Raised e) => (s', Raised e)
  end.

(** [const x = ...; if (!x.ok) return x]. *)
Definition checked {S A} (r : Res A) : Body S A := match r with Ok a => ret a | Err f => refuse f end.

(** [try { ... } catch (cause) { return err(handler(cause)) }]. *)
Definition catching {S A} (handler : Thrown -> Failure) (b : Body S A) : Body S A := fun s =>
  match b s with
  | (s', Raised e) => (s', Refused (handler e))
  | r => r
  end.

(** What [transaction] makes of its callback. *)
Definition callback {S A} (b : Body S A) (s : S) : S * Res A :=
  match b s with
  | (s', Value a) => (s', Ok a)
  | (s', Refused f) => (s', Err f)
  | (s', Raised e) => (s', Err (Database.map e))
  end.

(** A statement on one of the tables. *)
Definition on {S T A} (get : S -> T) (put : T -> S -> S) (b : Body T A) : Body S A := fun s =>
  let '(t, r) := b (get s) in (put t s, r).

(** [enqueue(transaction, event)], at the server's time [now]. *)
Definition enqueue {J} `{Jdec : EqDecision J} (jsonb : Events.Raw -> option J) (now : Z) (event : Events.Envelope)
    : Body Outbox.Outbox unit := fun o =>
  match Outbox.enqueue jsonb event now o with
  | (o', Ok u) => (o', Value u)
  | (o', Err f) => (o', Refused f)
  end.

(** The same for each event, stopping at a failure. *)
Fixpoint enqueueAll {J} `{Jdec : EqDecision J} (jsonb : Events.Raw -> option J) (now : Z) (events : list Events.Envelope) : Body Outbox.Outbox unit :=
  match events with
  | [] => ret tt
  | event :: rest => _ ← enqueue jsonb now event; enqueueAll jsonb now rest
  end.

(** ** Values of columns: the SQLSTATE of one the server does not take. *)

(** The greatest [integer] of the server. *)
Definition INTEGER_MAX : Z := 2147483647.
Definition integer (n : Z) : option string := if (- INTEGER_MAX - 1 <=? n) && (n <=? INTEGER_MAX) then None else Some "22003"%string.

(** A [timestamptz] starts in 4714 BC; it ends after every [Date]. *)
Definition TIMESTAMP_MIN : Z := -210866803200000.
Definition timestamp (d : Date) : option string :=
  match d with
  | InvalidDate => Some "22007"%string
  | DateAt t => if TIMESTAMP_MIN <=? t then None else Some "22008"%string
  end.
Definition nullableTimestamp (d : option Date) : option string := match d with Some d => timestamp d | None => None end.

(** [text] holds every character but U+0000. *)
Definition text (s : jstring) : option string := if existsb (Z.eqb 0) s then Some "22021"%string else None.
Definition nullableText (s : option jstring) : option string := match s with Some s => text s | None => None end.

(** Strings travel as UTF-8: a lone surrogate arrives as U+FFFD. *)
Definition sent (s : jstring) : jstring := default s (fromUtf8 (utf8 s)).

(** [char_length] counts code points. *)
Fixpoint charLength (s : jstring) : Z :=
  match s with
  | [] => 0
  | c :: r => (if isLow c then 0 else 1) + charLength r
  end.

(** [version=version+1] may overflow. *)
Definition refusing (version : num) (checks : bool) : option string :=
  match integer (num_val version) with
  | Some code => Some code
  | None => if checks then None else Some "23514"%string
  end.

(** What columns hold: text that [text] keeps as it is, and times from
    [TIMESTAMP_MIN] on. *)
Definition plain (s : jstring) : Prop := clean s /\ Forall (fun c => c <> 0) s.
Definition timed (d : Date) : Prop := TIMESTAMP_MIN <= getTime d.
Definition timedOpt (d : option Date) : Prop := forall t, d = Some t -> timed t.

(** The parameters of a statement are read before it runs. *)
Definition parameters {S} (refusals : list (option string)) : Body S unit :=
  match find_first (fun r => negb (isNull r)) refusals with
  | Some (Some code) => fun s => (s, Raised (DatabaseError code None))
  | _ => ret tt
  end.

(** ** Tables. *)
Section Table.
  Context {R : Type}.
  Abbreviation Table := (list (ID * R)).

(** The SQLSTATE of a row whose values overflow or that a CHECK refuses, the
    name of the primary key, and the unique indexes: each with its name and when
    two rows clash in it. *)
Record Schema : Type := mkSchema { refuses : R -> option string; pkey : string; uniques : list (string * (R -> R -> bool)) }.

Definition uniqueViolation (name : string) : Thrown := DatabaseError "23505" (Some name).

Definition clashes (id : ID) (row : R) (t : Table) (index : string * (R -> R -> bool)) : bool :=
  existsb (fun e => negb (bool_decide (e.1 = id)) && index.2 e.2 row) t.

(** Why the server refuses to store the row under [id] beside the others. *)
Definition violation (sch : Schema) (id : ID) (row : R) (t : Table) : option Thrown :=
  if sch.(refuses) row is Some code then Some (DatabaseError code None)
  else uniqueViolation ∘ fst <$> find_first (clashes id row t) sch.(uniques).

(** [INSERT INTO ...]. *)
Definition insert (sch : Schema) (id : ID) (row : R) : Body Table unit := fun t =>
  if sch.(refuses) row is Some code then (t, Raised (DatabaseError code None))
  else if JsMap.has id t then (t, Raised (uniqueViolation sch.(pkey)))
  else match violation sch id row t with
       | Some e => (t, Raised e)
       | None => (JsMap.set id row t, Value tt)
       end.

(** [UPDATE ... SET ... WHERE id=... AND where_], and its [rowCount]. *)
Definition update (sch : Schema) (id : ID) (where_ : R -> bool) (to : R -> R) : Body Table Z := fun t =>
  match JsMap.get id t with
  | Some r =>
      if where_ r then
        match violation sch id (to r) t with
        | Some e => (t, Raised e)
        | None => (JsMap.set id (to r) t, Value 1)
        end
      else (t, Value 0)
  | None => (t, Value 0)
  end.

(** [if (updated.rowCount !== 1) return err(await missingOrStale(...) === 'missing' ? missing : stale)]. *)
Definition orMoved (missing stale : Failure) (id : ID) (rowCount : Z) : Body Table unit := fun t =>
  if rowCount =? 1 then (t, Value tt) else (t, Refused (if JsMap.has id t then stale else missing)).

(** A version-checked update. *)
Definition updateOr (missing stale : Failure) (sch : Schema) (id : ID) (where_ : R -> bool) (to : R -> R) : Body Table unit :=
  n ← update sch id where_ to;
  orMoved missing stale id n.

(** [SELECT ... WHERE p ORDER BY ... LIMIT n]. *)
Definition select (p : R -> bool) (order : R -> R -> Z) (limit : Z) : Body Table (list R) := fun t =>
  (t, Value (take (Z.to_nat limit) (sort_by order (filter (fun r => p r = true) (JsMap.values t))))).

(** ** Lemmas. *)

Lemma updateOr_spec missing stale sch id where_ to (t : Table) :
  updateOr missing stale sch id where_ to t =
  match JsMap.get id t with
  | None => (t, Refused missing)
  | Some r =>
      if negb (where_ r) then (t, Refused stale)
      else match violation sch id (to r) t with
           | Some e => (t, Raised e)
           | None => (JsMap.set id (to r) t, Value tt)
           end
  end.
Proof.
  unfold updateOr, mbind, Body_bind, update, orMoved, JsMap.has. destruct (JsMap.get id t) as [r|] eqn:E; cbn; [|by rewrite E].
  destruct (where_ r); cbn; [|by rewrite E]. by destruct (violation sch id (to r) t).
Qed.

Lemma violation_None sch id row (t : Table) :
  violation sch id row t = None <->
  sch.(refuses) row = None
  /\ forall name clash, (name, clash) ∈ sch.(uniques) -> forall id' r, (id', r) ∈ t -> id' <> id -> clash r row = false.
Proof.
  unfold violation. destruct (refuses sch row); cbn; [naive_solver|].
  split.
  - intros Hf%fmap_None. split; [done|]. intros name clash Hin id' r Hr Hne.
    pose proof (List.find_none _ _ Hf (name, clash) (proj1 (list_elem_of_In _ _) Hin)) as Hc. unfold clashes in Hc. cbn in Hc.
    apply not_true_iff_false. intros Hcl. apply not_true_iff_false in Hc. apply Hc. apply existsb_exists.
    exists (id', r). split; [by apply list_elem_of_In|]. cbn. by rewrite bool_decide_eq_false_2, Hcl.
  - intros [_ Hnone]. destruct (find_first (clashes id row t) (uniques sch)) as [[name clash]|] eqn:E; [|done]. exfalso.
    apply List.find_some in E as [Hin Hc]. unfold clashes in Hc. apply existsb_exists in Hc as ([id' r] & Hr & Hb). cbn in Hb.
    breflect. apply bool_decide_eq_false in H. rewrite (Hnone name clash (proj2 (list_elem_of_In _ _) Hin) id' r (proj2 (list_elem_of_In _ _) Hr) H) in *. done.
Qed.
End Table.
Arguments Schema : clear implicits.
Arguments mkSchema {R}.

Lemma parameters_None {S} refusals (s : S) : Forall (fun r => r = None) refusals -> parameters refusals s = (s, Value tt).
Proof.
  intros H. unfold parameters. destruct (find_first _ refusals) as [[code|]|] eqn:E; [|done..]. exfalso.
  apply List.find_some in E as [Hin _]. apply list_elem_of_In in Hin. rewrite Forall_forall in H. by apply H in Hin.
Qed.

Lemma parameters_then {S A} refusals (k : Body S A) s : Forall (fun r => r = None) refusals -> (_ ← parameters refusals; k) s = k s.
Proof. intros H. unfold mbind, Body_bind. by rewrite parameters_None. Qed.

Lemma sent_clean s : clean s -> sent s = s.
Proof. intros [Hw Hu]. unfold sent. by rewrite fromUtf8_utf8. Qed.

Lemma charLength_le s : 0 <= charLength s <= jlength s.
Proof. unfold jlength. induction s as [|c s IH]; cbn [charLength length]; [lia|]. destruct (isLow c); lia. Qed.

Lemma charLength_pos s : wellFormed s = true -> s <> [] -> 0 < charLength s.
Proof.
  destruct s as [|c s]; [done|]. intros Hw _. pose proof (charLength_le s). cbn in Hw |- *. destruct (isLow c) eqn:El; [|lia]. exfalso.
  destruct (isHigh c) eqn:Eh; [|done]. apply isHigh_range in Eh. apply isLow_range in El. lia.
Qed.

Lemma integer_None n : - INTEGER_MAX - 1 <= n <= INTEGER_MAX -> integer n = None.
Proof. intros H. unfold integer. by rewrite !(proj2 (Z.leb_le _ _)) by lia. Qed.

Lemma timestamp_None d : validDate d = true -> TIMESTAMP_MIN <= getTime d -> timestamp d = None.
Proof. destruct d as [|t]; [done|]. cbn. intros _ H. by rewrite (proj2 (Z.leb_le _ _)). Qed.

Lemma nullableTimestamp_None d :
  badDateOpt d = false -> (forall t, d = Some t -> TIMESTAMP_MIN <= getTime t) -> nullableTimestamp d = None.
Proof. destruct d as [d|]; [|done]. cbn. intros H Ht. apply timestamp_None; [by apply negb_false_iff|by apply Ht]. Qed.

Lemma text_None s : Forall (fun c => c <> 0) s -> text s = None.
Proof.
  intros H. unfold text. destruct (existsb _ s) eqn:E; [|done]. apply existsb_exists in E as (c & Hc%list_elem_of_In & E).
  apply Z.eqb_eq in E as <-. rewrite Forall_forall in H. by apply H in Hc.
Qed.

Lemma text_name n s : matchesName n s = true -> text s = None.
Proof.
  destruct s as [|c s]; [done|]. cbn. rewrite !andb_true_iff. intros [[Hc Hs] _]. apply text_None. constructor.
  - intros ->. done.
  - apply Forall_forall. intros x Hx ->. apply Is_true_true, forallb_True in Hs. rewrite Forall_forall in Hs. by apply Hs in Hx.
Qed.

Lemma refusing_None v (checks : bool) : 1 <= v <= INTEGER_MAX -> checks = true -> refusing (Int v) checks = None.
Proof. intros Hv ->. unfold refusing. cbn [num_val]. by rewrite integer_None by (unfold INTEGER_MAX in *; lia). Qed.

(** The values of a statement, one by one. *)
Ltac values :=
  repeat (apply Forall_cons; split); try (by apply Forall_nil); try done; try (by apply timestamp_None); try (by apply nullableTimestamp_None);
  try (apply integer_None; unfold FIRST, UNSAVED, INTEGER_MAX in *; lia).

(** ** Objects as rows. *)
Section Rows.
  (** The row of an object, and what a reader makes of a row. *)
  Context {A R : Type} (row : A -> R) (restore : R -> Res A).

Definition rowsOf : list (ID * A) -> list (ID * R) := JsMap.mapValues row.

(** The rows of a query, one by one. *)
Fixpoint restoreAll (rows : list R) : Res (list A) :=
  match rows with
  | [] => Ok []
  | r :: rest => a ← restore r; l ← restoreAll rest; Ok (a :: l)
  end.

(** [result.rows[0] ? restore(result.rows[0]) : ok(null)]. *)
Definition firstRow (rows : list R) : Res (option A) :=
  match rows with [] => Ok None | r :: _ => a ← restore r; Ok (Some a) end.

(** [WHERE p AND ($2 IS NULL OR (created_at,id) > ($2,$3)) ORDER BY created_at,id LIMIT $4]. *)
Definition pageOf (rowKey : R -> After) (p : R -> bool) (page : PageRequest) (t : list (ID * R)) : list R :=
  take (Z.to_nat (page.(Pagination.limit) + 1))
    (sort_by (byKey rowKey)
       (filter (fun r => p r && match page.(Pagination.start) with Some a => 0 <? compareKeyset (rowKey r) a | None => true end = true) (JsMap.values t))).

Lemma has_rowsOf id s : JsMap.has id (rowsOf s) = JsMap.has id s.
Proof. apply JsMap.has_mapValues. Qed.
Lemma get_rowsOf id s : JsMap.get id (rowsOf s) = row <$> JsMap.get id s.
Proof. apply JsMap.get_mapValues. Qed.
Lemma set_rowsOf id a s : JsMap.set id (row a) (rowsOf s) = rowsOf (JsMap.set id a s).
Proof. symmetry. apply JsMap.set_mapValues. Qed.
Lemma values_rowsOf s : JsMap.values (rowsOf s) = row <$> JsMap.values s.
Proof. apply JsMap.values_mapValues. Qed.

Lemma filter_rows (p : R -> bool) (q : A -> bool) (l : list A) :
  (forall a, a ∈ l -> p (row a) = q a) -> filter (fun r => p r = true) (row <$> l) = row <$> filter (fun a => q a = true) l.
Proof.
  induction l as [|a l IH]; intros Hpq; [done|]. cbn [fmap list_fmap]. rewrite !filter_cons, Hpq by left.
  case_decide; rewrite IH by (intros x Hx; apply Hpq; by right); done.
Qed.

Lemma restoreAll_rows l : (forall a, a ∈ l -> restore (row a) = Ok a) -> restoreAll (row <$> l) = Ok l.
Proof.
  induction l as [|a l IH]; intros Hr; [done|]. cbn [fmap list_fmap restoreAll]. rewrite Hr by left. cbn [mbind Result_bind].
  by rewrite IH by (intros x Hx; apply Hr; by right).
Qed.

Lemma firstRow_get s id : (forall a, JsMap.get id s = Some a -> restore (row a) = Ok a) ->
  firstRow (option_list (JsMap.get id (rowsOf s))) = Ok (JsMap.get id s).
Proof.
  intros Hr. rewrite get_rowsOf. destruct (JsMap.get id s) as [a|]; [|done]. change (firstRow [row a] = Ok (Some a)). unfold firstRow.
  by rewrite Hr.
Qed.

(** Two rows clash in an index when their objects do. *)
Lemma violation_rows sch id a s :
  JsMap.wf s -> sch.(refuses) (row a) = None ->
  match violation sch id (row a) (rowsOf s) with
  | None => forall name clash, (name, clash) ∈ sch.(uniques) -> forall id' b, JsMap.get id' s = Some b -> id' <> id -> clash (row b) (row a) = false
  | Some e => exists name clash id' b, e = uniqueViolation name /\ (name, clash) ∈ sch.(uniques) /\ JsMap.get id' s = Some b /\ id' <> id
      /\ clash (row b) (row a) = true
  end.
Proof.
  intros Hw Hc. destruct (violation sch id (row a) (rowsOf s)) as [e|] eqn:E.
  - unfold violation in E. rewrite Hc in E. destruct (find_first _ _) as [[name clash]|] eqn:Ef; [|done]. injection E as <-.
    apply List.find_some in Ef as [Hin Hb]. unfold clashes in Hb. apply existsb_exists in Hb as ([id' r] & Hr & Hb). cbn [fst snd] in Hb.
    apply andb_true_iff in Hb as [Hne Hs]. apply negb_true_iff, bool_decide_eq_false in Hne.
    apply list_elem_of_In, JsMap.elem_mapValues in Hr as (b & Hb & ->). exists name, clash, id', b. split_and!; try done.
    + by apply list_elem_of_In.
    + by apply JsMap.entry_get.
  - apply violation_None in E as [_ Hnone]. intros name clash Hin id' b Hb Hne. apply (Hnone name clash Hin id' (row b)); [|done].
    apply JsMap.elem_mapValues. exists b. split; [by apply JsMap.get_entry|done].
Qed.

(** No other object's row stands in the way of the row. *)
Definition free (sch : Schema R) (id : ID) (a : A) (s : list (ID * A)) : Prop :=
  sch.(refuses) (row a) = None
  /\ forall name clash, (name, clash) ∈ sch.(uniques) -> forall id' b, JsMap.get id' s = Some b -> id' <> id -> clash (row b) (row a) = false.

Lemma free_violation sch id a s : JsMap.wf s -> free sch id a s -> violation sch id (row a) (rowsOf s) = None.
Proof.
  intros Hw [Hr Hn]. apply violation_None. split; [done|]. intros name clash Hin id' r (b & Hb & ->)%JsMap.elem_mapValues Hne.
  apply (Hn name clash Hin id'); [by apply JsMap.entry_get|done].
Qed.

(** An update of the row of an object into the row of another. *)
Lemma update_rows sch id where_ to s a :
  JsMap.wf s ->
  (forall p, JsMap.get id s = Some p -> where_ (row p) = true -> to (row p) = row a /\ free sch id a s) ->
  update sch id where_ to (rowsOf s) =
  match JsMap.get id s with
  | Some p => if where_ (row p) then (rowsOf (JsMap.set id a s), Value 1) else (rowsOf s, Value 0)
  | None => (rowsOf s, Value 0)
  end.
Proof.
  intros Hw Hto. unfold update. rewrite get_rowsOf. destruct (JsMap.get id s) as [p|]; [|done]. cbn [fmap option_fmap option_map].
  destruct (where_ (row p)) eqn:E; [|done]. destruct (Hto p eq_refl E) as [-> Hf]. by rewrite free_violation, set_rowsOf.
Qed.

Lemma updateOr_rows missing stale sch id where_ to s a :
  JsMap.wf s ->
  (forall p, JsMap.get id s = Some p -> where_ (row p) = true -> to (row p) = row a /\ free sch id a s) ->
  updateOr missing stale sch id where_ to (rowsOf s) =
  match JsMap.get id s with
  | Some p => if where_ (row p) then (rowsOf (JsMap.set id a s), Value tt) else (rowsOf s, Refused stale)
  | None => (rowsOf s, Refused missing)
  end.
Proof.
  intros Hw Hto. unfold updateOr, mbind, Body_bind. rewrite (update_rows sch id where_ to s a) by done.
  unfold orMoved. destruct (JsMap.get id s) as [p|] eqn:E; [destruct (where_ (row p))|]; cbn; rewrite ?has_rowsOf; unfold JsMap.has; by rewrite ?E.
Qed.

Lemma pageOf_rows (key : A -> After) rowKey p (q : A -> bool) page s :
  (forall a, a ∈ JsMap.values s -> rowKey (row a) = key a /\ p (row a) = q a) ->
  table key (filter (fun a => q a = true) (JsMap.values s)) ->
  pageOf rowKey p page (rowsOf s) = row <$> keysetPage (filter (fun a => q a = true) (JsMap.values s)) key page.
Proof.
  intros Hr Ht. unfold pageOf. rewrite values_rowsOf.
  rewrite (filter_rows _ (fun a => q a && match page.(Pagination.start) with Some x => 0 <? compareKeyset (key a) x | None => true end)).
  2: { intros a Ha. by destruct (Hr a Ha) as [-> ->]. }
  rewrite (sort_by_fmap row (byKey key)).
  2: { intros x y [_ Hx]%list_elem_of_filter [_ Hy]%list_elem_of_filter. unfold byKey. by rewrite (proj1 (Hr x Hx)), (proj1 (Hr y Hy)). }
  by rewrite <- fmap_take, keyset_query.
Qed.

(** The page is read back, whatever order the in-memory reader first sorted by. *)
Lemma listPage_rows (key : A -> After) rowKey p (q : A -> bool) page s l :
  (forall a, a ∈ JsMap.values s -> rowKey (row a) = key a /\ p (row a) = q a /\ restore (row a) = Ok a) ->
  table key (filter (fun a => q a = true) (JsMap.values s)) -> l ≡ₚ filter (fun a => q a = true) (JsMap.values s) ->
  restoreAll (pageOf rowKey p page (rowsOf s)) = Ok (keysetPage l key page).
Proof.
  intros Hr Ht Hl. rewrite (pageOf_rows key rowKey p q) by (done || (intros a Ha; split; by apply Hr)).
  rewrite (keysetPage_perm key _ l) by done. apply restoreAll_rows. intros a Ha. unfold keysetPage in Ha.
  apply (fun H => elem_of_sublist _ _ _ H (sublist_take _ _)) in Ha. apply list_elem_of_filter in Ha as [_ Ha].
  rewrite sort_by_perm in Ha. apply list_elem_of_filter in Ha as [_ Ha]. by apply Hr.
Qed.
End Rows.

(** ** One table and the outbox. *)

(** Statements on the table, and the event enqueued after them. *)
Definition onTable {T A} : Body T A -> Body (T * Outbox.Outbox) A := on fst (fun t s => (t, s.2)).
Definition onOutbox {T A} : Body Outbox.Outbox A -> Body (T * Outbox.Outbox) A := on snd (fun o s => (s.1, o)).

(** A writer's body: the provenance of its event, its statements with their
    [catch], and the event. *)
Definition writer {J T} `{Jdec : EqDecision J} (jsonb : Events.Raw -> option J) (now : Z) (event : Events.Envelope)
    (work : WorkContext) (handler : Thrown -> Failure) (statements : Body T unit) : Body (T * Outbox.Outbox) unit :=
  _ ← checked (Events.assertEventWork event work);
  catching handler (_ ← onTable statements; onOutbox (enqueue jsonb now event)).

(** It writes both, or nothing that lasts. *)
Lemma writer_spec {J T} `{Jdec : EqDecision J} (jsonb : Events.Raw -> option J) now event work handler (statements : Body T unit) t o :
  match Events.assertEventWork event work, statements t, Outbox.enqueue jsonb event now o with
  | Err f, _, _ => (callback (writer jsonb now event work handler statements) (t, o)).2 = Err f
  | Ok _, (_, Refused f), _ => (callback (writer jsonb now event work handler statements) (t, o)).2 = Err f
  | Ok _, (_, Raised e), _ => (callback (writer jsonb now event work handler statements) (t, o)).2 = Err (handler e)
  | Ok _, (_, Value _), (_, Err f) => (callback (writer jsonb now event work handler statements) (t, o)).2 = Err f
  | Ok _, (t', Value _), (o', Ok _) => callback (writer jsonb now event work handler statements) (t, o) = ((t', o'), Ok tt)
  end.
Proof.
  unfold callback, writer, mbind, Body_bind, catching, onTable, onOutbox, on, enqueue, checked, ret, refuse.
  destruct (Events.assertEventWork event work); cbn; [|done]. destruct (statements t) as [t' [[]|f|e]]; cbn; [|done..].
  by destruct (Outbox.enqueue jsonb event now o) as [o' [[]|f]].
Qed.

(** The same with several events. *)
Definition writerAll {J T} `{Jdec : EqDecision J} (jsonb : Events.Raw -> option J) (now : Z) (events : list Events.Envelope)
    (work : WorkContext) (handler : Thrown -> Failure) (statements : Body T unit) : Body (T * Outbox.Outbox) unit :=
  _ ← checked (assertAll events work);
  catching handler (_ ← onTable statements; onOutbox (enqueueAll jsonb now events)).

(** A body does what is expected of it, or fails as its [catch] says. *)
Definition performs {S} (handler : Thrown -> Failure) (r : S * Outcome unit) (expected : Res S) : Prop :=
  match expected with
  | Ok s' => r = (s', Value tt)
  | Err f => exists t, r = (t, Refused f) \/ exists e, r = (t, Raised e) /\ handler e = f
  end.

Lemma performs_raised {S} handler (t : S) e f : handler e = f -> performs handler (t, Raised e) (Err f).
Proof. intros H. exists t. right. by exists e. Qed.
Lemma performs_refused {S} handler (t : S) f : performs handler (t, Refused f) (Err f).
Proof. exists t. by left. Qed.

Lemma body_then {S A B} (b : Body S A) (k : A -> Body S B) s :
  (x ← b; k x) s =
  match b s with
  | (s', Value a) => k a s'
  | (s', Refused f) => (s', Refused f)
  | (s', Raised e) => (s', Raised e)
  end.
Proof. reflexivity. Qed.

Lemma checked_then {S A B} (r : Res A) (k : A -> Body S B) s :
  (x ← checked r; k x) s = match r with Ok a => k a s | Err f => (s, Refused f) end.
Proof. by destruct r. Qed.

Lemma on_then {S T A B} (get : S -> T) put (b : Body T A) (k : A -> Body S B) s :
  (x ← on get put b; k x) s =
  match b (get s) with
  | (t, Value a) => k a (put t s)
  | (t, Refused f) => (put t s, Refused f)
  | (t, Raised e) => (put t s, Raised e)
  end.
Proof. unfold mbind, Body_bind, on. by destruct (b (get s)) as [t [a|f|e]]. Qed.

(** What a transaction does when its callback does what is [expected] of it. *)
Definition meets {S} (fn : S -> S * Res unit) (s : S) (expected : S * Res unit) : Prop :=
  match expected with
  | (s', Ok _) => fn s = (s', Ok tt)
  | (_, Err f) => (fn s).2 = Err f
  end.

Lemma meets_transacts {S} (fn : S -> S * Res unit) s expected r s' :
  meets fn s expected -> Database.transacts fn s r s' ->
  (fn s).2 = expected.2
  /\ ((expected = (s', Ok tt) /\ (r = Ok tt \/ r = Err Database.uncertain))
      \/ (s' = s /\ exists f, r = Err f /\ (Database.fault f \/ expected.2 = Err f))).
Proof.
  destruct expected as [x [[]|f]]; cbn; intros Hm Hr.
  - split; [by rewrite Hm|]. inversion Hr as [v y Hv|f Hf|f Hf|v y Hv]; subst; try (rewrite Hm in Hv; injection Hv as <- <-).
    + left. by split; [|left].
    + by rewrite Hm in Hf.
    + right. split; [done|]. eauto.
    + left. by split; [|right].
  - split; [done|]. right. inversion Hr as [v y Hv|g Hf|g Hf|v y Hv]; subst; try (rewrite Hv in Hm; done);
      (split; [done|]); (eexists; split; [done|]); [|by left]. right. congruence.
Qed.

(** The same when a refusal is one of several. *)
Definition agrees {S} (fn : S -> S * Res unit) (s : S) (accepted : option S) (refusal : Failure -> Prop) : Prop :=
  match accepted with
  | Some s' => fn s = (s', Ok tt)
  | None => exists f, (fn s).2 = Err f /\ refusal f
  end.

Lemma agrees_transacts {S} (fn : S -> S * Res unit) s accepted refusal r s' :
  agrees fn s accepted refusal -> Database.transacts fn s r s' ->
  isOk (fn s).2 = negb (isNull accepted)
  /\ ((accepted = Some s' /\ (r = Ok tt \/ r = Err Database.uncertain))
      \/ (s' = s /\ exists f, r = Err f /\ (Database.fault f \/ (accepted = None /\ refusal f)))).
Proof.
  destruct accepted as [x|]; cbn [agrees].
  - intros Hm Hr. destruct (meets_transacts fn s (x, Ok tt) r s' Hm Hr) as [-> [[[= ->] Hx]|(-> & f & -> & [Hf|Hf])]]; split; eauto.
    + right. split; [done|]. exists f. auto.
    + done.
  - intros (f & Hf & Hn) Hr. destruct (meets_transacts fn s (s, Err f) r s' Hf Hr) as [_ [[? _]|(-> & g & -> & Hg)]]; [done|].
    rewrite Hf. split; [done|]. right. split; [done|]. exists g. split; [done|]. destruct Hg as [Hg|[= <-]]; auto.
Qed.

(** The failure of an enqueued event never is an error thrown. *)
Definition enqueued {J} `{Jdec : EqDecision J} (jsonb : Events.Raw -> option J) (now : Z) (events : list Events.Envelope) (o : Outbox.Outbox)
    : Outbox.Outbox * Res unit :=
  callback (enqueueAll jsonb now events) o.

Lemma enqueueAll_answers {J} `{Jdec : EqDecision J} (jsonb : Events.Raw -> option J) now events o :
  match enqueueAll jsonb now events o with
  | (o', Value u) => enqueued jsonb now events o = (o', Ok u)
  | (o', Refused f) => enqueued jsonb now events o = (o', Err f)
  | (o', Raised e) => False
  end.
Proof.
  unfold enqueued, callback. revert o. induction events as [|e es IH]; intros o; cbn; [done|].
  unfold mbind, Body_bind, enqueue. destruct (Outbox.enqueue jsonb e now o) as [o' [[]|f]]; [|done].
  specialize (IH o'). by destruct (enqueueAll jsonb now es o') as [o2 [[]|f|x]].
Qed.

Lemma enqueueAll_app {J} `{Jdec : EqDecision J} (jsonb : Events.Raw -> option J) now l1 l2 o :
  enqueueAll jsonb now (l1 ++ l2) o = (_ ← enqueueAll jsonb now l1; enqueueAll jsonb now l2) o.
Proof.
  unfold mbind, Body_bind. revert o. induction l1 as [|e l1 IH]; intros o; [done|]. cbn [app enqueueAll]. unfold mbind, Body_bind.
  destruct (enqueue jsonb now e o) as [o' [[]|f|x]]; [apply IH|done|done].
Qed.

Lemma writerAll_meets {J T} `{Jdec : EqDecision J} (jsonb : Events.Raw -> option J) now events work handler (statements : Body T unit) t o guarded :
  (assertAll events work = Ok tt -> performs handler (statements t) guarded) ->
  meets (callback (writerAll jsonb now events work handler statements)) (t, o)
    match assertAll events work, guarded, enqueued jsonb now events o with
    | Ok _, Ok t', (o', Ok _) => ((t', o'), Ok tt)
    | Ok _, Ok _, (_, Err f) | Ok _, Err f, _ | Err f, _, _ => ((t, o), Err f)
    end.
Proof.
  intros Hp. unfold callback, writerAll, mbind, Body_bind, catching, onTable, onOutbox, on, checked, ret, refuse.
  destruct (assertAll events work) as [[]|f]; [|done]. specialize (Hp eq_refl). unfold performs in Hp. cbn [fst snd meets].
  destruct guarded as [t'|f].
  - pose proof (enqueueAll_answers jsonb now events o) as He.
    destruct (enqueueAll jsonb now events o) as [o' [[]|f|e]] eqn:E; [| |done]; rewrite He; cbn [meets fst snd]; rewrite Hp; cbn [fst snd]; by rewrite E.
  - destruct Hp as [t2 [Hp|(e & Hp & <-)]]; cbn; by rewrite Hp.
Qed.

(** Undisturbed by its guards, an in-memory commit is refused when an event is. *)
Lemma commitWith_answer {S P} (guarded : Res P) written undo events bus (s : S) published :
  (publishAll bus events).2 = published ->
  (commitWith guarded written undo events bus s).2 = match guarded, published with Ok _, Ok _ => Ok tt | Ok _, Err f | Err f, _ => Err f end.
Proof. intros <-. unfold commitWith. destruct guarded; [|done]. by destruct (publishAll bus events) as [sent [[]|f]]. Qed.

Lemma writerAll_agrees {J T} `{Jdec : EqDecision J} (jsonb : Events.Raw -> option J) now events work handler (statements : Body T unit) t o guarded :
  performs handler (statements t) guarded ->
  agrees (callback (writerAll jsonb now events work handler statements)) (t, o)
    match assertAll events work, guarded, enqueued jsonb now events o with Ok _, Ok t', (o', Ok _) => Some (t', o') | _, _, _ => None end
    (fun f => assertAll events work = Err f \/ guarded = Err f \/ (enqueued jsonb now events o).2 = Err f).
Proof.
  intros Hp. pose proof (writerAll_meets jsonb now events work handler statements t o guarded (fun _ => Hp)) as Hm. unfold agrees.
  destruct (assertAll events work) as [[]|f]; [|exists f; split; [exact Hm|by left]].
  destruct guarded as [t'|f]; [|exists f; split; [exact Hm|by right; left]].
  destruct (enqueued jsonb now events o) as [o' [[]|f]]; [exact Hm|]. exists f. split; [exact Hm|by right; right].
Qed.

(** One object at most answers a query. *)
Lemma one_row {A} (q : A -> bool) (l : list A) :
  NoDup l -> (forall a b, a ∈ l -> b ∈ l -> q a = true -> q b = true -> a = b) ->
  filter (fun a => q a = true) l = option_list (find_first q l).
Proof.
  induction l as [|a l IH]; [done|]. intros [Ha HN]%NoDup_cons Hone. rewrite filter_cons. cbn. destruct (q a) eqn:E.
  - rewrite decide_True by done. cbn. f_equal. apply list_filter_none. intros x Hx Hq. apply Ha.
    rewrite (Hone a x) by (done || (by left) || (by right)). done.
  - rewrite decide_False by done. apply IH; [done|]. intros x y Hx Hy. apply Hone; by right.
Qed.

Lemma firstRow_some {A R} (restore : R -> Res A) (row : A -> R) (x : option A) :
  (forall a, x = Some a -> restore (row a) = Ok a) -> firstRow restore (row <$> option_list x) = Ok x.
Proof. intros Hr. destruct x as [a|]; [|done]. change (firstRow restore [row a] = Ok (Some a)). unfold firstRow. by rewrite Hr. Qed.

Lemma firstRow_map {A B R} (restore : R -> Res B) (row : A -> R) (f : A -> B) (x : option A) :
  (forall a, x = Some a -> restore (row a) = Ok (f a)) -> firstRow restore (option_list (row <$> x)) = Ok (f <$> x).
Proof. intros Hr. destruct x as [a|]; [|done]. change (firstRow restore [row a] = Ok (Some (f a))). unfold firstRow. by rewrite Hr. Qed.

Lemma option_list_rows {A R} (row : A -> R) x : row <$> option_list x = option_list (row <$> x).
Proof. by destruct x. Qed.

Lemma restoreAll_map {A B R} (restore : R -> Res B) (row : A -> R) (f : A -> B) l :
  (forall a, a ∈ l -> restore (row a) = Ok (f a)) -> restoreAll restore (row <$> l) = Ok (f <$> l).
Proof.
  induction l as [|a l IH]; intros Hr; [done|]. cbn [fmap list_fmap restoreAll]. rewrite Hr by left. cbn [mbind Result_bind].
  by rewrite IH by (intros x Hx; apply Hr; by right).
Qed.

(** A further condition on the one object that answers a query. *)
Lemma find_first_also {A} (q also : A -> bool) (l : list A) :
  (forall a b, a ∈ l -> b ∈ l -> q a = true -> q b = true -> a = b) ->
  find_first (fun a => q a && also a) l = match find_first q l with Some a => if also a then Some a else None | None => None end.
Proof.
  induction l as [|a l IH]; intros Hone; [done|]. cbn. destruct (q a) eqn:E; cbn.
  - destruct (also a) eqn:Ea; [done|]. destruct (find_first _ l) as [b|] eqn:Eb; [|done]. exfalso.
    apply List.find_some in Eb as [Hb Hq]. apply andb_true_iff in Hq as [Hq Ha]. apply list_elem_of_In in Hb.
    rewrite (Hone b a) in Ha by (done || (by left) || (by right)). congruence.
  - apply IH. intros x y Hx Hy. apply Hone; by right.
Qed.
End Sql.
