(* ===== verification/DocumentPostgres.v ===== *)
(** * The document module on PostgreSQL: [modules/document/infra/postgres].

    The table with its constraints, the writer's transaction and the reader's
    queries, and that they do what the in-memory writer and reader do. *)
From stdpp Require Import relations.
From S2P Require Import Prelude Async JsMap Errors Ids Json Text JsonText JsonPrint Pagination Provenance Events Commands Aggregates Writers.
From S2P Require Import DocumentDomain DocumentApp Postgres Inbox EventStore Sql.

Module PgDocuments.
Import (hints) DocumentApp.DocumentWorld.
Import DocumentApp.DocumentWorld(evo_fixed).
Import DocumentDomain.Document DocumentApp.DocumentFailures DocumentApp.DocumentStore Sql.Sql.
Import Postgres.Database(Thrown, violatedUnique).

(** ** The table. *)

(** [DocumentRow] of reader.ts.
    The columns, as [Document.restore] takes them. *)
Abbreviation Row := RestoreDocumentInput.
Abbreviation Table := (list (ID * Row)).

Definition lengthIn (s : jstring) (max : Z) : bool := (0 <? charLength s) && (charLength s <=? max).

(** @src src/modules/document/infra/postgres/migrations/baseline.sql:22-29 n2f_document_documents
    The CHECKs. *)
Definition rowChecks (r : Row) : bool :=
  match parseStatus r.(r_status) with
  | Some status =>
      match r.(r_name) with VStr s => lengthIn s 200 | _ => false end
      && (0 <=? num_val r.(r_processingAttempt))
      && match r.(r_processingFailureCode) with VStr c => matchesName 127 c | _ => true end
      && negb (incoherent status r.(r_archivedAt) (match r.(r_processingFailureCode) with VStr c => Some c | _ => None end))
      && match r.(r_storageKey) with VStr s => lengthIn s 512 | _ => true end
      && negb (date_lt r.(r_updatedAt) r.(r_createdAt))
      && (1 <=? num_val r.(r_version))
  | None => false
  end.

(** [version=version+1] may overflow. *)
Definition refusesRow (r : Row) : option string :=
  match integer (num_val r.(r_version)) with
  | Some code => Some code
  | None => if rowChecks r then None else Some "23514"%string
  end.

(** @src src/modules/document/infra/failures.ts:15-17 CONSTRAINTS *)
Definition documentPkey : string := "n2f_document_documents_pkey".

Definition schema : Schema Row := mkSchema refusesRow documentPkey [].

(** ** The writer. *)

(** @src src/modules/document/infra/postgres/writer.ts:31-46 commit
    The row of a new document: the processing run, its attempt and the version
    are the columns' defaults.  Text is stored as it arrives. *)
Definition newRow (d : Document) : Row :=
  mkRestore d.(d_id) d.(d_organizationId) (VStr (sent d.(d_name))) (nullable (sent <$> d.(d_storageKey))) (statusName d.(d_status))
    (nullable d.(d_processingFailureCode)) None (Int 0) (copyDate d.(d_createdAt)) (copyDate d.(d_updatedAt)) (copyDateOpt d.(d_archivedAt)) (Int 1).

(** @src src/modules/document/infra/postgres/writer.ts:49-75 commit *)
Definition setRow (d : Document) (old : Row) : Row :=
  mkRestore old.(r_id) old.(r_organizationId) (VStr (sent d.(d_name))) (nullable (sent <$> d.(d_storageKey))) (statusName d.(d_status))
    (nullable d.(d_processingFailureCode)) d.(d_processingRun) (Int d.(d_processingAttempt)) old.(r_createdAt) (copyDate d.(d_updatedAt))
    (copyDateOpt d.(d_archivedAt)) (Int (num_val old.(r_version) + 1)).

(** @src src/modules/document/infra/postgres/writer.ts:60-62 commit *)
Definition current (d : Document) (r : Row) : bool :=
  bool_decide (r.(r_organizationId) = d.(d_organizationId)) && (num_val r.(r_version) =? d.(d_version)).

(** @src src/modules/document/infra/postgres/writer.ts:91-97 commit *)
Definition handler (cause : Thrown) : Failure :=
  if bool_decide (violatedUnique cause = Some documentPkey) then documentExists else Database.map cause.

(** @src src/modules/document/infra/postgres/writer.ts:35-45 commit
    What a statement is sent, by the type of its column; identifiers are parsed,
    so [uuid] takes them. *)
Definition rowValues (d : Document) : list (option string) :=
  [text d.(d_name); nullableText d.(d_storageKey); nullableText d.(d_processingFailureCode); timestamp d.(d_updatedAt);
   nullableTimestamp d.(d_archivedAt)].

(** @src src/modules/document/infra/postgres/writer.ts:31-87 commit *)
Definition statements (input : DocumentCommit) : Body Table unit :=
  let document := input.(m_document) in
  match input.(m_mode) with
  | DocumentStore.create =>
      _ ← parameters (timestamp document.(d_createdAt) :: rowValues document);
      insert schema document.(d_id) (newRow document)
  | update =>
      _ ← parameters (integer document.(d_version) :: integer document.(d_processingAttempt) :: rowValues document);
      updateOr documentNotFound staleWrite schema document.(d_id) (current document) (setRow document)
  end.

Section Writer.
  Context {J : Type} `{Jdec : EqDecision J} (jsonb : Events.Raw -> option J).

(** @src src/modules/document/infra/postgres/writer.ts:25-99 commit
    The callback of the transaction. *)
Definition commit (input : DocumentCommit) (now : Z) : Body (Table * Outbox.Outbox) unit :=
  writer jsonb now input.(m_event) input.(m_work) handler (statements input).
End Writer.

(** ** The reader. *)

(** @src src/modules/document/infra/postgres/reader.ts:29-63 restore
    Identifiers are text here. *)
Definition restoreRow (r : Row) : Res Document :=
  documentId ← Ids.parse (VStr r.(r_id));
  organizationId ← Ids.parse (VStr r.(r_organizationId));
  processingRun ← match r.(r_processingRun) with
                  | None => Ok None
                  | Some run => run ← Ids.parse (VStr run); Ok (Some run)
                  end;
  Document.restore (mkRestore documentId organizationId r.(r_name) r.(r_storageKey) r.(r_status) r.(r_processingFailureCode)
    processingRun r.(r_processingAttempt) r.(r_createdAt) r.(r_updatedAt) r.(r_archivedAt) r.(r_version)).

(** @src src/modules/document/infra/postgres/reader.ts:68-97 findById *)
Definition findById (id : ID) (t : Table) : Res (option Document) := firstRow restoreRow (option_list (JsMap.get id t)).

Definition rowKey (r : Row) : After := mkAfter r.(r_createdAt) r.(r_id).

(** @src src/modules/document/infra/postgres/reader.ts:99-137 listForOrganization *)
Definition listForOrganization (organizationId : ID) (page : PageRequest) (t : Table) : Res (list Document) :=
  restoreAll restoreRow (pageOf rowKey (fun r => bool_decide (r.(r_organizationId) = organizationId)) page t).

(** ** The same documents, as rows. *)
Abbreviation rowsOf := (Sql.rowsOf row).

(** What the columns hold. *)
Record fits (d : Document) : Prop := mkFits {
  fits_name : plain d.(d_name);
  fits_key : forall s, d.(d_storageKey) = Some s -> plain s;
  fits_created : TIMESTAMP_MIN <= getTime d.(d_createdAt);
  fits_updated : TIMESTAMP_MIN <= getTime d.(d_updatedAt);
  fits_archived : forall t, d.(d_archivedAt) = Some t -> TIMESTAMP_MIN <= getTime t;
  fits_attempt : d.(d_processingAttempt) <= INTEGER_MAX
}.

(** What the in-memory store keeps true ([DocumentWorld.Inv]), within the range
    of the columns. *)
Record storable (s : Documents) : Prop := mkStorable {
  st_keyed : keyed s;
  st_wf : forall id d, documentById id s = Some d -> wf d /\ fits d /\ FIRST <= d.(d_version) < INTEGER_MAX;
  st_ids : forall id d, documentById id s = Some d ->
    validID d.(d_id) = true /\ validID d.(d_organizationId) = true /\ forall run, d.(d_processingRun) = Some run -> validID run = true
}.

(** A commit a command makes: it creates a document, or updates one it saw
    stored. *)
Definition legit (input : DocumentCommit) (s : Documents) : Prop :=
  fits input.(m_document) /\ 0 <= input.(m_document).(d_version) < INTEGER_MAX /\
  match input.(m_mode) with
  | DocumentStore.create => agg_new input.(m_document)
  | update => exists d, wf d /\ agg_change d input.(m_document)
      /\ forall p, documentById input.(m_document).(d_id) s = Some p -> rtc evo d p
  end.

Lemma lengthIn_trimmed s max : Text.wellFormed s = true -> 0 < jlength s <= max -> lengthIn s max = true.
Proof.
  intros Hw Hl. pose proof (charLength_le s). unfold lengthIn. apply andb_true_iff. rewrite Z.ltb_lt, Z.leb_le. split; [|lia].
  apply charLength_pos; [done|]. intros ->. unfold jlength in Hl. cbn in Hl. lia.
Qed.

Lemma row_name d : wf d -> 0 < jlength d.(d_name) <= 200.
Proof.
  intros [Hn _ _ _ _ _ _ _ _]. unfold name in Hn. destruct (_ || _) eqn:E; [done|]. injection Hn as Hn. rewrite Hn in E. breflect.
  unfold jlength in *. lia.
Qed.

Lemma row_key d s : wf d -> d.(d_storageKey) = Some s -> 0 < jlength s <= 512.
Proof.
  intros [_ Hn _ _ _ _ _ _ _] Hs. rewrite Hs in Hn. unfold storageKey, nullable in Hn. destruct (_ || _) eqn:E; [done|]. injection Hn as Hn.
  rewrite Hn in E. breflect. unfold jlength in *. lia.
Qed.

Lemma row_accepted d : wf d -> fits d -> 1 <= d.(d_version) <= INTEGER_MAX -> refusesRow (row d) = None.
Proof.
  intros Hw Hf Hv. unfold refusesRow. cbn [row r_version num_val]. rewrite integer_None by (unfold INTEGER_MAX in *; lia).
  enough (rowChecks (row d) = true) as -> by done. unfold rowChecks, row.
  cbn [r_status r_name r_processingAttempt r_processingFailureCode r_archivedAt r_storageKey r_updatedAt r_createdAt r_version num_val].
  rewrite parseStatus_name. destruct (Hw) as [_ _ Hc Hcr Hup Har Ho Hco Ha].
  rewrite (copyDate_valid (d_createdAt d)), (copyDate_valid (d_updatedAt d)), (copyDateOpt_valid (d_archivedAt d)), Ho by done.
  rewrite (lengthIn_trimmed _ 200 (proj1 (proj1 (fits_name _ Hf))) (row_name _ Hw)). cbn [andb negb].
  rewrite !andb_true_iff, !Z.leb_le. split_and!; try lia; try done.
  - destruct (d_processingFailureCode d) as [c|]; [|done]. cbn in Hc |- *. by destruct (matchesName 127 c).
  - apply negb_true_iff. replace (match nullable (d_processingFailureCode d) with VStr c => Some c | _ => None end) with (d_processingFailureCode d); [done|].
    by destruct (d_processingFailureCode d).
  - destruct (d_storageKey d) as [s|] eqn:Es; [|done]. cbn. by apply lengthIn_trimmed; [apply (fits_key _ Hf)|apply (row_key d)].
Qed.

Lemma values_accepted d : wf d -> fits d -> 0 <= d.(d_version) -> d.(d_version) < INTEGER_MAX ->
  Forall (fun r => r = None) (timestamp d.(d_createdAt) :: integer d.(d_version) :: integer d.(d_processingAttempt) :: rowValues d).
Proof.
  intros [_ _ Hcode Hc Hu Ha _ _ Hat] [Hn Hk Hfc Hfu Hfa Hfat] Hv0 Hv1.
  values.
  - apply text_None, Hn.
  - destruct (d_storageKey d) as [s|]; [|done]. by apply text_None, Hk.
  - destruct (d_processingFailureCode d) as [c|]; [|done]. cbn in Hcode |- *. apply (text_name 127). by destruct (matchesName 127 c).
Qed.

(** A row keeps the text that fits. *)
Lemma sent_name d : fits d -> VStr (sent d.(d_name)) = VStr d.(d_name) /\ nullable (sent <$> d.(d_storageKey)) = nullable d.(d_storageKey).
Proof.
  intros Hf. rewrite sent_clean by apply (fits_name _ Hf). split; [done|]. destruct (d_storageKey d) as [s|] eqn:E; [|done]. cbn.
  by rewrite sent_clean by (by apply (fits_key _ Hf)).
Qed.

Lemma saved_accepted d : wf d -> fits d -> 0 <= d.(d_version) < INTEGER_MAX -> refusesRow (row (saved d)) = None.
Proof.
  intros Hw Hf Hv. apply row_accepted; [by apply saved_wf| |cbn; lia]. by destruct Hf.
Qed.

(** Without unique indexes only the primary key can clash. *)
Lemma document_violation_row id r t : refusesRow r = None -> violation schema id r t = None.
Proof. intros Hr. unfold violation. cbn [schema refuses uniques]. by rewrite Hr. Qed.

Lemma newRow_created i d : Document.create i = Ok d -> fits d -> newRow d = row (saved d).
Proof.
  intros Hc Hf. destruct (sent_name d Hf) as [Hsn Hsk]. unfold newRow. rewrite Hsn, Hsk. clear Hf Hsn Hsk.
  unfold Document.create in Hc. by ok_branches Hc.
Qed.

Lemma step_created d d' : step d d' -> d'.(d_createdAt) = d.(d_createdAt).
Proof.
  intros [x t y H|x t run y H|x t o y H].
  - unfold archive in H. by ok_branches H.
  - unfold beginProcessing in H. by ok_branches H.
  - by destruct (outcome_new _ _ _ _ H) as (_ & _ & s & c & -> & _).
Qed.

(** The statements do what the guards of the in-memory writer allow. *)
Lemma document_statements_spec input s :
  storable s -> legit input s -> Events.assertEventWork input.(m_event) input.(m_work) = Ok tt ->
  match guard input s with
  | Ok _ => statements input (rowsOf s) = (rowsOf (replace (saved input.(m_document)) s), Value tt)
  | Err f => exists t, statements input (rowsOf s) = (t, Refused f)
             \/ exists e, statements input (rowsOf s) = (t, Raised e) /\ handler e = f
  end.
Proof.
  intros Hs (Hf & Hv & Hl) Hp. unfold guard, statements. rewrite Hp. cbn [mbind Result_bind]. set (c := m_document input) in *.
  destruct (sent_name c Hf) as [Hsn Hsk]. destruct (m_mode input).
  - destruct Hl as [i Hc]. pose proof (create_wf _ _ Hc) as Hw.
    pose proof (values_accepted c Hw Hf (proj1 Hv) (proj2 Hv)) as Hva.
    unfold mbind, Body_bind. rewrite parameters_None by (inversion Hva as [|? ? ? Hrest]; inversion Hrest as [|? ? ? Hrest']; inversion Hrest'; by constructor).
    rewrite (newRow_created i c Hc Hf). unfold Sql.insert. cbn [schema refuses]. rewrite (saved_accepted c Hw Hf Hv), has_rowsOf. unfold JsMap.has, documentById.
    destruct (JsMap.get (d_id c) s) as [p|] eqn:Ep; cbn [isNull negb].
    { exists (rowsOf s). right. eexists. split; [done|]. done. }
    by rewrite document_violation_row, set_rowsOf by (by apply saved_accepted).
  - destruct Hl as (d & Hwd & Hst & Hsince). pose proof (step_wf _ _ Hst Hwd) as Hw. destruct (step_fixed _ _ Hst) as (Hid & Ho & Hver).
    unfold mbind, Body_bind. rewrite parameters_None by (pose proof (values_accepted c Hw Hf (proj1 Hv) (proj2 Hv)) as Hva; by inversion Hva).
    rewrite updateOr_spec, get_rowsOf. unfold documentById in *.
    destruct (JsMap.get (d_id c) s) as [p|] eqn:Ep; cbn [fmap option_fmap option_map]; [|by exists (rowsOf s); left].
    destruct (evo_stable _ _ (Hsince p eq_refl)) as (Hpi & Hpv & Hpe). cbn in Hpi, Hpv, Hpe.
    unfold current. cbn [row r_organizationId r_version num_val].
    rewrite (evo_fixed _ _ (Hsince p eq_refl)), Ho, !bool_decide_eq_true_2 by done. cbn [andb negb].
    destruct (d_version p =? d_version c) eqn:Ever; cbn [negb]; [|by exists (rowsOf s); left].
    apply Z.eqb_eq in Ever. assert (p = d) as -> by (apply Hpe; lia). 
    assert (Hrow : setRow c (row d) = row (saved c)).
    { unfold setRow. rewrite Hsn, Hsk. unfold row. cbn. by rewrite Hid, Ho, Ever, (step_created _ _ Hst). }
    rewrite Hrow, document_violation_row by (by apply saved_accepted). by rewrite set_rowsOf.
Qed.

(** ** What is read back. *)

Lemma document_stored_row s d : storable s -> d ∈ JsMap.values s -> documentById d.(d_id) s = Some d.
Proof. intros [Hk _ _] Hd. by apply keyed_values in Hd. Qed.

Lemma document_restoreRow_row s id d : storable s -> documentById id s = Some d -> restoreRow (row d) = Ok d.
Proof.
  intros [_ Hw Hi] Hd. destruct (Hw _ _ Hd) as (Hwf & _ & Hv), (Hi _ _ Hd) as (Hid & Ho & Hr).
  assert (He : Document.restore (row d) = Ok d) by (apply wf_restore; [done|unfold INTEGER_MAX, MAX_SAFE_INTEGER in *; lia]).
  unfold restoreRow. cbn [row r_id r_organizationId r_processingRun]. rewrite (Events.validID_parse _ Hid), (Events.validID_parse _ Ho).
  cbn [mbind Result_bind]. destruct (d_processingRun d) as [run|] eqn:Er; unfold row in He; rewrite Er in He; [|exact He].
  rewrite (Events.validID_parse _ (Hr run eq_refl)). exact He.
Qed.

Lemma document_restoreRow_stored s d : storable s -> d ∈ JsMap.values s -> restoreRow (row d) = Ok d.
Proof. intros Hs Hd. eapply document_restoreRow_row; [done|by apply document_stored_row]. Qed.

Lemma document_findById_rows s id : storable s -> findById id (rowsOf s) = Ok (documentById id s).
Proof. intros Hs. apply firstRow_get. intros d Hd. by eapply document_restoreRow_row. Qed.

Lemma document_key_row s d : storable s -> d ∈ JsMap.values s -> rowKey (row d) = documentKey d.
Proof.
  intros Hs Hd%(document_stored_row s); [|done]. destruct (st_wf _ Hs _ _ Hd) as (Hw & _). unfold rowKey, documentKey. cbn.
  by rewrite copyDate_valid by apply Hw.
Qed.

Lemma document_rows_table s o : storable s -> table documentKey (filter (fun d => bool_decide (d.(d_organizationId) = o) = true) (JsMap.values s)).
Proof.
  intros Hs. split.
  - apply Forall_forall. intros d [_ Hd%(document_stored_row s)]%list_elem_of_filter; [|done]. destruct (st_wf _ Hs _ _ Hd) as (Hw & _).
    split; [apply Hw|]. apply Events.validID_shape. by apply (proj1 (st_ids _ Hs _ _ Hd)).
  - apply (NoDup_fmap_1 id). rewrite <- list_fmap_compose. destruct (st_keyed _ Hs) as [Hw Hk].
    eapply sublist_NoDup; [|apply fmap_sublist, sublist_filter]. by apply (JsMap.NoDup_values d_id).
Qed.

Lemma document_listForOrganization_rows s c o page : storable s -> listForOrganization o page (rowsOf s) = Ok (listPage c o page s).
Proof.
  intros Hs. apply (listPage_rows row restoreRow documentKey rowKey _ (fun d => bool_decide (d.(d_organizationId) = o))).
  - intros d Hd. split_and!; [by eapply document_key_row|done|by eapply document_restoreRow_stored].
  - by apply document_rows_table.
  - unfold documentsForOrganization. rewrite sort_by_perm.
    rewrite (list_filter_iff (fun d => d.(d_organizationId) = o) (fun d => bool_decide (d.(d_organizationId) = o) = true)); [done|].
    intros d. by rewrite bool_decide_eq_true.
Qed.

Section Refines.
  Context {J : Type} `{Jdec : EqDecision J} (jsonb : Events.Raw -> option J).

(** The in-memory commit when its event is published as it is enqueued here. *)
Definition inMemory (input : DocumentCommit) (now : Z) (o : Outbox.Outbox) (s : Documents) : Documents * Res unit :=
  let '(s', _, r) := DocumentStore.commit input (fun _ => (Outbox.enqueue jsonb input.(m_event) now o).2) s in (s', r).

Lemma inMemory_cases input now o s :
  keyed s ->
  inMemory input now o s =
  match guard input s, (Outbox.enqueue jsonb input.(m_event) now o).2 with
  | Ok _, Ok _ => (replace (saved input.(m_document)) s, Ok tt)
  | Ok _, Err f => (s, Err f)
  | Err f, _ => (s, Err f)
  end.
Proof.
  intros [_ Hk]. unfold inMemory, DocumentStore.commit, commitWith. destruct (guard input s) as [previous|f] eqn:E; [|done]. cbn.
  destruct (Outbox.enqueue jsonb (m_event input) now o).2 as [[]|f]; cbn; [done|]. f_equal.
  destruct (guard_ok _ _ _ E) as [-> _]. unfold replace, remove, documentById in *.
  destruct (JsMap.get (d_id (m_document input)) s) as [p|] eqn:Ep.
  - rewrite (Hk _ _ Ep : d_id p = d_id (m_document input)). by apply JsMap.set_undo.
  - by apply JsMap.delete_undo.
Qed.

Lemma document_commit_meets input now s o :
  storable s -> legit input s ->
  meets (callback (commit jsonb input now)) (rowsOf s, o)
    (let '(s', r) := inMemory input now o s in ((rowsOf s', (Outbox.enqueue jsonb input.(m_event) now o).1), r)).
Proof.
  intros Hs Hl. rewrite (inMemory_cases input now o s (st_keyed _ Hs)).
  pose proof (writer_spec jsonb now input.(m_event) input.(m_work) handler (statements input) (rowsOf s) o) as Hw. fold (commit jsonb input now) in Hw.
  pose proof (document_statements_spec input s Hs Hl) as Hst. unfold meets.
  destruct (Events.assertEventWork (m_event input) (m_work input)) as [[]|f] eqn:Ew.
  - specialize (Hst eq_refl). destruct (guard input s) as [p|f].
    + rewrite Hst in Hw. by destruct (Outbox.enqueue jsonb (m_event input) now o) as [o' [[]|f]].
    + destruct Hst as [t [Hst|(e & Hst & <-)]]; by rewrite Hst in Hw.
  - assert (Hg : guard input s = Err f) by (unfold guard; by rewrite Ew). by rewrite Hg.
Qed.

(** C16. The PostgreSQL adapters of the document module implement the in-memory
    ones. Let the table hold the rows of documents that the in-memory store could
    hold, within the range of the columns: text without lone surrogates and
    U+0000, timestamps the server has, attempts and versions that fit an integer.
    Then the transaction of a commit that creates a document, or updates one seen
    stored, has exactly two outcomes: it writes the row of the document that the
    in-memory commit would store and the outbox as the enqueued event leaves it,
    when that commit would be accepted, answering success or that the outcome is
    uncertain; or it leaves table and outbox as they were and answers a failure,
    the database's or exactly the one of the in-memory commit. Undisturbed, its
    answer is the in-memory one. The reader restores from the rows the very
    documents that the in-memory reader answers, by identifier and by page, for
    any collation of the in-memory store. *)
Theorem documents_postgres_refines (input : DocumentCommit) (now : Z) (s : Documents) (o o' : Outbox.Outbox) (t' : Table) (r : Res unit)
    (Hstored : storable s) (Hlegit : legit input s)
    (Hrun : Database.transacts (callback (commit jsonb input now)) (rowsOf s, o) r (t', o')) :
  (callback (commit jsonb input now) (rowsOf s, o)).2 = (inMemory input now o s).2
  /\ (((exists s', inMemory input now o s = (s', Ok tt) /\ t' = rowsOf s')
       /\ o' = (Outbox.enqueue jsonb input.(m_event) now o).1
       /\ (r = Ok tt \/ r = Err Database.uncertain))
      \/ (t' = rowsOf s /\ o' = o /\ exists f, r = Err f
          /\ (Database.fault f \/ inMemory input now o s = (s, Err f))))
  /\ (forall id, findById id (rowsOf s) = Ok (documentById id s))
  /\ (forall localeCompare organizationId page,
        listForOrganization organizationId page (rowsOf s) = Ok (listPage localeCompare organizationId page s)).
Proof.
  pose proof (inMemory_cases input now o s (st_keyed _ Hstored)) as Hsame.
  destruct (meets_transacts _ _ _ _ _ (document_commit_meets input now s o Hstored Hlegit) Hrun) as [Ha Hd].
  destruct (inMemory input now o s) as [s' r'] eqn:Em. cbn [snd] in Ha, Hd.
  split_and!.
  - exact Ha.
  - destruct Hd as [[[= <- <- ->] Hr]|([= -> ->] & f & -> & Hf)].
    + left. split_and!; [by eexists|done|done].
    + right. split_and!; [done..|]. exists f. split; [done|]. destruct Hf as [Hf|Hf]; [by left|]. right. subst r'.
      destruct (guard input s), (Outbox.enqueue jsonb (m_event input) now o).2 as [[]|]; congruence.
  - intros id. by apply document_findById_rows.
  - intros. by apply document_listForOrganization_rows.
Qed.
End Refines.

(** A name with U+0000 is a document's name, but not the server's text. *)
Lemma nul_refused {J} `{Jdec : EqDecision J} (jsonb : Events.Raw -> option J) input now s o :
  0 ∈ (m_document input).(d_name) -> Events.assertEventWork input.(m_event) input.(m_work) = Ok tt ->
  input.(m_mode) = DocumentStore.create -> timestamp (m_document input).(d_createdAt) = None ->
  (callback (commit jsonb input now) (rowsOf s, o)).2 = Err (fail_with internal "database operation failed" "database.failed").
Proof.
  intros Hn Hw Hm Hc. pose proof (writer_spec jsonb now input.(m_event) input.(m_work) handler (statements input) (rowsOf s) o) as Hspec.
  fold (commit jsonb input now) in Hspec. rewrite Hw in Hspec. unfold statements in Hspec. rewrite Hm in Hspec.
  assert (Ht : text (d_name (m_document input)) = Some "22021"%string).
  { unfold text. replace (existsb _ _) with true; [done|]. symmetry. apply existsb_exists. exists 0. by rewrite <- list_elem_of_In. }
  unfold mbind, Body_bind, parameters, rowValues in Hspec. cbn [find_first List.find] in Hspec. by rewrite Hc, Ht in Hspec.
Qed.

Lemma pg_storable_nil : storable [].
Proof. by constructor; [apply keyed_nil|..]. Qed.

Definition sample_creation : DocumentCommit :=
  mkCommit DocumentStore.create DocumentWorld.sample_new Events.sample_envelope Events.sample_context.

Lemma documents_postgres_refines_witness :
  (callback (commit Events.json sample_creation 1000) (rowsOf [], [])).2 = Ok tt
  /\ exists s', inMemory Events.json sample_creation 1000 [] [] = (s', Ok tt)
       /\ (callback (commit Events.json sample_creation 1000) (rowsOf [], [])).1.1 = rowsOf s'.
Proof.
  assert (H : callback (commit Events.json sample_creation 1000) (rowsOf [], []) =
    ((rowsOf [(d_id DocumentWorld.sample_new, saved DocumentWorld.sample_new)],
      [(Events.e_id Events.sample_envelope, LeasedRows.inserted 1000 (Events.bytes Events.sample_envelope))]), Ok tt)) by (vm_compute; reflexivity).
  assert (Hl : legit sample_creation []).
  { split; [|split; [by split|]].
    - constructor; [|done..]. split; [apply clean_ascii|]; repeat constructor; done.
    - exists (mkCreate (d_id DocumentWorld.sample_new) (d_organizationId DocumentWorld.sample_new) (VStr (js "Plan")) VUndefined (DateAt 1000)).
      vm_compute. reflexivity. }
  destruct (documents_postgres_refines Events.json sample_creation 1000 [] [] _ _ _ pg_storable_nil Hl (Database.tx_done _ _ _ _ H))
    as (Hr & [((s' & Hs & Ht) & _)|(_ & _ & f & Hf & _)] & _); [|done].
  split; [by rewrite H|]. exists s'. split; [exact Hs|]. by rewrite H.
Defined.
End PgDocuments.
