(* ===== verification/OrganizationPostgres.v ===== *)
(** * The organization module on PostgreSQL: [modules/organization/infra/postgres].

    Three tables with their constraints and foreign keys, the four writers'
    transactions and the readers' queries, and that they do what the in-memory
    writers and readers do. *)
From stdpp Require Import relations.
From S2P Require Import Prelude Async JsMap Errors Ids CaseFolding Json Text JsonText JsonPrint Pagination Provenance Events Commands Aggregates Writers.
From S2P Require Import OrganizationDomain OrganizationStore OrganizationApp Postgres Inbox EventStore Sql.

Module PgOrganizations.
Import OrganizationStore.OrgFailures OrganizationStore.OrgStore OrganizationApp.OrgPorts OrganizationApp.OrgWorld Sql.Sql.
Import (hints) Organization Membership Invitation.
Import OrganizationDomain.Organization(Organization, o_id, o_name, o_slug, o_status, o_createdAt, o_updatedAt, o_version).
Import OrganizationDomain.Membership(Membership, m_id, m_organizationId, m_identityId, m_role, m_status, m_createdAt, m_updatedAt, m_revokedAt, m_version).
Import OrganizationDomain.Invitation(Invitation, n_id, n_organizationId, n_identityId, n_role, n_status, n_createdAt, n_updatedAt, n_expiresAt,
  n_acceptedAt, n_revokedAt, n_version).
Import Postgres.Database(Thrown, DatabaseError, violatedUnique).

(** ** The tables. *)

Abbreviation ORow := Organization.Row.
Abbreviation MRow := Membership.Row.
Abbreviation NRow := Invitation.Row.

Record Tables : Type := mkTables { organizations : list (ID * ORow); memberships : list (ID * MRow); invitations : list (ID * NRow) }.

Definition isText (s : string) (v : JsValue) : bool := match v with VStr t => bool_decide (t = js s) | _ => false end.

(** @src src/modules/organization/infra/postgres/migrations/baseline.sql:54-58 n2f_organization_organizations *)
Definition organizationChecks (r : ORow) : bool :=
  negb (date_lt r.(Organization.r_updatedAt) r.(Organization.r_createdAt))
  && match r.(Organization.r_name) with VStr s => (0 <? charLength s) && (charLength s <=? 160) | _ => false end
  && match r.(Organization.r_slug) with VStr s => Organization.slugPattern s | _ => false end
  && negb (isNull (Organization.parseStatus r.(Organization.r_status)))
  && (1 <=? num_val r.(Organization.r_version)).

(** @src src/modules/organization/infra/postgres/migrations/baseline.sql:39-43 n2f_organization_memberships *)
Definition membershipChecks (r : MRow) : bool :=
  negb (date_lt r.(Membership.r_updatedAt) r.(Membership.r_createdAt))
  && match Membership.parseStatus r.(Membership.r_status) with
     | Some status => negb (Membership.incoherent status r.(Membership.r_revokedAt))
     | None => false
     end
  && negb (isNull (Membership.parseRole r.(Membership.r_role)))
  && (1 <=? num_val r.(Membership.r_version)).

(** @src src/modules/organization/infra/postgres/migrations/baseline.sql:21-26 n2f_organization_invitations *)
Definition invitationChecks (r : NRow) : bool :=
  negb (date_lt r.(Invitation.r_updatedAt) r.(Invitation.r_createdAt))
  && negb (date_le r.(Invitation.r_expiresAt) r.(Invitation.r_createdAt))
  && match Invitation.parseStatus r.(Invitation.r_status) with
     | Some status => negb (Invitation.incoherent status r.(Invitation.r_acceptedAt) r.(Invitation.r_revokedAt))
     | None => false
     end
  && negb (isNull (Invitation.parseRole r.(Invitation.r_role)))
  && (1 <=? num_val r.(Invitation.r_version)).

(** @src src/modules/organization/infra/failures.ts:45-53 CONSTRAINTS *)
Definition organizationPkey : string := "n2f_organization_organizations_pkey".
Definition slugKey : string := "n2f_organization_organizations_slug_key".
Definition membershipPkey : string := "n2f_organization_memberships_pkey".
Definition membershipIdentity : string := "n2f_organization_membership_organization_id_identity_id_key".
Definition invitationPkey : string := "n2f_organization_invitations_pkey".
Definition pendingInvitation : string := "n2f_organization_invitations_pending_identity".

(** @src src/modules/organization/infra/postgres/migrations/baseline.sql:73-74 n2f_organization_organizations_slug_key *)
Definition sameSlug (a b : ORow) : bool := bool_decide (a.(Organization.r_slug) = b.(Organization.r_slug)).
(** @src src/modules/organization/infra/postgres/migrations/baseline.sql:64-65 n2f_organization_membership_organization_id_identity_id_key *)
Definition sameMember (a b : MRow) : bool :=
  bool_decide (a.(Membership.r_organizationId) = b.(Membership.r_organizationId))
  && bool_decide (a.(Membership.r_identityId) = b.(Membership.r_identityId)).
(** @src src/modules/organization/infra/postgres/migrations/baseline.sql:76-76 n2f_organization_invitations_pending_identity *)
Definition samePending (a b : NRow) : bool :=
  isText "pending" a.(Invitation.r_status) && isText "pending" b.(Invitation.r_status)
  && bool_decide (a.(Invitation.r_organizationId) = b.(Invitation.r_organizationId))
  && bool_decide (a.(Invitation.r_identityId) = b.(Invitation.r_identityId)).

Definition organizationSchema : Schema ORow :=
  mkSchema (fun r => refusing r.(Organization.r_version) (organizationChecks r)) organizationPkey [(slugKey, sameSlug)].
Definition membershipSchema : Schema MRow :=
  mkSchema (fun r => refusing r.(Membership.r_version) (membershipChecks r)) membershipPkey [(membershipIdentity, sameMember)].
Definition invitationSchema : Schema NRow :=
  mkSchema (fun r => refusing r.(Invitation.r_version) (invitationChecks r)) invitationPkey [(pendingInvitation, samePending)].

Definition onOrganizations {A} : Body (list (ID * ORow)) A -> Body Tables A :=
  on organizations (fun t s => mkTables t s.(memberships) s.(invitations)).
Definition onMemberships {A} : Body (list (ID * MRow)) A -> Body Tables A :=
  on memberships (fun t s => mkTables s.(organizations) t s.(invitations)).
Definition onInvitations {A} : Body (list (ID * NRow)) A -> Body Tables A :=
  on invitations (fun t s => mkTables s.(organizations) s.(memberships) t).

(** @src src/modules/organization/infra/postgres/migrations/baseline.sql:80-84 n2f_organization_memberships_organization_id_fkey
    A foreign key, checked when the statement ends; organizations are never
    deleted. *)
Definition belongsTo (name : string) (organizationId : ID) : Body Tables unit := fun t =>
  if JsMap.has organizationId t.(organizations) then (t, Value tt) else (t, Raised (DatabaseError "23503" (Some name))).

(** ** The writers. *)

(** @src src/modules/organization/infra/postgres/writer.ts:43-55 commit
    Versions of new rows are the columns' default; text is stored as it
    arrives. *)
Definition insertOrganization (o : Organization) : Body Tables unit :=
  _ ← parameters [text o.(o_name); text o.(o_slug); timestamp o.(o_createdAt); timestamp o.(o_updatedAt)];
  onOrganizations (insert organizationSchema o.(o_id)
    (Organization.mkRow o.(o_id) (VStr (sent o.(o_name))) (VStr (sent o.(o_slug))) (Organization.statusName o.(o_status))
       (copyDate o.(o_createdAt)) (copyDate o.(o_updatedAt)) (Int 1))).

(** @src src/modules/organization/infra/postgres/membership-writer.ts:39-53 commit *)
Definition insertMembership (m : Membership) : Body Tables unit :=
  _ ← parameters [timestamp m.(m_createdAt); timestamp m.(m_updatedAt); nullableTimestamp m.(m_revokedAt)];
  _ ← onMemberships (insert membershipSchema m.(m_id)
        (Membership.mkRow m.(m_id) m.(m_organizationId) m.(m_identityId) (VStr (js (Membership.roleName m.(m_role))))
           (VStr (js (Membership.statusName m.(m_status)))) (copyDate m.(m_createdAt)) (copyDate m.(m_updatedAt))
           (copyDateOpt m.(m_revokedAt)) (Int 1)));
  belongsTo "n2f_organization_memberships_organization_id_fkey" m.(m_organizationId).

(** @src src/modules/organization/infra/postgres/membership-writer.ts:55-67 commit *)
Definition setMembership (m : Membership) (old : MRow) : MRow :=
  Membership.mkRow old.(Membership.r_id) old.(Membership.r_organizationId) old.(Membership.r_identityId) (VStr (js (Membership.roleName m.(m_role))))
    (VStr (js (Membership.statusName m.(m_status)))) old.(Membership.r_createdAt) (copyDate m.(m_updatedAt)) (copyDateOpt m.(m_revokedAt))
    (Int (num_val old.(Membership.r_version) + 1)).

(** @src src/modules/organization/infra/postgres/invitation-writer.ts:35-51 commit *)
Definition insertInvitation (n : Invitation) : Body Tables unit :=
  _ ← parameters [timestamp n.(n_createdAt); timestamp n.(n_updatedAt); timestamp n.(n_expiresAt); nullableTimestamp n.(n_acceptedAt);
                  nullableTimestamp n.(n_revokedAt)];
  _ ← onInvitations (insert invitationSchema n.(n_id)
        (Invitation.mkRow n.(n_id) n.(n_organizationId) n.(n_identityId) (VStr (js (Invitation.roleName n.(n_role))))
           (VStr (js (Invitation.statusName n.(n_status)))) (copyDate n.(n_createdAt)) (copyDate n.(n_updatedAt)) (copyDate n.(n_expiresAt))
           (copyDateOpt n.(n_acceptedAt)) (copyDateOpt n.(n_revokedAt)) (Int 1)));
  belongsTo "n2f_organization_invitations_organization_id_fkey" n.(n_organizationId).

(** @src src/modules/organization/infra/postgres/invitation-writer.ts:53-68 commit *)
Definition setInvitation (n : Invitation) (old : NRow) : NRow :=
  Invitation.mkRow old.(Invitation.r_id) old.(Invitation.r_organizationId) old.(Invitation.r_identityId) (VStr (js (Invitation.roleName n.(n_role))))
    (VStr (js (Invitation.statusName n.(n_status)))) old.(Invitation.r_createdAt) (copyDate n.(n_updatedAt)) (copyDate n.(n_expiresAt))
    (copyDateOpt n.(n_acceptedAt)) (copyDateOpt n.(n_revokedAt)) (Int (num_val old.(Invitation.r_version) + 1)).

(** @src src/modules/organization/infra/postgres/invitation-acceptance-writer.ts:32-37 commit *)
Definition setAccepted (n : Invitation) (old : NRow) : NRow :=
  Invitation.mkRow old.(Invitation.r_id) old.(Invitation.r_organizationId) old.(Invitation.r_identityId) old.(Invitation.r_role)
    (VStr (js "accepted")) old.(Invitation.r_createdAt) (copyDate n.(n_updatedAt)) old.(Invitation.r_expiresAt)
    (Some (copyDate n.(n_updatedAt))) old.(Invitation.r_revokedAt) (Int (num_val old.(Invitation.r_version) + 1)).

(** @src src/modules/organization/infra/postgres/writer.ts:80-90 commit *)
Definition organizationHandler (cause : Thrown) : Failure :=
  match violatedUnique cause with
  | Some c =>
      if bool_decide (c = slugKey) then slugTaken
      else if bool_decide (c = organizationPkey) then organizationExists
      else if bool_decide (c = membershipPkey) || bool_decide (c = membershipIdentity) then ownerMembershipExists
      else Database.map cause
  | None => Database.map cause
  end.

(** @src src/modules/organization/infra/postgres/membership-writer.ts:83-89 commit
    Of the acceptance, too. *)
Definition memberHandler (exists_ : Failure) (cause : Thrown) : Failure :=
  match violatedUnique cause with
  | Some c => if bool_decide (c = membershipPkey) || bool_decide (c = membershipIdentity) then exists_ else Database.map cause
  | None => Database.map cause
  end.

(** @src src/modules/organization/infra/postgres/invitation-writer.ts:83-90 commit *)
Definition invitationHandler (cause : Thrown) : Failure :=
  match violatedUnique cause with
  | Some c =>
      if bool_decide (c = invitationPkey) then invitationExists
      else if bool_decide (c = pendingInvitation) then pendingInvitationExists
      else Database.map cause
  | None => Database.map cause
  end.

(** @src src/modules/organization/infra/postgres/writer.ts:43-71 commit *)
Definition organizationStatements (input : OrganizationCommit) : Body Tables unit :=
  _ ← insertOrganization input.(oc_organization);
  insertMembership input.(oc_ownerMembership).

(** @src src/modules/organization/infra/postgres/membership-writer.ts:35-79 commit *)
Definition membershipStatements (input : MembershipCommit) : Body Tables unit :=
  let membership := input.(mc_membership) in
  if membership.(m_version) =? UNSAVED then insertMembership membership
  else
    _ ← parameters [timestamp membership.(m_updatedAt); nullableTimestamp membership.(m_revokedAt); integer membership.(m_version)];
    onMemberships (updateOr membershipNotFound staleWrite membershipSchema membership.(m_id)
      (fun r => num_val r.(Membership.r_version) =? membership.(m_version)) (setMembership membership)).

(** @src src/modules/organization/infra/postgres/invitation-writer.ts:32-80 commit *)
Definition invitationStatements (input : InvitationCommit) : Body Tables unit :=
  let invitation := input.(ic_invitation) in
  if invitation.(n_version) =? UNSAVED then insertInvitation invitation
  else
    _ ← parameters [timestamp invitation.(n_updatedAt); timestamp invitation.(n_expiresAt); nullableTimestamp invitation.(n_acceptedAt);
                    nullableTimestamp invitation.(n_revokedAt); integer invitation.(n_version)];
    onInvitations (updateOr invitationNotFound staleWrite invitationSchema invitation.(n_id)
      (fun r => num_val r.(Invitation.r_version) =? invitation.(n_version)) (setInvitation invitation)).

(** @src src/modules/organization/infra/postgres/invitation-acceptance-writer.ts:32-51 commit
    The membership is inserted as active and unchanged. *)
Definition acceptanceStatements (input : AcceptanceCommit) : Body Tables unit :=
  let invitation := input.(ac_invitation) in
  let m := input.(ac_membership) in
  _ ← parameters [timestamp invitation.(n_updatedAt); integer invitation.(n_version)];
  accepted ← onInvitations (update invitationSchema invitation.(n_id)
    (fun r => isText "pending" r.(Invitation.r_status) && (num_val r.(Invitation.r_version) =? invitation.(n_version))) (setAccepted invitation));
  _ ← if accepted =? 1 then ret tt else refuse acceptanceConflict;
  insertMembership (Membership.mkMembership m.(m_id) m.(m_organizationId) m.(m_identityId) m.(m_role) Membership.active m.(m_createdAt)
    m.(m_createdAt) None UNSAVED).

Inductive Commit : Type :=
| cOrganization (input : OrganizationCommit) | cMembership (input : MembershipCommit)
| cInvitation (input : InvitationCommit) | cAcceptance (input : AcceptanceCommit).

Section Writer.
  Context {J : Type} `{Jdec : EqDecision J} (jsonb : Events.Raw -> option J).

(** @src src/modules/organization/infra/postgres/writer.ts:29-93 commit
    The callbacks of the transactions. *)
Definition commitOrganization (input : OrganizationCommit) (now : Z) : Body (Tables * Outbox.Outbox) unit :=
  writerAll jsonb now input.(oc_events) input.(oc_work) organizationHandler (organizationStatements input).
(** @src src/modules/organization/infra/postgres/membership-writer.ts:31-92 commit *)
Definition commitMembership (input : MembershipCommit) (now : Z) : Body (Tables * Outbox.Outbox) unit :=
  writerAll jsonb now [input.(mc_event)] input.(mc_work) (memberHandler membershipExists) (membershipStatements input).
(** @src src/modules/organization/infra/postgres/invitation-writer.ts:28-93 commit *)
Definition commitInvitation (input : InvitationCommit) (now : Z) : Body (Tables * Outbox.Outbox) unit :=
  writerAll jsonb now [input.(ic_event)] input.(ic_work) invitationHandler (invitationStatements input).
(** @src src/modules/organization/infra/postgres/invitation-acceptance-writer.ts:22-68 commit *)
Definition commitAcceptance (input : AcceptanceCommit) (now : Z) : Body (Tables * Outbox.Outbox) unit :=
  writerAll jsonb now input.(ac_events) input.(ac_work) (memberHandler acceptedMembershipExists) (acceptanceStatements input).

(** One of the four. *)
Definition commit (c : Commit) (now : Z) : Body (Tables * Outbox.Outbox) unit :=
  match c with
  | cOrganization i => commitOrganization i now
  | cMembership i => commitMembership i now
  | cInvitation i => commitInvitation i now
  | cAcceptance i => commitAcceptance i now
  end.
End Writer.

(** ** The readers. *)

(** @src src/modules/organization/infra/postgres/membership-reader.ts:25-55 membershipFrom
    Identifiers are text here. *)
Definition membershipFrom (r : MRow) : Res Membership :=
  id ← Ids.parse (VStr r.(Membership.r_id));
  organizationId ← Ids.parse (VStr r.(Membership.r_organizationId));
  identityId ← Ids.parse (VStr r.(Membership.r_identityId));
  Membership.restore (Membership.mkRow id organizationId identityId r.(Membership.r_role) r.(Membership.r_status) r.(Membership.r_createdAt)
    r.(Membership.r_updatedAt) r.(Membership.r_revokedAt) r.(Membership.r_version)).

(** @src src/modules/organization/infra/postgres/invitation-reader.ts:21-26 id *)
Definition storedId (value : ID) : Res ID :=
  match Ids.parse (VStr value) with
  | Ok id => Ok id
  | Err _ => Err (fail_with internal "stored invitation ID is invalid" "organization.persistence_invalid")
  end.

(** @src src/modules/organization/infra/postgres/invitation-reader.ts:28-48 restore *)
Definition invitationFrom (r : NRow) : Res Invitation :=
  id ← storedId r.(Invitation.r_id);
  organizationId ← storedId r.(Invitation.r_organizationId);
  identityId ← storedId r.(Invitation.r_identityId);
  Invitation.restore (Invitation.mkRow id organizationId identityId r.(Invitation.r_role) r.(Invitation.r_status) r.(Invitation.r_createdAt)
    r.(Invitation.r_updatedAt) r.(Invitation.r_expiresAt) r.(Invitation.r_acceptedAt) r.(Invitation.r_revokedAt) r.(Invitation.r_version)).

(** @src src/modules/organization/infra/postgres/reader.ts:44-75 viewFrom
    A row of the join: the organization's columns and the membership's. *)
Definition viewFrom `{CaseFolding} (r : ORow * MRow) : Res View :=
  let '(o, m) := r in
  organizationId ← Ids.parse (VStr o.(Organization.r_id));
  membershipId ← Ids.parse (VStr m.(Membership.r_id));
  identityId ← Ids.parse (VStr m.(Membership.r_identityId));
  organization ← Organization.restore (Organization.mkRow organizationId o.(Organization.r_name) o.(Organization.r_slug) o.(Organization.r_status)
    o.(Organization.r_createdAt) o.(Organization.r_updatedAt) o.(Organization.r_version));
  membership ← Membership.restore (Membership.mkRow membershipId organizationId identityId m.(Membership.r_role) m.(Membership.r_status)
    m.(Membership.r_createdAt) m.(Membership.r_updatedAt) m.(Membership.r_revokedAt) m.(Membership.r_version));
  Ok (mkView organization membership).

(** @src src/modules/organization/infra/postgres/membership-reader.ts:60-71 findById *)
Definition findMembership (id : ID) (t : Tables) : Res (option Membership) :=
  firstRow membershipFrom (option_list (JsMap.get id t.(memberships))).

Definition ofMember (organizationId identityId : ID) (r : MRow) : bool :=
  bool_decide (r.(Membership.r_organizationId) = organizationId) && bool_decide (r.(Membership.r_identityId) = identityId).

(** @src src/modules/organization/infra/postgres/membership-reader.ts:73-85 findActiveForIdentity *)
Definition findActiveForIdentity (organizationId identityId : ID) (t : Tables) : Res (option Membership) :=
  firstRow membershipFrom (filter (fun r => ofMember organizationId identityId r && isText "active" r.(Membership.r_status) = true)
    (JsMap.values t.(memberships))).

(** @src src/modules/organization/infra/postgres/membership-reader.ts:87-99 findForIdentity *)
Definition findForIdentity (organizationId identityId : ID) (t : Tables) : Res (option Membership) :=
  firstRow membershipFrom (filter (fun r => ofMember organizationId identityId r = true) (JsMap.values t.(memberships))).

(** @src src/modules/organization/infra/postgres/invitation-reader.ts:53-71 findById *)
Definition findInvitation (id : ID) (t : Tables) : Res (option Invitation) :=
  firstRow invitationFrom (option_list (JsMap.get id t.(invitations))).

(** @src src/modules/organization/infra/postgres/invitation-reader.ts:73-93 findPendingForIdentity
    [ORDER BY created_at DESC LIMIT 1]. *)
Definition findPendingForIdentity (organizationId identityId : ID) (t : Tables) : Res (option Invitation) :=
  firstRow invitationFrom (take 1 (sort_by (fun a b => getTime b.(Invitation.r_createdAt) - getTime a.(Invitation.r_createdAt))
    (filter (fun r => bool_decide (r.(Invitation.r_organizationId) = organizationId) && bool_decide (r.(Invitation.r_identityId) = identityId)
                      && isText "pending" r.(Invitation.r_status) = true) (JsMap.values t.(invitations))))).

(** The rows of memberships joined with their organizations' that pass [p]. *)
Definition joined (p : MRow -> ORow -> bool) (t : Tables) : list (ORow * MRow) :=
  omap (fun m => match JsMap.get m.(Membership.r_organizationId) t.(organizations) with
                 | Some o => if p m o then Some (o, m) else None
                 | None => None
                 end) (JsMap.values t.(memberships)).

(** @src src/modules/organization/infra/postgres/reader.ts:80-126 listForIdentity *)
Definition listForIdentity `{CaseFolding} (identityId : ID) (t : Tables) : Res (list View) :=
  restoreAll viewFrom
    (sort_by (byKey (fun r => mkAfter r.1.(Organization.r_createdAt) r.1.(Organization.r_id)))
       (joined (fun m o => bool_decide (m.(Membership.r_identityId) = identityId) && isText "active" m.(Membership.r_status)
                           && negb (bool_decide (o.(Organization.r_status) = "archived"%string))) t)).

(** ** The same objects, as rows. *)

Abbreviation Stores := OrganizationStore.OrgStore.Stores.
Abbreviation os := OrganizationStore.OrgStore.organizations.
Abbreviation ms := OrganizationStore.OrgStore.memberships.
Abbreviation ns := OrganizationStore.OrgStore.invitations.

Definition tablesOf (s : Stores) : Tables :=
  mkTables (Sql.rowsOf Organization.row (os s)) (Sql.rowsOf Membership.row (ms s)) (Sql.rowsOf Invitation.row (ns s)).

(** What the columns hold. *)
Definition fitsOrganization (o : Organization) : Prop := plain o.(o_name) /\ timed o.(o_createdAt) /\ timed o.(o_updatedAt).
Definition fitsMembership (m : Membership) : Prop := timed m.(m_createdAt) /\ timed m.(m_updatedAt) /\ timedOpt m.(m_revokedAt).
Definition fitsInvitation (n : Invitation) : Prop :=
  timed n.(n_createdAt) /\ timed n.(n_updatedAt) /\ timed n.(n_expiresAt) /\ timedOpt n.(n_acceptedAt) /\ timedOpt n.(n_revokedAt).

Section Rows.
  Context `{CaseFolding}.

Lemma slug_pattern o : Organization.wf o -> Organization.slugPattern o.(o_slug) = true.
Proof.
  intros [_ Hs _ _ _]. unfold Organization.slugOf in Hs. destruct (_ || _) eqn:E; [done|]. injection Hs as Hs. rewrite Hs in E.
  apply orb_false_iff in E as [_ E]. by apply negb_false_iff in E.
Qed.

Lemma slug_ascii s : Organization.slugPattern s = true -> Forall (fun c => 0 < c < 128) s.
Proof.
  destruct s as [|c s]; [done|]. cbn. rewrite !andb_true_iff. intros [[Hc Hs] _]. constructor.
  - unfold isLower in Hc. breflect. lia.
  - apply Is_true_true, forallb_True in Hs. eapply Forall_impl; [exact Hs|]. intros x Hx%Is_true_true.
    unfold isLower, isDigit in Hx. repeat (apply orb_true_iff in Hx as [Hx|Hx]); breflect; lia.
Qed.

Lemma slug_plain o : Organization.wf o -> plain o.(o_slug).
Proof.
  intros Hs%slug_pattern%slug_ascii. split; [apply clean_ascii|]; (eapply Forall_impl; [exact Hs|]); cbn; lia.
Qed.

Lemma organization_name o : Organization.wf o -> 0 < jlength o.(o_name) <= 160.
Proof.
  intros [Hn _ _ _ _]. unfold Organization.nameOf in Hn. destruct (_ || _) eqn:E; [done|]. injection Hn as Hn. rewrite Hn in E. breflect.
  unfold jlength, Organization.MAX_NAME_LENGTH in *. lia.
Qed.

Lemma organization_accepted o :
  Organization.wf o -> fitsOrganization o -> 1 <= o.(o_version) <= INTEGER_MAX -> organizationSchema.(refuses) (Organization.row o) = None.
Proof.
  intros Hw (Hn & _) Hv. cbn [organizationSchema refuses Organization.row Organization.r_version]. apply refusing_None; [done|].
  unfold organizationChecks. cbn [Organization.row Organization.r_updatedAt Organization.r_createdAt Organization.r_name Organization.r_slug
    Organization.r_status Organization.r_version num_val].
  rewrite !copyDate_valid by apply Hw. rewrite (Organization.wf_order _ Hw), slug_pattern, Organization.organization_parseStatus_name by done.
  pose proof (organization_name _ Hw) as Hl. pose proof (charLength_le (o_name o)). cbn [negb isNull andb].
  rewrite !andb_true_iff, Z.ltb_lt, !Z.leb_le. split_and!; try done; try lia.
  apply charLength_pos; [apply Hn|]. intros E. rewrite E in Hl. cbn in Hl. unfold jlength in Hl. cbn in Hl. lia.
Qed.

Lemma membership_accepted m :
  Membership.wf m -> 1 <= m.(m_version) <= INTEGER_MAX -> membershipSchema.(refuses) (Membership.row m) = None.
Proof.
  intros Hw Hv. cbn [membershipSchema refuses Membership.row Membership.r_version]. apply refusing_None; [done|].
  unfold membershipChecks. cbn [Membership.row Membership.r_updatedAt Membership.r_createdAt Membership.r_role Membership.r_status Membership.r_revokedAt
    Membership.r_version num_val].
  destruct (Membership.membership_names (m_role m) (m_status m)) as [-> ->]. destruct Hw as [Hc Hu Hr Ho Hco].
  rewrite !copyDate_valid, copyDateOpt_valid, Ho, Hco by done. cbn [negb andb isNull]. apply Z.leb_le. lia.
Qed.

Lemma invitation_accepted n :
  Invitation.wf n -> 1 <= n.(n_version) <= INTEGER_MAX -> invitationSchema.(refuses) (Invitation.row n) = None.
Proof.
  intros Hw Hv. cbn [invitationSchema refuses Invitation.row Invitation.r_version]. apply refusing_None; [done|].
  unfold invitationChecks. cbn [Invitation.row Invitation.r_updatedAt Invitation.r_createdAt Invitation.r_expiresAt Invitation.r_role Invitation.r_status
    Invitation.r_acceptedAt Invitation.r_revokedAt Invitation.r_version num_val].
  destruct (Invitation.invitation_names (n_role n) (n_status n)) as [-> ->]. destruct Hw as [Hc Hu He Ha Hr Ho Hx Hco].
  rewrite !copyDate_valid, !copyDateOpt_valid, Ho, Hx, Hco by done. cbn [negb andb isNull]. apply Z.leb_le. lia.
Qed.

(** What the in-memory store keeps true ([OrgWorld.Inv]), within the range of the
    columns. *)
Record storable (s : Stores) : Prop := mkStorable {
  st_wf : OrgStore.wf s;
  st_organization : forall id o, organizationById id s = Some o ->
    Organization.wf o /\ fitsOrganization o /\ FIRST <= o.(o_version) < INTEGER_MAX /\ validID o.(o_id) = true;
  st_membership : forall id m, membershipById id s = Some m ->
    Membership.wf m /\ fitsMembership m /\ FIRST <= m.(m_version) < INTEGER_MAX
    /\ validID m.(m_id) = true /\ validID m.(m_organizationId) = true /\ validID m.(m_identityId) = true;
  st_invitation : forall id n, invitationById id s = Some n ->
    Invitation.wf n /\ fitsInvitation n /\ FIRST <= n.(n_version) < INTEGER_MAX
    /\ validID n.(n_id) = true /\ validID n.(n_organizationId) = true /\ validID n.(n_identityId) = true;
  st_slug : forall a b o o', organizationById a s = Some o -> organizationById b s = Some o' -> o.(o_slug) = o'.(o_slug) -> a = b;
  st_member : forall a b m m', membershipById a s = Some m -> membershipById b s = Some m' ->
    m.(m_organizationId) = m'.(m_organizationId) -> m.(m_identityId) = m'.(m_identityId) -> a = b;
  st_pending : forall a b n n', invitationById a s = Some n -> invitationById b s = Some n' ->
    n.(n_organizationId) = n'.(n_organizationId) -> n.(n_identityId) = n'.(n_identityId) ->
    n.(n_status) = Invitation.pending -> n'.(n_status) = Invitation.pending -> a = b;
  st_home : forall id m, membershipById id s = Some m -> exists o, organizationById m.(m_organizationId) s = Some o;
  st_invite_home : forall id n, invitationById id s = Some n -> exists o, organizationById n.(n_organizationId) s = Some o
}.

(** ** Inserts. *)

Lemma hasMembership_get s o i :
  keyed (ms s) -> hasMembership o i s = true <-> exists id m, membershipById id s = Some m /\ m.(m_organizationId) = o /\ m.(m_identityId) = i.
Proof.
  intros Hk. split; [by apply hasMembership_true|]. intros (id & m & Hm & Ho & Hi). destruct (hasMembership o i s) eqn:E; [done|].
  exfalso. by eapply hasMembership_false.
Qed.

Lemma sameMember_row a b :
  sameMember (Membership.row a) (Membership.row b) = true <-> a.(m_organizationId) = b.(m_organizationId) /\ a.(m_identityId) = b.(m_identityId).
Proof. unfold sameMember. cbn. by rewrite andb_true_iff, !bool_decide_eq_true. Qed.

Lemma samePending_row a b :
  samePending (Invitation.row a) (Invitation.row b) = true <->
  a.(n_status) = Invitation.pending /\ b.(n_status) = Invitation.pending
  /\ a.(n_organizationId) = b.(n_organizationId) /\ a.(n_identityId) = b.(n_identityId).
Proof.
  unfold samePending. cbn [Invitation.row Invitation.r_status Invitation.r_organizationId Invitation.r_identityId].
  assert (Hp : forall st, isText "pending" (VStr (js (Invitation.statusName st))) = bool_decide (st = Invitation.pending)) by (by intros []).
  rewrite !Hp, !andb_true_iff, !bool_decide_eq_true. tauto.
Qed.

Lemma insertMembership_performs handler f s m :
  handler (uniqueViolation membershipPkey) = f -> handler (uniqueViolation membershipIdentity) = f ->
  keyed (ms s) -> Membership.wf m -> fitsMembership m -> m.(m_version) = UNSAVED -> (exists o, organizationById m.(m_organizationId) s = Some o) ->
  performs handler (insertMembership m (tablesOf s))
    (if negb (isNull (membershipById m.(m_id) s)) || hasMembership m.(m_organizationId) m.(m_identityId) s then Err f
     else Ok (tablesOf (replaceMembership (Membership.saved m) s))).
Proof.
  intros Hpk Hid Hk Hw (Hc & Hu & Hr) Hv [o Ho]. unfold insertMembership.
  rewrite parameters_then.
  2: { destruct Hw. values. }
  change (Membership.mkRow _ _ _ _ _ _ _ _ (Int 1)) with (Membership.row (Membership.mkMembership m.(m_id) m.(m_organizationId) m.(m_identityId)
    m.(m_role) m.(m_status) m.(m_createdAt) m.(m_updatedAt) m.(m_revokedAt) 1)).
  replace (Membership.mkMembership _ _ _ _ _ _ _ _ 1) with (Membership.saved m) by (unfold Membership.saved; by rewrite Hv).
  assert (Hacc : membershipSchema.(refuses) (Membership.row (Membership.saved m)) = None).
  { apply membership_accepted; [by destruct Hw|cbn; rewrite Hv; unfold UNSAVED, INTEGER_MAX; lia]. }
  unfold onMemberships. rewrite on_then. unfold insert. rewrite Hacc. cbn [tablesOf memberships]. rewrite has_rowsOf. unfold JsMap.has.
  fold (membershipById (m_id m) s). destruct (membershipById (m_id m) s) as [p|] eqn:Ep; cbn [isNull negb orb]; [by apply performs_raised|].
  pose proof (violation_rows Membership.row membershipSchema m.(m_id) (Membership.saved m) (ms s) (proj1 Hk) Hacc) as Hvio.
  destruct (violation _ _ _ _) as [e|].
  - destruct Hvio as (name & clash & id' & b & -> & [= -> ->]%list_elem_of_singleton & Hb & _ & [Hbo Hbi]%sameMember_row).
    rewrite (proj2 (hasMembership_get s _ _ Hk)) by (exists id', b; by split_and!). by apply performs_raised.
  - destruct (hasMembership _ _ s) eqn:Eh.
    { exfalso. apply hasMembership_get in Eh as (id' & b & Hb & Hbo & Hbi); [|done].
      specialize (Hvio membershipIdentity sameMember ltac:(left) id' b Hb).
      assert (Hne : id' <> m_id m) by (intros ->; congruence).
      rewrite (proj2 (sameMember_row b (Membership.saved m))) in Hvio by (by split). discriminate (Hvio Hne). }
    rewrite set_rowsOf. unfold belongsTo. cbn [organizations tablesOf]. rewrite has_rowsOf. unfold JsMap.has. unfold organizationById in Ho. by rewrite Ho.
Qed.

Lemma sameSlug_row a b : sameSlug (Organization.row a) (Organization.row b) = true <-> a.(o_slug) = b.(o_slug).
Proof. unfold sameSlug. cbn. rewrite bool_decide_eq_true. split; [by intros [=]|by intros ->]. Qed.

Lemma organizationBySlug_get slug s :
  keyed (os s) -> isNull (organizationBySlug slug s) = false <-> exists id o, organizationById id s = Some o /\ o.(o_slug) = slug.
Proof.
  intros Hk. unfold organizationBySlug, organizationById. split.
  - destruct (find_first _ _) as [o|] eqn:E; [|done]. intros _. apply List.find_some in E as [Hin Hs]. apply bool_decide_eq_true in Hs.
    apply list_elem_of_In, keyed_values in Hin; [|done]. eauto.
  - intros (id & o & Ho & Hs). destruct (find_first _ _) as [o'|] eqn:E; [done|]. exfalso.
    assert (Hin : o ∈ JsMap.values (os s)) by (apply keyed_values; [done|]; unfold holds; by rewrite (proj2 Hk _ _ Ho)).
    pose proof (List.find_none _ _ E o (proj1 (list_elem_of_In _ _) Hin)) as Hf. by apply bool_decide_eq_false in Hf.
Qed.

Lemma insertOrganization_performs s o :
  keyed (os s) -> Organization.wf o -> fitsOrganization o -> o.(o_version) = UNSAVED ->
  performs organizationHandler (insertOrganization o (tablesOf s))
    (if negb (isNull (organizationById o.(o_id) s)) then Err organizationExists
     else if negb (isNull (organizationBySlug o.(o_slug) s)) then Err slugTaken
     else Ok (tablesOf (addOrganization (Organization.saved o) s))).
Proof.
  intros Hk Hw Hf Hv. destruct (Hf) as ([Hcl Hnul] & Hc & Hu). destruct (slug_plain _ Hw) as [Hsc Hsn]. unfold insertOrganization.
  rewrite parameters_then by (destruct Hw; values; by apply text_None).
  rewrite !sent_clean by done.
  change (Organization.mkRow _ _ _ _ _ _ (Int 1)) with (Organization.row (Organization.mkOrganization o.(o_id) o.(o_name) o.(o_slug)
    o.(o_status) o.(o_createdAt) o.(o_updatedAt) 1)).
  replace (Organization.mkOrganization _ _ _ _ _ _ 1) with (Organization.saved o) by (unfold Organization.saved; by rewrite Hv).
  assert (Hacc : organizationSchema.(refuses) (Organization.row (Organization.saved o)) = None).
  { apply organization_accepted; [by destruct Hw|done|cbn; rewrite Hv; unfold UNSAVED, INTEGER_MAX; lia]. }
  unfold onOrganizations, on, insert. rewrite Hacc. cbn [tablesOf organizations]. rewrite has_rowsOf. unfold JsMap.has.
  fold (organizationById (o_id o) s). destruct (organizationById (o_id o) s) as [p|] eqn:Ep; cbn [isNull negb]; [by apply performs_raised|].
  pose proof (violation_rows Organization.row organizationSchema o.(o_id) (Organization.saved o) (os s) (proj1 Hk) Hacc) as Hvio.
  destruct (violation _ _ _ _) as [e|].
  - destruct Hvio as (name & clash & id' & b & -> & [= -> ->]%list_elem_of_singleton & Hb & _ & Hs%sameSlug_row).
    rewrite (proj2 (organizationBySlug_get _ s Hk)) by (by exists id', b). by apply performs_raised.
  - destruct (isNull (organizationBySlug _ s)) eqn:Eh; cbn [negb].
    2: { exfalso. apply organizationBySlug_get in Eh as (id' & b & Hb & Hs); [|done].
      assert (Hne : id' <> o_id o) by (intros ->; congruence).
      specialize (Hvio slugKey sameSlug ltac:(left) id' b Hb). rewrite (proj2 (sameSlug_row b (Organization.saved o))) in Hvio by done. discriminate (Hvio Hne). }
    by rewrite set_rowsOf.
Qed.

Lemma hasPending_get s o i :
  keyed (ns s) -> hasPending o i s = true <->
  exists id n, invitationById id s = Some n /\ n.(n_organizationId) = o /\ n.(n_identityId) = i /\ n.(n_status) = Invitation.pending.
Proof.
  intros Hk. unfold hasPending, invitationsForIdentity. rewrite existsb_exists. split.
  - intros (n & Hin & Hp). apply bool_decide_eq_true in Hp. apply list_elem_of_In, list_elem_of_filter in Hin as [[Ho Hi] Hin].
    apply keyed_values in Hin; [|done]. by exists n.(n_id), n.
  - intros (id & n & Hn & Ho & Hi & Hp). exists n. split; [|by apply bool_decide_eq_true].
    apply list_elem_of_In, list_elem_of_filter. split; [done|]. apply keyed_values; [done|]. unfold holds. by rewrite (proj2 Hk _ _ Hn).
Qed.

Lemma insertInvitation_performs s n :
  keyed (ns s) -> Invitation.wf n -> fitsInvitation n -> n.(n_version) = UNSAVED -> (exists o, organizationById n.(n_organizationId) s = Some o) ->
  performs invitationHandler (insertInvitation n (tablesOf s))
    (if negb (isNull (invitationById n.(n_id) s)) then Err invitationExists
     else if hasPending n.(n_organizationId) n.(n_identityId) s && bool_decide (n.(n_status) = Invitation.pending) then Err pendingInvitationExists
     else Ok (tablesOf (replaceInvitation (Invitation.saved n) s))).
Proof.
  intros Hk Hw Hf Hv [o Ho]. destruct (Hf) as (Hc & Hu & Hx & Ha & Hr). unfold insertInvitation.
  rewrite parameters_then by (destruct Hw; values).
  change (Invitation.mkRow _ _ _ _ _ _ _ _ _ _ (Int 1)) with (Invitation.row (Invitation.mkInvitation n.(n_id) n.(n_organizationId) n.(n_identityId)
    n.(n_role) n.(n_status) n.(n_createdAt) n.(n_updatedAt) n.(n_expiresAt) n.(n_acceptedAt) n.(n_revokedAt) 1)).
  replace (Invitation.mkInvitation _ _ _ _ _ _ _ _ _ _ 1) with (Invitation.saved n) by (unfold Invitation.saved; by rewrite Hv).
  assert (Hacc : invitationSchema.(refuses) (Invitation.row (Invitation.saved n)) = None).
  { apply invitation_accepted; [by destruct Hw|cbn; rewrite Hv; unfold UNSAVED, INTEGER_MAX; lia]. }
  unfold onInvitations. rewrite on_then. unfold insert. rewrite Hacc. cbn [tablesOf invitations]. rewrite has_rowsOf. unfold JsMap.has.
  fold (invitationById (n_id n) s). destruct (invitationById (n_id n) s) as [p|] eqn:Ep; cbn [isNull negb]; [by apply performs_raised|].
  pose proof (violation_rows Invitation.row invitationSchema n.(n_id) (Invitation.saved n) (ns s) (proj1 Hk) Hacc) as Hvio.
  destruct (violation _ _ _ _) as [e|].
  - destruct Hvio as (name & clash & id' & b & -> & [= -> ->]%list_elem_of_singleton & Hb & _ & (Hbp & Hnp & Hbo & Hbi)%samePending_row).
    rewrite (proj2 (hasPending_get s _ _ Hk)), bool_decide_eq_true_2 by (done || by exists id', b). by apply performs_raised.
  - destruct (hasPending _ _ s && _) eqn:Eh.
    { exfalso. apply andb_true_iff in Eh as [(id' & b & Hb & Hbo & Hbi & Hbp)%hasPending_get Hp%bool_decide_eq_true]; [|done].
      specialize (Hvio pendingInvitation samePending ltac:(left) id' b Hb).
      assert (Hne : id' <> n_id n) by (intros ->; congruence).
      rewrite (proj2 (samePending_row b (Invitation.saved n))) in Hvio by (by split_and!). discriminate (Hvio Hne). }
    rewrite set_rowsOf. unfold belongsTo. cbn [organizations tablesOf]. rewrite has_rowsOf. unfold JsMap.has. unfold organizationById in Ho. by rewrite Ho.
Qed.

(** ** Updates. *)

(** An object changed by the domain from one that was seen stored. *)
Definition changed {A} `{Aggregate A} (get : ID -> option A) (valid : A -> Prop) (a : A) : Prop :=
  exists a0, valid a0 /\ FIRST <= agg_version a0 < INTEGER_MAX /\ agg_change a0 a
    /\ forall p, get (agg_id a) = Some p -> rtc evo a0 p.

(** The version tells that it still is that one. *)
Lemma changed_same {A} `{Aggregate A} (get : ID -> option A) a0 a p :
  agg_change a0 a -> (forall p, get (agg_id a) = Some p -> rtc evo a0 p) -> get (agg_id a) = Some p ->
  agg_version p = agg_version a -> p = a0.
Proof.
  intros Hc Hs Hp Hv. destruct (evo_stable _ _ (Hs p Hp)) as (_ & _ & He). apply He. by rewrite Hv, (agg_change_version _ _ Hc).
Qed.

Lemma member_step_wf m m' : memberStep m m' -> Membership.wf m -> Membership.wf m'.
Proof. intros [role at_ Hs|at_ Hs] Hw; [by eapply Membership.membership_role_wf|by eapply Membership.membership_revoke_wf]. Qed.

Lemma invite_step_wf n n' : inviteStep n n' -> Invitation.wf n -> Invitation.wf n'.
Proof. intros [at_ Hs|at_ Hs] Hw; [by eapply Invitation.invitation_accept_wf|by eapply Invitation.invitation_revoke_wf]. Qed.

Lemma updateMembership_performs s m :
  storable s -> fitsMembership m -> changed (fun id => membershipById id s) Membership.wf m ->
  performs (memberHandler membershipExists)
    ((_ ← parameters [timestamp m.(m_updatedAt); nullableTimestamp m.(m_revokedAt); integer m.(m_version)];
      onMemberships (updateOr membershipNotFound staleWrite membershipSchema m.(m_id)
        (fun r => num_val r.(Membership.r_version) =? m.(m_version)) (setMembership m))) (tablesOf s))
    match membershipById m.(m_id) s with
    | None => Err membershipNotFound
    | Some e => if negb (e.(m_version) =? m.(m_version)) then Err staleWrite else Ok (tablesOf (replaceMembership (Membership.saved m) s))
    end.
Proof.
  intros Hs (Hc & Hu & Hr) (m0 & Hw0 & Hv0 & Hstep & Hsince). cbn in Hv0, Hstep, Hsince. pose proof (member_step_wf _ _ Hstep Hw0) as Hw.
  destruct (memberStep_evolve _ _ Hstep) as (Hact & role & st & t & r & Hm).
  assert (Hver : m.(m_version) = m0.(m_version)) by (by rewrite Hm).
  rewrite parameters_then by (destruct Hw; values). unfold onMemberships, on. cbn [tablesOf memberships].
  rewrite (updateOr_rows Membership.row membershipNotFound staleWrite membershipSchema m.(m_id) _ _ (ms s) (Membership.saved m)).
  - fold (membershipById (m_id m) s). destruct (membershipById (m_id m) s) as [p|]; [|by apply performs_refused].
    cbn [Membership.row Membership.r_version num_val]. destruct (m_version p =? m_version m); cbn [negb]; [done|by apply performs_refused].
  - apply (wf_memberships _ (st_wf _ Hs)).
  - intros p Hp Ev. cbn in Ev. apply Z.eqb_eq in Ev.
    assert (p = m0) as -> by exact (changed_same (fun id => membershipById id s) m0 m p Hstep Hsince Hp Ev).
    split.
    + unfold setMembership, Membership.row, Membership.saved. rewrite Hm. cbn. done.
    + split; [apply membership_accepted; [by destruct Hw|cbn; unfold FIRST in *; lia]|].
      intros name clash [= -> ->]%list_elem_of_singleton id' b Hb Hne. apply not_true_iff_false. intros [Ho Hi]%sameMember_row. apply Hne.
      eapply (st_member _ Hs); [exact Hb|exact Hp|rewrite Ho|rewrite Hi]; by rewrite Hm.
Qed.

Lemma updateInvitation_performs s n :
  storable s -> fitsInvitation n -> changed (fun id => invitationById id s) Invitation.wf n ->
  performs invitationHandler
    ((_ ← parameters [timestamp n.(n_updatedAt); timestamp n.(n_expiresAt); nullableTimestamp n.(n_acceptedAt);
                      nullableTimestamp n.(n_revokedAt); integer n.(n_version)];
      onInvitations (updateOr invitationNotFound staleWrite invitationSchema n.(n_id)
        (fun r => num_val r.(Invitation.r_version) =? n.(n_version)) (setInvitation n))) (tablesOf s))
    match invitationById n.(n_id) s with
    | None => Err invitationNotFound
    | Some e => if negb (e.(n_version) =? n.(n_version)) then Err staleWrite else Ok (tablesOf (replaceInvitation (Invitation.saved n) s))
    end.
Proof.
  intros Hs (Hc & Hu & Hx & Ha & Hr) (n0 & Hw0 & Hv0 & Hstep & Hsince). cbn in Hv0, Hstep, Hsince. pose proof (invite_step_wf _ _ Hstep Hw0) as Hw.
  destruct (inviteStep_evolve _ _ Hstep) as (Hpend & st & t & a & r & Hst & Hn).
  assert (Hver : n.(n_version) = n0.(n_version)) by (by rewrite Hn).
  rewrite parameters_then by (destruct Hw; values). unfold onInvitations, on. cbn [tablesOf invitations].
  rewrite (updateOr_rows Invitation.row invitationNotFound staleWrite invitationSchema n.(n_id) _ _ (ns s) (Invitation.saved n)).
  - fold (invitationById (n_id n) s). destruct (invitationById (n_id n) s) as [p|]; [|by apply performs_refused].
    cbn [Invitation.row Invitation.r_version num_val]. destruct (n_version p =? n_version n); cbn [negb]; [done|by apply performs_refused].
  - apply (wf_invitations _ (st_wf _ Hs)).
  - intros p Hp Ev. cbn in Ev. apply Z.eqb_eq in Ev.
    assert (p = n0) as -> by exact (changed_same (fun id => invitationById id s) n0 n p Hstep Hsince Hp Ev).
    split.
    + unfold setInvitation, Invitation.row, Invitation.saved. rewrite Hn. cbn. done.
    + split; [apply invitation_accepted; [by destruct Hw|cbn; unfold FIRST in *; lia]|].
      intros name clash [= -> ->]%list_elem_of_singleton id' b Hb Hne. apply not_true_iff_false. intros (_ & Hp' & _)%samePending_row.
      rewrite Hn in Hp'. by apply Hst.
Qed.

(** The update of an acceptance writes what the domain accepted. *)
Lemma setAccepted_row n0 n t : Invitation.accept n0 t = Ok n -> Invitation.wf n0 -> setAccepted n (Invitation.row n0) = Invitation.row (Invitation.saved n).
Proof.
  intros Ha Hw. unfold Invitation.accept in Ha. ok_branches Ha.
  match goal with T : Invitation.transitionTime _ _ = Ok _ |- _ => apply Invitation.invitation_time_ok in T as (-> & ? & ?) end.
  by unfold setAccepted, Invitation.row, Invitation.saved, Invitation.evolve.
Qed.

(** An invitation accepted from one that was seen stored. *)
Definition acceptedFrom (s : Stores) (n : Invitation) : Prop :=
  exists n0 t, Invitation.wf n0 /\ FIRST <= n0.(n_version) < INTEGER_MAX /\ Invitation.accept n0 t = Ok n
    /\ forall p, invitationById n.(n_id) s = Some p -> rtc evo n0 p.

Lemma isText_status st : isText "pending" (VStr (js (Invitation.statusName st))) = bool_decide (st = Invitation.pending).
Proof. by destruct st. Qed.

Lemma acceptance_performs s input :
  storable s -> fitsInvitation input.(ac_invitation) -> fitsMembership input.(ac_membership) -> acceptedFrom s input.(ac_invitation) ->
  (exists i, Membership.add i = Ok input.(ac_membership)) -> input.(ac_membership).(m_organizationId) = input.(ac_invitation).(n_organizationId) ->
  performs (memberHandler acceptedMembershipExists) (acceptanceStatements input (tablesOf s))
    match invitationById input.(ac_invitation).(n_id) s with
    | None => Err acceptanceConflict
    | Some previous =>
        if negb (bool_decide (previous.(n_status) = Invitation.pending)) || negb (previous.(n_version) =? input.(ac_invitation).(n_version))
        then Err acceptanceConflict
        else if negb (isNull (membershipById input.(ac_membership).(m_id) s))
                || hasMembership input.(ac_membership).(m_organizationId) input.(ac_membership).(m_identityId) s
        then Err acceptedMembershipExists
        else Ok (tablesOf (replaceMembership (Membership.saved input.(ac_membership)) (replaceInvitation (Invitation.saved input.(ac_invitation)) s)))
    end.
Proof.
  intros Hs (Hc & Hu & _) Hfm (n0 & t & Hw0 & Hv0 & Hacc & Hsince) [i Hadd] Horg. unfold acceptanceStatements.
  set (n := ac_invitation input) in *. set (m := ac_membership input) in *.
  pose proof (step_accept n0 n t Hacc) as Hstep. pose proof (invite_step_wf _ _ Hstep Hw0) as Hw.
  destruct (inviteStep_evolve _ _ Hstep) as (Hpend & st & t' & a & r & Hst & Hn).
  assert (Hver : n.(n_version) = n0.(n_version)) by (by rewrite Hn).
  pose proof (fun p => changed_same (fun id => invitationById id s) n0 n p Hstep Hsince) as Hsame. cbn in Hsame. clear Hsince.
  rewrite parameters_then by (destruct Hw; values). unfold onInvitations. rewrite on_then. cbn [tablesOf invitations].
  rewrite (update_rows Invitation.row invitationSchema n.(n_id) _ _ (ns s) (Invitation.saved n)).
  2: apply (wf_invitations _ (st_wf _ Hs)).
  2: { intros p Hp Ev. apply andb_true_iff in Ev as [_ Ev]. cbn in Ev. apply Z.eqb_eq in Ev.
    assert (p = n0) as -> by exact (Hsame p Hp Ev).
    split; [by eapply setAccepted_row|]. split; [apply invitation_accepted; [by destruct Hw|cbn; unfold FIRST in *; lia]|].
    intros name clash [= -> ->]%list_elem_of_singleton id' b Hb Hne. apply not_true_iff_false. intros (_ & Hp' & _)%samePending_row.
    rewrite Hn in Hp'. by apply Hst. }
  fold (invitationById (n_id n) s). destruct (invitationById (n_id n) s) as [p|] eqn:Ep; [|by apply performs_refused].
  cbn [Invitation.row Invitation.r_status Invitation.r_version num_val]. rewrite isText_status.
  destruct (bool_decide (n_status p = Invitation.pending)); cbn [negb andb orb]; [|by apply performs_refused].
  destruct (n_version p =? n_version n) eqn:Ev; cbn [negb]; [|by apply performs_refused]. apply Z.eqb_eq in Ev.
  assert (p = n0) as -> by exact (Hsame p eq_refl Ev).
  set (s1 := replaceInvitation (Invitation.saved n) s).
  assert (Hm : Membership.mkMembership m.(m_id) m.(m_organizationId) m.(m_identityId) m.(m_role) Membership.active m.(m_createdAt) m.(m_createdAt) None UNSAVED = m).
  { clearbody m. unfold Membership.add in Hadd. destruct (Membership.parseRole _); [|done]. ok_branches Hadd. cbn. breflect. by rewrite !copyDate_valid by (rewrite ?validDate_copy; done). }
  rewrite Hm. change (mkTables _ _ _) with (tablesOf s1).
  apply (insertMembership_performs (memberHandler acceptedMembershipExists) acceptedMembershipExists s1); try done.
  - apply (wf_memberships _ (st_wf _ Hs)).
  - by eapply Membership.membership_add_wf.
  - by rewrite <- Hm.
  - destruct (st_invite_home _ Hs _ _ Ep) as [o Ho]. exists o. rewrite Horg. rewrite Hn. exact Ho.
Qed.

(** ** The four writers. *)

Definition eventsOf (c : Commit) : list Events.Envelope :=
  match c with
  | cOrganization i => i.(oc_events) | cMembership i => [i.(mc_event)] | cInvitation i => [i.(ic_event)] | cAcceptance i => i.(ac_events)
  end.
Definition workOf (c : Commit) : WorkContext :=
  match c with cOrganization i => i.(oc_work) | cMembership i => i.(mc_work) | cInvitation i => i.(ic_work) | cAcceptance i => i.(ac_work) end.
Definition handlerOf (c : Commit) : Thrown -> Failure :=
  match c with
  | cOrganization _ => organizationHandler | cMembership _ => memberHandler membershipExists
  | cInvitation _ => invitationHandler | cAcceptance _ => memberHandler acceptedMembershipExists
  end.
Definition statementsOf (c : Commit) : Body Tables unit :=
  match c with
  | cOrganization i => organizationStatements i | cMembership i => membershipStatements i
  | cInvitation i => invitationStatements i | cAcceptance i => acceptanceStatements i
  end.

(** The in-memory writers. *)
Definition inMemory (c : Commit) (bus : Events.Envelope -> Res unit) (s : Stores) : Writers.Outcome Stores :=
  match c with
  | cOrganization i => OrgStore.commitOrganization i bus s
  | cMembership i => OrgStore.commitMembership i bus s
  | cInvitation i => OrgStore.commitInvitation i bus s
  | cAcceptance i => OrgStore.commitAcceptance i bus s
  end.

(** A commit a command makes: what it creates is new and belongs to a stored
    organization, what it changes was seen stored. *)
Definition legit (c : Commit) (s : Stores) : Prop :=
  match c with
  | cOrganization i =>
      (exists x, Organization.create x = Ok i.(oc_organization)) /\ fitsOrganization i.(oc_organization)
      /\ (exists x, Membership.add x = Ok i.(oc_ownerMembership)) /\ fitsMembership i.(oc_ownerMembership)
      /\ i.(oc_ownerMembership).(m_organizationId) = i.(oc_organization).(o_id)
  | cMembership i =>
      fitsMembership i.(mc_membership)
      /\ (((exists x, Membership.add x = Ok i.(mc_membership)) /\ exists o, organizationById i.(mc_membership).(m_organizationId) s = Some o)
          \/ changed (fun id => membershipById id s) Membership.wf i.(mc_membership))
  | cInvitation i =>
      fitsInvitation i.(ic_invitation)
      /\ (((exists x, Invitation.issue x = Ok i.(ic_invitation)) /\ exists o, organizationById i.(ic_invitation).(n_organizationId) s = Some o)
          \/ changed (fun id => invitationById id s) Invitation.wf i.(ic_invitation))
  | cAcceptance i =>
      fitsInvitation i.(ac_invitation) /\ fitsMembership i.(ac_membership) /\ acceptedFrom s i.(ac_invitation)
      /\ (exists x, Membership.add x = Ok i.(ac_membership)) /\ i.(ac_membership).(m_organizationId) = i.(ac_invitation).(n_organizationId)
  end.

(** What is stored when the guards pass, or the failure of one. *)
Definition stored (c : Commit) (s : Stores) : Res Stores :=
  match c with
  | cOrganization i =>
      let o := i.(oc_organization) in
      let m := i.(oc_ownerMembership) in
      if negb (isNull (organizationById o.(o_id) s)) then Err organizationExists
      else if negb (isNull (organizationBySlug o.(o_slug) s)) then Err slugTaken
      else if negb (isNull (membershipById m.(m_id) s)) then Err ownerMembershipExists
      else Ok (replaceMembership (Membership.saved m) (addOrganization (Organization.saved o) s))
  | cMembership i =>
      let m := i.(mc_membership) in
      if m.(m_version) =? UNSAVED then
        if negb (isNull (membershipById m.(m_id) s)) || hasMembership m.(m_organizationId) m.(m_identityId) s then Err membershipExists
        else Ok (replaceMembership (Membership.saved m) s)
      else match membershipById m.(m_id) s with
           | None => Err membershipNotFound
           | Some e => if negb (e.(m_version) =? m.(m_version)) then Err staleWrite else Ok (replaceMembership (Membership.saved m) s)
           end
  | cInvitation i =>
      let n := i.(ic_invitation) in
      if n.(n_version) =? UNSAVED then
        if negb (isNull (invitationById n.(n_id) s)) then Err invitationExists
        else if hasPending n.(n_organizationId) n.(n_identityId) s && bool_decide (n.(n_status) = Invitation.pending) then Err pendingInvitationExists
        else Ok (replaceInvitation (Invitation.saved n) s)
      else match invitationById n.(n_id) s with
           | None => Err invitationNotFound
           | Some e => if negb (e.(n_version) =? n.(n_version)) then Err staleWrite else Ok (replaceInvitation (Invitation.saved n) s)
           end
  | cAcceptance i =>
      let n := i.(ac_invitation) in
      let m := i.(ac_membership) in
      match invitationById n.(n_id) s with
      | None => Err acceptanceConflict
      | Some previous =>
          if negb (bool_decide (previous.(n_status) = Invitation.pending)) || negb (previous.(n_version) =? n.(n_version)) then Err acceptanceConflict
          else if negb (isNull (membershipById m.(m_id) s)) || hasMembership m.(m_organizationId) m.(m_identityId) s then Err acceptedMembershipExists
          else Ok (replaceMembership (Membership.saved m) (replaceInvitation (Invitation.saved n) s))
      end
  end.

(** The in-memory writers store it and publish. *)
Lemma inMemory_stored c bus s :
  match assertAll (eventsOf c) (workOf c), stored c s, publishAll bus (eventsOf c) with
  | Ok _, Ok s', (sent, Ok _) => inMemory c bus s = (s', sent, Ok tt)
  | Ok _, Ok _, (_, Err f) | Ok _, Err f, _ | Err f, _, _ => (inMemory c bus s).2 = Err f
  end.
Proof.
  destruct c as [i|i|i|i]; cbn [eventsOf workOf inMemory stored].
  - unfold OrgStore.commitOrganization, commitWith, organizationGuard. destruct (assertAll _ _); cbn [mbind Result_bind]; [|done].
    destruct (organizationById _ s); [done|]. destruct (organizationBySlug _ s); [done|]. destruct (membershipById _ s); cbn [isNull negb]; [done|].
    by destruct (publishAll _ _) as [sent [[]|f]].
  - unfold OrgStore.commitMembership, commitWith, membershipGuard. cbn [assertAll]. destruct (Events.assertEventWork _ _); cbn [mbind Result_bind]; [|done].
    destruct (_ =? UNSAVED); [destruct (negb _ || _)|destruct (membershipById _ s) as [e|]; [destruct (negb _)|]]; try done;
      by destruct (publishAll _ _) as [sent [[]|f]].
  - unfold OrgStore.commitInvitation, commitWith, invitationGuard. cbn [assertAll]. destruct (Events.assertEventWork _ _); cbn [mbind Result_bind]; [|done].
    destruct (_ =? UNSAVED); [destruct (negb _); [|destruct (_ && _)]|destruct (invitationById _ s) as [e|]; [destruct (negb _)|]]; try done;
      by destruct (publishAll _ _) as [sent [[]|f]].
  - unfold OrgStore.commitAcceptance, commitWith, acceptanceGuard. destruct (assertAll _ _); cbn [mbind Result_bind]; [|done].
    destruct (invitationById _ s) as [p|]; [|done]. destruct (negb _ || negb _); [done|]. destruct (negb _ || _); [done|].
    by destruct (publishAll _ _) as [sent [[]|f]].
Qed.

Lemma created_fresh x o : Organization.create x = Ok o -> Organization.wf o /\ o.(o_version) = UNSAVED.
Proof. intros Hc. split; [by eapply Organization.organization_create_wf|]. unfold Organization.create in Hc. by ok_branches Hc. Qed.
Lemma added_fresh x m : Membership.add x = Ok m -> Membership.wf m /\ m.(m_version) = UNSAVED.
Proof.
  intros Hc. split; [by eapply Membership.membership_add_wf|]. unfold Membership.add in Hc. destruct (Membership.parseRole _); [|done]. by ok_branches Hc.
Qed.
Lemma issued_fresh x n : Invitation.issue x = Ok n -> Invitation.wf n /\ n.(n_version) = UNSAVED.
Proof.
  intros Hc. split; [by eapply Invitation.invitation_issue_wf|]. unfold Invitation.issue in Hc. destruct (Invitation.parseRole _); [|done]. by ok_branches Hc.
Qed.

Lemma changed_saved {A} `{Aggregate A} (get : ID -> option A) valid a : changed get valid a -> (agg_version a =? UNSAVED) = false.
Proof.
  intros (a0 & _ & Hv & Hc & _). rewrite (agg_change_version _ _ Hc). apply Z.eqb_neq. unfold FIRST, UNSAVED in *. lia.
Qed.

(** A new organization has no members. *)
Lemma founding_performs s o m :
  storable s -> (exists x, Organization.create x = Ok o) -> fitsOrganization o -> (exists x, Membership.add x = Ok m) -> fitsMembership m ->
  m.(m_organizationId) = o.(o_id) ->
  performs organizationHandler ((_ ← insertOrganization o; insertMembership m) (tablesOf s))
    (if negb (isNull (organizationById o.(o_id) s)) then Err organizationExists
     else if negb (isNull (organizationBySlug o.(o_slug) s)) then Err slugTaken
     else if negb (isNull (membershipById m.(m_id) s)) then Err ownerMembershipExists
     else Ok (tablesOf (replaceMembership (Membership.saved m) (addOrganization (Organization.saved o) s)))).
Proof.
  intros Hs [x Hx] Hfo [y Hy] Hfm Hin. destruct (created_fresh _ _ Hx) as [Hwo Hvo], (added_fresh _ _ Hy) as [Hwm Hvm].
  pose proof (insertOrganization_performs s o (wf_organizations _ (st_wf _ Hs)) Hwo Hfo Hvo) as Ho. unfold mbind, Body_bind.
  destruct (organizationById (o_id o) s) as [p|] eqn:Ep; cbn [isNull negb] in *.
  { destruct Ho as [t [->|(e & -> & <-)]]; [apply performs_refused|by apply performs_raised]. }
  destruct (isNull (organizationBySlug (o_slug o) s)) eqn:Es; cbn [negb] in *.
  2: { destruct Ho as [t [->|(e & -> & <-)]]; [apply performs_refused|by apply performs_raised]. }
  rewrite Ho. set (s1 := addOrganization (Organization.saved o) s) in *.
  pose proof (insertMembership_performs organizationHandler ownerMembershipExists s1 m eq_refl eq_refl (wf_memberships _ (st_wf _ Hs)) Hwm Hfm Hvm) as Hm.
  change (membershipById (m_id m) s1) with (membershipById (m_id m) s) in Hm.
  change (hasMembership (m_organizationId m) (m_identityId m) s1) with (hasMembership (m_organizationId m) (m_identityId m) s) in Hm.
  destruct (hasMembership (m_organizationId m) (m_identityId m) s) eqn:Eh.
  { exfalso. apply hasMembership_get in Eh as (id & b & Hb & Hbo & _); [|apply (wf_memberships _ (st_wf _ Hs))].
    destruct (st_home _ Hs _ _ Hb) as [q Hq]. rewrite Hbo, Hin in Hq. congruence. }
  rewrite orb_false_r in Hm. assert (Hhome : exists q, organizationById (m_organizationId m) s1 = Some q).
  { exists (Organization.saved o). rewrite Hin. unfold s1, organizationById, addOrganization. cbn. rewrite JsMap.get_set. by rewrite decide_True. }
  specialize (Hm Hhome). destruct (negb (isNull (membershipById (m_id m) s))); exact Hm.
Qed.

Lemma organization_statements_spec c s :
  storable s -> legit c s ->
  performs (handlerOf c) (statementsOf c (tablesOf s)) match stored c s with Ok s' => Ok (tablesOf s') | Err f => Err f end.
Proof.
  intros Hs Hl. destruct c as [i|i|i|i]; cbn [handlerOf statementsOf stored legit] in *.
  - destruct Hl as (Ho & Hfo & Hm & Hfm & Hin). pose proof (founding_performs s _ _ Hs Ho Hfo Hm Hfm Hin) as Hp. unfold organizationStatements.
    destruct (negb (isNull (organizationById _ s))); [exact Hp|]. destruct (negb (isNull (organizationBySlug _ s))); [exact Hp|].
    by destruct (negb (isNull (membershipById _ s))).
  - destruct Hl as (Hf & [([x Hx] & Ho)|Hc]); unfold membershipStatements.
    + destruct (added_fresh _ _ Hx) as [Hw Hv]. rewrite Hv. cbn [Z.eqb UNSAVED].
      pose proof (insertMembership_performs (memberHandler membershipExists) membershipExists s _ eq_refl eq_refl (wf_memberships _ (st_wf _ Hs)) Hw Hf Hv Ho) as Hp.
      by destruct (negb _ || _).
    + pose proof (changed_saved _ _ _ Hc) as Hv. cbn in Hv. rewrite Hv. pose proof (updateMembership_performs s _ Hs Hf Hc) as Hp.
      destruct (membershipById _ s) as [e|]; [|exact Hp]. by destruct (negb _).
  - destruct Hl as (Hf & [([x Hx] & Ho)|Hc]); unfold invitationStatements.
    + destruct (issued_fresh _ _ Hx) as [Hw Hv]. rewrite Hv. cbn [Z.eqb UNSAVED].
      pose proof (insertInvitation_performs s _ (wf_invitations _ (st_wf _ Hs)) Hw Hf Hv Ho) as Hp.
      destruct (negb _); [exact Hp|]. by destruct (hasPending _ _ s && _).
    + pose proof (changed_saved _ _ _ Hc) as Hv. cbn in Hv. rewrite Hv. pose proof (updateInvitation_performs s _ Hs Hf Hc) as Hp.
      destruct (invitationById _ s) as [e|]; [|exact Hp]. by destruct (negb _).
  - destruct Hl as (Hfn & Hfm & Ha & Hadd & Hin). pose proof (acceptance_performs s i Hs Hfn Hfm Ha Hadd Hin) as Hp.
    destruct (invitationById _ s) as [p|]; [|exact Hp]. destruct (negb _ || negb _); [exact Hp|]. by destruct (negb _ || _).
Qed.

(** ** What is read back. *)

Lemma membership_values s m : storable s -> m ∈ JsMap.values (ms s) -> membershipById m.(m_id) s = Some m.
Proof. intros Hs Hm. by apply keyed_values in Hm; [|apply (wf_memberships _ (st_wf _ Hs))]. Qed.
Lemma invitation_values s n : storable s -> n ∈ JsMap.values (ns s) -> invitationById n.(n_id) s = Some n.
Proof. intros Hs Hn. by apply keyed_values in Hn; [|apply (wf_invitations _ (st_wf _ Hs))]. Qed.

Lemma membershipFrom_row s id m : storable s -> membershipById id s = Some m -> membershipFrom (Membership.row m) = Ok m.
Proof.
  intros Hs Hm. destruct (st_membership _ Hs _ _ Hm) as (Hw & _ & Hv & Hi & Ho & Hid).
  assert (Hr : Membership.restore (Membership.row m) = Ok m) by (apply Membership.membership_wf_restore; [done|unfold INTEGER_MAX, MAX_SAFE_INTEGER in *; lia]).
  unfold membershipFrom. cbn [Membership.row Membership.r_id Membership.r_organizationId Membership.r_identityId].
  rewrite (Events.validID_parse _ Hi), (Events.validID_parse _ Ho), (Events.validID_parse _ Hid). exact Hr.
Qed.

Lemma invitationFrom_row s id n : storable s -> invitationById id s = Some n -> invitationFrom (Invitation.row n) = Ok n.
Proof.
  intros Hs Hn. destruct (st_invitation _ Hs _ _ Hn) as (Hw & _ & Hv & Hi & Ho & Hid).
  assert (Hr : Invitation.restore (Invitation.row n) = Ok n) by (apply Invitation.invitation_wf_restore; [done|unfold INTEGER_MAX, MAX_SAFE_INTEGER in *; lia]).
  unfold invitationFrom, storedId. cbn [Invitation.row Invitation.r_id Invitation.r_organizationId Invitation.r_identityId].
  rewrite (Events.validID_parse _ Hi), (Events.validID_parse _ Ho), (Events.validID_parse _ Hid). exact Hr.
Qed.

Lemma findMembership_rows s id : storable s -> findMembership id (tablesOf s) = Ok (membershipById id s).
Proof. intros Hs. apply firstRow_get. intros m Hm. by eapply membershipFrom_row. Qed.
Lemma findInvitation_rows s id : storable s -> findInvitation id (tablesOf s) = Ok (invitationById id s).
Proof. intros Hs. apply firstRow_get. intros n Hn. by eapply invitationFrom_row. Qed.

Lemma find_first_filter {A} (P : A -> Prop) `{forall a, Decision (P a)} (p q : A -> bool) (l : list A) :
  (forall a, q a = bool_decide (P a) && p a) -> find_first p (filter P l) = find_first q l.
Proof.
  intros Hq. induction l as [|a l IH]; [done|]. rewrite filter_cons. cbn. rewrite (Hq a). case_decide as Hp.
  - rewrite bool_decide_eq_true_2 by done. cbn. by destruct (p a).
  - by rewrite bool_decide_eq_false_2.
Qed.

Lemma values_NoDup {A} `{Aggregate A} (l : list (ID * A)) : keyed l -> NoDup (JsMap.values l).
Proof. intros [Hw Hk]. eapply NoDup_fmap_1. by apply (JsMap.NoDup_values agg_id). Qed.

Lemma findMember_rows s (p : MRow -> bool) (q : Membership -> bool) :
  storable s -> (forall m, p (Membership.row m) = q m) ->
  (forall a b, q a = true -> q b = true -> a.(m_organizationId) = b.(m_organizationId) /\ a.(m_identityId) = b.(m_identityId)) ->
  firstRow membershipFrom (filter (fun r => p r = true) (JsMap.values (Sql.rowsOf Membership.row (ms s)))) = Ok (find_first q (JsMap.values (ms s))).
Proof.
  intros Hs Hpq Hone. rewrite values_rowsOf, (filter_rows Membership.row p q) by (intros m _; apply Hpq). rewrite one_row.
  - apply firstRow_some. intros m [Hm _]%List.find_some. apply list_elem_of_In, (membership_values s) in Hm; [|done]. by eapply membershipFrom_row.
  - apply values_NoDup, (wf_memberships _ (st_wf _ Hs)).
  - intros a b Ha%(membership_values s) Hb%(membership_values s) Hqa Hqb; [|done..]. destruct (Hone a b Hqa Hqb) as [Ho Hi].
    pose proof (st_member _ Hs _ _ _ _ Ha Hb Ho Hi) as He. rewrite He in Ha. congruence.
Qed.

Lemma isText_active st : isText "active" (VStr (js (Membership.statusName st))) = bool_decide (st = Membership.active).
Proof. by destruct st. Qed.

Lemma findActive_rows s o i : storable s ->
  findActiveForIdentity o i (tablesOf s) = Ok (find_first (ofOrganization o) (membershipsForIdentity i s)).
Proof.
  intros Hs. unfold membershipsForIdentity. rewrite (find_first_filter _ _ (fun m => bool_decide (m.(m_organizationId) = o) && bool_decide (m.(m_identityId) = i)
    && bool_decide (m.(m_status) = Membership.active))).
  2: { intros m. unfold ofOrganization. rewrite bool_decide_and. destruct (bool_decide (m_organizationId m = o)), (bool_decide (m_identityId m = i)); cbn;
    by rewrite ?andb_true_r, ?andb_false_r. }
  apply findMember_rows; [done| |].
  - intros m. unfold ofMember. cbn [Membership.row Membership.r_organizationId Membership.r_identityId Membership.r_status]. by rewrite isText_active.
  - intros a b. rewrite !andb_true_iff, !bool_decide_eq_true. intros [[-> ->] _] [[-> ->] _]. done.
Qed.

Lemma findFor_rows s o i : storable s ->
  findForIdentity o i (tablesOf s) = Ok (find_first (ofOrganization o) (membershipsForAnyStatusForIdentity i s)).
Proof.
  intros Hs. unfold membershipsForAnyStatusForIdentity.
  rewrite (find_first_filter _ _ (fun m => bool_decide (m.(m_organizationId) = o) && bool_decide (m.(m_identityId) = i))).
  2: { intros m. unfold ofOrganization. apply andb_comm. }
  apply findMember_rows; [done|done|]. intros a b. rewrite !andb_true_iff, !bool_decide_eq_true. intros [-> ->] [-> ->]. done.
Qed.

Lemma findPending_rows s o i : storable s ->
  findPendingForIdentity o i (tablesOf s)
  = Ok (find_first (fun n => bool_decide (n.(n_status) = Invitation.pending)) (invitationsForIdentity o i s)).
Proof.
  intros Hs. unfold invitationsForIdentity.
  set (q := fun n => bool_decide (n.(n_organizationId) = o) && bool_decide (n.(n_identityId) = i) && bool_decide (n.(n_status) = Invitation.pending)).
  rewrite (find_first_filter _ _ q) by (intros n; unfold q; by rewrite bool_decide_and).
  unfold findPendingForIdentity. cbn [tablesOf invitations]. rewrite values_rowsOf, (filter_rows Invitation.row _ q).
  2: { intros n _. cbn [Invitation.row Invitation.r_organizationId Invitation.r_identityId Invitation.r_status]. by rewrite isText_status. }
  rewrite one_row.
  - assert (He : forall x : option Invitation, take 1 (sort_by (fun a b => getTime (Invitation.r_createdAt b) - getTime (Invitation.r_createdAt a))
      (Invitation.row <$> option_list x)) = Invitation.row <$> option_list x) by (by intros [n|]).
    rewrite He. apply firstRow_some. intros n [Hn _]%List.find_some. apply list_elem_of_In, (invitation_values s) in Hn; [|done]. by eapply invitationFrom_row.
  - apply values_NoDup, (wf_invitations _ (st_wf _ Hs)).
  - unfold q. intros a b Ha%(invitation_values s) Hb%(invitation_values s); [|done..]. rewrite !andb_true_iff, !bool_decide_eq_true.
    intros [[Hao Hai] Hap] [[Hbo Hbi] Hbp]. pose proof (st_pending _ Hs _ _ _ _ Ha Hb ltac:(congruence) ltac:(congruence) Hap Hbp) as He.
    rewrite He in Ha. congruence.
Qed.

(** The rows of a view. *)
Definition viewRow (v : View) : ORow * MRow := (Organization.row v.(v_organization), Membership.row v.(v_membership)).

Lemma omap_rows {A B C D} (g : A -> B) (f : B -> option D) (P : A -> Prop) `{forall a, Decision (P a)} (f' : A -> option C) (h : C -> D) (l : list A) :
  (forall a, f (g a) = if decide (P a) then h <$> f' a else None) -> omap f (g <$> l) = h <$> omap f' (filter P l).
Proof.
  intros Hf. induction l as [|a l IH]; [done|]. rewrite filter_cons. cbn. rewrite Hf. case_decide; [|exact IH]. cbn.
  destruct (f' a); cbn; by rewrite IH.
Qed.

Lemma joined_views s i :
  joined (fun m o => bool_decide (m.(Membership.r_identityId) = i) && isText "active" m.(Membership.r_status)
                     && negb (bool_decide (o.(Organization.r_status) = "archived"%string))) (tablesOf s) = viewRow <$> viewsFor i s.
Proof.
  unfold joined, viewsFor, membershipsForIdentity. cbn [tablesOf memberships organizations]. rewrite values_rowsOf. apply omap_rows.
  intros m. cbn [Membership.row Membership.r_organizationId Membership.r_identityId Membership.r_status]. rewrite get_rowsOf, isText_active.
  fold (organizationById (m_organizationId m) s). destruct (organizationById (m_organizationId m) s) as [o|]; cbn [fmap option_fmap option_map].
  - cbn [Organization.row Organization.r_status].
    replace (bool_decide (Organization.statusName (o_status o) = "archived"%string)) with (bool_decide (o_status o = Organization.archived)) by (by destruct (o_status o)).
    case_decide as Hd.
    + destruct Hd as [-> ->]. rewrite !bool_decide_eq_true_2 by done. cbn. by destruct (bool_decide _).
    + destruct (bool_decide (m_identityId m = i)) eqn:Ei; [|done]. destruct (bool_decide (m_status m = Membership.active)) eqn:Ea; [|done].
      apply bool_decide_eq_true in Ei, Ea. by destruct Hd.
  - by case_decide.
Qed.

Lemma viewFrom_row s i v : storable s -> v ∈ viewsFor i s -> viewFrom (viewRow v) = Ok v.
Proof.
  intros Hs Hin. unfold viewsFor in Hin. apply list_elem_of_omap in Hin as (m & [_ Hm]%list_elem_of_filter & Hv). apply (membership_values s) in Hm; [|done].
  destruct (organizationById (m_organizationId m) s) as [o|] eqn:Eo; [|done]. destruct (bool_decide _); [done|]. injection Hv as <-.
  destruct (st_membership _ Hs _ _ Hm) as (Hwm & _ & Hvm & Hi & Ho & Hid). destruct (st_organization _ Hs _ _ Eo) as (Hwo & _ & Hvo & Hoid).
  pose proof (holds_id _ _ _ (wf_organizations _ (st_wf _ Hs)) Eo) as He. cbn in He.
  assert (Hrm : Membership.restore (Membership.row m) = Ok m) by (apply Membership.membership_wf_restore; [done|unfold INTEGER_MAX, MAX_SAFE_INTEGER in *; lia]).
  assert (Hro : Organization.restore (Organization.row o) = Ok o) by (apply Organization.organization_wf_restore; [done|unfold INTEGER_MAX, MAX_SAFE_INTEGER in *; lia]).
  unfold viewFrom, viewRow. cbn [v_organization v_membership]. unfold Organization.row in Hro |- *. unfold Membership.row in Hrm |- *.
  cbn [Organization.r_id Organization.r_name Organization.r_slug Organization.r_status Organization.r_createdAt Organization.r_updatedAt Organization.r_version
    Membership.r_id Membership.r_organizationId Membership.r_identityId Membership.r_role Membership.r_status Membership.r_createdAt Membership.r_updatedAt
    Membership.r_revokedAt Membership.r_version].
  rewrite (Events.validID_parse _ Hoid), (Events.validID_parse _ Hi), (Events.validID_parse _ Hid). cbn [mbind Result_bind]. rewrite Hro.
  cbn [mbind Result_bind]. rewrite He, Hrm. done.
Qed.

Lemma listForIdentity_rows s i : storable s ->
  exists views, listForIdentity i (tablesOf s) = Ok views /\ views ≡ₚ viewsFor i s
    /\ StronglySorted (fun a b => compareKeyset (mkAfter (copyDate a.(v_organization).(o_createdAt)) a.(v_organization).(o_id))
                                    (mkAfter (copyDate b.(v_organization).(o_createdAt)) b.(v_organization).(o_id)) <= 0) views.
Proof.
  intros Hs. unfold listForIdentity. rewrite joined_views.
  set (key := fun v : View => mkAfter (copyDate v.(v_organization).(o_createdAt)) v.(v_organization).(o_id)).
  rewrite (sort_by_fmap viewRow (byKey key)) by done. exists (ordered key (viewsFor i s)). split_and!.
  - apply restoreAll_rows. intros v Hv. rewrite (ordered_perm key) in Hv. by eapply viewFrom_row.
  - apply ordered_perm.
  - apply (ordered_strong key).
Qed.

Section Refines.
  Context {J : Type} `{Jdec : EqDecision J} (jsonb : Events.Raw -> option J).

Lemma organization_meets c bus now s o :
  storable s -> legit c s -> (publishAll bus (eventsOf c)).2 = (enqueued jsonb now (eventsOf c) o).2 ->
  meets (callback (commit jsonb c now)) (tablesOf s, o)
    (let '(s', _, r) := inMemory c bus s in ((tablesOf s', (enqueued jsonb now (eventsOf c) o).1), r)).
Proof.
  intros Hs Hl Hbus. pose proof (inMemory_stored c bus s) as Hm.
  pose proof (writerAll_meets jsonb now (eventsOf c) (workOf c) (handlerOf c) (statementsOf c) (tablesOf s) o
    match stored c s with Ok s' => Ok (tablesOf s') | Err f => Err f end (fun _ => organization_statements_spec c s Hs Hl)) as Hw.
  assert (Hc : callback (commit jsonb c now) = callback (writerAll jsonb now (eventsOf c) (workOf c) (handlerOf c) (statementsOf c))) by (by destruct c).
  rewrite Hc. destruct (inMemory c bus s) as [[s' sent] r]. cbn [snd] in Hm.
  destruct (assertAll (eventsOf c) (workOf c)) as [[]|f]; [|subst r; exact Hw]. destruct (stored c s) as [s2|f]; [|subst r; exact Hw].
  destruct (publishAll bus (eventsOf c)) as [sent2 p], (enqueued jsonb now (eventsOf c) o) as [o' e]. cbn in Hbus. subst p.
  destruct e as [[]|f]; [|subst r; exact Hw]. injection Hm as -> -> ->. exact Hw.
Qed.

(** C14. The PostgreSQL adapters of the organization module implement the in-memory
    ones. Let the tables hold the rows of stores the in-memory adapters could
    hold (one membership and one pending invitation an identity, one organization
    a slug, everything at home), within the range of the columns, and let the
    event bus answer to the events of a commit as the outbox does. Then the
    transaction of any of the four writers, for a commit a command could make,
    either writes the rows of the stores that the in-memory commit leaves and all
    its events, when that commit would be accepted, answering success or that the
    outcome is uncertain; or leaves tables and outbox as they were, so that no
    event of a refused commit is out, with a failure that is the database's or
    exactly the in-memory one: the server's constraints are the in-memory guards.
    The readers find the very memberships and invitations, and an identity's
    views are the in-memory ones, ordered by organization creation. *)
Theorem organizations_postgres_refines (c : Commit) (bus : Events.Envelope -> Res unit) (now : Z) (s : Stores) (o o' : Outbox.Outbox)
    (t' : Tables) (r : Res unit)
    (Hstored : storable s) (Hlegit : legit c s) (Hbus : (publishAll bus (eventsOf c)).2 = (enqueued jsonb now (eventsOf c) o).2)
    (Hrun : Database.transacts (callback (commit jsonb c now)) (tablesOf s, o) r (t', o')) :
  (callback (commit jsonb c now) (tablesOf s, o)).2 = (inMemory c bus s).2
  /\ (((exists s' sent, inMemory c bus s = (s', sent, Ok tt) /\ t' = tablesOf s')
       /\ o' = (enqueued jsonb now (eventsOf c) o).1 /\ (r = Ok tt \/ r = Err Database.uncertain))
      \/ (t' = tablesOf s /\ o' = o /\ exists f, r = Err f /\ (Database.fault f \/ (inMemory c bus s).2 = Err f)))
  /\ (forall id, findMembership id (tablesOf s) = Ok (membershipById id s))
  /\ (forall organizationId identityId,
        findActiveForIdentity organizationId identityId (tablesOf s)
        = Ok (find_first (ofOrganization organizationId) (membershipsForIdentity identityId s))
        /\ findForIdentity organizationId identityId (tablesOf s)
            = Ok (find_first (ofOrganization organizationId) (membershipsForAnyStatusForIdentity identityId s))
        /\ findPendingForIdentity organizationId identityId (tablesOf s)
            = Ok (find_first (fun n => bool_decide (n.(n_status) = Invitation.pending)) (invitationsForIdentity organizationId identityId s)))
  /\ (forall id, findInvitation id (tablesOf s) = Ok (invitationById id s))
  /\ (forall identityId, exists views, listForIdentity identityId (tablesOf s) = Ok views /\ views ≡ₚ viewsFor identityId s
        /\ StronglySorted (fun a b => compareKeyset (mkAfter (copyDate a.(v_organization).(o_createdAt)) a.(v_organization).(o_id))
                                        (mkAfter (copyDate b.(v_organization).(o_createdAt)) b.(v_organization).(o_id)) <= 0) views).
Proof.
  destruct (meets_transacts _ _ _ _ _ (organization_meets c bus now s o Hstored Hlegit Hbus) Hrun) as [Ha Hd].
  destruct (inMemory c bus s) as [[s' sent] r'] eqn:Em. cbn [snd] in Ha, Hd. split_and!.
  - exact Ha.
  - destruct Hd as [[[= <- <- ->] Hr]|([= -> ->] & f & -> & Hf)].
    + left. split_and!; [by eexists _, _|done|done].
    + right. split_and!; [done..|]. by exists f.
  - intros id. by apply findMembership_rows.
  - intros. split_and!; [by apply findActive_rows|by apply findFor_rows|by apply findPending_rows].
  - intros id. by apply findInvitation_rows.
  - intros. by apply listForIdentity_rows.
Qed.
End Refines.
End Rows.

Definition sample_nothing : Stores := mkStores [] [] [].
Definition sample_founded : Stores :=
  mkStores [(sample_uuid "5", Organization.saved sample_founding.(oc_organization))] [(sample_uuid "6", Membership.saved sample_founding.(oc_ownerMembership))] [].

Lemma pg_organizations_nothing `{CaseFolding} : storable sample_nothing.
Proof. constructor; try done. constructor; apply keyed_nil. Qed.

Lemma organizations_postgres_refines_witness :
  callback (commit Events.json (cOrganization sample_founding) 1000) (tablesOf sample_nothing, [])
  = ((tablesOf sample_founded, (enqueued Events.json 1000 sample_events []).1), Ok tt)
  /\ exists s' sent, inMemory (cOrganization sample_founding) (fun _ => Ok tt) sample_nothing = (s', sent, Ok tt)
       /\ tablesOf sample_founded = tablesOf s'.
Proof.
  assert (H : callback (commit Events.json (cOrganization sample_founding) 1000) (tablesOf sample_nothing, [])
    = ((tablesOf sample_founded, (enqueued Events.json 1000 sample_events []).1), Ok tt)) by (vm_compute; reflexivity).
  split; [exact H|].
  assert (Hl : @legit asciiFolding (cOrganization sample_founding) sample_nothing).
  { cbn [legit]. split_and!.
    - exists (Organization.mkCreate (sample_uuid "5") (VStr (js "Acme")) (VStr (js "acme")) (DateAt 1000)). vm_compute. reflexivity.
    - split_and!; [|done..]. split; [apply clean_ascii|]; repeat constructor; done.
    - exists (Membership.mkAdd (sample_uuid "6") (sample_uuid "5") (sample_uuid "8") (VStr (js "owner")) (DateAt 1000)). vm_compute. reflexivity.
    - by split_and!.
    - reflexivity. }
  assert (Hb : (publishAll (fun _ => Ok tt) (eventsOf (cOrganization sample_founding))).2 = (enqueued Events.json 1000 (eventsOf (cOrganization sample_founding)) []).2)
    by (vm_compute; reflexivity).
  destruct (@organizations_postgres_refines asciiFolding _ _ Events.json (cOrganization sample_founding) (fun _ => Ok tt) 1000 sample_nothing [] _ _ _
    pg_organizations_nothing Hl Hb (Database.tx_done _ _ _ _ H)) as (_ & [(Hs & _)|(_ & _ & f & Hf & _)] & _); [exact Hs|done].
Defined.
End PgOrganizations.
