(* ===== verification/IdentityPostgres.v ===== *)
(** * The identity module on PostgreSQL: [modules/identity/infra/postgres].

    Four tables with their constraints and foreign keys, the transactions of the
    six writers, the activity writer, the pruner and the readers, and that they
    do what the in-memory adapters do. *)
From stdpp Require Import relations.
From S2P Require Import Prelude JsMap Errors Ids CaseFolding Json Text JsonText JsonPrint Pagination Provenance Events Commands Aggregates Writers.
From S2P Require Import IdentityDomain IdentityStore IdentityApp IdentityWorld OrganizationStore Postgres Inbox EventStore Sql.

Module PgIdentities.
Import IdentityStore.IdentityFailures IdentityStore.IdentityStore Sql.Sql.
Import (hints) Identity Session Challenge Credential IdentityWorld.IdentityWorld.
Import IdentityDomain.Identity(Identity, i_id, i_status, i_createdAt, i_updatedAt, i_verifiedAt, i_version).
Import IdentityDomain.Session(Session, s_id, s_identityId, s_status, s_createdAt, s_expiresAt, s_lastSeenAt, s_revokedAt, s_version).
Import IdentityDomain.Challenge(Challenge, v_id, v_identityId, v_purpose, v_status, v_issuedAt, v_expiresAt, v_consumedAt, v_version).
Import IdentityDomain.Credential(Credential, c_id, c_identityId, c_method, c_email, c_status, c_createdAt, c_updatedAt, c_revokedAt).
Import Postgres.Database(Thrown, DatabaseError, violatedUnique).

(** ** The tables. *)

Abbreviation IRow := Identity.Row.
(** @src src/modules/identity/infra/postgres/readers.ts:36-46 CredentialRow *)
Record CRow : Type := mkCRow { cr_row : Credential.Row; cr_passwordHash : jstring }.
(** @src src/modules/identity/infra/postgres/readers.ts:60-70 ChallengeRow *)
Record VRow : Type := mkVRow { vr_row : Challenge.Row; vr_tokenDigest : jstring }.
(** @src src/modules/identity/infra/postgres/sessions.ts:34-43 SessionRow
    With the digest, which no query returns. *)
Record SRow : Type := mkSRow { sr_row : Session.Row; sr_tokenDigest : jstring }.

Record Tables : Type := mkTables {
  identities : list (ID * IRow); credentials : list (ID * CRow); challenges : list (ID * VRow); sessions : list (ID * SRow)
}.

(** @src src/modules/identity/infra/postgres/migrations/baseline.sql:30-31 n2f_identity_identities *)
Definition identityChecks (r : IRow) : bool :=
  negb (isNull (Identity.parseStatus r.(Identity.r_status))) && (1 <=? num_val r.(Identity.r_version)).

(** @src src/modules/identity/infra/postgres/migrations/baseline.sql:19-20 n2f_identity_credentials *)
Definition credentialChecks (r : CRow) : bool :=
  negb (isNull (Credential.parseMethod r.(cr_row).(Credential.r_method)))
  && negb (isNull (Credential.parseStatus r.(cr_row).(Credential.r_status))).

(** @src src/modules/identity/infra/postgres/migrations/baseline.sql:59-63 n2f_identity_verification_challenges
    The purposes as [password-reset.sql] extends them. *)
Definition challengeChecks (r : VRow) : bool :=
  let row := r.(vr_row) in
  negb (date_le row.(Challenge.r_expiresAt) row.(Challenge.r_issuedAt))
  && match Challenge.parseStatus row.(Challenge.r_status) with
     | Some status => Bool.eqb (bool_decide (status = Challenge.issued)) (isNull row.(Challenge.r_consumedAt))
     | None => false
     end
  && negb (isNull (Challenge.parsePurpose row.(Challenge.r_purpose)))
  && (1 <=? num_val row.(Challenge.r_version)).

(** @src src/modules/identity/infra/postgres/migrations/baseline.sql:43-46 n2f_identity_sessions
    And the check of [session-activity.sql]. *)
Definition sessionChecks (r : SRow) : bool :=
  let row := r.(sr_row) in
  negb (date_le row.(Session.r_expiresAt) row.(Session.r_createdAt))
  && negb (date_lt row.(Session.r_lastSeenAt) row.(Session.r_createdAt))
  && match Session.parseStatus row.(Session.r_status) with
     | Some status => Bool.eqb (bool_decide (status = Session.active)) (isNull row.(Session.r_revokedAt))
     | None => false
     end
  && (1 <=? num_val row.(Session.r_version)).

(** The constraints that the writers name. *)
Definition identityPkey : string := "n2f_identity_identities_pkey".
Definition credentialPkey : string := "n2f_identity_credentials_pkey".
Definition emailKey : string := "n2f_identity_credentials_email_key".
Definition challengePkey : string := "n2f_identity_verification_challenges_pkey".
Definition sessionPkey : string := "n2f_identity_sessions_pkey".
Definition digestKey : string := "n2f_identity_sessions_token_digest_key".

(** @src src/modules/identity/infra/postgres/migrations/baseline.sql:66-67 n2f_identity_credentials_email_key *)
Definition sameEmail (a b : CRow) : bool := bool_decide (a.(cr_row).(Credential.r_email) = b.(cr_row).(Credential.r_email)).
(** @src src/modules/identity/infra/postgres/migrations/baseline.sql:78-79 n2f_identity_sessions_token_digest_key *)
Definition sameDigest (a b : SRow) : bool := bool_decide (a.(sr_tokenDigest) = b.(sr_tokenDigest)).

Definition identitySchema : Schema IRow :=
  mkSchema (fun r => refusing r.(Identity.r_version) (identityChecks r)) identityPkey [].
Definition credentialSchema : Schema CRow :=
  mkSchema (fun r => if credentialChecks r then None else Some "23514"%string) credentialPkey [(emailKey, sameEmail)].
Definition challengeSchema : Schema VRow :=
  mkSchema (fun r => refusing r.(vr_row).(Challenge.r_version) (challengeChecks r)) challengePkey [].
Definition sessionSchema : Schema SRow :=
  mkSchema (fun r => refusing r.(sr_row).(Session.r_version) (sessionChecks r)) sessionPkey [(digestKey, sameDigest)].

Definition onIdentities {A} : Body (list (ID * IRow)) A -> Body Tables A :=
  on identities (fun t s => mkTables t s.(credentials) s.(challenges) s.(sessions)).
Definition onCredentials {A} : Body (list (ID * CRow)) A -> Body Tables A :=
  on credentials (fun t s => mkTables s.(identities) t s.(challenges) s.(sessions)).
Definition onChallenges {A} : Body (list (ID * VRow)) A -> Body Tables A :=
  on challenges (fun t s => mkTables s.(identities) s.(credentials) t s.(sessions)).
Definition onSessions {A} : Body (list (ID * SRow)) A -> Body Tables A :=
  on sessions (fun t s => mkTables s.(identities) s.(credentials) s.(challenges) t).

(** @src src/modules/identity/infra/postgres/migrations/baseline.sql:90-97 n2f_identity_credentials_identity_id_fkey
    A foreign key, checked when the statement ends; identities are never
    deleted. *)
Definition belongsTo (name : string) (identityId : ID) : Body Tables unit := fun t =>
  if JsMap.has identityId t.(identities) then (t, Value tt) else (t, Raised (DatabaseError "23503" (Some name))).

(** ** The statements of the writers. *)

(** [const found = await transaction.query(...); if (!found) return err(refusal)]. *)
Definition unless_ {S} (refusal : Failure) (found : S -> bool) : Body S unit := fun s =>
  (s, if found s then Value tt else Refused refusal).

(** @src src/modules/identity/infra/postgres/sessions.ts:121-126 PostgresSessionWriter.commit
    [status='active' AND updated_at=$2]: the credential still has the secret of
    that time. *)
Definition secretOf (updatedAt : Date) (r : CRow) : bool :=
  bool_decide (r.(cr_row).(Credential.r_status) = "active"%string) && sameTime r.(cr_row).(Credential.r_updatedAt) updatedAt.

(** @src src/modules/identity/infra/postgres/registration-writer.ts:43-54 commit
    Versions of new rows are the columns' default; text is stored as it
    arrives. *)
Definition insertIdentity (i : Identity) : Body Tables unit :=
  _ ← parameters [timestamp i.(i_createdAt); timestamp i.(i_updatedAt); nullableTimestamp i.(i_verifiedAt)];
  onIdentities (insert identitySchema i.(i_id)
    (Identity.mkRow i.(i_id) (Identity.statusName i.(i_status)) (copyDate i.(i_createdAt)) (copyDate i.(i_updatedAt))
       (copyDateOpt i.(i_verifiedAt)) (Int 1))).

(** @src src/modules/identity/infra/postgres/registration-writer.ts:56-71 commit *)
Definition insertCredential (c : Credential) (passwordHash : jstring) : Body Tables unit :=
  _ ← parameters [text c.(c_email); text passwordHash; timestamp c.(c_createdAt); timestamp c.(c_updatedAt);
                  nullableTimestamp c.(c_revokedAt)];
  _ ← onCredentials (insert credentialSchema c.(c_id)
        (mkCRow (Credential.mkRow c.(c_id) c.(c_identityId) (Credential.methodName c.(c_method)) (VStr (sent c.(c_email)))
           (Credential.statusName c.(c_status)) (copyDate c.(c_createdAt)) (copyDate c.(c_updatedAt)) (copyDateOpt c.(c_revokedAt)))
           (sent passwordHash)));
  belongsTo "n2f_identity_credentials_identity_id_fkey" c.(c_identityId).

(** @src src/modules/identity/infra/postgres/registration-writer.ts:43-71 commit *)
Definition registrationStatements (input : RegistrationCommit) : Body Tables unit :=
  _ ← insertIdentity input.(rg_identity);
  insertCredential input.(rg_credential) input.(rg_passwordHash).

(** @src src/modules/identity/infra/postgres/registration-writer.ts:74-83 commit *)
Definition registrationHandler (cause : Thrown) : Failure :=
  match violatedUnique cause with
  | Some c =>
      if bool_decide (c = emailKey) then emailTaken
      else if bool_decide (c = identityPkey) then alreadyExists
      else Database.map cause
  | None => Database.map cause
  end.

(** @src src/modules/identity/infra/postgres/challenge-writer.ts:36-50 commit *)
Definition insertChallenge (v : Challenge) (tokenDigest : jstring) : Body Tables unit :=
  _ ← parameters [timestamp v.(v_issuedAt); timestamp v.(v_expiresAt); nullableTimestamp v.(v_consumedAt); text tokenDigest];
  _ ← onChallenges (insert challengeSchema v.(v_id)
        (mkVRow (Challenge.mkRow v.(v_id) v.(v_identityId) (Challenge.purposeName v.(v_purpose)) (Challenge.statusName v.(v_status))
           (copyDate v.(v_issuedAt)) (copyDate v.(v_expiresAt)) (copyDateOpt v.(v_consumedAt)) (Int 1)) (sent tokenDigest)));
  belongsTo "n2f_identity_verification_challenges_identity_id_fkey" v.(v_identityId).

(** @src src/modules/identity/infra/postgres/challenge-writer.ts:52-58 commit *)
Definition challengeHandler (cause : Thrown) : Failure :=
  match violatedUnique cause with
  | Some c => if bool_decide (c = challengePkey) then challengeExists else Database.map cause
  | None => Database.map cause
  end.

(** @src src/modules/identity/infra/postgres/verification-writer.ts:37-48 commit
    The reset's statement sets the same. *)
Definition setIdentity (i : Identity) (old : IRow) : IRow :=
  Identity.mkRow old.(Identity.r_id) (Identity.statusName i.(i_status)) old.(Identity.r_createdAt) (copyDate i.(i_updatedAt))
    (copyDateOpt i.(i_verifiedAt)) (Int (num_val old.(Identity.r_version) + 1)).

(** @src src/modules/identity/infra/postgres/verification-writer.ts:37-59 commit *)
Definition updateIdentity (i : Identity) : Body Tables unit :=
  _ ← parameters [timestamp i.(i_updatedAt); nullableTimestamp i.(i_verifiedAt); integer i.(i_version)];
  onIdentities (updateOr identityNotFound staleWrite identitySchema i.(i_id)
    (fun r => num_val r.(Identity.r_version) =? i.(i_version)) (setIdentity i)).

(** @src src/modules/identity/infra/postgres/verification-writer.ts:61-72 commit
    The reset's statement sets the same. *)
Definition setChallenge (v : Challenge) (old : VRow) : VRow :=
  let r := old.(vr_row) in
  mkVRow (Challenge.mkRow r.(Challenge.r_id) r.(Challenge.r_identityId) r.(Challenge.r_purpose) (Challenge.statusName v.(v_status))
    r.(Challenge.r_issuedAt) r.(Challenge.r_expiresAt) (copyDateOpt v.(v_consumedAt)) (Int (num_val r.(Challenge.r_version) + 1)))
    old.(vr_tokenDigest).

(** @src src/modules/identity/infra/postgres/verification-writer.ts:61-86 commit
    A version-checked update of a challenge that also satisfies [where_]. *)
Definition updateChallenge (where_ : Challenge.Row -> bool) (v : Challenge) : Body Tables unit :=
  _ ← parameters [nullableTimestamp v.(v_consumedAt); integer v.(v_version)];
  onChallenges (updateOr verificationNotFound staleWrite challengeSchema v.(v_id)
    (fun r => where_ r.(vr_row) && (num_val r.(vr_row).(Challenge.r_version) =? v.(v_version))) (setChallenge v)).

(** @src src/modules/identity/infra/postgres/verification-writer.ts:37-86 commit *)
Definition verificationStatements (input : VerificationCommit) : Body Tables unit :=
  _ ← updateIdentity input.(vf_identity);
  updateChallenge (fun r => bool_decide (r.(Challenge.r_identityId) = input.(vf_identity).(i_id))) input.(vf_challenge).

(** @src src/modules/identity/infra/postgres/sessions.ts:80-85 revoke *)
Definition setRevoked (session : Session) (old : SRow) : SRow :=
  let r := old.(sr_row) in
  mkSRow (Session.mkRow r.(Session.r_id) r.(Session.r_identityId) (Session.statusName session.(s_status)) r.(Session.r_createdAt)
    r.(Session.r_expiresAt) r.(Session.r_lastSeenAt) (copyDateOpt session.(s_revokedAt)) (Int (num_val r.(Session.r_version) + 1)))
    old.(sr_tokenDigest).

Definition sameVersion (session : Session) (r : SRow) : bool := num_val r.(sr_row).(Session.r_version) =? session.(s_version).

(** @src src/modules/identity/infra/postgres/sessions.ts:75-90 revoke *)
Definition revoke (session : Session) : Body Tables unit :=
  _ ← parameters [nullableTimestamp session.(s_revokedAt); integer session.(s_version)];
  onSessions (updateOr sessionNotFound staleWrite sessionSchema session.(s_id) (sameVersion session) (setRevoked session)).

(** @src src/modules/identity/infra/postgres/sessions.ts:121-127 PostgresSessionWriter.commit
    [FOR SHARE] holds a reset of the credential back until the login commits. *)
Definition passwordStands (c : Credential) : Body Tables unit :=
  _ ← parameters [timestamp c.(c_updatedAt)];
  unless_ staleWrite (fun t => match JsMap.get c.(c_id) t.(credentials) with Some r => secretOf c.(c_updatedAt) r | None => false end).

(** @src src/modules/identity/infra/postgres/sessions.ts:134-148 PostgresSessionWriter.commit *)
Definition insertSession (session : Session) (tokenDigest : jstring) : Body Tables unit :=
  _ ← parameters [timestamp session.(s_createdAt); timestamp session.(s_expiresAt); timestamp session.(s_lastSeenAt);
                  nullableTimestamp session.(s_revokedAt); text tokenDigest];
  _ ← onSessions (insert sessionSchema session.(s_id)
        (mkSRow (Session.mkRow session.(s_id) session.(s_identityId) (Session.statusName session.(s_status)) (copyDate session.(s_createdAt))
           (copyDate session.(s_expiresAt)) (copyDate session.(s_lastSeenAt)) (copyDateOpt session.(s_revokedAt)) (Int 1)) (sent tokenDigest)));
  belongsTo "n2f_identity_sessions_identity_id_fkey" session.(s_identityId).

(** @src src/modules/identity/infra/postgres/sessions.ts:150-158 PostgresSessionWriter.commit *)
Definition sessionHandler (cause : Thrown) : Failure :=
  match violatedUnique cause with
  | Some c => if bool_decide (c = sessionPkey) || bool_decide (c = digestKey) then sessionExists else Database.map cause
  | None => Database.map cause
  end.

(** @src src/modules/identity/infra/postgres/password-reset-writer.ts:48-54 commit *)
Definition updateSecret (c : Credential) (previousUpdatedAt : Date) (passwordHash : jstring) : Body Tables unit :=
  _ ← parameters [text passwordHash; timestamp c.(c_updatedAt); timestamp previousUpdatedAt];
  n ← onCredentials (update credentialSchema c.(c_id)
        (secretOf previousUpdatedAt)
        (fun r => let old := r.(cr_row) in
           mkCRow (Credential.mkRow old.(Credential.r_id) old.(Credential.r_identityId) old.(Credential.r_method) old.(Credential.r_email)
             old.(Credential.r_status) old.(Credential.r_createdAt) (copyDate c.(c_updatedAt)) old.(Credential.r_revokedAt)) (sent passwordHash)));
  if n =? 1 then ret tt else refuse staleWrite.

(** @src src/modules/identity/infra/postgres/password-reset-writer.ts:100-108 commit *)
Fixpoint revokeAll (revoked : list SessionEviction) : Body Tables unit :=
  match revoked with
  | [] => ret tt
  | e :: rest =>
      let session := e.(ev_session) in
      _ ← parameters [nullableTimestamp session.(s_revokedAt); integer session.(s_version)];
      n ← onSessions (update sessionSchema session.(s_id) (sameVersion session) (setRevoked session));
      _ ← if n =? 1 then ret tt else refuse staleWrite;
      revokeAll rest
  end.

(** @src src/modules/identity/infra/postgres/password-reset-writer.ts:110-114 commit
    [identity_id=$1::uuid AND status='active']. *)
Definition activeRow (identityId : ID) (r : SRow) : bool :=
  bool_decide (r.(sr_row).(Session.r_identityId) = identityId) && bool_decide (r.(sr_row).(Session.r_status) = "active"%string).

(** @src src/modules/identity/infra/postgres/password-reset-writer.ts:109-115 commit *)
Definition noSurvivor (identityId : ID) : Body Tables unit :=
  unless_ staleWrite (fun t => negb (existsb (activeRow identityId) (JsMap.values t.(sessions)))).

(** @src src/modules/identity/infra/postgres/password-reset-writer.ts:46-115 commit *)
Definition resetStatements (input : ResetCommit) : Body Tables unit :=
  _ ← updateSecret input.(rs_credential) input.(rs_previousUpdatedAt) input.(rs_passwordHash);
  _ ← updateChallenge (fun r => bool_decide (r.(Challenge.r_purpose) = "password_reset"%string)) input.(rs_challenge);
  _ ← match input.(rs_identity) with Some i => updateIdentity i | None => ret tt end;
  _ ← revokeAll input.(rs_revoked);
  noSurvivor input.(rs_credential).(c_identityId).

(** ** The writers. *)

(** A commit of one of the six writers. *)
Inductive Commit : Type :=
| cRegistration (input : RegistrationCommit)
| cChallenge (input : ChallengeCommit)
| cVerification (input : VerificationCommit)
| cSession (input : SessionCommit)
| cRevocation (input : RevocationCommit)
| cReset (input : ResetCommit).

Section Writer.
  Context {J : Type} `{Jdec : EqDecision J} (jsonb : Events.Raw -> option J).

(** @src src/modules/identity/infra/postgres/registration-writer.ts:28-85 commit *)
Definition commitRegistration (input : RegistrationCommit) (now : Z) : Body (Tables * Outbox.Outbox) unit :=
  writerAll jsonb now [input.(rg_event)] input.(rg_work) registrationHandler (registrationStatements input).

(** @src src/modules/identity/infra/postgres/challenge-writer.ts:22-60 commit *)
Definition commitChallenge (input : ChallengeCommit) (now : Z) : Body (Tables * Outbox.Outbox) unit :=
  writerAll jsonb now [input.(vc_event)] input.(vc_work) challengeHandler (insertChallenge input.(vc_challenge) input.(vc_tokenDigest)).

(** @src src/modules/identity/infra/postgres/verification-writer.ts:23-93 commit *)
Definition commitVerification (input : VerificationCommit) (now : Z) : Body (Tables * Outbox.Outbox) unit :=
  writerAll jsonb now [input.(vf_event)] input.(vf_work) Database.map (verificationStatements input).

(** @src src/modules/identity/infra/postgres/sessions.ts:128-133 PostgresSessionWriter.commit (loop)
    Each eviction with its event. *)
Fixpoint evict (now : Z) (evicted : list SessionEviction) : Body (Tables * Outbox.Outbox) unit :=
  match evicted with
  | [] => ret tt
  | e :: rest =>
      _ ← onTable (revoke e.(ev_session));
      _ ← onOutbox (enqueue jsonb now e.(ev_event));
      evict now rest
  end.

(** @src src/modules/identity/infra/postgres/sessions.ts:100-160 PostgresSessionWriter.commit *)
Definition commitSession (input : SessionCommit) (now : Z) : Body (Tables * Outbox.Outbox) unit :=
  _ ← checked (assertAll (input.(sn_event) :: (ev_event <$> input.(sn_evicted))) input.(sn_work));
  catching sessionHandler
    (_ ← onTable (passwordStands input.(sn_credential));
     _ ← evict now input.(sn_evicted);
     _ ← onTable (insertSession input.(sn_session) input.(sn_tokenDigest));
     onOutbox (enqueue jsonb now input.(sn_event))).

(** @src src/modules/identity/infra/postgres/sessions.ts:192-212 PostgresSessionRevocationWriter.commit *)
Definition commitRevocation (input : RevocationCommit) (now : Z) : Body (Tables * Outbox.Outbox) unit :=
  writerAll jsonb now [input.(rv_event)] input.(rv_work) Database.map (revoke input.(rv_session)).

(** @src src/modules/identity/infra/postgres/password-reset-writer.ts:26-126 commit *)
Definition commitReset (input : ResetCommit) (now : Z) : Body (Tables * Outbox.Outbox) unit :=
  writerAll jsonb now input.(rs_events) input.(rs_work) Database.map (resetStatements input).

Definition commit (c : Commit) (now : Z) : Body (Tables * Outbox.Outbox) unit :=
  match c with
  | cRegistration i => commitRegistration i now
  | cChallenge i => commitChallenge i now
  | cVerification i => commitVerification i now
  | cSession i => commitSession i now
  | cRevocation i => commitRevocation i now
  | cReset i => commitReset i now
  end.
End Writer.

(** @src src/modules/identity/infra/postgres/sessions.ts:218-234 PostgresSessionActivityWriter.record *)
Definition record (sessionId : ID) (at_ : Date) : Body Tables unit :=
  catching Database.map
    (_ ← parameters [timestamp at_];
     _ ← onSessions (update sessionSchema sessionId (fun r => date_lt r.(sr_row).(Session.r_lastSeenAt) at_)
           (fun old => let r := old.(sr_row) in
              mkSRow (Session.mkRow r.(Session.r_id) r.(Session.r_identityId) r.(Session.r_status) r.(Session.r_createdAt)
                r.(Session.r_expiresAt) (copyDate at_) r.(Session.r_revokedAt) r.(Session.r_version)) old.(sr_tokenDigest)));
     ret tt).

(** @src src/modules/identity/infra/postgres/sessions.ts:273-281 PostgresSessionPruner.prune *)
Definition endedRow (endedBefore idleBefore : Date) (r : SRow) : bool :=
  before r.(sr_row).(Session.r_revokedAt) endedBefore || date_lt r.(sr_row).(Session.r_expiresAt) endedBefore
  || date_lt r.(sr_row).(Session.r_lastSeenAt) idleBefore.

(** @src src/modules/identity/infra/postgres/sessions.ts:267-287 PostgresSessionPruner.prune
    [scan]: the identifiers of the rows that nobody locks, in the order the server
    comes upon them. *)
Definition prune (scan : list ID) (endedBefore idleBefore : Date) (limit : Z) : Body Tables Z :=
  catching Database.map
    (_ ← parameters [timestamp endedBefore; timestamp idleBefore];
     onSessions (fun t =>
       let picked := take (Z.to_nat limit)
         (filter (fun id => match JsMap.get id t with Some r => endedRow endedBefore idleBefore r | None => false end = true) scan) in
       (foldl (fun m id => JsMap.delete id m) t picked, Value (Z.of_nat (length picked))))).

(** ** The readers. *)

(** @src src/modules/identity/infra/postgres/readers.ts:72-81 storedId
    Identifiers are text here. *)
Definition storedId (value : ID) : Res ID := Ids.parse (VStr value).

(** @src src/modules/identity/infra/postgres/readers.ts:94-105 identityFrom *)
Definition identityFrom (r : IRow) : Res Identity :=
  id ← storedId r.(Identity.r_id);
  Identity.restore (Identity.mkRow id r.(Identity.r_status) r.(Identity.r_createdAt) r.(Identity.r_updatedAt) r.(Identity.r_verifiedAt)
    r.(Identity.r_version)).

(** @src src/modules/identity/infra/postgres/readers.ts:107-122 credentialFrom *)
Definition credentialFrom `{CaseFolding} (row : CRow) : Res Credential :=
  let r := row.(cr_row) in
  id ← storedId r.(Credential.r_id);
  identityId ← storedId r.(Credential.r_identityId);
  Credential.restore (Credential.mkRow id identityId r.(Credential.r_method) r.(Credential.r_email) r.(Credential.r_status)
    r.(Credential.r_createdAt) r.(Credential.r_updatedAt) r.(Credential.r_revokedAt)).

(** @src src/modules/identity/infra/postgres/readers.ts:124-141 challengeFrom *)
Definition challengeFrom (row : VRow) : Res Challenge :=
  let r := row.(vr_row) in
  id ← storedId r.(Challenge.r_id);
  identityId ← storedId r.(Challenge.r_identityId);
  Challenge.restore (Challenge.mkRow id identityId r.(Challenge.r_purpose) r.(Challenge.r_status) r.(Challenge.r_issuedAt)
    r.(Challenge.r_expiresAt) r.(Challenge.r_consumedAt) r.(Challenge.r_version)).

(** @src src/modules/identity/infra/postgres/sessions.ts:58-73 sessionFrom *)
Definition sessionFrom (row : SRow) : Res Session :=
  let r := row.(sr_row) in
  id ← storedId r.(Session.r_id);
  identityId ← storedId r.(Session.r_identityId);
  Session.restore (Session.mkRow id identityId r.(Session.r_status) r.(Session.r_createdAt) r.(Session.r_expiresAt) r.(Session.r_lastSeenAt)
    r.(Session.r_revokedAt) r.(Session.r_version)).

(** @src src/modules/identity/infra/postgres/readers.ts:146-164 PostgresIdentityReader.find *)
Definition findIdentity (identityId : ID) (t : Tables) : Res (option Identity) :=
  firstRow identityFrom (option_list (JsMap.get identityId t.(identities))).

(** @src src/modules/identity/infra/postgres/readers.ts:170-195 PostgresIdentityViewReader.findById *)
Definition findView (identityId : ID) (t : Tables) : Res (option IdentityView) :=
  firstRow (fun row => ident ← identityFrom row; Ok (mkView ident.(i_id) ident.(i_status) (copyDateOpt ident.(i_verifiedAt))))
    (option_list (JsMap.get identityId t.(identities))).

(** @src src/modules/identity/infra/postgres/readers.ts:224-239 PostgresCredentialAuthenticatorReader.find
    The join, by a condition on the credential. *)
Definition joined (where_ : CRow -> bool) (t : Tables) : list (IRow * CRow) :=
  omap (fun c => (fun i => (i, c)) <$> JsMap.get c.(cr_row).(Credential.r_identityId) t.(identities))
    (filter (fun c => where_ c && bool_decide (c.(cr_row).(Credential.r_status) = "active"%string) = true) (JsMap.values t.(credentials))).

(** @src src/modules/identity/infra/postgres/readers.ts:241-264 PostgresCredentialAuthenticatorReader.find *)
Definition recordFrom `{CaseFolding} (row : IRow * CRow) : Res AuthenticationRecord :=
  ident ← identityFrom row.1;
  credential ← credentialFrom row.2;
  Ok (mkRecord ident credential row.2.(cr_passwordHash)).

(** @src src/modules/identity/infra/postgres/readers.ts:217-269 PostgresCredentialAuthenticatorReader.find *)
Definition findRecord `{CaseFolding} (where_ : CRow -> bool) (t : Tables) : Res (option AuthenticationRecord) :=
  firstRow recordFrom (joined where_ t).

(** @src src/modules/identity/infra/postgres/readers.ts:203-208 PostgresCredentialAuthenticatorReader.findByEmail *)
Definition findByEmail `{CaseFolding} (email : jstring) (t : Tables) : Res (option AuthenticationRecord) :=
  findRecord (fun c => bool_decide (c.(cr_row).(Credential.r_email) = VStr (sent email))) t.

(** @src src/modules/identity/infra/postgres/readers.ts:210-215 PostgresCredentialAuthenticatorReader.findByIdentity *)
Definition findByIdentity `{CaseFolding} (identityId : ID) (t : Tables) : Res (option AuthenticationRecord) :=
  findRecord (fun c => bool_decide (c.(cr_row).(Credential.r_identityId) = identityId)) t.

(** @src src/modules/identity/infra/postgres/readers.ts:277-301 PostgresVerificationChallengeReader.find *)
Definition findChallenge (challengeId : ID) (t : Tables) : Res (option StoredChallenge) :=
  firstRow (fun row => challenge ← challengeFrom row; Ok (mkStoredChallenge challenge row.(vr_tokenDigest)))
    (option_list (JsMap.get challengeId t.(challenges))).

(** @src src/modules/identity/infra/postgres/sessions.ts:166-184 PostgresCurrentSessionReader.findByToken *)
Definition findByToken (digestToken : jstring -> jstring) (token : jstring) (t : Tables) : Res (option Session) :=
  firstRow sessionFrom (filter (fun r => bool_decide (r.(sr_tokenDigest) = digestToken token) = true) (JsMap.values t.(sessions))).

(** @src src/modules/identity/infra/postgres/sessions.ts:247-247 PostgresActiveSessionReader.listActive
    [ORDER BY created_at DESC, id DESC]. *)
Definition newestFirst (a b : SRow) : Z :=
  let time := getTime b.(sr_row).(Session.r_createdAt) - getTime a.(sr_row).(Session.r_createdAt) in
  if time =? 0 then match jcompare a.(sr_row).(Session.r_id) b.(sr_row).(Session.r_id) with Lt => 1 | Gt => -1 | Eq => 0 end else time.

(** @src src/modules/identity/infra/postgres/sessions.ts:240-261 PostgresActiveSessionReader.listActive *)
Definition listActive (identityId : ID) (t : Tables) : Res (list Session) :=
  restoreAll sessionFrom (sort_by newestFirst (filter (fun r => activeRow identityId r = true) (JsMap.values t.(sessions)))).

(** ** The same stores, as rows. *)

Abbreviation Stores := IdentityStore.IdentityStore.Stores.
Abbreviation ids := IdentityStore.IdentityStore.identities.
Abbreviation cs := IdentityStore.IdentityStore.credentials.
Abbreviation hs := IdentityStore.IdentityStore.passwordHashes.
Abbreviation vs := IdentityStore.IdentityStore.challenges.
Abbreviation ss := IdentityStore.IdentityStore.sessions.
Abbreviation Account := (Credential * jstring)%type.

Definition credentialRow (a : Account) : CRow := mkCRow (Credential.row a.1) a.2.
Definition challengeRow (c : StoredChallenge) : VRow := mkVRow (Challenge.row c.(sc_challenge)) c.(sc_tokenDigest).
Definition sessionRow (s : StoredSession) : SRow := mkSRow (Session.row s.(ss_session)) s.(ss_tokenDigest).

(** Each credential with its hash, which the in-memory store keeps beside it. *)
Definition accounts (credentials : list (ID * Credential)) (hashes : list (ID * jstring)) : list (ID * Account) :=
  (fun e => (e.1, (e.2, default [] (JsMap.get e.1 hashes)))) <$> credentials.

Definition tablesOf (s : Stores) : Tables :=
  mkTables (Sql.rowsOf Identity.row (ids s)) (Sql.rowsOf credentialRow (accounts (cs s) (hs s))) (Sql.rowsOf challengeRow (vs s))
    (Sql.rowsOf sessionRow (ss s)).

Lemma accounts_keys c h : JsMap.keys (accounts c h) = JsMap.keys c.
Proof. unfold accounts, JsMap.keys. rewrite <- list_fmap_compose. by apply list_fmap_ext. Qed.

Lemma accounts_get c h id : JsMap.get id (accounts c h) = (fun x => (x, default [] (JsMap.get id h))) <$> JsMap.get id c.
Proof.
  induction c as [|[k x] c IH]; [done|]. cbn [accounts fmap list_fmap JsMap.get fst snd]. destruct (decide (id = k)) as [->|]; [done|exact IH].
Qed.

Lemma accounts_hash c h id x : id ∉ JsMap.keys c -> accounts c (JsMap.set id x h) = accounts c h.
Proof.
  intros Hid. unfold accounts. apply list_fmap_ext. intros i [k y] He. cbn [fst snd]. rewrite JsMap.get_set_ne; [done|]. intros ->. apply Hid.
  apply list_elem_of_fmap. exists (k, y). split; [done|]. by apply list_elem_of_lookup_2 in He.
Qed.

Lemma accounts_set c h id x y : JsMap.wf c -> accounts (JsMap.set id x c) (JsMap.set id y h) = JsMap.set id (x, y) (accounts c h).
Proof.
  intros Hw. induction c as [|[k z] c IH].
  - cbn. by rewrite JsMap.get_set_eq.
  - apply NoDup_cons in Hw as [Hk Hw]. cbn [JsMap.set accounts fmap list_fmap fst snd]. destruct (decide (id = k)) as [->|Hne].
    + cbn. rewrite JsMap.get_set_eq. f_equal. by apply accounts_hash.
    + cbn [fmap list_fmap fst snd]. rewrite JsMap.get_set_ne by done. f_equal. by apply IH.
Qed.

Lemma accounts_wf c h : JsMap.wf c -> JsMap.wf (accounts c h).
Proof. unfold JsMap.wf. by rewrite accounts_keys. Qed.

Lemma accounts_exists c h (p : Credential -> bool) :
  existsb (fun x => p x.1) (JsMap.values (accounts c h)) = existsb p (JsMap.values c).
Proof. induction c as [|[k y] c IH]; [done|]. cbn [accounts fmap list_fmap]. cbn. by f_equal. Qed.

(** ** What the columns hold. *)

Definition fitsIdentity (i : Identity) : Prop := timed i.(i_createdAt) /\ timed i.(i_updatedAt) /\ timedOpt i.(i_verifiedAt).
Definition fitsCredential (c : Credential) : Prop :=
  plain c.(c_email) /\ timed c.(c_createdAt) /\ timed c.(c_updatedAt) /\ timedOpt c.(c_revokedAt).
Definition fitsChallenge (v : Challenge) : Prop := timed v.(v_issuedAt) /\ timed v.(v_expiresAt) /\ timedOpt v.(v_consumedAt).
Definition fitsSession (s : Session) : Prop :=
  timed s.(s_createdAt) /\ timed s.(s_expiresAt) /\ timed s.(s_lastSeenAt) /\ timedOpt s.(s_revokedAt).

Section Rows.
  Context `{CaseFolding}.

Lemma identity_accepted i : 1 <= i.(i_version) <= INTEGER_MAX -> identitySchema.(refuses) (Identity.row i) = None.
Proof.
  intros Hv. cbn [identitySchema refuses Identity.row Identity.r_version]. apply refusing_None; [done|].
  unfold identityChecks. cbn [Identity.row Identity.r_status Identity.r_version num_val]. rewrite Identity.identity_parseStatus_name.
  apply Z.leb_le. lia.
Qed.

Lemma credential_accepted a : credentialSchema.(refuses) (credentialRow a) = None.
Proof.
  cbn [credentialSchema refuses]. unfold credentialChecks. cbn [credentialRow cr_row Credential.row Credential.r_method Credential.r_status].
  by destruct (Credential.credential_names (c_method a.1) (c_status a.1)) as [-> ->].
Qed.

Lemma challenge_accepted c :
  Challenge.wf c.(sc_challenge) -> 1 <= c.(sc_challenge).(v_version) <= INTEGER_MAX -> challengeSchema.(refuses) (challengeRow c) = None.
Proof.
  intros Hw Hv. cbn [challengeSchema refuses challengeRow vr_row Challenge.row Challenge.r_version]. apply refusing_None; [done|].
  unfold challengeChecks. cbn [challengeRow vr_row Challenge.row Challenge.r_expiresAt Challenge.r_issuedAt Challenge.r_status Challenge.r_consumedAt
    Challenge.r_purpose Challenge.r_version num_val].
  destruct (Challenge.challenge_names (v_purpose c.(sc_challenge)) (v_status c.(sc_challenge))) as [-> ->]. destruct Hw as [Hi Hx Hc Ho Hco].
  rewrite !copyDate_valid, copyDateOpt_valid, Ho by done. cbn [negb isNull andb].
  unfold Challenge.incoherent in Hco. rewrite (proj2 (Z.leb_le _ _)) by lia. rewrite andb_true_r, andb_true_r.
  destruct (v_status _), (v_consumedAt _); try done.
Qed.

Lemma session_accepted s :
  Session.wf s.(ss_session) -> 1 <= s.(ss_session).(s_version) <= INTEGER_MAX -> sessionSchema.(refuses) (sessionRow s) = None.
Proof.
  intros Hw Hv. cbn [sessionSchema refuses sessionRow sr_row Session.row Session.r_version]. apply refusing_None; [done|].
  unfold sessionChecks. cbn [sessionRow sr_row Session.row Session.r_expiresAt Session.r_createdAt Session.r_lastSeenAt Session.r_status
    Session.r_revokedAt Session.r_version num_val].
  rewrite Session.session_parseStatus_name. destruct Hw as [Hc Hx Hl Hlo Hr Hxo Hco].
  rewrite !copyDate_valid, copyDateOpt_valid, Hxo, Hlo by done. cbn [negb andb].
  unfold Session.incoherent in Hco. rewrite (proj2 (Z.leb_le _ _)) by lia. rewrite andb_true_r.
  destruct (s_status _), (s_revokedAt _); try done.
Qed.

(** What the in-memory stores keep true ([IdentityWorld.Inv]), within the range
    of the columns, and that digests tell sessions apart. *)
Record storable (s : Stores) : Prop := mkStorable {
  st_identities : keyedBy i_id (ids s);
  st_credentials : keyedBy c_id (cs s);
  st_challenges : keyedBy (fun c => c.(sc_challenge).(v_id)) (vs s);
  st_sessions : keyedBy (fun st => st.(ss_session).(s_id)) (ss s);
  st_identity : forall id i, JsMap.get id (ids s) = Some i -> Identity.wf i /\ FIRST <= i.(i_version) < INTEGER_MAX /\ validID i.(i_id) = true;
  st_credential : forall id c, JsMap.get id (cs s) = Some c ->
    Credential.wf c /\ fitsCredential c /\ validID c.(c_id) = true /\ validID c.(c_identityId) = true;
  st_challenge : forall id c, JsMap.get id (vs s) = Some c ->
    Challenge.wf c.(sc_challenge) /\ FIRST <= c.(sc_challenge).(v_version) < INTEGER_MAX
    /\ validID c.(sc_challenge).(v_id) = true /\ validID c.(sc_challenge).(v_identityId) = true;
  st_session : forall id st, JsMap.get id (ss s) = Some st ->
    Session.wf st.(ss_session) /\ FIRST <= st.(ss_session).(s_version) < INTEGER_MAX
    /\ validID st.(ss_session).(s_id) = true /\ validID st.(ss_session).(s_identityId) = true;
  st_email : forall a b c c', JsMap.get a (cs s) = Some c -> JsMap.get b (cs s) = Some c' -> c.(c_email) = c'.(c_email) -> a = b;
  st_single : forall a b c c', JsMap.get a (cs s) = Some c -> JsMap.get b (cs s) = Some c' -> c.(c_identityId) = c'.(c_identityId) -> a = b;
  st_account : forall id c, JsMap.get id (cs s) = Some c ->
    (exists i, JsMap.get c.(c_identityId) (ids s) = Some i) /\ (exists h, JsMap.get id (hs s) = Some h);
  st_digest : forall a b st st', JsMap.get a (ss s) = Some st -> JsMap.get b (ss s) = Some st' -> st.(ss_tokenDigest) = st'.(ss_tokenDigest) -> a = b
}.

(** ** Inserts. *)

Lemma insert_free {A R} (row : A -> R) sch id a s :
  JsMap.wf s -> free row sch id a s -> JsMap.get id s = None -> insert sch id (row a) (Sql.rowsOf row s) = (Sql.rowsOf row (JsMap.set id a s), Value tt).
Proof.
  intros Hw Hf Hn. unfold insert. rewrite has_rowsOf. unfold JsMap.has. rewrite Hn, free_violation, set_rowsOf by done. by destruct Hf as [-> _].
Qed.

Lemma insert_taken {A R} (row : A -> R) sch id a b s :
  sch.(refuses) (row a) = None -> JsMap.get id s = Some b -> insert sch id (row a) (Sql.rowsOf row s) = (Sql.rowsOf row s, Raised (uniqueViolation sch.(pkey))).
Proof. intros Hf Hn. unfold insert. rewrite has_rowsOf. unfold JsMap.has. by rewrite Hf, Hn. Qed.

(** What a registration, an issue or a login creates. *)
Lemma registered_fresh id t i : Identity.register id t = Ok i -> Identity.wf i /\ i.(i_version) = UNSAVED.
Proof. intros Hc. split; [by eapply Identity.identity_register_wf|]. unfold Identity.register in Hc. by ok_branches Hc. Qed.
Lemma issue_fresh x v : Challenge.issue x = Ok v -> Challenge.wf v /\ v.(v_version) = UNSAVED.
Proof. intros Hc. split; [by eapply Challenge.challenge_issue_wf|]. unfold Challenge.issue in Hc. by ok_branches Hc. Qed.
Lemma session_fresh x s : Session.create x = Ok s -> Session.wf s /\ s.(s_version) = UNSAVED.
Proof. intros Hc. split; [by eapply Session.session_create_wf|]. unfold Session.create in Hc. by ok_branches Hc. Qed.

Lemma insertIdentity_rows i a b c d :
  JsMap.wf a -> Identity.wf i -> fitsIdentity i -> i.(i_version) = UNSAVED ->
  insertIdentity i (mkTables (Sql.rowsOf Identity.row a) b c d) =
  match JsMap.get i.(i_id) a with
  | Some _ => (mkTables (Sql.rowsOf Identity.row a) b c d, Raised (uniqueViolation identityPkey))
  | None => (mkTables (Sql.rowsOf Identity.row (JsMap.set i.(i_id) (Identity.saved i) a)) b c d, Value tt)
  end.
Proof.
  intros Ha Hw (Hc & Hu & Hv) Hver. unfold insertIdentity. rewrite parameters_then by (destruct Hw; values).
  unfold onIdentities, on. cbn [identities credentials challenges sessions].
  change (Identity.mkRow _ _ _ _ _ (Int 1)) with
    (Identity.row (Identity.mkIdentity i.(i_id) i.(i_status) i.(i_createdAt) i.(i_updatedAt) i.(i_verifiedAt) 1)).
  replace (Identity.mkIdentity _ _ _ _ _ 1) with (Identity.saved i) by (unfold Identity.saved; by rewrite Hver).
  assert (Hacc : identitySchema.(refuses) (Identity.row (Identity.saved i)) = None).
  { apply identity_accepted. cbn. rewrite Hver. unfold UNSAVED, INTEGER_MAX. lia. }
  destruct (JsMap.get (i_id i) a) as [p|] eqn:E; [by erewrite insert_taken|]. rewrite insert_free; try done.
  split; [done|]. by intros name clash ?%elem_of_nil.
Qed.

Lemma email_row (x y : Account) : sameEmail (credentialRow x) (credentialRow y) = bool_decide (x.1.(c_email) = y.1.(c_email)).
Proof. unfold sameEmail. cbn. apply bool_decide_ext. split; [by intros [=]|by intros ->]. Qed.

Lemma insertCredential_rows c hash a b v d i :
  JsMap.wf b -> Credential.wf c -> fitsCredential c -> plain hash -> JsMap.get c.(c_id) b = None ->
  JsMap.get c.(c_identityId) a = Some i ->
  insertCredential c hash (mkTables (Sql.rowsOf Identity.row a) (Sql.rowsOf credentialRow b) v d) =
  if existsb (fun x => bool_decide (x.1.(c_email) = c.(c_email))) (JsMap.values b)
  then (mkTables (Sql.rowsOf Identity.row a) (Sql.rowsOf credentialRow b) v d, Raised (uniqueViolation emailKey))
  else (mkTables (Sql.rowsOf Identity.row a) (Sql.rowsOf credentialRow (JsMap.set c.(c_id) (c, hash) b)) v d, Value tt).
Proof.
  intros Hb Hw ([Hcl Hnul] & Hc & Hu & Hr) [Hhc Hhn] Hn Hi. unfold insertCredential.
  rewrite parameters_then by (destruct Hw; values; by apply text_None). rewrite !sent_clean by done.
  unfold onCredentials. rewrite on_then. cbn [identities credentials challenges sessions].
  change (mkCRow _ _) with (credentialRow (c, hash)).
  pose proof (violation_rows credentialRow credentialSchema c.(c_id) (c, hash) b Hb (credential_accepted _)) as Hvio.
  unfold insert. rewrite credential_accepted, has_rowsOf. unfold JsMap.has. rewrite Hn.
  destruct (violation _ _ _ _) as [e|].
  - destruct Hvio as (name & clash & id' & x & -> & [= -> ->]%list_elem_of_singleton & Hx & _ & Hs). rewrite email_row in Hs.
    destruct (existsb _ _) eqn:Eh; [done|]. exfalso. apply not_true_iff_false in Eh. apply Eh, existsb_exists. exists x. split; [|exact Hs].
    apply list_elem_of_In, JsMap.elem_values; [done|]. by exists id'.
  - destruct (existsb _ _) eqn:Eh.
    + exfalso. apply existsb_exists in Eh as (x & Hx%list_elem_of_In & Hs). apply JsMap.elem_values in Hx as [id' Hx]; [|done].
      specialize (Hvio emailKey sameEmail ltac:(left) id' x Hx). rewrite email_row in Hvio. cbn [fst] in Hvio. rewrite Hs in Hvio.
      discriminate Hvio. intros ->. congruence.
    + rewrite set_rowsOf. unfold belongsTo. cbn [identities]. rewrite has_rowsOf. unfold JsMap.has. by rewrite Hi.
Qed.

Lemma insertChallenge_rows x digest a b c d i :
  JsMap.wf c -> Challenge.wf x -> fitsChallenge x -> x.(v_version) = UNSAVED -> plain digest -> JsMap.get x.(v_identityId) a = Some i ->
  insertChallenge x digest (mkTables (Sql.rowsOf Identity.row a) b (Sql.rowsOf challengeRow c) d) =
  match JsMap.get x.(v_id) c with
  | Some _ => (mkTables (Sql.rowsOf Identity.row a) b (Sql.rowsOf challengeRow c) d, Raised (uniqueViolation challengePkey))
  | None => (mkTables (Sql.rowsOf Identity.row a) b
       (Sql.rowsOf challengeRow (JsMap.set x.(v_id) (mkStoredChallenge (Challenge.saved x) digest) c)) d, Value tt)
  end.
Proof.
  intros Hc Hw (Hi & Hx & Hco) Hver [Hdc Hdn] Hid. unfold insertChallenge. rewrite parameters_then by (destruct Hw; values; by apply text_None).
  rewrite sent_clean by done. unfold onChallenges. rewrite on_then. cbn [identities credentials challenges sessions].
  change (mkVRow _ _) with (challengeRow (mkStoredChallenge
    (Challenge.mkChallenge x.(v_id) x.(v_identityId) x.(v_purpose) x.(v_status) x.(v_issuedAt) x.(v_expiresAt) x.(v_consumedAt) 1) digest)).
  replace (Challenge.mkChallenge _ _ _ _ _ _ _ 1) with (Challenge.saved x) by (unfold Challenge.saved; by rewrite Hver).
  assert (Hacc : challengeSchema.(refuses) (challengeRow (mkStoredChallenge (Challenge.saved x) digest)) = None).
  { apply challenge_accepted; [by destruct Hw|]. cbn. rewrite Hver. unfold UNSAVED, INTEGER_MAX. lia. }
  destruct (JsMap.get (v_id x) c) as [p|] eqn:E; [by erewrite insert_taken|]. rewrite insert_free; try done.
  - unfold belongsTo. cbn [identities]. rewrite has_rowsOf. unfold JsMap.has. by rewrite Hid.
  - split; [done|]. by intros name clash ?%elem_of_nil.
Qed.

(** No session has the digest. *)
Definition unused (digest : jstring) (m : list (ID * StoredSession)) : Prop :=
  forall id st, JsMap.get id m = Some st -> st.(ss_tokenDigest) <> digest.

Lemma insertSession_rows x digest a b c d i :
  JsMap.wf d -> Session.wf x -> fitsSession x -> x.(s_version) = UNSAVED -> plain digest -> JsMap.get x.(s_identityId) a = Some i ->
  JsMap.get x.(s_id) d = None -> unused digest d ->
  insertSession x digest (mkTables (Sql.rowsOf Identity.row a) b c (Sql.rowsOf sessionRow d)) =
  (mkTables (Sql.rowsOf Identity.row a) b c (Sql.rowsOf sessionRow (JsMap.set x.(s_id) (mkStoredSession (Session.saved x) digest) d)), Value tt).
Proof.
  intros Hd Hw (Hc & Hx & Hl & Hr) Hver [Hdc Hdn] Hid Hn Hun. unfold insertSession. rewrite parameters_then by (destruct Hw; values; by apply text_None).
  rewrite sent_clean by done. unfold onSessions. rewrite on_then. cbn [identities credentials challenges sessions].
  change (mkSRow _ _) with (sessionRow (mkStoredSession
    (Session.mkSession x.(s_id) x.(s_identityId) x.(s_status) x.(s_createdAt) x.(s_expiresAt) x.(s_lastSeenAt) x.(s_revokedAt) 1) digest)).
  replace (Session.mkSession _ _ _ _ _ _ _ 1) with (Session.saved x) by (unfold Session.saved; by rewrite Hver).
  rewrite insert_free; [|done| |done].
  - unfold belongsTo. cbn [identities]. rewrite has_rowsOf. unfold JsMap.has. by rewrite Hid.
  - split; [apply session_accepted; [by destruct Hw|]; cbn; rewrite Hver; unfold UNSAVED, INTEGER_MAX; lia|].
    intros name clash [= -> ->]%list_elem_of_singleton id' st Hst _. unfold sameDigest. apply bool_decide_eq_false. cbn. by eapply Hun.
Qed.

(** ** Updates. *)

(** What a command changed of an identity it read. *)
Definition changedIdentity (s : Stores) (i : Identity) : Prop :=
  exists i0, Identity.wf i0 /\ FIRST <= i0.(i_version) < INTEGER_MAX /\ Identity.step i0 i /\ seen (ids s) i0.

(** And of a challenge. *)
Definition consumedFrom (s : Stores) (c0 : StoredChallenge) (v : Challenge) : Prop :=
  Challenge.wf c0.(sc_challenge) /\ FIRST <= c0.(sc_challenge).(v_version) < INTEGER_MAX
  /\ (exists t, Challenge.consume c0.(sc_challenge) t = Ok v) /\ seen (vs s) c0.

Lemma seen_same {A} `{Aggregate A} (m : list (ID * A)) a0 p :
  seen m a0 -> JsMap.get (agg_id a0) m = Some p -> agg_version p = agg_version a0 -> p = a0.
Proof. intros (b & Hb & Hev) Hp Hv. unfold holds in Hb. rewrite Hp in Hb. injection Hb as <-. by apply evo_stable in Hev as (_ & _ & ?); auto. Qed.

Lemma identity_step_created i i' : Identity.wf i -> Identity.step i i' -> i'.(i_createdAt) = i.(i_createdAt).
Proof.
  intros Hw Hs. destruct Hs as [i t i' Hs|i t i' Hs|i t i' Hs|i t i' Hs];
    unfold Identity.verify, Identity.suspend, Identity.disable, Identity.reactivate in Hs; ok_branches Hs; cbn; apply copyDate_valid; by destruct Hw.
Qed.

Lemma updateIdentity_rows s i a b c d :
  a = ids s -> JsMap.wf a -> changedIdentity s i -> fitsIdentity i ->
  updateIdentity i (mkTables (Sql.rowsOf Identity.row a) b c d) =
  match JsMap.get i.(i_id) a with
  | None => (mkTables (Sql.rowsOf Identity.row a) b c d, Refused identityNotFound)
  | Some p =>
      if p.(i_version) =? i.(i_version) then (mkTables (Sql.rowsOf Identity.row (JsMap.set i.(i_id) (Identity.saved i) a)) b c d, Value tt)
      else (mkTables (Sql.rowsOf Identity.row a) b c d, Refused staleWrite)
  end.
Proof.
  intros -> Hwf (i0 & Hw0 & Hv0 & Hstep & Hseen) (Hc & Hu & Hv). pose proof (Identity.identity_step_wf _ _ Hw0 Hstep) as Hw.
  pose proof (agg_change_version i0 i Hstep) as Hver. pose proof (agg_change_id i0 i Hstep) as Hid. cbn in Hver, Hid.
  unfold updateIdentity. rewrite parameters_then by (destruct Hw; values).
  unfold onIdentities, on. cbn [identities credentials challenges sessions].
  rewrite (updateOr_rows Identity.row _ _ _ _ _ _ _ (Identity.saved i)) by
    (done || (intros p Hp Ev; cbn in Ev; apply Z.eqb_eq in Ev;
      assert (p = i0) as -> by (apply (seen_same (ids s)); [done|by cbn; rewrite <- Hid|by cbn; rewrite Ev, Hver]); split;
      [unfold setIdentity, Identity.row, Identity.saved; cbn; by rewrite Hid, (identity_step_created _ _ Hw0 Hstep), Hver
      |split; [apply identity_accepted; cbn; unfold FIRST in *; lia|by intros name clash ?%elem_of_nil]])).
  destruct (JsMap.get (i_id i) (ids s)) as [p|]; [|done]. cbn [Identity.row Identity.r_version num_val]. by destruct (_ =? _).
Qed.

Lemma challenge_kept (a b : StoredChallenge) :
  rtc evo a b -> b.(sc_challenge).(v_identityId) = a.(sc_challenge).(v_identityId) /\ b.(sc_challenge).(v_purpose) = a.(sc_challenge).(v_purpose).
Proof.
  induction 1 as [a|a x b (c & (_ & t & Hc) & ->) _ IH]; [done|]. destruct IH as [-> ->]. cbn.
  apply IdentityWorld.IdentityWorld.consume_fixed in Hc as (_ & -> & -> & _). done.
Qed.

Lemma consumed_stored s c0 v p :
  consumedFrom s c0 v -> JsMap.get v.(v_id) (vs s) = Some p ->
  p.(sc_challenge).(v_identityId) = v.(v_identityId) /\ p.(sc_challenge).(v_purpose) = v.(v_purpose)
  /\ (p.(sc_challenge).(v_version) = v.(v_version) -> p = c0).
Proof.
  intros (_ & _ & [t Hc] & Hs) Hp. destruct (IdentityWorld.IdentityWorld.consume_fixed _ _ _ Hc) as (Hid & Hi & Hpu & Hv & _).
  assert (Hp0 : JsMap.get (agg_id c0) (vs s) = Some p) by (cbn; by rewrite <- Hid).
  pose proof Hs as (b & Hb & Hev). unfold holds in Hb. rewrite Hp0 in Hb. injection Hb as <-. apply challenge_kept in Hev as [-> ->]. split_and!; [done..|].
  intros Hver. apply (seen_same (vs s)); [done..|]. cbn. by rewrite Hver, Hv.
Qed.

Lemma updateChallenge_rows s c0 where_ v a b c d :
  c = vs s -> JsMap.wf c -> consumedFrom s c0 v -> fitsChallenge v ->
  (forall p, JsMap.get v.(v_id) (vs s) = Some p -> where_ (Challenge.row p.(sc_challenge)) = true) ->
  updateChallenge where_ v (mkTables a b (Sql.rowsOf challengeRow c) d) =
  match JsMap.get v.(v_id) c with
  | None => (mkTables a b (Sql.rowsOf challengeRow c) d, Refused verificationNotFound)
  | Some p =>
      if p.(sc_challenge).(v_version) =? v.(v_version)
      then (mkTables a b (Sql.rowsOf challengeRow (JsMap.set v.(v_id) (mkStoredChallenge (Challenge.saved v) p.(sc_tokenDigest)) c)) d, Value tt)
      else (mkTables a b (Sql.rowsOf challengeRow c) d, Refused staleWrite)
  end.
Proof.
  intros -> Hwf Hfrom (Hi & Hx & Hco) Hwhere. pose proof (consumed_stored s c0 v) as Hst. specialize (fun p => Hst p Hfrom).
  destruct Hfrom as (Hw0 & Hv0 & [t Hc] & _). pose proof (Challenge.challenge_consume_wf _ _ _ Hw0 Hc) as Hw.
  destruct (IdentityWorld.IdentityWorld.consume_fixed _ _ _ Hc) as (Hid & Hidn & Hpu & Hver & _ & Hstat).
  unfold updateChallenge. rewrite parameters_then by (destruct Hw; values). unfold onChallenges, on. cbn [identities credentials challenges sessions].
  rewrite (updateOr_rows challengeRow _ _ _ _ _ _ _ (mkStoredChallenge (Challenge.saved v) c0.(sc_tokenDigest))); [|done|].
  - destruct (JsMap.get (v_id v) (vs s)) as [p|] eqn:Ep; [|done]. specialize (Hwhere p eq_refl). specialize (Hst p eq_refl) as (_ & _ & Hsame).
    cbn [challengeRow vr_row Challenge.r_version num_val] in Hwhere |- *. rewrite Hwhere. cbn [andb Challenge.row Challenge.r_version num_val].
    destruct (_ =? _) eqn:E; [|done]. apply Z.eqb_eq, Hsame in E as ->. done.
  - intros p Hp Ev. apply andb_true_iff in Ev as [_ Ev]. cbn in Ev. apply Z.eqb_eq in Ev. destruct (Hst p Hp) as (_ & _ & Hsame).
    specialize (Hsame Ev) as ->. split.
    + unfold setChallenge, challengeRow, Challenge.row, Challenge.saved. cbn. unfold Challenge.consume in Hc. ok_branches Hc. done.
    + split; [apply challenge_accepted; [by destruct Hw|cbn; unfold FIRST in *; lia]|]. by intros name clash ?%elem_of_nil.
Qed.

(** ** Ended sessions. *)

(** A session that a command revoked after reading it; the stored one may have
    been used since. *)
Definition revokedFrom (m : list (ID * StoredSession)) (session : Session) : Prop :=
  timedOpt session.(s_revokedAt)
  /\ exists s0 t, Session.wf s0 /\ FIRST <= s0.(s_version) < INTEGER_MAX /\ Session.revoke s0 t = Ok session
     /\ forall st, JsMap.get session.(s_id) m = Some st -> st.(ss_session).(s_version) = session.(s_version) ->
          Session.wf st.(ss_session)
          /\ exists seen, st.(ss_session) = Session.mkSession s0.(s_id) s0.(s_identityId) s0.(s_status) s0.(s_createdAt) s0.(s_expiresAt) seen
                                             s0.(s_revokedAt) s0.(s_version).

(** What the server stores: its own record of the last use stays. *)
Definition ended (session : Session) (st : StoredSession) : StoredSession :=
  mkStoredSession (Session.mkSession session.(s_id) session.(s_identityId) session.(s_status) session.(s_createdAt) session.(s_expiresAt)
    st.(ss_session).(s_lastSeenAt) session.(s_revokedAt) (session.(s_version) + 1)) st.(ss_tokenDigest).

Definition endOne (session : Session) (m : list (ID * StoredSession)) : list (ID * StoredSession) :=
  match JsMap.get session.(s_id) m with Some st => JsMap.set session.(s_id) (ended session st) m | None => m end.
Definition endEach (evicted : list SessionEviction) (m : list (ID * StoredSession)) : list (ID * StoredSession) :=
  foldl (fun m e => endOne e.(ev_session) m) m evicted.

(** Digests tell sessions apart. *)
Definition distinct (m : list (ID * StoredSession)) : Prop :=
  forall a b st st', JsMap.get a m = Some st -> JsMap.get b m = Some st' -> st.(ss_tokenDigest) = st'.(ss_tokenDigest) -> a = b.

Lemma endOne_get session m id :
  JsMap.get id (endOne session m) = if decide (session.(s_id) = id) then ended session <$> JsMap.get id m else JsMap.get id m.
Proof.
  unfold endOne. destruct (JsMap.get (s_id session) m) as [st|] eqn:E; [rewrite JsMap.get_set|]; case_decide as D; subst; try done;
    by rewrite E.
Qed.

Lemma endOne_wf session m : JsMap.wf m -> JsMap.wf (endOne session m).
Proof. intros Hw. unfold endOne. destruct (JsMap.get _ m); [by apply JsMap.wf_set|done]. Qed.

Lemma endOne_distinct session m : distinct m -> distinct (endOne session m).
Proof.
  intros Hd a b st st' Ha Hb Hs. rewrite endOne_get in Ha, Hb.
  assert (Hdig : forall id x, (if decide (s_id session = id) then ended session <$> JsMap.get id m else JsMap.get id m) = Some x ->
    exists y, JsMap.get id m = Some y /\ y.(ss_tokenDigest) = x.(ss_tokenDigest)).
  { intros id x Hx. case_decide; [|by exists x]. destruct (JsMap.get id m) as [y|]; [|done]. injection Hx as <-. by exists y. }
  destruct (Hdig _ _ Ha) as (x & Hx & Hxd), (Hdig _ _ Hb) as (y & Hy & Hyd). eapply Hd; [exact Hx|exact Hy|congruence].
Qed.

Lemma revoke_fields s0 t session :
  Session.revoke s0 t = Ok session ->
  session = Session.mkSession s0.(s_id) s0.(s_identityId) Session.revoked s0.(s_createdAt) s0.(s_expiresAt) s0.(s_lastSeenAt)
              session.(s_revokedAt) s0.(s_version).
Proof. unfold Session.revoke. intros Hr. by ok_branches Hr. Qed.

Lemma revoke_values m session : revokedFrom m session -> Forall (fun r => r = None) [nullableTimestamp session.(s_revokedAt); integer session.(s_version)].
Proof.
  intros (Ht & s0 & t & Hw & Hv & Hr & _). pose proof (Session.session_step_wf _ _ Hw (Session.step_revoke _ _ _ Hr)) as [? ? ? ? Hb ? ?].
  pose proof (revoke_fields _ _ _ Hr) as Hf. assert (session.(s_version) = s0.(s_version)) by (by rewrite Hf). values.
Qed.

(** The update of a revocation. *)
Lemma update_ended session m :
  JsMap.wf m -> distinct m -> revokedFrom m session ->
  update sessionSchema session.(s_id) (sameVersion session) (setRevoked session) (Sql.rowsOf sessionRow m) =
  match JsMap.get session.(s_id) m with
  | Some st =>
      if st.(ss_session).(s_version) =? session.(s_version) then (Sql.rowsOf sessionRow (endOne session m), Value 1)
      else (Sql.rowsOf sessionRow m, Value 0)
  | None => (Sql.rowsOf sessionRow m, Value 0)
  end.
Proof.
  intros Hwf Hd (Ht & s0 & t & Hw0 & Hv0 & Hr & Hst). pose proof (revoke_fields _ _ _ Hr) as Hf.
  pose proof (Session.session_step_wf _ _ Hw0 (Session.step_revoke _ _ _ Hr)) as Hw.
  destruct (JsMap.get (s_id session) m) as [st|] eqn:E; [|unfold update; by rewrite get_rowsOf, E].
  rewrite (update_rows sessionRow sessionSchema (s_id session) _ _ m (ended session st)).
  - rewrite E. unfold sameVersion. cbn [sessionRow sr_row Session.row Session.r_version num_val]. unfold endOne. by rewrite E.
  - done.
  - intros p Hp Ev. rewrite E in Hp. injection Hp as <-. unfold sameVersion in Ev. cbn in Ev. apply Z.eqb_eq in Ev.
    destruct (Hst st eq_refl Ev) as (Hws & seen & Hseen). split.
    + unfold setRevoked, sessionRow, ended, Session.row. cbn. rewrite Hseen, Hf. done.
    + assert (Hacc : Session.wf (ended session st).(ss_session)).
      { destruct Hws as [_ _ Hl Hlo _ _ _]. destruct Hw as [Hc Hx _ _ Hb Hxo Hco]. constructor; try done. cbn [ended ss_session s_lastSeenAt s_createdAt].
        rewrite Hf. cbn [s_createdAt]. by rewrite Hseen in Hlo |- *. }
      split; [apply session_accepted; [done|]; cbn; rewrite Hf; cbn; unfold FIRST in *; lia|].
      intros name clash [= -> ->]%list_elem_of_singleton id' b Hb Hne. unfold sameDigest. apply bool_decide_eq_false. cbn.
      intros Hs. apply Hne. by eapply Hd.
Qed.

Lemma revoke_rows session a b c m :
  JsMap.wf m -> distinct m -> revokedFrom m session ->
  revoke session (mkTables a b c (Sql.rowsOf sessionRow m)) =
  match JsMap.get session.(s_id) m with
  | Some st =>
      if st.(ss_session).(s_version) =? session.(s_version) then (mkTables a b c (Sql.rowsOf sessionRow (endOne session m)), Value tt)
      else (mkTables a b c (Sql.rowsOf sessionRow m), Refused staleWrite)
  | None => (mkTables a b c (Sql.rowsOf sessionRow m), Refused sessionNotFound)
  end.
Proof.
  intros Hw Hd Hr. unfold revoke. rewrite parameters_then by (by eapply revoke_values). unfold onSessions, on. cbn [identities credentials challenges sessions].
  unfold updateOr, mbind, Body_bind. rewrite update_ended by done. unfold orMoved.
  destruct (JsMap.get (s_id session) m) as [st|] eqn:E; [destruct (_ =? _)|]; cbn; rewrite ?has_rowsOf; unfold JsMap.has; by rewrite ?E.
Qed.

(** ** Several at once. *)

(** The sessions of a list, each once. *)
Definition revocable (m : list (ID * StoredSession)) (evicted : list SessionEviction) : Prop :=
  NoDup (endedIds evicted) /\ Forall (fun e => revokedFrom m e.(ev_session)) evicted.

Lemma revocable_step e evicted m :
  revocable m (e :: evicted) -> revokedFrom m e.(ev_session) /\ revocable (endOne e.(ev_session) m) evicted.
Proof.
  intros [Hnd [He Hall]%Forall_cons]. cbn in Hnd. apply NoDup_cons in Hnd as [Hn Hnd]. split; [done|]. split; [done|].
  rewrite Forall_forall in Hall |- *. intros e' He'. destruct (Hall e' He') as (Ht & s0 & t & Hw & Hv & Hr & Hst). split; [done|].
  exists s0, t. split; [done|]. split; [done|]. split; [done|]. intros st. rewrite endOne_get, decide_False; [apply Hst|]. intros Heq. apply Hn. rewrite Heq.
  apply list_elem_of_fmap. eauto.
Qed.

(** The guard of the evictions, on the sessions alone. *)
Fixpoint standing (evicted : list SessionEviction) (m : list (ID * StoredSession)) : Res unit :=
  match evicted with
  | [] => Ok tt
  | e :: rest =>
      match JsMap.get e.(ev_session).(s_id) m with
      | None => Err sessionNotFound
      | Some st => if st.(ss_session).(s_version) =? e.(ev_session).(s_version) then standing rest m else Err staleWrite
      end
  end.

Lemma standing_guard evicted s : evictedGuard evicted s = standing evicted (ss s).
Proof. induction evicted as [|e evicted IH]; [done|]. cbn. destruct (JsMap.get _ _); [|done]. destruct (_ =? _); [exact IH|done]. Qed.

Lemma standing_step e evicted m : NoDup (endedIds (e :: evicted)) -> standing evicted (endOne e.(ev_session) m) = standing evicted m.
Proof.
  cbn. intros [Hn Hnd]%NoDup_cons. clear Hnd. induction evicted as [|x evicted IH]; [done|]. cbn in Hn. cbn [standing]. apply not_elem_of_cons in Hn as [Hne Hn].
  rewrite endOne_get, decide_False by done. destruct (JsMap.get _ m); [|done]. destruct (_ =? _); [by apply IH|done].
Qed.

Lemma endEach_cons e evicted m : endEach (e :: evicted) m = endEach evicted (endOne e.(ev_session) m).
Proof. reflexivity. Qed.

Lemma endEach_wf evicted m : JsMap.wf m -> JsMap.wf (endEach evicted m).
Proof. revert m. induction evicted as [|e evicted IH]; intros m Hw; [done|]. rewrite endEach_cons. by apply IH, endOne_wf. Qed.

Lemma endEach_distinct evicted m : distinct m -> distinct (endEach evicted m).
Proof. revert m. induction evicted as [|e evicted IH]; intros m Hd; [done|]. rewrite endEach_cons. by apply IH, endOne_distinct. Qed.

Lemma endEach_out evicted m id : id ∉ endedIds evicted -> JsMap.get id (endEach evicted m) = JsMap.get id m.
Proof.
  revert m. induction evicted as [|e evicted IH]; intros m Hid; [done|]. cbn in Hid. apply not_elem_of_cons in Hid as [Hne Hid].
  by rewrite endEach_cons, IH, endOne_get, decide_False by done.
Qed.

Lemma endEach_digest evicted m id st :
  JsMap.get id (endEach evicted m) = Some st -> exists st0, JsMap.get id m = Some st0 /\ st0.(ss_tokenDigest) = st.(ss_tokenDigest).
Proof.
  revert m. induction evicted as [|e evicted IH]; intros m Hst; [eauto|]. rewrite endEach_cons in Hst. apply IH in Hst as (x & Hx & Hd).
  rewrite endOne_get in Hx. case_decide; [|eauto]. destruct (JsMap.get id m) as [y|]; [|done]. injection Hx as <-. eauto.
Qed.

(** What is listed is revoked afterwards. *)
Lemma endEach_revoked evicted m id st :
  revocable m evicted -> id ∈ endedIds evicted -> JsMap.get id (endEach evicted m) = Some st -> st.(ss_session).(s_status) = Session.revoked.
Proof.
  revert m. induction evicted as [|e evicted IH]; intros m Hr Hid Hst; [by apply elem_of_nil in Hid|].
  pose proof (revocable_step _ _ _ Hr) as [(_ & s0 & t & _ & _ & He & _) Hr']. destruct Hr as [[Hn _]%NoDup_cons _].
  rewrite endEach_cons in Hst. cbn in Hid, Hn. apply elem_of_cons in Hid as [->|Hid]; [|by eapply IH].
  rewrite endEach_out, endOne_get, decide_True in Hst by done. destruct (JsMap.get _ m) as [y|]; [|done]. injection Hst as <-.
  cbn. by rewrite (revoke_fields _ _ _ He).
Qed.

Lemma revokeAll_rows revoked a b c m :
  JsMap.wf m -> distinct m -> revocable m revoked ->
  match standing revoked m with
  | Ok _ => revokeAll revoked (mkTables a b c (Sql.rowsOf sessionRow m)) = (mkTables a b c (Sql.rowsOf sessionRow (endEach revoked m)), Value tt)
  | Err _ => exists t, revokeAll revoked (mkTables a b c (Sql.rowsOf sessionRow m)) = (t, Refused staleWrite)
  end.
Proof.
  revert m. induction revoked as [|e revoked IH]; intros m Hw Hd Hr; [done|]. pose proof (revocable_step _ _ _ Hr) as [He Hr'].
  cbn [standing]. cbn [revokeAll]. rewrite parameters_then by (by eapply revoke_values). unfold onSessions. rewrite on_then.
  cbn [identities credentials challenges sessions]. rewrite update_ended by done.
  destruct (JsMap.get _ m) as [st|]; [|eauto]. destruct (_ =? _); [|eauto].
  specialize (IH (endOne (ev_session e) m) (endOne_wf _ _ Hw) (endOne_distinct _ _ Hd) Hr').
  rewrite standing_step in IH by (by destruct Hr). exact IH.
Qed.

Lemma stale_standing revoked s : existsb (fun e => staleSession e.(ev_session) s) revoked = negb (isOk (standing revoked (ss s))).
Proof.
  induction revoked as [|e revoked IH]; [done|]. cbn [existsb standing]. unfold staleSession at 1. destruct (JsMap.get _ (ss s)); [|done].
  by destruct (_ =? _).
Qed.

(** After the listed sessions have ended, the reset's last look finds those that
    were not listed. *)
Lemma survivors_unlisted input s :
  storable s -> revocable (ss s) input.(rs_revoked) ->
  existsb (activeRow input.(rs_credential).(c_identityId)) (JsMap.values (Sql.rowsOf sessionRow (endEach input.(rs_revoked) (ss s))))
  = unlisted input s.
Proof.
  intros Hs Hr. destruct (st_sessions _ Hs) as [Hw Hk]. pose proof (endEach_wf (rs_revoked input) _ Hw) as Hw'.
  rewrite values_rowsOf. apply eq_true_iff_eq. unfold unlisted. rewrite !existsb_exists.
  assert (Hactive : forall i st, activeRow i (sessionRow st) = activeOf i st.(ss_session)).
  { intros i st. unfold activeRow, activeOf. cbn. f_equal. by destruct (s_status _). }
  split.
  - intros (r & (st & -> & Hst)%list_elem_of_In%list_elem_of_fmap & Ha). rewrite Hactive in Ha.
    apply JsMap.elem_values in Hst as [id Hst]; [|done]. destruct (decide (id ∈ endedIds (rs_revoked input))) as [Hin|Hout].
    + apply (endEach_revoked _ _ _ _ Hr Hin) in Hst. unfold activeOf in Ha. rewrite Hst in Ha. by rewrite andb_false_r in Ha.
    + rewrite endEach_out in Hst by done. exists st. split; [apply list_elem_of_In, JsMap.elem_values; eauto|].
      rewrite Ha, (Hk _ _ Hst). cbn [andb negb]. by rewrite bool_decide_eq_false_2.
  - intros (st & Hst%list_elem_of_In & Hb). apply andb_true_iff in Hb as [Ha Hout%negb_true_iff%bool_decide_eq_false].
    apply JsMap.elem_values in Hst as [id Hst]; [|done]. rewrite (Hk _ _ Hst) in Hout. exists (sessionRow st). split; [|by rewrite Hactive].
    apply list_elem_of_In, list_elem_of_fmap. exists st. split; [done|]. apply JsMap.elem_values; [done|]. exists id. by rewrite endEach_out.
Qed.

(** ** The credential of a login or a reset. *)

Lemma secretOf_row updatedAt x h : Credential.wf x ->
  secretOf updatedAt (credentialRow (x, h)) = bool_decide (x.(c_status) = Credential.active) && sameTime x.(c_updatedAt) updatedAt.
Proof.
  intros [_ _ Hu _ _ _]. unfold secretOf. cbn [credentialRow cr_row fst Credential.row Credential.r_status Credential.r_updatedAt].
  rewrite copyDate_valid by done. f_equal. by destruct (c_status x).
Qed.

Lemma changed_secret id updatedAt s :
  storable s ->
  match JsMap.get id (Sql.rowsOf credentialRow (accounts (cs s) (hs s))) with Some r => secretOf updatedAt r | None => false end
  = negb (changedCredential id updatedAt s).
Proof.
  intros Hs. unfold changedCredential. rewrite get_rowsOf, accounts_get. destruct (JsMap.get id (cs s)) as [x|] eqn:E; [|done].
  cbn [fmap option_fmap option_map]. rewrite secretOf_row by (by apply (st_credential _ Hs _ _ E)). by rewrite negb_orb, !negb_involutive.
Qed.

(** The credential whose secret a reset changes, as it was read. *)
Definition resecured (s : Stores) (c : Credential) (previousUpdatedAt : Date) : Prop :=
  fitsCredential c /\ exists c0 t, Credential.wf c0 /\ timed c0.(c_updatedAt) /\ Credential.changeSecret c0 t = Ok c
    /\ previousUpdatedAt = c0.(c_updatedAt)
    /\ forall p, JsMap.get c.(c_id) (cs s) = Some p -> p.(c_updatedAt) = previousUpdatedAt -> p = c0.

Lemma updateSecret_rows s c previous hash a v d :
  storable s -> resecured s c previous -> plain hash ->
  updateSecret c previous hash (mkTables a (Sql.rowsOf credentialRow (accounts (cs s) (hs s))) v d) =
  if changedCredential c.(c_id) previous s
  then (mkTables a (Sql.rowsOf credentialRow (accounts (cs s) (hs s))) v d, Refused staleWrite)
  else (mkTables a (Sql.rowsOf credentialRow (accounts (JsMap.set c.(c_id) c (cs s)) (JsMap.set c.(c_id) hash (hs s)))) v d, Value tt).
Proof.
  intros Hs ((Hpe & _ & Htu & _) & c0 & t & Hw0 & Ht0 & Hch & -> & Hsame) [Hhc Hhn].
  pose proof (Credential.credential_change_wf _ _ _ Hw0 Hch) as Hw. unfold updateSecret.
  rewrite parameters_then by (destruct Hw, Hw0; values; by apply text_None). rewrite sent_clean by done.
  unfold onCredentials. rewrite on_then. cbn [identities credentials challenges sessions].
  pose proof (proj1 (st_credentials _ Hs)) as Hcw.
  rewrite (update_rows credentialRow credentialSchema c.(c_id) _ _ _ (c, hash)).
  - rewrite accounts_get, accounts_set by done. unfold changedCredential. destruct (JsMap.get (c_id c) (cs s)) as [x|] eqn:E; [|done].
    cbn [fmap option_fmap option_map]. rewrite secretOf_row by (by apply (st_credential _ Hs _ _ E)). rewrite <- negb_andb. by destruct (_ && _).
  - by apply accounts_wf.
  - intros p Hp Ev. rewrite accounts_get in Hp. destruct (JsMap.get (c_id c) (cs s)) as [x|] eqn:E; [|done]. injection Hp as <-.
    rewrite secretOf_row in Ev by (by apply (st_credential _ Hs _ _ E)). apply andb_true_iff in Ev as [_ Ev].
    assert (x = c0) as ->.
    { apply Hsame; [done|]. unfold sameTime in Ev. destruct (c_updatedAt x), (c_updatedAt c0); try done. by apply Z.eqb_eq in Ev as ->. }
    split.
    + unfold credentialRow, Credential.row. cbn. unfold Credential.changeSecret in Hch. ok_branches Hch. cbn.
      by rewrite !copyDate_valid by (by rewrite ?validDate_copy; destruct Hw0).
    + split; [apply credential_accepted|]. intros name clash [= -> ->]%list_elem_of_singleton id' b Hb Hne. rewrite email_row. cbn [fst].
      apply bool_decide_eq_false. intros He. apply Hne. rewrite accounts_get in Hb. destruct (JsMap.get id' (cs s)) as [y|] eqn:Ey; [|done].
      injection Hb as <-. eapply (st_email _ Hs); [exact Ey|exact E|]. cbn in He. rewrite He. unfold Credential.changeSecret in Hch. by ok_branches Hch.
Qed.

(** ** The commits. *)

Definition eventsOf (c : Commit) : list Events.Envelope :=
  match c with
  | cRegistration i => [i.(rg_event)] | cChallenge i => [i.(vc_event)] | cVerification i => [i.(vf_event)]
  | cSession i => (ev_event <$> i.(sn_evicted)) ++ [i.(sn_event)] | cRevocation i => [i.(rv_event)] | cReset i => i.(rs_events)
  end.
Definition workOf (c : Commit) : WorkContext :=
  match c with
  | cRegistration i => i.(rg_work) | cChallenge i => i.(vc_work) | cVerification i => i.(vf_work)
  | cSession i => i.(sn_work) | cRevocation i => i.(rv_work) | cReset i => i.(rs_work)
  end.
(** A login checks the event of its own session first. *)
Definition provenance (c : Commit) : Res unit :=
  match c with cSession i => assertAll (i.(sn_event) :: (ev_event <$> i.(sn_evicted))) i.(sn_work) | _ => assertAll (eventsOf c) (workOf c) end.

(** The in-memory writers. *)
Definition inMemory (c : Commit) (bus : Events.Envelope -> Res unit) (s : Stores) : Writers.Outcome Stores :=
  match c with
  | cRegistration i => IdentityStore.commitRegistration i bus s
  | cChallenge i => IdentityStore.commitChallenge i bus s
  | cVerification i => IdentityStore.commitVerification i bus s
  | cSession i => IdentityStore.commitSession i bus s
  | cRevocation i => IdentityStore.commitRevocation i bus s
  | cReset i => IdentityStore.commitReset i bus s
  end.

(** A commit a command makes: what it creates is new, under a fresh identifier
    and with a fresh digest, for a stored identity; what it changes was read
    from the store. *)
Definition legit (c : Commit) (s : Stores) : Prop :=
  match c with
  | cRegistration i =>
      (exists id t, Identity.register id t = Ok i.(rg_identity)) /\ fitsIdentity i.(rg_identity)
      /\ (exists x, Credential.createEmailPassword x = Ok i.(rg_credential)) /\ fitsCredential i.(rg_credential) /\ plain i.(rg_passwordHash)
      /\ i.(rg_credential).(c_identityId) = i.(rg_identity).(i_id) /\ JsMap.get i.(rg_credential).(c_id) (cs s) = None
  | cChallenge i =>
      (exists x, Challenge.issue x = Ok i.(vc_challenge)) /\ fitsChallenge i.(vc_challenge) /\ plain i.(vc_tokenDigest)
      /\ exists x, JsMap.get i.(vc_challenge).(v_identityId) (ids s) = Some x
  | cVerification i =>
      changedIdentity s i.(vf_identity) /\ fitsIdentity i.(vf_identity)
      /\ (exists c0, consumedFrom s c0 i.(vf_challenge)) /\ fitsChallenge i.(vf_challenge)
      /\ i.(vf_challenge).(v_identityId) = i.(vf_identity).(i_id)
  | cSession i =>
      (exists x, Session.create x = Ok i.(sn_session)) /\ fitsSession i.(sn_session) /\ plain i.(sn_tokenDigest)
      /\ JsMap.get i.(sn_session).(s_id) (ss s) = None /\ unused i.(sn_tokenDigest) (ss s)
      /\ Credential.wf i.(sn_credential) /\ fitsCredential i.(sn_credential)
      /\ (exists x, JsMap.get i.(sn_session).(s_identityId) (ids s) = Some x) /\ revocable (ss s) i.(sn_evicted)
  | cRevocation i => revokedFrom (ss s) i.(rv_session)
  | cReset i =>
      resecured s i.(rs_credential) i.(rs_previousUpdatedAt) /\ plain i.(rs_passwordHash)
      /\ (exists c0, consumedFrom s c0 i.(rs_challenge)) /\ fitsChallenge i.(rs_challenge)
      /\ i.(rs_challenge).(v_purpose) = Challenge.password_reset
      /\ (forall x, i.(rs_identity) = Some x -> changedIdentity s x /\ fitsIdentity x) /\ revocable (ss s) i.(rs_revoked)
  end.

(** What the server stores when the guards of the in-memory writer pass. *)
Definition stored (c : Commit) (s : Stores) : Res Stores :=
  match c with
  | cRegistration i => _ ← registrationGuard i s; Ok (withRegistration i s)
  | cChallenge i =>
      if JsMap.has i.(vc_challenge).(v_id) (vs s) then Err challengeExists
      else Ok (withChallenge (mkStoredChallenge (Challenge.saved i.(vc_challenge)) i.(vc_tokenDigest)) s)
  | cVerification i =>
      found ← verificationGuard i s;
      Ok (withVerification (Identity.saved i.(vf_identity)) (mkStoredChallenge (Challenge.saved i.(vf_challenge)) found.(sc_tokenDigest)) s)
  | cSession i =>
      _ ← sessionGuard i s;
      Ok (withSessions (JsMap.set i.(sn_session).(s_id) (mkStoredSession (Session.saved i.(sn_session)) i.(sn_tokenDigest))
            (endEach i.(sn_evicted) (ss s))) s)
  | cRevocation i => _ ← revocationGuard i s; Ok (withSessions (endOne i.(rv_session) (ss s)) s)
  | cReset i =>
      found ← resetGuard i s;
      Ok (withSessions (endEach i.(rs_revoked) (ss s)) (withReset i found s))
  end.

Lemma registration_performs s i :
  storable s -> legit (cRegistration i) s ->
  performs registrationHandler (registrationStatements i (tablesOf s)) match stored (cRegistration i) s with Ok s' => Ok (tablesOf s') | Err f => Err f end.
Proof.
  intros Hs ((id & t & Hreg) & Hfi & [x Hx] & Hfc & Hh & Hown & Hnew). destruct (registered_fresh _ _ _ Hreg) as [Hwi Hvi].
  pose proof (Credential.credential_create_wf _ _ Hx) as Hwc. destruct (st_credentials _ Hs) as [Hcw _].
  unfold registrationStatements, mbind, Body_bind, tablesOf. rewrite insertIdentity_rows by (done || apply (st_identities _ Hs)).
  cbn [stored]. unfold registrationGuard, JsMap.has. destruct (JsMap.get (i_id (rg_identity i)) (ids s)) as [p|] eqn:Ei; [by apply performs_raised|]. cbn beta iota.
  erewrite insertCredential_rows; [|by apply accounts_wf|done..|by rewrite accounts_get, Hnew|by rewrite Hown, JsMap.get_set_eq].
  pose proof (accounts_exists (cs s) (hs s) (fun x => bool_decide (x.(c_email) = c_email (rg_credential i)))) as Hex. cbn beta in Hex. rewrite Hex. clear Hex.
  destruct (existsb _ _); cbn [mbind Result_bind]; [by apply performs_raised|].
  unfold performs, tablesOf, withRegistration. cbn [IdentityStore.identities IdentityStore.credentials IdentityStore.passwordHashes
    IdentityStore.challenges IdentityStore.sessions]. by rewrite accounts_set.
Qed.

Lemma challenge_performs s i :
  storable s -> legit (cChallenge i) s ->
  performs challengeHandler (insertChallenge i.(vc_challenge) i.(vc_tokenDigest) (tablesOf s))
    match stored (cChallenge i) s with Ok s' => Ok (tablesOf s') | Err f => Err f end.
Proof.
  intros Hs ([x Hx] & Hf & Hd & [y Hy]). destruct (issue_fresh _ _ Hx) as [Hw Hv]. unfold tablesOf.
  erewrite insertChallenge_rows; [|apply (st_challenges _ Hs)|done..]. cbn [stored]. unfold JsMap.has.
  destruct (JsMap.get _ (vs s)); [by apply performs_raised|done].
Qed.

Lemma verification_performs s i :
  storable s -> legit (cVerification i) s ->
  performs Database.map (verificationStatements i (tablesOf s)) match stored (cVerification i) s with Ok s' => Ok (tablesOf s') | Err f => Err f end.
Proof.
  intros Hs (Hi & Hfi & [c0 Hc] & Hfc & Hown). unfold verificationStatements, mbind, Body_bind, tablesOf.
  rewrite (updateIdentity_rows s) by (done || apply (st_identities _ Hs)). cbn [stored]. unfold verificationGuard.
  destruct (JsMap.get (i_id (vf_identity i)) (ids s)) as [p|] eqn:Ei; cbn [mbind Result_bind]; [|by apply performs_refused].
  assert (exists q, JsMap.get (v_id (vf_challenge i)) (vs s) = Some q) as [q Hq].
  { destruct Hc as (_ & _ & [t Ht] & (q & Hq & _)). exists q. apply IdentityWorld.IdentityWorld.consume_fixed in Ht as (-> & _). exact Hq. }
  rewrite Hq. destruct (consumed_stored _ _ _ _ Hc Hq) as (Hqi & _ & _). rewrite bool_decide_eq_true_2 by congruence. cbn [negb].
  destruct (i_version p =? i_version (vf_identity i)); cbn [negb orb mbind Result_bind]; [|by apply performs_refused].
  rewrite (updateChallenge_rows s c0); [|done|apply (st_challenges _ Hs)|done|done|].
  - rewrite Hq. destruct (_ =? _); [|by apply performs_refused]. done.
  - intros p' Hp'. rewrite Hq in Hp'. injection Hp' as <-. cbn. rewrite Hqi, Hown. by apply bool_decide_eq_true_2.
Qed.

Lemma revocation_performs s i :
  storable s -> legit (cRevocation i) s ->
  performs Database.map (revoke i.(rv_session) (tablesOf s)) match stored (cRevocation i) s with Ok s' => Ok (tablesOf s') | Err f => Err f end.
Proof.
  intros Hs Hr. unfold tablesOf. rewrite revoke_rows by (done || apply (st_sessions _ Hs) || exact (st_digest _ Hs)). cbn [stored]. unfold revocationGuard.
  destruct (JsMap.get _ (ss s)); [|by apply performs_refused]. destruct (_ =? _); cbn [negb mbind Result_bind]; [done|by apply performs_refused].
Qed.

Lemma reset_performs s i :
  storable s -> legit (cReset i) s ->
  performs Database.map (resetStatements i (tablesOf s)) match stored (cReset i) s with Ok s' => Ok (tablesOf s') | Err f => Err f end.
Proof.
  intros Hs (Hc & Hh & [c0 Hch] & Hfc & Hpu & Hi & Hr). unfold resetStatements, mbind, Body_bind, tablesOf.
  rewrite updateSecret_rows by done. cbn [stored]. unfold resetGuard.
  destruct (changedCredential _ _ s); [by apply performs_refused|].
  assert (exists q, JsMap.get (v_id (rs_challenge i)) (vs s) = Some q) as [q Hq].
  { destruct Hch as (_ & _ & [t Ht] & (q & Hq & _)). exists q. apply IdentityWorld.IdentityWorld.consume_fixed in Ht as (-> & _). exact Hq. }
  destruct (consumed_stored _ _ _ _ Hch Hq) as (_ & Hqp & _).
  rewrite (updateChallenge_rows s c0); [|done|apply (st_challenges _ Hs)|done|done|].
  2: { intros p' Hp'. rewrite Hq in Hp'. injection Hp' as <-. cbn. by rewrite Hqp, Hpu. }
  rewrite Hq. rewrite bool_decide_eq_true_2 by (by rewrite Hqp). cbn [negb].
  destruct (v_version (sc_challenge q) =? _); cbn [negb mbind Result_bind]; [|by apply performs_refused].
  set (challenges' := JsMap.set _ _ (vs s)).
  assert (Hlast : forall ids',
    performs Database.map ((_ ← revokeAll (rs_revoked i); noSurvivor (c_identityId (rs_credential i)))
      (mkTables (Sql.rowsOf Identity.row ids') (Sql.rowsOf credentialRow (accounts (JsMap.set (c_id (rs_credential i)) (rs_credential i) (cs s))
        (JsMap.set (c_id (rs_credential i)) (rs_passwordHash i) (hs s)))) (Sql.rowsOf challengeRow challenges') (Sql.rowsOf sessionRow (ss s))))
      (if existsb (fun e => staleSession e.(ev_session) s) (rs_revoked i) || unlisted i s then Err staleWrite
       else Ok (mkTables (Sql.rowsOf Identity.row ids') (Sql.rowsOf credentialRow (accounts (JsMap.set (c_id (rs_credential i)) (rs_credential i) (cs s))
        (JsMap.set (c_id (rs_credential i)) (rs_passwordHash i) (hs s)))) (Sql.rowsOf challengeRow challenges')
          (Sql.rowsOf sessionRow (endEach (rs_revoked i) (ss s)))))).
  { intros ids'. pose proof (revokeAll_rows (rs_revoked i) (Sql.rowsOf Identity.row ids') (Sql.rowsOf credentialRow (accounts
        (JsMap.set (c_id (rs_credential i)) (rs_credential i) (cs s)) (JsMap.set (c_id (rs_credential i)) (rs_passwordHash i) (hs s))))
        (Sql.rowsOf challengeRow challenges') (ss s) (proj1 (st_sessions _ Hs)) (st_digest _ Hs) Hr) as Hall.
    rewrite stale_standing. unfold mbind, Body_bind. destruct (standing (rs_revoked i) (ss s)) as [[]|f].
    - rewrite Hall. cbn [isOk negb orb]. unfold noSurvivor, unless_. cbn [sessions]. rewrite survivors_unlisted by done.
      destruct (unlisted i s); [by apply performs_refused|done].
    - destruct Hall as [t ->]. by apply performs_refused. }
  unfold withReset. destruct (rs_identity i) as [x|] eqn:Ex.
  - destruct (Hi x eq_refl) as [Hcx Hfx]. rewrite (updateIdentity_rows s) by (done || apply (st_identities _ Hs)).
    destruct (JsMap.get (i_id x) (ids s)) as [p|]; cbn [mbind Result_bind]; [|by apply performs_refused].
    destruct (i_version p =? _); cbn [negb mbind Result_bind]; [|by apply performs_refused].
    specialize (Hlast (JsMap.set (i_id x) (Identity.saved x) (ids s))). destruct (_ || _); exact Hlast.
  - cbn [mbind Result_bind]. specialize (Hlast (ids s)). destruct (_ || _); exact Hlast.
Qed.

(** ** The activity of ended sessions.

    The in-memory writers store an ended session as the command read it, the
    server keeps the last use it has: stores are compared without the last use
    of sessions that are revoked. *)
Definition quiet (st : StoredSession) : StoredSession :=
  let x := st.(ss_session) in
  match x.(s_status) with
  | Session.active => st
  | Session.revoked => mkStoredSession (Session.mkSession x.(s_id) x.(s_identityId) x.(s_status) x.(s_createdAt) x.(s_expiresAt) x.(s_createdAt)
                         x.(s_revokedAt) x.(s_version)) st.(ss_tokenDigest)
  end.
Definition quieted (s : Stores) : Stores := withSessions (JsMap.mapValues quiet (ss s)) s.

Lemma quiet_ended session st m : revokedFrom m session ->
  quiet (mkStoredSession (Session.saved session) st.(ss_tokenDigest)) = quiet (ended session st).
Proof. intros (_ & s0 & t & _ & _ & Hr & _). unfold quiet. cbn. by rewrite (revoke_fields _ _ _ Hr). Qed.

Lemma quiet_digest st st' : quiet st = quiet st' -> st.(ss_tokenDigest) = st'.(ss_tokenDigest).
Proof.
  assert (Hq : forall x, (quiet x).(ss_tokenDigest) = x.(ss_tokenDigest)) by (intros x; unfold quiet; by destruct (s_status _)).
  intros Heq. by rewrite <- (Hq st), Heq, Hq.
Qed.

Lemma quiet_set id x y (m m' : list (ID * StoredSession)) :
  quiet x = quiet y -> JsMap.mapValues quiet m = JsMap.mapValues quiet m' ->
  JsMap.mapValues quiet (JsMap.set id x m) = JsMap.mapValues quiet (JsMap.set id y m').
Proof. intros Hx Hm. by rewrite !JsMap.set_mapValues, Hx, Hm. Qed.

Lemma quiet_endAll evicted m0 m m' :
  Forall (fun e => revokedFrom m0 e.(ev_session)) evicted -> JsMap.mapValues quiet m = JsMap.mapValues quiet m' ->
  JsMap.mapValues quiet (endAll evicted m) = JsMap.mapValues quiet (endEach evicted m').
Proof.
  revert m m'. induction evicted as [|e evicted IH]; intros m m' Hall Hm; [done|]. apply Forall_cons in Hall as [He Hall].
  rewrite endAll_cons, endEach_cons. apply IH; [done|]. unfold endOne. set (id := s_id (ev_session e)).
  assert (Hg : quiet <$> JsMap.get id m = quiet <$> JsMap.get id m') by (by rewrite <- !JsMap.get_mapValues, Hm).
  destruct (JsMap.get id m) as [x|], (JsMap.get id m') as [y|]; try done. injection Hg as Hg. apply quiet_set; [|done].
  rewrite (quiet_digest _ _ Hg). by eapply quiet_ended.
Qed.

(** What the in-memory writer makes of a commit that the guards let pass. *)
Lemma inMemory_stored_identity c bus s :
  legit c s ->
  match stored c s, provenance c, (publishAll bus (eventsOf c)).2 with
  | Ok s', Ok _, Ok _ => exists s'' sent, inMemory c bus s = (s'', sent, Ok tt) /\ quieted s'' = quieted s'
  | Err f, _, _ => (inMemory c bus s).2 = Err f
  | Ok _, Err _, _ => exists f, (inMemory c bus s).2 = Err f
  | Ok _, Ok _, Err f => (inMemory c bus s).2 = Err f
  end.
Proof.
  intros Hl. destruct c as [i|i|i|i|i|i]; cbn [stored provenance eventsOf workOf inMemory].
  - unfold IdentityStore.commitRegistration, commitWith, checkEvents. destruct (registrationGuard i s) as [[]|]; cbn [mbind Result_bind]; [|done].
    destruct (assertAll _ _) as [[]|]; [|eauto]. destruct (publishAll _ _) as [sent [[]|]]; [|done]. cbn [snd]. eauto.
  - unfold IdentityStore.commitChallenge, commitWith, checkEvents. destruct (JsMap.has _ _); cbn [mbind Result_bind]; [done|].
    destruct (assertAll _ _) as [[]|]; [|eauto]. destruct (publishAll _ _) as [sent [[]|]]; [|done]. cbn [snd]. eauto.
  - unfold IdentityStore.commitVerification, commitWith. destruct (verificationGuard i s) as [found|]; cbn [mbind Result_bind]; [|done].
    destruct (assertAll _ _) as [[]|]; cbn [mbind Result_bind]; [|eauto]. destruct (publishAll _ _) as [sent [[]|]]; [|done]. cbn [snd]. eauto.
  - destruct Hl as (_ & _ & _ & _ & _ & _ & _ & _ & [_ Hev]).
    unfold IdentityStore.commitSession, commitWith, checkEvents. destruct (sessionGuard i s) as [[]|]; cbn [mbind Result_bind]; [|done].
    assert (Hperm : isOk (assertAll (i.(sn_event) :: (ev_event <$> i.(sn_evicted))) i.(sn_work))
      = isOk (assertAll ((ev_event <$> i.(sn_evicted)) ++ [i.(sn_event)]) i.(sn_work))).
    { cbn [assertAll]. induction (ev_event <$> sn_evicted i) as [|e es IH]; cbn; [done|].
      destruct (Events.assertEventWork (sn_event i) _); cbn in *; (destruct (Events.assertEventWork e _); cbn; [exact IH|done]). }
    destruct (assertAll (_ :: _) _) as [[]|], (assertAll (_ ++ _) _) as [[]|]; try done; [|eauto].
    destruct (publishAll _ _) as [sent [[]|]]; [|done]. cbn [snd]. eexists _, _. split; [done|]. unfold quieted, withSession, withSessions. cbn. f_equal.
    apply quiet_set; [done|]. by eapply quiet_endAll.
  - unfold IdentityStore.commitRevocation, commitWith. unfold revocationGuard. destruct (JsMap.get _ _) as [st|] eqn:E; [|done].
    destruct (negb _); cbn [mbind Result_bind]; [done|]. destruct (assertAll _ _) as [[]|]; cbn [mbind Result_bind]; [|eauto].
    destruct (publishAll _ _) as [sent [[]|]]; [|done]. cbn [snd]. eexists _, _. split; [done|]. unfold quieted, withRevocation, withSessions. cbn. f_equal.
    unfold endOne. rewrite E. apply quiet_set; [|done]. by eapply quiet_ended.
  - destruct Hl as (_ & _ & _ & _ & _ & _ & [_ Hev]).
    unfold IdentityStore.commitReset, commitWith. destruct (resetGuard i s) as [found|]; cbn [mbind Result_bind]; [|done].
    destruct (assertAll _ _) as [[]|]; cbn [mbind Result_bind]; [|eauto]. destruct (publishAll _ _) as [sent [[]|]]; [|done]. cbn [snd].
    eexists _, _. split; [done|]. unfold quieted, withSessions. cbn. f_equal. by eapply quiet_endAll.
Qed.
End Rows.

(** ** The transactions. *)
Section Refines.
  Context {J : Type} `{Jdec : EqDecision J} (jsonb : Events.Raw -> option J) `{CaseFolding}.

(** The revocations of a login with their events. *)
Lemma evict_rows evicted now a b c m o :
  JsMap.wf m -> distinct m -> revocable m evicted ->
  let r := evict jsonb now evicted (mkTables a b c (Sql.rowsOf sessionRow m), o) in
  match standing evicted m, enqueueAll jsonb now (ev_event <$> evicted) o with
  | Ok _, (o', Value _) => r = ((mkTables a b c (Sql.rowsOf sessionRow (endEach evicted m)), o'), Value tt)
  | Ok _, (_, Refused f) => exists t, r = (t, Refused f)
  | Ok _, (_, Raised _) => False
  | Err f, (_, x) => exists t g, r = (t, Refused g) /\ (g = f \/ x = Refused g)
  end.
Proof.
  revert m o. induction evicted as [|e evicted IH]; intros m o Hw Hd Hr r; [done|]. subst r. pose proof (revocable_step _ _ _ Hr) as [He Hr'].
  cbn [evict standing fmap list_fmap enqueueAll]. unfold onTable, onOutbox. rewrite on_then. cbn [fst snd]. rewrite revoke_rows by done.
  destruct (JsMap.get _ m) as [st|].
  2: { match goal with |- match ?z with pair _ _ => _ end => destruct z end. eauto. }
  destruct (_ =? _).
  2: { match goal with |- match ?z with pair _ _ => _ end => destruct z end. eauto. }
  rewrite on_then. cbn [fst snd]. unfold mbind at 1. unfold Body_bind at 1. unfold mbind at 1. unfold Body_bind at 1.
  destruct (enqueue jsonb now (ev_event e) o) as [o1 [[]|f|x]] eqn:Eq.
  - specialize (IH (endOne (ev_session e) m) o1 (endOne_wf _ _ Hw) (endOne_distinct _ _ Hd) Hr'). cbn zeta in IH.
    rewrite standing_step in IH by (by destruct Hr). exact IH.
  - destruct (standing evicted m); eauto.
  - exfalso. unfold enqueue in Eq. by destruct (Outbox.enqueue _ _ _ _) as [? [[]|]].
Qed.

Lemma passwordStands_rows c s :
  storable s -> Credential.wf c -> fitsCredential c ->
  passwordStands c (tablesOf s) = (tablesOf s, if changedCredential c.(c_id) c.(c_updatedAt) s then Refused staleWrite else Value tt).
Proof.
  intros Hs [_ _ Hu _ _ _] (_ & _ & Ht & _). unfold passwordStands. rewrite parameters_then by values. unfold unless_. cbn [tablesOf credentials].
  rewrite changed_secret by done. by destruct (changedCredential _ _ s).
Qed.

(** A commit that is accepted, with what it leaves, and how one is refused. *)
Definition accepted (c : Commit) (now : Z) (s : Stores) (o : Outbox.Outbox) : option (Tables * Outbox.Outbox) :=
  match provenance c, stored c s, enqueued jsonb now (eventsOf c) o with
  | Ok _, Ok s', (o', Ok _) => Some (tablesOf s', o')
  | _, _, _ => None
  end.
Definition refusal (c : Commit) (now : Z) (s : Stores) (o : Outbox.Outbox) (f : Failure) : Prop :=
  provenance c = Err f \/ stored c s = Err f \/ (enqueued jsonb now (eventsOf c) o).2 = Err f.

Lemma session_agrees i now s o :
  storable s -> legit (cSession i) s ->
  agrees (callback (commitSession jsonb i now)) (tablesOf s, o) (accepted (cSession i) now s o) (refusal (cSession i) now s o).
Proof.
  intros Hs ([x Hx] & Hfs & Hpd & Hnew & Hun & Hwc & Hfc & [y Hy] & Hr). destruct (session_fresh _ _ Hx) as [Hws Hvs].
  unfold accepted, refusal, agrees. cbn [provenance eventsOf stored]. unfold commitSession, callback. cbn beta. rewrite checked_then.
  destruct (assertAll _ _) as [[]|f]; [|by exists f; split; [|left]]. unfold catching, onTable, onOutbox.
  rewrite on_then. cbn [fst snd]. rewrite passwordStands_rows by done. unfold sessionGuard, JsMap.has. rewrite Hnew.
  destruct (changedCredential _ _ s); cbn [mbind Result_bind]; [exists staleWrite; split; [done|by right; left]|].
  rewrite standing_guard, body_then.
  pose proof (evict_rows (sn_evicted i) now (identities (tablesOf s)) (credentials (tablesOf s)) (challenges (tablesOf s)) (ss s) o
    (proj1 (st_sessions _ Hs)) (st_digest _ Hs) Hr) as Hev. cbn zeta in Hev.
  change (mkTables (identities (tablesOf s)) (credentials (tablesOf s)) (challenges (tablesOf s)) (Sql.rowsOf sessionRow (ss s))) with (tablesOf s) in Hev.
  pose proof (enqueueAll_answers jsonb now ((ev_event <$> sn_evicted i) ++ [sn_event i]) o) as Hq. rewrite enqueueAll_app, body_then in Hq.
  destruct (standing (sn_evicted i) (ss s)) as [[]|f]; destruct (enqueueAll jsonb now (ev_event <$> sn_evicted i) o) as [o1 [[]|g|e]]; cbn [mbind Result_bind].
  - rewrite Hev. cbn beta iota. rewrite on_then. cbn [fst snd tablesOf identities credentials challenges].
    rewrite (insertSession_rows _ _ _ _ _ _ y); try done.
    + unfold on. cbn [fst snd]. cbn [enqueueAll] in Hq. rewrite body_then in Hq.
      destruct (enqueue jsonb now (sn_event i) o1) as [o2 [[]|g|e]]; cbn [ret] in Hq; [| |done].
      * rewrite Hq. done.
      * rewrite Hq. exists g. split; [done|by right; right].
    + apply endEach_wf, (st_sessions _ Hs).
    + destruct (JsMap.get _ (endEach _ _)) as [st|] eqn:E; [|done]. apply endEach_digest in E as (st0 & E & _). congruence.
    + intros id st Hst. apply endEach_digest in Hst as (st0 & Hst0 & <-). by eapply Hun.
  - destruct Hev as [t ->]. rewrite Hq. exists g. split; [done|by right; right].
  - done.
  - destruct Hev as (t & g & -> & [->|?]); [|done]. exists f. split; [done|by right; left].
  - destruct Hev as (t & g' & -> & [->|[= ->]]).
    + exists f. split; [done|by right; left].
    + rewrite Hq. exists g'. split; [done|by right; right].
  - destruct Hev as (t & g' & -> & [->|?]); [|done]. exists f. split; [done|by right; left].
Qed.

Lemma identity_agrees c now s o :
  storable s -> legit c s -> agrees (callback (commit jsonb c now)) (tablesOf s, o) (accepted c now s o) (refusal c now s o).
Proof.
  intros Hs Hl.
  assert (Hw : forall events work handler (statements : Body Tables unit),
    callback (commit jsonb c now) = callback (writerAll jsonb now events work handler statements) ->
    performs handler (statements (tablesOf s)) match stored c s with Ok s' => Ok (tablesOf s') | Err f => Err f end ->
    provenance c = assertAll events work -> eventsOf c = events ->
    agrees (callback (commit jsonb c now)) (tablesOf s, o) (accepted c now s o) (refusal c now s o)).
  { intros events work handler statements -> Hp He Hv. pose proof (writerAll_agrees jsonb now events work handler statements _ o _ Hp) as Ha.
    unfold agrees, accepted, refusal in *. rewrite He, Hv.
    destruct (assertAll events work) as [[]|], (stored c s), (enqueued jsonb now events o) as [o' [[]|]]; try exact Ha;
      destruct Ha as (g & Hg & [Hx|[Hx|Hx]]); try done; exists g; (split; [exact Hg|]); injection Hx as ->; auto. }
  destruct c as [i|i|i|i|i|i].
  - eapply Hw; [reflexivity|by apply registration_performs|done|done].
  - eapply Hw; [reflexivity|by apply challenge_performs|done|done].
  - eapply Hw; [reflexivity|by apply verification_performs|done|done].
  - by apply session_agrees.
  - eapply Hw; [reflexivity|by apply revocation_performs|done|done].
  - eapply Hw; [reflexivity|by apply reset_performs|done|done].
Qed.

(** ** What is read back. *)

Lemma stored_version_ok v : FIRST <= v < INTEGER_MAX -> FIRST <= v <= MAX_SAFE_INTEGER.
Proof. unfold INTEGER_MAX, MAX_SAFE_INTEGER. lia. Qed.

Lemma identityFrom_row s id i : storable s -> JsMap.get id (ids s) = Some i -> identityFrom (Identity.row i) = Ok i.
Proof.
  intros Hs Hi. destruct (st_identity _ Hs _ _ Hi) as (Hw & Hv & Hid). unfold identityFrom, storedId. cbn [Identity.row Identity.r_id].
  rewrite (Events.validID_parse _ Hid). by apply Identity.identity_wf_restore, stored_version_ok.
Qed.

Lemma credentialFrom_row s id c h : storable s -> JsMap.get id (cs s) = Some c -> credentialFrom (credentialRow (c, h)) = Ok c.
Proof.
  intros Hs Hc. destruct (st_credential _ Hs _ _ Hc) as (Hw & _ & Hid & Hown). unfold credentialFrom, storedId.
  cbn [credentialRow cr_row fst Credential.row Credential.r_id Credential.r_identityId].
  rewrite (Events.validID_parse _ Hid), (Events.validID_parse _ Hown). by apply Credential.credential_wf_restore.
Qed.

Lemma challengeFrom_row s id c : storable s -> JsMap.get id (vs s) = Some c -> challengeFrom (challengeRow c) = Ok c.(sc_challenge).
Proof.
  intros Hs Hc. destruct (st_challenge _ Hs _ _ Hc) as (Hw & Hv & Hid & Hown). unfold challengeFrom, storedId.
  cbn [challengeRow vr_row Challenge.row Challenge.r_id Challenge.r_identityId].
  rewrite (Events.validID_parse _ Hid), (Events.validID_parse _ Hown). by apply Challenge.challenge_wf_restore, stored_version_ok.
Qed.

Lemma sessionFrom_row s id st : storable s -> JsMap.get id (ss s) = Some st -> sessionFrom (sessionRow st) = Ok st.(ss_session).
Proof.
  intros Hs Hst. destruct (st_session _ Hs _ _ Hst) as (Hw & Hv & Hid & Hown). unfold sessionFrom, storedId.
  cbn [sessionRow sr_row Session.row Session.r_id Session.r_identityId].
  rewrite (Events.validID_parse _ Hid), (Events.validID_parse _ Hown). by apply Session.session_wf_restore, stored_version_ok.
Qed.

Lemma findIdentity_rows s id : storable s -> findIdentity id (tablesOf s) = Ok (IdentityStore.findIdentity id s).
Proof. intros Hs. apply firstRow_get. intros i Hi. by eapply identityFrom_row. Qed.

Lemma findView_rows s id : storable s -> findView id (tablesOf s) = Ok (IdentityStore.findView id s).
Proof.
  intros Hs. unfold findView, IdentityStore.findView. cbn [tablesOf identities]. rewrite get_rowsOf.
  rewrite (firstRow_map _ Identity.row (fun i => mkView i.(i_id) i.(i_status) (copyDateOpt i.(i_verifiedAt)))).
  - by destruct (JsMap.get id (ids s)).
  - intros i Hi. by rewrite (identityFrom_row s id).
Qed.

Lemma findChallenge_rows s id : storable s -> findChallenge id (tablesOf s) = Ok (IdentityStore.findChallenge id s).
Proof.
  intros Hs. apply (firstRow_get challengeRow). intros c Hc. rewrite (challengeFrom_row s id) by done. by destruct c.
Qed.

Lemma session_values s st : storable s -> st ∈ JsMap.values (ss s) -> JsMap.get st.(ss_session).(s_id) (ss s) = Some st.
Proof. intros Hs Hst. by apply (keyedBy_values (fun st => st.(ss_session).(s_id))) in Hst; [|apply Hs]. Qed.

Lemma keyedBy_NoDup {V} (key : V -> ID) m : keyedBy key m -> NoDup (JsMap.values m).
Proof. intros [Hw Hk]. eapply NoDup_fmap_1. by apply (JsMap.NoDup_values key). Qed.

Lemma findByToken_rows digestToken token s : storable s -> findByToken digestToken token (tablesOf s) = Ok (IdentityStore.findByToken digestToken token s).
Proof.
  intros Hs. unfold findByToken, IdentityStore.findByToken. cbn [tablesOf sessions]. rewrite values_rowsOf.
  rewrite (filter_rows sessionRow _ (fun st => bool_decide (st.(ss_tokenDigest) = digestToken token))) by done. rewrite one_row.
  - rewrite option_list_rows. apply firstRow_map. intros st [Hin _]%List.find_some. apply list_elem_of_In in Hin.
    by eapply sessionFrom_row, session_values.
  - apply (keyedBy_NoDup (fun st => st.(ss_session).(s_id))), Hs.
  - intros a b Ha%(session_values s) Hb%(session_values s) Hda%bool_decide_eq_true Hdb%bool_decide_eq_true; [|done..].
    pose proof (st_digest _ Hs _ _ _ _ Ha Hb ltac:(congruence)) as He. rewrite He in Ha. congruence.
Qed.

Lemma active_row i st : activeRow i (sessionRow st) = activeOf i st.(ss_session).
Proof. unfold activeRow, activeOf. cbn. f_equal. by destruct (s_status _). Qed.

Lemma listActive_rows s i : storable s -> listActive i (tablesOf s) = Ok (IdentityStore.listActive i s).
Proof.
  intros Hs. unfold listActive, IdentityStore.listActive. cbn [tablesOf sessions]. rewrite values_rowsOf.
  rewrite (filter_rows sessionRow _ (fun st => activeOf i st.(ss_session))) by (intros st _; apply active_row).
  rewrite (filter_rows ss_session _ (fun st => activeOf i st.(ss_session))) by done.
  rewrite (sort_by_fmap sessionRow (fun a b => newerFirst a.(ss_session) b.(ss_session))).
  - rewrite (sort_by_fmap ss_session (fun a b => newerFirst a.(ss_session) b.(ss_session))) by done. apply restoreAll_map.
    intros st Hst. rewrite sort_by_perm in Hst. apply list_elem_of_filter in Hst as [_ Hst]. by eapply sessionFrom_row, session_values.
  - intros x y [_ Hx]%list_elem_of_filter [_ Hy]%list_elem_of_filter.
    destruct (st_session _ Hs _ _ (session_values s x Hs Hx)) as [[Hcx _ _ _ _ _ _] _], (st_session _ Hs _ _ (session_values s y Hs Hy)) as [[Hcy _ _ _ _ _ _] _].
    unfold newestFirst, newerFirst. cbn [sessionRow sr_row Session.row Session.r_createdAt Session.r_id]. by rewrite !copyDate_valid.
Qed.

(** *** The credential of an address or an identity. *)

Lemma find_account c h (p : Credential -> bool) :
  (forall k x, (k, x) ∈ c -> x.(c_id) = k) ->
  find_first (fun x => p x.1) (JsMap.values (accounts c h)) = (fun x => (x, default [] (JsMap.get x.(c_id) h))) <$> find_first p (JsMap.values c).
Proof.
  induction c as [|[k x] c IH]; intros Hk; [done|]. cbn. destruct (p x).
  - cbn. by rewrite (Hk k x) by left.
  - apply IH. intros k' y Hy. apply Hk. by right.
Qed.

Lemma credential_values s c : storable s -> c ∈ JsMap.values (cs s) -> JsMap.get c.(c_id) (cs s) = Some c.
Proof. intros Hs Hc. by apply (keyedBy_values c_id) in Hc; [|apply Hs]. Qed.

(** A query that at most one credential answers. *)
Lemma findRecord_rows s (p : CRow -> bool) (q : Credential -> bool) :
  storable s -> (forall c h, c ∈ JsMap.values (cs s) -> p (credentialRow (c, h)) = q c) ->
  (forall a b, a ∈ JsMap.values (cs s) -> b ∈ JsMap.values (cs s) -> q a = true -> q b = true -> a = b) ->
  findRecord p (tablesOf s) =
  Ok match find_first (fun c => q c && bool_decide (c.(c_status) = Credential.active)) (JsMap.values (cs s)) with
     | Some c => (fun i => mkRecord i c (default [] (JsMap.get c.(c_id) (hs s)))) <$> JsMap.get c.(c_identityId) (ids s)
     | None => None
     end.
Proof.
  intros Hs Hpq Hone. unfold findRecord, joined. cbn [tablesOf identities credentials]. rewrite values_rowsOf.
  destruct (st_credentials _ Hs) as [Hw Hk].
  assert (Hsub : forall x, x ∈ JsMap.values (accounts (cs s) (hs s)) -> x.1 ∈ JsMap.values (cs s)).
  { intros x [k Hx]%JsMap.elem_values; [|by apply accounts_wf]. rewrite accounts_get in Hx. destruct (JsMap.get k (cs s)) as [c|] eqn:E; [|done].
    injection Hx as <-. apply JsMap.elem_values; [done|]. by exists k. }
  rewrite (filter_rows credentialRow _ (fun x => q x.1 && bool_decide (x.1.(c_status) = Credential.active))).
  2: { intros [c h] Hx. rewrite Hpq by (by apply (Hsub (c, h))). cbn. f_equal. by destruct (c_status c). }
  rewrite one_row.
  - pose proof (find_account (cs s) (hs s) (fun c => q c && bool_decide (c.(c_status) = Credential.active))) as Hf. cbn beta in Hf. rewrite Hf; clear Hf.
    + destruct (find_first _ (JsMap.values (cs s))) as [c|] eqn:E; [|done]. apply List.find_some in E as [Hc _]. apply list_elem_of_In in Hc.
      pose proof (credential_values s c Hs Hc) as Hg. cbn [fmap option_fmap option_map].
      change (omap ?f (_ <$> option_list (Some ?x))) with (omap f [credentialRow x]). cbn [omap list_omap].
      cbn [credentialRow cr_row fst Credential.row Credential.r_identityId]. rewrite get_rowsOf.
      destruct (JsMap.get (c_identityId c) (ids s)) as [i|] eqn:Ei; [|done]. cbn [fmap option_fmap option_map firstRow]. unfold recordFrom. cbn [fst snd].
      rewrite (identityFrom_row s _ _ Hs Ei). cbn [mbind Result_bind]. fold (credentialRow (c, default [] (JsMap.get (c_id c) (hs s)))).
      by rewrite (credentialFrom_row s _ _ _ Hs Hg).
    + intros k c Hc. apply Hk. by apply JsMap.entry_get.
  - eapply NoDup_fmap_1 with (f := fun x : Account => x.1.(c_id)). apply (JsMap.NoDup_values (fun x : Account => x.1.(c_id))); [by apply accounts_wf|].
    intros k x Hx. rewrite accounts_get in Hx. destruct (JsMap.get k (cs s)) as [c|] eqn:E; [|done]. injection Hx as <-. by apply Hk.
  - intros a b Ha Hb [Hqa _]%andb_true_iff [Hqb _]%andb_true_iff. pose proof (Hone _ _ (Hsub _ Ha) (Hsub _ Hb) Hqa Hqb) as Heq.
    apply JsMap.elem_values in Ha as [ka Ha], Hb as [kb Hb]; [|by apply accounts_wf..]. rewrite accounts_get in Ha, Hb.
    destruct (JsMap.get ka (cs s)) as [x|] eqn:Ex, (JsMap.get kb (cs s)) as [y|] eqn:Ey; try done. injection Ha as <-. injection Hb as <-.
    cbn in Heq. subst y. by rewrite <- (Hk _ _ Ex), <- (Hk _ _ Ey).
Qed.

Lemma same_email s a b : storable s -> a ∈ JsMap.values (cs s) -> b ∈ JsMap.values (cs s) -> a.(c_email) = b.(c_email) -> a = b.
Proof.
  intros Hs Ha%(credential_values s) Hb%(credential_values s) He; [|done..]. pose proof (st_email _ Hs _ _ _ _ Ha Hb He) as Hid. congruence.
Qed.

(** The record of a stored credential, as the in-memory reader finds it. *)
Lemma found_record s c :
  storable s -> c ∈ JsMap.values (cs s) ->
  exists i h, JsMap.get c.(c_identityId) (ids s) = Some i /\ JsMap.get c.(c_id) (hs s) = Some h
    /\ IdentityStore.findByEmail c.(c_email) s = Ok (Some (mkRecord i c h)).
Proof.
  intros Hs Hc. destruct (st_account _ Hs _ _ (credential_values s c Hs Hc)) as [[i Hi] [h Hh]]. exists i, h. split_and!; [done..|].
  unfold IdentityStore.findByEmail. destruct (find_first _ _) as [x|] eqn:E.
  - apply List.find_some in E as [Hx He]. apply list_elem_of_In in Hx. apply bool_decide_eq_true in He.
    rewrite (same_email s x c) by done. by rewrite Hi, Hh.
  - exfalso. apply list_elem_of_In in Hc. pose proof (List.find_none _ _ E c Hc) as Hf. by apply bool_decide_eq_false in Hf.
Qed.

(** The in-memory reader does not ask for an active credential. *)
Lemma findByEmail_rows s email :
  storable s -> plain email ->
  exists found, IdentityStore.findByEmail email s = Ok found
    /\ findByEmail email (tablesOf s) = Ok match found with Some r => if bool_decide (r.(ar_credential).(c_status) = Credential.active) then Some r else None | None => None end.
Proof.
  intros Hs [Hcl _]. unfold findByEmail. rewrite sent_clean by done.
  rewrite (findRecord_rows s _ (fun c => bool_decide (c.(c_email) = email))); [|done| |].
  - rewrite find_first_also.
    + destruct (find_first _ (JsMap.values (cs s))) as [c|] eqn:E.
      * apply List.find_some in E as [Hc He]. apply list_elem_of_In in Hc. apply bool_decide_eq_true in He.
        destruct (found_record s c Hs Hc) as (i & h & Hi & Hh & Hf). rewrite He in Hf. exists (Some (mkRecord i c h)). split; [done|]. cbn [ar_credential].
        destruct (bool_decide (c_status c = Credential.active)); [|done]. by rewrite Hi, Hh.
      * exists None. split; [|done]. unfold IdentityStore.findByEmail. by rewrite E.
    + intros a b Ha Hb Hea%bool_decide_eq_true Heb%bool_decide_eq_true. apply (same_email s); [done..|congruence].
  - intros c h _. cbn. apply bool_decide_ext. split; [by intros [=]|by intros ->].
  - intros a b Ha Hb Hea%bool_decide_eq_true Heb%bool_decide_eq_true. apply (same_email s); [done..|congruence].
Qed.

Lemma findByIdentity_rows s identityId : storable s -> findByIdentity identityId (tablesOf s) = IdentityStore.findByIdentity identityId s.
Proof.
  intros Hs. unfold findByIdentity, IdentityStore.findByIdentity.
  rewrite (findRecord_rows s _ (fun c => bool_decide (c.(c_identityId) = identityId))); [|done..|].
  - destruct (find_first _ (JsMap.values (cs s))) as [c|] eqn:E; [|done]. apply List.find_some in E as [Hc _]. apply list_elem_of_In in Hc.
    destruct (found_record s c Hs Hc) as (i & h & Hi & Hh & Hf). by rewrite Hi, Hh, Hf.
  - intros a b Ha%(credential_values s) Hb%(credential_values s) Hea%bool_decide_eq_true Heb%bool_decide_eq_true; [|done..].
    pose proof (st_single _ Hs _ _ _ _ Ha Hb ltac:(congruence)) as Hid. congruence.
Qed.

(** ** Activity and pruning. *)

Lemma record_rows s sessionId at_ :
  storable s -> validDate at_ = true -> timed at_ -> record sessionId at_ (tablesOf s) = (tablesOf (IdentityStore.record sessionId at_ s), Value tt).
Proof.
  intros Hs Hv Ht. unfold record, catching. rewrite parameters_then by values. unfold onSessions. rewrite on_then. cbn [tablesOf sessions].
  unfold IdentityStore.record. destruct (JsMap.get sessionId (ss s)) as [st|] eqn:E; [|unfold update; by rewrite get_rowsOf, E].
  destruct (st_session _ Hs _ _ E) as (Hw & Hver & _ & _). pose proof Hw as [Hc Hx Hl Hlo Hr Hxo Hco].
  destruct (date_lt (s_lastSeenAt st.(ss_session)) at_) eqn:Elt.
  - assert (Hseen : Session.seen st.(ss_session) at_ = Session.mkSession (s_id st.(ss_session)) (s_identityId st.(ss_session)) (s_status st.(ss_session))
      (s_createdAt st.(ss_session)) (s_expiresAt st.(ss_session)) (copyDate at_) (s_revokedAt st.(ss_session)) (s_version st.(ss_session))).
    { unfold Session.seen. rewrite Hv. cbn [negb orb]. destruct (date_le at_ _) eqn:El; [|done]. exfalso. clear -Elt El.
      destruct at_, (s_lastSeenAt (ss_session st)); try done. cbn in *. breflect. lia. }
    rewrite (update_rows sessionRow sessionSchema sessionId _ _ _ (mkStoredSession (Session.seen st.(ss_session) at_) st.(ss_tokenDigest))).
    + rewrite E. cbn [sessionRow sr_row Session.row Session.r_lastSeenAt]. rewrite copyDate_valid, Elt by done. done.
    + apply (st_sessions _ Hs).
    + intros p Hp _. rewrite E in Hp. injection Hp as <-. split.
      * unfold sessionRow. cbn. rewrite Hseen. unfold Session.row. cbn. by rewrite !copyDate_valid by (by rewrite ?validDate_copy).
      * split; [apply session_accepted; [by eapply Session.session_step_wf, Session.step_seen|]; cbn; rewrite Hseen; cbn; unfold FIRST in *; lia|].
        intros name clash [= -> ->]%list_elem_of_singleton id' b Hb Hne. unfold sameDigest. apply bool_decide_eq_false. cbn. intros Hd. apply Hne.
        by eapply (st_digest _ Hs).
  - assert (Hseen : Session.seen st.(ss_session) at_ = st.(ss_session)).
    { unfold Session.seen. rewrite Hv. cbn [negb orb]. destruct (date_le at_ _) eqn:El; [done|]. exfalso. clear -Elt El Hv Hl.
      destruct at_, (s_lastSeenAt (ss_session st)); try done. cbn in *. breflect. lia. }
    rewrite Hseen. unfold update. rewrite get_rowsOf, E. cbn [fmap option_fmap option_map sessionRow sr_row Session.row Session.r_lastSeenAt].
    rewrite copyDate_valid, Elt by done. cbn. f_equal. unfold tablesOf, withSessions. cbn. by rewrite JsMap.set_same by (rewrite E; by destruct st).
Qed.

Lemma delete_rows {A R} (row : A -> R) ks (m : list (ID * A)) :
  foldl (fun m id => JsMap.delete id m) (Sql.rowsOf row m) ks = Sql.rowsOf row (foldl (fun m id => JsMap.delete id m) m ks).
Proof.
  revert m. induction ks as [|k ks IH]; intros m; [done|]. cbn [foldl]. rewrite <- IH. f_equal. unfold Sql.rowsOf, JsMap.mapValues.
  induction m as [|[k0 a] m IHm]; [done|]. cbn. destruct (decide (k = k0)); [done|]. cbn. by f_equal.
Qed.

Definition prunableAt (endedBefore idleBefore : Date) (s : Stores) (id : ID) : bool :=
  match JsMap.get id (ss s) with Some st => prunable endedBefore idleBefore st.(ss_session) | None => false end.

(** Whatever the scan, only prunable sessions go, at most [limit]. *)
Lemma prune_rows scan endedBefore idleBefore limit s :
  storable s -> validDate endedBefore = true -> timed endedBefore -> validDate idleBefore = true -> timed idleBefore ->
  let picked := take (Z.to_nat limit) (filter (fun id => prunableAt endedBefore idleBefore s id = true) scan) in
  prune scan endedBefore idleBefore limit (tablesOf s)
  = (tablesOf (withSessions (foldl (fun m id => JsMap.delete id m) (ss s) picked) s), Value (Z.of_nat (length picked))).
Proof.
  intros Hs He Hte Hi Hti picked. unfold prune, catching. rewrite parameters_then by values. unfold onSessions, on. cbn [tablesOf sessions].
  assert (Hp : filter (fun id => match JsMap.get id (Sql.rowsOf sessionRow (ss s)) with Some r => endedRow endedBefore idleBefore r | None => false end = true) scan
    = filter (fun id => prunableAt endedBefore idleBefore s id = true) scan).
  { apply list_filter_iff. intros id. unfold prunableAt. rewrite get_rowsOf. destruct (JsMap.get id (ss s)) as [st|] eqn:E; [|done].
    cbn [fmap option_fmap option_map]. destruct (st_session _ Hs _ _ E) as ([Hc Hx Hl _ Hr _ _] & _). unfold endedRow, prunable.
    cbn [sessionRow sr_row Session.row Session.r_revokedAt Session.r_expiresAt Session.r_lastSeenAt]. by rewrite !copyDate_valid, copyDateOpt_valid. }
  rewrite Hp. fold picked. by rewrite delete_rows.
Qed.

(** A scan that meets every row, in the order of the map, prunes what the
    in-memory pruner does. *)
Lemma pruneLoop_picked endedBefore idleBefore limit entries n m :
  0 <= n ->
  let picked := take (Z.to_nat (limit - n)) (fst <$> filter (fun e => prunable endedBefore idleBefore e.2.(ss_session) = true) entries) in
  pruneLoop endedBefore idleBefore limit entries n m = (n + Z.of_nat (length picked), foldl (fun m id => JsMap.delete id m) m picked).
Proof.
  revert n m. induction entries as [|[id st] entries IH]; intros n m Hn picked; subst picked.
  - cbn. rewrite take_nil. cbn. by rewrite Z.add_0_r.
  - cbn [pruneLoop]. destruct (limit <=? n) eqn:E; breflect.
    { replace (Z.to_nat (limit - n)) with 0%nat by lia. cbn. by rewrite Z.add_0_r. }
    rewrite filter_cons. cbn [snd]. destruct (prunable _ _ _).
    + rewrite decide_True by done. cbn [fmap list_fmap fst]. rewrite IH by lia.
      replace (Z.to_nat (limit - n)) with (S (Z.to_nat (limit - (n + 1)))) by lia. cbn [take length foldl]. f_equal. lia.
    + rewrite decide_False by done. by apply IH.
Qed.

Lemma prunable_keys endedBefore idleBefore s l :
  (forall e, e ∈ l -> JsMap.get e.1 (ss s) = Some e.2) ->
  filter (fun id => prunableAt endedBefore idleBefore s id = true) l.*1
  = fst <$> filter (fun e => prunable endedBefore idleBefore e.2.(ss_session) = true) l.
Proof.
  induction l as [|[k x] l IH]; intros Hsub; [done|]. cbn [fmap list_fmap fst]. rewrite !filter_cons. cbn [snd].
  assert (Hk : prunableAt endedBefore idleBefore s k = prunable endedBefore idleBefore x.(ss_session)).
  { unfold prunableAt. pose proof (Hsub (k, x) ltac:(left)) as E. cbn in E. by rewrite E. }
  rewrite Hk. case_decide; cbn [fmap list_fmap fst]; rewrite <- IH by (intros e He'; apply Hsub; by right); done.
Qed.

Lemma prune_in_order endedBefore idleBefore limit s :
  storable s -> validDate endedBefore = true -> timed endedBefore -> validDate idleBefore = true -> timed idleBefore ->
  prune (JsMap.keys (ss s)) endedBefore idleBefore limit (tablesOf s)
  = let '(n, s') := IdentityStore.prune endedBefore idleBefore limit s in (tablesOf s', Value n).
Proof.
  intros Hs He Hte Hi Hti. rewrite prune_rows by done. unfold IdentityStore.prune. rewrite pruneLoop_picked by done.
  rewrite Z.sub_0_r, Z.add_0_l. replace (filter (fun id => prunableAt endedBefore idleBefore s id = true) (JsMap.keys (ss s)))
    with (fst <$> filter (fun e => prunable endedBefore idleBefore e.2.(ss_session) = true) (ss s)); [done|].
  symmetry. apply prunable_keys. intros [k x] Hx. apply JsMap.entry_get; [apply (st_sessions _ Hs)|done].
Qed.

(** C13. The PostgreSQL adapters of the identity module implement the in-memory
    ones. Let the tables hold the rows of stores the in-memory adapters could
    hold, within the columns' range, and the event bus answer as the outbox does. Then the transaction of any of the six
    writers, for a commit a command could make, either writes the rows of the
    stores the in-memory commit leaves (but for the last use of revoked sessions,
    which the server keeps) and all its events, when that commit would be
    accepted, answering success or that the outcome is uncertain; or leaves
    everything as it was, with a failure that is the database's, the in-memory
    one, or that of an event. Undisturbed, it is accepted exactly when the
    in-memory commit is, and a reset that succeeds leaves no active session of
    its identity. Readers and the activity writer do what the in-memory ones do
    (an address finds active credentials only); pruning removes ended sessions
    only, at most [limit], in-memory pruning being one of its schedules. *)
Theorem identities_postgres_refines (c : Commit) (bus : Events.Envelope -> Res unit) (now : Z) (s : Stores) (o o' : Outbox.Outbox)
    (t' : Tables) (r : Res unit)
    (Hstored : storable s) (Hlegit : legit c s) (Hbus : (publishAll bus (eventsOf c)).2 = (enqueued jsonb now (eventsOf c) o).2)
    (Hrun : Database.transacts (callback (commit jsonb c now)) (tablesOf s, o) r (t', o')) :
  isOk (callback (commit jsonb c now) (tablesOf s, o)).2 = isOk (inMemory c bus s).2
  /\ ((exists s' s'' sent, inMemory c bus s = (s'', sent, Ok tt) /\ quieted s'' = quieted s' /\ t' = tablesOf s'
       /\ o' = (enqueued jsonb now (eventsOf c) o).1 /\ (r = Ok tt \/ r = Err Database.uncertain))
      \/ (t' = tablesOf s /\ o' = o /\ exists f, r = Err f
          /\ (Database.fault f
              \/ isOk (inMemory c bus s).2 = false
                 /\ ((inMemory c bus s).2 = Err f \/ provenance c = Err f \/ (enqueued jsonb now (eventsOf c) o).2 = Err f))))
  /\ (forall i, c = cReset i -> r = Ok tt -> existsb (activeRow i.(rs_credential).(c_identityId)) (JsMap.values t'.(sessions)) = false)
  /\ (forall id, findIdentity id (tablesOf s) = Ok (IdentityStore.findIdentity id s)
        /\ findView id (tablesOf s) = Ok (IdentityStore.findView id s)
        /\ findChallenge id (tablesOf s) = Ok (IdentityStore.findChallenge id s)
        /\ findByIdentity id (tablesOf s) = IdentityStore.findByIdentity id s
        /\ listActive id (tablesOf s) = Ok (IdentityStore.listActive id s))
  /\ (forall digestToken token, findByToken digestToken token (tablesOf s) = Ok (IdentityStore.findByToken digestToken token s))
  /\ (forall email, plain email -> exists found, IdentityStore.findByEmail email s = Ok found
        /\ findByEmail email (tablesOf s)
           = Ok match found with
                | Some a => if bool_decide (a.(ar_credential).(c_status) = Credential.active) then Some a else None
                | None => None
                end)
  /\ (forall at_, validDate at_ = true -> timed at_ ->
        (forall id, record id at_ (tablesOf s) = (tablesOf (IdentityStore.record id at_ s), Value tt))
        /\ forall idleBefore limit, validDate idleBefore = true -> timed idleBefore ->
             prune (JsMap.keys (ss s)) at_ idleBefore limit (tablesOf s)
             = (let '(n, s') := IdentityStore.prune at_ idleBefore limit s in (tablesOf s', Value n))
             /\ forall scan, exists picked,
                  prune scan at_ idleBefore limit (tablesOf s)
                  = (tablesOf (withSessions (foldl (fun m id => JsMap.delete id m) (ss s) picked) s), Value (Z.of_nat (length picked)))
                  /\ Z.of_nat (length picked) <= Z.max 0 limit /\ Forall (fun id => prunableAt at_ idleBefore s id = true) picked).
Proof.
  pose proof (inMemory_stored_identity c bus s Hlegit) as Hm. rewrite Hbus in Hm.
  destruct (agrees_transacts _ _ _ _ _ _ (identity_agrees c now s o Hstored Hlegit) Hrun) as [Ha Hd]. rewrite Ha. unfold accepted, refusal in *.
  split; [|split; [|split]].
  - destruct (stored c s) as [s'|f], (provenance c) as [[]|g], (enqueued jsonb now (eventsOf c) o) as [o2 [[]|h]]; cbn [snd] in Hm; try (by rewrite Hm);
      try (destruct Hm as [? Hm]; by rewrite Hm).
    destruct Hm as (s'' & sent & -> & _). done.
  - destruct Hd as [[Hacc Hr]|([= -> ->] & f & -> & Hf)].
    + left. destruct (provenance c) as [[]|], (stored c s) as [s'|], (enqueued jsonb now (eventsOf c) o) as [o2 [[]|]]; try done.
      injection Hacc as <- <-. destruct Hm as (s'' & sent & Hm & Hq). eexists s', s'', sent. by split_and!.
    + right. split; [done|]. split; [done|]. exists f. split; [done|]. destruct Hf as [Hf|[Hn Hf]]; [by left|]. right.
      destruct (stored c s) as [s'|f0], (provenance c) as [[]|g], (enqueued jsonb now (eventsOf c) o) as [o2 [[]|h]]; cbn [snd] in *; try done;
        first [rewrite Hm|destruct Hm as [? Hm]; rewrite Hm]; (split; [done|]); destruct Hf as [Hf|[Hf|Hf]]; try done; try injection Hf as ->; auto.
  - intros i -> ->. destruct Hd as [[Hacc _]|(_ & f & [=] & _)]. destruct (provenance (cReset i)) as [[]|]; [|done].
    destruct (stored (cReset i) s) as [s'|] eqn:Est; [|done]. destruct (enqueued _ _ _ _) as [o2 [[]|]]; [|done]. injection Hacc as <- _.
    cbn [stored] in Est. apply bind_ok in Est as (found & Hg & [= <-]). destruct Hlegit as (_ & _ & _ & _ & _ & _ & Hrev).
    cbn [tablesOf sessions withSessions IdentityStore.sessions]. rewrite survivors_unlisted by done.
    apply resetGuard_ok in Hg as (_ & _ & _ & _ & _ & _ & Hall). unfold unlisted. apply not_true_iff_false. intros (st & Hst & Hb)%existsb_exists.
    apply andb_true_iff in Hb as [Hact Hout%negb_true_iff%bool_decide_eq_false]. apply Hout, Hall; [by apply list_elem_of_In|done].
  - split_and!.
    + intros id. split_and!; [by apply findIdentity_rows|by apply findView_rows|by apply findChallenge_rows|by apply findByIdentity_rows|by apply listActive_rows].
    + intros. by apply findByToken_rows.
    + intros. by apply findByEmail_rows.
    + intros at_ Hv Ht. split; [intros; by apply record_rows|]. intros idleBefore limit Hi Hti. split; [by apply prune_in_order|]. intros scan.
      eexists. split; [by apply prune_rows|]. split; [rewrite length_take; lia|]. apply Forall_forall. intros id Hid.
      apply (fun H => elem_of_sublist _ _ _ H (sublist_take _ _)) in Hid. by apply list_elem_of_filter in Hid as [? _].
Qed.
End Refines.

(** ** A login that evicts an older session. *)

Lemma get_one {V} (id k : ID) (v x : V) : JsMap.get id [(k, v)] = Some x -> id = k /\ x = v.
Proof. cbn. case_decide; [|done]. by intros [= ->]. Qed.

Definition sample_identity : Identity := Identity.mkIdentity (Provenance.Provenance.sample_uuid "5") Identity.active (DateAt 10) (DateAt 20) (Some (DateAt 20)) 2.
Definition sample_credential : Credential :=
  Credential.mkCredential (Provenance.Provenance.sample_uuid "6") (Provenance.Provenance.sample_uuid "5") Credential.email_password (js "ada@example.org") Credential.active (DateAt 10) (DateAt 10) None.
Definition sample_older : Session := Session.mkSession (Provenance.Provenance.sample_uuid "7") (Provenance.Provenance.sample_uuid "5") Session.active (DateAt 100) (DateAt 1000) (DateAt 150) None 1.
Definition sample_evicted : Session :=
  Session.mkSession (Provenance.Provenance.sample_uuid "7") (Provenance.Provenance.sample_uuid "5") Session.revoked (DateAt 100) (DateAt 1000) (DateAt 150) (Some (DateAt 200)) 1.
Definition sample_opened : Session := Session.mkSession (Provenance.Provenance.sample_uuid "8") (Provenance.Provenance.sample_uuid "5") Session.active (DateAt 200) (DateAt 2000) (DateAt 200) None UNSAVED.
Definition sample_stores : Stores :=
  mkStores [(Provenance.Provenance.sample_uuid "5", sample_identity)] [(Provenance.Provenance.sample_uuid "6", sample_credential)] [(Provenance.Provenance.sample_uuid "6", js "hash")] []
    [(Provenance.Provenance.sample_uuid "7", mkStoredSession sample_older (js "digest 7"))].
Definition sample_entry : SessionCommit :=
  mkSessionCommit sample_opened sample_credential (js "digest 8") Events.sample_envelope [mkEviction sample_evicted OrganizationStore.OrgStore.sample_other_event]
    Events.sample_context.

Lemma sample_plain s : Forall (fun c => 0 < c < 128) s -> plain s.
Proof. intros Hs. split; [apply clean_ascii|]; (eapply Forall_impl; [exact Hs|]); cbn; lia. Qed.

Lemma sample_storable : @storable asciiFolding sample_stores.
Proof.
  constructor; cbn [sample_stores IdentityStore.identities IdentityStore.credentials IdentityStore.passwordHashes IdentityStore.challenges
    IdentityStore.sessions]; try (split; [by apply NoDup_singleton|by intros id v [-> ->]%get_one]);
    try (intros a b x y [-> ->]%get_one [-> ->]%get_one; done).
  - apply keyedBy_nil.
  - intros id i [-> ->]%get_one. split_and!; done.
  - intros id c [-> ->]%get_one. split_and!; try done. split_and!; try done. apply sample_plain. repeat constructor; done.
  - done.
  - intros id st [-> ->]%get_one. split_and!; try done.
  - intros id c [-> ->]%get_one. split; eexists; vm_compute; reflexivity.
Qed.

Lemma identities_postgres_refines_witness :
  exists t o, callback (commit Events.json (cSession sample_entry) 1000) (tablesOf sample_stores, []) = ((t, o), Ok tt)
  /\ exists s' s'' sent, inMemory (cSession sample_entry) (fun _ => Ok tt) sample_stores = (s'', sent, Ok tt)
       /\ quieted s'' = quieted s' /\ t = tablesOf s' /\ length o = 2%nat.
Proof.
  assert (Hr : (callback (commit Events.json (cSession sample_entry) 1000) (tablesOf sample_stores, [])).2 = Ok tt) by (vm_compute; reflexivity).
  assert (Hlen : length (callback (commit Events.json (cSession sample_entry) 1000) (tablesOf sample_stores, [])).1.2 = 2%nat) by (vm_compute; reflexivity).
  destruct (callback (commit Events.json (cSession sample_entry) 1000) (tablesOf sample_stores, [])) as [[t o] r] eqn:H. cbn [fst snd] in Hr, Hlen.
  subst r. exists t, o. split; [done|].
  assert (Hl : @legit asciiFolding (cSession sample_entry) sample_stores).
  { cbn [legit sample_entry sn_session sn_credential sn_tokenDigest sn_evicted].
    split; [exists (Session.mkCreate (Provenance.Provenance.sample_uuid "8") (Provenance.Provenance.sample_uuid "5") (DateAt 200) (DateAt 2000)); vm_compute; reflexivity|].
    split; [by split_and!|]. split; [apply sample_plain; repeat constructor; done|]. split; [vm_compute; reflexivity|].
    split; [intros id st [-> ->]%get_one; refine (bool_decide_eq_false_1 _ _); vm_compute; reflexivity|]. split; [constructor; vm_compute; reflexivity|].
    split; [split_and!; [apply sample_plain; repeat constructor; done|done..]|]. split; [exists sample_identity; vm_compute; reflexivity|].
    split; [by apply NoDup_singleton|]. apply Forall_singleton. split; [by intros x [= <-]|]. exists sample_older, (DateAt 200).
    assert (Hw : Session.wf sample_older) by (constructor; vm_compute; reflexivity).
    split; [exact Hw|]. split; [cbn; unfold FIRST, INTEGER_MAX; lia|]. split; [vm_compute; reflexivity|]. intros st [_ ->]%get_one _.
    split; [exact Hw|]. exists (DateAt 150). reflexivity. }
  assert (Hb : (publishAll (fun _ => Ok tt) (eventsOf (cSession sample_entry))).2 = (enqueued Events.json 1000 (eventsOf (cSession sample_entry)) []).2)
    by (vm_compute; reflexivity).
  destruct (@identities_postgres_refines _ _ Events.json asciiFolding (cSession sample_entry) (fun _ => Ok tt) 1000 sample_stores [] _ _ _
    sample_storable Hl Hb (Database.tx_done _ _ _ _ H)) as (_ & [(s' & s'' & sent & Hs & Hq & Ht & _)|(_ & _ & f & Hf & _)] & _); [|done].
  exists s', s'', sent. by split_and!.
Defined.
End PgIdentities.
