(* ===== verification/JobsStore.v ===== *)
(** * The jobs module's store: [modules/jobs/infra/in-memory] and the failures of
    the module.

    [JobFailures] is the module's vocabulary of failures; [JobStore] the
    in-memory store, its reader and its writer, with both halves of a commit. *)
From stdpp Require Import relations.
From S2P Require Import Prelude Async JsMap Errors Ids Json Pagination Provenance Events Commands JobDomain.

Module JobFailures.

(** @src src/modules/jobs/app/failures.ts:32-57 knownFailure
    The failures of the module's own vocabulary, with the kind each keeps. *)
Definition knownTypes : list (string * Kind) :=
  [("job.access_forbidden", forbidden); ("job.submit_forbidden", forbidden);
   ("job.transition_forbidden", forbidden);
   ("job.already_exists", conflict); ("job.stale_write", conflict);
   ("job.subject_taken", conflict); ("job.organization_mismatch", conflict);
   ("job.id_generation", unavailable);
   ("job.invalid_operation", Errors.invalid); ("job.invalid_page", Errors.invalid);
   ("job.not_found", not_found); ("job.persistence_invalid", internal);
   ("jobs.missing_token", unauthenticated)]%string.

(** @src src/modules/jobs/app/failures.ts:32-57 knownFailure *)
Definition knownFailure (error : Failure) : option Failure := Vocabulary.knownIn knownTypes error.

(** @src src/modules/jobs/app/failures.ts:59-76 dependencyFailure *)
Definition dependencyFailure (error : Failure) (operation : string) : Failure :=
  Vocabulary.dependencyIn "job" "Job" knownTypes error operation.

(** @src src/modules/jobs/app/failures.ts:78-83 idGenerationFailure *)
Definition idGenerationFailure (error : Failure) : Failure :=
  Vocabulary.idGenerationIn "job.id_generation" "Job ID generation failed" error.

(** @src src/modules/jobs/app/failures.ts:86-88 invalidPage *)
Definition invalidPage : Failure :=
  typedFailure Errors.invalid "job.invalid_page" "page size or cursor is invalid" noOptions.

(** @src src/modules/jobs/infra/failures.ts:3-7 staleWrite *)
Definition staleWrite : Failure :=
  fail_with conflict "job was changed by a concurrent operation" "job.stale_write".
(** @src src/modules/jobs/infra/failures.ts:9-10 jobExists *)
Definition jobExists : Failure := fail_with conflict "job already exists" "job.already_exists".
(** @src src/modules/jobs/infra/failures.ts:12-16 subjectTaken *)
Definition subjectTaken : Failure :=
  fail_with conflict "a job already exists for this subject" "job.subject_taken".
(** @src src/modules/jobs/infra/failures.ts:18-19 jobNotFound *)
Definition jobNotFound : Failure := fail_with not_found "job was not found" "job.not_found".

Definition organizationMismatch : Failure :=
  fail_with conflict "job organization cannot change" "job.organization_mismatch".
End JobFailures.

Module JobStore.
Import JobFailures.
Import JobDomain.Job.

(** @src src/modules/jobs/infra/in-memory/store.ts:3-4 InMemoryJobStore *)
Definition Jobs : Type := list (ID * Job).

(** @src src/modules/jobs/infra/in-memory/store.ts:6-8 jobById *)
Definition jobById (id : ID) (s : Jobs) : option Job := JsMap.get id s.

(** @src src/modules/jobs/infra/in-memory/store.ts:15-21 openJobBySubject *)
Definition occupies (organizationId : ID) (kind : jstring) (subject : JobSubject) (job : Job) : bool :=
  Job.open job && bool_decide (job.(j_organizationId) = organizationId)
  && bool_decide (job.(j_kind) = kind) && bool_decide (job.(j_subject) = Some subject).

(** @src src/modules/jobs/infra/in-memory/store.ts:10-23 openJobBySubject *)
Definition openJobBySubject (organizationId : ID) (kind : jstring) (subject : JobSubject) (s : Jobs)
    : option Job :=
  find_first (occupies organizationId kind subject) (JsMap.values s).

(** [array.slice(0, limit)]. *)
Definition sliceTo {A} (limit : Z) (l : list A) : list A :=
  take (Z.to_nat (if limit <? 0 then Z.of_nat (length l) + limit else limit)) l.

(** @src src/modules/jobs/infra/in-memory/store.ts:37-40 runningStartedBefore *)
Definition overdue (startedBefore : Date) (j : Job) : bool :=
  bool_decide (j.(j_status) = running)
  && match j.(j_startedAt) with Some d => date_lt d startedBefore | None => false end.

(** @src src/modules/jobs/infra/in-memory/store.ts:34-44 runningStartedBefore *)
Definition runningStartedBefore (startedBefore : Date) (limit : Z) (s : Jobs) : list Job :=
  let startedAt j := match j.(j_startedAt) with Some d => getTime d | None => 0 end in
  sliceTo limit
    (sort_by (fun l r => startedAt l - startedAt r)
       (filter (fun j => overdue startedBefore j = true) (JsMap.values s))).

(** @src src/modules/jobs/infra/in-memory/store.ts:25-32 jobsForOrganization
    [localeCompare] is the host's collation. *)
Definition jobsForOrganization (localeCompare : ID -> ID -> Z) (organizationId : ID) (s : Jobs) : list Job :=
  sort_by (fun left right =>
      let time := getTime left.(j_createdAt) - getTime right.(j_createdAt) in
      if time =? 0 then localeCompare left.(j_id) right.(j_id) else time)
    (filter (fun j => j.(j_organizationId) = organizationId) (JsMap.values s)).

(** @src src/modules/jobs/infra/in-memory/reader.ts:39-39 listForOrganization *)
Definition jobKey (job : Job) : After := mkAfter job.(j_createdAt) job.(j_id).

(** @src src/modules/jobs/infra/in-memory/reader.ts:32-43 listForOrganization *)
Definition listPage (localeCompare : ID -> ID -> Z) (organizationId : ID) (page : PageRequest) (s : Jobs) : list Job :=
  keysetPage (jobsForOrganization localeCompare organizationId s) jobKey page.

Inductive Mode : Type := create | update.

(** @src src/modules/jobs/app/ports/job-writer.ts:6-12 JobCommit *)
Record JobCommit : Type := mkCommit {
  m_mode : Mode; m_job : Job; m_event : Events.Envelope; m_work : WorkContext
}.

(** @src src/modules/jobs/infra/in-memory/writer.ts:30-50 commit
    The guards of [commit]; the value is the job they found stored. *)
Definition guard (input : JobCommit) (s : Jobs) : Res (option Job) :=
  _ ← Events.assertEventWork input.(m_event) input.(m_work);
  let job := input.(m_job) in
  let previous := jobById job.(j_id) s in
  match input.(m_mode) with
  | create =>
      match previous with
      | Some _ => Err jobExists
      | None =>
          match job.(j_subject) with
          | Some subject =>
              match openJobBySubject job.(j_organizationId) job.(j_kind) subject s with
              | Some _ => Err subjectTaken
              | None => Ok previous
              end
          | None => Ok previous
          end
      end
  | update =>
      match previous with
      | None => Err jobNotFound
      | Some p =>
          if negb (bool_decide (p.(j_organizationId) = job.(j_organizationId))) then Err organizationMismatch
          else if negb (p.(j_version) =? job.(j_version)) then Err staleWrite
          else Ok previous
      end
  end.

(** @src src/modules/jobs/infra/in-memory/writer.ts:29-54 commit
    Up to [await this.events.publish(...)]: guards, then the write. [add] and
    [replace] of the store are both [Map.set]. *)
Definition beginCommit (input : JobCommit) (s : Jobs) : Jobs * Res (option Job) :=
  match guard input s with
  | Err e => (s, Err e)
  | Ok previous => (JsMap.set input.(m_job).(j_id) (saved input.(m_job)) s, Ok previous)
  end.

(** @src src/modules/jobs/infra/in-memory/writer.ts:54-60 commit
    From the outcome of the publication on. *)
Definition finishCommit (input : JobCommit) (previous : option Job) (published : Res unit) (s : Jobs)
    : Jobs * Res unit :=
  match published with
  | Ok _ => (s, Ok tt)
  | Err e =>
      (match previous with
       | Some p => JsMap.set p.(j_id) p s
       | None => JsMap.delete input.(m_job).(j_id) s
       end, Err e)
  end.

(** @src src/modules/jobs/infra/in-memory/writer.ts:29-61 commit
    A commit during whose publication no other commit runs. *)
Definition commit (input : JobCommit) (published : Res unit) (s : Jobs) : Jobs * Res unit :=
  match beginCommit input s with
  | (s, Err e) => (s, Err e)
  | (s, Ok previous) => finishCommit input previous published s
  end.

(** ** Facts about the store and the writer. *)

(** Jobs are stored under their own identifiers. *)
Definition keyed (s : Jobs) : Prop :=
  JsMap.wf s /\ forall id j, jobById id s = Some j -> j.(j_id) = id.

Lemma guard_previous input s previous :
  guard input s = Ok previous ->
  previous = jobById input.(m_job).(j_id) s
  /\ match input.(m_mode) with
     | create => previous = None /\ forall subject, input.(m_job).(j_subject) = Some subject ->
         openJobBySubject input.(m_job).(j_organizationId) input.(m_job).(j_kind) subject s = None
     | update => exists p, previous = Some p /\ p.(j_organizationId) = input.(m_job).(j_organizationId)
         /\ p.(j_version) = input.(m_job).(j_version)
     end.
Proof.
  unfold guard. destruct (Events.assertEventWork _ _); cbn; [|done].
  destruct (m_mode input); destruct (jobById _ s) as [p|] eqn:Ep; try done.
  - destruct (j_subject (m_job input)) as [sj|] eqn:Es.
    + destruct (openJobBySubject _ _ sj s) eqn:Eo; [done|]. intros [= <-]. split; [done|]. split; [done|].
      intros ? [= <-]. done.
    + intros [= <-]. done.
  - destruct (bool_decide_reflect (j_organizationId p = j_organizationId (m_job input))); cbn; [|done].
    destruct (j_version p =? j_version (m_job input)) eqn:Ev; cbn; [|done]. intros [= <-]. breflect. eauto.
Qed.

(** An uninterrupted commit writes the saved job, or nothing at all. *)
Lemma commit_cases input outcome s :
  keyed s ->
  match guard input s, outcome with
  | Ok _, Ok _ => commit input outcome s = (JsMap.set input.(m_job).(j_id) (saved input.(m_job)) s, Ok tt)
  | Ok _, Err e => commit input outcome s = (s, Err e)
  | Err e, _ => commit input outcome s = (s, Err e)
  end.
Proof.
  intros [_ Hk]. unfold commit, beginCommit. destruct (guard input s) as [previous|e] eqn:E; [|by destruct outcome].
  destruct (guard_previous _ _ _ E) as [Hp _]. unfold finishCommit. destruct outcome; [done|].
  destruct previous as [p|]; symmetry in Hp.
  - rewrite (Hk _ _ Hp). f_equal. by apply JsMap.set_undo.
  - f_equal. by apply JsMap.delete_undo.
Qed.

Lemma jobById_set id id' j s : jobById id' (JsMap.set id j s) = if decide (id = id') then Some j else jobById id' s.
Proof. apply JsMap.get_set. Qed.

Lemma keyed_set j s : keyed s -> keyed (JsMap.set j.(j_id) j s).
Proof.
  intros [Hw Hk]. split; [by apply JsMap.wf_set|]. intros id x. rewrite jobById_set.
  destruct (decide _) as [<-|]; [by intros [= <-]|apply Hk].
Qed.

Lemma job_keyed_nil : keyed [].
Proof. split; [apply NoDup_nil_2|done]. Qed.

Lemma occupies_spec o k sj j :
  occupies o k sj j = true <->
  Job.open j = true /\ j.(j_organizationId) = o /\ j.(j_kind) = k /\ j.(j_subject) = Some sj.
Proof. unfold occupies. rewrite !andb_true_iff, !bool_decide_eq_true. tauto. Qed.

Lemma openJobBySubject_some o k sj s j :
  keyed s -> openJobBySubject o k sj s = Some j -> jobById j.(j_id) s = Some j /\ occupies o k sj j = true.
Proof.
  intros [Hw Hk] H. apply List.find_some in H as [Hin Ho]. split; [|done].
  apply list_elem_of_In, JsMap.elem_values in Hin as [id Hid]; [|done].
  pose proof (Hk _ _ Hid) as <-. exact Hid.
Qed.

Lemma openJobBySubject_none o k sj s id j :
  keyed s -> openJobBySubject o k sj s = None -> jobById id s = Some j -> occupies o k sj j = false.
Proof.
  intros [Hw Hk] H Hj. apply (List.find_none _ _ H). apply list_elem_of_In, JsMap.elem_values; eauto.
Qed.

(** Commits are atomic, version-checked and unique. A commit during whose
    publication nothing else runs either stores exactly the saved job, when its
    guards pass and its event is published, or leaves the store as it was,
    iteration order included, when a guard refuses it or the publication fails.
    After a successful commit, a commit prepared from the same version is
    refused as stale, one that creates the same job as already existing, and one
    that creates another job for the subject of an open job as taken. *)
Theorem commit_atomic (input : JobCommit) (outcome : Res unit) (s s' : Jobs) (r : Res unit)
    (Hkeyed : keyed s) (Hcommit : commit input outcome s = (s', r)) :
  (r = Ok tt -> isOk (guard input s) = true /\ outcome = Ok tt
     /\ s' = JsMap.set input.(m_job).(j_id) (saved input.(m_job)) s)
  /\ (forall e, r = Err e -> s' = s /\ (guard input s = Err e \/ outcome = Err e))
  /\ keyed s'
  /\ (r = Ok tt -> forall later other,
        Events.assertEventWork other.(m_event) other.(m_work) = Ok tt ->
        other.(m_job).(j_id) = input.(m_job).(j_id) ->
        other.(m_job).(j_organizationId) = input.(m_job).(j_organizationId) ->
        (other.(m_mode) = create -> commit other later s' = (s', Err jobExists))
        /\ (other.(m_mode) = update -> other.(m_job).(j_version) = input.(m_job).(j_version) ->
             commit other later s' = (s', Err staleWrite)))
  /\ (r = Ok tt -> forall later other subject,
        Events.assertEventWork other.(m_event) other.(m_work) = Ok tt ->
        other.(m_mode) = create -> jobById other.(m_job).(j_id) s' = None ->
        input.(m_job).(j_subject) = Some subject -> other.(m_job).(j_subject) = Some subject ->
        other.(m_job).(j_organizationId) = input.(m_job).(j_organizationId) ->
        other.(m_job).(j_kind) = input.(m_job).(j_kind) -> Job.open input.(m_job) = true ->
        commit other later s' = (s', Err subjectTaken)).
Proof.
  pose proof (commit_cases input outcome s Hkeyed) as H. rewrite Hcommit in H.
  assert (Hwrite : keyed (JsMap.set input.(m_job).(j_id) (saved input.(m_job)) s)).
  { apply (keyed_set (saved (m_job input))), Hkeyed. }
  destruct (guard input s) as [previous|e] eqn:Eg; [destruct outcome as [[]|e]|]; injection H as -> ->.
  2: { split_and!; try done. intros x [= ->]. auto. }
  2: { split_and!; try done. intros x [= ->]. auto. }
  split_and!; try done.
  - intros _ later other Hwork Hid Horg. 
    set (s1 := JsMap.set _ _ s) in *. assert (Hstored : jobById other.(m_job).(j_id) s1 = Some (saved input.(m_job))).
    { unfold s1. by rewrite jobById_set, Hid, decide_True. }
    split; [intros Hm|intros Hm Hv]; unfold commit, beginCommit, guard; rewrite Hwork; cbn [mbind Result_bind];
      rewrite Hm, Hstored; [done|]. rewrite Horg, bool_decide_eq_true_2 by done. cbn [negb saved j_version].
    rewrite Hv. destruct (j_version (m_job input) + 1 =? j_version (m_job input)) eqn:E; breflect; [lia|done].
  - intros _ later other subject Hwork Hm Hfree Hs Hs' Horg Hkind Hopen.
    unfold commit, beginCommit, guard. rewrite Hwork. cbn [mbind Result_bind]. rewrite Hm, Hfree, Hs', Horg, Hkind.
    destruct (openJobBySubject _ _ subject _) eqn:Eo; [done|].
    assert (Hj : jobById (m_job input).(j_id) (JsMap.set (j_id (m_job input)) (saved (m_job input)) s) = Some (saved (m_job input)))
      by (by rewrite jobById_set, decide_True).
    pose proof (openJobBySubject_none _ _ _ _ _ _ Hwrite Eo Hj) as Hn.
    assert (Ho : occupies (j_organizationId (m_job input)) (j_kind (m_job input)) subject (saved (m_job input)) = true)
      by (by apply occupies_spec). congruence.
Qed.

Definition sample_job : Job :=
  mkJob (sample_uuid "5") (sample_uuid "9") (js "document.process")
    (Some (mkSubject (js "document") (sample_uuid "4"))) queued 0 3 (DateAt 1000) (DateAt 1000)
    None None None 0.
Definition sample_commit (mode : Mode) (j : Job) : JobCommit :=
  mkCommit mode j Events.sample_envelope Events.sample_context.

Lemma commit_atomic_witness :
  commit (sample_commit create sample_job) (Ok tt) [] = ([(sample_uuid "5", saved sample_job)], Ok tt)
  /\ keyed [(sample_uuid "5", saved sample_job)].
Proof.
  assert (H : commit (sample_commit create sample_job) (Ok tt) [] = ([(sample_uuid "5", saved sample_job)], Ok tt))
    by (vm_compute; reflexivity).
  split; [exact H|].
  refine (proj1 (proj2 (proj2 (commit_atomic (sample_commit create sample_job) (Ok tt) [] _ _ _ H)))).
  exact job_keyed_nil.
Defined.

(** The writer's rollback is not isolated. The guard and the write of a
    commit run before its publication is awaited, and the rollback restores the
    job it had found. When another commit of the same job builds on the
    unpublished write and is acknowledged in between, the failing commit's
    rollback overwrites it: the store goes back two versions, and the
    acknowledged change is lost. *)
Theorem rollback_overwrites (first second : JobCommit) (e : Failure) (s s1 s2 : Jobs) (p p2 : Job)
    (Hkeyed : keyed s) (Hmodes : first.(m_mode) = update /\ second.(m_mode) = update)
    (Hsame : second.(m_job).(j_id) = first.(m_job).(j_id))
    (Hfirst : beginCommit first s = (s1, Ok (Some p)))
    (Hsecond : beginCommit second s1 = (s2, Ok (Some p2))) :
  finishCommit second (Some p2) (Ok tt) s2 = (s2, Ok tt)
  /\ jobById first.(m_job).(j_id) s2 = Some (saved second.(m_job))
  /\ (finishCommit first (Some p) (Err e) s2).2 = Err e
  /\ jobById first.(m_job).(j_id) (finishCommit first (Some p) (Err e) s2).1 = Some p
  /\ (saved second.(m_job)).(j_version) = p.(j_version) + 2.
Proof.
  destruct Hmodes as [Hm1 Hm2]. unfold beginCommit in Hfirst, Hsecond.
  destruct (guard first s) as [o|] eqn:E1; [|done]. injection Hfirst as <- ->.
  destruct (guard second _) as [o2|] eqn:E2; [|done]. injection Hsecond as <- ->.
  apply guard_previous in E1 as [Hp1 Hg1], E2 as [Hp2 Hg2]. rewrite Hm1 in Hg1. rewrite Hm2 in Hg2.
  destruct Hg1 as (q & [= <-] & _ & Hv1), Hg2 as (q2 & [= <-] & _ & Hv2).
  rewrite Hsame, jobById_set, decide_True in Hp2 by done. injection Hp2 as ->.
  assert (Hid : p.(j_id) = first.(m_job).(j_id)) by (by apply (proj2 Hkeyed)).
  cbn [finishCommit fst snd]. rewrite Hsame, Hid. split_and!; try done.
  - by rewrite jobById_set, decide_True.
  - by rewrite jobById_set, decide_True.
  - cbn in Hv2 |- *. lia.
Qed.

Definition sample_started : Job := default sample_job (match start (saved sample_job) (DateAt 2000) with Ok j => Some j | Err _ => None end).
Definition sample_completed : Job :=
  default sample_job (match complete (saved sample_started) (DateAt 3000) with Ok j => Some j | Err _ => None end).

Lemma rollback_overwrites_witness :
  let s2 := [(sample_uuid "5", saved sample_completed)] in
  j_status (saved sample_completed) = succeeded
  /\ jobById (sample_uuid "5") (finishCommit (sample_commit update sample_started) (Some (saved sample_job))
        (Err jobNotFound) s2).1 = Some (saved sample_job).
Proof.
  intros s2. split; [vm_compute; reflexivity|].
  refine (proj1 (proj2 (proj2 (proj2 (rollback_overwrites (sample_commit update sample_started) (sample_commit update sample_completed)
    jobNotFound [(sample_uuid "5", saved sample_job)] [(sample_uuid "5", saved sample_started)] s2
    (saved sample_job) (saved sample_started) _ (conj eq_refl eq_refl) eq_refl _ _))))).
  - exact (keyed_set (saved sample_job) [] job_keyed_nil).
  - vm_compute. reflexivity.
  - vm_compute. reflexivity.
Defined.
End JobStore.
