(* ===== verification/JobsApp.v ===== *)
(** * The jobs module's commands: [modules/jobs/app].

    The commands and the query are programs over the ports they inject (clock, id
    generator, organization access, reader, writer). *)
From stdpp Require Import relations.
From S2P Require Import Prelude Async JsMap Errors Ids Json Pagination Provenance Events Commands JobDomain JobsStore.

Module JobPorts.
Import JobDomain.Job.

(** @src src/modules/jobs/app/ports/organization-access-reader.ts:5-11 JobOrganizationAccess *)
Inductive Role : Type := owner | admin | member.
(** @src src/modules/jobs/app/ports/organization-access-reader.ts:5-11 JobOrganizationAccess *)
Record Access : Type := mkAccess { ac_organizationId : ID; ac_identityId : ID; ac_role : Role }.

(** The calls a command of the module can make: its ports' methods, the clock
    and the id generator.  Abort signals are not modelled: a cancelled call is a
    call that fails. *)
Inductive Op : Type :=
| now
| newId
| findAccess (sessionToken : jstring) (organizationId : ID)
| findById (id : ID)
| findOpenBySubject (organizationId : ID) (kind : jstring) (subject : JobSubject)
| listRunningStartedBefore (startedBefore : Date) (limit : Z)
| listForOrganization (organizationId : ID) (page : PageRequest)
| commit (input : JobStore.JobCommit).

(** @src src/modules/jobs/app/ports/job-reader.ts:6-27 JobReader *)
Definition Ans (op : Op) : Type :=
  match op with
  | now => Date
  | newId => Res ID
  | findAccess _ _ => Res (option Access)
  | findById _ => Res (option Job)
  | findOpenBySubject _ _ _ => Res (option Job)
  | listRunningStartedBefore _ _ => Res (list Job)
  | listForOrganization _ _ => Res (list Job)
  | commit _ => Res unit
  end.
End JobPorts.

Module JobCommands.
Import JobFailures JobPorts.
Import JobDomain.Job.
#[local] Open Scope prog_scope.

Definition Command (A : Type) : Type := Prog Ans (Res A).

(** @src src/modules/jobs/app/commands/submit-job.ts:45-50 nextId *)
Definition nextId : Command ID := orElse idGenerationFailure (perform newId).

(** [if (!r.ok) return err(dependencyFailure(r.error, operation))]. *)
Definition depends {A} (operation : string) (p : Command A) : Command A :=
  orElse (fun e => dependencyFailure e operation) p.

(** @src src/modules/jobs/domain/events.ts:2-9 JOB_EVENT_TYPES *)
Inductive JobEventType : Type := e_submitted | e_started | e_completed | e_failed | e_retried | e_canceled.
(** @src src/modules/jobs/domain/events.ts:2-12 JOB_EVENT_TYPES *)
Definition JOB_EVENT_TYPES (t : JobEventType) : jstring :=
  js match t with
     | e_submitted => "job.submitted.v1" | e_started => "job.started.v1"
     | e_completed => "job.completed.v1" | e_failed => "job.failed.v1"
     | e_retried => "job.retried.v1" | e_canceled => "job.canceled.v1"
     end.

(** [access.value !== null && (role === 'owner' || role === 'admin')]. *)
Definition administers (access : option Access) : bool :=
  match access with
  | Some a => match a.(ac_role) with owner | admin => true | member => false end
  | None => false
  end.
Definition identityOf (access : option Access) : ID :=
  match access with Some a => a.(ac_identityId) | None => [] end.

(** The envelope of a job event. *)
Definition jobEvent (eventId : ID) (type : JobEventType) (at_ : Date) (work : WorkContext) (job : Job)
    (payload : list (string * JsValue)) : Command Events.Envelope :=
  depends "event.create"
    (Ret (Events.create eventId (JOB_EVENT_TYPES type) (timeNumber at_) work payload
            (Some (Events.mkEventSubject (js "job") job.(j_id))) (Some job.(j_organizationId)))).

(** ** [SubmitJob]. *)

(** @src src/modules/jobs/app/commands/submit-job.ts:20-27 SubmitJobCommand *)
Record SubmitJobCommand : Type := mkSubmit {
  s_sessionToken : jstring; s_organizationId : ID; s_kind : JsValue; s_maxAttempts : JsValue;
  s_work : WorkContext
}.
(** @src src/modules/jobs/app/commands/submit-job.ts:36-43 SubmitJobResult
    Its [status] and [attempts] are the constants ['queued'] and [0]. *)
Record SubmitJobResult : Type := mkSubmitted {
  sr_jobId : ID; sr_organizationId : ID; sr_kind : jstring; sr_maxAttempts : Z
}.

(** @src src/modules/jobs/app/commands/submit-job.ts:105-113 execute *)
Definition submittedPayload (identityId : ID) (job : Job) : list (string * JsValue) :=
  [("organization_id", VStr job.(j_organizationId)); ("job_id", VStr job.(j_id));
   ("identity_id", VStr identityId); ("kind", VStr job.(j_kind));
   ("subject", subjectValue job.(j_subject)); ("status", VStr (js (statusName job.(j_status))));
   ("max_attempts", VNum (Int job.(j_maxAttempts)))]%string.

(** @src src/modules/jobs/app/commands/submit-job.ts:55-136 execute *)
Definition submitJob (command : SubmitJobCommand) : Command SubmitJobResult :=
  _ ⟵ require (operationIs command.(s_work) "job.submit")
        (fail_with Errors.invalid "job submission operation is invalid" "job.invalid_operation");
  access ⟵ depends "organization.access.find"
        (perform (findAccess command.(s_sessionToken) command.(s_organizationId)));
  _ ⟵ require (administers access)
        (fail_with forbidden "only organization owners and admins can submit jobs" "job.submit_forbidden");
  bind (perform now) (fun createdAt =>
  jobId ⟵ nextId;
  job ⟵ pure_ (Job.create (mkCreate jobId command.(s_organizationId) command.(s_kind) VUndefined
                             command.(s_maxAttempts) createdAt));
  eventId ⟵ nextId;
  event ⟵ jobEvent eventId e_submitted createdAt command.(s_work) job
            (submittedPayload (identityOf access) job);
  _ ⟵ depends "job.commit"
        (perform (commit (JobStore.mkCommit JobStore.create job event command.(s_work))));
  Ret (Ok (mkSubmitted job.(j_id) job.(j_organizationId) job.(j_kind) job.(j_maxAttempts)))).

(** ** [TransitionJob] and its subclasses. *)

(** @src src/modules/jobs/app/commands/transition-job.ts:30-37 TransitionJobCommand *)
Record TransitionJobCommand : Type := mkTransition {
  t_sessionToken : jstring; t_organizationId : ID; t_jobId : ID; t_failureCode : JsValue;
  t_work : WorkContext
}.
(** @src src/modules/jobs/app/commands/transition-job.ts:47-53 TransitionJobResult *)
Record TransitionJobResult : Type := mkTransitioned {
  tr_jobId : ID; tr_status : JobStatus; tr_attempts : Z; tr_updatedAt : Date; tr_finishedAt : option Date
}.
(** @src src/modules/jobs/app/commands/transition-job.ts:55-55 Action *)
Inductive Action : Type := a_start | a_complete | a_fail | a_retry | a_cancel.

(** @src src/modules/jobs/app/commands/transition-job.ts:64-82 transition *)
Definition transitionOf (action : Action) (at_ : Date) (failureCode : JsValue) : Transition :=
  match action with
  | a_start => Start at_ | a_complete => Complete at_ | a_fail => Fail at_ failureCode
  | a_retry => Retry at_ | a_cancel => Cancel at_
  end.

(** @src src/modules/jobs/app/commands/transition-job.ts:184-212 StartJob, CompleteJob, FailJob, RetryJob, CancelJob
    What each subclass passes to its parent: the operation it requires of the
    work, and the event it publishes. *)
Definition actionOperation (a : Action) : string :=
  match a with
  | a_start => "job.start" | a_complete => "job.complete" | a_fail => "job.fail"
  | a_retry => "job.retry" | a_cancel => "job.cancel"
  end.
(** @src src/modules/jobs/app/commands/transition-job.ts:184-212 StartJob, CompleteJob, FailJob, RetryJob, CancelJob *)
Definition actionEvent (a : Action) : JobEventType :=
  match a with
  | a_start => e_started | a_complete => e_completed | a_fail => e_failed
  | a_retry => e_retried | a_cancel => e_canceled
  end.

(** @src src/modules/jobs/app/commands/transition-job.ts:152-161 execute *)
Definition changedPayload (identityId : ID) (job : Job) : list (string * JsValue) :=
  [("organization_id", VStr job.(j_organizationId)); ("job_id", VStr job.(j_id));
   ("identity_id", VStr identityId); ("kind", VStr job.(j_kind));
   ("subject", subjectValue job.(j_subject)); ("status", VStr (js (statusName job.(j_status))));
   ("attempts", VNum (Int job.(j_attempts))); ("failure_code", orNullText job.(j_failureCode))]%string.

(** [current.value === null || current.value.organizationId !== organizationId]. *)
Definition ownedBy (organizationId : ID) (job : option Job) : Res Job :=
  match job with
  | Some j => if bool_decide (j.(j_organizationId) = organizationId) then Ok j else Err jobNotFound
  | None => Err jobNotFound
  end.

(** @src src/modules/jobs/app/commands/transition-job.ts:84-182 TransitionJob *)
Definition transitionJob (action : Action) (command : TransitionJobCommand) : Command TransitionJobResult :=
  _ ⟵ require (operationIs command.(t_work) (actionOperation action))
        (fail_with Errors.invalid "job operation is invalid" "job.invalid_operation");
  access ⟵ depends "organization.access.find"
        (perform (findAccess command.(t_sessionToken) command.(t_organizationId)));
  _ ⟵ require (administers access)
        (fail_with forbidden "only organization owners and admins can transition jobs" "job.transition_forbidden");
  found ⟵ depends "job.findById" (perform (findById command.(t_jobId)));
  current ⟵ pure_ (ownedBy command.(t_organizationId) found);
  bind (perform now) (fun at_ =>
  changed ⟵ pure_ (transition current (transitionOf action at_ command.(t_failureCode)));
  eventId ⟵ nextId;
  event ⟵ jobEvent eventId (actionEvent action) at_ command.(t_work) changed
            (changedPayload (identityOf access) changed);
  _ ⟵ depends "job.commit"
        (perform (commit (JobStore.mkCommit JobStore.update changed event command.(t_work))));
  Ret (Ok (mkTransitioned changed.(j_id) changed.(j_status) changed.(j_attempts)
             (copyDate changed.(j_updatedAt)) (copyDateOpt changed.(j_finishedAt))))).

(** ** [SubmitWorkflowJob]. *)

(** @src src/modules/jobs/app/commands/submit-workflow-job.ts:19-26 SubmitWorkflowJobCommand *)
Record SubmitWorkflowJobCommand : Type := mkWorkflow {
  sw_organizationId : ID; sw_kind : jstring; sw_subject : JobSubject; sw_maxAttempts : JsValue;
  sw_work : WorkContext
}.
(** @src src/modules/jobs/app/commands/submit-workflow-job.ts:35-39 SubmitWorkflowJobResult *)
Record SubmitWorkflowJobResult : Type := mkEnsured {
  wr_jobId : ID; wr_status : JobStatus; wr_created : bool
}.

(** @src src/modules/jobs/app/commands/submit-workflow-job.ts:149-157 event *)
Definition workflowPayload (job : Job) : list (string * JsValue) :=
  [("organization_id", VStr job.(j_organizationId)); ("job_id", VStr job.(j_id));
   ("kind", VStr job.(j_kind)); ("subject", subjectValue job.(j_subject));
   ("status", VStr (js (statusName job.(j_status))));
   ("attempts", VNum (Int job.(j_attempts))); ("max_attempts", VNum (Int job.(j_maxAttempts)))]%string.

(** @src src/modules/jobs/app/commands/submit-workflow-job.ts:136-162 event *)
Definition workflowEvent (job : Job) (type : JobEventType) (at_ : Date) (command : SubmitWorkflowJobCommand)
    : Command Events.Envelope :=
  eventId ⟵ nextId;
  jobEvent eventId type at_ command.(sw_work) job (workflowPayload job).

(** @src src/modules/jobs/app/commands/submit-workflow-job.ts:164-176 open *)
Definition findOpen (command : SubmitWorkflowJobCommand) : Command (option Job) :=
  depends "job.findOpenBySubject"
    (perform (findOpenBySubject command.(sw_organizationId) command.(sw_kind) command.(sw_subject))).

(** @src src/modules/jobs/app/commands/submit-workflow-job.ts:112-134 reuse *)
Definition reuse (job : Job) (command : SubmitWorkflowJobCommand) : Command SubmitWorkflowJobResult :=
  if negb (bool_decide (job.(j_status) = failed)) then
    Ret (Ok (mkEnsured job.(j_id) job.(j_status) false))
  else
    bind (perform now) (fun at_ =>
    retried ⟵ pure_ (Job.retry job at_);
    event ⟵ workflowEvent retried e_retried at_ command;
    _ ⟵ depends "job.commit"
          (perform (commit (JobStore.mkCommit JobStore.update retried event command.(sw_work))));
    Ret (Ok (mkEnsured job.(j_id) retried.(j_status) false))).

(** @src src/modules/jobs/app/commands/submit-workflow-job.ts:98-107 execute
    After a refused commit: use the job that won the race. *)
Definition recover (error : Failure) (command : SubmitWorkflowJobCommand) : Command SubmitWorkflowJobResult :=
  let refused := Ret (Err (dependencyFailure error "job.commit")) in
  if hasType error "job.subject_taken" then
    winner ⟵ findOpen command;
    match winner with Some job => reuse job command | None => refused end
  else refused.

(** @src src/modules/jobs/app/commands/submit-workflow-job.ts:56-110 execute *)
Definition submitWorkflowJob (command : SubmitWorkflowJobCommand) : Command SubmitWorkflowJobResult :=
  _ ⟵ require (operationIs command.(sw_work) "job.submit.workflow")
        (fail_with Errors.invalid "workflow job operation is invalid" "job.invalid_operation");
  existing ⟵ findOpen command;
  match existing with
  | Some job => reuse job command
  | None =>
      bind (perform now) (fun createdAt =>
      jobId ⟵ nextId;
      job ⟵ pure_ (Job.create (mkCreate jobId command.(sw_organizationId) (VStr command.(sw_kind))
                                 (subjectValue (Some command.(sw_subject))) command.(sw_maxAttempts) createdAt));
      event ⟵ workflowEvent job e_submitted createdAt command;
      bind (perform (commit (JobStore.mkCommit JobStore.create job event command.(sw_work)))) (fun committed =>
      match committed with
      | Err error => recover error command
      | Ok _ => Ret (Ok (mkEnsured job.(j_id) job.(j_status) true))
      end))
  end.

(** ** [ExpireStaleJobs]. *)

(** @src src/modules/jobs/app/commands/expire-stale-jobs.ts:14-15 JOB_TIMED_OUT *)
Definition JOB_TIMED_OUT : jstring := js "job.timed_out".

(** @src src/modules/jobs/app/commands/expire-stale-jobs.ts:71-79 execute *)
Definition expiredPayload (job : Job) : list (string * JsValue) :=
  [("organization_id", VStr job.(j_organizationId)); ("job_id", VStr job.(j_id));
   ("kind", VStr job.(j_kind)); ("subject", subjectValue job.(j_subject));
   ("status", VStr (js (statusName job.(j_status))));
   ("attempts", VNum (Int job.(j_attempts))); ("failure_code", orNullText job.(j_failureCode))]%string.

(** @src src/modules/jobs/app/commands/expire-stale-jobs.ts:58-95 execute
    The loop over the stale jobs, with its counters. *)
Fixpoint expireAll (now_ : Date) (work : WorkContext) (jobs : list Job) (expired skipped : Z)
    : Command (Z * Z) :=
  match jobs with
  | [] => Ret (Ok (expired, skipped))
  | job :: rest =>
      match Job.fail job now_ (VStr JOB_TIMED_OUT) with
      | Err _ => expireAll now_ work rest expired (skipped + 1)
      | Ok failed_ =>
          eventId ⟵ nextId;
          event ⟵ jobEvent eventId e_failed now_ work failed_ (expiredPayload failed_);
          bind (perform (commit (JobStore.mkCommit JobStore.update failed_ event work))) (fun committed =>
          match committed with
          | Ok _ => expireAll now_ work rest (expired + 1) skipped
          | Err e =>
              if hasType e "job.stale_write" then expireAll now_ work rest expired (skipped + 1)
              else Ret (Err (dependencyFailure e "job.commit"))
          end)
      end
  end.

(** [new Date(now.getTime() - ms)]. *)
Definition minusMs (d : Date) (ms : Z) : Date :=
  match d with DateAt t => newDate (t - ms) | InvalidDate => InvalidDate end.

(** @src src/modules/jobs/app/commands/expire-stale-jobs.ts:45-96 execute *)
Definition expireStaleJobs (runningTimeoutMs limit : Z) (work : WorkContext) : Command (Z * Z) :=
  bind (perform now) (fun now_ =>
  stale ⟵ depends "job.listRunningStartedBefore"
            (perform (listRunningStartedBefore (minusMs now_ runningTimeoutMs) limit));
  expireAll now_ work stale 0 0).
(** ** [ListJobs]. *)

(** @src src/modules/jobs/app/queries/list-jobs.ts:13-21 ListJobsQuery *)
Record ListJobsQuery : Type := mkListJobs {
  lj_sessionToken : jstring; lj_organizationId : ID; lj_limit : option jstring; lj_cursor : option jstring
}.

(** @src src/modules/jobs/app/queries/list-jobs.ts:34-34 execute *)
Definition listScope (organizationId : ID) : jstring := js "jobs:" ++ organizationId.

(** @src src/modules/jobs/app/queries/list-jobs.ts:31-56 execute *)
Definition listJobs (query : ListJobsQuery) : Command (Page Job) :=
  let scope := listScope query.(lj_organizationId) in
  page ⟵ orElse (fun _ => invalidPage) (pure_ (request scope query.(lj_limit) query.(lj_cursor)));
  access ⟵ depends "organization.access.find"
        (perform (findAccess query.(lj_sessionToken) query.(lj_organizationId)));
  _ ⟵ require (negb (isNull access))
        (fail_with forbidden "organization access is required" "job.access_forbidden");
  found ⟵ depends "job.listForOrganization"
        (perform (listForOrganization query.(lj_organizationId) page));
  depends "pagination.window"
    (Ret (window found (Int page.(limit)) scope (fun j => position j.(j_createdAt) j.(j_id)))).
End JobCommands.
