(* ===== verification/JobsWorld.v ===== *)
(** * The jobs module at work: its commands over its store.

    What holds whatever the interleaving of the commands, what one command does
    on every branch, and what an organization's list shows. *)
From stdpp Require Import relations.
From S2P Require Import Prelude Async JsMap Errors Ids Json Pagination Provenance Events Commands JobDomain JobsStore JobsApp.

(** ** The world the commands act on. *)
Module JobWorld.
Import JobFailures JobPorts JobCommands.
Import JobDomain.Job.

(** The stored jobs, the events published, the identifiers handed out. *)
Record World : Type := mkWorld {
  jobs : JobStore.Jobs; published : list Events.Envelope; issued : list ID
}.

(** ** What the events say. *)

(** What the jobs commands publish about a job: the type of the event and its
    payload. *)
Inductive publishes (job : Job) : JobEventType -> list (string * JsValue) -> Prop :=
| pub_submit identityId : publishes job e_submitted (submittedPayload identityId job)
| pub_workflow_submit : publishes job e_submitted (workflowPayload job)
| pub_workflow_retry : publishes job e_retried (workflowPayload job)
| pub_transition action identityId : publishes job (actionEvent action) (changedPayload identityId job)
| pub_expire : publishes job e_failed (expiredPayload job).

(** The state an event of each type reports. *)
Definition reports (type : JobEventType) : JobStatus :=
  match type with
  | e_submitted | e_retried => queued
  | e_started => running
  | e_completed => succeeded
  | e_failed => failed
  | e_canceled => canceled
  end.

(** The event [e] tells that the job was in the state [c]. *)
Definition told (c : Job) (e : Events.Envelope) : Prop :=
  exists type pl id at_ work subject tenant,
    publishes c type pl /\ c.(j_status) = reports type
    /\ Events.create id (JOB_EVENT_TYPES type) at_ work pl subject tenant = Ok e.

Section Exec.
  (** What the organization module answers about a session and an
      organization, and the failures an unreliable dependency (an id generator,
      a reader, the event bus) may report. *)
  Context (accessOf : jstring -> ID -> Res (option Access) -> Prop) (outage : Failure -> Prop).

(** A read that may fail. *)
Definition answers {A} (v : A) (r : Res A) : Prop :=
  match r with Ok x => x = v | Err f => outage f end.

(** @src src/modules/jobs/infra/in-memory/reader.ts:10-44 InMemoryJobReader
    The ports' behaviour: the reader over the store (in any collation of the
    host), the writer, a generator of well-formed identifiers that never repeats
    one, and any clock. *)
Definition exec (op : Op) : World -> Ans op -> World -> Prop :=
  match op with
  | now => fun w r w' => w' = w
  | newId => fun w r w' =>
      match r with
      | Ok id => (id ∉ w.(issued)) /\ validID id = true /\ w' = mkWorld w.(jobs) w.(published) (id :: w.(issued))
      | Err f => outage f /\ w' = w
      end
  | findAccess token organizationId => fun w r w' => accessOf token organizationId r /\ w' = w
  | findById id => fun w r w' => answers (JobStore.jobById id w.(jobs)) r /\ w' = w
  | findOpenBySubject organizationId kind subject => fun w r w' =>
      answers (JobStore.openJobBySubject organizationId kind subject w.(jobs)) r /\ w' = w
  | listRunningStartedBefore startedBefore limit => fun w r w' =>
      answers (JobStore.runningStartedBefore startedBefore limit w.(jobs)) r /\ w' = w
  | listForOrganization organizationId page => fun w r w' =>
      (exists localeCompare, answers (JobStore.listPage localeCompare organizationId page w.(jobs)) r) /\ w' = w
  | commit input => fun w r w' =>
      exists outcome : Res unit, (forall f, outcome = Err f -> outage f)
        /\ JobStore.commit input outcome w.(jobs) = (w'.(jobs), r)
        /\ w'.(published) = (if isOk r then w.(published) ++ [input.(JobStore.m_event)] else w.(published))
        /\ w'.(issued) = w.(issued)
  end.

(** ** How the stored jobs change. *)

(** One committed change of a job: a transition, then its saved version. *)
Definition evo (j j' : Job) : Prop := exists t c, transition j t = Ok c /\ j' = saved c.
(** The jobs that start with a creation. *)
Definition born (j' : Job) : Prop := exists input j, Job.create input = Ok j /\ rtc evo (saved j) j'.

Definition stored (w : World) (id : ID) (j : Job) : Prop := JobStore.jobById id w.(jobs) = Some j.

(** No job is lost, every stored job goes through a chain of transitions from
    what was stored before, and what is new was created. *)
Record evolves (w w' : World) : Prop := mkEvolves {
  ev_issued : forall id, id ∈ w.(issued) -> id ∈ w'.(issued);
  ev_chain : forall id j, stored w id j -> exists j', stored w' id j' /\ rtc evo j j';
  ev_born : forall id j', stored w' id j' -> (exists j, stored w id j) \/ born j'
}.

(** Open jobs stay open, and no job fails. *)
Definition staysOpen (w w' : World) : Prop :=
  forall id j, stored w id j -> Job.open j = true -> exists j', stored w' id j' /\ Job.open j' = true.
Definition failsNone (w w' : World) : Prop :=
  forall id j', stored w' id j' -> j'.(j_status) = failed -> exists j, stored w id j /\ j.(j_status) = failed.

(** With [strict], what the commands that never finish a job also guarantee each
    other. *)
Definition Rel (strict : bool) (w w' : World) : Prop :=
  evolves w w' /\ (strict = true -> staysOpen w w' /\ failsNone w w').

Definition versions (s : JobStore.Jobs) : Z := foldr (fun e n => j_version e.2 + n) 0 s.

(** The event tells of a state the stored job went through. *)
Definition recorded (w : World) (e : Events.Envelope) : Prop :=
  exists c j, Job.wf c /\ told c e /\ stored w c.(j_id) j /\ rtc evo (saved c) j.

Record Inv (w : World) : Prop := mkInv {
  inv_keyed : JobStore.keyed w.(jobs);
  inv_issued : forall id j, stored w id j -> id ∈ w.(issued);
  inv_unique : forall a b j k o kd sj, stored w a j -> stored w b k ->
    JobStore.occupies o kd sj j = true -> JobStore.occupies o kd sj k = true -> a = b;
  inv_events : versions w.(jobs) = Z.of_nat (length w.(published));
  (** Every job is one the storage layer reads back, under a well-formed
      identifier. *)
  inv_wf : forall id j, stored w id j -> Job.wf j;
  inv_ids : forall id, id ∈ w.(issued) -> validID id = true;
  (** Every published event tells of a state some job went through. *)
  inv_told : Forall (recorded w) w.(published)
}.

Lemma transition_stable j t c :
  transition j t = Ok c ->
  c.(j_id) = j.(j_id) /\ c.(j_organizationId) = j.(j_organizationId) /\ c.(j_kind) = j.(j_kind)
  /\ c.(j_subject) = j.(j_subject) /\ c.(j_version) = j.(j_version)
  /\ (Job.open c = true -> Job.open j = true).
Proof.
  intros H. pose proof (closed_transition _ _ _ H) as Ho.
  apply transition_evolve in H as (at_ & st & n & sa & fa & cd & -> & _). split_and!; done.
Qed.

Lemma job_evo_stable j j' :
  rtc evo j j' ->
  j'.(j_id) = j.(j_id) /\ j'.(j_organizationId) = j.(j_organizationId) /\ j'.(j_kind) = j.(j_kind)
  /\ j'.(j_subject) = j.(j_subject) /\ j.(j_version) <= j'.(j_version)
  /\ (j'.(j_version) = j.(j_version) -> j' = j) /\ (Job.open j' = true -> Job.open j = true).
Proof.
  induction 1 as [j|a b c (t & b' & Ht & ->) _ IH]; [split_and!; done|].
  apply transition_stable in Ht as (Hi & Ho & Hk & Hs & Hv & Hop). cbn in IH.
  destruct IH as (? & ? & ? & ? & ? & ? & Hop'). split_and!; try congruence; [lia|lia|]. intros Hc. by apply Hop, Hop'.
Qed.

Lemma evo_occupies o kd sj j j' :
  rtc evo j j' -> Job.open j' = true -> JobStore.occupies o kd sj j = true -> JobStore.occupies o kd sj j' = true.
Proof. intros (Hi & Ho & Hk & Hs & _)%job_evo_stable. rewrite !JobStore.occupies_spec.
  intros Hop (_ & <- & <- & <-). done. Qed.

Lemma job_evolves_refl w : evolves w w.
Proof. split; eauto using rtc_refl. Qed.

Lemma job_evolves_trans a b c : evolves a b -> evolves b c -> evolves a c.
Proof.
  intros [Hi1 Hc1 Hb1] [Hi2 Hc2 Hb2]. split; [eauto| |].
  - intros id j Hj. destruct (Hc1 _ _ Hj) as (j1 & Hj1 & Hr1). destruct (Hc2 _ _ Hj1) as (j2 & Hj2 & Hr2).
    exists j2. split; [done|]. by transitivity j1.
  - intros id j2 Hj2. destruct (Hb2 _ _ Hj2) as [[j1 Hj1]|Hb]; [|by right].
    destruct (Hb1 _ _ Hj1) as [?|(input & j0 & Hcr & Hr)]; [by left|right].
    destruct (Hc2 _ _ Hj1) as (j2' & Hj2' & Hr2). unfold stored in *. rewrite Hj2 in Hj2'. injection Hj2' as <-.
    exists input, j0. split; [done|]. by transitivity j1.
Qed.

Lemma job_rel_refl b w : Rel b w w.
Proof. split; [apply job_evolves_refl|]. intros _. split; intros id j; eauto. Qed.

Lemma job_rel_trans s a b c : Rel s a b -> Rel s b c -> Rel s a c.
Proof.
  intros [H1 K1] [H2 K2]. split; [by eapply job_evolves_trans|]. intros Hs. destruct (K1 Hs) as [A1 B1], (K2 Hs) as [A2 B2]. split.
  - intros id j Hj Ho. destruct (A1 _ _ Hj Ho) as (j1 & Hj1 & Ho1). eauto.
  - intros id j Hj Ho. destruct (B2 _ _ Hj Ho) as (j1 & Hj1 & Ho1). eauto.
Qed.

Lemma recorded_evolves w w' e : evolves w w' -> recorded w e -> recorded w' e.
Proof.
  intros H (c & j & Hw & Ht & Hj & Hr). destruct (ev_chain _ _ H _ _ Hj) as (j' & Hj' & Hr').
  exists c, j'. split_and!; [done..|]. by transitivity j.
Qed.

(** ** What one commit does to the world. *)

Lemma versions_set id j s :
  versions (JsMap.set id j s) = versions s + j.(j_version) - from_option j_version 0 (JsMap.get id s).
Proof.
  unfold versions. induction s as [|[id' j'] s IH]; cbn; [lia|].
  destruct (decide (id = id')); cbn; [lia|]. rewrite IH. lia.
Qed.

Lemma create_spec input j :
  Job.create input = Ok j ->
  j.(j_version) = 0 /\ Job.open j = true /\ j.(j_id) = input.(c_id)
  /\ j.(j_organizationId) = input.(c_organizationId)
  /\ kind input.(c_kind) = Ok j.(j_kind) /\ subject input.(c_subject) = Ok j.(j_subject)
  /\ j.(j_status) = queued.
Proof. intros H. unfold Job.create in H. ok_branches H. split_and!; done. Qed.

(** A commit stores the saved job, or changes nothing but answers why. *)
Lemma job_exec_commit input w r w' :
  Inv w -> exec (commit input) w r w' ->
  (exists previous, r = Ok tt /\ JobStore.guard input w.(jobs) = Ok previous
     /\ w' = mkWorld (JsMap.set input.(JobStore.m_job).(j_id) (saved input.(JobStore.m_job)) w.(jobs))
               (w.(published) ++ [input.(JobStore.m_event)]) w.(issued))
  \/ (exists f, r = Err f /\ w' = w /\ (JobStore.guard input w.(jobs) = Err f \/ outage f)).
Proof.
  intros HI (outcome & Hout & Hc & Hp & Hi). pose proof (JobStore.commit_cases input outcome w.(jobs) (inv_keyed _ HI)) as H.
  rewrite Hc in H. destruct w as [js ps is_], w' as [js' ps' is']. cbn in *. subst is'.
  destruct (JobStore.guard input js) as [previous|e]; [destruct outcome as [[]|e]|]; injection H as -> ->; cbn in Hp; subst ps'.
  - left. eauto.
  - right. exists e. auto.
  - right. exists e. auto.
Qed.

(** Writing a job under its identifier keeps the invariant when the job is one
    version on and does not take an occupied slot. *)
Lemma inv_write w j e :
  Inv w -> Job.wf j -> j.(j_id) ∈ w.(issued) ->
  from_option j_version 0 (JobStore.jobById j.(j_id) w.(jobs)) = j.(j_version) ->
  (forall b k o kd sj, stored w b k -> JobStore.occupies o kd sj j = true ->
     JobStore.occupies o kd sj k = true -> b = j.(j_id)) ->
  told j e ->
  let w' := mkWorld (JsMap.set j.(j_id) (saved j) w.(jobs)) (w.(published) ++ [e]) w.(issued) in
  evolves w w' -> Inv w'.
Proof.
  intros [Hk Hi Hu Hv Hw Hc Ht] Hwf Hin Hver Hslot Htold w' Hev. subst w'. constructor; cbn [jobs published issued]; [| | | | |done|].
  6: { apply Forall_app. split; [eapply Forall_impl; [exact Ht|]; intros x; by apply recorded_evolves|].
       constructor; [|done]. exists j, (saved j). split_and!; [done|done| |apply rtc_refl].
       unfold stored. cbn. by rewrite JobStore.jobById_set, decide_True. }
  all: unfold stored in *.
  - apply (JobStore.keyed_set (saved j)), Hk.
  - unfold stored. cbn. intros id x. rewrite JobStore.jobById_set. destruct (decide _) as [<-|]; [done|apply Hi].
  - unfold stored. cbn. intros a b x y o kd sj. rewrite !JobStore.jobById_set.
    destruct (decide (j_id j = a)) as [<-|Ha], (decide (j_id j = b)) as [<-|Hb].
    + done.
    + intros [= <-] Hy Hox Hoy. symmetry. by apply (Hslot b y o kd sj).
    + intros Hx [= <-] Hox Hoy. by apply (Hslot a x o kd sj).
    + apply Hu.
  - rewrite versions_set, Hv. change (JsMap.get (j_id j) (jobs w)) with (JobStore.jobById (j_id j) (jobs w)).
    rewrite Hver. cbn. rewrite length_app. cbn. lia.
  - unfold stored. cbn. intros id x. rewrite JobStore.jobById_set. destruct (decide _) as [<-|]; [|apply Hw].
    intros [= <-]. by apply Job.job_saved_wf.
Qed.

(** A successful creation. *)
Lemma create_world w input job e :
  Inv w -> Job.create input = Ok job -> job.(j_id) ∈ w.(issued) ->
  JobStore.jobById job.(j_id) w.(jobs) = None ->
  (forall subject, job.(j_subject) = Some subject ->
     JobStore.openJobBySubject job.(j_organizationId) job.(j_kind) subject w.(jobs) = None) ->
  told job e ->
  let w' := mkWorld (JsMap.set job.(j_id) (saved job) w.(jobs)) (w.(published) ++ [e]) w.(issued) in
  Inv w' /\ (forall b, Rel b w w') /\ stored w' job.(j_id) (saved job).
Proof.
  intros HI Hc Hin Hnew Hfree Htold w'. destruct (create_spec _ _ Hc) as (Hv & Hopen & _).
  assert (Hst : forall id j, stored w' id j <-> (id = job.(j_id) /\ j = saved job) \/ (id <> job.(j_id) /\ stored w id j)).
  { intros id j. unfold stored, w'. cbn. rewrite JobStore.jobById_set. destruct (decide _); naive_solver. }
  assert (Hkeep : forall id j, stored w id j -> stored w' id j).
  { intros id j Hj. apply Hst. right. split; [|done]. intros ->. unfold stored in Hj. congruence. }
  assert (Hev : evolves w w').
  { constructor; [done|eauto using rtc_refl|].
    intros id j' [[-> ->]|[_ Hj]]%Hst; [right; by exists input, job; split; [|apply rtc_refl]|left; eauto]. }
  split; [|split].
  - apply inv_write; [done|by eapply Job.job_create_wf|done| | |done|done].
    + by rewrite Hnew, Hv.
    + intros b k o kd sj Hb (_ & <- & <- & Hs)%JobStore.occupies_spec Hok.
      rewrite (JobStore.openJobBySubject_none _ _ _ _ _ _ (inv_keyed _ HI) (Hfree _ Hs) Hb) in Hok. done.
  - intros b. split; [done|]. intros _. split; [intros id j; eauto|]. intros id x [[-> ->]|[_ Hx]]%Hst Hf; [|eauto].
    cbn in Hf. destruct (create_spec _ _ Hc) as (_ & _ & _ & _ & _ & _ & Hq). congruence.
  - apply Hst. by left.
Qed.

(** A successful update prepared from a job the command once saw stored. *)
Lemma update_world w j t c e p :
  Inv w -> stored w c.(j_id) p -> rtc evo j p -> transition j t = Ok c -> p.(j_version) = c.(j_version) -> told c e ->
  let w' := mkWorld (JsMap.set c.(j_id) (saved c) w.(jobs)) (w.(published) ++ [e]) w.(issued) in
  p = j /\ Inv w' /\ evolves w w' /\ (Job.open c = true -> c.(j_status) <> failed -> forall b, Rel b w w') /\ stored w' c.(j_id) (saved c).
Proof.
  intros HI Hp Hr Ht Hv Htold w'. destruct (transition_stable _ _ _ Ht) as (Hi & Ho & Hk & Hs & Hvc & Hop).
  assert (p = j) as -> by (apply job_evo_stable in Hr as (_ & _ & _ & _ & _ & Heq & _); apply Heq; congruence).
  assert (Hevo : evo j (saved c)) by (by exists t, c).
  assert (Hst : forall id x, stored w' id x <-> (id = c.(j_id) /\ x = saved c) \/ (id <> c.(j_id) /\ stored w id x)).
  { intros id x. unfold stored, w'. cbn. rewrite JobStore.jobById_set. destruct (decide _); naive_solver. }
  assert (Hev : evolves w w').
  { constructor; [done| |].
    - intros id x Hx. destruct (decide (id = c.(j_id))) as [->|Hne].
      + exists (saved c). split; [apply Hst; by left|]. unfold stored in *. rewrite Hp in Hx. injection Hx as <-. by apply rtc_once.
      + exists x. split; [apply Hst; by right|apply rtc_refl].
    - intros id x [[-> ->]|[_ Hx]]%Hst; left; eauto. }
  split; [done|]. split; [|split; [done|split]].
  - apply inv_write; [done|by eapply Job.job_transition_wf; [eapply (inv_wf _ HI)|]| | | |done|done].
    + by eapply inv_issued.
    + unfold stored in Hp. by rewrite Hp.
    + intros b k o kd sj Hb Hoc Hok. apply (inv_unique _ HI b c.(j_id) k j o kd sj); [done..|].
      apply JobStore.occupies_spec in Hoc as (Hopc & <- & <- & Hsc). apply JobStore.occupies_spec.
      split_and!; [by apply Hop|congruence..].
  - intros Hopen Hfail b. split; [done|]. intros _. split.
    + intros id x Hx Hxo. destruct (decide (id = c.(j_id))) as [->|Hne].
      * exists (saved c). split; [apply Hst; by left|done].
      * exists x. split; [apply Hst; by right|done].
    + intros id x [[-> ->]|[_ Hx]]%Hst Hf; [done|eauto].
  - apply Hst. by left.
Qed.

(** An identifier is handed out. *)
Lemma inv_issue w id : Inv w -> validID id = true -> Inv (mkWorld w.(jobs) w.(published) (id :: w.(issued))).
Proof.
  intros [? Hi ? ? ? Hc ?] Hshape. constructor; try done; cbn; [intros i j Hj; right; by eapply Hi|].
  intros i [->|]%elem_of_cons; [done|by apply Hc].
Qed.

(** ** Each command is safe among the others. *)

Abbreviation safe b := (wp exec Inv (Rel b)).

(** A job the command saw stored: it is still there, maybe changed since. *)
Definition snap (w : World) (j : Job) : Prop := exists p, stored w j.(j_id) p /\ rtc evo j p.

Lemma snap_rel b w w' j : Rel b w w' -> snap w j -> snap w' j.
Proof.
  intros [H _] (p & Hp & Hr). destruct (ev_chain _ _ H _ _ Hp) as (p' & Hp' & Hr').
  exists p'. split; [done|]. by transitivity p.
Qed.

Lemma issued_rel b w w' id : Rel b w w' -> id ∈ w.(issued) -> id ∈ w'.(issued).
Proof. intros [H _]. apply H. Qed.

Lemma safe_newId {A} b (k : Res ID -> Prog Ans A) post w :
  (forall id w1, Rel b w w1 -> Inv w1 -> id ∈ w1.(issued) -> safe b (k (Ok id)) post w1) ->
  (forall f w1, Rel b w w1 -> Inv w1 -> outage f -> safe b (k (Err f)) post w1) ->
  safe b (Call newId k) post w.
Proof.
  intros Hok Herr. cbn. intros w1 Hr HI [id|f] w2.
  - intros (Hfresh & Hshape & ->). pose proof (inv_issue _ _ HI Hshape) as HI2.
    assert (Hr2 : Rel b w1 (mkWorld (jobs w1) (published w1) (id :: issued w1))).
    { split; [constructor; cbn; [by right|eauto using rtc_refl|eauto]|]. intros _. split; intros id' j; unfold stored; cbn; eauto. }
    split; [done|]. split; [done|]. apply Hok; [by eapply job_rel_trans|done|left].
  - intros [Ho ->]. split; [done|]. split; [apply job_rel_refl|]. by apply Herr.
Qed.

Lemma job_safe_create {A} b input job e work (k : Res unit -> Prog Ans A) post w :
  Job.create input = Ok job -> job.(j_id) ∈ w.(issued) -> told job e ->
  (forall w2, Rel b w w2 -> Inv w2 -> stored w2 job.(j_id) (saved job) -> safe b (k (Ok tt)) post w2) ->
  (forall f w2, Rel b w w2 -> Inv w2 ->
     JobStore.guard (JobStore.mkCommit JobStore.create job e work) w2.(jobs) = Err f \/ outage f ->
     safe b (k (Err f)) post w2) ->
  safe b (Call (commit (JobStore.mkCommit JobStore.create job e work)) k) post w.
Proof.
  intros Hc Hin Htold Hok Herr. cbn. intros w1 Hr HI r w2 He.
  destruct (job_exec_commit _ _ _ _ HI He) as [(pr & -> & Hg & ->)|(f & -> & -> & Hf)].
  - apply JobStore.guard_previous in Hg as [Hp [Hnone Hfree]]. cbn in Hp, Hfree |- *. rewrite Hp in Hnone.
    destruct (create_world w1 input job e HI Hc (issued_rel _ _ _ _ Hr Hin) Hnone Hfree Htold) as (HI2 & Hr2 & Hst).
    split; [done|]. split; [done|]. apply Hok; [by eapply job_rel_trans|done..].
  - split; [done|]. split; [apply job_rel_refl|]. by apply Herr.
Qed.

Lemma job_safe_update {A} b j t c e work (k : Res unit -> Prog Ans A) post w :
  snap w j -> transition j t = Ok c -> (b = true -> Job.open c = true /\ c.(j_status) <> failed) -> told c e ->
  (forall w2, Rel b w w2 -> Inv w2 -> stored w2 c.(j_id) (saved c) -> safe b (k (Ok tt)) post w2) ->
  (forall f w2, Rel b w w2 -> Inv w2 ->
     JobStore.guard (JobStore.mkCommit JobStore.update c e work) w2.(jobs) = Err f \/ outage f ->
     safe b (k (Err f)) post w2) ->
  safe b (Call (commit (JobStore.mkCommit JobStore.update c e work)) k) post w.
Proof.
  intros Hs Ht Hopen Htold Hok Herr. cbn. intros w1 Hr HI r w2 He.
  destruct (job_exec_commit _ _ _ _ HI He) as [(pr & -> & Hg & ->)|(f & -> & -> & Hf)].
  - apply JobStore.guard_previous in Hg as [Hp (p & -> & _ & Hv)]. cbn in Hp, Hv |- *. symmetry in Hp.
    destruct (snap_rel _ _ _ _ Hr Hs) as (p' & Hp' & Hpr).
    destruct (transition_stable _ _ _ Ht) as (Hid & _). unfold stored in Hp'. rewrite <- Hid, Hp in Hp'. injection Hp' as <-.
    destruct (update_world w1 j t c e p HI Hp Hpr Ht Hv Htold) as (_ & HI2 & Hev & Hrel & Hst).
    assert (Hr2 : Rel b w1 (mkWorld (JsMap.set (j_id c) (saved c) (jobs w1)) (published w1 ++ [e]) (issued w1))).
    { destruct b; [destruct (Hopen eq_refl); by apply Hrel|by split]. }
    split; [done|]. split; [done|]. apply Hok; [by eapply job_rel_trans|done..].
  - split; [done|]. split; [apply job_rel_refl|]. by apply Herr.
Qed.

Lemma job_read_only op : (match op with commit _ | newId => False | _ => True end) ->
  forall w1 r w2, exec op w1 r w2 -> w2 = w1.
Proof. by destruct op; cbn; intros ? w1 r w2; intuition. Qed.

(** Case on what the next call answers. *)
Ltac call :=
  cbn [bind perform orElse depends require pure_ nextId jobEvent workflowEvent findOpen mbind Prog_bind];
  lazymatch goal with
  | |- wp _ _ _ (Call newId _) _ _ => apply safe_newId; [intros ?id ?w ?Hrel ?HI ?Hid|intros ?f ?w ?Hrel ?HI ?Hf]
  | |- wp _ _ _ (Call (commit _) _) _ _ => idtac
  | |- wp _ _ _ (Call _ _) _ _ => apply (wp_read _ _ _ (job_rel_refl _)); [by apply job_read_only|intros ?r ?w ?Hrel ?HI ?He]
  end; cbn [mapError bind].

(** The state a transition leads to is the one its event reports. *)
Lemma transition_reports j a at_ code c :
  transition j (transitionOf a at_ code) = Ok c -> c.(j_status) = reports (actionEvent a).
Proof.
  destruct a; cbn; unfold start, complete, Job.fail, Job.retry, cancel; intros H; by ok_branches H.
Qed.

Lemma told_transition j a at_ code c id t work identityId subject tenant e :
  transition j (transitionOf a at_ code) = Ok c ->
  Events.create id (JOB_EVENT_TYPES (actionEvent a)) t work (changedPayload identityId c) subject tenant = Ok e -> told c e.
Proof. intros Ht He. repeat eexists; [apply pub_transition|by eapply transition_reports|exact He]. Qed.

Lemma told_expired j at_ code c id t work subject tenant e :
  Job.fail j at_ code = Ok c ->
  Events.create id (JOB_EVENT_TYPES e_failed) t work (expiredPayload c) subject tenant = Ok e -> told c e.
Proof. intros Ht He. repeat eexists; [apply pub_expire|by apply (transition_reports j a_fail at_ code)|exact He]. Qed.

Lemma transitionJob_safe action cmd w : safe false (transitionJob action cmd) (fun _ _ => True) w.
Proof.
  unfold transitionJob. cbn [bind require]. destruct (operationIs _ _); [|done].
  call. destruct r as [access|]; [|done]. cbn [mapError]. destruct (administers access); [|done].
  call. destruct r as [found|]; [|done]. cbn [mapError]. destruct (ownedBy _ found) as [j|] eqn:Eo; [|done].
  assert (Hsn : snap w1 j).
  { destruct He0 as [He0 _]. cbn in He0. subst found. unfold ownedBy in Eo.
    destruct (JobStore.jobById _ _) as [x|] eqn:Ex; [|done]. destruct (bool_decide _); [|done]. injection Eo as ->.
    exists j. split; [|apply rtc_refl]. unfold stored. by rewrite (proj2 (inv_keyed _ HI0) _ _ Ex). }
  call. destruct (transition j _) as [c|] eqn:Et; [|done].
  call; [|done]. destruct (Events.create _ _ _ _ _ _ _) as [e|] eqn:Ee; [|done]. cbn [mapError].
  eapply job_safe_update; [|exact Et|done|by eapply told_transition|done|done].
  eapply snap_rel; [|eapply snap_rel; [|exact Hsn]]; done.
Qed.

Lemma submitJob_safe cmd w : safe false (submitJob cmd) (fun _ _ => True) w.
Proof.
  unfold submitJob. cbn [bind require]. destruct (operationIs _ _); [|done].
  call. destruct r as [access|]; [|done]. cbn [mapError]. destruct (administers access); [|done].
  call. call; [|done]. destruct (Job.create _) as [job|] eqn:Ec; [|done].
  assert (Hj : job.(j_id) = id) by (destruct (create_spec _ _ Ec) as (_ & _ & Hi & _); exact Hi).
  call; [|done]. destruct (Events.create _ _ _ _ _ _ _) as [e|] eqn:Ee; [|done]. cbn [mapError].
  eapply job_safe_create; [exact Ec| | |done|done]; [rewrite Hj; by eapply issued_rel|].
  destruct (create_spec _ _ Ec) as (_ & _ & _ & _ & _ & _ & Hq). repeat eexists; [apply pub_submit|exact Hq|exact Ee].
Qed.

Lemma expireAll_safe now_ work js_ expired skipped w :
  Forall (snap w) js_ -> safe false (expireAll now_ work js_ expired skipped) (fun _ _ => True) w.
Proof.
  revert expired skipped w. induction js_ as [|j js_ IH]; intros expired skipped w Hs; [done|].
  apply Forall_cons in Hs as [Hj Hs]. cbn [expireAll]. destruct (Job.fail j _ _) as [c|] eqn:Et; [|by apply IH].
  call; [|done]. destruct (Events.create _ _ _ _ _ _ _) as [e|] eqn:Ee; [|done]. cbn [mapError].
  assert (Hrest : forall w2, Rel false w0 w2 -> Forall (snap w2) js_).
  { intros w2 Hr2. eapply Forall_impl; [exact Hs|]. intros x Hx. eapply snap_rel; [|exact Hx]. by eapply job_rel_trans. }
  eapply (job_safe_update _ j (Fail now_ (VStr JOB_TIMED_OUT))); [by eapply snap_rel|exact Et|done|by eapply told_expired| |].
  - intros w2 Hr2 _ _. apply IH. by apply Hrest.
  - intros f w2 Hr2 _ _. cbn. destruct (hasType f _); [|done]. apply IH. by apply Hrest.
Qed.

Lemma overdue_listed startedBefore limit s j :
  JobStore.keyed s -> j ∈ JobStore.runningStartedBefore startedBefore limit s ->
  JobStore.jobById j.(j_id) s = Some j /\ JobStore.overdue startedBefore j = true.
Proof.
  intros [Hw Hk] Hin. unfold JobStore.runningStartedBefore, JobStore.sliceTo in Hin.
  apply (fun H => elem_of_sublist _ _ _ H (sublist_take _ _)) in Hin.
  rewrite (sort_by_perm _ _) in Hin. apply list_elem_of_filter in Hin as [Ho Hin]. split; [|done].
  apply JsMap.elem_values in Hin as [id Hid]; [|done]. pose proof (Hk _ _ Hid) as <-. exact Hid.
Qed.

Lemma expireStaleJobs_safe ms limit work w : safe false (expireStaleJobs ms limit work) (fun _ _ => True) w.
Proof.
  unfold expireStaleJobs. call. call. destruct r0 as [js_|]; [|done]. cbn [mapError].
  apply expireAll_safe. destruct He0 as [He0 _]. cbn in He0. subst js_. apply Forall_forall. intros j Hj.
  apply overdue_listed in Hj as [Hj _]; [|by apply inv_keyed]. exists j. split; [done|apply rtc_refl].
Qed.

(** ** Submissions by a workflow. *)

Abbreviation TAKEN := "job.subject_taken"%string.
Abbreviation STALE := "job.stale_write"%string.

(** The failures that tell of a race with another command. *)
Definition contested (f : Failure) : bool := hasType f TAKEN || hasType f STALE.
Definition inSlot (cmd : SubmitWorkflowJobCommand) (j : Job) : Prop :=
  JobStore.occupies cmd.(sw_organizationId) cmd.(sw_kind) cmd.(sw_subject) j = true.

(** The slot's open job is stored under [id]. *)
Definition held (cmd : SubmitWorkflowJobCommand) (id : ID) (w : World) : Prop :=
  exists p, stored w id p /\ inSlot cmd p.

(** The job the submission asks for is stored under [id]. *)
Definition named (cmd : SubmitWorkflowJobCommand) (id : ID) (w : World) : Prop :=
  exists p, stored w id p /\ p.(j_organizationId) = cmd.(sw_organizationId) /\ p.(j_kind) = cmd.(sw_kind)
    /\ p.(j_subject) = Some cmd.(sw_subject).

(** The command names its subject by an identifier in canonical form. *)
Definition namesSubject (cmd : SubmitWorkflowJobCommand) : Prop :=
  parse (VStr cmd.(sw_subject).(sj_id)) = Ok cmd.(sw_subject).(sj_id).

(** The slot was held by a failed job at the start. *)
Definition raced (start : World) (cmd : SubmitWorkflowJobCommand) : Prop :=
  exists id j, stored start id j /\ inSlot cmd j /\ j.(j_status) = failed.

(** What a submission promises about its result: the job it names is the one it
    asked for; when nobody finishes jobs, that job holds the slot, and the
    submission loses to another only when both retry a failed job. *)
Definition ensured (start : World) (b : bool) (cmd : SubmitWorkflowJobCommand) (r : Res SubmitWorkflowJobResult) (w : World) : Prop :=
  (forall res, namesSubject cmd -> r = Ok res -> named cmd res.(wr_jobId) w)
  /\ (b = true -> match r with
      | Ok res => held cmd res.(wr_jobId) w
      | Err f => hasType f TAKEN = false /\ (hasType f STALE = true -> raced start cmd)
      end).

Lemma inSlot_open cmd j : inSlot cmd j -> Job.open j = true.
Proof. by intros (H & _)%JobStore.occupies_spec. Qed.

Lemma held_rel cmd id w w' : Rel true w w' -> held cmd id w -> held cmd id w'.
Proof.
  intros [Hev Hk] (p & Hp & Ho). destruct (proj1 (Hk eq_refl) _ _ Hp (inSlot_open _ _ Ho)) as (p' & Hp' & Ho').
  destruct (ev_chain _ _ Hev _ _ Hp) as (p'' & Hp'' & Hr). unfold stored in *. rewrite Hp' in Hp''. injection Hp'' as <-.
  exists p'. split; [done|]. by eapply evo_occupies.
Qed.

Lemma named_rel b cmd id w w' : Rel b w w' -> named cmd id w -> named cmd id w'.
Proof.
  intros [Hev _] (p & Hp & ? & ? & ?). destruct (ev_chain _ _ Hev _ _ Hp) as (p' & Hp' & Hr).
  apply job_evo_stable in Hr as (_ & ? & ? & ? & _). exists p'. split_and!; congruence.
Qed.

Lemma held_named cmd id w : held cmd id w -> named cmd id w.
Proof. intros (p & Hp & (_ & ? & ? & ?)%JobStore.occupies_spec). by exists p. Qed.

Lemma occupied_found cmd id w :
  Inv w -> held cmd id w ->
  JobStore.openJobBySubject cmd.(sw_organizationId) cmd.(sw_kind) cmd.(sw_subject) w.(jobs) <> None.
Proof.
  intros HI (p & Hp & Ho) Hn. unfold inSlot in Ho.
  by rewrite (JobStore.openJobBySubject_none _ _ _ _ _ _ (inv_keyed _ HI) Hn Hp) in Ho.
Qed.

Lemma hasType_dependency t e op : t = TAKEN \/ t = STALE -> hasType (dependencyFailure e op) t = hasType e t.
Proof.
  intros Ht. unfold dependencyFailure, Vocabulary.dependencyIn, Vocabulary.knownIn, hasType at 2.
  destruct (f_type e) as [u|] eqn:Eu; [|by destruct Ht as [-> | ->], (Errors.f_kind e)].
  destruct (find_first _ knownTypes) as [[k kd]|] eqn:Ef.
  - apply List.find_some in Ef as [Hin Hk%String.eqb_eq]. subst k.
    repeat (destruct Hin as [[= <- <-]|Hin]; [done|]). destruct Hin.
  - destruct (String.eqb u t) eqn:E; [apply String.eqb_eq in E as ->; by destruct Ht as [-> | ->]; vm_compute in Ef|].
    by destruct Ht as [-> | ->], (Errors.f_kind e).
Qed.

Lemma contested_dependency e op : contested (dependencyFailure e op) = contested e.
Proof. unfold contested. rewrite !hasType_dependency by auto. done. Qed.

Lemma event_error id ty t work pl sub ten f : Events.create id ty t work pl sub ten = Err f -> contested f = false.
Proof.
  unfold Events.create, Events.decode. destruct (_ <? _); [by intros [= <-]|].
  destruct (Events.decodeBody _); [done|]. by intros [= <-].
Qed.

Lemma create_error input f : Job.create input = Err f -> contested f = false.
Proof.
  unfold Job.create. destruct (kind (c_kind input)) as [k|x] eqn:Ek; cbn [mbind Result_bind].
  2: { intros [= ->]. unfold kind in Ek. destruct (c_kind input); try (by injection Ek as <-).
       destruct (matchesName _ _); [done|by injection Ek as <-]. }
  destruct (attempts (c_maxAttempts input)) as [n|x] eqn:Ea; cbn [mbind Result_bind].
  2: { intros [= ->]. unfold attempts in Ea. destruct (c_maxAttempts input); try (by injection Ea as <-); [done|].
       destruct (_ || _); [by injection Ea as <-|done]. }
  destruct (subject (c_subject input)) as [sj|x] eqn:Es; cbn [mbind Result_bind].
  2: { intros [= ->]. unfold subject in Es. destruct (c_subject input) as [| | | | | |ms]; try (by injection Es as <-); try done.
       destruct (Prelude.member "type" ms) as [[| | | |ty| |]|]; try (by injection Es as <-).
       destruct (Prelude.member "id" ms) as [[| | | |i| |]|]; try (by injection Es as <-).
       destruct (matchesName 63 ty); [destruct (parse _)|]; [done|by injection Es as <-|by injection Es as <-]. }
  destruct (negb _); [|done]. by intros [= <-].
Qed.

Lemma retry_error j t f : Job.retry j t = Err f -> contested f = false.
Proof.
  unfold Job.retry, transitionTime. destruct (negb (validDate t)); [by intros [= <-]|].
  destruct (date_lt _ _); [by intros [= <-]|]. cbn [mbind Result_bind].
  destruct (negb _); [by intros [= <-]|]. destruct (_ <=? _); [|done]. by intros [= <-].
Qed.

Lemma contested_none f : contested f = false -> hasType f TAKEN = false /\ hasType f STALE = false.
Proof. unfold contested. by intros [? ?]%orb_false_iff. Qed.

(** A commit is refused as taken only when another open job holds the slot. *)
Lemma guard_taken m job e work s f :
  JobStore.guard (JobStore.mkCommit m job e work) s = Err f -> hasType f TAKEN = true ->
  m = JobStore.create /\ exists sj k, job.(j_subject) = Some sj
    /\ JobStore.openJobBySubject job.(j_organizationId) job.(j_kind) sj s = Some k.
Proof.
  unfold JobStore.guard. cbn [JobStore.m_event JobStore.m_work JobStore.m_job JobStore.m_mode].
  unfold Events.assertEventWork. destruct (bool_decide _); cbn [mbind Result_bind]; [|by intros [= <-]].
  destruct m, (JobStore.jobById _ s) as [p|]; try (by intros [= <-]); try done.
  - destruct (j_subject job) as [sj|]; [|done]. destruct (JobStore.openJobBySubject _ _ _ _) as [k|] eqn:Ek; [|done]. eauto.
  - destruct (negb _); [by intros [= <-]|]. destruct (negb _); [by intros [= <-]|done].
Qed.

Lemma guard_create_stale job e work s f :
  JobStore.guard (JobStore.mkCommit JobStore.create job e work) s = Err f -> hasType f STALE = false.
Proof.
  unfold JobStore.guard. cbn [JobStore.m_event JobStore.m_work JobStore.m_job JobStore.m_mode].
  unfold Events.assertEventWork. destruct (bool_decide _); cbn [mbind Result_bind]; [|by intros [= <-]].
  destruct (JobStore.jobById _ s) as [p|]; [by intros [= <-]|].
  destruct (j_subject job) as [sj|]; [|done]. destruct (JobStore.openJobBySubject _ _ _ _) as [k|]; [by intros [= <-]|done].
Qed.

Section Submissions.
  Context (start : World) (b : bool) (Houtage : b = true -> forall f, outage f -> contested f = false).

Lemma ensured_err cmd f w : (b = true -> contested f = false) -> safe b (Ret (Err f)) (ensured start b cmd) w.
Proof. intros Hf w' _ _. split; [done|]. intros Hb. destruct (contested_none f (Hf Hb)) as [? ->]. done. Qed.

(** A failed job of the slot was failed from the start. *)
Lemma raced_failed cmd j w : Rel b start w -> b = true -> stored w j.(j_id) j -> inSlot cmd j -> j.(j_status) = failed -> raced start cmd.
Proof.
  intros Hr Hb Hj Ho Hf. destruct Hr as [Hev Hs]. destruct (proj2 (Hs Hb) _ _ Hj Hf) as (k & Hk & Hkf).
  exists j.(j_id), k. split; [done|]. split; [|done]. destruct (ev_chain _ _ Hev _ _ Hk) as (x & Hx & Hkx).
  unfold stored in *. rewrite Hj in Hx. injection Hx as <-. apply job_evo_stable in Hkx as (_ & Eo & Ek & Es & _ & _ & Hop).
  unfold inSlot in *. apply JobStore.occupies_spec in Ho as (Hopen & Ho' & Hk' & Hsj). apply JobStore.occupies_spec.
  split_and!; [by apply Hop|congruence..].
Qed.

(** A submission that answers a job. *)
Lemma ensured_ok cmd res w w' :
  (namesSubject cmd -> named cmd res.(wr_jobId) w) -> (b = true -> held cmd res.(wr_jobId) w) -> Rel b w w' ->
  ensured start b cmd (Ok res) w'.
Proof.
  intros Hn Hh Hr. split; [intros ? Hs [= <-]; eapply named_rel; [exact Hr|by apply Hn]|].
  intros Hb. rewrite Hb in Hr. eapply held_rel; [exact Hr|by apply Hh].
Qed.

Lemma reuse_safe cmd j w :
  snap w j -> named cmd j.(j_id) w -> (b = true -> held cmd j.(j_id) w) -> (b = true -> j.(j_status) = failed -> raced start cmd) -> safe b (reuse j cmd) (ensured start b cmd) w.
Proof.
  intros Hs Hn Hh Hrace. unfold reuse. destruct (bool_decide_reflect (j_status j = failed)) as [Hf|Hf]; cbn [negb].
  2: { intros w' Hr _. by eapply ensured_ok. }
  call. destruct (Job.retry j r) as [c|f] eqn:Et; [|apply ensured_err; intros _; by eapply retry_error].
  call. 2: { cbn. by apply ensured_err. }
  destruct (Events.create _ _ _ _ _ _ _) as [e|f] eqn:Ee; cbn [mapError].
  2: { apply ensured_err. intros Hb. rewrite contested_dependency. by eapply event_error. }
  assert (Hst := transition_stable j (Retry r) c Et). destruct Hst as (Hci & _).
  assert (Hq : c.(j_status) = queued) by (unfold Job.retry in Et; by ok_branches Et).
  eapply (job_safe_update _ j (Retry r)); [|exact Et| | | |].
  - eapply snap_rel; [|eapply snap_rel; [|exact Hs]]; done.
  - intros _. unfold Job.open. by rewrite Hq.
  - repeat eexists; [apply pub_workflow_retry|exact Hq|exact Ee].
  - intros w2 Hr2 _ _ w' Hr' _. cbn. apply (ensured_ok _ _ w); [done|done|].
    eapply job_rel_trans; [|exact Hr']. eapply job_rel_trans; [|exact Hr2]. by eapply job_rel_trans.
  - intros f w2 Hr2 HI2 Hw. cbn. intros w3 _ _. split; [done|]. intros Hb. rewrite !hasType_dependency by auto. split; [|intros _; by apply Hrace].
    destruct Hw as [Hg|Ho]; [|by destruct (contested_none f (Houtage Hb f Ho))]. destruct (hasType f TAKEN) eqn:Ety; [|done].
    by destruct (guard_taken _ _ _ _ _ _ Hg Ety).
Qed.

(** Looking the slot up. *)
Lemma found_slot cmd w r :
  Inv w -> answers (JobStore.openJobBySubject cmd.(sw_organizationId) cmd.(sw_kind) cmd.(sw_subject) w.(jobs)) r ->
  forall j, r = Ok (Some j) -> snap w j /\ stored w j.(j_id) j /\ inSlot cmd j /\ held cmd j.(j_id) w.
Proof.
  intros HI Ha j ->. cbn in Ha. symmetry in Ha.
  apply JobStore.openJobBySubject_some in Ha as [Hst Ho]; [|by apply inv_keyed].
  split_and!; [by exists j|done|done|by exists j].
Qed.

Lemma recover_safe cmd f w :
  Rel b start w -> (b = true -> hasType f STALE = false) -> (b = true -> hasType f TAKEN = true -> exists id, held cmd id w) ->
  safe b (recover f cmd) (ensured start b cmd) w.
Proof.
  intros Hstart Hstale Hh. unfold recover. destruct (hasType f TAKEN) eqn:Ef.
  2: { apply ensured_err. intros Hb. rewrite contested_dependency. unfold contested. by rewrite Ef, Hstale. }
  call. destruct He as [He _]. destruct r as [[j|]|g]; cbn [mapError].
  - destruct (found_slot _ _ _ HI He j eq_refl) as (Hs & Hst & Ho & Hj).
    apply reuse_safe; [done|by apply held_named|done|]. intros Hb. eapply raced_failed; [by eapply job_rel_trans|done..].
  - intros w' _ _. split; [done|]. intros ->. destruct (Hh eq_refl eq_refl) as [id Hid]. exfalso.
    eapply occupied_found; [exact HI|eapply held_rel; [exact Hrel|exact Hid]|]. by symmetry.
  - apply ensured_err. intros Hb. rewrite contested_dependency. by apply Houtage.
Qed.

Lemma created_slot cmd id at_ job :
  namesSubject cmd ->
  Job.create (mkCreate id cmd.(sw_organizationId) (VStr cmd.(sw_kind)) (subjectValue (Some cmd.(sw_subject)))
    cmd.(sw_maxAttempts) at_) = Ok job ->
  job.(j_organizationId) = cmd.(sw_organizationId) /\ job.(j_kind) = cmd.(sw_kind)
  /\ job.(j_subject) = Some cmd.(sw_subject).
Proof.
  intros Hn (_ & _ & _ & Ho & Hk & Hs & _)%create_spec. cbn [c_id c_organizationId c_kind c_subject] in *.
  split; [done|]. split.
  - unfold kind in Hk. destruct (matchesName _ _); [by injection Hk as <-|done].
  - unfold namesSubject in Hn. destruct (sw_subject cmd) as [ty i]. cbn [subjectValue sj_type sj_id] in *.
    unfold subject in Hs. cbn [Prelude.member String.eqb Ascii.eqb Bool.eqb] in Hs.
    destruct (matchesName 63 ty); [|done]. rewrite Hn in Hs. by injection Hs as <-.
Qed.

Lemma submitWorkflowJob_safe cmd w :
  Rel b start w -> (b = true -> namesSubject cmd) -> safe b (submitWorkflowJob cmd) (ensured start b cmd) w.
Proof.
  intros Hstart Hname.
  unfold submitWorkflowJob. cbn [bind require]. destruct (operationIs _ _); [|by apply ensured_err].
  call. destruct He as [He _]. destruct r as [[j|]|g]; cbn [mapError].
  - destruct (found_slot _ _ _ HI He j eq_refl) as (Hs & Hst & Ho & Hj).
    apply reuse_safe; [done|by apply held_named|done|]. intros Hb. eapply raced_failed; [by eapply job_rel_trans|done..].
  - call. call. 2: { by apply ensured_err. }
    destruct (Job.create _) as [job|f] eqn:Ec; [|apply ensured_err; intros _; by eapply create_error].
    destruct (create_spec _ _ Ec) as (_ & Hopen & Hi & _ & _ & _ & Hq). cbn [c_id] in Hi.
    call. 2: { by apply ensured_err. }
    destruct (Events.create _ _ _ _ _ _ _) as [e|f] eqn:Ee; cbn [mapError].
    2: { apply ensured_err. intros Hb. rewrite contested_dependency. by eapply event_error. }
    cbn [bind perform]. eapply job_safe_create; [exact Ec| | | |].
    + rewrite Hi. by eapply issued_rel.
    + repeat eexists; [apply pub_workflow_submit|exact Hq|exact Ee].
    + intros w4 Hr4 HI4 Hst w' Hr' _. apply (ensured_ok _ _ w4); [| |done].
      * intros Hn. exists (saved job). split; [done|]. by apply (created_slot cmd _ _ _ Hn Ec).
      * intros ->. exists (saved job). split; [done|].
        apply JobStore.occupies_spec. split; [exact Hopen|]. by apply (created_slot cmd _ _ _ (Hname eq_refl) Ec).
    + intros f w4 Hr4 HI4 Hg. apply recover_safe; [repeat (eapply job_rel_trans; [|eassumption]); apply job_rel_refl| |].
      { intros Hb. destruct Hg as [Hg|Hg]; [|by destruct (contested_none f (Houtage Hb f Hg))]. by eapply guard_create_stale. }
      intros -> Ht. destruct Hg as [Hg|Hg]; [|by destruct (contested_none f (Houtage eq_refl f Hg)); congruence].
      destruct (guard_taken _ _ _ _ _ _ Hg Ht) as (_ & sj & k & Hsk & Hop).
      destruct (created_slot cmd _ _ _ (Hname eq_refl) Ec) as (Eo & Ek & Es). rewrite Es in Hsk. injection Hsk as <-.
      rewrite Eo, Ek in Hop. apply JobStore.openJobBySubject_some in Hop as [Hst Hoc]; [|by apply inv_keyed].
      exists k.(j_id), k. done.
  - apply ensured_err. intros Hb. rewrite contested_dependency. by apply Houtage.
Qed.
End Submissions.

(** ** Every command of the module, and every schedule. *)

Inductive JobCommand : Type :=
| cSubmit (c : SubmitJobCommand)
| cTransition (a : Action) (c : TransitionJobCommand)
| cWorkflow (c : SubmitWorkflowJobCommand)
| cExpire (runningTimeoutMs limit : Z) (work : WorkContext)
| cList (q : ListJobsQuery).

Definition forget {A} (p : Command A) : Command unit := bind p (fun r => Ret (r ≫= fun _ => Ok tt)).
Definition program (c : JobCommand) : Command unit :=
  match c with
  | cSubmit c => forget (submitJob c)
  | cTransition a c => forget (transitionJob a c)
  | cWorkflow c => forget (submitWorkflowJob c)
  | cExpire t l w => forget (expireStaleJobs t l w)
  | cList q => forget (listJobs q)
  end.

Lemma listJobs_safe q w : safe false (listJobs q) (fun _ _ => True) w.
Proof.
  unfold listJobs. cbn [bind orElse pure_]. destruct (request _ _ _) as [p|]; [|done]. cbn [mapError bind]. call.
  destruct r as [access|]; [|done]. cbn [mapError bind require]. destruct (negb (isNull access)); [|done]. call. by destruct r.
Qed.

Lemma job_program_safe c w : Inv w -> safe false (program c) (fun _ _ => True) w.
Proof.
  intros HI. destruct c; (apply wp_bind; [apply job_rel_refl| |done]);
    (eapply wp_weaken; [|first [apply submitJob_safe|apply transitionJob_safe|by apply (submitWorkflowJob_safe w); first [apply job_rel_refl|done]
      |apply expireStaleJobs_safe|apply listJobs_safe]]); done.
Qed.

(** C6. Jobs change only by legal steps, one at a time. Run any number of the
    module's commands together, in any interleaving of their port calls, with
    dependencies failing at will: no job is lost; each stored job went through a
    chain of legal transitions, each committed exactly once (no lost update); new
    jobs started with a creation; every job is one the storage layer reads back;
    at most one open job exists per organization, kind and subject; and the events
    published are as many as the changes, each telling, with the type and the
    payload for it, of a state its job went through. *)
Theorem jobs_history (commands : list JobCommand) (w w' : World) (rest : list (Command unit))
    (Hstart : Inv w) (Hrun : rtc (pool_step exec) (w, program <$> commands) (w', rest)) :
  Inv w' /\ evolves w w'.
Proof.
  destruct (pool_safe exec Inv (Rel false) (job_rel_refl false) (job_rel_trans false) (fun _ _ _ => True)
    w (program <$> commands) w' rest Hrun Hstart) as (HI & [Hev _] & _); [|by split].
  intros i p Hp. apply list_lookup_fmap_Some in Hp as (c & -> & _). by apply job_program_safe.
Qed.

(** C11. Concurrent submissions converge. When any number of workflow
    submissions run together, in any interleaving, each success names the open
    job of its subject, and submissions for one subject that succeed name the same
    job, which is stored and open at the end. None fails because another one
    created the subject's job first; and one fails because another changed the job
    it read only where the subject's job had failed before they started, so that
    both were to retry it ([retry_race_fails]). *)
Theorem submissions_converge (commands : list SubmitWorkflowJobCommand) (w w' : World)
    (rest : list (Command SubmitWorkflowJobResult))
    (Houtages : forall f, outage f -> contested f = false)
    (Hnames : Forall namesSubject commands)
    (Hstart : Inv w) (Hrun : rtc (pool_step exec) (w, submitWorkflowJob <$> commands) (w', rest)) :
  (forall i cmd r, commands !! i = Some cmd -> rest !! i = Some (Ret r) ->
     match r with
     | Ok res => held cmd res.(wr_jobId) w'
     | Err f => hasType f TAKEN = false /\ (hasType f STALE = true -> raced w cmd)
     end)
  /\ (forall i k c c' res res', commands !! i = Some c -> commands !! k = Some c' ->
        rest !! i = Some (Ret (Ok res)) -> rest !! k = Some (Ret (Ok res')) ->
        c.(sw_organizationId) = c'.(sw_organizationId) -> c.(sw_kind) = c'.(sw_kind) ->
        c.(sw_subject) = c'.(sw_subject) -> res.(wr_jobId) = res'.(wr_jobId)).
Proof.
  destruct (pool_safe exec Inv (Rel true) (job_rel_refl true) (job_rel_trans true)
    (fun i r x => forall cmd, commands !! i = Some cmd -> ensured w true cmd r x)
    w (submitWorkflowJob <$> commands) w' rest Hrun Hstart) as (HI & _ & Hpost).
  { intros i p Hp. apply list_lookup_fmap_Some in Hp as (c & -> & Hc). eapply wp_weaken.
    2: { apply (submitWorkflowJob_safe w true); [done|apply job_rel_refl|]. intros _. by eapply (proj1 (Forall_lookup _ _) Hnames). }
    intros a w1 Ha cmd Hcmd. rewrite Hc in Hcmd. by injection Hcmd as <-. }
  assert (Hone : forall i cmd r, commands !! i = Some cmd -> rest !! i = Some (Ret r) ->
     match r with Ok res => held cmd res.(wr_jobId) w' | Err f => hasType f TAKEN = false /\ (hasType f STALE = true -> raced w cmd) end).
  { intros i cmd r Hc Hr. exact (proj2 (Hpost i r Hr cmd Hc) eq_refl). }
  split; [exact Hone|]. intros i k c c' res res' Hc Hc' Hr Hr' Ho Hk Hs.
  destruct (Hone _ _ _ Hc Hr) as (p & Hp & Hop), (Hone _ _ _ Hc' Hr') as (q & Hq & Hoq). unfold inSlot in *.
  rewrite <- Ho, <- Hk, <- Hs in Hoq. by eapply (inv_unique _ HI).
Qed.
(** C32. What a transition command does. A success means that the session's
    identity administers the organization, that the job was stored and belongs
    to that organization, and that the job's own transition allowed the change;
    exactly that job is replaced, by the transition's result at the next
    version, and exactly one event, of the action's type, is published; the
    answer describes the stored job. A failure, whatever its cause, changes
    neither the jobs nor what is published. *)
Theorem transition_effect (action : Action) (cmd : TransitionJobCommand) (w w' : World)
    (r : Res TransitionJobResult)
    (Hstart : Inv w) (Hrun : runs exec (transitionJob action cmd) w r w') :
  match r with
  | Ok res =>
      operationIs cmd.(t_work) (actionOperation action) = true
      /\ exists a j at_ c e,
        accessOf cmd.(t_sessionToken) cmd.(t_organizationId) (Ok (Some a)) /\ administers (Some a) = true
        /\ stored w cmd.(t_jobId) j /\ j.(j_organizationId) = cmd.(t_organizationId)
        /\ transition j (transitionOf action at_ cmd.(t_failureCode)) = Ok c
        /\ w'.(jobs) = JsMap.set cmd.(t_jobId) (saved c) w.(jobs)
        /\ w'.(published) = w.(published) ++ [e] /\ e.(Events.e_type) = JOB_EVENT_TYPES (actionEvent action)
        /\ res.(tr_jobId) = cmd.(t_jobId) /\ res.(tr_status) = c.(j_status) /\ res.(tr_attempts) = c.(j_attempts)
  | Err _ => w'.(jobs) = w.(jobs) /\ w'.(published) = w.(published)
  end.
Proof.
  unfold transitionJob in Hrun. cbn [bind require] in Hrun.
  destruct (operationIs _ _) eqn:Eop; [|by destruct Hrun as [<- ->]].
  cbn [bind perform orElse depends require pure_ nextId jobEvent runs] in Hrun.
  destruct Hrun as (access & w1 & [Hacc ->] & Hrun). destruct access as [access|]; [|by destruct Hrun as [<- ->]].
  cbn [mapError] in Hrun. destruct (administers access) eqn:Ead; [|by destruct Hrun as [<- ->]].
  destruct access as [a|]; [|done]. cbn [runs] in Hrun.
  destruct Hrun as (found & w1 & [Hfound ->] & Hrun). destruct found as [found|]; [|by destruct Hrun as [<- ->]].
  cbn [mapError] in Hrun. destruct (ownedBy _ found) as [j|] eqn:Eo; [|by destruct Hrun as [<- ->]].
  assert (Hj : stored w (t_jobId cmd) j /\ j_organizationId j = t_organizationId cmd).
  { cbn in Hfound. subst found. unfold ownedBy in Eo. unfold stored.
    destruct (JobStore.jobById _ _) as [x|]; [|done].
    destruct (bool_decide_reflect (j_organizationId x = t_organizationId cmd)); [|done]. by injection Eo as ->. }
  destruct Hj as [Hj Horg]. cbn [runs] in Hrun. destruct Hrun as (at_ & w1 & -> & Hrun).
  destruct (transition j _) as [c|] eqn:Et; [|by destruct Hrun as [<- ->]]. cbn [runs] in Hrun.
  destruct Hrun as (eid & w1 & Hid & Hrun). destruct eid as [eid|]; [|by destruct Hrun as [<- ->], Hid as [_ ->]].
  destruct Hid as (_ & Hshape & ->). cbn [mapError] in Hrun.
  destruct (Events.create _ _ _ _ _ _ _) as [e|] eqn:Ee; [|by destruct Hrun as [<- ->]]. cbn [mapError runs] in Hrun.
  destruct Hrun as (res & w1 & He & Hrun).
  pose proof (inv_issue _ _ Hstart Hshape) as HI.
  destruct (transition_stable _ _ _ Et) as (Hci & _). pose proof (proj2 (inv_keyed _ Hstart) _ _ Hj) as Hji.
  destruct (job_exec_commit _ _ _ _ HI He) as [(pr & -> & _ & ->)|(f & -> & -> & _)]; destruct Hrun as [<- ->]; [|done].
  split; [done|]. exists a, j, at_, c, e. rewrite Ead. destruct (Events.create_type _ _ _ _ _ _ _ _ Ee) as [Hty _].
  cbn. by rewrite Hci, Hji.
Qed.

(** ** The reaper. *)

(** What one pass of the reaper may do to the jobs of [w]: leave a job as it is,
    or fail one that was overdue, with the time-out code. *)
Definition reaped (now_ startedBefore : Date) (w w' : World) : Prop :=
  forall id j', stored w' id j' ->
    stored w id j'
    \/ exists j started c, stored w id j /\ j.(j_status) = running
       /\ j.(j_startedAt) = Some started /\ date_lt started startedBefore = true
       /\ Job.fail j now_ (VStr JOB_TIMED_OUT) = Ok c /\ j' = saved c.

Lemma reap_loop now_ startedBefore work js_ n k r w w0 w' :
  Inv w -> NoDup (j_id <$> js_) ->
  Forall (fun j => stored w0 j.(j_id) j /\ stored w j.(j_id) j /\ JobStore.overdue startedBefore j = true) js_ ->
  reaped now_ startedBefore w0 w ->
  runs exec (expireAll now_ work js_ n k) w r w' ->
  Inv w' /\ reaped now_ startedBefore w0 w'
  /\ (forall id j, stored w id j -> id ∉ (j_id <$> js_) -> stored w' id j)
  /\ match r with
     | Ok (n', k') => n' + k' = n + k + Z.of_nat (length js_) /\ n <= n' /\ k <= k'
         /\ Z.of_nat (length w'.(published)) - Z.of_nat (length w.(published)) = n' - n
     | Err _ => True
     end.
Proof.
  revert n k w. induction js_ as [|j js_ IH]; intros n k w HI Hnd Hall Hre Hrun; cbn [expireAll] in Hrun.
  { destruct Hrun as [<- ->]. split_and!; try done; cbn; lia. }
  cbn in Hnd. apply NoDup_cons in Hnd as [Hnin Hnd]. apply Forall_cons in Hall as [(Hj0 & Hj & Hod) Hall].
  assert (Hmore : forall w1 n1 k1, Inv w1 -> reaped now_ startedBefore w0 w1 ->
    (forall id x, stored w id x -> id <> j.(j_id) -> stored w1 id x) ->
    n <= n1 -> k <= k1 -> n1 + k1 = n + k + 1 ->
    Z.of_nat (length w1.(published)) - Z.of_nat (length w.(published)) = n1 - n ->
    runs exec (expireAll now_ work js_ n1 k1) w1 r w' ->
    Inv w' /\ reaped now_ startedBefore w0 w'
    /\ (forall id x, stored w id x -> id ∉ (j_id <$> j :: js_) -> stored w' id x)
    /\ match r with
       | Ok (n', k') => n' + k' = n + k + Z.of_nat (length (j :: js_)) /\ n <= n' /\ k <= k'
           /\ Z.of_nat (length w'.(published)) - Z.of_nat (length w.(published)) = n' - n
       | Err _ => True
       end).
  { intros w1 n1 k1 HI1 Hre1 Hkeep Hn Hk Hnk Hpub Hrun1.
    destruct (IH n1 k1 w1 HI1 Hnd) as (HI' & Hre' & Hkeep' & Hcount); [|done|done|].
    - apply Forall_forall. intros x Hx. destruct (proj1 (Forall_forall _ _) Hall x Hx) as (Hx0 & Hxw & Hxo).
      split; [done|]. split; [|done]. apply Hkeep; [done|]. intros Heq. apply Hnin. rewrite <- Heq. by apply list_elem_of_fmap_2.
    - split; [done|]. split; [done|]. split.
      + intros id x Hx Hid. cbn in Hid. apply not_elem_of_cons in Hid as [? ?]. apply Hkeep'; [by apply Hkeep|done].
      + destruct r as [[n' k']|]; [|done]. cbn [length]. lia. }
  destruct (Job.fail j now_ _) as [c|] eqn:Et.
  2: { apply (Hmore w n (k + 1)); try done; lia. }
  cbn [bind perform orElse depends nextId jobEvent runs] in Hrun.
  destruct Hrun as (eid & w1 & Hid & Hrun).
  destruct eid as [eid|]; [|destruct Hid as [_ ->], Hrun as [<- ->]; split_and!; try done; eauto].
  destruct Hid as (_ & Hshape & ->). cbn [mapError] in Hrun. pose proof (inv_issue _ _ HI Hshape) as HI1.
  destruct (Events.create _ _ _ _ _ _ _) as [e|] eqn:Ee; [|destruct Hrun as [<- ->]; split_and!; try done; eauto].
  cbn [mapError runs] in Hrun. destruct Hrun as (res & w1 & He & Hrun).
  destruct (job_exec_commit _ _ _ _ HI1 He) as [(pr & -> & Hg & ->)|(f & -> & -> & _)]; cbn in Hrun.
  - assert (Hci : j_id c = j_id j) by (by destruct (transition_stable j (Fail now_ (VStr JOB_TIMED_OUT)) c Et)).
    apply JobStore.guard_previous in Hg as [Hp (p & -> & _ & Hv)]. cbn in Hp, Hv. symmetry in Hp.
    rewrite Hci in Hp. assert (p = j) as -> by (unfold stored, JobStore.jobById in Hj; congruence).
    assert (Hst1 : stored (mkWorld (jobs w) (published w) (eid :: issued w)) (j_id c) j) by (unfold stored; by rewrite Hci).
    destruct (update_world _ j (Fail now_ (VStr JOB_TIMED_OUT)) c e j HI1 Hst1 (rtc_refl _ _) Et Hv (told_expired _ _ _ _ _ _ _ _ _ _ Et Ee)) as (_ & HI2 & _).
    apply (Hmore _ (n + 1) k HI2); [| |lia|lia|lia| |exact Hrun].
    + intros id x Hx. unfold stored in Hx. cbn in Hx. rewrite JobStore.jobById_set, Hci in Hx.
      destruct (decide _) as [<-|]; [|by apply Hre]. injection Hx as <-. right.
      unfold JobStore.overdue in Hod. apply andb_true_iff in Hod as [Hrun' Hsa]. apply bool_decide_eq_true in Hrun'.
      destruct (j_startedAt j) as [d|] eqn:Ed; [|done]. by exists j, d, c.
    + intros id x Hx Hne. unfold stored. cbn. rewrite JobStore.jobById_set, decide_False by congruence. done.
    + cbn. rewrite length_app. cbn. lia.
  - destruct (hasType f _); [|destruct Hrun as [<- ->]; split_and!; try done; eauto].
    apply (Hmore _ n (k + 1) HI1); try done; cbn; lia.
Qed.

Lemma runningStartedBefore_listed startedBefore limit s :
  JobStore.keyed s ->
  NoDup (j_id <$> JobStore.runningStartedBefore startedBefore limit s)
  /\ (0 <= limit -> Z.of_nat (length (JobStore.runningStartedBefore startedBefore limit s)) <= limit).
Proof.
  intros [Hw Hk]. unfold JobStore.runningStartedBefore, JobStore.sliceTo. split.
  - eapply sublist_NoDup; [|apply fmap_sublist, sublist_take]. rewrite sort_by_perm.
    eapply sublist_NoDup; [|apply fmap_sublist, sublist_filter].
    by apply (JsMap.NoDup_values j_id).
  - intros Hl. rewrite (proj2 (Z.ltb_ge _ _)) by lia. rewrite length_take. lia.
Qed.

(** The reaper fails exactly what it may. A pass over the jobs left running
    past the timeout changes a job only by failing it, with the time-out code,
    and only when it was running since before the cut-off; it handles at most
    the limit; every job it lists is counted once, expired or skipped; and one
    event is published per expired job. *)
Theorem reaper_effect (ms limit : Z) (work : WorkContext) (w w' : World) (r : Res (Z * Z))
    (Hlimit : 0 <= limit) (Hstart : Inv w) (Hrun : runs exec (expireStaleJobs ms limit work) w r w') :
  Inv w' /\ exists now_,
    reaped now_ (minusMs now_ ms) w w'
    /\ match r with
       | Ok (expired, skipped) =>
           0 <= expired /\ 0 <= skipped /\ expired + skipped <= limit
           /\ expired + skipped = Z.of_nat (length (JobStore.runningStartedBefore (minusMs now_ ms) limit w.(jobs)))
           /\ Z.of_nat (length w'.(published)) = Z.of_nat (length w.(published)) + expired
       | Err _ => True
       end.
Proof.
  unfold expireStaleJobs in Hrun. cbn [bind perform orElse depends runs] in Hrun.
  destruct Hrun as (now_ & w1 & Hnow & Hrun). cbn in Hnow. subst w1.
  destruct Hrun as (listed & w1 & [Ha ->] & Hrun). destruct listed as [js_|f]; cbn [mapError] in Hrun.
  2: { destruct Hrun as [<- ->]. split; [done|]. exists now_. split; [|done]. intros id j Hj. by left. }
  cbn in Ha. subst js_. destruct (runningStartedBefore_listed (minusMs now_ ms) limit (jobs w) (inv_keyed _ Hstart)) as [Hnd Hlen].
  destruct (reap_loop now_ (minusMs now_ ms) work _ 0 0 r w w w' Hstart Hnd) as (HI & Hre & _ & Hc); [| |exact Hrun|].
  - apply Forall_forall. intros j [Hj Ho]%overdue_listed; [done|by apply inv_keyed].
  - intros id j Hj. by left.
  - split; [done|]. exists now_. split; [done|]. destruct r as [[n k]|]; [|done].
    specialize (Hlen Hlimit). lia.
Qed.

(** A lost retry race is an error. Two submissions may both find the
    subject's failed job; when one has queued it again, the other, which still
    retries the version it read, is refused by the version check and fails,
    changing nothing, although the subject now has exactly the open job it asked
    for. *)
Theorem retry_race_fails (cmd : SubmitWorkflowJobCommand) (j p : Job) (w w' : World)
    (r : Res SubmitWorkflowJobResult)
    (Hstart : Inv w) (Hfailed : j.(j_status) = failed) (Hstored : stored w j.(j_id) p)
    (Hmoved : p.(j_version) <> j.(j_version)) (Hrun : runs exec (reuse j cmd) w r w') :
  isOk r = false /\ w'.(jobs) = w.(jobs) /\ w'.(published) = w.(published).
Proof.
  unfold reuse in Hrun. rewrite bool_decide_eq_true_2 in Hrun by done. cbn [negb bind perform runs] in Hrun.
  destruct Hrun as (at_ & w1 & Hw & Hrun). cbn in Hw. subst w1.
  destruct (Job.retry j at_) as [c|] eqn:Et; [|by destruct Hrun as [<- ->]].
  destruct (transition_stable j (Retry at_) c Et) as (Hid & _ & _ & _ & Hv & _).
  cbn [bind perform orElse depends pure_ nextId workflowEvent jobEvent runs] in Hrun.
  destruct Hrun as (eid & w1 & He & Hrun). destruct eid as [eid|]; [|by destruct Hrun as [<- ->], He as [_ ->]].
  destruct He as (_ & Hshape & ->). cbn [mapError bind] in Hrun. pose proof (inv_issue _ _ Hstart Hshape) as HI.
  destruct (Events.create _ _ _ _ _ _ _) as [e|]; [|by destruct Hrun as [<- ->]]. cbn [mapError bind runs] in Hrun.
  destruct Hrun as (res & w1 & He & Hrun).
  destruct (job_exec_commit _ _ _ _ HI He) as [(pr & -> & Hg & ->)|(f & -> & -> & _)]; [|by destruct Hrun as [<- ->]].
  apply JobStore.guard_previous in Hg as [Hp (q & -> & _ & Hq)]. cbn in Hp, Hq.
  unfold stored, JobStore.jobById in Hstored. rewrite Hid, Hstored in Hp. injection Hp as ->. congruence.
Qed.

(** ** Listing an organization's jobs. *)

(** The organization's jobs, as stored. *)
Definition jobsOf (organizationId : ID) (w : World) : list Job :=
  filter (fun j => j.(j_organizationId) = organizationId) (JsMap.values w.(jobs)).

Lemma jobs_table w o : Inv w -> table JobStore.jobKey (jobsOf o w).
Proof.
  intros HI. destruct (inv_keyed _ HI) as [Hwf Hk]. split.
  - apply Forall_forall. intros j [_ (id & Hj)%JsMap.elem_values]%list_elem_of_filter; [|done].
    pose proof (Hk _ _ Hj) as <-. split; [by apply Job.wf_created, (inv_wf _ HI j.(j_id))|]. apply Events.validID_shape. by eapply (inv_ids _ HI), inv_issued.
  - apply (NoDup_fmap_1 id). rewrite <- list_fmap_compose. unfold jobsOf.
    eapply sublist_NoDup; [|apply fmap_sublist, sublist_filter]. by apply (JsMap.NoDup_values j_id).
Qed.

(** The list query as a server of pages. *)
Definition served (q : ListJobsQuery) (w : World) (cursor : option jstring) (page : Page Job) : Prop :=
  runs exec (listJobs (mkListJobs q.(lj_sessionToken) q.(lj_organizationId) q.(lj_limit) cursor)) w (Ok page) w.

(** Somebody with access to the organization. *)
Definition mayList (token : jstring) (organizationId : ID) : Prop :=
  exists a, accessOf token organizationId (Ok (Some a)).

Lemma job_served_exact q w cursor page : Inv w ->
  served q w cursor page <->
  mayList q.(lj_sessionToken) q.(lj_organizationId)
  /\ servePage JobStore.jobKey (listScope q.(lj_organizationId)) q.(lj_limit) (jobsOf q.(lj_organizationId) w) cursor = Ok page.
Proof.
  intros HI.
  assert (Hpage : forall c p, JobStore.listPage c q.(lj_organizationId) p w.(jobs) = keysetPage (jobsOf q.(lj_organizationId) w) JobStore.jobKey p).
  { intros c p. apply keysetPage_perm; [by apply jobs_table|]. apply sort_by_perm. }
  unfold served, listJobs, servePage, positionOf. cbn [lj_sessionToken lj_organizationId lj_limit lj_cursor bind orElse pure_].
  destruct (request _ _ _) as [p|]; cbn [mbind Result_bind mapError bind orElse depends perform require runs].
  2: { split; [by intros [??]|by intros [_ ?]]. }
  change (fun row => position (at_ (JobStore.jobKey row)) (id (JobStore.jobKey row))) with (fun j => position (j_createdAt j) (j_id j)).
  split.
  - intros (access & w1 & [Hacc ->] & H). destruct access as [[a|]|]; [|by destruct H..]. cbn [mapError isNull negb bind runs] in H.
    destruct H as (found & w1 & [[c Hf] ->] & H). destruct found as [found|]; [|by destruct H]. cbn in Hf. rewrite Hpage in Hf. subst found.
    cbn [mapError bind] in H. destruct (window _ _ _ _) as [pg|]; [|by destruct H]. destruct H as [[= <-] _]. split; [by exists a|done].
  - intros [[a Ha] Hp]. exists (Ok (Some a)), w. split; [done|]. cbn [mapError isNull negb bind runs].
    exists (Ok (keysetPage (jobsOf q.(lj_organizationId) w) JobStore.jobKey p)), w.
    split; [split; [exists (fun _ _ => 0); cbn; by rewrite Hpage|done]|]. cbn [mapError bind runs]. by rewrite Hp.
Qed.

(** The jobs list shows an organization its jobs, each once, in order. Pages
    are served only to somebody with access to the organization. While the store
    stays as it is, whoever has access and follows every cursor with an accepted
    page size gets to the end, and whichever way it does, the pages it was shown
    are, end to end, exactly the organization's jobs sorted by creation time and
    identifier, whatever collation the host sorts the store by. *)
Theorem jobs_listing_complete (q : ListJobsQuery) (n : Z) (w : World)
    (HI : Inv w) (Ho : matchesShape canonical q.(lj_organizationId) = true) (Hn : size q.(lj_limit) = Ok n) :
  (forall cursor page, served q w cursor page -> mayList q.(lj_sessionToken) q.(lj_organizationId))
  /\ (mayList q.(lj_sessionToken) q.(lj_organizationId) -> exists pages, browse (served q w) None pages)
  /\ (forall pages, browse (served q w) None pages ->
        concat pages = ordered JobStore.jobKey (jobsOf q.(lj_organizationId) w)
        /\ concat pages ≡ₚ jobsOf q.(lj_organizationId) w
        /\ Forall (fun p => Z.of_nat (length p) <= n) pages).
Proof.
  pose proof (job_served_exact q w) as Hs. split; [intros cursor page H; by apply Hs in H as [? _]|].
  assert (Hall : mayList q.(lj_sessionToken) q.(lj_organizationId) ->
    (exists pages, browse (served q w) None pages)
    /\ (forall pages, browse (served q w) None pages ->
          concat pages = ordered JobStore.jobKey (jobsOf q.(lj_organizationId) w) /\ Forall (fun p => Z.of_nat (length p) <= n) pages)).
  { intros Hr. apply (browse_complete _ _ (listScope q.(lj_organizationId)) q.(lj_limit)); [|by apply (scope_part (js "jobs:"))|done|by apply jobs_table].
    intros cursor page. rewrite Hs by done. naive_solver. }
  split; [apply Hall|]. intros pages Hb.
  assert (Hr : mayList q.(lj_sessionToken) q.(lj_organizationId)).
  { destruct Hb as [cursor page Hp _|cursor page c rest Hp _ _]; by apply Hs in Hp as [? _]. }
  destruct (proj2 (Hall Hr) pages Hb) as [HP HL]. split_and!; [done| |done]. rewrite HP. apply ordered_perm.
Qed.

End Exec.

(** A world with one queued job, and a process where a dependency may be
    unavailable and anybody is an owner. *)
Definition sample_access (token : jstring) (organizationId : ID) (r : Res (option Access)) : Prop :=
  r = Ok (Some (mkAccess organizationId (sample_uuid "8") owner)).
Definition sample_outage (f : Failure) : Prop := f = fail_with unavailable "down" "db.down".
Definition sample_submitted : Events.Envelope :=
  resultOr Events.sample_envelope (Events.create (sample_uuid "4") (JOB_EVENT_TYPES e_submitted) (Int 1000)
    Events.sample_context (workflowPayload JobStore.sample_job) None (Some (sample_uuid "9"))).
Definition sample_world : World :=
  mkWorld [(sample_uuid "5", saved JobStore.sample_job)] [sample_submitted] [sample_uuid "5"].
Definition sample_workflow_work : WorkContext :=
  let w := sample_work in
  mkContext (mkWork w.(w_workId) w.(w_correlationId) w.(w_correlationSource) w.(w_causation) w.(w_origin)
    (js "job.submit.workflow") w.(w_attribution) w.(w_depth) w.(w_replay)).
Definition sample_request : SubmitWorkflowJobCommand :=
  mkWorkflow (sample_uuid "9") (js "document.process") (mkSubject (js "document") (sample_uuid "4"))
    VUndefined sample_workflow_work.

Lemma sample_stored id j : stored sample_world id j -> id = sample_uuid "5" /\ j = saved JobStore.sample_job.
Proof.
  unfold stored, JobStore.jobById. cbn [jobs sample_world JsMap.get]. destruct (decide _) as [->|]; [|done]. by intros [= <-].
Qed.

Lemma sample_wf : Job.wf JobStore.sample_job.
Proof. constructor; try (vm_compute; reflexivity); vm_compute; (congruence || split; congruence). Qed.

Lemma sample_submitted_told : told JobStore.sample_job sample_submitted.
Proof.
  exists e_submitted. do 6 eexists. split; [apply pub_workflow_submit|]. split; [reflexivity|].
  apply resultOr_ok. vm_compute. reflexivity.
Qed.

Lemma job_sample_inv : Inv sample_world.
Proof.
  constructor.
  - exact (JobStore.keyed_set (saved JobStore.sample_job) [] JobStore.job_keyed_nil).
  - intros id j [-> _]%sample_stored. left.
  - intros a b j k o kd sj [-> _]%sample_stored [-> _]%sample_stored. done.
  - done.
  - intros id j [_ ->]%sample_stored. constructor; try (vm_compute; reflexivity); vm_compute; (congruence || split; congruence).
  - intros id ->%list_elem_of_singleton. vm_compute. reflexivity.
  - constructor; [|constructor]. exists JobStore.sample_job, (saved JobStore.sample_job).
    split; [apply sample_wf|]. split; [apply sample_submitted_told|]. split; [vm_compute; reflexivity|apply rtc_refl].
Qed.

Definition sample_answer : Res (option Job) := Ok (Some (saved JobStore.sample_job)).
Definition sample_found : Res SubmitWorkflowJobResult := Ok (mkEnsured (sample_uuid "5") queued false).

Definition sample_find : Op :=
  findOpenBySubject (sample_uuid "9") (js "document.process") (mkSubject (js "document") (sample_uuid "4")).

Lemma sample_submissions :
  rtc (pool_step (exec sample_access sample_outage))
    (sample_world, submitWorkflowJob <$> [sample_request; sample_request])
    (sample_world, [Ret sample_found; Ret sample_found]).
Proof.
  assert (Hfind : exists k : Ans sample_find -> Command SubmitWorkflowJobResult,
    submitWorkflowJob sample_request = Call sample_find k /\ k sample_answer = Ret sample_found).
  { eexists. split; reflexivity. }
  destruct Hfind as (k & Hp & Hk). assert (He : exec sample_access sample_outage sample_find sample_world sample_answer sample_world)
    by (by vm_compute).
  eapply rtc_l; [apply (pool_at _ (submitWorkflowJob <$> [sample_request; sample_request]) 1 sample_find k sample_answer sample_world sample_world);
    [transitivity (Some (submitWorkflowJob sample_request)); [reflexivity|by rewrite Hp]|exact He]|].
  eapply rtc_l; [apply (pool_at _ _ 0 sample_find k sample_answer sample_world sample_world);
    [transitivity (Some (submitWorkflowJob sample_request)); [reflexivity|by rewrite Hp]|exact He]|].
  rewrite Hk. apply rtc_refl.
Qed.

Lemma submissions_converge_witness :
  held sample_request (sample_uuid "5") sample_world
  /\ Inv sample_world.
Proof.
  split; [|exact job_sample_inv].
  refine (proj1 (submissions_converge sample_access sample_outage [sample_request; sample_request] sample_world sample_world
    [Ret sample_found; Ret sample_found] _ _ job_sample_inv sample_submissions) 0%nat sample_request sample_found eq_refl eq_refl).
  - intros f ->. reflexivity.
  - repeat constructor; vm_compute; reflexivity.
Defined.

Lemma jobs_history_witness :
  rtc (pool_step (exec sample_access sample_outage))
      (sample_world, program <$> [cWorkflow sample_request]) (sample_world, [Ret (Ok tt)])
  /\ evolves sample_world sample_world.
Proof.
  assert (Hfind : exists k : Ans sample_find -> Command unit,
    program (cWorkflow sample_request) = Call sample_find k /\ k sample_answer = Ret (Ok tt)).
  { eexists. split; reflexivity. }
  assert (Hrun : rtc (pool_step (exec sample_access sample_outage))
      (sample_world, program <$> [cWorkflow sample_request]) (sample_world, [Ret (Ok tt)])).
  { destruct Hfind as (k & Hp & Hk). eapply rtc_l.
    - apply (pool_at _ (program <$> [cWorkflow sample_request]) 0 sample_find k sample_answer sample_world sample_world).
      + transitivity (Some (program (cWorkflow sample_request))); [reflexivity|by rewrite Hp].
      + by vm_compute.
    - rewrite <- Hk. apply rtc_refl. }
  split; [exact Hrun|].
  exact (proj2 (jobs_history sample_access sample_outage [cWorkflow sample_request]
    sample_world sample_world _ job_sample_inv Hrun)).
Defined.

Definition sample_start : TransitionJobCommand :=
  mkTransition (js "token") (sample_uuid "9") (sample_uuid "5") VUndefined
    (let w := sample_work in
     mkContext (mkWork w.(w_workId) w.(w_correlationId) w.(w_correlationSource) w.(w_causation) w.(w_origin)
       (js "job.start") w.(w_attribution) w.(w_depth) w.(w_replay))).

Lemma transition_effect_witness :
  exists res w', runs (exec sample_access sample_outage) (transitionJob a_start sample_start) sample_world (Ok res) w'
    /\ res.(tr_jobId) = sample_uuid "5"
    /\ JobStore.jobById (sample_uuid "5") w'.(jobs) = Some (saved JobStore.sample_started).
Proof.
  destruct (Events.create (sample_uuid "7") (JOB_EVENT_TYPES e_started) (Int 2000) sample_start.(t_work)
    (changedPayload (sample_uuid "8") JobStore.sample_started)
    (Some (Events.mkEventSubject (js "job") (sample_uuid "5"))) (Some (sample_uuid "9"))) as [e|f] eqn:Ee;
    [|exfalso; vm_compute in Ee; discriminate Ee].
  set (w' := mkWorld [(sample_uuid "5", saved JobStore.sample_started)]
               (sample_world.(published) ++ [e]) (sample_uuid "7" :: sample_world.(issued))).
  set (res := mkTransitioned (sample_uuid "5") running 1 (DateAt 2000) None).
  assert (Hrun : runs (exec sample_access sample_outage) (transitionJob a_start sample_start) sample_world (Ok res) w').
  { unfold transitionJob. cbn [bind require].
    replace (operationIs _ _) with true by (vm_compute; reflexivity).
    cbn [bind perform orElse depends require pure_ nextId jobEvent runs].
    exists (Ok (Some (mkAccess (sample_uuid "9") (sample_uuid "8") owner))), sample_world. split; [by split|].
    cbn [mapError administers ac_role runs]. exists sample_answer, sample_world. split; [by split|].
    unfold sample_answer. cbn [mapError].
    change (ownedBy _ _) with (@Ok Failure _ (saved JobStore.sample_job)). cbn [runs].
    exists (DateAt 2000), sample_world. split; [done|].
    replace (transition _ _) with (@Ok Failure _ JobStore.sample_started) by (vm_compute; reflexivity). cbn [runs].
    exists (Ok (sample_uuid "7")), (mkWorld sample_world.(jobs) sample_world.(published) (sample_uuid "7" :: sample_world.(issued))).
    split; [split; [vm_compute; intros H; by apply list_elem_of_singleton in H|split; [vm_compute; reflexivity|done]]|]. cbn [mapError].
    match goal with |- context [Events.create ?i ?t ?n ?wk ?pl ?sb ?tn] =>
      replace (Events.create i t n wk pl sb tn) with (@Ok Failure _ e) by (rewrite <- Ee; reflexivity) end.
    cbn [mapError runs]. exists (Ok tt), w'. split; [|by vm_compute].
    exists (Ok tt). split; [done|]. split; [|done].
    unfold JobStore.commit, JobStore.beginCommit, JobStore.guard.
    vm_compute in Ee. injection Ee as <-. vm_compute. reflexivity. }
  exists res, w'. split; [exact Hrun|].
  destruct (transition_effect sample_access sample_outage a_start sample_start sample_world w' (Ok res) job_sample_inv Hrun)
    as (_ & a & j & at_ & c & e' & _ & _ & _ & _ & _ & _ & _ & _ & Hid & _).
  split; [exact Hid|reflexivity].
Defined.

Lemma reaper_effect_witness :
  runs (exec sample_access sample_outage) (expireStaleJobs 60000 100 sample_workflow_work) sample_world
    (Ok (0, 0)) sample_world
  /\ exists now_, reaped now_ (minusMs now_ 60000) sample_world sample_world.
Proof.
  assert (Hrun : runs (exec sample_access sample_outage) (expireStaleJobs 60000 100 sample_workflow_work) sample_world
    (Ok (0, 0)) sample_world).
  { unfold expireStaleJobs. cbn [bind perform orElse depends runs]. exists (DateAt 5000000), sample_world. split; [done|].
    exists (Ok []), sample_world. split; [split; [vm_compute; reflexivity|done]|done]. }
  split; [exact Hrun|].
  destruct (reaper_effect sample_access sample_outage 60000 100 sample_workflow_work sample_world sample_world
    (Ok (0, 0)) ltac:(lia) job_sample_inv Hrun) as (_ & now_ & Hre & _).
  exists now_. exact Hre.
Defined.

(** The failed job of a slot, and the same job queued again by the winner. *)
Definition sample_failed : Job :=
  let j := JobStore.sample_job in
  mkJob j.(j_id) j.(j_organizationId) j.(j_kind) j.(j_subject) failed 1 3 (DateAt 1000) (DateAt 3000)
    (Some (DateAt 2000)) (Some (DateAt 3000)) (Some JOB_TIMED_OUT) 2.
Definition sample_retried : Job :=
  default sample_failed (match Job.retry sample_failed (DateAt 4000) with Ok j => Some (saved j) | Err _ => None end).
Definition sample_requeued : Job := resultOr sample_failed (Job.retry sample_failed (DateAt 4000)).
Definition sample_retry_event : Events.Envelope :=
  resultOr Events.sample_envelope (Events.create (sample_uuid "6") (JOB_EVENT_TYPES e_retried) (Int 4000)
    Events.sample_context (workflowPayload sample_requeued) None (Some (sample_uuid "9"))).
Definition sample_raced : World :=
  mkWorld [(sample_uuid "5", sample_retried)] (repeat sample_retry_event 3) [sample_uuid "5"].

Lemma sample_raced_recorded : recorded sample_raced sample_retry_event.
Proof.
  exists sample_requeued, sample_retried. split.
  { constructor; try (vm_compute; reflexivity); vm_compute; (congruence || split; congruence). }
  split; [|split; [vm_compute; reflexivity|apply rtc_refl]].
  exists e_retried. do 6 eexists. split; [apply pub_workflow_retry|]. split; [vm_compute; reflexivity|].
  apply resultOr_ok. vm_compute. reflexivity.
Qed.

Lemma retry_race_fails_witness :
  runs (exec sample_access sample_outage) (reuse sample_failed sample_request) sample_raced
    (Err (idGenerationFailure (fail_with unavailable "down" "db.down"))) sample_raced
  /\ sample_retried.(j_status) = queued
  /\ isOk (@Err _ SubmitWorkflowJobResult (idGenerationFailure (fail_with unavailable "down" "db.down"))) = false.
Proof.
  assert (Hst : forall id j, stored sample_raced id j -> id = sample_uuid "5" /\ j = sample_retried).
  { intros id j. unfold stored, JobStore.jobById. cbn [jobs sample_raced JsMap.get].
    destruct (decide _) as [->|]; [|done]. by intros [= <-]. }
  assert (HI : Inv sample_raced).
  { constructor.
    - exact (JobStore.keyed_set sample_retried [] JobStore.job_keyed_nil).
    - intros id j [-> _]%Hst. left.
    - intros a b j k o kd sj [-> _]%Hst [-> _]%Hst. done.
    - vm_compute. reflexivity.
    - intros id j [_ ->]%Hst. constructor; try (vm_compute; reflexivity); vm_compute; (congruence || split; congruence).
    - intros id ->%list_elem_of_singleton. vm_compute. reflexivity.
    - repeat (constructor; [apply sample_raced_recorded|]). constructor. }
  assert (Hrun : runs (exec sample_access sample_outage) (reuse sample_failed sample_request) sample_raced
    (Err (idGenerationFailure (fail_with unavailable "down" "db.down"))) sample_raced).
  { exists (DateAt 5000), sample_raced. split; [done|].
    exists (Err (fail_with unavailable "down" "db.down")), sample_raced. by split. }
  split; [exact Hrun|]. split; [vm_compute; reflexivity|].
  refine (proj1 (retry_race_fails sample_access sample_outage sample_request sample_failed sample_retried
    sample_raced sample_raced _ HI eq_refl _ _ Hrun)); vm_compute; [reflexivity|discriminate].
Defined.

Definition sample_list : ListJobsQuery := mkListJobs (js "token") (sample_uuid "9") (Some (js "10")) None.

Lemma jobs_listing_complete_witness :
  exists pages, browse (served sample_access sample_outage sample_list sample_world) None pages
    /\ concat pages = ordered JobStore.jobKey (jobsOf (sample_uuid "9") sample_world).
Proof.
  destruct (jobs_listing_complete sample_access sample_outage sample_list 10 sample_world job_sample_inv
    ltac:(vm_compute; reflexivity) ltac:(vm_compute; reflexivity)) as (_ & Hex & Hall).
  destruct Hex as [pages Hb]; [eexists; reflexivity|].
  exists pages. split; [exact Hb|exact (proj1 (Hall pages Hb))].
Defined.
End JobWorld.
