(* ===== verification/JobsPostgres.v ===== *)
(** * The jobs module on PostgreSQL: [modules/jobs/infra/postgres].

    The table with its constraints, the writer's transaction and the reader's
    queries, and that they do what the in-memory writer and reader do. *)
From stdpp Require Import relations.
From S2P Require Import Prelude Async JsMap Errors Ids Json Pagination Provenance Events Commands JobDomain JobsStore JobsApp JobsWorld Postgres Inbox EventStore Sql.

Module PgJobs.
Import JobDomain.Job JobsStore.JobFailures JobsStore.JobStore Sql.Sql.
Import JobWorld(evo, transition_stable, job_evo_stable).
Import Postgres.Database(Thrown, violatedUnique).

(** ** The table. *)

(** [JobRow] of reader.ts.
    The columns, as [Job.restore] takes them. *)
Abbreviation Row := RestoreJobInput.
Abbreviation Table := (list (ID * Row)).

(** @src src/modules/jobs/infra/postgres/migrations/baseline.sql:24-33 n2f_jobs_jobs
    The CHECKs. *)
Definition rowChecks (r : Row) : bool :=
  match parseStatus r.(r_status) with
  | Some status =>
      (0 <=? num_val r.(r_attempts)) && (num_val r.(r_attempts) <=? num_val r.(r_maxAttempts))
      && negb (date_lt r.(r_updatedAt) r.(r_createdAt))
      && negb (incoherent status (num_val r.(r_attempts)) r.(r_startedAt) r.(r_finishedAt) r.(r_failureCode))
      && match r.(r_failureCode) with Some c => matchesName 127 c | None => true end
      && matchesName 119 r.(r_kind)
      && (1 <=? num_val r.(r_maxAttempts)) && (num_val r.(r_maxAttempts) <=? 10)
      && match r.(r_subject) with Some sj => matchesName 63 sj.(sj_type) | None => true end
      && (1 <=? num_val r.(r_version))
  | None => false
  end.

(** [version=version+1] may overflow. *)
Definition refusesRow (r : Row) : option string :=
  match integer (num_val r.(r_version)) with
  | Some code => Some code
  | None => if rowChecks r then None else Some "23514"%string
  end.

(** @src src/modules/jobs/infra/postgres/reader.ts:113-114 findOpenBySubject
    The predicate of the unique index on subjects, too. *)
Definition rowOpen (r : Row) : bool :=
  bool_decide (r.(r_status) = "queued"%string) || bool_decide (r.(r_status) = "running"%string)
  || (bool_decide (r.(r_status) = "failed"%string) && (num_val r.(r_attempts) <? num_val r.(r_maxAttempts))).

(** @src src/modules/jobs/infra/postgres/migrations/baseline.sql:39-39 n2f_jobs_jobs_open_subject *)
Definition sameSubject (a b : Row) : bool :=
  rowOpen a && rowOpen b && negb (isNull b.(r_subject))
  && bool_decide (a.(r_organizationId) = b.(r_organizationId)) && bool_decide (a.(r_kind) = b.(r_kind))
  && bool_decide (a.(r_subject) = b.(r_subject)).

(** @src src/modules/jobs/infra/failures.ts:21-24 CONSTRAINTS *)
Definition jobPkey : string := "n2f_jobs_jobs_pkey".
Definition subjectKey : string := "n2f_jobs_jobs_open_subject".

Definition schema : Schema Row := mkSchema refusesRow jobPkey [(subjectKey, sameSubject)].

(** ** The writer. *)

(** @src src/modules/jobs/infra/postgres/writer.ts:31-51 commit
    The row of a new job: its version is the column's default. *)
Definition newRow (j : Job) : Row :=
  let r := row j in
  mkRestore r.(r_id) r.(r_organizationId) r.(r_kind) r.(r_subject) r.(r_status) r.(r_attempts) r.(r_maxAttempts)
    r.(r_createdAt) r.(r_updatedAt) r.(r_startedAt) r.(r_finishedAt) r.(r_failureCode) (Int 1).

(** @src src/modules/jobs/infra/postgres/writer.ts:53-65 commit *)
Definition setRow (j : Job) (old : Row) : Row :=
  let r := row j in
  mkRestore old.(r_id) old.(r_organizationId) r.(r_kind) r.(r_subject) r.(r_status) r.(r_attempts) r.(r_maxAttempts)
    old.(r_createdAt) r.(r_updatedAt) r.(r_startedAt) r.(r_finishedAt) r.(r_failureCode) (Int (num_val old.(r_version) + 1)).

(** @src src/modules/jobs/infra/postgres/writer.ts:66-68 commit *)
Definition current (j : Job) (r : Row) : bool :=
  bool_decide (r.(r_organizationId) = j.(j_organizationId)) && (num_val r.(r_version) =? j.(j_version)).

(** @src src/modules/jobs/infra/postgres/writer.ts:95-104 commit *)
Definition handler (cause : Thrown) : Failure :=
  match violatedUnique cause with
  | Some c =>
      if bool_decide (c = jobPkey) then jobExists else if bool_decide (c = subjectKey) then subjectTaken else Database.map cause
  | None => Database.map cause
  end.

(** @src src/modules/jobs/infra/postgres/writer.ts:36-50 commit
    What a statement is sent, by the type of its column; identifiers are parsed,
    so [uuid] takes them. *)
Definition rowValues (r : Row) : list (option string) :=
  [text r.(r_kind); nullableText (sj_type <$> r.(r_subject)); integer (num_val r.(r_attempts)); integer (num_val r.(r_maxAttempts));
   timestamp r.(r_updatedAt); nullableTimestamp r.(r_startedAt); nullableTimestamp r.(r_finishedAt); nullableText r.(r_failureCode)].

(** @src src/modules/jobs/infra/postgres/writer.ts:31-93 commit *)
Definition statements (input : JobCommit) : Body Table unit :=
  let job := input.(m_job) in
  match input.(m_mode) with
  | create =>
      _ ← parameters (timestamp (row job).(r_createdAt) :: rowValues (row job));
      insert schema job.(j_id) (newRow job)
  | update =>
      _ ← parameters (integer job.(j_version) :: rowValues (row job));
      updateOr jobNotFound staleWrite schema job.(j_id) (current job) (setRow job)
  end.

Section Writer.
  Context {J : Type} `{Jdec : EqDecision J} (jsonb : Events.Raw -> option J).

(** @src src/modules/jobs/infra/postgres/writer.ts:26-106 commit
    The callback of the transaction. *)
Definition commit (input : JobCommit) (now : Z) : Body (Table * Outbox.Outbox) unit :=
  writer jsonb now input.(m_event) input.(m_work) handler (statements input).
End Writer.

(** ** The reader. *)

(** @src src/modules/jobs/infra/postgres/reader.ts:31-64 restore
    Identifiers are text here. *)
Definition restoreRow (r : Row) : Res Job :=
  jobId ← parse (VStr r.(r_id));
  organizationId ← parse (VStr r.(r_organizationId));
  Job.restore (mkRestore jobId organizationId r.(r_kind) r.(r_subject) r.(r_status) r.(r_attempts) r.(r_maxAttempts)
    r.(r_createdAt) r.(r_updatedAt) r.(r_startedAt) r.(r_finishedAt) r.(r_failureCode) r.(r_version)).

(** @src src/modules/jobs/infra/postgres/reader.ts:84-96 findById *)
Definition findById (id : ID) (t : Table) : Res (option Job) :=
  firstRow restoreRow (option_list (JsMap.get id t)).

Definition rowKey (r : Row) : After := mkAfter r.(r_createdAt) r.(r_id).

(** @src src/modules/jobs/infra/postgres/reader.ts:106-118 findOpenBySubject *)
Definition inSlot (organizationId : ID) (kind : jstring) (subject : JobSubject) (r : Row) : bool :=
  bool_decide (r.(r_organizationId) = organizationId) && bool_decide (r.(r_kind) = kind)
  && bool_decide (r.(r_subject) = Some subject) && rowOpen r.

(** @src src/modules/jobs/infra/postgres/reader.ts:98-124 findOpenBySubject *)
Definition findOpenBySubject (organizationId : ID) (kind : jstring) (subject : JobSubject) (t : Table) : Res (option Job) :=
  firstRow restoreRow (take 1 (sort_by (byKey rowKey) (filter (fun r => inSlot organizationId kind subject r = true) (JsMap.values t)))).

(** @src src/modules/jobs/infra/postgres/reader.ts:126-152 listRunningStartedBefore *)
Definition listRunningStartedBefore (startedBefore : Date) (limit : Z) (t : Table) : Res (list Job) :=
  let startedAt r := match r.(r_startedAt) with Some d => d | None => DateAt 0 end in
  restoreAll restoreRow (take (Z.to_nat limit)
    (sort_by (fun a b => compareKeyset (mkAfter (startedAt a) a.(r_id)) (mkAfter (startedAt b) b.(r_id)))
       (filter (fun r => bool_decide (r.(r_status) = "running"%string)
                         && match r.(r_startedAt) with Some d => date_lt d startedBefore | None => false end = true) (JsMap.values t)))).

(** @src src/modules/jobs/infra/postgres/reader.ts:154-181 listForOrganization *)
Definition listForOrganization (organizationId : ID) (page : PageRequest) (t : Table) : Res (list Job) :=
  restoreAll restoreRow (pageOf rowKey (fun r => bool_decide (r.(r_organizationId) = organizationId)) page t).

(** ** The same jobs, as rows. *)

Abbreviation rowsOf := (Sql.rowsOf row).

(** Times that [timestamptz] holds. *)
Definition timed (j : Job) : Prop :=
  TIMESTAMP_MIN <= getTime j.(j_createdAt) /\ TIMESTAMP_MIN <= getTime j.(j_updatedAt)
  /\ (forall d, j.(j_startedAt) = Some d -> TIMESTAMP_MIN <= getTime d) /\ (forall d, j.(j_finishedAt) = Some d -> TIMESTAMP_MIN <= getTime d).

(** A commit a command makes: it creates a job, or updates one it saw stored. *)
Definition legit (input : JobCommit) (s : Jobs) : Prop :=
  timed input.(m_job) /\
  match input.(m_mode) with
  | create => exists i, Job.create i = Ok input.(m_job)
  | update => exists j t, wf j /\ 0 <= j.(j_version) < INTEGER_MAX /\ transition j t = Ok input.(m_job)
      /\ forall p, jobById input.(m_job).(j_id) s = Some p -> rtc JobWorld.evo j p
  end.

Lemma transition_created j t c : transition j t = Ok c -> c.(j_createdAt) = j.(j_createdAt).
Proof. intros (? & ? & ? & ? & ? & ? & -> & _)%transition_evolve. done. Qed.

Lemma row_checks j : wf j -> 1 <= j.(j_version) <= INTEGER_MAX -> refusesRow (row j) = None.
Proof.
  intros [] Hv. unfold refusesRow, integer. cbn [row r_version num_val]. unfold INTEGER_MAX in *.
  rewrite (proj2 (Z.leb_le _ (j_version j))), (proj2 (Z.leb_le (j_version j) _)) by lia. cbn [andb].
  enough (rowChecks (row j) = true) as -> by done. unfold rowChecks, row. cbn [r_id r_organizationId r_kind r_subject r_status r_attempts r_maxAttempts r_createdAt r_updatedAt
    r_startedAt r_finishedAt r_failureCode r_version num_val]. rewrite job_parseStatus_name.
  rewrite (copyDate_valid (j_createdAt j)), (copyDate_valid (j_updatedAt j)), (copyDateOpt_valid (j_startedAt j)), (copyDateOpt_valid (j_finishedAt j)) by done.
  rewrite wf_order0, wf_coherent0. cbn [negb andb]. rewrite !andb_true_iff, !Z.leb_le. split_and!; try done; try lia.
  - destruct (j_failureCode j); [by apply wf_code0|done].
  - unfold kind in wf_kind0. by destruct (matchesName 119 (j_kind j)).
  - destruct (j_subject j) as [[ty i]|]; [|done]. cbn. unfold subject in wf_subject0. cbn in wf_subject0.
    by destruct (matchesName 63 ty).
Qed.

Lemma rowOpen_row j : rowOpen (row j) = Job.open j.
Proof. unfold rowOpen, Job.open, row. cbn. by destruct (j_status j). Qed.

Lemma create_saved i j : Job.create i = Ok j -> newRow j = row (saved j) /\ Job.open j = true /\ j.(j_version) = 0 /\ wf j.
Proof.
  intros H. pose proof (job_create_wf _ _ H) as Hw. unfold Job.create in H. ok_branches H. split_and!; try done.
Qed.

(** What the in-memory store keeps true ([JobWorld.Inv]), and versions that the
    column can count on. *)
Record storable (s : Jobs) : Prop := mkStorable {
  st_keyed : keyed s;
  st_wf : forall id j, jobById id s = Some j -> wf j;
  st_unique : forall a b j k o kd sj, jobById a s = Some j -> jobById b s = Some k ->
    occupies o kd sj j = true -> occupies o kd sj k = true -> a = b;
  st_version : forall id j, jobById id s = Some j -> FIRST <= j.(j_version) < INTEGER_MAX;
  st_ids : forall id j, jobById id s = Some j -> validID j.(j_id) = true /\ validID j.(j_organizationId) = true
}.

Lemma sameSubject_row b c :
  sameSubject (row b) (row c) = true <->
  Job.open c = true /\ exists sj, c.(j_subject) = Some sj /\ occupies c.(j_organizationId) c.(j_kind) sj b = true.
Proof.
  unfold sameSubject. rewrite !rowOpen_row. cbn [row r_subject r_organizationId r_kind].
  rewrite !andb_true_iff, !bool_decide_eq_true, negb_true_iff. split.
  - intros [[[[[Hb Hc] Hn] Ho] Hk] Hs]. split; [done|]. destruct (j_subject c) as [sj|] eqn:E; [|done]. exists sj. split; [done|].
    apply occupies_spec. by split_and!.
  - intros [Hc (sj & Hs & (Hb & Ho & Hk & Hsb)%occupies_spec)]. rewrite Hs, Hsb. by split_and!.
Qed.

(** The unique index refuses a row exactly when another job holds its slot. *)
Lemma job_violation_row s id c :
  keyed s -> refusesRow (row c) = None ->
  match violation schema id (row c) (rowsOf s) with
  | None => forall id' b sj, jobById id' s = Some b -> id' <> id -> Job.open c = true -> c.(j_subject) = Some sj ->
      occupies c.(j_organizationId) c.(j_kind) sj b = false
  | Some e => e = uniqueViolation subjectKey /\ exists id' b sj, jobById id' s = Some b /\ id' <> id /\ Job.open c = true
      /\ c.(j_subject) = Some sj /\ occupies c.(j_organizationId) c.(j_kind) sj b = true
  end.
Proof.
  intros [Hw _] Hc. pose proof (violation_rows row schema id c s Hw Hc) as Hv. destruct (violation schema id (row c) (rowsOf s)) as [e|].
  - destruct Hv as (name & clash & id' & b & -> & [= -> ->]%list_elem_of_singleton & Hb & Hne & [Ho (sj & Hsj & Hocc)]%sameSubject_row).
    split; [done|]. by exists id', b, sj.
  - intros id' b sj Hb Hne Ho Hsj. apply not_true_iff_false. intros Hocc.
    specialize (Hv subjectKey sameSubject ltac:(left) id' b Hb Hne). rewrite (proj2 (sameSubject_row b c)) in Hv by eauto. done.
Qed.

Lemma rowValues_None j : wf j -> timed j -> Forall (fun r => r = None) (timestamp (row j).(r_createdAt) :: rowValues (row j)).
Proof.
  intros [] (Hc & Hu & Hs & Hf). unfold rowValues. cbn [row r_kind r_subject r_attempts r_maxAttempts r_createdAt r_updatedAt r_startedAt r_finishedAt
    r_failureCode num_val].
  rewrite (copyDate_valid (j_createdAt j)), (copyDate_valid (j_updatedAt j)), (copyDateOpt_valid (j_startedAt j)), (copyDateOpt_valid (j_finishedAt j)) by done.
  values.
  - apply (text_name 119). unfold kind in wf_kind0. by destruct (matchesName 119 (j_kind j)).
  - destruct (j_subject j) as [[ty i]|]; [|done]. apply (text_name 63). unfold subject in wf_subject0. cbn in wf_subject0 |- *. by destruct (matchesName 63 ty).
  - destruct (j_failureCode j) as [c|]; [|done]. by apply (text_name 127), wf_code0.
Qed.

Lemma values_sent {A} r j (k : Body Table A) t :
  r = None -> wf j -> timed j -> (_ ← parameters (r :: rowValues (row j)); k) t = k t.
Proof.
  intros -> Hw Ht. pose proof (rowValues_None j Hw Ht) as HF. apply Forall_cons in HF as [_ HF]. by rewrite parameters_then by (by constructor).
Qed.

(** The statements do what the guards of the in-memory writer allow. *)
Lemma job_statements_spec input s :
  storable s -> legit input s -> Events.assertEventWork input.(m_event) input.(m_work) = Ok tt ->
  match guard input s with
  | Ok _ => statements input (rowsOf s) = (rowsOf (JsMap.set input.(m_job).(j_id) (saved input.(m_job)) s), Value tt)
  | Err f => exists t, statements input (rowsOf s) = (t, Refused f)
             \/ exists e, statements input (rowsOf s) = (t, Raised e) /\ handler e = f
  end.
Proof.
  intros [Hk Hwf Hu Hv _] Hl Hp. unfold guard, statements. rewrite Hp. cbn [mbind Result_bind]. destruct Hl as [Ht Hl].
  destruct (m_mode input).
  - destruct Hl as [i Hc]. destruct (create_saved _ _ Hc) as (Hrow & Hopen & Hver & Hwj).
    pose proof (rowValues_None _ Hwj Ht) as [Hct _]%Forall_cons. rewrite values_sent by done. rewrite Hrow. unfold Sql.insert. cbn [schema refuses].
    assert (Hchk : refusesRow (row (saved (m_job input))) = None) by (apply row_checks; [by apply job_saved_wf|cbn; rewrite Hver; unfold INTEGER_MAX; lia]).
    rewrite Hchk. rewrite has_rowsOf. unfold JsMap.has, jobById. cbn [negb].
    destruct (JsMap.get (j_id (m_job input)) s) as [p|] eqn:Ep; cbn [isNull negb].
    { exists (rowsOf s). right. eexists. split; [done|]. done. }
    pose proof (job_violation_row s (j_id (m_job input)) (saved (m_job input)) Hk Hchk) as Hviol.
    destruct (violation schema _ _ (rowsOf s)) as [e|] eqn:Ev.
    + destruct Hviol as (-> & id' & b & sj & Hb & Hne & _ & Hsj & Hocc). cbn in Hsj, Hocc. rewrite Hsj.
      destruct (openJobBySubject _ _ sj s) as [q|] eqn:Eo.
      * exists (rowsOf s). right. eexists. by split.
      * exfalso. rewrite (openJobBySubject_none _ _ _ _ _ _ Hk Eo Hb) in Hocc. done.
    + rewrite set_rowsOf. destruct (j_subject (m_job input)) as [sj|] eqn:Es; [|done].
      destruct (openJobBySubject _ _ sj s) as [q|] eqn:Eo; [|done]. exfalso.
      apply openJobBySubject_some in Eo as [Hq Hocc]; [|done].
      pose proof (Hviol (j_id q) q sj Hq ltac:(intros Heq; unfold jobById in Hq; congruence) Hopen Es) as Hf.
      cbn [saved j_organizationId j_kind] in Hf. congruence.
  - destruct Hl as (j & t & Hwj & Hvj & Htr & Hsince). pose proof (job_transition_wf _ _ _ Hwj Htr) as Hwc.
    destruct (transition_stable _ _ _ Htr) as (Hji & Hjo & Hjk & Hjs & Hjv & Hopen).
    rewrite values_sent, updateOr_spec by (done || (apply integer_None; unfold INTEGER_MAX in *; lia)). rewrite get_rowsOf. unfold jobById in *.
    destruct (JsMap.get (j_id (m_job input)) s) as [p|] eqn:Ep; cbn [fmap option_fmap option_map]; [|by exists (rowsOf s); left].
    destruct (job_evo_stable _ _ (Hsince p eq_refl)) as (Hpi & Hpo & Hpk & Hps & Hpv & Hpe & _).
    unfold current. cbn [row r_organizationId r_version num_val].
    rewrite !bool_decide_eq_true_2 by congruence. cbn [andb negb].
    destruct (j_version p =? j_version (m_job input)) eqn:Ever; cbn [negb]; [|by exists (rowsOf s); left].
    apply Z.eqb_eq in Ever. assert (p = j) as -> by (apply Hpe; lia). clear Hpe Hpv Hps Hpk Hpo Hpi.
    assert (Hrow : setRow (m_job input) (row j) = row (saved (m_job input))).
    { unfold setRow, row, saved. cbn. rewrite Hji, Hjo, Ever. f_equal. by rewrite (transition_created _ _ _ Htr). }
    rewrite Hrow. assert (Hchk : refusesRow (row (saved (m_job input))) = None).
    { apply row_checks; [by apply job_saved_wf|]. cbn. specialize (Hv _ _ Ep). unfold FIRST in Hv. lia. }
    pose proof (job_violation_row s (j_id (m_job input)) (saved (m_job input)) Hk Hchk) as Hviol.
    destruct (violation schema _ _ (rowsOf s)) as [e|] eqn:Ev; [|by rewrite set_rowsOf].
    exfalso. destruct Hviol as (_ & id' & b & sj & Hb & Hne & Ho & Hsj & Hocc). apply Hne.
    apply (Hu id' (j_id (m_job input)) b j _ _ sj Hb Ep Hocc). apply occupies_spec. cbn in Hsj |- *. split_and!; [by apply Hopen|congruence..].
Qed.

(** ** What is read back. *)

Lemma job_restoreRow_row s id j : storable s -> jobById id s = Some j -> restoreRow (row j) = Ok j.
Proof.
  intros [_ Hwf _ Hv Hid] Hj. destruct (Hid _ _ Hj) as [Hi Ho]. specialize (Hv _ _ Hj).
  assert (Hr : Job.restore (row j) = Ok j) by (apply job_wf_restore; [by eapply Hwf|unfold INTEGER_MAX, MAX_SAFE_INTEGER in *; lia]).
  unfold restoreRow. cbn [row r_id r_organizationId]. rewrite (Events.validID_parse _ Hi), (Events.validID_parse _ Ho). exact Hr.
Qed.

Lemma job_stored_row s j : storable s -> j ∈ JsMap.values s -> jobById j.(j_id) s = Some j.
Proof. intros [[Hw Hk] _ _ _ _] [id Hj]%JsMap.elem_values; [|done]. by rewrite (Hk _ _ Hj). Qed.

Lemma job_restoreRow_stored s j : storable s -> j ∈ JsMap.values s -> restoreRow (row j) = Ok j.
Proof. intros Hs Hj. eapply job_restoreRow_row; [done|by apply job_stored_row]. Qed.

Lemma job_findById_rows s id : storable s -> findById id (rowsOf s) = Ok (jobById id s).
Proof. intros Hs. apply firstRow_get. intros j Hj. by eapply job_restoreRow_row. Qed.

Lemma inSlot_row o k sj j : inSlot o k sj (row j) = occupies o k sj j.
Proof.
  unfold inSlot, occupies. rewrite rowOpen_row. cbn [row r_organizationId r_kind r_subject].
  destruct (Job.open j), (bool_decide (j_organizationId j = o)), (bool_decide (j_kind j = k)), (bool_decide (j_subject j = Some sj)); done.
Qed.

(** A slot holds at most one job. *)
Lemma one_in_slot s o k sj :
  storable s -> filter (fun j => occupies o k sj j = true) (JsMap.values s) = option_list (openJobBySubject o k sj s).
Proof.
  intros [[Hw Hk] _ Hu _ _]. unfold openJobBySubject, jobById in *.
  assert (HN : NoDup (JsMap.values s)) by (eapply NoDup_fmap_1; apply (JsMap.NoDup_values j_id); [done|exact Hk]).
  assert (Hone : forall a b, a ∈ JsMap.values s -> b ∈ JsMap.values s -> occupies o k sj a = true -> occupies o k sj b = true -> a = b).
  { intros a b [i Hi]%JsMap.elem_values [i' Hi']%JsMap.elem_values Ha Hb; [|done..].
    pose proof (Hu _ _ _ _ _ _ _ Hi Hi' Ha Hb) as <-. congruence. }
  by apply one_row.
Qed.

Lemma findOpenBySubject_rows s o k sj : storable s -> findOpenBySubject o k sj (rowsOf s) = Ok (openJobBySubject o k sj s).
Proof.
  intros Hs. unfold findOpenBySubject. rewrite values_rowsOf, (filter_rows row _ (occupies o k sj)) by (intros j _; apply inSlot_row).
  rewrite one_in_slot by done. destruct (openJobBySubject o k sj s) as [j|] eqn:E; [|done].
  apply openJobBySubject_some in E as [Hj _]; [|apply Hs].
  change (firstRow restoreRow [row j] = Ok (Some j)). unfold firstRow. by rewrite (job_restoreRow_row s _ j Hs Hj).
Qed.

Lemma job_key_row s j : storable s -> j ∈ JsMap.values s -> rowKey (row j) = jobKey j.
Proof. intros Hs Hj. unfold rowKey, jobKey. cbn. by rewrite copyDate_valid by (eapply wf_created, st_wf, job_stored_row; eauto). Qed.

Lemma job_rows_table s o : storable s -> table jobKey (filter (fun j => bool_decide (j.(j_organizationId) = o) = true) (JsMap.values s)).
Proof.
  intros Hs. split.
  - apply Forall_forall. intros j [_ Hj%(job_stored_row s)]%list_elem_of_filter; [|done]. split; [by eapply wf_created, st_wf|].
    apply Events.validID_shape. by eapply st_ids.
  - apply (NoDup_fmap_1 id). rewrite <- list_fmap_compose.
    eapply sublist_NoDup; [|apply fmap_sublist, sublist_filter]. apply (JsMap.NoDup_values j_id); [apply Hs|]. apply (proj2 (st_keyed _ Hs)).
Qed.

Lemma job_listForOrganization_rows s c o page : storable s -> listForOrganization o page (rowsOf s) = Ok (listPage c o page s).
Proof.
  intros Hs. apply (listPage_rows row restoreRow jobKey rowKey _ (fun j => bool_decide (j.(j_organizationId) = o))).
  - intros j Hj. split_and!; [by eapply job_key_row|done|by eapply job_restoreRow_stored].
  - by apply job_rows_table.
  - unfold jobsForOrganization. rewrite sort_by_perm.
    rewrite (list_filter_iff (fun j => j.(j_organizationId) = o) (fun j => bool_decide (j.(j_organizationId) = o) = true)); [done|].
    intros j. by rewrite bool_decide_eq_true.
Qed.

(** Ties apart, the overdue jobs come in the same order. *)
Definition startTime (j : Job) : Z := match j.(j_startedAt) with Some d => getTime d | None => 0 end.

Lemma sorted_weaken {A} (P Q : A -> A -> Prop) l : (forall x y, P x y -> Q x y) -> StronglySorted P l -> StronglySorted Q l.
Proof. intros HPQ. induction 1 as [|x l _ IH Hx]; constructor; [done|]. eapply Forall_impl; [exact Hx|]. apply HPQ. Qed.

Lemma fmap_le (f : Job -> Z) l : StronglySorted (fun x y => f x <= f y) l -> StronglySorted Z.le (f <$> l).
Proof.
  induction 1 as [|x l _ IH Hx]; cbn; constructor; [done|]. apply Forall_fmap. eapply Forall_impl; [exact Hx|]. done.
Qed.

Lemma take_sorted_keys (f : Job -> Z) n l1 l2 :
  l1 ≡ₚ l2 -> StronglySorted (fun x y => f x <= f y) l1 -> StronglySorted (fun x y => f x <= f y) l2 -> f <$> take n l1 = f <$> take n l2.
Proof.
  intros HP H1%fmap_le H2%fmap_le. rewrite !fmap_take. f_equal. apply (StronglySorted_unique_strong Z.le); [intros x y _ _; lia|done|done|by rewrite HP].
Qed.

Lemma startedAt_row s j : storable s -> j ∈ JsMap.values s -> (row j).(r_startedAt) = j.(j_startedAt).
Proof.
  intros Hs Hj. cbn. apply copyDateOpt_valid. eapply wf_started, st_wf; [done|]. by apply job_stored_row.
Qed.

Lemma compareKeyset_start a b : compareKeyset a b <= 0 -> getTime a.(at_) <= getTime b.(at_).
Proof. unfold compareKeyset. cbv zeta. destruct (_ =? 0) eqn:E; breflect; cbn [negb]; lia. Qed.

Lemma listRunning_rows s d n :
  storable s -> 0 <= n ->
  exists jobs, listRunningStartedBefore d n (rowsOf s) = Ok jobs
    /\ (forall j, j ∈ jobs -> jobById j.(j_id) s = Some j /\ overdue d j = true)
    /\ startTime <$> jobs = startTime <$> runningStartedBefore d n s.
Proof.
  intros Hs Hn. unfold listRunningStartedBefore. rewrite values_rowsOf.
  rewrite (filter_rows row _ (overdue d)).
  2: { intros j Hj. rewrite (startedAt_row s) by done. unfold overdue. cbn. by destruct (j_status j). }
  set (l := filter _ _). assert (Hl : forall j, j ∈ l -> j ∈ JsMap.values s) by (by intros j [_ Hj]%list_elem_of_filter).
  set (key := fun j : Job => mkAfter (match j.(j_startedAt) with Some t => t | None => DateAt 0 end) j.(j_id)).
  rewrite (sort_by_fmap row (fun x y => compareKeyset (key x) (key y))) by (intros x y Hx Hy; rewrite !(startedAt_row s) by auto; done).
  rewrite <- fmap_take. eexists. split; [apply restoreAll_rows|split].
  - intros j Hj. apply (fun H => elem_of_sublist _ _ _ H (sublist_take _ _)) in Hj. rewrite sort_by_perm in Hj. apply (job_restoreRow_stored s); auto.
  - intros j Hj. apply (fun H => elem_of_sublist _ _ _ H (sublist_take _ _)) in Hj. rewrite sort_by_perm in Hj.
    split; [apply job_stored_row; auto|]. by apply list_elem_of_filter in Hj as [Hj _].
  - unfold runningStartedBefore, sliceTo. rewrite (proj2 (Z.ltb_ge _ _)) by done. apply take_sorted_keys; [by rewrite !sort_by_perm| |].
    + eapply sorted_weaken; [|apply sort_by_strong].
      * intros x y H%compareKeyset_start. unfold startTime. cbn in H. by destruct (j_startedAt x), (j_startedAt y).
      * intros x y. pose proof (compareKeyset_flip (key x) (key y)). lia.
      * intros x y z. apply compareKeyset_trans.
    + eapply sorted_weaken; [|apply sort_by_strong]; unfold startTime; cbn; intros; lia.
Qed.

(** The callback of a commit does what the in-memory commit does when its event
    is enqueued as it is published there. *)
Section Refines.
  Context {J : Type} `{Jdec : EqDecision J} (jsonb : Events.Raw -> option J).

Definition published (input : JobCommit) (now : Z) (o : Outbox.Outbox) : Res unit := (Outbox.enqueue jsonb input.(m_event) now o).2.

Lemma job_commit_meets input now s o :
  storable s -> legit input s ->
  meets (callback (commit jsonb input now)) (rowsOf s, o)
    (let '(s', r) := JobStore.commit input (published input now o) s in ((rowsOf s', (Outbox.enqueue jsonb input.(m_event) now o).1), r)).
Proof.
  intros Hs Hl. pose proof (commit_cases input (published input now o) s (st_keyed _ Hs)) as Hc.
  pose proof (writer_spec jsonb now input.(m_event) input.(m_work) handler (statements input) (rowsOf s) o) as Hw. fold (commit jsonb input now) in Hw.
  pose proof (job_statements_spec input s Hs Hl) as Hst. unfold meets.
  destruct (Events.assertEventWork (m_event input) (m_work input)) as [[]|f] eqn:Ew.
  - specialize (Hst eq_refl). destruct (guard input s) as [p|f].
    + rewrite Hst in Hw. unfold published in *. destruct (Outbox.enqueue jsonb (m_event input) now o) as [o' [[]|f]]; rewrite Hc; done.
    + rewrite Hc. destruct Hst as [t [Hst|(e & Hst & <-)]]; rewrite Hst in Hw; done.
  - assert (Hg : guard input s = Err f) by (unfold guard; by rewrite Ew). rewrite Hg in Hc. by rewrite Hc.
Qed.

(** C15. The PostgreSQL adapters of the jobs module implement the in-memory ones.
    Let the table hold the rows of jobs that the in-memory store could hold
    (keyed, well formed, one open job a subject, versions that the column can
    count). Then the transaction of a commit that creates a job, or updates one
    seen stored, has exactly two outcomes: it writes the row of the job that the
    in-memory commit would store and the outbox as the enqueued event leaves it,
    when that commit would be accepted, answering success or that the outcome is
    uncertain; or it leaves table and outbox as they were and answers a failure,
    which is the database's or exactly the one of the in-memory commit. Undisturbed, its
    answer is the in-memory one: a violated constraint is the conflict that the
    in-memory guards find. The reader answers from the rows what the in-memory
    reader answers from the jobs: by
    identifier, by subject, by page for any collation; and the overdue jobs in
    the same order of start. *)
Theorem jobs_postgres_refines (input : JobCommit) (now : Z) (s : Jobs) (o o' : Outbox.Outbox) (t' : Table) (r : Res unit)
    (Hstored : storable s) (Hlegit : legit input s)
    (Hrun : Database.transacts (callback (commit jsonb input now)) (rowsOf s, o) r (t', o')) :
  (callback (commit jsonb input now) (rowsOf s, o)).2 = (JobStore.commit input (published input now o) s).2
  /\ (((exists s', JobStore.commit input (published input now o) s = (s', Ok tt) /\ t' = rowsOf s')
       /\ o' = (Outbox.enqueue jsonb input.(m_event) now o).1
       /\ (r = Ok tt \/ r = Err Database.uncertain))
      \/ (t' = rowsOf s /\ o' = o /\ exists f, r = Err f
          /\ (Database.fault f \/ JobStore.commit input (published input now o) s = (s, Err f))))
  /\ (forall id, findById id (rowsOf s) = Ok (jobById id s))
  /\ (forall organizationId kind subject,
        findOpenBySubject organizationId kind subject (rowsOf s) = Ok (openJobBySubject organizationId kind subject s))
  /\ (forall localeCompare organizationId page,
        listForOrganization organizationId page (rowsOf s) = Ok (listPage localeCompare organizationId page s))
  /\ (forall startedBefore limit, 0 <= limit ->
        exists jobs, listRunningStartedBefore startedBefore limit (rowsOf s) = Ok jobs
          /\ (forall j, j ∈ jobs -> jobById j.(j_id) s = Some j /\ overdue startedBefore j = true)
          /\ startTime <$> jobs = startTime <$> runningStartedBefore startedBefore limit s).
Proof.
  pose proof (commit_cases input (published input now o) s (st_keyed _ Hstored)) as Hsame.
  destruct (meets_transacts _ _ _ _ _ (job_commit_meets input now s o Hstored Hlegit) Hrun) as [Ha Hd].
  destruct (JobStore.commit input (published input now o) s) as [s' r'] eqn:Em. cbn [snd] in Ha, Hd.
  split_and!.
  - exact Ha.
  - destruct Hd as [[[= <- <- ->] Hr]|([= -> ->] & f & -> & Hf)].
    + left. split_and!; [by eexists|done|done].
    + right. split_and!; [done..|]. exists f. split; [done|]. destruct Hf as [Hf|Hf]; [by left|]. right. subst r'.
      destruct (guard input s), (published input now o) as [[]|]; congruence.
  - intros id. by apply job_findById_rows.
  - intros. by apply findOpenBySubject_rows.
  - intros. by apply job_listForOrganization_rows.
  - intros. by apply listRunning_rows.
Qed.
End Refines.

Lemma storable_nil : storable [].
Proof. constructor; [apply job_keyed_nil|done..]. Qed.

Definition sample_creation : JobCommit := sample_commit create sample_job.

Lemma jobs_postgres_refines_witness :
  (callback (commit Events.json sample_creation 1000) (rowsOf [], [])).2 = Ok tt
  /\ exists s', JobStore.commit sample_creation (Ok tt) [] = (s', Ok tt)
       /\ (callback (commit Events.json sample_creation 1000) (rowsOf [], [])).1.1 = rowsOf s'.
Proof.
  assert (H : callback (commit Events.json sample_creation 1000) (rowsOf [], []) = ((rowsOf [(sample_uuid "5", saved sample_job)],
    [(Events.e_id Events.sample_envelope, LeasedRows.inserted 1000 (Events.bytes Events.sample_envelope))]), Ok tt)) by (vm_compute; reflexivity).
  assert (Hl : legit sample_creation []).
  { split; [by split_and!|]. exists (mkCreate sample_job.(j_id) sample_job.(j_organizationId) (VStr sample_job.(j_kind)) (subjectValue sample_job.(j_subject)) (VNum (Int 3)) (DateAt 1000)).
    vm_compute. reflexivity. }
  destruct (jobs_postgres_refines Events.json sample_creation 1000 [] [] _ _ _ storable_nil Hl (Database.tx_done _ _ _ _ H))
    as (Hr & [((s' & Hs & Ht) & _)|(_ & _ & f & Hf & _)] & _); [|done].
  split; [by rewrite H|]. exists s'. split; [exact Hs|]. by rewrite H.
Defined.
End PgJobs.
