(* ===== verification/RateLimit.v ===== *)
(** * Rate limiting: [shared/ratelimit/index.ts],
    [platform/ratelimit/in-memory-store.ts] and the consuming loop of
    [platform/ratelimit/rate-limit.interceptor.ts].

    A fixed-window counter per key and rule.  The store prunes old windows when
    it grows; the specification is a count over the whole history of calls, and
    the store is proved to answer exactly as it does. *)
From S2P Require Import Prelude JsMap Errors.

Module RateLimit.

(** @src src/shared/ratelimit/index.ts:4-8 RateLimitRule *)
Record Rule : Type := mkRule { limit : num; windowMs : num }.

(** @src src/shared/ratelimit/index.ts:18-22 RateLimitConsumeInput *)
Record Input : Type := mkInput { i_key : jstring; i_rule : Rule; i_now : Date }.

(** @src src/shared/ratelimit/index.ts:10-16 RateLimitDecision *)
Record Decision : Type := mkDecision {
  allowed : bool; d_limit : Z; remaining : Z; resetAt : Date; retryAfterMs : Z
}.

(** @src src/platform/ratelimit/in-memory-store.ts:14-17 WindowState *)
Record WindowState : Type := mkWindow { windowStartMs : Z; count : Z }.

(** @src src/platform/ratelimit/in-memory-store.ts:19-21 MAX_KEY_LENGTH, MAX_LIMIT, MAX_WINDOW_MS *)
Definition MAX_KEY_LENGTH : Z := 256.
Definition MAX_LIMIT : Z := 1000000.
Definition MAX_WINDOW_MS : Z := 24 * 60 * 60 * 1000.

(** @src src/platform/ratelimit/in-memory-store.ts:23-25 invalidConfiguration *)
Definition invalidConfiguration (message : string) : Failure :=
  fail_with invalid message "rate_limit.invalid_configuration".

(** [String(n)] of a natural number below [10 ^ fuel]. *)
Fixpoint decimal (fuel : nat) (n : Z) : jstring :=
  match fuel with
  | O => []
  | S f => if n <? 10 then [48 + n] else decimal f (n / 10) ++ [48 + n mod 10]
  end.

(** @src src/platform/ratelimit/in-memory-store.ts:60-60 consume
    [`${key}:${windowMs}:${limit}`]; both numbers are below [10 ^ 16]. *)
Definition storedKey (key : jstring) (windowMs limit : Z) : jstring :=
  key ++ [58] ++ decimal 16 windowMs ++ [58] ++ decimal 16 limit.

Definition Windows : Type := list (jstring * WindowState).

(** @src src/platform/ratelimit/in-memory-store.ts:69-75 consume *)
Definition prune (nowMs : Z) (w : Windows) : Windows :=
  if 10000 <? Z.of_nat (length w)
  then filter (fun e => ~ (windowStartMs e.2 + MAX_WINDOW_MS < nowMs)) w
  else w.

(** @src src/platform/ratelimit/in-memory-store.ts:42-49 consume *)
Definition badRule (r : Rule) : bool :=
  negb (isSafeInteger r.(limit)) || num_lt r.(limit) 1 || num_gt r.(limit) MAX_LIMIT
  || negb (isSafeInteger r.(windowMs)) || num_lt r.(windowMs) 1000 || num_gt r.(windowMs) MAX_WINDOW_MS.

(** @src src/platform/ratelimit/in-memory-store.ts:31-86 consume
    The floor of the quotient is exact in doubles for times below [2 ^ 52]
    milliseconds. *)
Definition consume (input : Input) (w : Windows) : Windows * Res Decision :=
  if (jlength input.(i_key) =? 0) || (MAX_KEY_LENGTH <? jlength input.(i_key)) then
    (w, Err (invalidConfiguration "rate-limit key is invalid"))
  else if badRule input.(i_rule) then (w, Err (invalidConfiguration "rate-limit rule is invalid"))
  else
    match input.(i_now) with
    | InvalidDate => (w, Err (invalidConfiguration "rate-limit clock time is invalid"))
    | DateAt nowMs =>
        let windowMs := num_val input.(i_rule).(windowMs) in
        let limit := num_val input.(i_rule).(limit) in
        let start := (nowMs / windowMs) * windowMs in
        let key := storedKey input.(i_key) windowMs limit in
        let previous := JsMap.get key w in
        let before :=
          match previous with
          | Some p => if p.(windowStartMs) =? start then p.(count) else 0
          | None => 0
          end in
        let n := before + 1 in
        let w := prune nowMs (JsMap.set key (mkWindow start n) w) in
        let resetAtMs := start + windowMs in
        let ok_ := n <=? limit in
        (w, Ok (mkDecision ok_ limit (Z.max 0 (limit - n)) (newDate resetAtMs)
                  (if ok_ then 0 else Z.max 0 (resetAtMs - nowMs))))
    end.

(** ** The stored key names the key and the rule. *)

Lemma decimal_digits f n : 0 <= n -> Forall (fun c => 48 <= c <= 57) (decimal f n).
Proof.
  revert n. induction f as [|f IH]; intros n Hn; cbn; [constructor|].
  destruct (n <? 10) eqn:E; breflect; [constructor; [lia|constructor]|].
  apply Forall_app. split; [apply IH, Z.div_pos; lia|].
  pose proof (Z.mod_pos_bound n 10 ltac:(lia)). constructor; [lia|constructor].
Qed.

Lemma decimal_value f n :
  0 <= n < 10 ^ Z.of_nat f -> foldl (fun acc c => acc * 10 + (c - 48)) 0 (decimal f n) = n.
Proof.
  revert n. induction f as [|f IH]; intros n Hn; [cbn in *; lia|]. cbn [decimal].
  destruct (n <? 10) eqn:E; breflect; [cbn; lia|].
  rewrite foldl_snoc, IH.
  - pose proof (Z.div_mod n 10 ltac:(lia)). lia.
  - rewrite Nat2Z.inj_succ, Z.pow_succ_r in Hn by lia.
    split; [apply Z.div_pos; lia|apply Z.div_lt_upper_bound; lia].
Qed.

Lemma decimal_inj f a b :
  0 <= a < 10 ^ Z.of_nat f -> 0 <= b < 10 ^ Z.of_nat f -> decimal f a = decimal f b -> a = b.
Proof. intros Ha Hb H. rewrite <- (decimal_value f a), <- (decimal_value f b), H by done. done. Qed.

Lemma split_last (x x' b b' : jstring) :
  (58 ∉ b) -> (58 ∉ b') -> x ++ 58 :: b = x' ++ 58 :: b' -> x = x' /\ b = b'.
Proof.
  intros Hb Hb'. revert x'. induction x as [|c x IH]; intros [|c' x'] H; cbn in H.
  - by injection H.
  - injection H as <- H. exfalso. apply Hb. rewrite H. apply elem_of_app. right. left.
  - injection H as -> H. exfalso. apply Hb'. rewrite <- H. apply elem_of_app. right. left.
  - injection H as -> H. destruct (IH _ H) as [-> ->]. done.
Qed.

Lemma no_colon f n : 0 <= n -> 58 ∉ decimal f n.
Proof. intros Hn Hin. apply (proj1 (Forall_forall _ _) (decimal_digits f n Hn)) in Hin. cbn in Hin. lia. Qed.

(** The numbers of a valid rule. *)
Definition inRange (w l : Z) : Prop := 1000 <= w <= MAX_WINDOW_MS /\ 1 <= l <= MAX_LIMIT.

Lemma storedKey_inj k k' w w' l l' :
  inRange w l -> inRange w' l' -> storedKey k w l = storedKey k' w' l' -> k = k' /\ w = w' /\ l = l'.
Proof.
  unfold inRange, MAX_WINDOW_MS, MAX_LIMIT, storedKey. intros [Hw Hl] [Hw' Hl'] H.
  change ([58] ++ decimal 16 w ++ [58] ++ decimal 16 l) with (58 :: decimal 16 w ++ 58 :: decimal 16 l) in H.
  change ([58] ++ decimal 16 w' ++ [58] ++ decimal 16 l') with (58 :: decimal 16 w' ++ 58 :: decimal 16 l') in H.
  rewrite !app_comm_cons, !app_assoc in H.
  apply split_last in H as [H Hb]; [|apply no_colon; lia..].
  apply split_last in H as [-> Ha]; [|apply no_colon; lia..].
  split; [done|]. split; apply (decimal_inj 16); (exact Ha || exact Hb || (change (10 ^ Z.of_nat 16) with 10000000000000000; lia)).
Qed.

(** ** The specification: a count over the history. *)

(** A call the store accepts: its key, the numbers of its rule, its time. *)
Record Call : Type := mkCall { k_key : jstring; k_window : Z; k_limit : Z; k_at : Z }.
Definition input (c : Call) : Input :=
  mkInput c.(k_key) (mkRule (Int c.(k_limit)) (Int c.(k_window))) (DateAt c.(k_at)).
Definition valid (c : Call) : Prop :=
  1 <= jlength c.(k_key) <= MAX_KEY_LENGTH /\ inRange c.(k_window) c.(k_limit).

Definition start (c : Call) : Z := (c.(k_at) / c.(k_window)) * c.(k_window).

(** Earlier calls for the key and the rule in the window that starts at [ws]. *)
Definition uses (h : list Call) (k : jstring) (w l ws : Z) : Z :=
  Z.of_nat (length (filter (fun c => k_key c = k /\ k_window c = w /\ k_limit c = l /\ start c = ws) h)).

Fixpoint run (h : list Call) (s : Windows) : Windows :=
  match h with
  | [] => s
  | c :: h' => run h' (consume (input c) s).1
  end.

Definition stepWindows (c : Call) (s : Windows) : Windows :=
  prune c.(k_at)
    (JsMap.set (storedKey c.(k_key) c.(k_window) c.(k_limit))
       (mkWindow (start c)
          (match JsMap.get (storedKey c.(k_key) c.(k_window) c.(k_limit)) s with
           | Some p => if p.(windowStartMs) =? start c then p.(count) else 0
           | None => 0
           end + 1)) s).

Lemma consume_valid c s :
  valid c ->
  let n := match JsMap.get (storedKey c.(k_key) c.(k_window) c.(k_limit)) s with
           | Some p => if p.(windowStartMs) =? start c then p.(count) else 0
           | None => 0
           end + 1 in
  consume (input c) s =
  (stepWindows c s,
   Ok (mkDecision (n <=? c.(k_limit)) c.(k_limit) (Z.max 0 (c.(k_limit) - n)) (newDate (start c + c.(k_window)))
         (if n <=? c.(k_limit) then 0 else Z.max 0 (start c + c.(k_window) - c.(k_at))))).
Proof.
  intros [Hk [Hw Hl]] n. unfold consume, input. cbn [i_key i_rule i_now limit windowMs num_val].
  unfold MAX_WINDOW_MS, MAX_LIMIT in *.
  rewrite (proj2 (Z.eqb_neq _ 0)), (proj2 (Z.ltb_ge _ _)) by lia. cbn [orb].
  assert (badRule (mkRule (Int (k_limit c)) (Int (k_window c))) = false) as ->; [|done].
  unfold badRule, isSafeInteger, num_lt, num_gt, MAX_SAFE_INTEGER, MAX_LIMIT, MAX_WINDOW_MS. cbn [limit windowMs].
  rewrite !(proj2 (Z.leb_le _ _)), !(proj2 (Z.ltb_ge _ _)) by lia. done.
Qed.

(** What the store knows of a history whose calls are not after [t]. *)
Record tracks (h : list Call) (t : Z) (s : Windows) : Prop := mkTracks {
  tr_wf : JsMap.wf s;
  tr_times : Forall (fun c => c.(k_at) <= t) h;
  tr_window : forall k w l, inRange w l ->
    match JsMap.get (storedKey k w l) s with
    | Some p =>
        p.(count) = uses h k w l p.(windowStartMs)
        /\ (exists t0, t0 <= t /\ p.(windowStartMs) = t0 / w * w)
        /\ (forall c, c ∈ h -> k_key c = k -> k_window c = w -> k_limit c = l -> start c <= p.(windowStartMs))
    | None =>
        forall c, c ∈ h -> k_key c = k -> k_window c = w -> k_limit c = l -> start c + MAX_WINDOW_MS < t
    end
}.

Lemma tracks_later h t t' s : t <= t' -> tracks h t s -> tracks h t' s.
Proof.
  intros Ht [Hw Hts Hk]. constructor; [done| |].
  - eapply Forall_impl; [exact Hts|]. cbn. lia.
  - intros k w l Hr. specialize (Hk k w l Hr). destruct (JsMap.get _ s) as [p|].
    + destruct Hk as (H1 & (t0 & H2 & H3) & H4). split; [done|]. split; [exists t0; split; [lia|done]|done].
    + intros c H1 H2 H3 H4. specialize (Hk c H1 H2 H3 H4). lia.
Qed.

Lemma start_bounds c : valid c -> k_at c - MAX_WINDOW_MS < start c <= k_at c.
Proof.
  intros [_ [Hw _]]. unfold start. pose proof (Z.div_mod (k_at c) (k_window c)).
  pose proof (Z.mod_pos_bound (k_at c) (k_window c)). unfold MAX_WINDOW_MS in *. lia.
Qed.

Lemma uses_zero h k w l ws :
  (forall c, c ∈ h -> k_key c = k -> k_window c = w -> k_limit c = l -> start c <> ws) -> uses h k w l ws = 0.
Proof.
  intros H. unfold uses. induction h as [|c h IH]; [done|]. rewrite filter_cons_False.
  - apply IH. intros x Hx. apply H. by right.
  - intros (H1 & H2 & H3 & H4). eapply H; [left|done..].
Qed.

(** The count the store starts from is the history's. *)
Lemma tracked_count h c s :
  valid c -> tracks h c.(k_at) s ->
  match JsMap.get (storedKey c.(k_key) c.(k_window) c.(k_limit)) s with
  | Some p => if p.(windowStartMs) =? start c then p.(count) else 0
  | None => 0
  end = uses h c.(k_key) c.(k_window) c.(k_limit) (start c).
Proof.
  intros Hv [_ _ Hk]. pose proof (start_bounds c Hv) as Hb. destruct Hv as [_ Hr].
  specialize (Hk (k_key c) (k_window c) (k_limit c) Hr). destruct (JsMap.get _ s) as [p|].
  - destruct Hk as (Hc & (t0 & Ht0 & Hws) & Hle). destruct (p.(windowStartMs) =? start c) eqn:E; breflect; [by rewrite Hc, E|].
    symmetry. apply uses_zero. intros x H1 H2 H3 H4. specialize (Hle x H1 H2 H3 H4).
    assert (windowStartMs p <= start c); [|lia]. rewrite Hws. unfold start.
    apply Z.mul_le_mono_nonneg_r; [destruct Hr as [? _]; lia|]. apply Z.div_le_mono; [destruct Hr as [? _]; lia|done].
  - symmetry. apply uses_zero. intros x H1 H2 H3 H4. specialize (Hk x H1 H2 H3 H4). lia.
Qed.

Lemma uses_snoc h c k w l ws :
  uses (h ++ [c]) k w l ws =
  uses h k w l ws + (if decide (k_key c = k /\ k_window c = w /\ k_limit c = l /\ start c = ws) then 1 else 0).
Proof.
  unfold uses. rewrite filter_app, length_app, filter_cons, filter_nil.
  destruct (decide _); cbn [length]; lia.
Qed.

Lemma prune_get nowMs s k :
  JsMap.wf s ->
  JsMap.get k (prune nowMs s) = JsMap.get k s
  \/ (JsMap.get k (prune nowMs s) = None
     /\ exists p, JsMap.get k s = Some p /\ p.(windowStartMs) + MAX_WINDOW_MS < nowMs).
Proof.
  intros Hw. unfold prune. destruct (10000 <? _); [|by left]. unfold Windows in *. rewrite JsMap.get_filter by done.
  destruct (JsMap.get k s) as [p|]; [|by left]. cbn [snd]. destruct (decide _) as [|Hn]; [by left|].
  right. split; [done|]. exists p. split; [done|]. lia.
Qed.

Lemma tracks_step h c s :
  valid c -> tracks h c.(k_at) s -> tracks (h ++ [c]) c.(k_at) (stepWindows c s).
Proof.
  intros Hv Ht. pose proof (tracked_count h c s Hv Ht) as Hcount. pose proof (start_bounds c Hv) as Hb.
  destruct Ht as [Hw Hts Hk]. unfold stepWindows. rewrite Hcount.
  set (key := storedKey (k_key c) (k_window c) (k_limit c)). set (p0 := mkWindow _ _).
  assert (Hw' : JsMap.wf (JsMap.set key p0 s)) by (by apply JsMap.wf_set).
  constructor.
  - unfold prune. destruct (10000 <? _); [by apply JsMap.wf_filter|done].
  - apply Forall_app. split; [done|]. by constructor.
  - intros k w l Hr. pose proof (prune_get (k_at c) _ (storedKey k w l) Hw') as Hp.
    rewrite JsMap.get_set in Hp. destruct (decide (key = storedKey k w l)) as [He|He].
    + apply storedKey_inj in He as (<- & <- & <-); [|apply Hv|done].
      destruct Hp as [->|(_ & p & [= <-] & Hlt)]; [|cbn in Hlt; lia]. cbn [p0 windowStartMs count].
      split; [rewrite uses_snoc, decide_True by done; lia|]. split; [exists (k_at c); split; [lia|done]|].
      intros x [Hx| ->%list_elem_of_singleton]%elem_of_app H2 H3 _; [|lia].
      apply (proj1 (Forall_forall _ _) Hts) in Hx. cbn in Hx. unfold start. rewrite H3.
      apply Z.mul_le_mono_nonneg_r; [destruct Hr as [? _]; lia|]. apply Z.div_le_mono; [destruct Hr as [? _]; lia|done].
    + assert (Hne : ~ (k_key c = k /\ k_window c = w /\ k_limit c = l)) by (intros (<- & <- & <-); by apply He).
      specialize (Hk k w l Hr). destruct Hp as [->|(-> & p & Hgp & Hlt)].
      * destruct (JsMap.get _ s) as [p|].
        -- destruct Hk as (H1 & H2 & H3). split; [|split; [done|]].
           ++ rewrite uses_snoc, decide_False by tauto. lia.
           ++ intros x [Hx| ->%list_elem_of_singleton]%elem_of_app ? ? ?; [by apply H3|tauto].
        -- intros x [Hx| ->%list_elem_of_singleton]%elem_of_app ? ? ?; [by apply Hk|tauto].
      * rewrite Hgp in Hk. destruct Hk as (_ & _ & H3).
        intros x [Hx| ->%list_elem_of_singleton]%elem_of_app H4 H5 H6; [|tauto]. specialize (H3 x Hx H4 H5 H6). lia.
Qed.

Lemma run_tracks h c s :
  Forall valid h -> StronglySorted (fun a b => k_at a <= k_at b) (h ++ [c]) ->
  forall h0, tracks h0 (from_option k_at (k_at c) (head h)) s -> tracks (h0 ++ h) (k_at c) (run h s).
Proof.
  revert s. induction h as [|x h IH]; intros s Hv Hs h0 Ht; cbn [run].
  - rewrite app_nil_r. exact Ht.
  - apply Forall_cons in Hv as [Hx Hv]. cbn [head from_option] in Ht. cbn in Hs. inversion Hs as [|? ? Hs' Hall]; subst.
    rewrite consume_valid by done. cbn [fst]. replace (h0 ++ x :: h) with ((h0 ++ [x]) ++ h) by (by rewrite <- app_assoc).
    apply IH; [done|done|]. eapply tracks_later; [|by apply tracks_step].
    destruct h as [|y h]; cbn; [by apply Forall_cons in Hall as [? _]|by apply Forall_cons in Hall as [? _]].
Qed.

(** What the specification answers: the [n]-th call of its window. *)
Definition answer (c : Call) (n : Z) : Decision :=
  mkDecision (n <=? c.(k_limit)) c.(k_limit) (Z.max 0 (c.(k_limit) - n)) (newDate (start c + c.(k_window)))
    (if n <=? c.(k_limit) then 0 else start c + c.(k_window) - c.(k_at)).

(** Which call of its window a call after [h] is. *)
Definition nth (h : list Call) (c : Call) : Z := uses h c.(k_key) c.(k_window) c.(k_limit) (start c) + 1.

Lemma in_window c : valid c -> start c <= c.(k_at) < start c + c.(k_window).
Proof.
  intros [_ [Hw _]]. unfold start. pose proof (Z.div_mod (k_at c) (k_window c) ltac:(lia)).
  pose proof (Z.mod_pos_bound (k_at c) (k_window c) ltac:(lia)). lia.
Qed.

Lemma tracks_run h c :
  Forall valid h -> StronglySorted (fun a b => k_at a <= k_at b) (h ++ [c]) -> tracks h c.(k_at) (run h []).
Proof.
  intros Hv Hs. apply (run_tracks h c [] Hv Hs []).
  constructor; [apply NoDup_nil_2|constructor|]. intros k w l _ x Hx. by apply elem_of_nil in Hx.
Qed.

Lemma consume_answers h c s : valid c -> tracks h c.(k_at) s -> (consume (input c) s).2 = Ok (answer c (nth h c)).
Proof.
  intros Hv Ht. rewrite consume_valid by done. rewrite (tracked_count h c _ Hv Ht). fold (nth h c). cbn [snd].
  pose proof (in_window c Hv). unfold answer. destruct (nth h c <=? k_limit c); [done|]. do 2 f_equal. lia.
Qed.

(** The store implements a fixed window exactly. After any history of calls
    in time order, for any keys and rules, the answer to the next call depends
    only on how many earlier calls had the same key and rule in its window: the
    first [limit] are allowed and the rest refused, [remaining] counts down to
    zero, and a refused call is told the time to the end of the window. Distinct
    keys or rules never share a counter, and pruning never changes an answer. *)
Theorem fixed_window (h : list Call) (c : Call)
    (Hvalid : Forall valid h) (Hcall : valid c)
    (Hclock : StronglySorted (fun a b => k_at a <= k_at b) (h ++ [c])) :
  let n := uses h c.(k_key) c.(k_window) c.(k_limit) (start c) + 1 in
  (consume (input c) (run h [])).2 =
    Ok (mkDecision (n <=? c.(k_limit)) c.(k_limit) (Z.max 0 (c.(k_limit) - n)) (newDate (start c + c.(k_window)))
          (if n <=? c.(k_limit) then 0 else start c + c.(k_window) - c.(k_at)))
  /\ start c <= c.(k_at) < start c + c.(k_window).
Proof. split; [by apply consume_answers, tracks_run|by apply in_window]. Qed.

Definition sample_call (at_ : Z) : Call := mkCall (js "login:10.0.0.1") 60000 2 at_.

Lemma fixed_window_witness :
  (consume (input (sample_call 61500)) (run [sample_call 500; sample_call 60000; sample_call 61000] [])).2 =
    Ok (mkDecision false 2 0 (DateAt 120000) 58500).
Proof.
  refine (proj1 (fixed_window [sample_call 500; sample_call 60000; sample_call 61000] (sample_call 61500) _ _ _)).
  - repeat constructor; vm_compute; congruence.
  - repeat constructor; vm_compute; congruence.
  - repeat constructor; vm_compute; congruence.
Defined.
End RateLimit.
