(* ===== verification/Env.v ===== *)
(** * The captured environment: [shared/env].

    The reader of environment variables: each variable is read once, the
    problems found are collected under the variable's name and reported
    together, and what was resolved is kept for a manifest in which secrets
    are redacted. *)
From S2P Require Import Prelude JsMap Errors Ids IsoDate Json JsonPrint Pagination.

Module Env.

(** @src src/shared/secret/value.ts:4-17 SecretString
    A private text; [reveal] is the only way to it. *)
Record SecretString : Type := mkSecret { reveal : jstring }.
(** @src src/shared/secret/value.ts:19-33 SecretString.toString, toJSON, toPrimitive, inspect *)
Definition presented (s : SecretString) : jstring := js "[REDACTED]".

(** @src src/shared/env/parse.ts:1-2 validKey
    [/^[A-Z][A-Z0-9_]*$/]. *)
Definition validKey (value : jstring) : bool :=
  match value with
  | c :: rest => isUpper c && forallb (fun c => isUpper c || isDigit c || (c =? 95)) rest
  | [] => false
  end.

(** @src src/shared/env/parse.ts:4-8 integer
    [Number] rounds a decimal outside the safe integers to a number outside
    them; [-0] is the number 0. *)
Definition integer (value : jstring) : option Z :=
  let '(sign, natural) := match value with 45 :: r => (-1, r) | _ => (1, value) end in
  if negb (Validation.isDecimal natural) then None
  else
    let n := sign * number natural in
    if isSafeInteger (Int n) then Some n else None.

(** @src src/shared/env/lookup.ts:1-1 Lookup
    The keys the program looks up are ASCII literals. *)
Definition Lookup : Type := string -> option jstring.

(** @src src/shared/env/lookup.ts:3-6 map *)
Definition map (values : list (jstring * jstring)) : Lookup := fun key => JsMap.get (js key) values.

(** [encodeURIComponent] throws on a surrogate without its partner. *)
Fixpoint paired (s : jstring) : bool :=
  match s with
  | [] => true
  | c :: r =>
      if isHigh c then match r with d :: r' => isLow d && paired r' | [] => false end
      else negb (isLow c) && paired r
  end.

(** @src src/shared/env/os.ts:10-30 os
    [env] is the entries of [process.env]. *)
Definition os (env : list (jstring * jstring)) : Res Lookup :=
  if forallb (fun '(key, value) => paired key && paired value) env
  then Ok (map (foldl (fun m '(k, v) => JsMap.set k v m) [] env))
  else Err (fail_with invalid "invalid environment source" "env.source").

Inductive Source : Type := environment_source | default_source.

(** @src src/shared/env/reader.ts:12-17 Var *)
Record Var : Type := mkVar { key : string; value : jstring; source : Source; secret_ : bool }.

(** @src src/shared/env/reader.ts:19-24 Reader *)
Record Reader : Type := mkReader {
  seen : list string; problems : list (string * string); resolved : list Var
}.

Definition newReader : Reader := mkReader [] [] [].

(** What a method of the reader computes, and the reader after it. *)
Definition M (A : Type) : Type := Reader -> A * Reader.
#[global] Instance M_ret : MRet M := fun A a r => (a, r).
#[global] Instance M_bind : MBind M := fun A B f m r => let '(a, r') := m r in f a r'.

(** @src src/shared/env/reader.ts:26-28 Reader.#problem *)
Definition problem (k reason : string) : M unit := fun r =>
  (tt, mkReader r.(seen) (JsMap.set (if validKey (js k) then k else "<key>"%string) reason r.(problems)) r.(resolved)).

Section Methods.
  (** What the reader's lookup answers; [VUndefined] where nothing is set. *)
  Context (lookup : string -> JsValue).

(** @src src/shared/env/reader.ts:30-48 Reader.#read
    [None] is [{ valid: false }]. *)
Definition read (k : string) : M (option (option jstring)) := fun r =>
  if negb (validKey (js k)) then (None, (problem k "invalid_key" r).2)
  else if bool_decide (k ∈ r.(seen)) then (None, (problem k "duplicate_key" r).2)
  else
    let r := mkReader (r.(seen) ++ [k]) r.(problems) r.(resolved) in
    match lookup k with
    | VUndefined => (Some None, r)
    | VStr s => (Some (Some s), r)
    | _ => (None, (problem k "invalid_source" r).2)
    end.

(** @src src/shared/env/reader.ts:50-62 Reader.#record *)
Definition record (k : string) (v : jstring) (present hidden : bool) : M unit := fun r =>
  (tt, mkReader r.(seen) r.(problems)
         (r.(resolved) ++ [mkVar k (if hidden then js "[REDACTED]" else v)
                             (if present then environment_source else default_source) hidden])).

Definition present (v : option jstring) : bool := match v with Some _ => true | None => false end.

(** @src src/shared/env/reader.ts:64-70 Reader.string *)
Definition string_ (k : string) (fallback : jstring) : M jstring :=
  result ← read k;
  match result with
  | None => mret []
  | Some found =>
      let v := default fallback found in
      record k v (present found) false ≫= fun _ => mret v
  end.

(** @src src/shared/env/reader.ts:72-81 Reader.required *)
Definition required (k : string) : M jstring :=
  result ← read k;
  match result with
  | None => mret []
  | Some (None | Some []) => problem k "required" ≫= fun _ => mret []
  | Some (Some v) => record k v true false ≫= fun _ => mret v
  end.

(** @src src/shared/env/reader.ts:83-92 Reader.secret *)
Definition secret (k : string) : M SecretString :=
  result ← read k;
  match result with
  | None => mret (mkSecret [])
  | Some (None | Some []) => problem k "required" ≫= fun _ => mret (mkSecret [])
  | Some (Some v) => record k v true true ≫= fun _ => mret (mkSecret v)
  end.

(** @src src/shared/env/reader.ts:94-119 Reader.int *)
Definition int (k : string) (fallback min max : num) : M Z :=
  if negb (forallb isSafeInteger [fallback; min; max]) || (num_val max <? num_val min)
     || num_lt fallback (num_val min) || num_gt fallback (num_val max)
  then problem k "invalid_definition" ≫= fun _ => mret 0
  else
    result ← read k;
    match result with
    | None => mret 0
    | Some found =>
        match (match found with None => Some (num_val fallback) | Some s => integer s end) with
        | None => problem k "invalid_integer" ≫= fun _ => mret 0
        | Some v =>
            if (v <? num_val min) || (num_val max <? v) then problem k "out_of_range" ≫= fun _ => mret 0
            else record k (intText v) (present found) false ≫= fun _ => mret v
        end
    end.

(** @src src/shared/env/reader.ts:121-134 Reader.boolean *)
Definition boolean (k : string) (fallback : bool) : M bool :=
  result ← read k;
  match result with
  | None => mret false
  | Some found =>
      match found with
      | Some s =>
          if negb (bool_decide (s = js "true")) && negb (bool_decide (s = js "false"))
          then problem k "invalid_boolean" ≫= fun _ => mret false
          else
            let v := bool_decide (s = js "true") in
            record k (js (if v then "true" else "false")) true false ≫= fun _ => mret v
      | None => record k (js (if fallback then "true" else "false")) false false ≫= fun _ => mret fallback
      end
  end.

(** @src src/shared/env/reader.ts:136-160 Reader.enumeration
    [new Set(allowed)] has as many members as [allowed] exactly when it
    repeats none. *)
Definition enumeration (k : string) (fallback : jstring) (allowed : list jstring) : M jstring :=
  if negb (bool_decide (NoDup allowed)) || bool_decide ([] ∈ allowed) || negb (bool_decide (fallback ∈ allowed))
  then problem k "invalid_definition" ≫= fun _ => mret []
  else
    result ← read k;
    match result with
    | None => mret []
    | Some found =>
        let v := default fallback found in
        if negb (bool_decide (v ∈ allowed)) then problem k "invalid_choice" ≫= fun _ => mret []
        else record k v (present found) false ≫= fun _ => mret v
    end.
End Methods.

(** @src src/shared/env/reader.ts:162-170 Reader.check *)
Definition check (r : Reader) : Res unit :=
  match r.(problems) with
  | [] => Ok tt
  | fields =>
      Err (failure invalid "invalid configuration"
             (mkOptions (Some "env.invalid"%string) (Some fields) [] (CForeign VUndefined)))
  end.

(** [(a, b) => a.key < b.key ? -1 : a.key > b.key ? 1 : 0]. *)
Definition byKey (a b : Var) : Z :=
  match jcompare (js a.(key)) (js b.(key)) with Lt => -1 | Eq => 0 | Gt => 1 end.

(** @src src/shared/env/reader.ts:172-184 Reader.manifest *)
Definition manifest (r : Reader) : Res (list Var) :=
  _ ← check r; Ok (sort_by byKey r.(resolved)).

(** ** What a program over the reader has learnt when no problem is reported. *)

(** When the reader ends without a problem it began without one, and the
    value returned is as [P] says. *)
Definition yields {A} (m : M A) (P : A -> Prop) : Prop :=
  forall r, problems (m r).2 = [] -> problems r = [] /\ P (m r).1.

(** The problems recorded name a variable of [K] and a reason of [R]. *)
Definition within (K R : list string) (r : Reader) : Prop :=
  Forall (fun '(k, reason) => k ∈ K /\ reason ∈ R) r.(problems).
Definition reports (K R : list string) {A} (m : M A) : Prop :=
  forall r, within K R r -> within K R (m r).2.

(** The reasons the reader gives. *)
Definition REASONS : list string :=
  ["invalid_key"; "duplicate_key"; "invalid_source"; "required"; "invalid_definition"; "invalid_integer";
   "out_of_range"; "invalid_boolean"; "invalid_choice"]%string.

Section Facts.
  Context (lookup : string -> JsValue).

Lemma yields_ret {A} (a : A) (P : A -> Prop) : P a -> yields (mret a) P.
Proof. by intros Ha r. Qed.

Lemma yields_bind {A B} (m : M A) (f : A -> M B) P Q :
  yields m P -> (forall a, yields (f a) (fun b => P a -> Q b)) -> yields (m ≫= f) Q.
Proof.
  intros Hm Hf r. cbn. unfold mbind, M_bind. destruct (m r) as [a r1] eqn:E. intros Hr.
  destruct (Hf a r1 Hr) as [H1 HQ]. specialize (Hm r). rewrite E in Hm. destruct (Hm H1) as [H0 HP]. auto.
Qed.

Lemma yields_weaken {A} (m : M A) (P Q : A -> Prop) : (forall a, P a -> Q a) -> yields m P -> yields m Q.
Proof. intros HPQ Hm r Hr. destruct (Hm r Hr). auto. Qed.

(** A reader that recorded a problem reports one. *)
Lemma set_nonempty (k v : string) m : JsMap.set k v m <> [].
Proof. destruct m as [|[k' v'] m]; cbn; [done|]. by destruct (decide (k = k')). Qed.

Lemma yields_problem {A} k reason (f : unit -> M A) P :
  (forall u, yields (f u) (fun _ => True)) -> yields (problem k reason ≫= f) P.
Proof. intros Hf r Hr. destruct (Hf tt _ Hr) as [H _]. by destruct (set_nonempty _ _ _ H). Qed.

Lemma yields_record {A} k v p h (f : unit -> M A) P :
  (forall u, yields (f u) P) -> yields (record k v p h ≫= f) P.
Proof. intros Hf r Hr. exact (Hf tt _ Hr). Qed.

(** A variable read without a problem is what the lookup answers. *)
Definition answers (k : string) (found : option jstring) : Prop :=
  lookup k = match found with None => VUndefined | Some s => VStr s end.

Lemma yields_read k : yields (read lookup k) (fun result => exists found, result = Some found /\ answers k found).
Proof.
  intros r. unfold read. destruct (negb _); [intros H; by destruct (set_nonempty _ _ _ H)|].
  destruct (bool_decide _); [intros H; by destruct (set_nonempty _ _ _ H)|].
  destruct (lookup k) eqn:E; try (intros H; by destruct (set_nonempty _ _ _ H)).
  - intros H. split; [exact H|]. by exists None.
  - intros H. split; [exact H|]. by exists (Some s).
Qed.

(** A method's postcondition, from the variable it read. *)
Lemma yields_method {A} k (f : option (option jstring) -> M A) P :
  (forall found, yields (f (Some found)) (fun a => answers k found -> P a)) ->
  yields (f None) (fun _ => True) -> yields (read lookup k ≫= f) P.
Proof.
  intros Hs Hn. eapply yields_bind; [apply yields_read|]. intros [found|].
  - eapply yields_weaken; [|apply Hs]. cbn. intros a Ha (found' & [= ->] & Hf). auto.
  - eapply yields_weaken; [|exact Hn]. by intros a _ (found & ? & _).
Qed.

Lemma string_yields k fallback :
  yields (string_ lookup k fallback) (fun v => exists found, answers k found /\ v = default fallback found).
Proof.
  apply yields_method; [|by apply yields_ret]. intros found. apply yields_record. intros _. apply yields_ret. eauto.
Qed.

Lemma secret_yields k :
  yields (secret lookup k) (fun v => v.(reveal) <> [] /\ answers k (Some v.(reveal))).
Proof.
  apply yields_method; [|by apply yields_ret].
  intros [[|c v]|]; [by apply yields_problem| |by apply yields_problem].
  apply yields_record. intros _. by apply yields_ret.
Qed.

Lemma int_yields k fallback min max :
  yields (int lookup k fallback min max)
    (fun v => num_val min <= v <= num_val max /\
       exists found, answers k found /\
         match found with None => v = num_val fallback | Some s => integer s = Some v end).
Proof.
  unfold int. destruct (_ || _ || _ || _); [by apply yields_problem|].
  apply yields_method; [|by apply yields_ret]. intros found.
  destruct (match found with None => _ | Some _ => _ end) as [v|] eqn:Ev; [|by apply yields_problem].
  destruct (_ || _) eqn:E; [by apply yields_problem|]. breflect. apply yields_record. intros _.
  apply yields_ret. intros Hf. split; [lia|]. exists found. split; [done|]. destruct found; congruence.
Qed.

Lemma boolean_yields k fallback :
  yields (boolean lookup k fallback) (fun v => exists found, answers k found /\
    match found with None => v = fallback | Some s => s = js (if v then "true" else "false") end).
Proof.
  apply yields_method; [|by apply yields_ret]. intros [s|].
  - destruct (bool_decide_reflect (s = js "true")) as [->|].
    + apply yields_record. intros _. apply yields_ret. intros Hf. by exists (Some (js "true")).
    + destruct (bool_decide_reflect (s = js "false")) as [->|]; [|by apply yields_problem].
      apply yields_record. intros _. apply yields_ret. intros Hf. by exists (Some (js "false")).
  - apply yields_record. intros _. apply yields_ret. intros Hf. by exists None.
Qed.

Lemma enumeration_yields k fallback allowed :
  yields (enumeration lookup k fallback allowed)
    (fun v => v ∈ allowed /\ exists found, answers k found /\ v = default fallback found).
Proof.
  unfold enumeration. destruct (_ || _ || _); [by apply yields_problem|].
  apply yields_method; [|by apply yields_ret]. intros found.
  destruct (bool_decide_reflect (default fallback found ∈ allowed)); [|by apply yields_problem].
  apply yields_record. intros _. apply yields_ret. eauto.
Qed.

  Context (K R : list string).

Lemma reports_ret {A} (a : A) : reports K R (mret a).
Proof. by intros r. Qed.

Lemma reports_bind {A B} (m : M A) (f : A -> M B) :
  reports K R m -> (forall a, reports K R (f a)) -> reports K R (m ≫= f).
Proof.
  intros Hm Hf r Hr. unfold mbind, M_bind. specialize (Hm r Hr). destruct (m r) as [a r1]. by apply Hf.
Qed.

Lemma reports_record k v p h : reports K R (record k v p h).
Proof. by intros r. Qed.

Lemma within_set (k reason : string) m :
  k ∈ K -> reason ∈ R -> Forall (fun '(k, reason) => k ∈ K /\ reason ∈ R) m ->
  Forall (fun '(k, reason) => k ∈ K /\ reason ∈ R) (JsMap.set k reason m).
Proof.
  intros Hk Hr. induction 1 as [|[k0 r0] m H0 Hm IH]; cbn; [by constructor|].
  destruct (decide (k = k0)) as [->|]; by constructor.
Qed.

  Context (HR : forall reason, reason ∈ REASONS -> reason ∈ R).

Lemma reports_problem k reason : validKey (js k) = true -> k ∈ K -> reason ∈ REASONS -> reports K R (problem k reason).
Proof. intros Hv Hk Hr r H. unfold problem, within. cbn. rewrite Hv. apply within_set; auto. Qed.

Lemma reports_read k : validKey (js k) = true -> k ∈ K -> reports K R (read lookup k).
Proof.
  intros Hv Hk r H. unfold read. rewrite Hv. cbn [negb].
  destruct (bool_decide _); [by apply reports_problem; [..|repeat constructor|]|].
  destruct (lookup k); try exact H; (apply reports_problem; [done..|repeat constructor|exact H]).
Qed.

(** The program's reads, problems and records follow one pattern. *)
Ltac follow Hv Hk :=
  repeat first
    [ apply reports_ret | apply reports_record | apply (reports_read _ Hv Hk)
    | apply (reports_problem _ _ Hv Hk); repeat constructor
    | apply reports_bind; [|intros ?] | case_match ].

Lemma string_reports k fallback : validKey (js k) = true -> k ∈ K -> reports K R (string_ lookup k fallback).
Proof. intros Hv Hk. unfold string_. follow Hv Hk. Qed.

Lemma required_reports k : validKey (js k) = true -> k ∈ K -> reports K R (required lookup k).
Proof. intros Hv Hk. unfold required. follow Hv Hk. Qed.

Lemma secret_reports k : validKey (js k) = true -> k ∈ K -> reports K R (secret lookup k).
Proof. intros Hv Hk. unfold secret. follow Hv Hk. Qed.

Lemma int_reports k fallback min max : validKey (js k) = true -> k ∈ K -> reports K R (int lookup k fallback min max).
Proof. intros Hv Hk. unfold int. follow Hv Hk. Qed.

Lemma boolean_reports k fallback : validKey (js k) = true -> k ∈ K -> reports K R (boolean lookup k fallback).
Proof. intros Hv Hk. unfold boolean. follow Hv Hk. Qed.

Lemma enumeration_reports k fallback allowed : validKey (js k) = true -> k ∈ K -> reports K R (enumeration lookup k fallback allowed).
Proof. intros Hv Hk. unfold enumeration. follow Hv Hk. Qed.
End Facts.

(** A secret that is set leaves no trace of its text in the reader. *)
Lemma secret_hidden k lookup lookup' r :
  (exists c s c' s', lookup k = VStr (c :: s) /\ lookup' k = VStr (c' :: s')) ->
  (secret lookup k r).2 = (secret lookup' k r).2.
Proof.
  intros (c & s & c' & s' & E & E'). unfold secret, mbind, M_bind, read.
  destruct (negb _); [done|]. destruct (bool_decide _); [done|]. by rewrite E, E'.
Qed.
End Env.
