(* ===== verification/Config.v ===== *)
(** * The runtime configuration: [platform/runtime/config.ts].

    What a process starts with is read from its environment, once, and every
    variable is checked before anything runs.  The host's URL parser is an
    argument. *)
From S2P Require Import Prelude JsMap Errors Ids IsoDate Json JsonPrint Pagination Env.

Module Config.
Import Env.

(** What the code reads of a [URL]. *)
Record Url : Type := mkUrl {
  protocol : jstring; origin : jstring; username : jstring; password : jstring;
  search : jstring; hash : jstring; href : jstring
}.

(** @src src/platform/runtime/config.ts:18-23 TrustProxy *)
Inductive TrustProxy : Type :=
| TrustNone
| TrustHops (n : Z)
| TrustList (entries : list jstring).

(** @src src/platform/runtime/config.ts:29-37 RuntimeConfig.database *)
Record Database : Type := mkDatabase {
  db_url : SecretString; maxConnections : Z; timeoutMs : Z; migrationTimeoutMs : Z
}.

(** @src src/platform/runtime/config.ts:149-164 NatsConfig *)
Record Nats : Type := mkNats {
  nats_url : SecretString; stream : jstring; subjectPrefix : jstring; consumer : jstring;
  nats_timeoutMs : Z; maxAgeMs : Z; maxBytes : Z
}.

(** @src src/platform/runtime/config.ts:68-76 MailConfig *)
Record MailConfig : Type := mkMail {
  transport : jstring; smtpUrl : option SecretString; from : jstring; appUrl : option jstring
}.

(** @src src/platform/runtime/config.ts:39-50 RuntimeConfig.http *)
Record Http : Type := mkHttp {
  trustProxy : TrustProxy; devEndpoints : bool; corsOrigins : list jstring; signupFloorMs : Z
}.

(** @src src/platform/runtime/config.ts:25-61 RuntimeConfig
    The source casts the modes it read to their literal types; here they stay
    the texts they are, and that they are among the literals is proved. *)
Record RuntimeConfig : Type := mkConfig {
  environment : jstring; storage : jstring; eventTransport : jstring;
  database : option Database; nats : option Nats; http : Http;
  eventRetentionHours : Z; shutdownDrainMs : Z;
  metricsToken : option SecretString; mail : MailConfig
}.

(** [value.split(',')]. *)
Fixpoint splitComma (s : jstring) : list jstring :=
  match s with
  | [] => [[]]
  | c :: r =>
      if c =? 44 then [] :: splitComma r
      else match splitComma r with w :: ws => (c :: w) :: ws | [] => [[c]] end
  end.

(** [value.trim() === '']. *)
Definition blank (s : jstring) : bool := bool_decide (trim s = []).

(** @src src/platform/runtime/config.ts:78-78 PROXY_NAMES *)
Definition PROXY_NAMES : list jstring := js <$> ["loopback"; "linklocal"; "uniquelocal"]%string.

(** [[0-9A-Fa-f:.]]. *)
Definition isAddressChar (c : Z) : bool :=
  isDigit c || ((65 <=? c) && (c <=? 70)) || ((97 <=? c) && (c <=? 102)) || (c =? 58) || (c =? 46).

(** The longest prefix of address characters, and the rest. *)
Fixpoint addressRun (s : jstring) : jstring * jstring :=
  match s with
  | c :: r => if isAddressChar c then (fun p => (c :: p.1, p.2)) (addressRun r) else ([], s)
  | [] => ([], [])
  end.

(** @src src/platform/runtime/config.ts:105-109 parseTrustProxy
    [/^(?=[0-9A-Fa-f:.]*[:.])[0-9A-Fa-f:.]+(\/[0-9]{1,3})?$/]: the class holds
    no slash, so the run of it is the longest one. *)
Definition isAddress (entry : jstring) : bool :=
  let '(run, rest) := addressRun entry in
  existsb (fun c => (c =? 58) || (c =? 46)) run
  && match rest with
     | [] => true
     | 47 :: ds => forallb isDigit ds && (1 <=? jlength ds) && (jlength ds <=? 3)
     | _ => false
     end.

(** @src src/platform/runtime/config.ts:100-112 parseTrustProxy *)
Definition parseTrustProxy (value : option jstring) : option TrustProxy :=
  match value with
  | None => Some TrustNone
  | Some v =>
      if bool_decide (v = js "false") then Some TrustNone
      else
        match (match v with [c] => if (49 <=? c) && (c <=? 57) then Some (c - 48) else None | _ => None end) with
        | Some hops => Some (TrustHops hops)
        | None =>
            let entries := trim <$> splitComma v in
            if (0 <? Z.of_nat (length entries)) && forallb (fun entry => bool_decide (entry ∈ PROXY_NAMES) || isAddress entry) entries
            then Some (TrustList entries) else None
        end
  end.

(** [/^smtps?:\/\//]. *)
Definition isSmtpUrl (s : jstring) : bool :=
  bool_decide (js "smtp://" `prefix_of` s) || bool_decide (js "smtps://" `prefix_of` s).

(** [url.protocol === 'https:' || url.protocol === 'http:']. *)
Definition isWeb (u : Url) : bool :=
  bool_decide (u.(protocol) = js "https:") || bool_decide (u.(protocol) = js "http:").

(** [text.replace(/\/$/, '')]. *)
Definition withoutSlash (s : jstring) : jstring :=
  match reverse s with 47 :: r => reverse r | _ => s end.

Section WithHost.
  (** [new URL(text)]: [None] where the constructor throws. *)
  Context (URL : jstring -> option Url).

(** @src src/platform/runtime/config.ts:84-96 parseOrigins *)
Definition validOrigin (o : jstring) : bool :=
  match URL o with
  | Some url =>
      isWeb url && bool_decide (url.(origin) = o) && bool_decide (url.(username) = []) && bool_decide (url.(password) = [])
  | None => false
  end.

(** @src src/platform/runtime/config.ts:80-98 parseOrigins *)
Definition parseOrigins (value : option jstring) : option (list jstring) :=
  match value with
  | None => Some []
  | Some v =>
      if blank v then Some []
      else
        let origins := trim <$> splitComma v in
        if forallb validOrigin origins then Some origins else None
  end.

(** @src src/platform/runtime/config.ts:299-317 parseAppUrl
    [None] is the source's [null]; [Some None] its [undefined]. *)
Definition parseAppUrl (value : option jstring) : option (option jstring) :=
  match value with
  | None => Some None
  | Some v =>
      if blank v then Some None
      else
        match URL v with
        | None => None
        | Some url =>
            if negb (isWeb url) || negb (bool_decide (url.(username) = [])) || negb (bool_decide (url.(password) = []))
               || negb (bool_decide (url.(search) = [])) || negb (bool_decide (url.(hash) = []))
            then None
            else Some (Some (withoutSlash url.(href)))
        end
  end.

(** [err(failure('invalid', message, { type, fields }))]. *)
Definition refused {T} (message type : string) (fields : list (string * string)) : Res T :=
  Err (failure invalid message (mkOptions (Some type) (Some fields) [] (CForeign VUndefined))).
Definition invalidField {T} (variable reason : string) : Res T :=
  refused "invalid configuration" "env.invalid" [(variable, reason)].

Section Parse.
  Context (lookup : Lookup).

(** The reader's lookup, as a value of any type. *)
Definition source (k : string) : JsValue :=
  match lookup k with Some s => VStr s | None => VUndefined end.

(** @src src/platform/runtime/config.ts:139-147 parseRuntimeConfig *)
Definition readDatabase (storage : jstring) : M (option Database) :=
  if bool_decide (storage = js "postgres") then
    url ← secret source "N2F_DATABASE_URL";
    connections ← int source "N2F_DATABASE_MAX_CONNECTIONS" (Int 10) (Int 1) (Int 64);
    timeout ← int source "N2F_DATABASE_TIMEOUT_MS" (Int 5000) (Int 1) (Int 30000);
    migration ← int source "N2F_MIGRATION_TIMEOUT_MS" (Int 120000) (Int 1000) (Int 3600000);
    mret (Some (mkDatabase url connections timeout migration))
  else mret None.

(** @src src/platform/runtime/config.ts:149-164 parseRuntimeConfig *)
Definition readNats (transport : jstring) : M (option Nats) :=
  if bool_decide (transport = js "nats") then
    url ← secret source "N2F_NATS_URL";
    stream ← string_ source "N2F_NATS_STREAM" (js "n2f_events");
    prefix ← string_ source "N2F_NATS_SUBJECT_PREFIX" (js "n2f.events.");
    consumer ← string_ source "N2F_NATS_CONSUMER" (js "audit");
    timeout ← int source "N2F_NATS_TIMEOUT_MS" (Int 1000) (Int 1) (Int 5000);
    hours ← int source "N2F_NATS_STREAM_MAX_AGE_HOURS" (Int 168) (Int 1) (Int 8760);
    megabytes ← int source "N2F_NATS_STREAM_MAX_MB" (Int 64) (Int 1) (Int 1048576);
    mret (Some (mkNats url stream prefix consumer timeout (hours * 3600000) (megabytes * 1024 * 1024)))
  else mret None.

(** What the reader collects before the problems are checked: the
    configuration but for what is parsed from the lookup afterwards. *)
Record Collected : Type := mkCollected {
  c_environment : jstring; c_storage : jstring; c_transport : jstring;
  c_database : option Database; c_nats : option Nats; c_devEndpoints : bool;
  c_retention : Z; c_drain : Z; c_floor : Z;
  c_mailTransport : jstring; c_smtpUrl : option SecretString; c_mailFrom : jstring
}.

(** @src src/platform/runtime/config.ts:117-192 parseRuntimeConfig *)
Definition collect : M Collected :=
  environment ← enumeration source "N2F_ENV" (js "development") (js <$> ["development"; "test"; "production"]%string);
  let production := bool_decide (environment = js "production") in
  let storageKey := match lookup "N2F_STORAGE" with Some _ => "N2F_STORAGE" | None => "N2F_IDENTITY_STORAGE" end%string in
  storage ← enumeration source storageKey (js "memory") (js <$> ["memory"; "postgres"]%string);
  eventTransport ← enumeration source "N2F_EVENT_TRANSPORT"
    (js (if bool_decide (storage = js "postgres") then "nats" else "local")) (js <$> ["local"; "nats"]%string);
  database ← readDatabase storage;
  nats ← readNats eventTransport;
  devEndpoints ← boolean source "N2F_DEV_ENDPOINTS" false;
  retention ← int source "N2F_EVENT_RETENTION_HOURS" (Int 168) (Int 1) (Int 8760);
  drain ← int source "N2F_SHUTDOWN_DRAIN_MS" (Int (if production then 10000 else 0)) (Int 0) (Int 120000);
  floor ← int source "N2F_SIGNUP_FLOOR_MS" (Int (if production then 1000 else 0)) (Int 0) (Int 10000);
  mailTransport ← enumeration source "N2F_MAIL_TRANSPORT" (js "capture") (js <$> ["capture"; "smtp"]%string);
  smtpUrl ← (if bool_decide (mailTransport = js "smtp") then secret source "N2F_SMTP_URL" ≫= fun url => mret (Some url) else mret None);
  mailFrom ← string_ source "N2F_MAIL_FROM" (js "n2f <no-reply@localhost>");
  mret (mkCollected environment storage eventTransport database nats devEndpoints retention drain floor
          mailTransport smtpUrl mailFrom).

(** @src src/platform/runtime/config.ts:180-184 parseRuntimeConfig *)
Definition readToken : option SecretString :=
  match lookup "N2F_METRICS_TOKEN" with None | Some [] => None | Some v => Some (mkSecret v) end.

(** @src src/platform/runtime/config.ts:265-275 parseRuntimeConfig *)
Definition unsafe (c : Collected) (token : option SecretString) (appUrl : option jstring) : list (string * string) :=
  (if negb (bool_decide (c.(c_storage) = js "postgres")) then [("N2F_STORAGE", "production_requires_postgres")] else [])
  ++ (if c.(c_devEndpoints) then [("N2F_DEV_ENDPOINTS", "forbidden_in_production")] else [])
  ++ (match token with None => [("N2F_METRICS_TOKEN", "required_in_production")] | Some _ => [] end)
  ++ (if negb (bool_decide (c.(c_mailTransport) = js "smtp")) then [("N2F_MAIL_TRANSPORT", "production_requires_smtp")] else [])
  ++ (match appUrl with None => [("N2F_APP_URL", "required_in_production")] | Some _ => [] end)%string.

(** @src src/platform/runtime/config.ts:194-297 parseRuntimeConfig *)
Definition complete (reader : Reader) (c : Collected) : Res RuntimeConfig :=
  let token := readToken in
  _ ← check reader;
  match parseAppUrl (lookup "N2F_APP_URL") with
  | None => invalidField "N2F_APP_URL" "invalid_url"
  | Some appUrl =>
  if match c.(c_smtpUrl) with Some u => negb (isSmtpUrl u.(reveal)) | None => false end
  then invalidField "N2F_SMTP_URL" "must_be_smtp_or_smtps_url"
  else if existsb (fun u => (u =? 13) || (u =? 10)) c.(c_mailFrom) || blank c.(c_mailFrom)
  then invalidField "N2F_MAIL_FROM" "invalid_address"
  else
  match parseOrigins (lookup "N2F_CORS_ORIGINS") with
  | None => invalidField "N2F_CORS_ORIGINS" "invalid_origin"
  | Some corsOrigins =>
  if match token with Some t => jlength t.(reveal) <? 32 | None => false end
  then invalidField "N2F_METRICS_TOKEN" "too_short_min_32"
  else
  match parseTrustProxy (lookup "N2F_TRUST_PROXY") with
  | None => invalidField "N2F_TRUST_PROXY" "invalid_trust_proxy"
  | Some trustProxy =>
  if bool_decide (c.(c_transport) = js "nats") && negb (bool_decide (c.(c_storage) = js "postgres"))
  then refused "NATS event transport requires PostgreSQL storage" "env.invalid" [("N2F_EVENT_TRANSPORT", "requires_postgres")]%string
  else
  let accepted :=
    Ok (mkConfig c.(c_environment) c.(c_storage) c.(c_transport) c.(c_database) c.(c_nats)
          (mkHttp trustProxy c.(c_devEndpoints) corsOrigins c.(c_floor)) c.(c_retention) c.(c_drain) token
          (mkMail c.(c_mailTransport) c.(c_smtpUrl) c.(c_mailFrom) appUrl)) in
  if bool_decide (c.(c_environment) = js "production") then
    match unsafe c token appUrl with
    | [] => accepted
    | fields => refused "unsafe configuration for production" "env.unsafe_for_production" fields
    end
  else accepted
  end end end.

(** @src src/platform/runtime/config.ts:114-297 parseRuntimeConfig *)
Definition parseRuntimeConfig : Res RuntimeConfig :=
  let '(c, reader) := collect newReader in complete reader c.
End Parse.

(** @src src/platform/runtime/config.ts:319-322 loadRuntimeConfig *)
Definition loadRuntimeConfig (env : list (jstring * jstring)) : Res RuntimeConfig :=
  source ← os env; parseRuntimeConfig source.
End WithHost.

(** @src src/platform/runtime/config.ts:324-330 describeConfigFailure *)
Definition describeConfigFailure (error : Failure) : string :=
  match fields_of error with
  | [] => f_message error
  | fields =>
      String.append (f_message error) (String.append ": "
        (String.concat ", " ((fun '(name, problem) => String.append name (String.append " (" (String.append problem ")"))) <$> fields)))
  end.

(** @src src/platform/runtime/config.ts:332-336 runtimeConfigOrThrow
    An [Err] is the message of the error thrown. *)
Definition runtimeConfigOrThrow (URL : jstring -> option Url) (env : list (jstring * jstring)) : Result string RuntimeConfig :=
  match loadRuntimeConfig URL env with
  | Ok value => Ok value
  | Err error => Err (describeConfigFailure error)
  end.

(** @src src/modules/jobs/infra/job-expiry.ts:22-37 runningTimeoutMs
    How long a job may run, in milliseconds, or the message of the error thrown. *)
Definition runningTimeoutMs (env : list (jstring * jstring)) : Result string Z :=
  match os env with
  | Err f => Err (f_message f)
  | Ok lookup =>
      let '(minutes, reader) := int (source lookup) "N2F_JOB_RUNNING_TIMEOUT_MINUTES" (Int 60) (Int 1) (Int 10080) newReader in
      match check reader with
      | Ok _ => Ok (minutes * 60 * 1000)
      | Err f => Err (String.append "invalid configuration: " (String.concat ", " (fields_of f).*1))
      end
  end.

(** ** What a configuration that is accepted promises. *)

(** The variables a failure may name, and all it may say of them. *)
Definition VARIABLES : list string :=
  ["N2F_ENV"; "N2F_STORAGE"; "N2F_IDENTITY_STORAGE"; "N2F_EVENT_TRANSPORT"; "N2F_DATABASE_URL";
   "N2F_DATABASE_MAX_CONNECTIONS"; "N2F_DATABASE_TIMEOUT_MS"; "N2F_MIGRATION_TIMEOUT_MS"; "N2F_NATS_URL";
   "N2F_NATS_STREAM"; "N2F_NATS_SUBJECT_PREFIX"; "N2F_NATS_CONSUMER"; "N2F_NATS_TIMEOUT_MS";
   "N2F_NATS_STREAM_MAX_AGE_HOURS"; "N2F_NATS_STREAM_MAX_MB"; "N2F_DEV_ENDPOINTS"; "N2F_EVENT_RETENTION_HOURS";
   "N2F_SHUTDOWN_DRAIN_MS"; "N2F_SIGNUP_FLOOR_MS"; "N2F_METRICS_TOKEN"; "N2F_MAIL_TRANSPORT"; "N2F_SMTP_URL";
   "N2F_MAIL_FROM"; "N2F_APP_URL"; "N2F_CORS_ORIGINS"; "N2F_TRUST_PROXY"]%string.
Definition ALL_REASONS : list string :=
  (REASONS ++ ["invalid_url"; "must_be_smtp_or_smtps_url"; "invalid_address"; "invalid_origin"; "too_short_min_32";
   "invalid_trust_proxy"; "requires_postgres"; "production_requires_postgres"; "forbidden_in_production";
   "required_in_production"; "production_requires_smtp"]%string).
Definition MESSAGES : list string :=
  ["invalid configuration"; "NATS event transport requires PostgreSQL storage"; "unsafe configuration for production"]%string.

(** A refusal names variables and reasons of the two vocabularies, at least
    one, and carries nothing else. *)
Definition discreet (f : Failure) : Prop :=
  f_kind f = invalid /\ f_message f ∈ MESSAGES /\ f_details f = [] /\ f_cause f = CForeign VUndefined /\
  fields_of f <> [] /\ Forall (fun '(k, reason) => k ∈ VARIABLES /\ reason ∈ ALL_REASONS) (fields_of f).

Section Promises.
  Context (URL : jstring -> option Url) (lookup : Lookup).

(** A secret is the text of its variable, and not empty. *)
Definition secretOf (variable : string) (s : SecretString) : Prop :=
  lookup variable = Some s.(reveal) /\ s.(reveal) <> [].

Definition databaseSound (d : Database) : Prop :=
  secretOf "N2F_DATABASE_URL" d.(db_url) /\ 1 <= d.(maxConnections) <= 64 /\ 1 <= d.(timeoutMs) <= 30000 /\
  1000 <= d.(migrationTimeoutMs) <= 3600000.

Definition natsSound (n : Nats) : Prop :=
  secretOf "N2F_NATS_URL" n.(nats_url) /\ 1 <= n.(nats_timeoutMs) <= 5000 /\
  3600000 <= n.(maxAgeMs) <= 365 * 24 * 3600000 /\ 2 ^ 20 <= n.(maxBytes) <= 2 ^ 40.

(** A web address without credentials, of which the program keeps the host's
    spelling without a trailing slash. *)
Definition appUrlSound (link : jstring) : Prop :=
  exists text url, lookup "N2F_APP_URL" = Some text /\ URL text = Some url /\ isWeb url = true /\
    url.(username) = [] /\ url.(password) = [] /\ url.(search) = [] /\ url.(hash) = [] /\ link = withoutSlash url.(href).

Definition mailSound (m : MailConfig) : Prop :=
  m.(transport) ∈ (js <$> ["capture"; "smtp"]%string) /\
  (is_Some m.(smtpUrl) <-> m.(transport) = js "smtp") /\
  (forall u, m.(smtpUrl) = Some u -> secretOf "N2F_SMTP_URL" u /\ isSmtpUrl u.(reveal) = true) /\
  trim m.(from) <> [] /\ (forall c, c ∈ m.(from) -> c <> 10 /\ c <> 13) /\
  (forall link, m.(appUrl) = Some link -> appUrlSound link).

(** What only production asks. *)
Definition productionReady (c : RuntimeConfig) : Prop :=
  c.(storage) = js "postgres" /\ c.(http).(devEndpoints) = false /\ is_Some c.(metricsToken) /\
  c.(mail).(transport) = js "smtp" /\ is_Some c.(mail).(appUrl).

Definition sound (c : RuntimeConfig) : Prop :=
  c.(environment) ∈ (js <$> ["development"; "test"; "production"]%string) /\
  c.(storage) ∈ (js <$> ["memory"; "postgres"]%string) /\
  c.(eventTransport) ∈ (js <$> ["local"; "nats"]%string) /\
  (is_Some c.(database) <-> c.(storage) = js "postgres") /\
  (is_Some c.(nats) <-> c.(eventTransport) = js "nats") /\
  (is_Some c.(nats) -> is_Some c.(database)) /\
  (forall d, c.(database) = Some d -> databaseSound d) /\
  (forall n, c.(nats) = Some n -> natsSound n) /\
  1 <= c.(eventRetentionHours) <= 365 * 24 /\ 0 <= c.(shutdownDrainMs) <= 120000 /\
  0 <= c.(http).(signupFloorMs) <= 10000 /\
  (forall o, o ∈ c.(http).(corsOrigins) -> validOrigin URL o = true) /\
  (forall token, c.(metricsToken) = Some token -> secretOf "N2F_METRICS_TOKEN" token /\ 32 <= jlength token.(reveal)) /\
  mailSound c.(mail) /\
  (c.(environment) = js "production" -> productionReady c).

(** *** What the reader collects. *)

Lemma source_answers k found : answers (source lookup) k found -> lookup k = found.
Proof. unfold answers, source. destruct (lookup k), found; congruence. Qed.

Lemma secret_of k : yields (secret (source lookup) k) (secretOf k).
Proof. eapply yields_weaken; [|apply secret_yields]. intros s [Hs Ha%source_answers]. by split. Qed.

Lemma int_between k fallback min max :
  yields (int (source lookup) k fallback min max) (fun v => num_val min <= v <= num_val max).
Proof. eapply yields_weaken; [|apply int_yields]. by intros v [H _]. Qed.

Lemma chosen k fallback allowed : yields (enumeration (source lookup) k fallback allowed) (fun v => v ∈ allowed).
Proof. eapply yields_weaken; [|apply enumeration_yields]. by intros v [H _]. Qed.

Lemma any_string k fallback : yields (string_ (source lookup) k fallback) (fun _ => True).
Proof. by eapply yields_weaken; [|apply string_yields]. Qed.

Lemma any_boolean k fallback : yields (boolean (source lookup) k fallback) (fun _ => True).
Proof. by eapply yields_weaken; [|apply boolean_yields]. Qed.
End Promises.

Create HintDb reading.
#[export] Hint Resolve secret_of int_between chosen any_string any_boolean : reading.

(** Follow the reads of a program, keeping what each value is. *)
Ltac reads := repeat (eapply yields_bind; [solve [eauto with reading]|intros ?]).

Section Collecting.
  Context (URL : jstring -> option Url) (lookup : Lookup).

Lemma database_read s :
  yields (readDatabase lookup s)
    (fun d => (is_Some d <-> s = js "postgres") /\ forall d', d = Some d' -> databaseSound lookup d').
Proof.
  unfold readDatabase. destruct (bool_decide_reflect (s = js "postgres")).
  - reads. apply yields_ret. cbn. intros. split; [split; eauto|]. intros d' [= <-]. repeat split; cbn; try lia; apply H2.
  - apply yields_ret. split; [|done]. split; [by intros []|done].
Qed.
#[local] Hint Resolve database_read : reading.

Lemma nats_read t :
  yields (readNats lookup t)
    (fun n => (is_Some n <-> t = js "nats") /\ forall n', n = Some n' -> natsSound lookup n').
Proof.
  unfold readNats. destruct (bool_decide_reflect (t = js "nats")).
  - reads. apply yields_ret. cbn. intros. split; [split; eauto|]. intros n' [= <-]. repeat split; cbn; try lia; apply H5.
  - apply yields_ret. split; [|done]. split; [by intros []|done].
Qed.
#[local] Hint Resolve nats_read : reading.

(** What the reader collects is sound, but for what is parsed afterwards. *)
Definition collectedSound (c : Collected) : Prop :=
  c.(c_environment) ∈ (js <$> ["development"; "test"; "production"]%string) /\
  c.(c_storage) ∈ (js <$> ["memory"; "postgres"]%string) /\
  c.(c_transport) ∈ (js <$> ["local"; "nats"]%string) /\
  c.(c_mailTransport) ∈ (js <$> ["capture"; "smtp"]%string) /\
  ((is_Some c.(c_database) <-> c.(c_storage) = js "postgres") /\
   forall d, c.(c_database) = Some d -> databaseSound lookup d) /\
  ((is_Some c.(c_nats) <-> c.(c_transport) = js "nats") /\ forall n, c.(c_nats) = Some n -> natsSound lookup n) /\
  ((is_Some c.(c_smtpUrl) <-> c.(c_mailTransport) = js "smtp") /\
   forall u, c.(c_smtpUrl) = Some u -> secretOf lookup "N2F_SMTP_URL" u) /\
  1 <= c.(c_retention) <= 365 * 24 /\ 0 <= c.(c_drain) <= 120000 /\ 0 <= c.(c_floor) <= 10000.

Lemma smtp_read t :
  yields (if bool_decide (t = js "smtp") then secret (source lookup) "N2F_SMTP_URL" ≫= fun url => mret (Some url) else mret None)
    (fun o => (is_Some o <-> t = js "smtp") /\ forall u, o = Some u -> secretOf lookup "N2F_SMTP_URL" u).
Proof.
  destruct (bool_decide_reflect (t = js "smtp")).
  - reads. apply yields_ret. intros. split; [split; eauto|]. by intros u [= <-].
  - apply yields_ret. split; [|done]. split; [by intros []|done].
Qed.
#[local] Hint Resolve smtp_read : reading.

Lemma collect_sound : yields (collect lookup) collectedSound.
Proof.
  unfold collect. cbv zeta. reads. apply yields_ret. intros. unfold collectedSound.
  cbn [c_environment c_storage c_transport c_mailTransport c_database c_nats c_smtpUrl c_retention c_drain c_floor].
  cbn [num_val] in *. repeat (split; [eassumption || lia|]); eassumption || lia.
Qed.

(** *** What is parsed afterwards. *)

Lemma appUrl_parsed link :
  parseAppUrl URL (lookup "N2F_APP_URL") = Some (Some link) -> appUrlSound URL lookup link.
Proof.
  unfold parseAppUrl. destruct (lookup "N2F_APP_URL") as [text|] eqn:El; [|done]. destruct (blank text); [done|].
  destruct (URL text) as [u|] eqn:Eu; [|done]. destruct (_ || _ || _ || _ || _) eqn:E; [done|]. intros [= <-]. breflect.
  repeat match goal with H : bool_decide _ = true |- _ => apply bool_decide_eq_true in H end. by exists text, u.
Qed.

Lemma origins_parsed os o :
  parseOrigins URL (lookup "N2F_CORS_ORIGINS") = Some os -> o ∈ os -> validOrigin URL o = true.
Proof.
  unfold parseOrigins. destruct (lookup _) as [v|]; [|intros [= <-] Ho; by apply elem_of_nil in Ho].
  destruct (blank v); [intros [= <-] Ho; by apply elem_of_nil in Ho|].
  destruct (forallb _ _) eqn:E; [|done]. intros [= <-] Ho. rewrite forallb_forall in E. by apply E, list_elem_of_In.
Qed.

Lemma token_read token : readToken lookup = Some token -> secretOf lookup "N2F_METRICS_TOKEN" token.
Proof. unfold readToken, secretOf. destruct (lookup _) as [[|c v]|]; [done| |done]. by intros [= <-]. Qed.

Lemma from_line m :
  existsb (fun u => (u =? 13) || (u =? 10)) m || blank m = false ->
  trim m <> [] /\ (forall c, c ∈ m -> c <> 10 /\ c <> 13).
Proof.
  intros H. breflect. unfold blank in *. split; [by eapply bool_decide_eq_false_1|].
  intros c Hc%list_elem_of_In. split; intros ->; match goal with H : existsb _ _ = false |- _ =>
    rewrite <- not_true_iff_false, existsb_exists in H; apply H; eexists; split; [exact Hc|done] end.
Qed.

(** *** Refusals. *)

Lemma check_discreet r : within VARIABLES ALL_REASONS r -> forall e, check r = Err e -> discreet e.
Proof.
  unfold check, within. destruct (problems r) as [|p ps] eqn:E; [done|]. intros Hw e [= <-].
  repeat split; [by left|done|exact Hw].
Qed.

Lemma collect_reports r : within VARIABLES ALL_REASONS r -> within VARIABLES ALL_REASONS (collect lookup r).2.
Proof.
  assert (HR : forall reason, reason ∈ REASONS -> reason ∈ ALL_REASONS) by (intros; apply elem_of_app; by left).
  assert (HV : forall k, bool_decide (k ∈ VARIABLES) = true -> k ∈ VARIABLES) by (intros k; apply bool_decide_eq_true).
  revert r. change (reports VARIABLES ALL_REASONS (collect lookup)). unfold collect, readDatabase, readNats. cbv zeta.
  destruct (lookup "N2F_STORAGE") as [l|];
  repeat lazymatch goal with
  | |- reports _ _ (mret _) => apply reports_ret
  | |- reports _ _ (string_ _ _ _) => apply string_reports; [exact HR|vm_compute; reflexivity|apply HV; vm_compute; reflexivity]
  | |- reports _ _ (secret _ _) => apply secret_reports; [exact HR|vm_compute; reflexivity|apply HV; vm_compute; reflexivity]
  | |- reports _ _ (int _ _ _ _ _) => apply int_reports; [exact HR|vm_compute; reflexivity|apply HV; vm_compute; reflexivity]
  | |- reports _ _ (boolean _ _ _) => apply boolean_reports; [exact HR|vm_compute; reflexivity|apply HV; vm_compute; reflexivity]
  | |- reports _ _ (enumeration _ _ _ _) => apply enumeration_reports; [exact HR|vm_compute; reflexivity|apply HV; vm_compute; reflexivity]
  | |- reports _ _ (_ ≫= _) => apply reports_bind; [|intros ?]
  | |- _ => case_match
  end.
Qed.

Lemma single_discreet (P : RuntimeConfig -> Prop) message type k reason :
  bool_decide (message ∈ MESSAGES) = true -> bool_decide (k ∈ VARIABLES) = true -> bool_decide (reason ∈ ALL_REASONS) = true ->
  match refused message type [(k, reason)] with Ok c => P c | Err f => discreet f end.
Proof.
  intros Hm Hk Hr. apply bool_decide_eq_true in Hm, Hk, Hr. repeat split; [done..|]. cbn. constructor; [done|constructor].
Qed.

Lemma unsafe_vocabulary c token link :
  Forall (fun '(k, reason) => k ∈ VARIABLES /\ reason ∈ ALL_REASONS) (unsafe c token link).
Proof.
  unfold unsafe. repeat apply Forall_app_2; case_match; repeat constructor;
    apply bool_decide_eq_true; vm_compute; reflexivity.
Qed.

Lemma unsafe_discreet (P : RuntimeConfig -> Prop) c token link :
  unsafe c token link <> [] ->
  match refused "unsafe configuration for production" "env.unsafe_for_production" (unsafe c token link) with
  | Ok c => P c
  | Err f => discreet f
  end.
Proof. intros Hn. repeat split; [by right; right; left|done|apply unsafe_vocabulary]. Qed.

(** Nothing is unsafe exactly when production's conditions hold. *)
Lemma unsafe_none c token link :
  unsafe c token link = [] ->
  c.(c_storage) = js "postgres" /\ c.(c_devEndpoints) = false /\ is_Some token /\ c.(c_mailTransport) = js "smtp" /\ is_Some link.
Proof.
  unfold unsafe. intros H. repeat (apply app_eq_nil in H as [? H]).
  repeat match goal with H : (if negb (bool_decide ?P) then _ else _) = [] |- _ =>
    destruct (bool_decide_reflect P); [clear H|discriminate H] end.
  destruct (c_devEndpoints c); [discriminate|]. destruct token; [|discriminate]. destruct link; [|discriminate].
  repeat apply conj; first [assumption|reflexivity|by eexists].
Qed.
End Collecting.

(** A refusal of one variable. *)
Ltac refuse := apply single_discreet; vm_compute; reflexivity.

Section Claims.
  Context (URL : jstring -> option Url) (lookup : Lookup).

(** The reader ran without a problem exactly when its check passes. *)
Lemma check_ok r u : check r = Ok u -> problems r = [].
Proof. unfold check. by destruct (problems r). Qed.

(** The configuration assembled from what was collected and parsed. *)
Lemma assembled_sound c link origins proxy :
  collectedSound lookup c -> parseAppUrl URL (lookup "N2F_APP_URL") = Some link ->
  match c.(c_smtpUrl) with Some s => negb (isSmtpUrl s.(reveal)) | None => false end = false ->
  existsb (fun u => (u =? 13) || (u =? 10)) c.(c_mailFrom) || blank c.(c_mailFrom) = false ->
  parseOrigins URL (lookup "N2F_CORS_ORIGINS") = Some origins ->
  match readToken lookup with Some t => jlength t.(reveal) <? 32 | None => false end = false ->
  bool_decide (c.(c_transport) = js "nats") && negb (bool_decide (c.(c_storage) = js "postgres")) = false ->
  (c.(c_environment) = js "production" -> unsafe c (readToken lookup) link = []) ->
  sound URL lookup
    (mkConfig c.(c_environment) c.(c_storage) c.(c_transport) c.(c_database) c.(c_nats)
       (mkHttp proxy c.(c_devEndpoints) origins c.(c_floor)) c.(c_retention) c.(c_drain) (readToken lookup)
       (mkMail c.(c_mailTransport) c.(c_smtpUrl) c.(c_mailFrom) link)).
Proof.
  intros (He & Hst & Ht & Hm & (Hd & Hds) & (Hn & Hns) & (Hu & Hus) & Hr & Hdr & Hf) Ea Esm Efrom Eo Et Etr Hprod.
  apply from_line in Efrom as [Hfrom Hline]. unfold sound.
  cbn [environment storage eventTransport database nats http devEndpoints corsOrigins signupFloorMs eventRetentionHours
       shutdownDrainMs metricsToken mail].
  do 5 (split; [assumption|]). split.
  { intros Ht'%Hn. apply Hd. rewrite bool_decide_true in Etr by exact Ht'. cbn [andb] in Etr.
    apply negb_false_iff in Etr. by apply bool_decide_eq_true in Etr. }
  do 5 (split; [assumption|]). split; [intros o Ho; exact (origins_parsed _ _ _ _ Eo Ho)|]. split.
  { intros token Hk. split; [by apply token_read|]. rewrite Hk in Et. by apply Z.ltb_ge. }
  split; [|intros Hp; exact (unsafe_none _ _ _ (Hprod Hp))].
  unfold mailSound. cbn [transport smtpUrl from appUrl]. do 2 (split; [assumption|]). split.
  { intros v Hv. split; [by apply Hus|]. rewrite Hv in Esm. by apply negb_false_iff. }
  do 2 (split; [assumption|]). intros l ->. by apply appUrl_parsed.
Qed.

(** C22. What a process may start with, whatever its environment and whatever
    the host's URL parser answers.  An accepted configuration has modes among
    the literals the source casts them to; a database exactly with PostgreSQL
    storage, and an event broker exactly with that transport and never without a
    database; secrets that are the texts of their variables and not empty;
    every number within its bounds; origins and links that are plain web
    addresses; no line break in the mail sender; and in production, durable
    storage, no development endpoint, a metrics token of at least 32 units,
    real mail and a link to the application.  A refusal discloses nothing of
    any value: it names variables and reasons of two fixed vocabularies. *)
Theorem runtime_config_sound :
  match parseRuntimeConfig URL lookup with
  | Ok c => sound URL lookup c
  | Err f => discreet f
  end.
Proof.
  unfold parseRuntimeConfig. pose proof (collect_sound lookup newReader) as Hs.
  pose proof (collect_reports lookup newReader (Forall_nil_2 _)) as Hw.
  destruct (collect lookup newReader) as [c reader]. cbn [fst snd] in Hs, Hw.
  unfold complete. cbv zeta. unfold mbind, Result_bind.
  destruct (check reader) as [u|e] eqn:Ec; [|by eapply check_discreet].
  destruct (Hs (check_ok _ _ Ec)) as [_ Hc].
  destruct (parseAppUrl _ _) as [link|] eqn:Ea; [|refuse].
  destruct (match c_smtpUrl c with Some _ => _ | None => _ end) eqn:Esm; [refuse|].
  destruct (existsb _ _ || _) eqn:Efrom; [refuse|].
  destruct (parseOrigins _ _) as [origins|] eqn:Eo; [|refuse].
  destruct (match readToken lookup with Some _ => _ | None => _ end) eqn:Et; [refuse|].
  destruct (parseTrustProxy _) as [proxy|]; [|refuse].
  destruct (_ && _) eqn:Etr; [refuse|].
  destruct (bool_decide_reflect (c_environment c = js "production")) as [Hp|Hp]; [|by apply assembled_sound].
  destruct (unsafe c (readToken lookup) link) as [|p l] eqn:Eu; [by apply assembled_sound|].
  rewrite <- Eu. apply unsafe_discreet. by rewrite Eu.
Qed.
End Claims.

(** With nothing set the process runs in memory, for development. *)
Example defaults_accepted URL :
  parseRuntimeConfig URL (fun _ => None) =
  Ok (mkConfig (js "development") (js "memory") (js "local") None None (mkHttp TrustNone false [] 0) 168 0 None
        (mkMail (js "capture") None (js "n2f <no-reply@localhost>") None)).
Proof. vm_compute. reflexivity. Qed.

(** A production environment that is accepted, and what is said when its
    token is missing. *)
Definition sampleUrl (s : jstring) : option Url :=
  if bool_decide (s = js "https://app.example.com") || bool_decide (s = js "https://app.example.com/")
  then Some (mkUrl (js "https:") (js "https://app.example.com") [] [] [] [] (js "https://app.example.com/")) else None.
Definition sampleEnv : list (jstring * jstring) :=
  (fun '(k, v) => (js k, js v)) <$>
  [("N2F_ENV", "production"); ("N2F_STORAGE", "postgres"); ("N2F_DATABASE_URL", "postgres://db"); ("N2F_NATS_URL", "nats://bus");
   ("N2F_MAIL_TRANSPORT", "smtp"); ("N2F_SMTP_URL", "smtps://mail"); ("N2F_APP_URL", "https://app.example.com/");
   ("N2F_CORS_ORIGINS", "https://app.example.com , https://app.example.com"); ("N2F_TRUST_PROXY", "loopback,10.0.0.0/8");
   ("N2F_METRICS_TOKEN", "0123456789abcdef0123456789abcdef")]%string.

Example production_accepted :
  (match loadRuntimeConfig sampleUrl sampleEnv with
   | Ok c => Some (c.(mail).(appUrl), c.(shutdownDrainMs), length c.(http).(corsOrigins), c.(http).(trustProxy))
   | Err _ => None
   end) = Some (Some (js "https://app.example.com"), 10000, 2%nat, TrustList [js "loopback"; js "10.0.0.0/8"]).
Proof. vm_compute. reflexivity. Qed.

Example token_missing :
  runtimeConfigOrThrow sampleUrl (take 9 sampleEnv) =
  Err "unsafe configuration for production: N2F_METRICS_TOKEN (required_in_production)"%string.
Proof. vm_compute. reflexivity. Qed.

(** A timeout that is accepted is from a minute to a week. *)
Lemma runningTimeoutMs_bounds env t : runningTimeoutMs env = Ok t -> 60000 <= t <= 7 * 24 * 3600000.
Proof.
  unfold runningTimeoutMs. destruct (os env) as [lookup|]; [|done].
  pose proof (int_between lookup "N2F_JOB_RUNNING_TIMEOUT_MINUTES" (Int 60) (Int 1) (Int 10080) newReader) as Hi.
  destruct (int _ _ _ _ _ newReader) as [minutes reader]. cbn [fst snd num_val] in Hi.
  destruct (check reader) as [u|] eqn:Ec; [|done]. intros [= <-]. apply check_ok in Ec. apply Hi in Ec as [_ Hm]. lia.
Qed.

End Config.
