(* ===== verification/Http.v ===== *)
(** * Responses: [shared/http/problem.ts], [policy.ts], [lifecycle.ts] and the
    error filter, [platform/http/request-problem.filter.ts].

    A failure leaves the process as a problem document; whatever else is thrown
    leaves as one of a few fixed problems.  What a completed request is counted
    as follows from its facts, once. *)
From S2P Require Import Prelude JsMap Errors Ids Json JsonPrint.

(** ** Problems. *)
Module Http.

(** @src src/shared/http/problem.ts:3-13 Problem *)
Record Problem : Type := mkProblem {
  pr_type : string; pr_title : string; pr_detail : string; pr_kind : Kind; pr_status : Z;
  pr_code : option string; pr_fields : option (list (string * string))
}.

Definition kindName (k : Kind) : string :=
  match find_first (fun e => bool_decide (e.2 = k)) KINDS with Some (n, _) => n | None => "" end.

(** @src src/shared/http/problem.ts:20-31 problemOf *)
Definition statusOf (k : Kind) : Z :=
  match k with
  | invalid => 400 | not_found => 404 | conflict => 409 | unauthenticated => 401 | forbidden => 403
  | rate_limited => 429 | unavailable => 503 | timeout => 503 | canceled => 503 | internal => 500
  end.

(** @src src/shared/http/problem.ts:32-41 problemOf *)
Definition titleOf (status : Z) : string :=
  match find_first (fun e => e.1 =? status)
          [(400, "Bad Request"); (401, "Unauthorized"); (403, "Forbidden"); (404, "Not Found"); (409, "Conflict");
           (429, "Too Many Requests"); (503, "Service Unavailable"); (500, "Internal Server Error")]%string with
  | Some (_, t) => t
  | None => ""
  end.

(** @src src/shared/http/problem.ts:15-53 problemOf
    Of a failed result; [None] for one that is not. *)
Definition problemOf {T} (result : Result Caught T) : option Problem :=
  match result with
  | Ok _ => None
  | Err error =>
      let info := publicInfo error in
      let status := statusOf (p_kind info) in
      Some (mkProblem (String.append "urn:n2f:problem:" (kindName (p_kind info))) (titleOf status) (p_message info) (p_kind info) status
              (match p_type info with Some t => if String.eqb t "" then None else Some t | None => None end)
              (match p_fields info with Some [] | None => None | fields => fields end))
  end.

(** The document as it is sent. *)
Definition document (p : Problem) : list (string * JsValue) :=
  [("type", VStr (js p.(pr_type))); ("title", VStr (js p.(pr_title))); ("detail", VStr (js p.(pr_detail)));
   ("kind", VStr (js (kindName p.(pr_kind)))); ("status", VNum (Int p.(pr_status)))]%string
  ++ match p.(pr_code) with Some c => [("code"%string, VStr (js c))] | None => [] end
  ++ match p.(pr_fields) with Some fs => [("fields"%string, VObj ((fun e => (e.1, VStr (js e.2))) <$> fs))] | None => [] end.

(** ** The error filter. *)

(** What the filter reads of a thrown value: the [type] that is text, of the
    value and of its [cause], and, of an [HttpException], its status and
    response. *)
Record Exception : Type := mkException {
  e_type : option jstring; e_causeType : option jstring; e_http : option (Z * JsValue)
}.

(** @src src/platform/http/request-problem.filter.ts:14-19 objectResponse *)
Definition objectResponse (value : JsValue) : list (string * JsValue) :=
  match value with VObj ms => ms | _ => [("message"%string, value)] end.

(** @src src/platform/http/request-problem.filter.ts:21-29 BODY_ERRORS *)
Definition BODY_ERRORS : list (string * (Z * string * string)) :=
  [("entity.too.large", (413, "Payload Too Large", "http.body_too_large"));
   ("entity.parse.failed", (400, "Bad Request", "http.invalid_json"));
   ("entity.verify.failed", (400, "Bad Request", "http.invalid_json"));
   ("request.aborted", (400, "Bad Request", "http.request_aborted"));
   ("encoding.unsupported", (415, "Unsupported Media Type", "http.unsupported_encoding"));
   ("charset.unsupported", (415, "Unsupported Media Type", "http.unsupported_charset"))]%string.

(** What every object literal inherits: [in] finds these names too. *)
Definition INHERITED : list string :=
  ["constructor"; "__defineGetter__"; "__defineSetter__"; "hasOwnProperty"; "__lookupGetter__"; "__lookupSetter__";
   "isPrototypeOf"; "propertyIsEnumerable"; "toString"; "valueOf"; "__proto__"; "toLocaleString"]%string.

(** @src src/platform/http/request-problem.filter.ts:31-43 TITLES *)
Definition TITLES : list (Z * string) :=
  [(400, "Bad Request"); (401, "Unauthorized"); (403, "Forbidden"); (404, "Not Found"); (405, "Method Not Allowed");
   (409, "Conflict"); (413, "Payload Too Large"); (415, "Unsupported Media Type"); (429, "Too Many Requests");
   (500, "Internal Server Error"); (503, "Service Unavailable")]%string.

(** @src src/platform/http/request-problem.filter.ts:45-50 FRAMEWORK_CODES *)
Definition FRAMEWORK_CODES : list (Z * string) :=
  [(400, "http.bad_request"); (404, "http.not_found"); (405, "http.method_not_allowed"); (415, "http.unsupported_media_type")]%string.

(** [table[status] ?? fallback]. *)
Definition byStatus (table : list (Z * string)) (status : Z) (fallback : string) : string :=
  match find_first (fun e => e.1 =? status) table with Some (_, s) => s | None => fallback end.

(** [requestId ? { request_id: requestId } : {}]. *)
Definition correlation (requestId : option ID) : list (string * JsValue) :=
  match requestId with
  | Some id => if bool_decide (id = []) then [] else [("request_id"%string, VStr id)]
  | None => []
  end.

(** @src src/platform/http/request-problem.filter.ts:52-68 problem *)
Definition problem (status : Z) (title : string) (code : option string) (requestId : option ID) : list (string * JsValue) :=
  let kind := if status =? 404 then "not_found"%string else if status <? 500 then "invalid"%string else "internal"%string in
  let detail := if 500 <=? status then "internal error"%string else "request was refused"%string in
  [("type", VStr (js (String.append "urn:n2f:problem:" kind))); ("title", VStr (js title)); ("detail", VStr (js detail));
   ("kind", VStr (js kind)); ("status", VNum (Int status))]%string
  ++ match code with Some c => if String.eqb c "" then [] else [("code"%string, VStr (js c))] | None => [] end
  ++ correlation requestId.

(** @src src/platform/http/request-problem.filter.ts:70-72 isProblem *)
Definition isProblem (body : list (string * JsValue)) : bool :=
  match field "type" body with VStr t => bool_decide (js "urn:n2f:problem:" `prefix_of` t) | _ => false end.

(** [type in BODY_ERRORS]. *)
Definition known (type : jstring) : bool :=
  existsb (fun n => bool_decide (js n = type)) (BODY_ERRORS.*1 ++ INHERITED).

(** @src src/platform/http/request-problem.filter.ts:74-81 bodyErrorType *)
Definition bodyErrorType (exception : Exception) : option jstring :=
  match exception.(e_type) with
  | Some t => if known t then Some t else match exception.(e_causeType) with Some t => if known t then Some t else None | None => None end
  | None => match exception.(e_causeType) with Some t => if known t then Some t else None | None => None end
  end.

(** @src src/platform/http/request-problem.filter.ts:96-132 RequestProblemFilter.catch
    The status and the body sent; [None] where the filter itself throws: an
    inherited member is no triple to take apart. *)
Definition catch (exception : Exception) (requestId : option ID) : option (Z * list (string * JsValue)) :=
  match bodyErrorType exception with
  | Some type =>
      match find_first (fun e => bool_decide (js e.1 = type)) BODY_ERRORS with
      | Some (_, (status, title, code)) => Some (status, problem status title (Some code) requestId)
      | None => None
      end
  | None =>
      match exception.(e_http) with
      | Some (status, response) =>
          let body := objectResponse response in
          Some (status,
            if isProblem body then JsMap.spread body (correlation requestId)
            else problem status (byStatus TITLES status "Error") (Some (byStatus FRAMEWORK_CODES status "http.error")) requestId)
      | None => Some (500, problem 500 "Internal Server Error" None requestId)
      end
  end.

(** ** What leaves the process. *)

(** The problem of a rejected body, by the error type of the parser. *)
Inductive rejectedBody : string -> Z -> string -> string -> Prop :=
| body_large : rejectedBody "entity.too.large" 413 "Payload Too Large" "http.body_too_large"
| body_syntax : rejectedBody "entity.parse.failed" 400 "Bad Request" "http.invalid_json"
| body_verify : rejectedBody "entity.verify.failed" 400 "Bad Request" "http.invalid_json"
| body_aborted : rejectedBody "request.aborted" 400 "Bad Request" "http.request_aborted"
| body_encoding : rejectedBody "encoding.unsupported" 415 "Unsupported Media Type" "http.unsupported_encoding"
| body_charset : rejectedBody "charset.unsupported" 415 "Unsupported Media Type" "http.unsupported_charset".

(** The entry of a table for a status, or the default when it has none. *)
Definition entry (table : list (Z * string)) (status : Z) (default value : string) : Prop :=
  (status, value) ∈ table \/ (status ∉ table.*1 /\ value = default).

(** A kind, and what is said of it, by the status. *)
Inductive statusKind : Z -> string -> string -> Prop :=
| kind_missing : statusKind 404 "not_found" "request was refused"
| kind_refused status : status <> 404 -> status < 500 -> statusKind status "invalid" "request was refused"
| kind_failed status : 500 <= status -> statusKind status "internal" "internal error".

(** The fixed problem of a thrown value: a rejected body has the status, the
    title and the code of its type; what the framework threw keeps its status
    alone; anything else is an internal error. *)
Inductive fixedFor (exception : Exception) : Z -> string -> option string -> Prop :=
| fixed_body name status title code :
    bodyErrorType exception = Some (js name) -> rejectedBody name status title code ->
    fixedFor exception status title (Some code)
| fixed_framework status response title code :
    bodyErrorType exception = None -> exception.(e_http) = Some (status, response) -> isProblem (objectResponse response) = false ->
    entry TITLES status "Error" title -> entry FRAMEWORK_CODES status "http.error" code ->
    fixedFor exception status title (Some code)
| fixed_unhandled :
    bodyErrorType exception = None -> exception.(e_http) = None ->
    fixedFor exception 500 "Internal Server Error" None.

(** A fixed problem as it is sent: these members, and no other. *)
Definition fixedBody (body : list (string * JsValue)) (status : Z) (title : string) (code : option string) (requestId : ID) : Prop :=
  exists kind detail, statusKind status kind detail
    /\ body = [("type"%string, VStr (js "urn:n2f:problem:" ++ js kind)); ("title"%string, VStr (js title));
               ("detail"%string, VStr (js detail)); ("kind"%string, VStr (js kind)); ("status"%string, VNum (Int status))]
              ++ match code with Some c => [("code"%string, VStr (js c))] | None => [] end
              ++ (if bool_decide (requestId = []) then [] else [("request_id"%string, VStr requestId)]).

(** Two thrown values that differ in what a client must not see only: the
    messages and stacks, and what the framework wrote in its response. *)
Definition alike (a b : Exception) : Prop :=
  bodyErrorType a = bodyErrorType b
  /\ match a.(e_http), b.(e_http) with
     | Some (status, response), Some (status', response') =>
         status = status'
         /\ (isProblem (objectResponse response) = false /\ isProblem (objectResponse response') = false \/ response = response')
     | None, None => True
     | _, _ => False
     end.

(** The problem of a failure that says nothing about itself. *)
Definition internalProblem : Problem :=
  mkProblem "urn:n2f:problem:internal" "Internal Server Error" "internal error" internal 500 None None.

Lemma byStatus_entry table status d : entry table status d (byStatus table status d).
Proof.
  unfold byStatus, entry. destruct (find_first _ table) as [[k v]|] eqn:E.
  - left. apply List.find_some in E as [Hin Hk]. apply Z.eqb_eq in Hk. cbn in Hk. subst k. by apply list_elem_of_In.
  - right. split; [|done]. intros (e & -> & He)%list_elem_of_fmap. apply list_elem_of_In in He.
    pose proof (List.find_none _ _ E e He) as Hf. cbn in Hf. by rewrite Z.eqb_refl in Hf.
Qed.

Lemma js_append a b : js (String.append a b) = js a ++ js b.
Proof. induction a as [|c a IH]; [done|]. exact (f_equal (cons (Z.of_N (Ascii.N_of_ascii c))) IH). Qed.

Lemma problem_fixed status title code id :
  (forall c, code = Some c -> c <> ""%string) -> fixedBody (problem status title code (Some id)) status title code id.
Proof.
  intros Hc. unfold fixedBody, problem, correlation.
  exists (if status =? 404 then "not_found"%string else if status <? 500 then "invalid"%string else "internal"%string),
    (if 500 <=? status then "internal error"%string else "request was refused"%string).
  rewrite js_append. split.
  - destruct (Z.eqb_spec status 404) as [->|]; [constructor|]. destruct (Z.ltb_spec status 500), (Z.leb_spec 500 status); try lia; by constructor.
  - destruct code as [c|]; [|done]. rewrite (proj2 (String.eqb_neq c "") (Hc c eq_refl)). done.
Qed.

Lemma problem_isProblem status title code requestId : isProblem (problem status title code requestId) = true.
Proof.
  unfold isProblem.
  change (field "type" (problem status title code requestId)) with
    (VStr (js (String.append "urn:n2f:problem:" (if status =? 404 then "not_found" else if status <? 500 then "invalid" else "internal")))).
  apply bool_decide_eq_true. destruct (status =? 404); [|destruct (status <? 500)]; vm_compute; eexists; reflexivity.
Qed.

(** A problem carries the identifier of its request. *)
Lemma problem_requestId status title code c id :
  field "request_id" (problem status title code (Some (c :: id))) = VStr (c :: id).
Proof. unfold problem, field. destruct code as [k|]; [destruct (String.eqb k "")|]; vm_compute; reflexivity. Qed.

Lemma spread_requestId body c id : field "request_id" (JsMap.spread body (correlation (Some (c :: id)))) = VStr (c :: id).
Proof. unfold field, JsMap.spread. cbn. by rewrite JsMap.get_set_eq. Qed.

Lemma spread_isProblem body requestId : isProblem body = true -> isProblem (JsMap.spread body (correlation requestId)) = true.
Proof.
  intros Hb. destruct requestId as [[|c id]|]; [exact Hb| |exact Hb]. unfold isProblem, field, JsMap.spread in *. cbn.
  by rewrite JsMap.get_set_ne.
Qed.

Lemma spread_other body requestId k :
  k <> "request_id"%string -> JsMap.get k (JsMap.spread body (correlation requestId)) = JsMap.get k body.
Proof. intros Hk. destruct requestId as [[|c id]|]; [done| |done]. unfold JsMap.spread. cbn. by rewrite JsMap.get_set_ne. Qed.

Lemma known_inherited t :
  known t = true -> find_first (fun e => bool_decide (js e.1 = t)) BODY_ERRORS = None -> exists n, n ∈ INHERITED /\ t = js n.
Proof.
  intros Hk Hn. unfold known in Hk. apply existsb_exists in Hk as (n & Hin & Hj). apply bool_decide_eq_true in Hj. subst t.
  apply list_elem_of_In, elem_of_app in Hin as [Hin|Hin]; [|by exists n]. exfalso.
  apply list_elem_of_fmap in Hin as (e & -> & He). apply list_elem_of_In in He.
  pose proof (List.find_none _ _ Hn e He) as Hf. cbn beta in Hf. by rewrite bool_decide_true in Hf.
Qed.

Lemma bodyErrorType_known exception t : bodyErrorType exception = Some t -> known t = true.
Proof.
  unfold bodyErrorType. destruct (e_type exception) as [u|], (e_causeType exception) as [v|];
    try destruct (known u) eqn:Eu; try destruct (known v) eqn:Ev; congruence.
Qed.

Lemma rejectedBody_elem name status title code :
  (name, (status, title, code)) ∈ BODY_ERRORS -> rejectedBody name status title code /\ code <> ""%string.
Proof.
  intros Hin. unfold BODY_ERRORS in Hin. rewrite !elem_of_cons in Hin.
  repeat destruct Hin as [[= -> -> -> ->]|Hin]; try by split; [constructor|]. by apply elem_of_nil in Hin.
Qed.

Lemma code_named status : byStatus FRAMEWORK_CODES status "http.error" <> ""%string.
Proof.
  destruct (byStatus_entry FRAMEWORK_CODES status "http.error") as [Hin|[_ ->]]; [|done].
  unfold FRAMEWORK_CODES in Hin at 2. intros E. rewrite E in Hin. rewrite !elem_of_cons in Hin.
  repeat (destruct Hin as [Hs|Hin]; [discriminate Hs|]). by apply elem_of_nil in Hin.
Qed.

Lemma problem_answers status title code id :
  isProblem (problem status title code (Some id)) = true
  /\ (id <> [] -> field "request_id" (problem status title code (Some id)) = VStr id).
Proof. split; [apply problem_isProblem|]. destruct id as [|c id]; [done|]. intros _. apply problem_requestId. Qed.

Lemma catch_alike a b requestId : alike a b -> catch a requestId = catch b requestId.
Proof.
  intros [Ht Hh]. unfold catch. rewrite Ht. destruct (bodyErrorType b); [done|].
  destruct (e_http a) as [[s r]|], (e_http b) as [[s' r']|]; try done.
  destruct Hh as [-> [[Hr Hr'] | -> ]]; [|done]. cbv zeta. by rewrite Hr, Hr'.
Qed.

(** C25. Every error leaves as a problem that discloses nothing. Whatever is thrown,
    the filter answers a problem document with the request's identifier. Either it
    is one the application built, with its status and its other members untouched;
    or it is a fixed one: of a rejected body, the one of its error type; of what
    the framework threw, the exception's status with the title and the code that
    the tables have for that status; of anything else, the internal error, status
    500. Two errors that differ in messages, stacks or the framework's response
    text only get the same answer. The filter fails to answer only for a value
    whose [type] names a member every object inherits. The problem of a failure
    shows its public projection: of an internal failure, or of a value that is no
    failure, nothing at all. *)
Theorem errors_opaque (exception : Exception) (id : ID) (error : Caught) :
  match catch exception (Some id) with
  | None => exists name, name ∈ INHERITED /\ bodyErrorType exception = Some (js name)
  | Some (status, body) =>
      isProblem body = true
      /\ (id <> [] -> field "request_id" body = VStr id)
      /\ ((exists title code, fixedFor exception status title code /\ fixedBody body status title code id)
          \/ exists response, bodyErrorType exception = None
             /\ exception.(e_http) = Some (status, response) /\ isProblem (objectResponse response) = true
             /\ forall k, k <> "request_id"%string -> JsMap.get k body = JsMap.get k (objectResponse response))
  end
  /\ (forall other, alike exception other -> catch exception (Some id) = catch other (Some id))
  /\ problemOf (T := unit) (Err error) =
     match trusted error with
     | None => Some internalProblem
     | Some f =>
         if bool_decide (f_kind f = internal) then Some internalProblem
         else problemOf (T := unit) (Err (CFailure (mkFailure (f_kind f) (f_message f) (f_type f) (f_fields f) [] (CForeign VUndefined))))
     end.
Proof.
  split; [|split; [intros other; apply catch_alike|unfold problemOf, publicInfo; destruct error as [[[] m t fs d c]|[[] m t fs d c]|v]; reflexivity]].
  unfold catch. destruct (bodyErrorType exception) as [t|] eqn:Et.
  - destruct (find_first _ BODY_ERRORS) as [[n [[status title] code]]|] eqn:Ef.
    + apply List.find_some in Ef as [Hin Hn]. apply bool_decide_eq_true in Hn. cbn in Hn. subst t. apply list_elem_of_In in Hin.
      apply rejectedBody_elem in Hin as [Hr Hc]. destruct (problem_answers status title (Some code) id) as [Hp Hid].
      split; [done|]. split; [done|]. left. exists title, (Some code). split; [by eapply fixed_body|]. apply problem_fixed. by intros ? [= <-].
    + apply bodyErrorType_known in Et as Hk. destruct (known_inherited t Hk Ef) as (name & Hin & ->). by exists name.
  - destruct (e_http exception) as [[status response]|] eqn:Eh; cbv zeta.
    + destruct (isProblem (objectResponse response)) eqn:Ep.
      * split; [by apply spread_isProblem|]. split; [destruct id as [|c id]; [done|]; intros _; apply spread_requestId|].
        right. exists response. split_and!; try done. intros k Hk. by apply spread_other.
      * destruct (problem_answers status (byStatus TITLES status "Error") (Some (byStatus FRAMEWORK_CODES status "http.error")) id) as [Hp Hid].
        split; [done|]. split; [done|]. left. eexists _, _. split; [|apply problem_fixed; intros c [= <-]; apply code_named].
        eapply fixed_framework; try done; apply byStatus_entry.
    + destruct (problem_answers 500 "Internal Server Error" None id) as [Hp Hid].
      split; [done|]. split; [done|]. left. eexists _, None. split; [by apply fixed_unhandled|]. by apply problem_fixed.
Qed.

(** An error type that the table inherits, and that no client can send. *)
Example inherited_type : catch (mkException (Some (js "toString")) None None) None = None.
Proof. vm_compute. reflexivity. Qed.
End Http.

(** ** Completions. *)
Module HttpPolicy.

(** @src src/shared/http/policy.ts:14-20 Termination
    Another text than the six is refused. *)
Inductive Termination : Type :=
| response_completed | peer_closed | deadline | handler_error | write_error | abandoned | otherTermination.

Inductive OutcomeName : Type := success | refused | failed | canceled_ | timed_out.
#[export] Instance OutcomeName_eq_dec : EqDecision OutcomeName.
Proof. solve_decision. Defined.

(** @src src/shared/http/policy.ts:22-26 CompletionFacts *)
Record CompletionFacts : Type := mkFacts { status : option num; failureKind : option JsValue; termination : Termination }.

(** @src src/shared/http/policy.ts:28-32 Classification *)
Record Classification : Type := mkClassification { outcome : OutcomeName; spanError : bool; errorType : option jstring }.

(** @src src/shared/http/policy.ts:34-48 normalizeMethod *)
Definition normalizeMethod (value : jstring) : jstring :=
  if bool_decide (value ∈ js <$> ["GET"; "HEAD"; "POST"; "PUT"; "DELETE"; "CONNECT"; "OPTIONS"; "TRACE"; "PATCH"]%string)
  then value else js "_OTHER".

Definition invalidCompletion : Failure := fail_with invalid "invalid HTTP completion" "http.invalid_completion".

(** [facts.status !== undefined && facts.status >= 500]. *)
Definition atLeast (s : option num) (n : Z) : bool := match s with Some s => negb (num_lt s n) | None => false end.

(** @src src/shared/http/policy.ts:96-118 classifyCompletion
    A response that was completed. *)
Definition completed (facts : CompletionFacts) (kind : option Kind) : OutcomeName * option jstring :=
  match kind with
  | Some timeout => (timed_out, Some (js "timeout"))
  | Some canceled => (canceled_, Some (js "canceled"))
  | Some internal | Some unavailable => (failed, None)
  | Some _ => (refused, None)
  | None => (if atLeast facts.(status) 500 then failed else if atLeast facts.(status) 400 then refused else success, None)
  end.

(** @src src/shared/http/policy.ts:50-140 classifyCompletion *)
Definition classifyCompletion (facts : CompletionFacts) : Res Classification :=
  if match facts.(status) with Some s => negb (isInteger s) || num_lt s 200 || num_gt s 599 | None => false end
  then Err invalidCompletion
  else if match facts.(failureKind) with Some k => isNull (parseKind k) | None => false end then Err invalidCompletion
  else
    let kind := match facts.(failureKind) with Some k => parseKind k | None => None end in
    let decided :=
      match facts.(termination) with
      | peer_closed => Some (canceled_, Some (js "canceled"))
      | deadline => Some (timed_out, Some (js "timeout"))
      | handler_error => Some (failed, Some (js "handler_error"))
      | write_error => Some (failed, Some (js "write_error"))
      | abandoned => Some (failed, Some (js "abandoned"))
      | response_completed => if isNull facts.(status) then None else Some (completed facts kind)
      | otherTermination => None
      end in
    match decided with
    | None => Err invalidCompletion
    | Some (outcome, errorType) =>
        let spanError :=
          negb (match facts.(termination) with response_completed => true | _ => false end) || atLeast facts.(status) 500
          || bool_decide (outcome ∈ [failed; canceled_; timed_out]) in
        let errorType :=
          match errorType with
          | None =>
              if spanError then
                Some (match facts.(status) with
                      | Some s => if num_lt s 500 then js "handler_error" else intText (num_val s)
                      | None => js "handler_error"
                      end)
              else None
          | known => known
          end in
        Ok (mkClassification outcome spanError errorType)
    end.

(** @src src/shared/http/lifecycle.ts:14-18 Completion *)
Record Completion : Type := mkCompletion { facts : CompletionFacts; classification : Classification; elapsedNs : Z }.

(** @src src/shared/http/lifecycle.ts:20-35 Active
    An output is given a completion, and may throw. *)
Record Active : Type := mkActive { started : Z; outputs : list (Completion -> bool); done_ : bool; failures : Z }.

(** @src src/shared/http/lifecycle.ts:37-63 Active.finish
    [now] is the monotonic clock; what the outputs were given comes last. *)
Definition finish (input : CompletionFacts) (now : Z) (a : Active) : Active * Res bool * list Completion :=
  match classifyCompletion input with
  | Err f => (a, Err f, [])
  | Ok c =>
      if a.(done_) then (a, Ok false, [])
      else
        let elapsed := now - a.(started) in
        if elapsed <? 0 then (a, Err (fail_with invalid "invalid observation duration" "telemetry.invalid_duration"), [])
        else
          let completion := mkCompletion input c elapsed in
          (mkActive a.(started) a.(outputs) true (a.(failures) + Z.of_nat (length (filter (fun o => o completion = true) a.(outputs)))),
           Ok true, (fun _ => completion) <$> a.(outputs))
  end.

(** Any number of attempts to finish a request. *)
Fixpoint finishes (l : list (CompletionFacts * Z)) (a : Active) : Active * list (Res bool) * list Completion :=
  match l with
  | [] => (a, [], [])
  | (f, now) :: l =>
      let '(a, r, given) := finish f now a in
      let '(a, rs, more) := finishes l a in (a, r :: rs, given ++ more)
  end.

(** A failure's problem and its span agree: it is never a success, and it marks
    the span as an error, with a type, exactly when the status is a server's. *)
Lemma problem_classified (error : Caught) :
  match Http.problemOf (T := unit) (Err error) with
  | Some p =>
      match classifyCompletion (mkFacts (Some (Int p.(Http.pr_status))) (Some (VStr (js (Http.kindName p.(Http.pr_kind))))) response_completed) with
      | Ok c => c.(outcome) <> success /\ c.(spanError) = (500 <=? p.(Http.pr_status)) /\ isNull c.(errorType) = negb c.(spanError)
      | Err _ => False
      end
  | None => False
  end.
Proof. destruct error as [[[] m t fs d c]|[[] m t fs d c]|v]; vm_compute; repeat split; congruence. Qed.

(** A span is an error exactly when it has an error type. *)
Lemma classified_error f c : classifyCompletion f = Ok c -> isNull c.(errorType) = negb c.(spanError).
Proof.
  unfold classifyCompletion. destruct (match status f with Some _ => _ | None => _ end); [done|].
  destruct (match failureKind f with Some k => isNull (parseKind k) | None => _ end); [done|].
  destruct (match termination f with response_completed => _ | _ => _ end) as [[o e]|] eqn:Ed; [|done]. intros [= <-]. cbn [errorType spanError].
  destruct e as [e|]; [|by destruct (_ || _ || _)].
  destruct (termination f); try (injection Ed as <- <-; reflexivity); [|done].
  destruct (isNull (status f)); [done|]. injection Ed as Ed. unfold completed in Ed.
  destruct (match failureKind f with Some k => parseKind k | None => None end) as [[]|]; injection Ed as <- E; try done; subst; by rewrite orb_true_r.
Qed.

(** How many of the answers say the request was observed. *)
Definition observed (answers : list (Res bool)) : nat :=
  length (filter (fun r => match r with Ok b => b | Err _ => false end = true) answers).

Lemma finishes_done l a : a.(done_) = true ->
  let '(a', answers, given) := finishes l a in a' = a /\ given = [] /\ observed answers = 0%nat.
Proof.
  intros Ha. induction l as [|[f now] l IH]; [done|]. cbn [finishes]. unfold finish. rewrite Ha.
  destruct (classifyCompletion f); destruct (finishes l a) as [[a' answers] given]; destruct IH as (-> & -> & IH); done.
Qed.

(** However often a request is finished, it is observed once: by no output, or
    by each of them with the same completion. *)
Lemma finished_once l a : a.(done_) = false ->
  let '(a', answers, given) := finishes l a in
  (a'.(done_) = false /\ given = [] /\ observed answers = 0%nat)
  \/ (a'.(done_) = true /\ (exists c, given = (fun _ => c) <$> a.(outputs)) /\ observed answers = 1%nat).
Proof.
  intros Ha. revert Ha. induction l as [|[f now] l IH]; intros Ha; [by left|]. cbn [finishes]. unfold finish. rewrite Ha. specialize (IH Ha).
  destruct (classifyCompletion f) as [c|e]; [|destruct (finishes l a) as [[a' answers] given]; exact IH].
  destruct (now - started a <? 0); [destruct (finishes l a) as [[a' answers] given]; exact IH|].
  match goal with |- context [finishes l ?b] => pose proof (finishes_done l b eq_refl) as Hd; destruct (finishes l b) as [[a' answers] given] end.
  destruct Hd as (-> & -> & Ho). right. split; [done|]. split; [|unfold observed in *; rewrite filter_cons_True by done; cbn; by rewrite Ho].
  eexists. by rewrite app_nil_r.
Qed.
End HttpPolicy.
