(* ===== verification/Replies.v ===== *)
(** * Replies and cookies: [shared/http/feature.ts].

    The values a feature replies with, checked before they are sent: cookies,
    headers and statuses; and the cookies a request carries. *)
From S2P Require Import Prelude JsMap Errors Ids IsoDate Json JsonPrint.

Module Replies.

(** @src src/shared/http/feature.ts:21-31 METHODS *)
Definition METHODS : list jstring :=
  js <$> ["GET"; "HEAD"; "POST"; "PUT"; "DELETE"; "CONNECT"; "OPTIONS"; "TRACE"; "PATCH"]%string.

(** @src src/shared/http/feature.ts:68-75 REPLY_HEADERS *)
Definition REPLY_HEADERS : list jstring :=
  js <$> ["Cache-Control"; "Allow"; "WWW-Authenticate"; "Retry-After"; "Location"]%string.

(** @src src/shared/http/feature.ts:77-86 CookieValue.sameSite *)
Inductive SameSite : Type := Strict | Lax | NoneSite.

(** @src src/shared/http/feature.ts:77-86 CookieValue
    The name and the value may be anything; a flag that is not set is [false]. *)
Record CookieValue : Type := mkCookie {
  ck_name : JsValue; ck_value : JsValue; path : option jstring; maxAge : option num; expires : option Date;
  secure : bool; httpOnly : bool; sameSite : option SameSite
}.

(** @src src/shared/http/feature.ts:95-96 invalidCookie *)
Definition invalidCookie : Failure := fail_with internal "invalid cookie value" "http.invalid_cookie".
(** @src src/shared/http/feature.ts:97-98 invalidReply *)
Definition invalidReply : Failure := fail_with internal "invalid reply value" "http.invalid_reply".

(** [[!#$%&'*+\-.^_`|~0-9A-Za-z]]. *)
Definition isTokenChar (c : Z) : bool :=
  isDigit c || isUpper c || isLower c
  || bool_decide (c ∈ [33; 35; 36; 37; 38; 39; 42; 43; 45; 46; 94; 95; 96; 124; 126]).
(** @src src/shared/http/feature.ts:99-99 TOKEN *)
Definition isToken (s : jstring) : bool := negb (bool_decide (s = [])) && forallb isTokenChar s.

(** [[\x21\x23-\x2b\x2d-\x3a\x3c-\x5b\x5d-\x7e]]. *)
Definition isCookieOctet (c : Z) : bool :=
  (c =? 33) || ((35 <=? c) && (c <=? 43)) || ((45 <=? c) && (c <=? 58)) || ((60 <=? c) && (c <=? 91))
  || ((93 <=? c) && (c <=? 126)).
(** @src src/shared/http/feature.ts:100-100 COOKIE_OCTETS *)
Definition isCookieValue (s : jstring) : bool := forallb isCookieOctet s.

(** @src src/shared/http/feature.ts:101-101 HEADER_VALUE *)
Definition isHeaderValue (s : jstring) : bool := forallb (fun c => (32 <=? c) && (c <=? 126)) s.

(** [s.split(separator)], of one unit. *)
Fixpoint splitOn (separator : Z) (s : jstring) : list jstring :=
  match s with
  | [] => [[]]
  | c :: r =>
      if c =? separator then [] :: splitOn separator r
      else match splitOn separator r with w :: ws => (c :: w) :: ws | [] => [[c]] end
  end.

(** [s.slice(0, at)] and [s.slice(at + 1)], of the first [at] where the unit is. *)
Fixpoint cutAt (unit : Z) (s : jstring) : option (jstring * jstring) :=
  match s with
  | [] => None
  | c :: r => if c =? unit then Some ([], r) else (fun p => (c :: p.1, p.2)) <$> cutAt unit r
  end.

(** [value.startsWith('"') && value.endsWith('"')], of at least two units. *)
Definition unquoted (value : jstring) : jstring :=
  match value with
  | 34 :: r => match reverse r with 34 :: m => reverse m | _ => value end
  | _ => value
  end.

Definition Cookies : Type := list (jstring * list jstring).

(** [values ? values.push(value) : cookies.set(name, [value])]. *)
Definition addCookie (name value : jstring) (cookies : Cookies) : Cookies :=
  JsMap.set name (default [] (JsMap.get name cookies) ++ [value]) cookies.

(** @src src/shared/http/feature.ts:108-120 parseCookies *)
Definition parsePair (cookies : Cookies) (pair : jstring) : Cookies :=
  match cutAt 61 pair with
  | None => cookies
  | Some (before, after) =>
      let name := trim before in
      let value := unquoted (trim after) in
      if negb (isToken name) || negb (isCookieValue value) then cookies else addCookie name value cookies
  end.

(** @src src/shared/http/feature.ts:103-122 parseCookies *)
Definition parseCookies (header : option jstring) : Cookies :=
  match header with
  | None | Some [] => []
  | Some header => foldl parsePair [] (splitOn 59 header)
  end.

(** [date.toUTCString()]. *)
Definition WEEKDAYS : list string := ["Thu"; "Fri"; "Sat"; "Sun"; "Mon"; "Tue"; "Wed"]%string.
Definition MONTHS : list string :=
  ["Jan"; "Feb"; "Mar"; "Apr"; "May"; "Jun"; "Jul"; "Aug"; "Sep"; "Oct"; "Nov"; "Dec"]%string.
Definition nameAt (names : list string) (i : Z) : jstring := js (default ""%string (names !! Z.to_nat i)).
Definition toUTCString (t : Z) : jstring :=
  let d := t / 86400000 in
  let ms := t mod 86400000 in
  let c := civil d in
  nameAt WEEKDAYS (d mod 7) ++ js ", " ++ IsoDate.digits 2 c.(day) ++ [32] ++ nameAt MONTHS (c.(month) - 1) ++ [32]
  ++ (if c.(year) <? 0 then [45] else []) ++ (if Z.abs c.(year) <=? 9999 then IsoDate.digits 4 (Z.abs c.(year)) else intText (Z.abs c.(year)))
  ++ [32] ++ IsoDate.digits 2 (ms / 3600000) ++ [58] ++ IsoDate.digits 2 (ms / 60000 mod 60) ++ [58]
  ++ IsoDate.digits 2 (ms / 1000 mod 60) ++ js " GMT".

(** @src src/shared/http/feature.ts:124-155 serializeCookie
    The tests a cookie must pass. *)
Definition badCookie (cookie : CookieValue) : bool :=
  match cookie.(ck_name), cookie.(ck_value) with
  | VStr name, VStr value =>
      negb (isToken name) || negb (isCookieValue value)
      || match cookie.(path) with Some p => negb (isHeaderValue p) || existsb (Z.eqb 59) p | None => false end
      || match cookie.(maxAge) with Some n => negb (isInteger n) || num_lt n 0 | None => false end
      || match cookie.(expires) with Some InvalidDate => true | _ => false end
      || (bool_decide (js "__Host-" `prefix_of` name) && (negb cookie.(secure) || negb (bool_decide (cookie.(path) = Some (js "/")))))
      || (match cookie.(sameSite) with Some NoneSite => true | _ => false end && negb cookie.(secure))
  | _, _ => true
  end.

(** @src src/shared/http/feature.ts:157-165 serializeCookie
    What follows the name and the value. *)
Definition attributes (cookie : CookieValue) : list jstring :=
  match cookie.(path) with Some p => [js " Path=" ++ p] | None => [] end
  ++ match cookie.(maxAge) with Some n => [js " Max-Age=" ++ intText (num_val n)] | None => [] end
  ++ match cookie.(expires) with Some d => [js " Expires=" ++ toUTCString (getTime d)] | None => [] end
  ++ (if cookie.(secure) then [js " Secure"] else []) ++ (if cookie.(httpOnly) then [js " HttpOnly"] else [])
  ++ match cookie.(sameSite) with
     | Some s => [js " SameSite=" ++ js (match s with Strict => "Strict" | Lax => "Lax" | NoneSite => "None" end)]
     | None => []
     end.

(** [name + '=' + value]. *)
Definition pairText (name value : jstring) : jstring := name ++ [61] ++ value.
Definition text_ (v : JsValue) : jstring := match v with VStr s => s | _ => [] end.

(** @src src/shared/http/feature.ts:124-167 serializeCookie *)
Definition serializeCookie (cookie : CookieValue) : Res jstring :=
  if badCookie cookie then Err invalidCookie
  else Ok (joined [59] (pairText (text_ cookie.(ck_name)) (text_ cookie.(ck_value)) :: attributes cookie)).

(** @src src/shared/http/feature.ts:169-173 allowFor *)
Definition allowFor (methods : list jstring) : jstring :=
  joined (js ", ")
    (filter (fun m => bool_decide (m ∈ methods) || (bool_decide (m = js "HEAD") && bool_decide (js "GET" ∈ methods)) = true) METHODS).

(** @src src/shared/http/feature.ts:88-93 ReplySpec
    [undefined] where there is no body. *)
Record ReplySpec : Type := mkSpec {
  rs_status : Z; rs_body : JsValue; rs_headers : list (jstring * JsValue); rs_cookies : list CookieValue
}.

(** @src src/shared/http/feature.ts:175-192 Reply *)
Record Reply : Type := mkReply {
  rp_status : Z; rp_body : JsValue; rp_headers : list (jstring * jstring); rp_cookies : list jstring
}.

(** @src src/shared/http/feature.ts:201-211 Reply.create *)
Fixpoint replyHeaders (entries : list (jstring * JsValue)) (headers : list (jstring * jstring)) : Res (list (jstring * jstring)) :=
  match entries with
  | [] => Ok headers
  | (name, value) :: rest =>
      match value with
      | VStr s => if bool_decide (name ∈ REPLY_HEADERS) && isHeaderValue s then replyHeaders rest (JsMap.set name s headers) else Err invalidReply
      | _ => Err invalidReply
      end
  end.

(** @src src/shared/http/feature.ts:212-217 Reply.create *)
Fixpoint replyCookies (cookies : list CookieValue) : Res (list jstring) :=
  match cookies with
  | [] => Ok []
  | cookie :: rest => serialized ← serializeCookie cookie; more ← replyCookies rest; Ok (serialized :: more)
  end.

(** @src src/shared/http/feature.ts:194-219 Reply.create *)
Definition createReply (spec : ReplySpec) : Res Reply :=
  if negb (bool_decide (spec.(rs_status) ∈ [200; 201; 202; 204; 303])) then Err invalidReply
  else if (spec.(rs_status) =? 204) && negb (bool_decide (spec.(rs_body) = VUndefined)) then Err invalidReply
  else
    headers ← replyHeaders spec.(rs_headers) [];
    cookies ← replyCookies spec.(rs_cookies);
    Ok (mkReply spec.(rs_status) spec.(rs_body) headers cookies).

(** @src src/shared/http/feature.ts:222-236 Refuse *)
Record Refuse : Type := mkRefuse { rf_error : JsValue; rf_headers : list (jstring * jstring); rf_cookies : list jstring }.

(** @src src/shared/http/feature.ts:238-246 Refuse.create *)
Definition createRefuse (error : JsValue) (headers : list (jstring * JsValue)) (cookies : list CookieValue) : Res Refuse :=
  if nullish error then Err invalidReply
  else reply ← createReply (mkSpec 204 VUndefined headers cookies); Ok (mkRefuse error reply.(rp_headers) reply.(rp_cookies)).

(** ** What the browser sends back. *)

(** The header of the cookies a browser keeps: their pairs, joined. *)
Definition cookieHeader (pairs : list (jstring * jstring)) : jstring :=
  joined (js "; ") ((fun p => pairText p.1 p.2) <$> pairs).

(** Values by name, in the order they are sent. *)
Definition grouped (pairs : list (jstring * jstring)) : Cookies := foldl (fun m p => addCookie p.1 p.2 m) [] pairs.

(** What a [Set-Cookie] text is to a browser: its first segment is the pair, the
    others are attributes. *)
Definition segments (setCookie : jstring) : list jstring := splitOn 59 setCookie.

(** *** Splitting what was joined. *)

Lemma splitOn_plain sep s : sep ∉ s -> splitOn sep s = [s].
Proof.
  induction s as [|c s IH]; intros Hs; [done|]. apply not_elem_of_cons in Hs as [Hc Hs]. cbn [splitOn].
  rewrite (proj2 (Z.eqb_neq c sep)) by congruence. by rewrite IH.
Qed.

Lemma splitOn_app sep s t : sep ∉ s -> splitOn sep (s ++ sep :: t) = s :: splitOn sep t.
Proof.
  induction s as [|c s IH]; intros Hs; cbn [app splitOn]; [by rewrite Z.eqb_refl|]. apply not_elem_of_cons in Hs as [Hc Hs].
  rewrite (proj2 (Z.eqb_neq c sep)) by congruence. by rewrite IH.
Qed.

(** A list joined by a separator and some padding is split into its items, all
    but the first with the padding before them. *)
Lemma splitOn_joined sep pad x l : Forall (fun s => sep ∉ s) (x :: l) -> sep ∉ pad ->
  splitOn sep (joined (sep :: pad) (x :: l)) = x :: (app pad <$> l).
Proof.
  intros [Hx Hl]%Forall_cons Hp. cbn [joined]. revert x Hx. induction Hl as [|y l Hy Hl IH]; intros x Hx; cbn [List.flat_map fmap list_fmap].
  - rewrite app_nil_r. by apply splitOn_plain.
  - rewrite <- (app_comm_cons pad y sep), <- app_comm_cons, splitOn_app by done. f_equal.
    apply (IH (pad ++ y)). by apply not_elem_of_app.
Qed.

Lemma cutAt_app unit s t : unit ∉ s -> cutAt unit (s ++ unit :: t) = Some (s, t).
Proof.
  induction s as [|c s IH]; intros Hs; cbn [app cutAt]; [by rewrite Z.eqb_refl|]. apply not_elem_of_cons in Hs as [Hc Hs].
  rewrite (proj2 (Z.eqb_neq c unit)) by congruence. by rewrite IH.
Qed.

(** Text without white space is its own trim, also behind one space. *)
Lemma trim_solid s : Forall (fun c => isSpace c = false) s -> trim s = s.
Proof.
  intros Hs. unfold trim. rewrite (trimStart_fixed s) by (destruct s; [done|by apply Forall_cons in Hs as [? _]]).
  rewrite trimStart_fixed; [apply reverse_involutive|]. apply Forall_reverse in Hs. destruct (reverse s); [done|by apply Forall_cons in Hs as [? _]].
Qed.
Lemma trim_padded s : Forall (fun c => isSpace c = false) s -> trim (32 :: s) = s.
Proof. intros Hs. unfold trim. change (trimStart (32 :: s)) with (trimStart s). by apply trim_solid. Qed.

Lemma tokenChar_solid c : isTokenChar c = true -> isSpace c = false /\ c <> 61 /\ c <> 59 /\ 33 <= c <= 126.
Proof.
  intros H. assert (Hc : 33 <= c <= 126 /\ c <> 61 /\ c <> 59).
  { unfold isTokenChar in H. apply orb_true_iff in H as [H|H].
    - unfold isDigit, isUpper, isLower in H. lia.
    - apply bool_decide_eq_true in H. repeat (apply elem_of_cons in H as [->|H]; [lia|]). by apply elem_of_nil in H. }
  split; [|lia]. unfold isSpace. lia.
Qed.
Lemma octet_solid c : isCookieOctet c = true -> isSpace c = false /\ c <> 34 /\ c <> 59 /\ 33 <= c <= 126.
Proof. unfold isCookieOctet. intros H. assert (Hc : 33 <= c <= 126 /\ c <> 34 /\ c <> 59) by lia. split; [|lia]. unfold isSpace. lia. Qed.

Lemma forallb_Forall' {A} (p : A -> bool) l : forallb p l = true <-> Forall (fun x => p x = true) l.
Proof. rewrite forallb_forall, Forall_forall. by setoid_rewrite list_elem_of_In. Qed.

(** A pair that passes the tests. *)
Definition sendable (p : jstring * jstring) : Prop := isToken p.1 = true /\ isCookieValue p.2 = true.

Lemma unquoted_value s : isCookieValue s = true -> unquoted s = s.
Proof.
  intros Hs. apply forallb_Forall' in Hs. destruct s as [|c s]; [done|]. apply Forall_cons in Hs as [Hc _].
  apply octet_solid in Hc as (_ & Hc & _). unfold unquoted. repeat (case_match; try done; try lia).
Qed.

Lemma parsePair_sendable pad p cookies : pad = [] \/ pad = [32] -> sendable p ->
  parsePair cookies (pad ++ pairText p.1 p.2) = addCookie p.1 p.2 cookies.
Proof.
  intros Hpad [Hn Hv]. destruct p as [n v]. cbn [fst snd] in *. unfold parsePair, pairText.
  assert (Hnf : Forall (fun c => isTokenChar c = true) n) by (by apply forallb_Forall'; apply andb_true_iff in Hn as [_ ?]).
  assert (Hvf : Forall (fun c => isCookieOctet c = true) v) by (by apply forallb_Forall').
  assert (Hns : Forall (fun c => isSpace c = false) n) by (eapply Forall_impl; [exact Hnf|]; intros c Hc; by apply tokenChar_solid).
  assert (Hvs : Forall (fun c => isSpace c = false) v) by (eapply Forall_impl; [exact Hvf|]; intros c Hc; by apply octet_solid).
  assert (Heq : 61 ∉ pad ++ n).
  { apply not_elem_of_app. split; [destruct Hpad as [->| ->]; [apply not_elem_of_nil|by apply not_elem_of_cons; split; [|apply not_elem_of_nil]]|].
    intros H. rewrite Forall_forall in Hnf. by apply Hnf, tokenChar_solid in H as (_ & ? & _). }
  rewrite app_assoc. change ([61] ++ v) with (61 :: v). rewrite cutAt_app by done. cbv zeta.
  assert (trim (pad ++ n) = n) as -> by (destruct Hpad as [->| ->]; [by apply trim_solid|by apply trim_padded]).
  rewrite (trim_solid v) by done. rewrite unquoted_value by done. by rewrite Hn, Hv.
Qed.

(** *** What is sent is printable, and free of separators. *)
Definition harmless (s : jstring) : Prop := Forall (fun c => 32 <= c <= 126 /\ c <> 59) s.

Lemma harmless_app s t : harmless s -> harmless t -> harmless (s ++ t).
Proof. intros. by apply Forall_app. Qed.
Lemma harmless_nil : harmless [].
Proof. by constructor. Qed.
Lemma harmless_unit c : 32 <= c <= 126 /\ c <> 59 -> harmless [c].
Proof. intros H. constructor; [exact H|constructor]. Qed.
Lemma harmless_js s : forallb (fun c => (32 <=? c) && (c <=? 126) && negb (c =? 59)) (js s) = true -> harmless (js s).
Proof. intros H%forallb_Forall'. eapply Forall_impl; [exact H|]. cbn. lia. Qed.
Lemma harmless_digits w n : harmless (IsoDate.digits w n).
Proof. eapply Forall_impl; [apply IsoDate.digits_digit|]. cbn. lia. Qed.
Lemma harmless_int n : harmless (intText n).
Proof. unfold intText. apply harmless_app; [destruct (n <? 0); [by apply harmless_unit|constructor]|apply harmless_digits]. Qed.
Lemma harmless_name names i : Forall (fun s => harmless (js s)) names -> harmless (nameAt names i).
Proof.
  intros H. unfold nameAt. destruct (names !! Z.to_nat i) as [s|] eqn:E; [|constructor]. cbn [default].
  rewrite Forall_forall in H. apply H. by eapply list_elem_of_lookup_2.
Qed.
Lemma harmless_token s : isToken s = true -> harmless s.
Proof.
  intros [_ H]%andb_true_iff. apply forallb_Forall' in H. eapply Forall_impl; [exact H|]. intros c Hc. apply tokenChar_solid in Hc. lia.
Qed.
Lemma harmless_value s : isCookieValue s = true -> harmless s.
Proof. intros H%forallb_Forall'. eapply Forall_impl; [exact H|]. intros c Hc. apply octet_solid in Hc. lia. Qed.

(** Pieces of text, one by one. *)
Ltac harmlessly :=
  repeat lazymatch goal with
  | |- harmless (_ ++ _) => apply harmless_app
  | |- harmless (IsoDate.digits _ _) => apply harmless_digits
  | |- harmless (intText _) => apply harmless_int
  | |- harmless (js _) => apply harmless_js; vm_compute; reflexivity
  | |- harmless (nameAt _ _) =>
      apply harmless_name; repeat (apply Forall_cons; split; [apply harmless_js; vm_compute; reflexivity|]); apply Forall_nil; done
  | |- harmless [] => apply harmless_nil
  | |- harmless [_] => apply harmless_unit; lia
  | |- harmless (if ?b then _ else _) => destruct b
  end.

Lemma harmless_date t : harmless (toUTCString t).
Proof. unfold toUTCString. cbv zeta. harmlessly. Qed.

Lemma accepted_cookie c : badCookie c = false ->
  sendable (text_ c.(ck_name), text_ c.(ck_value)) /\ Forall harmless (attributes c).
Proof.
  unfold badCookie. destruct (ck_name c) as [| | | |n| |]; try done. destruct (ck_value c) as [| | | |v| |]; try done. intros H.
  repeat (apply orb_false_iff in H as [H ?]). apply negb_false_iff in H. split; [split; [done|by apply negb_false_iff]|].
  unfold attributes. repeat (apply Forall_app_2).
  - destruct (path c) as [p|]; [|constructor]. apply Forall_cons; split; [|constructor]. apply harmless_app; [apply harmless_js; vm_compute; reflexivity|].
    match goal with H : negb (isHeaderValue p) || _ = false |- _ => apply orb_false_iff in H as [Hh%negb_false_iff Hs] end.
    apply forallb_Forall' in Hh. rewrite <- not_true_iff_false, existsb_exists in Hs. apply Forall_forall. intros x Hx.
    rewrite Forall_forall in Hh. specialize (Hh x Hx). cbn in Hh. assert (x <> 59); [|lia]. intros ->. apply Hs. exists 59.
    split; [by apply list_elem_of_In|done].
  - destruct (maxAge c); [apply Forall_cons; split; [harmlessly|]|]; constructor.
  - destruct (expires c); [apply Forall_cons; split; [apply harmless_app; [harmlessly|apply harmless_date]|]|]; constructor.
  - destruct (secure c); [apply Forall_cons; split; [harmlessly|]|]; constructor.
  - destruct (httpOnly c); [apply Forall_cons; split; [harmlessly|]|]; constructor.
  - destruct (sameSite c) as [ss|]; [apply Forall_cons; split; [apply harmless_app; [harmlessly|destruct ss; harmlessly]|]|]; constructor.
Qed.

Lemma pair_harmless p : sendable p -> harmless (pairText p.1 p.2).
Proof.
  intros [Hn Hv]. apply harmless_app; [by apply harmless_token|]. apply harmless_app; [by apply harmless_unit|by apply harmless_value].
Qed.

Lemma joined_printable sep l : Forall harmless l -> Forall (fun c => 32 <= c <= 126) sep -> Forall (fun c => 32 <= c <= 126) (joined sep l).
Proof.
  intros Hl Hs. destruct Hl as [|x l Hx Hl]; [constructor|]. cbn [joined].
  assert (Hp : forall s, harmless s -> Forall (fun c => 32 <= c <= 126) s) by (intros s H; eapply Forall_impl; [exact H|]; cbn; lia).
  apply Forall_app_2; [by apply Hp|]. induction Hl as [|y l Hy Hl IH]; cbn [List.flat_map]; [constructor|].
  apply Forall_app_2; [apply Forall_app_2; [done|by apply Hp]|done].
Qed.

Lemma harmless_separator s : harmless s -> 59 ∉ s.
Proof. unfold harmless. rewrite Forall_forall. intros H Hin. by apply H in Hin as [_ ?]. Qed.

Lemma replyCookies_ok cookies texts : replyCookies cookies = Ok texts ->
  Forall (fun c => badCookie c = false) cookies
  /\ texts = (fun c => joined [59] (pairText (text_ c.(ck_name)) (text_ c.(ck_value)) :: attributes c)) <$> cookies.
Proof.
  revert texts. induction cookies as [|c cookies IH]; intros texts H; cbn [replyCookies] in H; [injection H as <-; split; [constructor|done]|].
  apply bind_ok in H as (t & Ht & H). apply bind_ok in H as (ts & Hts & H). injection H as <-. destruct (IH _ Hts) as [Hb ->].
  unfold serializeCookie in Ht. destruct (badCookie c) eqn:Eb; [done|]. injection Ht as <-. split; [by constructor|done].
Qed.

Lemma foldl_padded ps cookies : Forall sendable ps ->
  foldl parsePair cookies (app [32] <$> ((fun p => pairText p.1 p.2) <$> ps)) = foldl (fun m p => addCookie p.1 p.2 m) cookies ps.
Proof.
  intros Hps. revert cookies. induction Hps as [|p ps Hp Hps IH]; intros cookies; [done|]. cbn [fmap list_fmap foldl].
  rewrite (parsePair_sendable [32]) by (by right || done). apply IH.
Qed.

Lemma cookieHeader_read ps : Forall sendable ps -> parseCookies (Some (cookieHeader ps)) = grouped ps.
Proof.
  intros Hps. destruct Hps as [|p ps Hp Hps]; [done|]. unfold cookieHeader. cbn [fmap list_fmap].
  assert (Hsep : Forall (fun s => 59 ∉ s) (pairText p.1 p.2 :: ((fun p => pairText p.1 p.2) <$> ps))).
  { constructor; [by apply harmless_separator, pair_harmless|]. apply Forall_fmap. eapply Forall_impl; [exact Hps|].
    intros q Hq. by apply harmless_separator, pair_harmless. }
  pose proof (splitOn_joined 59 [32] _ _ Hsep ltac:(by apply not_elem_of_cons; split; [|apply not_elem_of_nil])) as Hsplit.
  change (js "; ") with (59 :: [32]). unfold parseCookies.
  destruct (joined (59 :: [32]) (pairText p.1 p.2 :: ((fun p => pairText p.1 p.2) <$> ps))) as [|c r] eqn:E.
  { destruct Hp as [Hn _]. destruct p as [[|n0 n] v]; [done|]. discriminate E. }
  rewrite Hsplit. cbn [foldl]. unfold grouped. cbn [foldl]. rewrite foldl_padded by done. f_equal.
  exact (parsePair_sendable [] p [] (or_introl eq_refl) Hp).
Qed.

(** C34. Cookies survive the round trip, and carry nothing but themselves. A cookie
    that is accepted is sent as a text whose first segment is its name and value
    and whose others are exactly its attributes: no part of its value or its path
    can add an attribute, end the header, or start another one. What a browser
    sends back of any accepted cookies is read as those cookies, the values of a
    repeated name in order. *)
Theorem cookies_roundtrip (cookies : list CookieValue) (texts : list jstring) (Hset : replyCookies cookies = Ok texts) :
  let pairs := (fun c => (text_ c.(ck_name), text_ c.(ck_value))) <$> cookies in
  parseCookies (Some (cookieHeader pairs)) = grouped pairs
  /\ texts = (fun c => joined [59] (pairText (text_ c.(ck_name)) (text_ c.(ck_value)) :: attributes c)) <$> cookies
  /\ Forall (fun t => Forall (fun c => 32 <= c <= 126) t) texts
  /\ segments <$> texts = (fun c => pairText (text_ c.(ck_name)) (text_ c.(ck_value)) :: attributes c) <$> cookies.
Proof.
  intros pairs. destruct (replyCookies_ok _ _ Hset) as [Hb Ht].
  assert (Hp : Forall sendable pairs).
  { apply Forall_fmap. eapply Forall_impl; [exact Hb|]. intros c Hc. exact (proj1 (accepted_cookie c Hc)). }
  assert (Hall : forall c, c ∈ cookies -> Forall harmless (pairText (text_ (ck_name c)) (text_ (ck_value c)) :: attributes c)).
  { intros c Hc. rewrite Forall_forall in Hb. destruct (accepted_cookie c (Hb c Hc)) as [Hs Ha].
    constructor; [exact (pair_harmless _ Hs)|done]. }
  split; [by apply cookieHeader_read|]. split; [done|]. subst texts. split.
  - apply Forall_fmap, Forall_forall. intros c Hc. apply joined_printable; [by apply Hall|]. constructor; [done|constructor].
  - rewrite <- list_fmap_compose. apply list_fmap_ext. intros i c Hi. apply list_elem_of_lookup_2 in Hi. unfold compose, segments.
    rewrite (splitOn_joined 59 []); [by rewrite list_fmap_id| |apply not_elem_of_nil].
    eapply Forall_impl; [exact (Hall c Hi)|]. apply harmless_separator.
Qed.

Definition sample_cookies : list CookieValue :=
  [mkCookie (VStr (js "__Host-session")) (VStr (js "abc.def")) (Some (js "/")) (Some (Int 3600)) (Some (DateAt 1700000000123)) true true (Some Strict);
   mkCookie (VStr (js "theme")) (VStr (js "dark")) None None None false false (Some Lax)].

Lemma cookies_roundtrip_witness :
  parseCookies (Some (cookieHeader ((fun c => (text_ c.(ck_name), text_ c.(ck_value))) <$> sample_cookies))) =
    [(js "__Host-session", [js "abc.def"]); (js "theme", [js "dark"])]
  /\ replyCookies sample_cookies =
     Ok [js "__Host-session=abc.def; Path=/; Max-Age=3600; Expires=Tue, 14 Nov 2023 22:13:20 GMT; Secure; HttpOnly; SameSite=Strict";
         js "theme=dark; SameSite=Lax"].
Proof.
  assert (H : replyCookies sample_cookies =
     Ok [js "__Host-session=abc.def; Path=/; Max-Age=3600; Expires=Tue, 14 Nov 2023 22:13:20 GMT; Secure; HttpOnly; SameSite=Strict";
         js "theme=dark; SameSite=Lax"]) by (vm_compute; reflexivity).
  split; [|exact H]. rewrite (proj1 (cookies_roundtrip sample_cookies _ H)). vm_compute. reflexivity.
Defined.
End Replies.
