(* ===== verification/RatePostgres.v ===== *)
(** * Rate limiting across processes: [platform/ratelimit/postgres/store.ts],
    and the interceptor over either store:
    [platform/ratelimit/rate-limit.interceptor.ts].

    The buckets live in a table that several processes share; each call is one
    transaction.  The PostgreSQL store gives the answers of the same count over
    the history as the in-memory store: both are instances of one interface,
    over which the interceptor is proved. *)
From stdpp Require Import functions.
From S2P Require Import Prelude JsMap Errors Ids Json Text JsonText RateLimit Postgres Inbox EventStore Sql.

Module PgRate.
Import RateLimit.RateLimit Sql.Sql.
Import Postgres.Database(Thrown, DatabaseError).

(** @src src/platform/ratelimit/postgres/migrations/baseline.sql:9-22 n2f_rate_limits
    The primary key of a row; its other column is the count. *)
Record Bucket : Type := mkBucket { b_key : jstring; b_start : Z; b_window : Z; b_limit : Z }.
#[export] Instance Bucket_eq_dec : EqDecision Bucket.
Proof. solve_decision. Defined.

Definition Table : Type := list (Bucket * Z).

(** @src src/platform/ratelimit/postgres/migrations/baseline.sql:15-18 n2f_rate_limits
    Why the server refuses a row: a count beyond [integer], or a CHECK. *)
Definition refusesBucket (b : Bucket) (n : Z) : option string :=
  match integer n with
  | Some code => Some code
  | None =>
      if (1 <=? charLength b.(b_key)) && (charLength b.(b_key) <=? 256) && (1 <=? n)
         && (1 <=? b.(b_limit)) && (b.(b_limit) <=? 1000000) && (1000 <=? b.(b_window)) && (b.(b_window) <=? 86400000)
      then None else Some "23514"%string
  end.

(** @src src/platform/ratelimit/postgres/store.ts:68-83 consume
    [INSERT ... ON CONFLICT DO UPDATE SET count = count + 1 RETURNING count]:
    the rows returned. *)
Definition upsert (b : Bucket) : Body Table (list Z) := fun t =>
  let n := match JsMap.get b t with Some n => n + 1 | None => 1 end in
  match refusesBucket b n with
  | Some code => (t, Raised (DatabaseError code None))
  | None => (JsMap.set b n t, Value [n])
  end.

(** @src src/platform/ratelimit/postgres/store.ts:94-97 consume *)
Definition deleteBefore (time : Z) : Body Table unit := fun t => (filter (fun e => ~ (b_start e.1 < time)) t, Value tt).

(** @src src/platform/ratelimit/postgres/store.ts:23-49 validate *)
Definition validate (input : Input) : Res Z :=
  if (jlength input.(i_key) =? 0) || (MAX_KEY_LENGTH <? jlength input.(i_key)) then
    Err (invalidConfiguration "rate-limit key is invalid")
  else if badRule input.(i_rule) then Err (invalidConfiguration "rate-limit rule is invalid")
  else
    match input.(i_now) with
    | InvalidDate => Err (invalidConfiguration "rate-limit clock time is invalid")
    | DateAt nowMs =>
        if negb (isSafeInteger (Int nowMs)) || (nowMs <? 0) then Err (invalidConfiguration "rate-limit clock time is invalid")
        else Ok nowMs
    end.

(** The table, and the store's own [#operations]. *)
Definition State : Type := Table * Z.
Definition onTable {A} : Body Table A -> Body State A := on fst (fun t s => (t, s.2)).

(** @src src/platform/ratelimit/postgres/store.ts:92-92 consume *)
Definition counted : Body State Z := fun s => ((s.1, s.2 + 1), Value (s.2 + 1)).

(** @src src/platform/ratelimit/postgres/store.ts:66-112 consume
    The callback of the transaction. *)
Definition statements (input : Input) (nowMs : Z) : Body State Decision :=
  let windowMs := num_val input.(i_rule).(windowMs) in
  let limit := num_val input.(i_rule).(limit) in
  let windowStartMs := nowMs / windowMs * windowMs in
  catching Database.map
    (_ ← parameters [text input.(i_key)];
     rows ← onTable (upsert (mkBucket (sent input.(i_key)) windowStartMs windowMs limit));
     match rows with
     | [] => refuse (fail_with internal "rate-limit bucket was not returned" "rate_limit.persistence_invalid")
     | count :: _ =>
         operations ← counted;
         _ ← (if operations mod 1000 =? 0 then onTable (deleteBefore (nowMs - MAX_WINDOW_MS)) else ret tt);
         let resetAtMs := windowStartMs + windowMs in
         let allowed := count <=? limit in
         ret (mkDecision allowed limit (Z.max 0 (limit - count)) (newDate resetAtMs)
                (if allowed then 0 else Z.max 0 (resetAtMs - nowMs)))
     end).

(** @src src/platform/ratelimit/postgres/store.ts:51-115 PostgresRateLimitStore.consume
    When nothing interferes, the transaction is its callback: [#operations]
    keeps its value whatever becomes of it, the table only when it commits. *)
Definition consumePg (input : Input) (commits : bool) (s : State) : State * Res Decision :=
  match validate input with
  | Err f => (s, Err f)
  | Ok nowMs =>
      match callback (statements input nowMs) s with
      | (s', Ok decision) =>
          if commits then (s', Ok decision) else ((s.1, s'.2), Err (fail_with unavailable "database operation failed" "database.unavailable"))
      | (s', Err f) => ((s.1, s'.2), Err f)
      end
  end.

(** ** The same count. *)

(** A call the table takes as it is: its key is text that [text] keeps, its
    time one the store accepts. *)
Definition admissible (c : Call) : Prop := valid c /\ plain c.(k_key) /\ 0 <= c.(k_at) <= MAX_TIME.

Definition bucketOf (c : Call) : Bucket := mkBucket c.(k_key) (start c) c.(k_window) c.(k_limit).

Definition countOf (b : Bucket) (t : Table) : Z := match JsMap.get b t with Some n => n | None => 0 end.

Lemma validate_input c : admissible c -> validate (input c) = Ok c.(k_at).
Proof.
  intros ([Hk [Hw Hl]] & _ & Ht). unfold validate, input. cbn [i_key i_rule i_now].
  unfold MAX_WINDOW_MS, MAX_LIMIT, MAX_TIME in *. rewrite (proj2 (Z.eqb_neq _ 0)), (proj2 (Z.ltb_ge _ _)) by lia. cbn [orb].
  assert (badRule (mkRule (Int (k_limit c)) (Int (k_window c))) = false) as ->.
  { unfold badRule, isSafeInteger, num_lt, num_gt, MAX_SAFE_INTEGER, MAX_LIMIT, MAX_WINDOW_MS. cbn [limit windowMs].
    rewrite !(proj2 (Z.leb_le _ _)), !(proj2 (Z.ltb_ge _ _)) by lia. done. }
  unfold isSafeInteger, MAX_SAFE_INTEGER. by rewrite (proj2 (Z.leb_le _ _)), (proj2 (Z.ltb_ge _ _)) by lia.
Qed.

Lemma bucket_taken c n : admissible c -> 1 <= n <= INTEGER_MAX -> refusesBucket (bucketOf c) n = None.
Proof.
  intros ([Hk [Hw Hl]] & [[Hwf Hu] _] & _) Hn. unfold refusesBucket, bucketOf. cbn [b_key b_limit b_window].
  unfold MAX_WINDOW_MS, MAX_LIMIT, MAX_KEY_LENGTH in *.
  rewrite integer_None by (unfold INTEGER_MAX in *; lia). pose proof (charLength_le (k_key c)).
  assert (0 < charLength (k_key c)) by (apply charLength_pos; [done|]; intros E; rewrite E in Hk; unfold jlength in Hk; cbn in Hk; lia).
  by rewrite !(proj2 (Z.leb_le _ _)) by lia.
Qed.

(** The table after an accepted call, and the answer. *)
Definition tableAfter (c : Call) (operations : Z) (t : Table) : Table :=
  let t := JsMap.set (bucketOf c) (countOf (bucketOf c) t + 1) t in
  if (operations + 1) mod 1000 =? 0 then filter (fun e => ~ (b_start e.1 < c.(k_at) - MAX_WINDOW_MS)) t else t.

Lemma consumePg_accepts c commits t n :
  admissible c -> 0 <= countOf (bucketOf c) t < INTEGER_MAX ->
  consumePg (input c) commits (t, n) =
  if commits then ((tableAfter c n t, n + 1), Ok (answer c (countOf (bucketOf c) t + 1)))
  else ((t, n + 1), Err (fail_with unavailable "database operation failed" "database.unavailable")).
Proof.
  intros Ha Hn. unfold consumePg. rewrite validate_input by done. unfold callback, statements, catching.
  cbn [input i_key i_rule limit windowMs num_val]. rewrite parameters_then.
  2: { destruct Ha as (_ & [_ Hnul] & _). constructor; [by apply text_None|constructor]. }
  assert (sent (k_key c) = k_key c) as -> by (apply sent_clean; apply Ha).
  assert (Hin : start c <= k_at c < start c + k_window c) by (apply in_window, Ha).
  unfold mbind, Body_bind, onTable, on, upsert. cbn [fst snd].
  change (mkBucket (k_key c) (k_at c / k_window c * k_window c) (k_window c) (k_limit c)) with (bucketOf c).
  change (k_at c / k_window c * k_window c) with (start c).
  assert ((match JsMap.get (bucketOf c) t with Some n => n + 1 | None => 1 end) = countOf (bucketOf c) t + 1) as ->.
  { unfold countOf. by destruct (JsMap.get (bucketOf c) t). }
  rewrite bucket_taken by (done || lia). unfold counted, tableAfter, deleteBefore, answer. cbn [fst snd].
  destruct ((n + 1) mod 1000 =? 0); cbn [fst snd]; destruct commits; try done;
    destruct (countOf (bucketOf c) t + 1 <=? k_limit c); try done; do 4 f_equal; lia.
Qed.

(** What the table knows of the calls counted so far, none after [now]. *)
Record tracksPg (h : list Call) (now : Z) (t : Table) : Prop := mkTracksPg {
  tp_wf : JsMap.wf t;
  tp_times : Forall (fun c => c.(k_at) <= now) h;
  tp_count : forall k w l ws,
    match JsMap.get (mkBucket k ws w l) t with
    | Some n => n = uses h k w l ws
    | None => uses h k w l ws = 0 \/ ws < now - MAX_WINDOW_MS
    end
}.

Lemma tracksPg_empty now : tracksPg [] now [].
Proof. constructor; [apply NoDup_nil_2|constructor|]. intros. by left. Qed.

Lemma tracksPg_later h now now' t : now <= now' -> tracksPg h now t -> tracksPg h now' t.
Proof.
  intros Hn [Hw Ht Hc]. constructor; [done| |].
  - eapply Forall_impl; [exact Ht|]. cbn. lia.
  - intros k w l ws. specialize (Hc k w l ws). destruct (JsMap.get _ t); [done|]. destruct Hc; [by left|right; lia].
Qed.

Lemma tracked_bucket h c t : valid c -> tracksPg h c.(k_at) t -> countOf (bucketOf c) t + 1 = nth h c.
Proof.
  intros Hv [_ _ Hc]. pose proof (start_bounds c Hv) as Hb. unfold countOf, nth, bucketOf.
  specialize (Hc (k_key c) (k_window c) (k_limit c) (start c)). destruct (JsMap.get _ t) as [n|]; [by subst n|]. lia.
Qed.

Lemma uses_bound h k w l ws : 0 <= uses h k w l ws <= Z.of_nat (length h).
Proof. unfold uses. split; [lia|]. apply Nat2Z.inj_le, length_filter. Qed.

Lemma tracksPg_step h c n t : valid c -> tracksPg h c.(k_at) t -> tracksPg (h ++ [c]) c.(k_at) (tableAfter c n t).
Proof.
  intros Hv Ht. pose proof (tracked_bucket h c t Hv Ht) as Hcount. pose proof (start_bounds c Hv) as Hb.
  destruct Ht as [Hw Hts Hc]. unfold tableAfter. rewrite Hcount.
  assert (Hset : tracksPg (h ++ [c]) c.(k_at) (JsMap.set (bucketOf c) (nth h c) t)).
  { constructor; [by apply JsMap.wf_set|apply Forall_app; split; [done|by constructor]|].
    intros k w l ws. rewrite JsMap.get_set. specialize (Hc k w l ws). rewrite uses_snoc. destruct (decide (bucketOf c = _)) as [He|He].
    - injection He as <- <- <- <-. by rewrite decide_True.
    - rewrite decide_False by (intros (<- & <- & <- & <-); by apply He). destruct (JsMap.get _ t); [lia|]. destruct Hc; [left; lia|by right]. }
  destruct (_ =? 0); [|done]. destruct Hset as [Hw' Hts' Hc']. constructor; [by apply JsMap.wf_filter|done|].
  intros k w l ws. rewrite JsMap.get_filter by done. specialize (Hc' k w l ws).
  destruct (JsMap.get _ _) as [m|]; [|done]. cbn [fst b_start]. destruct (decide _) as [|Hd]; [done|]. right. lia.
Qed.

(** *** Several processes. *)

(** A call as one of the processes makes it, and whether its transaction
    commits. *)
Record Attempt : Type := mkAttempt { a_process : nat; a_call : Call; a_commits : bool }.

Definition attempt (a : Attempt) (world : Table * (nat -> Z)) : (Table * (nat -> Z)) * Res Decision :=
  let '((t, n), r) := consumePg (input a.(a_call)) a.(a_commits) (world.1, world.2 a.(a_process)) in
  ((t, <[a.(a_process):=n]> world.2), r).

Fixpoint attempts (l : list Attempt) (world : Table * (nat -> Z)) : Table * (nat -> Z) :=
  match l with
  | [] => world
  | a :: l => attempts l (attempt a world).1
  end.

(** The calls that were counted. *)
Definition countedCalls (l : list Attempt) : list Call := a_call <$> filter (fun a => a_commits a = true) l.

Lemma attempt_tracked a h world :
  admissible a.(a_call) -> Z.of_nat (length h) < INTEGER_MAX -> tracksPg h a.(a_call).(k_at) world.1 ->
  exists ops,
  attempt a world =
  if a.(a_commits) then ((tableAfter a.(a_call) (world.2 a.(a_process)) world.1, ops), Ok (answer a.(a_call) (nth h a.(a_call))))
  else ((world.1, ops), Err (fail_with unavailable "database operation failed" "database.unavailable")).
Proof.
  intros Ha Hl Ht. pose proof (tracked_bucket h _ _ (proj1 Ha) Ht) as Hc. unfold attempt.
  pose proof (uses_bound h (k_key (a_call a)) (k_window (a_call a)) (k_limit (a_call a)) (start (a_call a))). unfold nth in Hc.
  rewrite consumePg_accepts by (done || lia). exists (<[a_process a:=world.2 (a_process a) + 1]> world.2).
  unfold nth. rewrite <- Hc. by destruct (a_commits a).
Qed.

Lemma attempts_tracked l c world h :
  Forall (fun a => admissible (a_call a)) l ->
  StronglySorted (fun a b => k_at a <= k_at b) ((a_call <$> l) ++ [c]) ->
  Z.of_nat (length h + length l) < INTEGER_MAX ->
  tracksPg h (from_option (k_at ∘ a_call) (k_at c) (head l)) world.1 ->
  tracksPg (h ++ countedCalls l) (k_at c) (attempts l world).1.
Proof.
  revert world h. induction l as [|a l IH]; intros world h Hl Hs Hn Ht; cbn [attempts].
  - unfold countedCalls. cbn. by rewrite app_nil_r.
  - apply Forall_cons in Hl as [Ha Hl]. cbn [head from_option compose] in Ht. cbn in Hs. inversion Hs as [|? ? Hs' Hall]; subst.
    cbn [length] in Hn. destruct (attempt_tracked a h world Ha ltac:(lia) Ht) as [ops ->].
    assert (Hle : k_at (a_call a) <= from_option (k_at ∘ a_call) (k_at c) (head l)).
    { destruct l as [|b l]; cbn; [by apply Forall_cons in Hall as [? _]|by apply Forall_cons in Hall as [? _]]. }
    unfold countedCalls. rewrite filter_cons. destruct (a_commits a); cbn [fst].
    + rewrite decide_True by done. cbn [fmap list_fmap]. replace (h ++ a_call a :: _) with ((h ++ [a_call a]) ++ countedCalls l) by (by rewrite <- app_assoc).
      apply IH; [done|done|rewrite length_app; cbn [length]; lia|]. cbn [fst]. eapply tracksPg_later; [exact Hle|]. apply tracksPg_step; [apply Ha|done].
    + rewrite decide_False by done. apply IH; [done|done|lia|]. cbn [fst]. by eapply tracksPg_later.
Qed.

Lemma sorted_sublist {A} (R : A -> A -> Prop) l l' : sublist l l' -> StronglySorted R l' -> StronglySorted R l.
Proof.
  intros Hl Hs. revert l Hl. induction Hs as [|x l' Hs IH Hx]; intros l Hl.
  - apply sublist_nil_r in Hl as ->. constructor.
  - apply sublist_cons_r in Hl as [Hl|(k & -> & Hk)]; [by apply IH|]. constructor; [by apply IH|].
    apply Forall_forall. intros y Hy. rewrite Forall_forall in Hx. apply Hx. by eapply elem_of_sublist.
Qed.

Lemma sorted_last {A} (R : A -> A -> Prop) l x : StronglySorted R (l ++ [x]) -> StronglySorted R l /\ Forall (fun y => R y x) l.
Proof.
  intros Hs. split; [eapply sorted_sublist; [|exact Hs]; by apply sublist_inserts_r|].
  induction l as [|y l IH]; [by constructor|]. cbn in Hs. inversion Hs as [|? ? Hs' Hall]; subst. constructor; [|by apply IH].
  rewrite Forall_forall in Hall. apply Hall, elem_of_app. right. by left.
Qed.

(** The calls counted are calls, in their order. *)
Lemma countedCalls_sublist l : sublist (countedCalls l) (a_call <$> l).
Proof. apply fmap_sublist, sublist_filter. Qed.

(** C24. Several processes limit as one. Whatever calls the processes made before,
    in time order, some of their transactions lost, the shared table answers the
    next call of any process as the count over the history does, of the calls
    whose transactions were committed: the first [limit] of a window are allowed
    and the rest refused. That is what the in-memory store of a single process
    answers ([fixed_window]); pruning, which each process does at its own pace,
    never changes an answer. *)
Theorem postgres_window (l : list Attempt) (a : Attempt) (operations : nat -> Z)
    (Hcalls : Forall (fun a => admissible (a_call a)) l) (Hcall : admissible a.(a_call)) (Hcommits : a.(a_commits) = true)
    (Hclock : StronglySorted (fun a b => k_at a <= k_at b) ((a_call <$> l) ++ [a.(a_call)]))
    (Hbound : Z.of_nat (length l) < INTEGER_MAX) :
  (attempt a (attempts l ([], operations))).2 = Ok (answer a.(a_call) (nth (countedCalls l) a.(a_call)))
  /\ (consume (input a.(a_call)) (run (countedCalls l) [])).2 = (attempt a (attempts l ([], operations))).2.
Proof.
  assert (Ht : tracksPg (countedCalls l) (k_at (a_call a)) (attempts l ([], operations)).1).
  { apply (attempts_tracked l (a_call a) ([], operations) []); [done|done|done|apply tracksPg_empty]. }
  assert (Hlen : Z.of_nat (length (countedCalls l)) < INTEGER_MAX).
  { unfold countedCalls. rewrite length_fmap. pose proof (length_filter (fun a => a_commits a = true) l). lia. }
  destruct (attempt_tracked a _ _ Hcall Hlen Ht) as [ops ->]. rewrite Hcommits. split; [done|]. cbn [snd].
  apply consume_answers; [apply Hcall|]. apply tracks_run.
  - apply Forall_forall. intros x Hx. apply (fun H => elem_of_sublist _ _ _ H (countedCalls_sublist l)) in Hx.
    apply list_elem_of_fmap in Hx as (b & -> & Hb). rewrite Forall_forall in Hcalls. by apply Hcalls.
  - eapply sorted_sublist; [|exact Hclock]. apply sublist_app; [apply countedCalls_sublist|done].
Qed.

(** Two processes share a limit of two; the second call's transaction is lost. *)
Definition sample_attempts : list Attempt :=
  [mkAttempt 0 (sample_call 60000) true; mkAttempt 1 (sample_call 60500) false; mkAttempt 1 (sample_call 61000) true].

Lemma postgres_window_witness :
  (attempt (mkAttempt 0 (sample_call 61500) true) (attempts sample_attempts ([], fun _ => 0))).2
    = Ok (mkDecision false 2 0 (DateAt 120000) 58500)
  /\ (consume (input (sample_call 61500)) (run [sample_call 60000; sample_call 61000] [])).2
    = Ok (mkDecision false 2 0 (DateAt 120000) 58500).
Proof.
  assert (H : forall t, 60000 <= t <= 61500 -> admissible (sample_call t)).
  { intros t Ht. split; [vm_compute; repeat split; congruence|]. split; [|cbn; unfold MAX_TIME; lia].
    assert (Hk : Forall (fun c => 0 < c < 65536) (js "login:10.0.0.1")).
    { apply Forall_forall. intros c Hc%list_elem_of_In. revert c Hc.
      assert (Hb : forallb (fun c => (0 <? c) && (c <? 65536)) (js "login:10.0.0.1") = true) by (vm_compute; reflexivity).
      intros c Hc. rewrite forallb_forall in Hb. specialize (Hb c Hc). breflect. lia. }
    split; [split; [vm_compute; reflexivity|]|]; (eapply Forall_impl; [exact Hk|]); cbn; lia. }
  destruct (postgres_window sample_attempts (mkAttempt 0 (sample_call 61500) true) (fun _ => 0)) as [H1 H2].
  - repeat (apply Forall_cons; split; [apply H; cbn; lia|]). apply Forall_nil. done.
  - apply H; cbn; lia.
  - reflexivity.
  - repeat constructor; vm_compute; congruence.
  - vm_compute; reflexivity.
  - rewrite H1 in H2. split; [exact H1|exact H2].
Defined.
End PgRate.
