(* ===== verification/RateGate.v ===== *)
(** * The rate limit of a request: [platform/ratelimit/rate-limit.interceptor.ts]
    and [policy.ts].

    A request consumes the policies of its handler one by one; all must allow
    it.  The interceptor knows the store by its interface, which the in-memory
    store and the PostgreSQL store both implement. *)
From S2P Require Import Prelude JsMap Errors Ids Json JsonPrint RateLimit Postgres Inbox EventStore Sql Http RatePostgres.

Module RateGate.
Import RateLimit.RateLimit.

(** ** The store, as its clients know it. *)

(** @src src/shared/ratelimit/index.ts:24-29 RateLimitStore
    Whatever is consumed, within the histories it is meant for, the answer is
    the count's. *)
Class RateLimitStore (S : Type) : Type := {
  start_ : S;
  consume_ : Input -> S -> S * Res Decision;
  (** The histories the store takes, which go on from their beginnings. *)
  takes : list Call -> Prop;
  takes_prefix : forall h h', takes (h ++ h') -> takes h;
  consumed (h : list Call) : S := foldl (fun s c => (consume_ (input c) s).1) start_ h;
  exact_ : forall h c, takes (h ++ [c]) -> StronglySorted (fun a b => k_at a <= k_at b) (h ++ [c]) ->
    (consume_ (input c) (consumed h)).2 = Ok (answer c (nth h c))
}.

Lemma run_foldl h s : run h s = foldl (fun s c => (consume (input c) s).1) s h.
Proof. revert s. induction h as [|c h IH]; intros s; [done|]. cbn. by rewrite IH. Qed.

#[export] Program Instance memory_store : RateLimitStore Windows := {|
  start_ := []; consume_ := consume; takes := Forall valid
|}.
Next Obligation. by intros h h' [? _]%Forall_app. Qed.
Next Obligation.
  cbn. intros h c [Hh Hc]%Forall_app Hs. apply Forall_cons in Hc as [Hc _]. rewrite <- run_foldl.
  by apply consume_answers, tracks_run.
Qed.

(** A process alone with the table, whose transactions commit. *)
Lemma pg_consumed h n : Forall PgRate.admissible h ->
  StronglySorted (fun a b => k_at a <= k_at b) h -> Z.of_nat (length h) < Sql.INTEGER_MAX ->
  forall now, Forall (fun c => k_at c <= now) h ->
  PgRate.tracksPg h now (foldl (fun s c => (PgRate.consumePg (input c) true s).1) ([], n) h).1.
Proof.
  induction h as [|c h IH] using rev_ind; intros Ha Hs Hl now Hn; [apply PgRate.tracksPg_empty|].
  apply Forall_app in Ha as [Ha Hc]. apply Forall_cons in Hc as [Hc _]. apply Forall_app in Hn as [_ Hcn]. apply Forall_cons in Hcn as [Hcn _].
  rewrite length_app in Hl. cbn [length] in Hl. rewrite foldl_app. cbn [foldl].
  apply PgRate.sorted_last in Hs as [Hs Hle].
  pose proof (IH Ha Hs ltac:(lia) (k_at c) Hle) as Ht. destruct (foldl _ _ h) as [t m]. cbn [fst] in Ht.
  pose proof (PgRate.tracked_bucket h c t (proj1 Hc) Ht) as Hb.
  pose proof (PgRate.uses_bound h (k_key c) (k_window c) (k_limit c) (start c)). unfold nth in Hb.
  rewrite PgRate.consumePg_accepts by (done || lia). cbn [fst].
  eapply PgRate.tracksPg_later; [exact Hcn|]. apply PgRate.tracksPg_step; [apply Hc|done].
Qed.

#[export] Program Instance postgres_store : RateLimitStore PgRate.State := {|
  start_ := ([], 0); consume_ := fun i s => PgRate.consumePg i true s;
  takes := fun h => Forall PgRate.admissible h /\ Z.of_nat (length h) <= Sql.INTEGER_MAX
|}.
Next Obligation. cbn. intros h h' [[? _]%Forall_app Hl]. rewrite length_app in Hl. split; [done|lia]. Qed.
Next Obligation.
  cbn. intros h c [[Hh Hc]%Forall_app Hl] Hs. apply Forall_cons in Hc as [Hc _]. rewrite length_app in Hl. cbn [length] in Hl.
  apply PgRate.sorted_last in Hs as [Hs Hle]. pose proof (pg_consumed h 0 Hh Hs ltac:(lia) (k_at c) Hle) as Ht.
  destruct (foldl _ _ h) as [t m]. cbn [fst] in Ht. pose proof (PgRate.tracked_bucket h c t (proj1 Hc) Ht) as Hb.
  pose proof (PgRate.uses_bound h (k_key c) (k_window c) (k_limit c) (start c)). rewrite PgRate.consumePg_accepts; [|done|unfold nth in Hb; lia].
  cbn [snd]. by rewrite Hb.
Qed.

(** ** The interceptor. *)
Section Interceptor.
  Context {S : Type} `{RateLimitStore S} {Request : Type} (ip remoteAddress : Request -> option jstring).

(** @src src/platform/ratelimit/policy.ts:5-8 HttpRateLimitPolicy *)
Record Policy : Type := mkPolicy { name : string; rule : Rule; keyOf : Request -> jstring }.

(** [a || b], of texts that may be absent. *)
Definition orElse (a : option jstring) (b : jstring) : jstring := match a with None | Some [] => b | Some a => a end.

(** @src src/platform/ratelimit/policy.ts:22-25 clientOf *)
Definition clientOf (request : Request) : jstring := orElse (ip request) (orElse (remoteAddress request) (js "unknown")).

(** @src src/platform/ratelimit/policy.ts:27-30 perClient *)
Definition perClient (name : string) (limit windowMs : num) : Policy := mkPolicy name (mkRule limit windowMs) clientOf.

(** The policy whose decision is reported, and the decision. *)
Definition Reported : Type := string * Decision.

(** @src src/platform/ratelimit/rate-limit.interceptor.ts:100-102 RateLimitInterceptor.#consume *)
Definition tighter (tightest : option Reported) (current : Reported) : option Reported :=
  match tightest with
  | Some t => if current.2.(remaining) <? t.2.(remaining) then Some current else tightest
  | None => Some current
  end.

(** @src src/platform/ratelimit/rate-limit.interceptor.ts:83-105 RateLimitInterceptor.#consume
    Each policy with the clock's reading when it is consumed
    ([RateLimiter.consume]). *)
Fixpoint consumePolicies (policies : list (Policy * Date)) (request : Request) (tightest : option Reported) (s : S)
    : S * Res (option Reported) :=
  match policies with
  | [] => (s, Ok tightest)
  | (policy, now) :: rest =>
      match consume_ (mkInput (js policy.(name) ++ [58] ++ policy.(keyOf) request) policy.(rule) now) s with
      | (s, Err f) => (s, Err f)
      | (s, Ok decision) =>
          if negb decision.(allowed) then (s, Ok (Some (policy.(name), decision)))
          else consumePolicies rest request (tighter tightest (policy.(name), decision)) s
      end
  end.

(** [Math.ceil(n / d)]. *)
Definition ceilDiv (n d : Z) : Z := - (- n / d).

(** @src src/platform/ratelimit/rate-limit.interceptor.ts:31-44 writeHeaders
    A reset time is a valid date. *)
Definition writeHeaders (decision : Decision) : list (string * jstring) :=
  [("X-RateLimit-Limit"%string, intText decision.(d_limit)); ("X-RateLimit-Remaining"%string, intText decision.(remaining));
   ("X-RateLimit-Reset"%string, intText (ceilDiv (getTime decision.(resetAt)) 1000))]
  ++ if decision.(allowed) then [] else [("Retry-After"%string, intText (Z.max 1 (ceilDiv decision.(retryAfterMs) 1000)))].

(** The request is handled, or an exception is thrown: the headers set, and the
    status and the body of the exception. *)
Inductive Response : Type :=
| Handled (headers : list (string * jstring))
| Refusal (headers : list (string * jstring)) (status : Z) (body : list (string * JsValue)).

(** @src src/platform/ratelimit/rate-limit.interceptor.ts:22-29 failureResponse *)
Definition failureResponse (headers : list (string * jstring)) (error : Failure) : Response :=
  match Http.problemOf (T := unit) (Err (CFailure error)) with
  | Some problem => Refusal headers problem.(Http.pr_status) (Http.document problem)
  | None => Refusal headers 503 [("status"%string, VNum (Int 503)); ("kind"%string, VStr (js (Http.kindName (f_kind error))));
                                 ("message"%string, VStr (js (f_message error)))]
  end.

(** @src src/platform/ratelimit/rate-limit.interceptor.ts:71-75 RateLimitInterceptor.intercept *)
Definition exceeded (policy : string) : Failure :=
  failure rate_limited "request rate limit exceeded"
    (mkOptions (Some "rate_limit.exceeded"%string) (Some [("policy"%string, policy)]) [] (CForeign VUndefined)).

(** @src src/platform/ratelimit/rate-limit.interceptor.ts:53-81 RateLimitInterceptor.intercept *)
Definition intercept (policies : list (Policy * Date)) (request : Request) (s : S) : S * Response :=
  match policies with
  | [] => (s, Handled [])
  | _ :: _ =>
      match consumePolicies policies request None s with
      | (s, Err error) => (s, failureResponse [] error)
      | (s, Ok None) => (s, Handled [])
      | (s, Ok (Some (policy, decision))) =>
          let headers := writeHeaders decision in
          (s, if negb decision.(allowed) then failureResponse headers (exceeded policy) else Handled headers)
      end
  end.

(** ** What it promises. *)

(** A policy as the call it makes. *)
Record Asks (request : Request) (p : Policy * Date) (c : Call) : Prop := mkAsks {
  as_key : c.(k_key) = js p.1.(name) ++ [58] ++ p.1.(keyOf) request;
  as_rule : p.1.(rule) = mkRule (Int c.(k_limit)) (Int c.(k_window));
  as_now : p.2 = DateAt c.(k_at)
}.

(** Which call of its window the [i]-th of [calls] is, after [h] and those before it. *)
Definition turn (h calls : list Call) (i : nat) (c : Call) : Z := nth (h ++ take i calls) c.

Lemma asks_input request p c : Asks request p c ->
  mkInput (js p.1.(name) ++ [58] ++ p.1.(keyOf) request) p.1.(rule) p.2 = input c.
Proof. intros [Hk Hr Hn]. unfold input. by rewrite Hk, Hr, Hn. Qed.

Lemma consumed_snoc h c : consumed (h ++ [c]) = (consume_ (input c) (consumed h)).1.
Proof. unfold consumed. by rewrite foldl_app. Qed.

Lemma consumed_answer h c rest : takes (h ++ c :: rest) -> StronglySorted (fun a b => k_at a <= k_at b) (h ++ c :: rest) ->
  consume_ (input c) (consumed h) = (consumed (h ++ [c]), Ok (answer c (nth h c))).
Proof.
  intros Ht Hs. replace (h ++ c :: rest) with ((h ++ [c]) ++ rest) in * by (by rewrite <- app_assoc).
  rewrite consumed_snoc. pose proof (exact_ h c (takes_prefix _ _ Ht)) as He. destruct (consume_ _ _) as [s r]. cbn in *. f_equal.
  apply He. eapply PgRate.sorted_sublist; [|exact Hs]. by apply sublist_inserts_r.
Qed.

(** The decisions of calls that are all allowed. *)
Fixpoint decisions (h : list Call) (l : list (Policy * Date)) (calls : list Call) : list Reported :=
  match l, calls with
  | p :: l, c :: calls => (p.1.(name), answer c (nth h c)) :: decisions (h ++ [c]) l calls
  | _, _ => []
  end.

Lemma consumePolicies_spec request l calls h tightest :
  Forall2 (Asks request) l calls -> takes (h ++ calls) -> StronglySorted (fun a b => k_at a <= k_at b) (h ++ calls) ->
  ((forall i c, calls !! i = Some c -> turn h calls i c <= c.(k_limit))
   /\ consumePolicies l request tightest (consumed h) = (consumed (h ++ calls), Ok (foldl tighter tightest (decisions h l calls))))
  \/ exists i p c, l !! i = Some p /\ calls !! i = Some c /\ c.(k_limit) < turn h calls i c
     /\ (forall j c', (j < i)%nat -> calls !! j = Some c' -> turn h calls j c' <= c'.(k_limit))
     /\ consumePolicies l request tightest (consumed h) =
        (consumed (h ++ take (Datatypes.S i) calls), Ok (Some (p.1.(name), answer c (turn h calls i c)))).
Proof.
  intros Hl. revert h tightest. induction Hl as [|p c l calls Hp Hl IH]; intros h tightest Ht Hs.
  - left. split; [by intros i c|]. cbn. by rewrite app_nil_r.
  - cbn [consumePolicies]. destruct p as [p now]. pose proof (asks_input _ _ _ Hp) as Hi. cbn [fst snd] in Hi.
    rewrite Hi, (consumed_answer h c calls) by done. cbn [allowed answer].
    destruct (nth h c <=? k_limit c) eqn:E; cbn [negb]; breflect.
    + destruct (IH (h ++ [c]) (tighter tightest (name p, answer c (nth h c)))) as [[Hall Heq]|(i & q & d & Hq & Hd & Hlt & Hbefore & Heq)];
        [by rewrite <- app_assoc|by rewrite <- app_assoc| |].
      * left. split.
        -- intros [|i] c' Hc'; [injection Hc' as <-; unfold turn; cbn; by rewrite app_nil_r|]. specialize (Hall i c' Hc').
           unfold turn in *. cbn [take]. by rewrite <- app_assoc in Hall.
        -- cbn [decisions foldl fst]. rewrite Heq, <- app_assoc. done.
      * right. exists (Datatypes.S i), q, d. split; [done|]. split; [done|]. unfold turn in *. rewrite <- app_assoc in Hlt. split; [exact Hlt|]. split.
        -- intros [|j] c' Hj Hc'; [injection Hc' as <-; cbn; by rewrite app_nil_r|]. specialize (Hbefore j c' ltac:(lia) Hc').
           cbn [take]. by rewrite <- app_assoc in Hbefore.
        -- rewrite Heq, <- !app_assoc. done.
    + right. exists 0%nat, (p, now), c. unfold turn. cbn [take]. rewrite app_nil_r. split; [done|]. split; [done|]. split; [done|]. split; [intros j; lia|].
      done.
Qed.

(** The reported decision is one of them, with the fewest requests remaining. *)
Lemma tighter_least l t0 :
  exists t, foldl tighter (Some t0) l = Some t /\ t ∈ t0 :: l /\ forall x, x ∈ t0 :: l -> t.2.(remaining) <= x.2.(remaining).
Proof.
  revert t0. induction l as [|x l IH]; intros t0; [exists t0; split; [done|]; split; [by left|]; intros x ->%list_elem_of_singleton; lia|].
  cbn [foldl tighter]. destruct (remaining x.2 <? remaining t0.2) eqn:E; breflect.
  - destruct (IH x) as (t & Ht & Hin & Hle). exists t. split; [done|]. split; [by right|]. intros y [->|Hy]%elem_of_cons; [|by apply Hle].
    specialize (Hle x ltac:(by left)). lia.
  - destruct (IH t0) as (t & Ht & Hin & Hle). exists t. split; [done|]. split.
    + apply elem_of_cons in Hin as [->|Hin]; [by left|]. right. by right.
    + intros y [->|[->|Hy]%elem_of_cons]%elem_of_cons; [apply Hle; by left| |apply Hle; by right]. specialize (Hle t0 ltac:(by left)). lia.
Qed.

Lemma decisions_elem h l calls r : r ∈ decisions h l calls ->
  exists i p c, l !! i = Some p /\ calls !! i = Some c /\ r = (p.1.(name), answer c (turn h calls i c)).
Proof.
  revert h calls. induction l as [|p l IH]; intros h [|c calls]; cbn [decisions]; try (by intros ?%elem_of_nil).
  intros [->|Hr]%elem_of_cons; [exists 0%nat, p, c; unfold turn; cbn; by rewrite app_nil_r|].
  destruct (IH _ _ Hr) as (i & q & d & Hq & Hd & ->). exists (Datatypes.S i), q, d. split; [done|]. split; [done|].
  unfold turn. cbn [take]. by rewrite <- app_assoc.
Qed.
Lemma decisions_in h l calls i p c : l !! i = Some p -> calls !! i = Some c -> (p.1.(name), answer c (turn h calls i c)) ∈ decisions h l calls.
Proof.
  revert h i calls. induction l as [|x l IH]; intros h [|i] [|y calls]; try done; cbn [decisions lookup list_lookup].
  - intros [= ->] [= ->]. unfold turn. cbn [take]. rewrite app_nil_r. by left.
  - intros Hp Hc. right. specialize (IH (h ++ [y]) i calls Hp Hc). unfold turn in *. cbn [take]. by rewrite <- app_assoc in IH.
Qed.

Lemma ceilDiv_covers n : n <= 1000 * Z.max 1 (ceilDiv n 1000).
Proof. unfold ceilDiv. pose proof (Z.mul_div_le (- n) 1000 ltac:(lia)). lia. Qed.

Lemma answer_refused c n : c.(k_limit) < n -> (answer c n).(allowed) = false /\ (answer c n).(retryAfterMs) = start c + c.(k_window) - c.(k_at).
Proof. intros Hn. unfold answer. cbn [allowed retryAfterMs]. by rewrite (proj2 (Z.leb_gt _ _)). Qed.

(** The problem of a refusal names the policy that refused. *)
Definition tooMany (policy : string) : list (string * JsValue) :=
  Http.document (Http.mkProblem "urn:n2f:problem:rate_limited" "Too Many Requests" "request rate limit exceeded" rate_limited 429
    (Some "rate_limit.exceeded"%string) (Some [("policy"%string, policy)])).

(** C23. A handler runs only under all its limits, over any store that keeps the
    interface. When every policy has room in its window, the request is handled,
    every policy is consumed once, and the headers report the decision with the
    fewest requests remaining. Otherwise the first policy without room refuses
    it: the handler does not run, the policies after it consume nothing, the
    answer is 429 with a problem that names the policy, and the wait it asks for
    reaches the next window. *)
Theorem gate_exact (request : Request) (l : list (Policy * Date)) (calls h : list Call)
    (Hsome : l <> []) (Hasks : Forall2 (Asks request) l calls) (Htakes : takes (h ++ calls))
    (Hclock : StronglySorted (fun a b => k_at a <= k_at b) (h ++ calls)) :
  let served := intercept l request (consumed h) in
  ((forall i c, calls !! i = Some c -> turn h calls i c <= c.(k_limit))
   /\ exists i c, calls !! i = Some c
      /\ served = (consumed (h ++ calls), Handled (writeHeaders (answer c (turn h calls i c))))
      /\ forall j c', calls !! j = Some c' -> remaining (answer c (turn h calls i c)) <= remaining (answer c' (turn h calls j c')))
  \/ exists i p c, l !! i = Some p /\ calls !! i = Some c /\ c.(k_limit) < turn h calls i c
      /\ (forall j c', (j < i)%nat -> calls !! j = Some c' -> turn h calls j c' <= c'.(k_limit))
      /\ served = (consumed (h ++ take (Datatypes.S i) calls),
                   Refusal (writeHeaders (answer c (turn h calls i c))) 429 (tooMany p.1.(name)))
      /\ let wait := Z.max 1 (ceilDiv (retryAfterMs (answer c (turn h calls i c))) 1000) in
         ("Retry-After"%string, intText wait) ∈ writeHeaders (answer c (turn h calls i c))
         /\ start c + c.(k_window) <= c.(k_at) + 1000 * wait.
Proof.
  intros served. destruct (consumePolicies_spec request l calls h None Hasks Htakes Hclock) as
    [[Hall Heq]|(i & p & c & Hp & Hc & Hlt & Hbefore & Heq)]; [left|right].
  - split; [done|]. destruct l as [|p l]; [done|]. inversion Hasks as [|? c ? calls' Hp Hl Ecalls]; subst.
    destruct (tighter_least (decisions (h ++ [c]) l calls') (name p.1, answer c (nth h c))) as (t & Ht & Hin & Hle).
    change ((name p.1, answer c (nth h c)) :: decisions (h ++ [c]) l calls') with (decisions h (p :: l) (c :: calls')) in Hin, Hle.
    destruct (decisions_elem _ _ _ _ Hin) as (i & q & d & Hq & Hd & ->). exists i, d. split; [done|]. split.
    + unfold served, intercept. change (foldl tighter None (decisions h (p :: l) (c :: calls')) = Some (name q.1, answer d (turn h (c :: calls') i d))) in Ht.
      rewrite Heq, Ht. cbn [fst snd].
      unfold answer at 1. cbn [allowed]. by rewrite (proj2 (Z.leb_le _ _)) by (by apply Hall).
    + intros j c' Hc'. destruct (Forall2_lookup_r _ _ _ _ _ Hasks Hc') as (q' & Hq' & _).
      apply (Hle (name q'.1, answer c' (turn h (c :: calls') j c'))). by apply decisions_in.
  - exists i, p, c. do 4 (split; [done|]). destruct (answer_refused c _ Hlt) as [Ha Hr]. split.
    + unfold served, intercept. rewrite Heq. destruct l as [|p0 l]; [done|]. by rewrite Ha.
    + cbv zeta. rewrite Hr. split; [unfold writeHeaders; rewrite Ha, Hr; apply elem_of_app; right; by left|].
      pose proof (ceilDiv_covers (start c + k_window c - k_at c)). lia.
Qed.
End Interceptor.

(** A login consumes a policy per client and one per account; the second has no
    room left. *)
Definition sample_policies : list (Policy (Request := unit) * Date) :=
  [(mkPolicy "login.client" (mkRule (Int 10) (Int 60000)) (fun _ => js "10.0.0.1"), DateAt 61500);
   (mkPolicy "login.account" (mkRule (Int 2) (Int 60000)) (fun _ => js "ada"), DateAt 61501)].
Definition client_call (t : Z) : Call := mkCall (js "login.client:10.0.0.1") 60000 10 t.
Definition account_call (t : Z) : Call := mkCall (js "login.account:ada") 60000 2 t.

Lemma gate_exact_witness :
  let h := [account_call 60000; client_call 60500; account_call 61000] in
  (intercept sample_policies tt (consumed (RateLimitStore := memory_store) h)).2 =
  Refusal (writeHeaders (mkDecision false 2 0 (DateAt 120000) 58499)) 429 (tooMany "login.account").
Proof.
  intros h.
  destruct (gate_exact (H := memory_store) tt sample_policies [client_call 61500; account_call 61501] h)
    as [[Hall _]|(i & p & c & Hp & Hc & Hlt & Hbefore & Heq & _)].
  - done.
  - repeat constructor.
  - cbn. repeat (apply Forall_cons; split; [vm_compute; repeat split; congruence|]). by apply Forall_nil.
  - repeat constructor; vm_compute; congruence.
  - specialize (Hall 1%nat _ eq_refl). vm_compute in Hall. by destruct Hall.
  - destruct i as [|[|i]]; [|injection Hp as <-; injection Hc as <-; rewrite Heq; vm_compute; reflexivity|done].
    injection Hc as <-. vm_compute in Hlt. done.
Defined.
End RateGate.
