(* ===== verification/Workflow.v ===== *)
(** * The document-processing workflow: [workflows/document-processing/infra].

    The workflow reads the events the jobs module publishes through a decoder of
    its own ([JobEvents]): every event a jobs command publishes for a document's
    job decodes to the outcome the document must see.  [Projection] follows the
    outcomes of a job's whole life to its document: whatever the order and the
    repetitions of their delivery, a succeeded job leaves its document processed
    and a job that spent its attempts leaves it failed; a canceled one need not. *)
From S2P Require Import Prelude Async JsMap Errors Ids Json Provenance Events Commands DocumentDomain JobDomain JobsStore JobsApp JobsWorld.

Module JobEvents.

(** @src src/workflows/document-processing/infra/job-events.ts:5-6 DOCUMENT_PROCESSING_JOB_KIND *)
Definition DOCUMENT_PROCESSING_JOB_KIND : jstring := js "document.process".

Inductive Action : Type := retry | complete | fail.

(** @src src/workflows/document-processing/infra/job-events.ts:8-25 JobOutcome
    The failure code of a failing outcome; the others have none. *)
Record JobOutcome : Type := mkOutcome {
  o_action : Action; o_organizationId : ID; o_documentId : ID; o_jobId : ID; o_attempt : Z;
  o_failureCode : option jstring
}.

(** @src src/workflows/document-processing/infra/job-events.ts:27-32 ACTIONS *)
Definition ACTIONS (type : jstring) : option Action :=
  snd <$> find_first (fun '(t, _) => bool_decide (js t = type))
    [("job.retried.v1", retry); ("job.completed.v1", complete);
     ("job.failed.v1", fail); ("job.canceled.v1", fail)]%string.

(** @src src/workflows/document-processing/infra/job-events.ts:34-35 invalid *)
Definition invalid (field : string) : Failure :=
  fail_with Errors.invalid ("job event " ++ field ++ " is invalid")%string "workflow.invalid_event".

(** @src src/workflows/document-processing/infra/job-events.ts:37-39 idAt *)
Definition idAt (value : JsValue) (field : string) : Res ID :=
  match value with VStr _ => parse value | _ => Err (invalid field) end.

(** [typeof attempt !== 'number' || !Number.isSafeInteger(attempt) || attempt < 0]. *)
Definition attemptAt (value : JsValue) : Res Z :=
  match value with
  | VNum n => if negb (isSafeInteger n) || num_lt n 0 then Err (invalid "attempts") else Ok (num_val n)
  | _ => Err (invalid "attempts")
  end.

(** @src src/workflows/document-processing/infra/job-events.ts:47-84 decodeJobEvent
    [payload()] throws when the envelope has no payload object, which [decode]
    has excluded; the error is kept. *)
Definition decodeJobEvent (event : Events.Envelope) : Res (option JobOutcome) :=
  match ACTIONS event.(Events.e_type) with
  | None => Ok None
  | Some action =>
      payload ← Events.payload event;
      if negb (bool_decide (field "kind" payload = VStr DOCUMENT_PROCESSING_JOB_KIND)) then Ok None
      else
        match field "subject" payload with
        | VObj subject =>
            if negb (bool_decide (field "type" subject = VStr (js "document"))) then Ok None
            else
              documentId ← idAt (field "id" subject) "subject.id";
              organizationId ← idAt (field "organization_id" payload) "organization_id";
              jobId ← idAt (field "job_id" payload) "job_id";
              attempt ← attemptAt (field "attempts" payload);
              Ok (Some (mkOutcome action organizationId documentId jobId attempt
                (match action with
                 | fail =>
                     Some (match field "failure_code" payload with
                           | VStr code => code
                           | _ => js "job.canceled"
                           end)
                 | _ => None
                 end)))
        | _ => Ok None
        end
  end.

(** ** The contract with the jobs module. *)
Import JobsApp.JobCommands JobsWorld.JobWorld(publishes, pub_submit, pub_workflow_submit, pub_workflow_retry, pub_transition, pub_expire).

(** The outcome the document of the job must see. *)
Definition outcomeFor (type : JobEventType) (job : Job.Job) : option JobOutcome :=
  match job.(Job.j_subject) with
  | Some s =>
      if bool_decide (job.(Job.j_kind) = DOCUMENT_PROCESSING_JOB_KIND)
         && bool_decide (s.(Job.sj_type) = js "document") then
        let outcome action code :=
          Some (mkOutcome action job.(Job.j_organizationId) s.(Job.sj_id) job.(Job.j_id) job.(Job.j_attempts) code) in
        match type with
        | e_submitted | e_started => None
        | e_completed => outcome complete None
        | e_retried => outcome retry None
        | e_failed | e_canceled =>
            outcome fail (Some (default (js "job.canceled") job.(Job.j_failureCode)))
        end
      else None
  | None => None
  end.

Lemma ACTIONS_type t :
  ACTIONS (JOB_EVENT_TYPES t) =
  match t with
  | e_submitted | e_started => None
  | e_completed => Some complete
  | e_retried => Some retry
  | e_failed | e_canceled => Some fail
  end.
Proof. by destruct t. Qed.

(** The members of each payload that the decoder reads. *)
Lemma published_fields job t pl :
  publishes job t pl -> ACTIONS (JOB_EVENT_TYPES t) <> None ->
  let ms := jsonMembers pl in
  field "kind" ms = VStr job.(Job.j_kind)
  /\ field "subject" ms = Job.subjectValue job.(Job.j_subject)
  /\ field "organization_id" ms = VStr job.(Job.j_organizationId)
  /\ field "job_id" ms = VStr job.(Job.j_id)
  /\ field "attempts" ms = VNum (Int job.(Job.j_attempts))
  /\ (t = e_failed \/ t = e_canceled -> field "failure_code" ms = orNullText job.(Job.j_failureCode)).
Proof.
  intros Hp Ha ms. subst ms. destruct job as [i o k sj st n mx c u sa fa code v].
  destruct Hp; try (by cbn in Ha); cbn -[Z.of_nat];
    destruct sj as [[ty si]|], code as [code|]; split_and!; try done; by intros [?|?].
Qed.

(** What the decoder makes of an event a jobs command published: the outcome the
    document must see, with the organization's identifier as it is parsed. *)
Lemma decode_published (job : Job.Job) (type : JobEventType) (pl : list (string * JsValue))
    (eventId : ID) (at_ : num) (work : WorkContext) (subject : option Events.EventSubject) (tenant : option ID)
    (e : Events.Envelope) :
  Job.wf job -> validID job.(Job.j_id) = true -> publishes job type pl ->
  Events.create eventId (JOB_EVENT_TYPES type) at_ work pl subject tenant = Ok e ->
  decodeJobEvent e =
    match outcomeFor type job with
    | None => Ok None
    | Some o =>
        organizationId ← parse (VStr job.(Job.j_organizationId));
        Ok (Some (mkOutcome o.(o_action) organizationId o.(o_documentId) o.(o_jobId) o.(o_attempt) o.(o_failureCode)))
    end.
Proof.
  intros Hjob Hid Hpublishes Hevent.
  unfold decodeJobEvent. destruct (Events.create_type _ _ _ _ _ _ _ _ Hevent) as [-> _].
  pose proof (published_fields job type pl Hpublishes) as Hf. pose proof (ACTIONS_type type) as Ht.
  unfold outcomeFor. destruct (ACTIONS (JOB_EVENT_TYPES type)) as [action|] eqn:Ea.
  2: { destruct type; try done; (destruct (Job.j_subject job); [by destruct (_ && _)|done]). }
  rewrite (Events.create_payload _ _ _ _ _ _ _ _ Hevent). cbn [mbind Result_bind].
  destruct (Hf ltac:(done)) as (Fk & Fs & Fo & Fj & Fa & Fc). rewrite Fk, Fs, Fo, Fj, Fa.
  apply Events.validID_parse in Hid.
  destruct (bool_decide_reflect (Job.j_kind job = DOCUMENT_PROCESSING_JOB_KIND)) as [Hk|Hk].
  2: { rewrite bool_decide_eq_false_2 by congruence. by destruct (Job.j_subject job). }
  rewrite bool_decide_eq_true_2 by congruence. cbn [negb andb].
  pose proof (Job.wf_subject _ Hjob) as Hs. destruct (Job.j_subject job) as [[ty si]|]; [|done].
  cbn [Job.subjectValue Job.sj_type Job.sj_id]. cbn [Job.subjectValue Job.sj_type Job.sj_id] in Hs.
  change (field "type" [("type"%string, VStr ty); ("id"%string, VStr si)]) with (VStr ty).
  change (field "id" [("type"%string, VStr ty); ("id"%string, VStr si)]) with (VStr si).
  destruct (bool_decide_reflect (ty = js "document")) as [->|Hty].
  2: { by rewrite bool_decide_eq_false_2 by congruence. }
  rewrite bool_decide_eq_true_2 by done. cbn [negb].
  assert (Hsi : parse (VStr si) = Ok si).
  { unfold Job.subject in Hs. cbn [member String.eqb Ascii.eqb Bool.eqb] in Hs.
    destruct (matchesName 63 _); [|done]. destruct (parse (VStr si)); [by injection Hs as ->|done]. }
  unfold idAt. rewrite Hsi, Hid. cbn [mbind Result_bind].
  assert (Hat : attemptAt (VNum (Int (Job.j_attempts job))) = Ok (Job.j_attempts job)).
  { pose proof (Job.wf_attempts _ Hjob). pose proof (Job.wf_maximum _ Hjob). unfold attemptAt, isSafeInteger, num_lt, MAX_SAFE_INTEGER.
    rewrite (proj2 (Z.leb_le _ _)), (proj2 (Z.ltb_ge _ _)) by lia. done. }
  destruct (parse (VStr (Job.j_organizationId job))) as [org|f].
  2: { destruct type; try done; cbn [mbind Result_bind]; done. }
  rewrite Hat. cbn [mbind Result_bind].
  destruct type; try done; injection Ht as ->; try done; (rewrite Fc by auto; by destruct (Job.j_failureCode job)).
Qed.

(** C26. The workflow understands every event the jobs module publishes. For any
    well-formed job and any event a jobs command publishes about it, in any
    work and at any time, the workflow's decoder answers exactly the outcome the
    job's document must see (its action, organization, document, run, attempt
    and failure code) when the job processes a document, and ignores the event
    otherwise; it never refuses it. *)
Theorem job_event_contract (job : Job.Job) (type : JobEventType) (pl : list (string * JsValue))
    (eventId : ID) (at_ : num) (work : WorkContext) (subject : option Events.EventSubject) (tenant : option ID)
    (e : Events.Envelope)
    (Hjob : Job.wf job) (Hid : validID job.(Job.j_id) = true) (Horg : validID job.(Job.j_organizationId) = true)
    (Hpublishes : publishes job type pl)
    (Hevent : Events.create eventId (JOB_EVENT_TYPES type) at_ work pl subject tenant = Ok e) :
  decodeJobEvent e = Ok (outcomeFor type job).
Proof.
  rewrite (decode_published job type pl eventId at_ work subject tenant e) by done.
  apply Events.validID_parse in Horg. unfold outcomeFor in *. destruct (Job.j_subject job) as [s|]; [|done].
  destruct (_ && _); [|done]. rewrite Horg. by destruct type.
Qed.

Lemma job_event_contract_witness :
  exists e, Events.create (sample_uuid "7") (JOB_EVENT_TYPES e_completed) (Int 3000) Events.sample_context
      (changedPayload (sample_uuid "8") JobStore.sample_completed) None None = Ok e
    /\ decodeJobEvent e = Ok (Some (mkOutcome complete (sample_uuid "9") (sample_uuid "4") (sample_uuid "5") 1 None)).
Proof.
  destruct (Events.create (sample_uuid "7") (JOB_EVENT_TYPES e_completed) (Int 3000) Events.sample_context
      (changedPayload (sample_uuid "8") JobStore.sample_completed) None None) as [e|f] eqn:Ee;
    [|exfalso; vm_compute in Ee; discriminate Ee].
  exists e. split; [reflexivity|].
  change (Some (mkOutcome complete (sample_uuid "9") (sample_uuid "4") (sample_uuid "5") 1 None))
    with (outcomeFor e_completed JobStore.sample_completed).
  apply (job_event_contract JobStore.sample_completed e_completed
    (changedPayload (sample_uuid "8") JobStore.sample_completed) (sample_uuid "7") (Int 3000) Events.sample_context None None e).
  - constructor; try (vm_compute; reflexivity); vm_compute; (congruence || split; congruence).
  - vm_compute. reflexivity.
  - vm_compute. reflexivity.
  - exact (pub_transition JobStore.sample_completed a_complete (sample_uuid "8")).
  - exact Ee.
Defined.
End JobEvents.

Module Projection.
Import JobEvents JobsApp.JobCommands.

(** @src src/workflows/document-processing/infra/job-event-subscription.ts:82-95 handle
    The outcome the workflow's command carries to the document. *)
Definition toProcessing (o : JobOutcome) : Document.ProcessingOutcome :=
  Document.mkOutcome o.(o_jobId) (Int o.(o_attempt))
    (match o.(o_action) with
     | retry => Document.retrying | complete => Document.succeeded | fail => Document.failed
     end)
    (match o.(o_failureCode) with Some code => VStr code | None => VUndefined end).

(** The event a transition of a job publishes. *)
Definition eventOf (t : Job.Transition) : JobEventType :=
  match t with
  | Job.Start _ => e_started | Job.Complete _ => e_completed | Job.Fail _ _ => e_failed
  | Job.Retry _ => e_retried | Job.Cancel _ => e_canceled
  end.

(** A job's life: the transitions attempted on it, the refused ones leaving no
    trace, and the outcomes its events carry to its document. *)
Fixpoint history (j : Job.Job) (ts : list Job.Transition) : Job.Job * list JobOutcome :=
  match ts with
  | [] => (j, [])
  | t :: ts =>
      match Job.transition j t with
      | Err _ => history j ts
      | Ok c =>
          let '(last, os) := history (Job.saved c) ts in
          (last, option_list (outcomeFor (eventOf t) c) ++ os)
      end
  end.

(** A job that processes a document. *)
Definition processes (j : Job.Job) : Prop :=
  j.(Job.j_kind) = DOCUMENT_PROCESSING_JOB_KIND
  /\ exists s, j.(Job.j_subject) = Some s /\ s.(Job.sj_type) = js "document".

(** What an outcome of [j]'s life can be when the job ends as [last]. *)
Record plausible (j last : Job.Job) (o : JobOutcome) : Prop := mkPlausible {
  pl_job : o.(o_jobId) = j.(Job.j_id);
  pl_attempt : 0 <= o.(o_attempt) <= last.(Job.j_attempts);
  pl_complete : o.(o_action) = complete -> last.(Job.j_status) = Job.succeeded;
  pl_retry : o.(o_action) = retry -> o.(o_attempt) < last.(Job.j_maxAttempts);
  pl_fail : o.(o_action) = fail -> exists code, o.(o_failureCode) = Some code /\ matchesName 127 code = true
}.

Lemma outcome_of j t c :
  processes j -> Job.transition j t = Ok c ->
  match eventOf t with
  | e_started | e_submitted => outcomeFor (eventOf t) c = None
  | e => exists o, outcomeFor (eventOf t) c = Some o /\ o.(o_jobId) = j.(Job.j_id)
      /\ o.(o_attempt) = j.(Job.j_attempts)
      /\ o.(o_action) = match e with e_completed => complete | e_retried => retry | _ => fail end
      /\ (o.(o_action) = fail -> o.(o_failureCode) = Some (default (js "job.canceled") c.(Job.j_failureCode)))
  end.
Proof.
  intros (Hk & s & Hs & Hty) Ht.
  destruct (Job.transition_attempts _ _ _ Ht) as (Ha & _).
  pose proof (JobWorld.transition_stable _ _ _ Ht) as (Hi & Ho & Hck & Hcs & _).
  unfold outcomeFor. rewrite Hck, Hcs, Hs, Hk, Hty, Hi, !bool_decide_eq_true_2 by done. cbn [andb].
  destruct t; cbn [eventOf] in *; try done; eexists; (split; [done|]); cbn; split_and!; try done; lia.
Qed.

(** A succeeded or canceled job never changes. *)
Lemma final_refuses j t :
  j.(Job.j_status) = Job.succeeded \/ j.(Job.j_status) = Job.canceled -> isOk (Job.transition j t) = false.
Proof.
  intros [Hs|Hs]; destruct t; cbn; unfold Job.start, Job.complete, Job.fail, Job.retry, Job.cancel;
    destruct (Job.transitionTime _ _); cbn; by rewrite ?Hs.
Qed.

Lemma history_succeeded j ts : j.(Job.j_status) = Job.succeeded -> history j ts = (j, []).
Proof.
  intros Hs. induction ts as [|t ts IH]; cbn; [done|].
  pose proof (final_refuses j t (or_introl Hs)). by destruct (Job.transition j t).
Qed.

Lemma processes_saved j t c : processes j -> Job.transition j t = Ok c -> processes (Job.saved c).
Proof.
  intros (Hk & s & Hs & Hty) (_ & _ & Hck & Hcs & _)%JobWorld.transition_stable.
  split; [cbn; congruence|]. exists s. cbn. split; [congruence|done].
Qed.

Lemma transition_status j t c :
  Job.transition j t = Ok c ->
  c.(Job.j_status) =
  match t with
  | Job.Start _ => Job.running | Job.Complete _ => Job.succeeded | Job.Fail _ _ => Job.failed
  | Job.Retry _ => Job.queued | Job.Cancel _ => Job.canceled
  end
  /\ match t with Job.Retry _ => j.(Job.j_attempts) < j.(Job.j_maxAttempts) | _ => True end.
Proof.
  destruct t; cbn; unfold Job.start, Job.complete, Job.fail, Job.retry, Job.cancel; intros H; ok_branches H;
    cbn; split; try done. by breflect.
Qed.

(** The outcome of one transition, seen from the end of the job's life. *)
Lemma head_plausible j t c last ts :
  Job.wf j -> processes j -> Job.transition j t = Ok c ->
  last = (history (Job.saved c) ts).1 ->
  c.(Job.j_attempts) <= last.(Job.j_attempts) -> last.(Job.j_maxAttempts) = j.(Job.j_maxAttempts) ->
  Forall (plausible j last) (option_list (outcomeFor (eventOf t) c)).
Proof.
  intros Hj Hp Ht Hlast Hle Hmax. pose proof (outcome_of j t c Hp Ht) as Ho.
  pose proof (Job.job_transition_wf _ _ _ Hj Ht) as Hc. pose proof (Job.transition_attempts _ _ _ Ht) as (Ha & _).
  pose proof (transition_status _ _ _ Ht) as [Hst Hret]. pose proof (Job.wf_attempts _ Hj).
  destruct t; cbn [eventOf] in *.
  - rewrite Ho. constructor.
  - destruct Ho as (o & -> & H1 & H2 & H3 & H4). constructor; [|constructor]. constructor; try congruence; [lia|].
    intros _. rewrite Hlast, history_succeeded; [exact Hst|exact Hst].
  - destruct Ho as (o & -> & H1 & H2 & H3 & H4). constructor; [|constructor]. constructor; try congruence; [lia|].
    intros Hf. eexists. split; [by apply H4|]. pose proof (Job.wf_code _ Hc) as Hcode.
    destruct (Job.j_failureCode c); [by apply Hcode|done].
  - destruct Ho as (o & -> & H1 & H2 & H3 & H4). constructor; [|constructor]. constructor; try congruence; lia.
  - destruct Ho as (o & -> & H1 & H2 & H3 & H4). constructor; [|constructor]. constructor; try congruence; [lia|].
    intros Hf. eexists. split; [by apply H4|]. pose proof (Job.wf_code _ Hc) as Hcode.
    destruct (Job.j_failureCode c); [by apply Hcode|done].
Qed.

Definition reported (action : JobEvents.Action) (last : Job.Job) (os : list JobOutcome) : Prop :=
  Exists (fun o => o.(o_action) = action /\ o.(o_attempt) = last.(Job.j_attempts)) os.

Lemma history_facts ts j :
  Job.wf j -> processes j ->
  let '(last, os) := history j ts in
  last.(Job.j_id) = j.(Job.j_id) /\ j.(Job.j_attempts) <= last.(Job.j_attempts)
  /\ last.(Job.j_maxAttempts) = j.(Job.j_maxAttempts)
  /\ Forall (plausible j last) os
  /\ (last.(Job.j_status) = Job.succeeded -> j.(Job.j_status) = Job.succeeded \/ reported complete last os)
  /\ (last.(Job.j_status) = Job.failed ->
       (j.(Job.j_status) = Job.failed /\ last.(Job.j_attempts) = j.(Job.j_attempts)) \/ reported fail last os).
Proof.
  revert j. induction ts as [|t ts IH]; intros j Hj Hp; cbn [history].
  { split_and!; try done; intros ?; by left. }
  destruct (Job.transition j t) as [c|] eqn:Et; [|by apply IH].
  pose proof (Job.job_transition_wf _ _ _ Hj Et) as Hc.
  pose proof (Job.transition_attempts _ _ _ Et) as (Ha & Hm & _).
  pose proof (JobWorld.transition_stable _ _ _ Et) as (Hi & _).
  pose proof (transition_status _ _ _ Et) as [Hst _].
  specialize (IH (Job.saved c) (Job.job_saved_wf _ Hc) (processes_saved _ _ _ Hp Et)).
  pose proof (head_plausible j t c (history (Job.saved c) ts).1 ts Hj Hp Et eq_refl) as Hhead.
  pose proof (outcome_of j t c Hp Et) as Ho.
  pose proof (history_succeeded (Job.saved c) ts) as Hsucc.
  destruct (history (Job.saved c) ts) as [last os]. cbn [fst Job.saved Job.j_id Job.j_attempts Job.j_maxAttempts Job.j_status] in *.
  destruct IH as (I1 & I2 & I3 & I4 & I5 & I6).
  split_and!; [congruence|destruct t; lia|congruence| | |].
  - apply Forall_app. split; [apply Hhead; [done|congruence]|]. eapply Forall_impl; [exact I4|].
    intros o [P1 P2 P3 P4 P5]. constructor; try done. cbn in P1. congruence.
  - intros Hl. right. apply Exists_app. destruct (I5 Hl) as [Hcs|Hr]; [left|by right].
    specialize (Hsucc Hcs). injection Hsucc as -> ->. cbn.
    destruct t; rewrite Hst in Hcs; try done. cbn [eventOf] in Ho |- *. destruct Ho as (o & -> & _ & H2 & H3 & _).
    left. split; [done|lia].
  - intros Hl. right. apply Exists_app. destruct (I6 Hl) as [[Hcf Hla]|Hr]; [left|by right].
    destruct t; rewrite Hst in Hcf; try done. cbn [eventOf] in Ho |- *. destruct Ho as (o & -> & _ & H2 & H3 & _).
    left. split; [done|lia].
Qed.

(** Deliveries to a document: outcomes of the job's life for its own run, any
    well-formed outcomes for other runs; each outcome of the life at least once. *)
Record deliversAll (run : ID) (os : list JobOutcome) (l : list (Date * Document.ProcessingOutcome)) : Prop := mkDelivers {
  dl_formed : Forall (fun e => Document.wellFormed e = true) l;
  dl_own : Forall (fun e => e.2.(Document.o_run) = run -> exists o, o ∈ os /\ e.2 = toProcessing o) l;
  dl_all : Forall (fun o => Exists (fun e => e.2 = toProcessing o) l) os
}.

Lemma deliversAll_own run os l (P : JobOutcome -> Prop) (Q : Document.ProcessingOutcome -> Prop) :
  deliversAll run os l -> Forall P os -> (forall o, P o -> Q (toProcessing o)) ->
  Forall (fun e => e.2.(Document.o_run) = run -> Q e.2) l.
Proof.
  intros [_ Hown _] HP HQ. eapply Forall_impl; [exact Hown|]. cbn. intros e He Hr.
  destruct (He Hr) as (o & Ho & ->). by apply HQ, (proj1 (Forall_forall _ _) HP).
Qed.

(** C3. The document follows its job. A job is created for a document, and any
    transitions are attempted on it. The document, waiting on that job, gets
    every outcome of the job's life at least once, in any order, with any
    repetition, mixed with outcomes of other runs. If the job succeeded, the
    document ends processed; if it failed with its attempts spent, the document
    ends failed. *)
Theorem document_follows_job (input : Job.CreateJobInput) (j0 : Job.Job) (ts : list Job.Transition)
    (d : Document.Document) (l : list (Date * Document.ProcessingOutcome))
    (Hcreate : Job.create input = Ok j0) (Hprocesses : processes j0)
    (Hstatus : d.(Document.d_status) = Document.processing)
    (Hrun : d.(Document.d_processingRun) = Some j0.(Job.j_id)) (Hfresh : d.(Document.d_processingAttempt) = 0)
    (Hdelivered : deliversAll j0.(Job.j_id) (history (Job.saved j0) ts).2 l) :
  let job := (history (Job.saved j0) ts).1 in
  (job.(Job.j_status) = Job.succeeded -> (Document.deliveries d l).(Document.d_status) = Document.processed)
  /\ (job.(Job.j_status) = Job.failed -> job.(Job.j_attempts) = job.(Job.j_maxAttempts) ->
      (Document.deliveries d l).(Document.d_status) = Document.processing_failed).
Proof.
  pose proof (Job.job_saved_wf _ (Job.job_create_wf _ _ Hcreate)) as Hwf.
  destruct (JobWorld.create_spec _ _ Hcreate) as (_ & _ & _ & _ & _ & _ & Hq).
  pose proof (history_facts ts (Job.saved j0) Hwf Hprocesses) as H.
  destruct (history (Job.saved j0) ts) as [job os]. cbn [fst snd Job.saved Job.j_id Job.j_status] in *.
  destruct H as (_ & Hle & _ & Hpl & Hsucc & Hfail). rewrite Hq in Hsucc, Hfail.
  pose proof (Job.wf_attempts _ Hwf) as Hatt.
  assert (Hmax : Forall (fun e => e.2.(Document.o_run) = j0.(Job.j_id) -> Document.attemptOf e.2 <= job.(Job.j_attempts)) l).
  { apply (deliversAll_own _ os l (plausible (Job.saved j0) job) (fun o => Document.attemptOf o <= job.(Job.j_attempts)) Hdelivered Hpl).
    intros o [_ ? _ _ _]. cbn. lia. }
  assert (Hreach : forall action, reported action job os -> Exists (fun e => exists o, e.2 = toProcessing o
    /\ o.(o_jobId) = j0.(Job.j_id) /\ o.(o_action) = action /\ o.(o_attempt) = job.(Job.j_attempts)) l).
  { intros action (o & Hin & Ha & Hn)%List.Exists_exists. apply list_elem_of_In in Hin.
    pose proof (proj1 (Forall_forall _ _) (dl_all _ _ _ Hdelivered) o Hin) as He.
    eapply Exists_impl; [exact He|]. cbn. intros e ->. exists o. split; [done|].
    split; [|done]. apply (pl_job _ _ _ (proj1 (Forall_forall _ _) Hpl o Hin)). }
  assert (Hwait : Document.waiting j0.(Job.j_id) job.(Job.j_attempts) d).
  { split; [by left|]. split; [done|]. rewrite Hfresh. cbn in Hatt, Hle. lia. }
  split.
  - intros Hs. destruct (Hsucc Hs) as [?|Hrep]; [done|].
    apply (Document.deliveries_converge_success d j0.(Job.j_id) job.(Job.j_attempts) l Hwait (dl_formed _ _ _ Hdelivered) Hmax).
    eapply Exists_impl; [exact (Hreach _ Hrep)|]. intros e (o & -> & H1 & H2 & H3). cbn. by rewrite H2.
  - intros Hs Hspent. destruct (Hfail Hs) as [[? _]|Hrep]; [done|].
    apply (Document.deliveries_converge_failure d j0.(Job.j_id) job.(Job.j_attempts) l Hwait (dl_formed _ _ _ Hdelivered) Hmax).
    + apply (deliversAll_own _ os l (plausible (Job.saved j0) job) (fun o => Document.o_result o <> Document.succeeded) Hdelivered Hpl).
      intros o [_ _ Hc _ _]. cbn. destruct (o_action o); try done. by rewrite Hc in Hs.
    + apply (deliversAll_own _ os l (plausible (Job.saved j0) job) (fun o => Document.attemptOf o = job.(Job.j_attempts) ->
        Document.o_result o = Document.failed /\ exists c, Document.processingFailureCode (Document.o_failureCode o) = Ok (Some c)) Hdelivered Hpl).
      intros o [_ _ Hc Hr Hf] Hn. cbn in Hn |- *. destruct (o_action o).
      * specialize (Hr eq_refl). lia.
      * by rewrite Hc in Hs.
      * destruct (Hf eq_refl) as (code & -> & Hm). split; [done|]. exists code. cbn. by rewrite Hm.
    + eapply Exists_impl; [exact (Hreach _ Hrep)|]. intros e (o & -> & H1 & H2 & H3). by cbn.
Qed.
Definition sample_create : Job.CreateJobInput :=
  Job.mkCreate (sample_uuid "5") (sample_uuid "9") (VStr DOCUMENT_PROCESSING_JOB_KIND)
    (VObj [("type"%string, VStr (js "document")); ("id"%string, VStr (sample_uuid "4"))]) VUndefined (DateAt 1000).

(** The document the sample job processes, as [beginProcessing] left it. *)
Definition sample_document : Document.Document :=
  Document.mkDocument (sample_uuid "4") (sample_uuid "9") (js "report") None Document.processing None
    (Some (sample_uuid "5")) 0 (DateAt 500) (DateAt 1000) None 2.

(** A failed attempt, a retry, and a second attempt that completes. *)
Definition sample_life : list Job.Transition :=
  [Job.Start (DateAt 2000); Job.Fail (DateAt 3000) (VStr (js "job.crashed")); Job.Retry (DateAt 4000);
   Job.Start (DateAt 5000); Job.Complete (DateAt 6000)].

Definition sample_outcome (action : JobEvents.Action) (attempt : Z) (code : option jstring) : JobOutcome :=
  JobEvents.mkOutcome action (sample_uuid "9") (sample_uuid "4") (sample_uuid "5") attempt code.

(** The second attempt's completion arrives first, the failure twice. *)
Definition sample_deliveries : list (Date * Document.ProcessingOutcome) :=
  let failure := (DateAt 7000, toProcessing (sample_outcome fail 1 (Some (js "job.crashed")))) in
  [failure; (DateAt 7100, toProcessing (sample_outcome complete 2 None));
   (DateAt 7200, toProcessing (sample_outcome retry 1 None)); failure].

Lemma document_follows_job_witness :
  (Document.deliveries sample_document sample_deliveries).(Document.d_status) = Document.processed.
Proof.
  refine (proj1 (document_follows_job sample_create JobStore.sample_job sample_life sample_document sample_deliveries
    _ _ _ _ _ _) _); try (vm_compute; reflexivity).
  - split; [vm_compute; reflexivity|]. eexists. split; vm_compute; reflexivity.
  - assert (Hos : (history (Job.saved JobStore.sample_job) sample_life).2
        = [sample_outcome fail 1 (Some (js "job.crashed")); sample_outcome retry 1 None; sample_outcome complete 2 None])
      by (vm_compute; reflexivity).
    rewrite Hos. unfold sample_deliveries. constructor.
    + repeat constructor.
    + repeat (apply List.Forall_cons; [intros _; eexists; split; [|reflexivity]; rewrite ?elem_of_cons; tauto|]). constructor.
    + repeat (apply List.Forall_cons; [first [by left | right; by left | right; right; by left]|]).
      constructor.
Defined.

(** A job whose first attempt failed, was retried, and was then canceled while
    it waited in the queue. *)
Definition canceled_life : list Job.Transition :=
  [Job.Start (DateAt 2000); Job.Fail (DateAt 3000) (VStr (js "job.crashed")); Job.Retry (DateAt 4000);
   Job.Cancel (DateAt 5000)].

(** A canceled job can leave its document processing for ever. A job is
    started, fails, is retried and is canceled before it starts again; its three
    outcomes all carry attempt 1. Each is delivered to the document exactly
    once, well formed, the cancellation before the retry. The document ends
    [processing]; the job is canceled, and no transition of a canceled job
    succeeds, so no further outcome of the run will come. *)
Theorem canceled_retry_sticks :
  exists l,
    let life := history (Job.saved JobStore.sample_job) canceled_life in
    Job.create sample_create = Ok JobStore.sample_job
    /\ life.1.(Job.j_status) = Job.canceled
    /\ (forall t, isOk (Job.transition life.1 t) = false)
    /\ Permutation (snd <$> l) (toProcessing <$> life.2)
    /\ deliversAll (sample_uuid "5") life.2 l
    /\ (Document.deliveries sample_document l).(Document.d_status) = Document.processing
    /\ (Document.deliveries sample_document (rev l)).(Document.d_status) = Document.processing_failed.
Proof.
  set (failure := (DateAt 7000, toProcessing (sample_outcome fail 1 (Some (js "job.crashed"))))).
  set (cancel := (DateAt 7100, toProcessing (sample_outcome fail 1 (Some (js "job.canceled"))))).
  set (again := (DateAt 7200, toProcessing (sample_outcome retry 1 None))).
  exists [failure; cancel; again]. intros life.
  assert (Hos : life.2 = [sample_outcome fail 1 (Some (js "job.crashed")); sample_outcome retry 1 None;
      sample_outcome fail 1 (Some (js "job.canceled"))]) by (vm_compute; reflexivity).
  rewrite Hos. split_and!; [vm_compute; reflexivity|vm_compute; reflexivity| | | |vm_compute; reflexivity|vm_compute; reflexivity].
  - intros t. apply final_refuses. right. vm_compute. reflexivity.
  - rewrite !fmap_cons, !fmap_nil. cbn [snd]. apply perm_skip, perm_swap.
  - unfold failure, cancel, again. constructor.
    + repeat constructor.
    + repeat (apply List.Forall_cons; [intros _; eexists; split; [|reflexivity]; rewrite ?elem_of_cons; tauto|]). constructor.
    + repeat (apply List.Forall_cons; [first [by left | right; by left | right; right; by left]|]).
      constructor.
Qed.
End Projection.
