(* ===== verification/ProcessingApp.v ===== *)
(** * The document-processing workflow: its request and its subscription.

    [workflows/document-processing/app] asks for a document to be processed: it
    checks the caller's membership, makes sure the document has an open job, and
    begins the document's run under that job.  [infra/job-event-subscription.ts]
    handles the events jobs publish and carries their outcomes to the document.
    Both are programs over the ports of three modules at once; a module's own
    command runs inside them through [embed]. *)
From stdpp Require Import relations.
From S2P Require Import Prelude Async JsMap Errors Ids CaseFolding IsoDate Json Pagination Provenance Events Commands Aggregates Writers.
From S2P Require Import DocumentDomain JobDomain OrganizationDomain OrganizationStore OrganizationApp DocumentApp JobsStore JobsApp JobsWorld Workflow.

Module ProcessingPorts.

(** What the workflow can call: the organization module's membership query, the
    provenance factory's clock and identifiers, the document and jobs modules,
    and the bus, which hands over an event once it has been published. *)
Inductive Op : Type :=
| membership (sessionToken : jstring) (organizationId : ID)
| now
| newId
| document (op : DocumentPorts.Op)
| job (op : JobPorts.Op)
| delivered (event : Events.Envelope).

Definition Ans (op : Op) : Type :=
  match op with
  | membership _ _ => Res (option OrgPorts.View)
  | now => Date
  | newId => Res ID
  | document op => DocumentPorts.Ans op
  | job op => JobPorts.Ans op
  | delivered _ => unit
  end.

Definition Command (A : Type) : Type := Prog Ans (Res A).

(** A command of the document module, of the jobs module. *)
Definition inDocuments {A} (p : Prog DocumentPorts.Ans A) : Prog Ans A :=
  embed (AnsB := Ans) document (fun op r => r) p.
Definition inJobs {A} (p : Prog JobPorts.Ans A) : Prog Ans A :=
  embed (AnsB := Ans) job (fun op r => r) p.
End ProcessingPorts.

Module Processing.
Import (hints) Organization Membership.
Import ProcessingPorts JobEvents.
#[local] Open Scope prog_scope.

(** ** [RequestDocumentProcessing]. *)

(** @src src/workflows/document-processing/app/request-document-processing.ts:29-36 RequestDocumentProcessingCommand *)
Record RequestCommand : Type := mkRequest {
  rq_sessionToken : jstring; rq_organizationId : ID; rq_documentId : ID; rq_maxAttempts : JsValue; rq_work : WorkContext
}.

(** @src src/workflows/document-processing/app/request-document-processing.ts:46-52 RequestDocumentProcessingResult *)
Record RequestResult : Type := mkRequested {
  rr_documentId : ID; rr_jobId : ID; rr_documentStatus : Document.DocumentStatus; rr_jobStatus : Job.JobStatus;
  rr_jobCreated : bool
}.

(** @src src/workflows/document-processing/app/request-document-processing.ts:61-61 childWork *)
Definition workflowActor : Res Actor := actor (js "service") (js "n2f-nest-document-processing").

(** @src src/workflows/document-processing/app/request-document-processing.ts:54-70 childWork
    The same function as in [job-event-subscription.ts]. The factory reads its
    clock and draws an identifier for each of the two scopes. *)
Definition childWork (parent : WorkContext) (operationName : string) : Command WorkContext :=
  operationValue ⟵ pure_ (operation (js operationName));
  executor ⟵ pure_ workflowActor;
  bind (perform now) (fun startedAt =>
  bind (perform newId) (fun scopeId =>
  execution ⟵ pure_ (execute startedAt scopeId parent executor (Int 1));
  bind (perform now) (fun childAt =>
  bind (perform newId) (fun childId =>
  scope ⟵ pure_ (child childAt childId execution (mkStep None operationValue executor None));
  Ret (Ok scope.(c_work)))))).

(** @src src/workflows/document-processing/app/request-document-processing.ts:82-86 execute *)
Definition invalidOperation : Failure :=
  fail_with Errors.invalid "document processing request operation is invalid" "document.processing.invalid_operation".

(** @src src/workflows/document-processing/app/request-document-processing.ts:95-105 execute
    The test, negated. *)
Definition hasAccess (view : option OrgPorts.View) : bool :=
  match view with
  | Some v =>
      bool_decide (v.(OrgPorts.v_organization).(Organization.o_status) = Organization.active)
      && bool_decide (v.(OrgPorts.v_membership).(Membership.m_status) = Membership.active)
  | None => false
  end.
(** @src src/workflows/document-processing/app/request-document-processing.ts:106-115 execute
    The test, negated. *)
Definition mayProcess (view : option OrgPorts.View) : bool :=
  match view with
  | Some v =>
      bool_decide (v.(OrgPorts.v_membership).(Membership.m_role) = Membership.owner)
      || bool_decide (v.(OrgPorts.v_membership).(Membership.m_role) = Membership.admin)
  | None => false
  end.

(** @src src/workflows/document-processing/app/request-document-processing.ts:133-140 execute *)
Definition submission (command : RequestCommand) (work : WorkContext) : JobCommands.SubmitWorkflowJobCommand :=
  JobCommands.mkWorkflow command.(rq_organizationId) DOCUMENT_PROCESSING_JOB_KIND
    (Job.mkSubject (js "document") command.(rq_documentId)) command.(rq_maxAttempts) work.

(** @src src/workflows/document-processing/app/request-document-processing.ts:151-157 execute *)
Definition beginning (command : RequestCommand) (jobId : ID) (work : WorkContext) : DocumentCommands.ProcessDocumentCommand :=
  DocumentCommands.mkProcess command.(rq_organizationId) command.(rq_documentId) jobId None VUndefined work.

(** @src src/workflows/document-processing/app/request-document-processing.ts:78-167 execute *)
Definition requestProcessing (command : RequestCommand) : Command RequestResult :=
  _ ⟵ require (operationIs command.(rq_work) "document.processing.request") invalidOperation;
  view ⟵ perform (membership command.(rq_sessionToken) command.(rq_organizationId));
  _ ⟵ require (hasAccess view)
        (fail_with forbidden "organization access is required" "document.processing_forbidden");
  _ ⟵ require (mayProcess view)
        (fail_with forbidden "only organization owners and admins can process documents" "document.processing_forbidden");
  _ ⟵ inDocuments (DocumentCommands.checkDocumentProcessable command.(rq_organizationId) command.(rq_documentId));
  jobWork ⟵ childWork command.(rq_work) "job.submit.workflow";
  submitted ⟵ inJobs (JobCommands.submitWorkflowJob (submission command jobWork));
  beginWork ⟵ childWork jobWork "document.processing.start";
  begun ⟵ inDocuments (DocumentCommands.processDocument DocumentCommands.a_begin
             (beginning command submitted.(JobCommands.wr_jobId) beginWork));
  Ret (Ok (mkRequested begun.(Document.d_id) submitted.(JobCommands.wr_jobId) begun.(Document.d_status)
             submitted.(JobCommands.wr_status) submitted.(JobCommands.wr_created))).

(** ** [DocumentProcessingJobEventSubscription]. *)

(** @src src/workflows/document-processing/infra/job-event-subscription.ts:70-75 handle *)
Definition operationName (action : JobEvents.Action) : string :=
  match action with
  | retry => "document.processing.retry"
  | complete => "document.processing.complete"
  | fail => "document.processing.fail"
  end.

(** @src src/workflows/document-processing/infra/job-event-subscription.ts:90-95 handle *)
Definition commandOf (action : JobEvents.Action) : DocumentCommands.Action :=
  match action with
  | fail => DocumentCommands.a_fail | retry => DocumentCommands.a_retry | complete => DocumentCommands.a_complete
  end.

(** @src src/workflows/document-processing/infra/job-event-subscription.ts:82-92 handle *)
Definition outcomeCommand (outcome : JobOutcome) (work : WorkContext) : DocumentCommands.ProcessDocumentCommand :=
  DocumentCommands.mkProcess outcome.(o_organizationId) outcome.(o_documentId) outcome.(o_jobId)
    (Some (Int outcome.(o_attempt)))
    (match outcome.(o_action), outcome.(o_failureCode) with fail, Some code => VStr code | _, _ => VUndefined end) work.

(** @src src/workflows/document-processing/infra/job-event-subscription.ts:61-101 handle
    The log line of a failure is not modelled. *)
Definition handle (event : Events.Envelope) : Command unit :=
  decoded ⟵ pure_ (decodeJobEvent event);
  match decoded with
  | None => Ret (Ok tt)
  | Some outcome =>
      work ⟵ childWork event.(Events.e_work) (operationName outcome.(o_action));
      _ ⟵ inDocuments (DocumentCommands.processDocument (commandOf outcome.(o_action)) (outcomeCommand outcome work));
      Ret (Ok tt)
  end.

(** A delivery: the bus hands over an event it was given, some time after it was
    published. *)
Definition deliver (event : Events.Envelope) : Command unit :=
  bind (perform (delivered event)) (fun _ => handle event).
End Processing.
