(* ===== verification/ProcessingWorld.v ===== *)
(** * The document-processing workflow at work: documents, jobs and their events.

    The world is the document module's and the jobs module's together; requests,
    deliveries of events and the modules' own commands interleave in it at every
    port call. *)
From stdpp Require Import relations.
From S2P Require Import Prelude Async JsMap Errors Ids CaseFolding IsoDate Json Pagination Provenance Events Commands Aggregates Writers.
From S2P Require Import DocumentDomain JobDomain OrganizationDomain OrganizationStore OrganizationApp DocumentApp JobsStore JobsApp JobsWorld Workflow.
From S2P Require Import ProcessingApp.

Module ProcessingWorld.
Import (hints) Document Job DocumentStore Organization Membership.
Import ProcessingPorts Processing JobEvents.
Import Document(Document, d_id, d_organizationId, d_status, d_processingRun, d_processingAttempt, d_processingFailureCode).
Import Job(Job, j_id, j_organizationId, j_kind, j_subject, j_status, j_attempts, j_failureCode).
Import DocumentWorld(documentAt, withDocument).
Import JobWorld(stored, evo, told, recorded).

Record World : Type := mkWorld { documents : DocumentWorld.World; jobs : JobWorld.World }.

Section Exec.
  (** The host's collation, what the organization module answers to each module,
      and the failures of unreliable dependencies. *)
  Context (localeCompare : ID -> ID -> Z)
    (documentAccess : jstring -> ID -> Res (option DocumentPorts.Access) -> Prop)
    (jobAccess : jstring -> ID -> Res (option JobPorts.Access) -> Prop)
    (membershipOf : jstring -> ID -> Res (option OrgPorts.View) -> Prop) (outage : Failure -> Prop).

Abbreviation execDocuments := (DocumentWorld.exec localeCompare documentAccess outage).
Abbreviation execJobs := (JobWorld.exec jobAccess outage).

(** Each module's calls act on its own part; an event is delivered only after it
    was published, at any time, in any order, as often as one likes. *)
Definition exec (op : Op) : World -> Ans op -> World -> Prop :=
  match op with
  | membership token organizationId => fun w r w' => membershipOf token organizationId r /\ w' = w
  | now => fun w _ w' => w' = w
  | newId => fun w _ w' => w' = w
  | document op => fun w r w' => execDocuments op w.(documents) r w'.(documents) /\ w'.(jobs) = w.(jobs)
  | job op => fun w r w' => execJobs op w.(jobs) r w'.(jobs) /\ w'.(documents) = w.(documents)
  | delivered event => fun w _ w' => event ∈ w.(jobs).(JobWorld.published) /\ w' = w
  end.

(** ** What a document says of its job. *)

(** [c] is a state a stored job is or was in. *)
Definition been (js_ : JobWorld.World) (c : Job) : Prop := exists j, stored js_ c.(j_id) j /\ rtc evo c j.

(** The job of the document's run, in a state that [P] describes. *)
Definition ran (js_ : JobWorld.World) (d : Document) (P : Job -> Prop) : Prop :=
  exists c, been js_ c /\ Job.wf c /\ d.(d_processingRun) = Some c.(j_id)
    /\ parse (VStr c.(j_organizationId)) = Ok d.(d_organizationId)
    /\ c.(j_kind) = DOCUMENT_PROCESSING_JOB_KIND /\ c.(j_subject) = Some (Job.mkSubject (js "document") d.(d_id)) /\ P c.

(** A document tells the truth about its job: it waits on a job of its own, is
    processed only if that job succeeded, and failed only if that job was at the
    recorded attempt failed or canceled, with that failure code. *)
Definition linked (js_ : JobWorld.World) (d : Document) : Prop :=
  match d.(d_status) with
  | Document.active | Document.archived => True
  | Document.processing => ran js_ d (fun c => 0 <= d.(d_processingAttempt) <= c.(j_attempts))
  | Document.processed => ran js_ d (fun c => c.(j_status) = Job.succeeded /\ d.(d_processingAttempt) = c.(j_attempts))
  | Document.processing_failed => ran js_ d (fun c =>
      (c.(j_status) = Job.failed \/ c.(j_status) = Job.canceled) /\ d.(d_processingAttempt) = c.(j_attempts)
      /\ d.(d_processingFailureCode) = Some (default (js "job.canceled") c.(j_failureCode)))
  end.

Record Inv (w : World) : Prop := mkInv {
  inv_documents : DocumentWorld.Inv w.(documents);
  inv_jobs : JobWorld.Inv w.(jobs);
  inv_linked : forall id d, documentAt w.(documents) id d -> linked w.(jobs) d
}.

Record Rel (w w' : World) : Prop := mkRel {
  rel_documents : DocumentWorld.Rel w.(documents) w'.(documents);
  rel_jobs : JobWorld.Rel false w.(jobs) w'.(jobs)
}.

Lemma processing_rel_refl w : Rel w w.
Proof. split; [apply DocumentWorld.document_rel_refl|apply JobWorld.job_rel_refl]. Qed.
Lemma processing_rel_trans a b c : Rel a b -> Rel b c -> Rel a c.
Proof. intros [D1 J1] [D2 J2]. split; [by eapply DocumentWorld.document_rel_trans|by eapply JobWorld.job_rel_trans]. Qed.

Lemma been_rel b js_ js' c : JobWorld.Rel b js_ js' -> been js_ c -> been js' c.
Proof.
  intros [Hev _] (j & Hj & Hr). destruct (JobWorld.ev_chain _ _ Hev _ _ Hj) as (j' & Hj' & Hr'). exists j'. split; [done|]. by transitivity j.
Qed.

Lemma ran_weaken b js_ js' d (P Q : Job -> Prop) :
  JobWorld.Rel b js_ js' -> (forall c, P c -> Q c) -> ran js_ d P -> ran js' d Q.
Proof. intros Hr Hpq (c & Hc & H). exists c. split; [by eapply been_rel|]. naive_solver. Qed.

Lemma linked_rel b js_ js' d : JobWorld.Rel b js_ js' -> linked js_ d -> linked js' d.
Proof. intros Hr. unfold linked. destruct (d_status d); try done; by eapply ran_weaken. Qed.

(** Nothing links to a job but identifiers and the processing state. *)
Lemma linked_saved js_ d : linked js_ d -> linked js_ (Document.saved d).
Proof. done. Qed.

Lemma inv_withDocument w d e :
  Inv w -> DocumentWorld.Inv (withDocument d e w.(documents)) -> linked w.(jobs) d ->
  Inv (mkWorld (withDocument d e w.(documents)) w.(jobs)).
Proof.
  intros HI HD Hl. split; cbn; [done|by apply HI|].
  intros id x [[-> ->]|[_ Hx]]%DocumentWorld.documentAt_write; [by apply linked_saved|by eapply inv_linked].
Qed.

Abbreviation safe := (wp exec Inv Rel).

(** ** The modules' own commands, within the whole. *)

Lemma inJobs_safe {A} (p : Prog JobPorts.Ans A) post w :
  wp execJobs JobWorld.Inv (JobWorld.Rel false) p post w.(jobs) -> safe (inJobs p) (fun a w' => post a w'.(jobs)) w.
Proof.
  intros Hp. unfold inJobs. apply (wp_embed job (fun op r => r) jobs execJobs exec JobWorld.Inv Inv (JobWorld.Rel false) Rel (fun _ => True));
    [by intros ? []|by intros ?? []| |apply every_true|done].
  intros op [ds js_] r [ds' js'] _ [HD HJ HL] [He Hd]. cbn in *. subst ds'. split; [done|]. intros HJ' HR. split.
  - split; cbn; [done|done|]. intros id d Hx. eapply linked_rel; [exact HR|by eapply HL].
  - split; cbn; [apply DocumentWorld.document_rel_refl|done].
Qed.

(** Calls of the document module that start or finish no processing. *)
Definition quiet (op : DocumentPorts.Op) : Prop :=
  match op with
  | DocumentPorts.commit input =>
      let s := input.(DocumentStore.m_document).(d_status) in s = Document.active \/ s = Document.archived
  | _ => True
  end.

Lemma inDocuments_safe {A} (p : Prog DocumentPorts.Ans A) post w :
  every quiet p -> wp execDocuments DocumentWorld.Inv DocumentWorld.Rel p post w.(documents) ->
  safe (inDocuments p) (fun a w' => post a w'.(documents)) w.
Proof.
  intros Hq Hp. unfold inDocuments.
  apply (wp_embed document (fun op r => r) documents execDocuments exec DocumentWorld.Inv Inv DocumentWorld.Rel Rel quiet);
    [by intros ? []|by intros ?? []| |done|done].
  intros op [ds js_] r [ds' js'] Hop HI [He Hj]. cbn in *. subst js'. split; [done|]. intros HD' HR.
  split; [|split; [done|apply JobWorld.job_rel_refl]].
  assert (Hcase : ds' = ds \/ exists d e, linked js_ d /\ ds' = withDocument d e ds).
  { destruct op; try (left; by destruct He).
    destruct (DocumentWorld.document_exec_commit _ _ _ _ _ _ _ (inv_documents _ HI) He) as [(pr & _ & _ & ->)|(f & _ & ->)]; [right|by left].
    do 2 eexists. split; [|done]. unfold linked. by destruct Hop as [-> | ->]. }
  destruct Hcase as [-> | (d & e & Hl & ->)]; [done|]. by apply (inv_withDocument (mkWorld ds js_)).
Qed.
(** ** One processing step, within the whole. *)

(** The state of the job that backs a processing step. *)
Definition backed (action : DocumentCommands.Action) (cmd : DocumentCommands.ProcessDocumentCommand) (c : Job) : Prop :=
  Job.wf c /\ c.(j_id) = cmd.(DocumentCommands.pd_processingRun)
  /\ parse (VStr c.(j_organizationId)) = Ok cmd.(DocumentCommands.pd_organizationId)
  /\ c.(j_kind) = DOCUMENT_PROCESSING_JOB_KIND
  /\ c.(j_subject) = Some (Job.mkSubject (js "document") cmd.(DocumentCommands.pd_documentId))
  /\ match action with
     | DocumentCommands.a_begin => True
     | DocumentCommands.a_retry => cmd.(DocumentCommands.pd_attempt) = Some (Int c.(j_attempts))
     | DocumentCommands.a_complete => cmd.(DocumentCommands.pd_attempt) = Some (Int c.(j_attempts)) /\ c.(j_status) = Job.succeeded
     | DocumentCommands.a_fail => cmd.(DocumentCommands.pd_attempt) = Some (Int c.(j_attempts))
         /\ (c.(j_status) = Job.failed \/ c.(j_status) = Job.canceled)
         /\ cmd.(DocumentCommands.pd_failureCode) = VStr (default (js "job.canceled") c.(j_failureCode))
     end.

(** What a backed step makes of a document is linked to the job. *)
Lemma transition_linked js_ action cmd c before at_ after :
  been js_ c -> backed action cmd c ->
  before.(d_id) = cmd.(DocumentCommands.pd_documentId) -> before.(d_organizationId) = cmd.(DocumentCommands.pd_organizationId) ->
  DocumentCommands.transition before action at_ cmd = Ok (Document.New after) -> linked js_ after.
Proof.
  intros Hc (Hw & Hid & Ho & Hk & Hs & Ha) Hdi Hdo Ht.
  assert (Hran : forall s code a t (P : Job -> Prop), P c ->
    ran js_ (Document.with_processing before s code (Some cmd.(DocumentCommands.pd_processingRun)) a t) P).
  { intros s code a t P HP. exists c. cbn. rewrite Hid, Hdi, Hdo. done. }
  pose proof (Job.wf_attempts _ Hw) as Hatt. destruct action; cbn in Ht.
  - unfold Document.beginProcessing in Ht. ok_branches Ht. apply Hran. cbn. lia.
  - unfold Document.applyProcessingOutcome in Ht. ok_branches Ht. destruct (Document.stale _ _ _); [done|].
    cbn [DocumentCommands.outcomeOf Document.o_result Document.o_run Document.o_attempt] in Ht. rewrite Ha in Ht. cbn in Ht.
    destruct (bool_decide_reflect (d_status before = Document.processing)) as [Hst|Hst].
    + destruct (_ =? _); [done|]. injection Ht as <-. unfold linked. cbn [Document.with_processing Document.d_status]. rewrite Hst.
      apply Hran. cbn. lia.
    + injection Ht as <-. apply Hran. cbn. lia.
  - unfold Document.applyProcessingOutcome in Ht. ok_branches Ht. destruct (Document.stale _ _ _); [done|].
    cbn [DocumentCommands.outcomeOf Document.o_result Document.o_run Document.o_attempt] in Ht. destruct Ha as [Ha Hst]. rewrite Ha in Ht.
    injection Ht as <-. by apply Hran.
  - unfold Document.applyProcessingOutcome in Ht. ok_branches Ht. destruct (Document.stale _ _ _); [done|].
    cbn [DocumentCommands.outcomeOf Document.o_result Document.o_run Document.o_attempt Document.o_failureCode] in Ht.
    destruct Ha as (Ha & Hst & Hf). rewrite Ha, Hf in Ht. cbn in Ht. destruct (matchesName 127 _); [|done].
    destruct (_ && _); [done|]. injection Ht as <-. by apply Hran.
Qed.

(** The step took effect at one moment on what was stored then: [before] had
    evolved from what was stored when the step began, and what is stored now
    evolved from what the step made of it. *)
Definition effect (action : DocumentCommands.Action) (cmd : DocumentCommands.ProcessDocumentCommand) (w0 w : World) : Prop :=
  exists before at_ next after,
    (forall s, documentAt w0.(documents) cmd.(DocumentCommands.pd_documentId) s -> rtc Aggregates.evo s before)
    /\ linked w.(jobs) before /\ DocumentCommands.transition before action at_ cmd = Ok next
    /\ documentAt w.(documents) cmd.(DocumentCommands.pd_documentId) after
    /\ rtc Aggregates.evo (match next with Document.This => before | Document.New c => Document.saved c end) after.

Lemma processing_read_only op :
  match op with document (DocumentPorts.commit _) | job _ => False | _ => True end ->
  forall w1 r w2, exec op w1 r w2 -> w2 = w1.
Proof.
  destruct op as [?? | | |op|op|?]; try done; intros Hop w1 r w2 He; try (by destruct He).
  destruct He as [He Hj], w1, w2. cbn in *. f_equal; [|done]. destruct op; try done; by destruct He.
Qed.

Lemma documentAt_rel id d w w' : DocumentWorld.Rel w w' -> documentAt w id d -> exists d', documentAt w' id d' /\ rtc Aggregates.evo d d'.
Proof. intros [Hev _] Hd. exact (Aggregates.ev_chain _ _ Hev id d Hd). Qed.
(** The commit of a step: what it was prepared from is what is stored. *)
Lemma commit_safe {A} action cmd c before at_ after e work (k : Res unit -> Prog Ans A) post w :
  been w.(jobs) c -> backed action cmd c ->
  seen w.(documents).(stores) before -> before.(d_id) = cmd.(DocumentCommands.pd_documentId) ->
  before.(d_organizationId) = cmd.(DocumentCommands.pd_organizationId) ->
  DocumentCommands.transition before action at_ cmd = Ok (Document.New after) ->
  (forall w2, Rel w w2 -> Inv w2 -> documentAt w2.(documents) cmd.(DocumentCommands.pd_documentId) (Document.saved after) ->
     safe (k (Ok tt)) post w2) ->
  (forall f w2, Rel w w2 -> Inv w2 -> safe (k (Err f)) post w2) ->
  safe (Call (document (DocumentPorts.commit (DocumentStore.mkCommit DocumentStore.update after e work))) k) post w.
Proof.
  intros Hbeen Hback Hseen0 Hid Ho Ht Hok Herr. cbn [wp]. intros w1 Hr1 HI r w2 [He Hj].
  assert (Hstep : Document.step before after) by (destruct action; [by eapply Document.step_begin|by eapply Document.step_outcome..]).
  destruct (Document.step_fixed _ _ Hstep) as (Haid & _).
  assert (Hseen : seen w1.(documents).(stores) before) by (eapply seen_evolves; [apply Hr1|exact Hseen0]).
  destruct w2 as [ds2 js2]. cbn in Hj. subst js2. cbn [documents] in He.
  destruct (DocumentWorld.document_exec_commit _ _ _ _ _ _ _ (inv_documents _ HI) He) as [(pr & -> & Hg & ->)|(f & -> & ->)].
  - apply DocumentStore.guard_ok in Hg as [Hprev (p & -> & _ & Hv)]. cbn [DocumentStore.m_document DocumentStore.m_event] in *. symmetry in Hprev.
    destruct (DocumentWorld.document_change before after p e w1.(documents) (inv_documents _ HI) Hseen Hstep Hprev Hv) as (-> & HD & HR).
    assert (HI2 : Inv (mkWorld (withDocument after e w1.(documents)) w1.(jobs))).
    { apply inv_withDocument; [done|done|]. eapply transition_linked; [eapply been_rel; [apply Hr1|exact Hbeen]|exact Hback|done|done|exact Ht]. }
    assert (HR2 : Rel w1 (mkWorld (withDocument after e w1.(documents)) w1.(jobs))) by (split; [done|apply JobWorld.job_rel_refl]).
    split; [done|]. split; [done|]. apply Hok; [by eapply processing_rel_trans|done|].
    cbn [documents]. rewrite <- Hid, <- Haid. apply DocumentWorld.documentAt_write. by left.
  - destruct w1 as [ds1 js1]. split; [done|]. split; [apply processing_rel_refl|]. by apply Herr.
Qed.

Lemma process_safe action cmd c w :
  been w.(jobs) c -> backed action cmd c ->
  safe (inDocuments (DocumentCommands.processDocument action cmd)) (fun r w' => forall d, r = Ok d ->
    d.(d_id) = cmd.(DocumentCommands.pd_documentId) /\ effect action cmd w w') w.
Proof.
  intros Hbeen Hback. unfold inDocuments, DocumentCommands.processDocument.
  cbn [bind require embed]. destruct (operationIs _ _); cbn [bind embed]; [|done].
  cbn [bind perform orElse DocumentCommands.depends embed].
  apply (wp_read _ _ _ processing_rel_refl); [by apply processing_read_only|]. intros r w1 Hr1 HI1 [[Hf _] _].
  destruct r as [found|f]; cbn [mapError bind pure_ embed]; [|done].
  destruct (DocumentCommands.ownedBy _ found) as [before|f] eqn:Eo; cbn [bind embed]; [|done].
  assert (Hat : documentAt w1.(documents) cmd.(DocumentCommands.pd_documentId) before
    /\ before.(d_organizationId) = cmd.(DocumentCommands.pd_organizationId)).
  { cbn in Hf. destruct found as [x|]; [|done]. unfold DocumentCommands.ownedBy, foundOr in Eo.
    destruct (bool_decide_reflect (d_organizationId x = DocumentCommands.pd_organizationId cmd)); [|done]. injection Eo as ->. by symmetry in Hf. }
  destruct Hat as [Hat Ho].
  assert (Hstart : forall s, documentAt w.(documents) cmd.(DocumentCommands.pd_documentId) s -> rtc Aggregates.evo s before).
  { intros s Hs. destruct (documentAt_rel _ _ _ _ (rel_documents _ _ Hr1) Hs) as (x & Hx & Hsx).
    unfold documentAt in *. rewrite Hat in Hx. by injection Hx as <-. }
  assert (Hlink : linked w1.(jobs) before) by (by eapply inv_linked).
  pose proof (holds_id _ _ _ (DocumentWorld.inv_keyed _ (inv_documents _ HI1)) Hat) as Hid. cbn in Hid.
  cbn [perform bind embed]. apply (wp_read _ _ _ processing_rel_refl); [by apply processing_read_only|]. intros at_ w2 Hr2 HI2 _.
  destruct (DocumentCommands.transition before action at_ cmd) as [[|after]|f] eqn:Et; cbn [bind embed]; [| |done].
  { intros w' Hr' _ d [= <-]. split; [exact Hid|]. assert (Hr : Rel w1 w') by (by eapply processing_rel_trans).
    destruct (documentAt_rel _ _ _ _ (rel_documents _ _ Hr) Hat) as (x & Hx & Hbx).
    exists before, at_, Document.This, x. split_and!; try done. eapply linked_rel; [apply Hr|exact Hlink]. }
  cbn [perform bind orElse DocumentCommands.nextId embed].
  apply (wp_read _ _ _ processing_rel_refl); [by apply processing_read_only|]. intros r w3 Hr3 HI3 _.
  destruct r as [eid|f]; cbn [mapError bind embed DocumentCommands.documentEvent DocumentCommands.depends orElse]; [|done].
  destruct (Events.create _ _ _ _ _ _ _) as [e|f]; cbn [mapError bind embed perform]; [|done].
  assert (Hr13 : Rel w1 w3) by (by eapply processing_rel_trans).
  apply (commit_safe action cmd c before at_ after); [|done| |done|done|done| |done].
  - eapply been_rel; [apply Hr13|]. eapply been_rel; [apply Hr1|exact Hbeen].
  - eapply seen_evolves; [apply Hr13|]. by eapply holds_seen; [apply HI1|].
  - intros w4 Hr4 HI4 Hat4 w' Hr' _ d [= <-]. split.
    { rewrite <- Hid. assert (Hstep : Document.step before after) by (destruct action; [by eapply Document.step_begin|by eapply Document.step_outcome..]).
      by destruct (Document.step_fixed _ _ Hstep). }
    destruct (documentAt_rel _ _ _ _ (rel_documents _ _ Hr') Hat4) as (x & Hx & Hax).
    exists before, at_, (Document.New after), x. split_and!; try done.
    eapply linked_rel; [apply Hr'|]. eapply linked_rel; [apply Hr4|]. eapply linked_rel; [apply Hr13|exact Hlink].
Qed.
(** ** Requests and deliveries. *)

Lemma childWork_safe parent name w : safe (childWork parent name) (fun _ _ => True) w.
Proof.
  unfold childWork. cbn [bind pure_]. destruct (operation _) as [operationValue|]; [|done]. destruct workflowActor as [executor|]; [|done].
  do 2 (cbn [bind perform]; apply (wp_read _ _ _ processing_rel_refl); [by apply processing_read_only|intros ? ? ? ? ?]).
  cbn [bind pure_]. destruct (execute _ _ _ _ _); [|done].
  do 2 (cbn [bind perform]; apply (wp_read _ _ _ processing_rel_refl); [by apply processing_read_only|intros ? ? ? ? ?]).
  cbn [bind pure_]. by destruct (child _ _ _ _).
Qed.

(** The outcome a published event decodes to is backed by a state of its job. *)
Lemma outcome_backed js_ e o work :
  JobWorld.Inv js_ -> recorded js_ e -> decodeJobEvent e = Ok (Some o) ->
  exists c, been js_ c /\ backed (commandOf o.(o_action)) (outcomeCommand o work) c.
Proof.
  intros HI (c & j & Hw & (type & pl & id & at_ & wk & sj & tn & Hpub & Hst & He) & Hj & Hr) Hd.
  assert (Hid : validID c.(j_id) = true) by (by eapply (JobWorld.inv_ids _ HI), JobWorld.inv_issued).
  rewrite (decode_published c type pl id at_ wk sj tn e Hw Hid Hpub He) in Hd. unfold outcomeFor in Hd.
  destruct (j_subject c) as [s|] eqn:Es; [|done].
  destruct (bool_decide_reflect (j_kind c = DOCUMENT_PROCESSING_JOB_KIND)) as [Hk|]; [|done].
  destruct (bool_decide_reflect (Job.sj_type s = js "document")) as [Hty|]; [|done]. cbn [andb] in Hd.
  assert (Hs : s = Job.mkSubject (js "document") s.(Job.sj_id)) by (destruct s; cbn in *; by subst).
  exists (Job.saved c). split; [by exists j|].
  destruct type; try done; destruct (parse (VStr (j_organizationId c))) as [org|] eqn:Eo; try done; injection Hd as <-;
    (split; [by apply Job.job_saved_wf|]); cbn -[parse] in Hst |- *; rewrite Eo, Es, <- Hs; split_and!; try done; auto.
Qed.

Lemma effect_before action cmd w0 w1 w2 : Rel w0 w1 -> effect action cmd w1 w2 -> effect action cmd w0 w2.
Proof.
  intros Hr (before & at_ & next & after & Hb & H). exists before, at_, next, after. split; [|done].
  intros s Hs. destruct (documentAt_rel _ _ _ _ (rel_documents _ _ Hr) Hs) as (s' & Hs' & Hss). etrans; [exact Hss|by apply Hb].
Qed.

Lemma documentAt_effect action cmd w w1 w2 : Rel w1 w2 -> effect action cmd w w1 -> effect action cmd w w2.
Proof.
  intros Hr (before & at_ & next & after & Hb & Hl & Ht & Hat & Hc).
  destruct (documentAt_rel _ _ _ _ (rel_documents _ _ Hr) Hat) as (x & Hx & Hax).
  exists before, at_, next, x. split_and!; try done; [eapply linked_rel; [apply Hr|exact Hl]|by etrans].
Qed.

(** A delivery that ended well did what its event says to the document. *)
Definition carried (event : Events.Envelope) (w0 w : World) : Prop :=
  forall o, decodeJobEvent event = Ok (Some o) ->
    exists c work, been w.(jobs) c /\ backed (commandOf o.(o_action)) (outcomeCommand o work) c
      /\ effect (commandOf o.(o_action)) (outcomeCommand o work) w0 w.

Lemma handle_safe e w :
  Inv w -> recorded w.(jobs) e -> safe (handle e) (fun r w' => isOk r = true -> carried e w w') w.
Proof.
  intros HI He. unfold handle. cbn [bind pure_]. destruct (decodeJobEvent e) as [[o|]|f] eqn:Ed; [| |done].
  2: { intros w' _ _ _ o. congruence. }
  eapply (wp_seq _ _ _ processing_rel_refl processing_rel_trans _ _ (fun _ _ => True)); [apply childWork_safe|done|].
  intros r w1 HI1 Hr1 _. destruct r as [work|]; [|done].
  destruct (outcome_backed _ e o work (inv_jobs _ HI) He Ed) as (c & Hbeen & Hback).
  assert (Hbeen1 : been w1.(jobs) c) by (eapply been_rel; [apply Hr1|exact Hbeen]).
  eapply (wp_seq _ _ _ processing_rel_refl processing_rel_trans); [by apply (process_safe _ _ c)|done|].
  intros r w2 HI2 Hr2 Heff. destruct r as [d|]; [|done]. destruct (Heff d eq_refl) as [_ Heff']. intros w' Hr' _ _ o' Ho'. rewrite Ed in Ho'. injection Ho' as <-.
  exists c, work. split; [eapply been_rel; [apply Hr'|]; eapply been_rel; [apply Hr2|exact Hbeen1]|]. split; [done|].
  eapply documentAt_effect; [exact Hr'|]. by eapply effect_before; [exact Hr1|].
Qed.

Lemma deliver_safe e w : safe (deliver e) (fun r w' => isOk r = true -> carried e w w') w.
Proof.
  unfold deliver. cbn [bind perform]. apply (wp_read _ _ _ processing_rel_refl); [by apply processing_read_only|].
  intros [] w1 Hr1 HI1 [Hin _]. eapply wp_weaken; [|apply handle_safe; [done|]].
  - intros r w2 Hc Hok o Ho. destruct (Hc Hok o Ho) as (c & work & ? & ? & Heff). exists c, work. split_and!; [done..|].
    eapply effect_before; [exact Hr1|exact Heff].
  - by eapply (proj1 (Forall_forall _ _) (JobWorld.inv_told _ (inv_jobs _ HI1))).
Qed.
(** The caller is an active owner or admin of the active organization. *)
Definition granted (c : RequestCommand) : Prop :=
  exists v, membershipOf c.(rq_sessionToken) c.(rq_organizationId) (Ok (Some v))
    /\ hasAccess (Some v) = true /\ mayProcess (Some v) = true.

(** The command's identifiers are in the form identifiers have. *)
Definition spelled (c : RequestCommand) : Prop :=
  parse (VStr c.(rq_organizationId)) = Ok c.(rq_organizationId) /\ parse (VStr c.(rq_documentId)) = Ok c.(rq_documentId).

(** What a request that succeeded did: its caller was allowed to ask, its job is
    a stored job of the document, and the document's run began under it. *)
Definition requested (c : RequestCommand) (res : RequestResult) (w0 w : World) : Prop :=
  granted c /\ res.(rr_documentId) = c.(rq_documentId)
  /\ exists work work', JobWorld.named (submission c work) res.(rr_jobId) w.(jobs)
    /\ effect DocumentCommands.a_begin (beginning c res.(rr_jobId) work') w0 w.

Lemma named_backed c work work' jobId js_ :
  JobWorld.Inv js_ -> spelled c -> JobWorld.named (submission c work) jobId js_ ->
  exists p, been js_ p /\ backed DocumentCommands.a_begin (beginning c jobId work') p.
Proof.
  intros HI [Ho _] (p & Hp & Hpo & Hpk & Hps). assert (Hid : p.(j_id) = jobId) by (by apply (JobWorld.inv_keyed _ HI)).
  exists p. split; [exists p; rewrite Hid; split; [done|apply rtc_refl]|]. cbn in Hpo, Hpk, Hps.
  split; [by eapply (JobWorld.inv_wf _ HI)|]. cbn -[parse]. by rewrite Hpo.
Qed.

Lemma checkProcessable_quiet organizationId documentId : every quiet (DocumentCommands.checkDocumentProcessable organizationId documentId).
Proof.
  split; [done|]. intros r. cbn. destruct (mapError r _) as [found|]; [|done]. cbn. destruct (DocumentCommands.ownedBy _ _) as [d|]; [|done].
  cbn. destruct (negb _); [|done]. cbn. by destruct (negb _).
Qed.

Lemma checkProcessable_safe organizationId documentId w :
  wp execDocuments DocumentWorld.Inv DocumentWorld.Rel (DocumentCommands.checkDocumentProcessable organizationId documentId) (fun _ _ => True) w.
Proof.
  unfold DocumentCommands.checkDocumentProcessable. cbn [bind perform orElse DocumentCommands.depends].
  apply (wp_read _ _ _ DocumentWorld.document_rel_refl); [by apply DocumentWorld.document_read_only|]. intros r w1 _ _ _.
  destruct r as [found|]; [|done]. cbn [mapError bind pure_]. destruct (DocumentCommands.ownedBy _ _) as [d|]; [|done].
  cbn. destruct (negb _); [|done]. cbn. by destruct (negb _).
Qed.

Lemma request_safe c w :
  Inv w -> spelled c -> safe (requestProcessing c) (fun r w' => forall res, r = Ok res -> requested c res w w') w.
Proof.
  intros HI Hc. unfold requestProcessing. cbn [bind require]. destruct (operationIs _ _); [|done].
  cbn [bind perform]. apply (wp_read _ _ _ processing_rel_refl); [by apply processing_read_only|]. intros r w1 Hr1 HI1 [Hm _].
  destruct r as [view|]; [|done]. cbn [bind require]. destruct (hasAccess view) eqn:Ea; [|done]. cbn [bind require].
  destruct (mayProcess view) eqn:Em; [|done]. destruct view as [v|]; [|done].
  assert (Hg : granted c) by (by exists v). cbn [bind].
  eapply (wp_seq _ _ _ processing_rel_refl processing_rel_trans);
    [apply inDocuments_safe; [apply checkProcessable_quiet|apply checkProcessable_safe]|done|]. intros r w2 HI2 Hr2 _. destruct r; [|done].
  eapply (wp_seq _ _ _ processing_rel_refl processing_rel_trans); [apply childWork_safe|done|]. intros r w3 HI3 Hr3 _. destruct r as [jobWork|]; [|done].
  eapply (wp_seq _ _ _ processing_rel_refl processing_rel_trans);
    [apply inJobs_safe, (JobWorld.submitWorkflowJob_safe _ _ w3.(jobs) false); [done|apply JobWorld.job_rel_refl|done]|done|].
  intros r w4 HI4 Hr4 [Hn _]. destruct r as [sub|]; [|done]. specialize (Hn sub (proj2 Hc) eq_refl).
  eapply (wp_seq _ _ _ processing_rel_refl processing_rel_trans); [apply childWork_safe|done|]. intros r w5 HI5 Hr5 _. destruct r as [beginWork|]; [|done].
  assert (Hn5 : JobWorld.named (submission c jobWork) sub.(JobCommands.wr_jobId) w5.(jobs)) by (eapply JobWorld.named_rel; [apply Hr5|exact Hn]).
  destruct (named_backed c jobWork beginWork _ _ (inv_jobs _ HI5) Hc Hn5) as (p & Hbeen & Hback).
  eapply (wp_seq _ _ _ processing_rel_refl processing_rel_trans); [by apply (process_safe _ _ p)|done|]. intros r w6 HI6 Hr6 Heff.
  destruct r as [begun|]; [|done]. destruct (Heff begun eq_refl) as [Hid He]. intros w' Hr' _ res [= <-].
  split; [done|]. split; [exact Hid|]. exists jobWork, beginWork. cbn [rr_jobId].
  assert (H5 : Rel w w5) by eauto 6 using processing_rel_trans.
  split; [|eapply documentAt_effect; [exact Hr'|by eapply effect_before]].
  eapply JobWorld.named_rel; [apply Hr'|]. eapply JobWorld.named_rel; [apply Hr6|]. exact Hn5.
Qed.

(** ** Everything that happens at once. *)

(** What runs in the process: requests, deliveries of events, and the commands
    of the two modules themselves. *)
Inductive Activity : Type :=
| aRequest (c : RequestCommand)
| aDeliver (event : Events.Envelope)
| aJob (c : JobWorld.JobCommand)
| aCreate (c : DocumentCommands.CreateDocumentCommand)
| aArchive (c : DocumentCommands.ArchiveDocumentCommand).

(** The answer of an activity: what a request returns. *)
Definition answered {A} (f : A -> option RequestResult) (p : Command A) : Command (option RequestResult) :=
  bind p (fun r => Ret (match r with Ok x => Ok (f x) | Err e => Err e end)).
Definition activity (a : Activity) : Command (option RequestResult) :=
  match a with
  | aRequest c => answered Some (requestProcessing c)
  | aDeliver event => answered (fun _ => None) (deliver event)
  | aJob c => answered (fun _ => None) (inJobs (JobWorld.program c))
  | aCreate c => answered (fun _ => None) (inDocuments (DocumentCommands.createDocument c))
  | aArchive c => answered (fun _ => None) (inDocuments (DocumentCommands.archiveDocument c))
  end.

(** Requests spell their identifiers in canonical form. *)
Definition wellAsked (a : Activity) : Prop := match a with aRequest c => spelled c | _ => True end.

(** What an activity that ended with [r] did. *)
Definition did (a : Activity) (w0 : World) (r : Res (option RequestResult)) (w : World) : Prop :=
  match a, r with
  | aRequest c, Ok (Some res) => requested c res w0 w
  | aDeliver event, Ok _ => carried event w0 w
  | _, _ => True
  end.

Lemma createDocument_quiet c : every quiet (DocumentCommands.createDocument c).
Proof.
  unfold DocumentCommands.createDocument. cbn [bind require]. destruct (operationIs _ _); [|done].
  split; [done|]. intros r. cbn [mapError bind]. destruct (mapError r _) as [access|]; [|done]. cbn [bind require].
  destruct (negb _); [|done]. split; [done|]. intros at_. split; [done|]. intros r'. cbn [bind].
  destruct (mapError r' _) as [id|]; [|done]. cbn [bind pure_]. destruct (Document.create _) as [d|] eqn:Ed; [|done].
  split; [done|]. intros r''. cbn [bind]. destruct (mapError r'' _) as [eid|]; [|done].
  cbn [bind DocumentCommands.documentEvent DocumentCommands.depends orElse]. destruct (mapError (Events.create _ _ _ _ _ _ _) _); [|done].
  split; [|intros r3; cbn; by destruct (mapError r3 _)]. left. cbn. unfold Document.create in Ed. by ok_branches Ed.
Qed.

Lemma archiveDocument_quiet c : every quiet (DocumentCommands.archiveDocument c).
Proof.
  unfold DocumentCommands.archiveDocument. cbn [bind require]. destruct (operationIs _ _); [|done].
  split; [done|]. intros r. cbn [mapError bind]. destruct (mapError r _) as [access|]; [|done]. cbn [bind require].
  destruct (DocumentCommands.administers _); [|done]. split; [done|]. intros r'. cbn [bind].
  destruct (mapError r' _) as [found|]; [|done]. cbn [bind pure_]. destruct (DocumentCommands.ownedBy _ _) as [d|]; [|done].
  split; [done|]. intros at_. cbn [bind]. destruct (Document.archive _ _) as [d'|] eqn:Ed; [|done].
  split; [done|]. intros r''. cbn [bind]. destruct (mapError r'' _) as [eid|]; [|done].
  cbn [bind DocumentCommands.documentEvent DocumentCommands.depends orElse]. destruct (mapError (Events.create _ _ _ _ _ _ _) _); [|done].
  split; [|intros r3; cbn; by destruct (mapError r3 _)]. right. cbn. unfold Document.archive in Ed. by ok_branches Ed.
Qed.

Lemma answered_safe {A} (f : A -> option RequestResult) (p : Command A) post post' w :
  Inv w -> safe p post w -> (forall r w', post r w' -> post' (match r with Ok x => Ok (f x) | Err e => Err e end) w') ->
  (forall r w' w'', post' r w' -> Rel w' w'' -> post' r w'') -> safe (answered f p) post' w.
Proof.
  intros HI Hp Hpost Hlater. unfold answered. eapply (wp_seq _ _ _ processing_rel_refl processing_rel_trans); [exact Hp|done|].
  intros r w1 HI1 Hr1 Hd w2 Hr2 HI2. eapply Hlater; [by apply Hpost|done].
Qed.

Lemma did_later a w0 r w w' : did a w0 r w -> Rel w w' -> did a w0 r w'.
Proof.
  destruct a as [c|e|c|c|c]; cbn; [| |done..].
  - destruct r as [[res|]|f]; [|done..]. intros (Hg & Hid & work & work' & Hn & He) Hr. split; [done|]. split; [done|].
    exists work, work'. split; [eapply JobWorld.named_rel; [apply Hr|exact Hn]|by eapply documentAt_effect].
  - destruct r as [x|f]; [|done]. intros Hc Hr o Ho. destruct (Hc o Ho) as (c & work & Hb & Hback & He).
    exists c, work. split; [eapply been_rel; [apply Hr|exact Hb]|]. split; [done|]. by eapply documentAt_effect.
Qed.

Lemma activity_safe a w : Inv w -> wellAsked a -> safe (activity a) (did a w) w.
Proof.
  intros HI Ha. destruct a as [c|e|c|c|c]; cbn [activity wellAsked] in *.
  - eapply answered_safe; [done|by apply request_safe| |intros r w1 w2; apply did_later].
    intros r w1 H. destruct r as [res|]; [|done]. by apply H.
  - eapply answered_safe; [done|apply deliver_safe| |intros r w1 w2; apply did_later].
    intros r w1 H. destruct r as [res|]; [|done]. by apply H.
  - apply (answered_safe _ _ (fun _ _ => True)); [done| |by intros []|by intros []].
    eapply wp_weaken; [|apply inJobs_safe, JobWorld.job_program_safe, HI]. done.
  - apply (answered_safe _ _ (fun _ _ => True)); [done| |by intros []|by intros []].
    eapply wp_weaken; [|apply inDocuments_safe; [apply createDocument_quiet|apply DocumentWorld.createDocument_safe]]. done.
  - apply (answered_safe _ _ (fun _ _ => True)); [done| |by intros []|by intros []].
    eapply wp_weaken; [|apply inDocuments_safe; [apply archiveDocument_quiet|apply DocumentWorld.archiveDocument_safe]]. done.
Qed.

Lemma activities_safe activities w w' rest :
  Forall wellAsked activities -> Inv w -> rtc (pool_step exec) (w, activity <$> activities) (w', rest) ->
  Inv w' /\ Rel w w' /\ forall i a r, activities !! i = Some a -> rest !! i = Some (Ret r) -> did a w r w'.
Proof.
  intros Hasked HI Hrun.
  destruct (pool_safe exec Inv Rel processing_rel_refl processing_rel_trans
    (fun i r w'' => forall a, activities !! i = Some a -> did a w r w'') w (activity <$> activities) w' rest Hrun HI) as (HI' & Hr & Hd).
  - intros i p Hp. apply list_lookup_fmap_Some in Hp as (a & -> & Ha).
    eapply wp_weaken; [|apply activity_safe; [done|by eapply Forall_lookup_1]]. intros r w'' Hd a' Ha'. congruence.
  - split; [done|]. split; [done|]. intros i a r Ha Hrest. by eapply Hd.
Qed.

(** C2. Documents tell the truth about their jobs. Requests for processing,
    deliveries of published events (late, repeated, in any order), every command
    of the jobs module, and the creation and archival of documents run together
    in any interleaving of their port calls, with any clock, identifiers, access
    decisions and dependency failures. At the end both modules are consistent
    and every document's processing state agrees with the jobs: a document waits
    only on a job of its own that exists, is processed only if its job
    succeeded, and carries a failure only if its job was at that attempt failed
    or canceled, with the job's failure code. Every request that succeeded was
    made by an active owner or admin of the active organization, names a job
    stored for that document, and began the document's run under it; every
    delivery that succeeded applied its event's outcome to the document as it
    was then. *)
Theorem processing_consistent (activities : list Activity) (w w' : World) (rest : list (Command (option RequestResult)))
    (Hasked : Forall wellAsked activities) (Hstart : Inv w)
    (Hrun : rtc (pool_step exec) (w, activity <$> activities) (w', rest)) :
  Inv w' /\ Rel w w'
  /\ (forall id d, documentAt w'.(documents) id d -> linked w'.(jobs) d)
  /\ (forall i a r, activities !! i = Some a -> rest !! i = Some (Ret r) -> did a w r w').
Proof.
  destruct (activities_safe activities w w' rest Hasked Hstart Hrun) as (HI & Hr & Hd).
  split_and!; [done|done|apply HI|exact Hd].
Qed.

(** ** What becomes of a document whose job completed. *)

(** The document waits on the job [run]. *)
Definition waits (run : ID) (d : Document) : Prop :=
  d.(d_processingRun) = Some run /\ (d.(d_status) = Document.processing \/ d.(d_status) = Document.processing_failed).
(** Nothing is left to do for the document. *)
Definition finished (d : Document) : Prop := d.(d_status) = Document.processed \/ d.(d_status) = Document.archived.

Lemma document_step_edge d d' : Document.step d d' -> Document.edge d.(d_status) d'.(d_status) = true.
Proof.
  intros [x t y H|x t run y H|x t o y H].
  - unfold Document.archive in H. ok_branches H. apply bool_decide_eq_false in E1. cbn. by destruct (d_status x).
  - unfold Document.beginProcessing in H. ok_branches H. cbn. rewrite !bool_decide_eq_false in *. by destruct (d_status x).
  - destruct (Document.outcome_new _ _ _ _ H) as (_ & Hst & s & c & -> & Hs). apply Document.stale_spec in Hst as (Hd & _).
    cbn. destruct Hd as [-> | ->]; naive_solver.
Qed.

Lemma evo_edge d d' : Aggregates.evo d d' -> Document.edge d.(d_status) d'.(d_status) = true.
Proof. intros (c & Hc & ->). exact (document_step_edge d c Hc). Qed.

Lemma finished_evo d d' : rtc Aggregates.evo d d' -> finished d -> finished d'.
Proof.
  induction 1 as [|a b c Hab _ IH]; [done|]. intros Hf. apply IH. apply evo_edge in Hab.
  unfold finished in *. destruct Hf as [Hf|Hf]; rewrite Hf in Hab; destruct (d_status b); try done; auto.
Qed.

Lemma begun_evo d d' : rtc Aggregates.evo d d' -> d.(d_status) <> Document.active -> d'.(d_status) <> Document.active.
Proof.
  induction 1 as [|a b c Hab _ IH]; [done|]. intros _. apply IH. apply evo_edge in Hab. by destruct (d_status a), (d_status b).
Qed.

(** A job that succeeded stays as it is, and none of its earlier states counts
    more attempts. *)
Lemma succeeded_final c j : rtc evo c j -> c.(j_status) = Job.succeeded -> j = c.
Proof.
  intros Hr Hs. inversion Hr as [|x y z (t & x' & Ht & _) _]; [done|subst].
  pose proof (Projection.final_refuses c t (or_introl Hs)) as Hf. by rewrite Ht in Hf.
Qed.

Lemma attempts_grow c j : rtc evo c j -> c.(j_attempts) <= j.(j_attempts).
Proof.
  induction 1 as [|a b c (t & a' & Ht & ->) _ IH]; [done|]. destruct (Job.transition_attempts _ _ _ Ht) as (Ha & _).
  cbn in IH. destruct t; lia.
Qed.

Lemma completed_attempts js_ c c' :
  been js_ c -> been js_ c' -> c.(j_id) = c'.(j_id) -> c.(j_status) = Job.succeeded -> c'.(j_attempts) <= c.(j_attempts).
Proof.
  intros (j & Hj & Hr) (j' & Hj' & Hr') Hid Hs. unfold stored in *. rewrite Hid, Hj' in Hj. injection Hj as <-.
  apply attempts_grow in Hr'. by rewrite <- (succeeded_final _ _ Hr Hs).
Qed.

(** The completion of the job a document waits on makes it processed. *)
Lemma complete_transition js_ before at_ cmd c next :
  linked js_ before -> waits cmd.(DocumentCommands.pd_processingRun) before ->
  been js_ c -> backed DocumentCommands.a_complete cmd c ->
  DocumentCommands.transition before DocumentCommands.a_complete at_ cmd = Ok next ->
  exists d, next = Document.New d /\ d.(d_status) = Document.processed.
Proof.
  intros Hl [Hrun Hst] Hbeen (Hw & Hid & _ & _ & _ & Ha & Hs) Ht. cbn in Ht. unfold Document.applyProcessingOutcome in Ht.
  destruct (negb (validDate at_)); [done|]. destruct (negb _ || _); [done|]. cbv zeta in Ht.
  cbn [DocumentCommands.outcomeOf Document.o_result Document.o_run Document.o_attempt] in Ht. rewrite Ha in Ht. cbn [default num_val] in Ht.
  assert (Hle : d_processingAttempt before <= c.(j_attempts)).
  { destruct Hst as [Hst|Hst]; unfold linked in Hl; rewrite Hst in Hl; destruct Hl as (c' & Hb' & _ & Hr' & _ & _ & _ & H);
      (assert (c'.(j_attempts) <= c.(j_attempts)); [|lia]); apply (completed_attempts js_); try done; congruence. }
  replace (Document.stale _ _ _) with false in Ht; [injection Ht as <-; by eexists|].
  unfold Document.stale. rewrite Hrun, (bool_decide_eq_true_2 (Some _ = Some _)) by done.
  destruct Hst as [-> | ->]; symmetry; cbn; by apply Z.ltb_ge.
Qed.

(** C4. A completed job reaches its document. Whatever else runs, if a document
    waits on a job and a delivery of that job's completion ends without an
    error, then at the end the document is processed (or archived), unless it
    has meanwhile been given another job. Late failures and retries of the job
    cannot undo it, and no report of an earlier attempt can make the completion
    look stale. *)
Theorem completion_reaches_document (activities : list Activity) (w w' : World) (rest : list (Command (option RequestResult)))
    (i : nat) (event : Events.Envelope) (o : JobOutcome) (answer : option RequestResult) (d : Document)
    (Hasked : Forall wellAsked activities) (Hstart : Inv w)
    (Hrun : rtc (pool_step exec) (w, activity <$> activities) (w', rest))
    (Hdelivery : activities !! i = Some (aDeliver event)) (Hended : rest !! i = Some (Ret (Ok answer)))
    (Hevent : decodeJobEvent event = Ok (Some o)) (Hcomplete : o.(o_action) = complete)
    (Hd : documentAt w.(documents) o.(o_documentId) d) (Hwaits : waits o.(o_jobId) d) :
  exists d', documentAt w'.(documents) o.(o_documentId) d' /\ rtc Aggregates.evo d d'
    /\ (finished d'
        \/ exists x, rtc Aggregates.evo d x /\ rtc Aggregates.evo x d' /\ x.(d_processingRun) <> Some o.(o_jobId)).
Proof.
  destruct (activities_safe activities w w' rest Hasked Hstart Hrun) as (HI & _ & Hdid).
  destruct (Hdid i _ _ Hdelivery Hended o Hevent) as (c & work & Hbeen & Hback & before & at_ & next & after & Hb & Hl & Ht & Hat & Hafter).
  rewrite Hcomplete in Hback, Ht. cbn [commandOf] in Hback, Ht. specialize (Hb d Hd). exists after. split; [exact Hat|].
  assert (Hnext : rtc Aggregates.evo before (match next with Document.This => before | Document.New c => Document.saved c end)).
  { destruct next as [|x]; [apply rtc_refl|]. apply rtc_once. exists x. split; [by eapply Document.step_outcome|done]. }
  assert (Hda : rtc Aggregates.evo before after) by by etrans. split; [by etrans|].
  destruct (decide (d_processingRun before = Some (o_jobId o))) as [Hrun'|Hne]; [left|right; by exists before].
  assert (Hact : d_status before <> Document.active) by (eapply begun_evo; [exact Hb|]; destruct Hwaits as [_ [-> | ->]]; done).
  destruct (decide (finished before)) as [Hf|Hnf]; [by eapply finished_evo|].
  destruct (complete_transition (jobs w') before at_ (outcomeCommand o work) c next Hl) as (x & -> & Hx); [|done..|].
  - split; [exact Hrun'|]. unfold finished in Hnf. destruct (d_status before) eqn:Es; cbn in *; try done; auto; destruct Hnf; auto.
  - eapply finished_evo; [exact Hafter|]. left. exact Hx.
Qed.
End Exec.
End ProcessingWorld.
