(* ===== verification/ProcessingRace.v ===== *)
(** * The document-processing workflow: runs.

    Concrete runs of the workflow over ports that are functions: one in which
    all goes well, which shows that the hypotheses of the theorems of
    ProcessingWorld.v can hold, and one in which a job completes before its
    document waits for it. *)
From stdpp Require Import relations.
From S2P Require Import Prelude Async JsMap Errors Ids CaseFolding IsoDate Json Pagination Provenance Events Commands Aggregates Writers.
From S2P Require Import DocumentDomain JobDomain OrganizationDomain OrganizationStore OrganizationApp DocumentApp JobsStore JobsApp JobsWorld Workflow.
From S2P Require Import ProcessingApp ProcessingWorld.

Module ProcessingRace.
Import (hints) Document Job DocumentStore Organization Membership.
Import ProcessingPorts Processing ProcessingWorld JobEvents.
Import DocumentWorld(documentAt) JobWorld(stored).

(** ** A process whose dependencies always answer. *)

Definition timeFor (n : nat) : Date := DateAt (10000 + Z.of_nat n).

Definition sample_organization : Organization.Organization :=
  Organization.mkOrganization (sample_uuid "9") (js "Acme") (js "acme") Organization.active (DateAt 1000) (DateAt 1000) 1.
Definition sample_owner : Membership.Membership :=
  Membership.mkMembership (sample_uuid "6") (sample_uuid "9") (sample_uuid "8") Membership.owner Membership.active
    (DateAt 1000) (DateAt 1000) None 1.
Definition sample_view : Res (option OrgPorts.View) := Ok (Some (OrgPorts.mkView sample_organization sample_owner)).
Definition sample_membership (token : jstring) (organizationId : ID) (r : Res (option OrgPorts.View)) : Prop := r = sample_view.
Definition sample_document_access (token : jstring) (organizationId : ID) (r : Res (option DocumentPorts.Access)) : Prop :=
  r = Ok (Some (DocumentPorts.mkAccess organizationId (sample_uuid "8") DocumentPorts.owner)).
Definition sample_outage (f : Failure) : Prop := f = fail_with unavailable "down" "db.down".
Definition sample_exec := exec (fun _ _ => 0) sample_document_access JobWorld.sample_access sample_membership sample_outage.

(** The answers of the ports a run calls. *)
Definition documentPort (n : nat) (op : DocumentPorts.Op) (w : DocumentWorld.World) : option (DocumentPorts.Ans op * DocumentWorld.World) :=
  match op with
  | DocumentPorts.now => Some (timeFor n, w)
  | DocumentPorts.newId => Some (Ok (idFor n), w)
  | DocumentPorts.findById id => Some (Ok (DocumentStore.documentById id w.(stores)), w)
  | DocumentPorts.commit input =>
      let '(s, sent, r) := DocumentStore.commit input (fun _ => Ok tt) w.(stores) in
      Some (r, Writers.mkWorld s (w.(published) ++ sent))
  | _ => None
  end.
Definition jobPort (n : nat) (op : JobPorts.Op) (w : JobWorld.World) : option (JobPorts.Ans op * JobWorld.World) :=
  match op with
  | JobPorts.now => Some (timeFor n, w)
  | JobPorts.newId =>
      if decide (idFor n ∈ w.(JobWorld.issued)) then None
      else Some (Ok (idFor n), JobWorld.mkWorld w.(JobWorld.jobs) w.(JobWorld.published) (idFor n :: w.(JobWorld.issued)))
  | JobPorts.findAccess token organizationId =>
      Some (Ok (Some (JobPorts.mkAccess organizationId (sample_uuid "8") JobPorts.owner)), w)
  | JobPorts.findById id => Some (Ok (JobStore.jobById id w.(JobWorld.jobs)), w)
  | JobPorts.findOpenBySubject organizationId kind subject =>
      Some (Ok (JobStore.openJobBySubject organizationId kind subject w.(JobWorld.jobs)), w)
  | JobPorts.commit input =>
      let '(s, r) := JobStore.commit input (Ok tt) w.(JobWorld.jobs) in
      Some (r, JobWorld.mkWorld s
                 (if isOk r then w.(JobWorld.published) ++ [input.(JobStore.m_event)] else w.(JobWorld.published)) w.(JobWorld.issued))
  | _ => None
  end.
Definition port (n : nat) (op : Op) (w : World) : option (Ans op * World) :=
  match op with
  | membership _ _ => Some (sample_view, w)
  | now => Some (timeFor n, w)
  | newId => Some (Ok (idFor n), w)
  | document op =>
      match documentPort n op w.(documents) with Some (r, ds) => Some (r, mkWorld ds w.(jobs)) | None => None end
  | job op => match jobPort n op w.(jobs) with Some (r, js_) => Some (r, mkWorld w.(documents) js_) | None => None end
  | delivered _ => None
  end.

Lemma port_exec n op w r w1 : port n op w = Some (r, w1) -> sample_exec op w r w1.
Proof.
  assert (Hid : forall n id, Ok (E := Failure) (idFor n) = Ok id -> matchesShape canonical id = true)
    by (intros k id [= <-]; apply Events.validID_shape, idFor_valid).
  destruct op as [token organizationId| | |op|op|event]; cbn [port]; [by intros [= <- <-]..| | |done].
  - destruct (documentPort n op (documents w)) as [[r' ds]|] eqn:E; [|done]. intros [= <- <-]. split; [|done]. cbn [documents].
    destruct op; cbn in E; try done; try (injection E as <- <-; split; done); try (injection E as <- <-; done).
    + injection E as <- <-. split; [apply Hid|done].
    + destruct (DocumentStore.commit _ _ _) as [[s sent] r''] eqn:Ec. injection E as <- <-.
      exists (fun _ => Ok tt), sent. by split_and!.
  - destruct (jobPort n op (jobs w)) as [[r' js_]|] eqn:E; [|done]. intros [= <- <-]. split; [|done]. cbn [jobs].
    destruct op; cbn in E; try done; try (injection E as <- <-; split; done); try (injection E as <- <-; done).
    + destruct (decide _); [done|]. injection E as <- <-. cbn. split; [done|]. split; [apply idFor_valid|done].
    + destruct (JobStore.commit _ _ _) as [s r''] eqn:Ec. injection E as <- <-. exists (Ok tt). by split_and!.
Qed.

(** ** The start: one document, nobody processing it. *)
Definition sample_created : Events.Envelope := resultOr Events.sample_envelope DocumentWorld.sample_event.
Definition sample_start : World :=
  mkWorld (DocumentWorld.withDocument DocumentWorld.sample_new sample_created DocumentWorld.empty_world) (JobWorld.mkWorld [] [] []).

Definition sample_ask : RequestCommand :=
  mkRequest (js "token") (sample_uuid "9") (sample_uuid "5") VUndefined (sample_operation "document.processing.request").
Definition order_ (action : JobCommands.Action) (id : ID) (operation : string) : JobWorld.JobCommand :=
  JobWorld.cTransition action (JobCommands.mkTransition (js "token") (sample_uuid "9") id VUndefined (sample_operation operation)).

(** The request, a worker that starts and completes the job it made, and a
    delivery. *)
Definition sample_job : ID := idFor 8.
Definition pool (event : Events.Envelope) : list Activity :=
  [aRequest sample_ask; aJob (order_ JobCommands.a_start sample_job "job.start");
   aJob (order_ JobCommands.a_complete sample_job "job.complete"); aDeliver event].
Definition ended : list (Res (option RequestResult)) :=
  [Ok (Some (mkRequested (sample_uuid "5") sample_job Document.processing Job.queued true)); Ok None; Ok None; Ok None].

(** The world before the delivery, when the calls came in the order [turns]. *)
Definition undelivered (turns : list nat) (event : Events.Envelope) : option (list (Command (option RequestResult)) * World) :=
  schedule port 0 turns (activity <$> pool event) sample_start.
Definition at_delivery (turns : list nat) : World := default sample_start (snd <$> undelivered turns Events.sample_envelope).
(** The event of the completion: the third the job published. *)
Definition completion (turns : list nat) : Events.Envelope :=
  default Events.sample_envelope ((at_delivery turns).(jobs).(JobWorld.published) !! 2%nat).
(** The run after the delivery. *)
Definition afterwards (turns turns' : list nat) : option (list (Command (option RequestResult)) * World) :=
  match undelivered turns (completion turns) with
  | Some (ps, w) =>
      schedule port 30 turns' (<[3%nat := answered (fun _ => None) (handle (completion turns))]> ps) w
  | None => None
  end.
Definition at_end (turns turns' : list nat) : World := default sample_start (snd <$> afterwards turns turns').


Lemma race_runs turns turns' ps w :
  3%nat ∉ turns -> completion turns ∈ (default sample_start (snd <$> undelivered turns (completion turns))).(jobs).(JobWorld.published) ->
  afterwards turns turns' = Some (ps, w) -> rtc (pool_step sample_exec) (sample_start, activity <$> pool (completion turns)) (w, ps).
Proof.
  intros Hi Hin. unfold afterwards. destruct (undelivered turns (completion turns)) as [[ps1 w1]|] eqn:E1; [|done].
  intros E2. pose proof (schedule_idle port _ _ _ _ _ _ 3%nat E1 Hi) as H3.
  etrans; [by eapply (schedule_runs sample_exec port); [apply port_exec|exact E1]|].
  eapply rtc_l; [|by eapply (schedule_runs sample_exec port); [apply port_exec|exact E2]].
  eapply (pool_at sample_exec _ _ (delivered (completion turns)) (fun _ => answered (fun _ => None) (handle (completion turns))) tt); [exact H3|].
  by split.
Qed.

(** A run that ended with [answers]. *)
Lemma race_ends turns turns' answers :
  3%nat ∉ turns -> completion turns ∈ (default sample_start (snd <$> undelivered turns (completion turns))).(jobs).(JobWorld.published) ->
  (fun x => answers_of x.1) <$> afterwards turns turns' = Some (Some <$> answers) ->
  rtc (pool_step sample_exec) (sample_start, activity <$> pool (completion turns)) (at_end turns turns', Ret <$> answers).
Proof.
  intros Hi Hin Ha. unfold at_end. destruct (afterwards turns turns') as [[ps w]|] eqn:E; [|done].
  injection Ha as Ha. cbn. rewrite <- (answers_of_all _ _ Ha). by eapply race_runs.
Qed.

Lemma sample_document_inv : DocumentWorld.Inv sample_start.(documents).
Proof.
  destruct DocumentWorld.document_sample_created as [e Hrun].
  destruct (DocumentWorld.document_sample_inv e Hrun) as [Hk Hw He]. by split.
Qed.

Lemma sample_start_inv : Inv sample_start.
Proof.
  split; [apply sample_document_inv| |].
  - constructor; [apply JobStore.job_keyed_nil|done|done|done|done|by intros id ?%elem_of_nil|constructor].
  - intros id d Hd. apply DocumentWorld.documentAt_write in Hd as [[-> ->]|[_ Hd]]; [|done]. exact I.
Qed.

Lemma sample_asked event : Forall wellAsked (pool event).
Proof. repeat constructor; vm_compute; reflexivity. Qed.

Definition happy : list nat := repeat 0%nat 19 ++ repeat 1%nat 5 ++ repeat 2%nat 5.
Definition early : list nat := repeat 0%nat 11 ++ repeat 1%nat 5 ++ repeat 2%nat 5.

Lemma happy_ends :
  rtc (pool_step sample_exec) (sample_start, activity <$> pool (completion happy))
    (at_end happy (repeat 3%nat 8), Ret <$> ended).
Proof.
  apply race_ends; [by apply (bool_decide_unpack _)| |vm_compute; reflexivity].
  apply (list_elem_of_lookup_2 _ 2). vm_compute. reflexivity.
Qed.

Lemma early_ends :
  rtc (pool_step sample_exec) (sample_start, activity <$> pool (completion early))
    (at_end early (repeat 3%nat 6 ++ repeat 0%nat 8), Ret <$> ended).
Proof.
  apply race_ends; [by apply (bool_decide_unpack _)| |vm_compute; reflexivity].
  apply (list_elem_of_lookup_2 _ 2). vm_compute. reflexivity.
Qed.

(** ** The hypotheses can hold. *)

Lemma document_in {A} (w : World) (id : ID) (f : Document.Document -> A) (x : A) :
  f <$> DocumentStore.documentById id w.(documents).(stores) = Some x -> exists d, documentAt w.(documents) id d /\ f d = x.
Proof. intros (d & Hd & ->)%fmap_Some. by exists d. Qed.
Lemma job_in {A} (w : World) (id : ID) (f : Job.Job -> A) (x : A) :
  f <$> JobStore.jobById id w.(jobs).(JobWorld.jobs) = Some x -> exists j, stored w.(jobs) id j /\ f j = x.
Proof. intros (j & Hj & ->)%fmap_Some. by exists j. Qed.

Lemma processing_consistent_witness :
  rtc (pool_step sample_exec) (sample_start, activity <$> pool (completion happy)) (at_end happy (repeat 3%nat 8), Ret <$> ended)
  /\ exists d, documentAt (at_end happy (repeat 3%nat 8)).(documents) (sample_uuid "5") d /\ d.(Document.d_status) = Document.processed
       /\ linked (at_end happy (repeat 3%nat 8)).(jobs) d.
Proof.
  split; [exact happy_ends|].
  destruct (processing_consistent _ _ _ _ _ (pool (completion happy)) sample_start (at_end happy (repeat 3%nat 8)) (Ret <$> ended)
    (sample_asked _) sample_start_inv happy_ends) as (_ & _ & Hlinked & _).
  destruct (document_in (at_end happy (repeat 3%nat 8)) (sample_uuid "5") (fun d => d.(Document.d_status)) Document.processed) as (d & Hd & Hs);
    [vm_compute; reflexivity|].
  exists d. split; [exact Hd|]. split; [exact Hs|]. exact (Hlinked _ _ Hd).
Defined.

(** The moment of the delivery in the run in which all goes well. *)
Definition waiting : World := at_delivery happy.
Definition delivering : option (list (Command (option RequestResult)) * World) :=
  schedule port 30 (repeat 0%nat 8) [answered (fun _ => None) (handle (completion happy))] waiting.
Definition after_delivery : World := default sample_start (snd <$> delivering).

Lemma waiting_reached : exists ps, rtc (pool_step sample_exec) (sample_start, activity <$> pool Events.sample_envelope) (waiting, ps).
Proof.
  unfold waiting, at_delivery. destruct (undelivered happy Events.sample_envelope) as [[ps w]|] eqn:E; [|exists (activity <$> pool Events.sample_envelope); apply rtc_refl].
  exists ps. by eapply (schedule_runs sample_exec port); [apply port_exec|exact E].
Qed.

Lemma waiting_inv : Inv waiting.
Proof.
  destruct waiting_reached as [ps Hrun]. by destruct (activities_safe _ _ _ _ _ _ _ _ _ (sample_asked _) sample_start_inv Hrun).
Qed.

Lemma delivering_runs :
  rtc (pool_step sample_exec) (waiting, activity <$> [aDeliver (completion happy)]) (after_delivery, [Ret (Ok None)]).
Proof.
  assert (Ha : (fun x => answers_of x.1) <$> delivering = Some [Some (Ok None)]) by (vm_compute; reflexivity).
  unfold after_delivery. destruct delivering as [[ps w]|] eqn:E; [|done]. injection Ha as Ha. cbn [fmap option_map default snd option_fmap].
  apply (answers_of_all _ [Ok None]) in Ha as ->.
  eapply rtc_l; [|by eapply (schedule_runs sample_exec port); [apply port_exec|exact E]].
  apply (pool_at sample_exec [activity (aDeliver (completion happy))] 0 (delivered (completion happy))
    (fun _ => answered (fun _ => None) (handle (completion happy))) tt); [reflexivity|].
  split; [|done]. apply (list_elem_of_lookup_2 _ 2). vm_compute. reflexivity.
Qed.

Lemma completion_reaches_document_witness :
  exists d d', documentAt waiting.(documents) (sample_uuid "5") d /\ waits sample_job d
    /\ documentAt after_delivery.(documents) (sample_uuid "5") d' /\ rtc Aggregates.evo d d'
    /\ (finished d' \/ exists x, rtc Aggregates.evo d x /\ rtc Aggregates.evo x d' /\ x.(Document.d_processingRun) <> Some sample_job).
Proof.
  destruct (document_in waiting (sample_uuid "5") (fun d => (d.(Document.d_processingRun), d.(Document.d_status)))
    (Some sample_job, Document.processing)) as (d & Hd & Hw); [vm_compute; reflexivity|].
  injection Hw as Hrun Hst. assert (Hwaits : waits sample_job d) by (split; [exact Hrun|left; exact Hst]).
  exists d. destruct (completion_reaches_document _ _ _ _ _ [aDeliver (completion happy)] waiting after_delivery [Ret (Ok None)] 0 (completion happy)
    (mkOutcome complete (sample_uuid "9") (sample_uuid "5") sample_job 1 None) None d
    ltac:(repeat constructor) waiting_inv delivering_runs eq_refl eq_refl ltac:(vm_compute; reflexivity) eq_refl Hd Hwaits) as (d' & Hd' & Hr & Hf).
  exists d'. split_and!; assumption.
Defined.

(** ** A job that completes before its document waits for it. *)

Lemma outcomes_of_three events event :
  length events = 3%nat -> decodeJobEvent <$> events !! 0%nat = Some (Ok None) ->
  decodeJobEvent <$> events !! 1%nat = Some (Ok None) -> events !! 2%nat = Some event ->
  Forall (fun e => e = event \/ decodeJobEvent e = Ok None) events.
Proof.
  destruct events as [|a [|b [|c [|]]]]; try done. intros _ [= Ha] [= Hb] [= ->]. repeat (apply Forall_cons; split; [auto|]). apply Forall_nil_2.
Qed.

(** C39. A job can complete before its document waits for it. The request submits
    the job and begins the document's run afterwards, and nothing holds the job
    back in between. In the run below a worker starts and
    completes the job, and its completion is delivered, before the request
    begins the run. Every command succeeds, and every event that carries an
    outcome has been delivered. Yet the document ends up waiting on a job that
    has succeeded and can never report again. *)
Theorem early_completion_strands :
  let w' := at_end early (repeat 3%nat 6 ++ repeat 0%nat 8) in
  Inv sample_start
  /\ rtc (pool_step sample_exec) (sample_start, activity <$> pool (completion early)) (w', Ret <$> ended)
  /\ (exists o, decodeJobEvent (completion early) = Ok (Some o) /\ o.(o_action) = complete
        /\ o.(o_jobId) = sample_job /\ o.(o_documentId) = sample_uuid "5")
  /\ Forall (fun e => e = completion early \/ decodeJobEvent e = Ok None) w'.(jobs).(JobWorld.published)
  /\ (exists d, documentAt w'.(documents) (sample_uuid "5") d /\ d.(Document.d_status) = Document.processing
        /\ d.(Document.d_processingRun) = Some sample_job)
  /\ (exists j, stored w'.(jobs) sample_job j /\ j.(Job.j_status) = Job.succeeded
        /\ forall t, isOk (Job.transition j t) = false).
Proof.
  intros w'. split; [exact sample_start_inv|]. split; [exact early_ends|]. split; [|split; [|split]].
  - exists (mkOutcome complete (sample_uuid "9") (sample_uuid "5") sample_job 1 None). split; [vm_compute; reflexivity|done].
  - apply outcomes_of_three; vm_compute; reflexivity.
  - destruct (document_in w' (sample_uuid "5") (fun d => (d.(Document.d_status), d.(Document.d_processingRun)))
      (Document.processing, Some sample_job)) as (d & Hd & Hw); [vm_compute; reflexivity|].
    injection Hw as Hs Hr. exists d. split_and!; assumption.
  - destruct (job_in w' sample_job (fun j => j.(Job.j_status)) Job.succeeded) as (j & Hj & Hs); [vm_compute; reflexivity|].
    exists j. split; [exact Hj|]. split; [exact Hs|]. intros t. apply Projection.final_refuses. left. exact Hs.
Qed.
End ProcessingRace.
